(* ===== verification/_CoqProject ===== *)
-Q . S2P
Prelude.v
Bus.v
BusProps.v
BusMem.v
Elf.v
IrTypes.v
IrFloat.v
IrWindows.v
BusDemo.v
RvHart.v
RvBus.v
RvPmp.v
RvTrig.v
RvMmu.v
RvWalk.v
RvAccess.v
RvCoherent.v
RvFill.v
RvFence.v
RvMem.v
RvTrap.v
RvCsr.v
RvDecode.v
RvRvc.v
RvAtomic.v
RvFpu.v
RvInterp.v
RvFrame.v
RvInv.v
RvTrapProps.v
RvRun.v
RvConfine.v
RvIrq.v
RvClint.v
RvAplic.v
RvAplicProps.v
RvTyped.v
RvGuest.v
RvContain.v
RvSoc.v
RvLines.v
RvDemo.v
RvRunDemo.v
IrInterp.v
IrPasses.v
IrSem.v
IrSubst.v
IrFuse.v
IrLaws.v
IrTraffic.v
IrFlags.v
IrDead.v
IrRetire.v
IrOptimise.v
IrLoop.v
IrBuilder.v
IrRegalloc.v
IrDemo.v
RvIr.v
RvIrXlate.v
RvIrCalm.v
RvIrCpu.v
RvIrSim.v
RvIrRules.v
RvIrAlu.v
RvIrLower.v
RvIrBlock.v
RvIrRun.v
RvIrBounds.v
RvIrDemo.v
Jit.v
JitIndex.v
JitRetire.v
JitBuffer.v
JitRun.v
JitProps.v
JitDemo.v
Gdb.v
GdbProps.v
Devices.v
