(* ===== verification/Prelude.v ===== *)
(** * rv32cortex-m: a verification development for the retargetable emulator

    The program runs guest machines on small hosts.  A frontend (RV32, G4MH,
    PowerPC, ARMv7-M) either interprets guest instructions or translates them
    into blocks of an intermediate representation; the IR is optimised, its
    temps are given host registers, and a backend lowers it to machine code or
    runs it in a portable interpreter.  Everything a guest does to memory goes
    through one bus: a table of regions with small caches in front of it.

    ** What models what

    - This file: C integers at their width, bit operations, tactics, hints and
      the list and map lemmas the components share.
    - Bus ([include/emu/emu_bus.h], [src/emu/emu_bus.c]): [Bus.v] has regions,
      lookup, the slow paths, the six caches in both byte orders, bulk load
      and dump.  Host buffers are a map from buffer and offset to bytes, so
      aliasing between a region and a cache is visible; devices and volatile
      host accesses are parameters.
    - IR ([include/emu/emu_ir.h], [src/emu/emu_ir.c]): [IrTypes.v] data and
      builder, [IrPasses.v] the optimiser, [IrRegalloc.v] the register
      allocator, [IrWindows.v] the windows a backend may access inline;
      [IrInterp.v] and [IrFloat.v] the reference interpreter of
      [src/backend/common/interp.c].
    - RV32 hart ([include/rv32], [src/frontend/rv32]): [RvHart.v] the state;
      [RvPmp.v], [RvTrig.v], [RvMmu.v] protection, triggers, translation;
      [RvAccess.v] the host-address tables and every load and store;
      [RvTrap.v] reset, traps, interrupts; [RvCsr.v] the CSRs; [RvDecode.v]
      fields and compressed forms; [RvAtomic.v] atomics and cache blocks;
      [RvFpu.v] floating point; [RvInterp.v] the interpreter's loop.  One
      definition per C function, with the loops, the arms of a switch and the
      labels of the big functions as definitions of their own.  [RvBus.v] is
      the interface between a hart and the bus: the class [PhysBus] with the
      laws [PhysBusLaws], of which the bus of [Bus.v] is an instance, so
      that no theorem about the hart depends on the bus's representation.
    - RV32 machine ([src/frontend/rv32]): [RvClint.v] the CLINT and its ACLINT
      views, [RvAplic.v] the interrupt controller, [RvSoc.v] the operations of
      [rv32_frontend.c] over hart and devices.  A device operation returns the
      calls of [rv_hart_set_irq] it makes; in a run they are carried out at the
      end of the instruction ([deliver]), since no instruction that reaches a
      device looks at the lines afterwards.
    - RV32 translator ([src/frontend/rv32/rv_ir.c], [include/rv32/rv_jit.h]):
      [RvIr.v] the helpers a block calls and the guest description
      [rv_ir_target], which views the words of [rv_hart_t] a block names by
      offset; [RvIrXlate.v] the lowering of every opcode, the fetch and the
      loop of [rv_ir_translate], in a state monad over the block, and what
      the dispatcher asks of the frontend.  [RvIrCpu.v] shows that this
      description satisfies [TargetLaws]; [RvIrSim.v] and [RvIrRules.v] are a
      small program logic for lowerings; [RvIrAlu.v] and [RvIrLower.v] the
      simulation, opcode by opcode; [RvIrBlock.v], [RvIrRun.v] and
      [RvIrBounds.v] that of whole blocks.
    - JIT framework ([src/emu/emu_jit.c], [include/emu/emu_jit.h]): [Jit.v] the
      table of blocks, its two indexes, the code buffer, refused addresses,
      invalidation, chaining and compaction; [JitRun.v] the dispatch loop.  A
      guest and a host are records of the functions [emu_jit_ops_t] has.
      [JitIndex.v], [JitRetire.v] and [JitBuffer.v] have the invariants,
      [JitProps.v] the states that can be reached and the theorems.
    - Image loader ([src/emu/emu_elf.c]): [Elf.v], over the bus's bulk
      operations, with each of its messages as a value.
    - Debugger stub ([src/emu/emu_gdb.c]): [Gdb.v] the framing, every command
      and run control; the frontend's description, the core and the flash are
      records of functions over the machine.  [GdbProps.v] has its theorems
      and runs it over the JIT framework.
    - Devices and systems ([emu_uart.c], [emu_fb.c], [emu_input.c],
      [emu_finisher.c], [emu_cpu.c] of [src/emu]): [Devices.v], each with its
      theorem beside it; what the platform supplies are functions on its state.

    ** What the theorems show

    - IR: [emu_ir_optimise] keeps what a caller of the interpreter sees, for
      any guest description that satisfies [TargetLaws] and any block a
      frontend may build (C1); the interpreter returns, optimised or not, whatever
      its retirements count, within [EMU_JIT_LOOP_CAP + 1] passes (C2), and
      what it declines it has not touched (C3); no temp's place is taken while it is live (C7); the inlinable
      windows are exactly the bytes they may serve (C15).
    - Bus: a cached access is the uncached one and the caches stay true
      (C8).
    - Loader: copying an image in leaves the segments, zero-filled, and
      nothing else changed, or says why not (C14); mapping one in place is
      contained, whatever the file holds: what it adds to the table is
      read-only and inside the file (C27).
    - Devices: the console passes every byte once, in order, and its line is
      high when it should be (C12); input is a bounded queue beside the
      state of the buttons, which is current unless an event was dropped (C5);
      no frame
      leaves the pixels (C25).
    - Systems: a round that reports every core idle is right, and for good
      (C19).
    - Hart, memory: PMP against a reference (C18);
      translation against the page tables (C22); SFENCE.VMA against page-table
      edits (C23); a load and a store with every cache are the reference ones
      (C24), and so is a fetch (C38).
    - Hart, control: trap entry and return (C28, C29); in every hart a machine
      can come to, the flags the fast paths trust are right (C30); a run ends
      within its budget (C31); a locked PMP entry is frozen (C32); a mode below
      M is confined (C33); interrupt choice (C34), delivery (C35), and
      that an iteration ends with nothing to take unless the loop is told to
      look, it wrote mip, or it took a trap into S (C36); the compressed instructions are the manual's (C37).
    - Whole sessions, from power-on through runs, host calls and interrupts:
      no host byte outside the guest's RAM changes (C6); the interrupt lines
      follow the devices, save one that a reset of the hart alone has cleared
      under them and that nothing has driven since (C21).  C6 rests on an
      invariant, every register in the range of its C type included, proved
      once per function of the hart ([RvTyped.v], [RvGuest.v]) for any bus that
      meets [guest_world], which [RvContain.v] shows of the emulator's bus.
    - APLIC: a guest that claims until nothing is left gets every deliverable
      source once, in priority order, where no source it enabled has the
      priority 0 (C39).
    - Translator: a block that was translated and optimised, run by the IR's
      interpreter, does what the RV32 interpreter's [exec] does instruction by
      instruction, traps, memory, exits and counts included (C40), whoever
      enters it with the FS state it was made for.  Harts with equal context
      keys agree on all a lowering reads, and two more flags decide the
      windows, which the key leaves out (C10).  Blocks stay inside their
      arrays and hand control back within a bound, whatever the host can lower
      and whether they are optimised (C20).
    - JIT framework, in every state it can come to whatever guest runs: a
      lookup answers with the newest live block for a pc and a context and
      misses none (C9); an invalidation forgets exactly what it must (C13);
      compaction keeps each block it keeps whole and apart from the others,
      with each exit it had chained patched to its own tail and nothing else
      changed, for any patching that meets [patch_laws] (C17); the dispatcher enters the buffer only at a live block for where
      the guest is (C4), and returns, also where a taken interrupt is not counted,
      so long as only so many are taken in a row (C16).
    - Debugger stub: a session is its packets, each done on its own bytes
      however they arrive, and none that is damaged (C11); a run with
      breakpoints passes none, over any backend that keeps the interface
      [block_core] (C26).

    The theorems about single operations are stated with the invariants
    ([access_ok], [bus_ok], [caches_ok], [hart_inv]) that the operations keep;
    [IrDemo.v], [BusDemo.v], [RvDemo.v], [RvRunDemo.v], [RvIrDemo.v],
    [JitDemo.v] and the end of [GdbProps.v] run them on concrete guests, so every hypothesis is met somewhere.

    ** Bounds and fuel

    Loops the source bounds are structural: PMP entries, the two levels of a
    walk, the 32 bits of a word.  [interp_run] runs at most its budget, which
    is its fuel, so it is total; [interp_loop] of the IR has the budget for
    fuel and C2 shows it enough; [pt_scan] and the bulk copies have the number
    of regions or bytes left.  The translator's loop has its 64 instructions
    for fuel; C20 and C40 show [EMU_JIT_LOOP_CAP + 1] passes enough for any
    translated block.  A walk along a chain of the JIT's tables has the number
    of blocks for fuel; the dispatch loop has fuel, and C16 shows a multiple of
    its budget enough.  The stub's run has fuel too, and C26 shows its
    budget enough; its memory map visits each region once.  Words are integers reduced by [u32] wherever
    the C expression can leave the range.

    ** What is not modelled, and why

    The hart modelled is that of the build with every RV32 extension and
    without native code: its blocks are made and run in the IR, and what it
    tells a code cache is left out.  The JIT framework is modelled for any
    guest and any host, without [EMU_SMP]; what its blocks compute is the
    host's business.
    [RvConfig] keeps the two options that change behaviour.  Berkeley
    SoftFloat is not in the repository: it is the class [SoftFloat].  The
    ECALL hook, the clock and the lines devices drive are the record
    [platform]; a run-time theorem assumes of the hook only that it leaves the
    hart's control state alone ([hook_frames]) and, for whole sessions, that it
    writes no memory the guest may not ([hook_ok]).  Host cache maintenance, tracing and statistics are left
    out.  C40 is about hosts whose [can_lower] refuses floating-point
    arithmetic, which then goes to the helper: what a host's own arithmetic
    computes is not modelled (loads, stores and moves of floats are).  The
    other guest architectures and their translators, the lowering to
    Thumb-2 and x86-64 (which needs a model of the host), the
    disassembler, the adapters around the virtio code of TinyEMU, and the
    board and network glue are not modelled; [TargetLaws] and the block conditions
    of [IrLaws.v] state what any frontend owes the optimiser.
*)

From Stdlib Require Import ZArith Lia Bool Btauto FunctionalExtensionality.
From stdpp Require Import base list gmap.

Open Scope Z_scope.

(** ** Fixed-width integers

    A C [uint32_t] is an integer in [0, 2^32); every operation of the source
    that can leave that range is followed by [u32], the conversion the C
    standard performs. *)

Definition u8 (x : Z) : Z := x mod 2 ^ 8.
Definition u16 (x : Z) : Z := x mod 2 ^ 16.
Definition u32 (x : Z) : Z := x mod 2 ^ 32.
Definition u64 (x : Z) : Z := x mod 2 ^ 64.

(** [(int32_t)x] and its narrower relatives: the value congruent to [x] in
    the signed range of the width. *)
Definition sext (bits x : Z) : Z :=
  let h := 2 ^ (bits - 1) in (x + h) mod 2 ^ bits - h.
Definition s32 (x : Z) : Z := sext 32 x.

(** [~x] and [-x] at 32 bits. *)
Definition not32 (x : Z) : Z := Z.lxor (u32 x) (2 ^ 32 - 1).

Declare Scope u32_scope.
Delimit Scope u32_scope with u32.
Notation "x +! y" := (u32 (x + y)) (at level 50, left associativity) : u32_scope.
Notation "x -! y" := (u32 (x - y)) (at level 50, left associativity) : u32_scope.
Notation "x *! y" := (u32 (x * y)) (at level 40, left associativity) : u32_scope.
Notation "x <<! k" := (u32 (Z.shiftl x k)) (at level 45, left associativity) : u32_scope.
Notation "x &! y" := (Z.land x y) (at level 46, left associativity) : u32_scope.
Notation "x |! y" := (Z.lor x y) (at level 48, left associativity) : u32_scope.
Notation "x ^! y" := (Z.lxor x y) (at level 47, left associativity) : u32_scope.
Open Scope u32_scope.

Definition is_u32 (x : Z) : Prop := 0 <= x < 2 ^ 32.
Definition is_u32b (x : Z) : bool := (0 <=? x) && (x <? 2 ^ 32).

Create HintDb word.
Create HintDb ir.
Create Rewrite HintDb wordrw.

Lemma is_u32b_spec x : is_u32b x = true <-> is_u32 x.
Proof. unfold is_u32b, is_u32. rewrite andb_true_iff, Z.leb_le, Z.ltb_lt. lia. Qed.

Lemma u32_range x : is_u32 (u32 x).
Proof. unfold is_u32, u32. apply Z.mod_pos_bound. lia. Qed.

Lemma u32_id x : is_u32 x -> u32 x = x.
Proof. unfold is_u32, u32. intros. apply Z.mod_small. lia. Qed.

Lemma u32_u32 x : u32 (u32 x) = u32 x.
Proof. apply u32_id, u32_range. Qed.

Lemma u32_0 : u32 0 = 0.
Proof. reflexivity. Qed.

Lemma u32_add_l x y : u32 (u32 x + y) = u32 (x + y).
Proof. unfold u32. apply Zplus_mod_idemp_l. Qed.

Lemma u32_add_r x y : u32 (x + u32 y) = u32 (x + y).
Proof. unfold u32. apply Zplus_mod_idemp_r. Qed.

Lemma u32_sub_l x y : u32 (u32 x - y) = u32 (x - y).
Proof. unfold u32. apply Zminus_mod_idemp_l. Qed.

Lemma u32_sub_r x y : u32 (x - u32 y) = u32 (x - y).
Proof. unfold u32. apply Zminus_mod_idemp_r. Qed.

#[export] Hint Resolve u32_range u32_id : word.
#[export] Hint Rewrite u32_u32 u32_0 u32_add_l u32_add_r u32_sub_l u32_sub_r : wordrw.

(** [__builtin_bswap32]. *)
Definition bswap32 (a : Z) : Z :=
  ((a &! 255) <<! 24) |! ((a &! 65280) <<! 8)
  |! (Z.shiftr a 8 &! 65280) |! (Z.shiftr a 24 &! 255).

(** [__builtin_clz] for a non-zero argument, and its relatives. *)
Definition clz32 (a : Z) : Z := 31 - Z.log2 a.
Fixpoint ctz_pos (p : positive) : Z :=
  match p with xO q => 1 + ctz_pos q | _ => 0 end.
Definition ctz32 (a : Z) : Z := match a with Zpos p => ctz_pos p | _ => 0 end.
Fixpoint popcount_pos (p : positive) : Z :=
  match p with xO q => popcount_pos q | xI q => 1 + popcount_pos q | xH => 1 end.
Definition popcount32 (a : Z) : Z := match a with Zpos p => popcount_pos p | _ => 0 end.

(** ** Reasoning bit by bit *)

Lemma u32_testbit x i :
  Z.testbit (u32 x) i = (i <? 32) && Z.testbit x i.
Proof.
  unfold u32. destruct (Z.ltb_spec i 32).
  - rewrite Z.mod_pow2_bits_low by lia. reflexivity.
  - rewrite Z.mod_pow2_bits_high by lia. reflexivity.
Qed.

Lemma is_u32_testbit_high x i : is_u32 x -> 32 <= i -> Z.testbit x i = false.
Proof.
  intros Hx Hi. rewrite <- (u32_id x Hx), u32_testbit.
  destruct (Z.ltb_spec i 32); [lia|reflexivity].
Qed.

Lemma is_u32_intro x :
  (forall i, 32 <= i -> Z.testbit x i = false) -> 0 <= x -> is_u32 x.
Proof.
  intros Hb Hx. rewrite <- (Z.mod_small x (2 ^ 32)) at 1.
  - apply u32_range.
  - split; [lia|]. destruct (Z.eq_dec x 0) as [->|Hne]; [lia|].
    apply Z.log2_lt_pow2; [lia|].
    destruct (Z.lt_ge_cases (Z.log2 x) 32) as [|Hge]; [assumption|].
    pose proof (Z.bit_log2 x ltac:(lia)) as Hbit.
    rewrite Hb in Hbit by lia. discriminate.
Qed.

Lemma is_u32_land x y : is_u32 x -> 0 <= y -> is_u32 (Z.land x y).
Proof.
  intros Hx Hy. apply is_u32_intro.
  - intros i Hi. rewrite Z.land_spec, is_u32_testbit_high by assumption. reflexivity.
  - apply Z.land_nonneg. right. assumption.
Qed.

Lemma is_u32_ldiff x y : is_u32 x -> is_u32 (Z.ldiff x y).
Proof.
  intros Hx. apply is_u32_intro.
  - intros i Hi. rewrite Z.ldiff_spec, is_u32_testbit_high by assumption. reflexivity.
  - apply Z.ldiff_nonneg. left. unfold is_u32 in Hx. lia.
Qed.

Lemma is_u32_lor x y : is_u32 x -> is_u32 y -> is_u32 (Z.lor x y).
Proof.
  intros Hx Hy. apply is_u32_intro.
  - intros i Hi. rewrite Z.lor_spec, !is_u32_testbit_high by assumption. reflexivity.
  - apply Z.lor_nonneg. unfold is_u32 in *. lia.
Qed.

Lemma is_u32_lxor x y : is_u32 x -> is_u32 y -> is_u32 (Z.lxor x y).
Proof.
  intros Hx Hy. apply is_u32_intro.
  - intros i Hi. rewrite Z.lxor_spec, !is_u32_testbit_high by assumption. reflexivity.
  - apply Z.lxor_nonneg. unfold is_u32 in *. lia.
Qed.

Lemma is_u32_shiftr x k : is_u32 x -> 0 <= k -> is_u32 (Z.shiftr x k).
Proof.
  intros Hx Hk. apply is_u32_intro.
  - intros i Hi. rewrite Z.shiftr_spec by lia. apply is_u32_testbit_high; [assumption|lia].
  - apply Z.shiftr_nonneg. unfold is_u32 in Hx. lia.
Qed.

Lemma ctz_pos_nonneg p : 0 <= ctz_pos p.
Proof. induction p; cbn [ctz_pos]; lia. Qed.

Lemma ctz_pos_div p : exists k, Zpos p = (2 * k + 1) * 2 ^ ctz_pos p /\ 0 <= k.
Proof.
  induction p as [p IH|p IH|]; cbn [ctz_pos].
  - exists (Zpos p). rewrite Z.pow_0_r. lia.
  - destruct IH as (k & E & Hk). exists k. split; [|lia]. pose proof (ctz_pos_nonneg p).
    rewrite Z.pow_add_r by lia. change (Zpos p~0) with (2 * Zpos p). lia.
  - exists 0. cbn. lia.
Qed.

Lemma not32_sub x : is_u32 x -> not32 x = 2 ^ 32 - 1 - x.
Proof.
  intros Hx. assert (E : not32 x = u32 (Z.lnot x)).
  { apply Z.bits_inj'. intros i Hi. unfold not32. rewrite (u32_id x Hx), u32_testbit, Z.lxor_spec, Z.lnot_spec by lia.
    change (2 ^ 32 - 1) with (Z.ones 32). rewrite Z.testbit_ones_nonneg by lia.
    destruct (Z.ltb_spec i 32); [destruct (Z.testbit x i); reflexivity|].
    rewrite is_u32_testbit_high by assumption. reflexivity. }
  rewrite E. unfold Z.lnot, u32, is_u32 in *.
  rewrite <- (Z.mod_unique (Z.pred (- x)) (2 ^ 32) (-1) (2 ^ 32 - 1 - x)); lia.
Qed.

#[export] Hint Resolve is_u32_land is_u32_ldiff is_u32_lor is_u32_lxor is_u32_shiftr : word.

(** ** Total maps: C arrays and the word-addressed view of a struct *)

Definition upd {A} (f : Z -> A) (k : Z) (v : A) : Z -> A :=
  fun k' => if k' =? k then v else f k'.

Lemma upd_eq {A} (f : Z -> A) k v : upd f k v k = v.
Proof. unfold upd. rewrite Z.eqb_refl. reflexivity. Qed.

Lemma upd_ne {A} (f : Z -> A) k k' v : k' <> k -> upd f k v k' = f k'.
Proof. unfold upd. intros. destruct (Z.eqb_spec k' k); congruence. Qed.

Lemma upd_upd {A} (f : Z -> A) k v w : upd (upd f k v) k w = upd f k w.
Proof.
  apply functional_extensionality. intros k'. unfold upd.
  destruct (k' =? k); reflexivity.
Qed.

(** ** Tactics of the development *)

(** Destruct the boolean tests of the goal, keeping their meaning. *)
Ltac cases_Zb :=
  repeat match goal with
  | |- context [?a =? ?b] => destruct (Z.eqb_spec a b)
  | |- context [?a <? ?b] => destruct (Z.ltb_spec a b)
  | |- context [?a <=? ?b] => destruct (Z.leb_spec a b)
  end.

(** Turn boolean hypotheses into propositions. *)
Ltac bool_hyps :=
  repeat match goal with
  | H : _ && _ = true |- _ => apply andb_true_iff in H; destruct H
  | H : _ || _ = false |- _ => apply orb_false_iff in H; destruct H
  | H : negb _ = true |- _ => apply negb_true_iff in H
  | H : negb _ = false |- _ => apply negb_false_iff in H
  | H : (_ =? _) = true |- _ => apply Z.eqb_eq in H
  | H : (_ =? _) = false |- _ => apply Z.eqb_neq in H
  | H : (_ <? _) = true |- _ => apply Z.ltb_lt in H
  | H : (_ <? _) = false |- _ => apply Z.ltb_ge in H
  | H : (_ <=? _) = true |- _ => apply Z.leb_le in H
  | H : (_ <=? _) = false |- _ => apply Z.leb_gt in H
  end.

(** Split a goal on the innermost match it is stuck on. *)
Ltac case_goal :=
  match goal with
  | |- context [match ?x with _ => _ end] =>
      lazymatch x with
      | context [match _ with _ => _ end] => fail
      | _ => let E := fresh "E" in destruct x eqn:E
      end
  end.
