(* ===== verification/Bus.v ===== *)
(** * The guest physical address space

    [include/emu/emu_bus.h] and [src/emu/emu_bus.c]: a table of regions, and
    six one-entry caches in front of it (fetches, read-write data and
    read-only data, for each byte order).

    Host buffers are named by an integer; the heap gives each its bytes, so
    two regions may share a buffer as they may in C.  A device's callbacks
    and the host's own peripherals are parameters over a world [Ext].  The
    model is the build with a big-endian frontend and statistics compiled in
    ([EMU_BUS_ANY_BE], [EMU_ENABLE_STATS]). *)

From S2P Require Import Prelude.
From stdpp Require Import base list gmap.
From Stdlib Require Import ZArith Lia.

Open Scope Z_scope.
Open Scope u32_scope.

(** ** Host memory *)

Definition heap := Z -> Z -> Z.

(** The bytes a little-endian access of [n] bytes composes and stores. *)
Fixpoint ld_le (f : Z -> Z) (o : Z) (n : nat) : Z :=
  match n with
  | O => 0
  | S n' => u8 (f o) + 256 * ld_le f (o + 1) n'
  end.

Fixpoint st_le (f : Z -> Z) (o : Z) (n : nat) (v : Z) : Z -> Z :=
  match n with
  | O => f
  | S n' => st_le (upd f o (u8 v)) (o + 1) n' (v / 256)
  end.

(** [switch (size) { case 1: ... case 2: ... default: ... }] *)
Definition nbytes (size : Z) : nat :=
  match size with 1 => 1%nat | 2 => 2%nat | _ => 4%nat end.

Definition host_ld (f : Z -> Z) (o size : Z) : Z := ld_le f o (nbytes size).
Definition host_st (f : Z -> Z) (o size v : Z) : Z -> Z := st_le f o (nbytes size) v.

Definition emu_bswap (v size : Z) : Z :=
  match size with
  | 1 => v
  | 2 => u16 (((v &! 255) <<! 8) |! (Z.shiftr v 8 &! 255))
  | _ => bswap32 v
  end.

(** ** Regions *)

Inductive emu_region_kind := EMU_MEM_RAM | EMU_MEM_ROM | EMU_MEM_MMIO | EMU_MEM_PASSTHRU.

#[export] Instance emu_region_kind_eq_dec : EqDecision emu_region_kind.
Proof. solve_decision. Defined.

Inductive emu_fault := EMU_FAULT_NONE | EMU_FAULT_FETCH | EMU_FAULT_LOAD | EMU_FAULT_STORE.

Definition EMU_PERM_R : Z := 1.
Definition EMU_PERM_W : Z := 2.
Definition EMU_PERM_X : Z := 4.
Definition EMU_PERM_RW : Z := 3.
Definition EMU_PERM_RX : Z := 5.
Definition EMU_PERM_RWX : Z := 7.
Definition EMU_W8 : Z := 1.
Definition EMU_W16 : Z := 2.
Definition EMU_W32 : Z := 4.
Definition EMU_WANY : Z := 7.
Definition EMU_MAX_REGIONS : Z := 16.

Section Bus.
Context {Ext : Type}.

(** A device's read and write callbacks; [None]: [*out] is left alone. *)
Record emu_dev_ops := DevOps {
  dev_read : Ext -> Z -> Z -> emu_fault * option Z * Ext;
  dev_write : Ext -> Z -> Z -> Z -> emu_fault * Ext
}.

Record emu_region := Region {
  base : Z;
  size : Z;
  host : Z;
  host_base : Z;
  ops : option emu_dev_ops;
  kind : emu_region_kind;
  perm : Z;
  widths : Z
}.

(** One fast-path cache: [span] 0 is empty. *)
Record cache := Cache { c_base : Z; c_span : Z; c_host : Z }.
Definition no_cache : cache := Cache 0 0 0.

Record emu_bus := Bus {
  fetch : cache;
  data : cache;
  rodata : cache;
  fetch_be : cache;
  data_be : cache;
  rodata_be : cache;
  regions : list emu_region;
  last : Z;
  fault_count : Z;
  pt_accesses : Z;
  epoch : Z;
  big_endian : bool
}.

Definition set_fetch (b : emu_bus) c := Bus c (data b) (rodata b) (fetch_be b) (data_be b) (rodata_be b) (regions b) (last b) (fault_count b) (pt_accesses b) (epoch b) (big_endian b).
Definition set_data (b : emu_bus) c := Bus (fetch b) c (rodata b) (fetch_be b) (data_be b) (rodata_be b) (regions b) (last b) (fault_count b) (pt_accesses b) (epoch b) (big_endian b).
Definition set_rodata (b : emu_bus) c := Bus (fetch b) (data b) c (fetch_be b) (data_be b) (rodata_be b) (regions b) (last b) (fault_count b) (pt_accesses b) (epoch b) (big_endian b).
Definition set_fetch_be (b : emu_bus) c := Bus (fetch b) (data b) (rodata b) c (data_be b) (rodata_be b) (regions b) (last b) (fault_count b) (pt_accesses b) (epoch b) (big_endian b).
Definition set_data_be (b : emu_bus) c := Bus (fetch b) (data b) (rodata b) (fetch_be b) c (rodata_be b) (regions b) (last b) (fault_count b) (pt_accesses b) (epoch b) (big_endian b).
Definition set_rodata_be (b : emu_bus) c := Bus (fetch b) (data b) (rodata b) (fetch_be b) (data_be b) c (regions b) (last b) (fault_count b) (pt_accesses b) (epoch b) (big_endian b).
Definition set_regions (b : emu_bus) rs := Bus (fetch b) (data b) (rodata b) (fetch_be b) (data_be b) (rodata_be b) rs (last b) (fault_count b) (pt_accesses b) (epoch b) (big_endian b).
Definition set_last (b : emu_bus) n := Bus (fetch b) (data b) (rodata b) (fetch_be b) (data_be b) (rodata_be b) (regions b) n (fault_count b) (pt_accesses b) (epoch b) (big_endian b).
Definition set_fault_count (b : emu_bus) n := Bus (fetch b) (data b) (rodata b) (fetch_be b) (data_be b) (rodata_be b) (regions b) (last b) n (pt_accesses b) (epoch b) (big_endian b).
Definition set_pt_accesses (b : emu_bus) n := Bus (fetch b) (data b) (rodata b) (fetch_be b) (data_be b) (rodata_be b) (regions b) (last b) (fault_count b) n (epoch b) (big_endian b).
Definition set_epoch (b : emu_bus) n := Bus (fetch b) (data b) (rodata b) (fetch_be b) (data_be b) (rodata_be b) (regions b) (last b) (fault_count b) (pt_accesses b) n (big_endian b).
Definition set_be_flag (b : emu_bus) x := Bus (fetch b) (data b) (rodata b) (fetch_be b) (data_be b) (rodata_be b) (regions b) (last b) (fault_count b) (pt_accesses b) (epoch b) x.

Definition bus_count (b : emu_bus) : Z := Z.of_nat (length (regions b)).

(** ** Region lookup *)

Definition in_region (r : emu_region) (addr : Z) : bool := (addr -! base r) <? size r.

(** The walk: the first region that holds the address, and its index. *)
Fixpoint find_from (rs : list emu_region) (i addr : Z) : option (Z * emu_region) :=
  match rs with
  | [] => None
  | r :: rs' => if in_region r addr then Some (i, r) else find_from rs' (i + 1) addr
  end.

Definition emu_bus_find (b : emu_bus) (addr : Z) : option emu_region * emu_bus :=
  match regions b !! Z.to_nat (last b) with
  | Some r => if in_region r addr then (Some r, b)
              else match find_from (regions b) 0 addr with
                   | Some (i, r) => (Some r, set_last b i)
                   | None => (None, b)
                   end
  | None => match find_from (regions b) 0 addr with
            | Some (i, r) => (Some r, set_last b i)
            | None => (None, b)
            end
  end.

Definition width_bit (sz : Z) : Z := if sz =? 4 then EMU_W32 else if sz =? 2 then EMU_W16 else EMU_W8.

(** Permission, width and extent, for a region that holds the address. *)
Definition region_allows (r : emu_region) (addr sz pm : Z) : option Z :=
  let o := addr -! base r in
  if size r -! sz <? o then None
  else if perm r &! pm =? 0 then None
  else if widths r &! width_bit sz =? 0 then None
  else Some o.

Definition check (b : emu_bus) (addr sz pm : Z) : option (emu_region * Z) * emu_bus :=
  let '(r, b') := emu_bus_find b addr in
  (match r with
   | None => None
   | Some r => match region_allows r addr sz pm with Some o => Some (r, o) | None => None end
   end, b').

(** ** Setup *)

Definition emu_bus_init (g : Z) : emu_bus * Z :=
  (Bus no_cache no_cache no_cache no_cache no_cache no_cache [] 0 0 0 (g +! 1) false, g +! 1).

Definition emu_bus_flush (b : emu_bus) : emu_bus :=
  let z c := Cache (c_base c) 0 0 in
  set_rodata_be (set_data_be (set_fetch_be (set_rodata (set_data (set_fetch b
    (z (fetch b))) (z (data b))) (z (rodata b))) (z (fetch_be b))) (z (data_be b))) (z (rodata_be b)).

Definition overlaps (r e : emu_region) : bool :=
  (base r <=? base e +! size e -! 1) && (base e <=? base r +! size r -! 1).

(** The result, the bus and the process-wide epoch counter. *)
Definition emu_bus_add (g : Z) (b : emu_bus) (r : emu_region) : bool * emu_bus * Z :=
  if (EMU_MAX_REGIONS <=? bus_count b) || (size r <? 4) || (2 ^ 32 <? base r + size r)
  then (false, b, g)
  else
    let g' := g +! 1 in
    let b1 := set_epoch b g' in
    if existsb (overlaps r) (regions b) then (false, b1, g')
    else (true, emu_bus_flush (set_regions b1 (regions b ++ [r])), g').

Definition emu_bus_add_ram (g : Z) (b : emu_bus) (bs buf sz : Z) :=
  emu_bus_add g b (Region bs sz buf 0 None EMU_MEM_RAM EMU_PERM_RWX EMU_WANY).
Definition emu_bus_add_rom (g : Z) (b : emu_bus) (bs buf sz : Z) :=
  emu_bus_add g b (Region bs sz buf 0 None EMU_MEM_ROM EMU_PERM_RX EMU_WANY).
Definition emu_bus_add_mmio (g : Z) (b : emu_bus) (bs sz : Z) (o : emu_dev_ops) :=
  emu_bus_add g b (Region bs sz 0 0 (Some o) EMU_MEM_MMIO EMU_PERM_RW EMU_WANY).
Definition emu_bus_add_passthru (g : Z) (b : emu_bus) (bs sz hb pm w : Z) :=
  emu_bus_add g b (Region bs sz 0 hb None EMU_MEM_PASSTHRU pm w).

Definition emu_bus_set_big_endian (b : emu_bus) (on : bool) : emu_bus :=
  emu_bus_flush (set_be_flag b on).

(** ** The caches *)

Definition arm_data_cache (b : emu_bus) (r : emu_region) : emu_bus :=
  let c := Cache (base r) (size r) (host r) in
  if big_endian b then set_data_be b c else set_data b c.

Definition arm_rodata_cache (b : emu_bus) (r : emu_region) : emu_bus :=
  if negb (widths r =? EMU_WANY) then b
  else
    let c := Cache (base r) (size r) (host r) in
    if big_endian b then set_rodata_be b c else set_rodata b c.

(** [off < span && span - off >= size] *)
Definition cache_hit (c : cache) (addr sz : Z) : bool :=
  let off := addr -! c_base c in (off <? c_span c) && (sz <=? c_span c -! off).

Definition cache_read (c : cache) (h : heap) (addr sz : Z) : Z :=
  host_ld (h (c_host c)) (addr -! c_base c) sz.

Definition cache_write (c : cache) (h : heap) (addr sz v : Z) : heap :=
  upd h (c_host c) (host_st (h (c_host c)) (addr -! c_base c) sz v).

Definition rodata_hit (b : emu_bus) (h : heap) (addr sz : Z) : option Z :=
  if cache_hit (rodata b) addr sz then Some (cache_read (rodata b) h addr sz) else None.
Definition rodata_be_hit (b : emu_bus) (h : heap) (addr sz : Z) : option Z :=
  if cache_hit (rodata_be b) addr sz
  then Some (emu_bswap (cache_read (rodata_be b) h addr sz) sz) else None.
Definition emu_bus_read_le_hit (b : emu_bus) (h : heap) (addr sz : Z) : option Z :=
  if cache_hit (data b) addr sz then Some (cache_read (data b) h addr sz) else None.
Definition emu_bus_read_be_hit (b : emu_bus) (h : heap) (addr sz : Z) : option Z :=
  if cache_hit (data_be b) addr sz
  then Some (emu_bswap (cache_read (data_be b) h addr sz) sz) else None.
Definition emu_bus_write_le_hit (b : emu_bus) (h : heap) (addr sz v : Z) : option heap :=
  if cache_hit (data b) addr sz then Some (cache_write (data b) h addr sz v) else None.
Definition emu_bus_write_be_hit (b : emu_bus) (h : heap) (addr sz v : Z) : option heap :=
  if cache_hit (data_be b) addr sz
  then Some (cache_write (data_be b) h addr sz (emu_bswap v sz)) else None.
Definition emu_bus_fetch16_le_hit (b : emu_bus) (h : heap) (addr : Z) : option Z :=
  if (addr -! c_base (fetch b)) <? c_span (fetch b)
  then Some (cache_read (fetch b) h addr 2) else None.
Definition emu_bus_fetch16_be_hit (b : emu_bus) (h : heap) (addr : Z) : option Z :=
  if (addr -! c_base (fetch_be b)) <? c_span (fetch_be b)
  then Some (u16 (emu_bswap (cache_read (fetch_be b) h addr 2) 2)) else None.

Definition emu_bus_in_rodata (b : emu_bus) (addr : Z) : bool :=
  ((addr -! c_base (rodata b)) <? c_span (rodata b))
  || ((addr -! c_base (rodata_be b)) <? c_span (rodata_be b)).

(** [EMU_BUS_ORDER] *)
Definition bus_order (b : emu_bus) (v sz : Z) : Z := if big_endian b then emu_bswap v sz else v.

Definition bump_fault (b : emu_bus) : emu_bus := set_fault_count b (fault_count b +! 1).
Definition bump_pt (b : emu_bus) : emu_bus :=
  if pt_accesses b =? 4294967295 then b else set_pt_accesses b (pt_accesses b + 1).

(** ** Slow paths

    [pt_read] and [pt_write] are the host's own peripherals: a volatile
    access of the given width at a host address. *)
Variable pt_read : Ext -> Z -> Z -> Z * Ext.
Variable pt_write : Ext -> Z -> Z -> Z -> Ext.

(** What an access leaves behind. *)
Record acc := Acc { a_fault : emu_fault; a_out : option Z; a_bus : emu_bus; a_heap : heap; a_ext : Ext }.

Definition region_read (b : emu_bus) (h : heap) (e : Ext) (r : emu_region) (off sz : Z) : acc :=
  match kind r with
  | EMU_MEM_RAM | EMU_MEM_ROM =>
      let v := bus_order b (host_ld (h (host r)) off sz) sz in
      let b' := match kind r with
                | EMU_MEM_RAM => if perm r =? EMU_PERM_RWX then arm_data_cache b r else b
                | _ => arm_rodata_cache b r
                end in
      Acc EMU_FAULT_NONE (Some v) b' h e
  | EMU_MEM_PASSTHRU =>
      let '(v, e') := pt_read e (host_base r + off) sz in
      Acc EMU_FAULT_NONE (Some v) (bump_pt b) h e'
  | EMU_MEM_MMIO =>
      match ops r with
      | Some o => let '(f, v, e') := dev_read o e off sz in Acc f v b h e'
      | None => Acc EMU_FAULT_LOAD None b h e
      end
  end.

Definition emu_bus_read_slow (b : emu_bus) (h : heap) (e : Ext) (addr sz : Z) : acc :=
  match rodata_hit b h addr sz with
  | Some v => Acc EMU_FAULT_NONE (Some v) b h e
  | None =>
      match rodata_be_hit b h addr sz with
      | Some v => Acc EMU_FAULT_NONE (Some v) b h e
      | None =>
          let '(r, b') := check b addr sz EMU_PERM_R in
          match r with
          | None => Acc EMU_FAULT_LOAD None (bump_fault b') h e
          | Some (r, off) => region_read b' h e r off sz
          end
      end
  end.

Definition region_write (b : emu_bus) (h : heap) (e : Ext) (r : emu_region) (off sz v : Z) : acc :=
  match kind r with
  | EMU_MEM_RAM =>
      let h' := upd h (host r) (host_st (h (host r)) off sz (bus_order b v sz)) in
      Acc EMU_FAULT_NONE None (if perm r =? EMU_PERM_RWX then arm_data_cache b r else b) h' e
  | EMU_MEM_PASSTHRU =>
      Acc EMU_FAULT_NONE None (bump_pt b) h (pt_write e (host_base r + off) sz v)
  | EMU_MEM_MMIO =>
      match ops r with
      | Some o => let '(f, e') := dev_write o e off sz v in Acc f None b h e'
      | None => Acc EMU_FAULT_STORE None b h e
      end
  | EMU_MEM_ROM => Acc EMU_FAULT_STORE None b h e
  end.

Definition emu_bus_write_slow (b : emu_bus) (h : heap) (e : Ext) (addr sz v : Z) : acc :=
  let '(r, b') := check b addr sz EMU_PERM_W in
  match r with
  | None => Acc EMU_FAULT_STORE None (bump_fault b') h e
  | Some (r, off) => region_write b' h e r off sz v
  end.

Definition region_fetch16 (b : emu_bus) (h : heap) (e : Ext) (r : emu_region) (off : Z) : acc :=
  match kind r with
  | EMU_MEM_RAM | EMU_MEM_ROM =>
      let v := u16 (bus_order b (host_ld (h (host r)) off 2) 2) in
      let c := Cache (base r) (size r -! 1) (host r) in
      Acc EMU_FAULT_NONE (Some v) (if big_endian b then set_fetch_be b c else set_fetch b c) h e
  | EMU_MEM_PASSTHRU =>
      let '(v, e') := pt_read e (host_base r + off) 2 in Acc EMU_FAULT_NONE (Some (u16 v)) b h e'
  | EMU_MEM_MMIO => Acc EMU_FAULT_FETCH None b h e
  end.

Definition emu_bus_fetch16_slow (b : emu_bus) (h : heap) (e : Ext) (addr : Z) : acc :=
  let '(r, b') := check b addr 2 EMU_PERM_X in
  match r with
  | None => Acc EMU_FAULT_FETCH None (bump_fault b') h e
  | Some (r, off) => region_fetch16 b' h e r off
  end.

(** ** The accessors *)

Definition emu_bus_read (b : emu_bus) (h : heap) (e : Ext) (addr sz : Z) : acc :=
  match emu_bus_read_le_hit b h addr sz with
  | Some v => Acc EMU_FAULT_NONE (Some v) b h e
  | None =>
      match emu_bus_read_be_hit b h addr sz with
      | Some v => Acc EMU_FAULT_NONE (Some v) b h e
      | None => emu_bus_read_slow b h e addr sz
      end
  end.

Definition emu_bus_write (b : emu_bus) (h : heap) (e : Ext) (addr sz v : Z) : acc :=
  match emu_bus_write_le_hit b h addr sz v with
  | Some h' => Acc EMU_FAULT_NONE None b h' e
  | None =>
      match emu_bus_write_be_hit b h addr sz v with
      | Some h' => Acc EMU_FAULT_NONE None b h' e
      | None => emu_bus_write_slow b h e addr sz v
      end
  end.

Definition emu_bus_fetch16 (b : emu_bus) (h : heap) (e : Ext) (addr : Z) : acc :=
  match emu_bus_fetch16_le_hit b h addr with
  | Some v => Acc EMU_FAULT_NONE (Some v) b h e
  | None =>
      match emu_bus_fetch16_be_hit b h addr with
      | Some v => Acc EMU_FAULT_NONE (Some v) b h e
      | None => emu_bus_fetch16_slow b h e addr
      end
  end.

(** The accessors of a frontend that is big-endian by construction. *)
Definition emu_bus_read_be (b : emu_bus) (h : heap) (e : Ext) (addr sz : Z) : acc :=
  match emu_bus_read_be_hit b h addr sz with
  | Some v => Acc EMU_FAULT_NONE (Some v) b h e
  | None => emu_bus_read_slow b h e addr sz
  end.

Definition emu_bus_write_be (b : emu_bus) (h : heap) (e : Ext) (addr sz v : Z) : acc :=
  match emu_bus_write_be_hit b h addr sz v with
  | Some h' => Acc EMU_FAULT_NONE None b h' e
  | None => emu_bus_write_slow b h e addr sz v
  end.

Definition emu_bus_fetch16_be (b : emu_bus) (h : heap) (e : Ext) (addr : Z) : acc :=
  match emu_bus_fetch16_be_hit b h addr with
  | Some v => Acc EMU_FAULT_NONE (Some v) b h e
  | None => emu_bus_fetch16_slow b h e addr
  end.

(** Where a guest range lives on the host: a buffer and offset, or an address. *)
Inductive host_ptr := HostBuf (buf off : Z) | HostAddr (a : Z).

Definition emu_bus_host_ptr (b : emu_bus) (addr len : Z) : option host_ptr * emu_bus :=
  let '(r, b') := emu_bus_find b addr in
  (match r with
   | None => None
   | Some r =>
       let off := addr -! base r in
       if size r -! off <? len then None
       else match kind r with
            | EMU_MEM_RAM | EMU_MEM_ROM => Some (HostBuf (host r) off)
            | EMU_MEM_PASSTHRU => Some (HostAddr (host_base r + off))
            | EMU_MEM_MMIO => None
            end
   end, b').

(** ** Bulk access *)

Fixpoint copy_in (f : Z -> Z) (o : Z) (bs : list Z) : Z -> Z :=
  match bs with
  | [] => f
  | x :: bs' => copy_in (upd f o x) (o + 1) bs'
  end.

Fixpoint copy_out (f : Z -> Z) (o : Z) (n : nat) : list Z :=
  match n with
  | O => []
  | S n' => f o :: copy_out f (o + 1) n'
  end.

(** The part of [len] bytes at [addr] that lies in the region found there. *)
Definition bulk_chunk (b : emu_bus) (addr len : Z) : option (emu_region * Z * Z) * emu_bus :=
  let '(r, b') := emu_bus_find b addr in
  (match r with
   | Some r =>
       if bool_decide (kind r = EMU_MEM_RAM) || bool_decide (kind r = EMU_MEM_ROM)
       then let off := addr -! base r in
            let n := size r -! off in
            Some (r, off, if len <? n then len else n)
       else None
   | None => None
   end, b').

(** The copying loop; [fuel] bounds its rounds, [None] is "still running". *)
Fixpoint load_loop (fuel : nat) (b : emu_bus) (h : heap) (addr : Z) (src : list Z)
  : option (bool * emu_bus * heap) :=
  match src with
  | [] => Some (true, b, h)
  | _ =>
      match fuel with
      | O => None
      | S fuel' =>
          let '(c, b') := bulk_chunk b addr (Z.of_nat (length src)) in
          match c with
          | None => Some (false, b', h)
          | Some (r, off, n) =>
              load_loop fuel' b'
                (upd h (host r) (copy_in (h (host r)) off (take (Z.to_nat n) src)))
                (addr +! n) (drop (Z.to_nat n) src)
          end
      end
  end.

Definition emu_bus_load (fuel : nat) (b : emu_bus) (h : heap) (addr : Z) (src : list Z)
  : option (bool * emu_bus * heap) :=
  if 2 ^ 32 <? addr + Z.of_nat (length src) then Some (false, b, h)
  else load_loop fuel (emu_bus_flush b) h addr src.

Fixpoint dump_loop (fuel : nat) (b : emu_bus) (h : heap) (addr len : Z) (acc : list Z)
  : option (option (list Z) * emu_bus) :=
  if len =? 0 then Some (Some acc, b)
  else
    match fuel with
    | O => None
    | S fuel' =>
        let '(c, b') := bulk_chunk b addr len in
        match c with
        | None => Some (None, b')
        | Some (r, off, n) =>
            dump_loop fuel' b' h (addr +! n) (len - n) (acc ++ copy_out (h (host r)) off (Z.to_nat n))
        end
    end.

Definition emu_bus_dump (fuel : nat) (b : emu_bus) (h : heap) (addr len : Z)
  : option (option (list Z) * emu_bus) :=
  if 2 ^ 32 <? addr + len then Some (None, b) else dump_loop fuel b h addr len [].

End Bus.
Arguments emu_dev_ops : clear implicits.
Arguments emu_region : clear implicits.
Arguments emu_bus : clear implicits.
Arguments acc : clear implicits.
