(* ===== verification/BusProps.v ===== *)
(** * The bus keeps its promises

    The region table never holds two regions with a common address, so which
    region answers does not depend on the lookup's hint; and the six caches
    are transparent: an access through them has the outcome and the effect of
    one that walks the table with every check ([spec_read], [spec_write],
    [spec_fetch16]). *)

From stdpp Require Import base list gmap.
From Stdlib Require Import ZArith Lia.
From S2P Require Import Prelude Bus.

Open Scope Z_scope.
Open Scope u32_scope.

Section BusProps.
Context {Ext : Type}.
#[local] Abbreviation region_t := (emu_region Ext).
#[local] Abbreviation bus_t := (emu_bus Ext).
Variable pt_read : Ext -> Z -> Z -> Z * Ext.
Variable pt_write : Ext -> Z -> Z -> Z -> Ext.

(** ** Regions *)

Definition region_ok (r : region_t) : Prop := 0 <= base r /\ 4 <= size r < 2 ^ 32 /\ base r + size r <= 2 ^ 32.

Lemma in_region_spec r a :
  region_ok r -> is_u32 a -> in_region r a = true <-> base r <= a < base r + size r.
Proof.
  intros (H0 & H4 & H32) Ha. unfold in_region, is_u32, u32 in *. rewrite Z.ltb_lt.
  destruct (Z.lt_ge_cases a (base r)).
  - rewrite <- (Z.mod_unique (a - base r) (2 ^ 32) (-1) (a - base r + 2 ^ 32)) by lia. lia.
  - rewrite Z.mod_small by lia. lia.
Qed.

Lemma region_off r a : region_ok r -> is_u32 a -> base r <= a < base r + size r -> a -! base r = a - base r.
Proof. intros (H0 & H4 & H32) Ha Hr. apply u32_id. unfold is_u32 in *. lia. Qed.

(** No address is in two entries of the table. *)
Definition apart (rs : list region_t) : Prop :=
  forall i j r s a, rs !! i = Some r -> rs !! j = Some s -> is_u32 a ->
    in_region r a = true -> in_region s a = true -> i = j.

Definition table_ok (rs : list region_t) : Prop := Forall region_ok rs /\ apart rs.

Lemma overlaps_sound r s a :
  region_ok r -> region_ok s -> is_u32 a ->
  in_region r a = true -> in_region s a = true -> overlaps r s = true.
Proof.
  intros Hr Hs Ha Ir Is. apply in_region_spec in Ir, Is; try assumption.
  destruct Hr as (? & ? & ?), Hs as (? & ? & ?). unfold overlaps, is_u32, u32 in *.
  rewrite !Zminus_mod_idemp_l, !(Z.mod_small (_ - 1)) by lia.
  rewrite (proj2 (Z.leb_le _ _)), (proj2 (Z.leb_le _ _)) by lia. reflexivity.
Qed.

Lemma table_ok_snoc rs r :
  table_ok rs -> region_ok r -> existsb (overlaps r) rs = false -> table_ok (rs ++ [r]).
Proof.
  intros [Hok Ha] Hr Hx. split; [apply Forall_app; auto|].
  assert (Hno : forall j s a, rs !! j = Some s -> is_u32 a -> in_region s a = true -> in_region r a = true -> False).
  { intros j s a Hj Hu Is Ir. assert (Hs : region_ok s) by (eapply Forall_lookup_1; eauto).
    pose proof (overlaps_sound r s a Hr Hs Hu Ir Is) as Ho.
    assert (E : existsb (overlaps r) rs = true); [|congruence].
    apply existsb_exists. exists s. split; [|assumption]. apply list_elem_of_In.
    eapply list_elem_of_lookup_2; eauto. }
  intros i j x y a Hi Hj Hu Ix Iy.
  apply lookup_snoc_Some in Hi as [[Hi Ei]|[Hi Ei]]; apply lookup_snoc_Some in Hj as [[Hj Ej]|[Hj Ej]]; subst.
  - eapply Ha; eauto.
  - exfalso. eapply Hno; eauto.
  - exfalso. eapply Hno; eauto.
  - reflexivity.
Qed.

(** ** Lookup *)

Definition lookup_region (rs : list region_t) (a : Z) : option region_t :=
  List.find (fun r => in_region r a) rs.

Lemma find_from_spec rs a : forall i,
  match find_from rs i a with
  | Some (j, r) => lookup_region rs a = Some r /\ i <= j /\ rs !! Z.to_nat (j - i) = Some r
  | None => lookup_region rs a = None
  end.
Proof.
  induction rs as [|r rs IH]; intros i; cbn; [reflexivity|]. destruct (in_region r a).
  - rewrite Z.sub_diag. auto with lia.
  - specialize (IH (i + 1)). destruct (find_from rs (i + 1) a) as [[j s]|]; [|assumption].
    destruct IH as (H1 & H2 & H3). split; [assumption|]. split; [lia|].
    replace (Z.to_nat (j - i)) with (S (Z.to_nat (j - (i + 1)))) by lia. assumption.
Qed.

Lemma lookup_region_in rs a r : lookup_region rs a = Some r -> In r rs /\ in_region r a = true.
Proof. intros H. apply List.find_some in H. assumption. Qed.

Lemma lookup_region_unique rs i r a :
  table_ok rs -> is_u32 a -> rs !! i = Some r -> in_region r a = true -> lookup_region rs a = Some r.
Proof.
  intros [_ Ha] Hu Hi Hr. pose proof (find_from_spec rs a 0) as Hf.
  destruct (find_from rs 0 a) as [[j s]|].
  - destruct Hf as (Hl & _ & Hj). rewrite Hl. destruct (lookup_region_in _ _ _ Hl) as [_ Is].
    rewrite (Ha _ _ _ _ _ Hi Hj Hu Hr Is) in Hi. congruence.
  - exfalso. pose proof (List.find_none _ _ Hf r) as Hn. cbv beta in Hn. rewrite Hn in Hr; [discriminate|].
    apply list_elem_of_In. eapply list_elem_of_lookup_2; eauto.
Qed.

(** The same bus but for the hint and the counters. *)
Definition same_map (b b' : bus_t) : Prop :=
  regions b' = regions b /\ big_endian b' = big_endian b /\
  fetch b' = fetch b /\ data b' = data b /\ rodata b' = rodata b /\
  fetch_be b' = fetch_be b /\ data_be b' = data_be b /\ rodata_be b' = rodata_be b /\
  (0 <= last b -> 0 <= last b').

Lemma same_map_refl b : same_map b b.
Proof. unfold same_map. auto 10. Qed.

Lemma same_map_trans b b1 b2 : same_map b b1 -> same_map b1 b2 -> same_map b b2.
Proof. unfold same_map. intuition congruence. Qed.

Lemma bus_find_spec b a :
  table_ok (regions b) -> is_u32 a ->
  exists b', emu_bus_find b a = (lookup_region (regions b) a, b') /\ same_map b b'.
Proof.
  intros Ht Hu. unfold emu_bus_find.
  pose proof (find_from_spec (regions b) a 0) as Hf.
  assert (Hwalk : exists b', (match find_from (regions b) 0 a with
                   | Some (i, r) => (Some r, set_last b i) | None => (None, b) end)
                   = (lookup_region (regions b) a, b') /\ same_map b b').
  { destruct (find_from (regions b) 0 a) as [[j s]|].
    - destruct Hf as (Hl & Hj & _). rewrite Hl. eexists. split; [reflexivity|]. unfold same_map. cbn. auto 10.
    - rewrite Hf. exists b. auto using same_map_refl. }
  destruct (regions b !! Z.to_nat (last b)) as [r|] eqn:Er; [|assumption].
  destruct (in_region r a) eqn:Ir; [|assumption].
  rewrite (lookup_region_unique _ _ _ _ Ht Hu Er Ir). exists b. auto using same_map_refl.
Qed.

(** ** The reference accesses: no cache, no hint *)

Definition grant (rs : list region_t) (a sz pm : Z) : option (region_t * Z) :=
  match lookup_region rs a with
  | None => None
  | Some r => match region_allows r a sz pm with Some o => Some (r, o) | None => None end
  end.

Definition order (be : bool) (v sz : Z) : Z := if be then emu_bswap v sz else v.

(** Fault, value, heap and world. *)
Definition outcome : Type := emu_fault * option Z * heap * Ext.

Definition view (a : acc Ext) : outcome := (a_fault a, a_out a, a_heap a, a_ext a).

Definition spec_read (be : bool) (rs : list region_t) (h : heap) (e : Ext) (a sz : Z) : outcome :=
  match grant rs a sz EMU_PERM_R with
  | None => (EMU_FAULT_LOAD, None, h, e)
  | Some (r, off) =>
      match kind r with
      | EMU_MEM_RAM | EMU_MEM_ROM => (EMU_FAULT_NONE, Some (order be (host_ld (h (host r)) off sz) sz), h, e)
      | EMU_MEM_PASSTHRU =>
          let '(v, e') := pt_read e (host_base r + off) sz in (EMU_FAULT_NONE, Some v, h, e')
      | EMU_MEM_MMIO =>
          match ops r with
          | Some o => let '(f, v, e') := dev_read o e off sz in (f, v, h, e')
          | None => (EMU_FAULT_LOAD, None, h, e)
          end
      end
  end.

Definition spec_write (be : bool) (rs : list region_t) (h : heap) (e : Ext) (a sz v : Z) : outcome :=
  match grant rs a sz EMU_PERM_W with
  | None => (EMU_FAULT_STORE, None, h, e)
  | Some (r, off) =>
      match kind r with
      | EMU_MEM_RAM =>
          (EMU_FAULT_NONE, None, upd h (host r) (host_st (h (host r)) off sz (order be v sz)), e)
      | EMU_MEM_ROM => (EMU_FAULT_STORE, None, h, e)
      | EMU_MEM_PASSTHRU => (EMU_FAULT_NONE, None, h, pt_write e (host_base r + off) sz v)
      | EMU_MEM_MMIO =>
          match ops r with
          | Some o => let '(f, e') := dev_write o e off sz v in (f, None, h, e')
          | None => (EMU_FAULT_STORE, None, h, e)
          end
      end
  end.

Definition spec_fetch16 (be : bool) (rs : list region_t) (h : heap) (e : Ext) (a : Z) : outcome :=
  match grant rs a 2 EMU_PERM_X with
  | None => (EMU_FAULT_FETCH, None, h, e)
  | Some (r, off) =>
      match kind r with
      | EMU_MEM_RAM | EMU_MEM_ROM =>
          (EMU_FAULT_NONE, Some (u16 (order be (host_ld (h (host r)) off 2) 2)), h, e)
      | EMU_MEM_PASSTHRU =>
          let '(v, e') := pt_read e (host_base r + off) 2 in (EMU_FAULT_NONE, Some (u16 v), h, e')
      | EMU_MEM_MMIO => (EMU_FAULT_FETCH, None, h, e)
      end
  end.

(** ** What the caches hold *)

Definition cache_of (len : region_t -> Z) (r : region_t) : cache := Cache (base r) (len r) (host r).

(** Empty, or a region of the table with property [P], and then only in the
    byte order [be]. *)
Definition cache_ok (rs : list region_t) (P : region_t -> Prop) (len : region_t -> Z) (be : Prop) (c : cache) : Prop :=
  c_span c = 0 \/ (be /\ exists i r, rs !! i = Some r /\ P r /\ c = cache_of len r).

Definition plain_ram (r : region_t) : Prop := kind r = EMU_MEM_RAM /\ perm r = EMU_PERM_RWX.
Definition plain_rom (r : region_t) : Prop :=
  kind r = EMU_MEM_ROM /\ widths r = EMU_WANY /\ (perm r &! EMU_PERM_R =? 0) = false.
Definition fetchable (r : region_t) : Prop :=
  (kind r = EMU_MEM_RAM \/ kind r = EMU_MEM_ROM) /\
  (perm r &! EMU_PERM_X =? 0) = false /\ (widths r &! EMU_W16 =? 0) = false.

(** A region the data cache may hold takes every width. *)
Definition ram_any_width (r : region_t) : Prop := plain_ram r -> widths r = EMU_WANY.

Record bus_wf (b : bus_t) : Prop := {
  wf_table : table_ok (regions b);
  wf_ram : Forall ram_any_width (regions b);
  wf_last : 0 <= last b;
  wf_fetch : cache_ok (regions b) fetchable (fun r => size r - 1) (big_endian b = false) (fetch b);
  wf_data : cache_ok (regions b) plain_ram size (big_endian b = false) (data b);
  wf_rodata : cache_ok (regions b) plain_rom size (big_endian b = false) (rodata b);
  wf_fetch_be : cache_ok (regions b) fetchable (fun r => size r - 1) (big_endian b = true) (fetch_be b);
  wf_data_be : cache_ok (regions b) plain_ram size (big_endian b = true) (data_be b);
  wf_rodata_be : cache_ok (regions b) plain_rom size (big_endian b = true) (rodata_be b)
}.

Lemma same_map_wf b b' : same_map b b' -> bus_wf b -> bus_wf b'.
Proof.
  intros (E1 & E2 & E3 & E4 & E5 & E6 & E7 & E8 & E9) [W1 W2 W3 W4 W5 W6 W7 W8 W9].
  split; rewrite ?E1, ?E2, ?E3, ?E4, ?E5, ?E6, ?E7, ?E8; auto.
Qed.

Lemma bump_fault_same b b' : same_map b b' -> same_map b (bump_fault b').
Proof. intros H. exact H. Qed.

Lemma bump_pt_same b b' : same_map b b' -> same_map b (bump_pt b').
Proof. intros H. unfold bump_pt. destruct (_ =? _); exact H. Qed.

Lemma check_spec b a sz pm :
  bus_wf b -> is_u32 a ->
  exists b', check b a sz pm = (grant (regions b) a sz pm, b') /\ same_map b b'.
Proof.
  intros Hw Hu. destruct (bus_find_spec b a (wf_table b Hw) Hu) as (b' & E & Hs).
  exists b'. unfold check, grant. rewrite E. auto.
Qed.

(** Where a cache hits, the table grants the access at the same place. *)
Definition access_size (sz : Z) : Prop := sz = 1 \/ sz = 2 \/ sz = 4.

Lemma cache_hit_inv rs r i a sz :
  table_ok rs -> rs !! i = Some r -> is_u32 a -> access_size sz ->
  cache_hit (cache_of size r) a sz = true ->
  lookup_region rs a = Some r /\ a -! base r = a - base r /\ 0 <= a - base r <= size r - sz.
Proof.
  intros Ht Hi Hu Hs Hh. assert (Hr : region_ok r) by (eapply Forall_lookup_1; [apply Ht|eassumption]).
  unfold cache_hit in Hh. cbn [cache_of c_base c_span] in Hh. bool_hyps.
  assert (Ir : in_region r a = true) by (unfold in_region; apply Z.ltb_lt; assumption).
  split; [eapply lookup_region_unique; eauto|].
  apply in_region_spec in Ir; [|assumption..]. pose proof (region_off r a Hr Hu Ir) as Eo. rewrite Eo in *.
  split; [reflexivity|]. destruct Hr as (? & ? & ?). unfold access_size in Hs.
  match goal with H : sz <= _ |- _ => rewrite u32_id in H by (unfold is_u32; lia) end. lia.
Qed.

(** A region that takes every width takes this one. *)
Lemma widths_any (r : region_t) sz : widths r &! 7 = 7 -> (widths r &! width_bit sz =? 0) = false.
Proof.
  intros Hw. apply Z.eqb_neq. intros E.
  assert (E2 : widths r &! 7 &! width_bit sz = 0).
  { rewrite <- Z.land_assoc, (Z.land_comm 7), Z.land_assoc, E. reflexivity. }
  rewrite Hw in E2. unfold width_bit in E2. destruct (sz =? 4), (sz =? 2); discriminate.
Qed.

Lemma allows_ok r a sz pm :
  region_ok r -> access_size sz -> a -! base r = a - base r -> 0 <= a - base r <= size r - sz ->
  (perm r &! pm =? 0) = false -> (widths r &! width_bit sz =? 0) = false ->
  region_allows r a sz pm = Some (a - base r).
Proof.
  intros (? & ? & ?) Hs Eo Ho Hp Hw. unfold region_allows. rewrite Eo, Hp, Hw.
  rewrite (u32_id (size r - sz)) by (unfold is_u32, access_size in *; lia).
  rewrite (proj2 (Z.ltb_ge _ _)) by lia. reflexivity.
Qed.

Lemma wany_any sz w : w = EMU_WANY -> (w &! width_bit sz =? 0) = false.
Proof. intros ->. unfold width_bit. destruct (sz =? 4), (sz =? 2); reflexivity. Qed.

(** A hit in a whole-region cache. *)
Lemma hit_grant rs P be c a sz pm :
  table_ok rs -> is_u32 a -> access_size sz -> cache_ok rs P size be c -> cache_hit c a sz = true ->
  (forall r i, rs !! i = Some r -> P r -> widths r = EMU_WANY /\ (perm r &! pm =? 0) = false) ->
  exists r, be /\ P r /\ grant rs a sz pm = Some (r, a - base r) /\
    c_host c = host r /\ a -! c_base c = a - base r.
Proof.
  intros Ht Hu Hs Hc Hh HP. destruct Hc as [Hz|(Hbe & i & r & Hi & Hr & ->)].
  { unfold cache_hit in Hh. rewrite Hz in Hh. bool_hyps.
    pose proof (u32_range (a - c_base c)) as Hrg. unfold is_u32 in Hrg. lia. }
  destruct (HP r i Hi Hr) as [Hw Hp].
  destruct (cache_hit_inv rs r i a sz Ht Hi Hu Hs Hh) as (Hl & Eo & Hb).
  exists r. split; [assumption|]. split; [assumption|]. split; [|auto].
  unfold grant. rewrite Hl. rewrite (allows_ok r a sz pm); auto.
  - eapply Forall_lookup_1; [apply Ht|eassumption].
  - apply wany_any. assumption.
Qed.

Lemma hit_data b c be a sz pm :
  bus_wf b -> is_u32 a -> access_size sz -> (EMU_PERM_RWX &! pm =? 0) = false ->
  cache_ok (regions b) plain_ram size be c -> cache_hit c a sz = true ->
  exists r, be /\ plain_ram r /\ grant (regions b) a sz pm = Some (r, a - base r) /\
    c_host c = host r /\ a -! c_base c = a - base r.
Proof.
  intros Hw Hu Hs Hpm Hc Hh. apply (hit_grant (regions b) plain_ram be c); auto; [apply Hw|].
  intros r i Hi Hr. pose proof (wf_ram b Hw) as Hram. eapply Forall_lookup_1 in Hram; [|eassumption].
  split; [apply Hram; assumption|]. destruct Hr as [_ ->]. assumption.
Qed.

Lemma hit_rodata b c be a sz :
  bus_wf b -> is_u32 a -> access_size sz ->
  cache_ok (regions b) plain_rom size be c -> cache_hit c a sz = true ->
  exists r, be /\ plain_rom r /\ grant (regions b) a sz EMU_PERM_R = Some (r, a - base r) /\
    c_host c = host r /\ a -! c_base c = a - base r.
Proof.
  intros Hw Hu Hs Hc Hh. apply (hit_grant (regions b) plain_rom be c); auto; [apply Hw|].
  intros r i Hi (_ & H1 & H2). auto.
Qed.

Lemma hit_fetch b c be a :
  bus_wf b -> is_u32 a ->
  cache_ok (regions b) fetchable (fun r => size r - 1) be c -> (a -! c_base c <? c_span c) = true ->
  exists r, be /\ fetchable r /\ grant (regions b) a 2 EMU_PERM_X = Some (r, a - base r) /\
    c_host c = host r /\ a -! c_base c = a - base r.
Proof.
  intros Hw Hu Hc Hh. apply Z.ltb_lt in Hh.
  destruct Hc as [Hz|(Hbe & i & r & Hi & Hr & ->)].
  { pose proof (u32_range (a - c_base c)) as Hrg. unfold is_u32 in Hrg. lia. }
  cbn in *. assert (Hok : region_ok r) by (eapply Forall_lookup_1; [apply Hw|eassumption]).
  assert (Ir : in_region r a = true) by (unfold in_region; apply Z.ltb_lt; lia).
  pose proof Ir as Ir'. apply in_region_spec in Ir'; [|assumption..].
  pose proof (region_off r a Hok Hu Ir') as Eo. rewrite Eo in *.
  exists r. split; [assumption|]. split; [assumption|]. split; [|auto].
  unfold grant. rewrite (lookup_region_unique _ _ _ _ (wf_table b Hw) Hu Hi Ir).
  destruct Hr as (_ & Hx & Hw16). rewrite (allows_ok r a 2 EMU_PERM_X); auto; [right; left; reflexivity|lia].
Qed.

(** ** Refilling keeps the caches right *)

(** The same table and byte order, and still well formed. *)
Definition keeps_map (b b' : bus_t) : Prop :=
  bus_wf b' /\ regions b' = regions b /\ big_endian b' = big_endian b.

Lemma keeps_same b b' : bus_wf b -> same_map b b' -> keeps_map b b'.
Proof. intros Hw Hs. split; [eapply same_map_wf; eauto|]. split; apply Hs. Qed.

Lemma arm_data_wf b i r : bus_wf b -> regions b !! i = Some r -> plain_ram r -> keeps_map b (arm_data_cache b r).
Proof.
  intros [W1 W2 W3 W4 W5 W6 W7 W8 W9] Hi Hr. unfold arm_data_cache.
  destruct (big_endian b) eqn:Eb; (split; [|auto]); split; cbn; rewrite ?Eb; auto;
    right; (split; [reflexivity|]); exists i, r; auto.
Qed.

Lemma arm_rodata_wf b i r :
  bus_wf b -> regions b !! i = Some r -> kind r = EMU_MEM_ROM -> (perm r &! EMU_PERM_R =? 0) = false ->
  keeps_map b (arm_rodata_cache b r).
Proof.
  intros Hw Hi Hk Hp. unfold arm_rodata_cache.
  destruct (Z.eqb_spec (widths r) EMU_WANY) as [Ew|]; cbn [negb]; [|apply keeps_same; auto using same_map_refl].
  destruct Hw as [W1 W2 W3 W4 W5 W6 W7 W8 W9].
  destruct (big_endian b) eqn:Eb; (split; [|auto]); split; cbn; rewrite ?Eb; auto;
    right; (split; [reflexivity|]); exists i, r; repeat split; auto.
Qed.

Lemma arm_fetch_wf b i r c :
  bus_wf b -> regions b !! i = Some r -> fetchable r -> c = Cache (base r) (size r -! 1) (host r) ->
  keeps_map b (if big_endian b then set_fetch_be b c else set_fetch b c).
Proof.
  intros Hw Hi Hr ->. assert (Hok : region_ok r) by (eapply Forall_lookup_1; [apply Hw|eassumption]).
  rewrite u32_id by (destruct Hok as (? & ? & ?); unfold is_u32; lia).
  destruct Hw as [W1 W2 W3 W4 W5 W6 W7 W8 W9].
  destruct (big_endian b) eqn:Eb; (split; [|auto]); split; cbn; rewrite ?Eb; auto;
    right; (split; [reflexivity|]); exists i, r; auto.
Qed.

Lemma grant_inv rs a sz pm r o :
  grant rs a sz pm = Some (r, o) ->
  (exists i, rs !! i = Some r) /\ (perm r &! pm =? 0) = false /\ (widths r &! width_bit sz =? 0) = false /\
  lookup_region rs a = Some r.
Proof.
  unfold grant. destruct (lookup_region rs a) as [r0|] eqn:El; [|discriminate].
  unfold region_allows. destruct (_ <? _); [discriminate|].
  destruct (_ =? 0) eqn:E1; [discriminate|]. destruct (widths r0 &! _ =? 0) eqn:E2; [discriminate|].
  intros [= <- <-]. destruct (lookup_region_in _ _ _ El) as [Hin _].
  apply list_elem_of_In, list_elem_of_lookup in Hin. auto.
Qed.

(** ** Slow paths *)

Lemma region_read_spec b h e r o sz i :
  bus_wf b -> regions b !! i = Some r -> (perm r &! EMU_PERM_R =? 0) = false ->
  view (region_read pt_read b h e r o sz) =
    (match kind r with
     | EMU_MEM_RAM | EMU_MEM_ROM =>
         (EMU_FAULT_NONE, Some (order (big_endian b) (host_ld (h (host r)) o sz) sz), h, e)
     | EMU_MEM_PASSTHRU =>
         let '(v, e') := pt_read e (host_base r + o) sz in (EMU_FAULT_NONE, Some v, h, e')
     | EMU_MEM_MMIO =>
         match ops r with
         | Some d => let '(f, v, e') := dev_read d e o sz in (f, v, h, e')
         | None => (EMU_FAULT_LOAD, None, h, e)
         end
     end) /\
  keeps_map b (a_bus (region_read pt_read b h e r o sz)).
Proof.
  intros Hw Hi Hp. unfold region_read. destruct (kind r) eqn:Hk.
  - split; [reflexivity|]. cbn [a_bus]. destruct (Z.eqb_spec (perm r) EMU_PERM_RWX).
    + eapply arm_data_wf; eauto. split; assumption.
    + apply keeps_same; auto using same_map_refl.
  - split; [reflexivity|]. eapply arm_rodata_wf; eauto.
  - destruct (ops r) as [d|]; [|split; [reflexivity|apply keeps_same; auto using same_map_refl]].
    destruct (dev_read d e o sz) as [[f v] e']. split; [reflexivity|]. apply keeps_same; auto using same_map_refl.
  - destruct (pt_read e (host_base r + o) sz) as [v e']. split; [reflexivity|].
    apply keeps_same; [assumption|]. apply bump_pt_same, same_map_refl.
Qed.

Lemma keeps_map_trans b b1 b2 : keeps_map b b1 -> keeps_map b1 b2 -> keeps_map b b2.
Proof. intros (_ & H1 & H2) (H3 & H4 & H5). split; [assumption|]. split; congruence. Qed.

(** A read that misses the read-only caches. *)
Lemma checked_read_spec b h e a sz :
  bus_wf b -> is_u32 a ->
  let x := (let '(r, b') := check b a sz EMU_PERM_R in
            match r with
            | None => Acc EMU_FAULT_LOAD None (bump_fault b') h e
            | Some (r, off) => region_read pt_read b' h e r off sz
            end) in
  view x = spec_read (big_endian b) (regions b) h e a sz /\ keeps_map b (a_bus x).
Proof.
  intros Hw Hu. destruct (check_spec b a sz EMU_PERM_R Hw Hu) as (b' & -> & Hs). cbn zeta iota.
  pose proof (keeps_same b b' Hw Hs) as Hk. unfold spec_read.
  destruct (grant (regions b) a sz EMU_PERM_R) as [[r o]|] eqn:Eg.
  - destruct (grant_inv _ _ _ _ _ _ Eg) as ((i & Hi) & Hp & _). destruct Hk as (Hw' & Er & Eb).
    rewrite <- Er in Hi. destruct (region_read_spec b' h e r o sz i Hw' Hi Hp) as [Ev Hk'].
    rewrite Ev, Eb. split; [reflexivity|]. eapply keeps_map_trans; [|exact Hk']. split; auto.
  - split; [reflexivity|]. apply keeps_same; [assumption|]. apply bump_fault_same. assumption.
Qed.

Lemma hit_ram_view b c be h e a sz :
  bus_wf b -> is_u32 a -> access_size sz -> cache_ok (regions b) plain_ram size (big_endian b = be) c ->
  cache_hit c a sz = true ->
  spec_read (big_endian b) (regions b) h e a sz
  = (EMU_FAULT_NONE, Some (order be (cache_read c h a sz) sz), h, e).
Proof.
  intros Hw Hu Hs Hc Hh.
  destruct (hit_data b c _ a sz EMU_PERM_R Hw Hu Hs eq_refl Hc Hh) as (r & Hb & [Hk _] & Eg & Eh & Eo).
  unfold spec_read, cache_read. rewrite Eg, Hk, Eh, Eo, Hb. reflexivity.
Qed.

Lemma hit_rom_view b c be h e a sz :
  bus_wf b -> is_u32 a -> access_size sz -> cache_ok (regions b) plain_rom size (big_endian b = be) c ->
  cache_hit c a sz = true ->
  spec_read (big_endian b) (regions b) h e a sz
  = (EMU_FAULT_NONE, Some (order be (cache_read c h a sz) sz), h, e).
Proof.
  intros Hw Hu Hs Hc Hh.
  destruct (hit_rodata b c _ a sz Hw Hu Hs Hc Hh) as (r & Hb & [Hk _] & Eg & Eh & Eo).
  unfold spec_read, cache_read. rewrite Eg, Hk, Eh, Eo, Hb. reflexivity.
Qed.

Lemma read_slow_spec b h e a sz :
  bus_wf b -> is_u32 a -> access_size sz ->
  view (emu_bus_read_slow pt_read b h e a sz) = spec_read (big_endian b) (regions b) h e a sz /\
  keeps_map b (a_bus (emu_bus_read_slow pt_read b h e a sz)).
Proof.
  intros Hw Hu Hs. unfold emu_bus_read_slow, rodata_hit, rodata_be_hit.
  pose proof (keeps_same b b Hw (same_map_refl b)) as Hk.
  destruct (cache_hit (rodata b) a sz) eqn:E1.
  { rewrite (hit_rom_view b (rodata b) false h e a sz) by (auto using wf_rodata). auto. }
  destruct (cache_hit (rodata_be b) a sz) eqn:E2.
  { rewrite (hit_rom_view b (rodata_be b) true h e a sz) by (auto using wf_rodata_be). auto. }
  apply checked_read_spec; assumption.
Qed.

Lemma bus_read_ok b h e a sz :
  bus_wf b -> is_u32 a -> access_size sz ->
  view (emu_bus_read pt_read b h e a sz) = spec_read (big_endian b) (regions b) h e a sz /\
  keeps_map b (a_bus (emu_bus_read pt_read b h e a sz)).
Proof.
  intros Hw Hu Hs. unfold emu_bus_read, emu_bus_read_le_hit, emu_bus_read_be_hit.
  pose proof (keeps_same b b Hw (same_map_refl b)) as Hk.
  destruct (cache_hit (data b) a sz) eqn:E1.
  { rewrite (hit_ram_view b (data b) false h e a sz) by (auto using wf_data). auto. }
  destruct (cache_hit (data_be b) a sz) eqn:E2.
  { rewrite (hit_ram_view b (data_be b) true h e a sz) by (auto using wf_data_be). auto. }
  apply read_slow_spec; assumption.
Qed.

(** The read path is transparent: on a well-formed bus, whatever the six
    caches and the lookup's hint hold, [emu_bus_read] has the fault, the value
    and the effect of a walk of the region table with every check, and leaves
    the bus well formed with the same table. *)
Theorem bus_read_transparent b h e a sz :
  bus_wf b -> is_u32 a -> access_size sz ->
  view (emu_bus_read pt_read b h e a sz) = spec_read (big_endian b) (regions b) h e a sz /\
  keeps_map b (a_bus (emu_bus_read pt_read b h e a sz)).
Proof. apply bus_read_ok. Qed.

Lemma region_write_spec b h e r o sz v i :
  bus_wf b -> regions b !! i = Some r ->
  view (region_write pt_write b h e r o sz v) =
    (match kind r with
     | EMU_MEM_RAM =>
         (EMU_FAULT_NONE, None, upd h (host r) (host_st (h (host r)) o sz (order (big_endian b) v sz)), e)
     | EMU_MEM_ROM => (EMU_FAULT_STORE, None, h, e)
     | EMU_MEM_PASSTHRU => (EMU_FAULT_NONE, None, h, pt_write e (host_base r + o) sz v)
     | EMU_MEM_MMIO =>
         match ops r with
         | Some d => let '(f, e') := dev_write d e o sz v in (f, None, h, e')
         | None => (EMU_FAULT_STORE, None, h, e)
         end
     end) /\
  keeps_map b (a_bus (region_write pt_write b h e r o sz v)).
Proof.
  intros Hw Hi. unfold region_write. destruct (kind r) eqn:Hk.
  - split; [reflexivity|]. cbn [a_bus]. destruct (Z.eqb_spec (perm r) EMU_PERM_RWX).
    + eapply arm_data_wf; eauto. split; assumption.
    + apply keeps_same; auto using same_map_refl.
  - split; [reflexivity|]. apply keeps_same; auto using same_map_refl.
  - destruct (ops r) as [d|]; [|split; [reflexivity|apply keeps_same; auto using same_map_refl]].
    destruct (dev_write d e o sz v) as [f e']. split; [reflexivity|]. apply keeps_same; auto using same_map_refl.
  - split; [reflexivity|]. apply keeps_same; [assumption|]. apply bump_pt_same, same_map_refl.
Qed.

Lemma write_slow_spec b h e a sz v :
  bus_wf b -> is_u32 a ->
  view (emu_bus_write_slow pt_write b h e a sz v) = spec_write (big_endian b) (regions b) h e a sz v /\
  keeps_map b (a_bus (emu_bus_write_slow pt_write b h e a sz v)).
Proof.
  intros Hw Hu. unfold emu_bus_write_slow. destruct (check_spec b a sz EMU_PERM_W Hw Hu) as (b' & -> & Hs).
  pose proof (keeps_same b b' Hw Hs) as Hk. unfold spec_write.
  destruct (grant (regions b) a sz EMU_PERM_W) as [[r o]|] eqn:Eg.
  - destruct (grant_inv _ _ _ _ _ _ Eg) as ((i & Hi) & _). destruct Hk as (Hw' & Er & Eb).
    rewrite <- Er in Hi. destruct (region_write_spec b' h e r o sz v i Hw' Hi) as [Ev Hk'].
    rewrite Ev, Eb. split; [reflexivity|]. eapply keeps_map_trans; [|exact Hk']. split; auto.
  - split; [reflexivity|]. apply keeps_same; [assumption|]. apply bump_fault_same. assumption.
Qed.

Lemma hit_write_view b c be h e a sz v :
  bus_wf b -> is_u32 a -> access_size sz -> cache_ok (regions b) plain_ram size (big_endian b = be) c ->
  cache_hit c a sz = true ->
  spec_write (big_endian b) (regions b) h e a sz v
  = (EMU_FAULT_NONE, None, cache_write c h a sz (order be v sz), e).
Proof.
  intros Hw Hu Hs Hc Hh.
  destruct (hit_data b c _ a sz EMU_PERM_W Hw Hu Hs eq_refl Hc Hh) as (r & Hb & [Hk _] & Eg & Eh & Eo).
  unfold spec_write, cache_write. rewrite Eg, Hk, Eh, Eo, Hb. reflexivity.
Qed.

Lemma bus_write_ok b h e a sz v :
  bus_wf b -> is_u32 a -> access_size sz ->
  view (emu_bus_write pt_write b h e a sz v) = spec_write (big_endian b) (regions b) h e a sz v /\
  keeps_map b (a_bus (emu_bus_write pt_write b h e a sz v)).
Proof.
  intros Hw Hu Hs. unfold emu_bus_write, emu_bus_write_le_hit, emu_bus_write_be_hit.
  pose proof (keeps_same b b Hw (same_map_refl b)) as Hk.
  destruct (cache_hit (data b) a sz) eqn:E1.
  { rewrite (hit_write_view b (data b) false h e a sz) by (auto using wf_data). auto. }
  destruct (cache_hit (data_be b) a sz) eqn:E2.
  { rewrite (hit_write_view b (data_be b) true h e a sz) by (auto using wf_data_be). auto. }
  apply write_slow_spec; assumption.
Qed.

(** The write path is transparent in the same sense, in both byte orders:
    a store that hits a cache changes exactly the bytes the checked store
    would have changed, and one that misses is the checked store. *)
Theorem bus_write_transparent b h e a sz v :
  bus_wf b -> is_u32 a -> access_size sz ->
  view (emu_bus_write pt_write b h e a sz v) = spec_write (big_endian b) (regions b) h e a sz v /\
  keeps_map b (a_bus (emu_bus_write pt_write b h e a sz v)).
Proof. apply bus_write_ok. Qed.

Lemma ld_le_range f n : forall o, 0 <= ld_le f o n < 2 ^ (8 * Z.of_nat n).
Proof.
  induction n as [|n IH]; intros o; [cbn; lia|]. cbn [ld_le]. specialize (IH (o + 1)).
  rewrite Nat2Z.inj_succ. replace (8 * Z.succ (Z.of_nat n)) with (8 + 8 * Z.of_nat n) by lia.
  rewrite Z.pow_add_r by lia. unfold u8. pose proof (Z.mod_pos_bound (f o) (2 ^ 8) ltac:(lia)). nia.
Qed.

Lemma u16_ld f o : u16 (host_ld f o 2) = host_ld f o 2.
Proof. unfold u16, host_ld. apply Z.mod_small. exact (ld_le_range f 2 o). Qed.

Lemma region_fetch16_spec b h e r o i :
  bus_wf b -> regions b !! i = Some r -> (perm r &! EMU_PERM_X =? 0) = false ->
  (widths r &! EMU_W16 =? 0) = false ->
  view (region_fetch16 pt_read b h e r o) =
    (match kind r with
     | EMU_MEM_RAM | EMU_MEM_ROM =>
         (EMU_FAULT_NONE, Some (u16 (order (big_endian b) (host_ld (h (host r)) o 2) 2)), h, e)
     | EMU_MEM_PASSTHRU =>
         let '(v, e') := pt_read e (host_base r + o) 2 in (EMU_FAULT_NONE, Some (u16 v), h, e')
     | EMU_MEM_MMIO => (EMU_FAULT_FETCH, None, h, e)
     end) /\
  keeps_map b (a_bus (region_fetch16 pt_read b h e r o)).
Proof.
  intros Hw Hi Hx H16. unfold region_fetch16. destruct (kind r) eqn:Hk.
  - split; [reflexivity|]. eapply arm_fetch_wf; eauto. repeat split; auto.
  - split; [reflexivity|]. eapply arm_fetch_wf; eauto. repeat split; auto.
  - split; [reflexivity|]. apply keeps_same; auto using same_map_refl.
  - destruct (pt_read e (host_base r + o) 2) as [v e']. split; [reflexivity|]. apply keeps_same; auto using same_map_refl.
Qed.

Lemma fetch16_slow_spec b h e a :
  bus_wf b -> is_u32 a ->
  view (emu_bus_fetch16_slow pt_read b h e a) = spec_fetch16 (big_endian b) (regions b) h e a /\
  keeps_map b (a_bus (emu_bus_fetch16_slow pt_read b h e a)).
Proof.
  intros Hw Hu. unfold emu_bus_fetch16_slow. destruct (check_spec b a 2 EMU_PERM_X Hw Hu) as (b' & -> & Hs).
  pose proof (keeps_same b b' Hw Hs) as Hk. unfold spec_fetch16.
  destruct (grant (regions b) a 2 EMU_PERM_X) as [[r o]|] eqn:Eg.
  - destruct (grant_inv _ _ _ _ _ _ Eg) as ((i & Hi) & Hx & H16 & _). destruct Hk as (Hw' & Er & Eb).
    rewrite <- Er in Hi. destruct (region_fetch16_spec b' h e r o i Hw' Hi Hx H16) as [Ev Hk'].
    rewrite Ev, Eb. split; [reflexivity|]. eapply keeps_map_trans; [|exact Hk']. split; auto.
  - split; [reflexivity|]. apply keeps_same; [assumption|]. apply bump_fault_same. assumption.
Qed.

Lemma hit_fetch_view b c be h e a :
  bus_wf b -> is_u32 a -> cache_ok (regions b) fetchable (fun r => size r - 1) (big_endian b = be) c ->
  (a -! c_base c <? c_span c) = true ->
  spec_fetch16 (big_endian b) (regions b) h e a
  = (EMU_FAULT_NONE, Some (u16 (order be (cache_read c h a 2) 2)), h, e).
Proof.
  intros Hw Hu Hc Hh. destruct (hit_fetch b c _ a Hw Hu Hc Hh) as (r & Hb & [Hk _] & Eg & Eh & Eo).
  unfold spec_fetch16, cache_read. rewrite Eg, Eh, Eo, Hb. destruct Hk as [-> | ->]; reflexivity.
Qed.

Lemma bus_fetch16_ok b h e a :
  bus_wf b -> is_u32 a ->
  view (emu_bus_fetch16 pt_read b h e a) = spec_fetch16 (big_endian b) (regions b) h e a /\
  keeps_map b (a_bus (emu_bus_fetch16 pt_read b h e a)).
Proof.
  intros Hw Hu. unfold emu_bus_fetch16, emu_bus_fetch16_le_hit, emu_bus_fetch16_be_hit.
  pose proof (keeps_same b b Hw (same_map_refl b)) as Hk.
  destruct (_ <? c_span (fetch b)) eqn:E1.
  { rewrite (hit_fetch_view b (fetch b) false h e a) by (auto using wf_fetch). cbn [order]. 
    unfold cache_read. rewrite u16_ld. auto. }
  destruct (_ <? c_span (fetch_be b)) eqn:E2.
  { rewrite (hit_fetch_view b (fetch_be b) true h e a) by (auto using wf_fetch_be). auto. }
  apply fetch16_slow_spec; assumption.
Qed.

(** The fetch path is transparent: a parcel served by a fetch cache is
    the one a checked fetch composes, and no cached fetch reads past the end
    of its region or from one that may not be executed. *)
Theorem bus_fetch16_transparent b h e a :
  bus_wf b -> is_u32 a ->
  view (emu_bus_fetch16 pt_read b h e a) = spec_fetch16 (big_endian b) (regions b) h e a /\
  keeps_map b (a_bus (emu_bus_fetch16 pt_read b h e a)).
Proof. apply bus_fetch16_ok. Qed.

(** [C8] The bus's caches are transparent: on a well-formed bus, whatever the
    six caches and the lookup's hint hold and in either byte order, a read, a
    write and a fetch have the fault, the value and the effect of a walk of the
    region table with every check, and leave the bus well formed with the same
    table.  A store that hits a cache changes exactly the bytes the checked
    store would have changed; no cached fetch reads past the end of its region
    or from one that may not be executed. *)
Theorem bus_transparent b h e a :
  bus_wf b -> is_u32 a ->
  (forall sz, access_size sz ->
     (view (emu_bus_read pt_read b h e a sz) = spec_read (big_endian b) (regions b) h e a sz /\
      keeps_map b (a_bus (emu_bus_read pt_read b h e a sz))) /\
     (forall v, view (emu_bus_write pt_write b h e a sz v) = spec_write (big_endian b) (regions b) h e a sz v /\
                keeps_map b (a_bus (emu_bus_write pt_write b h e a sz v)))) /\
  view (emu_bus_fetch16 pt_read b h e a) = spec_fetch16 (big_endian b) (regions b) h e a /\
  keeps_map b (a_bus (emu_bus_fetch16 pt_read b h e a)).
Proof.
  intros Hw Hu. split; [|apply bus_fetch16_ok; assumption]. intros sz Hs. split; [apply bus_read_ok; assumption|]. intros v. apply bus_write_ok; assumption.
Qed.

(** ** Setup *)

Lemma flush_wf b :
  table_ok (regions b) -> Forall ram_any_width (regions b) -> 0 <= last b -> bus_wf (emu_bus_flush b).
Proof. intros H1 H2 H3. split; cbn; auto; left; reflexivity. Qed.

Lemma bus_add_ok g b r ok b' g' :
  bus_wf b -> 0 <= base r -> size r < 2 ^ 32 -> ram_any_width r ->
  emu_bus_add g b r = (ok, b', g') ->
  bus_wf b' /\ regions b' = (if ok then regions b ++ [r] else regions b) /\
  (ok = true -> region_ok r /\ forall i s a, regions b !! i = Some s -> is_u32 a ->
                  in_region s a = true -> in_region r a = false).
Proof.
  intros Hw H0 Hsz Hany E. unfold emu_bus_add in E.
  destruct (_ || _ || _) eqn:Eg; [injection E as <- <- _; split; [assumption|split; [reflexivity|discriminate]]|].
  bool_hyps. assert (Hr : region_ok r) by (unfold region_ok; lia).
  destruct (existsb (overlaps r) (regions b)) eqn:Ex; injection E as <- <- _.
  - split; [|split; [reflexivity|discriminate]]. apply (same_map_wf b); [exact (same_map_refl b)|assumption].
  - split; [|split; [reflexivity|]].
    + apply flush_wf; cbn; [apply table_ok_snoc; auto; apply Hw| |apply Hw].
      apply Forall_app. split; [apply Hw|]. constructor; auto.
    + intros _. split; [assumption|]. intros i s a Hi Hu Is. destruct (in_region r a) eqn:Ir; [|reflexivity].
      exfalso. assert (Hs : region_ok s) by (eapply Forall_lookup_1; [apply Hw|eassumption]).
      pose proof (overlaps_sound r s a Hr Hs Hu Ir Is) as Ho.
      assert (Et : existsb (overlaps r) (regions b) = true); [|congruence].
      apply existsb_exists. exists s. split; [|assumption].
      apply list_elem_of_In. eapply list_elem_of_lookup_2; eauto.
Qed.

(** The table stays sound: starting from [emu_bus_init], a region
    [emu_bus_add] accepts keeps every invariant of the bus (no address in two
    regions, nothing past 4 GB, the caches empty), and one it refuses leaves
    the table and the caches as they were. *)
Theorem bus_add_wf g b r ok b' g' :
  bus_wf b -> 0 <= base r -> size r < 2 ^ 32 -> ram_any_width r ->
  emu_bus_add g b r = (ok, b', g') ->
  bus_wf b' /\ regions b' = (if ok then regions b ++ [r] else regions b) /\
  (ok = true -> region_ok r /\ forall i s a, regions b !! i = Some s -> is_u32 a ->
                  in_region s a = true -> in_region r a = false).
Proof. apply bus_add_ok. Qed.

Lemma init_wf g : bus_wf (fst (emu_bus_init g)).
Proof.
  split; cbn; try (left; reflexivity); [|lia].
  split; [constructor|]. intros i j r s a Hi. discriminate.
Qed.

Lemma set_big_endian_wf b on : bus_wf b -> bus_wf (emu_bus_set_big_endian b on).
Proof. intros Hw. apply flush_wf; cbn; apply Hw. Qed.

End BusProps.
