(* ===== verification/BusMem.v ===== *)
(** * Memory through the bus

    What a guest sees of RAM and ROM: a store is read back, in either byte
    order; a store to ROM is refused and changes nothing; an image loaded with
    [emu_bus_load] is what [emu_bus_dump] returns. *)

From stdpp Require Import base list gmap.
From Stdlib Require Import ZArith Lia.
From S2P Require Import Prelude Bus BusProps.

Open Scope Z_scope.
Open Scope u32_scope.

(** ** Byte order *)

Lemma bswap32_bit v i :
  0 <= i < 32 -> Z.testbit (bswap32 v) i = Z.testbit v (i mod 8 + 8 * (3 - i / 8)).
Proof.
  intros Hi. unfold bswap32. rewrite !Z.lor_spec, !u32_testbit, !Z.land_spec, !Z.shiftl_spec, !Z.land_spec, !Z.shiftr_spec by lia.
  assert (Hc : exists n, (n < 32)%nat /\ i = Z.of_nat n) by (exists (Z.to_nat i); lia).
  destruct Hc as (n & Hn & ->). clear Hi.
  do 32 (destruct n as [|n]; [cbn; rewrite ?andb_true_r, ?andb_false_r, ?orb_false_r; reflexivity|]). lia.
Qed.

Lemma bswap32_u32 v : is_u32 v -> is_u32 (bswap32 v).
Proof.
  intros Hv. unfold bswap32. assert (H0 : 0 <= v) by (unfold is_u32 in Hv; lia).
  repeat apply is_u32_lor; try apply u32_range; (apply is_u32_land; [apply is_u32_shiftr; [assumption|lia]|lia]).
Qed.

Lemma bswap32_involutive v : is_u32 v -> bswap32 (bswap32 v) = v.
Proof.
  intros Hv. apply Z.bits_inj'. intros i Hi. destruct (Z.lt_ge_cases i 32) as [Hlt|Hge].
  - pose proof (Z.div_mod i 8 ltac:(lia)). pose proof (Z.mod_pos_bound i 8 ltac:(lia)).
    assert (0 <= i / 8 < 4) by (split; [apply Z.div_pos; lia|apply Z.div_lt_upper_bound; lia]).
    set (j := i mod 8 + 8 * (3 - i / 8)). assert (Hj : 0 <= j < 32) by (unfold j; lia).
    rewrite bswap32_bit by lia. fold j. rewrite bswap32_bit by lia. f_equal.
    assert (Em : j mod 8 = i mod 8) by (symmetry; apply Z.mod_unique with (3 - i / 8); unfold j; lia).
    assert (Ed : j / 8 = 3 - i / 8) by (symmetry; apply Z.div_unique with (i mod 8); unfold j; lia).
    rewrite Em, Ed. lia.
  - rewrite !is_u32_testbit_high by auto using bswap32_u32. reflexivity.
Qed.


(** A 16-bit swap, by its bytes. *)
Lemma bswap16_bytes v : 0 <= v -> emu_bswap v 2 = (v mod 256) * 256 + (v / 256) mod 256.
Proof.
  intros Hv. cbn [emu_bswap]. change 255 with (Z.ones 8). rewrite !Z.land_ones by lia.
  rewrite Z.shiftr_div_pow2, Z.shiftl_mul_pow2 by lia.
  pose proof (Z.mod_pos_bound v 256 ltac:(lia)). pose proof (Z.mod_pos_bound (v / 256) 256 ltac:(lia)).
  change (2 ^ 8) with 256. rewrite u32_id by (unfold is_u32; lia).
  assert (E : Z.lor (v mod 256 * 256) ((v / 256) mod 256) = v mod 256 * 256 + (v / 256) mod 256).
  { rewrite <- Z.lxor_lor, <- Z.add_nocarry_lxor; [reflexivity| |].
    all: apply Z.bits_inj'; intros i Hi; rewrite Z.land_spec, Z.bits_0;
      destruct (Z.lt_ge_cases i 8) as [Hlt|Hge];
      [replace 256 with (2 ^ 8) by reflexivity; rewrite Z.mul_pow2_bits_low by lia; reflexivity
      |replace 256 with (2 ^ 8) by reflexivity; rewrite (Z.mod_pow2_bits_high (v / _)) by lia; apply andb_false_r]. }
  rewrite E. unfold u16. apply Z.mod_small. lia.
Qed.

(** ** Loads and stores of host memory *)

Lemma st_le_other n : forall f o v x, x < o \/ o + Z.of_nat n <= x -> st_le f o n v x = f x.
Proof.
  induction n as [|n IH]; intros f o v x Hx; [reflexivity|]. cbn [st_le]. rewrite Nat2Z.inj_succ in Hx.
  rewrite IH by lia. apply upd_ne. lia.
Qed.

Lemma ld_le_ext n : forall f g o, (forall x, o <= x < o + Z.of_nat n -> f x = g x) -> ld_le f o n = ld_le g o n.
Proof.
  induction n as [|n IH]; intros f g o Hx; [reflexivity|]. cbn [ld_le]. rewrite Nat2Z.inj_succ in Hx.
  rewrite Hx by lia. rewrite (IH f g (o + 1)); [reflexivity|]. intros x Hr. apply Hx. lia.
Qed.

Lemma ld_st_same n : forall f o v, ld_le (st_le f o n v) o n = v mod 2 ^ (8 * Z.of_nat n).
Proof.
  induction n as [|n IH]; intros f o v; [cbn; rewrite Z.mod_1_r; reflexivity|]. cbn [ld_le st_le].
  rewrite (st_le_other n) by lia. rewrite upd_eq, IH. unfold u8. rewrite Z.mod_mod by lia.
  rewrite Nat2Z.inj_succ. replace (8 * Z.succ (Z.of_nat n)) with (8 + 8 * Z.of_nat n) by lia.
  rewrite Z.pow_add_r by lia. change (2 ^ 8) with 256. rewrite Z.rem_mul_r by lia. reflexivity.
Qed.

(** A store reads back through either byte order. *)
Lemma order_store_load be f o sz v :
  access_size sz -> is_u32 v ->
  order be (host_ld (host_st f o sz (order be v sz)) o sz) sz = v mod 2 ^ (8 * sz).
Proof.
  intros Hs Hv. unfold host_ld, host_st. rewrite ld_st_same.
  assert (H0 : 0 <= v < 2 ^ 32) by exact Hv.
  destruct be; cbn [order]; [|destruct Hs as [-> |[-> | ->]]; reflexivity].
  destruct Hs as [-> |[-> | ->]]; [reflexivity| |].
  - change (2 ^ (8 * Z.of_nat (nbytes 2))) with 65536. change (2 ^ (8 * 2)) with 65536.
    rewrite (bswap16_bytes v) by lia.
    pose proof (Z.mod_pos_bound v 256 ltac:(lia)). pose proof (Z.mod_pos_bound (v / 256) 256 ltac:(lia)).
    rewrite Z.mod_small by lia. rewrite bswap16_bytes by lia.
    set (A := v mod 256) in *. set (B := (v / 256) mod 256) in *.
    assert (E1 : (A * 256 + B) mod 256 = B) by (symmetry; apply Z.mod_unique with A; lia).
    assert (E2 : (A * 256 + B) / 256 = A) by (symmetry; apply Z.div_unique with B; lia).
    rewrite E1, E2, (Z.mod_small A) by lia. unfold A, B.
    change 65536 with (256 * 256). rewrite Z.rem_mul_r by lia. lia.
  - change (2 ^ (8 * Z.of_nat (nbytes 4))) with (2 ^ 32). cbn [emu_bswap].
    rewrite (Z.mod_small (bswap32 v)) by (apply bswap32_u32; assumption).
    rewrite bswap32_involutive by assumption. symmetry. apply Z.mod_small. assumption.
Qed.

Section BusMem.
Context {Ext : Type}.
#[local] Abbreviation region_t := (emu_region Ext).
#[local] Abbreviation bus_t := (emu_bus Ext).
Variable pt_read : Ext -> Z -> Z -> Z * Ext.
Variable pt_write : Ext -> Z -> Z -> Z -> Ext.

(** Memory remembers: a store the bus accepts on a RAM region the guest
    may also read is read back by the next load of the same address and size,
    truncated to the size and in the guest's byte order, with no fault. *)
Theorem ram_store_load b h e a sz v r :
  bus_wf b -> is_u32 a -> access_size sz -> is_u32 v ->
  grant (regions b) a sz EMU_PERM_W = Some (r, a - base r) -> kind r = EMU_MEM_RAM ->
  (perm r &! EMU_PERM_R =? 0) = false ->
  let w := emu_bus_write pt_write b h e a sz v in
  let x := emu_bus_read pt_read (a_bus w) (a_heap w) (a_ext w) a sz in
  a_fault w = EMU_FAULT_NONE /\ a_fault x = EMU_FAULT_NONE /\ a_out x = Some (v mod 2 ^ (8 * sz)).
Proof.
  intros Hw Hu Hs Hv Hg Hk Hp w x.
  destruct (bus_write_ok pt_write b h e a sz v Hw Hu Hs) as [Ew (Hw' & Er & Eb)].
  fold w in Ew, Hw', Er, Eb. unfold spec_write in Ew. rewrite Hg, Hk in Ew. unfold view in Ew.
  injection Ew as Ef Eo Eh Ee. split; [assumption|].
  destruct (bus_read_ok pt_read (a_bus w) (a_heap w) (a_ext w) a sz Hw' Hu Hs) as [Ex _].
  fold x in Ex. rewrite Er, Eb, Eh in Ex. unfold spec_read in Ex.
  assert (Hgr : grant (regions b) a sz EMU_PERM_R = Some (r, a - base r)).
  { unfold grant, region_allows in *. destruct (lookup_region (regions b) a) as [r0|]; [|discriminate].
    destruct (_ <? _); [discriminate|]. destruct (perm r0 &! EMU_PERM_W =? 0); [discriminate|].
    destruct (widths r0 &! _ =? 0); [discriminate|]. injection Hg as -> ->. rewrite Hp. reflexivity. }
  rewrite Hgr, Hk, upd_eq in Ex. unfold view in Ex. injection Ex as Ef' Eo' _ _.
  rewrite Ef', Eo'. split; [reflexivity|]. f_equal. apply order_store_load; assumption.
Qed.

(** ROM is read-only: a store to an address in a ROM region is a store
    fault that changes no host byte and no device, whatever the region's
    permission bits and whatever the caches hold. *)
Theorem rom_store_refused b h e a sz v r :
  bus_wf b -> is_u32 a -> access_size sz -> lookup_region (regions b) a = Some r -> kind r = EMU_MEM_ROM ->
  view (emu_bus_write pt_write b h e a sz v) = (EMU_FAULT_STORE, None, h, e).
Proof.
  intros Hw Hu Hs Hl Hk. destruct (bus_write_ok pt_write b h e a sz v Hw Hu Hs) as [-> _].
  unfold spec_write, grant. rewrite Hl. destruct (region_allows r a sz EMU_PERM_W); [|reflexivity].
  rewrite Hk. reflexivity.
Qed.

(** ** Bulk access *)

Lemma copy_in_spec bs : forall f o x,
  copy_in f o bs x = if (o <=? x) && (x <? o + Z.of_nat (length bs))
                     then default 0 (bs !! Z.to_nat (x - o)) else f x.
Proof.
  induction bs as [|y bs IH]; intros f o x; cbn [copy_in length].
  - change (Z.of_nat 0) with 0. destruct (Z.leb_spec o x), (Z.ltb_spec x (o + 0)); cbn [andb]; try reflexivity; lia.
  - rewrite IH, Nat2Z.inj_succ. unfold upd.
    destruct (Z.leb_spec (o + 1) x), (Z.leb_spec o x), (Z.ltb_spec x (o + 1 + Z.of_nat (length bs))),
      (Z.ltb_spec x (o + Z.succ (Z.of_nat (length bs)))), (Z.eqb_spec x o); cbn [andb]; try lia; try reflexivity.
    + replace (Z.to_nat (x - o)) with (S (Z.to_nat (x - (o + 1)))) by lia. reflexivity.
    + subst x. rewrite Z.sub_diag. reflexivity.
Qed.

Lemma copy_out_lookup n : forall f o k, (k < n)%nat -> copy_out f o n !! k = Some (f (o + Z.of_nat k)).
Proof.
  induction n as [|n IH]; intros f o k Hk; [lia|]. cbn [copy_out]. destruct k as [|k].
  - rewrite Z.add_0_r. reflexivity.
  - change (copy_out f (o + 1) n !! k = Some (f (o + Z.of_nat (S k)))).
    rewrite IH by lia. do 2 f_equal. lia.
Qed.

Lemma copy_out_length n : forall f o, length (copy_out f o n) = n.
Proof. induction n as [|n IH]; intros f o; cbn; [reflexivity|]. rewrite IH. reflexivity. Qed.

Definition is_memory (r : region_t) : bool :=
  bool_decide (kind r = EMU_MEM_RAM) || bool_decide (kind r = EMU_MEM_ROM).

(** The byte of RAM or ROM at a guest address. *)
Definition guest_byte (rs : list region_t) (h : heap) (a : Z) : option Z :=
  match lookup_region rs a with
  | Some r => if is_memory r then Some (h (host r) (a - base r)) else None
  | None => None
  end.

(** No two entries of memory share a host buffer. *)
Definition hosts_apart (rs : list region_t) : Prop :=
  forall i j r s, rs !! i = Some r -> rs !! j = Some s -> is_memory r = true -> is_memory s = true ->
    host r = host s -> i = j.

Lemma bulk_chunk_spec (b : bus_t) a len :
  bus_wf b -> is_u32 a -> 0 < len -> a + len <= 2 ^ 32 ->
  exists b', same_map b b' /\
  match guest_byte (regions b) (fun _ _ => 0) a with
  | None => bulk_chunk b a len = (None, b')
  | Some _ => exists i r n, regions b !! i = Some r /\ is_memory r = true /\
      bulk_chunk b a len = (Some (r, a - base r, n), b') /\ 1 <= n <= len /\
      base r <= a /\ a + n <= base r + size r
  end.
Proof.
  intros Hw Hu Hl Hb. destruct (bus_find_spec b a (wf_table b Hw) Hu) as (b' & E & Hs).
  exists b'. split; [assumption|]. unfold guest_byte, bulk_chunk. rewrite E.
  destruct (lookup_region (regions b) a) as [r|] eqn:El; [|reflexivity].
  unfold is_memory. destruct (_ || _) eqn:Em; [|reflexivity].
  destruct (lookup_region_in _ _ _ El) as [Hin Ir].
  apply list_elem_of_In, list_elem_of_lookup in Hin as [i Hi].
  assert (Hr : region_ok r) by (eapply Forall_lookup_1; [apply Hw|eassumption]).
  apply in_region_spec in Ir; [|assumption..]. pose proof (region_off r a Hr Hu Ir) as Eo.
  exists i, r. rewrite Eo. destruct Hr as (? & ? & ?).
  rewrite (u32_id (size r - (a - base r))) by (unfold is_u32; lia).
  eexists. split; [eassumption|]. split; [exact Em|]. split; [reflexivity|].
  destruct (Z.ltb_spec len (size r - (a - base r))); lia.
Qed.

(** Every address of a chunk is in the region it was taken from. *)
Lemma chunk_lookup (b : bus_t) i r x :
  bus_wf b -> regions b !! i = Some r -> base r <= x < base r + size r -> lookup_region (regions b) x = Some r.
Proof.
  intros Hw Hi Hx. assert (Hr : region_ok r) by (eapply Forall_lookup_1; [apply Hw|eassumption]).
  assert (Hu : is_u32 x) by (destruct Hr as (? & ? & ?); unfold is_u32; lia).
  eapply lookup_region_unique; [apply Hw|assumption|eassumption|]. apply in_region_spec; assumption.
Qed.

Lemma guest_byte_mapped (rs : list region_t) h h' a : (guest_byte rs h a = None) <-> (guest_byte rs h' a = None).
Proof. unfold guest_byte. destruct (lookup_region rs a) as [r|]; [|tauto]. destruct (is_memory r); split; discriminate || auto. Qed.

(** One chunk copied in. *)
Lemma guest_byte_copied (b : bus_t) h i r a bs x :
  bus_wf b -> hosts_apart (regions b) -> regions b !! i = Some r -> is_memory r = true ->
  base r <= a -> a + Z.of_nat (length bs) <= base r + size r -> is_u32 x ->
  guest_byte (regions b) (upd h (host r) (copy_in (h (host r)) (a - base r) bs)) x =
  if (a <=? x) && (x <? a + Z.of_nat (length bs)) then Some (default 0 (bs !! Z.to_nat (x - a)))
  else guest_byte (regions b) h x.
Proof.
  intros Hw Ha Hi Hm Hb Hl Hu. unfold guest_byte.
  destruct ((a <=? x) && (x <? a + Z.of_nat (length bs))) eqn:Ex.
  - bool_hyps. rewrite (chunk_lookup b i r x Hw Hi) by lia. rewrite Hm, upd_eq, copy_in_spec.
    rewrite (proj2 (Z.leb_le _ _)), (proj2 (Z.ltb_lt _ _)) by lia. cbn [andb].
    do 3 f_equal. lia.
  - destruct (lookup_region (regions b) x) as [s|] eqn:El; [|reflexivity].
    destruct (is_memory s) eqn:Es; [|reflexivity]. f_equal. unfold upd.
    destruct (Z.eqb_spec (host s) (host r)) as [Eh|]; [|reflexivity].
    destruct (lookup_region_in _ _ _ El) as [Hin Ir]. apply list_elem_of_In, list_elem_of_lookup in Hin as [j Hj].
    pose proof (Ha _ _ _ _ Hj Hi Es Hm Eh) as ->. rewrite Hi in Hj. injection Hj as <-.
    rewrite copy_in_spec. destruct (Z.leb_spec (a - base r) (x - base r)), (Z.ltb_spec (x - base r) (a - base r + Z.of_nat (length bs)));
      cbn [andb]; try reflexivity. exfalso.
    rewrite (proj2 (Z.leb_le _ _)), (proj2 (Z.ltb_lt _ _)) in Ex by lia. discriminate.
Qed.

Definition mapped (rs : list region_t) (a len : Z) : Prop :=
  forall x, a <= x < a + len -> guest_byte rs (fun _ _ => 0) x <> None.

(** What the loading loop leaves: every byte in place and no other guest byte
    changed, or a hole in the range. *)
Definition loaded (rs : list region_t) (h h' : heap) (a : Z) (src : list Z) (ok : bool) : Prop :=
  if ok then forall x, is_u32 x -> guest_byte rs h' x =
               if (a <=? x) && (x <? a + Z.of_nat (length src))
               then Some (default 0 (src !! Z.to_nat (x - a))) else guest_byte rs h x
  else ~ mapped rs a (Z.of_nat (length src)).

Lemma loaded_nil rs h a : loaded rs h h a [] true.
Proof.
  intros x Hx. change (Z.of_nat (length [])) with 0. rewrite Z.add_0_r.
  destruct (Z.leb_spec a x), (Z.ltb_spec x a); cbn [andb]; auto; lia.
Qed.

Lemma next_addr a n len : is_u32 a -> 1 <= n < len -> a + len <= 2 ^ 32 -> a +! n = a + n /\ is_u32 (a + n).
Proof. intros Hu Hn Hl. assert (H : is_u32 (a + n)) by (unfold is_u32 in *; lia). split; [apply u32_id|]; assumption. Qed.

Lemma load_loop_spec : forall fuel (b : bus_t) h a src,
  bus_wf b -> hosts_apart (regions b) -> is_u32 a -> a + Z.of_nat (length src) <= 2 ^ 32 ->
  (length src <= fuel)%nat ->
  exists ok b' h', load_loop fuel b h a src = Some (ok, b', h') /\ same_map b b' /\
    loaded (regions b) h h' a src ok.
Proof.
  induction fuel as [|fuel IH]; intros b h a src Hw Ha Hu Hl Hf.
  { destruct src; [|cbn in Hf; lia]. exists true, b, h. split; [reflexivity|]. auto using same_map_refl, loaded_nil. }
  destruct src as [|y src]; [|set (s := y :: src) in *].
  { exists true, b, h. split; [reflexivity|]. auto using same_map_refl, loaded_nil. }
  assert (Hs : 0 < Z.of_nat (length s)) by (unfold s; cbn [length]; lia).
  destruct (bulk_chunk_spec b a (Z.of_nat (length s)) Hw Hu Hs Hl) as (b1 & Hs1 & Hc).
  assert (Estep : load_loop (S fuel) b h a s =
    (let '(c, b') := bulk_chunk b a (Z.of_nat (length s)) in
     match c with None => Some (false, b', h) | Some (r, off, n) =>
       load_loop fuel b' (upd h (host r) (copy_in (h (host r)) off (take (Z.to_nat n) s))) (a +! n) (drop (Z.to_nat n) s) end))
    by reflexivity. rewrite Estep. clear Estep.
  destruct (guest_byte (regions b) (fun _ _ => 0) a) eqn:Eg.
  - destruct Hc as (i & r & n & Hi & Hm & -> & Hn & Hb1 & Hb2).
    assert (Et : Z.of_nat (length (take (Z.to_nat n) s)) = n) by (rewrite length_take; lia).
    assert (Ed : Z.of_nat (length (drop (Z.to_nat n) s)) = Z.of_nat (length s) - n) by (rewrite length_drop; lia).
    pose proof (guest_byte_copied b h i r a (take (Z.to_nat n) s)) as Hcp.
    assert (Hcp' : forall x, is_u32 x -> guest_byte (regions b) (upd h (host r) (copy_in (h (host r)) (a - base r) (take (Z.to_nat n) s))) x =
      if (a <=? x) && (x <? a + n) then Some (default 0 (s !! Z.to_nat (x - a))) else guest_byte (regions b) h x).
    { intros x Hx. rewrite Hcp by (auto; lia). rewrite Et.
      destruct (Z.leb_spec a x), (Z.ltb_spec x (a + n)); cbn [andb]; auto.
      rewrite lookup_take_lt by lia. reflexivity. }
    clear Hcp. set (h1 := upd h (host r) _) in *.
    destruct (Z.eq_dec n (Z.of_nat (length s))) as [En|Hne].
    + rewrite drop_ge by lia. exists true, b1, h1.
      split; [destruct fuel; reflexivity|]. split; [assumption|]. intros x Hx. rewrite Hcp', En by assumption. reflexivity.
    + destruct (next_addr a n (Z.of_nat (length s)) Hu ltac:(lia) Hl) as [-> Hu'].
      pose proof (same_map_wf _ _ Hs1 Hw) as Hw1. assert (Er : regions b1 = regions b) by apply Hs1.
      destruct (IH b1 h1 (a + n) (drop (Z.to_nat n) s)) as (ok & b2 & h2 & E2 & Hs2 & Hld);
        [assumption|rewrite Er; assumption|assumption|lia|rewrite length_drop; unfold s in *; cbn [length] in *; lia|].
      exists ok, b2, h2. split; [assumption|]. split; [eapply same_map_trans; eauto|].
      rewrite Er in Hld. destruct ok; unfold loaded in *; rewrite Ed in Hld.
      * intros x Hx. rewrite Hld, Hcp' by assumption.
        destruct (Z.leb_spec (a + n) x), (Z.leb_spec a x), (Z.ltb_spec x (a + n + (Z.of_nat (length s) - n))),
          (Z.ltb_spec x (a + Z.of_nat (length s))), (Z.ltb_spec x (a + n)); cbn [andb]; try lia; auto.
        rewrite lookup_drop. do 3 f_equal. lia.
      * intros Hmap. apply Hld. intros x Hx. apply Hmap. lia.
  - rewrite Hc. exists false, b1, h. split; [reflexivity|]. split; [assumption|].
    intros Hmap. apply (Hmap a); [lia|assumption].
Qed.

Definition dumped (rs : list region_t) (h : heap) (a len : Z) (acc : list Z) (r : option (list Z)) : Prop :=
  match r with
  | Some out => exists bs, out = acc ++ bs /\ Z.of_nat (length bs) = len /\
      forall k, 0 <= k < len -> guest_byte rs h (a + k) = bs !! Z.to_nat k
  | None => ~ mapped rs a len
  end.

(** One chunk copied out. *)
Lemma copied_out (b : bus_t) h i r a n k :
  bus_wf b -> regions b !! i = Some r -> is_memory r = true -> base r <= a -> a + n <= base r + size r ->
  0 <= k < n ->
  guest_byte (regions b) h (a + k) = copy_out (h (host r)) (a - base r) (Z.to_nat n) !! Z.to_nat k.
Proof.
  intros Hw Hi Hm Hb Hn Hk. unfold guest_byte. rewrite (chunk_lookup b i r (a + k) Hw Hi) by lia. rewrite Hm.
  rewrite copy_out_lookup by lia. do 2 f_equal. lia.
Qed.

Lemma dump_loop_spec : forall fuel (b : bus_t) h a len acc,
  bus_wf b -> is_u32 a -> 0 <= len -> a + len <= 2 ^ 32 -> len <= Z.of_nat fuel ->
  exists r b', dump_loop fuel b h a len acc = Some (r, b') /\ same_map b b' /\
    dumped (regions b) h a len acc r.
Proof.
  assert (Hnil : forall (b : bus_t) h a acc, dumped (regions b) h a 0 acc (Some acc)).
  { intros b h a acc. exists []. rewrite app_nil_r. split; [reflexivity|]. split; [reflexivity|]. intros k Hk. lia. }
  induction fuel as [|fuel IH]; intros b h a len acc Hw Hu H0 Hl Hf; cbn [dump_loop];
    (destruct (Z.eqb_spec len 0) as [->|Hne];
     [exists (Some acc), b; split; [reflexivity|split; [apply same_map_refl|apply Hnil]]|]); [lia|].
  destruct (bulk_chunk_spec b a len Hw Hu ltac:(lia) Hl) as (b1 & Hs1 & Hc).
  destruct (guest_byte (regions b) (fun _ _ => 0) a) eqn:Eg.
  - destruct Hc as (i & r & n & Hi & Hm & -> & Hn & Hb1 & Hb2).
    pose proof (same_map_wf _ _ Hs1 Hw) as Hw1. assert (Er : regions b1 = regions b) by apply Hs1.
    assert (Hco : forall k, 0 <= k < n -> guest_byte (regions b) h (a + k) = copy_out (h (host r)) (a - base r) (Z.to_nat n) !! Z.to_nat k)
      by (intros k Hk; eapply copied_out; eauto).
    set (cs := copy_out (h (host r)) (a - base r) (Z.to_nat n)) in *.
    assert (Hcs : Z.of_nat (length cs) = n) by (unfold cs; rewrite copy_out_length; lia).
    destruct (Z.eq_dec n len) as [->|Hnl].
    + rewrite Z.sub_diag. exists (Some (acc ++ cs)), b1. split; [destruct fuel; reflexivity|]. split; [assumption|].
      exists cs. auto.
    + destruct (next_addr a n len Hu ltac:(lia) Hl) as [-> Hu'].
      destruct (IH b1 h (a + n) (len - n) (acc ++ cs) Hw1 Hu') as (res & b2 & E2 & Hs2 & Hd); try lia.
      exists res, b2. split; [assumption|]. split; [eapply same_map_trans; eauto|]. rewrite Er in Hd.
      destruct res as [out|]; unfold dumped in *.
      * destruct Hd as (bs & -> & Hbs & Hk). exists (cs ++ bs). rewrite app_assoc. split; [reflexivity|].
        rewrite length_app. split; [lia|]. intros k Hkr. destruct (Z.lt_ge_cases k n).
        -- rewrite lookup_app_l by lia. apply Hco. lia.
        -- rewrite lookup_app_r by lia. replace (Z.to_nat k - length cs)%nat with (Z.to_nat (k - n)) by lia.
           rewrite <- Hk by lia. f_equal. lia.
      * intros Hmap. apply Hd. intros x Hx. apply Hmap. lia.
  - rewrite Hc. exists None, b1. split; [reflexivity|]. split; [assumption|].
    intros Hmap. apply (Hmap a); [lia|assumption].
Qed.

(** Loading and dumping an image: as many rounds as there are bytes are
    enough for both loops; the load succeeds exactly when every address of
    the range is RAM or ROM; and then dumping the range returns the bytes
    loaded, across region boundaries, up to the top of the address space. *)
Theorem load_dump_roundtrip (b : bus_t) h a src fuel :
  bus_wf b -> hosts_apart (regions b) -> is_u32 a -> a + Z.of_nat (length src) <= 2 ^ 32 ->
  (length src <= fuel)%nat ->
  exists ok b' h', emu_bus_load fuel b h a src = Some (ok, b', h') /\ bus_wf b' /\
    (ok = true <-> mapped (regions b) a (Z.of_nat (length src))) /\
    (ok = true -> exists b'', emu_bus_dump fuel b' h' a (Z.of_nat (length src)) = Some (Some src, b'')).
Proof.
  intros Hw Ha Hu Hl Hf. unfold emu_bus_load, emu_bus_dump. rewrite (proj2 (Z.ltb_ge _ _)) by lia.
  assert (Hwf : bus_wf (emu_bus_flush b)) by (apply flush_wf; apply Hw).
  destruct (load_loop_spec fuel (emu_bus_flush b) h a src Hwf Ha Hu Hl Hf) as (ok & b' & h' & E & Hs & Hld).
  assert (Er : regions b' = regions b) by apply Hs. pose proof (same_map_wf _ _ Hs Hwf) as Hw'.
  change (regions (emu_bus_flush b)) with (regions b) in Hld.
  exists ok, b', h'. split; [assumption|]. split; [assumption|]. split.
  - destruct ok; [|split; [discriminate|intros Hm; contradiction]]. split; [|reflexivity]. intros _ x Hx Hn.
    apply (guest_byte_mapped _ _ h') in Hn. rewrite Hld in Hn by (unfold is_u32 in *; lia).
    rewrite (proj2 (Z.leb_le _ _)), (proj2 (Z.ltb_lt _ _)) in Hn by lia. discriminate.
  - intros ->. destruct (dump_loop_spec fuel b' h' a (Z.of_nat (length src)) [] Hw' Hu) as (r & b'' & E2 & _ & Hd); try lia.
    exists b''. rewrite E2, Er in *. unfold loaded in Hld. destruct r as [out|]; cbn in Hd.
    + destruct Hd as (bs & -> & Hlen & Hk). do 3 f_equal. apply list_eq. intros k.
      destruct (decide (k < length src)%nat) as [Hlt|Hge].
      * specialize (Hk (Z.of_nat k) ltac:(lia)). rewrite Nat2Z.id in Hk. rewrite <- Hk.
        rewrite Hld by (unfold is_u32 in *; lia).
        rewrite (proj2 (Z.leb_le _ _)), (proj2 (Z.ltb_lt _ _)) by lia. cbn [andb].
        replace (Z.to_nat (a + Z.of_nat k - a)) with k by lia.
        destruct (lookup_lt_is_Some_2 src k Hlt) as [y ->]. reflexivity.
      * rewrite !lookup_ge_None_2 by lia. reflexivity.
    + exfalso. apply Hd. intros x Hx Hn. apply (guest_byte_mapped _ _ h') in Hn.
      rewrite Hld in Hn by (unfold is_u32 in *; lia).
      rewrite (proj2 (Z.leb_le _ _)), (proj2 (Z.ltb_lt _ _)) in Hn by lia. discriminate.
Qed.

End BusMem.
