(* ===== verification/Elf.v ===== *)
(** * The ELF loader

    [src/emu/emu_elf.c], [include/emu/emu_elf.h].  The image is a map from
    offsets to bytes with its length; what lies past the end is there to be
    read by mistake, so that reading it would show.  An image that is mapped
    rather than copied becomes a host buffer of its own at each offset
    ([part]). *)

From stdpp Require Import base list gmap.
From Stdlib Require Import ZArith Lia.
From S2P Require Import Prelude Bus BusProps BusMem.

Open Scope Z_scope.
Open Scope u32_scope.

(** ** The file *)

Definition ET_EXEC : Z := 2.
Definition PT_LOAD : Z := 1.
Definition ELFDATA2LSB : Z := 1.
Definition ELFDATA2MSB : Z := 2.
Definition EMU_ELF_ANY_MACHINE : Z := 0.

Definition rd16 (img : Z -> Z) (p : Z) (be : bool) : Z :=
  if be then (img p <<! 8) |! img (p + 1) else img p |! (img (p + 1) <<! 8).

Definition rd32 (img : Z -> Z) (p : Z) (be : bool) : Z :=
  if be then (img p <<! 24) |! (img (p + 1) <<! 16) |! (img (p + 2) <<! 8) |! img (p + 3)
  else img p |! (img (p + 1) <<! 8) |! (img (p + 2) <<! 16) |! (img (p + 3) <<! 24).

Definition elf_magic (img : Z -> Z) : bool := (img 0 =? 127) && (img 1 =? 69) && (img 2 =? 76) && (img 3 =? 70).
Definition emu_elf_is_elf (img : Z -> Z) (len : Z) : bool := (4 <=? len) && elf_magic img.
Definition emu_elf_machine (img : Z -> Z) (len : Z) : Z := if 20 <=? len then rd16 img 18 (img 5 =? ELFDATA2MSB) else 0.

(** The members of [elf32_phdr_t] the loader reads. *)
Record elf_phdr := Phdr { p_type : Z; p_offset : Z; p_vaddr : Z; p_paddr : Z; p_filesz : Z; p_memsz : Z }.

Definition phdr_at (img : Z -> Z) (be : bool) (p : Z) : elf_phdr :=
  Phdr (rd32 img p be) (rd32 img (p + 4) be) (rd32 img (p + 8) be) (rd32 img (p + 12) be) (rd32 img (p + 16) be) (rd32 img (p + 20) be).

(** The messages, in the order of the checks. *)
Inductive elf_error :=
| Elf_short | Elf_magic | Elf_class | Elf_data | Elf_type | Elf_arch | Elf_phentsize | Elf_no_headers | Elf_table
| Elf_filesz | Elf_past_end | Elf_wraps | Elf_no_room | Elf_bss_outside | Elf_bss_fit | Elf_segment_fit | Elf_no_load | Elf_no_window.

Section Elf.
Context {Ext : Type}.
#[local] Abbreviation bus_t := (emu_bus Ext).

(** The epoch counter, the bus and the host's memory. *)
#[local] Abbreviation st := (Z * bus_t * heap)%type.

Definition elf_load_bytes (s : st) (a : Z) (src : list Z) : option (bool * st) :=
  let '(g, b, h) := s in
  match emu_bus_load (length src) b h a src with Some (ok, b, h) => Some (ok, (g, b, h)) | None => None end.

(** Zeros, 256 at a time. *)
Fixpoint zero_tail (fuel : nat) (s : st) (addr rem : Z) : option (bool * st) :=
  if rem =? 0 then Some (true, s)
  else
    match fuel with
    | O => None
    | S fuel =>
        let n := if 256 <? rem then 256 else rem in
        match elf_load_bytes s addr (replicate (Z.to_nat n) 0) with
        | Some (true, s) => zero_tail fuel s (addr +! n) (rem - n)
        | r => r
        end
    end.

Section Image.
Variable img : Z -> Z.
Variable len : Z.
Variable part : Z -> Z.
Variables ram_base ram_size : Z.

Definition file_bytes (ph : elf_phdr) : list Z := copy_out img (p_offset ph) (Z.to_nat (p_filesz ph)).

Definition elf_zero (s : st) (addr rem : Z) : option (option elf_error * st) :=
  match zero_tail (Z.to_nat rem) s addr rem with
  | Some (true, s) => Some (None, s)
  | Some (false, s) => Some (Some Elf_bss_fit, s)
  | None => None
  end.

Definition copy_segment (ph : elf_phdr) (s : st) : option (option elf_error * st) :=
  match (if negb (p_filesz ph =? 0) then elf_load_bytes s (p_paddr ph) (file_bytes ph) else Some (true, s)) with
  | Some (true, s) => if p_filesz ph <? p_memsz ph then elf_zero s (p_paddr ph +! p_filesz ph) (p_memsz ph - p_filesz ph) else Some (None, s)
  | Some (false, s) => Some (Some Elf_segment_fit, s)
  | None => None
  end.

Definition map_segment (ph : elf_phdr) (s : st) : option (option elf_error * st) :=
  let '(g, b, h) := s in
  let '(ok, b, g) := if negb (p_filesz ph =? 0) then emu_bus_add_rom g b (p_paddr ph) (part (p_offset ph)) (p_filesz ph) else (true, b, g) in
  if negb ok then Some (Some Elf_no_room, (g, b, h))
  else if p_filesz ph <? p_memsz ph then
    let bss := p_vaddr ph +! p_filesz ph in
    let rem := p_memsz ph - p_filesz ph in
    if (bss <? ram_base) || (ram_base + ram_size <? bss + rem) then Some (Some Elf_bss_outside, (g, b, h))
    else elf_zero (g, b, h) bss rem
  else Some (None, (g, b, h)).

Definition in_ram (ph : elf_phdr) : bool :=
  negb (ram_size =? 0) && (ram_base <=? p_paddr ph) && (p_paddr ph + p_memsz ph <=? ram_base + ram_size).

Definition load_segment (ph : elf_phdr) (s : st) : option (option elf_error * st) :=
  let maps := negb (ram_size =? 0) && negb (in_ram ph) in
  if p_memsz ph <? p_filesz ph then Some (Some Elf_filesz, s)
  else if len <? p_offset ph + p_filesz ph then Some (Some Elf_past_end, s)
  else if 2 ^ 32 <? p_paddr ph + (if maps then p_filesz ph else p_memsz ph) then Some (Some Elf_wraps, s)
  else if maps then map_segment ph s
  else copy_segment ph s.

(** Entries [i], [i + 1], ... of the table. *)
Fixpoint segment_loop (n : nat) (be : bool) (phoff phentsz i loaded : Z) (s : st) : option (option elf_error * Z * st) :=
  match n with
  | O => Some (None, loaded, s)
  | S n =>
      let ph := phdr_at img be (phoff + i * phentsz) in
      if negb (p_type ph =? PT_LOAD) then segment_loop n be phoff phentsz (i + 1) loaded s
      else
        match load_segment ph s with
        | Some (None, s) => segment_loop n be phoff phentsz (i + 1) (loaded + 1) s
        | Some (Some e, s) => Some (Some e, loaded, s)
        | None => None
        end
  end.

(** The error, if any, what is stored through [entry] and [out_machine], and
    the state. *)
Definition elf_walk (machine alt_machine : Z) (s : st) : option (option elf_error * option Z * option Z * st) :=
  let be := img 5 =? ELFDATA2MSB in
  let e_machine := rd16 img 18 be in
  let e_phoff := rd32 img 28 be in
  let e_phentsz := rd16 img 42 be in
  let e_phnum := rd16 img 44 be in
  let fail e m := Some (Some e, None, m, s) in
  if len <? 52 then fail Elf_short None
  else if negb (elf_magic img) then fail Elf_magic None
  else if negb (img 4 =? 1) then fail Elf_class None
  else if negb (img 5 =? ELFDATA2LSB) && negb (img 5 =? ELFDATA2MSB) then fail Elf_data None
  else if negb (rd16 img 16 be =? ET_EXEC) then fail Elf_type None
  else if negb (machine =? EMU_ELF_ANY_MACHINE) && negb (e_machine =? machine) && negb (negb (alt_machine =? 0) && (e_machine =? alt_machine)) then fail Elf_arch None
  else if e_phentsz <? 32 then fail Elf_phentsize (Some e_machine)
  else if e_phnum =? 0 then fail Elf_no_headers (Some e_machine)
  else if len <? e_phoff + e_phentsz * e_phnum then fail Elf_table (Some e_machine)
  else
    match segment_loop (Z.to_nat e_phnum) be e_phoff e_phentsz 0 0 s with
    | Some (Some e, _, s) => Some (Some e, None, Some e_machine, s)
    | Some (None, loaded, s) =>
        if loaded =? 0 then Some (Some Elf_no_load, None, Some e_machine, s)
        else Some (None, Some (rd32 img 24 be), Some e_machine, s)
    | None => None
    end.
End Image.

Definition emu_elf_load (img : Z -> Z) (len machine alt_machine : Z) (s : st) :=
  elf_walk img len (fun _ => 0) 0 0 machine alt_machine s.

Definition emu_elf_map (img : Z -> Z) (len : Z) (part : Z -> Z) (machine alt_machine ram_base ram_size : Z) (s : st) :=
  if ram_size =? 0 then Some (Some Elf_no_window, None, None, s) else elf_walk img len part ram_base ram_size machine alt_machine s.

(** ** Copying an image in *)

(** The bytes of a file. *)
Definition bytes_ok (img : Z -> Z) : Prop := forall o, 0 <= img o < 256.

Lemma shl_u32 x k : is_u32 (x <<! k).
Proof. apply u32_range. Qed.

Lemma byte_u32 img o : bytes_ok img -> is_u32 (img o).
Proof. intros B. specialize (B o). unfold is_u32. lia. Qed.

Lemma rd32_u32 img p be : bytes_ok img -> is_u32 (rd32 img p be).
Proof. intros B. unfold rd32. destruct be; repeat apply is_u32_lor; auto using shl_u32, byte_u32. Qed.

Lemma rd16_u32 img p be : bytes_ok img -> is_u32 (rd16 img p be).
Proof. intros B. unfold rd16. destruct be; repeat apply is_u32_lor; auto using shl_u32, byte_u32. Qed.

(** The table [rs] is the bus's, and the bus is well formed. *)
Definition on_table (rs : list (emu_region Ext)) (s : st) : Prop := bus_wf (snd (fst s)) /\ regions (snd (fst s)) = rs.

Lemma load_bytes_ok rs s a src : on_table rs s -> hosts_apart rs -> is_u32 a -> a + Z.of_nat (length src) <= 2 ^ 32 ->
  exists ok s', elf_load_bytes s a src = Some (ok, s') /\ on_table rs s' /\ fst (fst s') = fst (fst s) /\ loaded rs (snd s) (snd s') a src ok.
Proof.
  destruct s as [[g b] h]. intros [Hw Hr] Ha Hu Hl. cbn in Hw, Hr. unfold elf_load_bytes, emu_bus_load. rewrite (proj2 (Z.ltb_ge _ _)) by lia.
  assert (Hwf : bus_wf (emu_bus_flush b)) by (apply flush_wf; apply Hw).
  destruct (load_loop_spec (length src) (emu_bus_flush b) h a src Hwf) as (ok & b' & h' & -> & Hs & Hld); [cbn; rewrite Hr; exact Ha|exact Hu|exact Hl|lia|].
  exists ok, (g, b', h'). split; [reflexivity|]. pose proof (same_map_wf _ _ Hs Hwf) as Hw'. assert (Er : regions b' = rs) by (rewrite (proj1 Hs); exact Hr).
  split; [split; [exact Hw'|exact Er]|]. split; [reflexivity|]. rewrite <- Hr. exact Hld.
Qed.

Lemma nth_lookup_zeros n k : (k < n)%nat -> default 0 (replicate n 0 !! k) = 0.
Proof. intros H. rewrite lookup_replicate_2 by exact H. reflexivity. Qed.

Lemma mapped_sub (rs : list (emu_region Ext)) a n b m : a <= b -> b + m <= a + n -> mapped rs a n -> mapped rs b m.
Proof. intros H1 H2 M x Hx. apply M. lia. Qed.

Lemma zero_tail_ok rs : hosts_apart rs -> forall fuel s a rem, on_table rs s -> is_u32 a \/ rem = 0 -> 0 <= rem <= Z.of_nat fuel -> a + rem <= 2 ^ 32 ->
  exists ok s', zero_tail fuel s a rem = Some (ok, s') /\ on_table rs s' /\ fst (fst s') = fst (fst s) /\
    (if ok then forall x, is_u32 x -> guest_byte rs (snd s') x = if (a <=? x) && (x <? a + rem) then Some 0 else guest_byte rs (snd s) x else ~ mapped rs a rem).
Proof.
  intros Ha. induction fuel as [|fuel IH]; intros s a rem On Hu Hr Hl; cbn [zero_tail];
    (destruct (Z.eqb_spec rem 0) as [->|Nz]; [exists true, s; split; [reflexivity|]; split; [exact On|]; split; [reflexivity|]; intros x Hx;
       destruct (Z.leb_spec a x), (Z.ltb_spec x (a + 0)); cbn [andb]; try reflexivity; lia|]); [lia|].
  destruct Hu as [Hu|]; [|contradiction]. set (n := if 256 <? rem then 256 else rem). assert (Hn : 1 <= n <= rem) by (unfold n; destruct (Z.ltb_spec 256 rem); lia).
  destruct (load_bytes_ok rs s a (replicate (Z.to_nat n) 0) On Ha Hu) as (ok & s1 & -> & On1 & G1 & L1); [rewrite length_replicate; lia|].
  assert (El : Z.of_nat (length (replicate (Z.to_nat n) 0)) = n) by (rewrite length_replicate; lia). destruct ok; unfold loaded in L1; rewrite El in L1.
  - assert (Hu1 : is_u32 (a +! n) \/ rem - n = 0) by (left; apply u32_range).
    assert (Ea : rem - n = 0 \/ a +! n = a + n). { destruct (Z.eq_dec (rem - n) 0); [left; assumption|right; apply u32_id; unfold is_u32 in *; lia]. }
    destruct (IH s1 (a +! n) (rem - n) On1 Hu1 ltac:(lia)) as (ok2 & s2 & E2 & On2 & G2 & L2); [destruct Ea as [->| ->]; [pose proof (u32_range (a + n)) as R; unfold is_u32 in R; lia|lia]|].
    exists ok2, s2. split; [exact E2|]. split; [exact On2|]. split; [congruence|]. destruct ok2.
    + intros x Hx. rewrite L2, L1 by exact Hx. destruct Ea as [E0|Ea].
      * rewrite E0, Z.add_0_r. replace (a + rem) with (a + n) by lia. destruct (Z.leb_spec (a +! n) x), (Z.ltb_spec x (a +! n)); cbn [andb]; try lia;
          (destruct ((a <=? x) && (x <? a + n)) eqn:Ein; [|reflexivity]); bool_hyps; rewrite nth_lookup_zeros; try reflexivity; lia.
      * rewrite Ea. destruct (Z.leb_spec (a + n) x), (Z.ltb_spec x (a + n + (rem - n))), (Z.leb_spec a x), (Z.ltb_spec x (a + rem)), (Z.ltb_spec x (a + n)); cbn [andb]; try lia; try reflexivity.
        rewrite nth_lookup_zeros; [reflexivity|lia].
    + intros M. apply L2. destruct Ea as [E0|Ea]; [intros x Hx; lia|]. rewrite Ea. apply (mapped_sub rs a rem); [lia|lia|exact M].
  - exists false, s1. split; [reflexivity|]. split; [exact On1|]. split; [exact G1|]. intros M. apply L1, (mapped_sub rs a rem); [lia|lia|exact M].
Qed.

(** What a segment makes of the guest's memory. *)
Definition placed (img : Z -> Z) (m : Z -> option Z) (ph : elf_phdr) (x : Z) : option Z :=
  if (p_paddr ph <=? x) && (x <? p_paddr ph + p_memsz ph)
  then Some (if x - p_paddr ph <? p_filesz ph then img (p_offset ph + (x - p_paddr ph)) else 0)
  else m x.

(** The segments of a file: its [PT_LOAD] entries. *)
Definition loads (img : Z -> Z) (be : bool) (phoff phentsz : Z) (i : Z) (n : nat) : list elf_phdr :=
  List.filter (fun ph => p_type ph =? PT_LOAD) (map (fun k => phdr_at img be (phoff + (i + Z.of_nat k) * phentsz)) (seq 0 n)).

(** A segment that can be copied. *)
Definition seg_good (rs : list (emu_region Ext)) (len : Z) (ph : elf_phdr) : Prop :=
  p_filesz ph <= p_memsz ph /\ p_offset ph + p_filesz ph <= len /\ p_paddr ph + p_memsz ph <= 2 ^ 32 /\ mapped rs (p_paddr ph) (p_memsz ph).

Definition phdr_u32 (ph : elf_phdr) : Prop :=
  is_u32 (p_offset ph) /\ is_u32 (p_vaddr ph) /\ is_u32 (p_paddr ph) /\ is_u32 (p_filesz ph) /\ is_u32 (p_memsz ph).

Lemma phdr_at_u32 img be p : bytes_ok img -> phdr_u32 (phdr_at img be p).
Proof. intros B. repeat split; apply rd32_u32, B. Qed.

Lemma fold_placed_ext img l : forall m m', (forall x, is_u32 x -> m x = m' x) -> forall x, is_u32 x -> fold_left (placed img) l m x = fold_left (placed img) l m' x.
Proof.
  induction l as [|ph l IH]; intros m m' E x Hx; [apply E, Hx|]. cbn [fold_left]. apply IH; [|exact Hx]. intros y Hy. unfold placed. destruct (_ && _); [reflexivity|apply E, Hy].
Qed.

Section Copy.
Variable img : Z -> Z.
Variable len : Z.
Variable rs : list (emu_region Ext).
Hypothesis Ha : hosts_apart rs.

(** Memory and table after one segment or several, or why not. *)
Definition copied (good : Prop) (m : (Z -> option Z) -> Z -> option Z) (s : st) (e : option elf_error) (s' : st) : Prop :=
  on_table rs s' /\ fst (fst s') = fst (fst s) /\
  match e with
  | None => good /\ forall x, is_u32 x -> guest_byte rs (snd s') x = m (guest_byte rs (snd s)) x
  | Some _ => ~ good
  end.

Lemma copy_segment_ok ph s : on_table rs s -> phdr_u32 ph -> p_filesz ph <= p_memsz ph -> p_paddr ph + p_memsz ph <= 2 ^ 32 ->
  exists e s', copy_segment img ph s = Some (e, s') /\ copied (mapped rs (p_paddr ph) (p_memsz ph)) (fun m => placed img m ph) s e s'.
Proof.
  intros On (U1 & U2 & U3 & U4 & U5) H1 H2. unfold copy_segment. set (a := p_paddr ph) in *. set (n := p_filesz ph) in *. set (w := p_memsz ph) in *.
  assert (Step : exists ok s1, (if negb (n =? 0) then elf_load_bytes s a (file_bytes img ph) else Some (true, s)) = Some (ok, s1) /\ on_table rs s1 /\ fst (fst s1) = fst (fst s) /\
    (if ok then mapped rs a n /\ forall x, is_u32 x -> guest_byte rs (snd s1) x = if (a <=? x) && (x <? a + n) then Some (img (p_offset ph + (x - a))) else guest_byte rs (snd s) x else ~ mapped rs a n)).
  { assert (El : Z.of_nat (length (file_bytes img ph)) = n) by (unfold file_bytes; rewrite copy_out_length; fold n; unfold is_u32 in U4; lia).
    destruct (Z.eqb_spec n 0) as [E0|Nz]; cbn [negb].
    - exists true, s. split; [reflexivity|]. split; [exact On|]. split; [reflexivity|]. rewrite E0. split; [intros x Hx; lia|]. intros x Hx. destruct (Z.leb_spec a x), (Z.ltb_spec x (a + 0)); cbn [andb]; try reflexivity; lia.
    - destruct (load_bytes_ok rs s a (file_bytes img ph) On Ha U3) as (ok & s1 & -> & On1 & G1 & L1); [lia|]. exists ok, s1. split; [reflexivity|]. split; [exact On1|]. split; [exact G1|].
      unfold loaded in L1. rewrite El in L1. destruct ok; [|exact L1]. assert (L : forall x, is_u32 x -> guest_byte rs (snd s1) x = if (a <=? x) && (x <? a + n) then Some (img (p_offset ph + (x - a))) else guest_byte rs (snd s) x).
      { intros x Hx. rewrite L1 by exact Hx. destruct ((a <=? x) && (x <? a + n)) eqn:Ein; [|reflexivity]. bool_hyps. unfold file_bytes. rewrite copy_out_lookup by (fold n; lia). cbn. f_equal. f_equal. lia. }
      split; [|exact L]. intros x Hx Hn. apply (guest_byte_mapped _ _ (snd s1)) in Hn. rewrite L, (proj2 (Z.leb_le _ _)), (proj2 (Z.ltb_lt _ _)) in Hn by (unfold is_u32 in *; lia). discriminate. }
  destruct Step as (ok & s1 & -> & On1 & G1 & L1). destruct ok.
  - destruct L1 as [M1 L1]. destruct (Z.ltb_spec n w) as [Hlt|Hge].
    + assert (Ea : a +! n = a + n) by (apply u32_id; unfold is_u32 in *; lia). rewrite Ea. unfold elf_zero.
      destruct (zero_tail_ok rs Ha (Z.to_nat (w - n)) s1 (a + n) (w - n) On1) as (ok2 & s2 & -> & On2 & G2 & L2); [left; unfold is_u32 in *; lia|lia|lia|]. destruct ok2.
      * exists None, s2. split; [reflexivity|]. split; [exact On2|]. split; [congruence|].
        assert (P : forall x, is_u32 x -> guest_byte rs (snd s2) x = placed img (guest_byte rs (snd s)) ph x).
        { intros x Hx. rewrite L2, L1 by exact Hx. unfold placed. fold a n w.
          destruct (Z.leb_spec (a + n) x), (Z.ltb_spec x (a + n + (w - n))), (Z.leb_spec a x), (Z.ltb_spec x (a + n)), (Z.ltb_spec x (a + w)), (Z.ltb_spec (x - a) n); cbn [andb]; try reflexivity; unfold is_u32 in *; lia. }
        split; [|exact P]. intros x Hx Hn. apply (guest_byte_mapped _ _ (snd s2)) in Hn. rewrite P in Hn by (unfold is_u32 in *; lia). unfold placed in Hn. fold a w in Hn. rewrite (proj2 (Z.leb_le _ _)), (proj2 (Z.ltb_lt _ _)) in Hn by lia. discriminate.
      * exists (Some Elf_bss_fit), s2. split; [reflexivity|]. split; [exact On2|]. split; [congruence|]. intros M. apply L2, (mapped_sub rs a w); [unfold is_u32 in *; lia|lia|exact M].
    + exists None, s1. split; [reflexivity|]. split; [exact On1|]. split; [exact G1|]. assert (E : w = n) by lia. rewrite E. split; [exact M1|]. intros x Hx. rewrite L1 by exact Hx. unfold placed. fold a n w. rewrite E.
      destruct (Z.leb_spec a x), (Z.ltb_spec x (a + n)), (Z.ltb_spec (x - a) n); cbn [andb]; try reflexivity; lia.
  - exists (Some Elf_segment_fit), s1. split; [reflexivity|]. split; [exact On1|]. split; [exact G1|]. intros M. apply L1, (mapped_sub rs a w); [lia|lia|exact M].
Qed.

Lemma load_segment_ok part ph s : on_table rs s -> phdr_u32 ph ->
  exists e s', load_segment img len part 0 0 ph s = Some (e, s') /\ copied (seg_good rs len ph) (fun m => placed img m ph) s e s'.
Proof.
  intros On U. unfold load_segment. cbn [Z.eqb negb andb]. unfold seg_good.
  assert (F : forall e (good : Prop), ~ good -> exists e' s', Some (Some e, s) = Some (e', s') /\ copied good (fun m => placed img m ph) s e' s').
  { intros e good N. exists (Some e), s. split; [reflexivity|]. split; [exact On|]. split; [reflexivity|exact N]. }
  destruct (Z.ltb_spec (p_memsz ph) (p_filesz ph)); [apply F; lia|]. destruct (Z.ltb_spec len (p_offset ph + p_filesz ph)); [apply F; lia|].
  destruct (Z.ltb_spec (2 ^ 32) (p_paddr ph + p_memsz ph)); [apply F; lia|].
  destruct (copy_segment_ok ph s On U ltac:(lia) ltac:(lia)) as (e & s' & E & C1 & C2 & C3). exists e, s'. split; [exact E|]. split; [exact C1|]. split; [exact C2|].
  destruct e; [intros (_ & _ & _ & M); apply C3, M|]. destruct C3 as [M P]. split; [|exact P]. repeat split; try lia. exact M.
Qed.

Lemma loads_cons be phoff phentsz i n : loads img be phoff phentsz i (S n) =
  (if p_type (phdr_at img be (phoff + i * phentsz)) =? PT_LOAD then [phdr_at img be (phoff + i * phentsz)] else []) ++ loads img be phoff phentsz (i + 1) n.
Proof.
  unfold loads. cbn [seq map List.filter]. rewrite Z.add_0_r. rewrite <- seq_shift, map_map.
  assert (E : map (fun k => phdr_at img be (phoff + (i + Z.of_nat (S k)) * phentsz)) (seq 0 n) = map (fun k => phdr_at img be (phoff + (i + 1 + Z.of_nat k) * phentsz)) (seq 0 n)).
  { apply map_ext. intros k. do 2 f_equal. lia. }
  rewrite E. destruct (_ =? PT_LOAD); reflexivity.
Qed.

Lemma segment_loop_ok part be phoff phentsz : bytes_ok img -> forall n i k s, on_table rs s ->
  exists e c s', segment_loop img len part 0 0 n be phoff phentsz i k s = Some (e, c, s') /\
    copied (List.Forall (seg_good rs len) (loads img be phoff phentsz i n)) (fun m => fold_left (placed img) (loads img be phoff phentsz i n) m) s e s' /\
    (e = None -> c = k + Z.of_nat (length (loads img be phoff phentsz i n))).
Proof.
  intros B. induction n as [|n IH]; intros i k s On.
  { exists None, k, s. split; [reflexivity|]. split; [|intros _; cbn; lia]. split; [exact On|]. split; [reflexivity|]. split; [constructor|reflexivity]. }
  cbn [segment_loop]. rewrite loads_cons. set (ph := phdr_at img be (phoff + i * phentsz)). destruct (p_type ph =? PT_LOAD); cbn [negb app]; [|apply IH, On].
  destruct (load_segment_ok part ph s On (phdr_at_u32 img be _ B)) as (e & s1 & -> & C1 & C2 & C3). destruct e as [e|].
  { exists (Some e), k, s1. split; [reflexivity|]. split; [|discriminate]. split; [exact C1|]. split; [exact C2|]. intros F. inversion F. contradiction. }
  destruct C3 as [G P]. destruct (IH (i + 1) (k + 1) s1 C1) as (e2 & c & s2 & E2 & (D1 & D2 & D3) & Hc). exists e2, c, s2. split; [exact E2|]. split; [|intros E; rewrite (Hc E); cbn [length]; lia].
  split; [exact D1|]. split; [congruence|]. destruct e2 as [e2|]; [intros F; inversion F; contradiction|]. destruct D3 as [F Q]. split; [constructor; assumption|]. intros x Hx. rewrite Q by exact Hx. cbn [fold_left].
  apply fold_placed_ext; [exact P|exact Hx].
Qed.
End Copy.

(** ** [emu_elf_load] *)

(** The checks of the file's header. *)
Definition header_ok (img : Z -> Z) (len machine alt_machine : Z) : bool :=
  let be := img 5 =? ELFDATA2MSB in
  let m := rd16 img 18 be in
  (52 <=? len) && elf_magic img && (img 4 =? 1) && ((img 5 =? ELFDATA2LSB) || (img 5 =? ELFDATA2MSB)) && (rd16 img 16 be =? ET_EXEC) &&
  ((machine =? EMU_ELF_ANY_MACHINE) || (m =? machine) || (negb (alt_machine =? 0) && (m =? alt_machine))) &&
  (32 <=? rd16 img 42 be) && negb (rd16 img 44 be =? 0) && (rd32 img 28 be + rd16 img 42 be * rd16 img 44 be <=? len).

Definition elf_segments (img : Z -> Z) : list elf_phdr :=
  let be := img 5 =? ELFDATA2MSB in loads img be (rd32 img 28 be) (rd16 img 42 be) 0 (Z.to_nat (rd16 img 44 be)).

(** The checks, then the segments. *)
Lemma walk_cases img len part ram_base ram_size machine alt s :
  let be := img 5 =? ELFDATA2MSB in
  if header_ok img len machine alt then
    elf_walk img len part ram_base ram_size machine alt s =
    match segment_loop img len part ram_base ram_size (Z.to_nat (rd16 img 44 be)) be (rd32 img 28 be) (rd16 img 42 be) 0 0 s with
    | Some (Some e, _, s) => Some (Some e, None, Some (rd16 img 18 be), s)
    | Some (None, loaded, s) =>
        if loaded =? 0 then Some (Some Elf_no_load, None, Some (rd16 img 18 be), s)
        else Some (None, Some (rd32 img 24 be), Some (rd16 img 18 be), s)
    | None => None
    end
  else exists e m, elf_walk img len part ram_base ram_size machine alt s = Some (Some e, None, m, s).
Proof.
  cbv zeta. unfold elf_walk, header_ok. cbv zeta. set (be := img 5 =? ELFDATA2MSB). rewrite !(Z.leb_antisym). 
  destruct (len <? 52); cbn [negb andb]; [repeat eexists|]. destruct (elf_magic img); cbn [negb andb]; [|repeat eexists]. destruct (img 4 =? 1); cbn [negb andb]; [|repeat eexists].
  fold be. destruct (img 5 =? ELFDATA2LSB), be; cbn [negb andb orb]; try (repeat eexists; fail);
  (destruct (rd16 img 16 _ =? ET_EXEC); cbn [negb andb]; [|repeat eexists]);
  (destruct (machine =? EMU_ELF_ANY_MACHINE), (rd16 img 18 _ =? machine), (negb (alt =? 0) && (rd16 img 18 _ =? alt)); cbn [negb andb orb]; try (repeat eexists; fail));
  (destruct (rd16 img 42 _ <? 32); cbn [negb andb]; [repeat eexists|]); (destruct (rd16 img 44 _ =? 0); cbn [negb andb]; [repeat eexists|]);
  (destruct (len <? _); cbn [negb]; [repeat eexists|reflexivity]).
Qed.

(** [C14] The loader does what the file says.  On a bus whose memories do not
    share host buffers [emu_elf_load] always answers; it succeeds exactly when
    the header is that of a static ELF32 executable the frontend accepts, with
    its table inside the file, at least one segment, and every segment inside
    the file, inside the address space and on RAM or ROM.  Then the entry is
    the file's and the guest's memory is what it was with the segments laid
    over it in order, file bytes first and zeros after; the table of regions
    is never changed. *)
Theorem elf_load_exact img len machine alt g b h : bytes_ok img -> bus_wf b -> hosts_apart (regions b) ->
  exists e entry m b' h', emu_elf_load img len machine alt (g, b, h) = Some (e, entry, m, (g, b', h')) /\ bus_wf b' /\ regions b' = regions b /\
    (e = None <-> header_ok img len machine alt = true /\ elf_segments img <> [] /\ List.Forall (seg_good (regions b) len) (elf_segments img)) /\
    (e = None -> entry = Some (rd32 img 24 (img 5 =? ELFDATA2MSB)) /\
       forall x, is_u32 x -> guest_byte (regions b) h' x = fold_left (placed img) (elf_segments img) (guest_byte (regions b) h) x).
Proof.
  intros B Hw Ha. unfold emu_elf_load. pose proof (walk_cases img len (fun _ => 0) 0 0 machine alt (g, b, h)) as C. cbv zeta in C.
  destruct (header_ok img len machine alt) eqn:Hh.
  2: { destruct C as (e & m & ->). exists (Some e), None, m, b, h. split; [reflexivity|]. split; [exact Hw|]. split; [reflexivity|]. split; [|discriminate]. split; [discriminate|intros [F _]; discriminate]. }
  rewrite C. clear C. set (be := img 5 =? ELFDATA2MSB).
  destruct (segment_loop_ok img len (regions b) Ha (fun _ => 0) be (rd32 img 28 be) (rd16 img 42 be) B (Z.to_nat (rd16 img 44 be)) 0 0 (g, b, h)) as (e & c & [[g' b'] h'] & -> & (C1 & C2 & C3) & Hc); [split; [exact Hw|reflexivity]|].
  cbn in C2. subst g'. destruct C1 as [Hw' Hr']. cbn in Hw', Hr'. fold be in C3, Hc. change (loads img be _ _ 0 _) with (elf_segments img) in C3, Hc. destruct e as [e|].
  { exists (Some e), None, (Some (rd16 img 18 be)), b', h'. split; [reflexivity|]. split; [exact Hw'|]. split; [exact Hr'|]. split; [|discriminate]. split; [discriminate|intros (_ & _ & F); contradiction]. }
  specialize (Hc eq_refl). destruct C3 as [G P]. destruct (Z.eqb_spec c 0) as [E0|N0].
  - exists (Some Elf_no_load), None, (Some (rd16 img 18 be)), b', h'. split; [reflexivity|]. split; [exact Hw'|]. split; [exact Hr'|]. split; [|discriminate]. split; [discriminate|]. intros (_ & F & _).
    destruct (elf_segments img); [contradiction|cbn in Hc; lia].
  - exists None, (Some (rd32 img 24 be)), (Some (rd16 img 18 be)), b', h'. split; [reflexivity|]. split; [exact Hw'|]. split; [exact Hr'|]. split; [|intros _; split; [reflexivity|exact P]].
    split; [|reflexivity]. intros _. split; [reflexivity|]. split; [|exact G]. intros F. rewrite F in Hc. cbn in Hc. lia.
Qed.

(** ** What the loader reads *)

Section Reads.
Variables img img' : Z -> Z.
Variable len : Z.
Hypothesis agree : forall o, 0 <= o < len -> img' o = img o.
Hypothesis B : bytes_ok img.

Lemma rd16_ext p be : 0 <= p -> p + 2 <= len -> rd16 img' p be = rd16 img p be.
Proof. intros H1 H2. unfold rd16. rewrite !agree by lia. reflexivity. Qed.

Lemma rd32_ext p be : 0 <= p -> p + 4 <= len -> rd32 img' p be = rd32 img p be.
Proof. intros H1 H2. unfold rd32. rewrite !agree by lia. reflexivity. Qed.

Lemma phdr_at_ext be p : 0 <= p -> p + 32 <= len -> phdr_at img' be p = phdr_at img be p.
Proof. intros H1 H2. unfold phdr_at. rewrite !rd32_ext by lia. reflexivity. Qed.

Lemma copy_out_ext n : forall o, 0 <= o -> o + Z.of_nat n <= len -> copy_out img' o n = copy_out img o n.
Proof. induction n as [|n IH]; intros o H1 H2; cbn [copy_out]; [reflexivity|]. rewrite agree, IH by lia. reflexivity. Qed.

Variable part : Z -> Z.
Variables ram_base ram_size : Z.

Lemma load_segment_ext ph (s : st) : phdr_u32 ph -> load_segment img' len part ram_base ram_size ph s = load_segment img len part ram_base ram_size ph s.
Proof.
  intros (U1 & _ & _ & U4 & _). unfold load_segment. destruct (_ <? _); [reflexivity|]. destruct (Z.ltb_spec len (p_offset ph + p_filesz ph)); [reflexivity|]. destruct (_ <? _); [reflexivity|].
  destruct (_ && _); [reflexivity|]. unfold copy_segment, file_bytes. unfold is_u32 in *. rewrite copy_out_ext by lia. reflexivity.
Qed.

Lemma segment_loop_ext be phoff phentsz : 0 <= phoff -> 32 <= phentsz -> forall n i k (s : st), 0 <= i -> phoff + phentsz * (i + Z.of_nat n) <= len ->
  segment_loop img' len part ram_base ram_size n be phoff phentsz i k s = segment_loop img len part ram_base ram_size n be phoff phentsz i k s.
Proof.
  intros H0 H1. induction n as [|n IH]; intros i k s Hi Hl; cbn [segment_loop]; [reflexivity|]. rewrite phdr_at_ext by nia. destruct (negb _); [apply IH; lia|].
  rewrite load_segment_ext by (apply phdr_at_u32, B). destruct (load_segment _ _ _ _ _ _ _) as [[[e|] s']|]; [reflexivity|apply IH; lia|reflexivity].
Qed.

(** Nothing past the end of the file. *)
Lemma elf_walk_ext machine alt (s : st) : elf_walk img' len part ram_base ram_size machine alt s = elf_walk img len part ram_base ram_size machine alt s.
Proof.
  unfold elf_walk, elf_magic. cbv zeta. destruct (Z.ltb_spec len 52); [reflexivity|]. rewrite !agree by lia. set (be := img 5 =? ELFDATA2MSB). rewrite !rd16_ext, !rd32_ext by lia.
  destruct (negb (_ && _)); [reflexivity|]. destruct (negb (img 4 =? 1)); [reflexivity|]. destruct (negb _ && negb _); [reflexivity|]. destruct (negb (_ =? ET_EXEC)); [reflexivity|].
  destruct (negb _ && _ && _); [reflexivity|]. destruct (Z.ltb_spec (rd16 img 42 be) 32); [reflexivity|]. destruct (_ =? 0); [reflexivity|].
  destruct (Z.ltb_spec len (rd32 img 28 be + rd16 img 42 be * rd16 img 44 be)); [reflexivity|]. pose proof (rd32_u32 img 28 be B) as U1. pose proof (rd16_u32 img 44 be B) as U2. unfold is_u32 in *.
  rewrite segment_loop_ext; [reflexivity|lia|assumption|lia|]. rewrite Z2Nat.id by lia. lia.
Qed.
End Reads.

(** ** What the loader writes *)

(** A host byte differs only where it is a byte of memory in the range. *)
Definition wrote (rs : list (emu_region Ext)) (lo hi : Z) (h h' : heap) : Prop :=
  forall k o, h' k o <> h k o -> exists x r, lo <= x < hi /\ lookup_region rs x = Some r /\ is_memory r = true /\ host r = k /\ o = x - base r.

Lemma wrote_refl rs lo hi h : wrote rs lo hi h h.
Proof. intros k o N. contradiction. Qed.

Lemma wrote_trans rs lo hi h1 h2 h3 : wrote rs lo hi h1 h2 -> wrote rs lo hi h2 h3 -> wrote rs lo hi h1 h3.
Proof. intros W1 W2 k o N. destruct (Z.eq_dec (h3 k o) (h2 k o)) as [E|N2]; [apply W1; congruence|apply W2, N2]. Qed.

Lemma wrote_sub rs lo hi lo' hi' h h' : lo' <= lo -> hi <= hi' -> wrote rs lo hi h h' -> wrote rs lo' hi' h h'.
Proof. intros H1 H2 W k o N. destruct (W k o N) as (x & r & Hx & Hr). exists x, r. split; [lia|exact Hr]. Qed.

Lemma load_loop_writes : forall fuel (b : bus_t) h a src, bus_wf b -> is_u32 a -> a + Z.of_nat (length src) <= 2 ^ 32 -> (length src <= fuel)%nat ->
  exists ok b' h', load_loop fuel b h a src = Some (ok, b', h') /\ same_map b b' /\ wrote (regions b) a (a + Z.of_nat (length src)) h h'.
Proof.
  induction fuel as [|fuel IH]; intros b h a src Hw Hu Hl Hf.
  { destruct src; [|cbn in Hf; lia]. exists true, b, h. split; [reflexivity|]. split; [apply same_map_refl|apply wrote_refl]. }
  destruct src as [|y src]; [|set (s := y :: src) in *].
  { exists true, b, h. split; [reflexivity|]. split; [apply same_map_refl|apply wrote_refl]. }
  assert (Hs : 0 < Z.of_nat (length s)) by (unfold s; cbn [length]; lia). destruct (bulk_chunk_spec b a (Z.of_nat (length s)) Hw Hu Hs Hl) as (b1 & Hs1 & Hc).
  assert (Estep : load_loop (S fuel) b h a s =
    (let '(c, b') := bulk_chunk b a (Z.of_nat (length s)) in
     match c with None => Some (false, b', h) | Some (r, off, n) =>
       load_loop fuel b' (upd h (host r) (copy_in (h (host r)) off (take (Z.to_nat n) s))) (a +! n) (drop (Z.to_nat n) s) end))
    by reflexivity. rewrite Estep. clear Estep. destruct (guest_byte (regions b) (fun _ _ => 0) a).
  2: { rewrite Hc. exists false, b1, h. split; [reflexivity|]. split; [exact Hs1|apply wrote_refl]. }
  destruct Hc as (i & r & n & Hi & Hm & -> & Hn & Hb1 & Hb2). assert (Et : Z.of_nat (length (take (Z.to_nat n) s)) = n) by (rewrite length_take; lia).
  set (h1 := upd h (host r) _). assert (W1 : wrote (regions b) a (a + Z.of_nat (length s)) h h1).
  { intros k o N. unfold h1, upd in N. destruct (Z.eqb_spec k (host r)) as [->|]; [|contradiction]. rewrite copy_in_spec, Et in N. destruct ((a - base r <=? o) && (o <? a - base r + n)) eqn:Eo; [|contradiction].
    bool_hyps. exists (base r + o), r. split; [lia|]. split; [apply (chunk_lookup b i r (base r + o) Hw Hi); lia|]. split; [exact Hm|]. split; [reflexivity|lia]. }
  destruct (Z.eq_dec n (Z.of_nat (length s))) as [En|Hne].
  { rewrite drop_ge by lia. exists true, b1, h1. split; [destruct fuel; reflexivity|]. split; assumption. }
  destruct (next_addr a n (Z.of_nat (length s)) Hu ltac:(lia) Hl) as [-> Hu']. pose proof (same_map_wf _ _ Hs1 Hw) as Hw1. assert (Er : regions b1 = regions b) by apply Hs1.
  assert (Ed : Z.of_nat (length (drop (Z.to_nat n) s)) = Z.of_nat (length s) - n) by (rewrite length_drop; lia).
  destruct (IH b1 h1 (a + n) (drop (Z.to_nat n) s) Hw1 Hu' ltac:(lia)) as (ok & b2 & h2 & E2 & Hs2 & W2); [rewrite length_drop; unfold s in *; cbn [length] in *; lia|].
  exists ok, b2, h2. split; [exact E2|]. split; [eapply same_map_trans; eassumption|]. eapply wrote_trans; [exact W1|]. rewrite Er in W2. eapply wrote_sub; [| |exact W2]; lia.
Qed.

(** ** [emu_elf_map] *)

Section Map.
Variable img : Z -> Z.
Variable len : Z.
Variable part : Z -> Z.
Variables ram_base ram_size : Z.
Variable rs : list (emu_region Ext).
Hypothesis B : bytes_ok img.
Hypothesis base_ok : 0 <= ram_base.
Hypothesis top_ok : ram_base + ram_size <= 2 ^ 32.
Hypothesis size_ok : 0 < ram_size.

Definition in_window (x : Z) : Prop := ram_base <= x < ram_base + ram_size.

(** The window is guest RAM. *)
Hypothesis window : forall x, in_window x -> exists r, lookup_region rs x = Some r /\ kind r = EMU_MEM_RAM.

(** A read-only region whose every byte is a byte of the file. *)
Definition piece (r : emu_region Ext) : Prop :=
  kind r = EMU_MEM_ROM /\ perm r = EMU_PERM_RX /\ exists off, host r = part off /\ 0 <= off /\ 0 < size r /\ off + size r <= len.
(** Pieces of the image were added to the table, and nothing else. *)
Definition grown (s : st) : Prop :=
  bus_wf (snd (fst s)) /\ exists l, regions (snd (fst s)) = rs ++ l /\ List.Forall piece l.

(** Only bytes of RAM in the window differ. *)
Definition only_ram (h h' : heap) : Prop :=
  forall k o, h' k o <> h k o -> exists x r, in_window x /\ lookup_region rs x = Some r /\ kind r = EMU_MEM_RAM /\ host r = k /\ o = x - base r.

Lemma only_ram_trans h1 h2 h3 : only_ram h1 h2 -> only_ram h2 h3 -> only_ram h1 h3.
Proof. intros W1 W2 k o N. destruct (Z.eq_dec (h3 k o) (h2 k o)) as [E|N2]; [apply W1; congruence|apply W2, N2]. Qed.

Lemma find_app_l {A} (p : A -> bool) l1 l2 x : List.find p l1 = Some x -> List.find p (l1 ++ l2) = Some x.
Proof. induction l1 as [|y l1 IH]; cbn; [discriminate|]. destruct (p y); auto. Qed.

Lemma wrote_only_ram l lo hi h h' : ram_base <= lo -> hi <= ram_base + ram_size -> wrote (rs ++ l) lo hi h h' -> only_ram h h'.
Proof.
  intros H1 H2 W k o N. destruct (W k o N) as (x & r & Hx & Hr & _ & Hk & Ho). assert (Wx : in_window x) by (unfold in_window; lia). destruct (window x Wx) as (r0 & L0 & K0).
  exists x, r. unfold lookup_region in *. rewrite (find_app_l _ rs l r0 L0) in Hr. injection Hr as <-. repeat split; try assumption; apply Wx.
Qed.

(** A step of the walk, whatever it answers. *)
Definition steps {A} (s : st) (r : option (A * st)) : Prop := exists a s', r = Some (a, s') /\ grown s' /\ only_ram (snd s) (snd s').

Lemma steps_here {A} (a : A) s : grown s -> steps s (Some (a, s)).
Proof. intros G. exists a, s. split; [reflexivity|]. split; [exact G|]. intros k o N. contradiction. Qed.

Lemma steps_then {A} s s1 (r : option (A * st)) : only_ram (snd s) (snd s1) -> steps s1 r -> steps s r.
Proof. intros O (a & s' & E & G & O'). exists a, s'. split; [exact E|]. split; [exact G|]. eapply only_ram_trans; eassumption. Qed.

Lemma load_bytes_steps s a src : grown s -> ram_base <= a -> a < 2 ^ 32 -> a + Z.of_nat (length src) <= ram_base + ram_size -> steps s (elf_load_bytes s a src).
Proof.
  destruct s as [[g b] h]. intros [Hw (l & Hr & Fl)] H1 H2 H3. cbn in Hw, Hr. unfold elf_load_bytes, emu_bus_load. rewrite (proj2 (Z.ltb_ge _ _)) by lia.
  assert (Hwf : bus_wf (emu_bus_flush b)) by (apply flush_wf; apply Hw).
  destruct (load_loop_writes (length src) (emu_bus_flush b) h a src Hwf ltac:(unfold is_u32; lia) ltac:(lia) ltac:(lia)) as (ok & b' & h' & -> & Hs & W).
  exists ok, (g, b', h'). split; [reflexivity|]. change (regions (emu_bus_flush b)) with (regions b) in W. rewrite Hr in W. split.
  - split; [apply (same_map_wf _ _ Hs Hwf)|]. exists l. split; [|exact Fl]. cbn. rewrite (proj1 Hs). exact Hr.
  - apply (wrote_only_ram l a (a + Z.of_nat (length src))); [exact H1|exact H3|exact W].
Qed.

Lemma zero_steps : forall fuel s a rem, grown s -> 0 <= rem <= Z.of_nat fuel -> rem = 0 \/ ram_base <= a /\ a < 2 ^ 32 /\ a + rem <= ram_base + ram_size -> steps s (zero_tail fuel s a rem).
Proof.
  induction fuel as [|fuel IH]; intros s a rem G Hr Hw; cbn [zero_tail]; (destruct (Z.eqb_spec rem 0) as [->|Nz]; [apply steps_here, G|]); [lia|]. destruct Hw as [|(W1 & W2 & W3)]; [contradiction|].
  set (n := if 256 <? rem then 256 else rem). assert (Hn : 1 <= n <= rem) by (unfold n; destruct (Z.ltb_spec 256 rem); lia).
  destruct (load_bytes_steps s a (replicate (Z.to_nat n) 0) G W1 W2) as (ok & s1 & -> & G1 & O1); [rewrite length_replicate; lia|]. destruct ok.
  - apply (steps_then s s1); [exact O1|]. apply IH; [exact G1|lia|]. destruct (Z.eq_dec rem n); [left; lia|right]. rewrite u32_id by (unfold is_u32; lia). lia.
  - exists false, s1. split; [reflexivity|]. split; assumption.
Qed.

Lemma elf_zero_steps s a rem : grown s -> 0 <= rem -> ram_base <= a -> a < 2 ^ 32 -> a + rem <= ram_base + ram_size -> steps s (elf_zero s a rem).
Proof.
  intros G H1 H2 H3 H4. unfold elf_zero. destruct (zero_steps (Z.to_nat rem) s a rem G ltac:(lia) ltac:(lia)) as (ok & s1 & -> & G1 & O1). destruct ok; eexists _, s1; (split; [reflexivity|]; split; assumption).
Qed.

Lemma map_segment_steps ph s : grown s -> phdr_u32 ph -> p_filesz ph <= p_memsz ph -> p_offset ph + p_filesz ph <= len -> steps s (map_segment part ram_base ram_size ph s).
Proof.
  destruct s as [[g b] h]. intros G (U1 & U2 & U3 & U4 & U5) Hsz Hend. unfold map_segment.
  assert (A : forall ok b1 g1, (if negb (p_filesz ph =? 0) then emu_bus_add_rom g b (p_paddr ph) (part (p_offset ph)) (p_filesz ph) else (true, b, g)) = (ok, b1, g1) -> grown (g1, b1, h)).
  { intros ok b1 g1 E. destruct (Z.eqb_spec (p_filesz ph) 0) as [|Nz]; cbn [negb] in E; [injection E as <- <- <-; exact G|]. destruct G as [Hw (l & Hr & Fl)]. cbn in Hw, Hr. unfold emu_bus_add_rom in E. unfold is_u32 in *.
    destruct (bus_add_ok g b (Region (p_paddr ph) (p_filesz ph) (part (p_offset ph)) 0 None EMU_MEM_ROM EMU_PERM_RX EMU_WANY) ok b1 g1 Hw ltac:(cbn; lia) ltac:(cbn; lia) ltac:(intros [K _]; discriminate K) E) as (Hw1 & Hr1 & _). split; [exact Hw1|]. cbn [fst snd]. rewrite Hr1. destruct ok; [|exists l; split; assumption].
    eexists. rewrite Hr, <- app_assoc. split; [reflexivity|]. apply List.Forall_app. split; [exact Fl|]. constructor; [|constructor]. split; [reflexivity|]. split; [reflexivity|]. exists (p_offset ph). cbn. repeat split; lia. }
  destruct (if negb (p_filesz ph =? 0) then _ else _) as [[ok b1] g1]. specialize (A ok b1 g1 eq_refl). apply (steps_then _ (g1, b1, h)); [intros k o N; contradiction|].
  destruct (negb ok); [apply steps_here, A|]. destruct (p_filesz ph <? p_memsz ph); [|apply steps_here, A]. cbv zeta. pose proof (u32_range (p_vaddr ph + p_filesz ph)) as Ub. unfold is_u32 in Ub.
  destruct ((_ <? ram_base) || (_ <? _)) eqn:Eo; [apply steps_here, A|]. bool_hyps. apply elf_zero_steps; [exact A|lia|lia|lia|lia].
Qed.

Lemma load_segment_steps ph s : grown s -> phdr_u32 ph -> steps s (load_segment img len part ram_base ram_size ph s).
Proof.
  intros G U. pose proof U as (U1 & U2 & U3 & U4 & U5). unfold load_segment. rewrite (proj2 (Z.eqb_neq ram_size 0)) by lia. cbn [negb andb].
  destruct (Z.ltb_spec (p_memsz ph) (p_filesz ph)); [apply steps_here, G|].
  destruct (Z.ltb_spec len (p_offset ph + p_filesz ph)); [apply steps_here, G|]. destruct (in_ram ram_base ram_size ph) eqn:Ei; cbn [negb].
  2: { destruct (_ <? _); [apply steps_here, G|]. apply map_segment_steps; [exact G|exact U|lia|lia]. }
  destruct (_ <? _); [apply steps_here, G|]. unfold in_ram in Ei. bool_hyps. unfold is_u32 in *. unfold copy_segment.
  assert (Step : steps s (if negb (p_filesz ph =? 0) then elf_load_bytes s (p_paddr ph) (file_bytes img ph) else Some (true, s))).
  { destruct (negb _); [|apply steps_here, G]. apply load_bytes_steps; [exact G|lia|lia|]. unfold file_bytes. rewrite copy_out_length. lia. }
  destruct Step as (ok & s1 & -> & G1 & O1). apply (steps_then s s1); [exact O1|]. destruct ok; [|apply steps_here, G1]. destruct (Z.ltb_spec (p_filesz ph) (p_memsz ph)); [|apply steps_here, G1].
  rewrite u32_id by (unfold is_u32; lia). apply elf_zero_steps; [exact G1|lia|lia|lia|lia].
Qed.

Lemma segment_loop_steps be phoff phentsz : forall n i k s, grown s -> steps s (segment_loop img len part ram_base ram_size n be phoff phentsz i k s).
Proof.
  induction n as [|n IH]; intros i k s G; cbn [segment_loop]; [apply (steps_here (None, k)), G|]. destruct (negb _); [apply IH, G|].
  destruct (load_segment_steps _ s G (phdr_at_u32 img be (phoff + i * phentsz) B)) as ([e|] & s1 & -> & G1 & O1); apply (steps_then s s1); try exact O1; [apply (steps_here (Some e, k)), G1|apply IH, G1].
Qed.
End Map.

(** [C27] Mapping an image is contained, whatever the file holds.  Where the
    window it is given is guest RAM, [emu_elf_map] always answers; it adds
    read-only regions, every byte of which is a byte of the file -- none
    reaches past its end -- and no others; no host byte
    changes but those of RAM in the window -- no segment, however placed or
    sized, wraps to another address; and no byte past the end of the file is
    looked at. *)
Theorem elf_map_contained img len part machine alt ram_base ram_size g b h : bytes_ok img -> bus_wf b ->
  0 <= ram_base -> 0 < ram_size -> ram_base + ram_size <= 2 ^ 32 ->
  (forall x, in_window ram_base ram_size x -> exists r, lookup_region (regions b) x = Some r /\ kind r = EMU_MEM_RAM) ->
  exists e entry m g' b' h', emu_elf_map img len part machine alt ram_base ram_size (g, b, h) = Some (e, entry, m, (g', b', h')) /\
    grown len part (regions b) (g', b', h') /\ only_ram ram_base ram_size (regions b) h h' /\
    (forall img', (forall o, 0 <= o < len -> img' o = img o) ->
       emu_elf_map img' len part machine alt ram_base ram_size (g, b, h) = emu_elf_map img len part machine alt ram_base ram_size (g, b, h)).
Proof.
  intros B Hw H0 H1 H2 Win. unfold emu_elf_map. rewrite (proj2 (Z.eqb_neq ram_size 0)) by lia.
  assert (G : grown len part (regions b) (g, b, h)) by (split; [exact Hw|exists []; rewrite app_nil_r; split; [reflexivity|constructor]]).
  assert (R : steps len part ram_base ram_size (regions b) (g, b, h) (elf_walk img len part ram_base ram_size machine alt (g, b, h))).
  { pose proof (walk_cases img len part ram_base ram_size machine alt (g, b, h)) as C. cbv zeta in C. destruct (header_ok img len machine alt); [|destruct C as (e & m & ->); apply (steps_here _ _ _ _ _ (Some e, None, m)), G].
    rewrite C. set (be := img 5 =? ELFDATA2MSB).
    destruct (segment_loop_steps img len part ram_base ram_size (regions b) B H0 H2 H1 Win be (rd32 img 28 be) (rd16 img 42 be) (Z.to_nat (rd16 img 44 be)) 0 0 (g, b, h) G) as ([[e|] c] & s1 & -> & G1 & O1);
      [|destruct (c =? 0)]; eexists (_, _, _), s1; (split; [reflexivity|]; split; assumption). }
  destruct R as ([[e entry] m] & [[g' b'] h'] & E & G' & O). exists e, entry, m, g', b', h'. split; [exact E|]. split; [exact G'|]. split; [exact O|]. intros img' A. apply elf_walk_ext; assumption.
Qed.
End Elf.
