(* ===== verification/IrTypes.v ===== *)
(** * The intermediate representation: data and builder

    [include/emu/emu_ir.h] (operations, instructions, blocks, the guest
    description) and the building half of [src/emu/emu_ir.c]. *)

From S2P Require Import Prelude.
From stdpp Require Import base list gmap.
From Stdlib Require Import ZArith Lia.

Open Scope Z_scope.
Open Scope u32_scope.

(** ** Sizes

    [EMU_IR_MAX_INSNS], [EMU_IR_MAX_TEMPS] and [EMU_JIT_LOOP_CAP] are build
    parameters: a microcontroller build uses smaller blocks than a host.  The
    development is proved for every choice that keeps a temp number below
    [EMU_IR_NO_TEMP] and a block position inside 16 bits. *)
Class IrConfig := {
  EMU_IR_MAX_INSNS : Z;
  EMU_IR_MAX_TEMPS : Z;
  EMU_JIT_LOOP_CAP : Z;
  max_insns_ok : 0 <= EMU_IR_MAX_INSNS < 65535;
  max_temps_ok : 0 <= EMU_IR_MAX_TEMPS < 65535;
  loop_cap_ok : 0 <= EMU_JIT_LOOP_CAP < 2 ^ 31
}.

#[export] Instance host_config : IrConfig :=
  {| EMU_IR_MAX_INSNS := 2048; EMU_IR_MAX_TEMPS := 1024; EMU_JIT_LOOP_CAP := 128;
     max_insns_ok := ltac:(lia); max_temps_ok := ltac:(lia); loop_cap_ok := ltac:(lia) |}.

Definition thumb2_config : IrConfig :=
  {| EMU_IR_MAX_INSNS := 512; EMU_IR_MAX_TEMPS := 256; EMU_JIT_LOOP_CAP := 128;
     max_insns_ok := ltac:(lia); max_temps_ok := ltac:(lia); loop_cap_ok := ltac:(lia) |}.

(** ** Guest condition flags *)

Definition EMU_IR_F_Z : Z := 1.
Definition EMU_IR_F_S : Z := 2.
Definition EMU_IR_F_V : Z := 4.
Definition EMU_IR_F_C : Z := 8.
Definition EMU_IR_F_ALL : Z := 15.

(** ** Operations *)

Inductive emu_ir_op :=
| EMU_IR_NOP
| EMU_IR_GET | EMU_IR_PUT | EMU_IR_CONST | EMU_IR_MOV
| EMU_IR_ADD | EMU_IR_SUB | EMU_IR_AND | EMU_IR_OR | EMU_IR_XOR
| EMU_IR_SHL | EMU_IR_SHR | EMU_IR_SAR | EMU_IR_ROTL
| EMU_IR_MUL | EMU_IR_MULHS | EMU_IR_MULHU
| EMU_IR_DIVS | EMU_IR_DIVU | EMU_IR_REMS | EMU_IR_REMU
| EMU_IR_MAC
| EMU_IR_ADDI | EMU_IR_ANDI | EMU_IR_ORI | EMU_IR_XORI
| EMU_IR_SHLI | EMU_IR_SHRI | EMU_IR_SARI | EMU_IR_ROTLI
| EMU_IR_NEG | EMU_IR_NOT
| EMU_IR_BSWAP32 | EMU_IR_BSWAP16 | EMU_IR_HSWAP
| EMU_IR_CLZ | EMU_IR_CTZ | EMU_IR_POPCNT
| EMU_IR_BEXT | EMU_IR_BSET | EMU_IR_BCLR | EMU_IR_BINV
| EMU_IR_BITOP_SET | EMU_IR_BITOP_CLR | EMU_IR_BITOP_INV | EMU_IR_BITOP_TST
| EMU_IR_SEXT8 | EMU_IR_SEXT16 | EMU_IR_ZEXT8 | EMU_IR_ZEXT16
| EMU_IR_LOAD | EMU_IR_STORE
| EMU_IR_SETF | EMU_IR_GETCOND | EMU_IR_SETCC | EMU_IR_SELECT
| EMU_IR_FGET | EMU_IR_FPUT
| EMU_IR_FADD | EMU_IR_FSUB | EMU_IR_FMUL | EMU_IR_FDIV | EMU_IR_FSQRT
| EMU_IR_FMA | EMU_IR_FMIN | EMU_IR_FMAX | EMU_IR_FSGNJ | EMU_IR_FCMP
| EMU_IR_FCVT_TO_I | EMU_IR_FCVT_FROM_I | EMU_IR_FCLASS
| EMU_IR_HELPER | EMU_IR_HELPER_TRAP
| EMU_IR_RETIRE | EMU_IR_SETPC | EMU_IR_EXIT | EMU_IR_EXIT_IF
| EMU_IR_OP_COUNT.

#[export] Instance emu_ir_op_eq_dec : EqDecision emu_ir_op.
Proof. solve_decision. Defined.

Definition op_eqb (x y : emu_ir_op) : bool := bool_decide (x = y).

Lemma op_eqb_spec x y : reflect (x = y) (op_eqb x y).
Proof. unfold op_eqb. destruct (bool_decide_reflect (x = y)); constructor; assumption. Qed.

(** The flag sources of [EMU_IR_SETF], by the value [aux] carries. *)
Inductive emu_ir_flagsrc :=
| EMU_IR_FS_LOGIC | EMU_IR_FS_ADD | EMU_IR_FS_SUB | EMU_IR_FS_ZS | EMU_IR_FS_SHIFT.

Definition flagsrc_of (aux : Z) : emu_ir_flagsrc :=
  match aux with
  | 1 => EMU_IR_FS_ADD
  | 2 => EMU_IR_FS_SUB
  | 3 => EMU_IR_FS_ZS
  | 4 => EMU_IR_FS_SHIFT
  | _ => EMU_IR_FS_LOGIC
  end.

(** Conditions, by the value [aux] carries; a value past the last one behaves
    as [EMU_IR_C_ALWAYS], the [default] of both evaluators. *)
Inductive emu_ir_cond :=
| EMU_IR_C_EQ | EMU_IR_C_NE | EMU_IR_C_LT | EMU_IR_C_GE | EMU_IR_C_LTU
| EMU_IR_C_GEU | EMU_IR_C_LE | EMU_IR_C_GT | EMU_IR_C_LEU | EMU_IR_C_GTU
| EMU_IR_C_ALWAYS | EMU_IR_C_MI | EMU_IR_C_PL | EMU_IR_C_VS | EMU_IR_C_VC.

Definition cond_of (aux : Z) : emu_ir_cond :=
  match aux with
  | 0 => EMU_IR_C_EQ | 1 => EMU_IR_C_NE | 2 => EMU_IR_C_LT | 3 => EMU_IR_C_GE
  | 4 => EMU_IR_C_LTU | 5 => EMU_IR_C_GEU | 6 => EMU_IR_C_LE | 7 => EMU_IR_C_GT
  | 8 => EMU_IR_C_LEU | 9 => EMU_IR_C_GTU | 11 => EMU_IR_C_MI | 12 => EMU_IR_C_PL
  | 13 => EMU_IR_C_VS | 14 => EMU_IR_C_VC
  | _ => EMU_IR_C_ALWAYS
  end.

(** [aux] encodings. *)
Definition EMU_IR_MAC_SUB : Z := 1.
Definition EMU_IR_F_UNSIGNED : Z := 8.
Definition EMU_IR_FP_BOX : Z := 16.
Definition EMU_IR_FRM (aux : Z) : Z := Z.land aux 7.
Definition EMU_IR_MEM_AUX (sz : Z) (sg : bool) : Z := u8 (Z.lor sz (if sg then 8 else 0)).
Definition EMU_IR_NO_TEMP : Z := 65535.

(** ** Instructions *)

Record emu_ir_insn := Insn {
  op : emu_ir_op;
  aux : Z;
  dst : Z;
  opa : Z;
  opb : Z;
  opc : Z;
  imm : Z;
  defs : Z;
  live : Z;
  uses : Z;
  dead : bool
}.

Definition set_op (i : emu_ir_insn) v := Insn v (aux i) (dst i) (opa i) (opb i) (opc i) (imm i) (defs i) (live i) (uses i) (dead i).
Definition set_aux (i : emu_ir_insn) v := Insn (op i) v (dst i) (opa i) (opb i) (opc i) (imm i) (defs i) (live i) (uses i) (dead i).
Definition set_opa (i : emu_ir_insn) v := Insn (op i) (aux i) (dst i) v (opb i) (opc i) (imm i) (defs i) (live i) (uses i) (dead i).
Definition set_opb (i : emu_ir_insn) v := Insn (op i) (aux i) (dst i) (opa i) v (opc i) (imm i) (defs i) (live i) (uses i) (dead i).
Definition set_opc (i : emu_ir_insn) v := Insn (op i) (aux i) (dst i) (opa i) (opb i) v (imm i) (defs i) (live i) (uses i) (dead i).
Definition set_imm (i : emu_ir_insn) v := Insn (op i) (aux i) (dst i) (opa i) (opb i) (opc i) v (defs i) (live i) (uses i) (dead i).
Definition set_live (i : emu_ir_insn) v := Insn (op i) (aux i) (dst i) (opa i) (opb i) (opc i) (imm i) (defs i) v (uses i) (dead i).
Definition set_uses (i : emu_ir_insn) v := Insn (op i) (aux i) (dst i) (opa i) (opb i) (opc i) (imm i) (defs i) (live i) v (dead i).
Definition set_dead (i : emu_ir_insn) v := Insn (op i) (aux i) (dst i) (opa i) (opb i) (opc i) (imm i) (defs i) (live i) (uses i) v.

Definition emu_ir_exit_is_const (i : emu_ir_insn) : bool :=
  match op i with
  | EMU_IR_EXIT_IF => true
  | EMU_IR_EXIT => opa i =? EMU_IR_NO_TEMP
  | _ => false
  end.

(** ** Blocks

    [insn] is the array's first [count] elements.  The windows a backend may
    access inline ([fast], [dtlb], [pt], [rom]) are not read by the passes nor
    by the reference interpreter; only their validity flags, which
    [emu_ir_reset] clears, are kept. *)
Record emu_ir_block := Block {
  insn : list emu_ir_insn;
  next_temp : Z;
  guest_insns : Z;
  start_pc : Z;
  has_fast : bool;
  has_dtlb : bool;
  has_pt : bool;
  has_rom : bool;
  overflow : bool
}.

Definition count (b : emu_ir_block) : Z := Z.of_nat (length (insn b)).

Definition set_insn (b : emu_ir_block) l :=
  Block l (next_temp b) (guest_insns b) (start_pc b) (has_fast b) (has_dtlb b) (has_pt b) (has_rom b) (overflow b).
Definition set_next_temp (b : emu_ir_block) n :=
  Block (insn b) n (guest_insns b) (start_pc b) (has_fast b) (has_dtlb b) (has_pt b) (has_rom b) (overflow b).
Definition set_overflow (b : emu_ir_block) o :=
  Block (insn b) (next_temp b) (guest_insns b) (start_pc b) (has_fast b) (has_dtlb b) (has_pt b) (has_rom b) o.

(** ** The guest description

    The struct the passes and the interpreter read.  [emu_cpu_t] is the
    frontend's own state, reached by byte offset: [cpu_word] is the 32-bit
    word at each offset, [cpu_ext] everything a load, a store or a helper may
    also change (guest memory, devices, trap state).  Function pointers that
    may be NULL are options; [helper_count] is the length of [helpers], and
    [fp_flags], which only a lowering calls, is left out. *)
Record emu_cpu (Ext : Type) := Cpu {
  cpu_word : Z -> Z;
  cpu_ext : Ext
}.
Arguments Cpu {Ext}.
Arguments cpu_word {Ext}.
Arguments cpu_ext {Ext}.

Record emu_ir_target (Ext : Type) := Target {
  t_reg_offset : option (Z -> Z);
  flags_offset : Z;
  flag_bit : Z -> Z;
  t_reg_is_zero : option (Z -> bool);
  pc_offset : Z;
  helpers : option (list (emu_cpu Ext -> Z -> Z -> Z * emu_cpu Ext));
  t_load : option (emu_cpu Ext -> Z -> Z -> Z * Z * emu_cpu Ext);
  t_store : option (emu_cpu Ext -> Z -> Z -> Z -> Z * emu_cpu Ext);
  freg_offset : option (Z -> Z)
}.
Arguments Target {Ext}.
Arguments t_reg_offset {Ext}.
Arguments flags_offset {Ext}.
Arguments flag_bit {Ext}.
Arguments t_reg_is_zero {Ext}.
Arguments pc_offset {Ext}.
Arguments helpers {Ext}.
Arguments t_load {Ext}.
Arguments t_store {Ext}.
Arguments freg_offset {Ext}.

(** Where guest register [n] lives.  A NULL [reg_offset] is only ever tested
    for by the passes; code that dereferences it has one. *)
Definition reg_offset {Ext} (t : emu_ir_target Ext) (n : Z) : Z :=
  match t_reg_offset t with Some f => f n | None => 0 end.

(** ** Building *)
Section Builder.
Context {Cfg : IrConfig}.

Definition emu_ir_reset (b : emu_ir_block) : emu_ir_block :=
  Block [] 0 0 (start_pc b) false false false false false.

Definition emu_ir_temp (b : emu_ir_block) : Z * emu_ir_block :=
  if EMU_IR_MAX_TEMPS <=? next_temp b
  then (EMU_IR_NO_TEMP, set_overflow b true)
  else (u16 (next_temp b), set_next_temp b (u32 (next_temp b + 1))).

(** Does this op produce a value? *)
Definition op_writes (o : emu_ir_op) : bool :=
  match o with
  | EMU_IR_PUT | EMU_IR_FPUT | EMU_IR_STORE | EMU_IR_SETF | EMU_IR_RETIRE
  | EMU_IR_SETPC | EMU_IR_EXIT | EMU_IR_EXIT_IF | EMU_IR_NOP
  | EMU_IR_BITOP_SET | EMU_IR_BITOP_CLR | EMU_IR_BITOP_INV | EMU_IR_BITOP_TST => false
  | _ => true
  end.

Definition emu_ir_emit (b : emu_ir_block) (o : emu_ir_op) (ax a bb im df : Z)
  : Z * emu_ir_block :=
  if EMU_IR_MAX_INSNS <=? count b
  then (EMU_IR_NO_TEMP, set_overflow b true)
  else
    let '(d, b') := if op_writes o then emu_ir_temp b else (EMU_IR_NO_TEMP, b) in
    (d, set_insn b' (insn b' ++ [Insn o ax d a bb EMU_IR_NO_TEMP im df df 0 false])).

(** Rewrite the [c] operand of the instruction emitted last. *)
Definition set_last_c (b : emu_ir_block) (c : Z) : emu_ir_block :=
  set_insn b (alter (fun i => set_opc i c) (length (insn b) - 1)%nat (insn b)).

Definition emu_ir_emit3 (b : emu_ir_block) (o : emu_ir_op) (ax a bb c : Z)
  : Z * emu_ir_block :=
  let '(d, b') := emu_ir_emit b o ax a bb 0 0 in
  if negb (d =? EMU_IR_NO_TEMP) && (0 <? count b')
  then (d, set_last_c b' c) else (d, b').

Definition emu_ir_mem_if (b : emu_ir_block) (o : emu_ir_op) (ax addr val disp pred : Z)
  : Z * emu_ir_block :=
  let before := count b in
  let '(d, b') := emu_ir_emit b o ax addr val disp 0 in
  if before <? count b' then (d, set_last_c b' pred) else (d, b').

Definition emu_ir_get (b : emu_ir_block) (guest_reg : Z) : Z * emu_ir_block :=
  emu_ir_emit b EMU_IR_GET 0 EMU_IR_NO_TEMP EMU_IR_NO_TEMP guest_reg 0.

Definition emu_ir_put (b : emu_ir_block) (guest_reg val : Z) : emu_ir_block :=
  snd (emu_ir_emit b EMU_IR_PUT 0 val EMU_IR_NO_TEMP guest_reg 0).

Definition emu_ir_const (b : emu_ir_block) (v : Z) : Z * emu_ir_block :=
  emu_ir_emit b EMU_IR_CONST 0 EMU_IR_NO_TEMP EMU_IR_NO_TEMP v 0.

Definition emu_ir_alu (b : emu_ir_block) (o : emu_ir_op) (a bb : Z) : Z * emu_ir_block :=
  emu_ir_emit b o 0 a bb 0 0.

Definition emu_ir_bitop (b : emu_ir_block) (o : emu_ir_op) (addr bit disp width : Z)
  : emu_ir_block :=
  snd (emu_ir_emit b o width addr bit disp EMU_IR_F_Z).

End Builder.
