(* ===== verification/IrFloat.v ===== *)
(** * Single-precision values of the reference interpreter

    The floating-point section of [src/backend/common/interp.c].  A float is
    its IEEE-754 bit pattern in an ordinary 32-bit value; [b2f] and [f2b] are
    the union casts, and C's [float] arithmetic (round to nearest, ties to
    even) is the Standard Library's executable binary floating point at
    precision 24 and maximal exponent 128. *)

From S2P Require Import Prelude IrTypes.
From Stdlib Require Import ZArith Lia Bool.
From Stdlib Require Import SpecFloat.

Open Scope Z_scope.

Definition b2f (v : Z) : spec_float :=
  let s := Z.testbit v 31 in
  let e := Z.land (Z.shiftr v 23) 255 in
  let f := Z.land v 8388607 in
  if e =? 255 then (if f =? 0 then S754_infinity s else S754_nan)
  else if e =? 0 then
    match f with Zpos p => S754_finite s p (-149) | _ => S754_zero s end
  else match f + 8388608 with Zpos p => S754_finite s p (e - 150) | _ => S754_nan end.

Definition sign_bit (s : bool) : Z := if s then 2147483648 else 0.

(** The bits of a float.  The bits of a NaN are not observable through this
    function: [canon] replaces them. *)
Definition f2b (x : spec_float) : Z :=
  match x with
  | S754_zero s => sign_bit s
  | S754_infinity s => sign_bit s + 2139095040
  | S754_nan => 2143289344
  | S754_finite s m e =>
      if Zpos m <? 8388608 then sign_bit s + Zpos m
      else sign_bit s + (e + 150) * 8388608 + (Zpos m - 8388608)
  end.

Definition fadd := SFadd 24 128.
Definition fsub := SFsub 24 128.
Definition fmul := SFmul 24 128.
Definition fdiv := SFdiv 24 128.

(** [(float)z] for an integer. *)
Definition float_of_Z (z : Z) : spec_float := binary_normalize 24 128 z 0 false.

(** [(int64_t)v]: truncation toward zero, for the finite values the callers
    pass. *)
Definition trunc_Z (x : spec_float) : Z :=
  match x with
  | S754_finite s m e =>
      let v := if 0 <=? e then Z.shiftl (Zpos m) e else Z.shiftr (Zpos m) (- e) in
      if s then - v else v
  | _ => 0
  end.

Definition ir_isnan (x : spec_float) : bool := negb (SFeqb x x).

Definition canon (x : spec_float) : Z := if ir_isnan x then 2143289344 else f2b x.

Definition f_one : spec_float := float_of_Z 1.
Definition f_half : spec_float := fdiv (float_of_Z 1) (float_of_Z 2).
Definition f_mhalf : spec_float := SFopp f_half.
Definition f_zero : spec_float := S754_zero false.

(** [v != t] *)
Definition fne (x y : spec_float) : bool := negb (SFeqb x y).

(** Round to an integral float under an [EMU_IR_FRM_*] mode. *)
Definition ir_round (v : spec_float) (ax : Z) : spec_float :=
  let t := float_of_Z (trunc_Z v) in
  match EMU_IR_FRM ax with
  | 1 => t
  | 2 => if SFltb v f_zero && fne t v then fsub t f_one else t
  | 3 => if SFltb f_zero v && fne t v then fadd t f_one else t
  | 4 =>
      let d := fsub v t in
      if SFleb f_half d then fadd t f_one
      else if SFleb d f_mhalf then fsub t f_one
      else t
  | _ =>
      let d := fsub v t in
      if SFltb f_half d then fadd t f_one
      else if SFltb d f_mhalf then fsub t f_one
      else if SFeqb d f_half || SFeqb d f_mhalf then
        let h := fmul t f_half in
        if fne h (float_of_Z (trunc_Z h)) then
          (if SFltb f_zero d then fadd t f_one else fsub t f_one)
        else t
      else t
  end.

(** The ten-bit classification. *)
Definition ir_fclass (bits : Z) : Z :=
  let exp := Z.land (Z.shiftr bits 23) 255 in
  let frac := Z.land bits 8388607 in
  let neg := negb (Z.land bits 2147483648 =? 0) in
  if exp =? 255 then
    if frac =? 0 then (if neg then 1 else 128)
    else if negb (Z.land frac 4194304 =? 0) then 512 else 256
  else if exp =? 0 then
    if frac =? 0 then (if neg then 8 else 16)
    else if neg then 4 else 32
  else if neg then 2 else 64.

(** The floating-point cases of the interpreter's switch that compute a value
    from two operands.  [None]: not one of them. *)
Definition eval_fp (o : emu_ir_op) (ax a bv : Z) : option Z :=
  match o with
  | EMU_IR_FADD => Some (canon (fadd (b2f a) (b2f bv)))
  | EMU_IR_FSUB => Some (canon (fsub (b2f a) (b2f bv)))
  | EMU_IR_FMUL => Some (canon (fmul (b2f a) (b2f bv)))
  | EMU_IR_FDIV => Some (canon (fdiv (b2f a) (b2f bv)))
  | EMU_IR_FMIN | EMU_IR_FMAX =>
      let x := b2f a in let y := b2f bv in
      let xn := ir_isnan x in let yn := ir_isnan y in
      let is_min := op_eqb o EMU_IR_FMIN in
      Some (if xn && yn then 2143289344
            else if xn then bv
            else if yn then a
            else if SFeqb x y then (if is_min then Z.lor a bv else Z.land a bv)
            else if is_min then (if SFltb x y then a else bv)
            else (if SFltb y x then a else bv))
  | EMU_IR_FSGNJ =>
      let sgn := if ax =? 1 then Z.land (not32 bv) 2147483648
                 else if ax =? 2 then Z.land (Z.lxor a bv) 2147483648
                 else Z.land bv 2147483648 in
      Some (Z.lor (Z.land a 2147483647) sgn)
  | EMU_IR_FCMP =>
      let x := b2f a in let y := b2f bv in
      Some (if ir_isnan x || ir_isnan y then 0
            else if (if ax =? 0 then SFeqb x y
                     else if ax =? 2 then SFltb x y
                     else SFleb x y) then 1 else 0)
  | EMU_IR_FCVT_TO_I =>
      let x := b2f a in
      let uns := negb (Z.land ax EMU_IR_F_UNSIGNED =? 0) in
      Some (if ir_isnan x then (if uns then 4294967295 else 2147483647)
            else if uns then
              (if SFleb x f_zero then 0
               else if SFleb (float_of_Z 4294967296) x then 4294967295
               else u32 (trunc_Z (ir_round x ax)))
            else
              (if SFleb x (float_of_Z (-2147483648)) then 2147483648
               else if SFleb (float_of_Z 2147483648) x then 2147483647
               else u32 (trunc_Z (ir_round x ax))))
  | EMU_IR_FCVT_FROM_I =>
      Some (if negb (Z.land ax EMU_IR_F_UNSIGNED =? 0) then f2b (float_of_Z a)
            else f2b (float_of_Z (s32 a)))
  | EMU_IR_FCLASS => Some (ir_fclass a)
  | _ => None
  end.

Example fadd_1_2 : eval_fp EMU_IR_FADD 0 1065353216 1073741824 = Some 1077936128.
Proof. vm_compute. reflexivity. Qed.

Example fdiv_0_0 : eval_fp EMU_IR_FDIV 0 0 0 = Some 2143289344.
Proof. vm_compute. reflexivity. Qed.

Example fcvt_rne_2_5 : eval_fp EMU_IR_FCVT_TO_I 0 1075838976 0 = Some 2.
Proof. vm_compute. reflexivity. Qed.

Example fcvt_rmm_2_5 : eval_fp EMU_IR_FCVT_TO_I 4 1075838976 0 = Some 3.
Proof. vm_compute. reflexivity. Qed.

(** ** The union casts are inverse on every value that is not a NaN *)

Lemma float_fields v :
  is_u32 v ->
  v = sign_bit (Z.testbit v 31) + Z.land (Z.shiftr v 23) 255 * 8388608 + Z.land v 8388607.
Proof.
  intros Hv. unfold is_u32 in Hv.
  change 255 with (Z.ones 8). change 8388607 with (Z.ones 23).
  rewrite !Z.land_ones, Z.shiftr_div_pow2 by lia.
  assert (Hs : sign_bit (Z.testbit v 31) = (v / 2 ^ 31) mod 2 * 2147483648).
  { rewrite <- Z.testbit_spec' by lia. destruct (Z.testbit v 31); reflexivity. }
  rewrite Hs. Z.div_mod_to_equations. lia.
Qed.

Lemma float_field_ranges v :
  0 <= Z.land (Z.shiftr v 23) 255 < 256 /\ 0 <= Z.land v 8388607 < 8388608.
Proof.
  change 255 with (Z.ones 8). change 8388607 with (Z.ones 23).
  rewrite !Z.land_ones by lia. split; apply Z.mod_pos_bound; lia.
Qed.

Lemma f2b_b2f v : is_u32 v -> b2f v <> S754_nan -> f2b (b2f v) = v.
Proof.
  intros Hv. pose proof (float_fields v Hv) as Hf. pose proof (float_field_ranges v) as [He Hm].
  unfold b2f. set (e := Z.land (Z.shiftr v 23) 255) in *. set (f := Z.land v 8388607) in *.
  destruct (Z.eqb_spec e 255) as [E255|].
  - destruct (Z.eqb_spec f 0); [|congruence]. intros _. cbn [f2b]. lia.
  - destruct (Z.eqb_spec e 0) as [E0|].
    + intros _. destruct f as [|p|p] eqn:Ef; cbn [f2b]; try lia.
      destruct (Z.ltb_spec (Zpos p) 8388608); lia.
    + destruct (f + 8388608) as [|p|p] eqn:Ef; try lia.
      intros _. cbn [f2b]. destruct (Z.ltb_spec (Zpos p) 8388608); lia.
Qed.
