(* ===== verification/IrWindows.v ===== *)
(** * The windows a backend may access inline

    The peripheral window and the image window of [src/emu/emu_ir.c]: which
    guest addresses translated code may touch without calling the bus.  Both
    are derived from the region table and cached against its epoch.  What
    makes them correct is that an inlined access does exactly what the bus
    would have done. *)

From stdpp Require Import base list gmap.
From Stdlib Require Import ZArith Lia.
From S2P Require Import Prelude Bus BusProps.

Open Scope Z_scope.
Open Scope u32_scope.

Definition EMU_IR_PT_HOLES : nat := 4.
Definition EMU_IR_NO_GUARD : Z := 4294967295.

(** The window, its holes as (offset, length), oldest first. *)
Record emu_ir_ptwin := PtWin { pt_base : Z; pt_size : Z; pt_holes : list (Z * Z) }.
Definition no_ptwin : emu_ir_ptwin := PtWin 0 0 [].

Record emu_ir_fastmem := FastMem { fm_base : Z; fm_size : Z; fm_host : Z; store_guard_offset : Z }.

Section Windows.
Context {Ext : Type}.
#[local] Abbreviation region_t := (emu_region Ext).
#[local] Abbreviation bus_t := (emu_bus Ext).

(** ** The peripheral window *)

Definition pt_member (r : region_t) : bool :=
  negb (size r =? 0) && bool_decide (kind r = EMU_MEM_PASSTHRU) && (host_base r =? base r)
  && negb (perm r &! EMU_PERM_R =? 0) && (widths r &! 7 =? 7)
  && (base r &! 3 =? 0) && (size r &! 3 =? 0).

Definition pt_next (rs : list region_t) (e : Z) : option region_t :=
  List.find (fun r => pt_member r && (base r =? e)) rs.

(** The inner [for (;;)]: the run so far and where it ends.  [fuel] bounds its
    rounds; [None] is "still running". *)
Fixpoint pt_grow (fuel : nat) (rs : list region_t) (run : emu_ir_ptwin) (e : Z) : option emu_ir_ptwin :=
  match fuel with
  | O => None
  | S fuel' =>
      match pt_next rs e with
      | None => Some run
      | Some r =>
          let ro := perm r &! EMU_PERM_W =? 0 in
          if ro && (EMU_IR_PT_HOLES <=? length (pt_holes run))%nat then Some run
          else
            let run1 := if ro then PtWin (pt_base run) (pt_size run)
                                         (pt_holes run ++ [(base r -! pt_base run, size r)])
                        else run in
            if base r +! size r <? base r then Some run1
            else
              let e' := base r +! size r in
              pt_grow fuel' rs (PtWin (pt_base run1) (e' -! pt_base run1) (pt_holes run1)) e'
      end
  end.

(** The outer loop: the longest run wins, the first of equals. *)
Fixpoint pt_scan (rs todo : list region_t) (out : emu_ir_ptwin) (found : bool) : option (bool * emu_ir_ptwin) :=
  match todo with
  | [] => Some (found, out)
  | r :: todo' =>
      if pt_member r then
        match pt_grow (S (length rs)) rs (PtWin (base r) 0 []) (base r) with
        | None => None
        | Some run => if pt_size out <? pt_size run then pt_scan rs todo' run true
                      else pt_scan rs todo' out found
        end
      else pt_scan rs todo' out found
  end.

Definition pt_build (rs : list region_t) : option (bool * emu_ir_ptwin) := pt_scan rs rs no_ptwin false.

(** The per-core cache of the answer; a bus is known by its address. *)
Record pt_cache := PtCache { g_pt_bus : option Z; g_pt_epoch : Z; g_pt_ok : bool; g_pt_win : emu_ir_ptwin }.

Definition emu_ir_pt_window (c : pt_cache) (id : Z) (b : bus_t) : option (option emu_ir_ptwin * pt_cache) :=
  let fresh := bool_decide (g_pt_bus c = Some id) && (g_pt_epoch c =? epoch b) in
  let c1 := if fresh then Some c
            else match pt_build (regions b) with
                 | Some (ok, w) => Some (PtCache (Some id) (epoch b) ok w)
                 | None => None
                 end in
  match c1 with
  | None => None
  | Some c1 => Some (if g_pt_ok c1 then Some (g_pt_win c1) else None, c1)
  end.

(** ** The image *)

Definition rom_build (rs : list region_t) (bs : Z) : option emu_ir_fastmem :=
  match List.find (fun r => bool_decide (kind r = EMU_MEM_ROM) && negb (host r =? 0)
                            && negb (size r =? 0) && (bs -! base r <? size r)) rs with
  | None => None
  | Some r => if (perm r &! EMU_PERM_R =? 0) || negb (widths r =? EMU_WANY) then None
              else Some (FastMem (base r) (size r) (host r) EMU_IR_NO_GUARD)
  end.

Record rom_cache := RomCache { g_rom_bus : option Z; g_rom_epoch : Z; g_rom_base : Z; g_rom_win : option emu_ir_fastmem }.

Definition emu_ir_rom_window (c : rom_cache) (id : Z) (b : bus_t) (bs : Z) : option emu_ir_fastmem * rom_cache :=
  let fresh := bool_decide (g_rom_bus c = Some id) && (g_rom_epoch c =? epoch b) && (g_rom_base c =? bs) in
  let c1 := if fresh then c else RomCache (Some id) (epoch b) bs (rom_build (regions b) bs) in
  (g_rom_win c1, c1).

(** ** Growing a run terminates

    Every round ends the run at a strictly higher address, at the start of a
    region the rounds before did not reach. *)

Lemma pt_next_spec rs e r :
  pt_next rs e = Some r -> In r rs /\ pt_member r = true /\ base r = e.
Proof. intros H. apply List.find_some in H as [Hin H]. bool_hyps. auto. Qed.

Definition above (rs : list region_t) (e : Z) : nat := length (List.filter (fun r => e <=? base r) rs).

Lemma above_lt (rs : list region_t) e e' r : In r rs -> base r = e -> e < e' -> (above rs e' < above rs e)%nat.
Proof.
  unfold above. induction rs as [|s rs IH]; intros Hin Hb Hlt; [contradiction|]. cbn [List.filter].
  assert (Hle : (length (List.filter (fun r => (e' <=? base r)%Z) rs) <= length (List.filter (fun r => (e <=? base r)%Z) rs))%nat).
  { clear -Hlt. induction rs as [|x rs IH]; cbn [List.filter]; [lia|].
    destruct (Z.leb_spec e' (base x)), (Z.leb_spec e (base x)); cbn [length]; lia. }
  destruct Hin as [->|Hin].
  - destruct (Z.leb_spec e' (base r)), (Z.leb_spec e (base r)); cbn [length]; lia.
  - specialize (IH Hin Hb Hlt). destruct (Z.leb_spec e' (base s)), (Z.leb_spec e (base s)); cbn [length]; lia.
Qed.

Lemma pt_grow_returns (rs : list region_t) : Forall region_ok rs -> forall fuel run e,
  (above rs e < fuel)%nat -> exists w, pt_grow fuel rs run e = Some w.
Proof.
  intros Hok. induction fuel as [|fuel IH]; intros run e Hf; [lia|]. cbn [pt_grow].
  destruct (pt_next rs e) as [r|] eqn:En; [|eauto].
  destruct (pt_next_spec _ _ _ En) as (Hin & _ & Hb).
  destruct (_ && _); [eauto|]. destruct (Z.ltb_spec (base r +! size r) (base r)) as [|Hnw]; [eauto|].
  apply IH. pose proof (above_lt rs e (base r +! size r) r Hin Hb) as Hlt.
  assert (Hr : region_ok r) by (rewrite Forall_forall in Hok; apply Hok, list_elem_of_In; assumption).
  destruct Hr as (? & ? & ?). assert (base r <> base r +! size r).
  { intros E. unfold u32 in E. destruct (Z.eq_dec (base r + size r) (2 ^ 32)) as [E2|].
    - rewrite E2, Z.mod_same in E by lia. lia.
    - rewrite Z.mod_small in E by lia. lia. }
  lia.
Qed.

Lemma above_le (rs : list region_t) e : (above rs e <= length rs)%nat.
Proof. unfold above. induction rs as [|s rs IH]; cbn; [lia|]. destruct (_ <=? _); cbn; lia. Qed.

Lemma pt_scan_returns (rs : list region_t) : Forall region_ok rs -> forall todo out found,
  exists ok w, pt_scan rs todo out found = Some (ok, w).
Proof.
  intros Hok. induction todo as [|r todo IH]; intros out found; cbn [pt_scan]; [eauto|].
  destruct (pt_member r); [|apply IH].
  pose proof (above_le rs (base r)).
  destruct (pt_grow_returns rs Hok (S (length rs)) (PtWin (base r) 0 []) (base r)) as [w ->]; [lia|].
  destruct (_ <? _); apply IH.
Qed.

(** ** What a run covers *)

Definition in_hole (w : emu_ir_ptwin) (a : Z) : bool :=
  existsb (fun h => (fst h <=? a - pt_base w) && (a - pt_base w <? fst h + snd h)) (pt_holes w).

Definition holds (r : region_t) (a : Z) : Prop := base r <= a < base r + size r.

Record run_ok (rs : list region_t) (w : emu_ir_ptwin) (e : Z) : Prop := {
  run_base : 0 <= pt_base w <= e;
  run_end : e < 2 ^ 32;
  run_size : pt_size w = e - pt_base w;
  run_cover : forall a, pt_base w <= a < e -> exists r, In r rs /\ pt_member r = true /\ holds r a /\
                ((perm r &! EMU_PERM_W =? 0) = true -> in_hole w a = true);
  run_holes : forall off len, In (off, len) (pt_holes w) -> exists r, In r rs /\ pt_member r = true /\
                (perm r &! EMU_PERM_W =? 0) = true /\ base r = pt_base w + off /\ size r = len
}.

Lemma in_hole_app w h a :
  in_hole (PtWin (pt_base w) (pt_size w) (pt_holes w ++ [h])) a
  = in_hole w a || ((fst h <=? a - pt_base w) && (a - pt_base w <? fst h + snd h)).
Proof. unfold in_hole. cbn. rewrite existsb_app. cbn. rewrite orb_false_r. reflexivity. Qed.

(** Recording a read-only region that starts where the run ends. *)
Lemma run_hole rs w e r :
  run_ok rs w e -> In r rs -> pt_member r = true -> base r = e -> region_ok r ->
  (perm r &! EMU_PERM_W =? 0) = true ->
  run_ok rs (PtWin (pt_base w) (pt_size w) (pt_holes w ++ [(base r -! pt_base w, size r)])) e.
Proof.
  intros [R1 R2 R3 R4 R5] Hin Hm Hb Hr Hro.
  assert (Eo : base r -! pt_base w = base r - pt_base w) by (apply u32_id; unfold is_u32; lia).
  split; cbn [pt_base pt_size pt_holes]; auto.
  - intros a Ha. destruct (R4 a Ha) as (s & H1 & H2 & H3 & H4). exists s. repeat split; auto; try apply H3.
    intros Hs. rewrite in_hole_app, (H4 Hs). reflexivity.
  - intros off len Ho. apply in_app_or in Ho as [Ho|[[= <- <-]|[]]]; [auto|].
    exists r. rewrite Eo. repeat split; auto. lia.
Qed.

(** Appending that region. *)
Lemma run_append rs w e r :
  run_ok rs w e -> In r rs -> pt_member r = true -> base r = e -> region_ok r ->
  ((perm r &! EMU_PERM_W =? 0) = true -> In (base r - pt_base w, size r) (pt_holes w)) ->
  base r + size r < 2 ^ 32 ->
  run_ok rs (PtWin (pt_base w) (base r + size r - pt_base w) (pt_holes w)) (base r + size r).
Proof.
  intros [R1 R2 R3 R4 R5] Hin Hm Hb Hr Hro Hlt. pose proof Hr as (Hq1 & Hq2 & Hq3).
  split; cbn [pt_base pt_size pt_holes]; auto; try lia.
  intros a Ha. destruct (Z.lt_ge_cases a e) as [Hae|Hae].
  - destruct (R4 a ltac:(lia)) as (s & Hs1 & Hs2 & Hs3 & Hs4). exists s. auto.
  - exists r. split; [assumption|]. split; [assumption|]. split; [unfold holds; lia|].
    intros Hw. unfold in_hole. cbn [pt_holes pt_base]. apply existsb_exists.
    exists (base r - pt_base w, size r). split; [auto|]. cbn [fst snd].
    rewrite (proj2 (Z.leb_le _ _)), (proj2 (Z.ltb_lt _ _)) by lia. reflexivity.
Qed.

Lemma pt_grow_ok rs : Forall region_ok rs -> forall fuel run e w,
  run_ok rs run e -> pt_grow fuel rs run e = Some w -> exists e', run_ok rs w e'.
Proof.
  intros Hok. induction fuel as [|fuel IH]; intros run e w Hr E; cbn [pt_grow] in E; [discriminate|].
  destruct (pt_next rs e) as [r|] eqn:En; [|injection E as <-; eauto].
  destruct (pt_next_spec _ _ _ En) as (Hin & Hm & Hb).
  assert (Hrok : region_ok r) by (rewrite Forall_forall in Hok; apply Hok, list_elem_of_In; assumption).
  pose proof Hrok as (? & ? & ?). destruct (_ && _) eqn:Ec; [injection E as <-; eauto|].
  set (run1 := if perm r &! EMU_PERM_W =? 0 then _ else run) in E.
  assert (Hr1 : run_ok rs run1 e).
  { unfold run1. destruct (perm r &! EMU_PERM_W =? 0) eqn:Ew; [apply run_hole; assumption|assumption]. }
  assert (Hb1 : pt_base run1 = pt_base run) by (unfold run1; destruct (perm r &! EMU_PERM_W =? 0); reflexivity).
  assert (Hh1 : (perm r &! EMU_PERM_W =? 0) = true -> In (base r - pt_base run1, size r) (pt_holes run1)).
  { intros Ew. unfold run1. rewrite Ew. cbn. apply in_or_app. right. left. f_equal. apply u32_id.
    pose proof (run_base _ _ _ Hr). pose proof (run_end _ _ _ Hr). unfold is_u32. lia. }
  destruct (Z.ltb_spec (base r +! size r) (base r)) as [|Hnw]; [injection E as <-; eauto|].
  assert (Hlt : base r + size r < 2 ^ 32).
  { destruct (Z.eq_dec (base r + size r) (2 ^ 32)) as [E2|]; [|lia].
    unfold u32 in Hnw. rewrite E2, Z.mod_same in Hnw by lia.
    pose proof (run_base _ _ _ Hr). assert (base r = 0) by lia. lia. }
  assert (Es : base r +! size r = base r + size r) by (apply u32_id; unfold is_u32; lia).
  rewrite Es in E. rewrite u32_id in E.
  - eapply (IH _ _ _ (run_append rs run1 e r Hr1 Hin Hm Hb Hrok Hh1 Hlt)). exact E.
  - pose proof (run_base _ _ _ Hr1). unfold is_u32. lia.
Qed.

Lemma pt_scan_ok rs : Forall region_ok rs -> forall todo out found w,
  (forall r, In r todo -> In r rs) ->
  (found = true -> exists e, run_ok rs out e) -> pt_scan rs todo out found = Some (true, w) ->
  exists e, run_ok rs w e.
Proof.
  intros Hok. induction todo as [|r todo IH]; intros out found w Hsub Ho E; cbn [pt_scan] in E.
  { injection E as -> ->. auto. }
  assert (Hsub' : forall r, In r todo -> In r rs) by (intros; apply Hsub; right; assumption).
  destruct (pt_member r) eqn:Hm; [|eauto].
  destruct (pt_grow _ _ _ _) as [run|] eqn:Eg; [|discriminate].
  assert (Hrun : exists e, run_ok rs run e).
  { eapply pt_grow_ok; [assumption| |exact Eg].
    assert (Hr : region_ok r) by (rewrite Forall_forall in Hok; apply Hok, list_elem_of_In, Hsub; left; reflexivity).
    destruct Hr as (? & ? & ?). split; cbn; try lia; tauto. }
  destruct (_ <? _); eauto.
Qed.

(** ** Inlined accesses do what the bus does *)

Lemma member_inv r : pt_member r = true ->
  kind r = EMU_MEM_PASSTHRU /\ host_base r = base r /\ (perm r &! EMU_PERM_R =? 0) = false /\
  widths r &! 7 = 7 /\ base r mod 4 = 0 /\ size r mod 4 = 0.
Proof.
  unfold pt_member. intros H. bool_hyps.
  match goal with H : bool_decide _ = true |- _ => apply bool_decide_eq_true in H end.
  change 3 with (Z.ones 2) in *. rewrite !Z.land_ones in * by lia.
  repeat split; auto. apply Z.eqb_neq. assumption.
Qed.

(** A naturally aligned access inside a member stays inside it. *)
Lemma aligned_fits (r : region_t) a sz :
  base r mod 4 = 0 -> size r mod 4 = 0 -> access_size sz -> a mod sz = 0 -> holds r a ->
  0 <= a - base r <= size r - sz.
Proof.
  intros Hb Hs Hsz Ha [Hl Hu]. split; [lia|].
  unfold access_size in Hsz. destruct Hsz as [-> |[-> | ->]].
  - lia.
  - pose proof (Z.div_mod a 2). pose proof (Z.div_mod (base r) 4). pose proof (Z.div_mod (size r) 4). lia.
  - pose proof (Z.div_mod a 4). pose proof (Z.div_mod (base r) 4). pose proof (Z.div_mod (size r) 4). lia.
Qed.

Variable pt_read : Ext -> Z -> Z -> Z * Ext.
Variable pt_write : Ext -> Z -> Z -> Z -> Ext.

(** [C15] The peripheral window is exact: the build always answers, and when
    it finds a window every naturally aligned access inside it is what the
    bus would do -- a load is the host access at the guest's own address, a
    store likewise, except in the holes, where the bus refuses the store. *)
Theorem pt_window_exact (rs : list region_t) :
  table_ok rs ->
  exists ok w, pt_build rs = Some (ok, w) /\
  (ok = true -> forall a sz be h e v, access_size sz -> a mod sz = 0 ->
     pt_base w <= a < pt_base w + pt_size w ->
     spec_read pt_read be rs h e a sz
       = (let '(x, e') := pt_read e a sz in (EMU_FAULT_NONE, Some x, h, e')) /\
     spec_write pt_write be rs h e a sz v
       = if in_hole w a then (EMU_FAULT_STORE, None, h, e)
         else (EMU_FAULT_NONE, None, h, pt_write e a sz v)).
Proof.
  intros [Hok Hap]. destruct (pt_scan_returns rs Hok rs no_ptwin false) as (ok & w & E).
  exists ok, w. split; [exact E|]. intros -> a sz be h e v Hsz Hal Ha.
  destruct (pt_scan_ok rs Hok rs no_ptwin false w (fun r H => H) ltac:(discriminate) E) as [en [R1 R2 R3 R4 R5]].
  destruct (R4 a ltac:(lia)) as (r & Hin & Hm & Hh & Hro).
  assert (Hr : region_ok r) by (rewrite Forall_forall in Hok; apply Hok, list_elem_of_In; assumption).
  assert (Hu : is_u32 a) by (unfold is_u32; lia).
  pose proof (proj2 (in_region_spec r a Hr Hu) Hh) as Ir.
  apply list_elem_of_In, list_elem_of_lookup in Hin as [i Hi].
  pose proof (lookup_region_unique rs i r a (conj Hok Hap) Hu Hi Ir) as Hl.
  destruct (member_inv r Hm) as (Hk & Hhb & Hpr & Hw & Hb4 & Hs4).
  pose proof (aligned_fits r a sz Hb4 Hs4 Hsz Hal Hh) as Hfit.
  pose proof (region_off r a Hr Hu Hh) as Eo.
  assert (Ead : host_base r + (a - base r) = a) by lia. split.
  - unfold spec_read, grant. rewrite Hl, (allows_ok r a sz EMU_PERM_R) by auto using widths_any.
    rewrite Hk, Ead. reflexivity.
  - unfold spec_write, grant. rewrite Hl. destruct (perm r &! EMU_PERM_W =? 0) eqn:Ew.
    + rewrite (Hro eq_refl). unfold region_allows. rewrite Ew.
      destruct (_ <? _); reflexivity.
    + rewrite (allows_ok r a sz EMU_PERM_W) by auto using widths_any. rewrite Hk, Ead.
      destruct (in_hole w a) eqn:Eh; [|reflexivity]. exfalso.
      unfold in_hole in Eh. apply existsb_exists in Eh as ([off len] & Hin & Hr2). cbn in Hr2. bool_hyps.
      destruct (R5 off len Hin) as (s & Hs1 & Hs2 & Hs3 & Hs5 & Hs6).
      assert (Hsok : region_ok s) by (rewrite Forall_forall in Hok; apply Hok, list_elem_of_In; assumption).
      assert (Is : in_region s a = true) by (apply in_region_spec; auto; lia).
      apply list_elem_of_In, list_elem_of_lookup in Hs1 as [j Hj].
      pose proof (lookup_region_unique rs j s a (conj Hok Hap) Hu Hj Is) as Hl'. rewrite Hl in Hl'. injection Hl' as <-. apply Z.eqb_eq in Hs3. contradiction.
Qed.

(** The image window is exact: every load inside it composes the bytes
    of the host buffer it names, as the bus would on a little-endian guest,
    and the bus refuses every store there. *)
Theorem rom_window_exact (rs : list region_t) bs w a sz h e v :
  table_ok rs -> is_u32 bs -> rom_build rs bs = Some w -> access_size sz ->
  fm_base w <= a -> a + sz <= fm_base w + fm_size w ->
  spec_read pt_read false rs h e a sz
    = (EMU_FAULT_NONE, Some (host_ld (h (fm_host w)) (a - fm_base w) sz), h, e) /\
  spec_write pt_write false rs h e a sz v = (EMU_FAULT_STORE, None, h, e).
Proof.
  intros [Hok Hap] Hbs E Hsz Hl Hu. unfold rom_build in E. destruct (List.find _ rs) as [r|] eqn:Ef; [|discriminate].
  apply List.find_some in Ef as [Hin Hc]. destruct (_ || _) eqn:Eg; [discriminate|]. injection E as <-. bool_hyps.
  match goal with H : bool_decide _ = true |- _ => apply bool_decide_eq_true in H; rename H into Hk end.
  cbn in *. assert (Hr : region_ok r) by (rewrite Forall_forall in Hok; apply Hok, list_elem_of_In; assumption).
  pose proof Hr as (? & ? & ?). assert (Hz : 0 < sz) by (unfold access_size in Hsz; lia).
  assert (Ha : is_u32 a) by (unfold is_u32; lia).
  assert (Hh : base r <= a < base r + size r) by lia.
  pose proof (proj2 (in_region_spec r a Hr Ha) Hh) as Ir.
  apply list_elem_of_In, list_elem_of_lookup in Hin as [i Hi].
  pose proof (lookup_region_unique rs i r a (conj Hok Hap) Ha Hi Ir) as Hlk.
  pose proof (region_off r a Hr Ha Hh) as Eo. split.
  - unfold spec_read, grant. rewrite Hlk, (allows_ok r a sz EMU_PERM_R); auto using wany_any.
    + rewrite Hk. reflexivity.
    + lia.
    + apply Z.eqb_neq. assumption.
  - unfold spec_write, grant. rewrite Hlk. destruct (region_allows r a sz EMU_PERM_W); [|reflexivity].
    rewrite Hk. reflexivity.
Qed.

(** The caches answer for the table they were filled from. *)
Definition pt_cache_ok (hist : Z -> Z -> list region_t) (c : pt_cache) : Prop :=
  match g_pt_bus c with
  | None => True
  | Some id => pt_build (hist id (g_pt_epoch c)) = Some (g_pt_ok c, g_pt_win c)
  end.

(** The cached window is the current one: if a bus and an epoch
    determine a table, which every change of a table ensures by taking a new
    epoch, then [emu_ir_pt_window] answers what a fresh build would, whichever
    bus it answered for last. *)
Theorem pt_window_fresh hist c id (b : bus_t) :
  pt_cache_ok hist c -> Forall region_ok (regions b) -> regions b = hist id (epoch b) ->
  exists ok w c', pt_build (regions b) = Some (ok, w) /\
    emu_ir_pt_window c id b = Some (if ok then Some w else None, c') /\ pt_cache_ok hist c'.
Proof.
  intros Hc Hok Hh. destruct (pt_scan_returns (regions b) Hok (regions b) no_ptwin false) as (ok & w & E).
  unfold emu_ir_pt_window. destruct (_ && _) eqn:Ef.
  - bool_hyps. match goal with H : bool_decide _ = true |- _ => apply bool_decide_eq_true in H; rename H into Hid end.
    unfold pt_cache_ok in Hc. rewrite Hid in Hc.
    assert (Ee : pt_build (regions b) = Some (g_pt_ok c, g_pt_win c)) by (rewrite Hh; congruence).
    exists (g_pt_ok c), (g_pt_win c), c. split; [assumption|]. split; [reflexivity|].
    unfold pt_cache_ok. rewrite Hid. assumption.
  - change (pt_scan (regions b) (regions b) no_ptwin false) with (pt_build (regions b)) in E. rewrite E.
    exists ok, w, (PtCache (Some id) (epoch b) ok w). split; [reflexivity|]. split; [reflexivity|].
    unfold pt_cache_ok. cbn. rewrite <- Hh. assumption.
Qed.

End Windows.
