(* ===== verification/BusDemo.v ===== *)
(** * Buses to run the definitions on

    The maps the witnesses of the theorems on the bus and on the inlinable
    windows run on. *)

From stdpp Require Import base list gmap.
From Stdlib Require Import ZArith Lia.
From S2P Require Import Prelude Bus BusProps BusMem Elf IrWindows.

Open Scope Z_scope.
Open Scope u32_scope.

(** * A bus to run the definitions on

    A map with ROM at 0, RAM at 0x20000000 and a word-only window of host
    registers, built with the constructors of [emu_bus.c]; the witnesses of the
    bus theorems, and the one thing the caches do not preserve. *)

Definition no_pt_read (e : unit) (a sz : Z) : Z * unit := (0, tt).
Definition no_pt_write (e : unit) (a sz v : Z) : unit := tt.

Definition built_bus : bool * emu_bus unit * Z :=
  let '(b, g) := emu_bus_init 0 in
  let '(_, b, g) := emu_bus_add_rom g b 0 1 64 in
  let '(_, b, g) := emu_bus_add_ram g b 536870912 2 64 in
  emu_bus_add_passthru g b 1073741824 64 1073741824 EMU_PERM_RW EMU_W32.

Definition demo_bus : emu_bus unit := snd (fst built_bus).
Definition demo_heap : heap := fun buf off => u8 (buf * 16 + off).

Example demo_bus_built : fst (fst built_bus) = true.
Proof. reflexivity. Qed.

(** A load and a store of RAM, and the load again through the cache. *)
Example demo_access :
  let a1 := emu_bus_read no_pt_read demo_bus demo_heap tt 536870916 4 in
  let a2 := emu_bus_write no_pt_write (a_bus a1) (a_heap a1) tt 536870917 2 48879 in
  let a3 := emu_bus_read no_pt_read (a_bus a2) (a_heap a2) tt 536870916 4 in
  (a_out a1, a_out a3, c_span (data (a_bus a3))) = (Some 656811300, Some 666824484, 64).
Proof. vm_compute. reflexivity. Qed.

Lemma demo_bus_wf : bus_wf demo_bus.
Proof.
  assert (Ht : table_ok (regions demo_bus)).
  { assert (H0 : table_ok ([] : list (emu_region unit))) by (split; [constructor|intros i j r s a Hi; discriminate]).
    change (regions demo_bus) with (((([] : list (emu_region unit)) ++
      [Region 0 64 1 0 None EMU_MEM_ROM EMU_PERM_RX EMU_WANY]) ++
      [Region 536870912 64 2 0 None EMU_MEM_RAM EMU_PERM_RWX EMU_WANY]) ++
      [Region 1073741824 64 0 1073741824 None EMU_MEM_PASSTHRU EMU_PERM_RW EMU_W32]).
    apply table_ok_snoc; [apply table_ok_snoc; [apply table_ok_snoc; [exact H0|..]|..]|..];
      try reflexivity; unfold region_ok; cbn [base size]; lia. }
  split; try (left; reflexivity); [exact Ht| |cbn [last demo_bus]; vm_compute; discriminate].
  repeat constructor; intros [Hk Hp]; first [discriminate Hk | reflexivity].
Qed.

Lemma demo_hosts_apart : hosts_apart (regions demo_bus).
Proof.
  intros i j r s Hi Hj Hr Hs He. change (regions demo_bus) with
    [Region (Ext := unit) 0 64 1 0 None EMU_MEM_ROM EMU_PERM_RX EMU_WANY;
     Region 536870912 64 2 0 None EMU_MEM_RAM EMU_PERM_RWX EMU_WANY;
     Region 1073741824 64 0 1073741824 None EMU_MEM_PASSTHRU EMU_PERM_RW EMU_W32] in *.
  destruct i as [|[|[|i]]], j as [|[|[|j]]]; cbn in Hi, Hj; try discriminate;
    injection Hi as <-; injection Hj as <-; cbn in *; congruence.
Qed.

(** ** Witnesses *)

Lemma bus_read_transparent_witness :
  view (emu_bus_read no_pt_read demo_bus demo_heap tt 536870916 4)
    = spec_read no_pt_read false (regions demo_bus) demo_heap tt 536870916 4 /\
  keeps_map demo_bus (a_bus (emu_bus_read no_pt_read demo_bus demo_heap tt 536870916 4)).
Proof.
  apply (bus_read_transparent no_pt_read demo_bus demo_heap tt 536870916 4);
    [apply demo_bus_wf|unfold is_u32; lia|unfold access_size; lia].
Defined.

Lemma bus_write_transparent_witness :
  view (emu_bus_write no_pt_write demo_bus demo_heap tt 536870916 2 7)
    = spec_write no_pt_write false (regions demo_bus) demo_heap tt 536870916 2 7 /\
  keeps_map demo_bus (a_bus (emu_bus_write no_pt_write demo_bus demo_heap tt 536870916 2 7)).
Proof.
  apply (bus_write_transparent no_pt_write demo_bus demo_heap tt 536870916 2 7);
    [apply demo_bus_wf|unfold is_u32; lia|unfold access_size; lia].
Defined.

Lemma bus_fetch16_transparent_witness :
  view (emu_bus_fetch16 no_pt_read demo_bus demo_heap tt 62)
    = spec_fetch16 no_pt_read false (regions demo_bus) demo_heap tt 62 /\
  keeps_map demo_bus (a_bus (emu_bus_fetch16 no_pt_read demo_bus demo_heap tt 62)).
Proof.
  apply (bus_fetch16_transparent no_pt_read demo_bus demo_heap tt 62); [apply demo_bus_wf|unfold is_u32; lia].
Defined.

Lemma bus_transparent_witness :
  view (emu_bus_write no_pt_write demo_bus demo_heap tt 536870916 2 7) = spec_write no_pt_write false (regions demo_bus) demo_heap tt 536870916 2 7.
Proof.
  pose proof (bus_transparent no_pt_read no_pt_write demo_bus demo_heap tt 536870916 demo_bus_wf ltac:(unfold is_u32; lia)) as [H _].
  exact (proj1 (proj2 (H 2 ltac:(unfold access_size; lia)) 7)).
Defined.

Definition more_ram : emu_region unit := Region 536870976 64 3 0 None EMU_MEM_RAM EMU_PERM_RWX EMU_WANY.

Lemma bus_add_wf_witness :
  bus_wf (snd (fst (emu_bus_add 4 demo_bus more_ram))) /\
  regions (snd (fst (emu_bus_add 4 demo_bus more_ram))) = regions demo_bus ++ [more_ram] /\
  (true = true -> region_ok more_ram /\ forall i s a, regions demo_bus !! i = Some s -> is_u32 a ->
                    in_region s a = true -> in_region more_ram a = false).
Proof.
  apply (bus_add_wf 4 demo_bus more_ram true (snd (fst (emu_bus_add 4 demo_bus more_ram))) 5).
  - apply demo_bus_wf.
  - cbn [base size more_ram]; lia.
  - cbn [base size more_ram]; lia.
  - intros _. reflexivity.
  - reflexivity.
Defined.

Lemma ram_store_load_witness :
  let w := emu_bus_write no_pt_write demo_bus demo_heap tt 536870917 2 123456 in
  let x := emu_bus_read no_pt_read (a_bus w) (a_heap w) (a_ext w) 536870917 2 in
  a_fault w = EMU_FAULT_NONE /\ a_fault x = EMU_FAULT_NONE /\ a_out x = Some (123456 mod 2 ^ (8 * 2)).
Proof.
  apply (ram_store_load no_pt_read no_pt_write demo_bus demo_heap tt 536870917 2 123456
           (Region 536870912 64 2 0 None EMU_MEM_RAM EMU_PERM_RWX EMU_WANY)).
  - apply demo_bus_wf.
  - unfold is_u32; lia.
  - unfold access_size; lia.
  - unfold is_u32; lia.
  - reflexivity.
  - reflexivity.
  - reflexivity.
Defined.

Lemma rom_store_refused_witness :
  view (emu_bus_write no_pt_write demo_bus demo_heap tt 8 4 1) = (EMU_FAULT_STORE, None, demo_heap, tt).
Proof.
  apply (rom_store_refused no_pt_write demo_bus demo_heap tt 8 4 1
           (Region 0 64 1 0 None EMU_MEM_ROM EMU_PERM_RX EMU_WANY)).
  - apply demo_bus_wf.
  - unfold is_u32; lia.
  - unfold access_size; lia.
  - reflexivity.
  - reflexivity.
Defined.

Lemma load_dump_roundtrip_witness :
  exists ok b' h', emu_bus_load 3 demo_bus demo_heap 61 [7; 8; 9] = Some (ok, b', h') /\ bus_wf b' /\
    (ok = true <-> mapped (regions demo_bus) 61 3) /\
    (ok = true -> exists b'', emu_bus_dump 3 b' h' 61 3 = Some (Some [7; 8; 9], b'')).
Proof.
  apply (load_dump_roundtrip demo_bus demo_heap 61 [7; 8; 9] 3).
  - apply demo_bus_wf.
  - apply demo_hosts_apart.
  - unfold is_u32; lia.
  - cbn [length]; lia.
  - cbn [length]; lia.
Defined.

(** ** Width restrictions and the data cache

    [arm_data_cache] does not ask what [arm_rodata_cache] asks, that the
    region takes every width.  On a RAM region that takes words only, a byte
    read is refused until a word has been read, and served after it. *)

Definition word_only_bus : emu_bus unit :=
  snd (fst (emu_bus_add 0 (fst (emu_bus_init 0))
              (Region 0 64 1 0 None EMU_MEM_RAM EMU_PERM_RWX EMU_W32))).

Lemma data_cache_ignores_widths :
  a_fault (emu_bus_read no_pt_read word_only_bus demo_heap tt 4 1) = EMU_FAULT_LOAD /\
  a_fault (emu_bus_read no_pt_read
    (a_bus (emu_bus_read no_pt_read word_only_bus demo_heap tt 4 4)) demo_heap tt 4 1) = EMU_FAULT_NONE.
Proof. split; reflexivity. Qed.

(** * A map with an inlinable peripheral window

    A flash image and three register blocks mapped at their own addresses, two
    of them adjacent and the second of those read-only: what the windows of
    [emu_ir.c] are on it, and the witnesses of their theorems. *)

Definition reg_read (e : Z) (a sz : Z) : Z * Z := (e + a, e + 1).
Definition reg_write (e : Z) (a sz v : Z) : Z := v.

Definition periph_bus : emu_bus Z :=
  let '(b, g) := emu_bus_init 0 in
  let '(_, b, g) := emu_bus_add_rom g b 0 1 64 in
  let '(_, b, g) := emu_bus_add_passthru g b 1073741824 64 1073741824 EMU_PERM_RW EMU_WANY in
  let '(_, b, g) := emu_bus_add_passthru g b 1073741888 32 1073741888 EMU_PERM_R EMU_WANY in
  let '(_, b, g) := emu_bus_add_passthru g b 1342177280 64 1342177280 EMU_PERM_RW EMU_WANY in
  b.

(** The adjacent pair, 96 bytes, wins over the single block of 64. *)
Example periph_window :
  pt_build (regions periph_bus) = Some (true, PtWin 1073741824 96 [(64, 32)]).
Proof. vm_compute. reflexivity. Qed.

Lemma periph_table_ok : table_ok (regions periph_bus).
Proof.
  assert (H0 : table_ok ([] : list (emu_region Z))) by (split; [constructor|intros i j r s a Hi; discriminate]).
  change (regions periph_bus) with ((((([] : list (emu_region Z)) ++
    [Region 0 64 1 0 None EMU_MEM_ROM EMU_PERM_RX EMU_WANY]) ++
    [Region 1073741824 64 0 1073741824 None EMU_MEM_PASSTHRU EMU_PERM_RW EMU_WANY]) ++
    [Region 1073741888 32 0 1073741888 None EMU_MEM_PASSTHRU EMU_PERM_R EMU_WANY]) ++
    [Region 1342177280 64 0 1342177280 None EMU_MEM_PASSTHRU EMU_PERM_RW EMU_WANY]).
  repeat (apply table_ok_snoc; [|unfold region_ok; cbn [base size]; lia|reflexivity]). exact H0.
Qed.

Lemma pt_window_exact_witness :
  spec_write reg_write false (regions periph_bus) (fun _ _ => 0) 7 1073741828 4 99
    = (EMU_FAULT_NONE, None, fun _ _ => 0, 99) /\
  spec_write reg_write false (regions periph_bus) (fun _ _ => 0) 7 1073741892 2 99
    = (EMU_FAULT_STORE, None, fun _ _ => 0, 7).
Proof.
  destruct (pt_window_exact reg_read reg_write (regions periph_bus) periph_table_ok) as (ok & w & E & H).
  assert (E2 : Some (ok, w) = Some (true, PtWin 1073741824 96 [(64, 32)])) by (rewrite <- E; vm_compute; reflexivity).
  injection E2 as -> ->. split.
  - refine (proj2 (H eq_refl 1073741828 4 false (fun _ _ => 0) 7 99 _ _ _));
      [unfold access_size; lia|reflexivity|cbn [pt_base pt_size]; lia].
  - refine (proj2 (H eq_refl 1073741892 2 false (fun _ _ => 0) 7 99 _ _ _));
      [unfold access_size; lia|reflexivity|cbn [pt_base pt_size]; lia].
Defined.

Lemma rom_window_exact_witness :
  spec_read reg_read false (regions periph_bus) (fun _ off => off) 7 4 4
    = (EMU_FAULT_NONE, Some 117835012, fun _ off => off, 7) /\
  spec_write reg_write false (regions periph_bus) (fun _ off => off) 7 4 4 1
    = (EMU_FAULT_STORE, None, fun _ off => off, 7).
Proof.
  refine (rom_window_exact reg_read reg_write (regions periph_bus) 0 (FastMem 0 64 1 EMU_IR_NO_GUARD) 4 4
            (fun _ off => off) 7 1 periph_table_ok _ _ _ _ _).
  - unfold is_u32. lia.
  - reflexivity.
  - unfold access_size. lia.
  - cbn [fm_base]. lia.
  - cbn [fm_base fm_size]. lia.
Defined.

(** The cache last answered for another bus. *)
Lemma pt_window_fresh_witness :
  exists ok w c', pt_build (regions periph_bus) = Some (ok, w) /\
    emu_ir_pt_window (PtCache (Some 8) (epoch periph_bus) false no_ptwin) 16 periph_bus
      = Some (if ok then Some w else None, c') /\
    pt_cache_ok (fun id _ => if id =? 8 then [] else regions periph_bus) c'.
Proof.
  apply (pt_window_fresh (fun id _ => if id =? 8 then [] else regions periph_bus)).
  - reflexivity.
  - exact (proj1 periph_table_ok).
  - reflexivity.
Defined.

(** * An image

    A little-endian RISC-V executable with two segments: four bytes and four
    more of zeros in RAM, and four bytes at [pa]. *)

Definition le32 (x : Z) : list Z := [x mod 256; x / 256 mod 256; x / 65536 mod 256; x / 16777216 mod 256].

Definition elf_image (pa : Z) : list Z :=
  [127; 69; 76; 70; 1; 1; 1; 0; 0; 0; 0; 0; 0; 0; 0; 0; 2; 0; 243; 0] ++ le32 1 ++ le32 536870912 ++ le32 52 ++ le32 0 ++ le32 0 ++ [52; 0; 32; 0; 2; 0; 0; 0; 0; 0; 0; 0] ++
  le32 1 ++ le32 116 ++ le32 536870912 ++ le32 536870912 ++ le32 4 ++ le32 8 ++ le32 5 ++ le32 4 ++
  le32 1 ++ le32 120 ++ le32 pa ++ le32 pa ++ le32 4 ++ le32 4 ++ le32 5 ++ le32 4 ++ [19; 0; 80; 2; 171; 205; 239; 1].

Definition file (l : list Z) (o : Z) : Z := default 0 (l !! Z.to_nat o).

Lemma file_ok l : forallb (fun x => (0 <=? x) && (x <? 256)) l = true -> bytes_ok (file l).
Proof.
  intros H o. unfold file. destruct (l !! Z.to_nat o) as [x|] eqn:E; [|cbn; lia]. apply list_elem_of_lookup_2, list_elem_of_In in E. rewrite forallb_forall in H. specialize (H x E). bool_hyps. cbn. lia.
Qed.

Lemma elf_load_exact_witness :
  match emu_elf_load (file (elf_image 16)) 124 243 0 (4, demo_bus, demo_heap) with
  | Some (None, Some entry, _, (_, _, h)) =>
      entry = 536870912 /\ guest_byte (regions demo_bus) h 18 = Some 239 /\ guest_byte (regions demo_bus) h 536870914 = Some 80 /\ guest_byte (regions demo_bus) h 536870918 = Some 0
  | _ => False
  end.
Proof.
  destruct (elf_load_exact (file (elf_image 16)) 124 243 0 4 demo_bus demo_heap ltac:(apply file_ok; vm_compute; reflexivity) demo_bus_wf demo_hosts_apart) as (e & entry & m & b' & h' & E & _ & _ & _ & P).
  assert (N : match emu_elf_load (file (elf_image 16)) 124 243 0 (4, demo_bus, demo_heap) with Some (None, _, _, _) => true | _ => false end = true) by (vm_compute; reflexivity).
  rewrite E in *. destruct e as [e|]; [discriminate N|]. destruct (P eq_refl) as [-> Q]. split; [vm_compute; reflexivity|].
  rewrite !Q by (unfold is_u32; lia). vm_compute. repeat split.
Defined.

Lemma elf_map_contained_witness :
  match emu_elf_map (file (elf_image 1024)) 124 (fun off => 100 + off) 243 0 536870912 64 (4, demo_bus, demo_heap) with
  | Some (None, _, _, (_, b, h)) => length (regions b) = S (length (regions demo_bus)) /\ only_ram 536870912 64 (regions demo_bus) demo_heap h
  | _ => False
  end.
Proof.
  destruct (elf_map_contained (file (elf_image 1024)) 124 (fun off => 100 + off) 243 0 536870912 64 4 demo_bus demo_heap ltac:(apply file_ok; vm_compute; reflexivity) demo_bus_wf ltac:(lia) ltac:(lia) ltac:(lia))
    as (e & entry & m & g' & b' & h' & E & _ & O & _).
  { intros x Hx. unfold in_window in Hx. destruct (regions demo_bus !! 1%nat) as [r|] eqn:Er; [|discriminate]. exists r.
    assert (K : kind r = EMU_MEM_RAM /\ base r = 536870912 /\ size r = 64) by (revert Er; vm_compute; intros [= <-]; repeat split). destruct K as (K & Eb & Es). split; [|exact K].
    eapply (chunk_lookup demo_bus 1 r x demo_bus_wf Er). lia. }
  assert (N : match emu_elf_map (file (elf_image 1024)) 124 (fun off => 100 + off) 243 0 536870912 64 (4, demo_bus, demo_heap) with
              Some (None, _, _, (_, b, _)) => Nat.eqb (length (regions b)) (S (length (regions demo_bus))) | _ => false end = true) by (vm_compute; reflexivity).
  rewrite E in *. destruct e as [e|]; [discriminate N|]. split; [apply Nat.eqb_eq, N|exact O].
Defined.
