(* ===== verification/RvHart.v ===== *)
(** * One RV32 hart

    The architectural state of [include/rv32/rv_hart.h], the exception codes
    and privilege levels of [rv_types.h] and the [mstatus] fields of
    [rv_csr.h], for the build with every extension and without the JIT's
    own context words.  A field [f] of [rv_hart_t] is [h_f]; an array is a
    total map; pointers to the bus, the clock and the platform are passed
    beside the hart.  [h <| h_f := v |>] is the assignment [h->f = v]. *)

From stdpp Require Import base list gmap.
From Stdlib Require Import ZArith Lia.
From S2P Require Import Prelude Bus.

Open Scope Z_scope.
Open Scope u32_scope.

(** ** Field update

    [Eta] rebuilds a record from its fields; the setter of a projection
    replaces that field in the rebuilt record. *)

Class Eta (R : Type) := eta : R -> R.
Class Setter {R T : Type} (proj : R -> T) := set_field : (T -> T) -> R -> R.
Arguments set_field {R T} proj {_} _ _.

Ltac solve_setter :=
  match goal with
  | |- @Setter ?R ?T ?proj =>
      let g := fresh "g" in let r := fresh "r" in
      intros g r;
      let t' := eval hnf in (eta r) in
      let k := eval pattern (proj r) in t' in
      lazymatch k with ?k0 _ => let b := eval cbv beta in (k0 (g (proj r))) in exact b end
  end.

Notation "h <| p := v |>" := (set_field p (fun _ => v) h)
  (at level 1, p at level 0, v at level 99, left associativity).


(** ** Codes *)

Definition RV_EXC_NONE : Z := 4294967295.
Definition RV_EXC_INSN_MISALIGNED : Z := 0.
Definition RV_EXC_INSN_ACCESS_FAULT : Z := 1.
Definition RV_EXC_ILLEGAL_INSN : Z := 2.
Definition RV_EXC_BREAKPOINT : Z := 3.
Definition RV_EXC_LOAD_MISALIGNED : Z := 4.
Definition RV_EXC_LOAD_ACCESS_FAULT : Z := 5.
Definition RV_EXC_STORE_MISALIGNED : Z := 6.
Definition RV_EXC_STORE_ACCESS_FAULT : Z := 7.
Definition RV_EXC_ECALL_U : Z := 8.
Definition RV_EXC_ECALL_S : Z := 9.
Definition RV_EXC_ECALL_M : Z := 11.
Definition RV_EXC_INSN_PAGE_FAULT : Z := 12.
Definition RV_EXC_LOAD_PAGE_FAULT : Z := 13.
Definition RV_EXC_STORE_PAGE_FAULT : Z := 15.
Definition RV_INT_S_SOFT : Z := 1.
Definition RV_INT_S_TIMER : Z := 5.
Definition RV_INT_S_EXT : Z := 9.
Definition RV_INT_M_SOFT : Z := 3.
Definition RV_INT_M_TIMER : Z := 7.
Definition RV_INT_M_EXT : Z := 11.
Definition RV_INT_LCOF : Z := 13.
Definition RV_CAUSE_INTERRUPT : Z := 2147483648.
Definition RV_PRIV_U : Z := 0.
Definition RV_PRIV_S : Z := 1.
Definition RV_PRIV_M : Z := 3.

Definition MSTATUS_SIE : Z := 2.
Definition MSTATUS_MIE : Z := 8.
Definition MSTATUS_SPIE : Z := 32.
Definition MSTATUS_MPIE : Z := 128.
Definition MSTATUS_SPP : Z := 256.
Definition MSTATUS_MPRV : Z := 131072.
Definition MSTATUS_SUM : Z := 262144.
Definition MSTATUS_MXR : Z := 524288.
Definition MSTATUS_TVM : Z := 1048576.
Definition MSTATUS_TW : Z := 2097152.
Definition MSTATUS_TSR : Z := 4194304.
Definition MSTATUS_SD : Z := 2147483648.
Definition MSTATUS_MPP_SHIFT : Z := 11.
Definition MSTATUS_MPP_MASK : Z := 6144.
Definition MSTATUS_FS_SHIFT : Z := 13.
Definition MSTATUS_FS_MASK : Z := 24576.
Definition SATP_MODE_SV32 : Z := 2147483648.

Inductive emu_access := EMU_ACC_FETCH | EMU_ACC_LOAD | EMU_ACC_STORE.
#[export] Instance emu_access_dec : EqDecision emu_access.
Proof. solve_decision. Defined.

Definition rv_exc_from_fault (f : emu_fault) : Z :=
  match f with
  | EMU_FAULT_NONE => RV_EXC_NONE
  | EMU_FAULT_FETCH => RV_EXC_INSN_ACCESS_FAULT
  | EMU_FAULT_LOAD => RV_EXC_LOAD_ACCESS_FAULT
  | EMU_FAULT_STORE => RV_EXC_STORE_ACCESS_FAULT
  end.

(** [v & mask] as a C condition. *)
Definition has (v mask : Z) : bool := negb (v &! mask =? 0).

(** ** State *)

(** An entry of the Sv32 TLB: the page, its physical base, the low eight bits
    of the PTE. *)
Record tlb_entry := Tlb { t_vpn : Z; t_ppn : Z; t_pte : Z; t_valid : bool }.

(** A host address is a buffer and an offset into it, so the distance from a
    guest address to it is a buffer and a difference. *)
Record emu_dtlb_entry := Dtlb { d_read : Z; d_write : Z; d_buf : Z; d_addend : Z }.

#[projections(primitive)]
Record rv_hart := Hart {
  h_x : Z -> Z; h_pc : Z; h_mstatus : Z; h_mie : Z; h_mip : Z; h_mtvec : Z; h_mscratch : Z;
  h_mepc : Z; h_mcause : Z; h_mtval : Z; h_mcountinhibit : Z; h_mcycle : Z; h_minstret : Z;
  h_f : Z -> Z; h_fcsr : Z; h_mcounteren : Z; h_menvcfg : Z; h_senvcfg : Z; h_stvec : Z;
  h_sscratch : Z; h_sepc : Z; h_scause : Z; h_stval : Z; h_scounteren : Z; h_medeleg : Z;
  h_mideleg : Z; h_satp : Z; h_vm_active : bool; h_vm_gen : Z; h_pmp_gen : Z;
  h_tlb : Z -> tlb_entry; h_tselect : Z; h_tdata1 : Z -> Z; h_tdata2 : Z -> Z;
  h_trig_active : bool; h_pmpcfg : Z -> Z; h_pmpaddr : Z -> Z; h_pmp_active : bool;
  h_pmp_any : bool; h_resv_addr : Z; h_resv_valid : bool; h_irq_dirty : bool; h_fetch_guard : bool;
  h_data_guard : bool; h_hartid : Z; h_priv : Z; h_state : Z; h_trap_count : Z;
  h_mhpmcounter : Z -> Z; h_mhpmevent : Z -> Z; h_hpm_armed : Z; h_mhpmeventh : Z -> Z;
  h_split_req : Z; h_split_at : Z; h_split_valid : bool; h_pt_armed : bool; h_rom_armed : bool;
  h_rom_reads : Z; h_mega_regions : Z -> Z; h_dtlb : Z -> Z -> emu_dtlb_entry;
  h_itlb : Z -> Z -> emu_dtlb_entry; h_dtlb_fills : Z; h_dtlb_flushes : Z; h_itlb_fills : Z;
  h_insn_retired_lo : Z
}.

#[export] Instance hart_eta : Eta rv_hart := fun h => Hart
  (h_x h) (h_pc h) (h_mstatus h) (h_mie h) (h_mip h) (h_mtvec h) (h_mscratch h) (h_mepc h)
  (h_mcause h) (h_mtval h) (h_mcountinhibit h) (h_mcycle h) (h_minstret h) (h_f h) (h_fcsr h)
  (h_mcounteren h) (h_menvcfg h) (h_senvcfg h) (h_stvec h) (h_sscratch h) (h_sepc h) (h_scause h)
  (h_stval h) (h_scounteren h) (h_medeleg h) (h_mideleg h) (h_satp h) (h_vm_active h) (h_vm_gen h)
  (h_pmp_gen h) (h_tlb h) (h_tselect h) (h_tdata1 h) (h_tdata2 h) (h_trig_active h) (h_pmpcfg h)
  (h_pmpaddr h) (h_pmp_active h) (h_pmp_any h) (h_resv_addr h) (h_resv_valid h) (h_irq_dirty h)
  (h_fetch_guard h) (h_data_guard h) (h_hartid h) (h_priv h) (h_state h) (h_trap_count h)
  (h_mhpmcounter h) (h_mhpmevent h) (h_hpm_armed h) (h_mhpmeventh h) (h_split_req h)
  (h_split_at h) (h_split_valid h) (h_pt_armed h) (h_rom_armed h) (h_rom_reads h)
  (h_mega_regions h) (h_dtlb h) (h_itlb h) (h_dtlb_fills h) (h_dtlb_flushes h) (h_itlb_fills h)
  (h_insn_retired_lo h).

#[export] Instance set_x : Setter h_x := ltac:(solve_setter).
#[export] Instance set_pc : Setter h_pc := ltac:(solve_setter).
#[export] Instance set_mstatus : Setter h_mstatus := ltac:(solve_setter).
#[export] Instance set_mie : Setter h_mie := ltac:(solve_setter).
#[export] Instance set_mip : Setter h_mip := ltac:(solve_setter).
#[export] Instance set_mtvec : Setter h_mtvec := ltac:(solve_setter).
#[export] Instance set_mscratch : Setter h_mscratch := ltac:(solve_setter).
#[export] Instance set_mepc : Setter h_mepc := ltac:(solve_setter).
#[export] Instance set_mcause : Setter h_mcause := ltac:(solve_setter).
#[export] Instance set_mtval : Setter h_mtval := ltac:(solve_setter).
#[export] Instance set_mcountinhibit : Setter h_mcountinhibit := ltac:(solve_setter).
#[export] Instance set_mcycle : Setter h_mcycle := ltac:(solve_setter).
#[export] Instance set_minstret : Setter h_minstret := ltac:(solve_setter).
#[export] Instance set_f : Setter h_f := ltac:(solve_setter).
#[export] Instance set_fcsr : Setter h_fcsr := ltac:(solve_setter).
#[export] Instance set_mcounteren : Setter h_mcounteren := ltac:(solve_setter).
#[export] Instance set_menvcfg : Setter h_menvcfg := ltac:(solve_setter).
#[export] Instance set_senvcfg : Setter h_senvcfg := ltac:(solve_setter).
#[export] Instance set_stvec : Setter h_stvec := ltac:(solve_setter).
#[export] Instance set_sscratch : Setter h_sscratch := ltac:(solve_setter).
#[export] Instance set_sepc : Setter h_sepc := ltac:(solve_setter).
#[export] Instance set_scause : Setter h_scause := ltac:(solve_setter).
#[export] Instance set_stval : Setter h_stval := ltac:(solve_setter).
#[export] Instance set_scounteren : Setter h_scounteren := ltac:(solve_setter).
#[export] Instance set_medeleg : Setter h_medeleg := ltac:(solve_setter).
#[export] Instance set_mideleg : Setter h_mideleg := ltac:(solve_setter).
#[export] Instance set_satp : Setter h_satp := ltac:(solve_setter).
#[export] Instance set_vm_active : Setter h_vm_active := ltac:(solve_setter).
#[export] Instance set_vm_gen : Setter h_vm_gen := ltac:(solve_setter).
#[export] Instance set_pmp_gen : Setter h_pmp_gen := ltac:(solve_setter).
#[export] Instance set_tlb : Setter h_tlb := ltac:(solve_setter).
#[export] Instance set_tselect : Setter h_tselect := ltac:(solve_setter).
#[export] Instance set_tdata1 : Setter h_tdata1 := ltac:(solve_setter).
#[export] Instance set_tdata2 : Setter h_tdata2 := ltac:(solve_setter).
#[export] Instance set_trig_active : Setter h_trig_active := ltac:(solve_setter).
#[export] Instance set_pmpcfg : Setter h_pmpcfg := ltac:(solve_setter).
#[export] Instance set_pmpaddr : Setter h_pmpaddr := ltac:(solve_setter).
#[export] Instance set_pmp_active : Setter h_pmp_active := ltac:(solve_setter).
#[export] Instance set_pmp_any : Setter h_pmp_any := ltac:(solve_setter).
#[export] Instance set_resv_addr : Setter h_resv_addr := ltac:(solve_setter).
#[export] Instance set_resv_valid : Setter h_resv_valid := ltac:(solve_setter).
#[export] Instance set_irq_dirty : Setter h_irq_dirty := ltac:(solve_setter).
#[export] Instance set_fetch_guard : Setter h_fetch_guard := ltac:(solve_setter).
#[export] Instance set_data_guard : Setter h_data_guard := ltac:(solve_setter).
#[export] Instance set_hartid : Setter h_hartid := ltac:(solve_setter).
#[export] Instance set_priv : Setter h_priv := ltac:(solve_setter).
#[export] Instance set_state : Setter h_state := ltac:(solve_setter).
#[export] Instance set_trap_count : Setter h_trap_count := ltac:(solve_setter).
#[export] Instance set_mhpmcounter : Setter h_mhpmcounter := ltac:(solve_setter).
#[export] Instance set_mhpmevent : Setter h_mhpmevent := ltac:(solve_setter).
#[export] Instance set_hpm_armed : Setter h_hpm_armed := ltac:(solve_setter).
#[export] Instance set_mhpmeventh : Setter h_mhpmeventh := ltac:(solve_setter).
#[export] Instance set_split_req : Setter h_split_req := ltac:(solve_setter).
#[export] Instance set_split_at : Setter h_split_at := ltac:(solve_setter).
#[export] Instance set_split_valid : Setter h_split_valid := ltac:(solve_setter).
#[export] Instance set_pt_armed : Setter h_pt_armed := ltac:(solve_setter).
#[export] Instance set_rom_armed : Setter h_rom_armed := ltac:(solve_setter).
#[export] Instance set_rom_reads : Setter h_rom_reads := ltac:(solve_setter).
#[export] Instance set_mega_regions : Setter h_mega_regions := ltac:(solve_setter).
#[export] Instance set_dtlb : Setter h_dtlb := ltac:(solve_setter).
#[export] Instance set_itlb : Setter h_itlb := ltac:(solve_setter).
#[export] Instance set_dtlb_fills : Setter h_dtlb_fills := ltac:(solve_setter).
#[export] Instance set_dtlb_flushes : Setter h_dtlb_flushes := ltac:(solve_setter).
#[export] Instance set_itlb_fills : Setter h_itlb_fills := ltac:(solve_setter).
#[export] Instance set_insn_retired_lo : Setter h_insn_retired_lo := ltac:(solve_setter).

(** [memset(h, 0, sizeof( *h))]. *)
Definition zero_hart : rv_hart := Hart
  (fun _ => 0) 0 0 0 0 0 0 0 0 0 0 0 0 (fun _ => 0) 0 0 0 0 0 0 0 0 0 0 0 0 0 false 0 0
  (fun _ => Tlb 0 0 0 false) 0 (fun _ => 0) (fun _ => 0) false (fun _ => 0) (fun _ => 0) false
  false 0 false false false false 0 0 0 0 (fun _ => 0) (fun _ => 0) 0 (fun _ => 0) 0 0 false false
  false 0 (fun _ => 0) (fun _ _ => Dtlb 0 0 0 0) (fun _ _ => Dtlb 0 0 0 0) 0 0 0 0.

(** ** The guards both access paths test *)

Definition rv_hart_refresh_fetch_guard (h : rv_hart) : rv_hart :=
  let g := h_trig_active h || h_pmp_active h || h_vm_active h in
  let d := h_pmp_active h || h_pmp_any h || h_vm_active h in
  h <| h_fetch_guard := g |> <| h_data_guard := d |>.

(** The privilege a load or store is checked at. *)
Definition rv_hart_data_priv (h : rv_hart) : Z :=
  if has (h_mstatus h) MSTATUS_MPRV
  then Z.shiftr (h_mstatus h &! MSTATUS_MPP_MASK) MSTATUS_MPP_SHIFT
  else h_priv h.
