(* ===== verification/RvBus.v ===== *)
(** * What a hart asks of the bus

    The hart reaches memory through [emu_bus_read], [emu_bus_write],
    [emu_bus_fetch16] and [emu_bus_find], and through host pointers the data
    TLB keeps.  [PhysBus] is that interface over any machine state, and
    [PhysBusLaws] what the hart relies on: every access is the reference one
    on a region table, a heap of host buffers and a world of devices.  The bus
    of [Bus.v], little-endian, is an instance. *)

From stdpp Require Import base list gmap.
From Stdlib Require Import ZArith Lia.
From S2P Require Import Prelude Bus BusProps.

Open Scope Z_scope.
Open Scope u32_scope.

Class PhysBus (Ext M : Type) := {
  bus_read : M -> Z -> Z -> emu_fault * option Z * M;
  bus_write : M -> Z -> Z -> Z -> emu_fault * M;
  bus_fetch16 : M -> Z -> emu_fault * option Z * M;
  bus_find : M -> Z -> option (emu_region Ext) * M;
  host_read : M -> Z -> Z -> Z -> Z;
  host_write : M -> Z -> Z -> Z -> Z -> M
}.

(** Table, heap and world. *)
Record phys (Ext : Type) := Phys { p_regions : list (emu_region Ext); p_heap : heap; p_ext : Ext }.
Arguments Phys {Ext}.
Arguments p_regions {Ext}.
Arguments p_heap {Ext}.
Arguments p_ext {Ext}.

Class PhysBusLaws {Ext M : Type} (PB : PhysBus Ext M)
    (pt_read : Ext -> Z -> Z -> Z * Ext) (pt_write : Ext -> Z -> Z -> Z -> Ext) := {
  bus_ok : M -> Prop;
  abs : M -> phys Ext;
  law_table : forall m, bus_ok m -> table_ok (p_regions (abs m));
  law_read : forall m a sz f v m', bus_ok m -> is_u32 a -> access_size sz -> bus_read m a sz = (f, v, m') ->
    bus_ok m' /\ p_regions (abs m') = p_regions (abs m) /\
    spec_read pt_read false (p_regions (abs m)) (p_heap (abs m)) (p_ext (abs m)) a sz
      = (f, v, p_heap (abs m'), p_ext (abs m'));
  law_write : forall m a sz w f m', bus_ok m -> is_u32 a -> access_size sz -> bus_write m a sz w = (f, m') ->
    bus_ok m' /\ p_regions (abs m') = p_regions (abs m) /\
    spec_write pt_write false (p_regions (abs m)) (p_heap (abs m)) (p_ext (abs m)) a sz w
      = (f, None, p_heap (abs m'), p_ext (abs m'));
  law_fetch16 : forall m a f v m', bus_ok m -> is_u32 a -> bus_fetch16 m a = (f, v, m') ->
    bus_ok m' /\ p_regions (abs m') = p_regions (abs m) /\
    spec_fetch16 pt_read false (p_regions (abs m)) (p_heap (abs m)) (p_ext (abs m)) a
      = (f, v, p_heap (abs m'), p_ext (abs m'));
  law_find : forall m a r m', bus_ok m -> is_u32 a -> bus_find m a = (r, m') ->
    r = lookup_region (p_regions (abs m)) a /\ bus_ok m' /\ abs m' = abs m;
  law_host_read : forall m buf off sz, host_read m buf off sz = host_ld (p_heap (abs m) buf) off sz;
  law_host_write : forall m buf off sz v, bus_ok m ->
    bus_ok (host_write m buf off sz v) /\
    abs (host_write m buf off sz v)
      = Phys (p_regions (abs m)) (upd (p_heap (abs m)) buf (host_st (p_heap (abs m) buf) off sz v)) (p_ext (abs m))
}.

(** ** The emulator's bus *)

Section EmuBus.
Context {Ext : Type}.
Variable pt_read : Ext -> Z -> Z -> Z * Ext.
Variable pt_write : Ext -> Z -> Z -> Z -> Ext.

Record machine := Machine { m_bus : emu_bus Ext; m_heap : heap; m_ext : Ext }.

#[export] Instance emu_phys_bus : PhysBus Ext machine := {|
  bus_read m a sz := let r := emu_bus_read pt_read (m_bus m) (m_heap m) (m_ext m) a sz in
                     (a_fault r, a_out r, Machine (a_bus r) (a_heap r) (a_ext r));
  bus_write m a sz v := let r := emu_bus_write pt_write (m_bus m) (m_heap m) (m_ext m) a sz v in
                        (a_fault r, Machine (a_bus r) (a_heap r) (a_ext r));
  bus_fetch16 m a := let r := emu_bus_fetch16 pt_read (m_bus m) (m_heap m) (m_ext m) a in
                     (a_fault r, a_out r, Machine (a_bus r) (a_heap r) (a_ext r));
  bus_find m a := let '(r, b) := emu_bus_find (m_bus m) a in (r, Machine b (m_heap m) (m_ext m));
  host_read m buf off sz := host_ld (m_heap m buf) off sz;
  host_write m buf off sz v :=
    Machine (m_bus m) (upd (m_heap m) buf (host_st (m_heap m buf) off sz v)) (m_ext m)
|}.

Definition machine_phys (m : machine) : phys Ext := Phys (regions (m_bus m)) (m_heap m) (m_ext m).

(** A store's outcome has no value. *)
Lemma spec_write_value be rs h e a sz v : exists f h' e', spec_write (Ext := Ext) pt_write be rs h e a sz v = (f, None, h', e').
Proof.
  unfold spec_write. destruct (grant _ _ _ _) as [[r o]|]; [|eauto]. destruct (kind r); eauto.
  destruct (ops r); [|eauto]. destruct (dev_write _ _ _ _ _). eauto.
Qed.

#[export] Instance emu_phys_bus_laws : PhysBusLaws emu_phys_bus pt_read pt_write.
Proof.
  refine {| bus_ok := fun m => bus_wf (m_bus m) /\ big_endian (m_bus m) = false; abs := machine_phys |};
    cbn [bus_read bus_write bus_fetch16 bus_find host_read host_write emu_phys_bus machine_phys p_regions p_heap p_ext].
  - intros m [Hw _]. apply Hw.
  - intros m a sz f v m' [Hw Hle] Hu Hs [= <- <- <-].
    destruct (bus_read_ok pt_read (m_bus m) (m_heap m) (m_ext m) a sz Hw Hu Hs) as [Hv (K1 & K2 & K3)].
    rewrite Hle in *. cbn. auto.
  - intros m a sz w f m' [Hw Hle] Hu Hs [= <- <-].
    destruct (bus_write_ok pt_write (m_bus m) (m_heap m) (m_ext m) a sz w Hw Hu Hs) as [Hv (K1 & K2 & K3)].
    rewrite Hle in *. cbn. split; [auto|]. split; [assumption|]. rewrite <- Hv. unfold view.
    destruct (spec_write_value false (regions (m_bus m)) (m_heap m) (m_ext m) a sz w) as (f & h' & e' & E).
    rewrite <- Hv in E. unfold view in E. injection E as _ E _ _. rewrite E. reflexivity.
  - intros m a f v m' [Hw Hle] Hu [= <- <- <-].
    destruct (bus_fetch16_ok pt_read (m_bus m) (m_heap m) (m_ext m) a Hw Hu) as [Hv (K1 & K2 & K3)].
    rewrite Hle in *. cbn. auto.
  - intros m a r m' [Hw Hle] Hu E.
    destruct (bus_find_spec (m_bus m) a (wf_table _ Hw) Hu) as (b' & Ef & Hs). rewrite Ef in E. injection E as <- <-.
    split; [reflexivity|]. cbn. split; [split; [eapply same_map_wf; eauto|]|].
    + destruct Hs as (_ & Hb & _). congruence.
    + unfold machine_phys. cbn. destruct Hs as [Hr _]. rewrite Hr. reflexivity.
  - reflexivity.
  - intros m buf off sz v H. split; [exact H|reflexivity].
Defined.

End EmuBus.
Arguments Machine {Ext}.
Arguments m_bus {Ext}.
Arguments m_heap {Ext}.
Arguments m_ext {Ext}.

(** ** Reading without an effect

    [Some (Some v)]: plain memory holds [v] there; [Some None]: a load faults
    there; [None]: a device would have to be asked. *)

Section Peek.
Context {Ext : Type}.
Variable pt_read : Ext -> Z -> Z -> Z * Ext.

Definition peek (p : phys Ext) (a sz : Z) : option (option Z) :=
  match grant (p_regions p) a sz EMU_PERM_R with
  | None => Some None
  | Some (r, off) =>
      match kind r with
      | EMU_MEM_RAM | EMU_MEM_ROM => Some (Some (host_ld (p_heap p (host r)) off sz))
      | _ => None
      end
  end.

Lemma peek_read p a sz :
  match peek p a sz with
  | Some (Some v) => spec_read pt_read false (p_regions p) (p_heap p) (p_ext p) a sz
                     = (EMU_FAULT_NONE, Some v, p_heap p, p_ext p)
  | Some None => spec_read pt_read false (p_regions p) (p_heap p) (p_ext p) a sz
                 = (EMU_FAULT_LOAD, None, p_heap p, p_ext p)
  | None => True
  end.
Proof.
  unfold peek, spec_read. destruct (grant _ _ _ _) as [[r o]|]; [|reflexivity].
  destruct (kind r); try exact I; reflexivity.
Qed.

End Peek.
