(* ===== verification/RvPmp.v ===== *)
(** * Physical memory protection

    [src/frontend/rv32/rv_pmp.c]: which accesses the sixteen PMP entries
    permit, when the check may be skipped, what one entry's bounds say and
    what a whole page is granted.  The reference is byte by byte: the owner of
    a byte is the lowest entry that holds it, and an access is permitted when
    all its bytes have one owner and that owner permits it. *)

From stdpp Require Import base list gmap.
From Stdlib Require Import ZArith Lia FinFun.
From S2P Require Import Prelude Bus RvHart.

Open Scope Z_scope.
Open Scope u32_scope.

(** ** The code *)

Definition PMP_R : Z := 1.
Definition PMP_W : Z := 2.
Definition PMP_X : Z := 4.
Definition PMP_A : Z := 24.
Definition PMP_L : Z := 128.
Definition PMP_A_OFF : Z := 0.
Definition PMP_A_TOR : Z := 1.
Definition PMP_A_NA4 : Z := 2.
Definition PMP_A_NAPOT : Z := 3.

Definition RV_PMP_ENTRIES : Z := 16.
Definition RV_PAGE_SIZE : Z := 4096.

(** [for (i = 0; i < RV_PMP_ENTRIES; i++)] visits these. *)
Definition pmp_entries : list Z := map Z.of_nat (seq 0 (Z.to_nat RV_PMP_ENTRIES)).

Definition pmp_cfg (h : rv_hart) (i : Z) : Z := Z.shiftr (h_pmpcfg h (i / 4)) (i mod 4 * 8) &! 255.

Definition pmp_bytes (words : Z) : Z :=
  if Z.shiftl 1 30 <=? words then 4294967295 else u32 (Z.shiftl words 2).

Definition pmp_range (h : rv_hart) (i cfg : Z) : option (Z * Z) :=
  let a := Z.shiftr (cfg &! PMP_A) 3 in
  let addr := h_pmpaddr h i in
  if a =? PMP_A_TOR then
    let prev := if i =? 0 then 0 else h_pmpaddr h (i - 1) in
    if addr <=? prev then None else Some (pmp_bytes prev, pmp_bytes addr)
  else if a =? PMP_A_NA4 then Some (pmp_bytes addr, pmp_bytes (addr + 1))
  else if a =? PMP_A_NAPOT then
    let inv := not32 addr in
    let n := if inv =? 0 then 31 else ctz32 inv in
    let size := u64 (Z.shiftl 1 (n + 1)) in
    let base := Z.ldiff addr (size - 1) in
    Some (pmp_bytes base, pmp_bytes (u64 (base + size)))
  else None.

Definition rv_pmp_refresh (h : rv_hart) : rv_hart :=
  let any := existsb (fun i => has (pmp_cfg h i) PMP_A) pmp_entries in
  let active :=
    if negb (h_priv h =? RV_PRIV_M) || negb (rv_hart_data_priv h =? RV_PRIV_M) then true
    else existsb (fun i => has (pmp_cfg h i) PMP_L && has (pmp_cfg h i) PMP_A) pmp_entries in
  rv_hart_refresh_fetch_guard (h <| h_pmp_active := active |> <| h_pmp_any := any |>).

(** Whether a data access has to ask. *)
Definition rv_pmp_needed (h : rv_hart) (addr size : Z) : bool :=
  h_pmp_active h || (h_pmp_any h && (4 <? (addr &! 3) + size)).

Fixpoint pmp_simple_from (h : rv_hart) (idx : list Z) (found : option (Z * Z)) : option (Z * Z) :=
  match idx with
  | [] => found
  | i :: idx' =>
      match pmp_range h i (pmp_cfg h i) with
      | None => pmp_simple_from h idx' found
      | Some r => match found with Some _ => None | None => pmp_simple_from h idx' (Some r) end
      end
  end.
Definition rv_pmp_simple (h : rv_hart) : option (Z * Z) := pmp_simple_from h pmp_entries None.

(** The permission bit of an access. *)
Definition pmp_bit (acc : emu_access) : Z :=
  match acc with EMU_ACC_FETCH => PMP_X | EMU_ACC_LOAD => PMP_R | EMU_ACC_STORE => PMP_W end.

Fixpoint pmp_check_from (h : rv_hart) (idx : list Z) (addr last : Z) (acc : emu_access) (eff : Z) : bool :=
  match idx with
  | [] => eff =? RV_PRIV_M
  | i :: idx' =>
      let cfg := pmp_cfg h i in
      match pmp_range h i cfg with
      | None => pmp_check_from h idx' addr last acc eff
      | Some (lo, hi) =>
          if (last <? lo) || (hi <=? addr) then pmp_check_from h idx' addr last acc eff
          else if (addr <? lo) || (hi <=? last) then false
          else if negb (has cfg PMP_L) && (eff =? RV_PRIV_M) then true
          else has cfg (pmp_bit acc)
      end
  end.

(** Fetch is checked at the running privilege, data at MPRV's. *)
Definition acc_priv (h : rv_hart) (acc : emu_access) : Z :=
  match acc with EMU_ACC_FETCH => h_priv h | _ => rv_hart_data_priv h end.

Definition rv_pmp_check (h : rv_hart) (addr size : Z) (acc : emu_access) : bool :=
  let last := addr +! size -! 1 in
  pmp_check_from h pmp_entries addr last acc (acc_priv h acc).

(** Read, write, execute. *)
Fixpoint pmp_rights_from (h : rv_hart) (idx : list Z) (page last : Z) : bool * bool * bool :=
  match idx with
  | [] => (false, false, false)
  | i :: idx' =>
      let cfg := pmp_cfg h i in
      match pmp_range h i cfg with
      | None => pmp_rights_from h idx' page last
      | Some (lo, hi) =>
          if (last <? lo) || (hi <=? page) then pmp_rights_from h idx' page last
          else if (page <? lo) || (hi <=? last) then (false, false, false)
          else (has cfg PMP_R, has cfg PMP_W, has cfg PMP_X)
      end
  end.

Definition rv_pmp_page_rights (h : rv_hart) (page priv : Z) : bool * bool * bool :=
  let last := page +! (RV_PAGE_SIZE - 1) in
  if priv =? RV_PRIV_M then (false, false, false) else pmp_rights_from h pmp_entries page last.

(** ** The reference: regions of 34-bit byte addresses, owners of bytes *)

Definition pmp_entry (h : rv_hart) (i : Z) : option (Z * Z) :=
  let a := Z.shiftr (pmp_cfg h i &! PMP_A) 3 in
  let addr := h_pmpaddr h i in
  if a =? PMP_A_TOR then
    let prev := if i =? 0 then 0 else h_pmpaddr h (i - 1) in
    if addr <=? prev then None else Some (4 * prev, 4 * addr)
  else if a =? PMP_A_NA4 then Some (4 * addr, 4 * addr + 4)
  else if a =? PMP_A_NAPOT then
    let sz := 2 ^ (ctz32 (addr + 1) + 1) in
    let lo := addr / sz * sz in
    Some (4 * lo, 4 * (lo + sz))
  else None.

Definition in_entry (h : rv_hart) (b i : Z) : bool :=
  match pmp_entry h i with Some (lo, hi) => (lo <=? b) && (b <? hi) | None => false end.

Definition pmp_owner (h : rv_hart) (b : Z) : option Z := List.find (in_entry h b) pmp_entries.

Definition pmp_grants (h : rv_hart) (o : option Z) (acc : emu_access) (eff : Z) : bool :=
  match o with
  | None => eff =? RV_PRIV_M
  | Some i => (negb (has (pmp_cfg h i) PMP_L) && (eff =? RV_PRIV_M)) || has (pmp_cfg h i) (pmp_bit acc)
  end.

(** Every byte of the access, one owner, and it permits. *)
Definition pmp_permits (h : rv_hart) (addr size : Z) (acc : emu_access) (eff : Z) : Prop :=
  exists o, (forall b, addr <= b < addr + size -> pmp_owner h b = o) /\ pmp_grants h o acc eff = true.

(** ** Ranges are the entries, saturated *)

Definition pmpaddr_ok (h : rv_hart) : Prop := forall i, is_u32 (h_pmpaddr h i).

Definition sat (x : Z) : Z := Z.min x 4294967295.

Lemma pmp_bytes_sat w : 0 <= w -> pmp_bytes w = sat (4 * w).
Proof.
  intros Hw. unfold pmp_bytes, sat. change (Z.shiftl 1 30) with 1073741824.
  destruct (Z.leb_spec 1073741824 w); [lia|]. rewrite Z.shiftl_mul_pow2 by lia.
  rewrite u32_id by (unfold is_u32; lia). lia.
Qed.

Lemma ctz32_pos_div a : 0 < a -> exists k, a = (2 * k + 1) * 2 ^ ctz32 a /\ 0 <= k /\ 0 <= ctz32 a.
Proof.
  intros Ha. destruct a as [|p|p]; try lia. cbn [ctz32].
  destruct (ctz_pos_div p) as (k & E & Hk). eauto using ctz_pos_nonneg.
Qed.

(** An odd multiple of a power of two determines the power. *)
Lemma odd_pow2_le j k m n : 0 <= m -> (2 * j + 1) * 2 ^ m = (2 * k + 1) * 2 ^ n -> n <= m.
Proof.
  intros Hm E. destruct (Z.le_gt_cases n m) as [|Hlt]; [assumption|exfalso].
  replace n with (m + (n - m - 1) + 1) in E by lia. rewrite !Z.pow_add_r in E by lia.
  assert (E2 : 2 * j + 1 = 2 * ((2 * k + 1) * 2 ^ (n - m - 1))); [|lia].
  apply (Z.mul_reg_r _ _ (2 ^ m)); [lia|]. rewrite E. ring.
Qed.

Lemma odd_pow2_unique j k m n :
  0 <= m -> 0 <= n -> (2 * j + 1) * 2 ^ m = (2 * k + 1) * 2 ^ n -> m = n.
Proof.
  intros Hm Hn E. pose proof (odd_pow2_le j k m n Hm E). pose proof (odd_pow2_le k j n m Hn (eq_sym E)). lia.
Qed.

(** The ones at the bottom of [a] are the zeros at the bottom of [~a]. *)
Lemma ctz_not32 a : is_u32 a -> a <> 4294967295 -> ctz32 (not32 a) = ctz32 (a + 1) /\ ctz32 (a + 1) < 32.
Proof.
  intros Ha Hn. rewrite not32_sub by assumption. unfold is_u32 in Ha.
  destruct (ctz32_pos_div (2 ^ 32 - 1 - a)) as (j & Ej & Hj & Hcj); [lia|].
  destruct (ctz32_pos_div (a + 1)) as (k & Ek & Hk & Hck); [lia|].
  set (m := ctz32 (2 ^ 32 - 1 - a)) in *. set (n := ctz32 (a + 1)) in *.
  assert (Hn32 : n < 32).
  { destruct (Z.lt_ge_cases n 32); [assumption|exfalso]. pose proof (Z.pow_le_mono_r 2 32 n). nia. }
  assert (Hm32 : m < 32).
  { destruct (Z.lt_ge_cases m 32); [assumption|exfalso]. pose proof (Z.pow_le_mono_r 2 32 m). nia. }
  split; [|assumption].
  apply (odd_pow2_unique j (2 ^ (31 - n) - k - 1)); [assumption..|]. rewrite <- Ej.
  replace (2 * (2 ^ (31 - n) - k - 1) + 1) with (2 ^ (31 - n) * 2 ^ 1 - (2 * k + 1)) by lia.
  rewrite Z.mul_sub_distr_r, <- Ek, <- !Z.pow_add_r by lia. replace (31 - n + 1 + n) with 32 by lia. lia.
Qed.

Lemma napot_sat a : is_u32 a ->
  let n := if not32 a =? 0 then 31 else ctz32 (not32 a) in
  let size := u64 (Z.shiftl 1 (n + 1)) in
  let base := Z.ldiff a (size - 1) in
  let sz := 2 ^ (ctz32 (a + 1) + 1) in
  pmp_bytes base = sat (4 * (a / sz * sz)) /\ pmp_bytes (u64 (base + size)) = sat (4 * (a / sz * sz + sz)).
Proof.
  intros Ha. destruct (Z.eq_dec a 4294967295) as [->|Hn]; [vm_compute; split; reflexivity|].
  destruct (ctz_not32 a Ha Hn) as [E Hlt]. cbv zeta.
  rewrite E, (not32_sub a Ha). unfold is_u32 in Ha. rewrite (proj2 (Z.eqb_neq _ 0)) by lia.
  destruct (ctz32_pos_div (a + 1)) as (_ & _ & _ & Hc); [lia|]. set (n := ctz32 (a + 1)) in *.
  rewrite Z.shiftl_mul_pow2, Z.mul_1_l by lia.
  pose proof (Z.pow_le_mono_r 2 (n + 1) 32). pose proof (Z.pow_pos_nonneg 2 (n + 1)).
  assert (Es : u64 (2 ^ (n + 1)) = 2 ^ (n + 1)) by (apply Z.mod_small; lia). rewrite Es.
  replace (2 ^ (n + 1) - 1) with (Z.ones (n + 1)) by (rewrite Z.ones_equiv; lia).
  rewrite Z.ldiff_ones_r, Z.shiftl_mul_pow2, Z.shiftr_div_pow2 by lia.
  pose proof (Z.mul_div_le a (2 ^ (n + 1))). pose proof (Z.div_pos a (2 ^ (n + 1))).
  unfold u64. rewrite Z.mod_small by nia. split; apply pmp_bytes_sat; nia.
Qed.

Lemma pmp_range_sat h i :
  pmpaddr_ok h ->
  pmp_range h i (pmp_cfg h i)
  = match pmp_entry h i with Some (lo, hi) => Some (sat lo, sat hi) | None => None end.
Proof.
  intros Hok. pose proof (Hok i) as Ha. pose proof (Hok (i - 1)) as Hp. unfold is_u32 in Ha, Hp.
  unfold pmp_range, pmp_entry.
  destruct (_ =? PMP_A_TOR).
  { destruct (_ <=? _); [reflexivity|]. rewrite !pmp_bytes_sat by (try destruct (i =? 0); lia). reflexivity. }
  destruct (_ =? PMP_A_NA4).
  { rewrite !pmp_bytes_sat by lia. repeat f_equal; lia. }
  destruct (_ =? PMP_A_NAPOT); [|reflexivity].
  destruct (napot_sat (h_pmpaddr h i) (Hok i)) as [E1 E2]. cbv zeta in *. rewrite E1, E2. reflexivity.
Qed.

(** ** The check is the reference *)

Lemma in_entry_spec h b i lo hi : pmp_entry h i = Some (lo, hi) -> in_entry h b i = true <-> lo <= b < hi.
Proof. intros E. unfold in_entry. rewrite E, andb_true_iff, Z.leb_le, Z.ltb_lt. reflexivity. Qed.

Lemma pmp_entry_nonempty h i lo hi : pmpaddr_ok h -> pmp_entry h i = Some (lo, hi) -> lo < hi.
Proof.
  intros Hok. pose proof (Hok i) as Ha. unfold is_u32 in Ha. unfold pmp_entry.
  destruct (_ =? PMP_A_TOR); [destruct (Z.leb_spec (h_pmpaddr h i) (if i =? 0 then 0 else h_pmpaddr h (i - 1))); intros [= <- <-]; lia|].
  destruct (_ =? PMP_A_NA4); [intros [= <- <-]; lia|]. destruct (_ =? PMP_A_NAPOT); [|discriminate].
  intros [= <- <-]. destruct (ctz32_pos_div (h_pmpaddr h i + 1)) as (_ & _ & _ & Hc); [lia|].
  pose proof (Z.pow_pos_nonneg 2 (ctz32 (h_pmpaddr h i + 1) + 1)). lia.
Qed.

Lemma find_skip {A} (p : A -> bool) x l : p x = false -> List.find p (x :: l) = List.find p l.
Proof. intros E. cbn. rewrite E. reflexivity. Qed.

Lemma find_hit {A} (p : A -> bool) x l : p x = true -> List.find p (x :: l) = Some x.
Proof. intros E. cbn. rewrite E. reflexivity. Qed.

Lemma find_not_in {A} (p : A -> bool) x l : ~ In x l -> List.find p l <> Some x.
Proof. intros Hn E. apply List.find_some in E as [Hi _]. contradiction. Qed.

Lemma grants_some h i acc eff :
  (if negb (has (pmp_cfg h i) PMP_L) && (eff =? RV_PRIV_M) then true else has (pmp_cfg h i) (pmp_bit acc))
  = pmp_grants h (Some i) acc eff.
Proof. cbn [pmp_grants]. destruct (_ && _); reflexivity. Qed.

Lemma pmp_check_owner h addr last acc eff :
  pmpaddr_ok h -> addr <= last -> last < 4294967295 ->
  forall idx, List.NoDup idx ->
  pmp_check_from h idx addr last acc eff = true <->
  exists o, (forall b, addr <= b <= last -> List.find (in_entry h b) idx = o) /\ pmp_grants h o acc eff = true.
Proof.
  intros Hok Hle Hlast. induction idx as [|i idx IH]; intros Hnd.
  { cbn. split; [intros E; exists None; auto|intros (o & Ho & Hg)].
    specialize (Ho addr ltac:(lia)). subst o. exact Hg. }
  inversion Hnd as [|? ? Hni Hnd']; subst. specialize (IH Hnd').
  cbn [pmp_check_from]. rewrite pmp_range_sat by assumption. destruct (pmp_entry h i) as [[lo hi]|] eqn:Ee.
  - pose proof (pmp_entry_nonempty _ _ _ _ Hok Ee) as Hne.
    destruct ((last <? sat lo) || (sat hi <=? addr)) eqn:Eout.
    + assert (Hout : forall b, addr <= b <= last -> in_entry h b i = false).
      { intros b Hb. apply not_true_is_false. rewrite (in_entry_spec _ _ _ _ _ Ee).
        apply orb_true_iff in Eout as [E|E]; [apply Z.ltb_lt in E|apply Z.leb_le in E]; unfold sat in E; lia. }
      rewrite IH. split; intros (o & Ho & Hg); exists o; (split; [|exact Hg]); intros b Hb;
        specialize (Ho b Hb); rewrite find_skip in *; auto.
    + apply orb_false_iff in Eout as [E1 E2]. apply Z.ltb_ge in E1; unfold sat in E1. apply Z.leb_gt in E2; unfold sat in E2.
      assert (Hin : forall b, lo <= b < hi -> List.find (in_entry h b) (i :: idx) = Some i).
      { intros b Hb. apply find_hit, (in_entry_spec _ _ _ _ _ Ee). exact Hb. }
      assert (Hnot : forall b, ~ (lo <= b < hi) -> List.find (in_entry h b) (i :: idx) <> Some i).
      { intros b Hb. rewrite find_skip; [apply find_not_in; assumption|].
        apply not_true_is_false. rewrite (in_entry_spec _ _ _ _ _ Ee). exact Hb. }
      destruct ((addr <? sat lo) || (sat hi <=? last)) eqn:Ein.
      * split; [discriminate|]. intros (o & Ho & _). exfalso.
        assert (Eo : o = Some i) by (rewrite <- (Ho (Z.max addr lo)) by lia; apply Hin; lia). subst o.
        apply orb_true_iff in Ein as [E|E].
        -- apply Z.ltb_lt in E; unfold sat in E. apply (Hnot addr); [lia|apply Ho; lia].
        -- apply Z.leb_le in E; unfold sat in E. apply (Hnot last); [lia|apply Ho; lia].
      * apply orb_false_iff in Ein as [E3 E4]. apply Z.ltb_ge in E3; unfold sat in E3. apply Z.leb_gt in E4; unfold sat in E4.
        rewrite grants_some. split.
        -- intros Hg. exists (Some i). split; [|exact Hg]. intros b Hb. apply Hin. lia.
        -- intros (o & Ho & Hg). replace (Some i) with o; [exact Hg|].
           rewrite <- (Ho addr) by lia. apply Hin. lia.
  - rewrite IH. split; intros (o & Ho & Hg); exists o; (split; [|exact Hg]); intros b Hb;
      specialize (Ho b Hb); (rewrite find_skip in * by (unfold in_entry; rewrite Ee; reflexivity)); auto.
Qed.

Lemma pmp_entries_nodup : List.NoDup pmp_entries.
Proof. unfold pmp_entries. apply Finite.Injective_map_NoDup; [intros a b; apply Nat2Z.inj|apply seq_NoDup]. Qed.

Lemma access_last addr size :
  0 <= addr -> 0 < size -> addr + size <= 2 ^ 32 -> addr +! size -! 1 = addr + size - 1.
Proof. intros. rewrite u32_sub_l, u32_id; [reflexivity|unfold is_u32; lia]. Qed.

(** [C18] PMP as the privileged architecture has it: below the top byte of the
    address space, [rv_pmp_check] permits an access exactly when one and the
    same owner -- the lowest entry that holds a byte, or none -- decides every
    byte of it, and that owner permits the access at the privilege it is made
    at. *)
Theorem pmp_check_exact h addr size acc :
  pmpaddr_ok h -> 0 <= addr -> 0 < size -> addr + size < 2 ^ 32 ->
  rv_pmp_check h addr size acc = true <-> pmp_permits h addr size acc (acc_priv h acc).
Proof.
  intros Hok Ha Hs Hl. unfold rv_pmp_check, pmp_permits. rewrite access_last by lia.
  rewrite pmp_check_owner by (auto using pmp_entries_nodup; lia).
  split; intros (o & Ho & Hg); exists o; (split; [|exact Hg]); intros b Hb; apply Ho; lia.
Qed.

(** ** A page's rights *)

(** What is granted to a range is granted to its parts. *)
Lemma pmp_check_sub h a l a' l' acc eff : a <= a' -> a' <= l' -> l' <= l ->
  forall idx, pmp_check_from h idx a l acc eff = true -> pmp_check_from h idx a' l' acc eff = true.
Proof.
  intros H1 H2 H3. induction idx as [|i idx IH]; [auto|]. cbn [pmp_check_from].
  destruct (pmp_range _ _ _) as [[lo hi]|]; [|exact IH].
  destruct ((l <? lo) || (hi <=? a)) eqn:E1.
  - replace ((l' <? lo) || (hi <=? a')) with true; [exact IH|]. symmetry. apply orb_true_iff.
    apply orb_true_iff in E1 as [E|E]; [left; apply Z.ltb_lt in E; apply Z.ltb_lt|right; apply Z.leb_le in E; apply Z.leb_le]; lia.
  - destruct ((a <? lo) || (hi <=? l)) eqn:E2; [discriminate|]. bool_hyps.
    rewrite (proj2 (Z.ltb_ge l' lo)), (proj2 (Z.leb_gt hi a')), (proj2 (Z.ltb_ge a' lo)), (proj2 (Z.leb_gt hi l')) by lia.
    auto.
Qed.

Lemma pmp_rights_check h page last eff : (eff =? RV_PRIV_M) = false ->
  forall idx, pmp_rights_from h idx page last
    = (pmp_check_from h idx page last EMU_ACC_LOAD eff, pmp_check_from h idx page last EMU_ACC_STORE eff,
       pmp_check_from h idx page last EMU_ACC_FETCH eff).
Proof.
  intros He. induction idx as [|i idx IH]; cbn [pmp_rights_from pmp_check_from]; [rewrite He; reflexivity|].
  destruct (pmp_range _ _ _) as [[lo hi]|]; [|exact IH].
  destruct (_ || _); [exact IH|]. destruct (_ || _); [reflexivity|]. rewrite He, andb_false_r. reflexivity.
Qed.

Definition right_of (rights : bool * bool * bool) (acc : emu_access) : bool :=
  let '(r, w, x) := rights in
  match acc with EMU_ACC_LOAD => r | EMU_ACC_STORE => w | EMU_ACC_FETCH => x end.

Lemma page_rights_check h page acc : acc_priv h acc <> RV_PRIV_M ->
  right_of (rv_pmp_page_rights h page (acc_priv h acc)) acc
  = pmp_check_from h pmp_entries page (page +! 4095) acc (acc_priv h acc).
Proof.
  intros Hp. unfold rv_pmp_page_rights. change (RV_PAGE_SIZE - 1) with 4095.
  apply Z.eqb_neq in Hp. rewrite Hp, (pmp_rights_check _ _ _ _ Hp). destruct acc; reflexivity.
Qed.

Lemma page_rights_sub h page acc addr size :
  acc_priv h acc <> RV_PRIV_M -> 0 <= page -> page + 4096 <= 2 ^ 32 ->
  right_of (rv_pmp_page_rights h page (acc_priv h acc)) acc = true ->
  page <= addr -> 0 < size -> addr + size <= page + 4096 -> rv_pmp_check h addr size acc = true.
Proof.
  intros Hp H0 H1 Hr H2 H3 H4. rewrite page_rights_check in Hr by assumption.
  unfold rv_pmp_check. rewrite access_last by lia. rewrite u32_id in Hr by (unfold is_u32; lia).
  eapply pmp_check_sub; [..|exact Hr]; lia.
Qed.

(** What [rv_pmp_page_rights] grants below M-mode is exact: the page has
    the right if and only if every access of that kind that stays inside the
    page is permitted, whatever its size. *)
Theorem pmp_page_rights_exact h page acc :
  acc_priv h acc <> RV_PRIV_M -> 0 <= page -> page + 4096 <= 2 ^ 32 ->
  right_of (rv_pmp_page_rights h page (acc_priv h acc)) acc = true <->
  forall addr size, page <= addr -> 0 < size -> addr + size <= page + 4096 ->
    rv_pmp_check h addr size acc = true.
Proof.
  intros Hp H0 H1. split; [eauto using page_rights_sub|]. intros H.
  rewrite page_rights_check by assumption. specialize (H page 4096 ltac:(lia) ltac:(lia) ltac:(lia)).
  unfold rv_pmp_check in H. rewrite access_last in H by lia. rewrite u32_id by (unfold is_u32; lia).
  replace (page + 4095) with (page + 4096 - 1) by lia. exact H.
Qed.

(** ** When the check may be skipped *)

Lemma pmp_entry_aligned h i lo hi : pmp_entry h i = Some (lo, hi) -> lo mod 4 = 0 /\ hi mod 4 = 0.
Proof.
  unfold pmp_entry. cbv zeta. intros E.
  assert (exists p q, lo = 4 * p /\ hi = 4 * q) as (p & q & -> & ->).
  { repeat match type of E with (if ?c then _ else _) = _ => destruct c end; try discriminate;
      injection E as <- <-; eexists _, _; split; try reflexivity.
    instantiate (1 := h_pmpaddr h i + 1). lia. }
  rewrite !(Z.mul_comm 4), !Z.mod_mul by lia. auto.
Qed.

Lemma pmp_entry_enabled h i r : pmp_entry h i = Some r -> has (pmp_cfg h i) PMP_A = true.
Proof.
  unfold pmp_entry, has. intros E. destruct (Z.eqb_spec (pmp_cfg h i &! PMP_A) 0) as [E0|]; [|reflexivity].
  rewrite E0 in E. discriminate.
Qed.

(** What [rv_pmp_refresh] leaves behind. *)
Record pmp_flags_ok (h : rv_hart) : Prop := {
  flag_active : h_pmp_active h = false ->
    h_priv h = RV_PRIV_M /\ rv_hart_data_priv h = RV_PRIV_M /\
    (forall i, In i pmp_entries -> has (pmp_cfg h i) PMP_A = true -> has (pmp_cfg h i) PMP_L = false);
  flag_any : h_pmp_any h = false -> forall i, In i pmp_entries -> has (pmp_cfg h i) PMP_A = false
}.

Lemma existsb_none {A} (p : A -> bool) l : existsb p l = false -> forall x, In x l -> p x = false.
Proof.
  intros E x Hx. apply not_true_is_false. intros Hp.
  assert (existsb p l = true) by (apply existsb_exists; eauto). congruence.
Qed.

Lemma pmp_refresh_flags h : pmp_flags_ok (rv_pmp_refresh h).
Proof.
  split.
  - change (h_pmp_active (rv_pmp_refresh h)) with
      (if negb (h_priv h =? RV_PRIV_M) || negb (rv_hart_data_priv h =? RV_PRIV_M) then true
       else existsb (fun i => has (pmp_cfg h i) PMP_L && has (pmp_cfg h i) PMP_A) pmp_entries).
    destruct (_ || _) eqn:E; [discriminate|]. intros Hx. bool_hyps. split; [assumption|]. split; [assumption|].
    intros i Hi HA. pose proof (existsb_none _ _ Hx i Hi) as Hl. cbv beta in Hl.
    change (has (pmp_cfg h i) PMP_A = true) in HA. rewrite HA, andb_true_r in Hl. exact Hl.
  - intros Hx i Hi. exact (existsb_none _ _ Hx i Hi).
Qed.

Lemma acc_priv_M h acc : h_priv h = RV_PRIV_M -> rv_hart_data_priv h = RV_PRIV_M -> acc_priv h acc = RV_PRIV_M.
Proof. destruct acc; auto. Qed.

Lemma land3_mod a : Z.land a 3 = a mod 4.
Proof. change 3 with (Z.ones 2). rewrite Z.land_ones by lia. reflexivity. Qed.

(** An access inside one four-byte granule is inside an entry or outside it. *)
Lemma granule_in_or_out lo hi a l :
  lo mod 4 = 0 -> hi mod 4 = 0 -> 0 <= a <= l -> a mod 4 + (l - a) < 4 -> lo <= l -> a < hi -> lo <= a /\ l < hi.
Proof.
  intros Hlo Hhi Ha Hg H1 H2.
  pose proof (Z.div_mod lo 4). pose proof (Z.div_mod hi 4). pose proof (Z.div_mod a 4). pose proof (Z.mod_pos_bound a 4). lia.
Qed.

Lemma pmp_check_skipped h addr size acc : pmpaddr_ok h -> pmp_flags_ok h ->
  0 <= addr -> 0 < size -> addr + size < 2 ^ 32 -> rv_pmp_needed h addr size = false ->
  rv_pmp_check h addr size acc = true.
Proof.
  intros Hok [Fa Fn] Ha Hs Hl Hn. unfold rv_pmp_needed in Hn. apply orb_false_iff in Hn as [Hact Hn].
  destruct (Fa Hact) as (Hp & Hd & Hlock). unfold rv_pmp_check. rewrite (acc_priv_M h acc Hp Hd), access_last by lia.
  assert (Hsub : incl pmp_entries pmp_entries) by (intros x Hx; exact Hx).
  revert Hsub. generalize pmp_entries at 1 3. intros idx. induction idx as [|i idx IH]; intros Hsub; [reflexivity|].
  assert (Hi : In i pmp_entries) by (apply Hsub; left; reflexivity).
  assert (Hrec := IH (fun y Hy => Hsub y (or_intror Hy))).
  cbn [pmp_check_from]. rewrite pmp_range_sat by assumption. destruct (pmp_entry h i) as [[lo hi]|] eqn:Ee; [|exact Hrec].
  destruct ((_ <? _) || _) eqn:Eo; [exact Hrec|]. pose proof (pmp_entry_enabled _ _ _ Ee) as Hen.
  rewrite (Hlock i Hi Hen). cbn [negb andb].
  apply andb_false_iff in Hn as [Hn|Hn]; [rewrite (Fn Hn i Hi) in Hen; discriminate|].
  apply Z.ltb_ge in Hn. rewrite land3_mod in Hn. destruct (pmp_entry_aligned _ _ _ _ Ee) as [M1 M2].
  bool_hyps. unfold sat in *.
  destruct (granule_in_or_out lo hi addr (addr + size - 1)) as [G1 G2]; try lia.
  rewrite (proj2 (Z.ltb_ge _ _)), (proj2 (Z.leb_gt _ _)) by lia. reflexivity.
Qed.

(** Skipping is sound: after [rv_pmp_refresh], an access that
    [rv_pmp_needed] does not send to the check would have been permitted by
    it, at whatever privilege it is made and whatever its kind. *)
Theorem pmp_skip_sound h0 addr size acc :
  let h := rv_pmp_refresh h0 in
  pmpaddr_ok h0 -> 0 <= addr -> 0 < size -> addr + size < 2 ^ 32 -> rv_pmp_needed h addr size = false ->
  rv_pmp_check h addr size acc = true.
Proof. intros h Hok. apply pmp_check_skipped; [exact Hok|apply pmp_refresh_flags]. Qed.

Lemma pmp_simple_found h idx r : forall r',
  pmp_simple_from h idx (Some r) = Some r' -> r' = r /\ forall i, In i idx -> pmp_range h i (pmp_cfg h i) = None.
Proof.
  induction idx as [|i idx IH]; intros r' E; cbn [pmp_simple_from] in E; [injection E as <-; split; [reflexivity|contradiction]|].
  destruct (pmp_range h i (pmp_cfg h i)) eqn:Er; [discriminate|]. destruct (IH _ E) as [-> Hn].
  split; [reflexivity|]. intros j [<-|Hj]; auto.
Qed.

Lemma pmp_check_none h addr last acc eff : forall idx,
  (forall i, In i idx -> pmp_range h i (pmp_cfg h i) = None) ->
  pmp_check_from h idx addr last acc eff = (eff =? RV_PRIV_M).
Proof.
  induction idx as [|i idx IH]; intros H; [reflexivity|]. cbn [pmp_check_from].
  rewrite H by (left; reflexivity). apply IH. intros j Hj. apply H. right. exact Hj.
Qed.

Lemma pmp_check_simple h lo hi addr last acc eff : forall idx,
  pmp_simple_from h idx None = Some (lo, hi) -> last < lo \/ hi <= addr ->
  pmp_check_from h idx addr last acc eff = (eff =? RV_PRIV_M).
Proof.
  induction idx as [|i idx IH]; intros E Ho; cbn [pmp_simple_from] in E; [discriminate|]. cbn [pmp_check_from].
  destruct (pmp_range h i (pmp_cfg h i)) as [[l u]|]; [|auto].
  destruct (pmp_simple_found _ _ _ _ E) as [[= <- <-] Hn].
  replace ((last <? lo) || (hi <=? addr)) with true; [apply pmp_check_none; exact Hn|].
  symmetry. apply orb_true_iff. rewrite Z.ltb_lt, Z.leb_le. exact Ho.
Qed.

(** The contract of [rv_pmp_simple]: when it reports one entry's bounds,
    every M-mode access that stays clear of them is permitted. *)
Theorem pmp_simple_sound h lo hi addr size acc :
  rv_pmp_simple h = Some (lo, hi) -> acc_priv h acc = RV_PRIV_M ->
  0 <= addr -> 0 < size -> addr + size <= 2 ^ 32 -> addr + size <= lo \/ hi <= addr ->
  rv_pmp_check h addr size acc = true.
Proof.
  intros E Hp Ha Hs Hl Ho. unfold rv_pmp_check. rewrite access_last by lia.
  rewrite (pmp_check_simple h lo hi); [rewrite Hp; reflexivity|exact E|lia].
Qed.
