(* ===== verification/RvTrig.v ===== *)
(** * Debug triggers

    [src/frontend/rv32/rv_trig.c]: two address watchpoints of type mcontrol.
    The flag [trig_active] keeps the checks off the access path; it may only
    be clear while no trigger can fire, and a trigger must not fire inside the
    handler of its own breakpoint. *)

From stdpp Require Import base list gmap.
From Stdlib Require Import ZArith Lia.
From S2P Require Import Prelude Bus RvHart RvPmp.

Open Scope Z_scope.
Open Scope u32_scope.

Definition MC_TYPE_SHIFT : Z := 28.
Definition MC_TYPE_MCONTROL : Z := 2.
Definition MC_M : Z := 64.
Definition MC_S : Z := 16.
Definition MC_U : Z := 8.
Definition MC_EXECUTE : Z := 4.
Definition MC_STORE : Z := 2.
Definition MC_LOAD : Z := 1.
Definition MC_WMASK : Z := MC_M |! MC_S |! MC_U |! MC_EXECUTE |! MC_STORE |! MC_LOAD.
Definition RV_TRIG_COUNT : Z := 2.

Definition triggers : list Z := map Z.of_nat (seq 0 (Z.to_nat RV_TRIG_COUNT)).

(** Mcontrol, enabled in some mode, watching something. *)
Definition trig_armed (d : Z) : bool :=
  (Z.shiftr d MC_TYPE_SHIFT =? MC_TYPE_MCONTROL) && has d (MC_M |! MC_S |! MC_U)
  && has d (MC_EXECUTE |! MC_STORE |! MC_LOAD).

Definition rv_trig_refresh (h : rv_hart) : rv_hart :=
  rv_hart_refresh_fetch_guard (h <| h_trig_active := existsb (fun i => trig_armed (h_tdata1 h i)) triggers |>).

Definition rv_trig_write_tdata1 (h : rv_hart) (val : Z) : rv_hart :=
  let i := h_tselect h in
  if RV_TRIG_COUNT <=? i then h
  else
    let type := Z.shiftr val MC_TYPE_SHIFT in
    let d := if type =? MC_TYPE_MCONTROL then (MC_TYPE_MCONTROL <<! MC_TYPE_SHIFT) |! (val &! MC_WMASK) else 0 in
    rv_trig_refresh (h <| h_tdata1 := upd (h_tdata1 h) i d |>).

Definition mode_bit (priv : Z) : Z :=
  if priv =? RV_PRIV_M then MC_M else if priv =? RV_PRIV_S then MC_S else MC_U.

Definition may_match (h : rv_hart) : bool :=
  if h_priv h =? RV_PRIV_M then has (h_mstatus h) MSTATUS_MIE
  else if h_priv h =? RV_PRIV_S then
    (Z.shiftr (h_medeleg h) RV_EXC_BREAKPOINT &! 1 =? 0) || has (h_mstatus h) MSTATUS_SIE
  else true.

Definition trig_want (acc : emu_access) : Z :=
  match acc with EMU_ACC_FETCH => MC_EXECUTE | EMU_ACC_LOAD => MC_LOAD | EMU_ACC_STORE => MC_STORE end.

Definition trig_matches (h : rv_hart) (addr : Z) (acc : emu_access) (i : Z) : bool :=
  let d := h_tdata1 h i in
  (Z.shiftr d MC_TYPE_SHIFT =? MC_TYPE_MCONTROL) && has d (mode_bit (h_priv h)) && has d (trig_want acc)
  && (h_tdata2 h i =? addr).

Definition rv_trig_check (h : rv_hart) (addr : Z) (acc : emu_access) : bool :=
  may_match h && existsb (trig_matches h addr acc) triggers.

(** ** Skipping the check *)

Lemma has_sub d k k' : Z.land k k' = k -> has d k = true -> has d k' = true.
Proof.
  unfold has. intros Hk H. apply negb_true_iff, Z.eqb_neq in H. apply negb_true_iff, Z.eqb_neq. intros E. apply H.
  rewrite <- Hk, (Z.land_comm k k'), Z.land_assoc, E. reflexivity.
Qed.

Lemma trig_matches_armed h addr acc i : trig_matches h addr acc i = true -> trig_armed (h_tdata1 h i) = true.
Proof.
  unfold trig_matches, trig_armed. intros H. apply andb_true_iff in H as [H _].
  apply andb_true_iff in H as [H H3]. apply andb_true_iff in H as [H1 H2]. rewrite H1. cbn [andb].
  apply andb_true_iff. split.
  - revert H2. apply has_sub. unfold mode_bit. destruct (h_priv h =? RV_PRIV_M); [reflexivity|]. destruct (h_priv h =? RV_PRIV_S); reflexivity.
  - revert H3. apply has_sub. destruct acc; reflexivity.
Qed.

Definition trig_flag_ok (h : rv_hart) : Prop :=
  h_trig_active h = false -> forall i, In i triggers -> trig_armed (h_tdata1 h i) = false.

Lemma trig_check_inactive h addr acc : trig_flag_ok h -> h_trig_active h = false -> rv_trig_check h addr acc = false.
Proof.
  intros Hf Ha. unfold rv_trig_check. apply andb_false_iff. right. apply not_true_is_false. intros H.
  apply existsb_exists in H as (i & Hi & Hm). pose proof (trig_matches_armed _ _ _ _ Hm). rewrite (Hf Ha i Hi) in H. discriminate.
Qed.

Lemma trig_refresh_flag h : trig_flag_ok (rv_trig_refresh h).
Proof. intros Ha i Hi. exact (existsb_none (fun j => trig_armed (h_tdata1 h j)) triggers Ha i Hi). Qed.

(** A trap into M-mode, and one into S-mode for a delegated breakpoint, clears
    the enable the rule looks at. *)
Lemma trig_check_masked h addr acc :
  (h_priv h = RV_PRIV_M /\ has (h_mstatus h) MSTATUS_MIE = false) \/
  (h_priv h = RV_PRIV_S /\ has (h_mstatus h) MSTATUS_SIE = false /\ Z.testbit (h_medeleg h) RV_EXC_BREAKPOINT = true) ->
  rv_trig_check h addr acc = false.
Proof.
  unfold rv_trig_check, may_match. intros [[-> ->]|(-> & -> & Hd)]; [reflexivity|].
  change (RV_PRIV_S =? RV_PRIV_M) with false. change (RV_PRIV_S =? RV_PRIV_S) with true. cbv iota.
  change (Z.shiftr (h_medeleg h) RV_EXC_BREAKPOINT &! 1) with (Z.land (Z.shiftr (h_medeleg h) RV_EXC_BREAKPOINT) (Z.ones 1)).
  rewrite Z.land_ones, <- Z.bit0_mod, Z.shiftr_spec by lia. change (0 + RV_EXC_BREAKPOINT) with RV_EXC_BREAKPOINT.
  rewrite Hd. reflexivity.
Qed.

(** The trigger flag may be trusted: after a write of [tdata1] (or any
    refresh), a clear [trig_active] means no access in any mode can match, so
    the fetch and access paths may skip the check; and what was written reads
    back as mcontrol with only the implemented bits, or as zero. *)
Theorem trig_write_sound h val addr acc :
  0 <= h_tselect h < RV_TRIG_COUNT -> is_u32 val ->
  let h' := rv_trig_write_tdata1 h val in
  (h_trig_active h' = false -> rv_trig_check h' addr acc = false) /\
  (forall i, h_tdata1 h' i = if i =? h_tselect h
                             then (if Z.shiftr val 28 =? 2 then 536870912 + (val &! 95) else 0) else h_tdata1 h i).
Proof.
  intros Hs Hv h'. unfold h', rv_trig_write_tdata1. rewrite (proj2 (Z.leb_gt _ _)) by apply Hs. split.
  - apply trig_check_inactive, trig_refresh_flag.
  - intros i. cbn [h_tdata1 rv_trig_refresh rv_hart_refresh_fetch_guard set_field set_tdata1 set_trig_active set_fetch_guard set_data_guard].
    unfold upd. destruct (i =? h_tselect h); [|reflexivity]. change MC_TYPE_SHIFT with 28. change MC_TYPE_MCONTROL with 2.
    destruct (_ =? 2); [|reflexivity]. change MC_WMASK with 95. change (2 <<! 28) with 536870912.
    rewrite <- Z.lxor_lor, <- Z.add_nocarry_lxor; try reflexivity;
      apply Z.bits_inj'; intros j Hj; rewrite !Z.land_spec, Z.bits_0; change 536870912 with (2 ^ 29);
      rewrite Z.pow2_bits_eqb by lia; destruct (Z.eqb_spec 29 j) as [<-|]; cbn; rewrite ?andb_false_r; reflexivity.
Qed.
