(* ===== verification/RvMmu.v ===== *)
(** * Sv32 address translation

    [src/frontend/rv32/rv_mmu.c]: the two-level walk, the direct-mapped TLB in
    front of it, what the fences discard, and what a leaf lets the host-address
    tables of [rv_dtlb.c] cache.  The build is the one without a JIT, so a page
    fence has no translated blocks to retire. *)

From stdpp Require Import base list gmap.
From Stdlib Require Import ZArith Lia.
From S2P Require Import Prelude Bus BusProps RvHart RvBus RvPmp.

Open Scope Z_scope.
Open Scope u32_scope.

Definition PTE_V : Z := 1.
Definition PTE_R : Z := 2.
Definition PTE_W : Z := 4.
Definition PTE_X : Z := 8.
Definition PTE_U : Z := 16.
Definition PTE_G : Z := 32.
Definition PTE_A : Z := 64.
Definition PTE_D : Z := 128.
Definition PPN_MASK : Z := 1048575.
Definition PTE_PPN_PAST_BUS : Z := 3221225472.
Definition PAGE_SHIFT : Z := 12.
Definition PAGE_SIZE : Z := 4096.
Definition RV_TLB_ENTRIES : Z := 32.
Definition EMU_DTLB_PAGE_SHIFT : Z := 12.
Definition EMU_DTLB_NONE : Z := 4294967295.
Definition RV_DTLB_TABLES : Z := 2.

(** What a build chooses: whether misaligned accesses are split, and the size
    of the host-address tables (a power of two). *)
Class RvConfig := { RV_MISALIGNED_OK : bool; RV_DTLB_ENTRIES : Z }.

Section Mmu.
Context `{Cfg : RvConfig} {Ext M : Type} `{PB : PhysBus Ext M}.

Definition fault_for (acc : emu_access) : Z :=
  match acc with
  | EMU_ACC_FETCH => RV_EXC_INSN_PAGE_FAULT
  | EMU_ACC_LOAD => RV_EXC_LOAD_PAGE_FAULT
  | EMU_ACC_STORE => RV_EXC_STORE_PAGE_FAULT
  end.

Definition access_fault_for (acc : emu_access) : Z :=
  match acc with
  | EMU_ACC_FETCH => RV_EXC_INSN_ACCESS_FAULT
  | EMU_ACC_LOAD => RV_EXC_LOAD_ACCESS_FAULT
  | EMU_ACC_STORE => RV_EXC_STORE_ACCESS_FAULT
  end.

(** ** The host-address tables: emptying them *)

(** [memset] to 0xFF: no page number equals either tag. *)
Definition no_dtlb : emu_dtlb_entry := Dtlb EMU_DTLB_NONE EMU_DTLB_NONE 0 (-1).

Definition rv_dtlb_table (priv : Z) : Z := if (RV_DTLB_TABLES =? 1) || (priv =? RV_PRIV_U) then 0 else 1.
Definition dtlb_slot (vpn : Z) : Z := vpn &! (RV_DTLB_ENTRIES - 1).
Definition dtlb_vpn (va : Z) : Z := Z.shiftr va EMU_DTLB_PAGE_SHIFT.

Definition rv_dtlb_flush (h : rv_hart) : rv_hart :=
  h <| h_dtlb := fun _ _ => no_dtlb |> <| h_itlb := fun _ _ => no_dtlb |>
    <| h_dtlb_flushes := h_dtlb_flushes h +! 1 |>.

Definition drop_page (vpn : Z) (e : emu_dtlb_entry) : emu_dtlb_entry :=
  if (d_read e =? vpn) || (d_write e =? vpn) then Dtlb EMU_DTLB_NONE EMU_DTLB_NONE (d_buf e) (d_addend e) else e.

(** Both tables of each kind, one slot. *)
Definition drop_slot (vpn slot : Z) (tab : Z -> Z -> emu_dtlb_entry) : Z -> Z -> emu_dtlb_entry :=
  fun t s => if (0 <=? t) && (t <? RV_DTLB_TABLES) && (s =? slot) then drop_page vpn (tab t s) else tab t s.

Definition rv_dtlb_flush_page (h : rv_hart) (va : Z) : rv_hart :=
  let vpn := dtlb_vpn va in
  let slot := dtlb_slot vpn in
  h <| h_dtlb := drop_slot vpn slot (h_dtlb h) |> <| h_itlb := drop_slot vpn slot (h_itlb h) |>.

(** ** The TLB *)

Definition tlb_slot (vpn : Z) : Z := vpn &! (RV_TLB_ENTRIES - 1).

Definition invalid (e : tlb_entry) : tlb_entry := Tlb (t_vpn e) (t_ppn e) (t_pte e) false.

Definition rv_mmu_flush_tlb (h : rv_hart) : rv_hart :=
  rv_dtlb_flush (h <| h_tlb := fun i => if (0 <=? i) && (i <? RV_TLB_ENTRIES) then invalid (h_tlb h i) else h_tlb h i |>).

Definition rv_mmu_flush (h : rv_hart) : rv_hart :=
  let h := rv_mmu_flush_tlb h in
  h <| h_mega_regions := fun _ => 0 |> <| h_vm_gen := h_vm_gen h +! 1 |>.

Definition rv_mmu_refresh (h : rv_hart) : rv_hart :=
  let paging := has (h_satp h) SATP_MODE_SV32 in
  let active := paging && (negb (h_priv h =? RV_PRIV_M) || negb (rv_hart_data_priv h =? RV_PRIV_M)) in
  rv_hart_refresh_fetch_guard (h <| h_vm_active := active |>).

Definition mega_bit (h : rv_hart) (vpn1 : Z) : bool :=
  has (h_mega_regions h (Z.shiftr vpn1 5)) (1 <<! (vpn1 &! 31)).

Definition mark_mega (h : rv_hart) (vpn1 : Z) : rv_hart :=
  h <| h_mega_regions := upd (h_mega_regions h) (Z.shiftr vpn1 5)
                           (h_mega_regions h (Z.shiftr vpn1 5) |! (1 <<! (vpn1 &! 31))) |>.

Definition rv_mmu_flush_page (h : rv_hart) (vaddr : Z) : rv_hart :=
  let vpn := Z.shiftr vaddr 12 in
  let slot := tlb_slot vpn in
  let vpn1 := Z.shiftr vaddr 22 in
  if mega_bit h vpn1 then rv_mmu_flush h
  else
    let e := h_tlb h slot in
    let h := if t_valid e && (t_vpn e =? vpn) then h <| h_tlb := upd (h_tlb h) slot (invalid e) |> else h in
    rv_dtlb_flush_page h vaddr.

(** ** Permissions of a leaf *)

Definition leaf_permits (h : rv_hart) (pte : Z) (acc : emu_access) (priv : Z) : bool :=
  let user_ok :=
    if priv =? RV_PRIV_U then has pte PTE_U
    else negb (has pte PTE_U && (bool_decide (acc = EMU_ACC_FETCH) || negb (has (h_mstatus h) MSTATUS_SUM))) in
  let kind_ok :=
    match acc with
    | EMU_ACC_FETCH => has pte PTE_X
    | EMU_ACC_LOAD => has pte PTE_R || (has (h_mstatus h) MSTATUS_MXR && has pte PTE_X)
    | EMU_ACC_STORE => has pte PTE_W
    end in
  user_ok && kind_ok && has pte PTE_A && negb (bool_decide (acc = EMU_ACC_STORE) && negb (has pte PTE_D)).

(** What the host-address tables may keep: [None], or whether stores too. *)
Definition rv_mmu_dtlb_rights (h : rv_hart) (va priv : Z) : option bool :=
  let vpn := Z.shiftr va PAGE_SHIFT in
  let e := h_tlb h (tlb_slot vpn) in
  if negb (t_valid e) || negb (t_vpn e =? vpn) then None
  else
    let pte := t_pte e in
    if negb (Bool.eqb (has pte PTE_U) (priv =? RV_PRIV_U)) then None
    else if negb (pte &! (PTE_R |! PTE_A) =? PTE_R |! PTE_A) then None
    else Some (pte &! (PTE_W |! PTE_D) =? PTE_W |! PTE_D).

Definition rv_mmu_itlb_rights (h : rv_hart) (va priv : Z) : bool :=
  let vpn := Z.shiftr va PAGE_SHIFT in
  let e := h_tlb h (tlb_slot vpn) in
  if negb (t_valid e) || negb (t_vpn e =? vpn) then false
  else
    let pte := t_pte e in
    if negb (Bool.eqb (has pte PTE_U) (priv =? RV_PRIV_U)) then false
    else pte &! (PTE_X |! PTE_A) =? PTE_X |! PTE_A.

(** ** The walk *)

Definition read_pte (h : rv_hart) (m : M) (pa : Z) (acc : emu_access) : Z * Z * M :=
  if h_pmp_active h && negb (rv_pmp_check h pa 4 EMU_ACC_LOAD) then (access_fault_for acc, 0, m)
  else
    let '(f, v, m') := bus_read m pa 4 in
    match f, v with
    | EMU_FAULT_NONE, Some v => (RV_EXC_NONE, v, m')
    | _, _ => (access_fault_for acc, 0, m')
    end.

Definition pte_page (pte : Z) : Z := (Z.shiftr pte 10 &! PPN_MASK) <<! PAGE_SHIFT.

(** The loop over [level], from 1 down; [table] is where the level's table is.
    The address is meaningful when the exception is [RV_EXC_NONE]. *)
Fixpoint mmu_walk (level : nat) (h : rv_hart) (m : M) (va : Z) (acc : emu_access) (priv table : Z)
    : Z * Z * rv_hart * M :=
  let idx := Z.shiftr va (PAGE_SHIFT + 10 * Z.of_nat level) &! 1023 in
  let '(exc, pte, m) := read_pte h m (table +! idx *! 4) acc in
  if negb (exc =? RV_EXC_NONE) then (exc, 0, h, m)
  else if negb (has pte PTE_V) || (has pte PTE_W && negb (has pte PTE_R)) then (fault_for acc, 0, h, m)
  else if pte &! (PTE_R |! PTE_X) =? 0 then
    match level with
    | O => (fault_for acc, 0, h, m)
    | S level' =>
        if has pte (PTE_D |! PTE_A |! PTE_U) then (fault_for acc, 0, h, m)
        else if has pte PTE_PPN_PAST_BUS then (access_fault_for acc, 0, h, m)
        else mmu_walk level' h m va acc priv (pte_page pte)
    end
  else
    let base := pte_page pte in
    if (level =? 1)%nat && has base 4194303 then (fault_for acc, 0, h, m)
    else
      let base := if (level =? 1)%nat then base |! (va &! 4190208) else base in
      if negb (leaf_permits h pte acc priv) then (fault_for acc, 0, h, m)
      else if has pte PTE_PPN_PAST_BUS then (access_fault_for acc, 0, h, m)
      else
        let vpn := Z.shiftr va PAGE_SHIFT in
        let h := if (level =? 1)%nat then mark_mega h (Z.shiftr va 22) else h in
        let h := h <| h_tlb := upd (h_tlb h) (tlb_slot vpn) (Tlb vpn base (pte &! 255) true) |> in
        (RV_EXC_NONE, base |! (va &! (PAGE_SIZE - 1)), h, m).

Definition rv_mmu_translate (h : rv_hart) (m : M) (va : Z) (acc : emu_access) : Z * Z * rv_hart * M :=
  let priv := acc_priv h acc in
  if priv =? RV_PRIV_M then (RV_EXC_NONE, va, h, m)
  else
    let vpn := Z.shiftr va PAGE_SHIFT in
    let off := va &! (PAGE_SIZE - 1) in
    let e := h_tlb h (tlb_slot vpn) in
    if t_valid e && (t_vpn e =? vpn) && leaf_permits h (t_pte e) acc priv
    then (RV_EXC_NONE, t_ppn e |! off, h, m)
    else mmu_walk 1 h m va acc priv ((h_satp h &! PPN_MASK) <<! PAGE_SHIFT).

End Mmu.
