(* ===== verification/RvWalk.v ===== *)
(** * Translation is the page tables'

    [walk_spec] reads the page tables and nothing else; [spec_translate] adds
    the permissions of the access.  [tlb_ok] is what a TLB entry promises: its
    page walks to the leaf it was filled from.  With that, translating through
    the TLB is translating by the walk. *)

From stdpp Require Import base list gmap.
From Stdlib Require Import ZArith Lia.
From S2P Require Import Prelude Bus BusProps RvHart RvBus RvPmp RvMmu.

Open Scope Z_scope.
Open Scope u32_scope.

(** ** Masks *)

Lemma has_lor x y k : has (x |! y) k = has x k || has y k.
Proof.
  unfold has. rewrite Z.land_lor_distr_l.
  destruct (Z.eqb_spec (Z.land x k) 0) as [E|E]; [rewrite E, Z.lor_0_l; reflexivity|]. cbn.
  apply negb_true_iff, Z.eqb_neq. intros H. apply Z.lor_eq_0_iff in H. tauto.
Qed.

Lemma has_low pte k : Z.land 255 k = k -> has (pte &! 255) k = has pte k.
Proof. intros E. unfold has. rewrite <- Z.land_assoc, E. reflexivity. Qed.

Lemma land_low pte k : Z.land 255 k = k -> pte &! 255 &! k = pte &! k.
Proof. intros E. rewrite <- Z.land_assoc, E. reflexivity. Qed.

(** ** The walk, purely *)

Inductive walked := WPage | WAccess | WLeaf (level : nat) (pte : Z).

Fixpoint walk_spec (rd : Z -> option (option Z)) (level : nat) (va table : Z) : option walked :=
  let idx := Z.shiftr va (PAGE_SHIFT + 10 * Z.of_nat level) &! 1023 in
  match rd (table +! idx *! 4) with
  | None => None
  | Some None => Some WAccess
  | Some (Some pte) =>
      if negb (has pte PTE_V) || (has pte PTE_W && negb (has pte PTE_R)) then Some WPage
      else if pte &! (PTE_R |! PTE_X) =? 0 then
        match level with
        | O => Some WPage
        | S level' =>
            if has pte (PTE_D |! PTE_A |! PTE_U) then Some WPage
            else if has pte PTE_PPN_PAST_BUS then Some WAccess
            else walk_spec rd level' va (pte_page pte)
        end
      else if (level =? 1)%nat && has (pte_page pte) 4194303 then Some WPage
      else Some (WLeaf level pte)
  end.

Definition leaf_base (level : nat) (pte va : Z) : Z :=
  if (level =? 1)%nat then pte_page pte |! (va &! 4190208) else pte_page pte.

Definition root (h : rv_hart) : Z := (h_satp h &! PPN_MASK) <<! PAGE_SHIFT.

(** A page-table read, made at S-mode as far as PMP is concerned. *)
Definition pte_rd {Ext} (h : rv_hart) (p : phys Ext) (a : Z) : option (option Z) :=
  if pmp_check_from h pmp_entries a (a +! 4 -! 1) EMU_ACC_LOAD RV_PRIV_S then peek p a 4 else Some None.

Definition walk {Ext} (h : rv_hart) (p : phys Ext) (va : Z) : option walked := walk_spec (pte_rd h p) 1 va (root h).

(** Exception and address; [None] when a page table is in a device. *)
Definition spec_translate {Ext} (h : rv_hart) (p : phys Ext) (va : Z) (acc : emu_access) : option (Z * Z) :=
  let priv := acc_priv h acc in
  if priv =? RV_PRIV_M then Some (RV_EXC_NONE, va)
  else
    match walk h p va with
    | None => None
    | Some WPage => Some (fault_for acc, 0)
    | Some WAccess => Some (access_fault_for acc, 0)
    | Some (WLeaf level pte) =>
        if negb (leaf_permits h pte acc priv) then Some (fault_for acc, 0)
        else if has pte PTE_PPN_PAST_BUS then Some (access_fault_for acc, 0)
        else Some (RV_EXC_NONE, leaf_base level pte va |! (va &! (PAGE_SIZE - 1)))
    end.

(** A walk looks at the page number only. *)
Definition page_of (va : Z) : Z := Z.shiftl (Z.shiftr va PAGE_SHIFT) PAGE_SHIFT.

Lemma page_of_shiftr va k : 12 <= k -> Z.shiftr (page_of va) k = Z.shiftr va k.
Proof.
  intros Hk. unfold page_of, PAGE_SHIFT. replace k with (12 + (k - 12)) by lia.
  rewrite <- !Z.shiftr_shiftr, Z.shiftr_shiftl_l, Z.sub_diag, Z.shiftl_0_r by lia. reflexivity.
Qed.

Lemma walk_spec_page rd va : forall level table, walk_spec rd level (page_of va) table = walk_spec rd level va table.
Proof.
  induction level as [|level IH]; intros table; cbn [walk_spec];
    rewrite page_of_shiftr by (unfold PAGE_SHIFT; lia); [reflexivity|].
  destruct (rd _) as [[pte|]|]; [|reflexivity..]. rewrite IH. reflexivity.
Qed.

Lemma walk_page {Ext} h (p : phys Ext) va : walk h p (page_of va) = walk h p va.
Proof. unfold walk. apply walk_spec_page. Qed.

Lemma page_of_land va k : Z.land 4095 k = 0 -> 0 <= k -> Z.land (page_of va) k = Z.land va k.
Proof.
  intros Hk H0. apply Z.bits_inj'. intros i Hi. rewrite !Z.land_spec. unfold page_of, PAGE_SHIFT.
  destruct (Z.lt_ge_cases i 12) as [Hl|Hg].
  - assert (E : Z.testbit (Z.land 4095 k) i = false) by (rewrite Hk; apply Z.bits_0).
    rewrite Z.land_spec in E. change 4095 with (Z.ones 12) in E. rewrite Z.ones_spec_low in E by lia.
    cbn in E. rewrite E, !andb_false_r. reflexivity.
  - rewrite Z.shiftl_spec, Z.shiftr_spec by lia. replace (i - 12 + 12) with i by lia. reflexivity.
Qed.

Lemma leaf_base_page level pte va : leaf_base level pte (page_of va) = leaf_base level pte va.
Proof. unfold leaf_base. rewrite page_of_land by (reflexivity || lia). reflexivity. Qed.

(** ** Privileges *)

(** MPRV is M-mode's: returning below M clears it. *)
Definition mprv_ok (h : rv_hart) : Prop := h_priv h <> RV_PRIV_M -> has (h_mstatus h) MSTATUS_MPRV = false.

Lemma data_priv_below h acc : mprv_ok h -> acc_priv h acc <> RV_PRIV_M -> rv_hart_data_priv h <> RV_PRIV_M.
Proof.
  intros Hm Hp. destruct acc; try exact Hp. cbn in Hp. unfold rv_hart_data_priv. rewrite (Hm Hp). exact Hp.
Qed.

Lemma pmp_check_eff h addr last acc eff eff' : eff <> RV_PRIV_M -> eff' <> RV_PRIV_M ->
  forall idx, pmp_check_from h idx addr last acc eff = pmp_check_from h idx addr last acc eff'.
Proof.
  intros H1 H2. apply Z.eqb_neq in H1, H2. induction idx as [|i idx IH]; cbn [pmp_check_from]; [congruence|].
  rewrite H1, H2, !andb_false_r, IH. reflexivity.
Qed.

Lemma leaf_permits_low h pte acc priv : leaf_permits h (pte &! 255) acc priv = leaf_permits h pte acc priv.
Proof. unfold leaf_permits. rewrite !has_low by reflexivity. reflexivity. Qed.

(** ** What the TLB holds *)

Record tlb_entry_ok {Ext} (h : rv_hart) (p : phys Ext) (e : tlb_entry) (level : nat) (pte : Z) : Prop := {
  te_walk : walk h p (Z.shiftl (t_vpn e) PAGE_SHIFT) = Some (WLeaf level pte);
  te_bus : has pte PTE_PPN_PAST_BUS = false;
  te_ppn : t_ppn e = leaf_base level pte (Z.shiftl (t_vpn e) PAGE_SHIFT);
  te_pte : t_pte e = pte &! 255;
  te_mega : level = 1%nat -> mega_bit h (Z.shiftr (t_vpn e) 10) = true
}.

Definition tlb_ok {Ext} (h : rv_hart) (p : phys Ext) : Prop :=
  forall s, 0 <= s < RV_TLB_ENTRIES -> t_valid (h_tlb h s) = true ->
    tlb_slot (t_vpn (h_tlb h s)) = s /\ 0 <= t_vpn (h_tlb h s) < 2 ^ 20 /\
    exists level pte, tlb_entry_ok h p (h_tlb h s) level pte.

Lemma u32_vpn va : is_u32 va -> 0 <= Z.shiftr va PAGE_SHIFT < 2 ^ 20.
Proof.
  unfold is_u32, PAGE_SHIFT. intros H. rewrite Z.shiftr_div_pow2 by lia.
  split; [apply Z.div_pos; lia|apply Z.div_lt_upper_bound; lia].
Qed.

Lemma tlb_slot_range vpn : 0 <= tlb_slot vpn < RV_TLB_ENTRIES.
Proof.
  unfold tlb_slot. change (RV_TLB_ENTRIES - 1) with (Z.ones 5). rewrite Z.land_ones by lia.
  apply Z.mod_pos_bound. reflexivity.
Qed.

(** The hart a walk that found a leaf leaves behind. *)
Definition tlb_filled (h : rv_hart) (va : Z) (level : nat) (pte : Z) : rv_hart :=
  let h := if (level =? 1)%nat then mark_mega h (Z.shiftr va 22) else h in
  h <| h_tlb := upd (h_tlb h) (tlb_slot (Z.shiftr va PAGE_SHIFT))
         (Tlb (Z.shiftr va PAGE_SHIFT) (leaf_base level pte va) (pte &! 255) true) |>.

Lemma has_self_bit v : has (1 <<! (v &! 31)) (1 <<! (v &! 31)) = true.
Proof.
  unfold has. rewrite Z.land_diag. apply negb_true_iff, Z.eqb_neq.
  change 31 with (Z.ones 5). rewrite Z.land_ones, Z.shiftl_mul_pow2, Z.mul_1_l by (try apply Z.mod_pos_bound; lia).
  pose proof (Z.mod_pos_bound v (2 ^ 5) ltac:(lia)) as Hb. set (k := v mod 2 ^ 5) in *.
  pose proof (Z.pow_le_mono_r 2 k 31). pose proof (Z.pow_pos_nonneg 2 k). rewrite u32_id; unfold is_u32; lia.
Qed.

Lemma mark_mega_same h v : mega_bit (mark_mega h v) v = true.
Proof.
  unfold mega_bit, mark_mega. cbn [h_mega_regions set_field set_mega_regions].
  rewrite upd_eq, has_lor, has_self_bit. apply orb_true_r.
Qed.

Lemma mark_mega_mono h v w : mega_bit h w = true -> mega_bit (mark_mega h v) w = true.
Proof.
  unfold mega_bit, mark_mega. cbn [h_mega_regions set_field set_mega_regions]. intros H.
  destruct (Z.eq_dec (Z.shiftr w 5) (Z.shiftr v 5)) as [E|E].
  - rewrite E in *. rewrite upd_eq, has_lor, H. reflexivity.
  - rewrite upd_ne by assumption. exact H.
Qed.

Lemma mega_bit_ext h h' w : h_mega_regions h' = h_mega_regions h -> mega_bit h' w = mega_bit h w.
Proof. unfold mega_bit. intros ->. reflexivity. Qed.

Lemma tlb_filled_mega h va level pte w : mega_bit h w = true -> mega_bit (tlb_filled h va level pte) w = true.
Proof.
  unfold tlb_filled. destruct (level =? 1)%nat; intros H.
  - rewrite (mega_bit_ext (mark_mega h (Z.shiftr va 22))) by reflexivity. apply mark_mega_mono. exact H.
  - rewrite (mega_bit_ext h) by reflexivity. exact H.
Qed.

(** What a walk reads of the hart: satp and the PMP entries. *)
Definition same_tables (h h' : rv_hart) : Prop :=
  h_satp h' = h_satp h /\ h_pmpcfg h' = h_pmpcfg h /\ h_pmpaddr h' = h_pmpaddr h.

Lemma pmp_check_ext h h' idx a l acc eff : h_pmpcfg h' = h_pmpcfg h -> h_pmpaddr h' = h_pmpaddr h ->
  pmp_check_from h' idx a l acc eff = pmp_check_from h idx a l acc eff.
Proof.
  intros E1 E2. induction idx as [|i idx IH]; cbn [pmp_check_from]; [reflexivity|].
  unfold pmp_range, pmp_cfg. rewrite E1, E2, IH. reflexivity.
Qed.

Lemma walk_spec_ext rd rd' va : (forall a, rd' a = rd a) ->
  forall level table, walk_spec rd' level va table = walk_spec rd level va table.
Proof.
  intros E. induction level as [|level IH]; intros table; cbn [walk_spec]; rewrite E; [reflexivity|].
  destruct (rd _) as [[pte|]|]; [|reflexivity..]. rewrite IH. reflexivity.
Qed.

Lemma walk_ext {Ext} h h' (p : phys Ext) va : same_tables h h' -> walk h' p va = walk h p va.
Proof.
  intros (E1 & E2 & E3). unfold walk, root. rewrite E1. apply walk_spec_ext. intros a.
  unfold pte_rd. rewrite (pmp_check_ext h h') by assumption. reflexivity.
Qed.

Lemma tlb_filled_same h va level pte : same_tables h (tlb_filled h va level pte).
Proof. unfold tlb_filled. destruct (level =? 1)%nat; split; split; reflexivity. Qed.

Lemma walk_filled {Ext} h va level pte (p : phys Ext) a : walk (tlb_filled h va level pte) p a = walk h p a.
Proof. apply walk_ext, tlb_filled_same. Qed.

Lemma tlb_entry_filled {Ext} h (p : phys Ext) va level pte e l q :
  tlb_entry_ok h p e l q -> tlb_entry_ok (tlb_filled h va level pte) p e l q.
Proof.
  intros [H1 H2 H3 H4 H5]. split; auto using tlb_filled_mega. rewrite walk_filled. exact H1.
Qed.

Lemma tlb_ok_filled {Ext} h (p : phys Ext) va level pte :
  is_u32 va -> tlb_ok h p -> walk h p va = Some (WLeaf level pte) -> has pte PTE_PPN_PAST_BUS = false ->
  tlb_ok (tlb_filled h va level pte) p.
Proof.
  intros Hu Hok Hw Hb s Hrange. assert (Et : h_tlb (tlb_filled h va level pte)
    = upd (h_tlb h) (tlb_slot (Z.shiftr va PAGE_SHIFT)) (Tlb (Z.shiftr va PAGE_SHIFT) (leaf_base level pte va) (pte &! 255) true))
    by (unfold tlb_filled; destruct (level =? 1)%nat; reflexivity).
  rewrite Et. destruct (Z.eq_dec s (tlb_slot (Z.shiftr va PAGE_SHIFT))) as [->|Hne].
  - rewrite upd_eq. intros _. split; [reflexivity|]. split; [apply u32_vpn; exact Hu|]. exists level, pte. split; cbn [t_vpn t_ppn t_pte]; auto.
    + fold (page_of va). rewrite walk_filled, walk_page. exact Hw.
    + fold (page_of va). rewrite leaf_base_page. reflexivity.
    + intros ->. unfold PAGE_SHIFT. rewrite Z.shiftr_shiftr by lia. rewrite (mega_bit_ext (mark_mega h (Z.shiftr va 22))) by reflexivity. apply mark_mega_same.
  - rewrite upd_ne by assumption. intros Hv. destruct (Hok s Hrange Hv) as (Hs & Hn & l & q & He).
    split; [exact Hs|]. split; [exact Hn|]. exists l, q. apply tlb_entry_filled. exact He.
Qed.

(** ** Translating through the TLB *)

Section Translate.
Context `{Cfg : RvConfig} {Ext M : Type} {PB : PhysBus Ext M}.
Context {pt_read : Ext -> Z -> Z -> Z * Ext} {pt_write : Ext -> Z -> Z -> Z -> Ext}.
Context {PL : PhysBusLaws PB pt_read pt_write}.

Lemma phys_eq (p q : phys Ext) : p_regions p = p_regions q -> p_heap p = p_heap q -> p_ext p = p_ext q -> p = q.
Proof. destruct p, q. cbn. intros -> -> ->. reflexivity. Qed.

(** A read of plain memory. *)
Lemma bus_read_peek (m : M) a sz x :
  bus_ok m -> is_u32 a -> access_size sz -> peek (abs m) a sz = Some x ->
  exists m', bus_read m a sz = (match x with Some _ => EMU_FAULT_NONE | None => EMU_FAULT_LOAD end, x, m') /\
    bus_ok m' /\ abs m' = abs m.
Proof.
  intros Hm Hu Hs Hp. destruct (bus_read m a sz) as [[f v] m'] eqn:E.
  destruct (law_read m a sz f v m' Hm Hu Hs E) as (Hm' & Hr & Hsp).
  pose proof (peek_read pt_read (abs m) a sz) as Hk. rewrite Hp in Hk. exists m'.
  destruct x as [x|]; rewrite Hk in Hsp; injection Hsp as <- <- Hh He;
    (split; [reflexivity|]); (split; [exact Hm'|]); apply phys_eq; congruence.
Qed.

(** The hart is below M somewhere and its PMP flags are fresh. *)
Definition walker_ok (h : rv_hart) : Prop := rv_hart_data_priv h <> RV_PRIV_M /\ h_pmp_active h = true.

Lemma read_pte_spec h (m : M) a acc x :
  walker_ok h -> bus_ok m -> is_u32 a -> pte_rd h (abs m) a = Some x ->
  exists m', read_pte h m a acc = (match x with Some v => (RV_EXC_NONE, v, m') | None => (access_fault_for acc, 0, m') end) /\
    bus_ok m' /\ abs m' = abs m.
Proof.
  intros [Hd Ha] Hm Hu Hr. unfold read_pte, pte_rd, rv_pmp_check in *. rewrite Ha.
  change (acc_priv h EMU_ACC_LOAD) with (rv_hart_data_priv h).
  rewrite (pmp_check_eff h _ _ _ _ RV_PRIV_S Hd) by discriminate.
  destruct (pmp_check_from _ _ _ _ _ _); cbn [andb negb].
  - destruct (bus_read_peek m a 4 x Hm Hu ltac:(unfold access_size; auto) Hr) as (m' & E & Hm' & Ea).
    exists m'. rewrite E. destruct x; auto.
  - injection Hr as <-. eauto.
Qed.

Definition walk_result (h : rv_hart) (va : Z) (acc : emu_access) (priv : Z) (w : walked) : Z * Z * rv_hart :=
  match w with
  | WPage => (fault_for acc, 0, h)
  | WAccess => (access_fault_for acc, 0, h)
  | WLeaf level pte =>
      if negb (leaf_permits h pte acc priv) then (fault_for acc, 0, h)
      else if has pte PTE_PPN_PAST_BUS then (access_fault_for acc, 0, h)
      else (RV_EXC_NONE, leaf_base level pte va |! (va &! (PAGE_SIZE - 1)), tlb_filled h va level pte)
  end.

Lemma access_fault_not_none acc : (access_fault_for acc =? RV_EXC_NONE) = false.
Proof. destruct acc; reflexivity. Qed.

Lemma mmu_walk_spec h va acc priv w : walker_ok h ->
  forall level (m : M) table, bus_ok m -> walk_spec (pte_rd h (abs m)) level va table = Some w ->
  exists m', mmu_walk level h m va acc priv table = (walk_result h va acc priv w, m') /\ bus_ok m' /\ abs m' = abs m.
Proof.
  intros Hh. induction level as [|level IH]; intros m table Hm Hw; cbn [walk_spec mmu_walk] in *;
    set (a := table +! _ *! 4) in *; destruct (pte_rd h (abs m) a) as [x|] eqn:Er; try discriminate;
    destruct (read_pte_spec h m a acc x Hh Hm (u32_range _) Er) as (m1 & E1 & Hm1 & Ea1); rewrite E1;
    (destruct x as [pte|]; [rewrite Z.eqb_refl; cbn [negb]
                           |injection Hw as <-; rewrite access_fault_not_none; cbn [negb walk_result]; eauto]);
    (destruct (_ || _); [injection Hw as <-; cbn [walk_result]; eauto|]);
    destruct (pte &! (PTE_R |! PTE_X) =? 0).
  - injection Hw as <-. cbn [walk_result]. eauto.
  - injection Hw as <-. cbn [Nat.eqb andb walk_result leaf_base tlb_filled].
    destruct (negb _); [eauto|]. destruct (has _ _); eauto.
  - destruct (has _ _); [injection Hw as <-; cbn [walk_result]; eauto|].
    destruct (has _ _); [injection Hw as <-; cbn [walk_result]; eauto|].
    rewrite <- Ea1 in Hw. destruct (IH m1 _ Hm1 Hw) as (m2 & E2 & Hm2 & Ea2).
    exists m2. rewrite Ea2, Ea1. auto.
  - destruct (_ && _); [injection Hw as <-; cbn [walk_result]; eauto|]. injection Hw as <-.
    cbn [walk_result]. unfold leaf_base, tlb_filled.
    destruct (negb _); [eauto|]. destruct (has _ _); eauto.
Qed.

(** Everything the hart keeps for itself. *)
Record hart_ok (h : rv_hart) : Prop := {
  ok_mprv : mprv_ok h;
  ok_pmp : pmp_flags_ok h;
  ok_addr : pmpaddr_ok h
}.

Lemma walker_of_hart h acc : hart_ok h -> acc_priv h acc <> RV_PRIV_M -> walker_ok h.
Proof.
  intros [Hm Hp Hx] Ha. pose proof (data_priv_below h acc Hm Ha) as Hd. split; [exact Hd|].
  destruct (h_pmp_active h) eqn:E; [reflexivity|]. destruct (flag_active h Hp E) as (_ & H & _). contradiction.
Qed.

(** The hart but for the TLB and its megapage marks. *)
Definition same_but_tlb (h h' : rv_hart) : Prop :=
  h' = h \/ exists va level pte, h' = tlb_filled h va level pte.

Lemma translate_spec h (m : M) va acc e pa :
  hart_ok h -> bus_ok m -> is_u32 va -> tlb_ok h (abs m) -> spec_translate h (abs m) va acc = Some (e, pa) ->
  exists h' m', rv_mmu_translate h m va acc = (e, pa, h', m') /\
    bus_ok m' /\ abs m' = abs m /\ tlb_ok h' (abs m') /\ same_but_tlb h h'.
Proof.
  intros Hh Hm Hu Ht Hs. unfold spec_translate, rv_mmu_translate in *.
  destruct (Z.eqb_spec (acc_priv h acc) RV_PRIV_M) as [|Hp].
  { injection Hs as <- <-. exists h, m. unfold same_but_tlb. auto 10. }
  pose proof (walker_of_hart h acc Hh Hp) as Hw.
  destruct (walk h (abs m) va) as [w|] eqn:Ew; [|discriminate].
  set (en := h_tlb h (tlb_slot (Z.shiftr va PAGE_SHIFT))) in *.
  destruct (t_valid en && _ && _) eqn:Eh.
  - bool_hyps. destruct (Ht _ (tlb_slot_range _) ltac:(eassumption)) as (_ & _ & level & pte & [W1 W2 W3 W4 _]). fold en in W1, W3, W4.
    match goal with H : t_vpn en = _ |- _ => rewrite H in W1, W3 end.
    fold (page_of va) in W1, W3. rewrite walk_page, Ew in W1. injection W1 as ->.
    match goal with H : leaf_permits _ _ _ _ = true |- _ => rewrite W4, leaf_permits_low in H; rewrite H in Hs end.
    cbn [negb] in Hs. rewrite W2 in Hs. injection Hs as <- <-.
    exists h, m. rewrite W3, leaf_base_page. unfold same_but_tlb. auto 10.
  - fold (root h).
    assert (Hwk : walk_spec (pte_rd h (abs m)) 1 va (root h) = Some w) by (unfold walk in Ew; exact Ew).
    destruct (mmu_walk_spec h va acc (acc_priv h acc) w Hw 1 m (root h) Hm Hwk) as (m' & E & Hm' & Ea).
    rewrite E. unfold walk_result.
    destruct w as [| |level pte]; try (injection Hs as <- <-; exists h, m'; rewrite Ea; unfold same_but_tlb; auto 10).
    destruct (negb _); [injection Hs as <- <-; exists h, m'; rewrite Ea; unfold same_but_tlb; auto 10|].
    destruct (has pte _) eqn:Eb; injection Hs as <- <-; [exists h, m'; rewrite Ea; unfold same_but_tlb; auto 10|].
    exists (tlb_filled h va level pte), m'. rewrite Ea. unfold same_but_tlb.
    split; [reflexivity|]. split; [assumption|]. split; [reflexivity|]. split; [|eauto].
    apply tlb_ok_filled; assumption.
Qed.

(** [C22] Sv32 translation: when no page table of the walk is in a device,
    [rv_mmu_translate] -- TLB, walk, PMP on the tables, bus caches and all --
    answers what the page tables say now for this access and privilege, leaves
    memory alone, changes nothing of the hart but the TLB, and leaves every
    TLB entry true to the page tables. *)
Theorem mmu_translate_exact h (m : M) va acc e pa :
  hart_ok h -> bus_ok m -> is_u32 va -> tlb_ok h (abs m) -> spec_translate h (abs m) va acc = Some (e, pa) ->
  exists h' m', rv_mmu_translate h m va acc = (e, pa, h', m') /\
    bus_ok m' /\ abs m' = abs m /\ tlb_ok h' (abs m') /\ same_but_tlb h h'.
Proof. apply translate_spec. Qed.

End Translate.
