(* ===== verification/RvAccess.v ===== *)
(** * Loads and stores of a hart

    The host-address tables of [src/frontend/rv32/rv_dtlb.c] and the access
    paths of [src/frontend/rv32/rv_hart.c]: alignment, triggers, the guarded
    path (table probe, translation, PMP, bus, table fill), the split access
    and the doubleword.  Every function returns the exception, the value a
    load produces, the hart and the machine. *)

From stdpp Require Import base list gmap.
From Stdlib Require Import ZArith Lia.
From S2P Require Import Prelude Bus BusProps RvHart RvBus RvPmp RvTrig RvMmu.

Open Scope Z_scope.
Open Scope u32_scope.

Section Access.
Context `{Cfg : RvConfig} {Ext M : Type} `{PB : PhysBus Ext M}.

(** ** Filling the tables *)

(** Plain memory behind the whole page, with the widths and permission asked. *)
Definition page_memory (r : emu_region Ext) (page w pm : Z) : bool :=
  negb (host r =? 0) && (bool_decide (kind r = EMU_MEM_RAM) || bool_decide (kind r = EMU_MEM_ROM))
  && (page -! base r <=? size r) && (RV_PAGE_SIZE <=? size r -! (page -! base r))
  && (widths r &! w =? w) && has (perm r) pm.

Definition va_page (va : Z) : Z := Z.ldiff va (RV_PAGE_SIZE - 1).

Definition rv_dtlb_fill (h : rv_hart) (m : M) (va pa : Z) : rv_hart * M :=
  let priv := rv_hart_data_priv h in
  if priv =? RV_PRIV_M then (h, m)
  else
    let vpn := dtlb_vpn va in
    let t := rv_dtlb_table priv in
    let s := dtlb_slot vpn in
    let e := h_dtlb h t s in
    if d_read e =? vpn then (h, m)
    else
      match (if has (h_satp h) SATP_MODE_SV32 then rv_mmu_dtlb_rights h va priv else Some true) with
      | None => (h, m)
      | Some wr =>
          let page := va_page pa in
          let '(pr, pw, _) := rv_pmp_page_rights h page priv in
          let wr := wr && pw in
          if negb pr then (h, m)
          else
            let '(r, m) := bus_find m page in
            match r with
            | None => (h, m)
            | Some r =>
                if negb (page_memory r page EMU_WANY EMU_PERM_R) then (h, m)
                else
                  let wr := wr && bool_decide (kind r = EMU_MEM_RAM) && has (perm r) EMU_PERM_W in
                  let e := Dtlb vpn (if wr then vpn else EMU_DTLB_NONE) (host r) ((page -! base r) - va_page va) in
                  (h <| h_dtlb := upd (h_dtlb h) t (upd (h_dtlb h t) s e) |>
                     <| h_dtlb_fills := h_dtlb_fills h +! 1 |>, m)
            end
      end.

Definition rv_itlb_fill (h : rv_hart) (m : M) (va pa : Z) : rv_hart * M :=
  let priv := h_priv h in
  if priv =? RV_PRIV_M then (h, m)
  else
    let vpn := dtlb_vpn va in
    let t := rv_dtlb_table priv in
    let s := dtlb_slot vpn in
    let e := h_itlb h t s in
    if (d_read e =? vpn) || (d_write e =? vpn) then (h, m)
    else
      let refused := h <| h_itlb := upd (h_itlb h) t (upd (h_itlb h t) s (Dtlb EMU_DTLB_NONE vpn (d_buf e) (d_addend e))) |> in
      if has (h_satp h) SATP_MODE_SV32 && negb (rv_mmu_itlb_rights h va priv) then (refused, m)
      else
        let page := va_page pa in
        let '(_, _, px) := rv_pmp_page_rights h page priv in
        if negb px then (refused, m)
        else
          let '(r, m) := bus_find m page in
          match r with
          | None => (refused, m)
          | Some r =>
              if negb (page_memory r page EMU_W16 EMU_PERM_X) then (refused, m)
              else
                let e := Dtlb vpn EMU_DTLB_NONE 0 (page -! va_page va) in
                (h <| h_itlb := upd (h_itlb h) t (upd (h_itlb h t) s e) |>
                   <| h_itlb_fills := h_itlb_fills h +! 1 |>, m)
          end.

(** The physical address of a fetch, if the table vouches for its page. *)
Definition rv_itlb_lookup (h : rv_hart) (va : Z) : option Z :=
  if h_priv h =? RV_PRIV_M then None
  else
    let e := h_itlb h (rv_dtlb_table (h_priv h)) (dtlb_slot (dtlb_vpn va)) in
    if negb (d_read e =? dtlb_vpn va) then None else Some (va +! d_addend e).

Definition dtlb_probe (h : rv_hart) (va size : Z) (store : bool) : option emu_dtlb_entry :=
  let priv := rv_hart_data_priv h in
  let vpn := dtlb_vpn va in
  if (priv =? RV_PRIV_M) || has va (size - 1) then None
  else
    let e := h_dtlb h (rv_dtlb_table priv) (dtlb_slot vpn) in
    if (if store then d_write e else d_read e) =? vpn then Some e else None.

(** ** An access that is not one aligned transaction *)

(** One page's part: where the guest asked for it, where it is, how long. *)
Record part := Part { part_va : Z; part_pa : Z; part_len : Z }.

(** The parts of the access, before translation. *)
Definition wide_parts (h : rv_hart) (va size : Z) : list (Z * Z) :=
  if h_vm_active h then
    let room := 4096 - (va &! 4095) in
    if room <? size then [(va, room); (va +! room, size - room)] else [(va, size)]
  else [(va, size)].

(** The first loop: every part translated. *)
Fixpoint wide_translate (h : rv_hart) (m : M) (acc : emu_access) (ps : list (Z * Z))
    : (Z * Z + list part) * rv_hart * M :=
  match ps with
  | [] => (inr [], h, m)
  | (va, len) :: ps' =>
      let '(e, pa, h, m) := if h_vm_active h then rv_mmu_translate h m va acc else (RV_EXC_NONE, va, h, m) in
      if negb (e =? RV_EXC_NONE) then (inl (e, va), h, m)
      else
        let '(r, h, m) := wide_translate h m acc ps' in
        (match r with inl x => inl x | inr l => inr (Part va pa len :: l) end, h, m)
  end.

(** The second: PMP and the bus asked about each. *)
Fixpoint wide_check (h : rv_hart) (m : M) (acc : emu_access) (need : Z) (ps : list part) : option Z * M :=
  match ps with
  | [] => (None, m)
  | p :: ps' =>
      if rv_pmp_needed h (part_pa p) (part_len p) && negb (rv_pmp_check h (part_pa p) (part_len p) acc)
      then (Some (part_va p), m)
      else
        let '(r, m) := bus_find m (part_pa p) in
        match r with
        | None => (Some (part_va p), m)
        | Some r =>
            if negb (has (perm r) need) || (size r <? part_pa p -! base r +! part_len p) then (Some (part_va p), m)
            else wide_check h m acc need ps'
        end
  end.

(** The largest naturally aligned transaction that fits. *)
Definition wide_n (a off len : Z) : Z :=
  if (a &! 3 =? 0) && (off + 4 <=? len) then 4
  else if (a &! 1 =? 0) && (off + 2 <=? len) then 2 else 1.

Definition drop_resv (h : rv_hart) (a : Z) : rv_hart :=
  if h_resv_valid h && (Z.ldiff a 3 =? h_resv_addr h) then h <| h_resv_valid := false |> else h.

(** The third, one part: [fuel] bounds the transactions by the bytes left.
    Returns the fault and the bytes done before it, the value so far and the
    bytes done. *)
Fixpoint wide_run (fuel : nat) (h : rv_hart) (m : M) (store : bool) (pa len off v done : Z)
    : (emu_fault * Z + Z * Z) * rv_hart * M :=
  match fuel with
  | O => (inr (v, done), h, m)
  | S fuel' =>
      if off <? len then
        let a := pa +! off in
        let n := wide_n a off len in
        if store then
          let h := drop_resv h a in
          let '(f, m) := bus_write m a n (u32 (Z.shiftr v (done * 8))) in
          match f with
          | EMU_FAULT_NONE => wide_run fuel' h m store pa len (off + n) v (done + n)
          | _ => (inl (f, done), h, m)
          end
        else
          let '(f, w, m) := bus_read m a n in
          match f with
          | EMU_FAULT_NONE =>
              let w := match w with Some w => w | None => 0 end in
              wide_run fuel' h m store pa len (off + n) (v |! u64 (Z.shiftl w (done * 8))) (done + n)
          | _ => (inl (f, done), h, m)
          end
      else (inr (v, done), h, m)
  end.

Fixpoint wide_parts_run (h : rv_hart) (m : M) (store : bool) (ps : list part) (v done : Z)
    : (emu_fault * Z + Z * Z) * rv_hart * M :=
  match ps with
  | [] => (inr (v, done), h, m)
  | p :: ps' =>
      let '(r, h, m) := wide_run (Z.to_nat (part_len p)) h m store (part_pa p) (part_len p) 0 v done in
      match r with
      | inl x => (inl x, h, m)
      | inr (v, done) => wide_parts_run h m store ps' v done
      end
  end.

(** Exception, value, faulting address. *)
Definition mem_wide (h : rv_hart) (m : M) (va size : Z) (acc : emu_access) (val : Z) : Z * Z * Z * rv_hart * M :=
  let store := bool_decide (acc = EMU_ACC_STORE) in
  let refused := if store then RV_EXC_STORE_ACCESS_FAULT else RV_EXC_LOAD_ACCESS_FAULT in
  let need := if store then EMU_PERM_W else EMU_PERM_R in
  let '(r, h, m) := wide_translate h m acc (wide_parts h va size) in
  match r with
  | inl (e, at_) => (e, val, at_, h, m)
  | inr ps =>
      let '(bad, m) := wide_check h m acc need ps in
      match bad with
      | Some at_ => (refused, val, at_, h, m)
      | None =>
          let '(r, h, m) := wide_parts_run h m store ps (if store then val else 0) 0 in
          match r with
          | inl (f, done) => (rv_exc_from_fault f, val, va +! done, h, m)
          | inr (v, _) => (RV_EXC_NONE, if store then val else v, va, h, m)
          end
      end
  end.

(** ** Doublewords *)

Definition wide_trigger (h : rv_hart) (addr : Z) (acc : emu_access) : bool :=
  h_trig_active h && (rv_trig_check h addr acc || rv_trig_check h (addr +! 4) acc).

Definition rv_hart_load64 (h : rv_hart) (m : M) (addr : Z) : Z * Z * Z * rv_hart * M :=
  if negb RV_MISALIGNED_OK && has addr 7 then (RV_EXC_LOAD_MISALIGNED, 0, addr, h, m)
  else if wide_trigger h addr EMU_ACC_LOAD then (RV_EXC_BREAKPOINT, 0, addr, h, m)
  else mem_wide h m addr 8 EMU_ACC_LOAD 0.

Definition rv_hart_store64 (h : rv_hart) (m : M) (addr val : Z) : Z * Z * rv_hart * M :=
  if negb RV_MISALIGNED_OK && has addr 7 then (RV_EXC_STORE_MISALIGNED, addr, h, m)
  else if wide_trigger h addr EMU_ACC_STORE then (RV_EXC_BREAKPOINT, addr, h, m)
  else let '(e, _, tval, h, m) := mem_wide h m addr 8 EMU_ACC_STORE val in (e, tval, h, m).

(** ** An access across a page boundary *)

Definition split_access (h : rv_hart) (m : M) (va size : Z) (acc : emu_access) (val : Z) : Z * Z * rv_hart * M :=
  let '(e, v, at_, h, m) := mem_wide h m va size acc val in
  let h := if negb (e =? RV_EXC_NONE) && negb (at_ =? va)
           then h <| h_split_req := va |> <| h_split_at := at_ |> <| h_split_valid := true |> else h in
  (e, v, h, m).

Definition extend (sign : bool) (size v : Z) : Z :=
  if sign && (size <? 4) then u32 (sext (size * 8) v) else v.

Definition load_split (h : rv_hart) (m : M) (va size : Z) (sign : bool) : Z * option Z * rv_hart * M :=
  let '(e, wide, h, m) := split_access h m va size EMU_ACC_LOAD 0 in
  (e, if e =? RV_EXC_NONE then Some (extend sign size (u32 wide)) else None, h, m).

Definition store_split (h : rv_hart) (m : M) (va size val : Z) : Z * rv_hart * M :=
  let '(e, _, h, m) := split_access h m va size EMU_ACC_STORE val in (e, h, m).

Definition crosses_page (addr size : Z) : bool := 4096 <? (addr &! 4095) + size.

(** ** Loads *)

(** The bus, the fill and the value. *)
Definition load_bus (h : rv_hart) (m : M) (va addr size : Z) (sign : bool) : Z * option Z * rv_hart * M :=
  if rv_pmp_needed h addr size && negb (rv_pmp_check h addr size EMU_ACC_LOAD)
  then (RV_EXC_LOAD_ACCESS_FAULT, None, h, m)
  else
    let '(f, v, m) := bus_read m addr size in
    match f with
    | EMU_FAULT_NONE =>
        let '(h, m) := rv_dtlb_fill h m va addr in
        (RV_EXC_NONE, option_map (extend sign size) v, h, m)
    | _ => (rv_exc_from_fault f, None, h, m)
    end.

Definition load_guarded (h : rv_hart) (m : M) (va size : Z) (sign : bool) : Z * option Z * rv_hart * M :=
  match dtlb_probe h va size false with
  | Some e => (RV_EXC_NONE, Some (extend sign size (host_read m (d_buf e) (va + d_addend e) size)), h, m)
  | None =>
      if h_vm_active h then
        if RV_MISALIGNED_OK && crosses_page va size then load_split h m va size sign
        else
          let '(e, pa, h, m) := rv_mmu_translate h m va EMU_ACC_LOAD in
          if negb (e =? RV_EXC_NONE) then (e, None, h, m) else load_bus h m va pa size sign
      else load_bus h m va va size sign
  end.

Definition rv_hart_load (h : rv_hart) (m : M) (addr size : Z) (sign : bool) : Z * option Z * rv_hart * M :=
  if negb RV_MISALIGNED_OK && has addr (size - 1) then (RV_EXC_LOAD_MISALIGNED, None, h, m)
  else if h_trig_active h && rv_trig_check h addr EMU_ACC_LOAD then (RV_EXC_BREAKPOINT, None, h, m)
  else if h_data_guard h then load_guarded h m addr size sign
  else
    let '(f, v, m) := bus_read m addr size in
    match f with
    | EMU_FAULT_NONE => (RV_EXC_NONE, option_map (extend sign size) v, h, m)
    | _ => (rv_exc_from_fault f, None, h, m)
    end.

(** ** Stores *)

Definition store_bus (h : rv_hart) (m : M) (va addr size val : Z) : Z * rv_hart * M :=
  if rv_pmp_needed h addr size && negb (rv_pmp_check h addr size EMU_ACC_STORE)
  then (RV_EXC_STORE_ACCESS_FAULT, h, m)
  else
    let h := drop_resv h addr in
    let '(f, m) := bus_write m addr size val in
    match f with
    | EMU_FAULT_NONE => let '(h, m) := rv_dtlb_fill h m va addr in (RV_EXC_NONE, h, m)
    | _ => (rv_exc_from_fault f, h, m)
    end.

Definition store_guarded (h : rv_hart) (m : M) (va size val : Z) : Z * rv_hart * M :=
  match (if h_resv_valid h then None else dtlb_probe h va size true) with
  | Some e => (RV_EXC_NONE, h, host_write m (d_buf e) (va + d_addend e) size val)
  | None =>
      if h_vm_active h then
        if RV_MISALIGNED_OK && crosses_page va size then store_split h m va size val
        else
          let '(e, pa, h, m) := rv_mmu_translate h m va EMU_ACC_STORE in
          if negb (e =? RV_EXC_NONE) then (e, h, m) else store_bus h m va pa size val
      else store_bus h m va va size val
  end.

Definition rv_hart_store (h : rv_hart) (m : M) (addr size val : Z) : Z * rv_hart * M :=
  if negb RV_MISALIGNED_OK && has addr (size - 1) then (RV_EXC_STORE_MISALIGNED, h, m)
  else if h_trig_active h && rv_trig_check h addr EMU_ACC_STORE then (RV_EXC_BREAKPOINT, h, m)
  else if h_data_guard h then store_guarded h m addr size val
  else
    let h := drop_resv h addr in
    let '(f, m) := bus_write m addr size val in (rv_exc_from_fault f, h, m).

End Access.
