(* ===== verification/RvCoherent.v ===== *)
(** * What the host-address tables promise

    An entry of the data table says that every aligned access in its page is a
    plain host access, whatever SUM and MXR are; one of the fetch table that
    the page may be executed and where it is.  [caches_ok] is that promise for
    the TLB and both tables.  Hits are what the walk, PMP and the bus would
    answer; fills and fences keep the promise. *)

From stdpp Require Import base list gmap.
From Stdlib Require Import ZArith Lia.
From S2P Require Import Prelude Bus BusProps RvHart RvBus RvPmp RvTrig RvMmu RvWalk RvAccess.

Open Scope Z_scope.
Open Scope u32_scope.

(** ** Pages *)

Lemma land4095 a : Z.land a 4095 = a mod 4096.
Proof. change 4095 with (Z.ones 12). rewrite Z.land_ones by lia. reflexivity. Qed.

Lemma page_of_sub va : page_of va = va - va mod 4096.
Proof.
  unfold page_of, PAGE_SHIFT. rewrite Z.shiftl_mul_pow2, Z.shiftr_div_pow2 by lia.
  pose proof (Z.div_mod va 4096). change (2 ^ 12) with 4096. lia.
Qed.

Lemma va_page_of va : va_page va = page_of va.
Proof.
  unfold va_page, page_of, RV_PAGE_SIZE, PAGE_SHIFT. change (4096 - 1) with (Z.ones 12).
  rewrite Z.ldiff_ones_r by lia. reflexivity.
Qed.

Lemma vpn_range va : is_u32 va -> 0 <= dtlb_vpn va < 2 ^ 20.
Proof. exact (u32_vpn va). Qed.

Lemma lor_add a b : Z.land a b = 0 -> Z.lor a b = a + b.
Proof. intros H. rewrite Z.add_nocarry_lxor, Z.lxor_lor by exact H. reflexivity. Qed.

Lemma mod_pages a : a mod 4096 = 0 -> Z.land a 4095 = 0.
Proof. rewrite land4095. auto. Qed.

Lemma lor_page_off a b : a mod 4096 = 0 -> Z.lor a (Z.land b 4095) = a + b mod 4096.
Proof.
  intros H. rewrite lor_add, land4095; [reflexivity|].
  rewrite (Z.land_comm b), Z.land_assoc, mod_pages by assumption. apply Z.land_0_l.
Qed.

Lemma pte_page_shape pte : exists k, pte_page pte = k * 4096 /\ 0 <= k < 2 ^ 20.
Proof.
  unfold pte_page, PAGE_SHIFT, PPN_MASK. change 1048575 with (Z.ones 20). rewrite Z.land_ones by lia.
  exists (Z.shiftr pte 10 mod 2 ^ 20). pose proof (Z.mod_pos_bound (Z.shiftr pte 10) (2 ^ 20) ltac:(lia)).
  split; [|assumption]. rewrite Z.shiftl_mul_pow2 by lia. apply u32_id. unfold is_u32. lia.
Qed.

Lemma leaf_base_shape level pte va : leaf_base level pte va mod 4096 = 0 /\ is_u32 (leaf_base level pte va).
Proof.
  unfold leaf_base. destruct (pte_page_shape pte) as (k & E & Hk).
  assert (H1 : pte_page pte mod 4096 = 0) by (rewrite E; apply Z.mod_mul; lia).
  assert (H2 : is_u32 (pte_page pte)) by (unfold is_u32; lia).
  destruct (level =? 1)%nat; [|auto]. split.
  - rewrite <- land4095, Z.land_lor_distr_l, (mod_pages _ H1), <- Z.land_assoc. change (Z.land 4190208 4095) with 0.
    rewrite Z.land_0_r. reflexivity.
  - apply is_u32_lor; [exact H2|]. rewrite Z.land_comm. apply is_u32_intro.
    + intros i Hi. rewrite Z.land_spec, (is_u32_testbit_high 4190208) by (unfold is_u32; lia). reflexivity.
    + apply Z.land_nonneg. left. lia.
Qed.

(** ** Promises *)

Section Coherent.
Context `{Cfg : RvConfig} {Ext : Type}.

(** Permitted whatever [mstatus] says. *)
Definition leaf_always (pte : Z) (acc : emu_access) (priv : Z) : Prop :=
  forall h, leaf_permits h pte acc priv = true.

Record promise (h : rv_hart) (p : phys Ext) (priv vpn : Z) (acc : emu_access) (pg : Z) : Prop := {
  pr_map : if has (h_satp h) SATP_MODE_SV32
           then exists level pte,
             walk h p (Z.shiftl vpn PAGE_SHIFT) = Some (WLeaf level pte) /\ has pte PTE_PPN_PAST_BUS = false /\
             pg = leaf_base level pte (Z.shiftl vpn PAGE_SHIFT) /\ leaf_always pte acc priv /\
             (level = 1%nat -> mega_bit h (Z.shiftr vpn 10) = true)
           else pg = Z.shiftl vpn PAGE_SHIFT;
  pr_pmp : pmp_check_from h pmp_entries pg (pg + 4095) acc priv = true
}.

(** The region behind a page. *)
Record page_region (p : phys Ext) (pg : Z) (acc : emu_access) (r : emu_region Ext) : Prop := {
  rg_look : lookup_region (p_regions p) pg = Some r;
  rg_low : base r <= pg;
  rg_high : pg + 4096 <= base r + size r;
  rg_width : widths r &! EMU_WANY = EMU_WANY;
  rg_kind : match acc with
            | EMU_ACC_STORE => kind r = EMU_MEM_RAM /\ has (perm r) EMU_PERM_W = true
            | _ => (kind r = EMU_MEM_RAM \/ kind r = EMU_MEM_ROM) /\ has (perm r) EMU_PERM_R = true
            end
}.

Definition dtlb_entry_ok (h : rv_hart) (p : phys Ext) (priv vpn : Z) (acc : emu_access) (e : emu_dtlb_entry) : Prop :=
  exists pg r, promise h p priv vpn acc pg /\ page_region p pg acc r /\
    d_buf e = host r /\ d_addend e = pg - base r - Z.shiftl vpn PAGE_SHIFT.

Definition itlb_entry_ok (h : rv_hart) (p : phys Ext) (priv vpn : Z) (e : emu_dtlb_entry) : Prop :=
  exists pg, promise h p priv vpn EMU_ACC_FETCH pg /\ d_addend e = pg -! Z.shiftl vpn PAGE_SHIFT.

(** Below M: U, S, and the reserved encoding MPP may hold, which a data access
    under MPRV treats as S. *)
Definition low_priv (priv : Z) : Prop := 0 <= priv < RV_PRIV_M.

Definition dtlb_ok (h : rv_hart) (p : phys Ext) : Prop :=
  forall priv s vpn, low_priv priv -> 0 <= vpn < 2 ^ 20 ->
  let e := h_dtlb h (rv_dtlb_table priv) s in
  (d_read e = vpn -> dtlb_slot vpn = s /\ dtlb_entry_ok h p priv vpn EMU_ACC_LOAD e) /\
  (d_write e = vpn -> dtlb_slot vpn = s /\ dtlb_entry_ok h p priv vpn EMU_ACC_STORE e).

Definition itlb_ok (h : rv_hart) (p : phys Ext) : Prop :=
  forall priv s vpn, low_priv priv -> 0 <= vpn < 2 ^ 20 ->
  let e := h_itlb h (rv_dtlb_table priv) s in
  d_read e = vpn -> dtlb_slot vpn = s /\ itlb_entry_ok h p priv vpn e.

Definition caches_ok (h : rv_hart) (p : phys Ext) : Prop := tlb_ok h p /\ dtlb_ok h p /\ itlb_ok h p.

(** ** Hits *)

(** Translation, or none in Bare mode. *)
Definition ref_translate (h : rv_hart) (p : phys Ext) (va : Z) (acc : emu_access) : option (Z * Z) :=
  if has (h_satp h) SATP_MODE_SV32 then spec_translate h p va acc else Some (RV_EXC_NONE, va).

Lemma promise_page h p priv vpn acc pg : 0 <= vpn < 2 ^ 20 -> promise h p priv vpn acc pg -> pg mod 4096 = 0 /\ is_u32 pg.
Proof.
  intros Hv [Hm _]. destruct (has _ _).
  - destruct Hm as (level & pte & _ & _ & -> & _). apply leaf_base_shape.
  - rewrite Hm. unfold PAGE_SHIFT. rewrite Z.shiftl_mul_pow2 by lia. split; [apply Z.mod_mul; lia|unfold is_u32; lia].
Qed.

Lemma promise_translate h p va acc pg :
  is_u32 va -> acc_priv h acc <> RV_PRIV_M -> promise h p (acc_priv h acc) (dtlb_vpn va) acc pg ->
  ref_translate h p va acc = Some (RV_EXC_NONE, pg + va mod 4096).
Proof.
  intros Hu Hp [Hm _]. unfold ref_translate, spec_translate. fold (page_of va) in *.
  rewrite (proj2 (Z.eqb_neq _ _) Hp). destruct (has (h_satp h) _).
  - destruct Hm as (level & pte & Hw & Hb & -> & Hl & _).
    change (Z.shiftl (dtlb_vpn va) PAGE_SHIFT) with (page_of va) in *. rewrite walk_page in Hw.
    rewrite Hw, (Hl h), Hb. cbn [negb]. change (PAGE_SIZE - 1) with 4095.
    rewrite leaf_base_page, lor_page_off by apply leaf_base_shape. reflexivity.
  - subst pg. change (Z.shiftl (dtlb_vpn va) PAGE_SHIFT) with (page_of va). rewrite page_of_sub.
    repeat f_equal. lia.
Qed.

Lemma promise_pmp h p va acc pg sz :
  is_u32 va -> promise h p (acc_priv h acc) (dtlb_vpn va) acc pg -> 0 < sz -> va mod 4096 + sz <= 4096 ->
  rv_pmp_check h (pg + va mod 4096) sz acc = true.
Proof.
  intros Hu Hpr Hs Hf. destruct (promise_page _ _ _ _ _ _ (vpn_range va Hu) Hpr) as [Ha Hpu]. destruct Hpr as [_ Hc].
  pose proof (Z.mod_pos_bound va 4096 ltac:(lia)). unfold is_u32 in Hpu.
  assert (pg + 4096 <= 2 ^ 32) by (pose proof (Z.div_mod pg 4096); lia).
  unfold rv_pmp_check. rewrite access_last by lia. eapply pmp_check_sub; [..|exact Hc]; lia.
Qed.

Lemma page_region_grant p pg acc r off sz pm :
  table_ok (p_regions p) -> is_u32 pg -> page_region p pg acc r -> access_size sz -> 0 <= off -> off + sz <= 4096 ->
  has (perm r) pm = true ->
  grant (p_regions p) (pg + off) sz pm = Some (r, pg + off - base r).
Proof.
  intros Ht Hu [G1 G2 G3 G4 _] Hs H0 H1 Hp. unfold has in Hp. apply negb_true_iff in Hp.
  destruct (lookup_region_in _ _ _ G1) as [Hin _].
  assert (Hr : region_ok r) by (destruct Ht as [Hf _]; rewrite Forall_forall in Hf; apply Hf, list_elem_of_In; assumption).
  assert (Hz : 0 < sz) by (unfold access_size in Hs; lia).
  assert (Hsum : is_u32 (pg + off)) by (destruct Hr as (? & ? & ?); unfold is_u32 in *; lia).
  assert (Hl : lookup_region (p_regions p) (pg + off) = Some r).
  { apply list_elem_of_In, list_elem_of_lookup in Hin as [i Hi].
    eapply lookup_region_unique; eauto. apply in_region_spec; auto. lia. }
  pose proof (region_off r (pg + off) Hr Hsum ltac:(lia)) as Eo.
  unfold grant. rewrite Hl, (allows_ok r (pg + off) sz pm); auto using widths_any. lia.
Qed.

Lemma aligned_in_page va sz : access_size sz -> has va (sz - 1) = false -> va mod 4096 + sz <= 4096.
Proof.
  unfold has. intros Hs H. apply negb_false_iff, Z.eqb_eq in H. pose proof (Z.mod_pos_bound va 4096 ltac:(lia)).
  pose proof (Z.div_mod va 4096 ltac:(lia)).
  destruct Hs as [-> |[-> | ->]]; cbn [Z.sub Z.add Z.opp Z.pos_sub] in H.
  - lia.
  - change (2 - 1) with (Z.ones 1) in H. rewrite Z.land_ones in H by lia. change (2 ^ 1) with 2 in H.
    pose proof (Z.div_mod va 2 ltac:(lia)). lia.
  - change (4 - 1) with (Z.ones 2) in H. rewrite Z.land_ones in H by lia. change (2 ^ 2) with 4 in H.
    pose proof (Z.div_mod va 4 ltac:(lia)). lia.
Qed.

Variable pt_read : Ext -> Z -> Z -> Z * Ext.
Variable pt_write : Ext -> Z -> Z -> Z -> Ext.

Lemma probe_inv h va sz store e :
  dtlb_probe h va sz store = Some e ->
  rv_hart_data_priv h <> RV_PRIV_M /\ has va (sz - 1) = false /\
  e = h_dtlb h (rv_dtlb_table (rv_hart_data_priv h)) (dtlb_slot (dtlb_vpn va)) /\
  (if store then d_write e else d_read e) = dtlb_vpn va.
Proof.
  unfold dtlb_probe. destruct (_ || _) eqn:E; [discriminate|]. destruct ((if store then _ else _) =? _) eqn:E2; [|discriminate].
  intros [= <-]. bool_hyps. auto.
Qed.

(** What an entry that hits amounts to. *)
Lemma entry_hit h p va sz acc e :
  acc <> EMU_ACC_FETCH -> is_u32 va -> access_size sz -> has va (sz - 1) = false ->
  rv_hart_data_priv h <> RV_PRIV_M -> dtlb_entry_ok h p (rv_hart_data_priv h) (dtlb_vpn va) acc e ->
  exists pg r, ref_translate h p va acc = Some (RV_EXC_NONE, pg + va mod 4096) /\
    rv_pmp_check h (pg + va mod 4096) sz acc = true /\
    page_region p pg acc r /\ is_u32 pg /\ d_buf e = host r /\ va + d_addend e = pg + va mod 4096 - base r.
Proof.
  intros Hacc Hu Hs Hal Hp (pg & r & Hpr & Hrg & Hb & Hadd). exists pg, r.
  assert (Ea : rv_hart_data_priv h = acc_priv h acc) by (destruct acc; [contradiction|reflexivity..]).
  rewrite Ea in *. split; [apply promise_translate; assumption|]. split.
  { eapply promise_pmp; eauto using aligned_in_page. unfold access_size in Hs; lia. }
  split; [exact Hrg|]. split; [exact (proj2 (promise_page _ _ _ _ _ _ (vpn_range va Hu) Hpr))|].
  split; [exact Hb|]. rewrite Hadd. change (Z.shiftl (dtlb_vpn va) PAGE_SHIFT) with (page_of va).
  rewrite page_of_sub. lia.
Qed.

Lemma dtlb_hit_load h p va sz e :
  table_ok (p_regions p) -> dtlb_ok h p -> low_priv (rv_hart_data_priv h) -> is_u32 va -> access_size sz ->
  dtlb_probe h va sz false = Some e ->
  exists pa, ref_translate h p va EMU_ACC_LOAD = Some (RV_EXC_NONE, pa) /\
    rv_pmp_check h pa sz EMU_ACC_LOAD = true /\
    spec_read pt_read false (p_regions p) (p_heap p) (p_ext p) pa sz
      = (EMU_FAULT_NONE, Some (host_ld (p_heap p (d_buf e)) (va + d_addend e) sz), p_heap p, p_ext p).
Proof.
  intros Ht Hd Hlp Hu Hs E. destruct (probe_inv _ _ _ _ _ E) as (Hp & Hal & -> & Htag).
  destruct (proj1 (Hd _ _ _ Hlp (vpn_range va Hu)) Htag) as [_ Hok].
  destruct (entry_hit h p va sz EMU_ACC_LOAD _ ltac:(congruence) Hu Hs Hal Hp Hok) as (pg & r & H1 & H2 & H3 & H4 & H5 & H6).
  exists (pg + va mod 4096). split; [exact H1|]. split; [exact H2|].
  pose proof (aligned_in_page va sz Hs Hal). pose proof (Z.mod_pos_bound va 4096 ltac:(lia)).
  destruct (rg_kind _ _ _ _ H3) as [Hk Hperm].
  unfold spec_read. rewrite (page_region_grant p pg EMU_ACC_LOAD r) by (auto; lia). rewrite H5, H6.
  destruct Hk as [-> | ->]; reflexivity.
Qed.

Lemma dtlb_hit_store h p va sz e v :
  table_ok (p_regions p) -> dtlb_ok h p -> low_priv (rv_hart_data_priv h) -> is_u32 va -> access_size sz ->
  dtlb_probe h va sz true = Some e ->
  exists pa, ref_translate h p va EMU_ACC_STORE = Some (RV_EXC_NONE, pa) /\
    rv_pmp_check h pa sz EMU_ACC_STORE = true /\
    spec_write pt_write false (p_regions p) (p_heap p) (p_ext p) pa sz v
      = (EMU_FAULT_NONE, None, upd (p_heap p) (d_buf e) (host_st (p_heap p (d_buf e)) (va + d_addend e) sz v), p_ext p).
Proof.
  intros Ht Hd Hlp Hu Hs E. destruct (probe_inv _ _ _ _ _ E) as (Hp & Hal & -> & Htag).
  destruct (proj2 (Hd _ _ _ Hlp (vpn_range va Hu)) Htag) as [_ Hok].
  destruct (entry_hit h p va sz EMU_ACC_STORE _ ltac:(congruence) Hu Hs Hal Hp Hok) as (pg & r & H1 & H2 & H3 & H4 & H5 & H6).
  exists (pg + va mod 4096). split; [exact H1|]. split; [exact H2|].
  pose proof (aligned_in_page va sz Hs Hal). pose proof (Z.mod_pos_bound va 4096 ltac:(lia)).
  destruct (rg_kind _ _ _ _ H3) as [Hk Hperm].
  unfold spec_write. rewrite (page_region_grant p pg EMU_ACC_STORE r) by (auto; lia). rewrite H5, H6, Hk. reflexivity.
Qed.

End Coherent.

(** ** The architectural state

    Everything but the caches and their counters. *)

Definition erase (h : rv_hart) : rv_hart :=
  h <| h_tlb := fun _ => Tlb 0 0 0 false |> <| h_mega_regions := fun _ => 0 |>
    <| h_dtlb := fun _ _ => no_dtlb |> <| h_itlb := fun _ _ => no_dtlb |>
    <| h_dtlb_fills := 0 |> <| h_dtlb_flushes := 0 |> <| h_itlb_fills := 0 |>.

Definition arch_eq (h h' : rv_hart) : Prop := erase h' = erase h.

#[export] Instance arch_eq_equiv : Equivalence arch_eq.
Proof. unfold arch_eq. split; [intros h; reflexivity|intros h h'; auto|intros a b c H1 H2; congruence]. Qed.

(** A field the caches do not touch. *)
Ltac arch_field H p := exact (f_equal p H).

Record arch_fields (h h' : rv_hart) : Prop := {
  af_mstatus : h_mstatus h' = h_mstatus h; af_priv : h_priv h' = h_priv h; af_satp : h_satp h' = h_satp h;
  af_pmpcfg : h_pmpcfg h' = h_pmpcfg h; af_pmpaddr : h_pmpaddr h' = h_pmpaddr h;
  af_active : h_pmp_active h' = h_pmp_active h; af_any : h_pmp_any h' = h_pmp_any h;
  af_vm : h_vm_active h' = h_vm_active h; af_trig : h_trig_active h' = h_trig_active h;
  af_guard : h_data_guard h' = h_data_guard h; af_tdata1 : h_tdata1 h' = h_tdata1 h;
  af_tdata2 : h_tdata2 h' = h_tdata2 h; af_medeleg : h_medeleg h' = h_medeleg h;
  af_rv : h_resv_valid h' = h_resv_valid h; af_ra : h_resv_addr h' = h_resv_addr h
}.

Lemma arch_eq_fields h h' : arch_eq h h' -> arch_fields h h'.
Proof.
  intros H. unfold arch_eq in H. split;
    [arch_field H h_mstatus|arch_field H h_priv|arch_field H h_satp|arch_field H h_pmpcfg|arch_field H h_pmpaddr
    |arch_field H h_pmp_active|arch_field H h_pmp_any|arch_field H h_vm_active|arch_field H h_trig_active
    |arch_field H h_data_guard|arch_field H h_tdata1|arch_field H h_tdata2|arch_field H h_medeleg
    |arch_field H h_resv_valid|arch_field H h_resv_addr].
Qed.

Lemma tlb_filled_arch h va level pte : arch_eq h (tlb_filled h va level pte).
Proof. unfold tlb_filled. destruct (level =? 1)%nat; reflexivity. Qed.

Lemma same_but_tlb_arch h h' : same_but_tlb h h' -> arch_eq h h'.
Proof. intros [->|(va & level & pte & ->)]; [reflexivity|apply tlb_filled_arch]. Qed.
