(* ===== verification/RvFill.v ===== *)
(** * Filling the host-address tables, and fencing them

    A fill after a successful access keeps [caches_ok]; so do the fences, for
    whatever the page tables hold afterwards: the global one outright, the one
    that names an address for a change of that address's leaf. *)

From stdpp Require Import base list gmap.
From Stdlib Require Import ZArith Lia.
From S2P Require Import Prelude Bus BusProps RvHart RvBus RvPmp RvTrig RvMmu RvWalk RvAccess RvCoherent.

Open Scope Z_scope.
Open Scope u32_scope.

(** ** Permissions the tables may keep *)

Lemma land_full pte k j : Z.land pte k = k -> Z.land k j = j -> j <> 0 -> has pte j = true.
Proof.
  intros H1 H2 H3. unfold has. apply negb_true_iff, Z.eqb_neq.
  rewrite <- H2, Z.land_assoc, H1, H2. exact H3.
Qed.

Lemma leaf_always_intro pte acc priv :
  Bool.eqb (has pte PTE_U) (priv =? RV_PRIV_U) = true -> has pte PTE_A = true ->
  match acc with
  | EMU_ACC_FETCH => has pte PTE_X = true
  | EMU_ACC_LOAD => has pte PTE_R = true
  | EMU_ACC_STORE => has pte PTE_W = true /\ has pte PTE_D = true
  end -> leaf_always pte acc priv.
Proof.
  intros Hu Ha Hk h. apply eqb_prop in Hu. unfold leaf_permits.
  destruct (priv =? RV_PRIV_U); rewrite Hu, Ha; destruct acc; cbn [andb negb];
    rewrite ?bool_decide_eq_true_2, ?bool_decide_eq_false_2 by congruence; cbn [andb orb negb];
    first [rewrite Hk; reflexivity | destruct Hk as [Hk1 Hk2]; rewrite Hk1, Hk2; reflexivity].
Qed.

Lemma low_eq pte k : Z.land 255 k = k -> pte &! 255 &! k = k -> pte &! k = k.
Proof. intros E H. rewrite land_low in H by exact E. exact H. Qed.

Section Fill.
Context `{Cfg : RvConfig} {Ext M : Type} {PB : PhysBus Ext M}.
Context {pt_read : Ext -> Z -> Z -> Z * Ext} {pt_write : Ext -> Z -> Z -> Z -> Ext}.
Context {PL : PhysBusLaws PB pt_read pt_write}.

(** The leaf the TLB holds for a page is the walk's. *)
Lemma tlb_leaf h (p : phys Ext) va :
  tlb_ok h p -> let e := h_tlb h (tlb_slot (Z.shiftr va PAGE_SHIFT)) in
  t_valid e = true -> t_vpn e = Z.shiftr va PAGE_SHIFT ->
  exists level pte, walk h p (page_of va) = Some (WLeaf level pte) /\ has pte PTE_PPN_PAST_BUS = false /\
    t_pte e = pte &! 255 /\ (level = 1%nat -> mega_bit h (Z.shiftr (Z.shiftr va PAGE_SHIFT) 10) = true).
Proof.
  intros Ht e Hv Hn. destruct (Ht _ (tlb_slot_range _) Hv) as (_ & _ & level & pte & [H1 H2 H3 H4 H5]). fold e in H1, H4, H5.
  rewrite Hn in *. exists level, pte. auto.
Qed.

(** Rights and a successful translation make a promise of the page. *)
Lemma promise_intro h (p : phys Ext) va pa acc acc0 :
  tlb_ok h p -> acc_priv h acc <> RV_PRIV_M -> acc_priv h acc0 = acc_priv h acc ->
  ref_translate h p va acc0 = Some (RV_EXC_NONE, pa) ->
  (has (h_satp h) SATP_MODE_SV32 = true ->
   let e := h_tlb h (tlb_slot (Z.shiftr va PAGE_SHIFT)) in
   t_valid e = true /\ t_vpn e = Z.shiftr va PAGE_SHIFT /\
   forall pte, t_pte e = pte &! 255 -> leaf_always pte acc (acc_priv h acc)) ->
  pmp_check_from h pmp_entries (va_page pa) (va_page pa + 4095) acc (acc_priv h acc) = true ->
  promise h p (acc_priv h acc) (dtlb_vpn va) acc (va_page pa).
Proof.
  intros Ht Hp Hp0 Hr He Hc. split; [|exact Hc]. rewrite va_page_of. unfold ref_translate in Hr.
  change (Z.shiftl (dtlb_vpn va) PAGE_SHIFT) with (page_of va). destruct (has (h_satp h) _).
  - destruct (He eq_refl) as (Hv & Hn & Hl). destruct (tlb_leaf h p va Ht Hv Hn) as (level & pte & Hw & Hb & Hpte & Hm).
    exists level, pte. split; [exact Hw|]. split; [exact Hb|]. split; [|auto].
    unfold spec_translate in Hr. rewrite Hp0, (proj2 (Z.eqb_neq _ _) Hp), <- walk_page, Hw, Hb in Hr.
    destruct (negb _); [destruct acc0; discriminate Hr|]. injection Hr as <-.
    change (PAGE_SIZE - 1) with 4095. rewrite <- leaf_base_page.
    destruct (leaf_base_shape level pte (page_of va)) as [Hs _]. rewrite lor_page_off by exact Hs.
    rewrite page_of_sub. rewrite <- Z.add_mod_idemp_l, Hs, Z.add_0_l, Z.mod_mod by lia. lia.
  - injection Hr as <-. reflexivity.
Qed.

(** The region [page_memory] accepts is behind the whole page. *)
Lemma page_memory_region (p : phys Ext) pg r w pm :
  table_ok (p_regions p) -> is_u32 pg -> lookup_region (p_regions p) pg = Some r -> page_memory r pg w pm = true ->
  base r <= pg /\ pg + 4096 <= base r + size r /\ pg -! base r = pg - base r /\ widths r &! w = w /\
  (kind r = EMU_MEM_RAM \/ kind r = EMU_MEM_ROM) /\ has (perm r) pm = true.
Proof.
  intros [Hf _] Hu Hl H. destruct (lookup_region_in _ _ _ Hl) as [Hin Hir].
  assert (Hr : region_ok r) by (rewrite Forall_forall in Hf; apply Hf, list_elem_of_In; assumption).
  apply in_region_spec in Hir; [|assumption..]. pose proof (region_off r pg Hr Hu Hir) as Eo.
  unfold page_memory in H. rewrite Eo in H. destruct Hr as (? & ? & ?). unfold is_u32 in Hu.
  rewrite (u32_id (size r - (pg - base r))) in H by (unfold is_u32; lia). unfold RV_PAGE_SIZE in H.
  apply andb_true_iff in H as [H Hp]. apply andb_true_iff in H as [H Hw]. apply andb_true_iff in H as [H H4].
  apply andb_true_iff in H as [H _]. apply andb_true_iff in H as [_ Hk]. apply Z.leb_le in H4. apply Z.eqb_eq in Hw.
  apply orb_true_iff in Hk. rewrite !bool_decide_eq_true in Hk.
  split; [lia|]. split; [lia|]. auto.
Qed.

Lemma upd2_other {A} (f : Z -> Z -> A) t s v t' s' : t' <> t \/ s' <> s -> upd f t (upd (f t) s v) t' s' = f t' s'.
Proof.
  intros H. destruct (Z.eq_dec t' t) as [->|Ht]; [|rewrite upd_ne by assumption; reflexivity].
  rewrite upd_eq. apply upd_ne. tauto.
Qed.

Lemma upd2_same {A} (f : Z -> Z -> A) t s v : upd f t (upd (f t) s v) t s = v.
Proof. rewrite !upd_eq. reflexivity. Qed.

(** Privileges that share a table have the same rights. *)
Lemma table_same priv priv' : rv_dtlb_table priv = rv_dtlb_table priv' -> (priv =? RV_PRIV_U) = (priv' =? RV_PRIV_U).
Proof. unfold rv_dtlb_table. cbn [orb]. destruct (priv =? _), (priv' =? _); cbn; congruence. Qed.

Lemma leaf_priv h pte acc priv priv' :
  (priv =? RV_PRIV_U) = (priv' =? RV_PRIV_U) -> leaf_permits h pte acc priv = leaf_permits h pte acc priv'.
Proof. unfold leaf_permits. intros ->. reflexivity. Qed.

Lemma pmp_check_priv h idx addr last acc priv priv' :
  (priv =? RV_PRIV_M) = (priv' =? RV_PRIV_M) ->
  pmp_check_from h idx addr last acc priv = pmp_check_from h idx addr last acc priv'.
Proof.
  intros E. induction idx as [|i idx IH]; cbn [pmp_check_from]; [exact E|]. rewrite IH, E. reflexivity.
Qed.

Lemma low_priv_not_M priv : low_priv priv -> (priv =? RV_PRIV_M) = false.
Proof. unfold low_priv. intros H. apply Z.eqb_neq. lia. Qed.

Lemma promise_priv h (p : phys Ext) priv priv' vpn acc pg :
  low_priv priv -> low_priv priv' -> rv_dtlb_table priv' = rv_dtlb_table priv ->
  promise h p priv vpn acc pg -> promise h p priv' vpn acc pg.
Proof.
  intros Hp Hp' Et [H1 H2]. pose proof (table_same _ _ Et) as Eu. split.
  - destruct (has _ _); [|exact H1]. destruct H1 as (level & pte & A & B & C & D & E). exists level, pte.
    split; [exact A|]. split; [exact B|]. split; [exact C|]. split; [|exact E].
    intros h0. rewrite (leaf_priv _ _ _ _ priv) by exact Eu. apply D.
  - rewrite (pmp_check_priv _ _ _ _ _ priv' priv); [exact H2|]. rewrite !low_priv_not_M by assumption. reflexivity.
Qed.

Lemma promise_ext h h' (p : phys Ext) priv vpn acc pg :
  same_tables h h' -> h_mega_regions h' = h_mega_regions h -> promise h p priv vpn acc pg -> promise h' p priv vpn acc pg.
Proof.
  intros Hs Hm [H1 H2]. split.
  - destruct Hs as (E1 & E2 & E3). rewrite E1. destruct (has _ _); [|exact H1].
    destruct H1 as (level & pte & A & B & C & D & E). exists level, pte.
    rewrite (walk_ext h h') by (repeat split; assumption). rewrite (mega_bit_ext h h') by assumption. auto.
  - destruct Hs as (E1 & E2 & E3). rewrite (pmp_check_ext h h') by assumption. exact H2.
Qed.

Lemma tlb_ok_ext h h' (p : phys Ext) : same_tables h h' -> h_mega_regions h' = h_mega_regions h -> h_tlb h' = h_tlb h ->
  tlb_ok h p -> tlb_ok h' p.
Proof.
  intros Hs Hm Ht Hok s Hrange. rewrite Ht. intros Hv. destruct (Hok s Hrange Hv) as (A & A' & level & pte & [B C D E F]).
  split; [exact A|]. split; [exact A'|]. exists level, pte. split; auto.
  - rewrite (walk_ext h h') by exact Hs. exact B.
  - intros Hl. rewrite (mega_bit_ext h h') by exact Hm. auto.
Qed.

Lemma dtlb_entry_ext h h' (p : phys Ext) priv vpn acc e :
  same_tables h h' -> h_mega_regions h' = h_mega_regions h ->
  dtlb_entry_ok h p priv vpn acc e -> dtlb_entry_ok h' p priv vpn acc e.
Proof. intros Hs Hm (pg & r & A & B). exists pg, r. split; [eapply promise_ext; eauto|exact B]. Qed.

Lemma itlb_entry_ext h h' (p : phys Ext) priv vpn e :
  same_tables h h' -> h_mega_regions h' = h_mega_regions h -> itlb_entry_ok h p priv vpn e -> itlb_entry_ok h' p priv vpn e.
Proof. intros Hs Hm (pg & A & B). exists pg. split; [eapply promise_ext; eauto|exact B]. Qed.

Lemma dtlb_ok_ext h h' (p : phys Ext) : same_tables h h' -> h_mega_regions h' = h_mega_regions h -> h_dtlb h' = h_dtlb h ->
  dtlb_ok h p -> dtlb_ok h' p.
Proof.
  intros Hs Hm Ht Hok priv s vpn Hp Hv. rewrite Ht. destruct (Hok priv s vpn Hp Hv) as [A B].
  split; intros E; [destruct (A E)|destruct (B E)]; eauto using dtlb_entry_ext.
Qed.

Lemma itlb_ok_ext h h' (p : phys Ext) : same_tables h h' -> h_mega_regions h' = h_mega_regions h -> h_itlb h' = h_itlb h ->
  itlb_ok h p -> itlb_ok h' p.
Proof.
  intros Hs Hm Ht Hok priv s vpn Hp Hv. rewrite Ht. intros e E. destruct (Hok priv s vpn Hp Hv E). eauto using itlb_entry_ext.
Qed.

Lemma dtlb_entry_priv h (p : phys Ext) priv priv' vpn acc e :
  low_priv priv -> low_priv priv' -> rv_dtlb_table priv' = rv_dtlb_table priv ->
  dtlb_entry_ok h p priv vpn acc e -> dtlb_entry_ok h p priv' vpn acc e.
Proof. intros H1 H2 Et (pg & r & Hpr & Hrg). exists pg, r. split; [eauto using promise_priv|exact Hrg]. Qed.

(** A new entry in the data table. *)
Lemma dtlb_ok_put h (p : phys Ext) priv vpn e n :
  low_priv priv -> dtlb_ok h p ->
  (d_read e = vpn /\ dtlb_entry_ok h p priv vpn EMU_ACC_LOAD e) ->
  (d_write e = EMU_DTLB_NONE \/ d_write e = vpn /\ dtlb_entry_ok h p priv vpn EMU_ACC_STORE e) ->
  dtlb_ok (h <| h_dtlb := upd (h_dtlb h) (rv_dtlb_table priv) (upd (h_dtlb h (rv_dtlb_table priv)) (dtlb_slot vpn) e) |>
             <| h_dtlb_fills := n |>) p.
Proof.
  intros Hp Hok [Hr Hro] Hw priv' s vpn' Hp' Hv'.
  set (h' := _ <| h_dtlb_fills := _ |>).
  assert (Hs : same_tables h h') by (split; [|split]; reflexivity).
  assert (Hm : h_mega_regions h' = h_mega_regions h) by reflexivity.
  change (h_dtlb h') with (upd (h_dtlb h) (rv_dtlb_table priv) (upd (h_dtlb h (rv_dtlb_table priv)) (dtlb_slot vpn) e)).
  destruct (Z.eq_dec (rv_dtlb_table priv') (rv_dtlb_table priv)) as [Et|Et];
    [destruct (Z.eq_dec s (dtlb_slot vpn)) as [->|Hne]|].
  - rewrite Et, upd2_same. split; [intros E|intros E].
    + rewrite Hr in E. subst vpn'. split; [reflexivity|]. apply (dtlb_entry_ext h); eauto using dtlb_entry_priv.
    + destruct Hw as [Hw|[Hw Hwo]]; rewrite Hw in E; [exfalso; unfold EMU_DTLB_NONE in E; lia|].
      subst vpn'. split; [reflexivity|]. apply (dtlb_entry_ext h); eauto using dtlb_entry_priv.
  - rewrite upd2_other by auto. destruct (Hok priv' s vpn' Hp' Hv') as [A B].
    split; intros E; [destruct (A E)|destruct (B E)]; eauto using dtlb_entry_ext.
  - rewrite upd2_other by auto. destruct (Hok priv' s vpn' Hp' Hv') as [A B].
    split; intros E; [destruct (A E)|destruct (B E)]; eauto using dtlb_entry_ext.
Qed.

(** ** The data table *)

Definition legal_data (h : rv_hart) : Prop := rv_hart_data_priv h = RV_PRIV_M \/ low_priv (rv_hart_data_priv h).

Lemma va_page_u32 pa : is_u32 pa -> is_u32 (va_page pa) /\ va_page pa + 4096 <= 2 ^ 32.
Proof.
  intros H. rewrite va_page_of, page_of_sub. unfold is_u32 in *. pose proof (Z.mod_pos_bound pa 4096 ltac:(lia)).
  pose proof (Z.div_mod pa 4096 ltac:(lia)). lia.
Qed.

Lemma dtlb_rights_inv h va priv wr : rv_mmu_dtlb_rights h va priv = Some wr ->
  let e := h_tlb h (tlb_slot (Z.shiftr va PAGE_SHIFT)) in
  t_valid e = true /\ t_vpn e = Z.shiftr va PAGE_SHIFT /\
  forall pte, t_pte e = pte &! 255 ->
    leaf_always pte EMU_ACC_LOAD priv /\ (wr = true -> leaf_always pte EMU_ACC_STORE priv).
Proof.
  unfold rv_mmu_dtlb_rights. cbv zeta. set (e := h_tlb h _).
  destruct (_ || _) eqn:E1; [discriminate|]. apply orb_false_iff in E1 as [E1 E2]. apply negb_false_iff in E1, E2.
  apply Z.eqb_eq in E2. destruct (Bool.eqb _ _) eqn:E3; [|discriminate]. cbn [negb].
  destruct (_ =? PTE_R |! PTE_A) eqn:E4; [|discriminate]. cbn [negb]. apply Z.eqb_eq in E4. intros [= Hw].
  split; [exact E1|]. split; [exact E2|]. intros pte Hpte. rewrite Hpte in *.
  rewrite has_low in E3 by reflexivity. apply low_eq in E4; [|reflexivity].
  assert (HA : has pte PTE_A = true) by (eapply land_full; [exact E4|reflexivity|discriminate]).
  split; [|intros ->; apply Z.eqb_eq, low_eq in Hw; [|reflexivity]]; apply leaf_always_intro; auto.
  - eapply land_full; [exact E4|reflexivity|discriminate].
  - split; (eapply land_full; [exact Hw|reflexivity|discriminate]).
Qed.

Lemma dtlb_fill_ok h (m : M) va pa acc h' m' :
  bus_ok m -> caches_ok h (abs m) -> legal_data h -> is_u32 va -> is_u32 pa -> acc <> EMU_ACC_FETCH ->
  ref_translate h (abs m) va acc = Some (RV_EXC_NONE, pa) -> rv_dtlb_fill h m va pa = (h', m') ->
  bus_ok m' /\ abs m' = abs m /\ caches_ok h' (abs m) /\ arch_eq h h'.
Proof.
  intros Hm Hc Hl Hu Hpa Hacc Ht E. unfold rv_dtlb_fill in E.
  assert (Hid : bus_ok m /\ abs m = abs m /\ caches_ok h (abs m) /\ arch_eq h h) by (split; [exact Hm|split; [reflexivity|split; [exact Hc|reflexivity]]]).
  destruct (Z.eqb_spec (rv_hart_data_priv h) RV_PRIV_M) as [|Hp]; [injection E as <- <-; exact Hid|].
  destruct Hl as [|Hl]; [contradiction|].
  destruct (d_read _ =? _); [injection E as <- <-; exact Hid|].
  set (rights := if has _ _ then _ else _) in E. destruct rights as [wr|] eqn:Er; [|injection E as <- <-; exact Hid].
  destruct (rv_pmp_page_rights h (va_page pa) (rv_hart_data_priv h)) as [[pr pw] px] eqn:Ep.
  destruct (negb pr) eqn:Epr; [injection E as <- <-; exact Hid|]. apply negb_false_iff in Epr. subst pr.
  destruct (va_page_u32 pa Hpa) as [Hpg Hpg2].
  destruct (bus_find m (va_page pa)) as [r m1] eqn:Ef.
  destruct (law_find m _ r m1 Hm Hpg Ef) as (Hr & Hm1 & Ha1).
  assert (Hid1 : bus_ok m1 /\ abs m1 = abs m /\ caches_ok h (abs m) /\ arch_eq h h) by (split; [exact Hm1|split; [exact Ha1|split; [exact Hc|reflexivity]]]).
  destruct r as [r|]; [|injection E as <- <-; exact Hid1].
  destruct (negb (page_memory _ _ _ _)) eqn:Epm; [injection E as <- <-; exact Hid1|]. apply negb_false_iff in Epm.
  injection E as <- <-. split; [exact Hm1|]. split; [exact Ha1|]. split; [|reflexivity].
  destruct (page_memory_region (abs m) _ r _ _ (law_table m Hm) Hpg (eq_sym Hr) Epm) as (G1 & G2 & G3 & G4 & G5 & G6).
  set (wr' := wr && pw && _ && _).
  set (e := Dtlb _ _ _ _).
  assert (Hpmp : forall a, a <> EMU_ACC_FETCH -> (a = EMU_ACC_STORE -> wr' = true) ->
    pmp_check_from h pmp_entries (va_page pa) (va_page pa + 4095) a (acc_priv h a) = true).
  { intros a Hna Hw. assert (Ea : acc_priv h a = rv_hart_data_priv h) by (destruct a; [contradiction|reflexivity..]).
    pose proof (page_rights_check h (va_page pa) a) as Hrc. rewrite Ea, Ep in Hrc. specialize (Hrc Hp).
    rewrite u32_id in Hrc by (unfold is_u32 in *; lia). rewrite Ea, <- Hrc.
    destruct a; [contradiction|reflexivity|]. cbn [right_of]. specialize (Hw eq_refl). unfold wr' in Hw. bool_hyps. assumption. }
  assert (Hent : forall a, a <> EMU_ACC_FETCH -> (a = EMU_ACC_STORE -> wr' = true) ->
    dtlb_entry_ok h (abs m) (rv_hart_data_priv h) (dtlb_vpn va) a e).
  { intros a Hna Hw. assert (Ea : acc_priv h a = rv_hart_data_priv h) by (destruct a; [contradiction|reflexivity..]).
    assert (Ea0 : acc_priv h acc = rv_hart_data_priv h) by (destruct acc; [contradiction|reflexivity..]).
    exists (va_page pa), r. split; [|split; [|split; [reflexivity|]]].
    - rewrite <- Ea. apply promise_intro with (acc0 := acc); auto; [apply Hc|congruence|congruence|].
      intros Hsv. unfold rights in Er. rewrite Hsv in Er.
      destruct (dtlb_rights_inv _ _ _ _ Er) as (V1 & V2 & V3). split; [exact V1|]. split; [exact V2|].
      intros pte Hpte. rewrite Ea. destruct (V3 pte Hpte) as [L1 L2].
      destruct a; [contradiction|exact L1|]. apply L2. specialize (Hw eq_refl). unfold wr' in Hw. bool_hyps. assumption.
    - split; auto. destruct a; [contradiction|auto|]. specialize (Hw eq_refl). unfold wr' in Hw.
      apply andb_true_iff in Hw as [Hw W2]. apply andb_true_iff in Hw as [_ W1]. apply bool_decide_eq_true in W1. auto.
    - cbn [d_addend e]. rewrite G3, va_page_of, (va_page_of va). reflexivity. }
  assert (Hdt : dtlb_ok (h <| h_dtlb := upd (h_dtlb h) (rv_dtlb_table (rv_hart_data_priv h))
      (upd (h_dtlb h (rv_dtlb_table (rv_hart_data_priv h))) (dtlb_slot (dtlb_vpn va)) e) |>
      <| h_dtlb_fills := h_dtlb_fills h +! 1 |>) (abs m)).
  { apply dtlb_ok_put; [exact Hl|apply Hc|split; [reflexivity|apply Hent; congruence]|].
    cbn [d_write e]. destruct wr' eqn:Ew; [right|left; reflexivity]. split; [reflexivity|]. apply Hent; congruence. }
  destruct Hc as (C1 & C2 & C3). split; [|split; [exact Hdt|]].
  - eapply tlb_ok_ext; [| | |exact C1]; [split; [|split]| |]; reflexivity.
  - eapply itlb_ok_ext; [| | |exact C3]; [split; [|split]| |]; reflexivity.
Qed.

(** ** The fetch table *)

Lemma itlb_ok_put h h' (p : phys Ext) priv vpn e :
  low_priv priv -> itlb_ok h p -> same_tables h h' -> h_mega_regions h' = h_mega_regions h ->
  h_itlb h' = upd (h_itlb h) (rv_dtlb_table priv) (upd (h_itlb h (rv_dtlb_table priv)) (dtlb_slot vpn) e) ->
  (d_read e = EMU_DTLB_NONE \/ d_read e = vpn /\ itlb_entry_ok h p priv vpn e) -> itlb_ok h' p.
Proof.
  intros Hp Hok Hs Hm Ht He priv' s vpn' Hp' Hv'. rewrite Ht. intros e' E. subst e'.
  destruct (Z.eq_dec (rv_dtlb_table priv') (rv_dtlb_table priv)) as [Et|Et];
    [destruct (Z.eq_dec s (dtlb_slot vpn)) as [->|Hne]|].
  - rewrite Et, upd2_same in *.
    destruct He as [He|[He (pg & Hpr & Hadd)]]; rewrite He in E; [exfalso; unfold EMU_DTLB_NONE in E; lia|].
    subst vpn'. split; [reflexivity|]. apply (itlb_entry_ext h); auto. exists pg. eauto using promise_priv.
  - rewrite upd2_other in * by auto. destruct (Hok priv' s vpn' Hp' Hv' E). eauto using itlb_entry_ext.
  - rewrite upd2_other in * by auto. destruct (Hok priv' s vpn' Hp' Hv' E). eauto using itlb_entry_ext.
Qed.

Lemma itlb_rights_inv h va priv : rv_mmu_itlb_rights h va priv = true ->
  let e := h_tlb h (tlb_slot (Z.shiftr va PAGE_SHIFT)) in
  t_valid e = true /\ t_vpn e = Z.shiftr va PAGE_SHIFT /\
  forall pte, t_pte e = pte &! 255 -> leaf_always pte EMU_ACC_FETCH priv.
Proof.
  unfold rv_mmu_itlb_rights. cbv zeta. set (e := h_tlb h _).
  destruct (_ || _) eqn:E1; [discriminate|]. apply orb_false_iff in E1 as [E1 E2]. apply negb_false_iff in E1, E2.
  apply Z.eqb_eq in E2. destruct (Bool.eqb _ _) eqn:E3; [|discriminate]. cbn [negb]. intros E4. apply Z.eqb_eq in E4.
  split; [exact E1|]. split; [exact E2|]. intros pte Hpte. rewrite Hpte in *.
  rewrite has_low in E3 by reflexivity. apply low_eq in E4; [|reflexivity].
  apply leaf_always_intro; [exact E3|..]; (eapply land_full; [exact E4|reflexivity|discriminate]).
Qed.

Definition legal_priv (h : rv_hart) : Prop := h_priv h = RV_PRIV_M \/ low_priv (h_priv h).

Lemma itlb_fill_ok h (m : M) va pa h' m' :
  bus_ok m -> caches_ok h (abs m) -> legal_priv h -> is_u32 va -> is_u32 pa ->
  ref_translate h (abs m) va EMU_ACC_FETCH = Some (RV_EXC_NONE, pa) -> rv_itlb_fill h m va pa = (h', m') ->
  bus_ok m' /\ abs m' = abs m /\ caches_ok h' (abs m) /\ arch_eq h h'.
Proof.
  intros Hm Hc Hl Hu Hpa Ht E. unfold rv_itlb_fill in E.
  assert (Hid : bus_ok m /\ abs m = abs m /\ caches_ok h (abs m) /\ arch_eq h h)
    by (split; [exact Hm|split; [reflexivity|split; [exact Hc|reflexivity]]]).
  destruct (Z.eqb_spec (h_priv h) RV_PRIV_M) as [|Hp]; [injection E as <- <-; exact Hid|].
  destruct Hl as [|Hl]; [contradiction|].
  destruct (_ || _); [injection E as <- <-; exact Hid|]. clear Hid. destruct Hc as (C1 & C2 & C3).
  assert (Hput : forall m1 e n, bus_ok m1 -> abs m1 = abs m ->
    (d_read e = EMU_DTLB_NONE \/ d_read e = dtlb_vpn va /\ itlb_entry_ok h (abs m) (h_priv h) (dtlb_vpn va) e) ->
    let h1 := h <| h_itlb := upd (h_itlb h) (rv_dtlb_table (h_priv h))
                 (upd (h_itlb h (rv_dtlb_table (h_priv h))) (dtlb_slot (dtlb_vpn va)) e) |> in
    (bus_ok m1 /\ abs m1 = abs m /\ caches_ok h1 (abs m) /\ arch_eq h h1) /\
    (bus_ok m1 /\ abs m1 = abs m /\ caches_ok (h1 <| h_itlb_fills := n |>) (abs m) /\ arch_eq h (h1 <| h_itlb_fills := n |>))).
  { intros m1 e n H1 H2 H3 h1.
    assert (forall h2, same_tables h h2 -> h_mega_regions h2 = h_mega_regions h -> h_tlb h2 = h_tlb h -> h_dtlb h2 = h_dtlb h ->
              h_itlb h2 = h_itlb h1 -> caches_ok h2 (abs m)) as Hcc.
    { intros h2 S1 S2 S3 S4 S5. split; [eapply tlb_ok_ext; eauto|]. split; [eapply dtlb_ok_ext; eauto|].
      eapply (itlb_ok_put h h2 _ (h_priv h) (dtlb_vpn va) e); eauto. }
    split; (split; [exact H1|]); (split; [exact H2|]); (split; [|reflexivity]);
      apply Hcc; try reflexivity; (split; [|split]; reflexivity). }
  destruct (_ && _) eqn:Er; [injection E as <- <-; apply (Hput m _ 0); auto|].
  destruct (rv_pmp_page_rights h (va_page pa) (h_priv h)) as [[pr pw] px] eqn:Ep.
  destruct (negb px) eqn:Epx; [injection E as <- <-; apply (Hput m _ 0); auto|]. apply negb_false_iff in Epx. subst px.
  destruct (va_page_u32 pa Hpa) as [Hpg Hpg2].
  destruct (bus_find m (va_page pa)) as [r m1] eqn:Ef.
  destruct (law_find m _ r m1 Hm Hpg Ef) as (_ & Hm1 & Ha1).
  destruct r as [r|]; [|injection E as <- <-; apply (Hput m1 _ 0); auto].
  destruct (negb (page_memory _ _ _ _)); injection E as <- <-; [apply (Hput m1 _ 0); auto|].
  apply (Hput m1); auto. right. split; [reflexivity|]. exists (va_page pa). split.
  - change (h_priv h) with (acc_priv h EMU_ACC_FETCH).
    apply promise_intro with (acc0 := EMU_ACC_FETCH); auto.
    + intros Hsv. rewrite Hsv in Er. cbn [andb] in Er. apply negb_false_iff in Er.
      exact (itlb_rights_inv _ _ _ Er).
    + pose proof (page_rights_check h (va_page pa) EMU_ACC_FETCH Hp) as Hrc.
      change (acc_priv h EMU_ACC_FETCH) with (h_priv h) in *. rewrite Ep in Hrc.
      rewrite u32_id in Hrc by (unfold is_u32 in *; lia). symmetry. exact Hrc.
  - cbn [d_addend]. rewrite (va_page_of va). reflexivity.
Qed.

End Fill.
