(* ===== verification/RvFence.v ===== *)
(** * Fences

    What [rv_mmu_flush] and [rv_mmu_flush_page] restore.  A guest that edits
    the leaf PTE of an address and fences that address must see its edit, and
    may keep everything cached for other leaves: a megapage is cached a page
    at a time, so the fence of one address has to reach the others. *)

From stdpp Require Import base list gmap.
From Stdlib Require Import ZArith Lia.
From S2P Require Import Prelude Bus BusProps RvHart RvBus RvPmp RvTrig RvMmu RvWalk RvAccess RvCoherent RvFill.

Open Scope Z_scope.
Open Scope u32_scope.

Section Fence.
Context `{Cfg : RvConfig} {Ext : Type}.

Lemma no_dtlb_tag vpn : 0 <= vpn < 2 ^ 20 -> d_read no_dtlb <> vpn /\ d_write no_dtlb <> vpn.
Proof. cbn. unfold EMU_DTLB_NONE. lia. Qed.

Lemma flush_tlb_field h : h_tlb (rv_mmu_flush h)
  = fun s => if (0 <=? s) && (s <? RV_TLB_ENTRIES) then invalid (h_tlb h s) else h_tlb h s.
Proof. reflexivity. Qed.

Lemma flush_dtlb_field h : h_dtlb (rv_mmu_flush h) = fun _ _ => no_dtlb.
Proof. reflexivity. Qed.

Lemma flush_itlb_field h : h_itlb (rv_mmu_flush h) = fun _ _ => no_dtlb.
Proof. reflexivity. Qed.

Lemma flush_caches h (p : phys Ext) : caches_ok (rv_mmu_flush h) p.
Proof.
  split; [|split].
  - intros s Hs. rewrite flush_tlb_field. rewrite (proj2 (Z.leb_le _ _)), (proj2 (Z.ltb_lt _ _)) by lia. discriminate.
  - intros priv s vpn Hp Hv. rewrite flush_dtlb_field. destruct (no_dtlb_tag vpn Hv). split; intros E; contradiction.
  - intros priv s vpn Hp Hv. rewrite flush_itlb_field. intros e E. destruct (no_dtlb_tag vpn Hv). contradiction.
Qed.

(** ** Which pages a leaf maps *)

Lemma walk0_leaf rd va table pte : walk_spec rd 0 va table <> Some (WLeaf 1 pte).
Proof.
  cbn [walk_spec]. destruct (rd _) as [[q|]|]; try discriminate.
  destruct (_ || _); [discriminate|]. destruct (_ =? _); [discriminate|]. cbn [Nat.eqb andb]. discriminate.
Qed.

Lemma walk_spec_1 rd va table :
  walk_spec rd 1 va table =
  match rd (table +! (Z.shiftr va 22 &! 1023) *! 4) with
  | None => None
  | Some None => Some WAccess
  | Some (Some pte) =>
      if negb (has pte PTE_V) || (has pte PTE_W && negb (has pte PTE_R)) then Some WPage
      else if pte &! (PTE_R |! PTE_X) =? 0 then
        if has pte (PTE_D |! PTE_A |! PTE_U) then Some WPage
        else if has pte PTE_PPN_PAST_BUS then Some WAccess else walk_spec rd 0 va (pte_page pte)
      else if has (pte_page pte) 4194303 then Some WPage else Some (WLeaf 1 pte)
  end.
Proof. reflexivity. Qed.

Lemma walk1_mega rd va va' table pte :
  Z.shiftr va 22 = Z.shiftr va' 22 -> walk_spec rd 1 va table = Some (WLeaf 1 pte) ->
  walk_spec rd 1 va' table = Some (WLeaf 1 pte).
Proof.
  rewrite !walk_spec_1. intros <- H. destruct (rd _) as [[q|]|]; try discriminate.
  destruct (_ || _); [discriminate|]. destruct (_ =? _); [|exact H]. exfalso.
  destruct (has _ _); [discriminate|]. destruct (has _ _); [discriminate|]. exact (walk0_leaf _ _ _ _ H).
Qed.

Lemma walk_mega h (p : phys Ext) va va' pte :
  Z.shiftr va 22 = Z.shiftr va' 22 -> walk h p va = Some (WLeaf 1 pte) -> walk h p va' = Some (WLeaf 1 pte).
Proof. unfold walk. apply walk1_mega. Qed.

(** The address [va'] is mapped by the leaf that maps [va]. *)
Definition same_leaf (h : rv_hart) (p : phys Ext) (va va' : Z) : Prop :=
  Z.shiftr va 12 = Z.shiftr va' 12 \/
  (Z.shiftr va 22 = Z.shiftr va' 22 /\ exists pte, walk h p va = Some (WLeaf 1 pte)).

(** Page tables that differ in the leaf of [va] at most. *)
Definition differ_at_leaf (h : rv_hart) (va : Z) (p p' : phys Ext) : Prop :=
  p_regions p' = p_regions p /\ forall va', is_u32 va' -> ~ same_leaf h p va va' -> walk h p' va' = walk h p va'.

Lemma page_shiftr vpn k : 0 <= k -> Z.shiftr (Z.shiftl vpn PAGE_SHIFT) (12 + k) = Z.shiftr vpn k.
Proof.
  intros Hk. unfold PAGE_SHIFT. rewrite <- Z.shiftr_shiftr by lia.
  rewrite Z.shiftr_shiftl_l, Z.sub_diag, Z.shiftl_0_r by lia. reflexivity.
Qed.

Lemma page_u32 vpn : 0 <= vpn < 2 ^ 20 -> is_u32 (Z.shiftl vpn PAGE_SHIFT).
Proof. intros H. unfold is_u32, PAGE_SHIFT. rewrite Z.shiftl_mul_pow2 by lia. lia. Qed.

(** An entry of another page, where no megapage was marked, has another leaf. *)
Lemma other_leaf h (p : phys Ext) va vpn level pte :
  mega_bit h (Z.shiftr va 22) = false -> vpn <> Z.shiftr va 12 ->
  walk h p (Z.shiftl vpn PAGE_SHIFT) = Some (WLeaf level pte) ->
  (level = 1%nat -> mega_bit h (Z.shiftr vpn 10) = true) ->
  ~ same_leaf h p va (Z.shiftl vpn PAGE_SHIFT).
Proof.
  intros Hm Hne Hw Hl [E|[E [q Hq]]].
  - replace 12 with (12 + 0) in E at 2 by lia. rewrite page_shiftr, Z.shiftr_0_r in E by lia. congruence.
  - rewrite (walk_mega h p va _ q E Hq) in Hw. injection Hw as <- <-.
    replace 22 with (12 + 10) in E at 2 by lia. rewrite page_shiftr in E by lia.
    rewrite E, Hl in Hm by reflexivity. discriminate.
Qed.

(** ** The page fence *)

Section Page.
Variables (h h' : rv_hart) (va : Z) (p p' : phys Ext).
Hypothesis Hmega : mega_bit h (Z.shiftr va 22) = false.
Hypothesis Hdiff : differ_at_leaf h va p p'.
Hypothesis Htab : same_tables h h'.
Hypothesis Hsame : h_mega_regions h' = h_mega_regions h.

Lemma tlb_entry_survives e level pte :
  0 <= t_vpn e < 2 ^ 20 -> t_vpn e <> Z.shiftr va 12 -> tlb_entry_ok h p e level pte -> tlb_entry_ok h' p' e level pte.
Proof.
  intros Hn Hne [H1 H2 H3 H4 H5]. split; auto.
  - rewrite (walk_ext h h') by exact Htab. destruct Hdiff as [_ Hd].
    rewrite Hd; [exact H1|apply page_u32; exact Hn|]. eapply other_leaf; eauto.
  - intros Hl. rewrite (mega_bit_ext h h') by exact Hsame. auto.
Qed.

Lemma promise_survives priv vpn acc pg :
  0 <= vpn < 2 ^ 20 -> vpn <> Z.shiftr va 12 -> promise h p priv vpn acc pg -> promise h' p' priv vpn acc pg.
Proof.
  intros Hn Hne [H1 H2]. destruct Htab as (E1 & E2 & E3). split.
  - rewrite E1. destruct (has _ _); [|exact H1]. destruct H1 as (level & pte & A & B & C & D & E).
    exists level, pte. rewrite (walk_ext h h') by exact Htab. destruct Hdiff as [_ Hd].
    rewrite Hd; [|apply page_u32; exact Hn|eapply other_leaf; eauto]. rewrite (mega_bit_ext h h') by exact Hsame. auto.
  - rewrite (pmp_check_ext h h') by assumption. exact H2.
Qed.

Lemma dtlb_entry_survives priv vpn acc e :
  0 <= vpn < 2 ^ 20 -> vpn <> Z.shiftr va 12 -> dtlb_entry_ok h p priv vpn acc e -> dtlb_entry_ok h' p' priv vpn acc e.
Proof.
  intros Hn Hne (pg & r & Hp & [R1 R2 R3 R4 R5] & Hb). exists pg, r. split; [apply promise_survives; assumption|].
  split; [|exact Hb]. destruct Hdiff as [Hr _]. split; auto. rewrite Hr. exact R1.
Qed.

Lemma itlb_entry_survives priv vpn e :
  0 <= vpn < 2 ^ 20 -> vpn <> Z.shiftr va 12 -> itlb_entry_ok h p priv vpn e -> itlb_entry_ok h' p' priv vpn e.
Proof. intros Hn Hne (pg & Hp & Ha). exists pg. split; [apply promise_survives; assumption|exact Ha]. Qed.

End Page.

Lemma table_range priv : 0 <= rv_dtlb_table priv < RV_DTLB_TABLES.
Proof. unfold rv_dtlb_table. destruct (_ || _); unfold RV_DTLB_TABLES; lia. Qed.

(** What is left in a slot names another page. *)
Lemma drop_slot_tag vpn tab priv s n :
  0 <= n < 2 ^ 20 -> let e := tab (rv_dtlb_table priv) s in
  let e' := drop_slot vpn (dtlb_slot vpn) tab (rv_dtlb_table priv) s in
  (d_read e' = n -> d_read e = n /\ e' = e /\ (dtlb_slot n = s -> n <> vpn)) /\
  (d_write e' = n -> d_write e = n /\ e' = e /\ (dtlb_slot n = s -> n <> vpn)).
Proof.
  intros Hn e e'. unfold e', drop_slot. pose proof (table_range priv).
  rewrite (proj2 (Z.leb_le _ _)), (proj2 (Z.ltb_lt _ _)) by lia. cbn [andb]. fold e.
  destruct (Z.eqb_spec s (dtlb_slot vpn)) as [Es|Es].
  - unfold drop_page. destruct (_ || _) eqn:Ed; cbn [d_read d_write].
    + unfold EMU_DTLB_NONE. split; intros; exfalso; lia.
    + bool_hyps. split; intros E; (split; [exact E|]); (split; [reflexivity|]); intros _ ->; contradiction.
  - split; intros E; (split; [exact E|]); (split; [reflexivity|]); intros Hs ->; congruence.
Qed.

Lemma flush_page_caches h va (p p' : phys Ext) :
  caches_ok h p -> differ_at_leaf h va p p' -> caches_ok (rv_mmu_flush_page h va) p'.
Proof.
  intros (C1 & C2 & C3) Hd. unfold rv_mmu_flush_page. destruct (mega_bit h (Z.shiftr va 22)) eqn:Em.
  { apply flush_caches. }
  set (vpn := Z.shiftr va 12). set (slot := tlb_slot vpn). set (e := h_tlb h slot).
  set (hit := t_valid e && _). set (h1 := if hit then _ else _).
  assert (Ht1 : h_tlb h1 = if hit then upd (h_tlb h) slot (invalid e) else h_tlb h) by (unfold h1; destruct hit; reflexivity).
  assert (Hd1 : h_dtlb h1 = h_dtlb h) by (unfold h1; destruct hit; reflexivity).
  assert (Hi1 : h_itlb h1 = h_itlb h) by (unfold h1; destruct hit; reflexivity).
  set (h' := rv_dtlb_flush_page h1 va).
  assert (Htab : same_tables h h') by (unfold h', h1; destruct hit; split; split; reflexivity).
  assert (Hmg : h_mega_regions h' = h_mega_regions h) by (unfold h', h1; destruct hit; reflexivity).
  split; [|split].
  - intros s Hs. change (h_tlb h' s) with (h_tlb h1 s). rewrite Ht1. intros Hv.
    assert (Hold : h_tlb h s = (if hit then upd (h_tlb h) slot (invalid e) else h_tlb h) s /\ t_vpn (h_tlb h s) <> vpn).
    { destruct (Z.eq_dec s slot) as [->|Hne].
      - destruct hit eqn:Eh; [rewrite upd_eq in Hv; discriminate|]. split; [reflexivity|]. fold e. fold e in Hv.
        unfold hit in Eh. rewrite Hv in Eh. cbn [andb] in Eh. apply Z.eqb_neq. exact Eh.
      - assert (E : h_tlb h s = (if hit then upd (h_tlb h) slot (invalid e) else h_tlb h) s)
          by (destruct hit; [rewrite upd_ne by assumption|]; reflexivity).
        split; [exact E|]. intros Ev. apply Hne. rewrite <- E in Hv. destruct (C1 s Hs Hv) as [Hsl _]. rewrite Ev in Hsl. symmetry. exact Hsl. }
    destruct Hold as [Eo Hne]. rewrite <- Eo in *. destruct (C1 s Hs Hv) as (Hsl & Hn & level & pte & He).
    split; [exact Hsl|]. split; [exact Hn|]. exists level, pte. eapply tlb_entry_survives; eauto.
  - intros priv s n Hp Hn.
    change (h_dtlb h' (rv_dtlb_table priv) s) with (drop_slot vpn (dtlb_slot vpn) (h_dtlb h1) (rv_dtlb_table priv) s).
    rewrite Hd1. destruct (drop_slot_tag vpn (h_dtlb h) priv s n Hn) as [D1 D2].
    destruct (C2 priv s n Hp Hn) as [E1 E2]. split; intros E.
    + destruct (D1 E) as (F1 & F2 & F3). destruct (E1 F1) as [G1 G2]. rewrite F2. split; [exact G1|].
      eapply dtlb_entry_survives; eauto.
    + destruct (D2 E) as (F1 & F2 & F3). destruct (E2 F1) as [G1 G2]. rewrite F2. split; [exact G1|].
      eapply dtlb_entry_survives; eauto.
  - intros priv s n Hp Hn.
    change (h_itlb h' (rv_dtlb_table priv) s) with (drop_slot vpn (dtlb_slot vpn) (h_itlb h1) (rv_dtlb_table priv) s).
    rewrite Hi1. destruct (drop_slot_tag vpn (h_itlb h) priv s n Hn) as [D1 _]. intros e0 E. subst e0.
    destruct (D1 E) as (F1 & F2 & F3). destruct (C3 priv s n Hp Hn F1) as [G1 G2]. rewrite F2. split; [exact G1|].
    eapply itlb_entry_survives; eauto.
Qed.

(** [C23] A fence that names an address is enough: if the TLB and both
    host-address tables were true to the page tables before the guest changed
    the leaf that maps [va], a page or a megapage, then after
    [rv_mmu_flush_page] they are true to the page tables as they are now --
    and architectural state is as it was. *)
Theorem fence_page_sound h va (p p' : phys Ext) :
  caches_ok h p -> differ_at_leaf h va p p' ->
  caches_ok (rv_mmu_flush_page h va) p' /\
  arch_eq (h <| h_vm_gen := h_vm_gen (rv_mmu_flush_page h va) |>) (rv_mmu_flush_page h va).
Proof.
  intros Hc Hd. split; [exact (flush_page_caches h va p p' Hc Hd)|].
  unfold rv_mmu_flush_page. destruct (mega_bit _ _); [reflexivity|]. destruct (_ && _); reflexivity.
Qed.

End Fence.
