(* ===== verification/RvMem.v ===== *)
(** * Loads and stores are the reference ones

    [ref_load] and [ref_store] have no cache and skip no check: alignment, the
    triggers, the walk, PMP, then one access of the region table.  The access
    paths of the hart -- two flags, three caches in front of the walk and the
    bus's own -- do the same. *)

From stdpp Require Import base list gmap.
From Stdlib Require Import ZArith Lia.
From S2P Require Import Prelude Bus BusProps RvHart RvBus RvPmp RvTrig RvMmu RvWalk RvAccess RvCoherent RvFill.

Open Scope Z_scope.
Open Scope u32_scope.

Section Mem.
Context `{Cfg : RvConfig} {Ext M : Type} {PB : PhysBus Ext M}.
Context {pt_read : Ext -> Z -> Z -> Z * Ext} {pt_write : Ext -> Z -> Z -> Z -> Ext}.
Context {PL : PhysBusLaws PB pt_read pt_write}.

(** ** The reference *)

(** At a physical address: PMP, then the table. *)
Definition ref_read (h : rv_hart) (p : phys Ext) (pa sz : Z) (sign : bool) : Z * option Z * phys Ext :=
  if negb (rv_pmp_check h pa sz EMU_ACC_LOAD) then (RV_EXC_LOAD_ACCESS_FAULT, None, p)
  else
    let '(f, v, hp, ex) := spec_read pt_read false (p_regions p) (p_heap p) (p_ext p) pa sz in
    (match f with
     | EMU_FAULT_NONE => (RV_EXC_NONE, option_map (extend sign sz) v)
     | _ => (rv_exc_from_fault f, None)
     end, Phys (p_regions p) hp ex).

Definition ref_load (h : rv_hart) (p : phys Ext) (va sz : Z) (sign : bool) : option (Z * option Z * phys Ext) :=
  if negb RV_MISALIGNED_OK && has va (sz - 1) then Some (RV_EXC_LOAD_MISALIGNED, None, p)
  else if rv_trig_check h va EMU_ACC_LOAD then Some (RV_EXC_BREAKPOINT, None, p)
  else
    match ref_translate h p va EMU_ACC_LOAD with
    | None => None
    | Some (e, pa) => if negb (e =? RV_EXC_NONE) then Some (e, None, p) else Some (ref_read h p pa sz sign)
    end.

(** Exception, hart (a store to the reserved word drops the reservation) and
    memory. *)
Definition ref_write (h : rv_hart) (p : phys Ext) (pa sz val : Z) : Z * rv_hart * phys Ext :=
  if negb (rv_pmp_check h pa sz EMU_ACC_STORE) then (RV_EXC_STORE_ACCESS_FAULT, h, p)
  else
    let '(f, _, hp, ex) := spec_write pt_write false (p_regions p) (p_heap p) (p_ext p) pa sz val in
    (rv_exc_from_fault f, drop_resv h pa, Phys (p_regions p) hp ex).

Definition ref_store (h : rv_hart) (p : phys Ext) (va sz val : Z) : option (Z * rv_hart * phys Ext) :=
  if negb RV_MISALIGNED_OK && has va (sz - 1) then Some (RV_EXC_STORE_MISALIGNED, h, p)
  else if rv_trig_check h va EMU_ACC_STORE then Some (RV_EXC_BREAKPOINT, h, p)
  else
    match ref_translate h p va EMU_ACC_STORE with
    | None => None
    | Some (e, pa) => if negb (e =? RV_EXC_NONE) then Some (e, h, p) else Some (ref_write h p pa sz val)
    end.

(** ** What the hart maintains *)

Record access_ok (h : rv_hart) : Prop := {
  ao_hart : hart_ok h;
  ao_data : legal_data h;
  ao_vm : h_vm_active h = has (h_satp h) SATP_MODE_SV32
            && (negb (h_priv h =? RV_PRIV_M) || negb (rv_hart_data_priv h =? RV_PRIV_M));
  ao_guard : h_data_guard h = h_pmp_active h || h_pmp_any h || h_vm_active h;
  ao_trig : trig_flag_ok h
}.

(** No region reaches the last byte of the address space. *)
Definition top_unmapped (p : phys Ext) : Prop := forall r, In r (p_regions p) -> base r + size r < 2 ^ 32.

(** ** Pieces *)

Lemma grant_top p a sz pm :
  table_ok (p_regions p) -> top_unmapped p -> is_u32 a -> access_size sz -> 2 ^ 32 <= a + sz ->
  grant (p_regions p) a sz pm = None.
Proof.
  intros [Hf _] Ht Hu Hs Hge. unfold grant. destruct (lookup_region _ a) as [r|] eqn:El; [|reflexivity].
  destruct (lookup_region_in _ _ _ El) as [Hin Hir].
  assert (Hr : region_ok r) by (rewrite Forall_forall in Hf; apply Hf, list_elem_of_In; assumption).
  apply in_region_spec in Hir; [|assumption..]. pose proof (region_off r a Hr Hu Hir) as Eo.
  specialize (Ht r Hin). destruct Hr as (? & ? & ?).
  assert (Hz : 1 <= sz <= 4) by (unfold access_size in Hs; lia).
  unfold region_allows. rewrite Eo. rewrite u32_id by (unfold is_u32; lia).
  rewrite (proj2 (Z.ltb_lt _ _)) by lia. reflexivity.
Qed.

Lemma ref_translate_u32 h p va acc pa :
  is_u32 va -> ref_translate (Ext := Ext) h p va acc = Some (RV_EXC_NONE, pa) -> is_u32 pa.
Proof.
  intros Hu. unfold ref_translate, spec_translate. destruct (has _ _); [|intros [= <-]; exact Hu].
  destruct (_ =? _); [intros [= <-]; exact Hu|]. destruct (walk h p va) as [[| |level pte]|]; try discriminate.
  - destruct acc; discriminate.
  - destruct acc; discriminate.
  - destruct (negb _); [destruct acc; discriminate|]. destruct (has _ _); [destruct acc; discriminate|]. intros [= <-].
    apply is_u32_lor; [apply leaf_base_shape|apply is_u32_land; [exact Hu|unfold PAGE_SIZE; lia]].
Qed.

(** Without the flag there is nothing to translate. *)
Lemma vm_inactive h p va acc : access_ok h -> h_vm_active h = false -> ref_translate (Ext := Ext) h p va acc = Some (RV_EXC_NONE, va).
Proof.
  intros Ho Hv. rewrite (ao_vm h Ho) in Hv. unfold ref_translate, spec_translate. destruct (has _ _); [|reflexivity].
  cbn [andb] in Hv. apply orb_false_iff in Hv as [H1 H2]. apply negb_false_iff, Z.eqb_eq in H1, H2.
  rewrite (acc_priv_M h acc H1 H2). reflexivity.
Qed.

Lemma vm_active h p va acc : access_ok h -> h_vm_active h = true -> ref_translate (Ext := Ext) h p va acc = spec_translate h p va acc.
Proof. intros Ho Hv. rewrite (ao_vm h Ho) in Hv. apply andb_true_iff in Hv as [H _]. unfold ref_translate. rewrite H. reflexivity. Qed.

Lemma pmp_skip h pa sz acc :
  access_ok h -> is_u32 pa -> access_size sz -> pa + sz < 2 ^ 32 ->
  rv_pmp_needed h pa sz && negb (rv_pmp_check h pa sz acc) = negb (rv_pmp_check h pa sz acc).
Proof.
  intros Ho Hu Hs Hlt. destruct (rv_pmp_needed h pa sz) eqn:E; [reflexivity|]. destruct (ao_hart h Ho) as [_ Hp Ha].
  rewrite (pmp_check_skipped h pa sz acc Ha Hp); [reflexivity|unfold is_u32 in Hu; lia|unfold access_size in Hs; lia|lia|exact E].
Qed.

(** The walks see the table and the heap. *)
Lemma walk_phys h (p p' : phys Ext) va : p_regions p' = p_regions p -> p_heap p' = p_heap p -> walk h p' va = walk h p va.
Proof.
  intros E1 E2. unfold walk. apply walk_spec_ext. intros a. unfold pte_rd, peek. rewrite E1, E2. reflexivity.
Qed.

Lemma translate_walks h (p p' : phys Ext) va acc :
  (forall a, walk h p' a = walk h p a) -> ref_translate h p' va acc = ref_translate h p va acc.
Proof. intros E. unfold ref_translate, spec_translate. rewrite E. reflexivity. Qed.

Lemma promise_walks h (p p' : phys Ext) priv vpn acc pg :
  (forall a, walk h p' a = walk h p a) -> promise h p priv vpn acc pg -> promise h p' priv vpn acc pg.
Proof.
  intros E [H1 H2]. split; [|exact H2]. destruct (has _ _); [|exact H1].
  destruct H1 as (level & pte & A). exists level, pte. rewrite E. exact A.
Qed.

Lemma caches_walks h (p p' : phys Ext) :
  p_regions p' = p_regions p -> (forall a, walk h p' a = walk h p a) -> caches_ok h p -> caches_ok h p'.
Proof.
  intros Er E (C1 & C2 & C3). split; [|split].
  - intros s Hs Hv. destruct (C1 s Hs Hv) as (A & A' & level & pte & [B1 B2 B3 B4 B5]). split; [exact A|]. split; [exact A'|].
    exists level, pte. split; auto. rewrite E. exact B1.
  - intros priv s vpn Hp Hv. destruct (C2 priv s vpn Hp Hv) as [A B].
    assert (Hent : forall acc e, dtlb_entry_ok h p priv vpn acc e -> dtlb_entry_ok h p' priv vpn acc e).
    { intros acc e (pg & r & P1 & [R1 R2 R3 R4 R5] & P3). exists pg, r. split; [eapply promise_walks; eauto|].
      split; [|exact P3]. split; auto. rewrite Er. exact R1. }
    split; intros Et; [destruct (A Et)|destruct (B Et)]; auto.
  - intros priv s vpn Hp Hv e Et. destruct (C3 priv s vpn Hp Hv Et) as (A & pg & P1 & P2). split; [exact A|].
    exists pg. split; [eapply promise_walks; eauto|exact P2].
Qed.

(** ** One fill, whatever the tables say *)

Lemma dtlb_fill_frame h (m : M) va pa h' m' :
  bus_ok m -> is_u32 pa -> rv_dtlb_fill h m va pa = (h', m') -> bus_ok m' /\ abs m' = abs m /\ arch_eq h h'.
Proof.
  intros Hm Hpa E. unfold rv_dtlb_fill in E.
  assert (Hid : bus_ok m /\ abs m = abs m /\ arch_eq h h) by (split; [exact Hm|split; reflexivity]).
  destruct (_ =? RV_PRIV_M); [injection E as <- <-; exact Hid|].
  destruct (d_read _ =? _); [injection E as <- <-; exact Hid|].
  destruct (if has _ _ then _ else _); [|injection E as <- <-; exact Hid].
  destruct (rv_pmp_page_rights _ _ _) as [[pr pw] px]. destruct (negb pr); [injection E as <- <-; exact Hid|].
  destruct (bus_find m (va_page pa)) as [r m1] eqn:Ef.
  destruct (law_find m _ r m1 Hm (proj1 (va_page_u32 pa Hpa)) Ef) as (_ & Hm1 & Ha1).
  destruct r as [r|]; [destruct (negb _)|]; injection E as <- <-; (split; [exact Hm1|]); (split; [exact Ha1|]); reflexivity.
Qed.

(** ** Loads *)

Lemma spec_read_heap rs hp ex a sz f v hp' ex' :
  spec_read pt_read false rs hp ex a sz = (f, v, hp', ex') -> hp' = hp.
Proof.
  unfold spec_read. destruct (grant _ _ _ _) as [[r o]|]; [|intros [= _ _ <- _]; reflexivity].
  destruct (kind r); try (intros [= _ _ <- _]; reflexivity).
  - destruct (ops r) as [d|]; [destruct (dev_read d ex o sz) as [[? ?] ?]|]; intros [= _ _ <- _]; reflexivity.
  - destruct (pt_read _ _ _). intros [= _ _ <- _]; reflexivity.
Qed.

Lemma phys_eta (p : phys Ext) : Phys (p_regions p) (p_heap p) (p_ext p) = p.
Proof. destruct p. reflexivity. Qed.

(** The outcome of a guarded access: what the reference says of exception,
    value and memory, coherent caches, the architectural state of [h0]. *)
Definition lands (h0 : rv_hart) (out : rv_hart * M) (p' : phys Ext) : Prop :=
  bus_ok (snd out) /\ abs (snd out) = p' /\ arch_eq h0 (fst out).

Lemma load_bus_spec h (m : M) va pa sz sign e v p' :
  access_ok h -> bus_ok m -> caches_ok h (abs m) -> top_unmapped (abs m) -> is_u32 va -> access_size sz ->
  ref_translate h (abs m) va EMU_ACC_LOAD = Some (RV_EXC_NONE, pa) -> ref_read h (abs m) pa sz sign = (e, v, p') ->
  exists h' m', load_bus h m va pa sz sign = (e, v, h', m') /\ lands h (h', m') p' /\ caches_ok h' p'.
Proof.
  intros Ho Hm Hc Ht Hu Hs Htr Href. pose proof (ref_translate_u32 _ _ _ _ _ Hu Htr) as Hpa.
  assert (Hstop : forall m1, bus_ok m1 -> abs m1 = abs m -> lands h (h, m1) (abs m) /\ caches_ok h (abs m))
    by (intros m1 H1 H2; split; [split; [exact H1|split; [exact H2|reflexivity]]|exact Hc]).
  unfold load_bus, ref_read in *. destruct (bus_read m pa sz) as [[f v1] m1] eqn:Eb.
  destruct (law_read m pa sz f v1 m1 Hm Hpa Hs Eb) as (Hm1 & Er1 & Hsp).
  destruct (Z.lt_ge_cases (pa + sz) (2 ^ 32)) as [Hlt|Hge].
  - rewrite (pmp_skip h pa sz EMU_ACC_LOAD Ho Hpa Hs Hlt).
    destruct (negb _); [injection Href as <- <- <-; exists h, m; split; [reflexivity|auto]|].
    rewrite Hsp in Href. pose proof (spec_read_heap _ _ _ _ _ _ _ _ _ Hsp) as Eh1.
    assert (Ep : abs m1 = p').
    { injection Href as _ <-. symmetry. rewrite <- Er1. apply phys_eta. }
    assert (Hc1 : caches_ok h (abs m1)) by (apply (caches_walks h (abs m)); auto using walk_phys).
    destruct f; injection Href as <- <- _;
      try (exists h, m1; split; [reflexivity|]; split; [split; [exact Hm1|split; [exact Ep|reflexivity]]|rewrite <- Ep; exact Hc1]).
    destruct (rv_dtlb_fill h m1 va pa) as [h2 m2] eqn:Ef.
    destruct (dtlb_fill_ok h m1 va pa EMU_ACC_LOAD h2 m2 Hm1 Hc1 (ao_data h Ho) Hu Hpa ltac:(discriminate)) as (F1 & F2 & F3 & F4);
      [rewrite (translate_walks h (abs m) (abs m1)); auto using walk_phys|exact Ef|].
    exists h2, m2. split; [reflexivity|]. rewrite <- Ep. split; [split; [exact F1|split; [exact F2|exact F4]]|exact F3].
  - unfold spec_read in Href, Hsp. rewrite (grant_top (abs m) pa sz EMU_PERM_R (law_table m Hm) Ht Hpa Hs Hge) in Href, Hsp.
    injection Hsp as <- <- Eh Ee. rewrite phys_eta in Href.
    assert (Em : abs m1 = abs m) by (apply phys_eq; congruence).
    replace e with RV_EXC_LOAD_ACCESS_FAULT by (destruct (negb _) in Href; injection Href as <- _ _; reflexivity).
    replace v with (@None Z) by (destruct (negb _) in Href; injection Href as _ <- _; reflexivity).
    replace p' with (abs m) by (destruct (negb _) in Href; injection Href as _ _ <-; reflexivity).
    destruct (_ && _); [exists h, m|exists h, m1]; (split; [reflexivity|auto]).
Qed.

Lemma hart_ok_arch h h' : arch_eq h h' -> hart_ok h -> hart_ok h'.
Proof.
  intros Ha [H1 H2 H3]. pose proof (arch_eq_fields h h' Ha) as F.
  assert (Hd : rv_hart_data_priv h' = rv_hart_data_priv h)
    by (unfold rv_hart_data_priv; rewrite (af_mstatus _ _ F), (af_priv _ _ F); reflexivity).
  assert (Hcfg : forall i, pmp_cfg h' i = pmp_cfg h i) by (intros i; unfold pmp_cfg; rewrite (af_pmpcfg _ _ F); reflexivity).
  split.
  - unfold mprv_ok. rewrite (af_priv _ _ F), (af_mstatus _ _ F). exact H1.
  - destruct H2 as [A B]. split.
    + rewrite (af_active _ _ F), (af_priv _ _ F), Hd. intros E. destruct (A E) as (A1 & A2 & A3).
      split; [exact A1|]. split; [exact A2|]. intros i Hi. rewrite Hcfg. auto.
    + rewrite (af_any _ _ F). intros E i Hi. rewrite Hcfg. auto.
  - unfold pmpaddr_ok. rewrite (af_pmpaddr _ _ F). exact H3.
Qed.

Lemma access_ok_arch h h' : arch_eq h h' -> access_ok h -> access_ok h'.
Proof.
  intros Ha [H1 H2 H3 H4 H5]. pose proof (arch_eq_fields h h' Ha) as F.
  assert (Hd : rv_hart_data_priv h' = rv_hart_data_priv h)
    by (unfold rv_hart_data_priv; rewrite (af_mstatus _ _ F), (af_priv _ _ F); reflexivity).
  split.
  - eapply hart_ok_arch; eauto.
  - unfold legal_data. rewrite Hd. exact H2.
  - rewrite (af_vm _ _ F), (af_satp _ _ F), (af_priv _ _ F), Hd. exact H3.
  - rewrite (af_guard _ _ F), (af_active _ _ F), (af_any _ _ F), (af_vm _ _ F). exact H4.
  - unfold trig_flag_ok. rewrite (af_trig _ _ F), (af_tdata1 _ _ F). exact H5.
Qed.

(** ** After a translation *)

Lemma promise_filled h (p : phys Ext) va level pte priv vpn acc pg :
  promise h p priv vpn acc pg -> promise (tlb_filled h va level pte) p priv vpn acc pg.
Proof.
  intros [H1 H2]. destruct (tlb_filled_same h va level pte) as (E1 & E2 & E3). split.
  - rewrite E1. destruct (has _ _); [|exact H1]. destruct H1 as (l & q & A & B & C & D & E).
    exists l, q. rewrite walk_filled. auto 10 using tlb_filled_mega.
  - rewrite (pmp_check_ext h) by assumption. exact H2.
Qed.

Lemma caches_filled h (p : phys Ext) h' :
  same_but_tlb h h' -> caches_ok h p -> tlb_ok h' p -> caches_ok h' p.
Proof.
  intros [->|(va & level & pte & ->)] (C1 & C2 & C3) Ht; [split; auto|]. split; [exact Ht|].
  assert (Ed : h_dtlb (tlb_filled h va level pte) = h_dtlb h) by (unfold tlb_filled; destruct (level =? 1)%nat; reflexivity).
  assert (Ei : h_itlb (tlb_filled h va level pte) = h_itlb h) by (unfold tlb_filled; destruct (level =? 1)%nat; reflexivity).
  split.
  - intros priv s vpn Hp Hv. rewrite Ed. destruct (C2 priv s vpn Hp Hv) as [A B].
    split; intros E; [destruct (A E) as (X & pg & r & P & R)|destruct (B E) as (X & pg & r & P & R)];
      (split; [exact X|]); exists pg, r; (split; [apply promise_filled; exact P|exact R]).
  - intros priv s vpn Hp Hv. rewrite Ei. intros e E. destruct (C3 priv s vpn Hp Hv E) as (X & pg & P & R).
    split; [exact X|]. exists pg. split; [apply promise_filled; exact P|exact R].
Qed.

Lemma arch_eq_refl h : arch_eq h h.
Proof. reflexivity. Qed.

Lemma arch_data_priv h h' : arch_eq h h' -> rv_hart_data_priv h' = rv_hart_data_priv h.
Proof.
  intros Ha. pose proof (arch_eq_fields h h' Ha) as F. unfold rv_hart_data_priv.
  rewrite (af_mstatus _ _ F), (af_priv _ _ F). reflexivity.
Qed.

Lemma arch_acc_priv h h' acc : arch_eq h h' -> acc_priv h' acc = acc_priv h acc.
Proof.
  intros Ha. destruct acc; cbn [acc_priv]; try exact (arch_data_priv h h' Ha). exact (af_priv _ _ (arch_eq_fields h h' Ha)).
Qed.

Lemma arch_pmp_check h h' a sz acc : arch_eq h h' -> rv_pmp_check h' a sz acc = rv_pmp_check h a sz acc.
Proof.
  intros Ha. pose proof (arch_eq_fields h h' Ha) as F. unfold rv_pmp_check. rewrite (arch_acc_priv h h' acc Ha).
  apply pmp_check_ext; apply F.
Qed.

Lemma arch_same_tables h h' : arch_eq h h' -> same_tables h h'.
Proof. intros Ha. pose proof (arch_eq_fields h h' Ha) as F. split; [apply F|split; apply F]. Qed.

Lemma translate_fields h h' (p : phys Ext) va acc :
  same_tables h h' -> h_mstatus h' = h_mstatus h -> h_priv h' = h_priv h ->
  ref_translate h' p va acc = ref_translate h p va acc.
Proof.
  intros Ht Em Ep. assert (Ea : acc_priv h' acc = acc_priv h acc)
    by (destruct acc; cbn [acc_priv]; unfold rv_hart_data_priv; rewrite ?Em, ?Ep; reflexivity).
  unfold ref_translate, spec_translate, leaf_permits. rewrite (walk_ext h h') by exact Ht.
  rewrite Ea, Em, (proj1 Ht). reflexivity.
Qed.

Lemma arch_translate h h' (p : phys Ext) va acc : arch_eq h h' -> ref_translate h' p va acc = ref_translate h p va acc.
Proof.
  intros Ha. pose proof (arch_eq_fields h h' Ha) as F. apply translate_fields; [apply arch_same_tables; exact Ha|apply F..].
Qed.

Lemma arch_ref_read h h' (p : phys Ext) pa sz sign : arch_eq h h' -> ref_read h' p pa sz sign = ref_read h p pa sz sign.
Proof. intros Ha. unfold ref_read. rewrite (arch_pmp_check h h') by exact Ha. reflexivity. Qed.

Lemma lands_trans h h1 out p' : arch_eq h h1 -> lands h1 out p' -> lands h out p'.
Proof. intros Ha (A & B & C). split; [exact A|split; [exact B|]]. etransitivity; eauto. Qed.

Lemma load_guarded_spec h (m : M) va sz sign e v p' :
  access_ok h -> bus_ok m -> caches_ok h (abs m) -> top_unmapped (abs m) -> is_u32 va -> access_size sz ->
  h_vm_active h && (RV_MISALIGNED_OK && crosses_page va sz) = false ->
  match ref_translate h (abs m) va EMU_ACC_LOAD with
  | None => None
  | Some (e, pa) => if negb (e =? RV_EXC_NONE) then Some (e, None, abs m) else Some (ref_read h (abs m) pa sz sign)
  end = Some (e, v, p') ->
  exists h' m', load_guarded h m va sz sign = (e, v, h', m') /\ lands h (h', m') p' /\ caches_ok h' p'.
Proof.
  intros Ho Hm Hc Ht Hu Hs Hx Href. unfold load_guarded. destruct (dtlb_probe h va sz false) as [en|] eqn:Ep.
  - assert (Hl : low_priv (rv_hart_data_priv h)).
    { destruct (probe_inv _ _ _ _ _ Ep) as (Hn & _). destruct (ao_data h Ho) as [Hd|Hd]; [contradiction|exact Hd]. }
    destruct (dtlb_hit_load pt_read h (abs m) va sz en (law_table m Hm) (proj1 (proj2 Hc)) Hl Hu Hs Ep) as (pa & T1 & T2 & T3).
    rewrite T1 in Href. rewrite Z.eqb_refl in Href. cbn [negb] in Href. injection Href as Href.
    unfold ref_read in Href. rewrite T2, T3, phys_eta in Href. cbn [negb option_map] in Href. injection Href as <- <- <-.
    exists h, m. rewrite law_host_read. split; [reflexivity|].
    split; [split; [exact Hm|split; reflexivity]|exact Hc].
  - destruct (h_vm_active h) eqn:Ev.
    + cbn [andb] in Hx. rewrite Hx. rewrite (vm_active h _ _ _ Ho Ev) in Href.
      destruct (spec_translate h (abs m) va EMU_ACC_LOAD) as [[e0 pa]|] eqn:Es; [|discriminate].
      destruct (translate_spec h m va EMU_ACC_LOAD e0 pa (ao_hart h Ho) Hm Hu (proj1 Hc) Es) as (h1 & m1 & E1 & Hm1 & Ea1 & Ht1 & Hb1).
      rewrite E1. pose proof (same_but_tlb_arch _ _ Hb1) as Harch. rewrite Ea1 in Ht1.
      pose proof (caches_filled _ _ _ Hb1 Hc Ht1) as Hc1.
      destruct (Z.eqb_spec e0 RV_EXC_NONE) as [->|He]; cbn [negb] in *.
      * injection Href as Href. rewrite <- (arch_ref_read h h1), <- Ea1 in Href by exact Harch.
        destruct (load_bus_spec h1 m1 va pa sz sign e v p') as (h2 & m2 & E2 & L2 & C2); try assumption.
        -- eapply access_ok_arch; eauto.
        -- rewrite Ea1. exact Hc1.
        -- rewrite Ea1. exact Ht.
        -- rewrite Ea1, (arch_translate h h1) by exact Harch. rewrite (vm_active h _ _ _ Ho Ev). exact Es.
        -- exists h2, m2. split; [exact E2|]. split; [eapply lands_trans; eauto|exact C2].
      * injection Href as <- <- <-. exists h1, m1. split; [reflexivity|].
        split; [split; [exact Hm1|split; [exact Ea1|exact Harch]]|exact Hc1].
    + rewrite (vm_inactive h _ _ _ Ho Ev) in Href. rewrite Z.eqb_refl in Href. cbn [negb] in Href. injection Href as Href.
      apply load_bus_spec; auto. apply vm_inactive; assumption.
Qed.

Lemma load_ok h (m : M) va sz sign e v p' :
  access_ok h -> bus_ok m -> caches_ok h (abs m) -> top_unmapped (abs m) -> is_u32 va -> access_size sz ->
  h_vm_active h && (RV_MISALIGNED_OK && crosses_page va sz) = false ->
  ref_load h (abs m) va sz sign = Some (e, v, p') ->
  exists h' m', rv_hart_load h m va sz sign = (e, v, h', m') /\
    bus_ok m' /\ abs m' = p' /\ caches_ok h' p' /\ arch_eq h h'.
Proof.
  intros Ho Hm Hc Ht Hu Hs Hx Href. unfold ref_load, rv_hart_load in *.
  destruct (_ && has va (sz - 1)).
  { injection Href as <- <- <-. exists h, m. auto 10 using arch_eq_refl. }
  assert (Etr : h_trig_active h && rv_trig_check h va EMU_ACC_LOAD = rv_trig_check h va EMU_ACC_LOAD).
  { destruct (h_trig_active h) eqn:Ea; [reflexivity|]. rewrite (trig_check_inactive h va _ (ao_trig h Ho) Ea). reflexivity. }
  rewrite Etr. destruct (rv_trig_check h va EMU_ACC_LOAD).
  { injection Href as <- <- <-. exists h, m. auto 10 using arch_eq_refl. }
  destruct (h_data_guard h) eqn:Eg.
  - destruct (load_guarded_spec h m va sz sign e v p' Ho Hm Hc Ht Hu Hs Hx Href) as (h' & m' & E & (L1 & L2 & L3) & C).
    exists h', m'. auto.
  - rewrite (ao_guard h Ho) in Eg. apply orb_false_iff in Eg as [Eg Ev]. apply orb_false_iff in Eg as [Ea En].
    rewrite (vm_inactive h _ _ _ Ho Ev), Z.eqb_refl in Href. cbn [negb] in Href. injection Href as Href.
    unfold ref_read in Href. destruct (bus_read m va sz) as [[f v1] m1] eqn:Eb.
    destruct (law_read m va sz f v1 m1 Hm Hu Hs Eb) as (Hm1 & Er1 & Hsp). pose proof (spec_read_heap _ _ _ _ _ _ _ _ _ Hsp) as Eh1.
    assert (Ep : Phys (p_regions (abs m)) (p_heap (abs m1)) (p_ext (abs m1)) = abs m1) by (rewrite <- Er1; apply phys_eta).
    rewrite Hsp, Ep in Href.
    assert (Hc1 : caches_ok h (abs m1)) by (apply (caches_walks h (abs m)); auto using walk_phys).
    assert (Hfin : (match f with EMU_FAULT_NONE => (RV_EXC_NONE, option_map (extend sign sz) v1) | _ => (rv_exc_from_fault f, None) end, abs m1)
                   = (e, v, p')).
    { destruct (Z.lt_ge_cases (va + sz) (2 ^ 32)) as [Hlt|Hge].
      - rewrite <- (pmp_skip h va sz EMU_ACC_LOAD Ho Hu Hs Hlt) in Href. unfold rv_pmp_needed in Href.
        rewrite Ea, En in Href. exact Href.
      - unfold spec_read in Hsp. rewrite (grant_top (abs m) va sz EMU_PERM_R (law_table m Hm) Ht Hu Hs Hge) in Hsp.
        injection Hsp as <- <- Eh Ee. destruct (negb _); [|exact Href]. rewrite <- Href. cbn.
        f_equal. apply phys_eq; congruence. }
    exists h, m1. destruct f; injection Hfin as <- <- <-; auto 10 using arch_eq_refl.
Qed.

(** ** Stores *)

Lemma drop_resv_caches h (p : phys Ext) a : caches_ok h p -> caches_ok (drop_resv h a) p.
Proof.
  intros (C1 & C2 & C3). unfold drop_resv. destruct (_ && _); [|split; auto].
  split; [eapply tlb_ok_ext; [| | |exact C1]|split; [eapply dtlb_ok_ext; [| | |exact C2]|eapply itlb_ok_ext; [| | |exact C3]]];
    solve [reflexivity | split; [|split]; reflexivity].
Qed.

Lemma erase_resv h : erase (h <| h_resv_valid := false |>) = (erase h) <| h_resv_valid := false |>.
Proof. reflexivity. Qed.

Lemma drop_resv_arch h h' a : arch_eq h h' -> arch_eq (drop_resv h a) (drop_resv h' a).
Proof.
  intros Ha. pose proof (arch_eq_fields h h' Ha) as F. unfold drop_resv.
  rewrite (af_rv _ _ F), (af_ra _ _ F). destruct (_ && _); [|exact Ha].
  unfold arch_eq in *. rewrite !erase_resv, Ha. reflexivity.
Qed.

Lemma drop_resv_tables h a : same_tables h (drop_resv h a).
Proof. unfold drop_resv. destruct (_ && _); split; [|split| |split]; reflexivity. Qed.

Lemma drop_resv_translate h (p : phys Ext) va acc a : ref_translate (drop_resv h a) p va acc = ref_translate h p va acc.
Proof.
  apply translate_fields; [apply drop_resv_tables|..]; unfold drop_resv; destruct (_ && _); reflexivity.
Qed.

Lemma drop_resv_walk h (p : phys Ext) va a : walk (drop_resv h a) p va = walk h p va.
Proof. apply walk_ext, drop_resv_tables. Qed.

Lemma drop_resv_legal h a : legal_data h -> legal_data (drop_resv h a).
Proof. unfold drop_resv. destruct (_ && _); intros H; exact H. Qed.

(** What a store leaves: the reference's exception, hart and memory, and
    coherent caches unless it changed a page table in use. *)
Definition stores (h hr : rv_hart) (p p' : phys Ext) (h' : rv_hart) (m' : M) : Prop :=
  bus_ok m' /\ abs m' = p' /\ arch_eq hr h' /\
  ((forall a, walk h p' a = walk h p a) -> caches_ok h' p').

Lemma write_phys (m : M) a sz v f m1 :
  bus_ok m -> is_u32 a -> access_size sz -> bus_write m a sz v = (f, m1) ->
  bus_ok m1 /\ p_regions (abs m1) = p_regions (abs m) /\
  (let '(f', _, hp, ex) := spec_write pt_write false (p_regions (abs m)) (p_heap (abs m)) (p_ext (abs m)) a sz v in
   (f', Phys (p_regions (abs m)) hp ex)) = (f, abs m1).
Proof.
  intros Hm Hu Hs Eb. destruct (law_write m a sz v f m1 Hm Hu Hs Eb) as (Hm1 & Er1 & Hsp).
  split; [exact Hm1|]. split; [exact Er1|]. rewrite Hsp. f_equal. rewrite <- Er1. apply phys_eta.
Qed.

Lemma store_bus_spec h (m : M) va pa sz val e hr p' :
  access_ok h -> bus_ok m -> caches_ok h (abs m) -> is_u32 va -> access_size sz -> pa + sz < 2 ^ 32 ->
  ref_translate h (abs m) va EMU_ACC_STORE = Some (RV_EXC_NONE, pa) -> ref_write h (abs m) pa sz val = (e, hr, p') ->
  exists h' m', store_bus h m va pa sz val = (e, h', m') /\ stores h hr (abs m) p' h' m'.
Proof.
  intros Ho Hm Hc Hu Hs Hlt Htr Href. pose proof (ref_translate_u32 _ _ _ _ _ Hu Htr) as Hpa.
  unfold store_bus, ref_write in *. rewrite (pmp_skip h pa sz EMU_ACC_STORE Ho Hpa Hs Hlt).
  destruct (negb _).
  { injection Href as <- <- <-. exists h, m. split; [reflexivity|]. split; [exact Hm|split; [reflexivity|split; [reflexivity|auto]]]. }
  destruct (bus_write m pa sz val) as [f m1] eqn:Eb.
  destruct (write_phys m pa sz val f m1 Hm Hpa Hs Eb) as (Hm1 & Er1 & Hsp).
  destruct (spec_write _ _ _ _ _ _ _ _) as [[[f' v'] hp] ex]. injection Hsp as -> Ep. rewrite Ep in Href.
  injection Href as <- <- <-.
  assert (Hc1 : (forall a, walk h (abs m1) a = walk h (abs m) a) -> caches_ok (drop_resv h pa) (abs m1)).
  { intros Hw. apply (caches_walks _ (abs m)); [exact Er1| |apply drop_resv_caches; exact Hc].
    intros a. rewrite !drop_resv_walk. apply Hw. }
  destruct f; try (exists (drop_resv h pa), m1; split; [reflexivity|]; split; [exact Hm1|split; [reflexivity|split; [reflexivity|exact Hc1]]]).
  destruct (rv_dtlb_fill (drop_resv h pa) m1 va pa) as [h2 m2] eqn:Ef.
  destruct (dtlb_fill_frame _ _ _ _ _ _ Hm1 Hpa Ef) as (F1 & F2 & F3).
  exists h2, m2. split; [reflexivity|]. split; [exact F1|]. split; [exact F2|]. split; [exact F3|]. intros Hw.
  assert (Htr1 : ref_translate (drop_resv h pa) (abs m1) va EMU_ACC_STORE = Some (RV_EXC_NONE, pa))
    by (rewrite drop_resv_translate, (translate_walks h (abs m)) by exact Hw; exact Htr).
  exact (proj1 (proj2 (proj2 (dtlb_fill_ok _ m1 va pa EMU_ACC_STORE h2 m2 Hm1 (Hc1 Hw) (drop_resv_legal h pa (ao_data h Ho)) Hu Hpa
           ltac:(discriminate) Htr1 Ef)))).
Qed.

Lemma arch_ref_write h h' (p : phys Ext) pa sz v e hr p' :
  arch_eq h h' -> ref_write h p pa sz v = (e, hr, p') -> exists hr', ref_write h' p pa sz v = (e, hr', p') /\ arch_eq hr hr'.
Proof.
  intros Ha. unfold ref_write. rewrite (arch_pmp_check h h') by exact Ha. destruct (negb _).
  - intros [= <- <- <-]. eauto.
  - destruct (spec_write _ _ _ _ _ _ _ _) as [[[f v'] hp] ex]. intros [= <- <- <-]. eauto using drop_resv_arch.
Qed.

Lemma store_guarded_spec h (m : M) va sz val e hr p' :
  access_ok h -> bus_ok m -> caches_ok h (abs m) -> is_u32 va -> access_size sz ->
  h_vm_active h && (RV_MISALIGNED_OK && crosses_page va sz) = false ->
  (forall pa, ref_translate h (abs m) va EMU_ACC_STORE = Some (RV_EXC_NONE, pa) -> pa + sz < 2 ^ 32) ->
  match ref_translate h (abs m) va EMU_ACC_STORE with
  | None => None
  | Some (e, pa) => if negb (e =? RV_EXC_NONE) then Some (e, h, abs m) else Some (ref_write h (abs m) pa sz val)
  end = Some (e, hr, p') ->
  exists h' m', store_guarded h m va sz val = (e, h', m') /\ stores h hr (abs m) p' h' m'.
Proof.
  intros Ho Hm Hc Hu Hs Hx Htop Href. unfold store_guarded.
  destruct (if h_resv_valid h then None else dtlb_probe h va sz true) as [en|] eqn:Ep.
  - destruct (h_resv_valid h) eqn:Erv; [discriminate|].
    assert (Hl : low_priv (rv_hart_data_priv h)).
    { destruct (probe_inv _ _ _ _ _ Ep) as (Hn & _). destruct (ao_data h Ho) as [Hd|Hd]; [contradiction|exact Hd]. }
    destruct (dtlb_hit_store pt_write h (abs m) va sz en val (law_table m Hm) (proj1 (proj2 Hc)) Hl Hu Hs Ep) as (pa & T1 & T2 & T3).
    rewrite T1 in Href. rewrite Z.eqb_refl in Href. cbn [negb] in Href. injection Href as Href.
    unfold ref_write in Href. rewrite T2, T3 in Href. cbn [negb rv_exc_from_fault] in Href.
    unfold drop_resv in Href. rewrite Erv in Href. cbn [andb] in Href. injection Href as <- <- <-.
    destruct (law_host_write m (d_buf en) (va + d_addend en) sz val Hm) as [W1 W2].
    exists h, (host_write m (d_buf en) (va + d_addend en) sz val). split; [reflexivity|].
    split; [exact W1|]. split; [exact W2|]. split; [reflexivity|]. intros Hw.
    apply (caches_walks h (abs m)); [reflexivity|exact Hw|exact Hc].
  - clear Ep. destruct (h_vm_active h) eqn:Ev.
    + cbn [andb] in Hx. rewrite Hx. pose proof (vm_active h (abs m) va EMU_ACC_STORE Ho Ev) as Evm.
      rewrite Evm in Href. destruct (spec_translate h (abs m) va EMU_ACC_STORE) as [[e0 pa]|] eqn:Es; [|discriminate].
      destruct (translate_spec h m va EMU_ACC_STORE e0 pa (ao_hart h Ho) Hm Hu (proj1 Hc) Es) as (h1 & m1 & E1 & Hm1 & Ea1 & Ht1 & Hb1).
      rewrite E1. pose proof (same_but_tlb_arch _ _ Hb1) as Harch. rewrite Ea1 in Ht1.
      pose proof (caches_filled _ _ _ Hb1 Hc Ht1) as Hc1.
      destruct (Z.eqb_spec e0 RV_EXC_NONE) as [->|He]; cbn [negb] in *.
      * injection Href as Href. destruct (arch_ref_write h h1 _ _ _ _ _ _ _ Harch Href) as (hr' & Href' & Har).
        rewrite <- Ea1 in Href'.
        destruct (store_bus_spec h1 m1 va pa sz val e hr' p') as (h2 & m2 & E2 & S1 & S2 & S3 & S4); try assumption.
        -- eapply access_ok_arch; eauto.
        -- rewrite Ea1. exact Hc1.
        -- apply Htop. exact Evm.
        -- rewrite Ea1, (arch_translate h h1) by exact Harch. exact Evm.
        -- exists h2, m2. split; [exact E2|]. split; [exact S1|]. split; [exact S2|]. split; [etransitivity; eauto|].
           intros Hw. apply S4. intros a. rewrite Ea1, !(walk_ext h h1) by (apply arch_same_tables; exact Harch). apply Hw.
      * injection Href as <- <- <-. exists h1, m1. split; [reflexivity|].
        split; [exact Hm1|]. split; [exact Ea1|]. split; [exact Harch|auto].
    + pose proof (vm_inactive h (abs m) va EMU_ACC_STORE Ho Ev) as Evm. rewrite Evm, Z.eqb_refl in Href.
      cbn [negb] in Href. injection Href as Href. apply store_bus_spec; auto.
Qed.

(** A store the flags let through is the reference store. *)
Lemma hart_store_ok h (m : M) va sz val e hr p' :
  access_ok h -> bus_ok m -> caches_ok h (abs m) -> is_u32 va -> access_size sz ->
  h_vm_active h && (RV_MISALIGNED_OK && crosses_page va sz) = false ->
  (forall pa, ref_translate h (abs m) va EMU_ACC_STORE = Some (RV_EXC_NONE, pa) -> pa + sz < 2 ^ 32) ->
  ref_store h (abs m) va sz val = Some (e, hr, p') ->
  exists h' m', rv_hart_store h m va sz val = (e, h', m') /\ stores h hr (abs m) p' h' m'.
Proof.
  intros Ho Hm Hc Hu Hs Hx Htop Href. unfold ref_store, rv_hart_store in *.
  assert (Hstay : stores h h (abs m) (abs m) h m)
    by (split; [exact Hm|split; [reflexivity|split; [reflexivity|intros _; exact Hc]]]).
  destruct (_ && has va (sz - 1)).
  { injection Href as <- <- <-. exists h, m. auto. }
  assert (Etr : h_trig_active h && rv_trig_check h va EMU_ACC_STORE = rv_trig_check h va EMU_ACC_STORE).
  { destruct (h_trig_active h) eqn:Ea; [reflexivity|]. rewrite (trig_check_inactive h va _ (ao_trig h Ho) Ea). reflexivity. }
  rewrite Etr. destruct (rv_trig_check h va EMU_ACC_STORE).
  { injection Href as <- <- <-. exists h, m. auto. }
  destruct (h_data_guard h) eqn:Eg; [apply store_guarded_spec; assumption|].
  rewrite (ao_guard h Ho) in Eg. apply orb_false_iff in Eg as [Eg Ev]. apply orb_false_iff in Eg as [Ea En].
  pose proof (vm_inactive h (abs m) va EMU_ACC_STORE Ho Ev) as Evm.
  rewrite Evm, Z.eqb_refl in Href. cbn [negb] in Href. injection Href as Href.
  unfold ref_write in Href. rewrite <- (pmp_skip h va sz EMU_ACC_STORE Ho Hu Hs (Htop va Evm)) in Href.
  unfold rv_pmp_needed in Href. rewrite Ea, En in Href. cbn [orb andb] in Href.
  destruct (bus_write m va sz val) as [f m1] eqn:Eb.
  destruct (write_phys m va sz val f m1 Hm Hu Hs Eb) as (Hm1 & Er1 & Hsp).
  destruct (spec_write _ _ _ _ _ _ _ _) as [[[f' v'] hp] ex]. injection Hsp as -> Ep. rewrite Ep in Href.
  injection Href as <- <- <-. exists (drop_resv h va), m1. split; [reflexivity|].
  split; [exact Hm1|]. split; [reflexivity|]. split; [reflexivity|]. intros Hw.
  apply (caches_walks _ (abs m)); [exact Er1| |apply drop_resv_caches; exact Hc].
  intros a. rewrite !drop_resv_walk. apply Hw.
Qed.

(** [C24] A load is the reference load and a store the reference store: for every access that stays in its
    page, or is not translated, [rv_hart_load] -- with its flags, the data
    table, the TLB, the PMP shortcut and the bus caches -- raises the same
    exception or returns the same value as [ref_load], leaves memory and
    devices as it does, changes nothing architectural, and leaves every cache
    true to the page tables; and [rv_hart_store], below the last byte of the address space,
    raises the same exception, writes the same bytes and drops
    the reservation when [ref_store] does, and unless it changed a page table
    in use, every cache stays true.  No region reaches the last byte of the
    address space, and no page table of the walk is in a device. *)
Theorem memory_transparent h (m : M) va sz :
  access_ok h -> bus_ok m -> caches_ok h (abs m) -> top_unmapped (abs m) -> is_u32 va -> access_size sz ->
  h_vm_active h && (RV_MISALIGNED_OK && crosses_page va sz) = false ->
  (forall sign e v p', ref_load h (abs m) va sz sign = Some (e, v, p') ->
     exists h' m', rv_hart_load h m va sz sign = (e, v, h', m') /\ bus_ok m' /\ abs m' = p' /\ caches_ok h' p' /\ arch_eq h h') /\
  (forall val e hr p', (forall pa, ref_translate h (abs m) va EMU_ACC_STORE = Some (RV_EXC_NONE, pa) -> pa + sz < 2 ^ 32) ->
     ref_store h (abs m) va sz val = Some (e, hr, p') ->
     exists h' m', rv_hart_store h m va sz val = (e, h', m') /\ stores h hr (abs m) p' h' m').
Proof. intros Ho Hm Hc Ht Hu Hs Hx. split; intros; [eapply load_ok; eassumption|eapply hart_store_ok; eassumption]. Qed.

(** ** Fetches through the fetch table *)

(** A fetch the table vouches for: when [rv_itlb_lookup] answers, the
    answer is the address the walk gives for a fetch at the running privilege,
    and PMP permits every fetch that stays in the page; and a fill keeps the
    table's entries true. *)
Theorem itlb_exact h (m : M) va pa h' m' va' pa' :
  bus_ok m -> caches_ok h (abs m) -> legal_priv h -> is_u32 va -> is_u32 va' ->
  ref_translate h (abs m) va EMU_ACC_FETCH = Some (RV_EXC_NONE, pa) -> rv_itlb_fill h m va pa = (h', m') ->
  rv_itlb_lookup h' va' = Some pa' ->
  ref_translate h' (abs m') va' EMU_ACC_FETCH = Some (RV_EXC_NONE, pa') /\
  (va' mod 4096 + 2 <= 4096 -> rv_pmp_check h' pa' 2 EMU_ACC_FETCH = true) /\ caches_ok h' (abs m') /\ arch_eq h h'.
Proof.
  intros Hm Hc Hl Hu Hu' Htr Ef El.
  destruct (itlb_fill_ok h m va pa h' m' Hm Hc Hl Hu (ref_translate_u32 _ _ _ _ _ Hu Htr) Htr Ef) as (_ & Ea & Hc' & Harch).
  rewrite Ea. unfold rv_itlb_lookup in El. destruct (Z.eqb_spec (h_priv h') RV_PRIV_M) as [|Hp]; [discriminate|].
  destruct (negb (_ =? dtlb_vpn va')) eqn:En; [discriminate|]. apply negb_false_iff, Z.eqb_eq in En. injection El as El.
  assert (Hlp : low_priv (h_priv h')).
  { rewrite (af_priv _ _ (arch_eq_fields _ _ Harch)) in *. destruct Hl; [contradiction|assumption]. }
  destruct (proj2 (proj2 Hc') _ _ _ Hlp (vpn_range va' Hu') En) as (_ & pg & Hpr & Hadd).
  change (h_priv h') with (acc_priv h' EMU_ACC_FETCH) in Hpr.
  pose proof (promise_translate h' (abs m) va' EMU_ACC_FETCH pg Hu' Hp Hpr) as Ht'.
  pose proof (ref_translate_u32 _ _ _ _ _ Hu' Ht') as Hpa'.
  assert (Epa : pa' = pg + va' mod 4096).
  { rewrite <- El, Hadd, u32_add_r. change (Z.shiftl (dtlb_vpn va') PAGE_SHIFT) with (page_of va').
    rewrite page_of_sub. replace (va' + (pg - (va' - va' mod 4096))) with (pg + va' mod 4096) by lia. apply u32_id. exact Hpa'. }
  rewrite Epa. split; [exact Ht'|]. split; [|split; [exact Hc'|exact Harch]].
  intros Hfit. eapply promise_pmp; eauto. lia.
Qed.

End Mem.
