(* ===== verification/RvTrap.v ===== *)
(** * Reset, traps and interrupts of a hart

    The lifecycle, trap entry and interrupt selection of
    [src/frontend/rv32/rv_hart.c], with the event counters of
    [src/frontend/rv32/rv_csr.c] that a trap ticks.  A trap reads the
    instruction back from memory when it reports an illegal one, so it takes
    and returns the machine as well as the hart. *)

From stdpp Require Import base list gmap.
From Stdlib Require Import ZArith Lia.
From S2P Require Import Prelude Bus BusProps RvHart RvBus RvPmp RvTrig RvMmu.

Open Scope Z_scope.
Open Scope u32_scope.

(** ** Codes *)

Definition EMU_STATE_RUNNING : Z := 0.
Definition EMU_STATE_WFI : Z := 1.
Definition EMU_STATE_HALTED : Z := 2.
Definition EMU_STATE_HELD : Z := 3.

Definition MIP_SSIP : Z := 2.
Definition MIP_MSIP : Z := 8.
Definition MIP_STIP : Z := 32.
Definition MIP_MTIP : Z := 128.
Definition MIP_SEIP : Z := 512.
Definition MIP_MEIP : Z := 2048.
Definition MIP_LCOFIP : Z := 8192.

Definition MTVEC_MODE_MASK : Z := 3.
Definition MTVEC_MODE_VECTORED : Z := 1.

Definition MHPMEVENTH_OF : Z := 2147483648.
Definition MHPMEVENTH_MINH : Z := 1073741824.
Definition MHPMEVENTH_SINH : Z := 536870912.
Definition MHPMEVENTH_UINH : Z := 268435456.

Definition RV_HPM_FIRST : Z := 3.
Definition RV_HPM_COUNT : Z := 29.
Definition RV_HPM_EVENT_NONE : Z := 0.
Definition RV_HPM_EVENT_EXCEPTION : Z := 1.
Definition RV_HPM_EVENT_INTERRUPT : Z := 2.
Definition RV_HPM_EVENT_EXC_CAUSE : Z := 256.
Definition RV_HPM_EVENT_IRQ_CAUSE : Z := 512.
Definition RV_HPM_EVENT_CAUSES : Z := 16.

Definition MISA_MXL_32 : Z := 1073741824.
Definition MISA_EXT (c : Z) : Z := 1 <<! c.

(** I, then M, A, C, F, D, B, S, U: letters counted from A. *)
Definition rv_hart_misa : Z :=
  MISA_MXL_32 |! MISA_EXT 8 |! MISA_EXT 12 |! MISA_EXT 0 |! MISA_EXT 2 |! MISA_EXT 5 |! MISA_EXT 3
  |! MISA_EXT 1 |! MISA_EXT 18 |! MISA_EXT 20.

(** ** Interrupt lines *)

Definition rv_hart_set_irq (h : rv_hart) (cause : Z) (level : bool) : rv_hart :=
  let bit := 1 <<! cause in
  let h := if level then h <| h_mip := h_mip h |! bit |> else h <| h_mip := Z.ldiff (h_mip h) bit |> in
  h <| h_irq_dirty := true |>.

Definition rv_hart_wfi_wake (h : rv_hart) : bool := negb (h_mip h &! h_mie h =? 0).

(** The interrupts enabled at the running privilege. *)
Definition irq_active (h : rv_hart) : Z :=
  let active := h_mip h &! h_mie h in
  if h_priv h =? RV_PRIV_M then Z.ldiff active (h_mideleg h)
  else if (h_priv h =? RV_PRIV_S) && negb (has (h_mstatus h) MSTATUS_SIE) then Z.ldiff active (h_mideleg h)
  else active.

Definition rv_hart_pending_irq (h : rv_hart) : Z :=
  if h_mip h &! h_mie h =? 0 then RV_EXC_NONE
  else if (h_priv h =? RV_PRIV_M) && negb (has (h_mstatus h) MSTATUS_MIE) then RV_EXC_NONE
  else
    let active := irq_active h in
    if active =? 0 then RV_EXC_NONE
    else if has active MIP_MEIP then RV_INT_M_EXT
    else if has active MIP_MSIP then RV_INT_M_SOFT
    else if has active MIP_MTIP then RV_INT_M_TIMER
    else if has active MIP_SEIP then RV_INT_S_EXT
    else if has active MIP_SSIP then RV_INT_S_SOFT
    else if has active MIP_STIP then RV_INT_S_TIMER
    else RV_INT_LCOF.

(** ** Event counters *)

Definition hpm_indices : list Z := map Z.of_nat (seq 0 (Z.to_nat RV_HPM_COUNT)).

Definition rv_hpm_rearm (h : rv_hart) : rv_hart :=
  let armed :=
    fold_left (fun armed i =>
      if negb (h_mhpmevent h i =? RV_HPM_EVENT_NONE) && negb (has (h_mcountinhibit h) (1 <<! (i + RV_HPM_FIRST)))
      then armed |! (1 <<! i) else armed) hpm_indices 0 in
  h <| h_hpm_armed := armed |>.

Definition hpm_inhibit_for (priv : Z) : Z :=
  if priv =? RV_PRIV_M then MHPMEVENTH_MINH else if priv =? RV_PRIV_S then MHPMEVENTH_SINH else MHPMEVENTH_UINH.

(** The body of the loop, for a counter that is armed and selects the event. *)
Definition hpm_tick (h : rv_hart) (i inh : Z) : rv_hart :=
  if has (h_mhpmeventh h i) inh then h
  else
    let c := u64 (h_mhpmcounter h i + 1) in
    let h := h <| h_mhpmcounter := upd (h_mhpmcounter h) i c |> in
    if (c =? 0) && negb (has (h_mhpmeventh h i) MHPMEVENTH_OF) then
      rv_hart_set_irq (h <| h_mhpmeventh := upd (h_mhpmeventh h) i (h_mhpmeventh h i |! MHPMEVENTH_OF) |>)
        RV_INT_LCOF true
    else h.

(** [armed] is a word, so it is zero after 32 shifts. *)
Fixpoint hpm_note_from (fuel : nat) (h : rv_hart) (i armed any exact inh : Z) : rv_hart :=
  match fuel with
  | O => h
  | S fuel =>
      if armed =? 0 then h
      else
        let h := if negb (has armed 1) || (negb (h_mhpmevent h i =? any) && negb (h_mhpmevent h i =? exact))
                 then h else hpm_tick h i inh in
        hpm_note_from fuel h (i + 1) (Z.shiftr armed 1) any exact inh
  end.

Definition is_interrupt (cause : Z) : bool := has cause RV_CAUSE_INTERRUPT.
Definition cause_code (cause : Z) : Z := Z.ldiff cause RV_CAUSE_INTERRUPT.

Definition rv_hpm_note_trap (h : rv_hart) (cause from_priv : Z) : rv_hart :=
  let irq := is_interrupt cause in
  let code := cause_code cause in
  let any := if irq then RV_HPM_EVENT_INTERRUPT else RV_HPM_EVENT_EXCEPTION in
  let exact := if code <? RV_HPM_EVENT_CAUSES
               then (if irq then RV_HPM_EVENT_IRQ_CAUSE else RV_HPM_EVENT_EXC_CAUSE) |! code
               else RV_HPM_EVENT_NONE in
  hpm_note_from 32 h 0 (h_hpm_armed h) any exact (hpm_inhibit_for from_priv).

(** ** Trap entry *)

Definition trap_to_s (h : rv_hart) (cause : Z) : bool :=
  if RV_PRIV_S <? h_priv h then false
  else
    let code := cause_code cause in
    let deleg := if is_interrupt cause then h_mideleg h else h_medeleg h in
    (code <? 32) && negb (Z.shiftr deleg code &! 1 =? 0).

Definition rv_is_32bit (parcel : Z) : bool := parcel &! 3 =? 3.

(** [tvec] to the handler's address. *)
Definition trap_vector (tvec cause : Z) : Z :=
  let base := Z.ldiff tvec MTVEC_MODE_MASK in
  if (tvec &! MTVEC_MODE_MASK =? MTVEC_MODE_VECTORED) && is_interrupt cause
  then base +! 4 *! cause_code cause else base.

Definition enter_s (h : rv_hart) (cause tval : Z) : rv_hart :=
  let h := h <| h_sepc := h_pc h |> <| h_scause := cause |> <| h_stval := tval |> in
  let sie_was := if has (h_mstatus h) MSTATUS_SIE then MSTATUS_SPIE else 0 in
  let h := h <| h_mstatus := Z.ldiff (h_mstatus h) (MSTATUS_SIE |! MSTATUS_SPIE |! MSTATUS_SPP)
                             |! sie_was |! (if h_priv h =? RV_PRIV_S then MSTATUS_SPP else 0) |> in
  h <| h_priv := RV_PRIV_S |>.

Definition enter_m (h : rv_hart) (cause tval : Z) : rv_hart :=
  let h := h <| h_mepc := h_pc h |> <| h_mcause := cause |> <| h_mtval := tval |> in
  let mie_was := if has (h_mstatus h) MSTATUS_MIE then MSTATUS_MPIE else 0 in
  let h := h <| h_mstatus := Z.ldiff (h_mstatus h) (MSTATUS_MIE |! MSTATUS_MPIE |! MSTATUS_MPP_MASK)
                             |! mie_was |! (h_priv h <<! MSTATUS_MPP_SHIFT) |> in
  h <| h_priv := RV_PRIV_M |>.

Section Trap.
Context `{Cfg : RvConfig} {Ext M : Type} `{PB : PhysBus Ext M}.

Definition illegal_tval (h : rv_hart) (m : M) (tval : Z) : Z * rv_hart * M :=
  let '(e, pa, h, m) := if h_vm_active h then rv_mmu_translate h m (h_pc h) EMU_ACC_FETCH
                        else (RV_EXC_NONE, h_pc h, h, m) in
  if negb (e =? RV_EXC_NONE) then (tval, h, m)
  else
    let '(f, v, m) := bus_fetch16 m pa in
    match f, v with
    | EMU_FAULT_NONE, Some parcel => (if rv_is_32bit parcel then tval else parcel, h, m)
    | _, _ => (tval, h, m)
    end.

(** A refused second page's address replaces the one asked for. *)
Definition take_split (h : rv_hart) (cause tval : Z) : Z * rv_hart :=
  if h_split_valid h then
    (if negb (is_interrupt cause) && (tval =? h_split_req h) then h_split_at h else tval,
     h <| h_split_valid := false |>)
  else (tval, h).

Definition rv_hart_trap (h : rv_hart) (m : M) (cause tval : Z) : rv_hart * M :=
  let from := h_priv h in
  let '(tval, h) := take_split h cause tval in
  let '(tval, h, m) := if cause =? RV_EXC_ILLEGAL_INSN then illegal_tval h m tval else (tval, h, m) in
  let to_s := trap_to_s h cause in
  let h := if to_s then enter_s h cause tval else enter_m h cause tval in
  let tvec := if to_s then h_stvec h else h_mtvec h in
  let h := rv_mmu_refresh (rv_pmp_refresh h) in
  let h := h <| h_pc := trap_vector tvec cause |> in
  let h := h <| h_resv_valid := false |> in
  let h := if negb (h_hpm_armed h =? 0) then rv_hpm_note_trap h cause from else h in
  (h <| h_trap_count := h_trap_count h +! 1 |>, m).

Definition rv_hart_trap_unretire (h : rv_hart) (m : M) (cause tval : Z) : rv_hart * M :=
  let '(h, m) := rv_hart_trap h m cause tval in
  let h := if negb (has (h_mcountinhibit h) 1) then h <| h_mcycle := u64 (h_mcycle h - 1) |> else h in
  let h := if negb (has (h_mcountinhibit h) 4) then h <| h_minstret := u64 (h_minstret h - 1) |> else h in
  (h, m).

(** ** Lifecycle *)

Definition rv_hart_reset (h : rv_hart) (reset_pc : Z) : rv_hart :=
  let h := h <| h_x := fun _ => 0 |> <| h_pc := reset_pc |> in
  let h := h <| h_pt_armed := false |> <| h_rom_armed := false |> <| h_rom_reads := 0 |> in
  let h := h <| h_mstatus := 0 |> <| h_mie := 0 |> <| h_mip := 0 |> <| h_mtvec := 0 |> <| h_mscratch := 0 |>
             <| h_mepc := 0 |> <| h_mcause := 0 |> <| h_mtval := 0 |> <| h_mcountinhibit := 0 |>
             <| h_mcycle := 0 |> <| h_minstret := 0 |> in
  let h := rv_hpm_rearm (h <| h_mhpmcounter := fun _ => 0 |> <| h_mhpmevent := fun _ => 0 |>
                           <| h_mhpmeventh := fun _ => 0 |>) in
  let h := h <| h_split_valid := false |> in
  let h := h <| h_f := fun _ => 0 |> <| h_fcsr := 0 |>
             <| h_mstatus := h_mstatus h |! (1 <<! MSTATUS_FS_SHIFT) |> in
  let h := h <| h_mcounteren := 0 |> <| h_menvcfg := 0 |> <| h_senvcfg := 0 |> in
  let h := rv_mmu_flush (h <| h_satp := 0 |> <| h_vm_active := false |>) in
  let h := h <| h_stvec := 0 |> <| h_sscratch := 0 |> <| h_sepc := 0 |> <| h_scause := 0 |> <| h_stval := 0 |>
             <| h_scounteren := 0 |> <| h_medeleg := 0 |> <| h_mideleg := 0 |> in
  let h := h <| h_tselect := 0 |> <| h_tdata1 := fun _ => 0 |> <| h_tdata2 := fun _ => 0 |>
             <| h_trig_active := false |> in
  let h := h <| h_pmpcfg := fun _ => 0 |> <| h_pmpaddr := fun _ => 0 |> <| h_pmp_active := false |>
             <| h_pmp_any := false |> in
  let h := (rv_dtlb_flush h) <| h_dtlb_fills := 0 |> <| h_dtlb_flushes := 0 |> <| h_itlb_fills := 0 |> in
  let h := h <| h_resv_valid := false |> <| h_resv_addr := 0 |> in
  let h := h <| h_priv := RV_PRIV_M |> <| h_state := EMU_STATE_RUNNING |> in
  let h := rv_hart_refresh_fetch_guard h in
  h <| h_irq_dirty := true |> <| h_trap_count := 0 |> <| h_insn_retired_lo := 0 |>.

Definition rv_hart_init (hartid : Z) : rv_hart := rv_hart_reset (zero_hart <| h_hartid := hartid |>) 0.

Record emu_boot_info := BootInfo { ram_base : Z; ram_size : Z; dtb : Z }.

Definition rv_hart_boot (h : rv_hart) (info : emu_boot_info) : rv_hart :=
  let h := h <| h_x := upd (h_x h) 10 (h_hartid h) |> in
  let h := h <| h_x := upd (h_x h) 11 (if negb (dtb info =? 0) then dtb info else ram_size info) |> in
  let top := if negb (dtb info =? 0) then dtb info else ram_base info +! ram_size info in
  h <| h_x := upd (h_x h) 2 (Z.ldiff top 15) |>.

End Trap.
