(* ===== verification/RvCsr.v ===== *)
(** * Control and status registers

    [src/frontend/rv32/rv_csr.c]: reads and writes by number, with the
    privilege, the WARL rules, the views [sstatus], [sie] and [sip] of the
    machine registers, PMP locks and the counters' gates.  [mtime] is the
    platform's clock when one is wired ([h->mtime]).  A read or write answers
    an exception; a read's value means something when that is
    [RV_EXC_NONE]. *)

From stdpp Require Import base list gmap.
From Stdlib Require Import ZArith Lia String.
From S2P Require Import Prelude Bus RvHart RvPmp RvTrig RvMmu RvTrap.

Open Scope Z_scope.
Open Scope u32_scope.

(** ** Numbers *)

Definition CSR_FFLAGS : Z := 1.
Definition CSR_FRM : Z := 2.
Definition CSR_FCSR : Z := 3.
Definition CSR_CYCLE : Z := 3072.
Definition CSR_TIME : Z := 3073.
Definition CSR_INSTRET : Z := 3074.
Definition CSR_CYCLEH : Z := 3200.
Definition CSR_TIMEH : Z := 3201.
Definition CSR_INSTRETH : Z := 3202.
Definition CSR_MVENDORID : Z := 3857.
Definition CSR_MARCHID : Z := 3858.
Definition CSR_MIMPID : Z := 3859.
Definition CSR_MHARTID : Z := 3860.
Definition CSR_MCONFIGPTR : Z := 3861.
Definition CSR_MSTATUS : Z := 768.
Definition CSR_MISA : Z := 769.
Definition CSR_MEDELEG : Z := 770.
Definition CSR_MIDELEG : Z := 771.
Definition CSR_MIE : Z := 772.
Definition CSR_MTVEC : Z := 773.
Definition CSR_MCOUNTEREN : Z := 774.
Definition CSR_MSTATUSH : Z := 784.
Definition CSR_MENVCFG : Z := 778.
Definition CSR_MENVCFGH : Z := 794.
Definition CSR_SENVCFG : Z := 266.
Definition CSR_MSCRATCH : Z := 832.
Definition CSR_MEPC : Z := 833.
Definition CSR_MCAUSE : Z := 834.
Definition CSR_MTVAL : Z := 835.
Definition CSR_MIP : Z := 836.
Definition CSR_SSTATUS : Z := 256.
Definition CSR_SIE : Z := 260.
Definition CSR_STVEC : Z := 261.
Definition CSR_SCOUNTEREN : Z := 262.
Definition CSR_SSCRATCH : Z := 320.
Definition CSR_SEPC : Z := 321.
Definition CSR_SCAUSE : Z := 322.
Definition CSR_STVAL : Z := 323.
Definition CSR_SIP : Z := 324.
Definition CSR_SATP : Z := 384.
Definition CSR_TSELECT : Z := 1952.
Definition CSR_TDATA1 : Z := 1953.
Definition CSR_TDATA2 : Z := 1954.
Definition CSR_TDATA3 : Z := 1955.
Definition CSR_TINFO : Z := 1956.
Definition CSR_PMPCFG0 : Z := 928.
Definition CSR_PMPADDR0 : Z := 944.
Definition CSR_MCYCLE : Z := 2816.
Definition CSR_MINSTRET : Z := 2818.
Definition CSR_MCYCLEH : Z := 2944.
Definition CSR_MINSTRETH : Z := 2946.
Definition CSR_MCOUNTINHIBIT : Z := 800.
Definition CSR_MHPMCOUNTER_BASE : Z := 2816.
Definition CSR_MHPMCOUNTERH_BASE : Z := 2944.
Definition CSR_MHPMEVENT_BASE : Z := 800.
Definition CSR_HPMCOUNTER_BASE : Z := 3072.
Definition CSR_HPMCOUNTERH_BASE : Z := 3200.
Definition CSR_MHPMEVENTH_BASE : Z := 1824.
Definition CSR_SCOUNTOVF : Z := 3488.

(** ** Masks *)

Definition MSTATUS_WMASK_VM : Z := MSTATUS_SUM |! MSTATUS_MXR |! MSTATUS_TVM.
Definition MSTATUS_WMASK_S : Z :=
  MSTATUS_SIE |! MSTATUS_SPIE |! MSTATUS_SPP |! MSTATUS_TW |! MSTATUS_TSR |! MSTATUS_WMASK_VM.
Definition MSTATUS_WMASK : Z :=
  MSTATUS_MIE |! MSTATUS_MPIE |! MSTATUS_MPP_MASK |! MSTATUS_FS_MASK |! MSTATUS_MPRV |! MSTATUS_WMASK_S.
Definition SSTATUS_RMASK : Z :=
  MSTATUS_SIE |! MSTATUS_SPIE |! MSTATUS_SPP |! MSTATUS_SUM |! MSTATUS_MXR |! MSTATUS_FS_MASK |! MSTATUS_SD.
Definition SSTATUS_WMASK : Z := SSTATUS_RMASK &! MSTATUS_WMASK.
Definition MIP_S_ALL : Z := MIP_SSIP |! MIP_STIP |! MIP_SEIP |! MIP_LCOFIP.
Definition SIP_WMASK : Z := MIP_SSIP |! MIP_LCOFIP.
Definition MIP_WMASK : Z := MIP_S_ALL.
Definition MIE_WMASK : Z := MIP_MSIP |! MIP_MTIP |! MIP_MEIP |! MIP_S_ALL.
Definition MIDELEG_WMASK : Z := MIP_S_ALL.
Definition MEDELEG_WMASK : Z := 46079.
Definition ENVCFG_CBIE : Z := 48.
Definition ENVCFG_CBIE_FLUSH : Z := 16.
Definition ENVCFG_CBIE_RSVD : Z := 32.
Definition ENVCFG_CBCFE : Z := 64.
Definition ENVCFG_CBZE : Z := 128.
Definition ENVCFG_WMASK : Z := ENVCFG_CBIE |! ENVCFG_CBCFE |! ENVCFG_CBZE.
Definition SATP_ASID_MASK : Z := 2143289344.
Definition SATP_PPN_MASK : Z := 1048575.
Definition RV_PMPADDR_MASK : Z := 1073741823.
Definition COUNTEREN_WMASK : Z := 4294967295.
Definition COUNTINHIBIT_WMASK : Z := 4294967293.
Definition MHPMEVENTH_WMASK : Z := MHPMEVENTH_OF |! MHPMEVENTH_MINH |! MHPMEVENTH_SINH |! MHPMEVENTH_UINH.
Definition RV_MVENDORID : Z := 0.
Definition RV_MARCHID : Z := 0.
Definition RV_MIMPID : Z := 65536.

(** ** Helpers *)

Definition csr_is_readonly (csr : Z) : bool := Z.shiftr csr 10 &! 3 =? 3.
Definition csr_min_priv (csr : Z) : Z := Z.shiftr csr 8 &! 3.

Definition envcfg_legal (val : Z) : Z :=
  let val := val &! ENVCFG_WMASK in
  if val &! ENVCFG_CBIE =? ENVCFG_CBIE_RSVD then Z.ldiff val ENVCFG_CBIE else val.

Definition read_time (h : rv_hart) (mtime : option Z) : Z :=
  match mtime with Some t => t | None => h_mcycle h end.

Definition mstatus_read (h : rv_hart) : Z :=
  if h_mstatus h &! MSTATUS_FS_MASK =? MSTATUS_FS_MASK then h_mstatus h |! MSTATUS_SD
  else Z.ldiff (h_mstatus h) MSTATUS_SD.

Definition counter_enabled (h : rv_hart) (csr : Z) : bool :=
  if h_priv h =? RV_PRIV_M then true
  else
    let bit := 1 <<! (csr &! 31) in
    if negb (has (h_mcounteren h) bit) then false
    else negb ((h_priv h =? RV_PRIV_U) && negb (has (h_scounteren h) bit)).

Definition hpm_index (csr base : Z) : option Z :=
  if (base + RV_HPM_FIRST <=? csr) && (csr <=? base + 31) then Some (csr - base - RV_HPM_FIRST) else None.

Definition hpm_event_known (ev : Z) : bool :=
  let kind := Z.ldiff ev (RV_HPM_EVENT_CAUSES - 1) in
  (ev =? RV_HPM_EVENT_EXCEPTION) || (ev =? RV_HPM_EVENT_INTERRUPT)
  || (kind =? RV_HPM_EVENT_EXC_CAUSE) || (kind =? RV_HPM_EVENT_IRQ_CAUSE).

(** The halves of a 64-bit counter. *)
Definition lo32 (c : Z) : Z := u32 c.
Definition hi32 (c : Z) : Z := u32 (Z.shiftr c 32).
Definition set_lo (c val : Z) : Z := (c &! 18446744069414584320) |! val.
Definition set_hi (c val : Z) : Z := (c &! 4294967295) |! u64 (Z.shiftl val 32).

Definition hpm_read (h : rv_hart) (csr : Z) : option Z :=
  match hpm_index csr CSR_MHPMCOUNTER_BASE with
  | Some i => Some (lo32 (h_mhpmcounter h i))
  | None =>
  match hpm_index csr CSR_HPMCOUNTER_BASE with
  | Some i => Some (lo32 (h_mhpmcounter h i))
  | None =>
  match hpm_index csr CSR_MHPMCOUNTERH_BASE with
  | Some i => Some (hi32 (h_mhpmcounter h i))
  | None =>
  match hpm_index csr CSR_HPMCOUNTERH_BASE with
  | Some i => Some (hi32 (h_mhpmcounter h i))
  | None =>
  match hpm_index csr CSR_MHPMEVENT_BASE with
  | Some i => Some (h_mhpmevent h i)
  | None =>
  match hpm_index csr CSR_MHPMEVENTH_BASE with
  | Some i => Some (h_mhpmeventh h i)
  | None => None
  end end end end end end.

Definition scountovf_read (h : rv_hart) : Z :=
  let v := fold_left (fun v i => if has (h_mhpmeventh h i) MHPMEVENTH_OF then v |! (1 <<! (i + RV_HPM_FIRST)) else v)
             hpm_indices 0 in
  if h_priv h =? RV_PRIV_M then v else v &! h_mcounteren h.

(** ** Read *)

Definition ok (v : Z) : Z * Z := (RV_EXC_NONE, v).
Definition illegal : Z * Z := (RV_EXC_ILLEGAL_INSN, 0).

(** The six unprivileged counters, once permitted. *)
Definition counter_read (h : rv_hart) (mtime : option Z) (csr : Z) : Z :=
  if csr =? CSR_CYCLE then lo32 (h_mcycle h)
  else if csr =? CSR_CYCLEH then hi32 (h_mcycle h)
  else if csr =? CSR_INSTRET then lo32 (h_minstret h)
  else if csr =? CSR_INSTRETH then hi32 (h_minstret h)
  else if csr =? CSR_TIME then lo32 (read_time h mtime)
  else hi32 (read_time h mtime).

(** Numbers that come in ranges, and the answer for one that is not there. *)
Definition csr_read_range (h : rv_hart) (csr : Z) : Z * Z :=
  if (CSR_PMPADDR0 <=? csr) && (csr <? CSR_PMPADDR0 + RV_PMP_ENTRIES) then ok (h_pmpaddr h (csr - CSR_PMPADDR0))
  else if (csr &! 3840 =? 3072) && negb (counter_enabled h csr) then illegal
  else match hpm_read h csr with Some v => ok v | None => illegal end.

Definition rv_csr_read (h : rv_hart) (mtime : option Z) (csr : Z) : Z * Z :=
  if h_priv h <? csr_min_priv csr then illegal
  else if csr =? CSR_FFLAGS then ok (h_fcsr h &! 31)
  else if csr =? CSR_FRM then ok (Z.shiftr (h_fcsr h) 5 &! 7)
  else if csr =? CSR_FCSR then ok (h_fcsr h &! 255)
  else if csr =? CSR_MVENDORID then ok RV_MVENDORID
  else if csr =? CSR_MARCHID then ok RV_MARCHID
  else if csr =? CSR_MIMPID then ok RV_MIMPID
  else if csr =? CSR_MHARTID then ok (h_hartid h)
  else if csr =? CSR_MCONFIGPTR then ok 0
  else if csr =? CSR_MSTATUS then ok (mstatus_read h)
  else if csr =? CSR_MSTATUSH then ok 0
  else if csr =? CSR_MISA then ok rv_hart_misa
  else if csr =? CSR_MIE then ok (h_mie h)
  else if csr =? CSR_MTVEC then ok (h_mtvec h)
  else if csr =? CSR_MEDELEG then ok (h_medeleg h)
  else if csr =? CSR_MIDELEG then ok (h_mideleg h)
  else if csr =? CSR_MCOUNTEREN then ok (h_mcounteren h)
  else if csr =? CSR_MENVCFG then ok (h_menvcfg h)
  else if csr =? CSR_MENVCFGH then ok 0
  else if csr =? CSR_SSTATUS then ok (mstatus_read h &! SSTATUS_RMASK)
  else if csr =? CSR_SIE then ok (h_mie h &! h_mideleg h)
  else if csr =? CSR_SIP then ok (h_mip h &! h_mideleg h)
  else if csr =? CSR_STVEC then ok (h_stvec h)
  else if csr =? CSR_SCOUNTEREN then ok (h_scounteren h)
  else if csr =? CSR_SCOUNTOVF then ok (scountovf_read h)
  else if csr =? CSR_SENVCFG then ok (h_senvcfg h)
  else if csr =? CSR_SSCRATCH then ok (h_sscratch h)
  else if csr =? CSR_SEPC then ok (h_sepc h)
  else if csr =? CSR_SCAUSE then ok (h_scause h)
  else if csr =? CSR_STVAL then ok (h_stval h)
  else if csr =? CSR_SATP then
    if (h_priv h =? RV_PRIV_S) && has (h_mstatus h) MSTATUS_TVM then illegal else ok (h_satp h)
  else if csr =? CSR_MSCRATCH then ok (h_mscratch h)
  else if csr =? CSR_MEPC then ok (h_mepc h)
  else if csr =? CSR_MCAUSE then ok (h_mcause h)
  else if csr =? CSR_MTVAL then ok (h_mtval h)
  else if csr =? CSR_MIP then ok (h_mip h)
  else if csr =? CSR_TSELECT then ok (h_tselect h)
  else if csr =? CSR_TDATA1 then ok (if h_tselect h <? RV_TRIG_COUNT then h_tdata1 h (h_tselect h) else 0)
  else if csr =? CSR_TDATA2 then ok (if h_tselect h <? RV_TRIG_COUNT then h_tdata2 h (h_tselect h) else 0)
  else if csr =? CSR_TDATA3 then ok 0
  else if csr =? CSR_TINFO then ok 4
  else if (CSR_PMPCFG0 <=? csr) && (csr <=? CSR_PMPCFG0 + 3) then ok (h_pmpcfg h (csr - CSR_PMPCFG0))
  else if (csr =? CSR_CYCLE) || (csr =? CSR_CYCLEH) || (csr =? CSR_TIME) || (csr =? CSR_TIMEH)
          || (csr =? CSR_INSTRET) || (csr =? CSR_INSTRETH) then
    if negb (counter_enabled h csr) then illegal else ok (counter_read h mtime csr)
  else if csr =? CSR_MCYCLE then ok (lo32 (h_mcycle h))
  else if csr =? CSR_MCYCLEH then ok (hi32 (h_mcycle h))
  else if csr =? CSR_MINSTRET then ok (lo32 (h_minstret h))
  else if csr =? CSR_MINSTRETH then ok (hi32 (h_minstret h))
  else if csr =? CSR_MCOUNTINHIBIT then ok (h_mcountinhibit h)
  else csr_read_range h csr.

(** ** Write *)

(** One byte of a [pmpcfg] register: kept when it is locked. *)
Definition pmpcfg_byte (val cur b : Z) : Z :=
  let sh := b * 8 in
  if has (Z.shiftr cur sh) 128 then cur
  else
    let nb := Z.shiftr val sh &! 159 in
    Z.ldiff cur (255 <<! sh) |! (nb <<! sh).

Definition pmpcfg_merge (val cur : Z) : Z := fold_left (pmpcfg_byte val) [0; 1; 2; 3] cur.

(** An address register that its own lock, or a locked TOR entry above it,
    keeps. *)
Definition pmpaddr_locked (h : rv_hart) (i : Z) : bool :=
  let own := Z.shiftr (h_pmpcfg h (i / 4)) (i mod 4 * 8) &! 255 in
  has own 128
  || ((i + 1 <? RV_PMP_ENTRIES)
      && (let j := i + 1 in
          let nxt := Z.shiftr (h_pmpcfg h (j / 4)) (j mod 4 * 8) &! 255 in
          has nxt 128 && (Z.shiftr (nxt &! 24) 3 =? 1))).

Definition csr_done (h : rv_hart) : Z * rv_hart := (RV_EXC_NONE, h).
Definition csr_refuse (h : rv_hart) : Z * rv_hart := (RV_EXC_ILLEGAL_INSN, h).

Section Csr.
Context `{Cfg : RvConfig}.

Definition write_mstatus (h : rv_hart) (val : Z) : rv_hart :=
  let h := h <| h_mstatus := Z.ldiff (h_mstatus h) MSTATUS_WMASK |! (val &! MSTATUS_WMASK) |>
             <| h_irq_dirty := true |> in
  rv_mmu_refresh (rv_pmp_refresh h).

Definition write_satp (h : rv_hart) (val : Z) : rv_hart :=
  let h := h <| h_satp := val &! (SATP_MODE_SV32 |! SATP_ASID_MASK |! SATP_PPN_MASK) |> in
  rv_mmu_refresh (rv_mmu_flush_tlb h).

Definition write_pmpcfg (h : rv_hart) (idx val : Z) : rv_hart :=
  let h := h <| h_pmpcfg := upd (h_pmpcfg h) idx (pmpcfg_merge val (h_pmpcfg h idx)) |> in
  let h := h <| h_pmp_gen := h_pmp_gen h +! 1 |> in
  rv_pmp_refresh (rv_dtlb_flush h).

Definition write_pmpaddr (h : rv_hart) (i val : Z) : rv_hart :=
  if pmpaddr_locked h i then h
  else
    let h := h <| h_pmpaddr := upd (h_pmpaddr h) i (val &! RV_PMPADDR_MASK) |> in
    let h := h <| h_pmp_gen := h_pmp_gen h +! 1 |> in
    rv_dtlb_flush h.

(** Numbers that come in ranges. *)
Definition csr_write_range (h : rv_hart) (csr val : Z) : Z * rv_hart :=
  match hpm_index csr CSR_MHPMCOUNTER_BASE with
  | Some i => csr_done (h <| h_mhpmcounter := upd (h_mhpmcounter h) i (set_lo (h_mhpmcounter h i) val) |>)
  | None =>
  match hpm_index csr CSR_MHPMCOUNTERH_BASE with
  | Some i => csr_done (h <| h_mhpmcounter := upd (h_mhpmcounter h) i (set_hi (h_mhpmcounter h i) val) |>)
  | None =>
  match hpm_index csr CSR_MHPMEVENT_BASE with
  | Some i =>
      csr_done (rv_hpm_rearm (h <| h_mhpmevent :=
        upd (h_mhpmevent h) i (if hpm_event_known val then val else RV_HPM_EVENT_NONE) |>))
  | None =>
  match hpm_index csr CSR_MHPMEVENTH_BASE with
  | Some i => csr_done (h <| h_mhpmeventh := upd (h_mhpmeventh h) i (val &! MHPMEVENTH_WMASK) |>)
  | None =>
      if (CSR_PMPADDR0 <=? csr) && (csr <? CSR_PMPADDR0 + RV_PMP_ENTRIES)
      then csr_done (write_pmpaddr h (csr - CSR_PMPADDR0) val)
      else csr_refuse h
  end end end end.

Definition rv_csr_write (h : rv_hart) (csr val : Z) : Z * rv_hart :=
  if (h_priv h <? csr_min_priv csr) || csr_is_readonly csr then csr_refuse h
  else if csr =? CSR_FFLAGS then csr_done (h <| h_fcsr := Z.ldiff (h_fcsr h) 31 |! (val &! 31) |>)
  else if csr =? CSR_FRM then csr_done (h <| h_fcsr := (h_fcsr h &! 31) |! ((val &! 7) <<! 5) |>)
  else if csr =? CSR_FCSR then csr_done (h <| h_fcsr := val &! 255 |>)
  else if csr =? CSR_MSTATUS then csr_done (write_mstatus h val)
  else if csr =? CSR_MSTATUSH then csr_done h
  else if csr =? CSR_SSTATUS then
    csr_done (h <| h_mstatus := Z.ldiff (h_mstatus h) SSTATUS_WMASK |! (val &! SSTATUS_WMASK) |>
                <| h_irq_dirty := true |>)
  else if csr =? CSR_SIE then
    csr_done (h <| h_mie := Z.ldiff (h_mie h) (h_mideleg h) |! (val &! h_mideleg h &! MIE_WMASK) |>
                <| h_irq_dirty := true |>)
  else if csr =? CSR_SIP then
    csr_done (h <| h_mip := Z.ldiff (h_mip h) (h_mideleg h &! SIP_WMASK) |! (val &! h_mideleg h &! SIP_WMASK) |>
                <| h_irq_dirty := true |>)
  else if csr =? CSR_STVEC then
    csr_done (if val &! MTVEC_MODE_MASK <=? MTVEC_MODE_VECTORED then h <| h_stvec := Z.ldiff val 2 |> else h)
  else if csr =? CSR_SCOUNTEREN then csr_done (h <| h_scounteren := val &! COUNTEREN_WMASK |>)
  else if csr =? CSR_SENVCFG then csr_done (h <| h_senvcfg := envcfg_legal val |>)
  else if csr =? CSR_SSCRATCH then csr_done (h <| h_sscratch := val |>)
  else if csr =? CSR_SEPC then csr_done (h <| h_sepc := Z.ldiff val 1 |>)
  else if csr =? CSR_SCAUSE then csr_done (h <| h_scause := val |>)
  else if csr =? CSR_STVAL then csr_done (h <| h_stval := val |>)
  else if csr =? CSR_SATP then
    if (h_priv h =? RV_PRIV_S) && has (h_mstatus h) MSTATUS_TVM then csr_refuse h else csr_done (write_satp h val)
  else if csr =? CSR_MEDELEG then csr_done (h <| h_medeleg := val &! MEDELEG_WMASK |>)
  else if csr =? CSR_MIDELEG then csr_done (h <| h_mideleg := val &! MIDELEG_WMASK |> <| h_irq_dirty := true |>)
  else if csr =? CSR_MCOUNTEREN then csr_done (h <| h_mcounteren := val &! COUNTEREN_WMASK |>)
  else if csr =? CSR_MENVCFG then csr_done (h <| h_menvcfg := envcfg_legal val |>)
  else if csr =? CSR_MENVCFGH then csr_done h
  else if csr =? CSR_MISA then csr_done h
  else if csr =? CSR_MIE then csr_done (h <| h_mie := val &! MIE_WMASK |> <| h_irq_dirty := true |>)
  else if csr =? CSR_MTVEC then
    let val := if MTVEC_MODE_VECTORED <? val &! MTVEC_MODE_MASK
               then Z.ldiff val MTVEC_MODE_MASK |! (h_mtvec h &! MTVEC_MODE_MASK) else val in
    csr_done (h <| h_mtvec := val |>)
  else if csr =? CSR_MSCRATCH then csr_done (h <| h_mscratch := val |>)
  else if csr =? CSR_MEPC then csr_done (h <| h_mepc := Z.ldiff val 1 |>)
  else if csr =? CSR_MCAUSE then csr_done (h <| h_mcause := val |>)
  else if csr =? CSR_MTVAL then csr_done (h <| h_mtval := val |>)
  else if csr =? CSR_MIP then csr_done (h <| h_mip := Z.ldiff (h_mip h) MIP_WMASK |! (val &! MIP_WMASK) |>)
  else if csr =? CSR_TSELECT then csr_done (if val <? RV_TRIG_COUNT then h <| h_tselect := val |> else h)
  else if csr =? CSR_TDATA1 then csr_done (rv_trig_write_tdata1 h val)
  else if csr =? CSR_TDATA2 then
    csr_done (if h_tselect h <? RV_TRIG_COUNT then h <| h_tdata2 := upd (h_tdata2 h) (h_tselect h) val |> else h)
  else if csr =? CSR_TDATA3 then csr_done h
  else if (CSR_PMPCFG0 <=? csr) && (csr <=? CSR_PMPCFG0 + 3) then csr_done (write_pmpcfg h (csr - CSR_PMPCFG0) val)
  else if csr =? CSR_MCYCLE then csr_done (h <| h_mcycle := set_lo (h_mcycle h) val |>)
  else if csr =? CSR_MCYCLEH then csr_done (h <| h_mcycle := set_hi (h_mcycle h) val |>)
  else if csr =? CSR_MINSTRET then csr_done (h <| h_minstret := set_lo (h_minstret h) val |>)
  else if csr =? CSR_MINSTRETH then csr_done (h <| h_minstret := set_hi (h_minstret h) val |>)
  else if csr =? CSR_MCOUNTINHIBIT then
    csr_done (rv_hpm_rearm (h <| h_mcountinhibit := val &! COUNTINHIBIT_WMASK |>))
  else csr_write_range h csr val.

End Csr.
