(* ===== verification/RvDecode.v ===== *)
(** * Instruction fields and the compressed encodings

    [include/rv32/rv_decode.h] and [src/frontend/rv32/rv_decode.c]: the field
    accessors, the immediates, and the expansion of a 16-bit instruction into
    the 32-bit one it stands for (0 when it stands for none), for the build
    with F, D, Zcb and Zbb. *)

From stdpp Require Import base list.
From Stdlib Require Import ZArith Lia.
From S2P Require Import Prelude RvHart.

Open Scope Z_scope.
Open Scope u32_scope.

(** ** Opcodes *)

Definition OP_LOAD : Z := 3.
Definition OP_MISC_MEM : Z := 15.
Definition OP_IMM : Z := 19.
Definition OP_AUIPC : Z := 23.
Definition OP_STORE : Z := 35.
Definition OP_AMO : Z := 47.
Definition OP_OP : Z := 51.
Definition OP_LUI : Z := 55.
Definition OP_BRANCH : Z := 99.
Definition OP_JALR : Z := 103.
Definition OP_JAL : Z := 111.
Definition OP_SYSTEM : Z := 115.
Definition OP_LOAD_FP : Z := 7.
Definition OP_STORE_FP : Z := 39.
Definition OP_FP : Z := 83.
Definition OP_MADD : Z := 67.
Definition OP_MSUB : Z := 71.
Definition OP_NMSUB : Z := 75.
Definition OP_NMADD : Z := 79.

(** ** Fields *)

(** [(int32_t)(v << sh) >> sh] with [sh = 32 - bits]. *)
Definition emu_sext (v bits : Z) : Z := Z.shiftr (s32 (v <<! (32 - bits))) (32 - bits).

Definition rv_opcode (i : Z) : Z := i &! 127.
Definition rv_rd (i : Z) : Z := Z.shiftr i 7 &! 31.
Definition rv_rs1 (i : Z) : Z := Z.shiftr i 15 &! 31.
Definition rv_rs2 (i : Z) : Z := Z.shiftr i 20 &! 31.
Definition rv_rs3 (i : Z) : Z := Z.shiftr i 27 &! 31.
Definition rv_funct3 (i : Z) : Z := Z.shiftr i 12 &! 7.
Definition rv_funct7 (i : Z) : Z := Z.shiftr i 25 &! 127.

Definition rv_imm_i (i : Z) : Z := Z.shiftr (s32 i) 20.
Definition rv_imm_s (i : Z) : Z := Z.shiftr (s32 (i &! 4261412864)) 20 |! (Z.shiftr i 7 &! 31).
Definition rv_imm_b (i : Z) : Z :=
  let v := (Z.shiftr i 7 &! 30) |! (Z.shiftr i 20 &! 2016) |! ((i <<! 4) &! 2048) |! (Z.shiftr i 19 &! 4096) in
  emu_sext v 13.
Definition rv_imm_u (i : Z) : Z := i &! 4294963200.
Definition rv_imm_j (i : Z) : Z :=
  let v := (Z.shiftr i 20 &! 2046) |! (Z.shiftr i 9 &! 2048) |! (i &! 1044480) |! (Z.shiftr i 11 &! 1048576) in
  emu_sext v 21.

(** ** Encoders *)

Definition enc_r (f7 rs2 rs1 f3 rd op : Z) : Z :=
  (f7 <<! 25) |! (rs2 <<! 20) |! (rs1 <<! 15) |! (f3 <<! 12) |! (rd <<! 7) |! op.
Definition enc_i (imm rs1 f3 rd op : Z) : Z :=
  ((imm &! 4095) <<! 20) |! (rs1 <<! 15) |! (f3 <<! 12) |! (rd <<! 7) |! op.
Definition enc_s (imm rs2 rs1 f3 op : Z) : Z :=
  ((imm &! 4064) <<! 20) |! (rs2 <<! 20) |! (rs1 <<! 15) |! (f3 <<! 12) |! ((imm &! 31) <<! 7) |! op.
Definition enc_b (imm rs2 rs1 f3 op : Z) : Z :=
  ((imm &! 4096) <<! 19) |! ((imm &! 2016) <<! 20) |! (rs2 <<! 20) |! (rs1 <<! 15) |! (f3 <<! 12)
  |! ((imm &! 30) <<! 7) |! Z.shiftr (imm &! 2048) 4 |! op.
Definition enc_u (imm20 rd op : Z) : Z := ((imm20 &! 1048575) <<! 12) |! (rd <<! 7) |! op.
Definition enc_j (imm rd op : Z) : Z :=
  ((imm &! 1048576) <<! 11) |! ((imm &! 2046) <<! 20) |! ((imm &! 2048) <<! 9) |! (imm &! 1044480)
  |! (rd <<! 7) |! op.

(** ** Compressed fields *)

Definition c_rd (c : Z) : Z := Z.shiftr c 7 &! 31.
Definition c_rs2 (c : Z) : Z := Z.shiftr c 2 &! 31.
Definition c_rdp (c : Z) : Z := (Z.shiftr c 7 &! 7) + 8.
Definition c_rs2p (c : Z) : Z := (Z.shiftr c 2 &! 7) + 8.

Definition ILLEGAL : Z := 0.

(** Word, doubleword and jump offsets, written out at each use in the source. *)
Definition c_off_w (c : Z) : Z := (Z.shiftr c 7 &! 56) |! (Z.shiftr c 4 &! 4) |! ((c <<! 1) &! 64).
Definition c_off_d (c : Z) : Z := (Z.shiftr c 7 &! 56) |! ((c <<! 1) &! 192).
Definition c_off_j (c : Z) : Z :=
  (Z.shiftr c 1 &! 2048) |! (Z.shiftr c 7 &! 16) |! (Z.shiftr c 1 &! 768) |! ((c <<! 2) &! 1024)
  |! (Z.shiftr c 1 &! 64) |! ((c <<! 1) &! 128) |! (Z.shiftr c 2 &! 14) |! ((c <<! 3) &! 32).

(** ** Quadrants *)

Definition expand_q0 (c : Z) : Z :=
  let f3 := Z.shiftr c 13 &! 7 in
  if f3 =? 0 then
    let imm := (Z.shiftr c 7 &! 48) |! (Z.shiftr c 1 &! 960) |! (Z.shiftr c 4 &! 4) |! (Z.shiftr c 2 &! 8) in
    if imm =? 0 then ILLEGAL else enc_i imm 2 0 (c_rs2p c) OP_IMM
  else if f3 =? 2 then enc_i (c_off_w c) (c_rdp c) 2 (c_rs2p c) OP_LOAD
  else if f3 =? 6 then enc_s (c_off_w c) (c_rs2p c) (c_rdp c) 2 OP_STORE
  else if f3 =? 1 then enc_i (c_off_d c) (c_rdp c) 3 (c_rs2p c) OP_LOAD_FP
  else if f3 =? 5 then enc_s (c_off_d c) (c_rs2p c) (c_rdp c) 3 OP_STORE_FP
  else if f3 =? 3 then enc_i (c_off_w c) (c_rdp c) 2 (c_rs2p c) OP_LOAD_FP
  else if f3 =? 7 then enc_s (c_off_w c) (c_rs2p c) (c_rdp c) 2 OP_STORE_FP
  else if f3 =? 4 then
    let b5 := Z.shiftr c 5 &! 1 in
    let b6 := Z.shiftr c 6 &! 1 in
    let sel := Z.shiftr c 10 &! 7 in
    if sel =? 0 then enc_i ((b5 <<! 1) |! b6) (c_rdp c) 4 (c_rs2p c) OP_LOAD
    else if sel =? 1 then enc_i (b5 <<! 1) (c_rdp c) (if negb (b6 =? 0) then 1 else 5) (c_rs2p c) OP_LOAD
    else if sel =? 2 then enc_s ((b5 <<! 1) |! b6) (c_rs2p c) (c_rdp c) 0 OP_STORE
    else if sel =? 3 then if negb (b6 =? 0) then ILLEGAL else enc_s (b5 <<! 1) (c_rs2p c) (c_rdp c) 1 OP_STORE
    else ILLEGAL
  else ILLEGAL.

(** [sel == 3] of MISC-ALU: register to register. *)
Definition expand_misc_alu (c : Z) : Z :=
  if has c 4096 then
    let sel := Z.shiftr c 5 &! 3 in
    if sel =? 2 then enc_r 1 (c_rs2p c) (c_rdp c) 0 (c_rdp c) OP_OP
    else if sel =? 3 then
      let u := Z.shiftr c 2 &! 7 in
      if u =? 0 then enc_i 255 (c_rdp c) 7 (c_rdp c) OP_IMM
      else if u =? 1 then enc_i ((48 <<! 5) |! 4) (c_rdp c) 1 (c_rdp c) OP_IMM
      else if u =? 2 then enc_r 4 0 (c_rdp c) 4 (c_rdp c) OP_OP
      else if u =? 3 then enc_i ((48 <<! 5) |! 5) (c_rdp c) 1 (c_rdp c) OP_IMM
      else if u =? 5 then enc_i 4095 (c_rdp c) 4 (c_rdp c) OP_IMM
      else ILLEGAL
    else ILLEGAL
  else
    let sel := Z.shiftr c 5 &! 3 in
    if sel =? 0 then enc_r 32 (c_rs2p c) (c_rdp c) 0 (c_rdp c) OP_OP
    else if sel =? 1 then enc_r 0 (c_rs2p c) (c_rdp c) 4 (c_rdp c) OP_OP
    else if sel =? 2 then enc_r 0 (c_rs2p c) (c_rdp c) 6 (c_rdp c) OP_OP
    else enc_r 0 (c_rs2p c) (c_rdp c) 7 (c_rdp c) OP_OP.

Definition expand_q1 (c : Z) : Z :=
  let f3 := Z.shiftr c 13 &! 7 in
  let ci6 := (Z.shiftr c 7 &! 32) |! (Z.shiftr c 2 &! 31) in
  if f3 =? 0 then enc_i (u32 (emu_sext ci6 6)) (c_rd c) 0 (c_rd c) OP_IMM
  else if f3 =? 1 then enc_j (u32 (emu_sext (c_off_j c) 12)) 1 OP_JAL
  else if f3 =? 2 then enc_i (u32 (emu_sext ci6 6)) 0 0 (c_rd c) OP_IMM
  else if f3 =? 3 then
    if c_rd c =? 2 then
      let imm := (Z.shiftr c 3 &! 512) |! (Z.shiftr c 2 &! 16) |! ((c <<! 1) &! 64) |! ((c <<! 4) &! 384)
                 |! ((c <<! 3) &! 32) in
      if imm =? 0 then ILLEGAL else enc_i (u32 (emu_sext imm 10)) 2 0 2 OP_IMM
    else if ci6 =? 0 then ILLEGAL
    else enc_u (u32 (emu_sext ci6 6) &! 1048575) (c_rd c) OP_LUI
  else if f3 =? 4 then
    let sel := Z.shiftr c 10 &! 3 in
    let shamt := ci6 in
    if (sel =? 0) || (sel =? 1) then
      if has shamt 32 then ILLEGAL
      else enc_i ((if sel =? 1 then 1024 else 0) |! shamt) (c_rdp c) 5 (c_rdp c) OP_IMM
    else if sel =? 2 then enc_i (u32 (emu_sext shamt 6)) (c_rdp c) 7 (c_rdp c) OP_IMM
    else expand_misc_alu c
  else if f3 =? 5 then enc_j (u32 (emu_sext (c_off_j c) 12)) 0 OP_JAL
  else
    let off := (Z.shiftr c 4 &! 256) |! (Z.shiftr c 7 &! 24) |! ((c <<! 1) &! 192) |! (Z.shiftr c 2 &! 6)
               |! ((c <<! 3) &! 32) in
    enc_b (u32 (emu_sext off 9)) 0 (c_rdp c) (if f3 =? 6 then 0 else 1) OP_BRANCH.

Definition expand_q2 (c : Z) : Z :=
  let f3 := Z.shiftr c 13 &! 7 in
  let rd := c_rd c in
  let rs2 := c_rs2 c in
  if f3 =? 0 then
    let shamt := (Z.shiftr c 7 &! 32) |! (Z.shiftr c 2 &! 31) in
    if has shamt 32 then ILLEGAL else enc_i shamt rd 1 rd OP_IMM
  else if f3 =? 2 then
    let off := (Z.shiftr c 7 &! 32) |! (Z.shiftr c 2 &! 28) |! ((c <<! 4) &! 192) in
    if rd =? 0 then ILLEGAL else enc_i off 2 2 rd OP_LOAD
  else if f3 =? 4 then
    if negb (has c 4096) then
      if rs2 =? 0 then if rd =? 0 then ILLEGAL else enc_i 0 rd 0 0 OP_JALR
      else enc_r 0 rs2 0 0 rd OP_OP
    else if rs2 =? 0 then if rd =? 0 then enc_i 1 0 0 0 OP_SYSTEM else enc_i 0 rd 0 1 OP_JALR
    else enc_r 0 rs2 rd 0 rd OP_OP
  else if f3 =? 6 then enc_s ((Z.shiftr c 7 &! 60) |! (Z.shiftr c 1 &! 192)) rs2 2 2 OP_STORE
  else if f3 =? 3 then
    enc_i ((Z.shiftr c 7 &! 32) |! (Z.shiftr c 2 &! 28) |! ((c <<! 4) &! 192)) 2 2 rd OP_LOAD_FP
  else if f3 =? 7 then enc_s ((Z.shiftr c 7 &! 60) |! (Z.shiftr c 1 &! 192)) rs2 2 2 OP_STORE_FP
  else if f3 =? 1 then
    enc_i ((Z.shiftr c 7 &! 32) |! (Z.shiftr c 2 &! 24) |! ((c <<! 4) &! 448)) 2 3 rd OP_LOAD_FP
  else enc_s ((Z.shiftr c 7 &! 56) |! (Z.shiftr c 1 &! 448)) rs2 2 3 OP_STORE_FP.

Definition rv_decode_expand_c (c : Z) : Z :=
  let q := c &! 3 in
  if q =? 0 then expand_q0 c
  else if q =? 1 then expand_q1 c
  else if q =? 2 then expand_q2 c
  else ILLEGAL.
