(* ===== verification/RvRvc.v ===== *)
(** * The compressed instructions

    A table of the C extension (RV32 with F and D) and Zcb as the manual
    prints it: for each form the place of every immediate bit, the registers
    and the base instruction it stands for, laid out field by field.  The
    expansion agrees with it on every 16-bit parcel, and the accessors the
    interpreter uses read the table's fields back ([expand_c_exact]). *)

From stdpp Require Import base list.
From Stdlib Require Import ZArith Lia.
From S2P Require Import Prelude RvHart RvDecode.

Open Scope Z_scope.
Open Scope u32_scope.

(** ** Base instructions *)

Inductive asm :=
| AR (op f7 f3 rd rs1 rs2 : Z)
| AI (op f3 rd rs1 imm : Z)
| AS (op f3 rs1 rs2 imm : Z)
| AB (f3 rs1 rs2 imm : Z)
| AU (op rd imm20 : Z)
| AJ (rd imm : Z).

(** Bits [lo + w - 1 .. lo] of a number, negative ones in two's complement. *)
Definition sub_bits (v lo w : Z) : Z := Z.land (Z.shiftr v lo) (Z.ones w).

(** Fields side by side, most significant first: (width, value). *)
Definition fields (fs : list (Z * Z)) : Z := fold_left (fun acc '(w, v) => Z.shiftl acc w + v) fs 0.

Definition encode (a : asm) : Z :=
  match a with
  | AR op f7 f3 rd rs1 rs2 => fields [(7, f7); (5, rs2); (5, rs1); (3, f3); (5, rd); (7, op)]
  | AI op f3 rd rs1 imm => fields [(12, sub_bits imm 0 12); (5, rs1); (3, f3); (5, rd); (7, op)]
  | AS op f3 rs1 rs2 imm => fields [(7, sub_bits imm 5 7); (5, rs2); (5, rs1); (3, f3); (5, sub_bits imm 0 5); (7, op)]
  | AB f3 rs1 rs2 imm =>
      fields [(1, sub_bits imm 12 1); (6, sub_bits imm 5 6); (5, rs2); (5, rs1); (3, f3);
              (4, sub_bits imm 1 4); (1, sub_bits imm 11 1); (7, 99)]
  | AU op rd imm20 => fields [(20, sub_bits imm20 0 20); (5, rd); (7, op)]
  | AJ rd imm =>
      fields [(1, sub_bits imm 20 1); (10, sub_bits imm 1 10); (1, sub_bits imm 11 1); (8, sub_bits imm 12 8); (5, rd); (7, 111)]
  end.

(** The fields the interpreter reads from the word. *)
Definition reads_back (a : asm) (i : Z) : bool :=
  match a with
  | AR op f7 f3 rd rs1 rs2 =>
      (rv_opcode i =? op) && (rv_funct7 i =? f7) && (rv_funct3 i =? f3) && (rv_rd i =? rd) && (rv_rs1 i =? rs1) && (rv_rs2 i =? rs2)
  | AI op f3 rd rs1 imm =>
      (rv_opcode i =? op) && (rv_funct3 i =? f3) && (rv_rd i =? rd) && (rv_rs1 i =? rs1) && (rv_imm_i i =? imm)
  | AS op f3 rs1 rs2 imm =>
      (rv_opcode i =? op) && (rv_funct3 i =? f3) && (rv_rs1 i =? rs1) && (rv_rs2 i =? rs2) && (rv_imm_s i =? imm)
  | AB f3 rs1 rs2 imm =>
      (rv_opcode i =? 99) && (rv_funct3 i =? f3) && (rv_rs1 i =? rs1) && (rv_rs2 i =? rs2) && (rv_imm_b i =? imm)
  | AU op rd imm20 => (rv_opcode i =? op) && (rv_rd i =? rd) && (rv_imm_u i =? Z.shiftl (sub_bits imm20 0 20) 12)
  | AJ rd imm => (rv_opcode i =? 111) && (rv_rd i =? rd) && (rv_imm_j i =? imm)
  end.

(** ** The table *)

(** The immediate whose bits [dsts] stand in the parcel from bit [hi] down,
    as the manual writes [imm\[5:4|9:6|2|3\]]. *)
Fixpoint scatter (c hi : Z) (dsts : list Z) : Z :=
  match dsts with
  | [] => 0
  | d :: dsts => (if Z.testbit c hi then Z.shiftl 1 d else 0) + scatter c (hi - 1) dsts
  end.

(** Two's complement of [w] bits. *)
Definition sgn (w v : Z) : Z := if Z.testbit v (w - 1) then v - Z.shiftl 1 w else v.

Definition creg (c lo : Z) : Z := 8 + sub_bits c lo 3.
Definition imm6 (c : Z) : Z := scatter c 12 [5] + scatter c 6 [4; 3; 2; 1; 0].
Definition immj (c : Z) : Z := sgn 12 (scatter c 12 [11; 4; 9; 8; 10; 6; 7; 3; 2; 1; 5]).
Definition immb (c : Z) : Z := sgn 9 (scatter c 12 [8; 4; 3] + scatter c 6 [7; 6; 2; 1; 5]).
Definition offw (c : Z) : Z := scatter c 12 [5; 4; 3] + scatter c 6 [2; 6].
Definition offd (c : Z) : Z := scatter c 12 [5; 4; 3] + scatter c 6 [7; 6].

Definition unless (bad : bool) (a : asm) : option asm := if bad then None else Some a.

Definition rvc_q0 (c : Z) : option asm :=
  let rd := creg c 2 in let rs1 := creg c 7 in
  match sub_bits c 13 3 with
  | 0 => let imm := scatter c 12 [5; 4; 9; 8; 7; 6; 2; 3] in unless (imm =? 0) (AI 19 0 rd 2 imm)
  | 1 => Some (AI 7 3 rd rs1 (offd c))
  | 2 => Some (AI 3 2 rd rs1 (offw c))
  | 3 => Some (AI 7 2 rd rs1 (offw c))
  | 4 => match sub_bits c 10 3 with
         | 0 => Some (AI 3 4 rd rs1 (scatter c 6 [0; 1]))
         | 1 => Some (AI 3 (if sub_bits c 6 1 =? 0 then 5 else 1) rd rs1 (scatter c 5 [1]))
         | 2 => Some (AS 35 0 rs1 rd (scatter c 6 [0; 1]))
         | 3 => unless (sub_bits c 6 1 =? 1) (AS 35 1 rs1 rd (scatter c 5 [1]))
         | _ => None
         end
  | 5 => Some (AS 39 3 rs1 rd (offd c))
  | 6 => Some (AS 35 2 rs1 rd (offw c))
  | _ => Some (AS 39 2 rs1 rd (offw c))
  end.

Definition rvc_alu (c : Z) : option asm :=
  let rd := creg c 7 in let rs2 := creg c 2 in
  match sub_bits c 12 1, sub_bits c 5 2 with
  | 0, 0 => Some (AR 51 32 0 rd rd rs2)
  | 0, 1 => Some (AR 51 0 4 rd rd rs2)
  | 0, 2 => Some (AR 51 0 6 rd rd rs2)
  | 0, _ => Some (AR 51 0 7 rd rd rs2)
  | _, 2 => Some (AR 51 1 0 rd rd rs2)
  | _, 3 => match sub_bits c 2 3 with
            | 0 => Some (AI 19 7 rd rd 255)
            | 1 => Some (AR 19 48 1 rd rd 4)
            | 2 => Some (AR 51 4 4 rd rd 0)
            | 3 => Some (AR 19 48 1 rd rd 5)
            | 5 => Some (AI 19 4 rd rd (-1))
            | _ => None
            end
  | _, _ => None
  end.

Definition rvc_q1 (c : Z) : option asm :=
  let rd := sub_bits c 7 5 in let rd' := creg c 7 in
  match sub_bits c 13 3 with
  | 0 => Some (AI 19 0 rd rd (sgn 6 (imm6 c)))
  | 1 => Some (AJ 1 (immj c))
  | 2 => Some (AI 19 0 rd 0 (sgn 6 (imm6 c)))
  | 3 => if rd =? 2
         then let imm := scatter c 12 [9] + scatter c 6 [4; 6; 8; 7; 5] in unless (imm =? 0) (AI 19 0 2 2 (sgn 10 imm))
         else unless (imm6 c =? 0) (AU 55 rd (sgn 6 (imm6 c)))
  | 4 => match sub_bits c 10 2 with
         | 0 => unless (sub_bits c 12 1 =? 1) (AR 19 0 5 rd' rd' (sub_bits c 2 5))
         | 1 => unless (sub_bits c 12 1 =? 1) (AR 19 32 5 rd' rd' (sub_bits c 2 5))
         | 2 => Some (AI 19 7 rd' rd' (sgn 6 (imm6 c)))
         | _ => rvc_alu c
         end
  | 5 => Some (AJ 0 (immj c))
  | 6 => Some (AB 0 rd' 0 (immb c))
  | _ => Some (AB 1 rd' 0 (immb c))
  end.

Definition rvc_q2 (c : Z) : option asm :=
  let rd := sub_bits c 7 5 in let rs2 := sub_bits c 2 5 in
  let lwsp := scatter c 12 [5] + scatter c 6 [4; 3; 2; 7; 6] in
  let swsp := scatter c 12 [5; 4; 3; 2; 7; 6] in
  match sub_bits c 13 3 with
  | 0 => unless (sub_bits c 12 1 =? 1) (AR 19 0 1 rd rd rs2)
  | 1 => Some (AI 7 3 rd 2 (scatter c 12 [5] + scatter c 6 [4; 3; 8; 7; 6]))
  | 2 => unless (rd =? 0) (AI 3 2 rd 2 lwsp)
  | 3 => Some (AI 7 2 rd 2 lwsp)
  | 4 => if sub_bits c 12 1 =? 0
         then if rs2 =? 0 then unless (rd =? 0) (AI 103 0 0 rd 0) else Some (AR 51 0 0 rd 0 rs2)
         else if rs2 =? 0 then Some (if rd =? 0 then AI 115 0 0 0 1 else AI 103 0 1 rd 0)
         else Some (AR 51 0 0 rd rd rs2)
  | 5 => Some (AS 39 3 2 rs2 (scatter c 12 [5; 4; 3; 8; 7; 6]))
  | 6 => Some (AS 35 2 2 rs2 swsp)
  | _ => Some (AS 39 2 2 rs2 swsp)
  end.

(** What a parcel stands for; nothing when it is reserved, or the first half
    of a 32-bit instruction. *)
Definition rvc (c : Z) : option asm :=
  match c mod 4 with 0 => rvc_q0 c | 1 => rvc_q1 c | 2 => rvc_q2 c | _ => None end.

(** ** Agreement

    Every parcel is tried.  The definitions spend their time in [u32] and
    [s32], so they are run with masks in their place. *)

Definition mask32 (x : Z) : Z := Z.land x 4294967295.
Definition sign32 (x : Z) : Z := let y := mask32 x in if Z.testbit y 31 then y - 4294967296 else y.

Lemma u32_mask x : u32 x = mask32 x.
Proof. unfold u32, mask32. change 4294967295 with (Z.ones 32). rewrite Z.land_ones by lia. reflexivity. Qed.

Lemma s32_sign x : s32 x = sign32 x.
Proof.
  unfold sign32. rewrite <- u32_mask. unfold s32, sext, u32. rewrite Z.testbit_eqb by lia.
  change (2 ^ (32 - 1)) with 2147483648. change (2 ^ 31) with 2147483648. change (2 ^ 32) with 4294967296. cbv zeta.
  destruct (Z.eqb_spec (x mod 4294967296 / 2147483648 mod 2) 1); Z.to_euclidean_division_equations; lia.
Qed.

Definition expand_with (w sx : Z -> Z) : Z -> Z := ltac:(
  let t := eval cbv beta delta [rv_decode_expand_c expand_q0 expand_q1 expand_q2 expand_misc_alu enc_r enc_i enc_s enc_b enc_u enc_j
    c_rd c_rs2 c_rdp c_rs2p c_off_w c_off_d c_off_j emu_sext] in rv_decode_expand_c in
  let t := eval pattern u32, s32 in t in
  lazymatch t with ?f _ _ => let b := eval cbv beta in (f w sx) in exact b end).

Definition reads_with (w sx : Z -> Z) : asm -> Z -> bool := ltac:(
  let t := eval cbv beta delta [reads_back rv_opcode rv_rd rv_rs1 rv_rs2 rv_funct3 rv_funct7 rv_imm_i rv_imm_s rv_imm_b rv_imm_u rv_imm_j
    emu_sext] in reads_back in
  let t := eval pattern u32, s32 in t in
  lazymatch t with ?f _ _ => let b := eval cbv beta in (f w sx) in exact b end).

Definition agrees_fast (c : Z) : bool :=
  match rvc c with
  | Some a => let i := expand_with mask32 sign32 c in (i =? encode a) && reads_with mask32 sign32 a i
  | None => expand_with mask32 sign32 c =? 0
  end.

(** [p] on the [n] numbers from [lo]. *)
Fixpoint all_from (p : Z -> bool) (n : nat) (lo : Z) : bool :=
  match n with O => true | S n => p lo && all_from p n (lo + 1) end.

Lemma all_from_spec p : forall n lo, all_from p n lo = true -> forall c, lo <= c < lo + Z.of_nat n -> p c = true.
Proof.
  induction n as [|n IH]; intros lo H c Hc; [lia|]. cbn [all_from] in H. apply andb_true_iff in H as [H0 H1].
  destruct (Z.eq_dec c lo) as [->|Hn]; [exact H0|]. apply (IH (lo + 1) H1). lia.
Qed.

Lemma agrees_all : all_from agrees_fast (Z.to_nat 65536) 0 = true.
Proof. vm_cast_no_check (eq_refl true). Qed.

Lemma expand_masked c : rv_decode_expand_c c = expand_with mask32 sign32 c.
Proof.
  unfold rv_decode_expand_c, expand_q0, expand_q1, expand_q2, expand_misc_alu, enc_r, enc_i, enc_s, enc_b, enc_u, enc_j,
    c_rd, c_rs2, c_rdp, c_rs2p, c_off_w, c_off_d, c_off_j, emu_sext. cbv zeta. rewrite !u32_mask, !s32_sign. reflexivity.
Qed.

Lemma reads_masked a i : reads_back a i = reads_with mask32 sign32 a i.
Proof.
  unfold reads_back, rv_imm_i, rv_imm_s, rv_imm_b, rv_imm_u, rv_imm_j, emu_sext. cbv zeta.
  destruct a; rewrite ?u32_mask, ?s32_sign; reflexivity.
Qed.

(** [C37] The compressed instructions are the manual's.  On every 16-bit parcel
    the expansion is the base instruction the table gives, word for word, and
    the opcode, registers, function codes and sign-extended immediate the
    interpreter then reads from it are the table's; a reserved parcel, and
    the first half of a 32-bit instruction, expands to none. *)
Theorem expand_c_exact c : 0 <= c < 65536 ->
  match rvc c with
  | Some a => rv_decode_expand_c c = encode a /\ reads_back a (rv_decode_expand_c c) = true
  | None => rv_decode_expand_c c = 0
  end.
Proof.
  intros Hc. assert (H : agrees_fast c = true) by (apply (all_from_spec _ _ _ agrees_all); lia).
  unfold agrees_fast in H. rewrite expand_masked. destruct (rvc c) as [a|]; [|apply Z.eqb_eq, H].
  cbv zeta in H. rewrite reads_masked. apply andb_true_iff in H as [H1 H2]. apply Z.eqb_eq in H1. auto.
Qed.
