(* ===== verification/RvAtomic.v ===== *)
(** * Atomics and cache-block operations

    The A, Zacas, Zalasr, Zicbom and Zicboz parts of
    [src/frontend/rv32/rv_hart.c].  Each function returns the exception, what
    the trap reports where the source has an out-parameter for it, the hart
    and the machine.  The host's own cache maintenance, a platform callback
    with no effect on guest memory, is not part of the machine. *)

From stdpp Require Import base list gmap.
From Stdlib Require Import ZArith Lia.
From S2P Require Import Prelude Bus BusProps RvHart RvBus RvPmp RvTrig RvMmu RvAccess RvCsr RvDecode.

Open Scope Z_scope.
Open Scope u32_scope.

Definition RV_AMO_ADD : Z := 0.
Definition RV_AMO_SWAP : Z := 1.
Definition RV_AMO_LR : Z := 2.
Definition RV_AMO_SC : Z := 3.
Definition RV_AMO_XOR : Z := 4.
Definition RV_AMO_CAS : Z := 5.
Definition RV_AMO_LOAD_ACQ : Z := 6.
Definition RV_AMO_STORE_REL : Z := 7.
Definition RV_AMO_OR : Z := 8.
Definition RV_AMO_AND : Z := 12.
Definition RV_AMO_MIN : Z := 16.
Definition RV_AMO_MAX : Z := 20.
Definition RV_AMO_MINU : Z := 24.
Definition RV_AMO_MAXU : Z := 28.

Definition RV_CBO_OP_INVAL : Z := 0.
Definition RV_CBO_OP_CLEAN : Z := 1.
Definition RV_CBO_OP_FLUSH : Z := 2.
Definition RV_CBO_OP_ZERO : Z := 4.
Definition RV_CACHE_BLOCK_SIZE : Z := 64.

Definition rv_amo_valid (funct5 : Z) : bool :=
  existsb (Z.eqb funct5)
    [RV_AMO_ADD; RV_AMO_SWAP; RV_AMO_LR; RV_AMO_SC; RV_AMO_XOR; RV_AMO_OR; RV_AMO_AND; RV_AMO_MIN; RV_AMO_MAX;
     RV_AMO_MINU; RV_AMO_MAXU; RV_AMO_CAS].

(** [if (rd != 0) h->x[rd] = v]. *)
Definition put_x (h : rv_hart) (rd v : Z) : rv_hart :=
  if negb (rd =? 0) then h <| h_x := upd (h_x h) rd v |> else h.

(** [h->x[0] = 0]. *)
Definition zero_x0 (h : rv_hart) : rv_hart := h <| h_x := upd (h_x h) 0 0 |>.

Definition amo_value (funct5 old src : Z) : Z :=
  if funct5 =? RV_AMO_ADD then old +! src
  else if funct5 =? RV_AMO_SWAP then src
  else if funct5 =? RV_AMO_XOR then old ^! src
  else if funct5 =? RV_AMO_OR then old |! src
  else if funct5 =? RV_AMO_AND then old &! src
  else if funct5 =? RV_AMO_MIN then (if s32 old <? s32 src then old else src)
  else if funct5 =? RV_AMO_MAX then (if s32 src <? s32 old then old else src)
  else if funct5 =? RV_AMO_MINU then (if old <? src then old else src)
  else if src <? old then old else src.

Section Atomic.
Context `{Cfg : RvConfig} {Ext M : Type} `{PB : PhysBus Ext M}.

Definition no_fault (f : emu_fault) : bool := match f with EMU_FAULT_NONE => true | _ => false end.

(** Translation of an address the caller has aligned. *)
Definition data_translate (h : rv_hart) (m : M) (va : Z) (acc : emu_access) : Z * Z * rv_hart * M :=
  if h_vm_active h then rv_mmu_translate h m va acc else (RV_EXC_NONE, va, h, m).

Definition amo_lr (h : rv_hart) (m : M) (rd addr : Z) : Z * rv_hart * M :=
  let '(f, v, m) := bus_read m addr 4 in
  if negb (no_fault f) then (rv_exc_from_fault f, h, m)
  else (RV_EXC_NONE, put_x (h <| h_resv_addr := addr |> <| h_resv_valid := true |>) rd (default 0 v), m).

Definition amo_sc (h : rv_hart) (m : M) (rd addr src : Z) : Z * rv_hart * M :=
  let '(r, m) := bus_find m addr in
  match r with
  | None => (RV_EXC_STORE_ACCESS_FAULT, h, m)
  | Some r =>
      if negb (has (perm r) EMU_PERM_W) then (RV_EXC_STORE_ACCESS_FAULT, h, m)
      else if negb (h_resv_valid h) || negb (h_resv_addr h =? addr) then (RV_EXC_NONE, put_x h rd 1, m)
      else
        let '(f, m) := bus_write m addr 4 src in
        let h := h <| h_resv_valid := false |> in
        if negb (no_fault f) then (rv_exc_from_fault f, h, m) else (RV_EXC_NONE, put_x h rd 0, m)
  end.

Definition amo_rmw (h : rv_hart) (m : M) (funct5 rd addr src : Z) : Z * rv_hart * M :=
  let '(f, v, m) := bus_read m addr 4 in
  let old := default 0 v in
  if negb (no_fault f) then (RV_EXC_STORE_ACCESS_FAULT, h, m)
  else if funct5 =? RV_AMO_CAS then
    if old =? h_x h rd then
      let '(f, m) := bus_write m addr 4 src in
      if negb (no_fault f) then (rv_exc_from_fault f, h, m) else (RV_EXC_NONE, put_x h rd old, m)
    else (RV_EXC_NONE, put_x h rd old, m)
  else
    let '(f, m) := bus_write m addr 4 (amo_value funct5 old src) in
    if negb (no_fault f) then (rv_exc_from_fault f, h, m) else (RV_EXC_NONE, put_x h rd old, m).

Definition rv_hart_amo (h : rv_hart) (m : M) (funct5 rd addr src : Z) : Z * rv_hart * M :=
  let lr := funct5 =? RV_AMO_LR in
  if has addr 3 then (if lr then RV_EXC_LOAD_MISALIGNED else RV_EXC_STORE_MISALIGNED, h, m)
  else
    let acc := if lr then EMU_ACC_LOAD else EMU_ACC_STORE in
    let '(e, addr, h, m) := data_translate h m addr acc in
    if negb (e =? RV_EXC_NONE) then (e, h, m)
    else if h_pmp_active h && negb (rv_pmp_check h addr 4 acc)
    then (if lr then RV_EXC_LOAD_ACCESS_FAULT else RV_EXC_STORE_ACCESS_FAULT, h, m)
    else if lr then amo_lr h m rd addr
    else if funct5 =? RV_AMO_SC then amo_sc h m rd addr src
    else amo_rmw h m funct5 rd addr src.

(** The register pair [r], with x0 standing for a zero pair. *)
Definition pair_lo (h : rv_hart) (r : Z) : Z := if r =? 0 then 0 else h_x h r.
Definition pair_hi (h : rv_hart) (r : Z) : Z := if r =? 0 then 0 else h_x h (r + 1).
Definition put_pair (h : rv_hart) (rd lo hi : Z) : rv_hart :=
  if negb (rd =? 0) then h <| h_x := upd (upd (h_x h) rd lo) (rd + 1) hi |> else h.

Definition amocas_d_bus (h : rv_hart) (m : M) (rd rs2 addr : Z) : Z * rv_hart * M :=
  let '(f, lo, m) := bus_read m addr 4 in
  if negb (no_fault f) then (RV_EXC_STORE_ACCESS_FAULT, h, m)
  else
    let '(f, hi, m) := bus_read m (addr +! 4) 4 in
    if negb (no_fault f) then (RV_EXC_STORE_ACCESS_FAULT, h, m)
    else
      let lo := default 0 lo in
      let hi := default 0 hi in
      if (lo =? pair_lo h rd) && (hi =? pair_hi h rd) then
        let '(f, m) := bus_write m addr 4 (pair_lo h rs2) in
        if negb (no_fault f) then (rv_exc_from_fault f, h, m)
        else
          let '(f, m) := bus_write m (addr +! 4) 4 (pair_hi h rs2) in
          if negb (no_fault f) then (rv_exc_from_fault f, h, m) else (RV_EXC_NONE, put_pair h rd lo hi, m)
      else (RV_EXC_NONE, put_pair h rd lo hi, m).

Definition rv_hart_amocas_d (h : rv_hart) (m : M) (rd rs2 addr : Z) : Z * rv_hart * M :=
  if has addr 7 then (RV_EXC_STORE_MISALIGNED, h, m)
  else
    let '(e, addr, h, m) := data_translate h m addr EMU_ACC_STORE in
    if negb (e =? RV_EXC_NONE) then (e, h, m)
    else if rv_pmp_needed h addr 8 && negb (rv_pmp_check h addr 8 EMU_ACC_STORE)
    then (RV_EXC_STORE_ACCESS_FAULT, h, m)
    else amocas_d_bus h m rd rs2 addr.

(** Exception and [tval]; the caller has put the encoding in [tval]. *)
Definition rv_hart_zalasr (h : rv_hart) (m : M) (insn tval : Z) : Z * Z * rv_hart * M :=
  let store := Z.shiftr (rv_funct7 insn) 2 =? RV_AMO_STORE_REL in
  let aq := has insn 67108864 in
  let rl := has insn 33554432 in
  let f3 := rv_funct3 insn in
  let addr := h_x h (rv_rs1 insn) in
  if 2 <? f3 then (RV_EXC_ILLEGAL_INSN, tval, h, m)
  else
    let size := 1 <<! f3 in
    if store then
      if negb rl || negb (rv_rd insn =? 0) then (RV_EXC_ILLEGAL_INSN, tval, h, m)
      else if has addr (size - 1) then (RV_EXC_STORE_MISALIGNED, addr, h, m)
      else let '(e, h, m) := rv_hart_store h m addr size (h_x h (rv_rs2 insn)) in (e, addr, h, m)
    else if negb aq || negb (rv_rs2 insn =? 0) then (RV_EXC_ILLEGAL_INSN, tval, h, m)
    else if has addr (size - 1) then (RV_EXC_LOAD_MISALIGNED, addr, h, m)
    else
      let '(e, v, h, m) := rv_hart_load h m addr size true in
      let h := if e =? RV_EXC_NONE then put_x h (rv_rd insn) (default 0 v) else h in
      (e, addr, h, m).

Definition rv_hart_atomic (h : rv_hart) (m : M) (insn : Z) : Z * Z * rv_hart * M :=
  let funct5 := Z.shiftr (rv_funct7 insn) 2 in
  let f3 := rv_funct3 insn in
  let tval := insn in
  if (funct5 =? RV_AMO_LOAD_ACQ) || (funct5 =? RV_AMO_STORE_REL) then rv_hart_zalasr h m insn tval
  else if (f3 =? 3) && (funct5 =? RV_AMO_CAS) then
    if has (rv_rd insn) 1 || has (rv_rs2 insn) 1 then (RV_EXC_ILLEGAL_INSN, tval, h, m)
    else
      let tval := h_x h (rv_rs1 insn) in
      let '(e, h, m) := rv_hart_amocas_d h m (rv_rd insn) (rv_rs2 insn) tval in
      (e, tval, zero_x0 h, m)
  else if negb (f3 =? 2) || negb (rv_amo_valid funct5) || ((funct5 =? RV_AMO_LR) && negb (rv_rs2 insn =? 0))
  then (RV_EXC_ILLEGAL_INSN, tval, h, m)
  else
    let tval := h_x h (rv_rs1 insn) in
    let '(e, h, m) := rv_hart_amo h m funct5 (rv_rd insn) tval (h_x h (rv_rs2 insn)) in
    (e, tval, zero_x0 h, m).

(** ** Cache blocks *)

Definition rv_cbo_valid (op : Z) : bool :=
  existsb (Z.eqb op) [RV_CBO_OP_ZERO; RV_CBO_OP_INVAL; RV_CBO_OP_CLEAN; RV_CBO_OP_FLUSH].

(** [None]: not permitted; otherwise the operation to run. *)
Definition cbo_permitted (h : rv_hart) (op : Z) : option Z :=
  if h_priv h =? RV_PRIV_M then Some op
  else
    let m := h_menvcfg h in
    let s := if h_priv h =? RV_PRIV_U then h_senvcfg h else m in
    if op =? RV_CBO_OP_ZERO then if has (m &! s) ENVCFG_CBZE then Some op else None
    else if (op =? RV_CBO_OP_CLEAN) || (op =? RV_CBO_OP_FLUSH) then
      if has (m &! s) ENVCFG_CBCFE then Some op else None
    else if negb (has m ENVCFG_CBIE) || negb (has s ENVCFG_CBIE) then None
    else if (m &! ENVCFG_CBIE =? ENVCFG_CBIE_FLUSH) || (s &! ENVCFG_CBIE =? ENVCFG_CBIE_FLUSH)
    then Some RV_CBO_OP_FLUSH else Some op.

(** The offsets of the words of a block. *)
Definition block_words : list Z := map (fun i => 4 * Z.of_nat i) (seq 0 (Z.to_nat (RV_CACHE_BLOCK_SIZE / 4))).

(** The zeroing loop: the exception and the offset that faulted. *)
Fixpoint zero_words (h : rv_hart) (m : M) (pa : Z) (offs : list Z) : Z * Z * rv_hart * M :=
  match offs with
  | [] => (RV_EXC_NONE, 0, h, m)
  | i :: offs =>
      let h := if h_resv_valid h && (Z.ldiff (pa +! i) 3 =? h_resv_addr h) then h <| h_resv_valid := false |> else h in
      let '(f, m) := bus_write m (pa +! i) 4 0 in
      if negb (no_fault f) then (rv_exc_from_fault f, i, h, m) else zero_words h m pa offs
  end.

(** Exception, faulting address. *)
Definition cbo_zero (h : rv_hart) (m : M) (base : Z) : Z * Z * rv_hart * M :=
  match (if h_trig_active h then List.find (fun i => rv_trig_check h (base +! i) EMU_ACC_STORE) block_words else None) with
  | Some i => (RV_EXC_BREAKPOINT, base +! i, h, m)
  | None =>
      let '(e, pa, h, m) := data_translate h m base EMU_ACC_STORE in
      if negb (e =? RV_EXC_NONE) then (e, base, h, m)
      else if rv_pmp_needed h pa RV_CACHE_BLOCK_SIZE && negb (rv_pmp_check h pa RV_CACHE_BLOCK_SIZE EMU_ACC_STORE)
      then (RV_EXC_STORE_ACCESS_FAULT, base, h, m)
      else
        let '(r, m) := bus_find m pa in
        match r with
        | None => (RV_EXC_STORE_ACCESS_FAULT, base, h, m)
        | Some r =>
            if negb (has (perm r) EMU_PERM_W) || (size r <? (pa -! Bus.base r) +! RV_CACHE_BLOCK_SIZE)
            then (RV_EXC_STORE_ACCESS_FAULT, base, h, m)
            else
              let '(e, i, h, m) := zero_words h m pa block_words in
              (e, if e =? RV_EXC_NONE then base else base +! i, h, m)
        end
  end.

Definition cbo_maint (h : rv_hart) (m : M) (base : Z) : Z * Z * rv_hart * M :=
  let '(e, pa, h, m) := data_translate h m base EMU_ACC_LOAD in
  if negb (e =? RV_EXC_NONE)
  then (if e =? RV_EXC_LOAD_PAGE_FAULT then RV_EXC_STORE_PAGE_FAULT else RV_EXC_STORE_ACCESS_FAULT, base, h, m)
  else if rv_pmp_needed h pa RV_CACHE_BLOCK_SIZE && negb (rv_pmp_check h pa RV_CACHE_BLOCK_SIZE EMU_ACC_LOAD)
          && negb (rv_pmp_check h pa RV_CACHE_BLOCK_SIZE EMU_ACC_STORE)
  then (RV_EXC_STORE_ACCESS_FAULT, base, h, m)
  else
    let '(r, m) := bus_find m pa in
    match r with
    | None => (RV_EXC_STORE_ACCESS_FAULT, base, h, m)
    | Some _ => let '(_, m) := bus_find m pa in (RV_EXC_NONE, base, h, m)
    end.

Definition rv_hart_cbo (h : rv_hart) (m : M) (op addr : Z) : Z * Z * rv_hart * M :=
  let base := Z.ldiff addr (RV_CACHE_BLOCK_SIZE - 1) in
  match cbo_permitted h op with
  | None => (RV_EXC_ILLEGAL_INSN, base, h, m)
  | Some op => if op =? RV_CBO_OP_ZERO then cbo_zero h m base else cbo_maint h m base
  end.

End Atomic.
