(* ===== verification/RvFpu.v ===== *)
(** * The floating-point instructions

    [src/frontend/rv32/rv_fpu.c] for the build with F, D and Zfhmin: the
    register file and its NaN boxes, rounding modes and accrued flags, the
    loads and stores, and every OP-FP and fused multiply-add.  Berkeley
    SoftFloat is a library the sources call: [SoftFloat] is its interface, an
    operation taking the rounding mode and answering the bits and the
    exception flags. *)

From stdpp Require Import base list gmap.
From Stdlib Require Import ZArith Lia SpecFloat.
From S2P Require Import Prelude Bus BusProps RvHart RvBus RvPmp RvTrig RvMmu RvAccess RvDecode RvAtomic IrTypes IrFloat.

Open Scope Z_scope.
Open Scope u32_scope.

Class SoftFloat := {
  f32_add : Z -> Z -> Z -> Z * Z;
  f32_sub : Z -> Z -> Z -> Z * Z;
  f32_mul : Z -> Z -> Z -> Z * Z;
  f32_div : Z -> Z -> Z -> Z * Z;
  f32_sqrt : Z -> Z -> Z * Z;
  f32_mulAdd : Z -> Z -> Z -> Z -> Z * Z;
  f32_to_i32 : Z -> Z -> Z * Z;
  f32_to_ui32 : Z -> Z -> Z * Z;
  i32_to_f32 : Z -> Z -> Z * Z;
  ui32_to_f32 : Z -> Z -> Z * Z;
  f32_to_f64 : Z -> Z -> Z * Z;
  f32_to_f16 : Z -> Z -> Z * Z;
  f16_to_f32 : Z -> Z -> Z * Z;
  f16_to_f64 : Z -> Z -> Z * Z;
  f64_add : Z -> Z -> Z -> Z * Z;
  f64_sub : Z -> Z -> Z -> Z * Z;
  f64_mul : Z -> Z -> Z -> Z * Z;
  f64_div : Z -> Z -> Z -> Z * Z;
  f64_sqrt : Z -> Z -> Z * Z;
  f64_mulAdd : Z -> Z -> Z -> Z -> Z * Z;
  f64_to_i32 : Z -> Z -> Z * Z;
  f64_to_ui32 : Z -> Z -> Z * Z;
  i32_to_f64 : Z -> Z -> Z * Z;
  ui32_to_f64 : Z -> Z -> Z * Z;
  f64_to_f32 : Z -> Z -> Z * Z;
  f64_to_f16 : Z -> Z -> Z * Z;
  f64_lt : Z -> Z -> bool;
  f64_le : Z -> Z -> bool;
  f64_eq : Z -> Z -> bool
}.

Definition FFLAG_NV : Z := 16.
Definition FRM_RMM : Z := 4.
Definition FRM_DYN : Z := 7.

(** ** Bits *)

Definition F_CANON_NAN : Z := 2143289344.
Definition F_SIGN (x : Z) : Z := x &! 2147483648.
Definition F_EXP (x : Z) : Z := Z.shiftr x 23 &! 255.
Definition F_MANT (x : Z) : Z := x &! 8388607.
Definition f_is_nan (x : Z) : bool := (F_EXP x =? 255) && negb (F_MANT x =? 0).
Definition f_is_snan (x : Z) : bool := f_is_nan x && negb (has (F_MANT x) 4194304).
Definition f_is_inf (x : Z) : bool := (F_EXP x =? 255) && (F_MANT x =? 0).
Definition f_is_zero (x : Z) : bool := x &! 2147483647 =? 0.

Definition H_CANON_NAN : Z := 32256.
Definition h_is_nan (x : Z) : bool := (Z.shiftr x 10 &! 31 =? 31) && has x 1023.
Definition h_is_snan (x : Z) : bool := h_is_nan x && negb (has x 512).

Definition D_CANON_NAN : Z := 9221120237041090560.
Definition D_SIGN (x : Z) : Z := x &! 9223372036854775808.
Definition D_EXP (x : Z) : Z := Z.shiftr x 52 &! 2047.
Definition D_MANT (x : Z) : Z := x &! 4503599627370495.
Definition d_is_nan (x : Z) : bool := (D_EXP x =? 2047) && negb (D_MANT x =? 0).
Definition d_is_snan (x : Z) : bool := d_is_nan x && negb (has (D_MANT x) 2251799813685248).
Definition d_is_inf (x : Z) : bool := (D_EXP x =? 2047) && (D_MANT x =? 0).
Definition d_is_zero (x : Z) : bool := x &! 9223372036854775807 =? 0.

Definition f_rm (h : rv_hart) (rm : Z) : Z := if rm =? FRM_DYN then Z.shiftr (h_fcsr h) 5 &! 7 else rm.
Definition f_rm_valid (rm : Z) : bool := rm <=? FRM_RMM.

(** ** The register file *)

Definition fr32 (h : rv_hart) (r : Z) : Z :=
  let v := h_f h r in if Z.shiftr v 32 =? 4294967295 then u32 v else F_CANON_NAN.
Definition fw32 (h : rv_hart) (r v : Z) : rv_hart := h <| h_f := upd (h_f h) r (18446744069414584320 |! v) |>.
Definition fr16 (h : rv_hart) (r : Z) : Z :=
  let v := h_f h r in if Z.shiftr v 16 =? 281474976710655 then v &! 65535 else H_CANON_NAN.
Definition fw16 (h : rv_hart) (r v : Z) : rv_hart :=
  h <| h_f := upd (h_f h) r (18446744073709486080 |! (v &! 65535)) |>.
Definition fr64 (h : rv_hart) (r : Z) : Z := h_f h r.
Definition fw64 (h : rv_hart) (r v : Z) : rv_hart := h <| h_f := upd (h_f h) r v |>.

(** NaN operands: the flags, and the result when there is one. *)
Definition nv (b : bool) : Z := if b then FFLAG_NV else 0.
Definition d_nan_result (a b : Z) : Z * bool :=
  (nv (d_is_snan a || d_is_snan b), d_is_snan a || d_is_snan b || d_is_nan a || d_is_nan b).
Definition f_nan_result (a b : Z) : Z * bool := (nv (f_is_snan a || f_is_snan b), f_is_nan a || f_is_nan b).

Definition class_bit (neg inf nan snan zero sub : bool) : Z :=
  if inf then (if neg then 1 else 128)
  else if nan then (if snan then 256 else 512)
  else if zero then (if neg then 8 else 16)
  else if sub then (if neg then 4 else 32)
  else if neg then 2 else 64.

Definition f_classify (a : Z) : Z :=
  class_bit (negb (F_SIGN a =? 0)) (f_is_inf a) (f_is_nan a) (f_is_snan a) (f_is_zero a) (F_EXP a =? 0).

(** The order of the tests for doubles: infinity, zero, NaN. *)
Definition d_classify (a : Z) : Z :=
  let neg := negb (D_SIGN a =? 0) in
  if d_is_inf a then (if neg then 1 else 128)
  else if d_is_zero a then (if neg then 8 else 16)
  else if d_is_nan a then (if d_is_snan a then 256 else 512)
  else if D_EXP a =? 0 then (if neg then 4 else 32)
  else if neg then 2 else 64.

Definition f_dirty (h : rv_hart) : rv_hart := h <| h_mstatus := h_mstatus h |! MSTATUS_FS_MASK |>.

Definition f_accrue (h : rv_hart) (flags : Z) : rv_hart :=
  if negb (h_fcsr h |! flags =? h_fcsr h) then f_dirty (h <| h_fcsr := h_fcsr h |! flags |>) else h.

(** An f register, the flags and FS. *)
Definition fp_done (h : rv_hart) (flags : Z) : rv_hart := f_dirty (h <| h_fcsr := h_fcsr h |! flags |>).

(** [h->x[rd] = r; h->x[0] = 0]. *)
Definition put_xz (h : rv_hart) (rd r : Z) : rv_hart := h <| h_x := upd (upd (h_x h) rd r) 0 0 |>.

(** What an operation of the switches comes to: an illegal encoding, a value
    for an f register with the flags to accrue, or one for an x register. *)
Inductive fp_result := FpIllegal | FpReg (res flags : Z) | FpX (r : Z) (flags : Z) | FpXquiet (r : Z).

Section Fpu.
Context `{SF : SoftFloat}.

(** ** Doubles *)

Definition d_arith (funct5 : Z) : Z -> Z -> Z -> Z * Z :=
  if funct5 =? 3 then f64_div else if funct5 =? 2 then f64_mul else if funct5 =? 1 then f64_sub else f64_add.

Definition d_minmax (rm a b : Z) : Z :=
  if d_is_nan a && d_is_nan b then D_CANON_NAN
  else if d_is_nan a then b
  else if d_is_nan b then a
  else if d_is_zero a && d_is_zero b then
    if Bool.eqb (negb (D_SIGN a =? 0)) (rm =? 0) then a else b
  else if Bool.eqb (rm =? 0) (f64_lt a b) then a else b.

(** The flags a comparison of a NaN raises: quiet for FEQ. *)
Definition cmp_nan_flags (rm : Z) (snan : bool) : Z := if rm =? 2 then nv snan else FFLAG_NV.

(** A source with a NaN in it, or the conversion. *)
Definition widen (snan nan : bool) (canon : Z) (conv : Z * Z) : fp_result :=
  if snan then FpReg canon FFLAG_NV
  else if nan then FpReg canon 0
  else let '(r, fl) := conv in FpReg r fl.

Definition fp_op_d (h : rv_hart) (funct5 rm rs1 rs2 : Z) : fp_result :=
  let a := fr64 h rs1 in
  let b := fr64 h rs2 in
  if funct5 <=? 3 then
    if negb (f_rm_valid (f_rm h rm)) then FpIllegal
    else
      let '(flags, nan) := d_nan_result a b in
      if nan then FpReg D_CANON_NAN flags
      else let '(r, fl) := d_arith funct5 (f_rm h rm) a b in FpReg r (flags |! fl)
  else if funct5 =? 11 then
    if negb (rs2 =? 0) then FpIllegal else let '(r, fl) := f64_sqrt (f_rm h rm) a in FpReg r fl
  else if funct5 =? 4 then
    if rm =? 0 then FpReg ((a &! 9223372036854775807) |! D_SIGN b) 0
    else if rm =? 1 then FpReg ((a &! 9223372036854775807) |! (D_SIGN b ^! 9223372036854775808)) 0
    else if rm =? 2 then FpReg (a ^! D_SIGN b) 0
    else FpIllegal
  else if funct5 =? 5 then
    if 1 <? rm then FpIllegal else FpReg (d_minmax rm a b) (nv (d_is_snan a || d_is_snan b))
  else if funct5 =? 20 then
    if d_is_nan a || d_is_nan b then FpX 0 (cmp_nan_flags rm (d_is_snan a || d_is_snan b))
    else if rm =? 0 then FpX (Z.b2z (f64_le a b)) 0
    else if rm =? 1 then FpX (Z.b2z (f64_lt a b)) 0
    else if rm =? 2 then FpX (Z.b2z (f64_eq a b)) 0
    else FpIllegal
  else if funct5 =? 24 then
    if 1 <? rs2 then FpIllegal
    else let '(r, fl) := (if rs2 =? 0 then f64_to_i32 else f64_to_ui32) (f_rm h rm) a in FpX (u32 r) fl
  else if funct5 =? 28 then
    if negb (rs2 =? 0) || negb (rm =? 1) then FpIllegal else FpXquiet (d_classify a)
  else if funct5 =? 26 then
    if 1 <? rs2 then FpIllegal
    else let '(r, fl) := if rs2 =? 0 then i32_to_f64 (f_rm h rm) (s32 (h_x h rs1))
                         else ui32_to_f64 (f_rm h rm) (h_x h rs1) in FpReg r fl
  else if funct5 =? 8 then
    if rs2 =? 2 then
      let ha := fr16 h rs1 in
      if negb (f_rm_valid (f_rm h rm)) then FpIllegal
      else widen (h_is_snan ha) (h_is_nan ha) D_CANON_NAN (f16_to_f64 (f_rm h rm) ha)
    else if negb (rs2 =? 0) then FpIllegal
    else
      let sa := fr32 h rs1 in
      widen (f_is_snan sa) (f_is_nan sa) D_CANON_NAN (f32_to_f64 (f_rm h rm) sa)
  else FpIllegal.

(** ** Halves *)

Definition fp_op_h (h : rv_hart) (funct5 rm rs1 rs2 : Z) : fp_result :=
  if funct5 =? 8 then
    if negb (f_rm_valid (f_rm h rm)) then FpIllegal
    else if rs2 =? 0 then
      let sa := fr32 h rs1 in
      widen (f_is_snan sa) (f_is_nan sa) H_CANON_NAN (f32_to_f16 (f_rm h rm) sa)
    else if rs2 =? 1 then
      let da := fr64 h rs1 in
      widen (d_is_snan da) (d_is_nan da) H_CANON_NAN (f64_to_f16 (f_rm h rm) da)
    else FpIllegal
  else if funct5 =? 28 then
    if negb (rs2 =? 0) || negb (rm =? 0) then FpIllegal
    else FpXquiet (u32 (sext 16 (h_f h rs1 &! 65535)))
  else if funct5 =? 30 then
    if negb (rs2 =? 0) || negb (rm =? 0) then FpIllegal else FpReg (h_x h rs1) 0
  else FpIllegal.

(** ** Singles *)

Definition f_arith (funct5 : Z) : Z -> Z -> Z -> Z * Z :=
  if funct5 =? 3 then f32_div else if funct5 =? 2 then f32_mul else if funct5 =? 1 then f32_sub else f32_add.

Definition f_minmax (rm a b : Z) : Z :=
  if f_is_nan a && f_is_nan b then F_CANON_NAN
  else if f_is_nan a then b
  else if f_is_nan b then a
  else if f_is_zero a && f_is_zero b then
    if Bool.eqb (negb (F_SIGN a =? 0)) (rm =? 0) then a else b
  else if (if rm =? 0 then SFltb (b2f a) (b2f b) else SFltb (b2f b) (b2f a)) then a else b.

Definition f_to_int (a : Z) (is_signed : bool) (rm : Z) : Z * Z :=
  if f_is_nan a then (if is_signed then 2147483647 else 4294967295, FFLAG_NV)
  else let '(r, fl) := (if is_signed then f32_to_i32 else f32_to_ui32) rm a in (u32 r, fl).

Definition fp_op_s (h : rv_hart) (funct5 rm rs1 rs2 : Z) : fp_result :=
  let a := fr32 h rs1 in
  let b := fr32 h rs2 in
  if funct5 <=? 3 then
    if negb (f_rm_valid (f_rm h rm)) then FpIllegal
    else
      let '(flags, nan) := f_nan_result a b in
      if nan then FpReg F_CANON_NAN flags
      else let '(r, fl) := f_arith funct5 (f_rm h rm) a b in FpReg r (flags |! fl)
  else if funct5 =? 11 then let '(r, fl) := f32_sqrt (f_rm h rm) a in FpReg r fl
  else if funct5 =? 8 then
    if rs2 =? 2 then
      let ha := fr16 h rs1 in
      if negb (f_rm_valid (f_rm h rm)) then FpIllegal
      else widen (h_is_snan ha) (h_is_nan ha) F_CANON_NAN (f16_to_f32 (f_rm h rm) ha)
    else if negb (rs2 =? 1) then FpIllegal
    else
      let da := fr64 h rs1 in
      widen (d_is_snan da) (d_is_nan da) F_CANON_NAN (f64_to_f32 (f_rm h rm) da)
  else if funct5 =? 4 then
    if rm =? 0 then FpReg ((a &! 2147483647) |! F_SIGN b) 0
    else if rm =? 1 then FpReg ((a &! 2147483647) |! (F_SIGN b ^! 2147483648)) 0
    else if rm =? 2 then FpReg (a ^! F_SIGN b) 0
    else FpIllegal
  else if funct5 =? 5 then
    if 1 <? rm then FpIllegal else FpReg (f_minmax rm a b) (nv (f_is_snan a || f_is_snan b))
  else if funct5 =? 20 then
    if f_is_nan a || f_is_nan b then FpX 0 (cmp_nan_flags rm (f_is_snan a || f_is_snan b))
    else if rm =? 0 then FpX (Z.b2z (SFleb (b2f a) (b2f b))) 0
    else if rm =? 1 then FpX (Z.b2z (SFltb (b2f a) (b2f b))) 0
    else if rm =? 2 then FpX (Z.b2z (SFeqb (b2f a) (b2f b))) 0
    else FpIllegal
  else if funct5 =? 24 then
    if 1 <? rs2 then FpIllegal else let '(r, fl) := f_to_int a (rs2 =? 0) (f_rm h rm) in FpX r fl
  else if funct5 =? 28 then
    if negb (rs2 =? 0) then FpIllegal
    else if rm =? 0 then FpXquiet (u32 (h_f h rs1))
    else if rm =? 1 then FpXquiet (f_classify a)
    else FpIllegal
  else if funct5 =? 26 then
    if 1 <? rs2 then FpIllegal
    else let '(r, fl) := if rs2 =? 0 then i32_to_f32 (f_rm h rm) (s32 (h_x h rs1))
                         else ui32_to_f32 (f_rm h rm) (h_x h rs1) in FpReg r fl
  else if funct5 =? 30 then
    if negb (rs2 =? 0) || negb (rm =? 0) then FpIllegal else FpReg (h_x h rs1) 0
  else FpIllegal.

(** ** Fused multiply-add *)

Definition neg_product (opcode : Z) : bool := (opcode =? OP_NMSUB) || (opcode =? OP_NMADD).
Definition neg_addend (opcode : Z) : bool := (opcode =? OP_MSUB) || (opcode =? OP_NMADD).

Definition fma_d (h : rv_hart) (opcode rm a b c : Z) : fp_result :=
  if negb (f_rm_valid (f_rm h rm)) then FpIllegal
  else if d_is_snan a || d_is_snan b || d_is_snan c then FpReg D_CANON_NAN FFLAG_NV
  else if d_is_nan a || d_is_nan b || d_is_nan c then FpReg D_CANON_NAN 0
  else if (d_is_zero a && d_is_inf b) || (d_is_inf a && d_is_zero b) then FpReg D_CANON_NAN FFLAG_NV
  else
    let sa := if neg_product opcode then a ^! 9223372036854775808 else a in
    let sc := if neg_addend opcode then c ^! 9223372036854775808 else c in
    let '(r, fl) := f64_mulAdd (f_rm h rm) sa b sc in FpReg r fl.

(** The single form has no test of the rounding mode. *)
Definition fma_s (h : rv_hart) (opcode rm a b c : Z) : fp_result :=
  if f_is_snan a || f_is_snan b || f_is_snan c then FpReg F_CANON_NAN FFLAG_NV
  else if f_is_nan a || f_is_nan b || f_is_nan c then FpReg F_CANON_NAN 0
  else if (f_is_zero a && f_is_inf b) || (f_is_inf a && f_is_zero b) then FpReg F_CANON_NAN FFLAG_NV
  else
    let sa := if neg_product opcode then a ^! 2147483648 else a in
    let sc := if neg_addend opcode then c ^! 2147483648 else c in
    let '(r, fl) := f32_mulAdd (f_rm h rm) sa b sc in FpReg r fl.

Context `{Cfg : RvConfig} {Ext M : Type} `{PB : PhysBus Ext M}.

(** ** Loads and stores *)

Definition fp_load (h : rv_hart) (m : M) (insn rd rm addr : Z) : Z * Z * rv_hart * M :=
  if rm =? 1 then
    let '(e, v, h, m) := rv_hart_load h m addr 2 false in
    if negb (e =? RV_EXC_NONE) then (e, addr, h, m)
    else (RV_EXC_NONE, insn, f_dirty (fw16 h rd (default 0 v)), m)
  else if rm =? 3 then
    let '(e, v, tval, h, m) := rv_hart_load64 h m addr in
    if negb (e =? RV_EXC_NONE) then (e, tval, h, m) else (RV_EXC_NONE, insn, f_dirty (fw64 h rd v), m)
  else
    let '(e, v, h, m) := rv_hart_load h m addr 4 false in
    if negb (e =? RV_EXC_NONE) then (e, addr, h, m)
    else (RV_EXC_NONE, insn, f_dirty (fw32 h rd (default 0 v)), m).

Definition fp_store (h : rv_hart) (m : M) (rs2 rm addr : Z) : Z * Z * rv_hart * M :=
  if rm =? 3 then rv_hart_store64 h m addr (fr64 h rs2)
  else if rm =? 1 then
    let '(e, h, m) := rv_hart_store h m addr 2 (u32 (h_f h rs2) &! 65535) in (e, addr, h, m)
  else let '(e, h, m) := rv_hart_store h m addr 4 (u32 (h_f h rs2)) in (e, addr, h, m).

(** ** One instruction *)

(** The tails of the switches: which register takes the result. *)
Definition fp_finish (h : rv_hart) (m : M) (insn rd : Z) (fw : rv_hart -> Z -> Z -> rv_hart) (r : fp_result)
    : Z * Z * rv_hart * M :=
  match r with
  | FpIllegal => (RV_EXC_ILLEGAL_INSN, insn, h, m)
  | FpReg res flags => (RV_EXC_NONE, insn, fp_done (fw h rd res) flags, m)
  | FpX r flags => (RV_EXC_NONE, insn, put_xz (f_accrue h flags) rd r, m)
  | FpXquiet r => (RV_EXC_NONE, insn, put_xz h rd r, m)
  end.

(** Exception and [tval]; [tval] comes in as the encoding. *)
Definition rv_hart_fp (h : rv_hart) (m : M) (insn : Z) : Z * Z * rv_hart * M :=
  let opcode := insn &! 127 in
  let rd := Z.shiftr insn 7 &! 31 in
  let rm := Z.shiftr insn 12 &! 7 in
  let rs1 := Z.shiftr insn 15 &! 31 in
  let rs2 := Z.shiftr insn 20 &! 31 in
  let rs3 := Z.shiftr insn 27 &! 31 in
  let funct7 := Z.shiftr insn 25 &! 127 in
  if h_mstatus h &! MSTATUS_FS_MASK =? 0 then (RV_EXC_ILLEGAL_INSN, insn, h, m)
  else if (opcode =? OP_LOAD_FP) || (opcode =? OP_STORE_FP) then
    if negb (rm =? 2) && negb (rm =? 3) && negb (rm =? 1) then (RV_EXC_ILLEGAL_INSN, insn, h, m)
    else if opcode =? OP_LOAD_FP then fp_load h m insn rd rm (h_x h rs1 +! Z.shiftr (s32 insn) 20)
    else fp_store h m rs2 rm (h_x h rs1 +! (Z.shiftr (s32 (insn &! 4261412864)) 20 |! (Z.shiftr insn 7 &! 31)))
  else if (opcode =? OP_MADD) || (opcode =? OP_MSUB) || (opcode =? OP_NMSUB) || (opcode =? OP_NMADD) then
    let fmt := funct7 &! 3 in
    if 1 <? fmt then (RV_EXC_ILLEGAL_INSN, insn, h, m)
    else if fmt =? 1 then fp_finish h m insn rd fw64 (fma_d h opcode rm (fr64 h rs1) (fr64 h rs2) (fr64 h rs3))
    else fp_finish h m insn rd fw32 (fma_s h opcode rm (fr32 h rs1) (fr32 h rs2) (fr32 h rs3))
  else if negb (opcode =? OP_FP) then (RV_EXC_ILLEGAL_INSN, insn, h, m)
  else
    let funct5 := Z.shiftr funct7 2 in
    let fmt := funct7 &! 3 in
    if fmt =? 2 then fp_finish h m insn rd fw16 (fp_op_h h funct5 rm rs1 rs2)
    else if 1 <? fmt then (RV_EXC_ILLEGAL_INSN, insn, h, m)
    else if fmt =? 1 then fp_finish h m insn rd fw64 (fp_op_d h funct5 rm rs1 rs2)
    else fp_finish h m insn rd fw32 (fp_op_s h funct5 rm rs1 rs2).

End Fpu.
