(* ===== verification/RvInterp.v ===== *)
(** * The RV32 interpreter

    [src/frontend/rv32/rv_interp.c] and [include/rv32/rv_bitmanip.h]: one
    iteration of the loop takes a pending interrupt or fetches, expands and
    executes one instruction, and the run repeats it for a budget.  The local
    [pc] of the loop is an argument; the hart's own is written when the source
    writes it.  [Raise] is the [TRAP] macro.  The platform gives the ECALL
    hook and the clock behind [time]. *)

From stdpp Require Import base list gmap.
From Stdlib Require Import ZArith Lia.
From S2P Require Import Prelude Bus BusProps RvHart RvBus RvPmp RvTrig RvMmu RvAccess RvTrap RvCsr RvDecode RvAtomic RvFpu.

Open Scope Z_scope.
Open Scope u32_scope.

(** ** Register file *)

Definition wr (h : rv_hart) (rd v : Z) : rv_hart := h <| h_x := upd (upd (h_x h) rd v) 0 0 |>.

(** ** M, Zbb and Zbc *)

Definition mulh_ss (a b : Z) : Z := u32 (Z.shiftr (s32 a * s32 b) 32).
Definition mulh_su (a b : Z) : Z := u32 (Z.shiftr (s32 a * b) 32).
Definition mulh_uu (a b : Z) : Z := u32 (Z.shiftr (a * b) 32).

Definition INT32_MIN : Z := -2147483648.
Definition rv_div_s (a b : Z) : Z :=
  if b =? 0 then 4294967295
  else if (a =? INT32_MIN) && (b =? -1) then u32 INT32_MIN
  else u32 (Z.quot a b).
Definition rv_rem_s (a b : Z) : Z :=
  if b =? 0 then u32 a else if (a =? INT32_MIN) && (b =? -1) then 0 else u32 (Z.rem a b).
Definition rv_div_u (a b : Z) : Z := if b =? 0 then 4294967295 else a / b.
Definition rv_rem_u (a b : Z) : Z := if b =? 0 then a else a mod b.

Definition zbb_clz (v : Z) : Z := if v =? 0 then 32 else clz32 v.
Definition zbb_ctz (v : Z) : Z := if v =? 0 then 32 else ctz32 v.
Definition zbb_ror (v n : Z) : Z :=
  let n := n &! 31 in if n =? 0 then v else Z.shiftr v n |! (v <<! (32 - n)).
Definition zbb_rol (v n : Z) : Z :=
  let n := n &! 31 in if n =? 0 then v else (v <<! n) |! Z.shiftr v (32 - n).
Definition zbb_orcb (v : Z) : Z :=
  fold_left (fun r i => if has v (255 <<! (i * 8)) then r |! (255 <<! (i * 8)) else r) [0; 1; 2; 3] 0.

Definition zbc_bit_mask (b i : Z) : Z := u32 (0 - (Z.shiftr b i &! 1)).
Definition indices (lo n : nat) : list Z := map Z.of_nat (seq lo n).
Definition zbc_clmul (a b : Z) : Z :=
  fold_left (fun r i => r ^! ((a <<! i) &! zbc_bit_mask b i)) (indices 0 32) 0.
Definition zbc_clmulh (a b : Z) : Z :=
  fold_left (fun r i => r ^! (Z.shiftr a (32 - i) &! zbc_bit_mask b i)) (indices 1 31) 0.
Definition zbc_clmulr (a b : Z) : Z :=
  fold_left (fun r i => r ^! (Z.shiftr a (31 - i) &! zbc_bit_mask b i)) (indices 0 32) 0.

(** ** Pure instructions: the value of [rd], or an illegal encoding *)

Definition bz (b : bool) : Z := Z.b2z b.

(** funct3 1 of OP-IMM. *)
Definition shift_left_imm (insn a : Z) : option Z :=
  let f7 := rv_funct7 insn in
  let sh := rv_rs2 insn in
  if f7 =? 0 then Some (a <<! sh)
  else if f7 =? 48 then
    if sh =? 0 then Some (zbb_clz a)
    else if sh =? 1 then Some (zbb_ctz a)
    else if sh =? 2 then Some (popcount32 a)
    else if sh =? 4 then Some (u32 (sext 8 a))
    else if sh =? 5 then Some (u32 (sext 16 a))
    else None
  else if f7 =? 20 then Some (a |! (1 <<! sh))
  else if f7 =? 36 then Some (Z.ldiff a (1 <<! sh))
  else if f7 =? 52 then Some (a ^! (1 <<! sh))
  else None.

(** funct3 5 of OP-IMM. *)
Definition shift_right_imm (insn a : Z) : option Z :=
  let f7 := rv_funct7 insn in
  let sh := rv_rs2 insn in
  if f7 =? 0 then Some (Z.shiftr a sh)
  else if f7 =? 32 then Some (u32 (Z.shiftr (s32 a) sh))
  else if f7 =? 48 then Some (zbb_ror a sh)
  else if (f7 =? 20) && (sh =? 7) then Some (zbb_orcb a)
  else if (f7 =? 52) && (sh =? 24) then Some (bswap32 a)
  else if f7 =? 36 then Some (Z.shiftr a sh &! 1)
  else None.

Definition op_imm (insn a : Z) : option Z :=
  let imm := rv_imm_i insn in
  let f3 := rv_funct3 insn in
  if f3 =? 0 then Some (a +! imm)
  else if f3 =? 2 then Some (bz (s32 a <? imm))
  else if f3 =? 3 then Some (bz (a <? u32 imm))
  else if f3 =? 4 then Some (a ^! u32 imm)
  else if f3 =? 6 then Some (a |! u32 imm)
  else if f3 =? 7 then Some (a &! u32 imm)
  else if f3 =? 1 then shift_left_imm insn a
  else shift_right_imm insn a.

Definition op_base (f3 a b : Z) : Z :=
  if f3 =? 0 then a +! b
  else if f3 =? 1 then a <<! (b &! 31)
  else if f3 =? 2 then bz (s32 a <? s32 b)
  else if f3 =? 3 then bz (a <? b)
  else if f3 =? 4 then a ^! b
  else if f3 =? 5 then Z.shiftr a (b &! 31)
  else if f3 =? 6 then a |! b
  else a &! b.

(** funct7 0x20: SUB, SRA and the inverting logic. *)
Definition op_alt (f3 a b : Z) : option Z :=
  if f3 =? 0 then Some (a -! b)
  else if f3 =? 5 then Some (u32 (Z.shiftr (s32 a) (b &! 31)))
  else if f3 =? 7 then Some (a &! not32 b)
  else if f3 =? 6 then Some (a |! not32 b)
  else if f3 =? 4 then Some (not32 (a ^! b))
  else None.

(** funct7 0x05: minima, maxima and the carry-less products. *)
Definition op_minmax (f3 a b : Z) : option Z :=
  if f3 =? 4 then Some (if s32 a <? s32 b then a else b)
  else if f3 =? 5 then Some (if a <? b then a else b)
  else if f3 =? 6 then Some (if s32 b <? s32 a then a else b)
  else if f3 =? 7 then Some (if b <? a then a else b)
  else if f3 =? 1 then Some (zbc_clmul a b)
  else if f3 =? 2 then Some (zbc_clmulr a b)
  else if f3 =? 3 then Some (zbc_clmulh a b)
  else None.

Definition op_muldiv (f3 a b : Z) : Z :=
  if f3 =? 0 then a *! b
  else if f3 =? 1 then mulh_ss a b
  else if f3 =? 2 then mulh_su a b
  else if f3 =? 3 then mulh_uu a b
  else if f3 =? 4 then rv_div_s (s32 a) (s32 b)
  else if f3 =? 5 then rv_div_u a b
  else if f3 =? 6 then rv_rem_s (s32 a) (s32 b)
  else rv_rem_u a b.

Definition op_reg (insn a b : Z) : option Z :=
  let f7 := rv_funct7 insn in
  let f3 := rv_funct3 insn in
  if f7 =? 0 then Some (op_base f3 a b)
  else if f7 =? 32 then op_alt f3 a b
  else if f7 =? 5 then op_minmax f3 a b
  else if f7 =? 48 then
    if f3 =? 1 then Some (zbb_rol a b) else if f3 =? 5 then Some (zbb_ror a b) else None
  else if (f7 =? 4) && (f3 =? 4) && (rv_rs2 insn =? 0) then Some (a &! 65535)
  else if (f7 =? 16) && ((f3 =? 2) || (f3 =? 4) || (f3 =? 6)) then Some ((a <<! Z.shiftr f3 1) +! b)
  else if (f7 =? 20) && (f3 =? 1) then Some (a |! (1 <<! (b &! 31)))
  else if (f7 =? 36) && (f3 =? 1) then Some (Z.ldiff a (1 <<! (b &! 31)))
  else if (f7 =? 52) && (f3 =? 1) then Some (a ^! (1 <<! (b &! 31)))
  else if (f7 =? 36) && (f3 =? 5) then Some (Z.shiftr a (b &! 31) &! 1)
  else if (f7 =? 7) && ((f3 =? 5) || (f3 =? 7)) then Some (if Bool.eqb (b =? 0) (f3 =? 5) then 0 else a)
  else if f7 =? 1 then Some (op_muldiv f3 a b)
  else None.

Definition branch_taken (f3 a b : Z) : option bool :=
  if f3 =? 0 then Some (a =? b)
  else if f3 =? 1 then Some (negb (a =? b))
  else if f3 =? 4 then Some (s32 a <? s32 b)
  else if f3 =? 5 then Some (s32 b <=? s32 a)
  else if f3 =? 6 then Some (a <? b)
  else if f3 =? 7 then Some (b <=? a)
  else None.

(** Size and sign of a load. *)
Definition load_kind (f3 : Z) : option (Z * bool) :=
  if f3 =? 0 then Some (1, true)
  else if f3 =? 1 then Some (2, true)
  else if f3 =? 2 then Some (4, false)
  else if f3 =? 4 then Some (1, false)
  else if f3 =? 5 then Some (2, false)
  else None.

Definition store_size (f3 : Z) : option Z :=
  if f3 =? 0 then Some 1 else if f3 =? 1 then Some 2 else if f3 =? 2 then Some 4 else None.

(** ** Returns from traps *)

Definition mret_to (mpp : Z) : Z :=
  if mpp =? RV_PRIV_U then RV_PRIV_U else if mpp =? RV_PRIV_S then RV_PRIV_S else RV_PRIV_M.

Definition do_mret (h : rv_hart) : rv_hart :=
  let mpie := if has (h_mstatus h) MSTATUS_MPIE then MSTATUS_MIE else 0 in
  let back := mret_to (Z.shiftr (h_mstatus h &! MSTATUS_MPP_MASK) MSTATUS_MPP_SHIFT) in
  let clear := MSTATUS_MIE |! MSTATUS_MPIE |! MSTATUS_MPP_MASK
               |! (if negb (back =? RV_PRIV_M) then MSTATUS_MPRV else 0) in
  let h := h <| h_mstatus := Z.ldiff (h_mstatus h) clear |! mpie |! MSTATUS_MPIE |! (RV_PRIV_U <<! MSTATUS_MPP_SHIFT) |>
             <| h_priv := back |> in
  (rv_mmu_refresh (rv_pmp_refresh h)) <| h_irq_dirty := true |>.

Definition do_sret (h : rv_hart) : rv_hart :=
  let spie := if has (h_mstatus h) MSTATUS_SPIE then MSTATUS_SIE else 0 in
  let back := if has (h_mstatus h) MSTATUS_SPP then RV_PRIV_S else RV_PRIV_U in
  let h := h <| h_mstatus := Z.ldiff (h_mstatus h) (MSTATUS_SIE |! MSTATUS_SPIE |! MSTATUS_SPP |! MSTATUS_MPRV)
                             |! spie |! MSTATUS_SPIE |>
             <| h_priv := back |> in
  (rv_mmu_refresh (rv_pmp_refresh h)) <| h_irq_dirty := true |>.

(** ** One instruction *)

(** The platform: the ECALL hook -- the number, the four arguments, the hart
    and the machine to whether it was consumed, the result and what it left --
    the clock, and the calls of [rv_hart_set_irq] that devices and host
    interrupts have made since they were last collected. *)
Record platform (M : Type) := Platform {
  pf_ecall : option (Z -> list Z -> rv_hart -> M -> bool * Z * rv_hart * M);
  pf_mtime : M -> option Z;
  pf_lines : M -> list (Z * bool) * M
}.
Arguments Platform {M}.
Arguments pf_ecall {M}.
Arguments pf_mtime {M}.
Arguments pf_lines {M}.

Definition CTR_CYCLE : Z := 1.
Definition CTR_INSTRET : Z := 2.

(** How an instruction ends: where control goes and which counters it wrote,
    or the trap it raises. *)
Inductive insn_outcome (M : Type) :=
| Next (next ctr : Z) (h : rv_hart) (m : M)
| Raise (cause tval : Z) (h : rv_hart) (m : M).
Arguments Next {M}.
Arguments Raise {M}.

Definition misaligned_target (t : Z) : bool := has t 1.

Section Interp.
Context `{Cfg : RvConfig} `{SF : SoftFloat} {Ext M : Type} `{PB : PhysBus Ext M}.
Variable pf : platform M.

Definition fetch_check (h : rv_hart) (m : M) (pc : Z) : Z * Z * rv_hart * M :=
  let vpn := Z.shiftr pc EMU_DTLB_PAGE_SHIFT in
  let e := if h_priv h =? RV_PRIV_M then None else Some (h_itlb h (rv_dtlb_table (h_priv h)) (dtlb_slot vpn)) in
  if match e with Some e => d_read e =? vpn | None => false end
  then (RV_EXC_NONE, match e with Some e => pc +! d_addend e | None => pc end, h, m)
  else
    let '(t, fpc, h, m) := if h_vm_active h then rv_mmu_translate h m pc EMU_ACC_FETCH else (RV_EXC_NONE, pc, h, m) in
    if negb (t =? RV_EXC_NONE) then (t, fpc, h, m)
    else if h_pmp_active h && negb (rv_pmp_check h fpc 2 EMU_ACC_FETCH) then (RV_EXC_INSN_ACCESS_FAULT, fpc, h, m)
    else
      let '(h, m) := if match e with Some e => negb (d_write e =? vpn) | None => false end
                     then rv_itlb_fill h m pc fpc else (h, m) in
      (RV_EXC_NONE, fpc, h, m).

Definition fetch_pmp2 (h : rv_hart) (pc fpc2 : Z) : bool :=
  if negb (pc &! (RV_PAGE_SIZE - 1) =? RV_PAGE_SIZE - 2)
     && (match rv_itlb_lookup h pc with Some _ => true | None => false end) then true
  else rv_pmp_check h fpc2 2 EMU_ACC_FETCH.

(** What a fetch comes to: the instruction and its length, or a trap. *)
Inductive fetched := Insn (insn len : Z) | FetchTrap (cause tval : Z).

(** The second halfword of a 32-bit instruction. *)
Definition fetch_hi (h : rv_hart) (m : M) (pc fpc lo : Z) : fetched * rv_hart * M :=
  let '(t, fpc2, h, m) :=
    if h_vm_active h && (pc &! (RV_PAGE_SIZE - 1) =? RV_PAGE_SIZE - 2)
    then rv_mmu_translate h m (pc +! 2) EMU_ACC_FETCH else (RV_EXC_NONE, fpc +! 2, h, m) in
  if negb (t =? RV_EXC_NONE) then (FetchTrap t (pc +! 2), h, m)
  else if h_pmp_active h && has pc 2 && negb (fetch_pmp2 h pc fpc2)
  then (FetchTrap RV_EXC_INSN_ACCESS_FAULT (pc +! 2), h, m)
  else
    let '(f, hi, m) := bus_fetch16 m fpc2 in
    if negb (no_fault f) then (FetchTrap (rv_exc_from_fault f) (pc +! 2), h, m)
    else (Insn (lo |! (default 0 hi <<! 16)) 4, h, m).

Definition fetch (h : rv_hart) (m : M) (pc : Z) : fetched * rv_hart * M :=
  if misaligned_target pc then (FetchTrap RV_EXC_INSN_MISALIGNED pc, h, m)
  else if h_fetch_guard h && (h_trig_active h && rv_trig_check h pc EMU_ACC_FETCH)
  then (FetchTrap RV_EXC_BREAKPOINT pc, h, m)
  else
    let '(t, fpc, h, m) := if h_fetch_guard h then fetch_check h m pc else (RV_EXC_NONE, pc, h, m) in
    if negb (t =? RV_EXC_NONE) then (FetchTrap t pc, h, m)
    else
      let '(f, lo, m) := bus_fetch16 m fpc in
      if negb (no_fault f) then (FetchTrap (rv_exc_from_fault f) pc, h, m)
      else
        let lo := default 0 lo in
        if rv_is_32bit lo then fetch_hi h m pc fpc lo
        else
          let insn := rv_decode_expand_c lo in
          if insn =? 0 then (FetchTrap RV_EXC_ILLEGAL_INSN lo, h, m) else (Insn insn 2, h, m).

(** A value for [rd], or an illegal instruction. *)
Definition exec_alu (h : rv_hart) (m : M) (insn next : Z) (v : option Z) : insn_outcome M :=
  match v with
  | Some v => Next next 0 (wr h (rv_rd insn) v) m
  | None => Raise RV_EXC_ILLEGAL_INSN insn h m
  end.

Definition exec_jal (h : rv_hart) (m : M) (pc next insn : Z) : insn_outcome M :=
  let target := pc +! rv_imm_j insn in
  if misaligned_target target then Raise RV_EXC_INSN_MISALIGNED target h m
  else Next target 0 (wr h (rv_rd insn) next) m.

Definition exec_jalr (h : rv_hart) (m : M) (next insn : Z) : insn_outcome M :=
  if negb (rv_funct3 insn =? 0) then Raise RV_EXC_ILLEGAL_INSN insn h m
  else
    let target := Z.ldiff (h_x h (rv_rs1 insn) +! rv_imm_i insn) 1 in
    if misaligned_target target then Raise RV_EXC_INSN_MISALIGNED target h m
    else Next target 0 (wr h (rv_rd insn) next) m.

Definition exec_branch (h : rv_hart) (m : M) (pc next insn : Z) : insn_outcome M :=
  match branch_taken (rv_funct3 insn) (h_x h (rv_rs1 insn)) (h_x h (rv_rs2 insn)) with
  | None => Raise RV_EXC_ILLEGAL_INSN insn h m
  | Some true =>
      let target := pc +! rv_imm_b insn in
      if misaligned_target target then Raise RV_EXC_INSN_MISALIGNED target h m else Next target 0 h m
  | Some false => Next next 0 h m
  end.

Definition exec_load (h : rv_hart) (m : M) (next insn : Z) : insn_outcome M :=
  let addr := h_x h (rv_rs1 insn) +! rv_imm_i insn in
  match load_kind (rv_funct3 insn) with
  | None => Raise RV_EXC_ILLEGAL_INSN insn h m
  | Some (size, sx) =>
      let '(e, v, h, m) := rv_hart_load h m addr size sx in
      if negb (e =? RV_EXC_NONE) then Raise e addr h m else Next next 0 (wr h (rv_rd insn) (default 0 v)) m
  end.

Definition exec_store (h : rv_hart) (m : M) (next insn : Z) : insn_outcome M :=
  let addr := h_x h (rv_rs1 insn) +! rv_imm_s insn in
  let v := h_x h (rv_rs2 insn) in
  match store_size (rv_funct3 insn) with
  | None => Raise RV_EXC_ILLEGAL_INSN insn h m
  | Some size =>
      let '(e, h, m) := rv_hart_store h m addr size v in
      if negb (e =? RV_EXC_NONE) then Raise e addr h m else Next next 0 h m
  end.

(** FENCE.I has no translation to discard here, and FENCE nothing to order. *)
Definition exec_misc_mem (h : rv_hart) (m : M) (next insn : Z) : insn_outcome M :=
  let f3 := rv_funct3 insn in
  if f3 =? 1 then Next next 0 h m
  else if f3 =? 2 then
    let op := Z.shiftr insn 20 in
    if negb (rv_rd insn =? 0) || negb (rv_cbo_valid op) then Raise RV_EXC_ILLEGAL_INSN insn h m
    else
      let '(e, fault_addr, h, m) := rv_hart_cbo h m op (h_x h (rv_rs1 insn)) in
      if negb (e =? RV_EXC_NONE) then Raise e (if e =? RV_EXC_ILLEGAL_INSN then insn else fault_addr) h m
      else Next next 0 h m
  else Next next 0 h m.

Definition exec_ecall (h : rv_hart) (m : M) (pc next insn : Z) : insn_outcome M :=
  let trap h m :=
    Raise (if h_priv h =? RV_PRIV_U then RV_EXC_ECALL_U
           else if h_priv h =? RV_PRIV_S then RV_EXC_ECALL_S else RV_EXC_ECALL_M) 0 h m in
  match pf_ecall pf with
  | Some hook =>
      if h_priv h =? RV_PRIV_M then
        let h := h <| h_pc := pc |> in
        let '(used, ret, h, m) := hook (h_x h 17) [h_x h 10; h_x h 11; h_x h 12; h_x h 13] h m in
        if used then Next next 0 (h <| h_x := upd (h_x h) 10 ret |>) m else trap h m
      else trap h m
  | None => trap h m
  end.

(** The group with funct3 0. *)
Definition exec_priv (h : rv_hart) (m : M) (pc next insn : Z) : insn_outcome M :=
  let f7 := Z.shiftr insn 25 in
  if ((f7 =? 9) || (f7 =? 11)) && (rv_rd insn =? 0) then
    if (h_priv h <? RV_PRIV_S) || ((h_priv h =? RV_PRIV_S) && has (h_mstatus h) MSTATUS_TVM)
    then Raise RV_EXC_ILLEGAL_INSN insn h m
    else Next next 0 (if negb (rv_rs1 insn =? 0) then rv_mmu_flush_page h (h_x h (rv_rs1 insn)) else rv_mmu_flush h) m
  else if negb (rv_rd insn =? 0) || negb (rv_rs1 insn =? 0) then Raise RV_EXC_ILLEGAL_INSN insn h m
  else
    let f12 := Z.shiftr insn 20 in
    if f12 =? 0 then exec_ecall h m pc next insn
    else if f12 =? 1 then Raise RV_EXC_BREAKPOINT pc h m
    else if (f12 =? 384) || (f12 =? 385) then
      if h_priv h =? RV_PRIV_U then Raise RV_EXC_ILLEGAL_INSN insn h m else Next next 0 h m
    else if f12 =? 770 then
      if h_priv h <? RV_PRIV_M then Raise RV_EXC_ILLEGAL_INSN insn h m
      else let h := do_mret h in Next (h_mepc h) 0 h m
    else if f12 =? 258 then
      if (h_priv h <? RV_PRIV_S) || ((h_priv h =? RV_PRIV_S) && has (h_mstatus h) MSTATUS_TSR)
      then Raise RV_EXC_ILLEGAL_INSN insn h m
      else let h := do_sret h in Next (h_sepc h) 0 h m
    else if f12 =? 261 then
      if (h_priv h =? RV_PRIV_U) || ((h_priv h <? RV_PRIV_M) && has (h_mstatus h) MSTATUS_TW)
      then Raise RV_EXC_ILLEGAL_INSN insn h m
      else Next next 0 (h <| h_state := EMU_STATE_WFI |>) m
    else if f12 =? 13 then
      if negb (h_resv_valid h) then Next next 0 h m
      else if (h_priv h <? RV_PRIV_M) && has (h_mstatus h) MSTATUS_TW then Raise RV_EXC_ILLEGAL_INSN insn h m
      else Next next 0 (h <| h_state := EMU_STATE_WFI |>) m
    else if f12 =? 29 then Next next 0 h m
    else Raise RV_EXC_ILLEGAL_INSN insn h m.

(** Which counter's own increment a CSR write replaces. *)
Definition ctr_of (csr : Z) : Z :=
  if (csr =? CSR_MCYCLE) || (csr =? CSR_MCYCLEH) then CTR_CYCLE
  else if (csr =? CSR_MINSTRET) || (csr =? CSR_MINSTRETH) then CTR_INSTRET else 0.

Definition csr_value (f3 old src : Z) : Z :=
  if f3 &! 3 =? 1 then src else if f3 &! 3 =? 2 then old |! src else old &! not32 src.

Definition exec_csr (h : rv_hart) (m : M) (next insn : Z) : insn_outcome M :=
  let f3 := rv_funct3 insn in
  let csr := Z.shiftr insn 20 in
  let rd := rv_rd insn in
  let rs1 := rv_rs1 insn in
  let src := if has f3 4 then rs1 else h_x h rs1 in
  let is_write := f3 &! 3 =? 1 in
  let do_read := negb (is_write && (rd =? 0)) in
  let do_write := is_write || negb (rs1 =? 0) in
  let '(e, old) := if do_read then rv_csr_read h (pf_mtime pf m) csr else (RV_EXC_NONE, 0) in
  if negb (e =? RV_EXC_NONE) then Raise e insn h m
  else
    let '(e, h) := if do_write then rv_csr_write h csr (csr_value f3 old src) else (RV_EXC_NONE, h) in
    if negb (e =? RV_EXC_NONE) then Raise e insn h m
    else Next next (if do_write then ctr_of csr else 0) (wr h rd old) m.

Definition exec_system (h : rv_hart) (m : M) (pc next insn : Z) : insn_outcome M :=
  let f3 := rv_funct3 insn in
  if f3 =? 0 then exec_priv h m pc next insn
  else if f3 =? 4 then Raise RV_EXC_ILLEGAL_INSN insn h m
  else exec_csr h m next insn.

(** A call that answers an exception and what it is about. *)
Definition exec_call (next : Z) (r : Z * Z * rv_hart * M) : insn_outcome M :=
  let '(e, tval, h, m) := r in
  if negb (e =? RV_EXC_NONE) then Raise e tval h m else Next next 0 h m.

Definition exec (h : rv_hart) (m : M) (pc next insn : Z) : insn_outcome M :=
  let op := Z.shiftr insn 2 &! 31 in
  let isop x := op =? Z.shiftr x 2 in
  if isop OP_LUI then Next next 0 (wr h (rv_rd insn) (rv_imm_u insn)) m
  else if isop OP_AUIPC then Next next 0 (wr h (rv_rd insn) (pc +! rv_imm_u insn)) m
  else if isop OP_JAL then exec_jal h m pc next insn
  else if isop OP_JALR then exec_jalr h m next insn
  else if isop OP_BRANCH then exec_branch h m pc next insn
  else if isop OP_LOAD then exec_load h m next insn
  else if isop OP_STORE then exec_store h m next insn
  else if isop OP_IMM then exec_alu h m insn next (op_imm insn (h_x h (rv_rs1 insn)))
  else if isop OP_OP then exec_alu h m insn next (op_reg insn (h_x h (rv_rs1 insn)) (h_x h (rv_rs2 insn)))
  else if isop OP_MISC_MEM then exec_misc_mem h m next insn
  else if isop OP_AMO then exec_call next (rv_hart_atomic h m insn)
  else if isop OP_SYSTEM then exec_system h m pc next insn
  else if isop OP_LOAD_FP || isop OP_STORE_FP || isop OP_MADD || isop OP_MSUB || isop OP_NMSUB || isop OP_NMADD || isop OP_FP
  then exec_call next (rv_hart_fp h m insn)
  else Raise RV_EXC_ILLEGAL_INSN insn h m.

(** ** The loop *)

Inductive emu_run_reason := EMU_RUN_BUDGET | EMU_RUN_WFI | EMU_RUN_HALTED | EMU_RUN_BREAKPOINT | EMU_RUN_YIELD.

(** The label [retired_insn]. *)
Definition retire (h : rv_hart) (ctr : Z) : rv_hart :=
  let h := if negb (has (h_mcountinhibit h) 1) && negb (has ctr CTR_CYCLE)
           then h <| h_mcycle := u64 (h_mcycle h + 1) |> else h in
  if negb (has (h_mcountinhibit h) 4) && negb (has ctr CTR_INSTRET)
  then h <| h_minstret := u64 (h_minstret h + 1) |> else h.

(** [TRAP], with the jump to the label. *)
Definition take_trap (h : rv_hart) (m : M) (pc cause tval : Z) : rv_hart * M * Z :=
  let '(h, m) := rv_hart_trap_unretire (h <| h_pc := pc |>) m cause tval in
  (retire h 0, m, h_pc h).

Definition finish (pc : Z) (o : insn_outcome M) : rv_hart * M * Z :=
  match o with
  | Next next ctr h m => (retire h ctr, m, next)
  | Raise cause tval h m => take_trap h m pc cause tval
  end.

(** Fetch, expand and execute. *)
Definition run_insn (h : rv_hart) (m : M) (pc : Z) : rv_hart * M * Z :=
  let '(r, h, m) := fetch h m pc in
  match r with
  | FetchTrap cause tval => take_trap h m pc cause tval
  | Insn insn len => finish pc (exec h m pc (pc +! len) insn)
  end.

(** One iteration: a reason to stop, or the state after it. *)
Definition iteration (h : rv_hart) (m : M) (pc : Z) : (emu_run_reason * rv_hart * M) + (rv_hart * M * Z) :=
  let h := zero_x0 h in
  if negb (h_state h =? EMU_STATE_RUNNING)
  then inl (if h_state h =? EMU_STATE_HALTED then EMU_RUN_HALTED else EMU_RUN_WFI, h, m)
  else if h_irq_dirty h then
    let h := h <| h_irq_dirty := false |> in
    let irq := rv_hart_pending_irq h in
    if negb (irq =? RV_EXC_NONE)
    then inr (take_trap (h <| h_state := EMU_STATE_RUNNING |>) m pc (RV_CAUSE_INTERRUPT |! irq) 0)
    else inr (run_insn h m pc)
  else inr (run_insn h m pc).

(** A device drives the hart's lines through a pointer to it, in the middle of
    the access that reaches it.  No instruction that accesses memory looks at
    the lines afterwards, so they are driven at its end. *)
Definition set_lines (h : rv_hart) (lines : list (Z * bool)) : rv_hart :=
  fold_left (fun h '(cause, level) => rv_hart_set_irq h cause level) lines h.

Definition deliver (h : rv_hart) (m : M) : rv_hart * M :=
  let '(lines, m) := pf_lines pf m in (set_lines h lines, m).

(** The [while], [fuel] iterations of which the budget allows. *)
Fixpoint run_loop (fuel : nat) (h : rv_hart) (m : M) (pc done : Z) : emu_run_reason * rv_hart * M * Z * Z :=
  match fuel with
  | O => (EMU_RUN_BUDGET, h, m, pc, done)
  | S fuel =>
      match iteration h m pc with
      | inl (r, h, m) => (r, h, m, pc, done)
      | inr (h, m, pc) => let '(h, m) := deliver h m in run_loop fuel h m pc (done +! 1)
      end
  end.

(** The reason, the instructions retired and the state. *)
Definition interp_run (h : rv_hart) (m : M) (budget : Z) : emu_run_reason * Z * rv_hart * M :=
  if (h_state h =? EMU_STATE_WFI) && negb (rv_hart_wfi_wake h) then (EMU_RUN_WFI, 0, h, m)
  else
    let h := if h_state h =? EMU_STATE_WFI
             then h <| h_state := EMU_STATE_RUNNING |> <| h_irq_dirty := true |> else h in
    let '(reason, h, m, pc, done) := run_loop (Z.to_nat budget) h m (h_pc h) 0 in
    (reason, done, h <| h_pc := pc |> <| h_insn_retired_lo := h_insn_retired_lo h +! done |>, m).

Definition rv_step (h : rv_hart) (m : M) : emu_run_reason * rv_hart * M :=
  let '(reason, _, h, m) := interp_run h m 1 in (reason, h, m).

End Interp.
