(* ===== verification/RvFrame.v ===== *)
(** * What an instruction may touch

    [frame h h']: the two harts differ at most in the registers, the flags and
    FS, the reservation, the record of a split access, the run state and the
    caches.  Every memory access, atomic, cache-block operation,
    floating-point instruction and fetch keeps it, whatever the memory
    answers; so an instruction leaves the rest of the hart alone unless it is
    a CSR write, MRET or SRET ([exec_ok]). *)

From stdpp Require Import base list gmap.
From Stdlib Require Import ZArith Lia.
From S2P Require Import Prelude Bus BusProps RvHart RvBus RvPmp RvTrig RvMmu RvAccess RvTrap RvCsr RvDecode RvAtomic RvFpu RvInterp.

Open Scope Z_scope.
Open Scope u32_scope.

Definition settle (h : rv_hart) : rv_hart :=
  h <| h_x := fun _ => 0 |> <| h_pc := 0 |> <| h_f := fun _ => 0 |> <| h_fcsr := 0 |> <| h_state := 0 |>
    <| h_mstatus := Z.ldiff (h_mstatus h) MSTATUS_FS_MASK |>
    <| h_resv_addr := 0 |> <| h_resv_valid := false |>
    <| h_split_req := 0 |> <| h_split_at := 0 |> <| h_split_valid := false |>
    <| h_tlb := fun _ => Tlb 0 0 0 false |> <| h_mega_regions := fun _ => 0 |> <| h_vm_gen := 0 |>
    <| h_dtlb := fun _ _ => Dtlb 0 0 0 0 |> <| h_itlb := fun _ _ => Dtlb 0 0 0 0 |>
    <| h_dtlb_fills := 0 |> <| h_dtlb_flushes := 0 |> <| h_itlb_fills := 0 |>.

Definition frame (h h' : rv_hart) : Prop := settle h' = settle h.

Lemma frame_refl h : frame h h.
Proof. reflexivity. Qed.

Lemma frame_trans h1 h2 h3 : frame h1 h2 -> frame h2 h3 -> frame h1 h3.
Proof. unfold frame. congruence. Qed.

#[export] Instance frame_equiv : Equivalence frame.
Proof. split; [exact frame_refl|intros h h'; unfold frame; auto|exact frame_trans]. Qed.

(** One assignment to what may change. *)
Lemma frame_x h h' v : frame h h' -> frame h (h' <| h_x := v |>).
Proof. unfold frame. intros <-. reflexivity. Qed.
Lemma frame_pc h h' v : frame h h' -> frame h (h' <| h_pc := v |>).
Proof. unfold frame. intros <-. reflexivity. Qed.
Lemma frame_f h h' v : frame h h' -> frame h (h' <| h_f := v |>).
Proof. unfold frame. intros <-. reflexivity. Qed.
Lemma frame_fcsr h h' v : frame h h' -> frame h (h' <| h_fcsr := v |>).
Proof. unfold frame. intros <-. reflexivity. Qed.
Lemma frame_state h h' v : frame h h' -> frame h (h' <| h_state := v |>).
Proof. unfold frame. intros <-. reflexivity. Qed.
Lemma frame_resv_addr h h' v : frame h h' -> frame h (h' <| h_resv_addr := v |>).
Proof. unfold frame. intros <-. reflexivity. Qed.
Lemma frame_resv_valid h h' v : frame h h' -> frame h (h' <| h_resv_valid := v |>).
Proof. unfold frame. intros <-. reflexivity. Qed.
Lemma frame_split_req h h' v : frame h h' -> frame h (h' <| h_split_req := v |>).
Proof. unfold frame. intros <-. reflexivity. Qed.
Lemma frame_split_at h h' v : frame h h' -> frame h (h' <| h_split_at := v |>).
Proof. unfold frame. intros <-. reflexivity. Qed.
Lemma frame_split_valid h h' v : frame h h' -> frame h (h' <| h_split_valid := v |>).
Proof. unfold frame. intros <-. reflexivity. Qed.
Lemma frame_tlb h h' v : frame h h' -> frame h (h' <| h_tlb := v |>).
Proof. unfold frame. intros <-. reflexivity. Qed.
Lemma frame_mega_regions h h' v : frame h h' -> frame h (h' <| h_mega_regions := v |>).
Proof. unfold frame. intros <-. reflexivity. Qed.
Lemma frame_vm_gen h h' v : frame h h' -> frame h (h' <| h_vm_gen := v |>).
Proof. unfold frame. intros <-. reflexivity. Qed.
Lemma frame_dtlb h h' v : frame h h' -> frame h (h' <| h_dtlb := v |>).
Proof. unfold frame. intros <-. reflexivity. Qed.
Lemma frame_itlb h h' v : frame h h' -> frame h (h' <| h_itlb := v |>).
Proof. unfold frame. intros <-. reflexivity. Qed.
Lemma frame_dtlb_fills h h' v : frame h h' -> frame h (h' <| h_dtlb_fills := v |>).
Proof. unfold frame. intros <-. reflexivity. Qed.
Lemma frame_dtlb_flushes h h' v : frame h h' -> frame h (h' <| h_dtlb_flushes := v |>).
Proof. unfold frame. intros <-. reflexivity. Qed.
Lemma frame_itlb_fills h h' v : frame h h' -> frame h (h' <| h_itlb_fills := v |>).
Proof. unfold frame. intros <-. reflexivity. Qed.

Lemma ldiff_lor_same x k : Z.ldiff (Z.lor x k) k = Z.ldiff x k.
Proof.
  apply Z.bits_inj'. intros i Hi. rewrite !Z.ldiff_spec, Z.lor_spec.
  destruct (Z.testbit x i), (Z.testbit k i); reflexivity.
Qed.

Lemma f_dirty_frame h h' : frame h h' -> frame h (f_dirty h').
Proof.
  unfold frame. intros <-. unfold settle, f_dirty. cbn [h_mstatus set_field set_mstatus].
  rewrite ldiff_lor_same. reflexivity.
Qed.

(** What the relation keeps, field by field. *)
Record kept (h h' : rv_hart) : Prop := {
  k_mie : h_mie h' = h_mie h;
  k_mip : h_mip h' = h_mip h;
  k_mtvec : h_mtvec h' = h_mtvec h;
  k_mscratch : h_mscratch h' = h_mscratch h;
  k_mepc : h_mepc h' = h_mepc h;
  k_mcause : h_mcause h' = h_mcause h;
  k_mtval : h_mtval h' = h_mtval h;
  k_mcountinhibit : h_mcountinhibit h' = h_mcountinhibit h;
  k_mcycle : h_mcycle h' = h_mcycle h;
  k_minstret : h_minstret h' = h_minstret h;
  k_mcounteren : h_mcounteren h' = h_mcounteren h;
  k_menvcfg : h_menvcfg h' = h_menvcfg h;
  k_senvcfg : h_senvcfg h' = h_senvcfg h;
  k_stvec : h_stvec h' = h_stvec h;
  k_sscratch : h_sscratch h' = h_sscratch h;
  k_sepc : h_sepc h' = h_sepc h;
  k_scause : h_scause h' = h_scause h;
  k_stval : h_stval h' = h_stval h;
  k_scounteren : h_scounteren h' = h_scounteren h;
  k_medeleg : h_medeleg h' = h_medeleg h;
  k_mideleg : h_mideleg h' = h_mideleg h;
  k_satp : h_satp h' = h_satp h;
  k_vm_active : h_vm_active h' = h_vm_active h;
  k_pmp_gen : h_pmp_gen h' = h_pmp_gen h;
  k_tselect : h_tselect h' = h_tselect h;
  k_tdata1 : h_tdata1 h' = h_tdata1 h;
  k_tdata2 : h_tdata2 h' = h_tdata2 h;
  k_trig_active : h_trig_active h' = h_trig_active h;
  k_pmpcfg : h_pmpcfg h' = h_pmpcfg h;
  k_pmpaddr : h_pmpaddr h' = h_pmpaddr h;
  k_pmp_active : h_pmp_active h' = h_pmp_active h;
  k_pmp_any : h_pmp_any h' = h_pmp_any h;
  k_irq_dirty : h_irq_dirty h' = h_irq_dirty h;
  k_fetch_guard : h_fetch_guard h' = h_fetch_guard h;
  k_data_guard : h_data_guard h' = h_data_guard h;
  k_hartid : h_hartid h' = h_hartid h;
  k_priv : h_priv h' = h_priv h;
  k_mhpmcounter : h_mhpmcounter h' = h_mhpmcounter h;
  k_mhpmevent : h_mhpmevent h' = h_mhpmevent h;
  k_hpm_armed : h_hpm_armed h' = h_hpm_armed h;
  k_mhpmeventh : h_mhpmeventh h' = h_mhpmeventh h;
  k_trap_count : h_trap_count h' = h_trap_count h;
  k_mstatus : Z.ldiff (h_mstatus h') MSTATUS_FS_MASK = Z.ldiff (h_mstatus h) MSTATUS_FS_MASK
}.

Lemma frame_kept h h' : frame h h' -> kept h h'.
Proof.
  unfold frame. intros H. split; [exact (f_equal h_mie H)
    |exact (f_equal h_mip H)
    |exact (f_equal h_mtvec H)
    |exact (f_equal h_mscratch H)
    |exact (f_equal h_mepc H)
    |exact (f_equal h_mcause H)
    |exact (f_equal h_mtval H)
    |exact (f_equal h_mcountinhibit H)
    |exact (f_equal h_mcycle H)
    |exact (f_equal h_minstret H)
    |exact (f_equal h_mcounteren H)
    |exact (f_equal h_menvcfg H)
    |exact (f_equal h_senvcfg H)
    |exact (f_equal h_stvec H)
    |exact (f_equal h_sscratch H)
    |exact (f_equal h_sepc H)
    |exact (f_equal h_scause H)
    |exact (f_equal h_stval H)
    |exact (f_equal h_scounteren H)
    |exact (f_equal h_medeleg H)
    |exact (f_equal h_mideleg H)
    |exact (f_equal h_satp H)
    |exact (f_equal h_vm_active H)
    |exact (f_equal h_pmp_gen H)
    |exact (f_equal h_tselect H)
    |exact (f_equal h_tdata1 H)
    |exact (f_equal h_tdata2 H)
    |exact (f_equal h_trig_active H)
    |exact (f_equal h_pmpcfg H)
    |exact (f_equal h_pmpaddr H)
    |exact (f_equal h_pmp_active H)
    |exact (f_equal h_pmp_any H)
    |exact (f_equal h_irq_dirty H)
    |exact (f_equal h_fetch_guard H)
    |exact (f_equal h_data_guard H)
    |exact (f_equal h_hartid H)
    |exact (f_equal h_priv H)
    |exact (f_equal h_mhpmcounter H)
    |exact (f_equal h_mhpmevent H)
    |exact (f_equal h_hpm_armed H)
    |exact (f_equal h_mhpmeventh H)
    |exact (f_equal h_trap_count H)
    |exact (f_equal h_mstatus H)].
Qed.

Create HintDb frame.
#[export] Hint Resolve frame_refl f_dirty_frame frame_x frame_pc frame_f frame_fcsr frame_state frame_resv_addr frame_resv_valid frame_split_req frame_split_at frame_split_valid frame_tlb frame_mega_regions frame_vm_gen frame_dtlb frame_itlb frame_dtlb_fills frame_dtlb_flushes frame_itlb_fills : frame.

(** Comparing two harts field by field is costly; only the lemmas above do. *)
#[global] Opaque frame.

(** Follow every branch of a hypothesis [f ... = result]. *)
Ltac follow :=
  repeat match goal with
    | H : (_, _) = (_, _) |- _ => injection H; clear H; intros; subst
    | H : inl _ = inr _ |- _ => discriminate H
    | H : inr _ = inl _ |- _ => discriminate H
    | H : inl _ = inl _ |- _ => injection H; clear H; intros; subst
    | H : inr _ = inr _ |- _ => injection H; clear H; intros; subst
    | H : Some _ = None |- _ => discriminate H
    | H : None = Some _ |- _ => discriminate H
    | H : context [let '(_, _) := ?e in _] |- _ => destruct e eqn:?
    | H : context [match ?e with _ => _ end] |- _ => destruct e eqn:?
    end.

Ltac by_frame := solve [eassumption | eauto 12 with frame].

Section Frame.
Context `{Cfg : RvConfig} `{SF : SoftFloat} {Ext M : Type} `{PB : PhysBus Ext M}.

Lemma mmu_walk_frame va acc priv : forall level h (m : M) table e pa h' m',
  mmu_walk level h m va acc priv table = (e, pa, h', m') -> frame h h'.
Proof.
  induction level as [|level IH]; intros h m table e pa h' m' E; cbn [mmu_walk] in E; follow;
    try solve [by_frame | eapply IH; eassumption]; destruct (level =? 0)%nat; unfold mark_mega; by_frame.
Qed.

Lemma translate_frame h (m : M) va acc e pa h' m' : rv_mmu_translate h m va acc = (e, pa, h', m') -> frame h h'.
Proof. unfold rv_mmu_translate. intros E. follow; [by_frame..|eapply mmu_walk_frame; eassumption]. Qed.

Lemma dtlb_fill_framed h (m : M) va pa h' m' : rv_dtlb_fill h m va pa = (h', m') -> frame h h'.
Proof. unfold rv_dtlb_fill. intros E. follow; by_frame. Qed.

Lemma itlb_fill_frame h (m : M) va pa h' m' : rv_itlb_fill h m va pa = (h', m') -> frame h h'.
Proof. unfold rv_itlb_fill. intros E. follow; by_frame. Qed.

Lemma drop_resv_frame h h' a : frame h h' -> frame h (drop_resv h' a).
Proof. unfold drop_resv. destruct (_ && _); by_frame. Qed.
Hint Resolve drop_resv_frame : frame.

(** ** Accesses *)

Lemma wide_translate_frame acc : forall ps h (m : M) r h' m',
  wide_translate h m acc ps = (r, h', m') -> frame h h'.
Proof.
  induction ps as [|[va len] ps IH]; intros h m r h' m' E; cbn [wide_translate] in E; [follow; by_frame|].
  destruct (if h_vm_active h then _ else _) as [[[e pa] h1] m1] eqn:Et.
  assert (F : frame h h1) by (destruct (h_vm_active h); [eapply translate_frame; exact Et|follow; by_frame]).
  destruct (negb _); [follow; exact F|]. destruct (wide_translate _ _ _ _) as [[r1 h2] m2] eqn:Er.
  apply IH in Er. follow; eapply frame_trans; eassumption.
Qed.

Lemma wide_run_frame store pa len : forall fuel h (m : M) off v done r h' m',
  wide_run fuel h m store pa len off v done = (r, h', m') -> frame h h'.
Proof.
  induction fuel as [|fuel IH]; intros h m off v done r h' m' E; cbn [wide_run] in E; [follow; by_frame|].
  destruct (off <? len); [|follow; by_frame].
  destruct store; [destruct (bus_write _ _ _ _) as [f m1]|destruct (bus_read _ _ _) as [[f w] m1]]; destruct f;
    try (follow; by_frame); apply IH in E.
  eapply frame_trans; [|exact E]; by_frame.
Qed.

Lemma wide_parts_run_frame store : forall ps h (m : M) v done r h' m',
  wide_parts_run h m store ps v done = (r, h', m') -> frame h h'.
Proof.
  induction ps as [|p ps IH]; intros h m v done r h' m' E; cbn [wide_parts_run] in E; [follow; by_frame|].
  destruct (wide_run _ _ _ _ _ _ _ _ _) as [[r1 h1] m1] eqn:Er. apply wide_run_frame in Er.
  destruct r1 as [x|[v1 d1]]; [follow; exact Er|]. apply IH in E. eapply frame_trans; eassumption.
Qed.

Lemma mem_wide_frame h (m : M) va size acc val e v a h' m' :
  mem_wide h m va size acc val = (e, v, a, h', m') -> frame h h'.
Proof.
  unfold mem_wide. destruct (wide_translate _ _ _ _) as [[r h1] m1] eqn:Et. intros E. apply wide_translate_frame in Et.
  destruct r as [[e1 a1]|ps]; [follow; exact Et|]. destruct (wide_check _ _ _ _ _) as [bad m2].
  destruct bad; [follow; exact Et|]. destruct (wide_parts_run _ _ _ _ _ _) as [[r2 h2] m3] eqn:Er.
  apply wide_parts_run_frame in Er. destruct r2 as [[? ?]|[? ?]]; injection E as <- <- <- <- <-; eapply frame_trans; eassumption.
Qed.

Lemma load64_frame h (m : M) a e v t h' m' : rv_hart_load64 h m a = (e, v, t, h', m') -> frame h h'.
Proof. unfold rv_hart_load64. intros E. follow; [by_frame..|eapply mem_wide_frame; eassumption]. Qed.

Lemma store64_frame h (m : M) a val e t h' m' : rv_hart_store64 h m a val = (e, t, h', m') -> frame h h'.
Proof. unfold rv_hart_store64. intros E. follow; [by_frame..|eapply mem_wide_frame; eassumption]. Qed.

Lemma split_frame h (m : M) va size acc val e v h' m' : split_access h m va size acc val = (e, v, h', m') -> frame h h'.
Proof.
  unfold split_access. destruct (mem_wide _ _ _ _ _ _) as [[[[e1 v1] a1] h1] m1] eqn:Em. intros E.
  apply mem_wide_frame in Em. injection E as <- <- <- <-. destruct (_ && _); by_frame.
Qed.

Lemma load_bus_frame h (m : M) va a size sg e v h' m' : load_bus h m va a size sg = (e, v, h', m') -> frame h h'.
Proof. unfold load_bus. intros E. follow; solve [by_frame | eapply dtlb_fill_framed; eassumption]. Qed.

Lemma load_guarded_frame h (m : M) a size sg e v h' m' : load_guarded h m a size sg = (e, v, h', m') -> frame h h'.
Proof.
  unfold load_guarded, load_split. destruct (dtlb_probe _ _ _ _); [intros E; follow; by_frame|].
  destruct (h_vm_active h); [|apply load_bus_frame]. destruct (_ && _).
  - destruct (split_access _ _ _ _ _ _) as [[[e1 w] h1] m1] eqn:Es. apply split_frame in Es. intros E. follow; exact Es.
  - destruct (rv_mmu_translate _ _ _ _) as [[[t pa] h1] m1] eqn:Et. apply translate_frame in Et. intros E.
    destruct (negb _); [follow; exact Et|]. apply load_bus_frame in E. eapply frame_trans; eassumption.
Qed.

Lemma load_frame h (m : M) a size sg e v h' m' : rv_hart_load h m a size sg = (e, v, h', m') -> frame h h'.
Proof.
  unfold rv_hart_load. destruct (_ && _); [intros E; follow; by_frame|]. destruct (_ && _); [intros E; follow; by_frame|].
  destruct (h_data_guard h); [apply load_guarded_frame|]. intros E. follow; by_frame.
Qed.

Lemma store_bus_frame h (m : M) va a size val e h' m' : store_bus h m va a size val = (e, h', m') -> frame h h'.
Proof.
  unfold store_bus. intros E. follow; try by_frame. eapply frame_trans; [|eapply dtlb_fill_framed; eassumption]. by_frame.
Qed.

Lemma store_guarded_frame h (m : M) a size val e h' m' : store_guarded h m a size val = (e, h', m') -> frame h h'.
Proof.
  unfold store_guarded, store_split. destruct (if h_resv_valid h then _ else _); [intros E; follow; by_frame|].
  destruct (h_vm_active h); [|apply store_bus_frame]. destruct (_ && _).
  - destruct (split_access _ _ _ _ _ _) as [[[e1 w] h1] m1] eqn:Es. apply split_frame in Es. intros E. follow; exact Es.
  - destruct (rv_mmu_translate _ _ _ _) as [[[t pa] h1] m1] eqn:Et. apply translate_frame in Et. intros E.
    destruct (negb _); [follow; exact Et|]. apply store_bus_frame in E. eapply frame_trans; eassumption.
Qed.

Lemma store_frame h (m : M) a size val e h' m' : rv_hart_store h m a size val = (e, h', m') -> frame h h'.
Proof.
  unfold rv_hart_store. destruct (_ && _); [intros E; follow; by_frame|]. destruct (_ && _); [intros E; follow; by_frame|].
  destruct (h_data_guard h); [apply store_guarded_frame|]. intros E. follow; by_frame.
Qed.

(** ** Atomics and cache blocks *)

Lemma data_translate_frame h (m : M) va acc e pa h' m' : data_translate h m va acc = (e, pa, h', m') -> frame h h'.
Proof. unfold data_translate. destruct (h_vm_active h); [apply translate_frame|intros E; follow; by_frame]. Qed.

Lemma put_x_frame h h' rd v : frame h h' -> frame h (put_x h' rd v).
Proof. unfold put_x. destruct (negb _); by_frame. Qed.

Lemma zero_x0_frame h h' : frame h h' -> frame h (zero_x0 h').
Proof. unfold zero_x0. by_frame. Qed.

Lemma put_pair_frame h h' rd lo hi : frame h h' -> frame h (put_pair h' rd lo hi).
Proof. unfold put_pair. destruct (negb _); by_frame. Qed.

Hint Resolve put_x_frame zero_x0_frame put_pair_frame : frame.

Lemma amo_frame h (m : M) f5 rd a src e h' m' : rv_hart_amo h m f5 rd a src = (e, h', m') -> frame h h'.
Proof.
  unfold rv_hart_amo. destruct (has a 3); [intros E; follow; by_frame|].
  destruct (data_translate _ _ _ _) as [[[t pa] h1] m1] eqn:Et. apply data_translate_frame in Et.
  unfold amo_lr, amo_sc, amo_rmw. intros E. follow; by_frame.
Qed.

Lemma amocas_d_frame h (m : M) rd rs2 a e h' m' : rv_hart_amocas_d h m rd rs2 a = (e, h', m') -> frame h h'.
Proof.
  unfold rv_hart_amocas_d. destruct (has a 7); [intros E; follow; by_frame|].
  destruct (data_translate _ _ _ _) as [[[t pa] h1] m1] eqn:Et. apply data_translate_frame in Et.
  unfold amocas_d_bus. intros E. follow; by_frame.
Qed.

Lemma zalasr_frame h (m : M) insn t e tv h' m' : rv_hart_zalasr h m insn t = (e, tv, h', m') -> frame h h'.
Proof.
  unfold rv_hart_zalasr. destruct (2 <? _); [intros E; follow; by_frame|]. destruct (_ =? RV_AMO_STORE_REL).
  - destruct (_ || _); [intros E; follow; by_frame|]. destruct (has _ _); [intros E; follow; by_frame|].
    destruct (rv_hart_store _ _ _ _ _) as [[e1 h1] m1] eqn:Es. apply store_frame in Es. intros E. follow; exact Es.
  - destruct (_ || _); [intros E; follow; by_frame|]. destruct (has _ _); [intros E; follow; by_frame|].
    destruct (rv_hart_load _ _ _ _ _) as [[[e1 v] h1] m1] eqn:Es. apply load_frame in Es. intros E.
    injection E as <- <- <- <-. destruct (_ =? _); by_frame.
Qed.

Lemma atomic_frame h (m : M) insn e tv h' m' : rv_hart_atomic h m insn = (e, tv, h', m') -> frame h h'.
Proof.
  unfold rv_hart_atomic. destruct (_ || _); [apply zalasr_frame|]. destruct (_ && (_ =? RV_AMO_CAS)).
  - destruct (_ || _); [intros E; follow; by_frame|].
    destruct (rv_hart_amocas_d _ _ _ _ _) as [[e1 h1] m1] eqn:Es. apply amocas_d_frame in Es. intros E. follow; by_frame.
  - destruct (_ || _); [intros E; follow; by_frame|].
    destruct (rv_hart_amo _ _ _ _ _ _) as [[e1 h1] m1] eqn:Es. apply amo_frame in Es. intros E. follow; by_frame.
Qed.

Lemma zero_words_frame pa : forall offs h (m : M) e i h' m',
  zero_words h m pa offs = (e, i, h', m') -> frame h h'.
Proof.
  induction offs as [|o offs IH]; intros h m e i h' m' E; cbn [zero_words] in E; [follow; by_frame|].
  set (h1 := if _ && _ then _ else h) in E. assert (F : frame h h1) by (unfold h1; destruct (_ && _); by_frame). clearbody h1.
  destruct (bus_write _ _ _ _) as [f m1]. destruct (negb _); [follow; exact F|]. apply IH in E. eapply frame_trans; eassumption.
Qed.

Lemma cbo_frame h (m : M) op a e fa h' m' : rv_hart_cbo h m op a = (e, fa, h', m') -> frame h h'.
Proof.
  unfold rv_hart_cbo. destruct (cbo_permitted h op) as [op'|]; [|intros E; follow; by_frame]. destruct (op' =? _).
  - unfold cbo_zero. destruct (if h_trig_active h then _ else _); [intros E; follow; by_frame|].
    destruct (data_translate _ _ _ _) as [[[t pa] h1] m1] eqn:Et. apply data_translate_frame in Et. intros E.
    destruct (negb _); [follow; exact Et|]. destruct (_ && _); [follow; exact Et|].
    destruct (bus_find _ _) as [[r|] m2]; [|follow; exact Et]. destruct (_ || _); [follow; exact Et|].
    destruct (zero_words _ _ _ _) as [[[e2 i] h2] m3] eqn:Ez. apply zero_words_frame in Ez.
    injection E as <- <- <- <-. eapply frame_trans; eassumption.
  - unfold cbo_maint. destruct (data_translate _ _ _ _) as [[[t pa] h1] m1] eqn:Et. apply data_translate_frame in Et.
    intros E. follow; exact Et.
Qed.

(** ** Floating point *)

Lemma fp_done_frame h h' fl : frame h h' -> frame h (fp_done h' fl).
Proof. unfold fp_done. by_frame. Qed.

Lemma f_accrue_frame h h' fl : frame h h' -> frame h (f_accrue h' fl).
Proof. unfold f_accrue. destruct (negb _); by_frame. Qed.

Lemma put_xz_frame h h' rd v : frame h h' -> frame h (put_xz h' rd v).
Proof. unfold put_xz. by_frame. Qed.

Lemma fw_frame h h' r v : frame h h' -> frame h (fw16 h' r v) /\ frame h (fw32 h' r v) /\ frame h (fw64 h' r v).
Proof. unfold fw16, fw32, fw64. split; [|split]; by_frame. Qed.

Hint Resolve fp_done_frame f_accrue_frame put_xz_frame : frame.

Lemma fp_finish_frame h (m : M) insn rd fw r e t h' m' :
  (forall r v, frame h (fw h r v)) -> fp_finish h m insn rd fw r = (e, t, h', m') -> frame h h'.
Proof. intros Hw E. unfold fp_finish in E. follow; by_frame. Qed.

Lemma fp_load_frame h (m : M) insn rd rm a e t h' m' : fp_load h m insn rd rm a = (e, t, h', m') -> frame h h'.
Proof.
  unfold fp_load. destruct (rm =? 1); [|destruct (rm =? 3)].
  - destruct (rv_hart_load _ _ _ _ _) as [[[e1 v] h1] m1] eqn:El. apply load_frame in El. intros E.
    follow; [exact El|]. apply f_dirty_frame, fw_frame, El.
  - destruct (rv_hart_load64 _ _ _) as [[[[e1 v] t1] h1] m1] eqn:El. apply load64_frame in El. intros E.
    follow; [exact El|]. apply f_dirty_frame, fw_frame, El.
  - destruct (rv_hart_load _ _ _ _ _) as [[[e1 v] h1] m1] eqn:El. apply load_frame in El. intros E.
    follow; [exact El|]. apply f_dirty_frame, fw_frame, El.
Qed.

Lemma fp_store_frame h (m : M) rs2 rm a e t h' m' : fp_store h m rs2 rm a = (e, t, h', m') -> frame h h'.
Proof.
  unfold fp_store. destruct (rm =? 3); [apply store64_frame|].
  destruct (rm =? 1); destruct (rv_hart_store _ _ _ _ _) as [[e1 h1] m1] eqn:Es; apply store_frame in Es; intros E;
    follow; exact Es.
Qed.

Lemma fp_frame h (m : M) insn e t h' m' : rv_hart_fp h m insn = (e, t, h', m') -> frame h h'.
Proof.
  assert (W : forall r v, frame h (fw16 h r v) /\ frame h (fw32 h r v) /\ frame h (fw64 h r v))
    by (intros; apply fw_frame, frame_refl).
  unfold rv_hart_fp. destruct (_ =? 0); [intros E; follow; by_frame|]. destruct (_ || _).
  { destruct (_ && _); [intros E; follow; by_frame|]. destruct (_ =? _); [apply fp_load_frame|apply fp_store_frame]. }
  destruct (_ || _).
  { destruct (1 <? _); [intros E; follow; by_frame|]. destruct (_ =? 1); apply fp_finish_frame; intros; apply W. }
  destruct (negb _); [intros E; follow; by_frame|].
  destruct (_ =? 2); [apply fp_finish_frame; intros; apply W|]. destruct (1 <? _); [intros E; follow; by_frame|].
  destruct (_ =? 1); apply fp_finish_frame; intros; apply W.
Qed.

(** ** Fetch *)

Lemma fetch_check_frame h (m : M) pc e pa h' m' : fetch_check h m pc = (e, pa, h', m') -> frame h h'.
Proof.
  unfold fetch_check. generalize (if h_priv h =? RV_PRIV_M then None
    else Some (h_itlb h (rv_dtlb_table (h_priv h)) (dtlb_slot (Z.shiftr pc EMU_DTLB_PAGE_SHIFT)))). intros en.
  destruct (match en with Some _ => _ =? _ | None => false end); [intros E; follow; by_frame|].
  destruct (if h_vm_active h then _ else _) as [[[t fpc] h1] m1] eqn:Et.
  assert (F : frame h h1) by (destruct (h_vm_active h); [eapply translate_frame; exact Et|follow; by_frame]).
  intros E. destruct (negb _); [follow; exact F|]. destruct (_ && _); [follow; exact F|].
  destruct (if match en with Some _ => negb _ | None => false end then _ else _) as [h2 m2] eqn:Ef.
  injection E as <- <- <- <-. eapply frame_trans; [exact F|].
  destruct (match en with Some _ => negb _ | None => false end); [eapply itlb_fill_frame; exact Ef|follow; by_frame].
Qed.

Lemma fetch_hi_frame h (m : M) pc fpc lo r h' m' : fetch_hi h m pc fpc lo = (r, h', m') -> frame h h'.
Proof.
  unfold fetch_hi. destruct (if _ && _ then _ else _) as [[[t fpc2] h1] m1] eqn:Et.
  assert (F : frame h h1) by (destruct (_ && _); [eapply translate_frame; exact Et|follow; by_frame]).
  intros E. follow; exact F.
Qed.

Lemma fetch_frame h (m : M) pc r h' m' : fetch h m pc = (r, h', m') -> frame h h'.
Proof.
  unfold fetch. destruct (misaligned_target pc); [intros E; follow; by_frame|].
  destruct (_ && _); [intros E; follow; by_frame|].
  destruct (if h_fetch_guard h then _ else _) as [[[t fpc] h1] m1] eqn:Et.
  assert (F : frame h h1) by (destruct (h_fetch_guard h); [eapply fetch_check_frame; exact Et|follow; by_frame]).
  intros E. destruct (negb _); [follow; exact F|]. destruct (bus_fetch16 _ _) as [[f lo] m2].
  destruct (negb _); [follow; exact F|]. destruct (rv_is_32bit _); [|follow; exact F].
  apply fetch_hi_frame in E. eapply frame_trans; eassumption.
Qed.

(** ** Execution *)

Variable pf : platform M.

(** The hook sees a system call, not the hart: it may stop the hart or change
    memory. *)
Definition hook_frames : Prop :=
  forall hook nr args h m used ret h' m', pf_ecall pf = Some hook -> hook nr args h m = (used, ret, h', m') -> frame h h'.

(** How an instruction that completes changes the hart. *)
Inductive insn_effect (h : rv_hart) (next : Z) (h' : rv_hart) : Prop :=
| EffPlain : frame h h' -> insn_effect h next h'
| EffCsr csr val h1 : rv_csr_write h csr val = (RV_EXC_NONE, h1) -> frame h1 h' -> insn_effect h next h'
| EffMret : RV_PRIV_M <= h_priv h -> h' = do_mret h -> next = h_mepc h -> insn_effect h next h'
| EffSret : RV_PRIV_S <= h_priv h -> h' = do_sret h -> next = h_sepc h -> insn_effect h next h'.

Lemma wr_frame h h' rd v : frame h h' -> frame h (wr h' rd v).
Proof. unfold wr. by_frame. Qed.
Hint Resolve wr_frame : frame.

Lemma flush_frame h : frame h (rv_mmu_flush h).
Proof. unfold rv_mmu_flush, rv_mmu_flush_tlb, rv_dtlb_flush. by_frame. Qed.

Lemma flush_page_frame h va : frame h (rv_mmu_flush_page h va).
Proof.
  unfold rv_mmu_flush_page. destruct (mega_bit _ _); [apply flush_frame|]. unfold rv_dtlb_flush_page.
  destruct (_ && _); by_frame.
Qed.
Hint Resolve flush_frame flush_page_frame : frame.

(** An outcome and what it says of the hart. *)
Definition outcome_ok (h : rv_hart) (o : insn_outcome M) : Prop :=
  match o with
  | Next next _ h' _ => insn_effect h next h'
  | Raise _ _ h' _ => frame h h'
  end.

Definition outcome_plain (h : rv_hart) (o : insn_outcome M) : Prop :=
  match o with Next _ _ h' _ | Raise _ _ h' _ => frame h h' end.

Lemma plain_ok h o : outcome_plain h o -> outcome_ok h o.
Proof. destruct o; cbn; [apply EffPlain|auto]. Qed.

Lemma exec_call_plain h next (r : Z * Z * rv_hart * M) :
  (forall e t h' m', r = (e, t, h', m') -> frame h h') -> outcome_plain h (exec_call next r).
Proof.
  intros H. destruct r as [[[e t] h1] m1]. unfold exec_call. destruct (negb _); cbn; eapply H; reflexivity.
Qed.

Lemma exec_alu_plain h (m : M) insn next v : outcome_plain h (exec_alu h m insn next v).
Proof. destruct v; cbn; by_frame. Qed.

Lemma exec_jump_plain h (m : M) pc next insn :
  outcome_plain h (exec_jal h m pc next insn) /\ outcome_plain h (exec_jalr h m next insn) /\
  outcome_plain h (exec_branch h m pc next insn).
Proof.
  unfold exec_jal, exec_jalr, exec_branch. split; [|split].
  - destruct (misaligned_target _); cbn; by_frame.
  - destruct (negb _); [cbn; by_frame|]. destruct (misaligned_target _); cbn; by_frame.
  - destruct (branch_taken _ _ _) as [[]|]; cbn; [destruct (misaligned_target _); cbn; by_frame|by_frame..].
Qed.

Lemma exec_load_plain h (m : M) next insn : outcome_plain h (exec_load h m next insn).
Proof.
  unfold exec_load. destruct (load_kind _) as [[sz sx]|]; [|cbn; by_frame].
  destruct (rv_hart_load _ _ _ _ _) as [[[e v] h1] m1] eqn:El. apply load_frame in El. destruct (negb _); cbn; by_frame.
Qed.

Lemma exec_store_plain h (m : M) next insn : outcome_plain h (exec_store h m next insn).
Proof.
  unfold exec_store. destruct (store_size _) as [sz|]; [|cbn; by_frame].
  destruct (rv_hart_store _ _ _ _ _) as [[e h1] m1] eqn:El. apply store_frame in El. destruct (negb _); cbn; by_frame.
Qed.

Lemma exec_misc_plain h (m : M) next insn : outcome_plain h (exec_misc_mem h m next insn).
Proof.
  unfold exec_misc_mem. destruct (_ =? 1); [cbn; by_frame|]. destruct (_ =? 2); [|cbn; by_frame].
  destruct (_ || _); [cbn; by_frame|].
  destruct (rv_hart_cbo _ _ _ _) as [[[e fa] h1] m1] eqn:El. apply cbo_frame in El. destruct (negb _); cbn; by_frame.
Qed.

Lemma exec_ecall_plain h (m : M) pc next insn : hook_frames -> outcome_plain h (exec_ecall pf h m pc next insn).
Proof.
  intros Hk. unfold exec_ecall. destruct (pf_ecall pf) as [hook|] eqn:Eh; [|cbn; by_frame].
  destruct (h_priv h =? RV_PRIV_M); [|cbn; by_frame].
  destruct (hook _ _ _ _) as [[[used ret] h1] m1] eqn:Er.
  pose proof (Hk _ _ _ _ _ _ _ _ _ Eh Er) as F.
  assert (F' : frame h h1) by (eapply frame_trans; [|exact F]; by_frame). destruct used; cbn; by_frame.
Qed.

Lemma exec_priv_ok h (m : M) pc next insn : hook_frames -> outcome_ok h (exec_priv pf h m pc next insn).
Proof.
  intros Hk. unfold exec_priv. destruct (_ && (rv_rd insn =? 0)).
  { apply plain_ok. destruct (_ || _); [cbn; by_frame|]. destruct (negb _); cbn; by_frame. }
  destruct (_ || _); [cbn; by_frame|]. destruct (_ =? 0); [apply plain_ok, exec_ecall_plain, Hk|].
  destruct (_ =? 1); [cbn; by_frame|]. destruct (_ || _); [apply plain_ok; destruct (_ =? _); cbn; by_frame|].
  destruct (_ =? 770).
  { destruct (Z.ltb_spec (h_priv h) RV_PRIV_M); [cbn; by_frame|]. apply EffMret; [lia|reflexivity|reflexivity]. }
  destruct (_ =? 258).
  { destruct (Z.ltb_spec (h_priv h) RV_PRIV_S); [cbn; by_frame|]. destruct (_ || _); [cbn; by_frame|].
    apply EffSret; [lia|reflexivity|reflexivity]. }
  apply plain_ok. destruct (_ =? 261); [destruct (_ || _); cbn; by_frame|]. destruct (_ =? 13).
  { destruct (negb _); [cbn; by_frame|]. destruct (_ && _); cbn; by_frame. }
  destruct (_ =? 29); cbn; by_frame.
Qed.

Lemma csr_write_refused h csr val e h' : rv_csr_write h csr val = (e, h') -> e <> RV_EXC_NONE -> h' = h.
Proof.
  unfold rv_csr_write, csr_write_range, csr_done, csr_refuse. intros E Hn.
  repeat match type of E with (if ?b then _ else _) = _ => destruct b; [solve [congruence | follow; congruence]|] end.
  follow; congruence.
Qed.

Lemma exec_csr_ok h (m : M) next insn : outcome_ok h (exec_csr pf h m next insn).
Proof.
  unfold exec_csr. set (rd := if negb (_ && _) then _ else _). destruct rd as [e old].
  destruct (negb (e =? _)); [cbn; by_frame|]. destruct (_ || _).
  - destruct (rv_csr_write _ _ _) as [e1 h1] eqn:Ew. destruct (Z.eqb_spec e1 RV_EXC_NONE) as [->|Hn]; cbn.
    + eapply EffCsr; [exact Ew|]. by_frame.
    + rewrite (csr_write_refused _ _ _ _ _ Ew Hn). by_frame.
  - rewrite Z.eqb_refl. cbn. apply EffPlain. by_frame.
Qed.

Lemma exec_ok h (m : M) pc next insn : hook_frames -> outcome_ok h (exec pf h m pc next insn).
Proof.
  intros Hk. unfold exec. destruct (exec_jump_plain h m pc next insn) as (J1 & J2 & J3).
  destruct (_ =? Z.shiftr OP_LUI 2); [apply EffPlain; by_frame|].
  destruct (_ =? Z.shiftr OP_AUIPC 2); [apply EffPlain; by_frame|].
  destruct (_ =? Z.shiftr OP_JAL 2); [apply plain_ok, J1|].
  destruct (_ =? Z.shiftr OP_JALR 2); [apply plain_ok, J2|].
  destruct (_ =? Z.shiftr OP_BRANCH 2); [apply plain_ok, J3|].
  destruct (_ =? Z.shiftr OP_LOAD 2); [apply plain_ok, exec_load_plain|].
  destruct (_ =? Z.shiftr OP_STORE 2); [apply plain_ok, exec_store_plain|].
  destruct (_ =? Z.shiftr OP_IMM 2); [apply plain_ok, exec_alu_plain|].
  destruct (_ =? Z.shiftr OP_OP 2); [apply plain_ok, exec_alu_plain|].
  destruct (_ =? Z.shiftr OP_MISC_MEM 2); [apply plain_ok, exec_misc_plain|].
  destruct (_ =? Z.shiftr OP_AMO 2); [apply plain_ok, exec_call_plain; intros *; apply atomic_frame|].
  destruct (_ =? Z.shiftr OP_SYSTEM 2).
  { unfold exec_system. destruct (_ =? 0); [apply exec_priv_ok, Hk|]. destruct (_ =? 4); [cbn; by_frame|].
    apply exec_csr_ok. }
  destruct (_ || _); [|cbn; by_frame]. apply plain_ok, exec_call_plain. intros *. apply fp_frame.
Qed.

End Frame.
