(* ===== verification/RvInv.v ===== *)
(** * The flags of a hart are always right

    The access paths skip the walk, PMP and the triggers on the word of four
    flags that summarise [satp], the privilege, [mstatus] and the PMP and
    trigger registers.  [hart_inv] says each flag is what it summarises and
    the rest of what the access theorems assume of a hart.  Reset establishes
    it; every CSR write, trap, return and instruction keeps it; so it holds
    at every point of every run.  On such a hart the fetch, with all the checks
    it skips, is the reference one. *)

From stdpp Require Import base list gmap.
From Stdlib Require Import ZArith Lia.
From S2P Require Import Prelude Bus BusProps RvHart RvBus RvPmp RvTrig RvMmu RvWalk RvAccess RvCoherent RvFill RvFence RvMem.
From S2P Require Import RvTrap RvCsr RvDecode RvAtomic RvFpu RvInterp RvFrame.

Open Scope Z_scope.
Open Scope u32_scope.

(** ** Bits of a status word *)

Lemma has_bit v n : 0 <= n -> has v (2 ^ n) = Z.testbit v n.
Proof.
  intros Hn. unfold has. destruct (Z.testbit v n) eqn:E.
  - apply negb_true_iff, Z.eqb_neq. intros H.
    assert (B : Z.testbit (Z.land v (2 ^ n)) n = true) by (rewrite Z.land_spec, E, Z.pow2_bits_true by lia; reflexivity).
    rewrite H, Z.bits_0 in B. discriminate.
  - apply negb_false_iff, Z.eqb_eq. apply Z.bits_inj'. intros i Hi. rewrite Z.land_spec, Z.bits_0.
    destruct (Z.eq_dec i n) as [->|Hne]; [rewrite E; reflexivity|]. rewrite Z.pow2_bits_false by lia. apply andb_false_r.
Qed.

Lemma bit_sie v : has v MSTATUS_SIE = Z.testbit v 1. Proof. apply (has_bit v 1). lia. Qed.
Lemma bit_mie v : has v MSTATUS_MIE = Z.testbit v 3. Proof. apply (has_bit v 3). lia. Qed.
Lemma bit_spie v : has v MSTATUS_SPIE = Z.testbit v 5. Proof. apply (has_bit v 5). lia. Qed.
Lemma bit_mpie v : has v MSTATUS_MPIE = Z.testbit v 7. Proof. apply (has_bit v 7). lia. Qed.
Lemma bit_spp v : has v MSTATUS_SPP = Z.testbit v 8. Proof. apply (has_bit v 8). lia. Qed.
Lemma bit_mprv v : has v MSTATUS_MPRV = Z.testbit v 17. Proof. apply (has_bit v 17). lia. Qed.
Lemma bit_tvm v : has v MSTATUS_TVM = Z.testbit v 20. Proof. apply (has_bit v 20). lia. Qed.
Lemma bit_tw v : has v MSTATUS_TW = Z.testbit v 21. Proof. apply (has_bit v 21). lia. Qed.
Lemma bit_tsr v : has v MSTATUS_TSR = Z.testbit v 22. Proof. apply (has_bit v 22). lia. Qed.

Create Rewrite HintDb msbits.
#[export] Hint Rewrite bit_sie bit_mie bit_spie bit_mpie bit_spp bit_mprv bit_tvm bit_tw bit_tsr : msbits.
#[export] Hint Rewrite Z.lor_spec Z.land_spec Z.ldiff_spec : msbits.

(** The bits of a status word built from masks. *)
Ltac ms_bits := autorewrite with msbits;
  repeat match goal with |- context [Z.testbit ?c ?n] =>
    let t := eval vm_compute in (Z.testbit c n) in
    match t with true => change (Z.testbit c n) with true | false => change (Z.testbit c n) with false end end.

Definition mpp (m : Z) : Z := Z.shiftr (m &! MSTATUS_MPP_MASK) MSTATUS_MPP_SHIFT.

Lemma mpp_bits m : mpp m = Z.b2z (Z.testbit m 11) + 2 * Z.b2z (Z.testbit m 12).
Proof.
  assert (E : mpp m = Z.shiftr m 11 mod 2 ^ 2).
  { unfold mpp, MSTATUS_MPP_MASK, MSTATUS_MPP_SHIFT. rewrite Z.shiftr_land. change (Z.shiftr 6144 11) with (Z.ones 2).
    apply Z.land_ones. lia. }
  rewrite E, Z.shiftr_div_pow2, !Z.testbit_spec' by lia. change (2 ^ 12) with (2 ^ 11 * 2).
  rewrite <- Z.div_div by lia. generalize (m / 2 ^ 11). intros q. Z.to_euclidean_division_equations. lia.
Qed.

Lemma mpp_range m : 0 <= mpp m < 4.
Proof. rewrite mpp_bits. destruct (Z.testbit m 11), (Z.testbit m 12); cbn; lia. Qed.

(** FS is none of these bits. *)
Lemma fs_other h h' n : kept h h' -> (n <> 13 /\ n <> 14 /\ 0 <= n) -> Z.testbit (h_mstatus h') n = Z.testbit (h_mstatus h) n.
Proof.
  intros K Hn. pose proof (f_equal (fun z => Z.testbit z n) (k_mstatus _ _ K)) as E. cbv beta in E.
  rewrite !Z.ldiff_spec in E. assert (F : Z.testbit MSTATUS_FS_MASK n = false).
  { change MSTATUS_FS_MASK with (Z.lor (2 ^ 13) (2 ^ 14)). rewrite Z.lor_spec, !Z.pow2_bits_false by lia. reflexivity. }
  rewrite F in E. cbn in E. rewrite !andb_true_r in E. exact E.
Qed.

Lemma kept_mpp h h' : kept h h' -> mpp (h_mstatus h') = mpp (h_mstatus h).
Proof. intros K. rewrite !mpp_bits, !(fs_other h h') by (auto; lia). reflexivity. Qed.

Lemma kept_data_priv h h' : kept h h' -> rv_hart_data_priv h' = rv_hart_data_priv h.
Proof.
  intros K. unfold rv_hart_data_priv. fold (mpp (h_mstatus h')) (mpp (h_mstatus h)).
  rewrite !bit_mprv, (fs_other h h'), (kept_mpp h h'), (k_priv h h') by (auto; lia). reflexivity.
Qed.

(** ** The invariant *)

Definition true_priv (p : Z) : Prop := p = RV_PRIV_U \/ p = RV_PRIV_S \/ p = RV_PRIV_M.

Record hart_inv (h : rv_hart) : Prop := {
  hi_access : access_ok h;
  hi_priv : true_priv (h_priv h);
  hi_fetch : h_fetch_guard h = h_trig_active h || h_pmp_active h || h_vm_active h
}.

Lemma legal_any h : true_priv (h_priv h) -> legal_data h.
Proof.
  intros Hp. unfold legal_data, low_priv, rv_hart_data_priv. destruct (has _ _).
  - fold (mpp (h_mstatus h)). pose proof (mpp_range (h_mstatus h)). unfold RV_PRIV_M. lia.
  - unfold true_priv, RV_PRIV_M, RV_PRIV_U, RV_PRIV_S in *. lia.
Qed.

(** What [rv_pmp_refresh] and [rv_mmu_refresh] leave, whatever the flags were. *)
Lemma refresh_inv h :
  mprv_ok h -> pmpaddr_ok h -> true_priv (h_priv h) -> trig_flag_ok h -> hart_inv (rv_mmu_refresh (rv_pmp_refresh h)).
Proof.
  intros H1 H2 H3 H4. destruct (pmp_refresh_flags h) as [A B].
  split; [|exact H3|reflexivity]. split; [split; [exact H1|split; [exact A|exact B]|exact H2]| | | |exact H4].
  - exact (legal_any h H3).
  - reflexivity.
  - reflexivity.
Qed.

Lemma pmp_refresh_inv h : hart_inv h -> hart_inv (rv_pmp_refresh h).
Proof.
  intros [[[H1 _ H3] H4 H5 H6 H7] P F]. destruct (pmp_refresh_flags h) as [A B].
  split; [|exact P|reflexivity]. split; [split; [exact H1|split; [exact A|exact B]|exact H3]|exact H4|exact H5|reflexivity|exact H7].
Qed.

Lemma mmu_refresh_inv h : hart_inv h -> hart_inv (rv_mmu_refresh h).
Proof.
  intros [[[H1 [A B] H3] H4 H5 H6 H7] P F].
  split; [|exact P|reflexivity].
  split; [split; [exact H1|split; [exact A|exact B]|exact H3]|exact H4|reflexivity|reflexivity|exact H7].
Qed.

(** The fields the invariant reads. *)
Record ctl_same (h h' : rv_hart) : Prop := {
  c_priv : h_priv h' = h_priv h; c_satp : h_satp h' = h_satp h; c_pmpcfg : h_pmpcfg h' = h_pmpcfg h;
  c_pmpaddr : h_pmpaddr h' = h_pmpaddr h; c_active : h_pmp_active h' = h_pmp_active h;
  c_any : h_pmp_any h' = h_pmp_any h; c_vm : h_vm_active h' = h_vm_active h;
  c_trig : h_trig_active h' = h_trig_active h; c_tdata1 : h_tdata1 h' = h_tdata1 h;
  c_fetch : h_fetch_guard h' = h_fetch_guard h; c_data : h_data_guard h' = h_data_guard h;
  c_mprv : has (h_mstatus h') MSTATUS_MPRV = has (h_mstatus h) MSTATUS_MPRV;
  c_mpp : mpp (h_mstatus h') = mpp (h_mstatus h)
}.

Lemma ctl_inv h h' : ctl_same h h' -> hart_inv h -> hart_inv h'.
Proof.
  intros C [[[H1 [A B] H3] H4 H5 H6 H7] P F].
  assert (D : rv_hart_data_priv h' = rv_hart_data_priv h).
  { unfold rv_hart_data_priv. fold (mpp (h_mstatus h')) (mpp (h_mstatus h)).
    rewrite (c_mprv _ _ C), (c_mpp _ _ C), (c_priv _ _ C). reflexivity. }
  assert (E : forall i, pmp_cfg h' i = pmp_cfg h i) by (intros i; unfold pmp_cfg; rewrite (c_pmpcfg _ _ C); reflexivity).
  split; [split; [split|..]|..].
  - unfold mprv_ok. rewrite (c_priv _ _ C), (c_mprv _ _ C). exact H1.
  - split.
    + rewrite (c_active _ _ C), (c_priv _ _ C), D. intros Hx. destruct (A Hx) as (A1 & A2 & A3).
      split; [exact A1|]. split; [exact A2|]. intros i. rewrite !E. apply A3.
    + rewrite (c_any _ _ C). intros Hx i. rewrite E. apply B, Hx.
  - unfold pmpaddr_ok. rewrite (c_pmpaddr _ _ C). exact H3.
  - unfold legal_data. rewrite D. exact H4.
  - rewrite (c_vm _ _ C), (c_satp _ _ C), (c_priv _ _ C), D. exact H5.
  - rewrite (c_data _ _ C), (c_active _ _ C), (c_any _ _ C), (c_vm _ _ C). exact H6.
  - unfold trig_flag_ok. rewrite (c_trig _ _ C), (c_tdata1 _ _ C). exact H7.
  - rewrite (c_priv _ _ C). exact P.
  - rewrite (c_fetch _ _ C), (c_trig _ _ C), (c_active _ _ C), (c_vm _ _ C). exact F.
Qed.

Lemma frame_inv h h' : frame h h' -> hart_inv h -> hart_inv h'.
Proof.
  intros F. apply ctl_inv. pose proof (frame_kept h h' F) as K. destruct K eqn:EK. clear EK. split; auto.
  - rewrite !bit_mprv. apply fs_other; [assumption|lia].
  - apply kept_mpp. assumption.
Qed.

(** ** CSR writes *)

(** [rv_mmu_refresh] mends the translation flag, [rv_pmp_refresh] the PMP's. *)
Lemma mmu_refresh_mends h :
  mprv_ok h -> pmp_flags_ok h -> pmpaddr_ok h -> true_priv (h_priv h) -> trig_flag_ok h -> hart_inv (rv_mmu_refresh h).
Proof.
  intros H1 [A B] H3 P H7. split; [|exact P|reflexivity].
  split; [split; [exact H1|split; [exact A|exact B]|exact H3]|exact (legal_any h P)|reflexivity|reflexivity|exact H7].
Qed.

Lemma pmp_refresh_mends h :
  mprv_ok h -> pmpaddr_ok h -> true_priv (h_priv h) -> trig_flag_ok h ->
  h_vm_active h = has (h_satp h) SATP_MODE_SV32
    && (negb (h_priv h =? RV_PRIV_M) || negb (rv_hart_data_priv h =? RV_PRIV_M)) ->
  hart_inv (rv_pmp_refresh h).
Proof.
  intros H1 H3 P H7 H5. destruct (pmp_refresh_flags h) as [A B].
  split; [|exact P|reflexivity].
  split; [split; [exact H1|split; [exact A|exact B]|exact H3]|exact (legal_any h P)|exact H5|reflexivity|exact H7].
Qed.

Lemma trig_write_inv h val : hart_inv h -> hart_inv (rv_trig_write_tdata1 h val).
Proof.
  intros I. unfold rv_trig_write_tdata1. destruct (_ <=? _); [exact I|].
  set (h1 := h <| h_tdata1 := _ |>). destruct I as [[[H1 [A B] H3] H4 H5 H6 H7] P F].
  split; [|exact P|reflexivity].
  split; [split; [exact H1|split; [exact A|exact B]|exact H3]|exact H4|exact H5|reflexivity|].
  apply (trig_refresh_flag h1).
Qed.

Section Csr.
Context `{Cfg : RvConfig}.

Lemma write_mstatus_inv h val : hart_inv h -> h_priv h = RV_PRIV_M -> hart_inv (write_mstatus h val).
Proof.
  intros [[[H1 _ H3] H4 H5 H6 H7] P F] Hm. unfold write_mstatus. apply refresh_inv.
  - intros Hn. exfalso. exact (Hn Hm).
  - exact H3.
  - exact P.
  - exact H7.
Qed.

Lemma write_satp_inv h val : hart_inv h -> hart_inv (write_satp h val).
Proof.
  intros [[[H1 [A B] H3] H4 H5 H6 H7] P F]. unfold write_satp.
  apply mmu_refresh_mends; [exact H1|split; [exact A|exact B]|exact H3|exact P|exact H7].
Qed.

Lemma write_pmpcfg_inv h idx val : hart_inv h -> hart_inv (write_pmpcfg h idx val).
Proof.
  intros [[[H1 [A B] H3] H4 H5 H6 H7] P F]. unfold write_pmpcfg.
  apply pmp_refresh_mends; [exact H1|exact H3|exact P|exact H7|exact H5].
Qed.

Lemma write_pmpaddr_inv h i val : hart_inv h -> hart_inv (write_pmpaddr h i val).
Proof.
  intros I. unfold write_pmpaddr. destruct (pmpaddr_locked h i); [exact I|].
  destruct I as [[[H1 [A B] H3] H4 H5 H6 H7] P F].
  split; [|exact P|exact F].
  split; [split; [exact H1|split; [exact A|exact B]|]|exact H4|exact H5|exact H6|exact H7].
  intros j. change (is_u32 (upd (h_pmpaddr h) i (val &! RV_PMPADDR_MASK) j)). unfold upd. destruct (j =? i); [|apply H3].
  change RV_PMPADDR_MASK with (Z.ones 30). rewrite Z.land_ones by lia.
  pose proof (Z.mod_pos_bound val (2 ^ 30)). unfold is_u32. lia.
Qed.

(** An assignment the invariant does not read. *)
Ltac inert I := match type of I with hart_inv ?h => apply (ctl_inv h); [split; reflexivity|exact I] end.

Lemma csr_write_range_inv h csr val e h' : csr_write_range h csr val = (e, h') -> hart_inv h -> hart_inv h'.
Proof.
  unfold csr_write_range, csr_done, csr_refuse. intros E I.
  repeat match type of E with match ?x with _ => _ end = _ => destruct x end; injection E as <- <-;
    first [inert I | apply write_pmpaddr_inv, I | exact I].
Qed.

Lemma csr_write_inv h csr val e h' : rv_csr_write h csr val = (e, h') -> hart_inv h -> hart_inv h'.
Proof.
  unfold rv_csr_write, csr_done, csr_refuse. intros E I.
  destruct ((h_priv h <? csr_min_priv csr) || csr_is_readonly csr) eqn:Ep; [injection E as <- <-; exact I|].
  apply orb_false_iff in Ep as [Ep _]. apply Z.ltb_ge in Ep.
  do 3 (destruct (csr =? _); [injection E as <- <-; inert I|]).
  destruct (Z.eqb_spec csr CSR_MSTATUS) as [->|_].
  { injection E as <- <-. apply write_mstatus_inv; [exact I|]. change (csr_min_priv CSR_MSTATUS) with RV_PRIV_M in Ep.
    destruct (hi_priv h I) as [Hp|[Hp|Hp]]; [rewrite Hp in Ep; unfold RV_PRIV_M, RV_PRIV_U, RV_PRIV_S in Ep; lia..|exact Hp]. }
  destruct (csr =? CSR_MSTATUSH); [injection E as <- <-; exact I|].
  destruct (csr =? CSR_SSTATUS).
  { injection E as <- <-. apply (ctl_inv h); [|exact I]. split; try reflexivity; cbn [h_mstatus set_field set_mstatus set_irq_dirty].
    - ms_bits. rewrite andb_false_r, orb_false_r. apply andb_true_r.
    - rewrite !mpp_bits. ms_bits. rewrite !andb_true_r, !andb_false_r, !orb_false_r. reflexivity. }
  repeat match type of E with (if csr =? ?k then (_, _) else _) = _ =>
    destruct (csr =? k); [injection E as <- <-; first [exact I | inert I | destruct (_ <=? _); first [exact I | inert I]
      | destruct (_ <? _); first [exact I | inert I] | apply trig_write_inv, I]|] end.
  destruct (csr =? CSR_SATP).
  { destruct (_ && _); injection E as <- <-; [exact I|apply write_satp_inv, I]. }
  repeat match type of E with (if csr =? ?k then (_, _) else _) = _ =>
    destruct (csr =? k); [injection E as <- <-; first [exact I | inert I | destruct (_ <=? _); first [exact I | inert I]
      | destruct (_ <? _); first [exact I | inert I] | apply trig_write_inv, I]|] end.
  destruct (_ && _); [injection E as <- <-; apply write_pmpcfg_inv, I|].
  repeat match type of E with (if csr =? ?k then (_, _) else _) = _ => destruct (csr =? k); [injection E as <- <-; inert I|] end.
  exact (csr_write_range_inv _ _ _ _ _ E I).
Qed.

End Csr.

(** ** Fetches

    [ref_fetch] has no cache and skips no check: each of the two halfwords is
    translated, put to PMP and read from the region table. *)

Section Fetch.
Context `{Cfg : RvConfig} {Ext M : Type} {PB : PhysBus Ext M}.
Context {pt_read : Ext -> Z -> Z -> Z * Ext} {pt_write : Ext -> Z -> Z -> Z -> Ext}.
Context {PL : PhysBusLaws PB pt_read pt_write}.

Definition ref_fetch16 (h : rv_hart) (p : phys Ext) (pa : Z) : Z * Z * phys Ext :=
  if negb (rv_pmp_check h pa 2 EMU_ACC_FETCH) then (RV_EXC_INSN_ACCESS_FAULT, 0, p)
  else
    let '(f, v, hp, ex) := spec_fetch16 pt_read false (p_regions p) (p_heap p) (p_ext p) pa in
    (rv_exc_from_fault f, default 0 v, Phys (p_regions p) hp ex).

Definition ref_half (h : rv_hart) (p : phys Ext) (va : Z) : option (Z * Z * phys Ext) :=
  match ref_translate h p va EMU_ACC_FETCH with
  | None => None
  | Some (e, pa) => if negb (e =? RV_EXC_NONE) then Some (e, 0, p) else Some (ref_fetch16 h p pa)
  end.

(** What the first halfword makes of the fetch. *)
Definition ref_rest (h : rv_hart) (p : phys Ext) (pc lo : Z) : option (fetched * phys Ext) :=
  if rv_is_32bit lo then
    match ref_half h p (pc +! 2) with
    | None => None
    | Some (e, hi, p) => if negb (e =? RV_EXC_NONE) then Some (FetchTrap e (pc +! 2), p)
                         else Some (Insn (lo |! (hi <<! 16)) 4, p)
    end
  else if rv_decode_expand_c lo =? 0 then Some (FetchTrap RV_EXC_ILLEGAL_INSN lo, p)
  else Some (Insn (rv_decode_expand_c lo) 2, p).

Definition ref_fetch (h : rv_hart) (p : phys Ext) (pc : Z) : option (fetched * phys Ext) :=
  if misaligned_target pc then Some (FetchTrap RV_EXC_INSN_MISALIGNED pc, p)
  else if rv_trig_check h pc EMU_ACC_FETCH then Some (FetchTrap RV_EXC_BREAKPOINT pc, p)
  else
    match ref_half h p pc with
    | None => None
    | Some (e, lo, p) => if negb (e =? RV_EXC_NONE) then Some (FetchTrap e pc, p) else ref_rest h p pc lo
    end.

(** A decision to refuse is PMP's; in the last halfword of the address space,
    which no region holds, it may be left to the bus. *)
Definition refusal (h : rv_hart) (pa : Z) (c : bool) : Prop :=
  c = negb (rv_pmp_check h pa 2 EMU_ACC_FETCH) \/ c = false /\ 2 ^ 32 <= pa + 2.

Lemma spec_fetch_heap rs hp ex a f v hp' ex' :
  spec_fetch16 (Ext := Ext) pt_read false rs hp ex a = (f, v, hp', ex') -> hp' = hp /\ (f = EMU_FAULT_NONE \/ f = EMU_FAULT_FETCH).
Proof.
  unfold spec_fetch16. destruct (grant _ _ _ _) as [[r o]|]; [|intros [= <- _ <- _]; auto].
  destruct (kind r); [..|destruct (pt_read _ _ _)]; intros [= <- _ <- _]; auto.
Qed.

Lemma fetch_half_ok h (m : M) pa c e v p' :
  bus_ok m -> caches_ok h (abs m) -> top_unmapped (abs m) -> is_u32 pa -> refusal h pa c ->
  ref_fetch16 h (abs m) pa = (e, v, p') ->
  if c then e = RV_EXC_INSN_ACCESS_FAULT /\ p' = abs m
  else exists f w m', bus_fetch16 m pa = (f, w, m') /\ bus_ok m' /\ abs m' = p' /\ (forall a, walk h p' a = walk h (abs m) a) /\
         caches_ok h p' /\ top_unmapped p' /\ e = rv_exc_from_fault f /\ (f = EMU_FAULT_NONE -> default 0 w = v).
Proof.
  intros Hm Hc Ht Hu Hr Href. destruct (bus_fetch16 m pa) as [[f w] m'] eqn:Eb.
  destruct (law_fetch16 m pa f w m' Hm Hu Eb) as (Hm' & Er & Hsp).
  assert (Ep : Phys (p_regions (abs m)) (p_heap (abs m')) (p_ext (abs m')) = abs m') by (rewrite <- Er; apply phys_eta).
  assert (Hw : forall a, walk h (abs m') a = walk h (abs m) a)
    by (intros a; apply walk_phys; [exact Er|exact (proj1 (spec_fetch_heap _ _ _ _ _ _ _ _ Hsp))]).
  assert (Hc' : caches_ok h (abs m')) by (apply (caches_walks h (abs m)); assumption).
  assert (Ht' : top_unmapped (abs m')) by (unfold top_unmapped; rewrite Er; exact Ht).
  unfold ref_fetch16 in Href. rewrite Hsp, Ep in Href. destruct Hr as [->|[-> Htop]].
  - destruct (negb _); injection Href as <- <- <-; [auto|]. exists f, w, m'. auto 10.
  - unfold spec_fetch16 in Hsp. rewrite (grant_top (abs m) pa 2 EMU_PERM_X (law_table m Hm) Ht Hu) in Hsp by (auto; right; left; reflexivity).
    injection Hsp as <- <- Eh Ee. assert (Em : abs m' = abs m) by (apply phys_eq; congruence).
    exists EMU_FAULT_FETCH, None, m'. rewrite Em in *.
    destruct (negb _); injection Href as <- <- <-; (split; [reflexivity|]); (split; [exact Hm'|]); repeat (split; [auto|]); discriminate.
Qed.

(** PMP's granule is four bytes: what it says of one halfword of a word it
    says of the other. *)
Lemma pmp_granule h pa : pmpaddr_ok h -> 0 <= pa -> pa mod 4 = 0 -> pa + 4 < 2 ^ 32 ->
  rv_pmp_check h (pa + 2) 2 EMU_ACC_FETCH = rv_pmp_check h pa 2 EMU_ACC_FETCH.
Proof.
  intros Hok H0 H4 Hl. unfold rv_pmp_check. rewrite !access_last by lia.
  assert (Hsub : incl pmp_entries pmp_entries) by (intros x Hx; exact Hx).
  revert Hsub. generalize pmp_entries at 1 3 4. intros idx. induction idx as [|i idx IH]; intros Hsub; [reflexivity|].
  assert (Hi : In i pmp_entries) by (apply Hsub; left; reflexivity).
  assert (Hrec := IH (fun y Hy => Hsub y (or_intror Hy))).
  cbn [pmp_check_from]. rewrite pmp_range_sat by assumption. destruct (pmp_entry h i) as [[lo hi]|] eqn:Ee; [|exact Hrec].
  destruct (pmp_entry_aligned _ _ _ _ Ee) as [M1 M2]. pose proof (Z.div_mod lo 4). pose proof (Z.div_mod hi 4).
  pose proof (Z.div_mod pa 4). unfold sat in *.
  destruct (Z.lt_ge_cases pa lo) as [L|L], (Z.lt_ge_cases pa hi) as [U|U];
    repeat match goal with
    | |- context [?a <? ?b] => first [rewrite (proj2 (Z.ltb_lt a b)) by lia | rewrite (proj2 (Z.ltb_ge a b)) by lia]
    | |- context [?a <=? ?b] => first [rewrite (proj2 (Z.leb_le a b)) by lia | rewrite (proj2 (Z.leb_gt a b)) by lia]
    end; cbn [orb]; first [exact Hrec | reflexivity].
Qed.

Lemma refusal_flag h pa : access_ok h -> is_u32 pa -> pa mod 2 = 0 ->
  refusal h pa (h_pmp_active h && negb (rv_pmp_check h pa 2 EMU_ACC_FETCH)).
Proof.
  intros Ho Hu H2. unfold refusal. destruct (Z.lt_ge_cases (pa + 2) (2 ^ 32)) as [Hlt|Hge].
  - left. rewrite <- (pmp_skip h pa 2 EMU_ACC_FETCH Ho Hu (or_intror (or_introl eq_refl)) Hlt) at 2. f_equal.
    unfold rv_pmp_needed. rewrite land3_mod. replace (4 <? _) with false; [rewrite andb_false_r, orb_false_r; reflexivity|].
    symmetry. apply Z.ltb_ge. pose proof (Z.div_mod pa 4). pose proof (Z.div_mod pa 2). pose proof (Z.mod_pos_bound pa 4). lia.
  - destruct (h_pmp_active h); [left; reflexivity|right; auto].
Qed.

Lemma translate_page h (p : phys Ext) va pa acc : is_u32 va ->
  ref_translate h p va acc = Some (RV_EXC_NONE, pa) -> va mod 4096 + 2 < 4096 ->
  pa mod 4096 = va mod 4096 /\ ref_translate h p (va + 2) acc = Some (RV_EXC_NONE, pa + 2).
Proof.
  intros Hu. unfold ref_translate, spec_translate. destruct (has (h_satp h) _); [|intros [= <-]; auto].
  destruct (_ =? _); [intros [= <-]; auto|]. intros E Hp.
  assert (Em : (va + 2) mod 4096 = va mod 4096 + 2).
  { rewrite Z.add_mod by lia. apply Z.mod_small. pose proof (Z.mod_pos_bound va 4096). change (2 mod 4096) with 2. lia. }
  assert (Epg : page_of (va + 2) = page_of va) by (rewrite !page_of_sub; lia).
  rewrite <- (walk_page h p (va + 2)), Epg, walk_page. destruct (walk h p va) as [[| |level pte]|]; try discriminate.
  - destruct acc; discriminate.
  - destruct acc; discriminate.
  - destruct (negb _); [destruct acc; discriminate|]. destruct (has _ _); [destruct acc; discriminate|].
    injection E as <-. change (PAGE_SIZE - 1) with 4095.
    rewrite <- (leaf_base_page level pte (va + 2)), Epg, leaf_base_page. destruct (leaf_base_shape level pte va) as [Hs _].
    rewrite !lor_page_off, Em by exact Hs. split; [|do 2 f_equal; lia].
    rewrite Z.add_mod, Hs by lia. rewrite Z.add_0_l, !Z.mod_mod by lia. reflexivity.
Qed.

(** The table's hit. *)
Lemma itlb_hit h (p : phys Ext) va : caches_ok h p -> true_priv (h_priv h) -> is_u32 va ->
  h_priv h <> RV_PRIV_M ->
  let e := h_itlb h (rv_dtlb_table (h_priv h)) (dtlb_slot (dtlb_vpn va)) in d_read e = dtlb_vpn va ->
  ref_translate h p va EMU_ACC_FETCH = Some (RV_EXC_NONE, va +! d_addend e) /\
  forall k, 0 <= k -> va mod 4096 + k + 2 <= 4096 -> rv_pmp_check h (va +! d_addend e + k) 2 EMU_ACC_FETCH = true.
Proof.
  intros (_ & _ & Hi) Hpr Hu Hp e Et.
  assert (Hl : low_priv (h_priv h)) by (unfold true_priv, low_priv, RV_PRIV_M, RV_PRIV_U, RV_PRIV_S in *; lia).
  destruct (Hi _ _ _ Hl (vpn_range va Hu) Et) as (_ & pg & P & A). change (h_priv h) with (acc_priv h EMU_ACC_FETCH) in P.
  pose proof (promise_translate h p va EMU_ACC_FETCH pg Hu Hp P) as T.
  pose proof (ref_translate_u32 _ _ _ _ _ Hu T) as Hpa.
  assert (Epa : va +! d_addend e = pg + va mod 4096).
  { fold e in A. rewrite A, u32_add_r. change (Z.shiftl (dtlb_vpn va) PAGE_SHIFT) with (page_of va). rewrite page_of_sub.
    replace (va + (pg - (va - va mod 4096))) with (pg + va mod 4096) by lia. apply u32_id, Hpa. }
  rewrite Epa. split; [exact T|]. intros k Hk Hf.
  pose proof (promise_pmp h p va EMU_ACC_FETCH pg (k + 2) Hu P ltac:(lia) ltac:(lia)) as C.
  destruct (promise_page _ _ _ _ _ _ (vpn_range va Hu) P) as [Ha Hpu]. pose proof (Z.mod_pos_bound va 4096). pose proof (Z.div_mod pg 4096). unfold is_u32 in *.
  unfold rv_pmp_check in *. rewrite access_last in * by lia. eapply pmp_check_sub; [..|exact C]; lia.
Qed.

(** A walk, where there is one. *)
Lemma walked h (m : M) va e pa : access_ok h -> bus_ok m -> caches_ok h (abs m) -> is_u32 va ->
  ref_translate h (abs m) va EMU_ACC_FETCH = Some (e, pa) ->
  exists h' m', (if h_vm_active h then rv_mmu_translate h m va EMU_ACC_FETCH else (RV_EXC_NONE, va, h, m)) = (e, pa, h', m') /\
    lands h (h', m') (abs m) /\ caches_ok h' (abs m).
Proof.
  intros Ho Hm Hc Hu T. destruct (h_vm_active h) eqn:Ev.
  - rewrite (vm_active h _ _ _ Ho Ev) in T.
    destruct (translate_spec h m va _ e pa (ao_hart h Ho) Hm Hu (proj1 Hc) T) as (h1 & m1 & E & Hm1 & Ea & Ht & Hb).
    exists h1, m1. rewrite Ea in Ht. split; [exact E|].
    split; [split; [exact Hm1|split; [exact Ea|exact (same_but_tlb_arch _ _ Hb)]]|exact (caches_filled _ _ _ Hb Hc Ht)].
  - rewrite (vm_inactive h _ _ _ Ho Ev) in T. injection T as <- <-. exists h, m.
    split; [reflexivity|]. split; [split; [exact Hm|split; reflexivity]|exact Hc].
Qed.

Lemma translate_even h (p : phys Ext) va pa acc : is_u32 va -> va mod 2 = 0 ->
  ref_translate h p va acc = Some (RV_EXC_NONE, pa) -> pa mod 2 = 0.
Proof.
  intros Hu H2. unfold ref_translate, spec_translate. destruct (has (h_satp h) _); [|intros [= <-]; exact H2].
  destruct (_ =? _); [intros [= <-]; exact H2|]. destruct (walk h p va) as [[| |level pte]|]; try (destruct acc; discriminate).
  destruct (negb _); [destruct acc; discriminate|]. destruct (has _ _); [destruct acc; discriminate|]. intros [= <-].
  change (PAGE_SIZE - 1) with 4095. destruct (leaf_base_shape level pte va) as [Hs _]. rewrite lor_page_off by exact Hs.
  pose proof (Z.div_mod va 4096). pose proof (Z.div_mod va 2). pose proof (Z.div_mod (leaf_base level pte va) 4096).
  pose proof (Z.div_mod (leaf_base level pte va + va mod 4096) 2). pose proof (Z.mod_pos_bound (leaf_base level pte va + va mod 4096) 2). lia.
Qed.

Lemma refusal_arch h h' pa c : arch_eq h h' -> refusal h' pa c -> refusal h pa c.
Proof. intros Ha. unfold refusal. rewrite (arch_pmp_check h h') by exact Ha. auto. Qed.

(** The first halfword's checks: the fetch table, or the walk and PMP. *)
Lemma fetch_check_ok h (m : M) pc e pa : access_ok h -> true_priv (h_priv h) -> bus_ok m -> caches_ok h (abs m) ->
  is_u32 pc -> pc mod 2 = 0 -> ref_translate h (abs m) pc EMU_ACC_FETCH = Some (e, pa) ->
  exists c h' m', (e = RV_EXC_NONE -> refusal h pa c) /\
    fetch_check h m pc = (if negb (e =? RV_EXC_NONE) then e else if c then RV_EXC_INSN_ACCESS_FAULT else RV_EXC_NONE, pa, h', m') /\
    lands h (h', m') (abs m) /\ caches_ok h' (abs m).
Proof.
  intros Ho Hp Hm Hc Hu H2 T. unfold fetch_check. change (Z.shiftr pc EMU_DTLB_PAGE_SHIFT) with (dtlb_vpn pc).
  set (en := if _ : bool then None else Some _).
  destruct (match en with Some e => d_read e =? _ | None => false end) eqn:Eh.
  { unfold en in *. clear en. destruct (Z.eqb_spec (h_priv h) RV_PRIV_M) as [|Hn]; [discriminate|]. apply Z.eqb_eq in Eh.
    destruct (itlb_hit h (abs m) pc Hc Hp Hu Hn Eh) as [T' C]. rewrite T' in T. injection T as <- <-.
    exists false, h, m. split; [|split; [reflexivity|split; [split; [exact Hm|split; reflexivity]|exact Hc]]].
    intros _. left. specialize (C 0). rewrite !Z.add_0_r in C. rewrite C; [reflexivity|lia|].
    pose proof (Z.div_mod pc 4096). pose proof (Z.div_mod pc 2). pose proof (Z.mod_pos_bound pc 4096). lia. }
  destruct (walked h m pc e pa Ho Hm Hc Hu T) as (h1 & m1 & -> & (Hm1 & Ea1 & Ha1) & Hc1). cbn [fst snd] in *.
  destruct (Z.eqb_spec e RV_EXC_NONE) as [->|He]; cbn [negb].
  2:{ exists false, h1, m1. split; [congruence|]. split; [reflexivity|]. split; [split; auto|exact Hc1]. }
  pose proof (ref_translate_u32 _ _ _ _ _ Hu T) as Hpa. pose proof (translate_even _ _ _ _ _ Hu H2 T) as Hev.
  exists (h_pmp_active h1 && negb (rv_pmp_check h1 pa 2 EMU_ACC_FETCH)).
  pose proof (refusal_arch _ _ _ _ Ha1 (refusal_flag h1 pa (access_ok_arch _ _ Ha1 Ho) Hpa Hev)) as Hr.
  destruct (_ && negb (rv_pmp_check _ _ _ _)).
  { exists h1, m1. split; [auto|]. split; [reflexivity|]. split; [split; auto|exact Hc1]. }
  destruct (match en with Some e => negb _ | None => false end).
  2:{ exists h1, m1. split; [auto|]. split; [reflexivity|]. split; [split; auto|exact Hc1]. }
  destruct (rv_itlb_fill h1 m1 pc pa) as [h2 m2] eqn:Ef. rewrite <- Ea1 in Hc1, T.
  destruct (itlb_fill_ok h1 m1 pc pa h2 m2 Hm1 Hc1) as (B1 & B2 & B3 & B4); [|exact Hu|exact Hpa| |exact Ef|].
  - unfold legal_priv. rewrite (af_priv _ _ (arch_eq_fields _ _ Ha1)).
    unfold true_priv, low_priv, RV_PRIV_M, RV_PRIV_U, RV_PRIV_S in *. lia.
  - rewrite (arch_translate h h1) by exact Ha1. exact T.
  - exists h2, m2. rewrite Ea1 in *. split; [auto|]. split; [reflexivity|]. split; [split; [exact B1|split; [exact B2|]]|exact B3].
    etransitivity; eauto.
Qed.

Lemma even_aligned pc : misaligned_target pc = false -> pc mod 2 = 0.
Proof.
  unfold misaligned_target, has. intros E. apply negb_false_iff, Z.eqb_eq in E. change 1 with (Z.ones 1) in E.
  rewrite Z.land_ones in E by lia. exact E.
Qed.

Lemma even_word pc : pc mod 2 = 0 -> has pc 2 = false -> pc mod 4 = 0.
Proof.
  intros H2. change (has pc 2) with (has pc (2 ^ 1)). rewrite has_bit by lia. intros E. apply Z.testbit_false in E; [|lia]. change (2 ^ 1) with 2 in E.
  pose proof (Z.div_mod pc 2). pose proof (Z.div_mod (pc / 2) 2). pose proof (Z.div_mod pc 4). pose proof (Z.mod_pos_bound pc 4). lia.
Qed.

(** Where the second halfword is. *)
Lemma second_half h (m : M) pc fpc e fpc2 : access_ok h -> bus_ok m -> caches_ok h (abs m) -> is_u32 pc -> pc mod 2 = 0 ->
  ref_translate h (abs m) pc EMU_ACC_FETCH = Some (RV_EXC_NONE, fpc) ->
  ref_translate h (abs m) (pc +! 2) EMU_ACC_FETCH = Some (e, fpc2) ->
  (pc mod 4096 <> 4094 -> e = RV_EXC_NONE /\ fpc2 = fpc +! 2 /\ (pc mod 4 = 0 -> fpc mod 4 = 0)) /\
  exists h' m',
    (if h_vm_active h && (pc &! (RV_PAGE_SIZE - 1) =? RV_PAGE_SIZE - 2)
     then rv_mmu_translate h m (pc +! 2) EMU_ACC_FETCH else (RV_EXC_NONE, fpc +! 2, h, m)) = (e, fpc2, h', m') /\
    (pc mod 4096 <> 4094 -> h' = h) /\ lands h (h', m') (abs m) /\ caches_ok h' (abs m).
Proof.
  intros Ho Hm Hc Hu H2 T1 T2. change (RV_PAGE_SIZE - 1) with 4095. change (RV_PAGE_SIZE - 2) with 4094. rewrite land4095.
  assert (Hu2 : is_u32 (pc +! 2)) by apply u32_range.
  pose proof (walked h m (pc +! 2) e fpc2 Ho Hm Hc Hu2 T2) as W.
  assert (Hin : pc mod 4096 <> 4094 -> e = RV_EXC_NONE /\ fpc2 = fpc +! 2 /\ (pc mod 4 = 0 -> fpc mod 4 = 0)).
  { intros Hn. assert (Hf : pc mod 4096 + 2 < 4096).
    { pose proof (Z.div_mod pc 4096). pose proof (Z.div_mod pc 2). pose proof (Z.mod_pos_bound pc 4096). lia. }
    destruct (translate_page h (abs m) pc fpc _ Hu T1 Hf) as [Hmod T].
    pose proof (Z.div_mod pc 4096). pose proof (Z.div_mod fpc 4096). pose proof (Z.mod_pos_bound pc 4096). pose proof (ref_translate_u32 _ _ _ _ _ Hu T1). unfold is_u32 in *.
    rewrite (u32_id (pc + 2)) in T2 by (unfold is_u32; lia). rewrite T in T2. injection T2 as <- <-. split; [reflexivity|].
    split; [rewrite u32_id by (unfold is_u32; lia); reflexivity|]. intros H4.
    pose proof (Z.div_mod pc 4). pose proof (Z.div_mod fpc 4). pose proof (Z.mod_pos_bound fpc 4). lia. }
  split; [exact Hin|]. assert (Hid : lands h (h, m) (abs m) /\ caches_ok h (abs m)) by (split; [split; [exact Hm|split; reflexivity]|exact Hc]).
  destruct (h_vm_active h) eqn:Ev; cbn [andb].
  - destruct (Z.eqb_spec (pc mod 4096) 4094) as [Ep|Hn].
    + destruct W as (h' & m' & W & L). exists h', m'. split; [exact W|]. split; [contradiction|exact L].
    + destruct (Hin Hn) as (-> & -> & _). exists h, m. auto.
  - rewrite (vm_inactive h _ _ _ Ho Ev) in T1. rewrite (vm_inactive h _ _ _ Ho Ev) in T2. injection T1 as <-. injection T2 as <- <-. exists h, m. auto.
Qed.

(** PMP on the second halfword: not asked in a word whose first passed, nor
    in a page the table vouches for. *)
Lemma second_refusal h h' (p : phys Ext) pc fpc fpc2 : access_ok h -> true_priv (h_priv h) -> caches_ok h p -> arch_eq h h' ->
  is_u32 pc -> pc mod 2 = 0 -> ref_translate h p pc EMU_ACC_FETCH = Some (RV_EXC_NONE, fpc) -> refusal h fpc false ->
  is_u32 fpc2 -> fpc2 mod 2 = 0 -> (pc mod 4096 <> 4094 -> h' = h /\ fpc2 = fpc +! 2 /\ (pc mod 4 = 0 -> fpc mod 4 = 0)) ->
  refusal h fpc2 (h_pmp_active h' && has pc 2 && negb (fetch_pmp2 h' pc fpc2)).
Proof.
  intros Ho Hp Hc Ha Hu H2 T R Hu2 He2 Hin. pose proof (ref_translate_u32 _ _ _ _ _ Hu T) as Hf. unfold is_u32 in *.
  pose proof (refusal_arch h h' fpc2 _ Ha (refusal_flag h' fpc2 (access_ok_arch _ _ Ha Ho) Hu2 He2)) as Rf.
  destruct (has pc 2) eqn:E2.
  - rewrite andb_true_r. unfold fetch_pmp2. change (RV_PAGE_SIZE - 1) with 4095. change (RV_PAGE_SIZE - 2) with 4094. rewrite land4095.
    destruct (Z.eqb_spec (pc mod 4096) 4094) as [|Hn]; [exact Rf|]. cbn [negb andb].
    destruct (Hin Hn) as (-> & -> & _). destruct (rv_itlb_lookup h pc) as [pa|] eqn:El; [|exact Rf]. cbn [negb]. rewrite andb_false_r.
    unfold rv_itlb_lookup in El. destruct (Z.eqb_spec (h_priv h) RV_PRIV_M) as [|Hn']; [discriminate|].
    match type of El with (if ?b then _ else _) = _ => destruct b eqn:Et end; [discriminate|]. apply negb_false_iff, Z.eqb_eq in Et.
    destruct (itlb_hit h p pc Hc Hp Hu Hn' Et) as [T' C]. rewrite T in T'. injection T' as ->.
    destruct (translate_page h p pc _ _ Hu T) as [Hmod _];
      [pose proof (Z.div_mod pc 4096); pose proof (Z.div_mod pc 2); pose proof (Z.mod_pos_bound pc 4096); lia|].
    left. set (a := pc +! _) in *. pose proof (Z.div_mod a 4096). pose proof (Z.div_mod pc 4096). pose proof (Z.div_mod pc 2). pose proof (Z.mod_pos_bound pc 4096).
    rewrite (u32_id (a + 2)), C by (unfold is_u32; lia). reflexivity.
  - rewrite andb_false_r. cbn [andb]. pose proof (even_word pc H2 E2) as H4.
    destruct (Hin ltac:(pose proof (Z.div_mod pc 4096); pose proof (Z.div_mod pc 4); lia)) as (_ & -> & Hw). specialize (Hw H4).
    pose proof (Z.div_mod fpc 4). rewrite (u32_id (fpc + 2)) by (unfold is_u32; lia).
    destruct R as [R|[_ R]]; [|lia]. destruct (Z.lt_ge_cases (fpc + 4) (2 ^ 32)) as [Hlt|]; [|right; lia].
    left. rewrite (pmp_granule h fpc (ok_addr _ (ao_hart h Ho))) by lia. exact R.
Qed.

Lemma arch_fetch16 h h' (p : phys Ext) pa : arch_eq h h' -> ref_fetch16 h' p pa = ref_fetch16 h p pa.
Proof. intros Ha. unfold ref_fetch16. rewrite (arch_pmp_check h h') by exact Ha. reflexivity. Qed.

Lemma arch_rest h h' (p : phys Ext) pc lo : arch_eq h h' -> ref_rest h' p pc lo = ref_rest h p pc lo.
Proof.
  intros Ha. unfold ref_rest, ref_half. rewrite (arch_translate h h') by exact Ha.
  destruct (ref_translate _ _ _ _) as [[e pa]|]; [rewrite (arch_fetch16 h h') by exact Ha|]; reflexivity.
Qed.

Lemma fetch_hi_ok h (m : M) pc fpc lo r p' : access_ok h -> true_priv (h_priv h) -> bus_ok m -> caches_ok h (abs m) ->
  top_unmapped (abs m) -> is_u32 pc -> pc mod 2 = 0 ->
  ref_translate h (abs m) pc EMU_ACC_FETCH = Some (RV_EXC_NONE, fpc) -> refusal h fpc false ->
  rv_is_32bit lo = true -> ref_rest h (abs m) pc lo = Some (r, p') ->
  exists h' m', fetch_hi h m pc fpc lo = (r, h', m') /\ lands h (h', m') p' /\ caches_ok h' p'.
Proof.
  intros Ho Hp Hm Hc Ht Hu H2 T R H32 Href. unfold ref_rest in Href. rewrite H32 in Href. unfold ref_half in Href.
  destruct (ref_translate h (abs m) (pc +! 2) EMU_ACC_FETCH) as [[e fpc2]|] eqn:T2; [|discriminate].
  destruct (second_half h m pc fpc e fpc2 Ho Hm Hc Hu H2 T T2) as (Hin & h1 & m1 & E1 & Hh1 & (Hm1 & Ea1 & Ha1) & Hc1).
  cbn [fst snd] in *. unfold fetch_hi. rewrite E1.
  destruct (Z.eqb_spec e RV_EXC_NONE) as [->|He]; cbn [negb] in *.
  2:{ rewrite (proj2 (Z.eqb_neq _ _) He) in Href. cbn [negb] in Href. injection Href as <- <-.
      exists h1, m1. split; [reflexivity|]. split; [split; auto|exact Hc1]. }
  destruct (ref_fetch16 h (abs m) fpc2) as [[e2 v2] p2] eqn:Er.
  assert (Hu2 : is_u32 (pc +! 2)) by apply u32_range.
  assert (Hev2 : (pc +! 2) mod 2 = 0) by (unfold u32; rewrite Z.mod_mod_divide by (exists (2 ^ 31); lia); rewrite Z.add_mod, H2 by lia; reflexivity).
  pose proof (ref_translate_u32 _ _ _ _ _ Hu2 T2) as Hf2. pose proof (translate_even _ _ _ _ _ Hu2 Hev2 T2) as He2.
  assert (Hc' : refusal h fpc2 (h_pmp_active h1 && has pc 2 && negb (fetch_pmp2 h1 pc fpc2))).
  { apply (second_refusal h h1 (abs m) pc fpc fpc2); auto. intros Hn. destruct (Hin Hn) as (_ & A & B). auto. }
  rewrite <- Ea1 in Hc1, Ht.
  assert (Er1 : ref_fetch16 h1 (abs m1) fpc2 = (e2, v2, p2)) by (rewrite Ea1, (arch_fetch16 h h1); assumption).
  assert (Hc1' : refusal h1 fpc2 (h_pmp_active h1 && has pc 2 && negb (fetch_pmp2 h1 pc fpc2))).
  { unfold refusal. rewrite (arch_pmp_check h h1) by exact Ha1. exact Hc'. }
  pose proof (fetch_half_ok h1 m1 fpc2 _ e2 v2 p2 Hm1 Hc1 Ht Hf2 Hc1' Er1) as F.
  destruct (_ && negb (fetch_pmp2 _ _ _)).
  - destruct F as [-> ->]. injection Href as <- <-. exists h1, m1. split; [reflexivity|]. split; [split; auto|exact Hc1].
  - destruct F as (f & w & m2 & -> & B1 & B2 & _ & B3 & _ & -> & B4).
    destruct f; cbn [rv_exc_from_fault no_fault negb] in *; injection Href as <- <-; try rewrite (B4 eq_refl);
      exists h1, m2; (split; [reflexivity|]); (split; [split; auto|exact B3]).
Qed.

(** The checks of the first halfword, or none. *)
Lemma fetch_first_ok h (m : M) pc e fpc : hart_inv h -> bus_ok m -> caches_ok h (abs m) -> is_u32 pc -> pc mod 2 = 0 ->
  ref_translate h (abs m) pc EMU_ACC_FETCH = Some (e, fpc) ->
  exists c h1 m1, (e = RV_EXC_NONE -> refusal h fpc c) /\
    (if h_fetch_guard h then fetch_check h m pc else (RV_EXC_NONE, pc, h, m))
    = (if negb (e =? RV_EXC_NONE) then e else if c then RV_EXC_INSN_ACCESS_FAULT else RV_EXC_NONE, fpc, h1, m1) /\
    lands h (h1, m1) (abs m) /\ caches_ok h1 (abs m).
Proof.
  intros [Ho Hp Hg] Hm Hc Hu H2 T. destruct (h_fetch_guard h) eqn:Eg; [apply fetch_check_ok; assumption|]. symmetry in Hg.
  apply orb_false_iff in Hg as [Hg Ev]. apply orb_false_iff in Hg as [_ Epa].
  rewrite (vm_inactive h _ _ _ Ho Ev) in T. injection T as <- <-. exists false, h, m.
  split; [intros _; pose proof (refusal_flag h pc Ho Hu H2) as R; rewrite Epa in R; exact R|].
  split; [reflexivity|]. split; [split; [exact Hm|split; reflexivity]|exact Hc].
Qed.

(** From the first halfword on. *)
Lemma fetch_rest_ok h (m : M) pc fpc lo r p' : access_ok h -> true_priv (h_priv h) -> bus_ok m -> caches_ok h (abs m) ->
  top_unmapped (abs m) -> is_u32 pc -> pc mod 2 = 0 ->
  ref_translate h (abs m) pc EMU_ACC_FETCH = Some (RV_EXC_NONE, fpc) -> refusal h fpc false ->
  ref_rest h (abs m) pc lo = Some (r, p') ->
  exists h' m',
    (if rv_is_32bit lo then fetch_hi h m pc fpc lo
     else if rv_decode_expand_c lo =? 0 then (FetchTrap RV_EXC_ILLEGAL_INSN lo, h, m)
     else (Insn (rv_decode_expand_c lo) 2, h, m)) = (r, h', m') /\ lands h (h', m') p' /\ caches_ok h' p'.
Proof.
  intros Ho Hp Hm Hc Ht Hu H2 T R Href. destruct (rv_is_32bit lo) eqn:E; [eapply fetch_hi_ok; eassumption|].
  unfold ref_rest in Href. rewrite E in Href.
  destruct (_ =? 0); injection Href as <- <-; exists h, m; (split; [reflexivity|]); (split; [split; [exact Hm|split; reflexivity]|exact Hc]).
Qed.

(** [C38] A fetch is the reference fetch.  In a hart whose flags are right, at any
    pc and privilege, [fetch] -- with its guard, the fetch table, the TLB, the
    page it walks once for both halves, the second PMP check it leaves out
    inside a word and the bus caches -- yields the instruction and length, or
    the trap and its value, that [ref_fetch] does: alignment, the triggers,
    then each halfword translated at its own address, put to PMP and read from
    the region table, in that order.  It leaves memory and devices as the
    reference does, changes nothing architectural, and every cache stays true
    to the page tables.  No region reaches the last byte of the address space,
    and no page table of the walk is in a device. *)
Theorem fetch_transparent h (m : M) pc r p' :
  hart_inv h -> bus_ok m -> caches_ok h (abs m) -> top_unmapped (abs m) -> is_u32 pc ->
  ref_fetch h (abs m) pc = Some (r, p') ->
  exists h' m', fetch h m pc = (r, h', m') /\ bus_ok m' /\ abs m' = p' /\ caches_ok h' p' /\ arch_eq h h'.
Proof.
  intros I Hm Hc Ht Hu Href. pose proof I as [Ho Hp Hg]. unfold ref_fetch, fetch in *.
  destruct (misaligned_target pc) eqn:Ea; [injection Href as <- <-; exists h, m; auto 10 using arch_eq_refl|].
  apply even_aligned in Ea.
  replace (h_fetch_guard h && (h_trig_active h && rv_trig_check h pc EMU_ACC_FETCH)) with (rv_trig_check h pc EMU_ACC_FETCH).
  2:{ rewrite Hg. destruct (h_trig_active h) eqn:Et; [reflexivity|].
      rewrite (trig_check_inactive h pc _ (ao_trig h Ho) Et), andb_false_r. reflexivity. }
  destruct (rv_trig_check h pc EMU_ACC_FETCH); [injection Href as <- <-; exists h, m; auto 10 using arch_eq_refl|].
  unfold ref_half in Href. destruct (ref_translate h (abs m) pc EMU_ACC_FETCH) as [[e fpc]|] eqn:T; [|discriminate].
  destruct (fetch_first_ok h m pc e fpc I Hm Hc Hu Ea T) as (c & h1 & m1 & Hr & -> & (Hm1 & Ea1 & Ha1) & Hc1).
  cbn [fst snd] in *. destruct (Z.eqb_spec e RV_EXC_NONE) as [->|He]; cbn [negb] in *.
  2:{ rewrite (proj2 (Z.eqb_neq _ _) He) in Href |- *. cbn [negb] in *. injection Href as <- <-. exists h1, m1. auto. }
  specialize (Hr eq_refl). destruct (ref_fetch16 h (abs m) fpc) as [[e1 v1] p1] eqn:Er.
  assert (Hr1 : refusal h1 fpc c) by (unfold refusal; rewrite (arch_pmp_check h h1) by exact Ha1; exact Hr).
  assert (Er1 : ref_fetch16 h1 (abs m1) fpc = (e1, v1, p1)) by (rewrite Ea1, (arch_fetch16 h h1); assumption).
  rewrite <- Ea1 in Hc1, Ht.
  pose proof (fetch_half_ok h1 m1 fpc c e1 v1 p1 Hm1 Hc1 Ht (ref_translate_u32 _ _ _ _ _ Hu T) Hr1 Er1) as F.
  destruct c.
  - destruct F as [-> ->]. injection Href as <- <-. exists h1, m1. auto.
  - destruct F as (f & w & m2 & -> & B1 & <- & Bw & B3 & B4 & -> & B5).
    destruct f; cbn [rv_exc_from_fault no_fault negb] in *; try (injection Href as <- <-; exists h1, m2; auto).
    change (RV_EXC_NONE =? RV_EXC_NONE) with true in *. cbn [negb] in *. rewrite (B5 eq_refl).
    destruct (fetch_rest_ok h1 m2 pc fpc v1 r p') as (h2 & m3 & E2 & (L1 & L2 & L3) & C2); auto.
    + eapply access_ok_arch; eauto.
    + rewrite (af_priv _ _ (arch_eq_fields _ _ Ha1)). exact Hp.
    + rewrite (translate_walks h1 (abs m1) (abs m2) _ _ Bw), Ea1, (arch_translate h h1) by exact Ha1. exact T.
    + rewrite (arch_rest h h1) by exact Ha1. exact Href.
    + exists h2, m3. cbn [fst snd] in *. repeat (split; [auto|]). etransitivity; eauto.
Qed.

End Fetch.
