(* ===== verification/RvTrapProps.v ===== *)
(** * Trap entry and return

    What a trap does to the hart, as one equation ([trap_shape]): the hart a
    frame away from the one that trapped, moved by [trap_core], and then the
    event counters.  From it: the supervisor and machine banks, the enable
    stacks, the handler's address, the triggers and interrupts masked in the
    handler, and that MRET and SRET undo it. *)

From stdpp Require Import base list gmap.
From Stdlib Require Import ZArith Lia.
From S2P Require Import Prelude Bus BusProps RvHart RvBus RvPmp RvTrig RvMmu RvWalk RvAccess RvCoherent RvFill RvFence RvMem.
From S2P Require Import RvTrap RvCsr RvDecode RvAtomic RvFpu RvInterp RvFrame RvInv.

Open Scope Z_scope.
Open Scope u32_scope.

(** ** The event counters *)

Definition unhpm (h : rv_hart) : rv_hart :=
  h <| h_mhpmcounter := fun _ => 0 |> <| h_mhpmeventh := fun _ => 0 |> <| h_mip := 0 |> <| h_irq_dirty := false |>.

(** Counters may tick, and one that overflows raises its interrupt. *)
Definition ticked (h h' : rv_hart) : Prop :=
  unhpm h' = unhpm h /\
  (h_mip h' = h_mip h /\ h_irq_dirty h' = h_irq_dirty h \/ h_irq_dirty h' = true /\ h_mip h' = h_mip h |! MIP_LCOFIP).

Lemma lor_twice x k : (x |! k) |! k = x |! k.
Proof. rewrite <- Z.lor_assoc, Z.lor_diag. reflexivity. Qed.

Lemma ticked_refl h : ticked h h.
Proof. split; [reflexivity|left; split; reflexivity]. Qed.

Lemma ticked_trans a b c : ticked a b -> ticked b c -> ticked a c.
Proof.
  intros [E1 D1] [E2 D2]. split; [congruence|]. destruct D2 as [[-> ->]|[-> ->]]; [exact D1|].
  right. split; [reflexivity|]. destruct D1 as [[-> _]|[_ ->]]; [reflexivity|apply lor_twice].
Qed.

Lemma hpm_tick_ticked h i inh : ticked h (hpm_tick h i inh).
Proof.
  unfold hpm_tick. destruct (has _ _); [apply ticked_refl|]. destruct (_ && _); (split; [reflexivity|]).
  - right. split; reflexivity.
  - left. split; reflexivity.
Qed.

Lemma hpm_note_ticked any exact inh : forall fuel h i armed, ticked h (hpm_note_from fuel h i armed any exact inh).
Proof.
  induction fuel as [|fuel IH]; intros h i armed; cbn [hpm_note_from]; [apply ticked_refl|].
  destruct (armed =? 0); [apply ticked_refl|]. destruct (_ || _); [apply IH|].
  eapply ticked_trans; [apply hpm_tick_ticked|apply IH].
Qed.

Lemma note_ticked h cause from : ticked h (if negb (h_hpm_armed h =? 0) then rv_hpm_note_trap h cause from else h).
Proof. destruct (negb _); [apply hpm_note_ticked|apply ticked_refl]. Qed.

(** ** The equation *)

Definition trap_core (h : rv_hart) (cause tval : Z) : rv_hart :=
  let to_s := trap_to_s h cause in
  let h1 := if to_s then enter_s h cause tval else enter_m h cause tval in
  let tvec := if to_s then h_stvec h else h_mtvec h in
  (rv_mmu_refresh (rv_pmp_refresh h1)) <| h_pc := trap_vector tvec cause |> <| h_resv_valid := false |>.

Section Trap.
Context `{Cfg : RvConfig} {Ext M : Type} `{PB : PhysBus Ext M}.

(** What a walk leaves beside the frame: it only fills the caches. *)
Definition at_rest (h h' : rv_hart) : Prop :=
  h_pc h' = h_pc h /\ h_x h' = h_x h /\ h_f h' = h_f h /\ h_fcsr h' = h_fcsr h /\ h_mstatus h' = h_mstatus h.

Lemma at_rest_refl h : at_rest h h.
Proof. repeat split. Qed.

Lemma at_rest_trans h1 h2 h3 : at_rest h1 h2 -> at_rest h2 h3 -> at_rest h1 h3.
Proof. unfold at_rest. intuition congruence. Qed.

Lemma walk_rest va acc priv : forall level h (m : M) table e pa h' m',
  mmu_walk level h m va acc priv table = (e, pa, h', m') -> at_rest h h'.
Proof.
  induction level as [|level IH]; intros h m table e pa h' m' E; cbn [mmu_walk] in E; follow;
    try solve [apply at_rest_refl | eapply IH; eassumption | repeat split]; destruct (level =? 0)%nat; repeat split.
Qed.

Lemma translate_rest h (m : M) va acc e pa h' m' : rv_mmu_translate h m va acc = (e, pa, h', m') -> at_rest h h'.
Proof. unfold rv_mmu_translate. intros E. follow; [apply at_rest_refl..|eapply walk_rest; eassumption]. Qed.

Lemma illegal_tval_frame h (m : M) t t' h' m' :
  illegal_tval h m t = (t', h', m') -> frame h h' /\ at_rest h h' /\ (t' = t \/ rv_is_32bit t' = false).
Proof.
  unfold illegal_tval. destruct (if h_vm_active h then _ else _) as [[[e pa] h1] m1] eqn:Et.
  assert (F : frame h h1 /\ at_rest h h1).
  { destruct (h_vm_active h); [split; [eapply translate_frame|eapply translate_rest]; exact Et|].
    follow. split; [by_frame|apply at_rest_refl]. }
  destruct F as [F1 F2]. intros E. follow; auto; destruct (rv_is_32bit z) eqn:?; auto.
Qed.

Lemma trap_to_s_kept h h' cause : kept h h' -> trap_to_s h' cause = trap_to_s h cause.
Proof. intros K. unfold trap_to_s. rewrite (k_priv _ _ K), (k_mideleg _ _ K), (k_medeleg _ _ K). reflexivity. Qed.

(** The address a trap reports: that of the refused second page when the
    trap is for a split access. *)
Definition reported (h : rv_hart) (cause tval : Z) : Z :=
  if h_split_valid h && negb (is_interrupt cause) && (tval =? h_split_req h) then h_split_at h else tval.

(** The hart that enters, what the trap reports, and the hart in the handler. *)
Lemma trap_shape h (m : M) cause tval h' m' :
  rv_hart_trap h m cause tval = (h', m') ->
  exists h1 t1 n, frame h h1 /\ at_rest h h1 /\
    (t1 = reported h cause tval \/ cause = RV_EXC_ILLEGAL_INSN /\ rv_is_32bit t1 = false) /\
    exists h2, ticked (trap_core h1 cause t1) h2 /\ h' = h2 <| h_trap_count := n |>.
Proof.
  unfold rv_hart_trap. destruct (take_split h cause tval) as [t0 h0] eqn:Es.
  assert (F0 : frame h h0 /\ at_rest h h0 /\ t0 = reported h cause tval).
  { unfold take_split in Es. unfold reported.
    destruct (h_split_valid h); injection Es as <- <-; (split; [by_frame|]; split; [repeat split|reflexivity]). }
  destruct (if cause =? RV_EXC_ILLEGAL_INSN then _ else _) as [[t1 h1] m1] eqn:Ei.
  assert (F1 : frame h0 h1 /\ at_rest h0 h1 /\ (t1 = t0 \/ cause = RV_EXC_ILLEGAL_INSN /\ rv_is_32bit t1 = false)).
  { destruct (Z.eqb_spec cause RV_EXC_ILLEGAL_INSN) as [Hc|Hn].
    - destruct (illegal_tval_frame _ _ _ _ _ _ Ei) as (A & B & [C|C]); auto.
    - injection Ei as <- <- <-. split; [by_frame|]. split; [apply at_rest_refl|auto]. }
  destruct F0 as (F0 & P0 & T0), F1 as (F1 & P1 & T1). cbv zeta. intros E. injection E as <- <-.
  set (x := (rv_mmu_refresh _) <| h_pc := _ |> <| h_resv_valid := false |>).
  assert (Ex : x = trap_core h1 cause t1) by (unfold x, trap_core; destruct (trap_to_s h1 cause); reflexivity).
  rewrite Ex. clearbody x. eexists h1, t1, _. split; [eapply frame_trans; eassumption|].
  split; [eapply at_rest_trans; eassumption|]. split; [rewrite <- T0; exact T1|].
  eexists. split; [apply note_ticked|reflexivity].
Qed.

(** ** What the handler finds *)

(** The bits of [mstatus] a trap into S or M writes. *)
Definition s_entry_bit (m priv n : Z) : bool :=
  if n =? 1 then false else if n =? 5 then Z.testbit m 1 else if n =? 8 then priv =? RV_PRIV_S else Z.testbit m n.
Definition m_entry_bit (m priv n : Z) : bool :=
  if n =? 3 then false else if n =? 7 then Z.testbit m 3
  else if (n =? 11) || (n =? 12) then Z.testbit priv (n - 11) else Z.testbit m n.

Lemma sie_bits : MSTATUS_SIE |! MSTATUS_SPIE |! MSTATUS_SPP = Z.lor (Z.lor (2 ^ 1) (2 ^ 5)) (2 ^ 8).
Proof. reflexivity. Qed.

Lemma mie_bits : MSTATUS_MIE |! MSTATUS_MPIE |! MSTATUS_MPP_MASK = Z.lor (Z.lor (2 ^ 3) (2 ^ 7)) (Z.lor (2 ^ 11) (2 ^ 12)).
Proof. reflexivity. Qed.

Lemma if_bit (b : bool) k n : 0 <= k -> Z.testbit (if b then 2 ^ k else 0) n = b && (k =? n).
Proof. intros Hk. destruct b; [apply Z.pow2_bits_eqb, Hk|apply Z.bits_0]. Qed.

(** Decide every [k =? n] the masks and the entry bits test. *)
Ltac bit_cases := repeat match goal with
  | |- context [?a =? ?b] => destruct (Z.eqb_spec a b); subst; try lia
  end; cbn [orb andb negb]; rewrite ?andb_true_r, ?andb_false_r, ?orb_false_r; try reflexivity; try lia.

Lemma enter_s_bits h cause tval n : 0 <= n ->
  Z.testbit (h_mstatus (enter_s h cause tval)) n = s_entry_bit (h_mstatus h) (h_priv h) n.
Proof.
  intros Hn. unfold enter_s, s_entry_bit. cbn [h_mstatus h_priv set_field set_mstatus set_priv set_stval set_scause set_sepc].
  rewrite sie_bits, bit_sie. change MSTATUS_SPIE with (2 ^ 5). change MSTATUS_SPP with (2 ^ 8).
  rewrite !Z.lor_spec, Z.ldiff_spec, !Z.lor_spec, !if_bit, !Z.pow2_bits_eqb by lia.
  destruct (h_priv h =? RV_PRIV_S); bit_cases.
Qed.

Lemma priv_bits p n : true_priv p -> 0 <= n ->
  Z.testbit (p <<! MSTATUS_MPP_SHIFT) n = ((n =? 11) || (n =? 12)) && Z.testbit p (n - 11).
Proof.
  intros Hp Hn. destruct Hp as [-> | [-> | ->]].
  - change (RV_PRIV_U <<! MSTATUS_MPP_SHIFT) with 0. rewrite !Z.bits_0. symmetry. apply andb_false_r.
  - change (RV_PRIV_S <<! MSTATUS_MPP_SHIFT) with (2 ^ 11). rewrite Z.pow2_bits_eqb by lia. unfold RV_PRIV_S. bit_cases.
  - change (RV_PRIV_M <<! MSTATUS_MPP_SHIFT) with (Z.lor (2 ^ 11) (2 ^ 12)). rewrite Z.lor_spec, !Z.pow2_bits_eqb by lia.
    unfold RV_PRIV_M. bit_cases.
Qed.

Lemma enter_m_bits h cause tval n : true_priv (h_priv h) -> 0 <= n ->
  Z.testbit (h_mstatus (enter_m h cause tval)) n = m_entry_bit (h_mstatus h) (h_priv h) n.
Proof.
  intros Hp Hn. unfold enter_m, m_entry_bit. cbn [h_mstatus h_priv set_field set_mstatus set_priv set_mtval set_mcause set_mepc].
  rewrite mie_bits, bit_mie. change MSTATUS_MPIE with (2 ^ 7).
  rewrite !Z.lor_spec, Z.ldiff_spec, !Z.lor_spec, !if_bit, !Z.pow2_bits_eqb, priv_bits by (assumption || lia).
  bit_cases; destruct (Z.testbit (h_mstatus h) _), (Z.testbit (h_priv h) _); reflexivity.
Qed.


Record s_entry (h : rv_hart) (cause tval : Z) (h' : rv_hart) : Prop := {
  se_priv : h_priv h' = RV_PRIV_S;
  se_bank : h_sepc h' = h_pc h /\ h_scause h' = cause /\ h_stval h' = tval;
  se_other : h_mepc h' = h_mepc h /\ h_mcause h' = h_mcause h /\ h_mtval h' = h_mtval h;
  se_status : forall n, 0 <= n -> Z.testbit (h_mstatus h') n = s_entry_bit (h_mstatus h) (h_priv h) n;
  se_pc : h_pc h' = trap_vector (h_stvec h) cause
}.

Record m_entry (h : rv_hart) (cause tval : Z) (h' : rv_hart) : Prop := {
  me_priv : h_priv h' = RV_PRIV_M;
  me_bank : h_mepc h' = h_pc h /\ h_mcause h' = cause /\ h_mtval h' = tval;
  me_other : h_sepc h' = h_sepc h /\ h_scause h' = h_scause h /\ h_stval h' = h_stval h;
  me_status : forall n, 0 <= n -> Z.testbit (h_mstatus h') n = m_entry_bit (h_mstatus h) (h_priv h) n;
  me_pc : h_pc h' = trap_vector (h_mtvec h) cause
}.

(** What a trap leaves alone. *)
Record trap_keeps (h h' : rv_hart) : Prop := {
  tk_regs : h_x h' = h_x h /\ h_f h' = h_f h /\ h_fcsr h' = h_fcsr h;
  tk_deleg : h_medeleg h' = h_medeleg h /\ h_mideleg h' = h_mideleg h;
  tk_tvec : h_mtvec h' = h_mtvec h /\ h_stvec h' = h_stvec h;
  tk_mie : h_mie h' = h_mie h;
  tk_mip : h_mip h' = h_mip h /\ h_irq_dirty h' = h_irq_dirty h
           \/ h_mip h' = h_mip h |! MIP_LCOFIP /\ h_irq_dirty h' = true;
  tk_satp : h_satp h' = h_satp h;
  tk_pmp : h_pmpcfg h' = h_pmpcfg h /\ h_pmpaddr h' = h_pmpaddr h;
  tk_count : h_mcycle h' = h_mcycle h /\ h_minstret h' = h_minstret h /\ h_mcountinhibit h' = h_mcountinhibit h
}.

Lemma core_keeps h cause t : trap_keeps h (trap_core h cause t).
Proof.
  unfold trap_core. destruct (trap_to_s h cause); split; try (left; split); repeat split.
Qed.

Lemma core_s h cause t : trap_to_s h cause = true -> s_entry h cause t (trap_core h cause t).
Proof.
  intros Hs. unfold trap_core. rewrite Hs. split; [reflexivity|repeat split|repeat split| |reflexivity].
  intros n Hn. apply (enter_s_bits h cause t n Hn).
Qed.

Lemma core_m h cause t : trap_to_s h cause = false -> true_priv (h_priv h) -> m_entry h cause t (trap_core h cause t).
Proof.
  intros Hs Hp. unfold trap_core. rewrite Hs. split; [reflexivity|repeat split|repeat split| |reflexivity].
  intros n Hn. apply (enter_m_bits h cause t n Hp Hn).
Qed.

Lemma trap_to_s_priv h cause : trap_to_s h cause = true -> h_priv h <= RV_PRIV_S.
Proof. unfold trap_to_s. destruct (Z.ltb_spec RV_PRIV_S (h_priv h)); [discriminate|lia]. Qed.

(** A trap leaves the flags right: MPRV is clear on entry to S, as it was below M. *)
Lemma core_inv h cause t : hart_inv h -> hart_inv (trap_core h cause t).
Proof.
  intros I. pose proof I as [[[H1 _ H3] _ _ _ H7] P _]. unfold trap_core.
  set (h1 := if trap_to_s h cause then enter_s h cause t else enter_m h cause t).
  assert (E : h_pmpaddr h1 = h_pmpaddr h /\ h_tdata1 h1 = h_tdata1 h /\ h_trig_active h1 = h_trig_active h)
    by (unfold h1; destruct (trap_to_s h cause); repeat split).
  destruct E as (E1 & E2 & E3).
  assert (R : hart_inv (rv_mmu_refresh (rv_pmp_refresh h1))).
  { apply refresh_inv.
    - intros Hm. unfold h1 in *. destruct (trap_to_s h cause) eqn:Hs; [|exfalso; apply Hm; reflexivity].
      rewrite bit_mprv, enter_s_bits by lia. change (Z.testbit (h_mstatus h) 17 = false). rewrite <- bit_mprv. apply H1.
      apply trap_to_s_priv in Hs. unfold RV_PRIV_M, RV_PRIV_S in *. lia.
    - unfold pmpaddr_ok. rewrite E1. exact H3.
    - unfold h1. destruct (trap_to_s h cause); [right; left|right; right]; reflexivity.
    - unfold trig_flag_ok. rewrite E2, E3. exact H7. }
  clearbody h1. refine (ctl_inv _ _ _ R). split; reflexivity.
Qed.


(** The counters and the statistics touch none of it. *)
Definition counted (h h' : rv_hart) : Prop := exists h2 n, ticked h h2 /\ h' = h2 <| h_trap_count := n |>.

Lemma counted_ctl h h' : counted h h' -> ctl_same h h'.
Proof.
  intros (h2 & n & [T _] & ->). split;
    [exact (f_equal h_priv T)|exact (f_equal h_satp T)|exact (f_equal h_pmpcfg T)|exact (f_equal h_pmpaddr T)
    |exact (f_equal h_pmp_active T)|exact (f_equal h_pmp_any T)|exact (f_equal h_vm_active T)|exact (f_equal h_trig_active T)
    |exact (f_equal h_tdata1 T)|exact (f_equal h_fetch_guard T)|exact (f_equal h_data_guard T)
    |exact (f_equal (fun h => has (h_mstatus h) MSTATUS_MPRV) T)|exact (f_equal (fun h => mpp (h_mstatus h)) T)].
Qed.

Lemma counted_fields h h' : counted h h' ->
  (h_pc h' = h_pc h /\ h_mstatus h' = h_mstatus h) /\
  (h_sepc h' = h_sepc h /\ h_scause h' = h_scause h /\ h_stval h' = h_stval h) /\
  (h_mepc h' = h_mepc h /\ h_mcause h' = h_mcause h /\ h_mtval h' = h_mtval h).
Proof.
  intros (h2 & n & [T _] & ->). split; [split|split; (split; [|split])];
    [exact (f_equal h_pc T)|exact (f_equal h_mstatus T)|exact (f_equal h_sepc T)|exact (f_equal h_scause T)
    |exact (f_equal h_stval T)|exact (f_equal h_mepc T)|exact (f_equal h_mcause T)|exact (f_equal h_mtval T)].
Qed.

Lemma counted_keeps h h' : counted h h' -> trap_keeps h h' /\ h_resv_valid h' = h_resv_valid h.
Proof.
  intros (h2 & n & [T D] & ->). split; [|exact (f_equal h_resv_valid T)]. split; repeat split;
    [exact (f_equal h_x T)|exact (f_equal h_f T)|exact (f_equal h_fcsr T)|exact (f_equal h_medeleg T)
    |exact (f_equal h_mideleg T)|exact (f_equal h_mtvec T)|exact (f_equal h_stvec T)|exact (f_equal h_mie T)
    | |exact (f_equal h_satp T)|exact (f_equal h_pmpcfg T)|exact (f_equal h_pmpaddr T)|exact (f_equal h_mcycle T)
    |exact (f_equal h_minstret T)|exact (f_equal h_mcountinhibit T)].
  destruct D as [D|[D1 D2]]; [left; exact D|right; split; [exact D2|exact D1]].
Qed.

Lemma rest_keeps h h' : frame h h' -> at_rest h h' -> trap_keeps h h'.
Proof.
  intros F (_ & Hx & Hf & Hc & _). pose proof (frame_kept h h' F) as []. split; try (left; split); repeat split; assumption.
Qed.

Lemma trap_keeps_trans h1 h2 h3 : trap_keeps h1 h2 -> trap_keeps h2 h3 -> trap_keeps h1 h3.
Proof.
  intros [A1 A2 A3 A4 A5 A6 A7 A8] [B1 B2 B3 B4 B5 B6 B7 B8]. split; try (clear A5 B5; intuition congruence).
  destruct A5 as [[A5 A5']|[A5 A5']], B5 as [[B5 B5']|[B5 B5']]; rewrite B5, ?B5', A5, ?A5', ?lor_twice; auto.
Qed.

(** A trap: the equation in the terms of the properties. *)
Lemma trap_cases h (m : M) cause tval h' m' :
  rv_hart_trap h m cause tval = (h', m') -> hart_inv h ->
  trap_keeps h h' /\ h_resv_valid h' = false /\ hart_inv h' /\
  exists t, (t = reported h cause tval \/ cause = RV_EXC_ILLEGAL_INSN /\ rv_is_32bit t = false) /\
    if trap_to_s h cause then s_entry h cause t h' else m_entry h cause t h'.
Proof.
  intros E I. destruct (trap_shape _ _ _ _ _ _ E) as (h1 & t & n & F & R & T & h2 & K & ->).
  assert (C : counted (trap_core h1 cause t) (h2 <| h_trap_count := n |>)) by (exists h2, n; auto). clear K E.
  generalize dependent (h2 <| h_trap_count := n |>). clear h2 n. intros h' C.
  pose proof (frame_kept h h1 F) as K. pose proof (frame_inv h h1 F I) as I1.
  destruct (counted_keeps _ _ C) as [CK CR].
  split; [eapply trap_keeps_trans; [apply rest_keeps; eassumption|]; eapply trap_keeps_trans; [apply core_keeps|exact CK]|].
  split; [rewrite CR; reflexivity|]. split; [apply (ctl_inv _ _ (counted_ctl _ _ C)), core_inv, I1|].
  exists t. split; [exact T|]. rewrite <- (trap_to_s_kept h h1 cause K).
  destruct (counted_fields _ _ C) as ((Cp & Cm) & (Cs1 & Cs2 & Cs3) & (Cm1 & Cm2 & Cm3)), R as (Rp & _ & _ & _ & Rm).
  destruct (trap_to_s h1 cause) eqn:Hs.
  - destruct (core_s h1 cause t Hs) as [S1 S2 S3 S4 S5].
    rewrite Rp in S2. rewrite (k_mepc _ _ K), (k_mcause _ _ K), (k_mtval _ _ K) in S3. rewrite Rm, (k_priv _ _ K) in S4.
    rewrite (k_stvec _ _ K) in S5. split; rewrite ?Cm, ?Cp, ?Cs1, ?Cs2, ?Cs3, ?Cm1, ?Cm2, ?Cm3; try assumption.
    rewrite (c_priv _ _ (counted_ctl _ _ C)). exact S1.
  - destruct (core_m h1 cause t Hs (hi_priv _ I1)) as [S1 S2 S3 S4 S5].
    rewrite Rp in S2. rewrite (k_sepc _ _ K), (k_scause _ _ K), (k_stval _ _ K) in S3. rewrite Rm, (k_priv _ _ K) in S4.
    rewrite (k_mtvec _ _ K) in S5. split; rewrite ?Cm, ?Cp, ?Cs1, ?Cs2, ?Cs3, ?Cm1, ?Cm2, ?Cm3; try assumption.
    rewrite (c_priv _ _ (counted_ctl _ _ C)). exact S1.
Qed.


(** ** The properties *)

(** Delegated: raised below M, with its bit set in the register for its kind. *)
Definition delegated (h : rv_hart) (cause : Z) : Prop :=
  h_priv h <= RV_PRIV_S /\ cause_code cause < 32 /\
  Z.testbit (if is_interrupt cause then h_mideleg h else h_medeleg h) (cause_code cause) = true.

Lemma cause_code_pos cause : 0 <= cause -> 0 <= cause_code cause.
Proof. intros H. apply Z.ldiff_nonneg. auto. Qed.

Lemma shift_bit v n : 0 <= n -> negb (Z.shiftr v n &! 1 =? 0) = Z.testbit v n.
Proof.
  intros Hn. change 1 with (2 ^ 0) at 1. change (negb (?x &! 2 ^ 0 =? 0)) with (has x (2 ^ 0)).
  rewrite has_bit by lia. apply Z.shiftr_spec. lia.
Qed.

Lemma trap_to_s_spec h cause : 0 <= cause -> (trap_to_s h cause = true <-> delegated h cause).
Proof.
  intros Hc. unfold trap_to_s, delegated. rewrite shift_bit by (apply cause_code_pos, Hc).
  destruct (Z.ltb_spec RV_PRIV_S (h_priv h)); [split; [discriminate|lia]|].
  rewrite andb_true_iff, Z.ltb_lt. intuition.
Qed.

Lemma ldiff_disjoint a b : Z.land (Z.ldiff a b) b = 0.
Proof. apply Z.bits_inj'. intros i Hi. rewrite Z.land_spec, Z.ldiff_spec, Z.bits_0. destruct (Z.testbit a i), (Z.testbit b i); reflexivity. Qed.

(** [C28] Trap entry.  A cause delegated to S -- raised below M with its bit
    set in [medeleg] or [mideleg] -- enters S with the supervisor bank, the
    SIE/SPIE/SPP stack and [stvec]; every other cause enters M with the
    machine bank, the MIE/MPIE/MPP stack and [mtvec]; the bank of the other
    level is untouched.  In the handler the interrupts of its level are
    masked, and in M no trigger fires.  The registers, the delegation, the
    counters, PMP and [satp] are kept, the reservation is dropped, the flags
    are right again, and the address reported is that of the refused second
    page of a split access. *)
Theorem trap_entry h (m : M) cause tval h' m' :
  rv_hart_trap h m cause tval = (h', m') -> hart_inv h -> 0 <= cause ->
  trap_keeps h h' /\ h_resv_valid h' = false /\ hart_inv h' /\
  exists t, (t = reported h cause tval \/ cause = RV_EXC_ILLEGAL_INSN /\ rv_is_32bit t = false) /\
    (delegated h cause -> s_entry h cause t h' /\ Z.land (irq_active h') (h_mideleg h') = 0) /\
    (~ delegated h cause ->
       m_entry h cause t h' /\ rv_hart_pending_irq h' = RV_EXC_NONE /\ forall a acc, rv_trig_check h' a acc = false).
Proof.
  intros E I Hc. destruct (trap_cases _ _ _ _ _ _ E I) as (K & R & I' & t & T & C).
  split; [exact K|]. split; [exact R|]. split; [exact I'|]. exists t. split; [exact T|].
  rewrite <- (trap_to_s_spec h cause Hc). destruct (trap_to_s h cause); (split; [intros Hd|intros Hd]); try congruence.
  - split; [exact C|]. unfold irq_active. rewrite (se_priv _ _ _ _ C), bit_sie, (se_status _ _ _ _ C) by lia.
    change (s_entry_bit _ _ 1) with false. apply ldiff_disjoint.
  - assert (Hm : has (h_mstatus h') MSTATUS_MIE = false) by (rewrite bit_mie, (me_status _ _ _ _ C) by lia; reflexivity).
    pose proof (me_priv _ _ _ _ C) as Hp. split; [exact C|]. split.
    + unfold rv_hart_pending_irq. rewrite Hp, Hm. destruct (_ =? 0); reflexivity.
    + intros a acc. apply trig_check_masked. auto.
Qed.


(** ** Return *)

(** The bits of [mstatus] SRET and MRET leave. *)
Definition s_return_bit (m n : Z) : bool :=
  if n =? 1 then Z.testbit m 5 else if n =? 5 then true else if (n =? 8) || (n =? 17) then false else Z.testbit m n.
Definition m_return_bit (m n : Z) : bool :=
  if n =? 3 then Z.testbit m 7 else if n =? 7 then true else if (n =? 11) || (n =? 12) then false
  else if n =? 17 then Z.testbit m 17 && (mret_to (mpp m) =? RV_PRIV_M) else Z.testbit m n.

Lemma do_sret_bits h n : 0 <= n -> Z.testbit (h_mstatus (do_sret h)) n = s_return_bit (h_mstatus h) n.
Proof.
  intros Hn. unfold s_return_bit. set (m := h_mstatus h).
  change (h_mstatus (do_sret h)) with
    (Z.lor (Z.lor (Z.ldiff m (Z.lor (Z.lor (Z.lor (2 ^ 1) (2 ^ 5)) (2 ^ 8)) (2 ^ 17))) (if has m MSTATUS_SPIE then 2 ^ 1 else 0)) (2 ^ 5)).
  rewrite bit_spie, !Z.lor_spec, Z.ldiff_spec, !Z.lor_spec, !if_bit, !Z.pow2_bits_eqb by lia.
  bit_cases.
Qed.

Lemma do_mret_bits h n : 0 <= n -> Z.testbit (h_mstatus (do_mret h)) n = m_return_bit (h_mstatus h) n.
Proof.
  intros Hn. unfold m_return_bit. set (m := h_mstatus h).
  change (h_mstatus (do_mret h)) with
    (Z.lor (Z.lor (Z.lor (Z.ldiff m (Z.lor (Z.lor (Z.lor (2 ^ 3) (2 ^ 7)) (Z.lor (2 ^ 11) (2 ^ 12)))
                                    (if negb (mret_to (mpp m) =? RV_PRIV_M) then 2 ^ 17 else 0)))
                         (if has m MSTATUS_MPIE then 2 ^ 3 else 0)) (2 ^ 7)) 0).
  rewrite bit_mpie, Z.lor_0_r, !Z.lor_spec, Z.ldiff_spec, !Z.lor_spec, !if_bit, !Z.pow2_bits_eqb by lia.
  destruct (mret_to (mpp m) =? RV_PRIV_M); bit_cases.
Qed.


Lemma mret_to_priv p : true_priv (mret_to p).
Proof. unfold mret_to, true_priv. repeat destruct (_ =? _); auto. Qed.

Lemma mret_to_id p : true_priv p -> mret_to p = p.
Proof. intros [-> | [-> | ->]]; reflexivity. Qed.

Lemma sret_inv h : hart_inv h -> hart_inv (do_sret h).
Proof.
  intros [[[H1 _ H3] H4 H5 H6 H7] P F]. pose proof (do_sret_bits h) as B. unfold do_sret in *.
  set (h1 := h <| h_mstatus := _ |> <| h_priv := _ |>) in *. refine (ctl_inv (rv_mmu_refresh (rv_pmp_refresh h1)) _ _ _).
  { split; reflexivity. }
  apply refresh_inv; [|exact H3| |exact H7].
  - intros _. rewrite bit_mprv. apply (B 17). lia.
  - change (true_priv (if has (h_mstatus h) MSTATUS_SPP then RV_PRIV_S else RV_PRIV_U)).
    destruct (has (h_mstatus h) MSTATUS_SPP); [right; left|left]; reflexivity.
Qed.

Lemma mret_inv h : hart_inv h -> hart_inv (do_mret h).
Proof.
  intros [[[H1 _ H3] H4 H5 H6 H7] P F]. pose proof (do_mret_bits h) as B. unfold do_mret in *.
  set (h1 := h <| h_mstatus := _ |> <| h_priv := _ |>) in *. refine (ctl_inv (rv_mmu_refresh (rv_pmp_refresh h1)) _ _ _).
  { split; reflexivity. }
  apply refresh_inv; [|exact H3|apply mret_to_priv|exact H7].
  intros Hp. change (h_priv h1) with (mret_to (mpp (h_mstatus h))) in Hp. rewrite bit_mprv.
  transitivity (m_return_bit (h_mstatus h) 17); [apply (B 17); lia|].
  unfold m_return_bit. cbn [Z.eqb orb]. rewrite (proj2 (Z.eqb_neq _ _) Hp). apply andb_false_r.
Qed.


(** Where a return goes, and with which bits: what a trap pushed. *)
Lemma sret_undoes h cause t h' : h_priv h <= RV_PRIV_S -> true_priv (h_priv h) ->
  has (h_mstatus h) MSTATUS_MPRV = false -> s_entry h cause t h' ->
  h_priv (do_sret h') = h_priv h /\
  forall n, 0 <= n -> n <> 5 -> n <> 8 -> Z.testbit (h_mstatus (do_sret h')) n = Z.testbit (h_mstatus h) n.
Proof.
  intros Hs Hp Hm [_ _ _ B _]. rewrite bit_mprv in Hm. split.
  - change (h_priv (do_sret h')) with (if has (h_mstatus h') MSTATUS_SPP then RV_PRIV_S else RV_PRIV_U).
    rewrite bit_spp, B by lia. change (s_entry_bit _ _ 8) with (h_priv h =? RV_PRIV_S).
    destruct Hp as [-> | [-> | Hp]]; [reflexivity..|]. rewrite Hp in Hs. unfold RV_PRIV_M, RV_PRIV_S in Hs. lia.
  - intros n Hn N5 N8. rewrite do_sret_bits by lia. unfold s_return_bit. rewrite !B by lia. unfold s_entry_bit.
    bit_cases. symmetry. exact Hm.
Qed.

Lemma mret_undoes h cause t h' : true_priv (h_priv h) -> mprv_ok h -> m_entry h cause t h' ->
  h_priv (do_mret h') = h_priv h /\
  forall n, 0 <= n -> n <> 7 -> n <> 11 -> n <> 12 -> Z.testbit (h_mstatus (do_mret h')) n = Z.testbit (h_mstatus h) n.
Proof.
  intros Hp Hm [_ _ _ B _].
  assert (E : mpp (h_mstatus h') = h_priv h).
  { rewrite mpp_bits, !B by lia. change (m_entry_bit _ _ 11) with (Z.testbit (h_priv h) 0).
    change (m_entry_bit _ _ 12) with (Z.testbit (h_priv h) 1). destruct Hp as [-> | [-> | ->]]; reflexivity. }
  split.
  - change (h_priv (do_mret h')) with (mret_to (mpp (h_mstatus h'))). rewrite E. apply mret_to_id, Hp.
  - intros n Hn N7 N11 N12. rewrite do_mret_bits by lia. unfold m_return_bit. rewrite !B, E, mret_to_id by (lia || exact Hp).
    unfold m_entry_bit. destruct (Z.eqb_spec n 17) as [->|N17]; [|bit_cases]. cbn [Z.eqb orb].
    destruct (Z.eqb_spec (h_priv h) RV_PRIV_M); [apply andb_true_r|]. rewrite andb_false_r. symmetry.
    rewrite <- bit_mprv. apply Hm. assumption.
Qed.


(** The bits a trap and its return lose: the stack above the restored enable. *)
Definition stack_bit (to_s : bool) (n : Z) : Prop := if to_s then n = 5 \/ n = 8 else n = 7 \/ n = 11 \/ n = 12.

Lemma low_data_priv h : mprv_ok h -> h_priv h <> RV_PRIV_M -> rv_hart_data_priv h = h_priv h.
Proof. intros Hm Hp. unfold rv_hart_data_priv. rewrite (Hm Hp). reflexivity. Qed.

(** [C29] A return undoes the trap: SRET from the supervisor handler, MRET from
    the machine's.  The return address is the instruction that trapped, the
    privilege and the integer registers are what they were, SIE and MIE are
    restored with every other bit of [mstatus] outside the pushed stack, an
    interrupt that waited is looked for again, and the flags are right; below
    M, data accesses are checked and translated as before the trap. *)
Theorem trap_return h (m : M) cause tval h' m' :
  rv_hart_trap h m cause tval = (h', m') -> hart_inv h ->
  let to_s := trap_to_s h cause in
  let r := if to_s then do_sret h' else do_mret h' in
  h_priv r = h_priv h /\ (if to_s then h_sepc r else h_mepc r) = h_pc h /\ h_x r = h_x h /\
  (forall n, 0 <= n -> ~ stack_bit to_s n -> Z.testbit (h_mstatus r) n = Z.testbit (h_mstatus h) n) /\
  h_irq_dirty r = true /\ hart_inv r /\
  (h_priv h <> RV_PRIV_M -> rv_hart_data_priv r = rv_hart_data_priv h /\ h_vm_active r = h_vm_active h).
Proof.
  intros E I. destruct (trap_cases _ _ _ _ _ _ E I) as (K & _ & I' & t & _ & C). cbv zeta.
  destruct (tk_regs _ _ K) as [Kx _]. pose proof (tk_satp _ _ K) as Ks. pose proof (hi_priv _ I) as P.
  pose proof (ok_mprv _ (ao_hart _ (hi_access _ I))) as Hm. set (r := if trap_to_s h cause then _ else _).
  assert (R : h_priv r = h_priv h /\ (if trap_to_s h cause then h_sepc r else h_mepc r) = h_pc h /\
    (forall n, 0 <= n -> ~ stack_bit (trap_to_s h cause) n -> Z.testbit (h_mstatus r) n = Z.testbit (h_mstatus h) n) /\
    hart_inv r /\ h_x r = h_x h' /\ h_satp r = h_satp h' /\ h_irq_dirty r = true).
  { unfold r. destruct (trap_to_s h cause) eqn:Hs.
    - apply trap_to_s_priv in Hs. destruct (sret_undoes h cause t h' Hs P) as [R1 R2]; [|exact C|].
      { apply Hm. unfold RV_PRIV_M, RV_PRIV_S in *. lia. }
      split; [exact R1|]. split; [exact (proj1 (se_bank _ _ _ _ C))|]. split; [|split; [apply sret_inv, I'|repeat split]].
      intros n Hn Hb. unfold stack_bit in Hb. apply R2; lia.
    - destruct (mret_undoes h cause t h' P Hm C) as [R1 R2].
      split; [exact R1|]. split; [exact (proj1 (me_bank _ _ _ _ C))|]. split; [|split; [apply mret_inv, I'|repeat split]].
      intros n Hn Hb. unfold stack_bit in Hb. apply R2; lia. }
  destruct R as (R1 & R2 & R3 & R4 & R5 & R6 & R7). clearbody r. repeat (split; [solve [assumption | congruence]|]).
  pose proof (ok_mprv _ (ao_hart _ (hi_access _ R4))) as Hr. intros Hp.
  assert (D : rv_hart_data_priv r = rv_hart_data_priv h) by (rewrite !low_data_priv; solve [assumption | congruence]). split; [exact D|].
  rewrite (ao_vm _ (hi_access _ R4)), (ao_vm _ (hi_access _ I)), D, R1, R6, Ks. reflexivity.
Qed.

End Trap.
