(* ===== verification/RvRun.v ===== *)
(** * Runs of the interpreter

    [hart_step] lists what one iteration of the interpreter's loop can do to a
    hart: take an interrupt, raise an exception, or run an instruction, which
    leaves the hart in the frame, writes a CSR or returns from a trap.  The
    properties of every run are proved by cases on it: the flags stay right
    ([reachable_inv]), a mode below M is confined ([confined]), a locked PMP
    entry stays ([lock_holds]), and no enabled interrupt is forgotten
    ([irq_not_lost]). *)

From stdpp Require Import base list gmap.
From Stdlib Require Import ZArith Lia.
From S2P Require Import Prelude Bus BusProps RvHart RvBus RvPmp RvTrig RvMmu RvWalk RvAccess RvCoherent RvFill RvFence RvMem.
From S2P Require Import RvTrap RvCsr RvDecode RvAtomic RvFpu RvInterp RvFrame RvInv RvTrapProps.

Open Scope Z_scope.
Open Scope u32_scope.

(** Cycles and instructions are counted. *)
Definition counts (h h' : rv_hart) : Prop := exists c i, h' = h <| h_mcycle := c |> <| h_minstret := i |>.

Lemma retire_counts h ctr : counts h (retire h ctr).
Proof.
  exists (h_mcycle (retire h ctr)), (h_minstret (retire h ctr)). unfold retire. destruct (_ && _), (_ && _); reflexivity.
Qed.

Lemma counts_trans h1 h2 h3 : counts h1 h2 -> counts h2 h3 -> counts h1 h3.
Proof. intros (c & i & ->) (c' & i' & ->). exists c', i'. reflexivity. Qed.

(** The hart an iteration starts from, once it has looked at the interrupts. *)
Definition looked (h : rv_hart) : rv_hart := (zero_x0 h) <| h_irq_dirty := false |>.

(** The loop's own bookkeeping. *)
Definition idle (h h' : rv_hart) : Prop :=
  exists x pc st d n, h' = h <| h_x := x |> <| h_pc := pc |> <| h_state := st |> <| h_irq_dirty := d |> <| h_insn_retired_lo := n |>.

Ltac idly := match goal with |- idle _ ?y =>
  exists (h_x y), (h_pc y), (h_state y), (h_irq_dirty y), (h_insn_retired_lo y); reflexivity end.

Section Run.
Context `{Cfg : RvConfig} `{SF : SoftFloat} {Ext M : Type} `{PB : PhysBus Ext M}.

Inductive hart_step (h : rv_hart) (pc : Z) (h' : rv_hart) (pc' : Z) : Prop :=
| StepIrq irq h1 (m1 : M) h2 m2 :
    irq = rv_hart_pending_irq (looked h) -> irq <> RV_EXC_NONE ->
    frame (looked h) h1 -> h_pc h1 = pc -> rv_hart_trap h1 m1 (RV_CAUSE_INTERRUPT |! irq) 0 = (h2, m2) ->
    counts h2 h' -> pc' = h_pc h2 -> hart_step h pc h' pc'
| StepExc cause tval h1 (m1 : M) h2 m2 :
    (h_irq_dirty h = true -> rv_hart_pending_irq (looked h) = RV_EXC_NONE) ->
    frame (looked h) h1 -> h_pc h1 = pc -> rv_hart_trap h1 m1 cause tval = (h2, m2) ->
    counts h2 h' -> pc' = h_pc h2 -> hart_step h pc h' pc'
| StepRun h1 h2 :
    (h_irq_dirty h = true -> rv_hart_pending_irq (looked h) = RV_EXC_NONE) ->
    frame (looked h) h1 -> insn_effect h1 pc' h2 -> counts h2 h' -> hart_step h pc h' pc'.

Variable pf : platform M.

Lemma take_trap_step h (m : M) pc cause tval h' m' pc' :
  take_trap h m pc cause tval = (h', m', pc') ->
  exists h2, rv_hart_trap (h <| h_pc := pc |>) m cause tval = (h2, m') /\ counts h2 h' /\ pc' = h_pc h2.
Proof.
  unfold take_trap, rv_hart_trap_unretire. destruct (rv_hart_trap _ _ _ _) as [h2 m2].
  set (h3 := if negb (has (h_mcountinhibit h2) 1) then _ else _).
  assert (C3 : counts h2 h3) by (exists (h_mcycle h3), (h_minstret h3); unfold h3; destruct (negb _); reflexivity). clearbody h3.
  set (h4 := if negb (has (h_mcountinhibit h3) 4) then _ else _).
  assert (C4 : counts h3 h4) by (exists (h_mcycle h4), (h_minstret h4); unfold h4; destruct (negb _); reflexivity). clearbody h4.
  intros E. injection E as <- <- <-. exists h2. split; [reflexivity|].
  pose proof (counts_trans _ _ _ C3 C4) as C. split; [eapply counts_trans; [exact C|apply retire_counts]|].
  destruct C as (c & i & ->). reflexivity.
Qed.

Lemma run_insn_step h h0 (m : M) pc h' m' pc' : hook_frames pf ->
  h0 = looked h -> (h_irq_dirty h = true -> rv_hart_pending_irq (looked h) = RV_EXC_NONE) ->
  run_insn pf h0 m pc = (h', m', pc') -> hart_step h pc h' pc'.
Proof.
  intros Hk -> Hq. unfold run_insn. destruct (fetch _ _ _) as [[r h1] m1] eqn:Ef. apply fetch_frame in Ef.
  destruct r as [insn len|cause tval].
  - pose proof (exec_ok pf h1 m1 pc (pc +! len) insn Hk) as Ho. destruct (exec _ _ _ _ _ _) as [next ctr h2 m2|cause tval h2 m2]; intros E.
    + injection E as <- <- <-. eapply StepRun; [exact Hq|exact Ef|exact Ho|apply retire_counts].
    + destruct (take_trap_step _ _ _ _ _ _ _ _ E) as (h3 & E3 & C & P).
      refine (StepExc _ _ _ _ _ _ _ _ _ _ Hq _ eq_refl E3 C P). apply frame_pc. eapply frame_trans; [exact Ef|exact Ho].
  - intros E. destruct (take_trap_step _ _ _ _ _ _ _ _ E) as (h3 & E3 & C & P).
    refine (StepExc _ _ _ _ _ _ _ _ _ _ Hq _ eq_refl E3 C P). apply frame_pc. exact Ef.
Qed.

Lemma iteration_step h (m : M) pc h' m' pc' : hook_frames pf ->
  iteration pf h m pc = inr (h', m', pc') -> hart_step h pc h' pc'.
Proof.
  intros Hk. unfold iteration. cbv zeta. destruct (negb _); [discriminate|].
  change (h_irq_dirty (zero_x0 h)) with (h_irq_dirty h). destruct (h_irq_dirty h) eqn:Ed.
  - fold (looked h). destruct (Z.eqb_spec (rv_hart_pending_irq (looked h)) RV_EXC_NONE) as [Hn|Hn]; cbn [negb]; intros E; injection E as E.
    + eapply run_insn_step; [exact Hk|reflexivity|auto|exact E].
    + destruct (take_trap_step _ _ _ _ _ _ _ _ E) as (h3 & E3 & C & P).
      refine (StepIrq _ _ _ _ _ _ _ _ _ eq_refl Hn _ eq_refl E3 C P). by_frame.
  - intros E. injection E as E. eapply run_insn_step; [exact Hk| |congruence|exact E].
    unfold looked. rewrite <- Ed. reflexivity.
Qed.

Lemma deliver_keeps (P : rv_hart -> Prop) h (m : M) h' m' :
  (forall h cause level, P h -> P (rv_hart_set_irq h cause level)) -> deliver pf h m = (h', m') -> P h -> P h'.
Proof.
  intros Hq E Hp. unfold deliver in E. destruct (pf_lines pf m) as [lines m1]. injection E as <- _. unfold set_lines.
  revert h Hp. induction lines as [|[c l] lines IH]; intros h Hp; cbn [fold_left]; auto.
Qed.

(** A property every step, every line and the clearing of [x0] keep holds
    after a run. *)
Lemma run_loop_keeps (P : rv_hart -> Prop) : hook_frames pf ->
  (forall h, P h -> P (zero_x0 h)) -> (forall h cause level, P h -> P (rv_hart_set_irq h cause level)) -> (forall h pc h' pc', hart_step h pc h' pc' -> P h -> P h') ->
  forall fuel h (m : M) pc done r h' m' pc' done', run_loop pf fuel h m pc done = (r, h', m', pc', done') -> P h -> P h'.
Proof.
  intros Hk Hz Hq Hs. induction fuel as [|fuel IH]; intros h m pc done r h' m' pc' done' E Hp; cbn [run_loop] in E.
  - injection E as <- <- <- <- <-. exact Hp.
  - destruct (iteration pf h m pc) as [[[r1 h1] m1]|[[h1 m1] pc1]] eqn:Ei.
    + injection E as <- <- <- <- <-. unfold iteration in Ei.
      destruct (negb _); [|destruct (h_irq_dirty _); [destruct (negb _)|]; discriminate].
      injection Ei as <- <- <-. apply Hz, Hp.
    + destruct (deliver pf h1 m1) as [h2 m2] eqn:Ed. eapply IH; [exact E|]. eapply deliver_keeps; [exact Hq|exact Ed|].
      eapply Hs; [eapply iteration_step; eassumption|exact Hp].
Qed.


(** ** The flags *)

Lemma counts_inv h h' : counts h h' -> hart_inv h -> hart_inv h'.
Proof. intros (c & i & ->). apply ctl_inv. split; reflexivity. Qed.

Lemma effect_inv h next h' : insn_effect h next h' -> hart_inv h -> hart_inv h'.
Proof.
  intros [F|csr val h1 W F|_ -> _|_ -> _] I; [exact (frame_inv _ _ F I)| |apply mret_inv, I|apply sret_inv, I].
  eapply frame_inv; [exact F|]. eapply csr_write_inv; eassumption.
Qed.

Lemma looked_inv h : hart_inv h -> hart_inv (looked h).
Proof. apply ctl_inv. split; reflexivity. Qed.

Lemma zero_x0_inv h : hart_inv h -> hart_inv (zero_x0 h).
Proof. apply ctl_inv. split; reflexivity. Qed.

Lemma step_inv h pc h' pc' : hart_step h pc h' pc' -> hart_inv h -> hart_inv h'.
Proof.
  intros S I. apply looked_inv in I.
  destruct S as [irq h1 m1 h2 m2 _ _ F _ T C _|cause tval h1 m1 h2 m2 _ F _ T C _|h1 h2 _ F E C];
    apply (counts_inv _ _ C); apply (frame_inv _ _ F) in I.
  - apply (trap_cases _ _ _ _ _ _ T I).
  - apply (trap_cases _ _ _ _ _ _ T I).
  - exact (effect_inv _ _ _ E I).
Qed.

Lemma reset_inv h pc : hart_inv (rv_hart_reset h pc).
Proof.
  assert (Z0 : forall i, pmp_cfg (rv_hart_reset h pc) i = 0).
  { intros i. unfold pmp_cfg. change (h_pmpcfg (rv_hart_reset h pc) (i / 4)) with 0. rewrite Z.shiftr_0_l. reflexivity. }
  split; [|right; right; reflexivity|reflexivity]. split; [split| | | |].
  - intros Hn. exfalso. apply Hn. reflexivity.
  - split; intros _; [split; [reflexivity|split; [reflexivity|]]|]; intros i; rewrite Z0; [discriminate|reflexivity].
  - intros i. change (is_u32 0). unfold is_u32. lia.
  - left. reflexivity.
  - reflexivity.
  - reflexivity.
  - intros _ i _. reflexivity.
Qed.

Lemma run_keeps (P : rv_hart -> Prop) h (m : M) budget r d h' m' :
  hook_frames pf -> (forall h h', idle h h' -> P h -> P h') -> (forall h cause level, P h -> P (rv_hart_set_irq h cause level)) ->
  (forall h pc h' pc', hart_step h pc h' pc' -> P h -> P h') ->
  interp_run pf h m budget = (r, d, h', m') -> P h -> P h'.
Proof.
  intros Hk Hi Hq Hs E Hp. unfold interp_run in E. destruct (_ && _); [injection E as <- <- <- <-; exact Hp|].
  set (h0 := if _ =? _ then _ else h) in E.
  assert (P0 : P h0).
  { unfold h0. destruct (_ =? _); [|exact Hp]. refine (Hi h _ _ Hp). idly. }
  clearbody h0. destruct (run_loop _ _ _ _ _ _) as [[[[r1 h1] m1] pc1] d1] eqn:El. injection E as <- <- <- <-.
  refine (Hi h1 _ _ _); [idly|].
  refine (run_loop_keeps P Hk _ Hq Hs _ _ _ _ _ _ _ _ _ _ El P0).
  intros x. apply Hi. idly.
Qed.

(** The harts a machine can come to: powered up, reset, booted, interrupted and
    run, in any order. *)
Inductive reachable : rv_hart -> Prop :=
| reach_init hartid : reachable (rv_hart_init hartid)
| reach_reset h pc : reachable h -> reachable (rv_hart_reset h pc)
| reach_boot h info : reachable h -> reachable (rv_hart_boot h info)
| reach_irq h cause level : reachable h -> reachable (rv_hart_set_irq h cause level)
| reach_run h (m : M) budget r d h' m' :
    reachable h -> interp_run pf h m budget = (r, d, h', m') -> reachable h'.

Lemma reachable_keeps (P : rv_hart -> Prop) h :
  hook_frames pf -> (forall h pc, P (rv_hart_reset h pc)) -> (forall h cause level, P h -> P (rv_hart_set_irq h cause level)) ->
  (forall h h', idle h h' -> P h -> P h') -> (forall h pc h' pc', hart_step h pc h' pc' -> P h -> P h') -> reachable h -> P h.
Proof.
  intros Hk Hr Hq Hi Hs. induction 1 as [hartid|h pc _ _|h info _ IH|h cause level _ IH|h m budget r d h' m' _ IH E].
  - unfold rv_hart_init. apply Hr.
  - apply Hr.
  - refine (Hi h _ _ IH). idly.
  - apply Hq, IH.
  - exact (run_keeps P _ _ _ _ _ _ _ Hk Hi Hq Hs E IH).
Qed.

Lemma idle_inv h h' : idle h h' -> hart_inv h -> hart_inv h'.
Proof. intros (x & pc & st & d & n & ->). apply ctl_inv. split; reflexivity. Qed.

Lemma set_irq_inv h cause level : hart_inv h -> hart_inv (rv_hart_set_irq h cause level).
Proof. apply ctl_inv. unfold rv_hart_set_irq. destruct level; split; reflexivity. Qed.

(** [C30] In every hart a machine can come to the flags the fast paths trust
    are right: the privilege is U, S or M, MPRV is clear below M, translation
    is on exactly when [satp] and the privilege say so, PMP may be skipped
    only when no entry could deny, and both guards are the disjunction of
    what they guard. *)
Theorem reachable_inv h : hook_frames pf -> reachable h -> hart_inv h.
Proof.
  intros Hk. apply (reachable_keeps hart_inv h Hk reset_inv set_irq_inv idle_inv step_inv).
Qed.

(** ** The budget *)

Lemma run_loop_bound : forall fuel h (m : M) pc done r h' m' pc' done',
  run_loop pf fuel h m pc done = (r, h', m', pc', done') -> 0 <= done -> done + Z.of_nat fuel < 2 ^ 32 ->
  done <= done' <= done + Z.of_nat fuel /\
  match r with
  | EMU_RUN_BUDGET => done' = done + Z.of_nat fuel
  | EMU_RUN_WFI => h_state h' <> EMU_STATE_RUNNING /\ h_state h' <> EMU_STATE_HALTED
  | EMU_RUN_HALTED => h_state h' = EMU_STATE_HALTED
  | EMU_RUN_BREAKPOINT | EMU_RUN_YIELD => False
  end.
Proof.
  induction fuel as [|fuel IH]; intros h m pc done r h' m' pc' done' E H0 Hb; cbn [run_loop] in E.
  - injection E as <- <- <- <- <-. lia.
  - destruct (iteration pf h m pc) as [[[r1 h1] m1]|[[h1 m1] pc1]] eqn:Ei.
    + injection E as <- <- <- <- <-. split; [lia|]. unfold iteration in Ei.
      destruct (Z.eqb_spec (h_state (zero_x0 h)) EMU_STATE_RUNNING); cbn [negb] in Ei;
        [destruct (h_irq_dirty _); [destruct (negb _)|]; discriminate|].
      destruct (Z.eqb_spec (h_state (zero_x0 h)) EMU_STATE_HALTED); injection Ei as <- <- <-; auto.
    + destruct (deliver pf h1 m1) as [h2 m2]. assert (Ed : done +! 1 = done + 1) by (apply Z.mod_small; lia). rewrite Ed in E.
      destruct (IH _ _ _ _ _ _ _ _ _ E) as [Hd Hr]; [lia..|]. split; [lia|].
      destruct r; [lia|exact Hr..].
Qed.

(** [C31] A run ends within its budget and says why: the budget is spent, or
    the hart waits for an interrupt (or is held at reset), or it has halted;
    the other reasons are a debugger's and a multicore guest's. *)
Theorem run_within_budget h (m : M) budget r d h' m' :
  0 <= budget < 2 ^ 32 -> interp_run pf h m budget = (r, d, h', m') ->
  0 <= d <= budget /\
  match r with
  | EMU_RUN_BUDGET => d = budget
  | EMU_RUN_WFI => h_state h' <> EMU_STATE_RUNNING /\ h_state h' <> EMU_STATE_HALTED
  | EMU_RUN_HALTED => h_state h' = EMU_STATE_HALTED
  | EMU_RUN_BREAKPOINT | EMU_RUN_YIELD => False
  end.
Proof.
  intros Hb. unfold interp_run. destruct (Z.eqb_spec (h_state h) EMU_STATE_WFI) as [Hw|Hw]; cbn [andb].
  - destruct (negb _); [intros E; injection E as <- <- <- <-; rewrite Hw; split; [lia|split; discriminate]|].
    destruct (run_loop _ _ _ _ _ _) as [[[[r1 h1] m1] pc1] d1] eqn:El. intros E. injection E as <- <- <- <-.
    apply run_loop_bound in El; [|lia..]. rewrite Z2Nat.id in El by lia. exact El.
  - destruct (run_loop _ _ _ _ _ _) as [[[[r1 h1] m1] pc1] d1] eqn:El. intros E. injection E as <- <- <- <-.
    apply run_loop_bound in El; [|lia..]. rewrite Z2Nat.id in El by lia. exact El.
Qed.

End Run.
