(* ===== verification/RvConfine.v ===== *)
(** * Confinement

    What a CSR write may not do, whatever the number and the value, and hence
    what no run can do: change a locked PMP entry, or reach the machine's
    registers from a mode below M. *)

From stdpp Require Import base list gmap.
From Stdlib Require Import ZArith Lia.
From S2P Require Import Prelude Bus BusProps RvHart RvBus RvPmp RvTrig RvMmu RvWalk RvAccess RvCoherent RvFill RvFence RvMem.
From S2P Require Import RvTrap RvCsr RvDecode RvAtomic RvFpu RvInterp RvFrame RvInv RvTrapProps RvRun.

Open Scope Z_scope.
Open Scope u32_scope.

(** ** Locked PMP entries *)

Definition cfg_byte (cfg j : Z) : Z := Z.shiftr cfg (j * 8) &! 255.

Lemma cfg_byte_bit cfg j k : 0 <= j -> 0 <= k -> Z.testbit (cfg_byte cfg j) k = (k <? 8) && Z.testbit cfg (j * 8 + k).
Proof.
  intros Hj Hk. unfold cfg_byte. change 255 with (Z.ones 8). rewrite Z.land_spec, Z.shiftr_spec by lia.
  rewrite (Z.add_comm k). destruct (Z.ltb_spec k 8).
  - rewrite Z.ones_spec_low by lia. rewrite andb_true_r. reflexivity.
  - rewrite Z.ones_spec_high by lia. apply andb_false_r.
Qed.

Lemma shl_bit v n k : 0 <= n < 32 -> 0 <= k -> Z.testbit (v <<! n) k = (k <? 32) && Z.testbit v (k - n).
Proof.
  intros Hn Hk. change (Z.testbit (Z.shiftl v n mod 2 ^ 32) k = (k <? 32) && Z.testbit v (k - n)).
  destruct (Z.ltb_spec k 32).
  - rewrite Z.mod_pow2_bits_low, Z.shiftl_spec by lia. reflexivity.
  - rewrite Z.mod_pow2_bits_high by lia. reflexivity.
Qed.

(** Storing one byte leaves the others. *)
Lemma pmpcfg_byte_other val cur b j : 0 <= b < 4 -> 0 <= j < 4 -> j <> b ->
  cfg_byte (pmpcfg_byte val cur b) j = cfg_byte cur j.
Proof.
  intros Hb Hj Hn. apply Z.bits_inj'. intros k Hk. rewrite !cfg_byte_bit by lia.
  destruct (Z.ltb_spec k 8) as [H8|]; [|reflexivity]. cbn [andb]. unfold pmpcfg_byte. cbv zeta.
  destruct (has _ _); [reflexivity|]. rewrite Z.lor_spec, Z.ldiff_spec, !shl_bit by lia.
  change 255 with (Z.ones 8). rewrite Z.testbit_ones by lia. rewrite Z.land_spec.
  assert (O : forall x, (0 <=? x) && (x <? 8) = false -> Z.testbit 159 x = false).
  { intros x Hx. destruct (Z.ltb_spec x 0); [apply Z.testbit_neg_r; lia|].
    apply Z.bits_above_log2; [lia|]. change (Z.log2 159) with 7. lia. }
  assert (F : (0 <=? j * 8 + k - b * 8) && (j * 8 + k - b * 8 <? 8) = false) by lia.
  rewrite F, (O _ F), !andb_false_r, orb_false_r. cbn. apply andb_true_r.
Qed.

Lemma pmpcfg_byte_locked val cur b j : 0 <= b < 4 -> 0 <= j < 4 -> has (cfg_byte cur j) PMP_L = true ->
  cfg_byte (pmpcfg_byte val cur b) j = cfg_byte cur j.
Proof.
  intros Hb Hj HL. destruct (Z.eq_dec j b) as [->|Hn]; [|apply pmpcfg_byte_other; assumption].
  unfold pmpcfg_byte. cbv zeta. change 128 with (2 ^ 7). change PMP_L with (2 ^ 7) in HL. rewrite has_bit in * by lia.
  rewrite cfg_byte_bit in HL by lia. change (7 <? 8) with true in HL. cbn [andb] in HL. rewrite Z.shiftr_spec by lia.
  rewrite (Z.add_comm 7), HL. reflexivity.
Qed.

Lemma pmpcfg_merge_locked val cur j : 0 <= j < 4 -> has (cfg_byte cur j) PMP_L = true ->
  cfg_byte (pmpcfg_merge val cur) j = cfg_byte cur j.
Proof.
  intros Hj. unfold pmpcfg_merge. assert (Hb : Forall (fun b => 0 <= b < 4) [0; 1; 2; 3]) by (repeat constructor; lia).
  revert cur. induction Hb as [|b bs Hb _ IH]; intros cur HL; cbn [fold_left]; [reflexivity|].
  pose proof (pmpcfg_byte_locked val cur b j Hb Hj HL) as E. rewrite IH by (rewrite E; exact HL). exact E.
Qed.

(** An entry whose lock is set; with TOR it fixes the address below as well. *)
Definition pmp_locked (h : rv_hart) (i : Z) : bool := has (pmp_cfg h i) PMP_L.
Definition pmp_tor (h : rv_hart) (i : Z) : bool := Z.shiftr (pmp_cfg h i &! 24) 3 =? 1.

Definition pmp_entry_same (h h' : rv_hart) (i : Z) : Prop :=
  pmp_cfg h' i = pmp_cfg h i /\ h_pmpaddr h' i = h_pmpaddr h i /\
  (pmp_tor h i = true -> 0 < i -> h_pmpaddr h' (i - 1) = h_pmpaddr h (i - 1)).

Lemma entry_same_regs h h' i : h_pmpcfg h' = h_pmpcfg h -> h_pmpaddr h' = h_pmpaddr h -> pmp_entry_same h h' i.
Proof. intros E1 E2. unfold pmp_entry_same, pmp_cfg. rewrite E1, E2. auto. Qed.

Lemma entry_same_trans h1 h2 h3 i : pmp_entry_same h1 h2 i -> pmp_entry_same h2 h3 i -> pmp_entry_same h1 h3 i.
Proof.
  unfold pmp_entry_same, pmp_tor. intros (A1 & A2 & A3) (B1 & B2 & B3). rewrite A1 in *. split; [congruence|].
  split; [congruence|]. intros Ht Hi. rewrite B3, A3 by assumption. reflexivity.
Qed.

(** Follow a CSR write to the branch that performs it. *)
Ltac csr_branch E :=
  repeat match type of E with
  | (if ?b then _ else _) = _ => let B := fresh "B" in destruct b eqn:B
  | match ?o with Some _ => _ | None => _ end = _ => let B := fresh "B" in destruct o eqn:B
  end; injection E as <- <-.

(** A field the branch does not assign. *)
Ltac branch_field := solve [reflexivity | unfold rv_trig_write_tdata1; match goal with |- context [if ?c then _ else _] => destruct c end; reflexivity].

Section Csr.
Context `{Cfg : RvConfig}.

Lemma write_pmpcfg_lock h idx val i : 0 <= i < RV_PMP_ENTRIES -> pmp_locked h i = true ->
  pmp_entry_same h (write_pmpcfg h idx val) i.
Proof.
  intros Hi HL. split; [|split; reflexivity].
  change (pmp_cfg (write_pmpcfg h idx val) i) with
    (cfg_byte (upd (h_pmpcfg h) idx (pmpcfg_merge val (h_pmpcfg h idx)) (i / 4)) (i mod 4)).
  unfold upd. destruct (Z.eqb_spec (i / 4) idx) as [<-|]; [|reflexivity].
  apply pmpcfg_merge_locked; [apply Z.mod_pos_bound; lia|exact HL].
Qed.

Lemma write_pmpaddr_lock h k val i : 0 <= i < RV_PMP_ENTRIES -> 0 <= k < RV_PMP_ENTRIES -> pmp_locked h i = true ->
  pmp_entry_same h (write_pmpaddr h k val) i.
Proof.
  intros Hi Hk HL. unfold write_pmpaddr. destruct (pmpaddr_locked h k) eqn:E; [apply entry_same_regs; reflexivity|].
  unfold pmpaddr_locked in E. apply orb_false_iff in E as [E1 E2]. fold (pmp_cfg h k) in E1.
  assert (Nk : i <> k) by (intros ->; unfold pmp_locked in HL; change 128 with PMP_L in E1; congruence).
  split; [reflexivity|]. split.
  - change (upd (h_pmpaddr h) k (val &! RV_PMPADDR_MASK) i = h_pmpaddr h i). unfold upd. destruct (Z.eqb_spec i k); [contradiction|reflexivity].
  - intros Ht H0. change (upd (h_pmpaddr h) k (val &! RV_PMPADDR_MASK) (i - 1) = h_pmpaddr h (i - 1)). unfold upd.
    destruct (Z.eqb_spec (i - 1) k) as [<-|]; [|reflexivity]. replace (i - 1 + 1) with i in E2 by lia.
    destruct (Z.ltb_spec i RV_PMP_ENTRIES); [|lia]. cbn [andb] in E2. fold (pmp_cfg h i) in E2.
    change (pmp_locked h i && pmp_tor h i = false) in E2. rewrite HL, Ht in E2. discriminate.
Qed.

Lemma csr_write_lock h csr val e h' i : 0 <= i < RV_PMP_ENTRIES -> pmp_locked h i = true ->
  rv_csr_write h csr val = (e, h') -> pmp_entry_same h h' i.
Proof.
  unfold rv_csr_write, csr_write_range, csr_done, csr_refuse. intros Hi HL E.
  assert (S : forall h', h_pmpcfg h' = h_pmpcfg h -> h_pmpaddr h' = h_pmpaddr h -> pmp_entry_same h h' i)
    by (intros; apply entry_same_regs; assumption).
  csr_branch E; try (apply S; branch_field); [apply write_pmpcfg_lock; assumption|].
  apply write_pmpaddr_lock; try assumption. match goal with B : _ && _ = true |- _ => clear - B; lia end.
Qed.
End Csr.

Section Run.
Context `{Cfg : RvConfig} `{SF : SoftFloat} {Ext M : Type} `{PB : PhysBus Ext M}.
Variable pf : platform M.

Lemma step_lock h pc h' pc' i : 0 <= i < RV_PMP_ENTRIES -> pmp_locked h i = true -> hart_inv h ->
  hart_step (M := M) h pc h' pc' -> pmp_entry_same h h' i.
Proof.
  intros Hi HL I S. apply looked_inv in I.
  assert (Q : forall h1, frame (looked h) h1 -> pmp_entry_same h h1 i).
  { intros h1 F. pose proof (frame_kept _ _ F) as K. apply entry_same_regs; [apply (k_pmpcfg _ _ K)|apply (k_pmpaddr _ _ K)]. }
  assert (C : forall h2, counts h2 h' -> pmp_entry_same h h2 i -> pmp_entry_same h h' i).
  { intros h2 (c & n & ->) E. eapply entry_same_trans; [exact E|]. apply entry_same_regs; reflexivity. }
  destruct S as [irq h1 m1 h2 m2 _ _ F _ T K _|cause tval h1 m1 h2 m2 _ F _ T K _|h1 h2 _ F E K];
    apply (C _ K); pose proof (Q _ F) as E1; (eapply entry_same_trans; [exact E1|]); apply (frame_inv _ _ F) in I.
  - destruct (trap_cases _ _ _ _ _ _ T I) as (TK & _). apply entry_same_regs; apply (tk_pmp _ _ TK).
  - destruct (trap_cases _ _ _ _ _ _ T I) as (TK & _). apply entry_same_regs; apply (tk_pmp _ _ TK).
  - assert (L : pmp_locked h1 i = true) by (unfold pmp_locked; rewrite (proj1 E1); exact HL).
    destruct E as [G|csr val h3 W G|_ -> _|_ -> _]; try (apply entry_same_regs; reflexivity).
    + pose proof (frame_kept _ _ G) as K'. apply entry_same_regs; [apply (k_pmpcfg _ _ K')|apply (k_pmpaddr _ _ K')].
    + eapply entry_same_trans; [eapply csr_write_lock; eassumption|]. pose proof (frame_kept _ _ G) as K'.
      apply entry_same_regs; [apply (k_pmpcfg _ _ K')|apply (k_pmpaddr _ _ K')].
Qed.

(** [C32] A PMP entry whose lock is set is frozen: no run, at any privilege,
    changes its configuration or its address, nor the address below it when
    the entry is a top-of-range one. *)
Theorem lock_holds h (m : M) budget r d h' m' i :
  hook_frames pf -> interp_run pf h m budget = (r, d, h', m') -> hart_inv h ->
  0 <= i < RV_PMP_ENTRIES -> pmp_locked h i = true -> pmp_entry_same h h' i.
Proof.
  intros Hk E I Hi HL.
  refine (proj2 (run_keeps pf (fun x => hart_inv x /\ pmp_entry_same h x i) _ _ _ _ _ _ _ Hk _ _ _ E _)).
  - intros x x' Id [Ix Sx]. split; [exact (idle_inv _ _ Id Ix)|]. eapply entry_same_trans; [exact Sx|].
    destruct Id as (? & ? & ? & ? & ? & ->). apply entry_same_regs; reflexivity.
  - intros x c l [Ix Sx]. split; [apply set_irq_inv, Ix|]. eapply entry_same_trans; [exact Sx|].
    unfold rv_hart_set_irq. destruct l; apply entry_same_regs; reflexivity.
  - intros x pc x' pc' St [Ix Sx]. split; [eapply step_inv; eassumption|].
    eapply entry_same_trans; [exact Sx|]. eapply step_lock; [exact Hi| |exact Ix|exact St].
    unfold pmp_locked. rewrite (proj1 Sx). exact HL.
  - split; [exact I|]. apply entry_same_regs; reflexivity.
Qed.

End Run.

(** ** Modes below M *)

(** The registers only M may write. *)
Definition owned_regs (h : rv_hart) :=
  (h_mtvec h, h_mscratch h, h_medeleg h, h_mideleg h, h_mcounteren h, h_menvcfg h, h_mcountinhibit h,
   h_pmpcfg h, h_pmpaddr h, h_tselect h, h_tdata1 h, h_tdata2 h, h_mhpmevent h, h_hartid h).

(** Those a trap into M writes as well. *)
Definition bank_regs (h : rv_hart) := (h_mepc h, h_mcause h, h_mtval h).

Record owned_same (h h' : rv_hart) : Prop := {
  os_regs : owned_regs h' = owned_regs h;
  os_mie : Z.ldiff (h_mie h') (h_mideleg h) = Z.ldiff (h_mie h) (h_mideleg h);
  os_mip : Z.ldiff (h_mip h') (h_mideleg h |! MIP_LCOFIP) = Z.ldiff (h_mip h) (h_mideleg h |! MIP_LCOFIP);
  os_status : forall n, In n [17; 20; 21; 22] -> Z.testbit (h_mstatus h') n = Z.testbit (h_mstatus h) n
}.

Record bank_same (h h' : rv_hart) : Prop := {
  bs_regs : bank_regs h' = bank_regs h;
  bs_status : forall n, In n [3; 7; 11; 12] -> Z.testbit (h_mstatus h') n = Z.testbit (h_mstatus h) n
}.

Lemma owned_deleg h h' : owned_same h h' -> h_mideleg h' = h_mideleg h.
Proof. intros [E _ _ _]. unfold owned_regs in E. congruence. Qed.

Lemma owned_trans h1 h2 h3 : owned_same h1 h2 -> owned_same h2 h3 -> owned_same h1 h3.
Proof.
  intros A B. pose proof (owned_deleg _ _ A) as D. destruct A as [A1 A2 A3 A4], B as [B1 B2 B3 B4]. rewrite D in *.
  split; [congruence|congruence|congruence|]. intros n Hn. rewrite B4, A4 by assumption. reflexivity.
Qed.

Lemma bank_trans h1 h2 h3 : bank_same h1 h2 -> bank_same h2 h3 -> bank_same h1 h3.
Proof. intros [A1 A2] [B1 B2]. split; [congruence|]. intros n Hn. rewrite B2, A2 by assumption. reflexivity. Qed.

(** Nothing of the machine's, and the privilege, changes. *)
Definition low_same (h h' : rv_hart) : Prop := owned_same h h' /\ bank_same h h'.

Lemma low_trans h1 h2 h3 : low_same h1 h2 -> low_same h2 h3 -> low_same h1 h3.
Proof. intros [A1 A2] [B1 B2]. split; [eapply owned_trans|eapply bank_trans]; eassumption. Qed.

Lemma low_by_fields h h' : owned_regs h' = owned_regs h -> bank_regs h' = bank_regs h -> h_mie h' = h_mie h ->
  h_mip h' = h_mip h -> h_mstatus h' = h_mstatus h -> low_same h h'.
Proof. intros E1 E2 E3 E4 E5. split; split; try assumption; rewrite ?E3, ?E4, ?E5; auto. Qed.

Lemma frame_low h h' : frame h h' -> low_same h h'.
Proof.
  intros F. pose proof (frame_kept _ _ F) as K. pose proof (fun n => fs_other h h' n K) as B. destruct K.
  split; split; unfold owned_regs, bank_regs; try congruence; intros n Hn; apply B; cbn in Hn; lia.
Qed.

Lemma min_priv_div csr : csr_min_priv csr = csr / 256 mod 4.
Proof.
  unfold csr_min_priv. change 3 with (Z.ones 2). rewrite Z.land_ones, Z.shiftr_div_pow2 by lia. reflexivity.
Qed.

Lemma hpm_index_range csr base i : hpm_index csr base = Some i -> base + 3 <= csr <= base + 31.
Proof. unfold hpm_index, RV_HPM_FIRST. destruct (_ && _) eqn:E; [lia|discriminate]. Qed.

(** A number that needs M is refused below it. *)
Lemma refused_below csr p : p <= RV_PRIV_S -> (p <? csr_min_priv csr) || csr_is_readonly csr = false -> csr / 256 mod 4 <= 1.
Proof. rewrite min_priv_div. unfold RV_PRIV_S. intros Hp E. apply orb_false_iff in E as [E _]. lia. Qed.

Ltac needs_m L :=
  exfalso; match goal with
  | B : (_ =? _) = true |- _ => apply Z.eqb_eq in B; rewrite B in L; vm_compute in L; congruence
  | B : hpm_index _ _ = Some _ |- _ =>
      apply hpm_index_range in B; clear - L B; cbv [CSR_MHPMCOUNTER_BASE CSR_MHPMCOUNTERH_BASE CSR_MHPMEVENT_BASE CSR_MHPMEVENTH_BASE] in B;
      Z.to_euclidean_division_equations; lia
  | B : _ && _ = true |- _ => clear - L B; cbv [CSR_PMPCFG0 CSR_PMPADDR0 RV_PMP_ENTRIES] in B; Z.to_euclidean_division_equations; lia
  end.

(** An equality of words, bit by bit. *)
Ltac bitwise :=
  apply Z.bits_inj'; intros ?i ?Hi; autorewrite with msbits; rewrite ?Z.bits_0;
  repeat match goal with |- context [Z.testbit ?w ?n] => destruct (Z.testbit w n) end; reflexivity.

(** A masked write leaves the bits outside the mask. *)
Lemma sstatus_bits old val mask ns :
  (forall n, In n ns -> Z.testbit mask n = false) ->
  forall n, In n ns -> Z.testbit (Z.ldiff old mask |! (val &! mask)) n = Z.testbit old n.
Proof.
  intros Hm n Hn. rewrite Z.lor_spec, Z.ldiff_spec, Z.land_spec, (Hm n Hn). rewrite andb_true_r, andb_false_r. apply orb_false_r.
Qed.

Section LowCsr.
Context `{Cfg : RvConfig}.

Lemma csr_write_low h csr val e h' : h_priv h <= RV_PRIV_S ->
  rv_csr_write h csr val = (e, h') -> low_same h h' /\ h_priv h' = h_priv h.
Proof.
  unfold rv_csr_write, csr_write_range, csr_done, csr_refuse. intros Hp E.
  assert (S : forall h', owned_regs h' = owned_regs h -> bank_regs h' = bank_regs h -> h_mie h' = h_mie h ->
    h_mip h' = h_mip h -> h_mstatus h' = h_mstatus h -> h_priv h' = h_priv h -> low_same h h' /\ h_priv h' = h_priv h)
    by (intros; split; [apply low_by_fields|]; assumption).
  destruct (_ || _) eqn:L; [injection E as <- <-; apply S; reflexivity|]. apply (refused_below csr) in L; [|exact Hp].
  csr_branch E; try (apply S; branch_field); try (needs_m L); (split; [split; (split; try reflexivity)|reflexivity]).
  - apply sstatus_bits. intros n Hn. cbn in Hn. repeat destruct Hn as [<-|Hn]; try reflexivity; contradiction.
  - apply sstatus_bits. intros n Hn. cbn in Hn. repeat destruct Hn as [<-|Hn]; try reflexivity; contradiction.
  - cbn [h_mie set_field set_mie set_irq_dirty]. bitwise.
  - cbn [h_mip set_field set_mip set_irq_dirty]. bitwise.
Qed.
End LowCsr.

Section LowRun.
Context `{Cfg : RvConfig} `{SF : SoftFloat} {Ext M : Type} `{PB : PhysBus Ext M}.

Lemma counted_low h h' : counted h h' -> low_same h h'.
Proof.
  intros (h2 & n & [T D] & ->). split; split;
    [exact (f_equal owned_regs T)|rewrite <- (f_equal h_mie T : h_mie h2 = h_mie h); reflexivity| | |exact (f_equal bank_regs T)|].
  - change (h_mip (h2 <| h_trap_count := n |>)) with (h_mip h2). destruct D as [[-> _]|[_ ->]]; [reflexivity|]. bitwise.
  - intros k _. rewrite <- (f_equal h_mstatus T : h_mstatus h2 = h_mstatus h). reflexivity.
  - intros k _. rewrite <- (f_equal h_mstatus T : h_mstatus h2 = h_mstatus h). reflexivity.
Qed.

Lemma counts_low h h' : counts h h' -> low_same h h'.
Proof. intros (c & i & ->). apply low_by_fields; reflexivity. Qed.

(** A trap into S touches nothing of the machine's; one into M its bank only. *)
Lemma trap_low h (m : M) cause tval h' m' : hart_inv h -> rv_hart_trap h m cause tval = (h', m') ->
  owned_same h h' /\ (trap_to_s h cause = true -> bank_same h h').
Proof.
  intros I E. destruct (trap_shape _ _ _ _ _ _ E) as (h1 & t & n & F & _ & _ & h2 & T & ->).
  assert (C : counted (trap_core h1 cause t) (h2 <| h_trap_count := n |>)) by (exists h2, n; auto). apply counted_low in C.
  pose proof (frame_low _ _ F) as L. rewrite <- (trap_to_s_kept h h1 cause (frame_kept _ _ F)).
  pose proof (hi_priv _ (frame_inv _ _ F I)) as P.
  assert (O : owned_same h1 (trap_core h1 cause t) /\ (trap_to_s h1 cause = true -> bank_same h1 (trap_core h1 cause t))).
  { destruct (trap_to_s h1 cause) eqn:Hs; [destruct (core_s h1 cause t Hs) as [_ _ (O1 & O2 & O3) B _]
      |destruct (core_m h1 cause t Hs P) as [_ _ _ B _]]; (split; [split|intros Hx; try discriminate]).
    1, 6: unfold trap_core; rewrite Hs; reflexivity.
    1, 5: unfold trap_core; rewrite Hs; reflexivity.
    1, 4: unfold trap_core; rewrite Hs; reflexivity.
    - intros k Hk. cbn in Hk. rewrite B by lia. unfold s_entry_bit. repeat destruct Hk as [<-|Hk]; try reflexivity; contradiction.
    - split; [unfold bank_regs; congruence|]. intros k Hk. cbn in Hk. rewrite B by lia.
      unfold s_entry_bit. repeat destruct Hk as [<-|Hk]; try reflexivity; contradiction.
    - intros k Hk. cbn in Hk. rewrite B by lia. unfold m_entry_bit. repeat destruct Hk as [<-|Hk]; try reflexivity; contradiction. }
  destruct O as [O1 O2]. split.
  - eapply owned_trans; [apply L|]. eapply owned_trans; [exact O1|apply C].
  - intros Hs. eapply bank_trans; [apply L|]. eapply bank_trans; [exact (O2 Hs)|apply C].
Qed.

Lemma sret_low h : mprv_ok h -> h_priv h <> RV_PRIV_M -> low_same h (do_sret h) /\ h_priv (do_sret h) <> RV_PRIV_M.
Proof.
  intros Hm Hp. pose proof (Hm Hp) as H17. rewrite bit_mprv in H17. split.
  - split; split; try reflexivity; intros n Hn; cbn in Hn; rewrite do_sret_bits by lia; unfold s_return_bit;
      repeat destruct Hn as [<-|Hn]; try reflexivity; try contradiction. symmetry. exact H17.
  - change (h_priv (do_sret h)) with (if has (h_mstatus h) MSTATUS_SPP then RV_PRIV_S else RV_PRIV_U).
    destruct (has (h_mstatus h) MSTATUS_SPP); discriminate.
Qed.

(** What an iteration below M comes to. *)
Definition confined_step (h : rv_hart) (pc : Z) (h' : rv_hart) (pc' : Z) : Prop :=
  owned_same h h' /\
  (h_priv h' <> RV_PRIV_M /\ bank_same h h' \/
   h_priv h' = RV_PRIV_M /\ h_mepc h' = pc /\ mpp (h_mstatus h') = h_priv h /\
   pc' = trap_vector (h_mtvec h) (h_mcause h')).

Lemma trap_confined h0 h h1 (m1 : M) cause tval h2 m2 h' :
  low_same h0 h -> h_priv h = h_priv h0 -> hart_inv h -> frame h h1 -> rv_hart_trap h1 m1 cause tval = (h2, m2) -> counts h2 h' ->
  confined_step h0 (h_pc h1) h' (h_pc h2).
Proof.
  intros L0 P0 I F T C. pose proof (frame_inv _ _ F I) as I1. pose proof (low_trans _ _ _ L0 (frame_low _ _ F)) as L.
  destruct (trap_low _ _ _ _ _ _ I1 T) as [O B]. destruct (trap_cases _ _ _ _ _ _ T I1) as (_ & _ & _ & t & _ & E).
  pose proof (counts_low _ _ C) as LC. pose proof (frame_kept _ _ F) as K.
  split; [eapply owned_trans; [apply L|]; eapply owned_trans; [exact O|apply LC]|].
  assert (Pc : h_priv h' = h_priv h2) by (destruct C as (c & i & ->); reflexivity).
  destruct (trap_to_s h1 cause).
  - left. split; [rewrite Pc, (se_priv _ _ _ _ E); discriminate|]. eapply bank_trans; [apply L|]. eapply bank_trans; [exact (B eq_refl)|apply LC].
  - right. destruct E as [E1 (E2 & E3 & E4) _ E5 E6]. split; [congruence|].
    destruct C as (c & i & ->). split; [exact E2|]. split.
    + change (mpp (h_mstatus h2) = h_priv h0). rewrite mpp_bits, !E5 by lia. change (m_entry_bit _ _ 11) with (Z.testbit (h_priv h1) 0).
      change (m_entry_bit _ _ 12) with (Z.testbit (h_priv h1) 1). rewrite <- P0, <- (k_priv _ _ K).
      destruct (hi_priv _ I1) as [-> | [-> | ->]]; reflexivity.
    + change (h_pc h2 = trap_vector (h_mtvec h0) (h_mcause h2)). rewrite E6, E3. f_equal.
      pose proof (os_regs _ _ (proj1 L)) as R. unfold owned_regs in R. congruence.
Qed.

(** [C33] A mode below M is confined.  One iteration from U or S leaves every
    register of the machine's as it was -- vectors, delegation, PMP, triggers,
    counters' control, the interrupts that are not delegated, MPRV, TVM, TW and
    TSR -- and either stays below M with the machine's trap bank and enable
    stack untouched, or enters M at the handler [mtvec] names for the cause
    it records, with the address of the instruction and the mode it left. *)
Theorem confined (pf : platform M) h (m : M) pc h' m' pc' :
  hook_frames pf -> iteration pf h m pc = inr (h', m', pc') -> hart_inv h -> h_priv h <> RV_PRIV_M ->
  confined_step h pc h' pc'.
Proof.
  intros Hk E I Hp. apply (iteration_step pf) in E; [|exact Hk].
  assert (L : low_same h (looked h)) by (apply low_by_fields; reflexivity). pose proof (looked_inv _ I) as I0.
  destruct E as [irq h1 m1 h2 m2 _ _ F <- T C ->|cause tval h1 m1 h2 m2 _ F <- T C ->|h1 h2 _ F E C].
  - eapply trap_confined; [exact L|reflexivity|eassumption..].
  - eapply trap_confined; [exact L|reflexivity|eassumption..].
  - pose proof (frame_kept _ _ F) as K. assert (P1 : h_priv h1 = h_priv h) by apply (k_priv _ _ K).
    pose proof (low_trans _ _ _ L (frame_low _ _ F)) as L1.
    assert (Q : low_same h1 h2 /\ h_priv h2 <> RV_PRIV_M).
    { destruct E as [G|csr val h3 W G|Hm _ _|_ -> _].
      - split; [apply frame_low, G|]. rewrite (k_priv _ _ (frame_kept _ _ G)). congruence.
      - assert (Hs : h_priv h1 <= RV_PRIV_S).
        { rewrite P1. destruct (hi_priv _ I) as [-> | [-> | Hx]]; [unfold RV_PRIV_U, RV_PRIV_S; lia..|congruence]. }
        destruct (csr_write_low _ _ _ _ _ Hs W) as [L3 P3].
        split; [eapply low_trans; [exact L3|apply frame_low, G]|]. rewrite (k_priv _ _ (frame_kept _ _ G)). congruence.
      - exfalso. rewrite P1 in Hm. destruct (hi_priv _ I) as [Hx|[Hx|Hx]]; rewrite Hx in *; unfold RV_PRIV_M, RV_PRIV_U, RV_PRIV_S in *; lia.
      - apply sret_low; [|congruence]. apply (ok_mprv _ (ao_hart _ (hi_access _ (frame_inv _ _ F I0)))). }
    destruct Q as [Q1 Q2]. pose proof (low_trans _ _ _ L1 (low_trans _ _ _ Q1 (counts_low _ _ C))) as [O B].
    split; [exact O|]. left. split; [|exact B]. destruct C as (c & i & ->). exact Q2.
Qed.

End LowRun.
