(* ===== verification/RvIrq.v ===== *)
(** * Interrupts

    Which interrupt is taken, against a per-interrupt reference
    ([pending_irq_ref]); that a waiting interrupt is taken at the next
    iteration once the hart is told to look ([irq_taken]); and that the hart
    is told whenever one may have become takeable ([irq_not_lost]). *)

From stdpp Require Import base list gmap.
From Stdlib Require Import ZArith Lia.
From S2P Require Import Prelude Bus BusProps RvHart RvBus RvPmp RvTrig RvMmu RvWalk RvAccess RvCoherent RvFill RvFence RvMem.
From S2P Require Import RvTrap RvCsr RvDecode RvAtomic RvFpu RvInterp RvFrame RvInv RvTrapProps RvRun RvConfine.

Open Scope Z_scope.
Open Scope u32_scope.

(** ** Selection *)

(** Interrupt [c] is pending, enabled, and enabled for the mode it goes to. *)
Definition takeable (h : rv_hart) (c : Z) : bool :=
  Z.testbit (h_mip h) c && Z.testbit (h_mie h) c &&
  (if Z.testbit (h_mideleg h) c
   then (h_priv h =? RV_PRIV_U) || ((h_priv h =? RV_PRIV_S) && Z.testbit (h_mstatus h) 1)
   else negb (h_priv h =? RV_PRIV_M) || Z.testbit (h_mstatus h) 3).

(** MEI, MSI, MTI, SEI, SSI, STI, LCOFI. *)
Definition irq_order : list Z := [11; 3; 7; 9; 1; 5; 13].

Definition irq_ref (h : rv_hart) : Z := default RV_EXC_NONE (List.find (takeable h) irq_order).

(** Only the interrupts there are can be enabled. *)
Definition mie_ok (h : rv_hart) : Prop := Z.ldiff (h_mie h) MIE_WMASK = 0.

Lemma mie_mask : MIE_WMASK = fold_right (fun c w => Z.lor (2 ^ c) w) 0 irq_order.
Proof. reflexivity. Qed.

Lemma mask_bit n cs : 0 <= n -> Forall (fun c => 0 <= c) cs ->
  Z.testbit (fold_right (fun c w => Z.lor (2 ^ c) w) 0 cs) n = existsb (fun c => c =? n) cs.
Proof.
  intros Hn Hc. induction Hc as [|c cs Hc _ IH]; cbn [fold_right existsb]; [apply Z.bits_0|].
  rewrite Z.lor_spec, Z.pow2_bits_eqb, IH by lia. reflexivity.
Qed.

Lemma mie_bit h n : mie_ok h -> 0 <= n -> Z.testbit (h_mie h) n = true -> In n irq_order.
Proof.
  intros Hm Hn Hb. pose proof (f_equal (fun w => Z.testbit w n) Hm) as E. cbv beta in E.
  rewrite Z.ldiff_spec, Hb, Z.bits_0, mie_mask, mask_bit in E by (try lia; repeat constructor; lia).
  cbn [andb] in E. apply negb_false_iff, existsb_exists in E as (c & Hc & Ec). apply Z.eqb_eq in Ec. subst. exact Hc.
Qed.

Lemma active_bit h c : true_priv (h_priv h) -> 0 <= c ->
  negb ((h_priv h =? RV_PRIV_M) && negb (has (h_mstatus h) MSTATUS_MIE)) = true ->
  Z.testbit (irq_active h) c = takeable h c.
Proof.
  intros Hp Hc Hm. unfold irq_active, takeable. rewrite bit_mie in Hm. rewrite bit_sie.
  destruct Hp as [Hp|[Hp|Hp]]; rewrite Hp in *; cbn [Z.eqb RV_PRIV_M RV_PRIV_S RV_PRIV_U Pos.eqb andb orb negb] in *.
  - rewrite Z.land_spec. destruct (Z.testbit (h_mideleg h) c); rewrite andb_true_r; reflexivity.
  - destruct (Z.testbit (h_mstatus h) 1); cbn [negb]; rewrite ?Z.ldiff_spec, Z.land_spec; destruct (Z.testbit (h_mideleg h) c); cbn [negb]; rewrite ?andb_true_r; reflexivity.
  - rewrite Z.ldiff_spec, Z.land_spec. rewrite negb_involutive in Hm. rewrite Hm. destruct (Z.testbit (h_mideleg h) c); reflexivity.
Qed.

Lemma nothing_takeable h : (forall c, 0 <= c -> takeable h c = false) -> irq_ref h = RV_EXC_NONE.
Proof.
  intros H. unfold irq_ref. replace (List.find (takeable h) irq_order) with (@None Z); [reflexivity|].
  symmetry. destruct (List.find _ _) as [c|] eqn:E; [|reflexivity]. apply find_some in E as [Hi Ht]. rewrite H in Ht; [discriminate|].
  cbn in Hi. lia.
Qed.

Lemma takeable_pending h c : takeable h c = true -> Z.testbit (h_mip h &! h_mie h) c = true.
Proof. unfold takeable. rewrite Z.land_spec. intros E. apply andb_true_iff in E as [E _]. exact E. Qed.

Lemma pending_irq_eq h : true_priv (h_priv h) -> mie_ok h -> rv_hart_pending_irq h = irq_ref h.
Proof.
  intros Hp Hm. unfold rv_hart_pending_irq.
  destruct (Z.eqb_spec (h_mip h &! h_mie h) 0) as [H0|H0].
  { symmetry. apply nothing_takeable. intros c _. destruct (takeable h c) eqn:E; [|reflexivity].
    apply takeable_pending in E. rewrite H0, Z.bits_0 in E. discriminate. }
  destruct ((h_priv h =? RV_PRIV_M) && negb (has (h_mstatus h) MSTATUS_MIE)) eqn:Hg.
  { symmetry. apply nothing_takeable. intros c _. unfold takeable. apply andb_true_iff in Hg as [G1 G2].
    apply Z.eqb_eq in G1. rewrite bit_mie, negb_true_iff in G2. rewrite G1, G2. destruct (Z.testbit (h_mideleg h) c); apply andb_false_r. }
  assert (A : forall c, 0 <= c -> Z.testbit (irq_active h) c = takeable h c) by (intros; apply active_bit; [assumption..|rewrite Hg; reflexivity]).
  cbv zeta. destruct (Z.eqb_spec (irq_active h) 0) as [Ha|Ha].
  { symmetry. apply nothing_takeable. intros c Hc. rewrite <- A, Ha by exact Hc. apply Z.bits_0. }
  unfold irq_ref, irq_order. cbn [List.find].
  change MIP_MEIP with (2 ^ 11). change MIP_MSIP with (2 ^ 3). change MIP_MTIP with (2 ^ 7).
  change MIP_SEIP with (2 ^ 9). change MIP_SSIP with (2 ^ 1). change MIP_STIP with (2 ^ 5).
  rewrite !has_bit, !A by lia.
  do 6 match goal with |- (if ?b then _ else _) = _ => destruct b eqn:?; [reflexivity|] end.
  destruct (takeable h 13) eqn:E13; [reflexivity|]. exfalso. apply Ha. apply Z.bits_inj'. intros n Hn.
  rewrite A, Z.bits_0 by exact Hn. destruct (takeable h n) eqn:En; [|reflexivity].
  assert (Hi : In n irq_order).
  { apply (mie_bit h n Hm Hn). unfold takeable in En. rewrite !andb_true_iff in En. apply En. }
  cbn in Hi. repeat destruct Hi as [<-|Hi]; congruence || contradiction.
Qed.

(** ** What the choice depends on *)

Definition irq_view (h : rv_hart) :=
  (h_mip h, h_mie h, h_mideleg h, h_priv h, Z.testbit (h_mstatus h) 1, Z.testbit (h_mstatus h) 3, h_irq_dirty h).

Lemma view_takeable h h' c : irq_view h' = irq_view h -> takeable h' c = takeable h c.
Proof. unfold irq_view, takeable. rewrite !pair_equal_spec. intros ((((((-> & ->) & ->) & ->) & ->) & ->) & _). reflexivity. Qed.

Lemma frame_view h h' : frame h h' -> irq_view h' = irq_view h.
Proof.
  intros F. pose proof (frame_kept _ _ F) as K. unfold irq_view. rewrite !(fs_other h h') by (auto; lia). destruct K. congruence.
Qed.

Lemma counts_view h h' : counts h h' -> irq_view h' = irq_view h.
Proof. intros (c & i & ->). reflexivity. Qed.

Lemma view_mie h h' : irq_view h' = irq_view h -> mie_ok h -> mie_ok h'.
Proof. unfold irq_view, mie_ok. rewrite !pair_equal_spec. intros ((((((_ & ->) & _) & _) & _) & _) & _). auto. Qed.

Definition irq_quiet (h : rv_hart) : Prop := forall c, 0 <= c -> takeable h c = false.

Lemma view_quiet h h' : irq_view h' = irq_view h -> irq_quiet h -> irq_quiet h'.
Proof. intros E Q c Hc. rewrite (view_takeable _ _ c E). apply Q, Hc. Qed.

Lemma pending_quiet h : hart_inv h -> mie_ok h -> (rv_hart_pending_irq h = RV_EXC_NONE <-> irq_quiet h).
Proof.
  intros I Hm. rewrite (pending_irq_eq h (hi_priv _ I) Hm). split; [|apply nothing_takeable].
  intros E c Hc. destruct (takeable h c) eqn:Et; [|reflexivity]. exfalso.
  assert (Hi : In c irq_order) by (apply (mie_bit h c Hm Hc); unfold takeable in Et; rewrite !andb_true_iff in Et; apply Et).
  unfold irq_ref in E. destruct (List.find (takeable h) irq_order) as [x|] eqn:Ef.
  - apply find_some in Ef as [Hx _]. cbn in E. rewrite E in Hx. cbn in Hx. unfold RV_EXC_NONE in Hx. lia.
  - pose proof (find_none _ _ Ef c Hi). congruence.
Qed.

Section Csr.
Context `{Cfg : RvConfig}.

Lemma csr_write_mie h csr val e h' : rv_csr_write h csr val = (e, h') -> mie_ok h -> mie_ok h'.
Proof.
  unfold rv_csr_write, csr_write_range, csr_done, csr_refuse, mie_ok. intros E Hm.
  assert (S : forall h', h_mie h' = h_mie h -> Z.ldiff (h_mie h') MIE_WMASK = 0) by (intros ? ->; exact Hm).
  csr_branch E; try (apply S; solve [branch_field | unfold write_pmpaddr; destruct (pmpaddr_locked _ _); reflexivity]).
  - cbn [h_mie set_field set_mie set_irq_dirty]. apply Z.bits_inj'. intros n Hn.
    pose proof (f_equal (fun w => Z.testbit w n) Hm) as Eb. cbv beta in Eb. revert Eb.
    rewrite !Z.ldiff_spec, Z.lor_spec, Z.ldiff_spec, !Z.land_spec, Z.bits_0.
    destruct (Z.testbit (h_mie h) n), (Z.testbit MIE_WMASK n), (Z.testbit (h_mideleg h) n), (Z.testbit val n); auto.
  - cbn [h_mie set_field set_mie set_irq_dirty]. bitwise.
Qed.

(** A write that can make an interrupt takeable says so -- except to [mip]. *)
Lemma csr_write_irq h csr val e h' : rv_csr_write h csr val = (e, h') ->
  csr = CSR_MIP \/ h_irq_dirty h' = true \/ irq_view h' = irq_view h.
Proof.
  unfold rv_csr_write, csr_write_range, csr_done, csr_refuse. intros E.
  csr_branch E; try (right; right; solve [branch_field | unfold write_pmpaddr; destruct (pmpaddr_locked _ _); reflexivity]);
    try (right; left; reflexivity).
  left. apply Z.eqb_eq. assumption.
Qed.

(** What enables an interrupt, but for its pending bit. *)
Definition same_enables (h h' : rv_hart) : Prop :=
  h_mie h' = h_mie h /\ h_mideleg h' = h_mideleg h /\ h_priv h' = h_priv h /\
  Z.testbit (h_mstatus h') 1 = Z.testbit (h_mstatus h) 1 /\ Z.testbit (h_mstatus h') 3 = Z.testbit (h_mstatus h) 3.

(** A write of [mip] is the write of [mip]. *)
Lemma csr_write_mip h val e h' : rv_csr_write h CSR_MIP val = (e, h') -> same_enables h h' /\ h_irq_dirty h' = h_irq_dirty h.
Proof. unfold rv_csr_write, csr_done, csr_refuse. destruct (_ || _); intros [= _ <-]; repeat split. Qed.
End Csr.

Section Run.
Context `{Cfg : RvConfig} `{SF : SoftFloat} {Ext M : Type} `{PB : PhysBus Ext M}.
Variable pf : platform M.

Lemma trap_mie h (m : M) cause tval h' m' : hart_inv h -> rv_hart_trap h m cause tval = (h', m') -> mie_ok h -> mie_ok h'.
Proof. intros I T Hm. unfold mie_ok. rewrite (tk_mie _ _ (proj1 (trap_cases _ _ _ _ _ _ T I))). exact Hm. Qed.

Lemma step_mie h pc h' pc' : hart_step (M := M) h pc h' pc' -> hart_inv h -> mie_ok h -> mie_ok h'.
Proof.
  intros S I Hm. change (mie_ok (looked h)) in Hm. apply looked_inv in I.
  destruct S as [irq h1 m1 h2 m2 _ _ F _ T C _|cause tval h1 m1 h2 m2 _ F _ T C _|h1 h2 _ F E C];
    apply (view_mie _ _ (counts_view _ _ C)); apply (view_mie _ _ (frame_view _ _ F)) in Hm; apply (frame_inv _ _ F) in I.
  - eapply trap_mie; eassumption.
  - eapply trap_mie; eassumption.
  - destruct E as [G|csr val h3 W G|_ -> _|_ -> _]; [exact (view_mie _ _ (frame_view _ _ G) Hm)| |exact Hm|exact Hm].
    apply (view_mie _ _ (frame_view _ _ G)). eapply csr_write_mie; eassumption.
Qed.

Lemma reachable_mie h : hook_frames pf -> reachable pf h -> hart_inv h /\ mie_ok h.
Proof.
  intros Hk. apply (reachable_keeps pf (fun x => hart_inv x /\ mie_ok x) h Hk).
  - intros x pc. split; [apply reset_inv|reflexivity].
  - intros x c l [Ix Mx]. split; [apply set_irq_inv, Ix|]. unfold rv_hart_set_irq. destruct l; exact Mx.
  - intros x x' Id [Ix Mx]. split; [exact (idle_inv _ _ Id Ix)|]. destruct Id as (? & ? & ? & ? & ? & ->). exact Mx.
  - intros x pc x' pc' S [Ix Mx]. split; [exact (step_inv _ _ _ _ S Ix)|exact (step_mie _ _ _ _ S Ix Mx)].
Qed.

(** [C34] The interrupt a hart takes is the first, in the order MEI, MSI, MTI,
    SEI, SSI, STI, LCOFI, that is pending, enabled in [mie] and enabled for
    the mode it goes to: a delegated one in U, and in S while SIE is set; any
    other below M, and in M while MIE is set. *)
Theorem pending_irq_ref h : hook_frames pf -> reachable pf h -> rv_hart_pending_irq h = irq_ref h.
Proof. intros Hk R. destruct (reachable_mie h Hk R) as [I Hm]. exact (pending_irq_eq h (hi_priv _ I) Hm). Qed.

(** ** Delivery *)

(** [a] is ranked no lower than [b]. *)
Definition outranks (a b : Z) : Prop := exists l1 l2, irq_order = l1 ++ a :: l2 /\ In b (a :: l2).

Lemma find_first {A} (p : A -> bool) : forall l b, In b l -> p b = true ->
  exists a l1 l2, List.find p l = Some a /\ l = l1 ++ a :: l2 /\ In b (a :: l2).
Proof.
  induction l as [|x l IH]; intros b Hi Hp; [destruct Hi|]. cbn [List.find]. destruct (p x) eqn:Ex.
  - exists x, [], l. split; [reflexivity|]. split; [reflexivity|exact Hi].
  - destruct Hi as [->|Hi]; [congruence|]. destruct (IH b Hi Hp) as (a & l1 & l2 & Ef & El & Hb).
    exists a, (x :: l1), l2. split; [exact Ef|]. split; [rewrite El; reflexivity|exact Hb].
Qed.

(** In the handler of interrupt [irq], from [pc]. *)
Definition in_irq_handler (h : rv_hart) (pc irq : Z) (h' : rv_hart) (pc' : Z) : Prop :=
  let cause := RV_CAUSE_INTERRUPT |! irq in
  if Z.testbit (h_mideleg h) irq
  then h_priv h' = RV_PRIV_S /\ h_scause h' = cause /\ h_sepc h' = pc /\ pc' = trap_vector (h_stvec h) cause
  else h_priv h' = RV_PRIV_M /\ h_mcause h' = cause /\ h_mepc h' = pc /\ pc' = trap_vector (h_mtvec h) cause.

Lemma irq_cause irq : In irq irq_order -> is_interrupt (RV_CAUSE_INTERRUPT |! irq) = true /\ cause_code (RV_CAUSE_INTERRUPT |! irq) = irq.
Proof. cbn. intros H. repeat destruct H as [<-|H]; try contradiction; split; reflexivity. Qed.

Lemma irq_destination h irq : hart_inv h -> In irq irq_order -> takeable h irq = true ->
  trap_to_s h (RV_CAUSE_INTERRUPT |! irq) = Z.testbit (h_mideleg h) irq.
Proof.
  intros I Hi Ht. destruct (irq_cause irq Hi) as [Ei Ec]. unfold trap_to_s. rewrite Ei, Ec, shift_bit by (cbn in Hi; lia).
  assert (H32 : (irq <? 32) = true) by (cbn in Hi; apply Z.ltb_lt; lia). rewrite H32. cbn [andb].
  destruct (Z.ltb_spec RV_PRIV_S (h_priv h)) as [Hp|]; [|reflexivity]. symmetry.
  unfold takeable in Ht. destruct (Z.testbit (h_mideleg h) irq); [|reflexivity]. exfalso.
  destruct (hi_priv _ I) as [Hx|[Hx|Hx]]; rewrite Hx in *; [unfold RV_PRIV_S, RV_PRIV_U in Hp; lia..|].
  rewrite andb_false_r in Ht. discriminate.
Qed.
Lemma irq_iteration h (m : M) pc irq : hart_inv h -> h_state h = EMU_STATE_RUNNING -> h_irq_dirty h = true ->
  rv_hart_pending_irq h = irq -> irq <> RV_EXC_NONE -> In irq irq_order -> takeable h irq = true ->
  exists h' m' pc', iteration pf h m pc = inr (h', m', pc') /\ in_irq_handler h pc irq h' pc'.
Proof.
  intros I Hs Hd Hq Hn Hi Ht.
  assert (Ei : iteration pf h m pc = inr (take_trap ((looked h) <| h_state := EMU_STATE_RUNNING |>) m pc (RV_CAUSE_INTERRUPT |! irq) 0)).
  { unfold iteration. cbv zeta. change (h_state (zero_x0 h)) with (h_state h). change (h_irq_dirty (zero_x0 h)) with (h_irq_dirty h).
    rewrite Hs, Hd. change (negb (EMU_STATE_RUNNING =? EMU_STATE_RUNNING)) with false. cbv iota. fold (looked h).
    change (rv_hart_pending_irq (looked h)) with (rv_hart_pending_irq h). rewrite Hq, (proj2 (Z.eqb_neq _ _) Hn). reflexivity. }
  rewrite Ei. clear Ei. set (h0 := (looked h) <| h_state := EMU_STATE_RUNNING |>).
  destruct (take_trap h0 m pc _ 0) as [[h' m'] pc'] eqn:Et. exists h', m', pc'. split; [reflexivity|].
  destruct (take_trap_step _ _ _ _ _ _ _ _ Et) as (h2 & T & C & P). clear Et.
  assert (F : frame (looked h) (h0 <| h_pc := pc |>)) by (unfold h0; by_frame).
  pose proof (frame_inv _ _ F (looked_inv _ I)) as I0. destruct (trap_cases _ _ _ _ _ _ T I0) as (_ & _ & _ & t & _ & E).
  rewrite (trap_to_s_kept _ _ _ (frame_kept _ _ F)) in E. change (trap_to_s (looked h)) with (trap_to_s h) in E.
  rewrite (irq_destination h irq I Hi Ht) in E. unfold in_irq_handler. destruct C as (c & i & ->). rewrite P.
  destruct (Z.testbit (h_mideleg h) irq); destruct E as [E1 (E2 & E3 & E4) _ _ E5]; auto.
Qed.

(** [C35] An interrupt line raised while the interrupt is enabled is served:
    at the next iteration the hart enters the handler of an interrupt ranked
    at least as high, in the mode it is delegated to, with the address it
    interrupted; never is the instruction there run first. *)
Theorem irq_taken h (m : M) pc c :
  hook_frames pf -> reachable pf h -> h_state h = EMU_STATE_RUNNING -> In c irq_order ->
  let h1 := rv_hart_set_irq h c true in
  takeable h1 c = true ->
  exists irq h' m' pc', outranks irq c /\ takeable h1 irq = true /\
    iteration pf h1 m pc = inr (h', m', pc') /\ in_irq_handler h1 pc irq h' pc'.
Proof.
  intros Hk R Hs Hi h1 Ht. destruct (reachable_mie h Hk R) as [I Hm].
  assert (I1 : hart_inv h1) by (apply set_irq_inv, I). assert (M1 : mie_ok h1) by exact Hm.
  destruct (find_first (takeable h1) irq_order c Hi Ht) as (irq & l1 & l2 & Ef & El & Hb).
  pose proof (find_some _ _ Ef) as [Hq Hq'].
  assert (Ep : rv_hart_pending_irq h1 = irq) by (rewrite (pending_irq_eq h1 (hi_priv _ I1) M1); unfold irq_ref; rewrite Ef; reflexivity).
  assert (Hn : irq <> RV_EXC_NONE) by (cbn in Hq; unfold RV_EXC_NONE; lia).
  destruct (irq_iteration h1 m pc irq I1 Hs eq_refl Ep Hn Hq Hq') as (h' & m' & pc' & E1 & E2).
  exists irq, h', m', pc'. split; [exists l1, l2; auto|]. auto.
Qed.

(** ** Nothing is forgotten *)

(** A hart that need not look has nothing to take. *)
Definition settled (h : rv_hart) : Prop := h_irq_dirty h = false -> rv_hart_pending_irq h = RV_EXC_NONE.

Lemma settled_view h h' : irq_view h' = irq_view h -> hart_inv h -> hart_inv h' -> mie_ok h -> settled h -> settled h'.
Proof.
  intros V I I' Hm S Hd. pose proof (view_mie _ _ V Hm) as Hm'. apply (pending_quiet h' I' Hm').
  apply (view_quiet _ _ V), (pending_quiet h I Hm), S. unfold irq_view in V. rewrite !pair_equal_spec in V.
  destruct V as [_ V]. congruence.
Qed.

Lemma dirty_settled h : h_irq_dirty h = true -> settled h.
Proof. unfold settled. congruence. Qed.

(** Into M nothing is takeable; into S nothing that was not before. *)
Lemma trap_settled h (m : M) cause tval h' m' : hart_inv h -> mie_ok h ->
  rv_hart_trap h m cause tval = (h', m') -> trap_to_s h cause = false \/ irq_quiet h -> settled h'.
Proof.
  intros I Hm T Hq Hd. pose proof (trap_mie _ _ _ _ _ _ I T Hm) as Hm'.
  destruct (trap_cases _ _ _ _ _ _ T I) as (K & _ & I' & t & _ & E). apply (pending_quiet h' I' Hm'). intros c Hc.
  unfold takeable. destruct (tk_mip _ _ K) as [[Kp _]|[_ Kd]]; [|congruence]. destruct (tk_deleg _ _ K) as [_ Kg].
  rewrite Kp, (tk_mie _ _ K), Kg. destruct (trap_to_s h cause) eqn:Hs.
  - destruct Hq as [Hq|Hq]; [discriminate|]. rewrite (se_priv _ _ _ _ E), (se_status _ _ _ _ E 1) by lia.
    change (s_entry_bit _ _ 1) with false. pose proof (Hq c Hc) as Q. unfold takeable in Q. apply trap_to_s_priv in Hs.
    destruct (Z.testbit (h_mideleg h) c); [apply andb_false_r|].
    destruct (Z.eqb_spec (h_priv h) RV_PRIV_M) as [Hx|_]; [rewrite Hx in Hs; unfold RV_PRIV_M, RV_PRIV_S in Hs; lia|]. exact Q.
  - rewrite (me_priv _ _ _ _ E), (me_status _ _ _ _ E 3) by lia. change (m_entry_bit _ _ 3) with false.
    destruct (Z.testbit (h_mideleg h) c); apply andb_false_r.
Qed.

Lemma effect_settled h next h' : insn_effect h next h' -> hart_inv h -> mie_ok h -> settled h ->
  settled h' \/ exists val h1, rv_csr_write h CSR_MIP val = (RV_EXC_NONE, h1) /\ frame h1 h' /\ mie_ok h1 /\ hart_inv h1.
Proof.
  intros E I Hm S. pose proof (effect_inv _ _ _ E I) as I'. destruct E as [G|csr val h3 W G|_ -> _|_ -> _].
  - left. exact (settled_view _ _ (frame_view _ _ G) I I' Hm S).
  - pose proof (csr_write_inv _ _ _ _ _ W I) as I3. pose proof (csr_write_mie _ _ _ _ _ W Hm) as M3.
    assert (V : irq_view h' = irq_view h3) by exact (frame_view _ _ G).
    destruct (csr_write_irq _ _ _ _ _ W) as [->|[D|V3]]; [right; exists val, h3; repeat (split; [assumption|]); assumption| |]; left.
    + exact (settled_view _ _ V I3 I' M3 (dirty_settled _ D)).
    + refine (settled_view _ _ V I3 I' M3 (settled_view _ _ V3 I I3 Hm S)).
  - left. apply dirty_settled. reflexivity.
  - left. apply dirty_settled. reflexivity.
Qed.

(** The two ways an iteration can leave an interrupt unlooked-for.  Software
    wrote [mip]: nothing else that enables an interrupt has changed, and [mip]
    has.  Or the interrupt that was pending has been taken into S. *)
Definition mip_written (h h' : rv_hart) : Prop :=
  same_enables h h' /\ h_mip h' <> h_mip h /\
  exists h1 val h2, frame (looked h) h1 /\ rv_csr_write h1 CSR_MIP val = (RV_EXC_NONE, h2) /\ irq_view h' = irq_view h2.
Definition taken_into_s (h h' : rv_hart) : Prop :=
  rv_hart_pending_irq h <> RV_EXC_NONE /\ h_priv h' = RV_PRIV_S /\ h_scause h' = RV_CAUSE_INTERRUPT |! rv_hart_pending_irq h.

Lemma view_enables h h' : irq_view h' = irq_view h -> same_enables h h' /\ h_mip h' = h_mip h /\ h_irq_dirty h' = h_irq_dirty h.
Proof. unfold irq_view, same_enables. rewrite !pair_equal_spec. tauto. Qed.

Lemma enables_view h h' : same_enables h h' -> h_mip h' = h_mip h -> h_irq_dirty h' = h_irq_dirty h -> irq_view h' = irq_view h.
Proof. unfold irq_view, same_enables. rewrite !pair_equal_spec. tauto. Qed.

Lemma mip_case h h1 val h3 h' : hart_inv h' -> hart_inv h1 -> mie_ok h1 -> settled h1 -> frame (looked h) h1 ->
  rv_csr_write h1 CSR_MIP val = (RV_EXC_NONE, h3) -> irq_view h' = irq_view h3 -> settled h' \/ mip_written h h' \/ taken_into_s h h'.
Proof.
  intros I' I1 M1 S1 F W V. destruct (csr_write_mip _ _ _ _ W) as [E3 D3]. destruct (view_enables _ _ V) as (E' & P' & D').
  destruct (view_enables _ _ (frame_view _ _ F)) as (E1 & P1 & _). change (h_mip (looked h)) with (h_mip h) in P1.
  assert (EN : same_enables h1 h') by (unfold same_enables in *; intuition congruence).
  destruct (Z.eq_dec (h_mip h') (h_mip h)) as [Eq|Ne].
  - left. apply (settled_view h1); [|assumption..]. apply enables_view; [exact EN|congruence|congruence].
  - right. left. split; [change (same_enables (looked h) h'); unfold same_enables in *; intuition congruence|]. split; [exact Ne|]. exists h1, val, h3. auto.
Qed.

(** [C36] No interrupt is forgotten.  The loop looks for interrupts only when
    it is told to; an iteration that starts with nothing takeable unless told
    ends so -- every way to make an interrupt takeable, MIE, SIE, [mie],
    [sie], [sip], [mideleg], a return, a counter's overflow, tells it -- but
    for two: software has changed a bit of [mip] through that register, with
    everything that enables interrupts unchanged, or the interrupt that was
    pending has just been taken into S, with another behind it. *)
Theorem irq_not_lost h (m : M) pc h' m' pc' :
  hook_frames pf -> iteration pf h m pc = inr (h', m', pc') -> hart_inv h -> mie_ok h -> settled h ->
  settled h' \/ mip_written h h' \/ taken_into_s h h'.
Proof.
  intros Hk E I Hm S. apply (iteration_step pf) in E; [|exact Hk]. pose proof (step_inv _ _ _ _ E I) as I'.
  pose proof (looked_inv _ I) as I0. change (mie_ok (looked h)) in Hm.
  assert (Cv : forall h2, hart_inv h2 -> mie_ok h2 -> counts h2 h' -> settled h2 -> settled h')
    by (intros h2 I2 M2 C S2; exact (settled_view _ _ (counts_view _ _ C) I2 I' M2 S2)).
  assert (Sf : (h_irq_dirty h = true -> rv_hart_pending_irq (looked h) = RV_EXC_NONE) -> irq_quiet (looked h)).
  { intros Hq. apply (pending_quiet _ I0 Hm). destruct (h_irq_dirty h) eqn:Ed; [auto|]. apply S, Ed. }
  destruct E as [irq h1 m1 h2 m2 -> Hn F _ T C _|cause tval h1 m1 h2 m2 Hq F _ T C _|h1 h2 Hq F E C];
    pose proof (frame_inv _ _ F I0) as I1; pose proof (view_mie _ _ (frame_view _ _ F) Hm) as M1.
  - destruct (trap_to_s h1 (RV_CAUSE_INTERRUPT |! rv_hart_pending_irq (looked h))) eqn:Hs.
    + right. right. split; [exact Hn|]. destruct (trap_cases _ _ _ _ _ _ T I1) as (_ & _ & _ & t & _ & Et). rewrite Hs in Et.
      destruct C as (c & i & ->). split; [exact (se_priv _ _ _ _ Et)|]. apply (se_bank _ _ _ _ Et).
    + left. eapply Cv; [eapply (trap_cases _ _ _ _ _ _ T I1)|eapply trap_mie; eassumption|exact C|].
      eapply trap_settled; [exact I1|exact M1|exact T|left; exact Hs].
  - left. eapply Cv; [eapply (trap_cases _ _ _ _ _ _ T I1)|eapply trap_mie; eassumption|exact C|].
    eapply trap_settled; [exact I1|exact M1|exact T|right]. exact (view_quiet _ _ (frame_view _ _ F) (Sf Hq)).
  - assert (S1 : settled h1) by (intros _; apply (pending_quiet h1 I1 M1), (view_quiet _ _ (frame_view _ _ F)), Sf, Hq).
    destruct (effect_settled _ _ _ E I1 M1 S1) as [S2|(val & h3 & W & G & M3 & I3)].
    2: { exact (mip_case h h1 val h3 h' I' I1 M1 S1 F W (eq_trans (counts_view _ _ C) (frame_view _ _ G))). }
    left. refine (Cv h2 (effect_inv _ _ _ E I1) _ C S2).
    destruct E as [G|csr val h3 W G|_ -> _|_ -> _]; [exact (view_mie _ _ (frame_view _ _ G) M1)| |exact M1|exact M1].
    apply (view_mie _ _ (frame_view _ _ G)). eapply csr_write_mie; eassumption.
Qed.
End Run.
