(* ===== verification/RvClint.v ===== *)
(** * The core local interruptor

    [src/frontend/rv32/rv_clint.c]: the time, the compare register, the
    software interrupt and their two views on the bus.  The device drives the
    hart through [rv_hart_set_irq]; an operation returns the calls it makes,
    in order, as [(cause, level)].  [ck_hart] says whether a hart is attached;
    attaching it also points the hart's clock at [ck_mtime], which is the
    [pf_mtime] of a platform. *)

From stdpp Require Import base list.
From Stdlib Require Import ZArith Lia.
From S2P Require Import Prelude Bus RvHart RvTrap.

Open Scope Z_scope.
Open Scope u32_scope.

Definition RV_CLINT_SIZE : Z := 49152.
Definition RV_CLINT_MSIP : Z := 0.
Definition RV_CLINT_MTIMECMP : Z := 16384.
Definition RV_CLINT_MTIME : Z := 49144.

Definition UINT64_MAX : Z := 2 ^ 64 - 1.

(** The calls of [rv_hart_set_irq]. *)
Definition irq_calls : Type := list (Z * bool).

Record rv_clint := Clint { ck_mtime : Z; ck_mtimecmp : Z; ck_msip : Z; ck_hart : bool }.

#[export] Instance clint_eta : Eta rv_clint := fun c => Clint (ck_mtime c) (ck_mtimecmp c) (ck_msip c) (ck_hart c).
#[export] Instance set_ck_mtime : Setter ck_mtime := ltac:(solve_setter).
#[export] Instance set_ck_mtimecmp : Setter ck_mtimecmp := ltac:(solve_setter).
#[export] Instance set_ck_msip : Setter ck_msip := ltac:(solve_setter).

Definition update_mtip (c : rv_clint) : irq_calls :=
  if ck_hart c then [(RV_INT_M_TIMER, ck_mtimecmp c <=? ck_mtime c)] else [].

Definition rv_clint_init (hart : bool) : rv_clint := Clint 0 UINT64_MAX 0 hart.

Definition rv_clint_set_time (c : rv_clint) (now : Z) : rv_clint * irq_calls :=
  let c := c <| ck_mtime := now |> in (c, update_mtip c).

Definition rv_clint_advance (c : rv_clint) (delta : Z) : rv_clint * irq_calls :=
  let c := c <| ck_mtime := u64 (ck_mtime c + delta) |> in (c, update_mtip c).

(** ** The registers *)

Definition clint_read (c : rv_clint) (off size : Z) : emu_fault * option Z :=
  if negb (size =? 4) then (EMU_FAULT_LOAD, None)
  else
    (EMU_FAULT_NONE,
     Some (if off =? RV_CLINT_MSIP then ck_msip c &! 1
           else if off =? RV_CLINT_MTIMECMP then u32 (ck_mtimecmp c)
           else if off =? RV_CLINT_MTIMECMP + 4 then u32 (Z.shiftr (ck_mtimecmp c) 32)
           else if off =? RV_CLINT_MTIME then u32 (ck_mtime c)
           else if off =? RV_CLINT_MTIME + 4 then u32 (Z.shiftr (ck_mtime c) 32)
           else 0)).

(** One half of a 64-bit register replaced. *)
Definition put_lo (r val : Z) : Z := (r &! 18446744069414584320) |! val.
Definition put_hi (r val : Z) : Z := (r &! 4294967295) |! u64 (Z.shiftl val 32).

Definition clint_write (c : rv_clint) (off size val : Z) : emu_fault * rv_clint * irq_calls :=
  if negb (size =? 4) then (EMU_FAULT_STORE, c, [])
  else
    let timed c := (EMU_FAULT_NONE, c, update_mtip c) in
    if off =? RV_CLINT_MSIP then
      let c := c <| ck_msip := val &! 1 |> in
      (EMU_FAULT_NONE, c, if ck_hart c then [(RV_INT_M_SOFT, negb (ck_msip c =? 0))] else [])
    else if off =? RV_CLINT_MTIMECMP then timed (c <| ck_mtimecmp := put_lo (ck_mtimecmp c) val |>)
    else if off =? RV_CLINT_MTIMECMP + 4 then timed (c <| ck_mtimecmp := put_hi (ck_mtimecmp c) val |>)
    else if off =? RV_CLINT_MTIME then timed (c <| ck_mtime := put_lo (ck_mtime c) val |>)
    else if off =? RV_CLINT_MTIME + 4 then timed (c <| ck_mtime := put_hi (ck_mtime c) val |>)
    else (EMU_FAULT_NONE, c, []).

(** The two devices of the ACLINT. *)
Definition mswi_read (c : rv_clint) (off size : Z) := clint_read c off size.
Definition mswi_write (c : rv_clint) (off size val : Z) := clint_write c off size val.
Definition mtimer_read (c : rv_clint) (off size : Z) := clint_read c (off +! RV_CLINT_MTIMECMP) size.
Definition mtimer_write (c : rv_clint) (off size val : Z) := clint_write c (off +! RV_CLINT_MTIMECMP) size val.
