(* ===== verification/RvAplic.v ===== *)
(** * The platform-level interrupt controller

    [src/frontend/rv32/rv_aplic.c]: an APLIC with one domain and direct
    delivery.  An operation returns what it asks of the outside, in order:
    the calls of [rv_hart_set_irq] and of the platform's completion callback.
    [ap_hart] and [ap_eoi] say whether a hart and a callback are attached; the
    arrays are total maps whose indices the code keeps in range. *)

From stdpp Require Import base list.
From Stdlib Require Import ZArith Lia.
From S2P Require Import Prelude Bus RvHart RvTrap RvClint.

Open Scope Z_scope.
Open Scope u32_scope.

Definition RV_APLIC_SOURCES : Z := 128.
Definition RV_APLIC_WORDS : Z := RV_APLIC_SOURCES / 32.
Definition RV_APLIC_DOMAINCFG : Z := 0.
Definition RV_APLIC_SOURCECFG : Z := 4.
Definition RV_APLIC_SETIP : Z := 7168.
Definition RV_APLIC_SETIPNUM : Z := 7388.
Definition RV_APLIC_IN_CLRIP : Z := 7424.
Definition RV_APLIC_CLRIPNUM : Z := 7644.
Definition RV_APLIC_SETIE : Z := 7680.
Definition RV_APLIC_SETIENUM : Z := 7900.
Definition RV_APLIC_CLRIE : Z := 7936.
Definition RV_APLIC_CLRIENUM : Z := 8156.
Definition RV_APLIC_TARGET : Z := 12292.
Definition RV_APLIC_IDC : Z := 16384.
Definition RV_APLIC_IDC_IDELIVERY : Z := 0.
Definition RV_APLIC_IDC_IFORCE : Z := 4.
Definition RV_APLIC_IDC_ITHRESHOLD : Z := 8.
Definition RV_APLIC_IDC_TOPI : Z := 24.
Definition RV_APLIC_IDC_CLAIMI : Z := 28.
Definition RV_APLIC_DOMAINCFG_IE : Z := 256.
Definition RV_APLIC_DOMAINCFG_RO : Z := 2147483648.
Definition RV_APLIC_SM_INACTIVE : Z := 0.
Definition RV_APLIC_SM_LEVEL_HIGH : Z := 6.
Definition RV_APLIC_SM_LEVEL_LOW : Z := 7.

Record rv_aplic := Aplic {
  ap_domaincfg : Z;
  ap_sourcecfg : Z -> Z;
  ap_target : Z -> Z;
  ap_pending : Z -> Z;
  ap_enabled : Z -> Z;
  ap_idelivery : Z;
  ap_iforce : Z;
  ap_ithreshold : Z;
  ap_hart : bool;
  ap_eoi : bool;
  ap_target_int : Z
}.

#[export] Instance aplic_eta : Eta rv_aplic := fun a => Aplic (ap_domaincfg a) (ap_sourcecfg a) (ap_target a)
  (ap_pending a) (ap_enabled a) (ap_idelivery a) (ap_iforce a) (ap_ithreshold a) (ap_hart a) (ap_eoi a) (ap_target_int a).
#[export] Instance set_ap_domaincfg : Setter ap_domaincfg := ltac:(solve_setter).
#[export] Instance set_ap_sourcecfg : Setter ap_sourcecfg := ltac:(solve_setter).
#[export] Instance set_ap_target : Setter ap_target := ltac:(solve_setter).
#[export] Instance set_ap_pending : Setter ap_pending := ltac:(solve_setter).
#[export] Instance set_ap_enabled : Setter ap_enabled := ltac:(solve_setter).
#[export] Instance set_ap_idelivery : Setter ap_idelivery := ltac:(solve_setter).
#[export] Instance set_ap_iforce : Setter ap_iforce := ltac:(solve_setter).
#[export] Instance set_ap_ithreshold : Setter ap_ithreshold := ltac:(solve_setter).
#[export] Instance set_ap_eoi : Setter ap_eoi := ltac:(solve_setter).
#[export] Instance set_ap_target_int : Setter ap_target_int := ltac:(solve_setter).

(** What an operation asks of the hart and of the platform. *)
Inductive aplic_call := SetIrq (cause : Z) (level : bool) | Eoi (source : Z).

Definition bit (b : Z) : Z := 1 <<! b.

Definition src_active (a : rv_aplic) (i : Z) : bool :=
  negb (i =? 0) && (i <? RV_APLIC_SOURCES) && negb (ap_sourcecfg a i &! 7 =? RV_APLIC_SM_INACTIVE).

(** [for (i = from; i < from + n; i++)]. *)
Definition range (from : Z) (n : nat) : list Z := map (fun k => from + Z.of_nat k) (seq 0 n).

Definition sources : list Z := range 1 (Z.to_nat (RV_APLIC_SOURCES - 1)).
Definition bits32 : list Z := range 0 32.

(** ** Selection *)

Definition src_prio (a : rv_aplic) (i : Z) : Z := if ap_target a i =? 0 then 1 else ap_target a i.

(** Pending, enabled and active: the condition of the [continue], negated. *)
Definition src_ready (a : rv_aplic) (i : Z) : bool :=
  negb (ap_pending a (i / 32) &! ap_enabled a (i / 32) &! bit (i mod 32) =? 0) && src_active a i.

Definition topi_step (a : rv_aplic) (best : Z * Z) (i : Z) : Z * Z :=
  if negb (src_ready a i) then best
  else if (fst best =? 0) || (src_prio a i <? snd best) then (i, src_prio a i) else best.

Definition aplic_topi (a : rv_aplic) : Z :=
  let '(best_src, best_prio) := fold_left (topi_step a) sources (0, 0) in
  if best_src =? 0 then 0
  else if negb (ap_ithreshold a =? 0) && (ap_ithreshold a <=? best_prio) then 0
  else (best_src <<! 16) |! (best_prio &! 255).

Definition aplic_deliver (a : rv_aplic) : bool :=
  negb (ap_domaincfg a &! RV_APLIC_DOMAINCFG_IE =? 0) && negb (ap_idelivery a =? 0)
  && (negb (aplic_topi a =? 0) || negb (ap_iforce a =? 0)).

Definition aplic_update (a : rv_aplic) : list aplic_call :=
  if ap_hart a then [SetIrq (ap_target_int a) (aplic_deliver a)] else [].

(** ** Pending bits *)

Definition aplic_clear_pending (a : rv_aplic) (word mask : Z) : rv_aplic * list aplic_call :=
  let cleared := ap_pending a word &! mask in
  let a' := a <| ap_pending := upd (ap_pending a) word (ap_pending a word &! not32 mask) |> in
  (a', if negb (cleared =? 0) && ap_eoi a
       then map (fun b => Eoi (word * 32 + b)) (List.filter (fun b => negb (cleared &! bit b =? 0)) bits32) else []).

Definition set_pending_step (word mask : Z) (a : rv_aplic) (b : Z) : rv_aplic :=
  if negb (mask &! bit b =? 0) && src_active a (word * 32 + b)
  then a <| ap_pending := upd (ap_pending a) word (ap_pending a word |! bit b) |> else a.

Definition aplic_set_pending (a : rv_aplic) (word mask : Z) : rv_aplic :=
  fold_left (set_pending_step word mask) bits32 a.

(** ** The registers *)

Definition in_range (off first words : Z) : bool := (first <=? off) && (off <? first + 4 * words).

(** The rectified inputs, word 0. *)
Definition in_clrip (a : rv_aplic) : Z :=
  fold_left (fun out i =>
    let sm := ap_sourcecfg a i &! 7 in
    if ((sm =? RV_APLIC_SM_LEVEL_HIGH) || (sm =? RV_APLIC_SM_LEVEL_LOW)) && negb (ap_pending a 0 &! bit i =? 0)
    then out |! bit i else out) (range 1 31) 0.

(** [claimi]: the value read and what reading it does. *)
Definition aplic_claim (a : rv_aplic) : Z * rv_aplic * list aplic_call :=
  let topi := aplic_topi a in
  let '(a, calls) :=
    if topi =? 0 then (a <| ap_iforce := 0 |>, [])
    else let src := Z.shiftr topi 16 in aplic_clear_pending a (src / 32) (bit (src mod 32)) in
  (topi, a, calls ++ aplic_update a).

Definition idc_read (a : rv_aplic) (reg : Z) : Z * rv_aplic * list aplic_call :=
  if reg =? RV_APLIC_IDC_IDELIVERY then (ap_idelivery a, a, [])
  else if reg =? RV_APLIC_IDC_IFORCE then (ap_iforce a, a, [])
  else if reg =? RV_APLIC_IDC_ITHRESHOLD then (ap_ithreshold a, a, [])
  else if reg =? RV_APLIC_IDC_TOPI then (aplic_topi a, a, [])
  else if reg =? RV_APLIC_IDC_CLAIMI then aplic_claim a
  else (0, a, []).

Definition aplic_read (a : rv_aplic) (off size : Z) : emu_fault * option Z * rv_aplic * list aplic_call :=
  if negb (size =? 4) || negb (off &! 3 =? 0) then (EMU_FAULT_LOAD, None, a, [])
  else
    let ret v := (EMU_FAULT_NONE, Some v, a, []) in
    if off =? RV_APLIC_DOMAINCFG then ret (RV_APLIC_DOMAINCFG_RO |! (ap_domaincfg a &! RV_APLIC_DOMAINCFG_IE))
    else if in_range off RV_APLIC_SOURCECFG 1023 then
      let i := (off - RV_APLIC_SOURCECFG) / 4 + 1 in
      ret (if i <? RV_APLIC_SOURCES then ap_sourcecfg a i &! 7 else 0)
    else if in_range off RV_APLIC_TARGET 1023 then
      let i := (off - RV_APLIC_TARGET) / 4 + 1 in
      ret (if (i <? RV_APLIC_SOURCES) && src_active a i then ap_target a i else 0)
    else if in_range off RV_APLIC_SETIP 32 then
      let w := (off - RV_APLIC_SETIP) / 4 in ret (if w <? RV_APLIC_WORDS then ap_pending a w else 0)
    else if in_range off RV_APLIC_SETIE 32 then
      let w := (off - RV_APLIC_SETIE) / 4 in ret (if w <? RV_APLIC_WORDS then ap_enabled a w else 0)
    else if off =? RV_APLIC_IN_CLRIP then ret (in_clrip a)
    else if in_range off RV_APLIC_IDC 8 then
      let '(v, a, calls) := idc_read a (off - RV_APLIC_IDC) in (EMU_FAULT_NONE, Some v, a, calls)
    else ret 0.

(** What a write of [sourcecfg] leaves there. *)
Definition sourcecfg_value (val : Z) : Z :=
  let sm := if negb (val &! 1024 =? 0) then RV_APLIC_SM_INACTIVE else val &! 7 in
  if (sm =? 2) || (sm =? 3) then RV_APLIC_SM_INACTIVE else sm.

Definition write_sourcecfg (a : rv_aplic) (i val : Z) : rv_aplic :=
  let sm := sourcecfg_value val in
  let a := a <| ap_sourcecfg := upd (ap_sourcecfg a) i sm |> in
  if sm =? RV_APLIC_SM_INACTIVE then
    let w := i / 32 in
    let keep := not32 (bit (i mod 32)) in
    a <| ap_pending := upd (ap_pending a) w (ap_pending a w &! keep) |>
      <| ap_enabled := upd (ap_enabled a) w (ap_enabled a w &! keep) |>
  else a.

(** The four registers that name a source. *)
Definition num_write (a : rv_aplic) (off val : Z) : option (rv_aplic * list aplic_call) :=
  let w := val / 32 in
  let b := bit (val mod 32) in
  let named := (val <? RV_APLIC_SOURCES) && negb (val =? 0) in
  if off =? RV_APLIC_SETIPNUM then
    Some (if val <? RV_APLIC_SOURCES then aplic_set_pending a w b else a, [])
  else if off =? RV_APLIC_CLRIPNUM then Some (if named then aplic_clear_pending a w b else (a, []))
  else if off =? RV_APLIC_SETIENUM then
    Some (if named then a <| ap_enabled := upd (ap_enabled a) w (ap_enabled a w |! b) |> else a, [])
  else if off =? RV_APLIC_CLRIENUM then
    Some (if named then a <| ap_enabled := upd (ap_enabled a) w (ap_enabled a w &! not32 b) |> else a, [])
  else None.

Definition idc_write (a : rv_aplic) (reg val : Z) : rv_aplic :=
  if reg =? RV_APLIC_IDC_IDELIVERY then a <| ap_idelivery := val &! 1 |>
  else if reg =? RV_APLIC_IDC_IFORCE then a <| ap_iforce := val &! 1 |>
  else if reg =? RV_APLIC_IDC_ITHRESHOLD then a <| ap_ithreshold := val &! 255 |>
  else a.

Definition aplic_write (a : rv_aplic) (off size val : Z) : emu_fault * rv_aplic * list aplic_call :=
  if negb (size =? 4) || negb (off &! 3 =? 0) then (EMU_FAULT_STORE, a, [])
  else
    let done '(a, calls) := (EMU_FAULT_NONE, a, calls ++ aplic_update a) in
    if off =? RV_APLIC_DOMAINCFG then done (a <| ap_domaincfg := val &! RV_APLIC_DOMAINCFG_IE |>, [])
    else if in_range off RV_APLIC_SOURCECFG 1023 then
      let i := (off - RV_APLIC_SOURCECFG) / 4 + 1 in
      if i <? RV_APLIC_SOURCES then done (write_sourcecfg a i val, []) else (EMU_FAULT_NONE, a, [])
    else if in_range off RV_APLIC_TARGET 1023 then
      let i := (off - RV_APLIC_TARGET) / 4 + 1 in
      if i <? RV_APLIC_SOURCES then done (a <| ap_target := upd (ap_target a) i (u8 (val &! 255)) |>, [])
      else (EMU_FAULT_NONE, a, [])
    else if in_range off RV_APLIC_SETIP 32 then
      let w := (off - RV_APLIC_SETIP) / 4 in
      done (if w <? RV_APLIC_WORDS then aplic_set_pending a w val else a, [])
    else if in_range off RV_APLIC_IN_CLRIP 32 then
      let w := (off - RV_APLIC_IN_CLRIP) / 4 in
      done (if w <? RV_APLIC_WORDS then aplic_clear_pending a w val else (a, []))
    else if in_range off RV_APLIC_SETIE 32 then
      let w := (off - RV_APLIC_SETIE) / 4 in
      done (if w <? RV_APLIC_WORDS
            then a <| ap_enabled := upd (ap_enabled a) w (ap_enabled a w |! (if w =? 0 then val &! not32 1 else val)) |>
            else a, [])
    else if in_range off RV_APLIC_CLRIE 32 then
      let w := (off - RV_APLIC_CLRIE) / 4 in
      done (if w <? RV_APLIC_WORDS
            then a <| ap_enabled := upd (ap_enabled a) w (ap_enabled a w &! not32 val) |> else a, [])
    else
      match num_write a off val with
      | Some r => done r
      | None => done (if in_range off RV_APLIC_IDC 8 then idc_write a (off - RV_APLIC_IDC) val else a, [])
      end.

(** ** The platform's side *)

Definition rv_aplic_init (hart : bool) : rv_aplic * list aplic_call :=
  let a := Aplic 0 (fun _ => 0) (fun _ => 1) (fun _ => 0) (fun _ => 0) 0 0 0 hart false RV_INT_M_EXT in
  (a, aplic_update a).

Definition rv_aplic_set_eoi (a : rv_aplic) (fn : bool) : rv_aplic := a <| ap_eoi := fn |>.

Definition rv_aplic_raise (a : rv_aplic) (source : Z) : rv_aplic * list aplic_call :=
  if (source =? 0) || (RV_APLIC_SOURCES <=? source) then (a, [])
  else let a := aplic_set_pending a (source / 32) (bit (source mod 32)) in (a, aplic_update a).

Definition rv_aplic_set_smode (a : rv_aplic) (on : bool) : rv_aplic :=
  a <| ap_target_int := if on then RV_INT_S_EXT else RV_INT_M_EXT |>.
