(* ===== verification/RvAplicProps.v ===== *)
(** * What the interrupt controller promises

    Selection by priority ([topi_spec]), the claim protocol
    ([claims_in_order]) and the state every operation keeps ([aplic_ok]). *)

From stdpp Require Import base list.
From Stdlib Require Import ZArith Lia Sorted.
From S2P Require Import Prelude Bus RvHart RvTrap RvInv RvClint RvAplic.

Open Scope Z_scope.
Open Scope u32_scope.

(** ** Bits and ranges *)

Lemma bit_pow b : 0 <= b < 32 -> bit b = 2 ^ b.
Proof.
  intros H. unfold bit. rewrite Z.shiftl_1_l. apply u32_id. split; [apply Z.pow_nonneg; lia|].
  apply Z.pow_lt_mono_r; lia.
Qed.

Lemma land_bit x b : 0 <= b < 32 -> negb (x &! bit b =? 0) = Z.testbit x b.
Proof. intros H. rewrite bit_pow by assumption. apply has_bit. lia. Qed.

Lemma bit_testbit b i : 0 <= b < 32 -> 0 <= i -> Z.testbit (bit b) i = (i =? b).
Proof.
  intros H Hi. rewrite bit_pow by assumption. rewrite Z.pow2_bits_eqb by lia. apply Z.eqb_sym.
Qed.

Lemma not_bit_testbit b i : 0 <= b < 32 -> 0 <= i -> Z.testbit (not32 (bit b)) i = (i <? 32) && negb (i =? b).
Proof.
  intros H Hi. unfold not32. change (2 ^ 32 - 1) with (Z.ones 32).
  rewrite Z.lxor_spec, u32_testbit, bit_testbit, Z.testbit_ones_nonneg by lia.
  destruct (i <? 32), (i =? b); reflexivity.
Qed.

Lemma in_range_list x from n : In x (range from n) <-> from <= x < from + Z.of_nat n.
Proof.
  unfold range. rewrite in_map_iff. split.
  - intros (k & <- & Hk). apply in_seq in Hk. lia.
  - intros H. exists (Z.to_nat (x - from)). split; [lia|]. apply in_seq. lia.
Qed.

Lemma range_sorted from n : StronglySorted Z.lt (range from n).
Proof.
  unfold range. assert (H : forall k, StronglySorted Z.lt (map (fun i => from + Z.of_nat i) (seq k n))).
  { induction n as [|n IH]; intros k; cbn; constructor; [apply IH|]. apply List.Forall_forall. intros x Hx.
    apply in_map_iff in Hx as (j & <- & Hj). apply in_seq in Hj. lia. }
  apply H.
Qed.

Lemma in_sources i : In i sources <-> 0 < i < RV_APLIC_SOURCES.
Proof. unfold sources. rewrite in_range_list. unfold RV_APLIC_SOURCES. lia. Qed.

Lemma word_bit i : 0 <= i -> 0 <= i mod 32 < 32 /\ 0 <= i / 32 /\ i = i / 32 * 32 + i mod 32.
Proof. intros H. pose proof (Z.mod_pos_bound i 32). pose proof (Z.div_pos i 32). pose proof (Z.div_mod i 32). lia. Qed.

(** ** Selection *)

Definition pending_bit (a : rv_aplic) (i : Z) : bool := Z.testbit (ap_pending a (i / 32)) (i mod 32).
Definition enabled_bit (a : rv_aplic) (i : Z) : bool := Z.testbit (ap_enabled a (i / 32)) (i mod 32).

Lemma src_ready_spec a i : 0 <= i -> src_ready a i = pending_bit a i && enabled_bit a i && src_active a i.
Proof.
  intros H. unfold src_ready. destruct (word_bit i H) as (Hb & _). rewrite land_bit by assumption. apply f_equal2; [|reflexivity].
  apply Z.land_spec.
Qed.

(** Lower number first, ties to the lower source. *)
Definition before (a : rv_aplic) (i j : Z) : Prop := src_prio a i < src_prio a j \/ src_prio a i = src_prio a j /\ i < j.

(** What the walk has found among the sources it has seen. *)
Definition best_of (a : rv_aplic) (seen : list Z) (best : Z * Z) : Prop :=
  (fst best = 0 /\ forall j, In j seen -> src_ready a j = false) \/
  (In (fst best) seen /\ src_ready a (fst best) = true /\ snd best = src_prio a (fst best) /\
   forall j, In j seen -> src_ready a j = true -> j = fst best \/ before a (fst best) j).

Lemma topi_walk a : forall todo seen best, best_of a seen best -> (forall i j, In i seen -> In j todo -> i < j) ->
  StronglySorted Z.lt todo -> (forall j, In j (seen ++ todo) -> 0 < j) ->
  best_of a (seen ++ todo) (fold_left (topi_step a) todo best).
Proof.
  induction todo as [|i todo IH]; intros seen best Hb Hlt Hs Hp; cbn [fold_left]; [rewrite app_nil_r; exact Hb|].
  replace (seen ++ i :: todo) with ((seen ++ [i]) ++ todo) in * by (rewrite <- app_assoc; reflexivity).
  apply StronglySorted_inv in Hs as [Hs Hi]. rewrite List.Forall_forall in Hi.
  assert (Hpos : 0 < i) by (apply Hp; rewrite !in_app_iff; cbn; auto).
  apply IH; [|intros x y Hx Hy; apply in_app_iff in Hx as [Hx|[<-|[]]]; [apply Hlt; cbn; auto|auto]|exact Hs|exact Hp].
  unfold topi_step. destruct best as [s p]. cbn [fst snd] in *. destruct (src_ready a i) eqn:Er; cbn [negb].
  - destruct Hb as [[H0 Hn]|(Hin & Hr & Hsp & Hmin)]; cbn [fst snd] in *.
    + subst s. cbn [Z.eqb orb]. right. cbn. split; [apply in_app_iff; cbn; auto|]. split; [exact Er|]. split; [reflexivity|].
      intros j Hj Hr. apply in_app_iff in Hj as [Hj|[<-|[]]]; [|auto]. rewrite (Hn j Hj) in Hr. discriminate.
    + assert (s <> 0). { specialize (Hp s). rewrite !in_app_iff in Hp. specialize (Hp (or_introl (or_introl Hin))). lia. }
      destruct (Z.eqb_spec s 0); [contradiction|]. cbn [orb]. subst p. right.
      destruct (Z.ltb_spec (src_prio a i) (src_prio a s)); cbn.
      * split; [apply in_app_iff; cbn; auto|]. split; [exact Er|]. split; [reflexivity|]. intros j Hj Hrj.
        apply in_app_iff in Hj as [Hj|[<-|[]]]; [|auto]. right. left. destruct (Hmin j Hj Hrj) as [->|[|[]]]; lia.
      * split; [apply in_app_iff; auto|]. split; [exact Hr|]. split; [reflexivity|]. intros j Hj Hrj.
        apply in_app_iff in Hj as [Hj|[<-|[]]]; [auto|]. right. specialize (Hlt s i Hin (or_introl eq_refl)). unfold before. lia.
  - destruct Hb as [[H0 Hn]|(Hin & Hr & Hsp & Hmin)]; cbn [fst snd] in *.
    + left. split; [exact H0|]. intros j Hj. apply in_app_iff in Hj as [Hj|[<-|[]]]; auto.
    + right. split; [apply in_app_iff; auto|]. split; [exact Hr|]. split; [exact Hsp|]. intros j Hj Hrj.
      apply in_app_iff in Hj as [Hj|[<-|[]]]; [auto|congruence].
Qed.

(** A source the hart may be told of. *)
Definition deliverable (a : rv_aplic) (i : Z) : bool :=
  (0 <? i) && (i <? RV_APLIC_SOURCES) && src_ready a i && ((ap_ithreshold a =? 0) || (src_prio a i <? ap_ithreshold a)).

(** The first of them, in the order of priority. *)
Definition first_deliverable (a : rv_aplic) (s : Z) : Prop :=
  deliverable a s = true /\ forall j, deliverable a j = true -> j = s \/ before a s j.

Lemma topi_value s p : 0 <= s < RV_APLIC_SOURCES ->
  Z.shiftr ((s <<! 16) |! (p &! 255)) 16 = s /\ ((s <<! 16) |! (p &! 255)) &! 255 = p &! 255.
Proof.
  intros H. unfold RV_APLIC_SOURCES in H. rewrite (u32_id (Z.shiftl s 16)) by (unfold is_u32; rewrite Z.shiftl_mul_pow2; lia).
  split; apply Z.bits_inj'; intros i Hi.
  - rewrite Z.shiftr_spec, Z.lor_spec, Z.shiftl_spec, Z.land_spec by lia. replace (i + 16 - 16) with i by lia.
    change 255 with (Z.ones 8). rewrite Z.testbit_ones_nonneg by lia. destruct (Z.ltb_spec (i + 16) 8); [lia|].
    rewrite andb_false_r, orb_false_r. reflexivity.
  - rewrite !Z.land_spec, Z.lor_spec, Z.shiftl_spec, Z.land_spec by lia. change 255 with (Z.ones 8).
    rewrite Z.testbit_ones_nonneg by lia. destruct (Z.ltb_spec i 8).
    + rewrite Z.testbit_neg_r by lia. cbn. rewrite andb_true_r. reflexivity.
    + rewrite !andb_false_r. reflexivity.
Qed.

Lemma topi_spec a :
  (aplic_topi a = 0 /\ forall j, deliverable a j = false) \/
  (aplic_topi a <> 0 /\ first_deliverable a (Z.shiftr (aplic_topi a) 16) /\
   aplic_topi a &! 255 = src_prio a (Z.shiftr (aplic_topi a) 16) &! 255).
Proof.
  assert (W : best_of a sources (fold_left (topi_step a) sources (0, 0))).
  { apply (topi_walk a sources [] (0, 0)); [left; split; [reflexivity|intros j []]|intros i j []|apply range_sorted|].
    intros j Hj. apply in_sources in Hj. lia. }
  assert (N : forall j, src_ready a j = true -> 0 < j < RV_APLIC_SOURCES -> In j sources) by (intros; apply in_sources; assumption).
  unfold aplic_topi. destruct (fold_left _ _ _) as [s p]. destruct W as [[H0 Hn]|(Hin & Hr & Hsp & Hmin)]; cbn [fst snd] in *.
  - subst s. cbn. left. split; [reflexivity|]. intros j. unfold deliverable.
    destruct (src_ready a j) eqn:Er; [|rewrite andb_false_r; reflexivity].
    destruct (Z.ltb_spec 0 j); [|reflexivity]. destruct (Z.ltb_spec j RV_APLIC_SOURCES); [|reflexivity].
    rewrite (Hn j) in Er by (apply in_sources; lia). discriminate.
  - subst p. apply in_sources in Hin as Hs. destruct (Z.eqb_spec s 0); [lia|].
    assert (D : forall j, deliverable a j = true -> j = s \/ before a s j).
    { intros j Hd. unfold deliverable in Hd. bool_hyps. apply Hmin; [apply in_sources; lia|assumption]. }
    destruct (negb (ap_ithreshold a =? 0) && (ap_ithreshold a <=? src_prio a s)) eqn:Et.
    + left. split; [reflexivity|]. intros j. destruct (deliverable a j) eqn:Ed; [|reflexivity]. exfalso.
      pose proof (D j Ed) as Hj. unfold deliverable in Ed. bool_hyps.
      destruct (Z.eqb_spec (ap_ithreshold a) 0); [contradiction|]. cbn [orb] in *. bool_hyps.
      destruct Hj as [->|[|[]]]; lia.
    + right. destruct (topi_value s (src_prio a s) ltac:(lia)) as [V1 V2]. rewrite V1, V2. split.
      * intros E. rewrite E in V1. rewrite Z.shiftr_0_l in V1. lia.
      * split; [|reflexivity]. split; [|exact D]. unfold deliverable. rewrite Hr.
        destruct (Z.ltb_spec 0 s); [|lia]. destruct (Z.ltb_spec s RV_APLIC_SOURCES); [|lia]. cbn.
        destruct (Z.eqb_spec (ap_ithreshold a) 0); [reflexivity|]. cbn in *. apply Z.leb_gt in Et. apply Z.ltb_lt. exact Et.
Qed.

(** ** The claim protocol *)

Lemma clear_pending_word a w mask :
  ap_pending (fst (aplic_clear_pending a w mask)) = upd (ap_pending a) w (ap_pending a w &! not32 mask).
Proof. reflexivity. Qed.

Lemma pending_cleared a s j : 0 <= s -> 0 <= j ->
  pending_bit (fst (aplic_clear_pending a (s / 32) (bit (s mod 32)))) j = pending_bit a j && negb (j =? s).
Proof.
  intros Hs Hj. unfold pending_bit. rewrite clear_pending_word.
  destruct (word_bit s Hs) as (Bs & _ & Es), (word_bit j Hj) as (Bj & _ & Ej). unfold upd.
  destruct (Z.eqb_spec (j / 32) (s / 32)) as [Ew|Hw].
  - rewrite <- Ew, Z.land_spec, not_bit_testbit by lia. destruct (Z.ltb_spec (j mod 32) 32); [|lia]. cbn [andb].
    f_equal. f_equal. destruct (Z.eqb_spec (j mod 32) (s mod 32)), (Z.eqb_spec j s); try reflexivity; subst; lia.
  - destruct (Z.eqb_spec j s); [subst; lia|]. rewrite andb_true_r. reflexivity.
Qed.

Lemma one_bit k : 0 <= k < 32 -> List.filter (fun b => b =? k) bits32 = [k].
Proof.
  intros H. assert (Hall : List.Forall (fun k => List.filter (fun b => b =? k) bits32 = [k]) bits32) by (repeat constructor).
  rewrite List.Forall_forall in Hall. apply Hall. apply in_range_list. lia.
Qed.

(** Completing one source tells the platform of that source. *)
Lemma clear_one_calls a s : 0 <= s ->
  snd (aplic_clear_pending a (s / 32) (bit (s mod 32))) = if pending_bit a s && ap_eoi a then [Eoi s] else [].
Proof.
  intros Hs. unfold aplic_clear_pending. cbn [snd]. destruct (word_bit s Hs) as (Bs & _ & Es).
  rewrite land_bit by assumption. change (Z.testbit (ap_pending a (s / 32)) (s mod 32)) with (pending_bit a s).
  destruct (pending_bit a s) eqn:Ep; [|reflexivity]. cbn [andb]. destruct (ap_eoi a); [|reflexivity].
  rewrite (filter_ext_in _ (fun b => b =? s mod 32)).
  - rewrite one_bit by assumption. cbn. rewrite <- Es. reflexivity.
  - intros b Hb. apply in_range_list in Hb. rewrite land_bit, Z.land_spec, bit_testbit by lia.
    destruct (Z.eqb_spec b (s mod 32)) as [->|]; [|apply andb_false_r].
    change (pending_bit a s && true = true). rewrite Ep. reflexivity.
Qed.

(** What a claim keeps. *)
Definition same_setup (a a' : rv_aplic) : Prop :=
  ap_enabled a' = ap_enabled a /\ ap_sourcecfg a' = ap_sourcecfg a /\ ap_target a' = ap_target a /\
  ap_ithreshold a' = ap_ithreshold a /\ ap_eoi a' = ap_eoi a.

Lemma same_setup_prio a a' i : same_setup a a' -> src_prio a' i = src_prio a i.
Proof. intros (_ & _ & T & _). unfold src_prio. rewrite T. reflexivity. Qed.

Lemma same_setup_before a a' i j : same_setup a a' -> before a' i j <-> before a i j.
Proof. intros H. unfold before. rewrite !(same_setup_prio a a') by assumption. reflexivity. Qed.

Lemma deliverable_less a a' s : same_setup a a' ->
  (forall j, 0 <= j -> pending_bit a' j = pending_bit a j && negb (j =? s)) ->
  forall j, deliverable a' j = deliverable a j && negb (j =? s).
Proof.
  intros Hs Hp j. unfold deliverable. rewrite (same_setup_prio a a') by assumption. destruct Hs as (E & C & _ & T & _).
  destruct (Z.ltb_spec 0 j); [|reflexivity]. rewrite !src_ready_spec, Hp by lia. unfold enabled_bit, src_active.
  rewrite E, C, T. destruct (j <? _), (pending_bit a j), (j =? s), (Z.testbit _ _); cbn; rewrite ?andb_false_r, ?andb_true_r; reflexivity.
Qed.

(** A claim: the first deliverable source, dropped and completed; or none. *)
Lemma claim_spec a : let '(v, a', calls) := aplic_claim a in same_setup a a' /\
  ((v = 0 /\ (forall j, deliverable a j = false) /\ ap_pending a' = ap_pending a /\ calls = aplic_update a') \/
   (v <> 0 /\ first_deliverable a (Z.shiftr v 16) /\
    (forall j, 0 <= j -> pending_bit a' j = pending_bit a j && negb (j =? Z.shiftr v 16)) /\
    calls = (if ap_eoi a then [Eoi (Z.shiftr v 16)] else []) ++ aplic_update a')).
Proof.
  unfold aplic_claim. pose proof (topi_spec a) as T. revert T. generalize (aplic_topi a). intros t.
  intros [[H0 Hn]|(H0 & Hf & _)].
  - rewrite H0. cbn [Z.eqb]. split; [repeat split|]. left. auto.
  - destruct (Z.eqb_spec t 0); [contradiction|]. set (s := Z.shiftr t 16) in *.
    assert (Hs : 0 <= s) by (destruct Hf as [Hd _]; unfold deliverable in Hd; bool_hyps; lia).
    pose proof (clear_one_calls a s Hs) as Hc. pose proof (fun j => pending_cleared a s j Hs) as Hp.
    assert (St : same_setup a (fst (aplic_clear_pending a (s / 32) (bit (s mod 32))))) by (repeat split).
    destruct (aplic_clear_pending a (s / 32) (bit (s mod 32))) as [a' calls]. cbn [fst snd] in *. split; [exact St|]. right.
    split; [assumption|]. split; [exact Hf|]. split; [exact Hp|]. rewrite Hc.
    destruct Hf as [Hd _]. unfold deliverable in Hd. bool_hyps. rewrite src_ready_spec in * by assumption. bool_hyps.
    match goal with H : pending_bit a s = true |- _ => rewrite H end. reflexivity.
Qed.

(** The guest's loop: claim until nothing is left. *)
Fixpoint claims (n : nat) (a : rv_aplic) : list Z * list aplic_call * rv_aplic :=
  match n with
  | O => ([], [], a)
  | S n =>
      let '(v, a, calls) := aplic_claim a in
      if v =? 0 then ([], calls, a)
      else let '(l, more, a) := claims n a in (Z.shiftr v 16 :: l, calls ++ more, a)
  end.

Definition waiting (a : rv_aplic) : nat := length (List.filter (deliverable a) sources).

Lemma filter_less {A} (p q : A -> bool) (l : list A) x :
  (forall y, q y = true -> p y = true) -> In x l -> p x = true -> q x = false ->
  (length (List.filter q l) < length (List.filter p l))%nat.
Proof.
  intros Hpq Hin Hp Hq. assert (Hle : forall l, (length (List.filter q l) <= length (List.filter p l))%nat).
  { clear -Hpq. induction l as [|y l IH]; cbn; [lia|]. specialize (Hpq y). destruct (q y); [rewrite Hpq by reflexivity; cbn; lia|].
    destruct (p y); cbn; lia. }
  induction l as [|y l IH]; [destruct Hin|]. cbn. destruct Hin as [->|Hin].
  - rewrite Hp, Hq. cbn. specialize (Hle l). lia.
  - specialize (IH Hin). specialize (Hpq y). destruct (q y); [rewrite Hpq by reflexivity; cbn; lia|]. destruct (p y); cbn; lia.
Qed.

Lemma waiting_less a a' s : deliverable a s = true -> (forall j, deliverable a' j = deliverable a j && negb (j =? s)) ->
  (waiting a' < waiting a)%nat.
Proof.
  intros Hd Hl. apply (filter_less _ _ _ s).
  - intros y Hy. rewrite Hl in Hy. apply andb_true_iff in Hy as [Hy _]. exact Hy.
  - unfold deliverable in Hd. bool_hyps. apply in_sources. lia.
  - exact Hd.
  - rewrite Hl, Z.eqb_refl, andb_false_r. reflexivity.
Qed.

Lemma waiting_none a : waiting a = 0%nat -> forall j, deliverable a j = false.
Proof.
  intros H j. destruct (deliverable a j) eqn:E; [|reflexivity]. exfalso.
  assert (Hin : In j (List.filter (deliverable a) sources)).
  { apply filter_In. split; [|exact E]. unfold deliverable in E. bool_hyps. apply in_sources. lia. }
  unfold waiting in H. destruct (List.filter _ _); [destruct Hin|discriminate].
Qed.

(** The completions among the calls. *)
Definition eois (calls : list aplic_call) : list Z :=
  flat_map (fun c => match c with Eoi s => [s] | SetIrq _ _ => [] end) calls.

Lemma eois_app l l' : eois (l ++ l') = eois l ++ eois l'.
Proof. apply flat_map_app. Qed.

Lemma eois_update a : eois (aplic_update a) = [].
Proof. unfold aplic_update. destruct (ap_hart a); reflexivity. Qed.

Lemma claims_spec : forall n a, (waiting a <= n)%nat ->
  let '(l, calls, a') := claims n a in
  StronglySorted (before a) l /\ (forall i, In i l <-> deliverable a i = true) /\
  (forall i, 0 <= i -> pending_bit a' i = pending_bit a i && negb (existsb (Z.eqb i) l)) /\
  eois calls = (if ap_eoi a then l else []) /\ (forall j, deliverable a' j = false).
Proof.
  induction n as [|n IH]; intros a Hn; cbn [claims].
  { pose proof (waiting_none a ltac:(lia)) as D. cbn. split; [constructor|]. split; [intros i; rewrite D; intuition discriminate|].
    split; [intros; rewrite andb_true_r; reflexivity|]. split; [destruct (ap_eoi a); reflexivity|exact D]. }
  pose proof (claim_spec a) as H. destruct (aplic_claim a) as [[v a1] calls]. destruct H as [St [(Hv & D & Ep & Ec)|(Hv & Hf & Ep & Ec)]].
  - rewrite Hv. cbn. split; [constructor|]. split; [intros i; rewrite D; intuition discriminate|].
    split; [intros; unfold pending_bit; rewrite Ep, andb_true_r; reflexivity|].
    split; [rewrite Ec, eois_update; destruct (ap_eoi a); reflexivity|].
    intros j. specialize (D j). unfold deliverable in *. rewrite (same_setup_prio a a1) by assumption.
    destruct St as (E1 & E2 & E3 & E4 & _). unfold src_ready, src_active in *. rewrite E1, E2, E4, Ep. exact D.
  - destruct (Z.eqb_spec v 0); [contradiction|]. set (s := Z.shiftr v 16) in *.
    pose proof (deliverable_less a a1 s St Ep) as Dl. destruct Hf as [Hd Hmin].
    pose proof (waiting_less a a1 s Hd Dl). specialize (IH a1 ltac:(lia)). destruct (claims n a1) as [[l more] a2].
    destruct IH as (S1 & S2 & S3 & S4 & S5). assert (Hs : 0 <= s) by (unfold deliverable in Hd; bool_hyps; lia).
    split; [|split; [|split; [|split]]].
    + constructor.
      * clear -S1 St. induction S1 as [|x l _ IH F]; constructor; [exact IH|]. eapply List.Forall_impl; [|exact F].
        intros y. apply (same_setup_before a a1). exact St.
      * apply List.Forall_forall. intros y Hy. apply S2 in Hy. rewrite Dl in Hy. bool_hyps. destruct (Hmin y H0); [contradiction|assumption].
    + intros i. cbn [In]. rewrite S2, Dl. destruct (Z.eqb_spec i s) as [->|Hne].
      * rewrite andb_false_r. intuition.
      * rewrite andb_true_r. intuition congruence.
    + intros i Hi. rewrite S3, Ep by assumption. cbn [existsb]. destruct (pending_bit a i), (i =? s); reflexivity.
    + rewrite eois_app, S4, Ec, eois_app, eois_update, app_nil_r. destruct St as (_ & _ & _ & _ & E5). rewrite E5.
      destruct (ap_eoi a); reflexivity.
    + exact S5.
Qed.

Lemma waiting_bound a : (waiting a <= 127)%nat.
Proof. unfold waiting. etransitivity; [apply List.filter_length_le|]. reflexivity. Qed.

(** What the registers promise: a source in range that is pending, enabled and
    not inactive, with a priority -- 0 is documented as never deliver -- under
    the threshold; the lower number first, ties to the lower source. *)
Definition wanted (a : rv_aplic) (i : Z) : bool :=
  (0 <? i) && (i <? RV_APLIC_SOURCES) && pending_bit a i && enabled_bit a i && negb (ap_sourcecfg a i mod 8 =? RV_APLIC_SM_INACTIVE) &&
  negb (ap_target a i =? 0) && ((ap_ithreshold a =? 0) || (ap_target a i <? ap_ithreshold a)).
Definition ahead (a : rv_aplic) (i j : Z) : Prop := ap_target a i < ap_target a j \/ ap_target a i = ap_target a j /\ i < j.

(** Every source that waits has been given a priority. *)
Definition prioritised (a : rv_aplic) : Prop :=
  forall i, 0 < i < RV_APLIC_SOURCES -> pending_bit a i = true -> enabled_bit a i = true -> ap_target a i <> 0.

Lemma deliverable_wanted a i : deliverable a i = true -> ap_target a i <> 0 -> wanted a i = true.
Proof.
  unfold deliverable, wanted. intros H Ht. bool_hyps. rewrite src_ready_spec in * by lia. unfold src_active, src_prio in *. bool_hyps.
  destruct (Z.eqb_spec (ap_target a i) 0); [contradiction|].
  rewrite (proj2 (Z.ltb_lt 0 i)), (proj2 (Z.ltb_lt i _)) by lia. cbn [andb negb]. change 7 with (Z.ones 3) in *. rewrite Z.land_ones in * by lia. change (2 ^ 3) with 8 in *.
  repeat match goal with H : _ = true |- _ => rewrite H end. cbn [andb]. rewrite (proj2 (Z.eqb_neq (_ mod _) _)) by assumption. assumption || reflexivity.
Qed.

Lemma wanted_deliverable a i : wanted a i = true -> deliverable a i = true /\ ap_target a i <> 0.
Proof.
  unfold deliverable, wanted. intros H. bool_hyps. split; [|assumption]. rewrite src_ready_spec by lia. unfold src_active, src_prio.
  destruct (Z.eqb_spec (ap_target a i) 0); [contradiction|]. destruct (Z.eqb_spec i 0); [lia|].
  rewrite (proj2 (Z.ltb_lt 0 i)), (proj2 (Z.ltb_lt i _)) by lia. cbn [andb negb]. change 7 with (Z.ones 3). rewrite Z.land_ones by lia. change (2 ^ 3) with 8.
  repeat match goal with H : _ = true |- _ => rewrite H end. cbn [andb]. rewrite (proj2 (Z.eqb_neq (_ mod _) _)) by assumption. assumption || reflexivity.
Qed.

Lemma prioritised_ready a i : prioritised a -> deliverable a i = true -> ap_target a i <> 0.
Proof.
  intros H D. unfold deliverable in D. bool_hyps. rewrite src_ready_spec in * by lia. bool_hyps. apply H; [lia|assumption|assumption].
Qed.

Lemma before_ahead a i j : ap_target a i <> 0 -> ap_target a j <> 0 -> before a i j -> ahead a i j.
Proof.
  intros Hi Hj. unfold before, ahead, src_prio. destruct (Z.eqb_spec (ap_target a i) 0); [contradiction|]. destruct (Z.eqb_spec (ap_target a j) 0); [contradiction|]. auto.
Qed.

(** [C39] The claim protocol.  Where every source that is pending and enabled
    has been given a priority other than 0 -- which is documented as never
    deliver, while the code delivers it as 1 --, a guest that reads [claimi]
    until it answers 0 is given every source that was pending, enabled, not
    inactive and under the threshold, and nothing else: each once, in the
    order of priority, ties to the lower number.  127 reads are enough.
    Exactly those sources lose their pending bit, the platform is told of
    exactly those completions in that order, and nothing that may be delivered
    is left. *)
Theorem claims_in_order a : prioritised a ->
  let '(l, calls, a') := claims 127 a in
  StronglySorted (ahead a) l /\ (forall i, In i l <-> wanted a i = true) /\
  (forall i, 0 <= i -> pending_bit a' i = pending_bit a i && negb (existsb (Z.eqb i) l)) /\
  eois calls = (if ap_eoi a then l else []) /\ (forall j, wanted a' j = false).
Proof.
  intros P. pose proof (claims_spec 127 a (waiting_bound a)) as H. destruct (claims 127 a) as [[l calls] a']. destruct H as (H1 & H2 & H3 & H4 & H5).
  pose proof (fun i D => prioritised_ready a i P D) as T. split; [|split; [|split; [exact H3|split; [exact H4|]]]].
  - assert (D : forall i, In i l -> ap_target a i <> 0) by (intros i Hi; apply T, H2, Hi). clear -H1 D.
    induction H1 as [|x l _ IH F]; constructor; [apply IH; intros; apply D; right; assumption|]. rewrite List.Forall_forall in *.
    intros y Hy. apply before_ahead; [apply D; left; reflexivity|apply D; right; exact Hy|apply F, Hy].
  - intros i. rewrite H2. split; [intros D; apply deliverable_wanted; auto|apply wanted_deliverable].
  - intros j. destruct (wanted a' j) eqn:E; [|reflexivity]. apply wanted_deliverable in E as [E _]. rewrite H5 in E. discriminate.
Qed.

(** Sources 3 and 40 at priority 2, 5 at priority 1, all pending and enabled. *)
Definition three_waiting : rv_aplic :=
  Aplic RV_APLIC_DOMAINCFG_IE (fun _ => 1) (fun i => if i =? 5 then 1 else 2) (fun w => if w =? 0 then 40 else if w =? 1 then 256 else 0)
    (fun w => if w =? 0 then 40 else if w =? 1 then 256 else 0) 1 0 0 true true RV_INT_M_EXT.

Lemma claims_in_order_witness :
  prioritised three_waiting /\ fst (fst (claims 127 three_waiting)) = [5; 3; 40] /\ StronglySorted (ahead three_waiting) [5; 3; 40].
Proof.
  assert (P : prioritised three_waiting) by (intros i _ _ _; cbn; destruct (i =? 5); discriminate).
  split; [exact P|]. pose proof (claims_in_order three_waiting P) as H.
  assert (E : fst (fst (claims 127 three_waiting)) = [5; 3; 40]) by (vm_compute; reflexivity). split; [exact E|].
  destruct (claims 127 three_waiting) as [[l calls] a']. cbn [fst] in E. rewrite <- E. apply H.
Defined.
