(* ===== verification/RvTyped.v ===== *)
(** * The hart's registers fit their types

    The model computes on integers; the source on words.  [typed h] says that
    every register of the hart is within its C type.  This file shows that the
    values instructions compute are words, and that CSR accesses, traps and
    returns keep the registers typed. *)

From stdpp Require Import base list gmap.
From Stdlib Require Import ZArith Lia.
From S2P Require Import Prelude Bus BusProps RvHart RvBus RvPmp RvTrig RvMmu RvAccess RvTrap RvCsr RvDecode RvAtomic RvFpu RvInterp RvFrame IrTypes IrFloat.

Open Scope Z_scope.
Open Scope u32_scope.

Definition is_u64 (x : Z) : Prop := 0 <= x < 2 ^ 64.

Create HintDb typed.

(** A term without variables is checked by computing it. *)
Ltac closed_term c := let H := fresh in assert (H : True) by (clear; pose c; exact I); clear H.
#[export] Hint Extern 2 (is_u32 ?c) => closed_term c; apply is_u32b_spec; vm_compute; reflexivity : typed.
#[export] Hint Resolve u32_range is_u32_land is_u32_ldiff is_u32_lor is_u32_lxor is_u32_shiftr : typed.

#[export] Hint Extern 5 (0 <= _) => lia : typed.

Ltac typed := solve [eauto 10 with typed].

Lemma u64_range x : is_u64 (u64 x).
Proof. unfold is_u64, u64. apply Z.mod_pos_bound. lia. Qed.

Lemma u64_bits x : is_u64 x <-> 0 <= x /\ forall i, 64 <= i -> Z.testbit x i = false.
Proof.
  split.
  - intros [H0 H1]. split; [exact H0|]. intros i Hi. destruct (Z.eq_dec x 0) as [->|]; [apply Z.bits_0|].
    apply Z.bits_above_log2; [lia|]. apply Z.log2_lt_pow2; [lia|]. eapply Z.lt_le_trans; [exact H1|]. apply Z.pow_le_mono_r; lia.
  - intros [H0 Hb]. split; [exact H0|]. rewrite <- (Z.mod_small x (2 ^ 64)).
    + apply Z.mod_pos_bound. lia.
    + split; [exact H0|]. destruct (Z.eq_dec x 0) as [->|]; [lia|]. apply Z.log2_lt_pow2; [lia|].
      destruct (Z.lt_ge_cases (Z.log2 x) 64); [assumption|]. pose proof (Z.bit_log2 x ltac:(lia)) as B. rewrite Hb in B by lia. discriminate.
Qed.

Lemma is_u64_lor x y : is_u64 x -> is_u64 y -> is_u64 (Z.lor x y).
Proof.
  rewrite !u64_bits. intros [X0 X] [Y0 Y]. split; [apply Z.lor_nonneg; auto|]. intros i Hi. rewrite Z.lor_spec, X, Y by lia. reflexivity.
Qed.

Lemma is_u64_lxor x y : is_u64 x -> is_u64 y -> is_u64 (Z.lxor x y).
Proof.
  rewrite !u64_bits. intros [X0 X] [Y0 Y]. split; [apply Z.lxor_nonneg; tauto|]. intros i Hi. rewrite Z.lxor_spec, X, Y by lia. reflexivity.
Qed.

Lemma is_u64_land x y : is_u64 x -> is_u64 (Z.land x y).
Proof.
  rewrite !u64_bits. intros [X0 X]. split; [apply Z.land_nonneg; auto|]. intros i Hi. rewrite Z.land_spec, X by lia. reflexivity.
Qed.

Lemma is_u64_land_r x y : is_u64 y -> is_u64 (Z.land x y).
Proof. rewrite Z.land_comm. apply is_u64_land. Qed.

Lemma u32_u64 x : is_u32 x -> is_u64 x.
Proof. unfold is_u32, is_u64. lia. Qed.

(** One operand is enough for a conjunction. *)
Lemma is_u32_and_l x y : is_u32 x -> is_u32 (Z.land x y).
Proof.
  intros H. apply is_u32_intro; [|apply Z.land_nonneg; unfold is_u32 in H; lia].
  intros i Hi. rewrite Z.land_spec, is_u32_testbit_high by assumption. reflexivity.
Qed.

Lemma is_u32_and_r x y : is_u32 y -> is_u32 (Z.land x y).
Proof. rewrite Z.land_comm. apply is_u32_and_l. Qed.

Lemma is_u32_not x : is_u32 (not32 x).
Proof. unfold not32. apply is_u32_lxor; [apply u32_range|unfold is_u32; lia]. Qed.

Lemma is_u32_if (b : bool) x y : is_u32 x -> is_u32 y -> is_u32 (if b then x else y).
Proof. destruct b; auto. Qed.

#[export] Hint Resolve is_u32_if u64_range is_u64_lor is_u64_lxor is_u64_land is_u64_land_r u32_u64 is_u32_and_l is_u32_and_r is_u32_not : typed.
#[export] Hint Extern 2 (is_u64 ?c) => closed_term c; unfold is_u64; vm_compute; intuition discriminate : typed.

(** ** What the arithmetic instructions compute *)

Lemma bz_u32 b : is_u32 (bz b).
Proof. destruct b; unfold is_u32; cbn; lia. Qed.

Lemma b2z_u32 b : is_u32 (Z.b2z b).
Proof. exact (bz_u32 b). Qed.

Lemma fold_u32 {A} (f : Z -> A -> Z) l : (forall r x, is_u32 r -> is_u32 (f r x)) -> forall r, is_u32 r -> is_u32 (fold_left f l r).
Proof. intros H. induction l as [|x l IH]; intros r Hr; cbn; [exact Hr|]. apply IH, H, Hr. Qed.

Lemma clz_u32 v : is_u32 v -> is_u32 (zbb_clz v).
Proof.
  unfold zbb_clz, clz32, is_u32. intros H. destruct (Z.eqb_spec v 0); [lia|].
  pose proof (Z.log2_nonneg v). assert (Z.log2 v < 32) by (apply Z.log2_lt_pow2; lia). lia.
Qed.

Lemma ctz_u32 v : is_u32 v -> is_u32 (zbb_ctz v).
Proof.
  unfold zbb_ctz, ctz32, is_u32. intros H. destruct (Z.eqb_spec v 0); [lia|]. destruct v as [|p|p]; [lia| |lia].
  pose proof (ctz_pos_nonneg p). destruct (ctz_pos_div p) as (k & E & Hk).
  assert (2 ^ ctz_pos p <= Z.pos p) by (rewrite E; pose proof (Z.pow_pos_nonneg 2 (ctz_pos p)); nia).
  assert (ctz_pos p < 32) by (apply (Z.pow_lt_mono_r_iff 2); lia). lia.
Qed.

Lemma popcount_pos_size p : 0 <= popcount_pos p <= Z.of_nat (Pos.size_nat p).
Proof. induction p; cbn [popcount_pos Pos.size_nat]; lia. Qed.

Lemma popcount_u32 v : is_u32 v -> is_u32 (popcount32 v).
Proof.
  unfold is_u32. destruct v as [|p|p]; cbn [popcount32]; [lia| |lia]. intros H. pose proof (popcount_pos_size p).
  assert (Z.of_nat (Pos.size_nat p) <= 32); [|lia].
  assert (forall n p, Z.pos p < 2 ^ Z.of_nat n -> (Pos.size_nat p <= n)%nat) as B.
  { clear. induction n as [|n IH]; intros p Hp; [cbn in Hp; lia|]. rewrite Nat2Z.inj_succ, Z.pow_succ_r in Hp by lia.
    destruct p; cbn [Pos.size_nat]; [|apply le_n_S, IH; lia|]; [apply le_n_S, IH; lia|lia]. }
  specialize (B 32%nat p ltac:(cbn; lia)). lia.
Qed.

Lemma ror_u32 v n : is_u32 v -> is_u32 (zbb_ror v n).
Proof.
  intros H. unfold zbb_ror. assert (0 <= n &! 31) by (apply Z.land_nonneg; lia). destruct (_ =? 0); typed.
Qed.

Lemma rol_u32 v n : is_u32 v -> is_u32 (zbb_rol v n).
Proof.
  intros H. unfold zbb_rol. assert (0 <= n &! 31 < 32).
  { change 31 with (Z.ones 5). rewrite Z.land_ones by lia. apply Z.mod_pos_bound. lia. }
  assert (0 <= 32 - (n &! 31)) by lia. destruct (_ =? 0); typed.
Qed.

Lemma orcb_u32 v : is_u32 (zbb_orcb v).
Proof. apply fold_u32; [|typed]. intros r x Hr. destruct (has _ _); typed. Qed.

Lemma clmul_u32 a b : is_u32 (zbc_clmul a b) /\ is_u32 (zbc_clmulh a b) /\ is_u32 (zbc_clmulr a b).
Proof. unfold zbc_clmul, zbc_clmulh, zbc_clmulr, zbc_bit_mask. split; [|split]; (apply fold_u32; [|typed]); intros r x Hr; typed. Qed.

Lemma bswap_u32 v : is_u32 (bswap32 v).
Proof. unfold bswap32. typed. Qed.

#[export] Hint Resolve bz_u32 b2z_u32 clz_u32 ctz_u32 popcount_u32 ror_u32 rol_u32 orcb_u32 bswap_u32 : typed.

Lemma rs2_nonneg i : 0 <= rv_rs2 i.
Proof. unfold rv_rs2. apply Z.land_nonneg. lia. Qed.
#[export] Hint Resolve rs2_nonneg : typed.

(** Every branch of a chain of tests. *)
Ltac branches := repeat match goal with |- context [if ?b then _ else _] => destruct b end.

(** [Some v] with [v] a word. *)
Definition word_opt (o : option Z) : Prop := forall v, o = Some v -> is_u32 v.

Lemma word_some v : is_u32 v -> word_opt (Some v).
Proof. intros H w [= <-]. exact H. Qed.
Lemma word_none : word_opt None.
Proof. intros w [=]. Qed.
#[export] Hint Resolve word_some word_none : typed.

Lemma op_imm_u32 insn a : is_u32 a -> word_opt (op_imm insn a).
Proof. intros H. unfold op_imm, shift_left_imm, shift_right_imm. branches; typed. Qed.

Lemma muldiv_u32 f3 a b : is_u32 a -> is_u32 b -> is_u32 (op_muldiv f3 a b).
Proof.
  intros Ha Hb. unfold op_muldiv, mulh_ss, mulh_su, mulh_uu, rv_div_s, rv_rem_s, rv_div_u, rv_rem_u. branches; try typed.
  - unfold is_u32 in *. destruct (Z.eq_dec b 0) as [->|]; [rewrite Z.div_0_r; lia|]. split; [apply Z.div_pos; lia|].
    eapply Z.le_lt_trans; [apply Z.div_le_upper_bound with (q := a); nia|lia].
  - unfold is_u32 in *. destruct (Z.eq_dec b 0) as [->|]; [rewrite Z.mod_0_r; lia|]. pose proof (Z.mod_pos_bound a b). lia.
Qed.

Lemma op_reg_u32 insn a b : is_u32 a -> is_u32 b -> word_opt (op_reg insn a b).
Proof.
  intros Ha Hb. pose proof (muldiv_u32 (rv_funct3 insn) a b Ha Hb). destruct (clmul_u32 a b) as (C1 & C2 & C3).
  assert (0 <= b &! 31) by (apply Z.land_nonneg; lia).
  unfold op_reg, op_base, op_alt, op_minmax. branches; typed.
Qed.

Lemma amo_value_u32 f old src : is_u32 old -> is_u32 src -> is_u32 (amo_value f old src).
Proof. intros Ho Hs. unfold amo_value. branches; typed. Qed.

Lemma extend_u32 sg sz v : is_u32 v -> is_u32 (extend sg sz v).
Proof. intros H. unfold extend. destruct (_ && _); typed. Qed.

#[export] Hint Resolve op_imm_u32 op_reg_u32 amo_value_u32 extend_u32 : typed.

(** ** The registers *)

(** The page table is below 4 GB: bits 20 and 21 of [satp] are not kept. *)
Definition ppn_fits (v : Z) : Prop := v &! 3145728 = 0.

Lemma ppn_fits_zero : ppn_fits 0.
Proof. reflexivity. Qed.
Lemma ppn_fits_mask v : ppn_fits (v &! (SATP_MODE_SV32 |! SATP_ASID_MASK |! SATP_PPN_MASK)).
Proof. unfold ppn_fits. rewrite <- Z.land_assoc. apply Z.land_0_r. Qed.
#[export] Hint Resolve ppn_fits_zero ppn_fits_mask : typed.

(** What a CSR instruction reads and writes. *)
Record ctl (h : rv_hart) : Prop := {
  ct_mstatus : is_u32 (h_mstatus h);
  ct_mie : is_u32 (h_mie h);
  ct_mip : is_u32 (h_mip h);
  ct_mtvec : is_u32 (h_mtvec h);
  ct_mscratch : is_u32 (h_mscratch h);
  ct_mepc : is_u32 (h_mepc h);
  ct_mcause : is_u32 (h_mcause h);
  ct_mtval : is_u32 (h_mtval h);
  ct_mcountinhibit : is_u32 (h_mcountinhibit h);
  ct_mcounteren : is_u32 (h_mcounteren h);
  ct_menvcfg : is_u32 (h_menvcfg h);
  ct_senvcfg : is_u32 (h_senvcfg h);
  ct_stvec : is_u32 (h_stvec h);
  ct_sscratch : is_u32 (h_sscratch h);
  ct_sepc : is_u32 (h_sepc h);
  ct_scause : is_u32 (h_scause h);
  ct_stval : is_u32 (h_stval h);
  ct_scounteren : is_u32 (h_scounteren h);
  ct_medeleg : is_u32 (h_medeleg h);
  ct_mideleg : is_u32 (h_mideleg h);
  ct_satp : is_u32 (h_satp h);
  ct_ppn : ppn_fits (h_satp h);
  ct_tselect : is_u32 (h_tselect h);
  ct_hartid : is_u32 (h_hartid h);
  ct_tdata1 : forall i, is_u32 (h_tdata1 h i);
  ct_tdata2 : forall i, is_u32 (h_tdata2 h i);
  ct_pmpcfg : forall i, is_u32 (h_pmpcfg h i);
  ct_pmpaddr : forall i, is_u32 (h_pmpaddr h i);
  ct_mhpmevent : forall i, is_u32 (h_mhpmevent h i);
  ct_mhpmeventh : forall i, is_u32 (h_mhpmeventh h i);
  ct_mcycle : is_u64 (h_mcycle h);
  ct_minstret : is_u64 (h_minstret h);
  ct_mhpmcounter : forall i, is_u64 (h_mhpmcounter h i)
}.

(** What an instruction computes with. *)
Record dat (h : rv_hart) : Prop := {
  dt_x : forall r, is_u32 (h_x h r);
  dt_pc : is_u32 (h_pc h);
  dt_f : forall r, is_u64 (h_f h r);
  dt_fcsr : is_u32 (h_fcsr h);
  dt_split : is_u32 (h_split_at h)
}.

Definition typed (h : rv_hart) : Prop := ctl h /\ dat h.

(** The fields of a hart that was assigned to, one assignment at a time. *)
Ltac set_part P :=
  repeat match goal with
    | H : P ?h |- P ?h => exact H
    | |- P (if ?b then _ else _) => destruct b
    | |- P (set_field _ _ ?h) => let H := fresh "H" in assert (H : P h); [|destruct H; split; first [assumption|typed]]
    end.
Ltac set_ctl := set_part ctl.
Ltac set_dat := set_part dat.
Ltac set_typed := lazymatch goal with |- ctl _ => set_ctl | |- dat _ => set_dat end.

Lemma upd_u32 (f : Z -> Z) k v : (forall i, is_u32 (f i)) -> is_u32 v -> forall i, is_u32 (upd f k v i).
Proof. intros H Hv i. unfold upd. destruct (_ =? _); auto. Qed.
Lemma upd_u64 (f : Z -> Z) k v : (forall i, is_u64 (f i)) -> is_u64 v -> forall i, is_u64 (upd f k v i).
Proof. intros H Hv i. unfold upd. destruct (_ =? _); auto. Qed.
#[export] Hint Resolve upd_u32 upd_u64 : typed.

(** The derived state is not part of either. *)
Lemma refresh_ctl h : ctl h -> ctl (rv_pmp_refresh h) /\ ctl (rv_mmu_refresh h).
Proof.
  intros H. unfold rv_pmp_refresh, rv_mmu_refresh, rv_hart_refresh_fetch_guard. split; set_ctl.
Qed.

Lemma refresh_dat h : dat h -> dat (rv_pmp_refresh h) /\ dat (rv_mmu_refresh h).
Proof.
  intros H. unfold rv_pmp_refresh, rv_mmu_refresh, rv_hart_refresh_fetch_guard. split; set_dat.
Qed.

Lemma flush_typed h : (ctl h -> ctl (rv_dtlb_flush h) /\ ctl (rv_mmu_flush_tlb h)) /\ (dat h -> dat (rv_dtlb_flush h) /\ dat (rv_mmu_flush_tlb h)).
Proof. unfold rv_mmu_flush_tlb, rv_dtlb_flush. split; intros H; (split; [|]); [set_ctl|set_ctl|set_dat|set_dat]. Qed.

Lemma rearm_ctl h : ctl h -> ctl (rv_hpm_rearm h).
Proof. intros H. unfold rv_hpm_rearm. set_ctl. Qed.
Lemma rearm_dat h : dat h -> dat (rv_hpm_rearm h).
Proof. intros H. unfold rv_hpm_rearm. set_dat. Qed.

Lemma guard_typed h : (ctl h -> ctl (rv_hart_refresh_fetch_guard h)) /\ (dat h -> dat (rv_hart_refresh_fetch_guard h)).
Proof. unfold rv_hart_refresh_fetch_guard. split; intros H; [set_ctl|set_dat]. Qed.

Lemma trig_write_typed h val : (ctl h -> ctl (rv_trig_write_tdata1 h val)) /\ (dat h -> dat (rv_trig_write_tdata1 h val)).
Proof.
  unfold rv_trig_write_tdata1, rv_trig_refresh. cbv zeta. generalize (existsb (fun i => trig_armed
    (h_tdata1 (h <| h_tdata1 := upd (h_tdata1 h) (h_tselect h) (if Z.shiftr val MC_TYPE_SHIFT =? MC_TYPE_MCONTROL
      then (MC_TYPE_MCONTROL <<! MC_TYPE_SHIFT) |! (val &! MC_WMASK) else 0) |>) i)) triggers).
  intros b. destruct (_ <=? _); [auto|]. split; intros H; apply guard_typed; [set_ctl|set_dat].
Qed.

(** Step over them. *)
Ltac past_refresh :=
  repeat lazymatch goal with
    | |- ctl (rv_pmp_refresh _) => apply refresh_ctl
    | |- ctl (rv_mmu_refresh _) => apply refresh_ctl
    | |- dat (rv_pmp_refresh _) => apply refresh_dat
    | |- dat (rv_mmu_refresh _) => apply refresh_dat
    | |- ctl (rv_dtlb_flush _) => apply flush_typed
    | |- ctl (rv_mmu_flush_tlb _) => apply flush_typed
    | |- dat (rv_dtlb_flush _) => apply flush_typed
    | |- dat (rv_mmu_flush_tlb _) => apply flush_typed
    | |- ctl (rv_trig_write_tdata1 _ _) => apply trig_write_typed
    | |- dat (rv_trig_write_tdata1 _ _) => apply trig_write_typed
    | |- ctl (rv_hpm_rearm _) => apply rearm_ctl
    | |- dat (rv_hpm_rearm _) => apply rearm_dat
    end.

(** ** CSRs *)

Lemma envcfg_u32 val : is_u32 (envcfg_legal val).
Proof. unfold envcfg_legal. destruct (_ =? _); typed. Qed.

Lemma set_lo_u64 c val : is_u64 c -> is_u32 val -> is_u64 (set_lo c val).
Proof. unfold set_lo. typed. Qed.
Lemma set_hi_u64 c val : is_u64 c -> is_u64 (set_hi c val).
Proof. unfold set_hi. typed. Qed.

Lemma pmpcfg_merge_u32 val cur : is_u32 cur -> is_u32 (pmpcfg_merge val cur).
Proof. apply fold_u32. intros r b Hr. unfold pmpcfg_byte. destruct (has _ _); typed. Qed.

#[export] Hint Resolve envcfg_u32 set_lo_u64 set_hi_u64 pmpcfg_merge_u32 : typed.

Lemma mstatus_read_u32 h : ctl h -> is_u32 (mstatus_read h).
Proof. intros []. unfold mstatus_read. destruct (_ =? _); typed. Qed.

Lemma hpm_read_u32 h csr v : ctl h -> hpm_read h csr = Some v -> is_u32 v.
Proof.
  intros []. unfold hpm_read, lo32, hi32.
  repeat match goal with |- context [match hpm_index ?a ?b with _ => _ end] => destruct (hpm_index a b); [intros [= <-]; typed|] end.
  discriminate.
Qed.

Lemma scountovf_u32 h : is_u32 (scountovf_read h).
Proof.
  unfold scountovf_read. assert (H : forall l r, is_u32 r -> is_u32 (fold_left (fun v i =>
    if has (h_mhpmeventh h i) MHPMEVENTH_OF then v |! (1 <<! (i + RV_HPM_FIRST)) else v) l r)).
  { intros l. apply fold_u32. intros r x Hr. destruct (has _ _); typed. }
  destruct (_ =? _); [apply H; typed|apply is_u32_and_l, H; typed].
Qed.

#[export] Hint Resolve mstatus_read_u32 scountovf_u32 : typed.

Lemma csr_read_u32 h mt csr e v : ctl h -> rv_csr_read h mt csr = (e, v) -> is_u32 e /\ is_u32 v.
Proof.
  intros H. pose proof (mstatus_read_u32 h H). pose proof (fun v => hpm_read_u32 h csr v H) as Hh. destruct H.
  unfold rv_csr_read, csr_read_range, counter_read, ok, illegal, lo32, hi32.
  repeat match goal with |- (if ?b then _ else _) = _ -> _ => destruct b; [branches; intros [= <- <-]; split; typed|] end.
  destruct (hpm_read h csr) as [w|]; intros [= <- <-]; split; auto; typed.
Qed.

Ltac csr_done_typed :=
  unfold csr_done, csr_refuse; intros [= <- <-]; split; [typed|split; intros].

Lemma csr_write_range_typed h csr val e h' : is_u32 val -> csr_write_range h csr val = (e, h') ->
  is_u32 e /\ (ctl h -> ctl h') /\ (dat h -> dat h').
Proof.
  intros Hv. unfold csr_write_range.
  repeat match goal with |- context [match hpm_index ?a ?b with _ => _ end] =>
    destruct (hpm_index a b) as [i|]; [csr_done_typed; [try apply rearm_ctl|try apply rearm_dat]; set_ctl; set_dat|] end.
  destruct (_ && _); [|csr_done_typed; assumption]. csr_done_typed; unfold write_pmpaddr; destruct (pmpaddr_locked _ _); auto;
    apply flush_typed; [set_ctl|set_dat].
Qed.

Lemma csr_write_typed h csr val e h' : is_u32 val -> rv_csr_write h csr val = (e, h') ->
  is_u32 e /\ (ctl h -> ctl h') /\ (ctl h -> dat h -> dat h').
Proof.
  intros Hv. unfold rv_csr_write, write_mstatus, write_satp, write_pmpcfg.
  repeat match goal with |- (if ?b then _ else _) = _ -> _ => destruct b; [
    try match goal with |- (if ?b then _ else _) = _ -> _ => destruct b end; csr_done_typed;
      past_refresh; set_typed|] end.
  intros E. apply csr_write_range_typed in E as (? & ? & ?); auto.
Qed.

(** ** Traps, returns and counters *)

Lemma set_irq_typed h cause level : (ctl h -> ctl (rv_hart_set_irq h cause level)) /\ (dat h -> dat (rv_hart_set_irq h cause level)).
Proof. unfold rv_hart_set_irq. destruct level; split; intros H; [set_ctl|set_dat|set_ctl|set_dat]. Qed.

Lemma hpm_tick_typed h i inh : (ctl h -> ctl (hpm_tick h i inh)) /\ (dat h -> dat (hpm_tick h i inh)).
Proof.
  unfold hpm_tick. cbv zeta. destruct (has _ inh); [auto|]. destruct (_ && _); split; intros H.
  - apply set_irq_typed. set_ctl.
  - apply set_irq_typed. set_dat.
  - set_ctl.
  - set_dat.
Qed.

Lemma hpm_note_typed : forall fuel h i armed any exact inh,
  (ctl h -> ctl (hpm_note_from fuel h i armed any exact inh)) /\ (dat h -> dat (hpm_note_from fuel h i armed any exact inh)).
Proof.
  induction fuel as [|fuel IH]; intros h i armed any exact inh; cbn [hpm_note_from]; [auto|]. destruct (_ =? 0); [auto|].
  split; intros H; apply IH; destruct (_ || _); auto; apply hpm_tick_typed, H.
Qed.

Lemma enter_typed h cause tval : is_u32 (h_pc h) -> is_u32 cause -> is_u32 tval ->
  (ctl h -> ctl (enter_s h cause tval) /\ ctl (enter_m h cause tval)) /\
  (dat h -> dat (enter_s h cause tval) /\ dat (enter_m h cause tval)).
Proof.
  intros Hp Hc Ht. unfold enter_s, enter_m. split; intros H; (split; [|]); [set_ctl|set_ctl|set_dat|set_dat].
Qed.

Lemma trap_vector_u32 tvec cause : is_u32 tvec -> is_u32 (trap_vector tvec cause).
Proof. intros H. unfold trap_vector. destruct (_ && _); typed. Qed.
#[export] Hint Resolve trap_vector_u32 : typed.

Lemma return_typed h : ctl h -> (ctl (do_mret h) /\ ctl (do_sret h)) /\ (dat h -> dat (do_mret h) /\ dat (do_sret h)).
Proof.
  intros H. unfold do_mret, do_sret. cbv zeta.
  assert (R : forall h', (ctl h' -> ctl ((rv_mmu_refresh (rv_pmp_refresh h')) <| h_irq_dirty := true |>)) /\
                         (dat h' -> dat ((rv_mmu_refresh (rv_pmp_refresh h')) <| h_irq_dirty := true |>))).
  { intros h'. pose proof (refresh_ctl h'). pose proof (refresh_ctl (rv_pmp_refresh h')).
    pose proof (refresh_dat h'). pose proof (refresh_dat (rv_pmp_refresh h')).
    split; intros H'; [assert (ctl (rv_mmu_refresh (rv_pmp_refresh h'))) by tauto; set_ctl|].
    assert (dat (rv_mmu_refresh (rv_pmp_refresh h'))) by tauto. set_dat. }
  split; [split; apply R; set_ctl|]. intros D. split; apply R; set_dat.
Qed.

Lemma retire_typed h ctr : (ctl h -> ctl (retire h ctr)) /\ (dat h -> dat (retire h ctr)).
Proof. unfold retire. cbv zeta. split; intros H; [set_ctl|set_dat]. Qed.

(** A frame keeps the control registers, FS apart. *)
Lemma ldiff_u32 x y k : Z.ldiff x k = Z.ldiff y k -> is_u32 k -> is_u32 y -> is_u32 x.
Proof.
  intros E Hk Hy. assert (Hd : is_u32 (Z.ldiff x k)) by (rewrite E; typed).
  apply is_u32_intro.
  - intros i Hi. pose proof (is_u32_testbit_high _ i Hd Hi) as B. rewrite Z.ldiff_spec, (is_u32_testbit_high k) in B by assumption.
    rewrite andb_true_r in B. exact B.
  - destruct Hd as [Hd _]. apply Z.ldiff_nonneg in Hd as [|]; [assumption|]. unfold is_u32 in Hk. lia.
Qed.

Lemma frame_ctl h h' : frame h h' -> ctl h -> ctl h'.
Proof.
  intros F C. apply frame_kept in F.
  assert (Hm : is_u32 (h_mstatus h')) by (eapply ldiff_u32; [apply F|typed|apply C]).
  destruct F, C. split; try exact Hm; intros; match goal with K : ?f h' = _ |- context [?f h'] => rewrite K; auto end.
Qed.

(** ** Floating point *)

(** The types of SoftFloat: results of the format's width, flags a word. *)
Definition single (p : Z * Z) : Prop := is_u32 (fst p) /\ is_u32 (snd p).
Definition double (p : Z * Z) : Prop := is_u64 (fst p) /\ is_u32 (snd p).
Definition flagged (p : Z * Z) : Prop := is_u32 (snd p).

Class SoftFloatTyped (SF : SoftFloat) := {
  st_f32_bin : forall rm a b, Forall (fun f => single (f rm a b)) [f32_add; f32_sub; f32_mul; f32_div];
  st_f32_un : forall rm a, Forall (fun f => single (f rm a)) [f32_sqrt; i32_to_f32; ui32_to_f32; f16_to_f32; f64_to_f32];
  st_f32_fma : forall rm a b c, single (f32_mulAdd rm a b c);
  st_f64_bin : forall rm a b, Forall (fun f => double (f rm a b)) [f64_add; f64_sub; f64_mul; f64_div];
  st_f64_un : forall rm a, Forall (fun f => double (f rm a)) [f64_sqrt; i32_to_f64; ui32_to_f64; f16_to_f64; f32_to_f64];
  st_f64_fma : forall rm a b c, double (f64_mulAdd rm a b c);
  st_conv : forall rm a, Forall (fun f => flagged (f rm a)) [f32_to_f16; f64_to_f16; f32_to_i32; f32_to_ui32; f64_to_i32; f64_to_ui32]
}.

(** A result for an f register, [P] its width, or for an x register. *)
Definition fp_typed (P : Z -> Prop) (r : fp_result) : Prop :=
  match r with
  | FpIllegal => True
  | FpReg res flags => P res /\ is_u32 flags
  | FpX r flags => is_u32 r /\ is_u32 flags
  | FpXquiet r => is_u32 r
  end.

Section FpTyped.
Context {SF : SoftFloat} {ST : SoftFloatTyped SF}.

Lemma reg_pair (P : Z -> Prop) p fl : P (fst p) -> is_u32 (snd p) -> is_u32 fl ->
  fp_typed P (let '(r, f) := p in FpReg r (fl |! f)) /\ fp_typed P (let '(r, f) := p in FpReg r f).
Proof. destruct p as [r f]. cbn. intros. split; (split; [assumption|typed]). Qed.

Lemma widen_typed (P : Z -> Prop) s n canon conv : P canon -> P (fst conv) -> is_u32 (snd conv) -> fp_typed P (widen s n canon conv).
Proof. intros Hc Hr Hf. unfold widen. destruct s; [split; [exact Hc|typed]|]. destruct n; [split; [exact Hc|typed]|]. destruct conv; split; assumption. Qed.

Lemma nv_u32 b : is_u32 (nv b).
Proof. destruct b; typed. Qed.

Lemma fr32_u32 h r : is_u32 (fr32 h r).
Proof. unfold fr32. typed. Qed.

Lemma class_u32 a : is_u32 (f_classify a) /\ is_u32 (d_classify a).
Proof. unfold f_classify, d_classify, class_bit. split; branches; typed. Qed.

Hint Resolve nv_u32 fr32_u32 : typed.

Lemma f_arith_typed f rm a b : single (f_arith f rm a b) /\ double (d_arith f rm a b).
Proof.
  pose proof (st_f32_bin rm a b) as S. pose proof (st_f64_bin rm a b) as D. rewrite !Forall_cons in S, D.
  unfold f_arith, d_arith. branches; tauto.
Qed.

Lemma minmax_typed h rm r1 r2 : dat h ->
  is_u32 (f_minmax rm (fr32 h r1) (fr32 h r2)) /\ is_u64 (d_minmax rm (fr64 h r1) (fr64 h r2)).
Proof. intros H. unfold f_minmax, d_minmax, fr64. destruct H. split; branches; typed. Qed.

Lemma f_to_int_typed a sg rm : single (f_to_int a sg rm).
Proof.
  pose proof (st_conv rm a) as C. rewrite !Forall_cons in C. destruct C as (_ & _ & C1 & C2 & _). unfold f_to_int.
  destruct (f_is_nan a); [destruct sg; split; typed|]. destruct sg; [destruct (f32_to_i32 rm a)|destruct (f32_to_ui32 rm a)]; split; [typed|assumption|typed|assumption].
Qed.

Lemma fp_op_s_typed h f rm r1 r2 : dat h -> fp_typed is_u32 (fp_op_s h f rm r1 r2).
Proof.
  intros H. pose proof (minmax_typed h rm r1 r2 H) as [Hm _]. destruct H.
  pose proof (class_u32 (fr32 h r1)) as [Hc _]. unfold fp_op_s.
  destruct (f <=? 3).
  { destruct (negb _); [exact I|]. unfold f_nan_result. destruct (_ || _); [split; typed|].
    destruct (f_arith_typed f (f_rm h rm) (fr32 h r1) (fr32 h r2)) as [[S1 S2] _]. apply reg_pair; typed. }
  pose proof (st_f32_un (f_rm h rm) (fr32 h r1)) as U. rewrite !Forall_cons in U.
  destruct (f =? 11); [destruct U as ([U1 U2] & _); apply (reg_pair is_u32 _ 0); typed|]. clear U.
  destruct (f =? 8).
  { destruct (r2 =? 2); [destruct (negb _); [exact I|]|destruct (negb _); [exact I|]].
    - pose proof (st_f32_un (f_rm h rm) (fr16 h r1)) as U. rewrite !Forall_cons in U. apply widen_typed; [typed|apply U..].
    - pose proof (st_f32_un (f_rm h rm) (fr64 h r1)) as U. rewrite !Forall_cons in U. apply widen_typed; [typed|apply U..]. }
  assert (0 <= F_SIGN (fr32 h r2)) by (unfold F_SIGN; apply Z.land_nonneg; lia).
  assert (is_u32 (F_SIGN (fr32 h r2))) by (unfold F_SIGN; typed).
  destruct (f =? 4); [branches; try exact I; split; typed|].
  destruct (f =? 5); [destruct (1 <? rm); [exact I|split; typed]|].
  destruct (f =? 20); [unfold cmp_nan_flags; branches; try exact I; split; typed|].
  destruct (f =? 24).
  { destruct (1 <? r2); [exact I|]. destruct (f_to_int_typed (fr32 h r1) (r2 =? 0) (f_rm h rm)). destruct (f_to_int _ _ _). split; assumption. }
  destruct (f =? 28); [branches; try exact I; cbn; typed|].
  destruct (f =? 26); [|branches; try exact I; split; typed].
  destruct (1 <? r2); [exact I|].
  pose proof (st_f32_un (f_rm h rm) (s32 (h_x h r1))) as U. pose proof (st_f32_un (f_rm h rm) (h_x h r1)) as V.
  rewrite !Forall_cons in U, V. apply (reg_pair is_u32 _ 0); destruct (r2 =? 0); first [apply U|apply V|typed].
Qed.

Lemma fp_op_d_typed h f rm r1 r2 : dat h -> fp_typed is_u64 (fp_op_d h f rm r1 r2).
Proof.
  intros H. pose proof (minmax_typed h rm r1 r2 H) as [_ Hm]. destruct H.
  pose proof (class_u32 (fr64 h r1)) as [_ Hc]. assert (F : forall r, is_u64 (fr64 h r)) by (intros; apply dt_f0).
  unfold fp_op_d. destruct (f <=? 3).
  { destruct (negb _); [exact I|]. unfold d_nan_result. destruct (_ || _); [split; typed|].
    destruct (f_arith_typed f (f_rm h rm) (fr64 h r1) (fr64 h r2)) as [_ [S1 S2]]. apply reg_pair; typed. }
  destruct (f =? 11).
  { destruct (negb _); [exact I|]. pose proof (st_f64_un (f_rm h rm) (fr64 h r1)) as U. rewrite !Forall_cons in U.
    apply (reg_pair is_u64 _ 0); first [apply U|typed]. }
  destruct (f =? 4); [unfold D_SIGN; branches; try exact I; split; typed|].
  destruct (f =? 5); [destruct (1 <? rm); [exact I|split; typed]|].
  destruct (f =? 20); [unfold cmp_nan_flags; branches; try exact I; split; typed|].
  destruct (f =? 24).
  { destruct (1 <? r2); [exact I|]. pose proof (st_conv (f_rm h rm) (fr64 h r1)) as C. rewrite !Forall_cons in C.
    destruct C as (_ & _ & _ & _ & C1 & C2 & _). unfold flagged in *.
    destruct (r2 =? 0); [destruct (f64_to_i32 _ _)|destruct (f64_to_ui32 _ _)]; (split; [typed|assumption]). }
  destruct (f =? 28); [branches; try exact I; cbn; typed|].
  destruct (f =? 26).
  { destruct (1 <? r2); [exact I|].
    pose proof (st_f64_un (f_rm h rm) (s32 (h_x h r1))) as U. pose proof (st_f64_un (f_rm h rm) (h_x h r1)) as V.
    rewrite !Forall_cons in U, V. apply (reg_pair is_u64 _ 0); destruct (r2 =? 0); first [apply U|apply V|typed]. }
  destruct (f =? 8); [|exact I]. destruct (r2 =? 2); (destruct (negb _); [exact I|]).
  - pose proof (st_f64_un (f_rm h rm) (fr16 h r1)) as U. rewrite !Forall_cons in U. apply widen_typed; [typed|apply U..].
  - pose proof (st_f64_un (f_rm h rm) (fr32 h r1)) as U. rewrite !Forall_cons in U. apply widen_typed; [typed|apply U..].
Qed.

Lemma fp_op_h_typed h f rm r1 r2 : dat h -> fp_typed (fun _ => True) (fp_op_h h f rm r1 r2).
Proof.
  intros []. unfold fp_op_h. destruct (f =? 8).
  { destruct (negb _); [exact I|].
    pose proof (st_conv (f_rm h rm) (fr32 h r1)) as C. pose proof (st_conv (f_rm h rm) (fr64 h r1)) as D. rewrite !Forall_cons in C, D.
    destruct (r2 =? 0); [apply widen_typed; [exact I|exact I|apply C]|]. destruct (r2 =? 1); [|exact I]. apply widen_typed; [exact I|exact I|apply D]. }
  destruct (f =? 28); [destruct (_ || _); [exact I|cbn; typed]|]. destruct (f =? 30); [|exact I].
  destruct (_ || _); [exact I|]. split; [exact I|typed].
Qed.

Lemma fma_typed h op rm a b c a' b' c' : fp_typed is_u64 (fma_d h op rm a b c) /\ fp_typed is_u32 (fma_s h op rm a' b' c').
Proof.
  unfold fma_d, fma_s. split.
  - destruct (negb _); [exact I|]. destruct (_ || _); [split; typed|]. destruct (_ || _); [split; typed|]. destruct (_ || _); [split; typed|].
    apply (reg_pair is_u64 _ 0); [apply st_f64_fma|apply st_f64_fma|typed].
  - destruct (_ || _); [split; typed|]. destruct (_ || _); [split; typed|]. destruct (_ || _); [split; typed|].
    apply (reg_pair is_u32 _ 0); [apply st_f32_fma|apply st_f32_fma|typed].
Qed.

(** Writing an f register, and the tail of an instruction. *)
Lemma fw_typed h r v : dat h -> (is_u32 v -> dat (fw32 h r v)) /\ (is_u64 v -> dat (fw64 h r v)) /\ dat (fw16 h r v).
Proof.
  intros H. unfold fw32, fw64, fw16. split; [|split]; intros; set_dat.
Qed.

Lemma fp_dirty_typed h : dat h -> dat (f_dirty h).
Proof. intros H. unfold f_dirty. set_dat. Qed.

Lemma fp_finish_typed {M} h (m : M) insn rd fw (P : Z -> Prop) r e t h' m' :
  is_u32 insn -> dat h -> (forall v, P v -> dat (fw h rd v)) -> fp_typed P r -> fp_finish h m insn rd fw r = (e, t, h', m') ->
  is_u32 e /\ is_u32 t /\ dat h' /\ m' = m.
Proof.
  intros Hi H Hw Hr. unfold fp_finish. destruct r; intros [= <- <- <- <-]; (split; [typed|split; [exact Hi|split; [|reflexivity]]]).
  - exact H.
  - destruct Hr as [Hp Hf]. unfold fp_done. apply fp_dirty_typed. specialize (Hw _ Hp). set_dat.
  - destruct Hr as [Hp Hf]. unfold f_accrue, put_xz, f_dirty. set_dat.
  - cbn in Hr. unfold put_xz. set_dat.
Qed.

End FpTyped.
