(* ===== verification/RvGuest.v ===== *)
(** * What a guest can do to the machine

    A property [Q] of the machine that every bus access keeps, and every store
    through a host pointer to a byte the guest was granted ([G]), is kept by
    every instruction and every run; and so are the types of the hart's
    registers.  [guest_world] is what is asked of the bus and the platform.
    The host pointers are those of the data table, so the table's entries are
    part of the invariant: an entry that allows stores points at granted
    bytes, whatever the page tables now say. *)

From stdpp Require Import base list gmap.
From Stdlib Require Import ZArith Lia.
From S2P Require Import Prelude Bus BusProps RvHart RvBus RvPmp RvTrig RvMmu RvWalk RvAccess RvCoherent RvFill RvTrap RvCsr RvDecode RvAtomic RvFpu RvInterp RvFrame RvTyped.

Open Scope Z_scope.
Open Scope u32_scope.

Lemma access_fault_u32 acc : is_u32 (access_fault_for acc).
Proof. destruct acc; typed. Qed.
Lemma fault_u32 acc : is_u32 (fault_for acc).
Proof. destruct acc; typed. Qed.
Lemma from_fault_u32 f : is_u32 (rv_exc_from_fault f).
Proof. destruct f; typed. Qed.
#[export] Hint Resolve access_fault_u32 fault_u32 from_fault_u32 : typed.

Lemma default_word v : word_opt v -> is_u32 (default 0 v).
Proof. destruct v as [x|]; cbn; [intros H; apply H; reflexivity|intros _; typed]. Qed.
#[export] Hint Resolve default_word : typed.

Lemma option_map_word f v : (forall x, is_u32 x -> is_u32 (f x)) -> word_opt v -> word_opt (option_map f v).
Proof. destruct v as [x|]; cbn; intros Hf H; [apply word_some, Hf, H; reflexivity|apply word_none]. Qed.

Section Guest.
Context `{Cfg : RvConfig} {SF : SoftFloat} {ST : SoftFloatTyped SF} {Ext M : Type} `{PB : PhysBus Ext M}.
Variable Q : M -> Prop.
Variable G : Z -> Z -> Prop.
Variable pf : platform M.

Record guest_world : Prop := {
  gw_read : forall m a sz f v m', Q m -> access_size sz -> bus_read m a sz = (f, v, m') -> Q m' /\ word_opt v;
  gw_write : forall m a sz w f m', Q m -> access_size sz -> is_u32 w -> bus_write m a sz w = (f, m') -> Q m';
  gw_fetch : forall m a f v m', Q m -> bus_fetch16 m a = (f, v, m') -> Q m' /\ word_opt v;
  gw_find : forall m a r m', Q m -> bus_find m a = (r, m') -> Q m';
  gw_grant : forall m a r m', Q m -> bus_find m a = (Some r, m') ->
    page_memory r a EMU_WANY EMU_PERM_R = true -> kind r = EMU_MEM_RAM -> has (perm r) EMU_PERM_W = true ->
    forall i, 0 <= i < 4096 -> G (host r) (a -! base r + i);
  gw_host_read : forall m buf off sz, Q m -> access_size sz -> is_u32 (host_read m buf off sz);
  gw_host_write : forall m buf off sz v, Q m -> access_size sz -> (forall i, 0 <= i < sz -> G buf (off + i)) ->
    Q (host_write m buf off sz v);
  gw_hook : hook_frames pf;
  gw_ecall : forall hook nr args h m used ret h' m', pf_ecall pf = Some hook -> hook nr args h m = (used, ret, h', m') -> Q m ->
    h_dtlb h' = h_dtlb h /\ h_x h' = h_x h /\ h_pc h' = h_pc h /\ h_f h' = h_f h /\ h_fcsr h' = h_fcsr h /\
    h_split_at h' = h_split_at h /\ is_u32 ret /\ Q m'
}.

Hypothesis W : guest_world.

(** The entries of the data table that allow stores. *)
Definition hosts_ok (h : rv_hart) : Prop := forall t s va, is_u32 va -> d_write (h_dtlb h t s) = dtlb_vpn va ->
  G (d_buf (h_dtlb h t s)) (va + d_addend (h_dtlb h t s)).

(** The invariant, [dat] written out. *)
Record J (m : M) (h : rv_hart) : Prop := {
  j_x : forall r, is_u32 (h_x h r);
  j_pc : is_u32 (h_pc h);
  j_f : forall r, is_u64 (h_f h r);
  j_fcsr : is_u32 (h_fcsr h);
  j_split : is_u32 (h_split_at h);
  j_hosts : forall t s va, is_u32 va -> d_write (h_dtlb h t s) = dtlb_vpn va ->
    G (d_buf (h_dtlb h t s)) (va + d_addend (h_dtlb h t s));
  j_q : Q m
}.

Lemma J_intro m h : dat h -> hosts_ok h -> Q m -> J m h.
Proof. intros [] H Hq. split; assumption. Qed.
Lemma J_dat m h : J m h -> dat h.
Proof. intros []. split; assumption. Qed.
Lemma J_mem m m' h : Q m' -> J m h -> J m' h.
Proof. intros Hq []. split; assumption. Qed.
(** Only registers changed. *)
Lemma J_regs m h h' : dat h' -> h_dtlb h' = h_dtlb h -> J m h -> J m h'.
Proof. intros D E []. apply J_intro; [exact D| |assumption]. unfold hosts_ok. rewrite E. assumption. Qed.

Ltac jset := match goal with |- J ?m _ => set_part (J m) end.

(** ** Translation *)

Lemma read_pte_J h m pa acc e v m' : read_pte h m pa acc = (e, v, m') -> J m h -> is_u32 e /\ J m' h.
Proof.
  unfold read_pte. destruct (_ && _); [intros [= <- <- <-] H; split; [typed|exact H]|].
  destruct (bus_read m pa 4) as [[f w] m1] eqn:E. intros E' H.
  destruct (gw_read W m pa 4 f w m1 (j_q _ _ H) ltac:(right; right; reflexivity) E) as [Hq _].
  destruct f; [destruct w|..]; injection E' as <- <- <-; (split; [typed|eapply J_mem; eassumption]).
Qed.

Lemma mmu_walk_J va acc priv : forall level h m table e pa h' m',
  mmu_walk level h m va acc priv table = (e, pa, h', m') -> J m h -> is_u32 e /\ J m' h'.
Proof.
  induction level as [|level IH]; intros h m table e pa h' m' E H; cbn [mmu_walk] in E;
    destruct (read_pte h m _ acc) as [[e1 pte] m1] eqn:Er; destruct (read_pte_J _ _ _ _ _ _ _ Er H) as [He H1];
    (destruct (negb _); [injection E as <- <- <- <-; auto|]);
    (destruct (_ || _); [injection E as <- <- <- <-; split; [typed|exact H1]|]);
    destruct (_ =? 0).
  2,4: destruct (_ && _); [injection E as <- <- <- <-; split; [typed|exact H1]|];
    destruct (negb _); [injection E as <- <- <- <-; split; [typed|exact H1]|];
    destruct (has pte PTE_PPN_PAST_BUS); [injection E as <- <- <- <-; split; [typed|exact H1]|];
    injection E as <- <- <- <-; split; [typed|]; unfold mark_mega; jset.
  - injection E as <- <- <- <-. split; [typed|exact H1].
  - destruct (has _ _); [injection E as <- <- <- <-; split; [typed|exact H1]|].
    destruct (has _ _); [injection E as <- <- <- <-; split; [typed|exact H1]|]. eapply IH; eassumption.
Qed.

Lemma translate_J h m va acc e pa h' m' : rv_mmu_translate h m va acc = (e, pa, h', m') -> J m h -> is_u32 e /\ J m' h'.
Proof.
  unfold rv_mmu_translate. destruct (_ =? _); [intros [= <- <- <- <-] H; split; [typed|exact H]|].
  destruct (_ && _); [intros [= <- <- <- <-] H; split; [typed|exact H]|]. apply mmu_walk_J.
Qed.

Lemma data_translate_J h m va acc e pa h' m' : data_translate h m va acc = (e, pa, h', m') -> J m h -> is_u32 e /\ J m' h'.
Proof. unfold data_translate. destruct (h_vm_active h); [apply translate_J|]. intros [= <- <- <- <-] H. split; [typed|exact H]. Qed.

(** ** The tables *)

Lemma same_page va va' : dtlb_vpn va' = dtlb_vpn va -> 0 <= va' - va_page va < 4096.
Proof.
  unfold dtlb_vpn, EMU_DTLB_PAGE_SHIFT. rewrite va_page_of, page_of_sub, !Z.shiftr_div_pow2 by lia. intros E.
  pose proof (Z.div_mod va' 4096). pose proof (Z.mod_pos_bound va' 4096). pose proof (Z.div_mod va 4096).
  pose proof (Z.mod_pos_bound va 4096). change (2 ^ 12) with 4096 in E. lia.
Qed.

Lemma no_vpn va : is_u32 va -> EMU_DTLB_NONE <> dtlb_vpn va.
Proof. intros H E. pose proof (vpn_range va H). unfold EMU_DTLB_NONE in E. lia. Qed.

Lemma dtlb_fill_J h m va pa h' m' : rv_dtlb_fill h m va pa = (h', m') -> J m h -> J m' h'.
Proof.
  unfold rv_dtlb_fill. intros E H. destruct (_ =? RV_PRIV_M); [injection E as <- <-; exact H|].
  destruct (_ =? dtlb_vpn va); [injection E as <- <-; exact H|].
  destruct (if has _ _ then _ else _) as [wr|]; [|injection E as <- <-; exact H].
  destruct (rv_pmp_page_rights _ _ _) as [[pr pw] px]. destruct (negb pr); [injection E as <- <-; exact H|].
  destruct (bus_find m (va_page pa)) as [r m1] eqn:Ef. pose proof (gw_find W _ _ _ _ (j_q _ _ H) Ef) as Hq.
  destruct r as [r|]; [|injection E as <- <-; eapply J_mem; eassumption].
  destruct (page_memory _ _ _ _) eqn:Ep; cbn [negb] in E; [|injection E as <- <-; eapply J_mem; eassumption].
  injection E as <- <-. pose proof (j_q _ _ H) as Hq0. apply J_mem with (m' := m1) in H; [|exact Hq].
  destruct H as [X1 X2 X3 X4 X5 Hh X6]. split; try assumption.
  intros t s va' Hu. cbn. destruct (Z.eq_dec t (rv_dtlb_table (rv_hart_data_priv h))) as [->|Ht];
    [destruct (Z.eq_dec s (dtlb_slot (dtlb_vpn va))) as [->|Hs]|].
  - rewrite upd2_same. cbn [d_write d_buf d_addend]. destruct (wr && pw && _ && _) eqn:Ew.
    + intros Ev. bool_hyps. match goal with K : bool_decide _ = true |- _ => apply bool_decide_eq_true in K end.
      replace (va' + _) with (va_page pa -! base r + (va' - va_page va)) by lia.
      apply (gw_grant W m (va_page pa) r m1); auto. apply same_page. congruence.
    + intros Ev. exfalso. apply (no_vpn va' Hu Ev).
  - rewrite upd2_other by auto. apply Hh, Hu.
  - rewrite upd2_other by auto. apply Hh, Hu.
Qed.

Lemma itlb_fill_J h m va pa h' m' : rv_itlb_fill h m va pa = (h', m') -> J m h -> J m' h'.
Proof.
  unfold rv_itlb_fill. intros E H. destruct (_ =? RV_PRIV_M); [injection E as <- <-; exact H|].
  destruct (_ || _); [injection E as <- <-; exact H|].
  destruct (_ && _); [injection E as <- <-; jset|].
  destruct (rv_pmp_page_rights _ _ _) as [[pr pw] px]. destruct (negb px); [injection E as <- <-; jset|].
  destruct (bus_find m (va_page pa)) as [r m1] eqn:Ef. pose proof (gw_find W _ _ _ _ (j_q _ _ H) Ef) as Hq.
  apply J_mem with (m' := m1) in H; [|exact Hq]. destruct r as [r|]; [|injection E as <- <-; jset].
  destruct (negb _); injection E as <- <-; jset.
Qed.

Lemma flush_J m h : J m h -> J m (rv_dtlb_flush h).
Proof.
  intros [X1 X2 X3 X4 X5 Hh X6]. unfold rv_dtlb_flush. split; try assumption.
  intros t s va Hu E. exfalso. exact (no_vpn va Hu E).
Qed.

Lemma mmu_flush_J m h : J m h -> J m (rv_mmu_flush h) /\ J m (rv_mmu_flush_tlb h).
Proof.
  intros H. unfold rv_mmu_flush, rv_mmu_flush_tlb. cbv zeta.
  assert (F : J m (rv_dtlb_flush (h <| h_tlb := fun i => if (0 <=? i) && (i <? RV_TLB_ENTRIES) then invalid (h_tlb h i) else h_tlb h i |>)))
    by (apply flush_J; jset).
  split; [|exact F]. jset.
Qed.

Lemma flush_page_J m h va : J m h -> J m (rv_mmu_flush_page h va).
Proof.
  intros H. unfold rv_mmu_flush_page. destruct (mega_bit _ _); [apply mmu_flush_J, H|]. cbv zeta.
  set (h1 := if _ && _ then _ else h). assert (H1 : J m h1) by (unfold h1; destruct (_ && _); jset). clearbody h1.
  unfold rv_dtlb_flush_page. destruct H1 as [X1 X2 X3 X4 X5 Hh X6]. split; try assumption.
  intros t s va' Hu. cbn. unfold drop_slot, drop_page. destruct (_ && _); [|apply Hh, Hu]. destruct (_ || _); [|apply Hh, Hu].
  cbn. intros E. exfalso. exact (no_vpn va' Hu E).
Qed.

(** ** Accesses *)

Lemma drop_resv_J m h a : J m h -> J m (drop_resv h a).
Proof. intros H. unfold drop_resv. jset. Qed.

Lemma wide_translate_J acc : forall ps h m r h' m', Forall (fun p => is_u32 (fst p)) ps ->
  wide_translate h m acc ps = (r, h', m') -> J m h ->
  J m' h' /\ match r with inl (e, at_) => is_u32 e /\ is_u32 at_ | inr l => Forall (fun p => is_u32 (part_va p)) l end.
Proof.
  induction ps as [|[va len] ps IH]; intros h m r h' m' Hp E H; cbn [wide_translate] in E.
  { injection E as <- <- <-. split; [exact H|constructor]. }
  apply Forall_cons in Hp as [Hva Hp]. cbn [fst] in Hva.
  destruct (if h_vm_active h then _ else _) as [[[e pa] h1] m1] eqn:Et.
  assert (F : is_u32 e /\ J m1 h1).
  { destruct (h_vm_active h); [eapply translate_J; eassumption|]. injection Et as <- <- <- <-. split; [typed|exact H]. }
  destruct F as [He H1]. destruct (negb _); [injection E as <- <- <-; auto|].
  destruct (wide_translate _ _ _ _) as [[r1 h2] m2] eqn:Er. destruct (IH _ _ _ _ _ Hp Er H1) as [H2 Hr].
  injection E as <- <- <-. split; [exact H2|]. destruct r1 as [[]|l]; [exact Hr|]. constructor; assumption.
Qed.

Lemma wide_check_J h acc need : forall ps m bad m', Forall (fun p => is_u32 (part_va p)) ps ->
  wide_check h m acc need ps = (bad, m') -> Q m -> Q m' /\ word_opt bad.
Proof.
  induction ps as [|p ps IH]; intros m bad m' Hp E H; cbn [wide_check] in E.
  { injection E as <- <-. split; [exact H|typed]. }
  apply Forall_cons in Hp as [Hva Hp]. destruct (_ && _); [injection E as <- <-; split; [exact H|typed]|].
  destruct (bus_find m _) as [r m1] eqn:Ef. pose proof (gw_find W _ _ _ _ H Ef) as H1.
  destruct r as [r|]; [|injection E as <- <-; split; [exact H1|typed]].
  destruct (_ || _); [injection E as <- <-; split; [exact H1|typed]|]. eapply IH; eassumption.
Qed.

Lemma wide_n_size a off len : access_size (wide_n a off len).
Proof. unfold wide_n, access_size. branches; auto. Qed.

Lemma wide_run_J store pa len : forall fuel h m off v done r h' m',
  wide_run fuel h m store pa len off v done = (r, h', m') -> is_u64 v -> J m h ->
  J m' h' /\ match r with inl _ => True | inr (v', _) => is_u64 v' end.
Proof.
  induction fuel as [|fuel IH]; intros h m off v done r h' m' E Hv H; cbn [wide_run] in E; [injection E as <- <- <-; auto|].
  destruct (off <? len); [|injection E as <- <- <-; auto]. destruct store.
  - destruct (bus_write _ _ _ _) as [f m1] eqn:Eb. apply (drop_resv_J m h (pa +! off)) in H.
    pose proof (gw_write W _ _ _ _ _ _ (j_q _ _ H) (wide_n_size _ _ _) (u32_range _) Eb) as Hq. apply (J_mem m m1) in H; [|exact Hq].
    destruct f; [eapply IH; eassumption|injection E as <- <- <-; auto..].
  - destruct (bus_read _ _ _) as [[f w] m1] eqn:Eb.
    destruct (gw_read W _ _ _ _ _ _ (j_q _ _ H) (wide_n_size _ _ _) Eb) as [Hq Hw]. apply (J_mem m m1) in H; [|exact Hq].
    destruct f; [eapply IH; [eassumption|typed|assumption]|injection E as <- <- <-; auto..].
Qed.

Lemma wide_parts_run_J store : forall ps h m v done r h' m',
  wide_parts_run h m store ps v done = (r, h', m') -> is_u64 v -> J m h ->
  J m' h' /\ match r with inl _ => True | inr (v', _) => is_u64 v' end.
Proof.
  induction ps as [|p ps IH]; intros h m v done r h' m' E Hv H; cbn [wide_parts_run] in E; [injection E as <- <- <-; auto|].
  destruct (wide_run _ _ _ _ _ _ _ _ _) as [[r1 h1] m1] eqn:Er. destruct (wide_run_J _ _ _ _ _ _ _ _ _ _ _ _ Er Hv H) as [H1 Hr].
  destruct r1 as [x|[v1 d1]]; [injection E as <- <- <-; auto|]. eapply IH; eassumption.
Qed.

Lemma wide_parts_u32 h va size : is_u32 va -> Forall (fun p => is_u32 (fst p)) (wide_parts h va size).
Proof. intros H. unfold wide_parts. branches; repeat (apply Forall_cons; split; [cbn [fst]; typed|]); apply Forall_nil_2. Qed.

Lemma mem_wide_J h m va size acc val e v at_ h' m' : mem_wide h m va size acc val = (e, v, at_, h', m') ->
  is_u32 va -> is_u64 val -> J m h -> J m' h' /\ is_u32 e /\ is_u64 v /\ is_u32 at_.
Proof.
  intros E Hva Hval H. unfold mem_wide in E.
  destruct (wide_translate _ _ _ _) as [[r h1] m1] eqn:Et.
  destruct (wide_translate_J _ _ _ _ _ _ _ (wide_parts_u32 h va size Hva) Et H) as [H1 Hr].
  destruct r as [[e1 a1]|ps]; [injection E as <- <- <- <- <-; destruct Hr; auto|].
  destruct (wide_check _ _ _ _ _) as [bad m2] eqn:Ec. destruct (wide_check_J _ _ _ _ _ _ _ Hr Ec (j_q _ _ H1)) as [Hq Hb].
  apply (J_mem m1 m2) in H1; [|exact Hq].
  destruct bad as [a1|]; [injection E as <- <- <- <- <-; split; [exact H1|split; [typed|split; [exact Hval|apply Hb; reflexivity]]]|].
  destruct (wide_parts_run _ _ _ _ _ _) as [[r2 h2] m3] eqn:Er.
  assert (Hv : is_u64 (if bool_decide (acc = EMU_ACC_STORE) then val else 0)) by (destruct (bool_decide _); [exact Hval|typed]).
  destruct (wide_parts_run_J _ _ _ _ _ _ _ _ _ Er Hv H1) as [H2 Hr2].
  destruct r2 as [[f d]|[v2 d]]; injection E as <- <- <- <- <-; (split; [exact H2|split; [typed|split; [|typed]]]); [exact Hval|].
  destruct (bool_decide _); assumption.
Qed.

Lemma load64_J h m a e v t h' m' : rv_hart_load64 h m a = (e, v, t, h', m') -> is_u32 a -> J m h ->
  J m' h' /\ is_u32 e /\ is_u64 v /\ is_u32 t.
Proof.
  unfold rv_hart_load64. intros E Ha H. do 2 (destruct (_ && _) || destruct (wide_trigger _ _ _); [injection E as <- <- <- <- <-;
    split; [exact H|split; [typed|split; [typed|exact Ha]]]|]). eapply mem_wide_J; [eassumption|exact Ha|typed|exact H].
Qed.

Lemma store64_J h m a val e t h' m' : rv_hart_store64 h m a val = (e, t, h', m') -> is_u32 a -> is_u64 val -> J m h ->
  J m' h' /\ is_u32 e /\ is_u32 t.
Proof.
  unfold rv_hart_store64. intros E Ha Hv H. do 2 (destruct (_ && _) || destruct (wide_trigger _ _ _); [injection E as <- <- <- <-;
    split; [exact H|split; [typed|exact Ha]]|]).
  destruct (mem_wide _ _ _ _ _ _) as [[[[e1 v1] t1] h1] m1] eqn:Em. injection E as <- <- <- <-.
  destruct (mem_wide_J _ _ _ _ _ _ _ _ _ _ _ Em Ha Hv H) as (? & ? & ? & ?). auto.
Qed.

Lemma split_J h m va size acc val e v h' m' : split_access h m va size acc val = (e, v, h', m') -> is_u32 va -> is_u64 val -> J m h ->
  J m' h' /\ is_u32 e.
Proof.
  unfold split_access. intros E Ha Hv H. destruct (mem_wide _ _ _ _ _ _) as [[[[e1 v1] t1] h1] m1] eqn:Em.
  destruct (mem_wide_J _ _ _ _ _ _ _ _ _ _ _ Em Ha Hv H) as (H1 & He & _ & Ht). injection E as <- <- <- <-.
  split; [|exact He]. jset.
Qed.

Lemma load_bus_J h m va a size sg e v h' m' : load_bus h m va a size sg = (e, v, h', m') -> access_size size -> J m h ->
  J m' h' /\ is_u32 e /\ word_opt v.
Proof.
  unfold load_bus. intros E Hs H. destruct (_ && _); [injection E as <- <- <- <-; split; [exact H|split; typed]|].
  destruct (bus_read _ _ _) as [[f w] m1] eqn:Eb. destruct (gw_read W _ _ _ _ _ _ (j_q _ _ H) Hs Eb) as [Hq Hw].
  apply (J_mem m m1) in H; [|exact Hq]. destruct f; try (injection E as <- <- <- <-; split; [exact H|split; typed]).
  destruct (rv_dtlb_fill _ _ _ _) as [h2 m2] eqn:Ef. injection E as <- <- <- <-.
  split; [eapply dtlb_fill_J; eassumption|split; [typed|]]. apply option_map_word; [intros; typed|exact Hw].
Qed.

Lemma load_guarded_J h m a size sg e v h' m' : load_guarded h m a size sg = (e, v, h', m') -> is_u32 a -> access_size size -> J m h ->
  J m' h' /\ is_u32 e /\ word_opt v.
Proof.
  unfold load_guarded, load_split. intros E Ha Hs H. destruct (dtlb_probe _ _ _ _) as [d|].
  { injection E as <- <- <- <-. split; [exact H|split; [typed|]]. apply word_some, extend_u32, (gw_host_read W); [apply H|exact Hs]. }
  destruct (h_vm_active h); [|eapply load_bus_J; eassumption]. destruct (_ && _).
  - destruct (split_access _ _ _ _ _ _) as [[[e1 w] h1] m1] eqn:Es.
    destruct (split_J _ _ _ _ _ _ _ _ _ _ Es Ha ltac:(typed) H) as [H1 He]. injection E as <- <- <- <-.
    split; [exact H1|split; [exact He|]]. destruct (_ =? _); typed.
  - destruct (rv_mmu_translate _ _ _ _) as [[[t pa] h1] m1] eqn:Et. destruct (translate_J _ _ _ _ _ _ _ _ Et H) as [He H1].
    destruct (negb _); [injection E as <- <- <- <-; split; [exact H1|split; typed]|]. eapply load_bus_J; eassumption.
Qed.

Lemma load_J h m a size sg e v h' m' : rv_hart_load h m a size sg = (e, v, h', m') -> is_u32 a -> access_size size -> J m h ->
  J m' h' /\ is_u32 e /\ word_opt v.
Proof.
  unfold rv_hart_load. intros E Ha Hs H. do 2 (destruct (_ && _); [injection E as <- <- <- <-; split; [exact H|split; typed]|]).
  destruct (h_data_guard h); [eapply load_guarded_J; eassumption|].
  destruct (bus_read _ _ _) as [[f w] m1] eqn:Eb. destruct (gw_read W _ _ _ _ _ _ (j_q _ _ H) Hs Eb) as [Hq Hw].
  apply (J_mem m m1) in H; [|exact Hq]. destruct f; injection E as <- <- <- <-; (split; [exact H|split; [typed|]]); [|typed..].
  apply option_map_word; [intros; typed|exact Hw].
Qed.

Lemma store_bus_J h m va a size val e h' m' : store_bus h m va a size val = (e, h', m') -> access_size size -> is_u32 val -> J m h ->
  J m' h' /\ is_u32 e.
Proof.
  unfold store_bus. intros E Hs Hv H. destruct (_ && _); [injection E as <- <- <-; split; [exact H|typed]|]. cbv zeta in E.
  destruct (bus_write _ _ _ _) as [f m1] eqn:Eb. apply (drop_resv_J m h a) in H.
  pose proof (gw_write W _ _ _ _ _ _ (j_q _ _ H) Hs Hv Eb) as Hq. apply (J_mem m m1) in H; [|exact Hq].
  destruct f; try (injection E as <- <- <-; split; [exact H|typed]).
  destruct (rv_dtlb_fill _ _ _ _) as [h2 m2] eqn:Ef. injection E as <- <- <-. split; [eapply dtlb_fill_J; eassumption|typed].
Qed.

(** The store the table allows lands on granted bytes. *)
Lemma probe_granted h m va size d : dtlb_probe h va size true = Some d -> is_u32 va -> access_size size -> J m h ->
  forall i, 0 <= i < size -> G (d_buf d) (va + d_addend d + i).
Proof.
  intros Ep Hu Hs H i Hi. unfold dtlb_probe in Ep. destruct (_ || _) eqn:Ea; [discriminate|]. apply orb_false_iff in Ea as [_ Ea].
  pose proof (aligned_in_page va size Hs Ea) as Hp. destruct (Z.eqb_spec (d_write (h_dtlb h (rv_dtlb_table (rv_hart_data_priv h)) (dtlb_slot (dtlb_vpn va)))) (dtlb_vpn va)) as [Ew|]; [|discriminate].
  injection Ep as <-. replace (va + _ + i) with ((va + i) + d_addend (h_dtlb h (rv_dtlb_table (rv_hart_data_priv h)) (dtlb_slot (dtlb_vpn va)))) by lia.
  assert (Eq : va + i = va / 4096 * 4096 + (va mod 4096 + i)) by (pose proof (Z.div_mod va 4096); lia).
  pose proof (Z.mod_pos_bound va 4096 ltac:(lia)). assert (Ev : dtlb_vpn (va + i) = dtlb_vpn va).
  { unfold dtlb_vpn, EMU_DTLB_PAGE_SHIFT. rewrite !Z.shiftr_div_pow2 by lia. change (2 ^ 12) with 4096. rewrite Eq.
    rewrite Z.div_add_l, (Z.div_small (va mod 4096 + i)) by lia. lia. }
  apply (j_hosts _ _ H); [|congruence]. unfold is_u32 in *. assert (va / 4096 < 2 ^ 20) by (apply Z.div_lt_upper_bound; lia). lia.
Qed.

Lemma store_guarded_J h m a size val e h' m' : store_guarded h m a size val = (e, h', m') -> is_u32 a -> access_size size ->
  is_u32 val -> J m h -> J m' h' /\ is_u32 e.
Proof.
  unfold store_guarded, store_split. intros E Ha Hs Hv H. destruct (if h_resv_valid h then _ else _) as [d|] eqn:Ep.
  { injection E as <- <- <-. split; [|typed]. eapply J_mem; [|exact H]. apply (gw_host_write W); [apply H|exact Hs|].
    destruct (h_resv_valid h); [discriminate|]. eapply probe_granted; eassumption. }
  destruct (h_vm_active h); [|eapply store_bus_J; eassumption]. destruct (_ && _).
  - destruct (split_access _ _ _ _ _ _) as [[[e1 w] h1] m1] eqn:Es. injection E as <- <- <-.
    eapply split_J; [eassumption|exact Ha|typed|exact H].
  - destruct (rv_mmu_translate _ _ _ _) as [[[t pa] h1] m1] eqn:Et. destruct (translate_J _ _ _ _ _ _ _ _ Et H) as [He H1].
    destruct (negb _); [injection E as <- <- <-; auto|]. eapply store_bus_J; eassumption.
Qed.

Lemma store_J h m a size val e h' m' : rv_hart_store h m a size val = (e, h', m') -> is_u32 a -> access_size size -> is_u32 val ->
  J m h -> J m' h' /\ is_u32 e.
Proof.
  unfold rv_hart_store. intros E Ha Hs Hv H. do 2 (destruct (_ && _); [injection E as <- <- <-; split; [exact H|typed]|]).
  destruct (h_data_guard h); [eapply store_guarded_J; eassumption|]. cbv zeta in E.
  destruct (bus_write _ _ _ _) as [f m1] eqn:Eb. apply (drop_resv_J m h a) in H.
  pose proof (gw_write W _ _ _ _ _ _ (j_q _ _ H) Hs Hv Eb) as Hq. injection E as <- <- <-. split; [|typed]. eapply J_mem; eassumption.
Qed.

(** ** Atomics and cache blocks *)

Lemma word4 : access_size 4.
Proof. right. right. reflexivity. Qed.
Hint Resolve word4 : typed.

Lemma put_x_J m h rd v : is_u32 v -> J m h -> J m (put_x h rd v).
Proof. intros Hv H. unfold put_x. jset. Qed.

Lemma zero_x0_J m h : J m h -> J m (zero_x0 h).
Proof. intros H. unfold zero_x0. jset. Qed.

Lemma amo_lr_J h m rd a e h' m' : amo_lr h m rd a = (e, h', m') -> J m h -> J m' h' /\ is_u32 e.
Proof.
  unfold amo_lr. intros E H. destruct (bus_read _ _ _) as [[f v] m1] eqn:Eb.
  destruct (gw_read W _ _ _ _ _ _ (j_q _ _ H) word4 Eb) as [Hq Hv]. apply (J_mem m m1) in H; [|exact Hq].
  destruct (negb _); injection E as <- <- <-; (split; [|typed]); [exact H|]. apply put_x_J; [typed|jset].
Qed.

Lemma amo_sc_J h m rd a src e h' m' : amo_sc h m rd a src = (e, h', m') -> is_u32 src -> J m h -> J m' h' /\ is_u32 e.
Proof.
  unfold amo_sc. intros E Hs H. destruct (bus_find _ _) as [r m1] eqn:Ef. pose proof (gw_find W _ _ _ _ (j_q _ _ H) Ef) as Hq.
  apply (J_mem m m1) in H; [|exact Hq]. destruct r as [r|]; [|injection E as <- <- <-; split; [exact H|typed]].
  destruct (negb _); [injection E as <- <- <-; split; [exact H|typed]|].
  destruct (_ || _); [injection E as <- <- <-; split; [apply put_x_J; [typed|exact H]|typed]|].
  destruct (bus_write _ _ _ _) as [f m2] eqn:Eb. pose proof (gw_write W _ _ _ _ _ _ (j_q _ _ H) word4 Hs Eb) as Hq2.
  apply (J_mem m1 m2) in H; [|exact Hq2]. cbv zeta in E.
  destruct (negb _); injection E as <- <- <-; (split; [|typed]); [jset|]. apply put_x_J; [typed|jset].
Qed.

Lemma amo_rmw_J h m f5 rd a src e h' m' : amo_rmw h m f5 rd a src = (e, h', m') -> is_u32 src -> J m h -> J m' h' /\ is_u32 e.
Proof.
  unfold amo_rmw. intros E Hs H. destruct (bus_read _ _ _) as [[f v] m1] eqn:Eb.
  destruct (gw_read W _ _ _ _ _ _ (j_q _ _ H) word4 Eb) as [Hq Hv]. apply (J_mem m m1) in H; [|exact Hq]. cbv zeta in E.
  assert (Ho : is_u32 (default 0 v)) by typed. destruct (negb _); [injection E as <- <- <-; split; [exact H|typed]|].
  assert (K : forall w, is_u32 w -> forall f2 m2, bus_write m1 a 4 w = (f2, m2) ->
    (if negb (no_fault f2) then (rv_exc_from_fault f2, h, m2) else (RV_EXC_NONE, put_x h rd (default 0 v), m2)) = (e, h', m') ->
    J m' h' /\ is_u32 e).
  { intros w Hw f2 m2 Ew E2. pose proof (gw_write W _ _ _ _ _ _ (j_q _ _ H) word4 Hw Ew) as Hq2.
    apply (J_mem m1 m2) in H; [|exact Hq2]. destruct (negb _); injection E2 as <- <- <-; (split; [|typed]); [exact H|].
    apply put_x_J; assumption. }
  destruct (f5 =? RV_AMO_CAS).
  - destruct (_ =? _); [|injection E as <- <- <-; split; [apply put_x_J; assumption|typed]].
    destruct (bus_write _ _ _ src) as [f2 m2] eqn:Ew. eapply K; [exact Hs|exact Ew|exact E].
  - destruct (bus_write _ _ _ _) as [f2 m2] eqn:Ew. eapply K; [|exact Ew|exact E]. typed.
Qed.

Lemma amo_J h m f5 rd a src e h' m' : rv_hart_amo h m f5 rd a src = (e, h', m') -> is_u32 src -> J m h -> J m' h' /\ is_u32 e.
Proof.
  unfold rv_hart_amo. intros E Hs H. destruct (has a 3); [injection E as <- <- <-; split; [exact H|typed]|].
  destruct (data_translate _ _ _ _) as [[[e1 pa] h1] m1] eqn:Et. destruct (data_translate_J _ _ _ _ _ _ _ _ Et H) as [He H1].
  destruct (negb _); [injection E as <- <- <-; auto|]. destruct (_ && _); [injection E as <- <- <-; split; [exact H1|typed]|].
  destruct (_ =? RV_AMO_LR); [eapply amo_lr_J; eassumption|]. destruct (_ =? RV_AMO_SC); [eapply amo_sc_J; eassumption|].
  eapply amo_rmw_J; eassumption.
Qed.

Lemma amocas_d_J h m rd rs2 a e h' m' : rv_hart_amocas_d h m rd rs2 a = (e, h', m') -> J m h -> J m' h' /\ is_u32 e.
Proof.
  unfold rv_hart_amocas_d. intros E H. destruct (has a 7); [injection E as <- <- <-; split; [exact H|typed]|].
  destruct (data_translate _ _ _ _) as [[[e1 pa] h1] m1] eqn:Et. destruct (data_translate_J _ _ _ _ _ _ _ _ Et H) as [He H1].
  clear H. destruct (negb _); [injection E as <- <- <-; auto|]. destruct (_ && _); [injection E as <- <- <-; split; [exact H1|typed]|].
  unfold amocas_d_bus in E. destruct (bus_read m1 _ _) as [[f lo] m2] eqn:E1.
  destruct (gw_read W _ _ _ _ _ _ (j_q _ _ H1) word4 E1) as [Hq1 Hlo]. apply (J_mem m1 m2) in H1; [|exact Hq1].
  destruct (negb _); [injection E as <- <- <-; split; [exact H1|typed]|]. destruct (bus_read m2 _ _) as [[f' hi] m3] eqn:E2.
  destruct (gw_read W _ _ _ _ _ _ (j_q _ _ H1) word4 E2) as [Hq2 Hhi]. apply (J_mem m2 m3) in H1; [|exact Hq2].
  destruct (negb _); [injection E as <- <- <-; split; [exact H1|typed]|]. cbv zeta in E.
  assert (P : forall r, is_u32 (pair_lo h1 r) /\ is_u32 (pair_hi h1 r)).
  { intros r. unfold pair_lo, pair_hi. destruct H1. destruct (r =? 0); split; typed. }
  assert (Put : forall m, J m h1 -> J m (put_pair h1 rd (default 0 lo) (default 0 hi))) by (intros m0 H0; unfold put_pair; jset).
  destruct (_ && _); [|injection E as <- <- <-; split; [apply Put, H1|typed]].
  destruct (bus_write m3 _ _ _) as [f1 m4] eqn:E3. pose proof (gw_write W _ _ _ _ _ _ (j_q _ _ H1) word4 (proj1 (P rs2)) E3) as Hq3.
  apply (J_mem m3 m4) in H1; [|exact Hq3]. destruct (negb _); [injection E as <- <- <-; split; [exact H1|typed]|].
  destruct (bus_write m4 _ _ _) as [f2 m5] eqn:E4. pose proof (gw_write W _ _ _ _ _ _ (j_q _ _ H1) word4 (proj2 (P rs2)) E4) as Hq4.
  apply (J_mem m4 m5) in H1; [|exact Hq4]. destruct (negb _); injection E as <- <- <-; (split; [|typed]); [exact H1|apply Put, H1].
Qed.

Lemma zalasr_size f3 : (2 <? f3) = false -> 0 <= f3 -> access_size (1 <<! f3).
Proof.
  intros Hn H0. apply Z.ltb_ge in Hn. assert (f3 = 0 \/ f3 = 1 \/ f3 = 2) as [-> | [-> | ->] ] by lia; unfold access_size; cbn; auto.
Qed.

Lemma funct3_nonneg i : 0 <= rv_funct3 i.
Proof. unfold rv_funct3. apply Z.land_nonneg. lia. Qed.

Lemma zalasr_J h m insn t e tv h' m' : rv_hart_zalasr h m insn t = (e, tv, h', m') -> is_u32 t -> J m h ->
  J m' h' /\ is_u32 e /\ is_u32 tv.
Proof.
  unfold rv_hart_zalasr. intros E Ht H. destruct (2 <? _) eqn:E2; [injection E as <- <- <- <-; split; [exact H|split; typed]|].
  pose proof (zalasr_size _ E2 (funct3_nonneg insn)) as Hs. pose proof (j_x _ _ H) as Hx. destruct (_ =? RV_AMO_STORE_REL).
  - destruct (_ || _); [injection E as <- <- <- <-; split; [exact H|split; typed]|].
    destruct (has _ _); [injection E as <- <- <- <-; split; [exact H|split; typed]|].
    destruct (rv_hart_store _ _ _ _ _) as [[e1 h1] m1] eqn:Es. injection E as <- <- <- <-.
    destruct (store_J _ _ _ _ _ _ _ _ Es (Hx _) Hs (Hx _) H) as [H1 He]. auto.
  - destruct (_ || _); [injection E as <- <- <- <-; split; [exact H|split; typed]|].
    destruct (has _ _); [injection E as <- <- <- <-; split; [exact H|split; typed]|].
    destruct (rv_hart_load _ _ _ _ _) as [[[e1 v] h1] m1] eqn:Es. injection E as <- <- <- <-.
    destruct (load_J _ _ _ _ _ _ _ _ _ Es (Hx _) Hs H) as (H1 & He & Hv). split; [|split; [exact He|apply Hx]].
    destruct (_ =? _); [apply put_x_J; typed|exact H1].
Qed.

Lemma atomic_J h m insn e tv h' m' : rv_hart_atomic h m insn = (e, tv, h', m') -> is_u32 insn -> J m h ->
  J m' h' /\ is_u32 e /\ is_u32 tv.
Proof.
  unfold rv_hart_atomic. intros E Hi H. pose proof (j_x _ _ H) as Hx. destruct (_ || _); [eapply zalasr_J; eassumption|].
  destruct (_ && (_ =? RV_AMO_CAS)).
  - destruct (_ || _); [injection E as <- <- <- <-; split; [exact H|split; typed]|].
    destruct (rv_hart_amocas_d _ _ _ _ _) as [[e1 h1] m1] eqn:Es. injection E as <- <- <- <-.
    destruct (amocas_d_J _ _ _ _ _ _ _ _ Es H) as [H1 He]. split; [apply zero_x0_J, H1|auto].
  - destruct (_ || _); [injection E as <- <- <- <-; split; [exact H|split; typed]|].
    destruct (rv_hart_amo _ _ _ _ _ _) as [[e1 h1] m1] eqn:Es. injection E as <- <- <- <-.
    destruct (amo_J _ _ _ _ _ _ _ _ _ Es (Hx _) H) as [H1 He]. split; [apply zero_x0_J, H1|auto].
Qed.

Lemma zero_words_J pa : forall offs h m e i h' m', zero_words h m pa offs = (e, i, h', m') -> J m h -> J m' h' /\ is_u32 e.
Proof.
  induction offs as [|o offs IH]; intros h m e i h' m' E H; cbn [zero_words] in E; [injection E as <- <- <- <-; split; [exact H|typed]|].
  set (h1 := if _ && _ then _ else h) in E. assert (H1 : J m h1) by (unfold h1; destruct (_ && _); jset). clearbody h1.
  destruct (bus_write _ _ _ _) as [f m1] eqn:Eb. pose proof (gw_write W _ _ _ _ _ _ (j_q _ _ H1) word4 (ltac:(typed) : is_u32 0) Eb) as Hq.
  apply (J_mem m m1) in H1; [|exact Hq]. destruct (negb _); [injection E as <- <- <- <-; split; [exact H1|typed]|]. eapply IH; eassumption.
Qed.

Lemma cbo_J h m op a e fa h' m' : rv_hart_cbo h m op a = (e, fa, h', m') -> is_u32 a -> J m h ->
  J m' h' /\ is_u32 e /\ is_u32 fa.
Proof.
  unfold rv_hart_cbo. intros E Ha H. set (base := Z.ldiff a _) in *. assert (Hb : is_u32 base) by (unfold base; typed). clearbody base.
  destruct (cbo_permitted h op) as [op'|]; [|injection E as <- <- <- <-; split; [exact H|split; typed]]. destruct (op' =? _).
  - unfold cbo_zero in E. destruct (if h_trig_active h then _ else _) as [i|]; [injection E as <- <- <- <-; split; [exact H|split; typed]|].
    destruct (data_translate _ _ _ _) as [[[t pa] h1] m1] eqn:Et. destruct (data_translate_J _ _ _ _ _ _ _ _ Et H) as [He H1].
    destruct (negb _); [injection E as <- <- <- <-; auto|]. destruct (_ && _); [injection E as <- <- <- <-; split; [exact H1|split; typed]|].
    destruct (bus_find _ _) as [r m2] eqn:Ef. pose proof (gw_find W _ _ _ _ (j_q _ _ H1) Ef) as Hq. apply (J_mem m1 m2) in H1; [|exact Hq].
    destruct r as [r|]; [|injection E as <- <- <- <-; split; [exact H1|split; typed]].
    destruct (_ || _); [injection E as <- <- <- <-; split; [exact H1|split; typed]|].
    destruct (zero_words _ _ _ _) as [[[e2 i] h2] m3] eqn:Ez. destruct (zero_words_J _ _ _ _ _ _ _ _ Ez H1) as [H2 He2].
    injection E as <- <- <- <-. split; [exact H2|split; typed].
  - unfold cbo_maint in E. destruct (data_translate _ _ _ _) as [[[t pa] h1] m1] eqn:Et.
    destruct (data_translate_J _ _ _ _ _ _ _ _ Et H) as [He H1]. destruct (negb _); [injection E as <- <- <- <-; split; [exact H1|split; typed]|].
    destruct (_ && _); [injection E as <- <- <- <-; split; [exact H1|split; typed]|].
    destruct (bus_find m1 _) as [r m2] eqn:Ef. pose proof (gw_find W _ _ _ _ (j_q _ _ H1) Ef) as Hq. apply (J_mem m1 m2) in H1; [|exact Hq].
    destruct r as [r|]; [|injection E as <- <- <- <-; split; [exact H1|split; typed]].
    destruct (bus_find m2 _) as [r' m3] eqn:Eg. pose proof (gw_find W _ _ _ _ (j_q _ _ H1) Eg) as Hq2.
    injection E as <- <- <- <-. split; [eapply J_mem; eassumption|split; typed].
Qed.

(** ** Floating point *)

Lemma fp_write_J m h h' : dat h' -> h_dtlb h' = h_dtlb h -> J m h -> J m (f_dirty h').
Proof. intros D E H. apply (J_regs m h); [apply fp_dirty_typed, D|exact E|exact H]. Qed.

Lemma fp_load_J h m insn rd rm a e t h' m' : fp_load h m insn rd rm a = (e, t, h', m') -> is_u32 insn -> is_u32 a -> J m h ->
  J m' h' /\ is_u32 e /\ is_u32 t.
Proof.
  unfold fp_load. intros E Hi Ha H. destruct (rm =? 1); [|destruct (rm =? 3)].
  - destruct (rv_hart_load _ _ _ _ _) as [[[e1 v] h1] m1] eqn:El.
    destruct (load_J _ _ _ _ _ _ _ _ _ El Ha ltac:(unfold access_size; auto) H) as (H1 & He & Hv).
    destruct (negb _); injection E as <- <- <- <-; (split; [|split; typed]); [exact H1|].
    apply (fp_write_J m1 h1); [apply fw_typed, (J_dat m1), H1|reflexivity|exact H1].
  - destruct (rv_hart_load64 _ _ _) as [[[[e1 v] t1] h1] m1] eqn:El. destruct (load64_J _ _ _ _ _ _ _ _ El Ha H) as (H1 & He & Hv & Ht).
    destruct (negb _); injection E as <- <- <- <-; (split; [|split; typed]); [exact H1|].
    apply (fp_write_J m1 h1); [apply fw_typed; [apply (J_dat m1), H1|exact Hv]|reflexivity|exact H1].
  - destruct (rv_hart_load _ _ _ _ _) as [[[e1 v] h1] m1] eqn:El. destruct (load_J _ _ _ _ _ _ _ _ _ El Ha word4 H) as (H1 & He & Hv).
    destruct (negb _); injection E as <- <- <- <-; (split; [|split; typed]); [exact H1|].
    apply (fp_write_J m1 h1); [apply fw_typed; [apply (J_dat m1), H1|typed]|reflexivity|exact H1].
Qed.

Lemma fp_store_J h m rs2 rm a e t h' m' : fp_store h m rs2 rm a = (e, t, h', m') -> is_u32 a -> J m h ->
  J m' h' /\ is_u32 e /\ is_u32 t.
Proof.
  unfold fp_store. intros E Ha H. destruct (rm =? 3); [eapply store64_J; [eassumption|exact Ha|apply H|exact H]|].
  destruct (rm =? 1); destruct (rv_hart_store _ _ _ _ _) as [[e1 h1] m1] eqn:Es; injection E as <- <- <- <-.
  - destruct (store_J _ _ _ _ _ _ _ _ Es Ha ltac:(unfold access_size; auto) ltac:(typed) H). auto.
  - destruct (store_J _ _ _ _ _ _ _ _ Es Ha word4 ltac:(typed) H). auto.
Qed.

Lemma fp_finish_dtlb h (m : M) insn rd fw r e t h' m' : (forall v, h_dtlb (fw h rd v) = h_dtlb h) ->
  fp_finish h m insn rd fw r = (e, t, h', m') -> h_dtlb h' = h_dtlb h.
Proof.
  intros Hw. unfold fp_finish. destruct r; intros [= <- <- <- <-]; [reflexivity|apply Hw| |reflexivity].
  unfold f_accrue. destruct (negb _); reflexivity.
Qed.

Lemma fp_finish_J h m insn rd fw (P : Z -> Prop) r e t h' m' : (forall v, h_dtlb (fw h rd v) = h_dtlb h) ->
  is_u32 insn -> (forall v, P v -> dat (fw h rd v)) -> fp_typed P r -> fp_finish h m insn rd fw r = (e, t, h', m') -> J m h ->
  J m' h' /\ is_u32 e /\ is_u32 t.
Proof.
  intros Hd Hi Hw Hr E H. pose proof (fp_finish_dtlb _ _ _ _ _ _ _ _ _ _ Hd E) as Ed.
  destruct (fp_finish_typed h m insn rd fw P r e t h' m' Hi (J_dat _ _ H) Hw Hr E) as (He & Ht & Hdat & ->).
  split; [eapply J_regs; eassumption|auto].
Qed.

Lemma fp_J h m insn e t h' m' : rv_hart_fp h m insn = (e, t, h', m') -> is_u32 insn -> J m h -> J m' h' /\ is_u32 e /\ is_u32 t.
Proof.
  unfold rv_hart_fp. intros E Hi H. pose proof (J_dat _ _ H) as D.
  pose proof (fun r v => fw_typed h r v D) as Fw. cbv zeta in E.
  destruct (_ =? 0); [injection E as <- <- <- <-; split; [exact H|split; typed]|]. destruct (_ || _).
  { destruct (_ && _); [injection E as <- <- <- <-; split; [exact H|split; typed]|].
    destruct (_ =? _); [eapply fp_load_J|eapply fp_store_J]; try eassumption; typed. }
  destruct (_ || _).
  { destruct (1 <? _); [injection E as <- <- <- <-; split; [exact H|split; typed]|].
    destruct (_ =? 1).
    - apply (fp_finish_J h m insn _ fw64 is_u64 _ _ _ _ _ (fun v => eq_refl) Hi (fun v => proj1 (proj2 (Fw _ v)))
        (proj1 (fma_typed h _ _ _ _ _ 0 0 0)) E H).
    - apply (fp_finish_J h m insn _ fw32 is_u32 _ _ _ _ _ (fun v => eq_refl) Hi (fun v => proj1 (Fw _ v))
        (proj2 (fma_typed h _ _ 0 0 0 _ _ _)) E H). }
  destruct (negb _); [injection E as <- <- <- <-; split; [exact H|split; typed]|].
  destruct (_ =? 2).
  { apply (fp_finish_J h m insn _ fw16 (fun _ => True) _ _ _ _ _ (fun v => eq_refl) Hi (fun v _ => proj2 (proj2 (Fw _ v)))
      (fp_op_h_typed h _ _ _ _ D) E H). }
  destruct (1 <? _); [injection E as <- <- <- <-; split; [exact H|split; typed]|]. destruct (_ =? 1).
  - apply (fp_finish_J h m insn _ fw64 is_u64 _ _ _ _ _ (fun v => eq_refl) Hi (fun v => proj1 (proj2 (Fw _ v)))
      (fp_op_d_typed h _ _ _ _ D) E H).
  - apply (fp_finish_J h m insn _ fw32 is_u32 _ _ _ _ _ (fun v => eq_refl) Hi (fun v => proj1 (Fw _ v))
      (fp_op_s_typed h _ _ _ _ D) E H).
Qed.

(** ** Fetch *)

Lemma expand_c_u32 c : is_u32 (rv_decode_expand_c c).
Proof.
  unfold rv_decode_expand_c, expand_q0, expand_q1, expand_q2, expand_misc_alu.
  branches; unfold enc_r, enc_i, enc_s, enc_b, enc_u, enc_j; typed.
Qed.

Lemma fetch_check_J h m pc e pa h' m' : fetch_check h m pc = (e, pa, h', m') -> J m h -> J m' h' /\ is_u32 e.
Proof.
  unfold fetch_check. generalize (if h_priv h =? RV_PRIV_M then None
    else Some (h_itlb h (rv_dtlb_table (h_priv h)) (dtlb_slot (Z.shiftr pc EMU_DTLB_PAGE_SHIFT)))). intros en E H.
  destruct (match en with Some _ => _ =? _ | None => false end); [injection E as <- <- <- <-; split; [exact H|typed]|].
  destruct (if h_vm_active h then _ else _) as [[[t fpc] h1] m1] eqn:Et.
  assert (F : is_u32 t /\ J m1 h1).
  { destruct (h_vm_active h); [eapply translate_J; eassumption|]. injection Et as <- <- <- <-. split; [typed|exact H]. }
  destruct F as [Ht H1]. destruct (negb _); [injection E as <- <- <- <-; auto|].
  destruct (_ && _); [injection E as <- <- <- <-; split; [exact H1|typed]|].
  destruct (if match en with Some _ => negb _ | None => false end then _ else _) as [h2 m2] eqn:Ef. injection E as <- <- <- <-.
  split; [|typed]. destruct (match en with Some _ => negb _ | None => false end);
    [eapply itlb_fill_J; eassumption|]. injection Ef as <- <-. exact H1.
Qed.

Definition fetched_typed (r : fetched) : Prop :=
  match r with Insn insn _ => is_u32 insn | FetchTrap c t => is_u32 c /\ is_u32 t end.

Lemma fetch_hi_J h m pc fpc lo r h' m' : fetch_hi h m pc fpc lo = (r, h', m') -> is_u32 lo -> J m h ->
  J m' h' /\ fetched_typed r.
Proof.
  unfold fetch_hi. intros E Hl H. destruct (if _ && _ then _ else _) as [[[t fpc2] h1] m1] eqn:Et.
  assert (F : is_u32 t /\ J m1 h1).
  { destruct (_ && _); [eapply translate_J; eassumption|]. injection Et as <- <- <- <-. split; [typed|exact H]. }
  destruct F as [Ht H1]. clear Et. destruct (negb _); [injection E as <- <- <-; split; [exact H1|split; typed]|].
  destruct (_ && _); [injection E as <- <- <-; split; [exact H1|split; typed]|].
  destruct (bus_fetch16 _ _) as [[f hi] m2] eqn:Eb. destruct (gw_fetch W _ _ _ _ _ (j_q _ _ H1) Eb) as [Hq _].
  apply (J_mem m1 m2) in H1; [|exact Hq]. destruct (negb _); injection E as <- <- <-; (split; [exact H1|]); [split; typed|cbn; typed].
Qed.

Lemma fetch_J h m pc r h' m' : RvInterp.fetch h m pc = (r, h', m') -> is_u32 pc -> J m h -> J m' h' /\ fetched_typed r.
Proof.
  unfold RvInterp.fetch. intros E Hp H. destruct (misaligned_target pc); [injection E as <- <- <-; split; [exact H|split; typed]|].
  destruct (_ && _); [injection E as <- <- <-; split; [exact H|split; typed]|].
  destruct (if h_fetch_guard h then _ else _) as [[[t fpc] h1] m1] eqn:Et.
  assert (F : J m1 h1 /\ is_u32 t).
  { destruct (h_fetch_guard h); [eapply fetch_check_J; eassumption|]. injection Et as <- <- <- <-. split; [exact H|typed]. }
  destruct F as [H1 Ht]. destruct (negb _); [injection E as <- <- <-; split; [exact H1|split; typed]|].
  destruct (bus_fetch16 _ _) as [[f lo] m2] eqn:Eb. destruct (gw_fetch W _ _ _ _ _ (j_q _ _ H1) Eb) as [Hq Hl].
  apply (J_mem m1 m2) in H1; [|exact Hq]. destruct (negb _); [injection E as <- <- <-; split; [exact H1|split; typed]|].
  destruct (rv_is_32bit _); [eapply fetch_hi_J; [eassumption|typed|exact H1]|]. cbv zeta in E.
  destruct (_ =? 0); injection E as <- <- <-; (split; [exact H1|]); [split; typed|apply expand_c_u32].
Qed.

(** ** Execution *)

Definition out_typed (o : insn_outcome M) : Prop :=
  match o with
  | Next next _ h m => is_u32 next /\ ctl h /\ J m h
  | Raise cause tval h m => is_u32 cause /\ is_u32 tval /\ ctl h /\ J m h
  end.

Definition out_J (o : insn_outcome M) : Prop :=
  match o with
  | Next next _ h m => is_u32 next /\ J m h
  | Raise cause tval h m => is_u32 cause /\ is_u32 tval /\ J m h
  end.

(** An instruction that is not a CSR write or a return keeps [ctl]. *)
Lemma out_plain h o : ctl h -> outcome_plain h o -> out_J o -> out_typed o.
Proof.
  intros C P. pose proof (fun h' F => frame_ctl h h' F C) as Fc. destruct o; cbn in *; intros.
  - destruct H as [A B]. auto.
  - destruct H as (A & A' & B). auto.
Qed.

Lemma wr_J m h rd v : is_u32 v -> J m h -> J m (wr h rd v).
Proof. intros Hv H. unfold wr. jset. Qed.

Lemma jalr_target_u32 a b : is_u32 (Z.ldiff (a +! b) 1).
Proof. typed. Qed.

Lemma exec_call_J next r : is_u32 next -> (forall e t h m, r = (e, t, h, m) -> J m h /\ is_u32 e /\ is_u32 t) -> out_J (exec_call next r).
Proof.
  intros Hn H. destruct r as [[[e t] h] m]. destruct (H _ _ _ _ eq_refl) as (A & B & C). unfold exec_call. destruct (negb _); cbn; auto.
Qed.

Lemma exec_jumps_J h m pc next insn : is_u32 next -> is_u32 insn -> J m h ->
  out_J (exec_jal h m pc next insn) /\ out_J (exec_jalr h m next insn) /\ out_J (exec_branch h m pc next insn).
Proof.
  intros Hn Hi H. unfold exec_jal, exec_jalr, exec_branch. split; [|split].
  - destruct (misaligned_target _); cbn; [split; [typed|split; [typed|exact H]]|split; [typed|apply wr_J; assumption]].
  - destruct (negb _); [cbn; split; [typed|auto]|].
    destruct (misaligned_target _); cbn; [split; [typed|split; [typed|exact H]]|split; [typed|apply wr_J; assumption]].
  - destruct (branch_taken _ _ _) as [[]|]; cbn; [|auto|split; [typed|auto]].
    destruct (misaligned_target _); cbn; [split; [typed|split; [typed|exact H]]|split; [typed|exact H]].
Qed.

Lemma load_kind_size f sz sg : load_kind f = Some (sz, sg) -> access_size sz.
Proof. unfold load_kind, access_size. branches; intros [= <- <-] || discriminate; auto. Qed.
Lemma store_size_size f sz : store_size f = Some sz -> access_size sz.
Proof. unfold store_size, access_size. branches; intros [= <-] || discriminate; auto. Qed.

Lemma exec_mem_J h m next insn : is_u32 next -> is_u32 insn -> J m h ->
  out_J (exec_load h m next insn) /\ out_J (exec_store h m next insn) /\ out_J (exec_misc_mem h m next insn).
Proof.
  intros Hn Hi H. unfold exec_load, exec_store, exec_misc_mem. pose proof (j_x _ _ H) as Hx. split; [|split].
  - destruct (load_kind _) as [[sz sg]|] eqn:Ek; [|cbn; split; [typed|auto]].
    destruct (rv_hart_load _ _ _ _ _) as [[[e v] h1] m1] eqn:El.
    destruct (load_J _ _ _ _ _ _ _ _ _ El (u32_range _) (load_kind_size _ _ _ Ek) H) as (H1 & He & Hv).
    destruct (negb _); cbn; [split; [typed|split; [typed|exact H1]]|split; [exact Hn|apply wr_J; typed]].
  - destruct (store_size _) as [sz|] eqn:Ek; [|cbn; split; [typed|auto]].
    destruct (rv_hart_store _ _ _ _ _) as [[e h1] m1] eqn:El.
    destruct (store_J _ _ _ _ _ _ _ _ El (u32_range _) (store_size_size _ _ Ek) (Hx _) H) as (H1 & He).
    destruct (negb _); cbn; [split; [typed|split; [typed|exact H1]]|auto].
  - destruct (_ =? 1); [cbn; auto|]. destruct (_ =? 2); [|cbn; auto]. destruct (_ || _); [cbn; split; [typed|auto]|].
    destruct (rv_hart_cbo _ _ _ _) as [[[e fa] h1] m1] eqn:El. destruct (cbo_J _ _ _ _ _ _ _ _ El (Hx _) H) as (H1 & He & Hf).
    destruct (negb _); cbn; [|auto]. split; [exact He|split; [typed|exact H1]].
Qed.

Lemma exec_ecall_J h m pc next insn : is_u32 pc -> is_u32 next -> J m h -> out_J (exec_ecall pf h m pc next insn).
Proof.
  intros Hp Hn H. unfold exec_ecall.
  assert (T : forall h' m', J m' h' -> out_J (Raise (if h_priv h' =? RV_PRIV_U then RV_EXC_ECALL_U
    else if h_priv h' =? RV_PRIV_S then RV_EXC_ECALL_S else RV_EXC_ECALL_M) 0 h' m'))
    by (intros; cbn; split; [typed|split; [typed|assumption]]).
  destruct (pf_ecall pf) as [hook|] eqn:Eh; [|apply T, H]. destruct (_ =? RV_PRIV_M); [|apply T, H].
  assert (H0 : J m (h <| h_pc := pc |>)) by jset.
  destruct (hook _ _ _ _) as [[[used ret] h1] m1] eqn:Er.
  destruct (gw_ecall W _ _ _ _ _ _ _ _ _ Eh Er (j_q _ _ H0)) as (Ed & Ex & Ep & Ef & Ec & Es & Hr & Hq).
  assert (H1 : J m1 h1).
  { apply (J_mem m m1) in H0; [|exact Hq]. apply (J_regs m1 _ h1) in H0; [exact H0| |exact Ed].
    destruct H0. split; rewrite ?Ex, ?Ep, ?Ef, ?Ec, ?Es; assumption. }
  destruct used; [|apply T, H1]. cbn. split; [exact Hn|]. jset.
Qed.

Lemma return_J m h : ctl h -> J m h -> J m (do_mret h) /\ J m (do_sret h).
Proof.
  intros C H. destruct (return_typed h C) as [_ D]. destruct (D (J_dat _ _ H)). split; (apply (J_regs m h); [assumption|reflexivity|exact H]).
Qed.

Lemma exec_priv_typed h m pc next insn : is_u32 pc -> is_u32 next -> is_u32 insn -> ctl h -> J m h ->
  out_typed (exec_priv pf h m pc next insn).
Proof.
  intros Hp Hn Hi C H. pose proof (j_x _ _ H) as Hx. unfold exec_priv.
  assert (Ill : forall c t, is_u32 c -> is_u32 t -> out_typed (Raise c t h m)) by (cbn; auto).
  assert (Ok : out_typed (Next next 0 h m)) by (cbn; auto).
  assert (Wait : out_typed (Next next 0 (h <| h_state := EMU_STATE_WFI |>) m)).
  { cbn. split; [exact Hn|]. split; [set_ctl|jset]. }
  destruct (_ && (rv_rd insn =? 0)).
  { destruct (_ || _); [apply Ill; typed|]. apply (out_plain h); [exact C|unfold outcome_plain; destruct (negb _); [apply flush_page_frame|apply flush_frame]|].
    cbn. split; [exact Hn|]. destruct (negb _); [apply flush_page_J, H|apply mmu_flush_J, H]. }
  destruct (_ || _); [apply Ill; typed|].
  destruct (_ =? 0); [apply (out_plain h); [exact C|apply exec_ecall_plain, (gw_hook W)|apply exec_ecall_J; assumption]|].
  destruct (_ =? 1); [apply Ill; typed|]. destruct (_ || _); [destruct (_ =? _); [apply Ill; typed|exact Ok]|].
  destruct (return_typed h C) as [[Cm Cs] _]. destruct (return_J m h C H) as [Jm Js].
  destruct (_ =? 770). { destruct (_ <? _); [apply Ill; typed|]. cbn. split; [apply Cm|auto]. }
  destruct (_ =? 258). { destruct (_ || _); [apply Ill; typed|]. cbn. split; [apply Cs|auto]. }
  destruct (_ =? 261). { destruct (_ || _); [apply Ill; typed|exact Wait]. }
  destruct (_ =? 13). { destruct (negb _); [exact Ok|]. destruct (_ && _); [apply Ill; typed|exact Wait]. }
  destruct (_ =? 29); [exact Ok|apply Ill; typed].
Qed.

(** A CSR write leaves the data table alone or empties it. *)
Lemma csr_write_range_dtlb h csr val e h' : csr_write_range h csr val = (e, h') ->
  h_dtlb h' = h_dtlb h \/ h_dtlb h' = fun _ _ => no_dtlb.
Proof.
  unfold csr_write_range, csr_done, csr_refuse, write_pmpaddr. intros E.
  repeat match type of E with match hpm_index ?a ?b with _ => _ end = _ =>
    destruct (hpm_index a b); [injection E as <- <-; left; reflexivity|] end.
  destruct (_ && _); injection E as <- <-; [|auto]. destruct (pmpaddr_locked _ _); auto.
Qed.

Lemma trig_write_dtlb h val : h_dtlb (rv_trig_write_tdata1 h val) = h_dtlb h.
Proof. unfold rv_trig_write_tdata1. destruct (_ <=? _); reflexivity. Qed.

Lemma csr_write_dtlb h csr val e h' : rv_csr_write h csr val = (e, h') ->
  h_dtlb h' = h_dtlb h \/ h_dtlb h' = fun _ _ => no_dtlb.
Proof.
  unfold rv_csr_write. intros E. pose proof (trig_write_dtlb h val).
  repeat match type of E with (if ?b then _ else _) = _ => destruct b;
    [try match type of E with (if ?b then _ else _) = _ => destruct b end; unfold csr_done, csr_refuse in E; injection E as <- <-;
     try match goal with |- context [if ?b then _ else _] => destruct b end; auto|] end.
  eapply csr_write_range_dtlb; eassumption.
Qed.

Lemma csr_write_J m h csr val e h' : rv_csr_write h csr val = (e, h') -> is_u32 val -> ctl h -> J m h -> is_u32 e /\ ctl h' /\ J m h'.
Proof.
  intros E Hv C H. destruct (csr_write_typed h csr val e h' Hv E) as (He & Hc & Hd). split; [exact He|]. split; [apply Hc, C|].
  pose proof (Hd C (J_dat _ _ H)) as D. destruct (csr_write_dtlb _ _ _ _ _ E) as [Ed|Ed].
  - eapply J_regs; eassumption.
  - apply J_intro; [exact D| |apply H]. unfold hosts_ok. rewrite Ed. intros t s va Hu Ev. exfalso. exact (no_vpn va Hu Ev).
Qed.

Lemma exec_csr_typed h m next insn : is_u32 next -> is_u32 insn -> ctl h -> J m h -> out_typed (exec_csr pf h m next insn).
Proof.
  intros Hn Hi C H. unfold exec_csr. cbv zeta.
  set (rd := if negb (_ && _) then _ else _). destruct rd as [e old] eqn:Er.
  assert (Ho : is_u32 e /\ is_u32 old).
  { unfold rd in Er. destruct (negb _); [eapply csr_read_u32; eassumption|]. injection Er as <- <-. split; typed. }
  destruct Ho as [He Ho]. clear Er. destruct (negb (e =? RV_EXC_NONE)); [cbn; auto|]. pose proof (j_x _ _ H) as Hx.
  assert (Hs : is_u32 (csr_value (rv_funct3 insn) old (if has (rv_funct3 insn) 4 then rv_rs1 insn else h_x h (rv_rs1 insn)))).
  { unfold csr_value, rv_rs1. typed. }
  destruct (if _ || _ then _ else _) as [e1 h1] eqn:Ew.
  assert (F : is_u32 e1 /\ ctl h1 /\ J m h1).
  { destruct (_ || _); [eapply csr_write_J; eassumption|]. injection Ew as <- <-. split; [typed|auto]. }
  destruct F as (He1 & C1 & H1).
  destruct (negb (e1 =? RV_EXC_NONE)); cbn; [auto|]. split; [exact Hn|]. split; [|apply wr_J; assumption].
  unfold wr. set_ctl.
Qed.

Lemma exec_typed h m pc next insn : is_u32 pc -> is_u32 next -> is_u32 insn -> ctl h -> J m h -> out_typed (exec pf h m pc next insn).
Proof.
  intros Hp Hn Hi C H. unfold exec. pose proof (j_x _ _ H) as Hx.
  destruct (exec_jump_plain h m pc next insn) as (P1 & P2 & P3). destruct (exec_jumps_J h m pc next insn Hn Hi H) as (J1 & J2 & J3).
  destruct (exec_mem_J h m next insn Hn Hi H) as (J4 & J5 & J6).
  assert (Alu : forall v, word_opt v -> out_typed (exec_alu h m insn next v)).
  { intros v Hv. apply (out_plain h); [exact C|apply exec_alu_plain|]. destruct v as [x|]; cbn; [|split; [typed|auto]].
    split; [exact Hn|apply wr_J; [apply Hv; reflexivity|exact H]]. }
  assert (Lui : forall v, is_u32 v -> out_typed (Next next 0 (wr h (rv_rd insn) v) m)).
  { intros v Hv. apply (Alu (Some v)). typed. }
  destruct (_ =? Z.shiftr OP_LUI 2); [apply Lui; unfold rv_imm_u; typed|].
  destruct (_ =? Z.shiftr OP_AUIPC 2); [apply Lui; typed|].
  destruct (_ =? Z.shiftr OP_JAL 2); [apply (out_plain h); assumption|].
  destruct (_ =? Z.shiftr OP_JALR 2); [apply (out_plain h); assumption|].
  destruct (_ =? Z.shiftr OP_BRANCH 2); [apply (out_plain h); assumption|].
  destruct (_ =? Z.shiftr OP_LOAD 2); [apply (out_plain h); [exact C|apply exec_load_plain|exact J4]|].
  destruct (_ =? Z.shiftr OP_STORE 2); [apply (out_plain h); [exact C|apply exec_store_plain|exact J5]|].
  destruct (_ =? Z.shiftr OP_IMM 2); [apply Alu; typed|].
  destruct (_ =? Z.shiftr OP_OP 2); [apply Alu; typed|].
  destruct (_ =? Z.shiftr OP_MISC_MEM 2); [apply (out_plain h); [exact C|apply exec_misc_plain|exact J6]|].
  destruct (_ =? Z.shiftr OP_AMO 2).
  { apply (out_plain h); [exact C|apply exec_call_plain; intros *; apply atomic_frame|]. apply exec_call_J; [exact Hn|].
    intros e t h1 m1 E. eapply atomic_J; eassumption. }
  destruct (_ =? Z.shiftr OP_SYSTEM 2).
  { unfold exec_system. destruct (_ =? 0); [apply exec_priv_typed; assumption|]. destruct (_ =? 4); [cbn; split; [typed|auto]|].
    apply exec_csr_typed; assumption. }
  destruct (_ || _); [|cbn; split; [typed|auto]].
  apply (out_plain h); [exact C|apply exec_call_plain; intros *; apply fp_frame|]. apply exec_call_J; [exact Hn|].
  intros e t h1 m1 E. eapply fp_J; eassumption.
Qed.


(** ** Traps and the loop *)

Lemma illegal_tval_J h m tval t h' m' : illegal_tval h m tval = (t, h', m') -> is_u32 tval -> ctl h -> J m h ->
  is_u32 t /\ ctl h' /\ J m' h'.
Proof.
  unfold illegal_tval. intros E Ht C H. destruct (if h_vm_active h then _ else _) as [[[e pa] h1] m1] eqn:Et.
  assert (F : ctl h1 /\ J m1 h1).
  { destruct (h_vm_active h); [|injection Et as <- <- <- <-; auto].
    split; [eapply frame_ctl; [eapply translate_frame; exact Et|exact C]|eapply translate_J; eassumption]. }
  destruct F as [C1 H1]. destruct (negb _); [injection E as <- <- <-; auto|].
  destruct (bus_fetch16 _ _) as [[f v] m2] eqn:Eb. destruct (gw_fetch W _ _ _ _ _ (j_q _ _ H1) Eb) as [Hq Hv].
  apply (J_mem m1 m2) in H1; [|exact Hq]. destruct f; try (injection E as <- <- <-; auto).
  destruct v as [p|]; injection E as <- <- <-; [|auto]. split; [|auto]. pose proof (Hv p eq_refl). typed.
Qed.

Lemma hpm_note_dtlb : forall fuel h i armed any exact inh, h_dtlb (hpm_note_from fuel h i armed any exact inh) = h_dtlb h.
Proof.
  assert (T : forall h i inh, h_dtlb (hpm_tick h i inh) = h_dtlb h).
  { intros. unfold hpm_tick. destruct (has _ inh); [reflexivity|]. cbv zeta. destruct (_ && _); reflexivity. }
  induction fuel as [|fuel IH]; intros; cbn [hpm_note_from]; [reflexivity|]. destruct (_ =? 0); [reflexivity|]. rewrite IH.
  destruct (_ || _); auto.
Qed.

Lemma trap_J h m cause tval h' m' : rv_hart_trap h m cause tval = (h', m') -> is_u32 cause -> is_u32 tval -> ctl h -> J m h ->
  ctl h' /\ J m' h'.
Proof.
  unfold rv_hart_trap. intros E Hc Ht C H.
  destruct (take_split h cause tval) as [t1 h1] eqn:Es.
  assert (F : is_u32 t1 /\ ctl h1 /\ J m h1).
  { unfold take_split in Es. pose proof (j_split _ _ H). destruct (h_split_valid h); injection Es as <- <-; [|auto].
    split; [typed|]. split; [set_ctl|jset]. }
  destruct F as (Ht1 & C1 & H1). clear Es C H Ht.
  destruct (if cause =? _ then _ else _) as [[t2 h2] m2] eqn:Ei.
  assert (F : is_u32 t2 /\ ctl h2 /\ J m2 h2).
  { destruct (cause =? _); [eapply illegal_tval_J; eassumption|]. injection Ei as <- <- <-. auto. }
  destruct F as (Ht2 & C2 & H2). clear Ei C1 H1 Ht1. cbv zeta in E.
  set (h3 := if trap_to_s h2 cause then enter_s h2 cause t2 else enter_m h2 cause t2) in E.
  destruct (enter_typed h2 cause t2 (j_pc _ _ H2) Hc Ht2) as [Ec Ed].
  assert (C3 : ctl h3) by (unfold h3; destruct (trap_to_s _ _); apply Ec, C2).
  assert (D3 : dat h3) by (unfold h3; destruct (trap_to_s _ _); apply Ed, (J_dat _ _ H2)).
  assert (E3 : h_dtlb h3 = h_dtlb h2) by (unfold h3; destruct (trap_to_s _ _); reflexivity). clearbody h3.
  assert (Hv : is_u32 (trap_vector (if trap_to_s h2 cause then h_stvec h3 else h_mtvec h3) cause)) by (destruct C3; typed).
  set (v := trap_vector _ cause) in *. clearbody v.
  assert (C4 : ctl (rv_mmu_refresh (rv_pmp_refresh h3))) by (apply refresh_ctl, refresh_ctl, C3).
  assert (D4 : dat (rv_mmu_refresh (rv_pmp_refresh h3))) by (apply refresh_dat, refresh_dat, D3).
  assert (E4 : h_dtlb (rv_mmu_refresh (rv_pmp_refresh h3)) = h_dtlb h2) by exact E3.
  set (h4 := rv_mmu_refresh (rv_pmp_refresh h3)) in *. clearbody h4.
  set (h5 := h4 <| h_pc := v |> <| h_resv_valid := false |>) in *.
  assert (C5 : ctl h5) by (unfold h5; set_ctl). assert (D5 : dat h5) by (unfold h5; set_dat).
  assert (E5 : h_dtlb h5 = h_dtlb h2) by exact E4. clearbody h5. clear C4 D4 E4 C3 D3 E3.
  set (h6 := if negb (h_hpm_armed h5 =? 0) then _ else h5) in *.
  assert (C6 : ctl h6) by (unfold h6, rv_hpm_note_trap; destruct (negb _); [apply hpm_note_typed, C5|exact C5]).
  assert (D6 : dat h6) by (unfold h6, rv_hpm_note_trap; destruct (negb _); [apply hpm_note_typed, D5|exact D5]).
  assert (E6 : h_dtlb h6 = h_dtlb h2) by (unfold h6, rv_hpm_note_trap; destruct (negb _); [rewrite hpm_note_dtlb|]; exact E5).
  clearbody h6. injection E as <- <-. split; [set_ctl|]. assert (J6 : J m2 h6) by (eapply J_regs; eassumption). jset.
Qed.

Lemma take_trap_J h m pc cause tval h' m' pc' : take_trap h m pc cause tval = (h', m', pc') ->
  is_u32 pc -> is_u32 cause -> is_u32 tval -> ctl h -> J m h -> is_u32 pc' /\ ctl h' /\ J m' h'.
Proof.
  unfold take_trap, rv_hart_trap_unretire. intros E Hp Hc Ht C H.
  assert (C0 : ctl (h <| h_pc := pc |>)) by set_ctl. assert (H0 : J m (h <| h_pc := pc |>)) by jset.
  destruct (rv_hart_trap _ _ _ _) as [h1 m1] eqn:Et. destruct (trap_J _ _ _ _ _ _ Et Hc Ht C0 H0) as [C1 H1]. cbv zeta in E.
  set (h2 := if negb (has (h_mcountinhibit h1) 1) then _ else h1) in E.
  assert (F2 : ctl h2 /\ J m1 h2) by (unfold h2; destruct (negb _); split; [set_ctl|jset|exact C1|exact H1]). destruct F2 as [C2 H2]. clearbody h2.
  set (h3 := if negb (has (h_mcountinhibit h2) 4) then _ else h2) in E.
  assert (F3 : ctl h3 /\ J m1 h3) by (unfold h3; destruct (negb _); split; [set_ctl|jset|exact C2|exact H2]). destruct F3 as [C3 H3]. clearbody h3.
  injection E as <- <- <-. split; [apply H3|]. split; [apply retire_typed, C3|].
  apply (J_regs m1 h3); [apply retire_typed, (J_dat _ _ H3)| |exact H3]. unfold retire. cbv zeta. destruct (_ && _), (_ && _); reflexivity.
Qed.

Lemma retire_J m h ctr : J m h -> J m (retire h ctr).
Proof.
  intros H. apply (J_regs m h); [apply retire_typed, (J_dat _ _ H)| |exact H]. unfold retire. cbv zeta.
  destruct (_ && _), (_ && _); reflexivity.
Qed.

Lemma run_insn_J h m pc h' m' pc' : run_insn pf h m pc = (h', m', pc') -> is_u32 pc -> ctl h -> J m h ->
  is_u32 pc' /\ ctl h' /\ J m' h'.
Proof.
  unfold run_insn. intros E Hp C H. destruct (RvInterp.fetch h m pc) as [[r h1] m1] eqn:Ef.
  destruct (fetch_J _ _ _ _ _ _ Ef Hp H) as [H1 Hr]. pose proof (frame_ctl _ _ (fetch_frame _ _ _ _ _ _ Ef) C) as C1.
  destruct r as [insn len|c t]; [|destruct Hr; eapply take_trap_J; eassumption].
  pose proof (exec_typed h1 m1 pc (pc +! len) insn Hp (u32_range _) Hr C1 H1) as Ho.
  destruct (exec _ _ _ _ _ _) as [next ctr h2 m2|c t h2 m2]; cbn [finish] in E.
  - destruct Ho as (Hn & C2 & H2). injection E as <- <- <-. split; [exact Hn|]. split; [apply retire_typed, C2|apply retire_J, H2].
  - destruct Ho as (Hc & Ht & C2 & H2). eapply take_trap_J; eassumption.
Qed.

(** The whole invariant of a machine. *)
Definition guest_inv (h : rv_hart) (m : M) : Prop := ctl h /\ J m h.

Lemma iteration_J h m pc : is_u32 pc -> guest_inv h m ->
  match iteration pf h m pc with
  | inl (_, h', m') => guest_inv h' m'
  | inr (h', m', pc') => is_u32 pc' /\ guest_inv h' m'
  end.
Proof.
  intros Hp [C H]. unfold iteration. cbv zeta. apply (zero_x0_J m h) in H. assert (C0 : ctl (zero_x0 h)) by (unfold zero_x0; set_ctl).
  clear C. set (h0 := zero_x0 h) in *. clearbody h0. destruct (negb _); [split; assumption|].
  assert (K : forall h1, ctl h1 -> J m h1 -> match (inr (run_insn pf h1 m pc) : (emu_run_reason * rv_hart * M) + (rv_hart * M * Z))
    with inl (_, h', m') => guest_inv h' m' | inr (h', m', pc') => is_u32 pc' /\ guest_inv h' m' end).
  { intros h1 C1 H1. destruct (run_insn pf h1 m pc) as [[h' m'] pc'] eqn:Er.
    destruct (run_insn_J _ _ _ _ _ _ Er Hp C1 H1) as (? & ? & ?). split; [assumption|split; assumption]. }
  destruct (h_irq_dirty h0); [|apply K; assumption].
  assert (C1 : ctl (h0 <| h_irq_dirty := false |>)) by set_ctl. assert (H1 : J m (h0 <| h_irq_dirty := false |>)) by jset.
  set (h1 := h0 <| h_irq_dirty := false |>) in *. clearbody h1. destruct (negb _) eqn:Ei; [|apply K; assumption].
  destruct (take_trap _ _ _ _ _) as [[h' m'] pc'] eqn:Et.
  assert (Hi : is_u32 (RV_CAUSE_INTERRUPT |! rv_hart_pending_irq h1)) by (unfold rv_hart_pending_irq; branches; typed).
  assert (C2 : ctl (h1 <| h_state := EMU_STATE_RUNNING |>)) by set_ctl.
  assert (H2 : J m (h1 <| h_state := EMU_STATE_RUNNING |>)) by jset.
  destruct (take_trap_J _ _ _ _ _ _ _ _ Et Hp Hi ltac:(typed) C2 H2) as (? & ? & ?). split; [assumption|split; assumption].
Qed.

Lemma set_irq_J m h cause level : guest_inv h m -> guest_inv (rv_hart_set_irq h cause level) m.
Proof.
  intros [C H]. split; [apply set_irq_typed, C|]. apply (J_regs m h); [apply set_irq_typed, (J_dat _ _ H)| |exact H].
  unfold rv_hart_set_irq. destruct level; reflexivity.
Qed.

(** What the host does to the machine between instructions and between runs:
    the interrupt lines it drives, a timer, a device. *)
Variable host_step : M -> M -> Prop.

Record host_world : Prop := {
  hw_lines : forall m lines m', pf_lines pf m = (lines, m') -> Q m -> Q m';
  hw_step : forall m m', host_step m m' -> Q m -> Q m'
}.

Hypothesis HW : host_world.

Lemma deliver_J h m h' m' : deliver pf h m = (h', m') -> guest_inv h m -> guest_inv h' m'.
Proof.
  unfold deliver. destruct (pf_lines pf m) as [lines m1] eqn:El. intros [= <- <-] [C H].
  apply (J_mem m m1) in H; [|eapply (hw_lines HW); [exact El|apply H]]. assert (I : guest_inv h m1) by (split; assumption). clear -I.
  revert h I. unfold set_lines. induction lines as [|[c l] lines IH]; intros h I; [exact I|]. cbn. apply IH, set_irq_J, I.
Qed.

Lemma run_loop_J : forall fuel h m pc done r h' m' pc' done', run_loop pf fuel h m pc done = (r, h', m', pc', done') ->
  is_u32 pc -> guest_inv h m -> is_u32 pc' /\ guest_inv h' m'.
Proof.
  induction fuel as [|fuel IH]; intros h m pc done r h' m' pc' done' E Hp I; cbn [run_loop] in E.
  { injection E as <- <- <- <- <-. auto. }
  pose proof (iteration_J h m pc Hp I) as K. destruct (iteration pf h m pc) as [[[r1 h1] m1]|[[h1 m1] pc1]].
  { injection E as <- <- <- <- <-. auto. }
  destruct K as [Hp1 I1]. destruct (deliver pf h1 m1) as [h2 m2] eqn:Ed. eapply IH; [exact E|exact Hp1|]. eapply deliver_J; eassumption.
Qed.

Lemma run_J h m budget r n h' m' : interp_run pf h m budget = (r, n, h', m') -> guest_inv h m -> guest_inv h' m'.
Proof.
  unfold interp_run. intros E [C H]. destruct (_ && _); [injection E as <- <- <- <-; split; assumption|]. cbv zeta in E.
  set (h1 := if h_state h =? EMU_STATE_WFI then _ else h) in E.
  assert (I1 : guest_inv h1 m) by (unfold h1; destruct (_ =? _); split; [set_ctl|jset|exact C|exact H]).
  clearbody h1. destruct (run_loop _ _ _ _ _ _) as [[[[r1 h2] m2] pc2] d2] eqn:El.
  destruct (run_loop_J _ _ _ _ _ _ _ _ _ _ El (j_pc _ _ (proj2 I1)) I1) as [Hp [C2 H2]].
  injection E as <- <- <- <-. split; [set_ctl|jset].
Qed.

(** ** Reset *)

Lemma reset_J h m pc : is_u32 (h_hartid h) -> is_u32 pc -> is_u32 (h_split_at h) -> Q m -> guest_inv (rv_hart_reset h pc) m.
Proof.
  intros Hh Hp Hs Hq. assert (U0 : is_u32 0) by typed. assert (U1 : is_u64 0) by typed.
  assert (U2 : is_u32 (0 |! (1 <<! MSTATUS_FS_SHIFT))) by typed. split.
  - split; intros; first [exact U0|exact U1|exact U2|exact Hh|exact ppn_fits_zero].
  - split; intros; first [exact U0|exact U1|exact Hp|exact Hs|exact Hq|idtac]. exfalso. exact (no_vpn va H H0).
Qed.

Lemma boot_J h m info : is_u32 (ram_base info) -> is_u32 (ram_size info) -> is_u32 (dtb info) -> guest_inv h m ->
  guest_inv (rv_hart_boot h info) m.
Proof.
  intros Hb Hs Hd [C H]. pose proof (ct_hartid _ C). unfold rv_hart_boot. cbv zeta. split; [set_ctl|jset].
Qed.

(** Everything that can happen to a machine that starts in [m0]: power-on,
    reset, the boot protocol, runs of any length, the host's own steps and the
    interrupt lines they drive. *)
Inductive session (m0 : M) : rv_hart -> M -> Prop :=
| ses_init hartid pc : is_u32 hartid -> is_u32 pc -> session m0 (rv_hart_reset (rv_hart_init hartid) pc) m0
| ses_reset h m pc : is_u32 pc -> session m0 h m -> session m0 (rv_hart_reset h pc) m
| ses_boot h m info : is_u32 (ram_base info) -> is_u32 (ram_size info) -> is_u32 (dtb info) -> session m0 h m ->
    session m0 (rv_hart_boot h info) m
| ses_run h m budget r n h' m' : session m0 h m -> interp_run pf h m budget = (r, n, h', m') -> session m0 h' m'
| ses_host h m m1 h' m' : session m0 h m -> host_step m m1 -> deliver pf h m1 = (h', m') -> session m0 h' m'.

Lemma session_inv m0 h m : Q m0 -> session m0 h m -> guest_inv h m.
Proof.
  intros Hq S. induction S as [hartid pc Hh Hp|h m pc Hp S IH|h m info Hb Hs Hd S IH|h m budget r n h' m' S IH E|h m m1 h' m' S IH Hs E].
  - apply reset_J; [exact Hh|exact Hp|exact (ltac:(typed) : is_u32 0)|exact Hq].
  - destruct IH as [C H]. apply reset_J; [apply C|exact Hp|apply H|apply H].
  - apply boot_J; assumption.
  - eapply run_J; eassumption.
  - eapply deliver_J; [exact E|]. destruct IH as [C H]. split; [exact C|]. eapply J_mem; [|exact H]. eapply (hw_step HW); [exact Hs|apply H].
Qed.

End Guest.
