(* ===== verification/RvContain.v ===== *)
(** * The guest stays inside its memory

    The emulator's bus meets [guest_world]: whatever the guest runs, the hart
    stays typed, the table of regions stays as it was set up, and no host byte
    changes outside the RAM the table lets the guest write.  [Ew] is any
    property of the world the devices keep, so that the theorems about
    devices rest on the same instance. *)

From stdpp Require Import base list gmap.
From Stdlib Require Import ZArith Lia.
From S2P Require Import Prelude Bus BusProps BusMem RvHart RvBus RvPmp RvMmu RvAccess RvTrap RvInterp RvFrame RvFpu RvTyped RvGuest.

Open Scope Z_scope.
Open Scope u32_scope.

(** ** Addresses count modulo 2^32 *)

Section Wrap.
Context {Ext : Type}.
Variable pt_read : Ext -> Z -> Z -> Z * Ext.
Variable pt_write : Ext -> Z -> Z -> Z -> Ext.

Lemma in_region_wrap (r : emu_region Ext) a : in_region r (u32 a) = in_region r a.
Proof. unfold in_region. rewrite u32_sub_l. reflexivity. Qed.

Lemma find_from_wrap (rs : list (emu_region Ext)) a : forall i, find_from rs i (u32 a) = find_from rs i a.
Proof. induction rs as [|r rs IH]; intros i; cbn; [reflexivity|]. rewrite in_region_wrap, IH. reflexivity. Qed.

Lemma find_wrap (b : emu_bus Ext) a : emu_bus_find b (u32 a) = emu_bus_find b a.
Proof.
  unfold emu_bus_find. rewrite find_from_wrap. destruct (regions b !! _) as [r|]; [|reflexivity]. rewrite in_region_wrap. reflexivity.
Qed.

Lemma check_wrap (b : emu_bus Ext) a sz pm : check b (u32 a) sz pm = check b a sz pm.
Proof. unfold check, region_allows. rewrite find_wrap. destruct (emu_bus_find b a) as [[r|] b']; [rewrite u32_sub_l|]; reflexivity. Qed.

Lemma hit_wrap c a sz : cache_hit c (u32 a) sz = cache_hit c a sz.
Proof. unfold cache_hit. rewrite u32_sub_l. reflexivity. Qed.

Lemma cache_rw_wrap c h a sz v : cache_read c h (u32 a) sz = cache_read c h a sz /\ cache_write c h (u32 a) sz v = cache_write c h a sz v.
Proof. unfold cache_read, cache_write. rewrite u32_sub_l. auto. Qed.

Lemma read_wrap b h e a sz : emu_bus_read pt_read b h e (u32 a) sz = emu_bus_read pt_read b h e a sz.
Proof.
  unfold emu_bus_read, emu_bus_read_slow, emu_bus_read_le_hit, emu_bus_read_be_hit, rodata_hit, rodata_be_hit.
  rewrite !hit_wrap, check_wrap. rewrite !(fun c => proj1 (cache_rw_wrap c h a sz 0)). reflexivity.
Qed.

Lemma write_wrap b h e a sz v : emu_bus_write pt_write b h e (u32 a) sz v = emu_bus_write pt_write b h e a sz v.
Proof.
  unfold emu_bus_write, emu_bus_write_slow, emu_bus_write_le_hit, emu_bus_write_be_hit.
  rewrite !hit_wrap, check_wrap. rewrite (proj2 (cache_rw_wrap _ h a sz v)), (proj2 (cache_rw_wrap _ h a sz (emu_bswap v sz))). reflexivity.
Qed.

Lemma fetch16_wrap b h e a : emu_bus_fetch16 pt_read b h e (u32 a) = emu_bus_fetch16 pt_read b h e a.
Proof.
  unfold emu_bus_fetch16, emu_bus_fetch16_slow, emu_bus_fetch16_le_hit, emu_bus_fetch16_be_hit, cache_read.
  rewrite check_wrap, !u32_sub_l. reflexivity.
Qed.

(** ** What the guest may write *)

Definition writable (rs : list (emu_region Ext)) (buf off : Z) : Prop :=
  exists r, In r rs /\ kind r = EMU_MEM_RAM /\ has (perm r) EMU_PERM_W = true /\ host r = buf /\ 0 <= off < size r.

(** The same table and, outside what the guest may write, the same bytes. *)
Record contained (m0 m : machine (Ext := Ext)) : Prop := {
  cn_wf : bus_wf (m_bus m);
  cn_le : big_endian (m_bus m) = false;
  cn_regions : regions (m_bus m) = regions (m_bus m0);
  cn_bytes : forall buf off, ~ writable (regions (m_bus m0)) buf off -> m_heap m buf off = m_heap m0 buf off
}.

Lemma contained_refl m : bus_wf (m_bus m) -> big_endian (m_bus m) = false -> contained m m.
Proof. intros Hw Hb. split; auto. Qed.

Lemma host_ld_u32 f o sz : access_size sz -> is_u32 (host_ld f o sz).
Proof.
  intros [-> | [-> | ->]]; unfold host_ld, is_u32; cbn [nbytes]; pose proof (ld_le_range f 1 o); pose proof (ld_le_range f 2 o);
    pose proof (ld_le_range f 4 o); cbn in *; lia.
Qed.

Lemma host_st_other f o sz v x : access_size sz -> ~ (o <= x < o + sz) -> host_st f o sz v x = f x.
Proof. intros [-> | [-> | ->]] H; unfold host_st; apply st_le_other; cbn; lia. Qed.

Lemma upd_heap_other (h : heap) buf o sz v b x : access_size sz -> (b = buf -> ~ (o <= x < o + sz)) ->
  upd h buf (host_st (h buf) o sz v) b x = h b x.
Proof.
  intros Hs Hx. unfold upd. destruct (Z.eqb_spec b buf) as [->|]; [|reflexivity]. apply host_st_other; auto.
Qed.

(** Where an access that is granted lands. *)
Lemma grant_lands rs a sz pm r o : table_ok rs -> is_u32 a -> access_size sz -> grant (Ext := Ext) rs a sz pm = Some (r, o) ->
  In r rs /\ has (perm r) pm = true /\ 0 <= o /\ o + sz <= size r.
Proof.
  intros [Hok _] Ha Hs E. destruct (grant_inv _ _ _ _ _ _ E) as (_ & Hp & _ & El). destruct (lookup_region_in _ _ _ El) as [Hin Hr].
  rewrite Forall_forall in Hok. pose proof (Hok r (proj2 (list_elem_of_In rs r) Hin)) as Hreg. split; [exact Hin|].
  unfold has. rewrite Hp. split; [reflexivity|]. unfold grant in E. rewrite El in E. unfold region_allows in E.
  destruct (_ <? _) eqn:Et; [discriminate|]. destruct (_ =? 0); [discriminate|]. destruct (_ =? 0); [discriminate|]. injection E as <-.
  apply Z.ltb_ge in Et. split; [apply u32_range|]. destruct Hreg as (_ & Hsz & _).
  rewrite (u32_id (size r - sz)) in Et; [lia|]. unfold is_u32. destruct Hs as [-> | [-> | ->]]; lia.
Qed.

End Wrap.

(** ** The emulator's bus as a world for the guest *)

Section World.
Context {Ext : Type}.
Variable pt_read : Ext -> Z -> Z -> Z * Ext.
Variable pt_write : Ext -> Z -> Z -> Z -> Ext.
Variable m0 : machine (Ext := Ext).
Variable Ew : Ext -> Prop.
#[local] Abbreviation mach := (@machine Ext).
Variable pf : platform mach.

#[local] Instance PB : PhysBus Ext mach := emu_phys_bus pt_read pt_write.

(** Devices and the host's peripherals answer words and keep [Ew]. *)
Record devices_ok : Prop := {
  dv_read : forall r o e off sz f v e', In r (regions (m_bus m0)) -> ops r = Some o -> Ew e ->
    dev_read o e off sz = (f, v, e') -> Ew e' /\ word_opt v;
  dv_write : forall r o e off sz w f e', In r (regions (m_bus m0)) -> ops r = Some o -> Ew e -> is_u32 w ->
    dev_write o e off sz w = (f, e') -> Ew e';
  dv_pt_read : forall e a sz v e', Ew e -> pt_read e a sz = (v, e') -> Ew e' /\ is_u32 v;
  dv_pt_write : forall e a sz w, Ew e -> is_u32 w -> Ew (pt_write e a sz w)
}.

(** The ECALL hook is given a copy of the arguments; what it does to memory
    stays within the guest's. *)
Record hook_ok : Prop := {
  hk_frames : hook_frames pf;
  hk_regs : forall hook nr args h m used ret h' m', pf_ecall pf = Some hook -> hook nr args h m = (used, ret, h', m') ->
    h_dtlb h' = h_dtlb h /\ h_x h' = h_x h /\ h_pc h' = h_pc h /\ h_f h' = h_f h /\ h_fcsr h' = h_fcsr h /\
    h_split_at h' = h_split_at h /\ is_u32 ret;
  hk_memory : forall hook nr args h m used ret h' m', pf_ecall pf = Some hook -> hook nr args h m = (used, ret, h', m') ->
    contained m0 m -> Ew (m_ext m) -> contained m0 m' /\ Ew (m_ext m')
}.

Hypothesis D : devices_ok.
Hypothesis H : hook_ok.

Definition in_world (m : mach) : Prop := contained m0 m /\ Ew (m_ext m).

Lemma spec_read_world m a sz f v hp e : in_world m -> access_size sz ->
  spec_read pt_read false (regions (m_bus m)) (m_heap m) (m_ext m) a sz = (f, v, hp, e) -> hp = m_heap m /\ Ew e /\ word_opt v.
Proof.
  intros [C E] Hs. unfold spec_read. destruct (grant _ _ _ _) as [[r o]|] eqn:Eg; [|intros [= <- <- <- <-]; split; [reflexivity|split; [exact E|typed]]].
  assert (Hin : In r (regions (m_bus m0))).
  { rewrite <- (cn_regions _ _ C). destruct (grant_inv _ _ _ _ _ _ Eg) as (_ & _ & _ & El). apply lookup_region_in in El. apply El. }
  destruct (kind r).
  - intros [= <- <- <- <-]. split; [reflexivity|]. split; [exact E|]. apply word_some, host_ld_u32, Hs.
  - intros [= <- <- <- <-]. split; [reflexivity|]. split; [exact E|]. apply word_some, host_ld_u32, Hs.
  - destruct (ops r) as [d|] eqn:Eo; [|intros [= <- <- <- <-]; split; [reflexivity|split; [exact E|typed]]].
    destruct (dev_read d _ _ _) as [[f1 v1] e1] eqn:Ed. intros [= <- <- <- <-].
    destruct (dv_read D _ _ _ _ _ _ _ _ Hin Eo E Ed). auto.
  - destruct (pt_read _ _ _) as [v1 e1] eqn:Ep. intros [= <- <- <- <-]. destruct (dv_pt_read D _ _ _ _ _ E Ep). split; [reflexivity|].
    split; [assumption|typed].
Qed.

Lemma spec_fetch_world m a f v hp e : in_world m ->
  spec_fetch16 pt_read false (regions (m_bus m)) (m_heap m) (m_ext m) a = (f, v, hp, e) -> hp = m_heap m /\ Ew e /\ word_opt v.
Proof.
  intros [C E]. assert (U16 : forall x, is_u32 (u16 x)) by (intros x; unfold u16, is_u32; pose proof (Z.mod_pos_bound x (2 ^ 16)); lia).
  unfold spec_fetch16. destruct (grant _ _ _ _) as [[r o]|]; [|intros [= <- <- <- <-]; split; [reflexivity|split; [exact E|typed]]].
  destruct (kind r); try (intros [= <- <- <- <-]; split; [reflexivity|split; [exact E|typed]]).
  destruct (pt_read _ _ _) as [v1 e1] eqn:Ep. intros [= <- <- <- <-]. destruct (dv_pt_read D _ _ _ _ _ E Ep). split; [reflexivity|].
  split; [assumption|typed].
Qed.

Lemma spec_write_world m a sz w f v hp e : in_world m -> is_u32 a -> access_size sz -> is_u32 w ->
  spec_write pt_write false (regions (m_bus m)) (m_heap m) (m_ext m) a sz w = (f, v, hp, e) ->
  Ew e /\ forall buf off, ~ writable (regions (m_bus m0)) buf off -> hp buf off = m_heap m buf off.
Proof.
  intros [C E] Ha Hs Hw. unfold spec_write. destruct (grant _ _ _ _) as [[r o]|] eqn:Eg; [|intros [= <- <- <- <-]; auto].
  destruct (grant_lands _ _ _ _ _ _ (wf_table _ (cn_wf _ _ C)) Ha Hs Eg) as (Hin & Hp & Ho & Hsz). rewrite (cn_regions _ _ C) in Hin.
  destruct (kind r) eqn:Ek.
  - intros [= <- <- <- <-]. split; [exact E|]. intros buf off Hn. apply upd_heap_other; [exact Hs|]. intros -> Hx. apply Hn.
    exists r. repeat split; auto; lia.
  - intros [= <- <- <- <-]; auto.
  - destruct (ops r) as [d|] eqn:Eo; [|intros [= <- <- <- <-]; auto]. destruct (dev_write d _ _ _ _) as [f1 e1] eqn:Ed.
    intros [= <- <- <- <-]. split; [eapply (dv_write D); eassumption|auto].
  - intros [= <- <- <- <-]. split; [apply (dv_pt_write D); assumption|auto].
Qed.

Lemma keeps_contained m b hp e : contained m0 m -> keeps_map (m_bus m) b ->
  (forall buf off, ~ writable (regions (m_bus m0)) buf off -> hp buf off = m_heap m buf off) -> contained m0 (Machine b hp e).
Proof.
  intros C (K1 & K2 & K3) Hb. split; cbn [m_bus m_heap].
  - assumption.
  - rewrite K3. apply C.
  - rewrite K2. apply C.
  - intros buf off Hn. rewrite Hb by assumption. apply C, Hn.
Qed.

Lemma emu_world : guest_world in_world (writable (regions (m_bus m0))) pf.
Proof.
  split.
  - intros m a sz f v m' [C E] Hs. cbn [bus_read PB emu_phys_bus]. rewrite <- read_wrap. intros [= <- <- <-].
    destruct (bus_read_ok pt_read (m_bus m) (m_heap m) (m_ext m) (u32 a) sz (cn_wf _ _ C) (u32_range a) Hs) as [Hv K].
    rewrite (cn_le _ _ C) in Hv. unfold view in Hv. symmetry in Hv.
    destruct (spec_read_world m _ _ _ _ _ _ (conj C E) Hs Hv) as (Hh & He & Hw). split; [|exact Hw]. split; [|exact He].
    apply (keeps_contained m); [exact C|exact K|]. intros. rewrite Hh. reflexivity.
  - intros m a sz w f m' [C E] Hs Hw. cbn [bus_write PB emu_phys_bus]. rewrite <- write_wrap. intros [= <- <-].
    destruct (bus_write_ok pt_write (m_bus m) (m_heap m) (m_ext m) (u32 a) sz w (cn_wf _ _ C) (u32_range a) Hs) as [Hv K].
    rewrite (cn_le _ _ C) in Hv. unfold view in Hv. symmetry in Hv.
    destruct (spec_write_world m _ _ _ _ _ _ _ (conj C E) (u32_range a) Hs Hw Hv) as (He & Hh). split; [|exact He].
    apply (keeps_contained m); assumption.
  - intros m a f v m' [C E]. cbn [bus_fetch16 PB emu_phys_bus]. rewrite <- fetch16_wrap. intros [= <- <- <-].
    destruct (bus_fetch16_ok pt_read (m_bus m) (m_heap m) (m_ext m) (u32 a) (cn_wf _ _ C) (u32_range a)) as [Hv K].
    rewrite (cn_le _ _ C) in Hv. unfold view in Hv. symmetry in Hv.
    destruct (spec_fetch_world m _ _ _ _ _ (conj C E) Hv) as (Hh & He & Hw). split; [|exact Hw]. split; [|exact He].
    apply (keeps_contained m); [exact C|exact K|]. intros. rewrite Hh. reflexivity.
  - intros m a r m' [C E]. cbn [bus_find PB emu_phys_bus]. rewrite <- find_wrap.
    destruct (bus_find_spec (m_bus m) (u32 a) (wf_table _ (cn_wf _ _ C)) (u32_range a)) as (b' & -> & S). intros [= <- <-].
    split; [|exact E]. apply (keeps_contained m); [exact C|apply keeps_same; [apply C|exact S]|reflexivity].
  - intros m a r m' [C E]. cbn [bus_find PB emu_phys_bus]. rewrite <- find_wrap.
    destruct (bus_find_spec (m_bus m) (u32 a) (wf_table _ (cn_wf _ _ C)) (u32_range a)) as (b' & -> & S). intros [= El <-] Hp Hk Hw i Hi.
    destruct (lookup_region_in _ _ _ El) as [Hin _]. exists r. rewrite <- (cn_regions _ _ C). split; [exact Hin|]. split; [exact Hk|].
    split; [exact Hw|]. split; [reflexivity|]. unfold page_memory, RV_PAGE_SIZE in Hp. bool_hyps.
    destruct (wf_table _ (cn_wf _ _ C)) as [Hok _]. rewrite Forall_forall in Hok.
    destruct (Hok r (proj2 (list_elem_of_In _ r) Hin)) as (_ & Hsz & _). pose proof (u32_range (a - base r)) as Hu. unfold is_u32 in Hu.
    rewrite (u32_id (size r - _)) in * by (unfold is_u32; lia). lia.
  - intros m buf off sz _ Hs. apply host_ld_u32, Hs.
  - intros m buf off sz v [C E] Hs Hg. split; [|exact E]. apply (keeps_contained m); [exact C|apply keeps_same; [apply C|apply same_map_refl]|].
    intros b o Hn. apply upd_heap_other; [exact Hs|]. intros -> Hx. apply Hn. replace o with (off + (o - off)) by lia. apply Hg. lia.
  - apply H.
  - intros hook nr args h m used ret h' m' Eh Er [C E]. destruct (hk_regs H _ _ _ _ _ _ _ _ _ Eh Er) as (A1 & A2 & A3 & A4 & A5 & A6 & A7).
    destruct (hk_memory H _ _ _ _ _ _ _ _ _ Eh Er C E). do 7 (split; [assumption|]). split; assumption.
Qed.

End World.

(** ** Whole sessions *)

Section Sessions.
Context `{Cfg : RvConfig} {SF : SoftFloat} {ST : SoftFloatTyped SF} {Ext : Type}.
Variable pt_read : Ext -> Z -> Z -> Z * Ext.
Variable pt_write : Ext -> Z -> Z -> Z -> Ext.
Variable pf : platform (@machine Ext).
Variable world_step : Ext -> Ext -> Prop.

#[local] Instance PB' : PhysBus Ext (@machine Ext) := emu_phys_bus pt_read pt_write.

(** What the host does on its own touches the world of devices only. *)
Definition machine_step (m m' : @machine Ext) : Prop :=
  exists e, world_step (m_ext m) e /\ m' = Machine (m_bus m) (m_heap m) e.

Definition lines_outside : Prop := forall m lines m', pf_lines pf m = (lines, m') -> m_bus m' = m_bus m /\ m_heap m' = m_heap m.

(** A machine as it is set up. *)
Record set_up (m0 : @machine Ext) : Prop := {
  su_wf : bus_wf (m_bus m0);
  su_le : big_endian (m_bus m0) = false;
  su_devices : devices_ok pt_read pt_write m0 (fun _ => True);
  su_hook : hook_ok m0 (fun _ => True) pf;
  su_lines : lines_outside
}.

Lemma session_guest m0 h m : set_up m0 -> session pf machine_step m0 h m ->
  guest_inv (in_world m0 (fun _ => True)) (writable (regions (m_bus m0))) h m.
Proof.
  intros [Hw Hb D H L] S. pose proof (emu_world pt_read pt_write m0 (fun _ => True) pf D H) as W.
  refine (session_inv _ _ pf W machine_step _ m0 h m _ S); [|split; [apply contained_refl; assumption|exact I]].
  split.
  - intros m1 lines m2 E [C _]. destruct (L _ _ _ E) as [E1 E2]. split; [|exact I]. destruct C. split; rewrite ?E1, ?E2; assumption.
  - intros m1 m2 (e & _ & ->) [C _]. split; [|exact I]. destruct C. split; assumption.
Qed.

(** The hart's registers fit their C types, in every state a machine can
    come to: the integer registers, the program counter and the 32-bit CSRs
    are 32-bit words, the floating-point registers and the counters 64-bit
    ones, whatever the guest executes, so no value of the model is one the
    source could not hold.  Devices answer 32-bit words and SoftFloat results
    of its formats' widths. *)
Theorem registers_typed m0 h m : set_up m0 -> session pf machine_step m0 h m -> typed h.
Proof. intros U S. destruct (session_guest m0 h m U S) as [C J]. split; [exact C|eapply J_dat; exact J]. Qed.

(** [C6] The guest stays inside its memory.  Whatever it executes, at any
    privilege and whatever it has made of its page tables, PMP and caches: no
    host byte changes other than those of RAM regions the table lets the guest
    write -- ROM, the emulator's own memory and every byte past the end of a
    buffer are as they were -- and the table and the bus's invariants are
    those it was set up with. *)
Theorem guest_contained m0 h m : set_up m0 -> session pf machine_step m0 h m -> contained m0 m.
Proof. intros U S. destruct (session_guest m0 h m U S) as [_ J]. apply (j_q _ _ _ _ J). Qed.

End Sessions.
