(* ===== verification/RvSoc.v ===== *)
(** * The RV32 machine: hart, CLINT and APLIC together

    [src/frontend/rv32/rv32_frontend.c]: the one hart, the two devices the
    privileged architecture defines, and the operations a platform calls.
    The devices are part of the world behind the bus ([soc]), beside whatever
    else the board has ([soc_rest]); the calls of [rv_hart_set_irq] they make
    while an instruction runs wait in [soc_queue] and are delivered at its
    end.  [on_eoi] is the platform's unmask hook. *)

From stdpp Require Import base list gmap.
From Stdlib Require Import ZArith Lia.
From S2P Require Import Prelude Bus BusProps RvHart RvBus RvMmu RvTrap RvFpu RvInterp RvClint RvAplic.

Open Scope Z_scope.
Open Scope u32_scope.

Section Soc.
Context {Rest : Type}.
Variable on_eoi : Z -> Rest -> Rest.

Record soc := Soc { soc_clint : rv_clint; soc_aplic : rv_aplic; soc_queue : irq_calls; soc_rest : Rest }.

(** An operation's calls carried out: the lines queued, the hook run. *)
Definition apply_call (e : soc) (c : aplic_call) : soc :=
  match c with
  | SetIrq cause level => Soc (soc_clint e) (soc_aplic e) (soc_queue e ++ [(cause, level)]) (soc_rest e)
  | Eoi source => Soc (soc_clint e) (soc_aplic e) (soc_queue e) (on_eoi source (soc_rest e))
  end.

Definition put_clint (e : soc) (c : rv_clint) (calls : irq_calls) : soc :=
  Soc c (soc_aplic e) (soc_queue e ++ calls) (soc_rest e).
Definition put_aplic (e : soc) (a : rv_aplic) (calls : list aplic_call) : soc :=
  fold_left apply_call calls (Soc (soc_clint e) a (soc_queue e) (soc_rest e)).

(** ** The devices on the bus *)

Definition rv_clint_ops : emu_dev_ops soc := DevOps
  (fun e off sz => let '(f, v) := clint_read (soc_clint e) off sz in (f, v, e))
  (fun e off sz val => let '(f, c, calls) := clint_write (soc_clint e) off sz val in (f, put_clint e c calls)).

Definition rv_aclint_mswi_ops : emu_dev_ops soc := DevOps
  (fun e off sz => let '(f, v) := mswi_read (soc_clint e) off sz in (f, v, e))
  (fun e off sz val => let '(f, c, calls) := mswi_write (soc_clint e) off sz val in (f, put_clint e c calls)).

Definition rv_aclint_mtimer_ops : emu_dev_ops soc := DevOps
  (fun e off sz => let '(f, v) := mtimer_read (soc_clint e) off sz in (f, v, e))
  (fun e off sz val => let '(f, c, calls) := mtimer_write (soc_clint e) off sz val in (f, put_clint e c calls)).

Definition rv_aplic_ops : emu_dev_ops soc := DevOps
  (fun e off sz => let '(f, v, a, calls) := aplic_read (soc_aplic e) off sz in (f, v, put_aplic e a calls))
  (fun e off sz val => let '(f, a, calls) := aplic_write (soc_aplic e) off sz val in (f, put_aplic e a calls)).

(** A device of the board, which knows nothing of these. *)
Definition board_ops (o : emu_dev_ops Rest) : emu_dev_ops soc := DevOps
  (fun e off sz => let '(f, v, r) := dev_read o (soc_rest e) off sz in (f, v, Soc (soc_clint e) (soc_aplic e) (soc_queue e) r))
  (fun e off sz val => let '(f, r) := dev_write o (soc_rest e) off sz val in (f, Soc (soc_clint e) (soc_aplic e) (soc_queue e) r)).

Definition RV_GUEST_APLIC_BASE : Z := 201326592.
Definition RV_GUEST_ACLINT_MSWI_BASE : Z := 33554432.
Definition RV_GUEST_ACLINT_MTIMER_BASE : Z := 33570816.
Definition RV_APLIC_SIZE : Z := 32768.
Definition RV_ACLINT_MSWI_SIZE : Z := 16384.
Definition RV_ACLINT_MTIMER_SIZE : Z := 32768.

Definition rv32_add_core_devices (g : Z) (b : @emu_bus soc) : bool * @emu_bus soc * Z :=
  let '(ok, b, g) := emu_bus_add_mmio g b RV_GUEST_ACLINT_MSWI_BASE RV_ACLINT_MSWI_SIZE rv_aclint_mswi_ops in
  if ok then emu_bus_add_mmio g b RV_GUEST_ACLINT_MTIMER_BASE RV_ACLINT_MTIMER_SIZE rv_aclint_mtimer_ops else (false, b, g).

(** ** The platform of a run *)

Definition mach : Type := @machine soc.

(** The hook behind ECALL is the platform's own. *)
Definition soc_platform (hook : option (Z -> list Z -> rv_hart -> mach -> bool * Z * rv_hart * mach)) : platform mach :=
  Platform hook (fun m => Some (ck_mtime (soc_clint (m_ext m))))
    (fun m => let e := m_ext m in
              (soc_queue e, Machine (m_bus m) (m_heap m) (Soc (soc_clint e) (soc_aplic e) [] (soc_rest e)))).

(** ** The frontend's operations *)

Definition on_world (f : soc -> soc) (m : mach) : mach := Machine (m_bus m) (m_heap m) (f (m_ext m)).

Definition rv32_init (bus : @emu_bus soc) (hp : heap) (rest : Rest) (coreid : Z) : rv_hart * mach :=
  let '(a, calls) := rv_aplic_init true in
  (rv_hart_init coreid, Machine bus hp (put_aplic (Soc (rv_clint_init true) a [] rest) a calls)).

Definition rv32_set_irq (source : Z) (level : bool) (e : soc) : soc :=
  if level then let '(a, calls) := rv_aplic_raise (soc_aplic e) source in put_aplic e a calls else e.

Definition rv32_set_unmask_hook (fn : bool) (e : soc) : soc := put_aplic e (rv_aplic_set_eoi (soc_aplic e) fn) [].

Definition rv32_advance_time (ticks : Z) (e : soc) : soc :=
  let '(c, calls) := rv_clint_advance (soc_clint e) ticks in put_clint e c calls.

Definition rv32_set_time (now : Z) (e : soc) : soc :=
  let '(c, calls) := rv_clint_set_time (soc_clint e) now in put_clint e c calls.

Definition set_smode (supervisor : bool) (e : soc) : soc := put_aplic e (rv_aplic_set_smode (soc_aplic e) supervisor) [].

Section Run.
Context `{Cfg : RvConfig} {SF : SoftFloat}.
Variable pt_read : soc -> Z -> Z -> Z * soc.
Variable pt_write : soc -> Z -> Z -> Z -> soc.
Variable pf : platform mach.

#[local] Instance SB : PhysBus soc mach := emu_phys_bus pt_read pt_write.

Definition rv32_reset (h : rv_hart) (reset_pc : Z) : rv_hart := rv_hart_reset h reset_pc.

Definition rv32_boot (h : rv_hart) (m : mach) (info : emu_boot_info) (supervisor : bool) : rv_hart * mach :=
  (rv_hart_boot h info, on_world (set_smode supervisor) m).

Definition rv32_run (h : rv_hart) (m : mach) (budget : Z) : emu_run_reason * Z * rv_hart * mach := interp_run pf h m budget.

Definition rv32_step (h : rv_hart) (m : mach) : emu_run_reason * rv_hart * mach := rv_step pf h m.

Definition rv32_halt (h : rv_hart) : rv_hart := h <| h_state := EMU_STATE_HALTED |>.

Definition rv32_reg_read (h : rv_hart) (r : Z) : Z := if r <? 32 then h_x h r else 0.
Definition rv32_reg_write (h : rv_hart) (r v : Z) : rv_hart :=
  if r <? 32 then h <| h_x := upd (upd (h_x h) r v) 0 0 |> else h.

(** What a platform calls outside a run, with the lines it drives. *)
Inductive host_op :=
| OpIrq (source : Z) (level : bool)
| OpUnmask (fn : bool)
| OpAdvance (ticks : Z)
| OpTime (now : Z).

Definition host_world_step (o : host_op) : soc -> soc :=
  match o with
  | OpIrq source level => rv32_set_irq source level
  | OpUnmask fn => rv32_set_unmask_hook fn
  | OpAdvance ticks => rv32_advance_time ticks
  | OpTime now => rv32_set_time now
  end.

Definition host_call (o : host_op) (h : rv_hart) (m : mach) : rv_hart * mach := deliver pf h (on_world (host_world_step o) m).

(** Power-on: init, reset, boot. *)
Definition power_on (bus : @emu_bus soc) (hp : heap) (rest : Rest) (coreid pc : Z) (info : emu_boot_info) (supervisor : bool)
    : rv_hart * mach :=
  let '(h, m) := rv32_init bus hp rest coreid in
  let '(h, m) := deliver pf h m in
  rv32_boot (rv32_reset h pc) m info supervisor.

End Run.
End Soc.
Arguments soc : clear implicits.
Arguments mach : clear implicits.
