(* ===== verification/RvLines.v ===== *)
(** * The interrupt lines follow the devices

    MTIP is set exactly while [mtime >= mtimecmp], MSIP while [msip] is, and
    MEIP while the APLIC has something to deliver: after every instruction
    and every call of the platform, however runs, register accesses, timer
    ticks and interrupts are interleaved. *)

From stdpp Require Import base list gmap.
From Stdlib Require Import ZArith Lia.
From S2P Require Import Prelude Bus BusProps RvHart RvBus RvMmu RvTrap RvCsr RvFpu RvInterp RvFrame RvTrapProps RvRun RvConfine RvClint RvAplic RvAplicProps RvTyped RvGuest RvContain RvSoc.

Open Scope Z_scope.
Open Scope u32_scope.

(** ** Calls and levels *)

(** The level of a line after some calls. *)
Definition line_after (b : Z -> bool) (calls : irq_calls) (c : Z) : bool :=
  fold_left (fun l '(c', v) => if c' =? c then v else l) calls (b c).

Lemma line_after_app b l l' c : line_after b (l ++ l') c = line_after (line_after b l) l' c.
Proof. unfold line_after. apply fold_left_app. Qed.

Lemma line_after_ext b b' l c : b c = b' c -> line_after b l c = line_after b' l c.
Proof. unfold line_after. intros ->. reflexivity. Qed.

(** A line the calls drive ends where they leave it, wherever it was; another
    stays. *)
Definition driven (calls : irq_calls) (c : Z) : bool := existsb (fun p => fst p =? c) calls.

Lemma line_after_driven b b' l c : driven l c = true -> line_after b l c = line_after b' l c.
Proof.
  unfold line_after. generalize (b c), (b' c). induction l as [|[c' v] l IH]; intros x y; cbn [driven existsb fst fold_left]; [discriminate|].
  destruct (c' =? c); [reflexivity|apply IH].
Qed.

Lemma line_after_other b l c : driven l c = false -> line_after b l c = b c.
Proof.
  unfold line_after. generalize (b c). induction l as [|[c' v] l IH]; intros x; cbn [driven existsb fst fold_left]; [reflexivity|].
  destruct (c' =? c); [discriminate|apply IH].
Qed.

(** The calls on the hart among an operation's. *)
Definition irqs (calls : list aplic_call) : irq_calls :=
  flat_map (fun c => match c with SetIrq cause level => [(cause, level)] | Eoi _ => [] end) calls.

Lemma irqs_app l l' : irqs (l ++ l') = irqs l ++ irqs l'.
Proof. apply flat_map_app. Qed.

Definition irq_levels (h : rv_hart) (c : Z) : bool := Z.testbit (h_mip h) c.

Lemma set_irq_level h cause level c : 0 <= cause < 32 -> 0 <= c ->
  irq_levels (rv_hart_set_irq h cause level) c = if cause =? c then level else irq_levels h c.
Proof.
  intros Hc H0. unfold irq_levels, rv_hart_set_irq. fold (bit cause).
  destruct level; cbn [h_mip set_field set_irq_dirty set_mip]; rewrite ?Z.lor_spec, ?Z.ldiff_spec, bit_testbit by lia;
    rewrite (Z.eqb_sym cause c); destruct (c =? cause); rewrite ?orb_true_r, ?orb_false_r, ?andb_false_r, ?andb_true_r; reflexivity.
Qed.

Lemma set_lines_level lines : forall h c, Forall (fun p => 0 <= fst p < 32) lines -> 0 <= c ->
  irq_levels (set_lines h lines) c = line_after (irq_levels h) lines c.
Proof.
  induction lines as [|[c' l] lines IH]; intros h c Hl Hc; [reflexivity|]. apply Forall_cons in Hl as [H1 Hl].
  cbn [set_lines fold_left]. unfold set_lines in IH. rewrite IH by assumption.
  unfold line_after. cbn [fold_left]. rewrite set_irq_level by assumption. reflexivity.
Qed.

(** ** The controller's registers are words *)

Record aplic_typed (a : rv_aplic) : Prop := {
  at_target : forall i, is_u32 (ap_target a i);
  at_pending : forall i, is_u32 (ap_pending a i);
  at_enabled : forall i, is_u32 (ap_enabled a i);
  at_idelivery : is_u32 (ap_idelivery a);
  at_iforce : is_u32 (ap_iforce a);
  at_ithreshold : is_u32 (ap_ithreshold a)
}.

Ltac set_aplic :=
  repeat match goal with
    | H : aplic_typed ?a |- aplic_typed ?a => exact H
    | |- aplic_typed (if ?b then _ else _) => destruct b
    | |- aplic_typed (set_field _ _ ?a) =>
        let H := fresh "H" in assert (H : aplic_typed a); [|destruct H; split; cbn; first [assumption|typed]]
    end.

Lemma u8_u32 x : is_u32 (u8 x).
Proof. unfold u8, is_u32. pose proof (Z.mod_pos_bound x (2 ^ 8)). lia. Qed.
Lemma bit_u32 b : is_u32 (bit b).
Proof. apply u32_range. Qed.
#[export] Hint Resolve u8_u32 bit_u32 : typed.

(** What every operation of the controller leaves: the same wiring, typed
    registers, and a line that was told if the answer changed. *)
Record aplic_moves (a a' : rv_aplic) (calls : list aplic_call) : Prop := {
  am_hart : ap_hart a' = ap_hart a;
  am_int : ap_target_int a' = ap_target_int a;
  am_typed : aplic_typed a -> aplic_typed a';
  am_line : ap_hart a = true ->
    (irqs calls = [] /\ aplic_deliver a' = aplic_deliver a) \/ irqs calls = [(ap_target_int a', aplic_deliver a')]
}.

Lemma moves_none a : aplic_moves a a [].
Proof. split; auto. Qed.

Lemma moves_update a a' calls : ap_hart a' = ap_hart a -> ap_target_int a' = ap_target_int a -> (aplic_typed a -> aplic_typed a') ->
  irqs calls = [] -> aplic_moves a a' (calls ++ aplic_update a').
Proof.
  intros Hh Hi Ht Hc. split; auto. intros Ha. right. rewrite irqs_app, Hc. unfold aplic_update. rewrite Hh, Ha. reflexivity.
Qed.

Lemma clear_pending_moves a w mask : let '(a', calls) := aplic_clear_pending a w mask in
  ap_hart a' = ap_hart a /\ ap_target_int a' = ap_target_int a /\ (aplic_typed a -> aplic_typed a') /\ irqs calls = [].
Proof.
  unfold aplic_clear_pending. cbv zeta. split; [reflexivity|]. split; [reflexivity|]. split; [intros H; set_aplic|].
  destruct (_ && _); [|reflexivity]. induction (List.filter _ bits32) as [|b l IH]; [reflexivity|exact IH].
Qed.

Lemma set_pending_moves w mask : forall l a, let a' := fold_left (set_pending_step w mask) l a in
  ap_hart a' = ap_hart a /\ ap_target_int a' = ap_target_int a /\ (aplic_typed a -> aplic_typed a').
Proof.
  induction l as [|b l IH]; intros a; cbn [fold_left]; [auto|]. specialize (IH (set_pending_step w mask a b)). cbv zeta in *.
  destruct IH as (I1 & I2 & I3). rewrite I1, I2. unfold set_pending_step in *. destruct (_ && _); [|auto].
  split; [reflexivity|]. split; [reflexivity|]. intros H. apply I3. set_aplic.
Qed.

Lemma topi_u32 a : is_u32 (aplic_topi a).
Proof. unfold aplic_topi. destruct (fold_left _ _ _). typed. Qed.

Lemma in_clrip_u32 a : is_u32 (in_clrip a).
Proof. apply fold_u32; [|typed]. intros r i Hr. cbv zeta. destruct (_ && _); typed. Qed.
#[export] Hint Resolve topi_u32 in_clrip_u32 : typed.

Lemma claim_moves a : let '(v, a', calls) := aplic_claim a in is_u32 v /\ aplic_moves a a' calls.
Proof.
  unfold aplic_claim. pose proof (topi_u32 a) as Hv. generalize dependent (aplic_topi a). intros t Hv. destruct (t =? 0).
  - split; [exact Hv|]. apply moves_update; try reflexivity. intros H. set_aplic.
  - pose proof (clear_pending_moves a (Z.shiftr t 16 / 32) (bit (Z.shiftr t 16 mod 32))) as K.
    destruct (aplic_clear_pending a _ _) as [a' calls]. destruct K as (K1 & K2 & K3 & K4). split; [exact Hv|]. apply moves_update; assumption.
Qed.

Lemma idc_read_moves a reg : aplic_typed a -> let '(v, a', calls) := idc_read a reg in is_u32 v /\ aplic_moves a a' calls.
Proof.
  intros []. unfold idc_read. destruct (_ =? _); [split; [typed|apply moves_none]|]. destruct (_ =? _); [split; [typed|apply moves_none]|].
  destruct (_ =? _); [split; [typed|apply moves_none]|]. destruct (_ =? _); [split; [typed|apply moves_none]|].
  destruct (_ =? _); [apply claim_moves|split; [typed|apply moves_none]].
Qed.

Lemma reg_word (b : bool) x : is_u32 x -> is_u32 (if b then x else 0).
Proof. destruct b; typed. Qed.
#[export] Hint Resolve reg_word : typed.

Lemma aplic_read_moves a off sz : aplic_typed a -> let '(f, v, a', calls) := aplic_read a off sz in word_opt v /\ aplic_moves a a' calls.
Proof.
  intros H. pose proof (idc_read_moves a (off - RV_APLIC_IDC) H) as K. destruct H. unfold aplic_read.
  destruct (negb (sz =? 4) || negb (off &! 3 =? 0)); [split; [typed|apply moves_none]|]. cbv zeta.
  destruct (off =? RV_APLIC_DOMAINCFG); [split; [apply word_some; typed|apply moves_none]|].
  destruct (in_range off RV_APLIC_SOURCECFG 1023); [split; [apply word_some; typed|apply moves_none]|].
  destruct (in_range off RV_APLIC_TARGET 1023); [split; [apply word_some; typed|apply moves_none]|].
  destruct (in_range off RV_APLIC_SETIP 32); [split; [apply word_some; typed|apply moves_none]|].
  destruct (in_range off RV_APLIC_SETIE 32); [split; [apply word_some; typed|apply moves_none]|].
  destruct (off =? RV_APLIC_IN_CLRIP); [split; [apply word_some; typed|apply moves_none]|].
  destruct (in_range off RV_APLIC_IDC 8); [|split; [apply word_some; typed|apply moves_none]].
  destruct (idc_read _ _) as [[v a'] calls]. destruct K. split; [apply word_some; assumption|assumption].
Qed.

Lemma set_pending_kept a w mask : ap_hart (aplic_set_pending a w mask) = ap_hart a /\
  ap_target_int (aplic_set_pending a w mask) = ap_target_int a /\ (aplic_typed a -> aplic_typed (aplic_set_pending a w mask)).
Proof. apply set_pending_moves. Qed.

(** What the registers of a write leave before the line is driven. *)
Definition aplic_kept (a : rv_aplic) (r : rv_aplic * list aplic_call) : Prop :=
  ap_hart (fst r) = ap_hart a /\ ap_target_int (fst r) = ap_target_int a /\ (aplic_typed a -> aplic_typed (fst r)) /\ irqs (snd r) = [].

Lemma kept_done a r : aplic_kept a r -> let '(a', calls) := r in aplic_moves a a' (calls ++ aplic_update a').
Proof. destruct r as [a' calls]. intros (K1 & K2 & K3 & K4). apply moves_update; assumption. Qed.

Lemma kept_same a : aplic_kept a (a, []).
Proof. unfold aplic_kept. auto. Qed.

Lemma kept_pending a w mask : aplic_kept a (aplic_set_pending a w mask, []).
Proof. destruct (set_pending_kept a w mask) as (K1 & K2 & K3). unfold aplic_kept. auto. Qed.

Lemma kept_clear a w mask : aplic_kept a (aplic_clear_pending a w mask).
Proof.
  pose proof (clear_pending_moves a w mask) as K. destruct (aplic_clear_pending a w mask) as [a' calls]. exact K.
Qed.

Lemma kept_if (b : bool) a r r' : aplic_kept a r -> aplic_kept a r' -> aplic_kept a (if b then r else r').
Proof. destruct b; auto. Qed.

Lemma kept_if_fst (b : bool) a x y : aplic_kept a (x, []) -> aplic_kept a (y, []) -> aplic_kept a (if b then x else y, []).
Proof. destruct b; auto. Qed.

Ltac kept_set := split; [reflexivity|split; [reflexivity|split; [|reflexivity]]]; cbn [fst]; intros; set_aplic.

Lemma kept_sourcecfg a i val : aplic_kept a (write_sourcecfg a i val, []).
Proof. unfold write_sourcecfg. cbv zeta. destruct (_ =? _); kept_set. Qed.

Lemma kept_idc a reg val : is_u32 val -> aplic_kept a (idc_write a reg val, []).
Proof.
  intros Hv. unfold idc_write. repeat (apply kept_if_fst); try apply kept_same; kept_set.
Qed.

Lemma kept_num a off val r : num_write a off val = Some r -> aplic_kept a r.
Proof.
  unfold num_write. cbv zeta.
  destruct (_ =? _); [intros [= <-]; apply kept_if_fst; [apply kept_pending|apply kept_same]|].
  destruct (_ =? _); [intros [= <-]; apply kept_if; [apply kept_clear|apply kept_same]|].
  destruct (_ =? _); [intros [= <-]; apply kept_if_fst; [kept_set|apply kept_same]|].
  destruct (_ =? _); [intros [= <-]; apply kept_if_fst; [kept_set|apply kept_same]|discriminate].
Qed.

Lemma aplic_write_moves a off sz val : is_u32 val ->
  let '(f, a', calls) := aplic_write a off sz val in aplic_moves a a' calls.
Proof.
  intros Hv. unfold aplic_write. destruct (negb (sz =? 4) || negb (off &! 3 =? 0)); [apply moves_none|]. cbv zeta.
  assert (Done : forall r, aplic_kept a r ->
    let '(f, a', calls) := (let '(a', calls) := r in (EMU_FAULT_NONE, a', calls ++ aplic_update a')) in aplic_moves a a' calls).
  { intros [a' calls] K. exact (kept_done a (a', calls) K). }
  destruct (off =? RV_APLIC_DOMAINCFG); [apply (Done (_, _)); kept_set|].
  destruct (in_range off RV_APLIC_SOURCECFG 1023).
  { destruct (_ <? _); [apply (Done (_, _)), kept_sourcecfg|apply moves_none]. }
  destruct (in_range off RV_APLIC_TARGET 1023).
  { destruct (_ <? _); [apply (Done (_, _)); kept_set|apply moves_none]. }
  destruct (in_range off RV_APLIC_SETIP 32); [apply (Done (_, _)), kept_if_fst; [apply kept_pending|apply kept_same]|].
  destruct (in_range off RV_APLIC_IN_CLRIP 32); [apply Done, kept_if; [apply kept_clear|apply kept_same]|].
  destruct (in_range off RV_APLIC_SETIE 32); [apply (Done (_, _)), kept_if_fst; [kept_set|apply kept_same]|].
  destruct (in_range off RV_APLIC_CLRIE 32); [apply (Done (_, _)), kept_if_fst; [kept_set|apply kept_same]|].
  destruct (num_write a off val) as [r|] eqn:En; [apply Done; eapply kept_num; exact En|].
  apply (Done (_, _)), kept_if_fst; [apply kept_idc, Hv|apply kept_same].
Qed.

Lemma raise_moves a s a' calls : rv_aplic_raise a s = (a', calls) -> aplic_moves a a' calls.
Proof.
  unfold rv_aplic_raise. destruct (_ || _); [intros [= <- <-]; apply moves_none|]. cbv zeta.
  pose proof (set_pending_kept a (s / 32) (bit (s mod 32))) as K. revert K. generalize (aplic_set_pending a (s / 32) (bit (s mod 32))).
  intros a1 (K1 & K2 & K3) [= <- <-]. pose proof (moves_update a a1 [] K1 K2 K3 eq_refl) as K. exact K.
Qed.

(** The wiring has no part in the selection. *)
Lemma deliver_set_eoi a fn : aplic_deliver (rv_aplic_set_eoi a fn) = aplic_deliver a.
Proof. unfold aplic_deliver, aplic_topi. change (topi_step (rv_aplic_set_eoi a fn)) with (topi_step a). reflexivity. Qed.

(** ** The devices and the calls they have made *)

Section Synced.
Context {Rest : Type}.
Variable on_eoi : Z -> Rest -> Rest.

(** With the lines at [b] before the calls that are waiting, each line will be
    where the device that drives it wants it.  In supervisor mode the APLIC
    drives SEIP, which software writes too. *)
Record synced (b : Z -> bool) (e : soc Rest) : Prop := {
  sy_clint : ck_hart (soc_clint e) = true;
  sy_aplic : ap_hart (soc_aplic e) = true;
  sy_typed : aplic_typed (soc_aplic e);
  sy_int : ap_target_int (soc_aplic e) = RV_INT_M_EXT \/ ap_target_int (soc_aplic e) = RV_INT_S_EXT;
  sy_queue : Forall (fun p => 0 <= fst p < 32) (soc_queue e);
  sy_timer : line_after b (soc_queue e) RV_INT_M_TIMER = (ck_mtimecmp (soc_clint e) <=? ck_mtime (soc_clint e));
  sy_soft : line_after b (soc_queue e) RV_INT_M_SOFT = negb (ck_msip (soc_clint e) =? 0);
  sy_ext : ap_target_int (soc_aplic e) = RV_INT_M_EXT -> line_after b (soc_queue e) RV_INT_M_EXT = aplic_deliver (soc_aplic e)
}.

Lemma synced_board b e r : synced b e -> synced b (Soc (soc_clint e) (soc_aplic e) (soc_queue e) r).
Proof. intros []. split; assumption. Qed.

Lemma put_aplic_fields calls : forall e a, let e' := put_aplic on_eoi e a calls in
  soc_clint e' = soc_clint e /\ soc_aplic e' = a /\ soc_queue e' = soc_queue e ++ irqs calls.
Proof.
  unfold put_aplic. cbv zeta. assert (G : forall e, let e' := fold_left (apply_call on_eoi) calls e in
    soc_clint e' = soc_clint e /\ soc_aplic e' = soc_aplic e /\ soc_queue e' = soc_queue e ++ irqs calls).
  { induction calls as [|c calls IH]; intros e; cbn [fold_left irqs flat_map]; [rewrite app_nil_r; auto|].
    destruct (IH (apply_call on_eoi e c)) as (I1 & I2 & I3). fold (irqs calls). rewrite I1, I2, I3.
    destruct c; cbn; rewrite <- ?app_assoc; auto. }
  intros e a. destruct (G (Soc (soc_clint e) a (soc_queue e) (soc_rest e))) as (G1 & G2 & G3). auto.
Qed.

Lemma put_aplic_synced b e a calls : aplic_moves (soc_aplic e) a calls -> synced b e -> synced b (put_aplic on_eoi e a calls).
Proof.
  intros [M1 M2 M3 M4] [S1 S2 S3 S4 S5 S6 S7 S8]. destruct (put_aplic_fields calls e a) as (F1 & F2 & F3). specialize (M4 S2).
  assert (Keep : forall c, c <> ap_target_int a -> line_after b (soc_queue e ++ irqs calls) c = line_after b (soc_queue e) c).
  { intros c Hc. rewrite line_after_app. destruct M4 as [[-> _]| ->]; [reflexivity|]. unfold line_after at 1. cbn [fold_left].
    destruct (Z.eqb_spec (ap_target_int a) c); [congruence|reflexivity]. }
  assert (Int : ap_target_int a = RV_INT_M_EXT \/ ap_target_int a = RV_INT_S_EXT) by (rewrite M2; exact S4).
  split; rewrite ?F1, ?F2, ?F3; try congruence; auto.
  - apply Forall_app. split; [exact S5|]. destruct M4 as [[-> _]| ->]; [constructor|]. constructor; [|constructor]. cbn [fst].
    destruct Int as [-> | ->]; unfold RV_INT_M_EXT, RV_INT_S_EXT; lia.
  - rewrite Keep; [exact S6|]. destruct Int as [-> | ->]; discriminate.
  - rewrite Keep; [exact S7|]. destruct Int as [-> | ->]; discriminate.
  - intros Ht. rewrite line_after_app. destruct M4 as [[-> ->]| ->]; [apply S8; congruence|]. unfold line_after at 1. cbn [fold_left].
    rewrite Ht, Z.eqb_refl. reflexivity.
Qed.

(** The CLINT after an operation. *)
Record clint_moves (c c' : rv_clint) (calls : irq_calls) : Prop := {
  cm_hart : ck_hart c' = ck_hart c;
  cm_calls : ck_hart c = true ->
    (calls = [(RV_INT_M_TIMER, ck_mtimecmp c' <=? ck_mtime c')] /\ ck_msip c' = ck_msip c) \/
    (calls = [(RV_INT_M_SOFT, negb (ck_msip c' =? 0))] /\ ck_mtimecmp c' = ck_mtimecmp c /\ ck_mtime c' = ck_mtime c) \/
    (calls = [] /\ c' = c)
}.

Lemma timed_moves c c' : ck_hart c' = ck_hart c -> ck_msip c' = ck_msip c -> clint_moves c c' (update_mtip c').
Proof. intros Hh Hs. split; [exact Hh|]. intros Hc. left. unfold update_mtip. rewrite Hh, Hc. auto. Qed.

#[local] Ltac each_register E :=
  cbv zeta in E; repeat match type of E with (if ?b then _ else _) = _ => destruct b end; injection E as <- <- <-.

Lemma clint_write_moves c off sz val f c' calls : clint_write c off sz val = (f, c', calls) -> clint_moves c c' calls.
Proof.
  assert (Same : clint_moves c c []) by (split; auto). unfold clint_write. intros E. each_register E;
    first [exact Same|apply timed_moves; reflexivity|split; [reflexivity|]; intros Hh; cbn [ck_hart]; cbn; rewrite Hh; auto].
Qed.

Lemma put_clint_synced b e c calls : clint_moves (soc_clint e) c calls -> synced b e -> synced b (put_clint e c calls).
Proof.
  intros [M1 M2] [S1 S2 S3 S4 S5 S6 S7 S8]. specialize (M2 S1).
  split; cbn [soc_clint soc_aplic soc_queue soc_rest put_clint]; try congruence; auto.
  - apply Forall_app. split; [exact S5|]. destruct M2 as [[-> _]|[[-> _]|[-> _]]]; repeat constructor; discriminate.
  - rewrite line_after_app. destruct M2 as [[-> _]|[[-> [-> ->]]|[-> ->]]]; [reflexivity|exact S6|exact S6].
  - rewrite line_after_app. destruct M2 as [[-> E]|[[-> _]|[-> ->]]]; [|reflexivity|exact S7]. rewrite E. exact S7.
  - intros Ht. rewrite line_after_app. destruct M2 as [[-> E]|[[-> _]|[-> ->]]]; apply (S8 Ht).
Qed.
End Synced.

(** ** The lines no instruction drives *)

Definition wired : list Z := [RV_INT_M_SOFT; RV_INT_M_TIMER; RV_INT_M_EXT].

Definition same_wires (h h' : rv_hart) : Prop := forall n, In n wired -> irq_levels h' n = irq_levels h n.

Lemma wires_trans a b c : same_wires a b -> same_wires b c -> same_wires a c.
Proof. intros A B n Hn. rewrite B, A by assumption. reflexivity. Qed.

Lemma wires_mip h h' : h_mip h' = h_mip h -> same_wires h h'.
Proof. intros E n _. unfold irq_levels. rewrite E. reflexivity. Qed.

(** A masked write whose mask has none of them. *)
Lemma wires_masked old val mask n : In n wired -> (forall n, In n wired -> Z.testbit mask n = false) ->
  Z.testbit (Z.ldiff old mask |! (val &! mask)) n = Z.testbit old n.
Proof. intros Hn Hm. apply (sstatus_bits old val mask wired); assumption. Qed.

Ltac in_wired H := cbn in H; repeat destruct H as [<-|H]; try contradiction.

Section Wires.
Context `{Cfg : RvConfig} `{SF : SoftFloat} {Ext M : Type} `{PB : PhysBus Ext M}.

Lemma csr_write_wires h csr val e h' : rv_csr_write h csr val = (e, h') -> same_wires h h'.
Proof.
  unfold rv_csr_write, csr_write_range, csr_done, csr_refuse. intros E.
  csr_branch E; try (apply wires_mip; branch_field); try (apply wires_mip; unfold write_pmpaddr; destruct (pmpaddr_locked _ _); reflexivity);
    intros n Hn; unfold irq_levels; cbn [h_mip set_field set_mip set_irq_dirty].
  - rewrite <- Z.land_assoc. apply wires_masked; [exact Hn|]. intros k Hk. rewrite Z.land_spec.
    in_wired Hk; rewrite andb_comm; reflexivity.
  - apply wires_masked; [exact Hn|]. intros k Hk. in_wired Hk; reflexivity.
Qed.

Lemma trap_wires h (m : M) cause tval h' m' : rv_hart_trap h m cause tval = (h', m') -> same_wires h h'.
Proof.
  intros E. destruct (trap_shape _ _ _ _ _ _ E) as (h1 & t & n & F & _ & _ & h2 & [_ T] & ->).
  apply (wires_trans h h1); [apply wires_mip, (k_mip _ _ (frame_kept _ _ F))|].
  assert (C : h_mip (trap_core h1 cause t) = h_mip h1) by (unfold trap_core; destruct (trap_to_s h1 cause); reflexivity).
  rewrite C in T. intros k Hk. unfold irq_levels. change (h_mip (h2 <| h_trap_count := n |>)) with (h_mip h2).
  destruct T as [[-> _]|[_ ->]]; [reflexivity|]. rewrite Z.lor_spec. in_wired Hk; apply orb_false_r.
Qed.

Lemma step_wires h pc h' pc' : hart_step (M := M) h pc h' pc' -> same_wires h h'.
Proof.
  assert (Fr : forall h1 h2, frame h1 h2 -> same_wires h1 h2) by (intros h1 h2 F; apply wires_mip, (k_mip _ _ (frame_kept _ _ F))).
  assert (Ct : forall h1 h2, counts h1 h2 -> same_wires h1 h2) by (intros h1 h2 (c & i & ->); apply wires_mip; reflexivity).
  assert (L : same_wires h (looked h)) by (apply wires_mip; reflexivity).
  intros [irq h1 m1 h2 m2 _ _ F _ T K _|cause tval h1 m1 h2 m2 _ F _ T K _|h1 h2 _ F E K];
    apply (wires_trans h (looked h)); try exact L; (eapply wires_trans; [apply Fr, F|]); (eapply wires_trans; [|apply Ct, K]).
  - eapply trap_wires, T.
  - eapply trap_wires, T.
  - destruct E as [G|csr val h3 W G|_ -> _|_ -> _]; [apply Fr, G| |apply wires_mip; reflexivity|apply wires_mip; reflexivity].
    eapply wires_trans; [eapply csr_write_wires, W|apply Fr, G].
Qed.
End Wires.

(** ** Whole sessions *)

Section Sessions.
Context `{Cfg : RvConfig} {SF : SoftFloat} {ST : SoftFloatTyped SF} {Rest : Type}.
Variable on_eoi : Z -> Rest -> Rest.
Variable board_read : Rest -> Z -> Z -> Z * Rest.
Variable board_write : Rest -> Z -> Z -> Z -> Rest.
#[local] Abbreviation world := (soc Rest).
Variable hook : option (Z -> list Z -> rv_hart -> mach Rest -> bool * Z * rv_hart * mach Rest).

(** Pass-through windows reach the board's peripherals. *)
Definition pt_read (e : world) (a sz : Z) : Z * world :=
  let '(v, r) := board_read (soc_rest e) a sz in (v, Soc (soc_clint e) (soc_aplic e) (soc_queue e) r).
Definition pt_write (e : world) (a sz v : Z) : world :=
  Soc (soc_clint e) (soc_aplic e) (soc_queue e) (board_write (soc_rest e) a sz v).

#[local] Abbreviation pf := (soc_platform hook).
#[local] Instance LB : PhysBus world (mach Rest) := emu_phys_bus pt_read pt_write.

(** The devices of this file and, beside them, the board's. *)
Definition soc_device (o : emu_dev_ops world) : Prop :=
  o = rv_clint_ops \/ o = rv_aclint_mswi_ops \/ o = rv_aclint_mtimer_ops \/ o = rv_aplic_ops on_eoi \/
  exists d, o = board_ops d /\ forall r off sz, word_opt (snd (fst (dev_read d r off sz))).

(** A board as it is wired. *)
Record wired_up (bus : @emu_bus world) (hp : heap) : Prop := {
  wu_wf : bus_wf bus;
  wu_le : big_endian bus = false;
  wu_devices : forall r o, In r (regions bus) -> ops r = Some o -> soc_device o;
  wu_pass : forall r a sz, is_u32 (fst (board_read r a sz));
  wu_hook : forall e, hook_ok (Machine bus hp e) (fun _ => True) pf;
  wu_hook_devices : forall f nr args h m used ret h' m', hook = Some f -> f nr args h m = (used, ret, h', m') ->
    soc_clint (m_ext m') = soc_clint (m_ext m) /\ soc_aplic (m_ext m') = soc_aplic (m_ext m) /\ soc_queue (m_ext m') = soc_queue (m_ext m)
}.

Lemma device_read b o e off sz f v e' : soc_device o -> synced b e -> dev_read o e off sz = (f, v, e') -> synced b e' /\ word_opt v.
Proof.
  assert (Ck : forall off, synced b e -> (let '(f, v) := clint_read (soc_clint e) off sz in (f, v, e)) = (f, v, e') -> synced b e' /\ word_opt v).
  { intros o1 S E. unfold clint_read in E. destruct (negb _); injection E as <- <- <-; (split; [exact S|]); [typed|].
    apply word_some. branches; typed. }
  intros [-> |[-> |[-> |[-> |(d & -> & Hd)]]]] S; cbn [dev_read rv_clint_ops rv_aclint_mswi_ops rv_aclint_mtimer_ops rv_aplic_ops board_ops].
  - apply Ck, S.
  - apply Ck, S.
  - apply Ck, S.
  - pose proof (aplic_read_moves (soc_aplic e) off sz (sy_typed _ _ S)) as K. destruct (aplic_read _ _ _) as [[[f1 v1] a1] calls].
    intros [= <- <- <-]. destruct K as [K1 K2]. split; [apply put_aplic_synced; assumption|exact K1].
  - pose proof (Hd (soc_rest e) off sz) as K. destruct (dev_read d _ _ _) as [[f1 v1] r1]. intros [= <- <- <-].
    split; [apply synced_board, S|exact K].
Qed.

Lemma device_write b o e off sz w f e' : soc_device o -> synced b e -> is_u32 w -> dev_write o e off sz w = (f, e') -> synced b e'.
Proof.
  assert (Ck : forall off, synced b e ->
    (let '(f, c, calls) := clint_write (soc_clint e) off sz w in (f, put_clint e c calls)) = (f, e') -> synced b e').
  { intros o1 S. destruct (clint_write _ _ _ _) as [[f1 c1] calls] eqn:E. intros [= <- <-].
    apply put_clint_synced; [eapply clint_write_moves, E|exact S]. }
  intros [-> |[-> |[-> |[-> |(d & -> & Hd)]]]] S Hw; cbn [dev_write rv_clint_ops rv_aclint_mswi_ops rv_aclint_mtimer_ops rv_aplic_ops board_ops].
  - apply Ck, S.
  - apply Ck, S.
  - apply Ck, S.
  - pose proof (aplic_write_moves (soc_aplic e) off sz w Hw) as K. destruct (aplic_write _ _ _ _) as [[f1 a1] calls].
    intros [= <- <-]. apply put_aplic_synced; assumption.
  - destruct (dev_write d _ _ _ _) as [f1 r1]. intros [= <- <-]. apply synced_board, S.
Qed.

Variables (bus : @emu_bus world) (hp : heap).
Hypothesis U : wired_up bus hp.

Section Settled.
Variable e0 : world.
#[local] Abbreviation m0 := (Machine bus hp e0).

Lemma devices_synced b : devices_ok pt_read pt_write m0 (synced b).
Proof.
  split.
  - intros r o e off sz f v e' Hin Eo S E. eapply device_read; [eapply (wu_devices _ _ U); eassumption|exact S|exact E].
  - intros r o e off sz w f e' Hin Eo S Hw E. eapply device_write; [eapply (wu_devices _ _ U); eassumption|exact S|exact Hw|exact E].
  - intros e a sz v e' S E. unfold pt_read in E. pose proof (wu_pass _ _ U (soc_rest e) a sz) as K.
    destruct (board_read _ _ _) as [v1 r1]. injection E as <- <-. split; [apply synced_board, S|exact K].
  - intros e a sz w S _. apply synced_board, S.
Qed.

Lemma hook_synced b : hook_ok m0 (synced b) pf.
Proof.
  pose proof (wu_hook _ _ U e0) as [H1 H2 H3]. split; [exact H1|exact H2|]. intros f nr args h m used ret h' m' Eh Er C S.
  destruct (H3 _ _ _ _ _ _ _ _ _ Eh Er C I) as [C' _]. split; [exact C'|].
  destruct (wu_hook_devices _ _ U _ _ _ _ _ _ _ _ _ Eh Er) as (E1 & E2 & E3). destruct S. split; rewrite ?E1, ?E2, ?E3; assumption.
Qed.

(** The levels [b] the devices last drove are the hart's, but for lines that a
    reset may have taken low, [low]. *)
Definition linked (low b : Z -> bool) (h : rv_hart) : Prop :=
  forall n, In n wired -> irq_levels h n = b n \/ low n = true /\ irq_levels h n = false.

(** Lines, devices and registers between two instructions. *)
Definition settled (low : Z -> bool) (h : rv_hart) (m : mach Rest) : Prop :=
  soc_queue (m_ext m) = [] /\
  exists b, guest_inv (in_world m0 (synced b)) (writable (regions bus)) h m /\ linked low b h.

Lemma guest_inv_world (Q Q' : mach Rest -> Prop) G h m m' : guest_inv Q G h m -> Q' m' -> guest_inv Q' G h m'.
Proof. intros [C []] Hq. split; [exact C|split; assumption]. Qed.

(** The calls waiting are carried out; those lines are no longer low. *)
Lemma deliver_settled low b h m h' m' : deliver pf h m = (h', m') -> linked low b h ->
  guest_inv (in_world m0 (synced b)) (writable (regions bus)) h m ->
  settled (fun n => low n && negb (driven (soc_queue (m_ext m)) n)) h' m'.
Proof.
  unfold deliver. cbn [pf_lines soc_platform]. intros [= <- <-] Hb I. destruct (proj2 I) as [_ _ _ _ _ _ [C S]].
  set (q := soc_queue (m_ext m)) in *. split; [reflexivity|]. exists (line_after b q).
  assert (I1 : forall Q h, guest_inv Q (writable (regions bus)) h m -> guest_inv Q (writable (regions bus)) (set_lines h q) m).
  { clear. intros Q. unfold set_lines. induction q as [|[c l] q IH]; intros h I; [exact I|]. cbn [fold_left]. apply IH, set_irq_J, I. }
  destruct S as [S1 S2 S3 S4 S5 S6 S7 S8]. split.
  - apply (guest_inv_world (in_world m0 (synced b)) _ _ _ m); [apply I1, I|]. split; [destruct C; split; assumption|].
    split; cbn [m_ext soc_clint soc_aplic soc_queue]; try assumption; constructor.
  - intros n Hn. rewrite (set_lines_level q h n S5) by (in_wired Hn; discriminate). destruct (driven q n) eqn:Ed.
    + left. apply line_after_driven, Ed.
    + rewrite !line_after_other, andb_true_r by exact Ed. apply Hb, Hn.
Qed.

Lemma settled_more (low low' : Z -> bool) h m : (forall n, low n = true -> low' n = true) -> settled low h m -> settled low' h m.
Proof. intros Hl [Q (b & I & K)]. split; [exact Q|]. exists b. split; [exact I|]. intros n Hn. destruct (K n Hn) as [E|[E1 E2]]; auto. Qed.

Lemma run_loop_settled low : forall fuel h m pc done r h' m' pc' done', run_loop pf fuel h m pc done = (r, h', m', pc', done') ->
  is_u32 pc -> settled low h m -> is_u32 pc' /\ settled low h' m'.
Proof.
  induction fuel as [|fuel IH]; intros h m pc done r h' m' pc' done' E Hp I; cbn [run_loop] in E.
  { injection E as <- <- <- <- <-. auto. }
  destruct I as [Q (b & I & Lk)].
  pose proof (iteration_J _ _ pf (emu_world pt_read pt_write m0 _ pf (devices_synced b) (hook_synced _)) h m pc Hp I) as K.
  destruct (iteration pf h m pc) as [[[r1 h1] m1]|[[h1 m1] pc1]] eqn:Ei.
  - injection E as <- <- <- <- <-. split; [exact Hp|]. unfold iteration in Ei.
    destruct (negb _); [|destruct (h_irq_dirty _); [destruct (negb _)|]; discriminate]. injection Ei as <- <- <-.
    split; [exact Q|]. exists b. split; [exact K|exact Lk].
  - destruct K as [Hp1 I1]. destruct (deliver pf h1 m1) as [h2 m2] eqn:Ed. eapply IH; [exact E|exact Hp1|].
    apply (settled_more (fun n => low n && negb (driven (soc_queue (m_ext m1)) n))); [intros n Hn; apply andb_prop in Hn as [Hn _]; exact Hn|].
    eapply deliver_settled; [exact Ed| |exact I1]. intros n Hn.
    rewrite (step_wires _ _ _ _ (iteration_step pf _ _ _ _ _ _ (hk_frames _ _ _ (wu_hook _ _ U e0)) Ei) n Hn). apply Lk, Hn.
Qed.

(** Only registers of the hart other than [mip] changed. *)
Lemma settled_regs low h h' m : h_mip h' = h_mip h -> (ctl h -> dat h -> ctl h' /\ dat h') -> h_dtlb h' = h_dtlb h -> settled low h m -> settled low h' m.
Proof.
  intros Em CD Et [Q (b & [C J] & Lk)]. destruct (CD C (J_dat _ _ _ _ J)) as [C' D']. split; [exact Q|]. exists b. split.
  - split; [exact C'|]. eapply J_regs; eassumption.
  - intros n Hn. unfold irq_levels. rewrite Em. apply Lk, Hn.
Qed.

Lemma run_settled low h m budget r n h' m' : rv32_run pt_read pt_write pf h m budget = (r, n, h', m') -> settled low h m -> settled low h' m'.
Proof.
  unfold rv32_run, interp_run. intros E S. destruct (_ && _); [injection E as <- <- <- <-; exact S|]. cbv zeta in E.
  set (h1 := if h_state h =? EMU_STATE_WFI then _ else h) in E.
  assert (S1 : settled low h1 m).
  { unfold h1. destruct (_ =? _); [|exact S]. apply (settled_regs low h); [reflexivity|intros C D; split; [set_ctl|set_dat]|reflexivity|exact S]. }
  clearbody h1. destruct (run_loop _ _ _ _ _ _) as [[[[r1 h2] m2] pc2] d2] eqn:El.
  assert (Up : is_u32 (h_pc h1)) by (destruct S1 as [_ (b & [_ J] & _)]; apply (j_pc _ _ _ _ J)).
  destruct (run_loop_settled low _ _ _ _ _ _ _ _ _ _ El Up S1) as [Hp S2].
  injection E as <- <- <- <-. apply (settled_regs low h2); [reflexivity|intros C D; split; [set_ctl|set_dat]|reflexivity|exact S2].
Qed.

Lemma host_step_synced b o e : synced b e -> synced b (host_world_step on_eoi o e).
Proof.
  intros S. destruct o as [source level|fn|ticks|now]; cbn [host_world_step].
  - unfold rv32_set_irq. destruct level; [|exact S]. destruct (rv_aplic_raise _ _) as [a calls] eqn:E.
    apply put_aplic_synced; [eapply raise_moves, E|exact S].
  - unfold rv32_set_unmask_hook. apply put_aplic_synced; [|exact S]. split; [reflexivity|reflexivity|intros H; unfold rv_aplic_set_eoi; set_aplic|]. intros _. left. split; [reflexivity|apply deliver_set_eoi].
  - unfold rv32_advance_time, rv_clint_advance. apply put_clint_synced; [apply timed_moves; reflexivity|exact S].
  - unfold rv32_set_time, rv_clint_set_time. apply put_clint_synced; [apply timed_moves; reflexivity|exact S].
Qed.

(** Setting the time drives the timer's line. *)
Definition sets_time (o : host_op) : bool := match o with OpAdvance _ | OpTime _ => true | _ => false end.

Lemma time_drives b o e : sets_time o = true -> synced b e -> driven (soc_queue (host_world_step on_eoi o e)) RV_INT_M_TIMER = true.
Proof.
  intros Ho S. unfold driven. destruct o; try discriminate Ho; cbn [host_world_step]; unfold rv32_advance_time, rv32_set_time, rv_clint_advance, rv_clint_set_time, update_mtip.
  all: change (ck_hart (_ <| ck_mtime := _ |>)) with (ck_hart (soc_clint e)); rewrite (sy_clint _ _ S);
    cbn [put_clint soc_queue]; rewrite existsb_app; apply orb_true_iff; right; reflexivity.
Qed.

Lemma host_call_settled low o h m h' m' : host_call on_eoi pf o h m = (h', m') -> settled low h m ->
  settled (fun n => low n && negb (sets_time o && (n =? RV_INT_M_TIMER))) h' m'.
Proof.
  unfold host_call. intros E [_ (b & I & Lk)]. pose proof (proj2 I) as [_ _ _ _ _ _ [C S]]. eapply settled_more; [|eapply deliver_settled; [exact E|exact Lk|]].
  - cbv beta. intros n Hn. apply andb_prop in Hn as [-> Hn]. cbn [andb]. apply negb_true_iff in Hn. apply negb_true_iff.
    destruct (sets_time o) eqn:Et; [|reflexivity]. cbn [andb]. destruct (Z.eqb_spec n RV_INT_M_TIMER) as [->|]; [|reflexivity].
    cbn [m_ext on_world] in Hn. rewrite (time_drives b o _ Et S) in Hn. discriminate.
  - eapply guest_inv_world; [exact I|]. split; [destruct C; split; assumption|]. apply host_step_synced, S.
Qed.

(** A reset takes every line low and asks no device. *)
Lemma reset_settled low h m pc : is_u32 pc -> settled low h m -> settled (fun _ => true) (rv32_reset h pc) m.
Proof.
  intros Hp [Q (b & [C J] & Lk)]. split; [exact Q|]. exists b. split.
  - unfold rv32_reset. apply reset_J; [apply (ct_hartid _ C)|exact Hp|apply (j_split _ _ _ _ J)|apply (j_q _ _ _ _ J)].
  - intros n Hn. right. split; [reflexivity|]. apply Z.bits_0.
Qed.

(** The controller at power-on, told which mode the system runs in. *)
Definition aplic_on (supervisor : bool) : rv_aplic := rv_aplic_set_smode (fst (rv_aplic_init true)) supervisor.

Lemma aplic_on_typed supervisor : aplic_typed (aplic_on supervisor).
Proof. split; intros; cbn; typed. Qed.

Lemma on_synced supervisor (rest : Rest) : synced (fun _ => false) (Soc (rv_clint_init true) (aplic_on supervisor) [] rest).
Proof.
  split; cbn [soc_clint soc_aplic soc_queue]; try reflexivity; [apply aplic_on_typed|destruct supervisor; [right|left]; reflexivity|constructor].
Qed.

Lemma power_on_shape rest coreid pc info supervisor : exists h, h_hartid h = coreid /\ h_split_at h = 0 /\
  power_on on_eoi pf bus hp rest coreid pc info supervisor =
  (rv_hart_boot (rv_hart_reset h pc) info, Machine bus hp (Soc (rv_clint_init true) (aplic_on supervisor) [] rest)).
Proof.
  exists (set_lines (rv_hart_init coreid) [(RV_INT_M_EXT, false)]). split; [reflexivity|]. split; [reflexivity|]. reflexivity.
Qed.

Lemma power_on_settled rest coreid pc info supervisor h m : is_u32 coreid -> is_u32 pc -> is_u32 (ram_base info) ->
  is_u32 (ram_size info) -> is_u32 (dtb info) -> power_on on_eoi pf bus hp rest coreid pc info supervisor = (h, m) -> settled (fun _ => false) h m.
Proof.
  intros Hc Hp Hb Hs Hd E. destruct (power_on_shape rest coreid pc info supervisor) as (h1 & E1 & E2 & E3). rewrite E3 in E.
  injection E as <- <-. split; [reflexivity|]. exists (fun _ => false). split.
  - apply boot_J; try assumption. apply reset_J; rewrite ?E1, ?E2; try assumption; [typed|].
    split; [split; [exact (wu_wf _ _ U)|exact (wu_le _ _ U)|reflexivity|reflexivity]|apply on_synced].
  - intros n Hn. left. apply Z.bits_0.
Qed.

End Settled.

(** Everything a platform does with the frontend after power-on.  [low] are the
    lines that may have been low since a reset, which clears [mip] and drives
    no line: all of them until the platform next sets the time, then all but
    the timer's. *)
Inductive soc_session : (Z -> bool) -> rv_hart -> mach Rest -> Prop :=
| soc_on rest coreid pc info supervisor h m : is_u32 coreid -> is_u32 pc -> is_u32 (ram_base info) -> is_u32 (ram_size info) ->
    is_u32 (dtb info) -> power_on on_eoi pf bus hp rest coreid pc info supervisor = (h, m) -> soc_session (fun _ => false) h m
| soc_run low h m budget r n h' m' : soc_session low h m -> rv32_run pt_read pt_write pf h m budget = (r, n, h', m') -> soc_session low h' m'
| soc_call low o h m h' m' : soc_session low h m -> host_call on_eoi pf o h m = (h', m') ->
    soc_session (fun n => low n && negb (sets_time o && (n =? RV_INT_M_TIMER))) h' m'
| soc_halt low h m : soc_session low h m -> soc_session low (rv32_halt h) m
| soc_reset low h m pc : soc_session low h m -> is_u32 pc -> soc_session (fun _ => true) (rv32_reset h pc) m
| soc_reg low h m r v : soc_session low h m -> is_u32 v -> soc_session low (rv32_reg_write h r v) m.

Lemma session_settled e0 low h m : soc_session low h m -> settled e0 low h m.
Proof.
  induction 1 as [rest coreid pc info supervisor h m Hc Hp Hb Hs Hd E|low h m budget r n h' m' _ IH E|low o h m h' m' _ IH E|low h m _ IH|low h m pc _ IH Hp|low h m r v _ IH Hv].
  - exact (power_on_settled _ _ _ _ _ _ _ _ Hc Hp Hb Hs Hd E).
  - eapply run_settled; eassumption.
  - eapply host_call_settled; eassumption.
  - apply (settled_regs e0 low h); [reflexivity|intros C D; unfold rv32_halt; split; [set_ctl|set_dat]|reflexivity|exact IH].
  - eapply reset_settled; eassumption.
  - unfold rv32_reg_write. destruct (_ <? _); [|exact IH].
    apply (settled_regs e0 low h); [reflexivity|intros C D; split; [set_ctl|set_dat]|reflexivity|exact IH].
Qed.

(** [C21] The interrupt lines follow the devices.  In every state a platform
    can observe, whatever the guest has run and however time, interrupts,
    runs and resets were interleaved: nothing waits to be delivered, MTIP is
    set exactly when the time has reached the compare register, MSIP exactly
    when the software interrupt is, and MEIP exactly when the APLIC has
    something to deliver to a machine-mode system -- except that after a reset
    of the hart on its own, which clears [mip] without asking the devices, a
    line may be low that its device asserts, never the other way; MTIP only
    until the platform next sets or advances the time.  No instruction can set
    or clear the lines behind the devices' backs. *)
Theorem lines_follow low h m : soc_session low h m ->
  let c := soc_clint (m_ext m) in
  let a := soc_aplic (m_ext m) in
  let follows n (level : bool) := Z.testbit (h_mip h) n = level \/ low n = true /\ Z.testbit (h_mip h) n = false in
  soc_queue (m_ext m) = [] /\
  follows RV_INT_M_TIMER (ck_mtimecmp c <=? ck_mtime c) /\
  follows RV_INT_M_SOFT (negb (ck_msip c =? 0)) /\
  (ap_target_int a = RV_INT_M_EXT -> follows RV_INT_M_EXT (aplic_deliver a)).
Proof.
  intros S. destruct (session_settled (m_ext m) low h m S) as [Q (b & [_ J] & Lk)]. destruct J as [_ _ _ _ _ _ [_ Y]].
  destruct Y as [_ _ _ _ _ Y1 Y2 Y3]. rewrite Q in *. split; [reflexivity|]. unfold line_after in *. cbn [fold_left] in *.
  rewrite <- Y1, <- Y2. split; [apply Lk; cbn; auto|]. split; [apply Lk; cbn; auto|]. intros Ht. rewrite <- (Y3 Ht). apply Lk. cbn. auto.
Qed.
End Sessions.
