(* ===== verification/RvDemo.v ===== *)
(** * A paged guest

    A hart in U-mode under Sv32: RAM at 0x80000000 with a root table, one
    second-level table and a megapage, and a PMP entry that grants it all.
    The witnesses of the PMP, translation, access and fetch theorems run on it. *)

From stdpp Require Import base list gmap.
From Stdlib Require Import ZArith Lia.
From S2P Require Import Prelude Bus BusProps RvHart RvBus RvPmp RvTrig RvMmu RvWalk RvAccess RvCoherent RvFill RvFence RvMem.
From S2P Require Import RvDecode RvInterp RvInv.

Open Scope Z_scope.
Open Scope u32_scope.

#[export] Instance demo_config : RvConfig := {| RV_MISALIGNED_OK := true; RV_DTLB_ENTRIES := 256 |}.

Definition no_read (e : unit) (a sz : Z) : Z * unit := (0, tt).
Definition no_write (e : unit) (a sz v : Z) : unit := tt.

(** ** Memory *)

Definition paged_bus : emu_bus unit :=
  let '(b, g) := emu_bus_init 0 in
  let '(_, b, _) := emu_bus_add_ram g b 2147483648 2 65536 in b.

(** Words at offsets of the RAM: the root's entry 1 points to the table at
    0x80002000, whose entry 0 maps a user page at 0x80003000; the root's entry
    512 maps 4 MB at 0x80000000 for S-mode. *)
Definition paged_words : list (Z * Z) :=
  [(4100, 536872961); (8192, 536874199); (6144, 536871119); (12304, 305419896)].

Definition paged_heap : heap := fun buf off =>
  match List.find (fun '(o, _) => (o <=? off) && (off <? o + 4)) paged_words with
  | Some (o, w) => u8 (Z.shiftr w (8 * (off - o)))
  | None => 0
  end.

Definition paged : machine := Machine paged_bus paged_heap tt.

#[local] Instance demo_bus : PhysBus unit machine := emu_phys_bus no_read no_write.
#[local] Instance demo_laws : PhysBusLaws demo_bus no_read no_write := emu_phys_bus_laws no_read no_write.

Lemma paged_table : table_ok (regions paged_bus).
Proof.
  assert (H0 : table_ok ([] : list (emu_region unit))) by (split; [constructor|intros i j r s a Hi; discriminate]).
  change (regions paged_bus) with (([] : list (emu_region unit)) ++
    [Region 2147483648 65536 2 0 None EMU_MEM_RAM EMU_PERM_RWX EMU_WANY]).
  apply table_ok_snoc; [exact H0|unfold region_ok; cbn [base size]; lia|reflexivity].
Qed.

Lemma paged_ok : bus_ok paged.
Proof.
  split; [|reflexivity]. split; try (left; reflexivity); [exact paged_table| |vm_compute; discriminate].
  repeat constructor.
Qed.

(** ** The hart *)

Definition pmp_all (h : rv_hart) : rv_hart :=
  h <| h_pmpcfg := fun i => if i =? 0 then 31 else 0 |> <| h_pmpaddr := fun i => if i =? 0 then 1073741823 else 0 |>.

Definition user_hart : rv_hart :=
  rv_mmu_flush (rv_pmp_refresh (rv_mmu_refresh ((pmp_all zero_hart) <| h_satp := 2148007937 |> <| h_priv := RV_PRIV_U |>))).

Lemma pmp_all_ok h : pmpaddr_ok (pmp_all h).
Proof.
  intros i. change (h_pmpaddr (pmp_all h) i) with (if i =? 0 then 1073741823 else 0).
  destruct (i =? 0); unfold is_u32; lia.
Qed.

Lemma user_hart_ok : hart_ok user_hart.
Proof.
  split.
  - intros _. reflexivity.
  - split; intros H; vm_compute in H; discriminate.
  - exact (pmp_all_ok zero_hart).
Qed.

Lemma user_access_ok : access_ok user_hart.
Proof.
  split; [exact user_hart_ok|right; vm_compute; split; congruence|reflexivity|reflexivity|].
  intros _ i Hi. reflexivity.
Qed.

Lemma user_caches : caches_ok user_hart (abs paged).
Proof. apply flush_caches. Qed.

Lemma paged_top : top_unmapped (abs paged).
Proof. intros r [<-|[]]. cbn. lia. Qed.

(** A load twice: through the walk, then through the data table. *)
Example paged_load :
  let '(e1, v1, h1, m1) := rv_hart_load user_hart paged 4194320 4 false in
  let '(e2, v2, h2, m2) := rv_hart_load h1 m1 4194322 2 true in
  (e1, v1, h_dtlb_fills h1, e2, v2, h_dtlb_fills h2) = (RV_EXC_NONE, Some 305419896, 1, RV_EXC_NONE, Some 4660, 1).
Proof. vm_compute. reflexivity. Qed.

(** U-mode may not read the megapage. *)
Example paged_refusal :
  fst (fst (fst (rv_hart_load user_hart paged 2147483648 4 false))) = RV_EXC_LOAD_PAGE_FAULT.
Proof. vm_compute. reflexivity. Qed.

(** ** PMP *)

Lemma pmp_check_exact_witness :
  rv_pmp_check user_hart 4096 4 EMU_ACC_STORE = true <-> pmp_permits user_hart 4096 4 EMU_ACC_STORE RV_PRIV_U.
Proof.
  apply (pmp_check_exact user_hart 4096 4 EMU_ACC_STORE); [exact (ok_addr _ user_hart_ok)|lia..].
Defined.

Lemma pmp_page_rights_exact_witness :
  right_of (rv_pmp_page_rights user_hart 8192 RV_PRIV_U) EMU_ACC_LOAD = true <->
  forall addr size, 8192 <= addr -> 0 < size -> addr + size <= 8192 + 4096 -> rv_pmp_check user_hart addr size EMU_ACC_LOAD = true.
Proof.
  apply (pmp_page_rights_exact user_hart 8192 EMU_ACC_LOAD); [discriminate|lia..].
Defined.

Definition machine_hart : rv_hart := (pmp_all zero_hart) <| h_priv := RV_PRIV_M |>.

Lemma pmp_skip_sound_witness : rv_pmp_check (rv_pmp_refresh machine_hart) 4096 4 EMU_ACC_STORE = true.
Proof.
  apply (pmp_skip_sound machine_hart 4096 4 EMU_ACC_STORE); [exact (pmp_all_ok zero_hart)|lia..|vm_compute; reflexivity].
Defined.

Definition low_entry : rv_hart :=
  zero_hart <| h_pmpcfg := fun i => if i =? 0 then 144 else 0 |> <| h_pmpaddr := fun i => if i =? 0 then 16 else 0 |>
            <| h_priv := RV_PRIV_M |>.

Lemma pmp_simple_sound_witness : rv_pmp_check low_entry 68 4 EMU_ACC_STORE = true.
Proof.
  apply (pmp_simple_sound low_entry 64 68 68 4 EMU_ACC_STORE); [vm_compute; reflexivity|reflexivity|lia..].
Defined.

Lemma trig_write_sound_witness :
  let h' := rv_trig_write_tdata1 (zero_hart <| h_tselect := 1 |>) 536870985 in
  (h_trig_active h' = false -> rv_trig_check h' 64 EMU_ACC_LOAD = false) /\
  (forall i, h_tdata1 h' i = if i =? 1 then 536870985 else 0).
Proof.
  destruct (trig_write_sound (zero_hart <| h_tselect := 1 |>) 536870985 64 EMU_ACC_LOAD) as [H1 H2];
    [cbn; unfold RV_TRIG_COUNT; lia|unfold is_u32; lia|].
  split; [exact H1|]. intros i. rewrite H2. reflexivity.
Defined.

(** ** Translation and accesses *)

Lemma mmu_translate_exact_witness :
  exists h' m', rv_mmu_translate user_hart paged 4194320 EMU_ACC_LOAD = (RV_EXC_NONE, 2147495952, h', m') /\
    bus_ok m' /\ abs m' = abs paged /\ tlb_ok h' (abs m') /\ same_but_tlb user_hart h'.
Proof.
  apply (mmu_translate_exact user_hart paged 4194320 EMU_ACC_LOAD).
  - exact user_hart_ok.
  - exact paged_ok.
  - unfold is_u32. lia.
  - exact (proj1 user_caches).
  - vm_compute. reflexivity.
Defined.

(** The guest unmaps the user page and fences it. *)
Definition unmapped : phys unit :=
  Phys (p_regions (abs paged)) (upd paged_heap 2 (host_st (paged_heap 2) 8192 4 0)) tt.

Lemma memory_transparent_witness :
  (exists h' m', rv_hart_load user_hart paged 4194320 4 false = (RV_EXC_NONE, Some 305419896, h', m') /\
     bus_ok m' /\ abs m' = abs paged /\ caches_ok h' (abs paged) /\ arch_eq user_hart h') /\
  (exists h' m', rv_hart_store user_hart paged 4194328 4 7 = (RV_EXC_NONE, h', m') /\
     stores user_hart user_hart (abs paged)
       (Phys (p_regions (abs paged)) (upd paged_heap 2 (host_st (paged_heap 2) 12312 4 7)) tt) h' m').
Proof.
  split.
  - apply (proj1 (memory_transparent user_hart paged 4194320 4 user_access_ok paged_ok user_caches paged_top ltac:(unfold is_u32; lia)
      ltac:(unfold access_size; auto) ltac:(vm_compute; reflexivity)) false). vm_compute. reflexivity.
  - apply (proj2 (memory_transparent user_hart paged 4194328 4 user_access_ok paged_ok user_caches paged_top ltac:(unfold is_u32; lia)
      ltac:(unfold access_size; auto) ltac:(vm_compute; reflexivity)) 7).
    + intros pa E. vm_compute in E. injection E as <-. lia.
    + vm_compute. reflexivity.
Defined.

(** The megapage, fetched from S-mode. *)
Definition super_hart : rv_hart :=
  rv_mmu_flush (rv_pmp_refresh (rv_mmu_refresh ((pmp_all zero_hart) <| h_satp := 2148007937 |> <| h_priv := RV_PRIV_S |>))).

(** ... after the walk has put it in the TLB. *)
Definition super_fetched : rv_hart := tlb_filled super_hart 2147483652 1 536871119.

Lemma super_fetched_caches : caches_ok super_fetched (abs paged).
Proof.
  apply (caches_filled super_hart).
  - right. exists 2147483652, 1%nat, 536871119. reflexivity.
  - apply flush_caches.
  - apply tlb_ok_filled; [unfold is_u32; lia|apply flush_caches|vm_compute; reflexivity|reflexivity].
Qed.

Lemma itlb_exact_witness :
  let '(h', m') := rv_itlb_fill super_fetched paged 2147483652 2147483652 in
  ref_translate h' (abs m') 2147483780 EMU_ACC_FETCH = Some (RV_EXC_NONE, 2147483780) /\
  (2147483780 mod 4096 + 2 <= 4096 -> rv_pmp_check h' 2147483780 2 EMU_ACC_FETCH = true) /\
  caches_ok h' (abs m') /\ arch_eq super_fetched h'.
Proof.
  destruct (rv_itlb_fill super_fetched paged 2147483652 2147483652) as [h' m'] eqn:E.
  apply (itlb_exact super_fetched paged 2147483652 2147483652 h' m' 2147483780 2147483780).
  - exact paged_ok.
  - exact super_fetched_caches.
  - right. vm_compute. split; congruence.
  - unfold is_u32. lia.
  - unfold is_u32. lia.
  - vm_compute. reflexivity.
  - exact E.
  - replace h' with (fst (rv_itlb_fill super_fetched paged 2147483652 2147483652)) by (rewrite E; reflexivity).
    vm_compute. reflexivity.
Defined.

(** ** Fetches *)

Lemma paged_inv priv : priv = RV_PRIV_U \/ priv = RV_PRIV_S ->
  hart_inv (rv_mmu_flush (rv_pmp_refresh (rv_mmu_refresh ((pmp_all zero_hart) <| h_satp := 2148007937 |> <| h_priv := priv |>)))).
Proof.
  intros [-> | ->]; (split; [|vm_compute; auto|reflexivity]);
    (split; [|right; vm_compute; split; congruence|reflexivity|reflexivity|intros _ i Hi; reflexivity]);
    (split; [intros _; reflexivity| |exact (pmp_all_ok zero_hart)]); split; intros H; vm_compute in H; discriminate.
Qed.

(** S-mode fetches 32 bits of the megapage; the user's page may not be
    executed. *)
Lemma fetch_transparent_witness :
  (exists h' m', fetch super_hart paged 2147489792 = (Insn 536871119 4, h', m') /\
     bus_ok m' /\ abs m' = abs paged /\ caches_ok h' (abs paged) /\ arch_eq super_hart h') /\
  (exists h' m', fetch user_hart paged 4194320 = (FetchTrap RV_EXC_INSN_PAGE_FAULT 4194320, h', m') /\
     bus_ok m' /\ abs m' = abs paged /\ caches_ok h' (abs paged) /\ arch_eq user_hart h').
Proof.
  split.
  - apply (fetch_transparent super_hart paged 2147489792 (Insn 536871119 4) (abs paged));
      [apply paged_inv; right; reflexivity|exact paged_ok|apply flush_caches|exact paged_top|unfold is_u32; lia|vm_compute; reflexivity].
  - apply (fetch_transparent user_hart paged 4194320 (FetchTrap RV_EXC_INSN_PAGE_FAULT 4194320) (abs paged));
      [apply paged_inv; left; reflexivity|exact paged_ok|exact user_caches|exact paged_top|unfold is_u32; lia|vm_compute; reflexivity].
Defined.

(** ** The fence *)

(** The edit is seen by the walks that read that word and by no other. *)
Lemma host_ld_other f o n v o' : (o' + 4 <= o \/ o + 4 <= o') -> host_ld (host_st f o 4 v) o' n = host_ld f o' n \/ (n <> 4 /\ n <> 2 /\ n <> 1).
Proof.
  intros H. destruct (Z.eq_dec n 4) as [->|]; [left|destruct (Z.eq_dec n 2) as [->|]; [left|destruct (Z.eq_dec n 1) as [->|]; [left|auto]]];
    unfold host_ld, host_st; cbn [nbytes Z.eqb Pos.eqb ld_le st_le]; rewrite ?upd_ne by lia; reflexivity.
Qed.

Lemma unmapped_peek a : is_u32 a -> a mod 4 = 0 -> a <> 2147491840 -> peek unmapped a 4 = peek (abs paged) a 4.
Proof.
  intros Hu Ha Hne. unfold peek, grant. change (p_regions unmapped) with (p_regions (abs paged)).
  destruct (lookup_region _ a) as [r|] eqn:El; [|reflexivity].
  destruct (lookup_region_in _ _ _ El) as [[<-|[]] Hin]. unfold in_region in Hin. cbn [base size] in Hin. apply Z.ltb_lt in Hin.
  destruct (region_allows _ _ _ _) as [o|] eqn:Ea; [|reflexivity]. cbn [kind host]. do 2 f_equal.
  assert (Eo : o = a - 2147483648).
  { unfold region_allows in Ea. repeat match type of Ea with (if ?c then _ else _) = _ => destruct c; [discriminate|] end.
    injection Ea as <-. cbn [base]. unfold u32, is_u32 in *. destruct (Z.lt_ge_cases a 2147483648); [|apply Z.mod_small; lia].
    rewrite <- (Z.mod_unique (a - 2147483648) (2 ^ 32) (-1) (a - 2147483648 + 2 ^ 32)) in Hin by lia. lia. }
  subst o. cbn [p_heap unmapped]. rewrite upd_eq.
  destruct (host_ld_other (paged_heap 2) 8192 4 0 (a - 2147483648)) as [E|E]; [|exact E|lia].
  pose proof (Z.div_mod a 4 ltac:(lia)). lia.
Qed.

(** Only entry 1 of the root leads to the table that was edited. *)
Definition leads_elsewhere (h : rv_hart) (i : Z) : bool :=
  match pte_rd h (abs paged) (2147487744 +! i *! 4) with
  | Some (Some pte) => negb (pte &! (PTE_R |! PTE_X) =? 0) || negb (pte_page pte =? 2147491840) || (i =? 1)
  | _ => true
  end.

Lemma idx_range va k : 0 <= Z.land (Z.shiftr va k) 1023 < 1024.
Proof. change 1023 with (Z.ones 10). rewrite Z.land_ones by lia. apply Z.mod_pos_bound. lia. Qed.

Lemma walk0_unmapped h va table : table mod 4096 = 0 -> is_u32 table ->
  (table = 2147491840 -> Z.land (Z.shiftr va 12) 1023 <> 0) ->
  walk_spec (pte_rd h unmapped) 0 va table = walk_spec (pte_rd h (abs paged)) 0 va table.
Proof.
  intros Ht Hu Hne. cbn [walk_spec]. change (PAGE_SHIFT + 10 * Z.of_nat 0) with 12. pose proof (idx_range va 12) as Hi.
  set (i := Z.land (Z.shiftr va 12) 1023) in *. unfold is_u32 in Hu. pose proof (Z.div_mod table 4096 ltac:(lia)).
  assert (E : table +! i *! 4 = table + i * 4) by (rewrite (u32_id (i * 4)) by (unfold is_u32; lia); apply u32_id; unfold is_u32; lia).
  rewrite E. replace (pte_rd h unmapped (table + i * 4)) with (pte_rd h (abs paged) (table + i * 4)); [reflexivity|].
  unfold pte_rd. rewrite unmapped_peek; [reflexivity|unfold is_u32; lia| |].
  - replace (table + i * 4) with ((table / 4096 * 1024 + i) * 4) by lia. apply Z.mod_mul. lia.
  - intros Eq. assert (table = 2147491840 /\ i = 0) as [E1 E2] by lia. exact (Hne E1 E2).
Qed.

Lemma edit_differs h : root h = 2147487744 -> (forall i, 0 <= i < 1024 -> leads_elsewhere h i = true) ->
  differ_at_leaf h 4194304 (abs paged) unmapped.
Proof.
  intros Hroot Hleads. split; [reflexivity|]. intros va Hu Hn. unfold walk. rewrite !walk_spec_1. pose proof (idx_range va 22) as Hi.
  rewrite Hroot. pose proof (Hleads _ Hi) as Hl. unfold leads_elsewhere in Hl.
  set (i := Z.land (Z.shiftr va 22) 1023) in *.
  assert (E : 2147487744 +! i *! 4 = 2147487744 + i * 4)
    by (rewrite (u32_id (i * 4)) by (unfold is_u32; lia); apply u32_id; unfold is_u32; lia).
  assert (Er : pte_rd h unmapped (2147487744 + i * 4) = pte_rd h (abs paged) (2147487744 + i * 4)).
  { unfold pte_rd. rewrite unmapped_peek; [reflexivity|unfold is_u32; lia| |lia].
    replace (2147487744 + i * 4) with ((536871936 + i) * 4) by lia. apply Z.mod_mul. lia. }
  rewrite E in *. rewrite Er. destruct (pte_rd _ _ _) as [[pte|]|]; [|reflexivity..].
  destruct (negb (has pte PTE_V) || _); [reflexivity|]. destruct (pte &! (PTE_R |! PTE_X) =? 0); [|reflexivity].
  cbn [negb orb] in Hl. rewrite walk0_unmapped; [reflexivity|..].
  - destruct (pte_page_shape pte) as (k & Ek & _). rewrite Ek. apply Z.mod_mul. lia.
  - destruct (pte_page_shape pte) as (k & Ek & Hk). unfold is_u32. lia.
  - intros Ep E0. rewrite Ep, Z.eqb_refl in Hl. cbn [negb orb] in Hl. apply Z.eqb_eq in Hl. apply Hn. left.
    change (Z.shiftr 4194304 12) with 1024. unfold i in Hl. change 1023 with (Z.ones 10) in *.
    rewrite Z.land_ones in * by lia. rewrite !Z.shiftr_div_pow2 in * by lia. unfold is_u32 in Hu.
    pose proof (Z.div_mod (va / 2 ^ 12) (2 ^ 10) ltac:(lia)).
    pose proof (Z.div_mod (va / 2 ^ 22) (2 ^ 10) ltac:(lia)).
    rewrite (Z.div_small (va / 2 ^ 22)) in * by (split; [apply Z.div_pos; lia|apply Z.div_lt_upper_bound; lia]).
    assert (va / 2 ^ 12 / 2 ^ 10 = va / 2 ^ 22) by (rewrite Z.div_div by lia; reflexivity). lia.
Qed.

Lemma root_leads : forall i, 0 <= i < 1024 -> leads_elsewhere user_hart i = true.
Proof.
  assert (H : forallb (leads_elsewhere user_hart) (map Z.of_nat (seq 0 1024)) = true) by (vm_compute; reflexivity).
  intros i Hi. rewrite forallb_forall in H. apply H. apply in_map_iff. exists (Z.to_nat i). split; [lia|apply in_seq; lia].
Qed.

Lemma user_root : root user_hart = 2147487744.
Proof. vm_compute. reflexivity. Qed.

Lemma unmapped_differs : differ_at_leaf user_hart 4194304 (abs paged) unmapped.
Proof. exact (edit_differs user_hart user_root root_leads). Qed.

(** After the load the page is in all the caches; the fence drops it. *)
Definition loaded : rv_hart := snd (fst (rv_hart_load user_hart paged 4194320 4 false)).

Lemma loaded_caches : caches_ok loaded (abs paged) /\ differ_at_leaf loaded 4194304 (abs paged) unmapped.
Proof.
  destruct (load_ok user_hart paged 4194320 4 false RV_EXC_NONE (Some 305419896) (abs paged)) as (h' & m' & E & _ & _ & Hc & Ha);
    [exact user_access_ok|exact paged_ok|exact user_caches|exact paged_top|unfold is_u32; lia|unfold access_size; auto
    |vm_compute; reflexivity|vm_compute; reflexivity|].
  unfold loaded. rewrite E. cbn [fst snd].
  split; [exact Hc|]. destruct unmapped_differs as [H1 H2]. split; [exact H1|]. intros va Hu Hn.
  rewrite !(walk_ext user_hart h') by (apply arch_same_tables; exact Ha). apply H2; [exact Hu|]. intros Hs. apply Hn.
  unfold same_leaf in *. rewrite (walk_ext user_hart h') by (apply arch_same_tables; exact Ha). exact Hs.
Qed.

Lemma fence_page_sound_witness :
  caches_ok (rv_mmu_flush_page loaded 4194304) unmapped /\
  arch_eq (loaded <| h_vm_gen := h_vm_gen (rv_mmu_flush_page loaded 4194304) |>) (rv_mmu_flush_page loaded 4194304).
Proof. apply (fence_page_sound loaded 4194304 (abs paged) unmapped); apply loaded_caches. Defined.
