(* ===== verification/RvRunDemo.v ===== *)
(** * Small guests, alone and beside devices

    The guests the witnesses of the trap, run, confinement, interrupt, type and
    session theorems run on. *)

From stdpp Require Import base list gmap.
From Stdlib Require Import ZArith Lia.
From S2P Require Import Prelude Bus BusProps RvHart RvBus RvPmp RvTrig RvMmu RvWalk RvAccess RvCoherent RvFill RvFence RvMem RvTrap RvCsr RvDecode RvRvc RvAtomic RvFpu RvInterp RvFrame RvInv RvTrapProps RvRun RvConfine RvIrq RvClint RvAplic RvAplicProps RvTyped RvGuest RvContain RvSoc RvLines RvDemo.

Open Scope Z_scope.
Open Scope u32_scope.

(** * A small guest

    RAM at 0x80000000 with a few instructions, run from reset by a platform
    without hooks.  The witnesses of the trap, run, confinement and interrupt
    theorems run on it. *)

#[local] Instance run_bus : PhysBus unit machine := emu_phys_bus no_read no_write.

(** No instruction of this guest is a floating-point one. *)
#[local] Instance no_float : SoftFloat := {|
  f32_add _ _ _ := (0, 0); f32_sub _ _ _ := (0, 0); f32_mul _ _ _ := (0, 0); f32_div _ _ _ := (0, 0); f32_sqrt _ _ := (0, 0);
  f32_mulAdd _ _ _ _ := (0, 0); f32_to_i32 _ _ := (0, 0); f32_to_ui32 _ _ := (0, 0); i32_to_f32 _ _ := (0, 0);
  ui32_to_f32 _ _ := (0, 0); f32_to_f64 _ _ := (0, 0); f32_to_f16 _ _ := (0, 0); f16_to_f32 _ _ := (0, 0);
  f16_to_f64 _ _ := (0, 0); f64_add _ _ _ := (0, 0); f64_sub _ _ _ := (0, 0); f64_mul _ _ _ := (0, 0);
  f64_div _ _ _ := (0, 0); f64_sqrt _ _ := (0, 0); f64_mulAdd _ _ _ _ := (0, 0); f64_to_i32 _ _ := (0, 0);
  f64_to_ui32 _ _ := (0, 0); i32_to_f64 _ _ := (0, 0); ui32_to_f64 _ _ := (0, 0); f64_to_f32 _ _ := (0, 0);
  f64_to_f16 _ _ := (0, 0); f64_lt _ _ := false; f64_le _ _ := false; f64_eq _ _ := false |}.

Definition bare : platform (machine (Ext := unit)) := Platform None (fun _ => None) (fun m => ([], m)).

Lemma bare_frames : hook_frames bare.
Proof. intros hook nr args h m used ret h' m' E. discriminate E. Qed.

(** csrsi mstatus, 8; csrsi mie, 8; csrwi pmpaddr0, 1; ecall; mret. *)
Definition program : list (Z * Z) := [(0, 805593203); (4, 809787507); (8, 989909107); (12, 115); (16, 807403635)].

Definition guest_heap : heap := fun buf off =>
  match List.find (fun '(o, _) => (o <=? off) && (off <? o + 4)) program with
  | Some (o, w) => u8 (Z.shiftr w (8 * (off - o)))
  | None => 0
  end.

Definition guest : machine (Ext := unit) := Machine paged_bus guest_heap tt.
Definition entry : Z := 2147483648.

(** ** Harts *)

Definition fresh : rv_hart := rv_hart_reset (rv_hart_init 0) entry.

Lemma fresh_reachable : reachable bare fresh.
Proof. apply reach_reset, reach_init. Qed.

Definition ran (n : Z) : emu_run_reason * Z * rv_hart * machine (Ext := unit) := interp_run bare fresh guest n.
Definition after (n : Z) : rv_hart := snd (fst (ran n)).

Lemma ran_eq n : interp_run bare fresh guest n = (fst (fst (fst (ran n))), snd (fst (fst (ran n))), after n, snd (ran n)).
Proof. unfold after, ran. destruct (interp_run bare fresh guest n) as [[[r d] h'] m']. reflexivity. Qed.

Lemma after_reachable n : reachable bare (after n).
Proof. eapply reach_run; [exact fresh_reachable|apply (ran_eq n)]. Qed.

(** In U-mode, with system calls delegated to S and every PMP right. *)
Definition user : rv_hart :=
  rv_mmu_refresh (rv_pmp_refresh ((pmp_all fresh) <| h_priv := RV_PRIV_U |> <| h_medeleg := 256 |>
    <| h_stvec := 2147483904 |> <| h_mtvec := 2147484160 |> <| h_pc := 2147483660 |>)).

Lemma user_inv : hart_inv user.
Proof.
  apply refresh_inv.
  - intros _. reflexivity.
  - exact (pmp_all_ok zero_hart).
  - left. reflexivity.
  - intros _ i _. reflexivity.
Qed.

(** ** Witnesses *)

Lemma trap_entry_witness :
  delegated user RV_EXC_ECALL_U /\ ~ delegated user RV_EXC_BREAKPOINT /\
  h_priv (fst (rv_hart_trap user guest RV_EXC_ECALL_U 0)) = RV_PRIV_S /\
  h_mcause (fst (rv_hart_trap user guest RV_EXC_BREAKPOINT 0)) = RV_EXC_BREAKPOINT.
Proof.
  assert (D : delegated user RV_EXC_ECALL_U) by (split; [vm_compute; discriminate|split; reflexivity]).
  assert (N : ~ delegated user RV_EXC_BREAKPOINT) by (intros (_ & _ & H); vm_compute in H; discriminate).
  split; [exact D|]. split; [exact N|]. split.
  - destruct (trap_entry user guest RV_EXC_ECALL_U 0 _ _ (surjective_pairing _) user_inv ltac:(unfold RV_EXC_ECALL_U; lia))
      as (_ & _ & _ & t & _ & S & _). apply (S D).
  - destruct (trap_entry user guest RV_EXC_BREAKPOINT 0 _ _ (surjective_pairing _) user_inv ltac:(unfold RV_EXC_BREAKPOINT; lia))
      as (_ & _ & _ & t & _ & _ & S). apply (S N).
Defined.

Lemma trap_return_witness :
  let h' := fst (rv_hart_trap user guest RV_EXC_ECALL_U 0) in
  h_priv (do_sret h') = RV_PRIV_U /\ h_sepc (do_sret h') = 2147483660.
Proof.
  destruct (trap_return user guest RV_EXC_ECALL_U 0 _ _ (surjective_pairing _) user_inv) as (P & E & _).
  split; [exact P|exact E].
Defined.

Lemma reachable_inv_witness : hart_inv (after 3).
Proof. exact (reachable_inv bare (after 3) bare_frames (after_reachable 3)). Defined.

Lemma run_within_budget_witness : 0 <= snd (fst (fst (ran 3))) <= 3.
Proof.
  assert (B : 0 <= 3 < 2 ^ 32) by lia.
  destruct (run_within_budget bare fresh guest 3 _ _ _ _ B (ran_eq 3)) as [D _]. exact D.
Defined.

(** The same run with entry 0 locked: the write of [pmpaddr0] does nothing. *)
Definition locked : rv_hart :=
  rv_mmu_refresh (rv_pmp_refresh (fresh <| h_pmpcfg := fun i => if i =? 0 then 159 else 0 |>
    <| h_pmpaddr := fun i => if i =? 0 then 1073741823 else 0 |>)).

Lemma locked_inv : hart_inv locked.
Proof.
  apply refresh_inv.
  - intros Hn. exfalso. apply Hn. reflexivity.
  - exact (pmp_all_ok zero_hart).
  - right. right. reflexivity.
  - intros _ i _. reflexivity.
Qed.

Lemma lock_holds_witness :
  let '(_, d, h', _) := interp_run bare locked guest 3 in d = 3 /\ h_pmpaddr h' 0 = 1073741823.
Proof.
  assert (D : let '(_, d, _, _) := interp_run bare locked guest 3 in d = 3) by (vm_compute; reflexivity).
  destruct (interp_run bare locked guest 3) as [[[r d] h'] m'] eqn:E. split; [exact D|].
  destruct (lock_holds bare locked guest 3 r d h' m' 0 bare_frames E locked_inv) as (_ & A & _);
    [unfold RV_PMP_ENTRIES; lia|reflexivity|]. exact A.
Defined.

Lemma confined_witness :
  match iteration bare user guest 2147483660 with
  | inr (h', _, pc') => h_priv h' = RV_PRIV_S /\ confined_step user 2147483660 h' pc'
  | inl _ => False
  end.
Proof.
  assert (N : match iteration bare user guest 2147483660 with inr (h', _, _) => h_priv h' = RV_PRIV_S | inl _ => False end)
    by (vm_compute; reflexivity).
  destruct (iteration bare user guest 2147483660) as [x|[[h' m'] pc']] eqn:E; [exact N|]. split; [exact N|].
  apply (confined bare user guest 2147483660 h' m' pc' bare_frames E user_inv). discriminate.
Defined.

(** MIE and MSIE are set after two instructions; the software interrupt comes. *)
Definition ready : rv_hart := after 2.

Lemma pending_irq_ref_witness :
  rv_hart_pending_irq (rv_hart_set_irq ready 3 true) = irq_ref (rv_hart_set_irq ready 3 true).
Proof. exact (pending_irq_ref bare _ bare_frames (reach_irq bare ready 3 true (after_reachable 2))). Defined.

Lemma irq_taken_witness :
  exists irq h' m' pc', outranks irq 3 /\ takeable (rv_hart_set_irq ready 3 true) irq = true /\
    iteration bare (rv_hart_set_irq ready 3 true) guest (h_pc ready) = inr (h', m', pc') /\
    in_irq_handler (rv_hart_set_irq ready 3 true) (h_pc ready) irq h' pc'.
Proof.
  apply (irq_taken bare ready guest (h_pc ready) 3 bare_frames (after_reachable 2)).
  - vm_compute. reflexivity.
  - right. left. reflexivity.
  - vm_compute. reflexivity.
Defined.

(** MSIP is pending and MIE set, with nothing enabled in [mie]; the next
    instruction sets MSIE, and the loop is told. *)
Definition armed : rv_hart := (rv_hart_set_irq (after 1) 3 true) <| h_irq_dirty := false |>.

Lemma armed_inv : hart_inv armed /\ mie_ok armed.
Proof.
  destruct (reachable_mie bare _ bare_frames (reach_irq bare (after 1) 3 true (after_reachable 1))) as [[[[A [B1 B2] C] D E F G] P Q] Hm].
  split; [|exact Hm]. split; [|exact P|exact Q]. split; [split; [exact A|split; assumption|exact C]|exact D|exact E|exact F|exact G].
Qed.

Lemma irq_not_lost_witness :
  match iteration bare armed guest (entry + 4) with
  | inr (h', _, _) => (RvIrq.settled h' \/ mip_written armed h' \/ taken_into_s armed h') /\ rv_hart_pending_irq h' = 3 /\ h_irq_dirty h' = true
  | inl _ => False
  end.
Proof.
  assert (N : match iteration bare armed guest (entry + 4) with inr (h', _, _) => rv_hart_pending_irq h' = 3 /\ h_irq_dirty h' = true | inl _ => False end)
    by (vm_compute; split; reflexivity).
  destruct (iteration bare armed guest (entry + 4)) as [x|[[h' m'] pc']] eqn:E; [exact N|]. split; [|exact N].
  apply (irq_not_lost bare armed guest (entry + 4) h' m' pc' bare_frames E).
  - apply armed_inv.
  - apply armed_inv.
  - intros _. vm_compute. reflexivity.
Defined.

(** [c.jr ra] is [jalr x0, 0(x1)]. *)
Lemma expand_c_exact_witness : rv_decode_expand_c 32898 = 32871.
Proof. exact (proj1 (expand_c_exact 32898 ltac:(lia))). Defined.

(** ** Behaviour worth knowing *)

(** Software raises SSIP in [mip] with the interrupt enabled and MIE set, and
    nothing tells the loop to look: the exception of [irq_not_lost]. *)
Definition enabled : rv_hart := fresh <| h_mie := MIP_SSIP |> <| h_mstatus := MSTATUS_MIE |> <| h_irq_dirty := false |>.

Example mip_write_unlooked :
  let h' := snd (rv_csr_write enabled CSR_MIP MIP_SSIP) in
  h_irq_dirty h' = false /\ rv_hart_pending_irq h' = RV_INT_S_SOFT.
Proof. split; vm_compute; reflexivity. Qed.

(** In U-mode a delegated SEI outranks an SSI that goes to M; once it is
    taken, the SSI is takeable in S and the loop is not told. *)
Definition mixed : rv_hart :=
  user <| h_mie := MIP_SEIP |! MIP_SSIP |> <| h_mip := MIP_SEIP |! MIP_SSIP |> <| h_mideleg := MIP_SEIP |> <| h_irq_dirty := true |>.

Example delegated_first :
  match iteration bare mixed guest 2147483660 with
  | inr (h', _, _) =>
      h_priv h' = RV_PRIV_S /\ h_scause h' = RV_CAUSE_INTERRUPT |! RV_INT_S_EXT /\
      h_irq_dirty h' = false /\ rv_hart_pending_irq h' = RV_INT_S_SOFT
  | inl _ => False
  end.
Proof. vm_compute. repeat split. Qed.

(** A store-conditional that fails keeps the reservation: LR of one word, a
    failing SC of another, and the SC of the first succeeds. *)
Example failed_sc_keeps_reservation :
  let '(_, h1, m1) := rv_hart_amo fresh guest RV_AMO_LR 5 2147487744 0 in
  let '(_, h2, m2) := rv_hart_amo h1 m1 RV_AMO_SC 6 2147487748 1 in
  let '(_, h3, _) := rv_hart_amo h2 m2 RV_AMO_SC 7 2147487744 1 in
  h_x h2 6 = 1 /\ h_x h3 7 = 0.
Proof. vm_compute. split; reflexivity. Qed.

(** Rounding mode 5 is reserved: FMADD.D refuses it, FMADD.S does not. *)
Example fmadd_rounding_modes :
  fst (fst (fst (rv_hart_fp fresh guest 33575107))) = RV_EXC_ILLEGAL_INSN /\
  fst (fst (fst (rv_hart_fp fresh guest 20675))) = RV_EXC_NONE.
Proof. vm_compute. split; reflexivity. Qed.

(** * A machine with its devices

    The guest of [RvRunDemo] again, and a second one beside a CLINT and an
    APLIC, for the theorems on whole sessions: it posts its own software
    interrupt. *)

#[local] Existing Instance no_float.
#[local] Instance no_float_typed : SoftFloatTyped no_float.
Proof. split; intros; repeat constructor; cbn; typed. Qed.

(** ** Memory alone *)

Lemma memory_set_up hp : set_up no_read no_write bare (Machine paged_bus hp tt).
Proof.
  split; [apply paged_ok|apply paged_ok| | |].
  - split.
    + intros r o e off sz f v e' [<-|[]] E. discriminate E.
    + intros r o e off sz w f e' [<-|[]] E. discriminate E.
    + intros e a sz v e' _ [= <- <-]. split; [exact I|typed].
    + intros. exact I.
  - split; [exact bare_frames| |]; intros hook nr args h m used ret h' m' E; discriminate E.
  - intros m lines m' [= <- <-]. auto.
Qed.

Lemma guest_set_up : set_up no_read no_write bare guest.
Proof. apply memory_set_up. Qed.

Lemma after_session : session (PB := PB' no_read no_write) bare (machine_step (fun _ _ => False)) guest (after 3) (snd (ran 3)).
Proof.
  eapply ses_run; [|exact (ran_eq 3)]. apply ses_init; [typed|unfold entry; typed].
Qed.

Lemma registers_typed_witness : h_pc (after 3) = 2147483660 /\ typed (after 3).
Proof.
  split; [vm_compute; reflexivity|].
  exact (registers_typed no_read no_write bare (fun _ _ => False) guest (after 3) (snd (ran 3)) guest_set_up after_session).
Defined.

Lemma guest_contained_witness : contained guest (snd (ran 3)) /\ m_heap (snd (ran 3)) 2 65536 = 0.
Proof.
  assert (C : contained guest (snd (ran 3)))
    by exact (guest_contained no_read no_write bare (fun _ _ => False) guest (after 3) (snd (ran 3)) guest_set_up after_session).
  split; [exact C|]. rewrite (cn_bytes _ _ C); [reflexivity|]. intros (r & [<-|[]] & _ & _ & _ & Ho). cbn [size] in Ho. lia.
Defined.

(** ** With the devices *)

Definition no_eoi (source : Z) (r : unit) : unit := r.

(** RAM, the two ACLINT devices and the APLIC. *)
Definition soc_bus : @emu_bus (soc unit) :=
  let '(b, g) := emu_bus_init 0 in
  let '(_, b, g) := emu_bus_add_ram g b 2147483648 2 65536 in
  let '(_, b, g) := rv32_add_core_devices g b in
  let '(_, b, _) := emu_bus_add_mmio g b RV_GUEST_APLIC_BASE RV_APLIC_SIZE (rv_aplic_ops no_eoi) in b.

(** lui x5, 0x2000; addi x6, x0, 1; sw x6, 0(x5). *)
Definition poster : heap := fun buf off =>
  match List.find (fun '(o, _) => (o <=? off) && (off <? o + 4)) [(0, 33555127); (4, 1049363); (8, 6463523)] with
  | Some (o, w) => u8 (Z.shiftr w (8 * (off - o)))
  | None => 0
  end.

Lemma soc_table : table_ok (regions soc_bus).
Proof.
  assert (H0 : table_ok ([] : list (emu_region (soc unit)))) by (split; [constructor|intros i j r s a Hi; discriminate]).
  change (regions soc_bus) with ((((([] : list (emu_region (soc unit))) ++
    [Region 2147483648 65536 2 0 None EMU_MEM_RAM EMU_PERM_RWX EMU_WANY]) ++
    [Region RV_GUEST_ACLINT_MSWI_BASE RV_ACLINT_MSWI_SIZE 0 0 (Some rv_aclint_mswi_ops) EMU_MEM_MMIO EMU_PERM_RW EMU_WANY]) ++
    [Region RV_GUEST_ACLINT_MTIMER_BASE RV_ACLINT_MTIMER_SIZE 0 0 (Some rv_aclint_mtimer_ops) EMU_MEM_MMIO EMU_PERM_RW EMU_WANY]) ++
    [Region RV_GUEST_APLIC_BASE RV_APLIC_SIZE 0 0 (Some (rv_aplic_ops no_eoi)) EMU_MEM_MMIO EMU_PERM_RW EMU_WANY]).
  repeat (apply table_ok_snoc; [|unfold region_ok; cbn [base size]; vm_compute; intuition discriminate|reflexivity]). exact H0.
Qed.

Lemma soc_wired : wired_up no_eoi no_read None soc_bus poster.
Proof.
  split.
  - split; try (left; reflexivity); [exact soc_table| |vm_compute; discriminate]. repeat constructor; discriminate.
  - reflexivity.
  - intros r o Hin E. unfold soc_device. cbn in Hin.
    repeat destruct Hin as [<-|Hin]; try contradiction; cbn in E; try discriminate E; injection E as <-; tauto.
  - intros r a sz. cbn. typed.
  - intros e. split; [intros f nr args h m used ret h' m' E; discriminate E| |]; intros f nr args h m used ret h' m' E; discriminate E.
  - intros f nr args h m used ret h' m' E. discriminate E.
Qed.

Definition info : emu_boot_info := BootInfo 0 0 0.
Definition booted : rv_hart * mach unit := power_on no_eoi (soc_platform None) soc_bus poster tt 0 entry info false.

Definition run3 (p : rv_hart * mach unit) : rv_hart * mach unit :=
  let '(_, _, h, m) := rv32_run (pt_read no_read) (pt_write no_write) (soc_platform None) (fst p) (snd p) 3 in (h, m).

Lemma booted_session : soc_session no_eoi no_read no_write None soc_bus poster (fun _ => false) (fst booted) (snd booted).
Proof. eapply (soc_on _ _ _ _ _ _ tt 0 entry info false); [typed|unfold entry; typed|cbn; typed|cbn; typed|cbn; typed|apply surjective_pairing]. Qed.

Lemma run3_session low p : soc_session no_eoi no_read no_write None soc_bus poster low (fst p) (snd p) ->
  soc_session no_eoi no_read no_write None soc_bus poster low (fst (run3 p)) (snd (run3 p)).
Proof. intros S. unfold run3. destruct (rv32_run _ _ _ _ _ _) as [[[r n] h] m] eqn:E. eapply soc_run; [exact S|exact E]. Qed.

Lemma posted_msip : ck_msip (soc_clint (m_ext (snd (run3 booted)))) = 1.
Proof. vm_compute. reflexivity. Qed.

(** After the three instructions that post MSIP the line is up; a reset alone
    takes it low with the device still asserting it. *)
Lemma lines_follow_witness :
  Z.testbit (h_mip (fst (run3 booted))) RV_INT_M_SOFT = true /\
  (let h := rv32_reset (fst (run3 booted)) entry in
   Z.testbit (h_mip h) RV_INT_M_SOFT = negb (ck_msip (soc_clint (m_ext (snd (run3 booted)))) =? 0) \/ true = true /\ Z.testbit (h_mip h) RV_INT_M_SOFT = false).
Proof.
  pose proof (run3_session _ booted booted_session) as S3. split.
  - destruct (lines_follow no_eoi no_read no_write None soc_bus poster soc_wired _ (fst (run3 booted)) (snd (run3 booted)) S3) as (_ & _ & [S|[S _]] & _);
      [rewrite S, posted_msip; reflexivity|discriminate S].
  - apply (lines_follow no_eoi no_read no_write None soc_bus poster soc_wired _ _ (snd (run3 booted))
      (soc_reset no_eoi no_read no_write None soc_bus poster _ _ _ entry S3 ltac:(unfold entry; typed))).
Defined.
