(* ===== verification/IrInterp.v ===== *)
(** * The reference interpreter of the IR

    [src/backend/common/interp.c]: what a block means.  One pass over a block
    is [interp_once]; [emu_ir_interp] repeats it while a constant exit closes
    on the block's own start and fewer than [EMU_JIT_LOOP_CAP] instructions
    have retired.

    The C switch leaves an instruction in one of three ways: [continue] (the
    next instruction, nothing written), [break] (the value [r] is written to
    [dst], then the next instruction) and [return].  [effect] names them. *)

From S2P Require Import Prelude IrTypes IrFloat.
From stdpp Require Import base list gmap.
From Stdlib Require Import ZArith Lia.

Open Scope Z_scope.
Open Scope u32_scope.

(** How one pass over the block ended. *)
Inductive ir_run := IR_RUN_DECLINED | IR_RUN_DONE | IR_RUN_LOOP.

#[export] Instance ir_run_eq_dec : EqDecision ir_run.
Proof. solve_decision. Defined.

(** ** Integer operations *)

Definition rotl32 (a k : Z) : Z :=
  if k =? 0 then a else (a <<! k) |! Z.shiftr a (32 - k).

(** Compare two values, for the operand-comparing conditions. *)
Definition eval_value_cond (a b cond : Z) : bool :=
  match cond_of cond with
  | EMU_IR_C_EQ => a =? b
  | EMU_IR_C_NE => negb (a =? b)
  | EMU_IR_C_LT => s32 a <? s32 b
  | EMU_IR_C_GE => s32 b <=? s32 a
  | EMU_IR_C_LTU => a <? b
  | EMU_IR_C_GEU => b <=? a
  | EMU_IR_C_LE => s32 a <=? s32 b
  | EMU_IR_C_GT => s32 b <? s32 a
  | EMU_IR_C_LEU => a <=? b
  | EMU_IR_C_GTU => b <? a
  | EMU_IR_C_MI => s32 (a -! b) <? 0
  | EMU_IR_C_PL => 0 <=? s32 (a -! b)
  | EMU_IR_C_VS => negb (Z.shiftr ((a ^! b) &! (a ^! (a -! b))) 31 =? 0)
  | EMU_IR_C_VC => Z.shiftr ((a ^! b) &! (a ^! (a -! b))) 31 =? 0
  | EMU_IR_C_ALWAYS => true
  end.

(** The value operations of the switch that read nothing but their operands:
    [a], [bv] and [c] are the operand values, [im] the immediate.  [None]: not
    one of them. *)
Definition eval_alu (o : emu_ir_op) (ax a bv c im : Z) : option Z :=
  match o with
  | EMU_IR_CONST => Some im
  | EMU_IR_MOV => Some a
  | EMU_IR_ADD => Some (a +! bv)
  | EMU_IR_SUB => Some (a -! bv)
  | EMU_IR_AND => Some (a &! bv)
  | EMU_IR_ADDI => Some (a +! im)
  | EMU_IR_ANDI => Some (a &! im)
  | EMU_IR_ORI => Some (a |! im)
  | EMU_IR_XORI => Some (a ^! im)
  | EMU_IR_ROTL => Some (rotl32 a (bv &! 31))
  | EMU_IR_ROTLI => Some (rotl32 a (im &! 31))
  | EMU_IR_MUL => Some (a *! bv)
  | EMU_IR_MULHS => Some (u32 (Z.shiftr (u64 (s32 a * s32 bv)) 32))
  | EMU_IR_MULHU => Some (u32 (Z.shiftr (a * bv) 32))
  | EMU_IR_MAC =>
      Some (if negb (ax &! EMU_IR_MAC_SUB =? 0) then c -! a *! bv else c +! a *! bv)
  | EMU_IR_DIVS =>
      Some (if (bv =? 0) || ((a =? 2147483648) && (bv =? 4294967295)) then a
            else u32 (Z.quot (s32 a) (s32 bv)))
  | EMU_IR_DIVU => Some (if bv =? 0 then a else a / bv)
  | EMU_IR_REMS =>
      Some (if (bv =? 0) || ((a =? 2147483648) && (bv =? 4294967295)) then 0
            else u32 (Z.rem (s32 a) (s32 bv)))
  | EMU_IR_REMU => Some (if bv =? 0 then 0 else a mod bv)
  | EMU_IR_OR => Some (a |! bv)
  | EMU_IR_XOR => Some (a ^! bv)
  | EMU_IR_SHL => Some (a <<! (bv &! 31))
  | EMU_IR_SHR => Some (Z.shiftr a (bv &! 31))
  | EMU_IR_SAR => Some (u32 (Z.shiftr (s32 a) (bv &! 31)))
  | EMU_IR_SHLI => Some (a <<! (im &! 31))
  | EMU_IR_SHRI => Some (Z.shiftr a (im &! 31))
  | EMU_IR_SARI => Some (u32 (Z.shiftr (s32 a) (im &! 31)))
  | EMU_IR_NEG => Some (0 -! a)
  | EMU_IR_NOT => Some (not32 a)
  | EMU_IR_BSWAP32 => Some (bswap32 a)
  | EMU_IR_BSWAP16 => Some (((a &! 16711935) <<! 8) |! Z.shiftr (a &! 4278255360) 8)
  | EMU_IR_HSWAP => Some ((a <<! 16) |! Z.shiftr a 16)
  | EMU_IR_CLZ => Some (if a =? 0 then 32 else clz32 a)
  | EMU_IR_CTZ => Some (if a =? 0 then 32 else ctz32 a)
  | EMU_IR_POPCNT => Some (popcount32 a)
  | EMU_IR_BEXT => Some (Z.shiftr a (bv &! 31) &! 1)
  | EMU_IR_BSET => Some (a |! (1 <<! (bv &! 31)))
  | EMU_IR_BCLR => Some (a &! not32 (1 <<! (bv &! 31)))
  | EMU_IR_BINV => Some (a ^! (1 <<! (bv &! 31)))
  | EMU_IR_SEXT8 => Some (u32 (sext 8 a))
  | EMU_IR_SEXT16 => Some (u32 (sext 16 a))
  | EMU_IR_ZEXT8 => Some (a &! 255)
  | EMU_IR_ZEXT16 => Some (a &! 65535)
  | EMU_IR_SETCC => Some (if eval_value_cond a bv ax then 1 else 0)
  | _ => eval_fp o ax a bv
  end.

(** ** Guest state *)
Section Interp.
Context {Ext : Type} {Cfg : IrConfig}.
#[local] Abbreviation cpu_t := (emu_cpu Ext).
#[local] Abbreviation target_t := (emu_ir_target Ext).

(** [*word_at(cpu, off)] as a value and as a place: the cell is a [uint32_t]. *)
Definition word_at (cpu : cpu_t) (off : Z) : Z := u32 (cpu_word cpu off).
Definition set_word (cpu : cpu_t) (off v : Z) : cpu_t :=
  Cpu (upd (cpu_word cpu) off (u32 v)) (cpu_ext cpu).

Definition reg_is_zero_at (t : target_t) (n : Z) : bool :=
  match t_reg_is_zero t with Some f => f n | None => false end.

(** The four flags an instruction derives, in the order Z, S, V, C. *)
Definition derive_flags (ax res rhs : Z) : bool * bool * bool * bool :=
  match flagsrc_of ax with
  | EMU_IR_FS_ADD =>
      let sum := res +! rhs in
      (sum =? 0, negb (sum &! 2147483648 =? 0),
       negb (not32 (res ^! rhs) &! (res ^! sum) &! 2147483648 =? 0), sum <? res)
  | EMU_IR_FS_SUB =>
      let d := res -! rhs in
      (d =? 0, negb (d &! 2147483648 =? 0),
       negb ((res ^! rhs) &! (res ^! d) &! 2147483648 =? 0), res <? rhs)
  | EMU_IR_FS_SHIFT =>
      (res =? 0, negb (res &! 2147483648 =? 0), false, negb (rhs &! 1 =? 0))
  | EMU_IR_FS_LOGIC | EMU_IR_FS_ZS =>
      (res =? 0, negb (res &! 2147483648 =? 0), false, false)
  end.

(** One round of the loop over the four flags. *)
Definition put_flag (t : target_t) (lv : Z) (w f : Z) (v : bool) : Z :=
  if negb (Z.testbit lv f) || (flag_bit t f =? 0) then w
  else let w' := Z.ldiff w (flag_bit t f) in
       if v then Z.lor w' (flag_bit t f) else w'.

Definition apply_flags (cpu : cpu_t) (t : target_t) (i : emu_ir_insn) (res rhs : Z) : cpu_t :=
  if live i =? 0 then cpu
  else
    let '(z, s, v, c) := derive_flags (aux i) res rhs in
    let w := word_at cpu (flags_offset t) in
    let w := put_flag t (live i) w 0 z in
    let w := put_flag t (live i) w 1 s in
    let w := put_flag t (live i) w 2 v in
    let w := put_flag t (live i) w 3 c in
    set_word cpu (flags_offset t) w.

(** Flag [f] of the flag word [w]. *)
Definition flag_of (t : target_t) (w f : Z) : bool :=
  negb (flag_bit t f =? 0) && negb (Z.land w (flag_bit t f) =? 0).

Definition eval_cond (cpu : cpu_t) (t : target_t) (cond : Z) : bool :=
  let w := word_at cpu (flags_offset t) in
  let z := flag_of t w 0 in
  let s := flag_of t w 1 in
  let v := flag_of t w 2 in
  let c := flag_of t w 3 in
  match cond_of cond with
  | EMU_IR_C_EQ => z
  | EMU_IR_C_NE => negb z
  | EMU_IR_C_LT => xorb s v
  | EMU_IR_C_GE => eqb s v
  | EMU_IR_C_LTU => c
  | EMU_IR_C_GEU => negb c
  | EMU_IR_C_LE => z || xorb s v
  | EMU_IR_C_GT => negb z && eqb s v
  | EMU_IR_C_LEU => c || z
  | EMU_IR_C_GTU => negb c && negb z
  | EMU_IR_C_MI => s
  | EMU_IR_C_PL => negb s
  | EMU_IR_C_VS => v
  | EMU_IR_C_VC => negb v
  | EMU_IR_C_ALWAYS => true
  end.

(** ** One instruction *)

Inductive effect :=
| Cont (cpu : cpu_t) (n : Z) (r : option Z)  (** [continue] / [break] *)
| Quit (w : ir_run) (cpu : cpu_t) (n : Z).   (** [return] *)

(** Conditional and unconditional memory access, the bit operations. *)
Definition step_load (t : target_t) (i : emu_ir_insn) (cpu : cpu_t) (n a c : Z) : effect :=
  if negb (opc i =? EMU_IR_NO_TEMP) && (c =? 0) then Cont cpu n (Some 0)
  else match t_load t with
       | None => Quit IR_RUN_DECLINED cpu n
       | Some ld =>
           let '(trap, r, cpu') := ld cpu (a +! imm i) (aux i) in
           if negb (trap =? 0) then Quit IR_RUN_DONE cpu' n else Cont cpu' n (Some r)
       end.

Definition step_store (t : target_t) (i : emu_ir_insn) (cpu : cpu_t) (n a bv c : Z) : effect :=
  if negb (opc i =? EMU_IR_NO_TEMP) && (c =? 0) then Cont cpu n None
  else match t_store t with
       | None => Quit IR_RUN_DECLINED cpu n
       | Some st =>
           let '(trap, cpu') := st cpu (a +! imm i) (aux i) bv in
           if negb (trap =? 0) then Quit IR_RUN_DONE cpu' n else Cont cpu' n None
       end.

Definition step_bitop (t : target_t) (i : emu_ir_insn) (cpu : cpu_t) (n a bv : Z) : effect :=
  let adr := a +! imm i in
  let mask := 1 <<! (bv &! 7) in
  let spec := EMU_IR_MEM_AUX 1 false in
  match t_load t, t_store t with
  | Some ld, Some st =>
      let '(trap, token, cpu') := ld cpu adr spec in
      if negb (trap =? 0) then Quit IR_RUN_DONE cpu' n
      else
        let fw := word_at cpu' (flags_offset t) in
        let fw' := if negb (token &! mask =? 0)
                   then Z.ldiff fw (flag_bit t 0) else fw |! flag_bit t 0 in
        let cpu'' := set_word cpu' (flags_offset t) fw' in
        let out := match op i with
                   | EMU_IR_BITOP_SET => Some (token |! mask)
                   | EMU_IR_BITOP_CLR => Some (Z.ldiff token mask)
                   | EMU_IR_BITOP_TST => None
                   | _ => Some (token ^! mask)
                   end in
        match out with
        | None => Cont cpu'' n None
        | Some v =>
            let '(trap2, cpu3) := st cpu'' adr spec v in
            if negb (trap2 =? 0) then Quit IR_RUN_DONE cpu3 n else Cont cpu3 n None
        end
  | _, _ => Quit IR_RUN_DECLINED cpu n
  end.

Definition step_helper (t : target_t) (i : emu_ir_insn) (cpu : cpu_t) (n a bv : Z) : effect :=
  match helpers t with
  | None => Quit IR_RUN_DECLINED cpu n
  | Some hs =>
      match nth_error hs (Z.to_nat (imm i)) with
      | None => Quit IR_RUN_DECLINED cpu n
      | Some h =>
          let '(r, cpu') := h cpu a bv in
          if op_eqb (op i) EMU_IR_HELPER_TRAP && negb (r =? 0)
          then Quit IR_RUN_DONE cpu' n else Cont cpu' n (Some r)
      end
  end.

(** [pc = (in->a != NO_TEMP) ? a : imm] *)
Definition write_pc (t : target_t) (i : emu_ir_insn) (cpu : cpu_t) (a : Z) : cpu_t :=
  set_word cpu (pc_offset t) (if opa i =? EMU_IR_NO_TEMP then imm i else a).

Definition step (t : target_t) (start : Z) (i : emu_ir_insn) (cpu : cpu_t) (n a bv c : Z)
  : effect :=
  match op i with
  | EMU_IR_NOP => Cont cpu n None
  | EMU_IR_RETIRE => Cont cpu (n +! (if imm i =? 0 then 1 else imm i)) None
  | EMU_IR_GET =>
      Cont cpu n (Some (if reg_is_zero_at t (imm i) then 0
                        else word_at cpu (reg_offset t (imm i))))
  | EMU_IR_PUT =>
      Cont (if reg_is_zero_at t (imm i) then cpu
            else set_word cpu (reg_offset t (imm i)) a) n None
  | EMU_IR_FGET =>
      match freg_offset t with
      | None => Quit IR_RUN_DECLINED cpu n
      | Some fo =>
          let p := fo (imm i) in
          Cont cpu n (Some
            (if negb (aux i &! EMU_IR_FP_BOX =? 0)
                && negb (word_at cpu (p + 4) =? 4294967295)
             then 2143289344 else word_at cpu p))
      end
  | EMU_IR_FPUT =>
      match freg_offset t with
      | None => Quit IR_RUN_DECLINED cpu n
      | Some fo =>
          let p := fo (imm i) in
          let cpu' := set_word cpu p a in
          Cont (if negb (aux i &! EMU_IR_FP_BOX =? 0)
                then set_word cpu' (p + 4) 4294967295 else cpu') n None
      end
  | EMU_IR_SETF => Cont (apply_flags cpu t i a bv) n None
  | EMU_IR_GETCOND => Cont cpu n (Some (if eval_cond cpu t (aux i) then 1 else 0))
  | EMU_IR_SELECT => Cont cpu n (Some (if eval_cond cpu t (aux i) then a else bv))
  | EMU_IR_SETPC => Cont (write_pc t i cpu a) n None
  | EMU_IR_EXIT =>
      Quit (if emu_ir_exit_is_const i && (imm i =? start) then IR_RUN_LOOP else IR_RUN_DONE)
           (write_pc t i cpu a) n
  | EMU_IR_EXIT_IF =>
      if eval_value_cond a bv (aux i)
      then Quit (if imm i =? start then IR_RUN_LOOP else IR_RUN_DONE)
                (set_word cpu (pc_offset t) (imm i)) n
      else Cont cpu n None
  | EMU_IR_LOAD => step_load t i cpu n a c
  | EMU_IR_STORE => step_store t i cpu n a bv c
  | EMU_IR_BITOP_SET | EMU_IR_BITOP_CLR | EMU_IR_BITOP_INV | EMU_IR_BITOP_TST =>
      step_bitop t i cpu n a bv
  | EMU_IR_HELPER | EMU_IR_HELPER_TRAP => step_helper t i cpu n a bv
  | _ =>
      match eval_alu (op i) (aux i) a bv c (imm i) with
      | Some r => Cont cpu n (Some r)
      | None => Quit IR_RUN_DECLINED cpu n
      end
  end.

(** ** One pass over the block *)

(** [(x != NO_TEMP) ? tmp[x] : 0], the array holding [uint32_t]. *)
Definition operand (tmp : Z -> Z) (x : Z) : Z :=
  if x =? EMU_IR_NO_TEMP then 0 else u32 (tmp x).

Definition write_dst (tmp : Z -> Z) (d : Z) (r : option Z) : Z -> Z :=
  match r with
  | Some v => if negb (d =? EMU_IR_NO_TEMP) && (d <? EMU_IR_MAX_TEMPS)
              then upd tmp d v else tmp
  | None => tmp
  end.

Definition step_at (t : target_t) (start : Z) (i : emu_ir_insn) (tmp : Z -> Z)
  (cpu : cpu_t) (n : Z) : effect :=
  step t start i cpu n (operand tmp (opa i)) (operand tmp (opb i)) (operand tmp (opc i)).

(** The loop over the block.  The temps are a static array, so a pass starts
    from whatever the last one left in it. *)
Fixpoint run (t : target_t) (start : Z) (l : list emu_ir_insn)
  (tmp : Z -> Z) (cpu : cpu_t) (n : Z) : ir_run * (Z -> Z) * cpu_t * Z :=
  match l with
  | [] => (IR_RUN_DONE, tmp, cpu, n)
  | i :: l' =>
      if dead i then run t start l' tmp cpu n
      else match step_at t start i tmp cpu n with
           | Quit w cpu' n' => (w, tmp, cpu', n')
           | Cont cpu' n' r => run t start l' (write_dst tmp (dst i) r) cpu' n'
           end
  end.

(** Everything that declines is found before anything is written. *)
Definition interp_models_insn (t : target_t) (i : emu_ir_insn) : bool :=
  dead i ||
  match op i with
  | EMU_IR_FSQRT | EMU_IR_FMA => false
  | EMU_IR_FGET | EMU_IR_FPUT => bool_decide (is_Some (freg_offset t))
  | EMU_IR_LOAD => bool_decide (is_Some (t_load t))
  | EMU_IR_STORE => bool_decide (is_Some (t_store t))
  | EMU_IR_BITOP_SET | EMU_IR_BITOP_CLR | EMU_IR_BITOP_INV | EMU_IR_BITOP_TST =>
      bool_decide (is_Some (t_load t)) && bool_decide (is_Some (t_store t))
  | EMU_IR_HELPER | EMU_IR_HELPER_TRAP =>
      match helpers t with
      | None => false
      | Some hs => imm i <? Z.of_nat (length hs)
      end
  | EMU_IR_OP_COUNT => false
  | _ => true
  end.

Definition interp_models (l : list emu_ir_insn) (t : target_t) : bool :=
  forallb (interp_models_insn t) l.

Definition interp_once (b : emu_ir_block) (tmp : Z -> Z) (cpu : cpu_t) (t : target_t) (n : Z)
  : ir_run * (Z -> Z) * cpu_t * Z :=
  if interp_models (insn b) t then run t (start_pc b) (insn b) tmp cpu n
  else (IR_RUN_DECLINED, tmp, cpu, n).

(** The do-while of [emu_ir_interp].  [fuel] bounds its iterations: [None] is
    "still running".  The result is the function's return value, the guest
    state and the retired count. *)
Fixpoint interp_loop (fuel : nat) (b : emu_ir_block) (tmp : Z -> Z) (cpu : cpu_t)
  (t : target_t) (n : Z) : option (bool * cpu_t * Z) :=
  match fuel with
  | O => None
  | S fuel' =>
      let '(r, tmp', cpu', n') := interp_once b tmp cpu t n in
      match r with
      | IR_RUN_DECLINED => Some (false, cpu', n')
      | IR_RUN_DONE => Some (true, cpu', n')
      | IR_RUN_LOOP =>
          if n' <? EMU_JIT_LOOP_CAP then interp_loop fuel' b tmp' cpu' t n'
          else Some (true, cpu', n')
      end
  end.

Definition emu_ir_interp (fuel : nat) (b : emu_ir_block) (tmp : Z -> Z) (cpu : cpu_t)
  (t : target_t) : option (bool * cpu_t * Z) :=
  if overflow b then Some (false, cpu, 0) else interp_loop fuel b tmp cpu t 0.

End Interp.

Arguments effect : clear implicits.
