(* ===== verification/IrPasses.v ===== *)
(** * The optimiser

    The passes of [src/emu/emu_ir.c], in the order of the file, and
    [emu_ir_optimise].  A backward walk is a recursion that rewrites the tail
    first and returns the state of the walk above it; a forward walk carries
    its state; a pass that also marks earlier instructions dead
    ([pass_mac], [pass_fuse], [pass_merge_retire]) is a loop over positions
    of the array.  The arrays indexed by temp or guest register are total
    functions updated pointwise.  Each pass returns how much it did, the
    counters of [emu_ir_opt_stats_t]. *)

From S2P Require Import Prelude IrTypes IrInterp.
From stdpp Require Import base list gmap.
From Stdlib Require Import ZArith Lia.

Open Scope Z_scope.
Open Scope u32_scope.

Section Passes.
Context {Ext : Type} {Cfg : IrConfig}.
#[local] Abbreviation target_t := (emu_ir_target Ext).

(** [x != EMU_IR_NO_TEMP && x < EMU_IR_MAX_TEMPS] *)
Definition is_temp (x : Z) : bool := negb (x =? EMU_IR_NO_TEMP) && (x <? EMU_IR_MAX_TEMPS).

(** ** Dead flag elimination *)

Definition op_reads_flags (i : emu_ir_insn) : Z :=
  match op i with
  | EMU_IR_GETCOND | EMU_IR_SELECT | EMU_IR_EXIT_IF
  | EMU_IR_LOAD | EMU_IR_STORE
  | EMU_IR_BITOP_SET | EMU_IR_BITOP_CLR | EMU_IR_BITOP_INV | EMU_IR_BITOP_TST
  | EMU_IR_HELPER | EMU_IR_HELPER_TRAP => EMU_IR_F_ALL
  | _ => 0
  end.

(** The rewritten instructions, the flags live above them and how many SETFs
    were deleted. *)
Fixpoint pass_dead_flags (l : list emu_ir_insn) (live_out : Z) : list emu_ir_insn * Z * Z :=
  match l with
  | [] => ([], live_out, 0)
  | i :: l0 =>
      let '(l', lv, k) := pass_dead_flags l0 live_out in
      if dead i then (i :: l', lv, k)
      else if defs i =? 0 then (i :: l', Z.lor lv (op_reads_flags i), k)
      else
        let i' := set_live i (Z.land (defs i) lv) in
        if op_eqb (op i) EMU_IR_SETF && (live i' =? 0)
        then (set_dead i' true :: l', lv, k + 1)
        else (i' :: l', Z.lor (Z.ldiff lv (defs i)) (op_reads_flags i), k)
  end.

(** ** Guest register traffic *)

Definition IR_MAX_GUEST_REGS : Z := 64.

Definition reg_is_zero (ot : option target_t) (n : Z) : bool :=
  match ot with Some t => reg_is_zero_at t n | None => false end.

(** The first guest register below 64 that is the pc, or 64. *)
Definition pc_reg (ot : option target_t) : Z :=
  match ot with
  | None => IR_MAX_GUEST_REGS
  | Some t =>
      match t_reg_offset t with
      | None => IR_MAX_GUEST_REGS
      | Some ro =>
          match List.find (fun n => ro n =? pc_offset t)
                          (map Z.of_nat (seq 0 64)) with
          | Some n => n
          | None => IR_MAX_GUEST_REGS
          end
      end
  end.

(** [in->x = copy[in->x]] for a present operand. *)
Definition copy_operand (copy : Z -> Z) (x : Z) : Z := if is_temp x then copy x else x.

Definition copy_operands (copy : Z -> Z) (i : emu_ir_insn) : emu_ir_insn :=
  set_opc (set_opb (set_opa i (copy_operand copy (opa i))) (copy_operand copy (opb i)))
          (copy_operand copy (opc i)).

(** The switch of the forward walk: the instruction, the table of guest
    registers held in temps, and whether a GET was removed. *)
Definition traffic_insn (ot : option target_t) (pcr : Z) (i : emu_ir_insn) (cur : Z -> Z)
  : emu_ir_insn * (Z -> Z) * Z :=
  let tracked := (imm i <? IR_MAX_GUEST_REGS) && negb (reg_is_zero ot (imm i)) in
  match op i with
  | EMU_IR_GET =>
      if tracked then
        if negb (cur (imm i) =? EMU_IR_NO_TEMP)
        then (set_opa (set_op i EMU_IR_MOV) (cur (imm i)), cur, 1)
        else (i, upd cur (imm i) (dst i), 0)
      else (i, cur, 0)
  | EMU_IR_PUT => (i, if tracked then upd cur (imm i) (opa i) else cur, 0)
  | EMU_IR_HELPER | EMU_IR_HELPER_TRAP => (i, (fun _ => EMU_IR_NO_TEMP), 0)
  | EMU_IR_SETPC =>
      (i, if pcr <? IR_MAX_GUEST_REGS then upd cur pcr EMU_IR_NO_TEMP else cur, 0)
  | _ => (i, cur, 0)
  end.

Definition traffic_copy (i : emu_ir_insn) (copy : Z -> Z) : Z -> Z :=
  if op_eqb (op i) EMU_IR_MOV && is_temp (dst i) && negb (opa i =? EMU_IR_NO_TEMP)
  then upd copy (dst i) (opa i) else copy.

Fixpoint traffic_walk (ot : option target_t) (pcr : Z) (l : list emu_ir_insn)
  (cur copy : Z -> Z) : list emu_ir_insn * Z :=
  match l with
  | [] => ([], 0)
  | i :: l0 =>
      if dead i then let '(l', k) := traffic_walk ot pcr l0 cur copy in (i :: l', k)
      else
        let '(i', cur', g) := traffic_insn ot pcr (copy_operands copy i) cur in
        let '(l', k) := traffic_walk ot pcr l0 cur' (traffic_copy i' copy) in
        (i' :: l', g + k)
  end.

Definition pass_reg_traffic (l : list emu_ir_insn) (ot : option target_t)
  : list emu_ir_insn * Z :=
  traffic_walk ot (pc_reg ot) l (fun _ => EMU_IR_NO_TEMP) (fun x => x).

(** ** Dead guest register and pc writes *)

Definition reg_is_pc (t : target_t) (n : Z) : bool :=
  match t_reg_offset t with Some ro => ro n =? pc_offset t | None => false end.

Definition op_observes_state (o : emu_ir_op) : bool :=
  match o with
  | EMU_IR_LOAD | EMU_IR_STORE
  | EMU_IR_BITOP_SET | EMU_IR_BITOP_CLR | EMU_IR_BITOP_INV | EMU_IR_BITOP_TST
  | EMU_IR_HELPER | EMU_IR_HELPER_TRAP | EMU_IR_EXIT | EMU_IR_EXIT_IF => true
  | _ => false
  end.

(** One step of the backward walk: the instruction, then [seen] and
    [pc_rewritten] above it, then the PUTs and SETPCs removed. *)
Definition dead_puts_insn (ot : option target_t) (i : emu_ir_insn)
  (seen : Z -> bool) (pcw : bool) : emu_ir_insn * (Z -> bool) * bool * Z * Z :=
  match op i with
  | EMU_IR_PUT =>
      if imm i <? IR_MAX_GUEST_REGS then
        if seen (imm i) then (set_dead i true, seen, pcw, 1, 0)
        else (i, upd seen (imm i) true, pcw, 0, 0)
      else (i, seen, pcw, 0, 0)
  | EMU_IR_SETPC =>
      match ot with
      | None => (i, seen, pcw, 0, 0)
      | Some _ => if pcw then (set_dead i true, seen, pcw, 0, 1) else (i, seen, true, 0, 0)
      end
  | EMU_IR_GET =>
      (i, seen, match ot with
                | Some t => if reg_is_pc t (imm i) then false else pcw
                | None => pcw
                end, 0, 0)
  | o =>
      if op_observes_state o then
        (i, (fun _ => false),
         match o with
         | EMU_IR_EXIT => true
         | EMU_IR_EXIT_IF => pcw
         | _ => false
         end, 0, 0)
      else (i, seen, pcw, 0, 0)
  end.

Fixpoint dead_puts_walk (ot : option target_t) (l : list emu_ir_insn)
  : list emu_ir_insn * (Z -> bool) * bool * Z * Z :=
  match l with
  | [] => ([], (fun _ => false), false, 0, 0)
  | i :: l0 =>
      let '(l', seen, pcw, p, s) := dead_puts_walk ot l0 in
      if dead i then (i :: l', seen, pcw, p, s)
      else
        let '(i', seen', pcw', dp, ds) := dead_puts_insn ot i seen pcw in
        (i' :: l', seen', pcw', p + dp, s + ds)
  end.

Definition pass_dead_puts (l : list emu_ir_insn) (ot : option target_t)
  : list emu_ir_insn * Z * Z :=
  let '(l', _, _, p, s) := dead_puts_walk ot l in (l', p, s).

(** ** Dead values *)

Definition op_is_pure (o : emu_ir_op) : bool :=
  match o with
  | EMU_IR_GET | EMU_IR_CONST | EMU_IR_MOV | EMU_IR_ADD | EMU_IR_SUB | EMU_IR_AND
  | EMU_IR_OR | EMU_IR_XOR | EMU_IR_SHL | EMU_IR_SHR | EMU_IR_SAR | EMU_IR_ROTL
  | EMU_IR_MUL | EMU_IR_MULHS | EMU_IR_MULHU | EMU_IR_DIVS | EMU_IR_DIVU
  | EMU_IR_REMS | EMU_IR_REMU | EMU_IR_MAC | EMU_IR_ADDI | EMU_IR_ANDI | EMU_IR_ORI
  | EMU_IR_XORI | EMU_IR_SHLI | EMU_IR_SHRI | EMU_IR_SARI | EMU_IR_ROTLI
  | EMU_IR_NEG | EMU_IR_NOT | EMU_IR_BSWAP32 | EMU_IR_BSWAP16 | EMU_IR_HSWAP
  | EMU_IR_CLZ | EMU_IR_CTZ | EMU_IR_POPCNT | EMU_IR_BEXT | EMU_IR_BSET
  | EMU_IR_BCLR | EMU_IR_BINV | EMU_IR_SEXT8 | EMU_IR_SEXT16 | EMU_IR_ZEXT8
  | EMU_IR_ZEXT16 | EMU_IR_GETCOND | EMU_IR_SETCC | EMU_IR_SELECT | EMU_IR_FGET
  | EMU_IR_FSGNJ | EMU_IR_FCLASS => true
  | _ => false
  end.

Definition mark_used (used : Z -> bool) (x : Z) : Z -> bool :=
  if is_temp x then upd used x true else used.

Definition mark_operands (used : Z -> bool) (i : emu_ir_insn) : Z -> bool :=
  mark_used (mark_used (mark_used used (opa i)) (opb i)) (opc i).

Fixpoint dead_values_walk (l : list emu_ir_insn) : list emu_ir_insn * (Z -> bool) * Z :=
  match l with
  | [] => ([], (fun _ => false), 0)
  | i :: l0 =>
      let '(l', used, k) := dead_values_walk l0 in
      if dead i then (i :: l', used, k)
      else if op_is_pure (op i) && is_temp (dst i) && negb (used (dst i))
      then (set_dead i true :: l', used, k + 1)
      else (i :: l', mark_operands used i, k)
  end.

Definition pass_dead_values (l : list emu_ir_insn) : list emu_ir_insn * Z :=
  let '(l', _, k) := dead_values_walk l in (l', k).

(** ** Use counts and definition sites *)

Definition bump (cnt : Z -> Z) (x : Z) : Z -> Z :=
  if is_temp x && negb (cnt x =? 255) then upd cnt x (cnt x + 1) else cnt.

Definition bump_operands (cnt : Z -> Z) (i : emu_ir_insn) : Z -> Z :=
  bump (bump (bump cnt (opa i)) (opb i)) (opc i).

(** The scan both fusing passes start with, from position [k]. *)
Fixpoint scan_uses (l : list emu_ir_insn) (k : Z) (cnt def : Z -> Z) : (Z -> Z) * (Z -> Z) :=
  match l with
  | [] => (cnt, def)
  | i :: l0 =>
      if dead i then scan_uses l0 (k + 1) cnt def
      else scan_uses l0 (k + 1) (bump_operands cnt i)
                     (if is_temp (dst i) then upd def (dst i) (u16 k) else def)
  end.

Definition uses_and_defs (l : list emu_ir_insn) : (Z -> Z) * (Z -> Z) :=
  scan_uses l 0 (fun _ => 0) (fun _ => EMU_IR_NO_TEMP).

(** [b->insn[def[x]]] *)
Definition def_insn (l : list emu_ir_insn) (def : Z -> Z) (x : Z) : option emu_ir_insn :=
  l !! Z.to_nat (def x).

Definition kill_at (j : Z) (l : list emu_ir_insn) : list emu_ir_insn :=
  alter (fun i => set_dead i true) (Z.to_nat j) l.

(** [x] is a temp with one reader, defined by an instruction satisfying [P]. *)
Definition single_def (l : list emu_ir_insn) (cnt def : Z -> Z) (x : Z)
  (P : emu_ir_insn -> bool) : bool :=
  is_temp x && (cnt x =? 1) && negb (def x =? EMU_IR_NO_TEMP) &&
  match def_insn l def x with Some s => P s | None => false end.

(** ** Multiply-accumulate *)

Variable can_lower : emu_ir_op -> Z -> bool.

Definition mac_at (cnt def : Z -> Z) (j : nat) (st : list emu_ir_insn * Z)
  : list emu_ir_insn * Z :=
  let '(l, k) := st in
  match l !! j with
  | None => (l, k)
  | Some i =>
      if dead i then (l, k)
      else if op_eqb (op i) EMU_IR_ADD || op_eqb (op i) EMU_IR_SUB then
        let is_sub := op_eqb (op i) EMU_IR_SUB in
        let live_mul := fun s => op_eqb (op s) EMU_IR_MUL && negb (dead s) in
        let '(prod, addend) :=
          if single_def l cnt def (opb i) live_mul then (opb i, opa i)
          else if negb is_sub && single_def l cnt def (opa i) live_mul then (opa i, opb i)
          else (EMU_IR_NO_TEMP, EMU_IR_NO_TEMP) in
        let ax := if is_sub then EMU_IR_MAC_SUB else 0 in
        if negb (prod =? EMU_IR_NO_TEMP) && negb (addend =? EMU_IR_NO_TEMP)
           && can_lower EMU_IR_MAC ax
        then match def_insn l def prod with
             | None => (l, k)
             | Some mul =>
                 let i' := set_opc (set_opb (set_opa (set_aux (set_op i EMU_IR_MAC) ax)
                                                     (opa mul)) (opb mul)) addend in
                 (kill_at (def prod) (<[j := i']> l), k + 1)
             end
        else (l, k)
      else (l, k)
  end.

Definition pass_mac (l : list emu_ir_insn) : list emu_ir_insn * Z :=
  let '(cnt, def) := uses_and_defs l in
  fold_left (fun st j => mac_at cnt def j st) (seq 0 (length l)) (l, 0).

(** ** Fusion *)

(** The immediate form of an operation, or NOP. *)
Definition imm_form_of (o : emu_ir_op) : emu_ir_op :=
  match o with
  | EMU_IR_ADD => EMU_IR_ADDI
  | EMU_IR_AND => EMU_IR_ANDI
  | EMU_IR_OR => EMU_IR_ORI
  | EMU_IR_XOR => EMU_IR_XORI
  | EMU_IR_SHL => EMU_IR_SHLI
  | EMU_IR_SHR => EMU_IR_SHRI
  | EMU_IR_SAR => EMU_IR_SARI
  | EMU_IR_ROTL => EMU_IR_ROTLI
  | _ => EMU_IR_NOP
  end.

Definition op_commutes (o : emu_ir_op) : bool :=
  match o with
  | EMU_IR_ADD | EMU_IR_AND | EMU_IR_OR | EMU_IR_XOR => true
  | _ => false
  end.

Definition shift_imm_ok (o : emu_ir_op) (im : Z) : bool :=
  match o with
  | EMU_IR_SHLI | EMU_IR_SHRI | EMU_IR_SARI | EMU_IR_ROTLI => im <? 32
  | _ => true
  end.

(** A constant operand becomes an immediate. *)
Definition fuse_const (def : Z -> Z) (j : nat) (st : list emu_ir_insn * (Z -> Z) * Z)
  : list emu_ir_insn * (Z -> Z) * Z :=
  let '(l, cnt, k) := st in
  match l !! j with
  | None => st
  | Some i =>
      let iform := imm_form_of (op i) in
      if op_eqb iform EMU_IR_NOP then st
      else
        let is_const := fun s => op_eqb (op s) EMU_IR_CONST in
        let '(src, from_a) :=
          if single_def l cnt def (opb i) is_const then (opb i, false)
          else if op_commutes (op i) && single_def l cnt def (opa i) is_const
          then (opa i, true)
          else (EMU_IR_NO_TEMP, false) in
        if src =? EMU_IR_NO_TEMP then st
        else match def_insn l def src with
             | None => st
             | Some s =>
                 let kv := imm s in
                 if shift_imm_ok iform kv && can_lower iform (aux i) then
                   let i' := if from_a then set_opa i (opb i) else i in
                   let i'' := set_imm (set_opb (set_op i' iform) EMU_IR_NO_TEMP) kv in
                   (kill_at (def src) (<[j := i'']> l), upd cnt src 0, k + 1)
                 else st
             end
  end.

(** An ADDI feeding an access becomes its displacement. *)
Definition fuse_addr (cnt def : Z -> Z) (j : nat) (st : list emu_ir_insn * Z)
  : list emu_ir_insn * Z :=
  let '(l, k) := st in
  match l !! j with
  | None => st
  | Some i =>
      let is_addi := fun s => negb (dead s) && op_eqb (op s) EMU_IR_ADDI
                              && negb (opa s =? EMU_IR_NO_TEMP) in
      if (op_eqb (op i) EMU_IR_LOAD || op_eqb (op i) EMU_IR_STORE)
         && single_def l cnt def (opa i) is_addi
      then match def_insn l def (opa i) with
           | None => st
           | Some s =>
               (kill_at (def (opa i))
                        (<[j := set_opa (set_imm i (imm i +! imm s)) (opa s)]> l), k + 1)
           end
      else st
  end.

(** Arithmetic that computes its own input. *)
Definition identity_insn (i : emu_ir_insn) : emu_ir_insn * Z :=
  match op i with
  | EMU_IR_ADDI | EMU_IR_ORI | EMU_IR_XORI | EMU_IR_SHLI | EMU_IR_SHRI
  | EMU_IR_SARI | EMU_IR_ROTLI =>
      if (imm i =? 0) && negb (opa i =? EMU_IR_NO_TEMP)
      then (set_op i EMU_IR_MOV, 1) else (i, 0)
  | EMU_IR_ANDI =>
      if (imm i =? 4294967295) && negb (opa i =? EMU_IR_NO_TEMP)
      then (set_op i EMU_IR_MOV, 1)
      else if imm i =? 0 then (set_opa (set_op i EMU_IR_CONST) EMU_IR_NO_TEMP, 1)
      else (i, 0)
  | _ => (i, 0)
  end.

Definition fuse_identity (j : nat) (st : list emu_ir_insn * Z) : list emu_ir_insn * Z :=
  let '(l, k) := st in
  match l !! j with
  | None => st
  | Some i => let '(i', d) := identity_insn i in (<[j := i']> l, k + d)
  end.

(** The three counters of the pass: folded, addr_folded, identities. *)
Definition fuse_at (def : Z -> Z) (j : nat)
  (st : list emu_ir_insn * (Z -> Z) * (Z * Z * Z))
  : list emu_ir_insn * (Z -> Z) * (Z * Z * Z) :=
  let '(l, cnt, (kf, ka, ki)) := st in
  match l !! j with
  | None => st
  | Some i =>
      if dead i then st
      else
        let '(l1, cnt1, kf1) := fuse_const def j (l, cnt, kf) in
        let '(l2, ka1) := fuse_addr cnt1 def j (l1, ka) in
        let '(l3, ki1) := fuse_identity j (l2, ki) in
        (l3, cnt1, (kf1, ka1, ki1))
  end.

Definition pass_fuse (l : list emu_ir_insn) : list emu_ir_insn * (Z * Z * Z) :=
  let '(cnt, def) := uses_and_defs l in
  let '(l', _, ks) := fold_left (fun st j => fuse_at def j st) (seq 0 (length l))
                                (l, cnt, (0, 0, 0)) in
  (l', ks).

(** ** Merging retirements *)

(** [carry] is the position of the RETIRE whose count may still move down. *)
Definition retire_at (j : nat) (st : list emu_ir_insn * option nat * Z)
  : list emu_ir_insn * option nat * Z :=
  let '(l, carry, k) := st in
  match l !! j with
  | None => st
  | Some i =>
      if dead i then st
      else if op_eqb (op i) EMU_IR_RETIRE then
        let n := if imm i =? 0 then 1 else imm i in
        match carry with
        | Some c =>
            match l !! c with
            | Some ic =>
                (kill_at (Z.of_nat c) (<[j := set_imm i (n +! imm ic)]> l), Some j, k + 1)
            | None => st
            end
        | None => (<[j := set_imm i n]> l, Some j, k)
        end
      else if op_observes_state (op i) then (l, None, k)
      else st
  end.

Definition pass_merge_retire (l : list emu_ir_insn) : list emu_ir_insn * Z :=
  let '(l', _, k) := fold_left (fun st j => retire_at j st) (seq 0 (length l)) (l, None, 0) in
  (l', k).

(** ** Counting the surviving readers *)

Definition uses_of (cnt : Z -> Z) (i : emu_ir_insn) : Z :=
  if negb (dead i) && is_temp (dst i) then cnt (dst i) else 0.

Definition pass_count_uses (l : list emu_ir_insn) : list emu_ir_insn * Z :=
  let '(cnt, _) := uses_and_defs l in
  (map (fun i => set_uses i (uses_of cnt i)) l,
   Z.of_nat (length (List.filter (fun i => uses_of cnt i =? 1) l))).

(** ** The pipeline *)

Record emu_ir_opt_stats := Stats {
  single_use : Z; flags_removed : Z; gets_removed : Z; puts_removed : Z;
  setpcs_removed : Z; folded : Z; addr_folded : Z; identities : Z;
  macs : Z; dead_removed : Z; retires_merged : Z; blocks : Z
}.

Definition stats_zero : emu_ir_opt_stats := Stats 0 0 0 0 0 0 0 0 0 0 0 0.

(** [g_opt_totals] after one more block. *)
Definition add_totals (g s : emu_ir_opt_stats) : emu_ir_opt_stats :=
  Stats (single_use g +! single_use s) (flags_removed g +! flags_removed s)
        (gets_removed g +! gets_removed s) (puts_removed g +! puts_removed s)
        (setpcs_removed g +! setpcs_removed s) (folded g +! folded s)
        (addr_folded g +! addr_folded s) (identities g +! identities s)
        (macs g +! macs s) (dead_removed g +! dead_removed s)
        (retires_merged g +! retires_merged s) (blocks g +! 1).

Definition optimise_insns (l : list emu_ir_insn) (ot : option target_t) (live_out : Z)
  : list emu_ir_insn * emu_ir_opt_stats :=
  let '(l1, _, kflags) := pass_dead_flags l live_out in
  let '(l2, kgets) := pass_reg_traffic l1 ot in
  let '(l3, (kf, ka, ki)) := pass_fuse l2 in
  let '(l4, kputs, ksetpcs) := pass_dead_puts l3 ot in
  let '(l5, kdead) := pass_dead_values l4 in
  let '(l6, kmacs) := pass_mac l5 in
  let '(l7, kret) := pass_merge_retire l6 in
  let '(l8, ksingle) := pass_count_uses l7 in
  (l8, Stats ksingle kflags kgets kputs ksetpcs kf ka ki kmacs kdead kret 0).

(** The block, this block's statistics and the process totals. *)
Definition emu_ir_optimise (totals : emu_ir_opt_stats) (b : emu_ir_block)
  (ot : option target_t) (live_out : Z)
  : emu_ir_block * emu_ir_opt_stats * emu_ir_opt_stats :=
  if overflow b then (b, stats_zero, totals)
  else
    let '(l, st) := optimise_insns (insn b) ot live_out in
    (set_insn b l, st, add_totals totals st).

End Passes.
