(* ===== verification/IrSem.v ===== *)
(** * Reasoning about blocks: agreement, well-formedness, substitution

    The lemmas every pass is proved with.  [obs] is what a caller of the
    interpreter can see of one pass over a block: how it ended, the guest
    state and the retired count; the temps are not part of it.

    A block is well formed when each live instruction reads only temps an
    earlier live instruction wrote and writes a temp nothing wrote before it.
    That is what the builder produces ("a temp is written once by
    construction"), and what makes a pass over the block independent of the
    stale temps it starts from. *)

From S2P Require Import Prelude IrTypes IrFloat IrInterp IrPasses.
From stdpp Require Import base list gmap.
From Stdlib Require Import ZArith Lia.

Open Scope Z_scope.
Open Scope u32_scope.

(** ** Value operations *)

(** The operations that compute a value from their operands alone. *)
Definition is_alu (o : emu_ir_op) : bool :=
  match eval_alu o 0 0 0 0 0 with Some _ => true | None => false end.

Definition alu_value (i : emu_ir_insn) (a bv c : Z) : Z :=
  match eval_alu (op i) (aux i) a bv c (imm i) with Some v => v | None => 0 end.

(** Take apart an equation between a computed effect and a given one, one
    head test at a time. *)
Ltac effect_cases Hs :=
  first
    [ discriminate Hs
    | injection Hs; clear Hs; intros; subst
    | match type of Hs with
      | (match ?x with _ => _ end) = _ => destruct x eqn:?; effect_cases Hs
      end
    | idtac ].

Section Sem.
Context {Ext : Type} {Cfg : IrConfig}.
#[local] Abbreviation cpu_t := (emu_cpu Ext).
#[local] Abbreviation target_t := (emu_ir_target Ext).
Context (t : target_t) (start : Z).

Lemma step_alu i cpu n a bv c :
  is_alu (op i) = true ->
  step t start i cpu n a bv c = Cont cpu n (Some (alu_value i a bv c)).
Proof. unfold step, alu_value. destruct (op i); try discriminate; reflexivity. Qed.

(** ** Agreement of temps *)

Definition agree (P : gset Z) (tmp tmp' : Z -> Z) : Prop := forall x, x ∈ P -> tmp x = tmp' x.

Definition obs (r : ir_run * (Z -> Z) * cpu_t * Z) : ir_run * cpu_t * Z :=
  let '(w, _, cpu, n) := r in (w, cpu, n).

(** The operands of an instruction. *)
Definition reads (i : emu_ir_insn) : list Z :=
  List.filter (fun x => negb (x =? EMU_IR_NO_TEMP)) [opa i; opb i; opc i].

Definition wrote (i : emu_ir_insn) : gset Z :=
  if dead i then ∅ else if op_writes (op i) then {[dst i]} else ∅.

Fixpoint dsts (l : list emu_ir_insn) : gset Z :=
  match l with [] => ∅ | i :: l' => wrote i ∪ dsts l' end.

Lemma dsts_app l1 l2 : dsts (l1 ++ l2) = dsts l1 ∪ dsts l2.
Proof. induction l1; cbn; [set_solver|]. rewrite IHl1. set_solver. Qed.

Lemma reads_opa i : opa i <> EMU_IR_NO_TEMP -> In (opa i) (reads i).
Proof. intros Hne. unfold reads. apply filter_In. split; [cbn; auto|]. destruct (Z.eqb_spec (opa i) EMU_IR_NO_TEMP); auto. Qed.
Lemma reads_opb i : opb i <> EMU_IR_NO_TEMP -> In (opb i) (reads i).
Proof. intros Hne. unfold reads. apply filter_In. split; [cbn; auto|]. destruct (Z.eqb_spec (opb i) EMU_IR_NO_TEMP); auto. Qed.
Lemma reads_opc i : opc i <> EMU_IR_NO_TEMP -> In (opc i) (reads i).
Proof. intros Hne. unfold reads. apply filter_In. split; [cbn; auto|]. destruct (Z.eqb_spec (opc i) EMU_IR_NO_TEMP); auto. Qed.

Lemma operand_agree tmp tmp' x :
  (x <> EMU_IR_NO_TEMP -> tmp x = tmp' x) -> operand tmp x = operand tmp' x.
Proof. unfold operand. intros Hx. destruct (Z.eqb_spec x EMU_IR_NO_TEMP); [reflexivity|]. rewrite Hx; auto. Qed.

Lemma step_at_agree i tmp tmp' cpu n :
  (forall x, In x (reads i) -> tmp x = tmp' x) ->
  step_at t start i tmp cpu n = step_at t start i tmp' cpu n.
Proof.
  intros Hr. unfold step_at.
  rewrite (operand_agree tmp tmp' (opa i)), (operand_agree tmp tmp' (opb i)),
    (operand_agree tmp tmp' (opc i)); auto using reads_opa, reads_opb, reads_opc.
Qed.

(** An operation with no result leaves the temps alone, so [dst] matters only
    for the others. *)
Lemma step_no_value i cpu n a bv c cpu' n' r :
  op_writes (op i) = false ->
  step t start i cpu n a bv c = Cont cpu' n' r -> r = None.
Proof.
  unfold step, step_store, step_bitop. intros Hw Hs.
  destruct (op i); try discriminate Hw; effect_cases Hs; reflexivity.
Qed.

Lemma step_value i cpu n a bv c cpu' n' r :
  op_writes (op i) = true ->
  step t start i cpu n a bv c = Cont cpu' n' r -> exists v, r = Some v.
Proof.
  intros Hw Hs. destruct (is_alu (op i)) eqn:Ea.
  - rewrite step_alu in Hs by assumption. injection Hs as <- <- <-. eauto.
  - unfold step, step_load, step_helper in Hs.
    destruct (op i); try discriminate Hw; try discriminate Ea; cbn [eval_alu eval_fp] in Hs;
      effect_cases Hs; eauto.
Qed.

(** Writing the result the same way on both sides keeps agreement, and adds
    the destination to it. *)
Lemma write_dst_agree P tmp tmp' d r :
  agree P tmp tmp' -> agree P (write_dst tmp d r) (write_dst tmp' d r).
Proof.
  intros Ha x Hx. unfold write_dst. destruct r; [|auto].
  destruct (negb _ && _); [|auto]. unfold upd. destruct (x =? d); auto.
Qed.

Lemma write_dst_other tmp d r x : x <> d -> write_dst tmp d r x = tmp x.
Proof. intros. unfold write_dst. destruct r; [|reflexivity]. destruct (_ && _); [|reflexivity]. apply upd_ne; auto. Qed.

Lemma write_dst_eq tmp d v : is_temp d = true -> write_dst tmp d (Some v) d = v.
Proof. intros Hd. unfold write_dst. unfold is_temp in Hd. rewrite Hd. apply upd_eq. Qed.

Lemma step_at_dst i tmp cpu n cpu' n' r x :
  step_at t start i tmp cpu n = Cont cpu' n' r ->
  dead i = false -> x ∉ wrote i -> write_dst tmp (dst i) r x = tmp x.
Proof.
  intros Hs Hd Hx. unfold wrote in Hx. rewrite Hd in Hx. unfold step_at in Hs.
  destruct (op_writes (op i)) eqn:Hw.
  - apply write_dst_other. set_solver.
  - apply step_no_value in Hs; [|assumption]. subst r. reflexivity.
Qed.

(** ** Well-formed blocks *)

Definition wf_insn (D : gset Z) (i : emu_ir_insn) : Prop :=
  is_u32 (imm i) /\
  Forall (fun x => x ∈ D) (reads i) /\
  (if op_writes (op i) then is_temp (dst i) = true /\ 0 <= dst i /\ dst i ∉ D
   else dst i = EMU_IR_NO_TEMP).

Fixpoint wf (D : gset Z) (l : list emu_ir_insn) : Prop :=
  match l with
  | [] => True
  | i :: l' => (dead i = false -> wf_insn D i) /\ wf (D ∪ wrote i) l'
  end.

Lemma wf_app D l1 l2 : wf D (l1 ++ l2) <-> wf D l1 /\ wf (D ∪ dsts l1) l2.
Proof.
  revert D. induction l1 as [|i l1 IH]; intros D; cbn.
  - assert (D ∪ ∅ = D) as -> by set_solver. tauto.
  - rewrite IH. rewrite (assoc_L (∪)). tauto.
Qed.

(** The reads of a list of instructions, from the temps of [P]. *)
Fixpoint reads_in (P : gset Z) (l : list emu_ir_insn) : Prop :=
  match l with
  | [] => True
  | i :: l' =>
      (dead i = false ->
       Forall (fun x => x ∈ P) (reads i) /\ (op_writes (op i) = true -> is_temp (dst i) = true)) /\
      reads_in (P ∪ wrote i) l'
  end.

Lemma wf_reads_in D l : wf D l -> reads_in D l.
Proof.
  revert D. induction l as [|i l IH]; intros D; cbn; [auto|].
  intros [Hi Hl]. split; [|auto]. intros Hd. destruct (Hi Hd) as (_ & Hr & Hw).
  split; [assumption|]. intros E. rewrite E in Hw. apply Hw.
Qed.

(** ** Lockstep

    Two runs of the same instructions from temps that agree where they are
    read either end alike or reach what follows with the same guest state,
    temps that agree there and on what was written, and everything not
    written kept. *)
Lemma lockstep m : forall P tmp tmp' cpu n k k',
  reads_in P m -> agree P tmp tmp' ->
  (forall tmp1 tmp1' cpu1 n1,
      agree (P ∪ dsts m) tmp1 tmp1' ->
      (forall x, x ∉ dsts m -> tmp1 x = tmp x) ->
      (forall x, x ∉ dsts m -> tmp1' x = tmp' x) ->
      obs (run t start k tmp1 cpu1 n1) = obs (run t start k' tmp1' cpu1 n1)) ->
  obs (run t start (m ++ k) tmp cpu n) = obs (run t start (m ++ k') tmp' cpu n).
Proof.
  induction m as [|i m IH]; intros P tmp tmp' cpu n k k' Hr Ha Hk; cbn [app run].
  - apply Hk; auto. cbn. intros x Hx. apply Ha. set_solver.
  - destruct Hr as [Hi Hm]. destruct (dead i) eqn:Hd.
    + apply (IH P); auto.
      * unfold wrote in Hm. rewrite Hd in Hm. assert (P ∪ ∅ = P) as E by set_solver.
        rewrite E in Hm. assumption.
      * intros tmp1 tmp1' cpu1 n1 Ha1 H1 H1'. apply Hk; cbn; unfold wrote; rewrite Hd.
        -- intros x Hx. apply Ha1. set_solver.
        -- intros x Hx. apply H1. set_solver.
        -- intros x Hx. apply H1'. set_solver.
    + destruct (Hi eq_refl) as [Hi' Hit]. rewrite Forall_forall in Hi'.
      rewrite (step_at_agree i tmp tmp') by (intros x Hx; apply Ha, Hi', list_elem_of_In; assumption).
      destruct (step_at t start i tmp' cpu n) as [cpu' n' r|w cpu' n'] eqn:Hs; [|reflexivity].
      assert (Hs' : step_at t start i tmp cpu n = Cont cpu' n' r).
      { rewrite <- Hs. apply step_at_agree. intros x Hx. apply Ha, Hi', list_elem_of_In. assumption. }
      apply (IH (P ∪ wrote i)); auto.
      * intros x Hx. destruct (decide (x ∈ P)) as [|Hnp].
        -- apply (write_dst_agree P); assumption.
        -- assert (Hxw : x ∈ wrote i) by set_solver. unfold wrote in Hxw. rewrite Hd in Hxw.
           destruct (op_writes (op i)) eqn:Hw; [|set_solver]. apply elem_of_singleton in Hxw. subst x.
           destruct (step_value _ _ _ _ _ _ _ _ _ Hw Hs) as [v ->].
           rewrite !write_dst_eq by auto. reflexivity.
      * intros tmp1 tmp1' cpu1 n1 Ha1 H1 H1'. apply Hk; cbn.
        -- intros x Hx. apply Ha1. set_solver.
        -- intros x Hx. rewrite H1 by set_solver. eapply step_at_dst; eauto. set_solver.
        -- intros x Hx. rewrite H1' by set_solver. eapply step_at_dst; eauto. set_solver.
Qed.

(** A pass over a well-formed block does not depend on the stale temps. *)
Lemma run_independent l D tmp tmp' cpu n :
  wf D l -> agree D tmp tmp' ->
  obs (run t start l tmp cpu n) = obs (run t start l tmp' cpu n).
Proof.
  intros Hwf Ha. rewrite <- (app_nil_r l). apply (lockstep l D).
  - apply wf_reads_in. assumption.
  - assumption.
  - reflexivity.
Qed.

(** ** Counting readers *)

Fixpoint nreads (x : Z) (l : list emu_ir_insn) : nat :=
  match l with
  | [] => 0
  | i :: l' => (if dead i then 0 else count_occ Z.eq_dec (reads i) x) + nreads x l'
  end%nat.

Lemma nreads_app x l1 l2 : nreads x (l1 ++ l2) = (nreads x l1 + nreads x l2)%nat.
Proof. induction l1; cbn; lia. Qed.

Lemma not_read_Forall (P : gset Z) d i :
  Forall (fun x => x ∈ P ∪ {[d]}) (reads i) -> count_occ Z.eq_dec (reads i) d = 0%nat ->
  Forall (fun x => x ∈ P) (reads i).
Proof.
  rewrite !Forall_forall. intros Hf Hc x Hx. specialize (Hf x Hx).
  apply count_occ_not_In in Hc. apply list_elem_of_In in Hx.
  apply elem_of_union in Hf as [|Hf]; [assumption|]. apply elem_of_singleton in Hf. congruence.
Qed.

(** A definition nothing reads can go. *)
Lemma wf_drop d l : forall P, wf (P ∪ {[d]}) l -> nreads d l = 0%nat -> wf P l.
Proof.
  induction l as [|i l IH]; intros P; cbn; [auto|]. intros [Hi Hl] Hn.
  apply Nat.eq_add_0 in Hn as [Hn0 Hn]. split.
  - intros Hd. rewrite Hd in Hn0. destruct (Hi Hd) as (Him & Hr & Hw).
    split; [assumption|]. split; [apply (not_read_Forall P d); assumption|].
    destruct (op_writes (op i)); [|assumption]. destruct Hw as (Ht & H0 & Hf).
    repeat split; auto. set_solver.
  - apply IH; [|assumption]. replace (P ∪ wrote i ∪ {[d]}) with (P ∪ {[d]} ∪ wrote i) by set_solver.
    assumption.
Qed.

Lemma is_alu_writes o : is_alu o = true -> op_writes o = true.
Proof. destruct o; try discriminate; reflexivity. Qed.

(** After the same step the temps also agree on what it wrote. *)
Lemma write_dst_wrote P i i' tmp tmp' tmp0 cpu n cpu' n' r :
  step_at t start i' tmp0 cpu n = Cont cpu' n' r ->
  dead i' = dead i -> op_writes (op i') = op_writes (op i) ->
  (op_writes (op i) = true -> is_temp (dst i) = true) ->
  agree P tmp tmp' ->
  agree (P ∪ wrote i) (write_dst tmp (dst i) r) (write_dst tmp' (dst i) r).
Proof.
  intros Es Hd Hw Ht Ha x Hx. apply elem_of_union in Hx as [Hx|Hx].
  - apply (write_dst_agree P); assumption.
  - unfold wrote in Hx. destruct (dead i); [set_solver|].
    destruct (op_writes (op i)); [|set_solver]. apply elem_of_singleton in Hx. subst x.
    destruct (step_value _ _ _ _ _ _ _ _ _ Hw Es) as [v ->].
    rewrite !write_dst_eq by auto. reflexivity.
Qed.

(** ** Substituting a definition into its reader

    [D] computes a value from its operands, [U] is the only reader of it, and
    [U'] does what [U] does when [D]'s temp holds [D]'s value without reading
    that temp.  Then [D] can be deleted and [U] replaced by [U']. *)
Definition subst_ok (D U U' : emu_ir_insn) : Prop :=
  is_alu (op D) = true /\
  ~ In (dst D) (reads U') /\
  (forall x, In x (reads U') -> In x (reads U) \/ In x (reads D)) /\
  dst U' = dst U /\ op_writes (op U') = op_writes (op U) /\
  (forall tmp cpu n,
      u32 (tmp (dst D)) = u32 (alu_value D (operand tmp (opa D)) (operand tmp (opb D))
                                         (operand tmp (opc D))) ->
      step_at t start U tmp cpu n = step_at t start U' tmp cpu n).

Lemma wrote_live i : dead i = false -> op_writes (op i) = true -> wrote i = {[dst i]}.
Proof. unfold wrote. intros -> ->. reflexivity. Qed.

Lemma wrote_same i i' :
  dead i = dead i' -> op_writes (op i') = op_writes (op i) -> dst i' = dst i -> wrote i' = wrote i.
Proof. unfold wrote. intros -> -> ->. reflexivity. Qed.

Lemma wrote_dead i : wrote (set_dead i true) = ∅.
Proof. reflexivity. Qed.

(** What well-formedness says about a definition, what follows it and the
    reader. *)
Lemma wf_split pre D mid U post :
  wf ∅ (pre ++ D :: mid ++ U :: post) -> dead D = false -> dead U = false ->
  op_writes (op D) = true ->
  wf ∅ pre /\ wf_insn (dsts pre) D /\
  wf (dsts pre ∪ {[dst D]}) mid /\ wf_insn (dsts pre ∪ {[dst D]} ∪ dsts mid) U /\
  wf (dsts pre ∪ {[dst D]} ∪ dsts mid ∪ wrote U) post.
Proof.
  intros Hwf HD HU HwD. rewrite wf_app in Hwf. destruct Hwf as [Hpre Hwf].
  cbn [wf] in Hwf. destruct Hwf as [Hd Hwf].
  rewrite wf_app in Hwf. destruct Hwf as [Hmid Hwf]. cbn [wf] in Hwf. destruct Hwf as [Hu Hpost].
  rewrite wrote_live in Hmid, Hu, Hpost by assumption.
  assert (E : ∅ ∪ dsts pre = dsts pre) by set_solver. rewrite E in *.
  repeat split; auto; try (apply Hd; assumption); apply Hu; assumption.
Qed.

(** A temp already written is not written again. *)
Lemma wf_fresh x l : forall P, wf P l -> x ∈ P -> x ∉ dsts l.
Proof.
  induction l as [|i l IH]; intros P; cbn; [set_solver|]. intros [Hi Hl] Hx.
  apply not_elem_of_union. split.
  - unfold wrote. destruct (dead i) eqn:Hd; [set_solver|].
    destruct (Hi eq_refl) as (_ & _ & Hw). destruct (op_writes (op i)); [|set_solver].
    destruct Hw as (_ & _ & Hf). set_solver.
  - apply (IH (P ∪ wrote i)); [assumption|set_solver].
Qed.

Lemma operand_keep tmp tmp1 (S : gset Z) x :
  (forall y, y ∉ S -> tmp1 y = tmp y) -> (x <> EMU_IR_NO_TEMP -> x ∉ S) ->
  operand tmp1 x = operand tmp x.
Proof. intros Hk Hx. apply operand_agree. auto. Qed.

Theorem subst_correct pre D mid U U' post tmp tmp' cpu n :
  wf ∅ (pre ++ D :: mid ++ U :: post) ->
  dead D = false -> dead U = false -> dead U' = false ->
  nreads (dst D) mid = 0%nat -> nreads (dst D) post = 0%nat ->
  subst_ok D U U' ->
  obs (run t start (pre ++ D :: mid ++ U :: post) tmp cpu n) =
  obs (run t start (pre ++ set_dead D true :: mid ++ U' :: post) tmp' cpu n).
Proof.
  intros Hwf HD HU HU' Nmid Npost (Halu & Hnot & Hin & Hdst & Hwr & Hstep).
  pose proof (is_alu_writes _ Halu) as HwD.
  destruct (wf_split _ _ _ _ _ Hwf HD HU HwD) as (Wpre & WD & Wmid & WU & Wpost).
  destruct WD as (_ & RD & WD). rewrite HwD in WD. destruct WD as (TD & _ & FD).
  destruct WU as (_ & RU & WU). rewrite Forall_forall in RD, RU.
  apply (lockstep pre ∅); [apply wf_reads_in; assumption | set_solver |].
  intros tmp1 tmp1' cpu1 n1 A1 _ _. cbn [run dead set_dead]. rewrite HD.
  unfold step_at at 1. rewrite step_alu by assumption.
  set (v := alu_value D _ _ _).
  apply (lockstep mid (dsts pre)).
  { apply wf_reads_in. apply (wf_drop (dst D)); assumption. }
  { intros x Hx. rewrite write_dst_other by (intros ->; contradiction). apply A1. set_solver. }
  intros tmp2 tmp2' cpu2 n2 A2 K2 K2'. cbn [run]. rewrite HU, HU'.
  assert (Hkeep : forall x, In x (reads D) -> x ∉ dsts mid).
  { intros x Hx. apply (wf_fresh x mid _ Wmid). apply list_elem_of_In, RD in Hx. set_solver. }
  assert (Hmid : dst D ∉ dsts mid) by (apply (wf_fresh _ _ _ Wmid); set_solver).
  assert (Hsame : step_at t start U tmp2 cpu2 n2 = step_at t start U' tmp2' cpu2 n2).
  { rewrite Hstep.
    - apply step_at_agree. intros x Hx. apply A2. destruct (Hin x Hx) as [Hu|Hd].
      + apply list_elem_of_In, RU in Hu. assert (x <> dst D) by (intros ->; contradiction). set_solver.
      + apply list_elem_of_In, RD in Hd. set_solver.
    - rewrite K2, write_dst_eq by assumption. unfold v. do 2 f_equal;
        symmetry; apply (operand_keep _ _ (dsts mid ∪ {[dst D]}));
        intros; try (rewrite K2 by set_solver; apply write_dst_other; set_solver);
        apply not_elem_of_union; (split; [apply Hkeep; auto using reads_opa, reads_opb, reads_opc|]);
        rewrite elem_of_singleton; intros Heq; apply FD; rewrite <- Heq; apply RD, list_elem_of_In;
        auto using reads_opa, reads_opb, reads_opc. }
  rewrite Hsame. destruct (step_at t start U' tmp2' cpu2 n2) as [cpu3 n3 r|w cpu3 n3] eqn:Es; [|reflexivity].
  rewrite Hdst. apply (run_independent post (dsts pre ∪ dsts mid ∪ wrote U)).
  { apply (wf_drop (dst D)); [|assumption].
    replace (dsts pre ∪ dsts mid ∪ wrote U ∪ {[dst D]})
      with (dsts pre ∪ {[dst D]} ∪ dsts mid ∪ wrote U) by set_solver. assumption. }
  apply (write_dst_wrote (dsts pre ∪ dsts mid) U U') with (1 := Es); auto; [congruence|].
  intros E. rewrite E in WU. apply WU.
Qed.

End Sem.
