(* ===== verification/IrSubst.v ===== *)
(** * Position-based rewriting of a block

    [pass_fuse] and [pass_mac] walk the array and, at position [i], replace
    the instruction and mark an earlier one dead.  The use counts and
    definition sites they consult are taken once, before the walk; this file
    states what stays true of them ([tables_ok]) and proves one rewriting step
    correct. *)

From S2P Require Import Prelude IrTypes IrFloat IrInterp IrPasses IrSem.
From stdpp Require Import base list gmap.
From Stdlib Require Import ZArith Lia.

Open Scope Z_scope.
Open Scope u32_scope.

(** ** Lists as arrays *)

Lemma list_split_at {A} (l : list A) i x :
  l !! i = Some x -> exists pre post, l = pre ++ x :: post /\ length pre = i.
Proof.
  intros Hi. exists (take i l), (drop (S i) l). split.
  - symmetry. apply take_drop_middle. assumption.
  - apply length_take_le. apply lookup_lt_Some in Hi. lia.
Qed.

Lemma insert_middle {A} (pre post : list A) x y :
  <[length pre := y]> (pre ++ x :: post) = pre ++ y :: post.
Proof. rewrite <- (Nat.add_0_r (length pre)), insert_app_r. reflexivity. Qed.

Lemma alter_middle {A} (f : A -> A) (pre post : list A) x :
  alter f (length pre) (pre ++ x :: post) = pre ++ f x :: post.
Proof. rewrite <- (Nat.add_0_r (length pre)), alter_app_r. reflexivity. Qed.

Lemma kill_insert_split l j i D U U' :
  l !! j = Some D -> l !! i = Some U -> (j < i)%nat ->
  exists pre mid post,
    l = pre ++ D :: mid ++ U :: post /\ length pre = j /\
    i = (length pre + S (length mid))%nat /\
    kill_at (Z.of_nat j) (<[i := U']> l) = pre ++ set_dead D true :: mid ++ U' :: post.
Proof.
  intros Hj Hi Hlt.
  destruct (list_split_at l i U Hi) as (A & post & -> & HA).
  rewrite lookup_app_l in Hj by lia.
  destruct (list_split_at A j D Hj) as (pre & mid & -> & Hpre).
  exists pre, mid, post. split; [rewrite <- app_assoc; reflexivity|]. split; [assumption|].
  split; [rewrite length_app in HA; cbn in HA; lia|]. unfold kill_at. rewrite Nat2Z.id, <- HA.
  rewrite insert_middle, <- app_assoc. cbn [app]. rewrite <- Hpre.
  rewrite alter_middle. reflexivity.
Qed.

(** ** What a pass must keep of an instruction *)

(** Deleted, turned into a value operation, or the same operation on the same
    immediate (an access may change its displacement). *)
Definition keeps (i i' : emu_ir_insn) : Prop :=
  dead i' = true \/
  (dead i = false /\
   (is_alu (op i') = true \/
    (op i' = op i /\
     (op i = EMU_IR_LOAD \/ op i = EMU_IR_STORE \/ imm i' = imm i)))).

Lemma keeps_refl i : keeps i i.
Proof. unfold keeps. destruct (dead i); auto 10. Qed.

Lemma keeps_trans i1 i2 i3 : keeps i1 i2 -> keeps i2 i3 -> keeps i1 i3.
Proof.
  unfold keeps. intros [H12|(D1 & H12)] [H23|(D2 & H23)]; auto; [congruence|].
  right. split; [assumption|]. destruct H23 as [|[E23 I23]]; [auto|].
  destruct H12 as [A12|[E12 I12]].
  - left. congruence.
  - right. split; [congruence|]. rewrite E12 in I23. intuition congruence.
Qed.

#[export] Hint Resolve keeps_refl : ir.

Lemma Forall2_keeps_refl l : Forall2 keeps l l.
Proof. induction l; constructor; auto using keeps_refl. Qed.

Lemma Forall2_keeps_trans l1 l2 l3 :
  Forall2 keeps l1 l2 -> Forall2 keeps l2 l3 -> Forall2 keeps l1 l3.
Proof.
  intros H12. revert l3. induction H12; intros l3 H23; inversion H23; subst; constructor;
    eauto using keeps_trans.
Qed.

(** ** The instructions that touch guest registers and the pc *)

Definition skel_op (o : emu_ir_op) : bool :=
  match o with
  | EMU_IR_GET | EMU_IR_PUT | EMU_IR_HELPER | EMU_IR_HELPER_TRAP | EMU_IR_SETPC => true
  | _ => false
  end.

Fixpoint skel (l : list emu_ir_insn) : list (emu_ir_op * Z) :=
  match l with
  | [] => []
  | i :: l' => if negb (dead i) && skel_op (op i) then (op i, imm i) :: skel l' else skel l'
  end.

Lemma skel_app l1 l2 : skel (l1 ++ l2) = skel l1 ++ skel l2.
Proof. induction l1; cbn; [reflexivity|]. destruct (negb (dead a) && _); cbn; congruence. Qed.

Lemma is_alu_skel o : is_alu o = true -> skel_op o = false.
Proof. destruct o; try discriminate; reflexivity. Qed.

Section Subst.
Context {Ext : Type} {Cfg : IrConfig}.
#[local] Abbreviation target_t := (emu_ir_target Ext).
Context (t : target_t) (start : Z).

(** ** Equivalence of blocks *)

Definition blk_equiv (l l' : list emu_ir_insn) : Prop :=
  forall tmp tmp' cpu n, obs (run t start l tmp cpu n) = obs (run t start l' tmp' cpu n).

Lemma blk_equiv_refl l : wf ∅ l -> blk_equiv l l.
Proof. intros Hwf tmp tmp' cpu n. apply (run_independent t start l ∅); [assumption|set_solver]. Qed.

Lemma blk_equiv_trans l1 l2 l3 : blk_equiv l1 l2 -> blk_equiv l2 l3 -> blk_equiv l1 l3.
Proof. intros H12 H23 tmp tmp' cpu n. rewrite (H12 tmp tmp). apply H23. Qed.

(** ** The tables *)

Definition counts_ok (l : list emu_ir_insn) (cnt : Z -> Z) : Prop :=
  forall x, is_temp x = true -> cnt x <> 255 -> Z.of_nat (nreads x l) <= cnt x.

Definition sites_ok (l : list emu_ir_insn) (def : Z -> Z) : Prop :=
  forall j D, l !! j = Some D -> dead D = false -> op_writes (op D) = true ->
         def (dst D) = Z.of_nat j.

Definition tables_ok (def : Z -> Z) (l : list emu_ir_insn) (cnt : Z -> Z) : Prop :=
  wf ∅ l /\ counts_ok l cnt /\ sites_ok l def.

(** *** The scan computes such tables *)

Lemma bump_spec cnt y x :
  is_temp x = true -> cnt x <= 255 ->
  bump cnt y x = if Z.eq_dec y x then Z.min 255 (cnt x + 1) else cnt x.
Proof.
  intros Hx Hc. unfold bump. destruct (Z.eq_dec y x) as [->|Hne].
  - rewrite Hx. cbn [andb]. destruct (Z.eqb_spec (cnt x) 255) as [E|]; cbn [negb].
    + lia.
    + rewrite upd_eq. lia.
  - destruct (is_temp y && _); [|reflexivity]. apply upd_ne. auto.
Qed.

Lemma reads_count i x :
  x <> EMU_IR_NO_TEMP ->
  count_occ Z.eq_dec (reads i) x =
    ((if Z.eq_dec (opa i) x then 1 else 0) + (if Z.eq_dec (opb i) x then 1 else 0) +
     (if Z.eq_dec (opc i) x then 1 else 0))%nat.
Proof.
  intros Hx. unfold reads. cbn [List.filter].
  destruct (Z.eqb_spec (opa i) EMU_IR_NO_TEMP) as [Ea|Ea];
  destruct (Z.eqb_spec (opb i) EMU_IR_NO_TEMP) as [Eb|Eb];
  destruct (Z.eqb_spec (opc i) EMU_IR_NO_TEMP) as [Ec|Ec]; cbn [negb count_occ];
  repeat match goal with |- context [Z.eq_dec ?a ?b] => destruct (Z.eq_dec a b) end;
  congruence || reflexivity.
Qed.

Lemma is_temp_ne x : is_temp x = true -> x <> EMU_IR_NO_TEMP.
Proof. unfold is_temp. intros Hx. bool_hyps. assumption. Qed.

Lemma bump_operands_spec cnt i x :
  is_temp x = true -> cnt x <= 255 ->
  bump_operands cnt i x = Z.min 255 (cnt x + Z.of_nat (count_occ Z.eq_dec (reads i) x)).
Proof.
  intros Hx Hc. unfold bump_operands. rewrite reads_count by (apply is_temp_ne; assumption).
  assert (B : forall c y, c x <= 255 -> bump c y x <= 255).
  { intros c y Hcx. rewrite bump_spec by assumption. destruct (Z.eq_dec y x); lia. }
  rewrite !bump_spec by auto.
  destruct (Z.eq_dec (opa i) x), (Z.eq_dec (opb i) x), (Z.eq_dec (opc i) x); lia.
Qed.

Lemma scan_counts l : forall k cnt def x,
  is_temp x = true -> cnt x <= 255 ->
  fst (scan_uses l k cnt def) x = Z.min 255 (cnt x + Z.of_nat (nreads x l)).
Proof.
  induction l as [|i l IH]; intros k cnt def x Hx Hc; cbn [scan_uses nreads].
  - cbn. lia.
  - destruct (dead i); cbn [Nat.add]; [apply IH; assumption|].
    rewrite IH; rewrite ?bump_operands_spec by assumption; first [assumption | lia].
Qed.

Lemma scan_def_keep l : forall k cnt def x,
  x ∉ dsts l -> (forall i, In i l -> dead i = false -> op_writes (op i) = false -> dst i = EMU_IR_NO_TEMP) ->
  is_temp x = true -> snd (scan_uses l k cnt def) x = def x.
Proof.
  induction l as [|i l IH]; intros k cnt def x Hx Hn Ht; cbn [scan_uses]; [reflexivity|].
  cbn [dsts] in Hx. apply not_elem_of_union in Hx as [Hxi Hxl].
  assert (Hn' : forall i, In i l -> dead i = false -> op_writes (op i) = false -> dst i = EMU_IR_NO_TEMP)
    by (intros; apply Hn; cbn; auto).
  destruct (dead i) eqn:Hd; [apply IH; assumption|].
  rewrite IH by assumption. destruct (is_temp (dst i)) eqn:Hti; [|reflexivity].
  apply upd_ne. intros ->. unfold wrote in Hxi. rewrite Hd in Hxi.
  destruct (op_writes (op i)) eqn:Hw; [set_solver|].
  apply is_temp_ne in Hti. apply Hti, Hn; cbn; auto.
Qed.

Lemma wf_no_dst D l i :
  wf D l -> In i l -> dead i = false -> op_writes (op i) = false -> dst i = EMU_IR_NO_TEMP.
Proof.
  revert D. induction l as [|k l IH]; intros D; cbn; [tauto|].
  intros [Hk Hl] [->|Hi] Hd Hw.
  - destruct (Hk Hd) as (_ & _ & He). rewrite Hw in He. assumption.
  - eapply IH; eauto.
Qed.

Lemma scan_sites l : forall D k cnt def,
  wf D l -> 0 <= k -> k + Z.of_nat (length l) <= 65535 ->
  forall j i, l !! j = Some i -> dead i = false -> op_writes (op i) = true ->
  snd (scan_uses l k cnt def) (dst i) = k + Z.of_nat j.
Proof.
  induction l as [|i0 l IH]; intros D k cnt def Hwf Hk Hlen j i Hj Hd Hw; [discriminate|].
  cbn [scan_uses]. cbn [wf] in Hwf. destruct Hwf as [Hi0 Hl].
  assert (Hlen' : k + 1 + Z.of_nat (length l) <= 65535) by (cbn [length] in Hlen; lia).
  destruct j as [|j]; cbn in Hj.
  - injection Hj as ->. rewrite Hd. destruct (Hi0 Hd) as (_ & _ & Ht). rewrite Hw in Ht.
    destruct Ht as (Ht & _ & Hf). rewrite scan_def_keep; auto.
    + rewrite Ht, upd_eq. unfold u16. rewrite Z.mod_small by (cbn [length] in Hlen; lia). lia.
    + apply (wf_fresh _ _ _ Hl). rewrite wrote_live by assumption. set_solver.
    + intros i' Hi'. eapply wf_no_dst; eauto.
  - destruct (dead i0); erewrite (IH _ (k + 1)); eauto; lia.
Qed.

Lemma uses_and_defs_ok l cnt def :
  wf ∅ l -> Z.of_nat (length l) <= 65535 -> uses_and_defs l = (cnt, def) -> tables_ok def l cnt.
Proof.
  intros Hwf Hlen E. unfold uses_and_defs in E. split; [assumption|]. split.
  - intros x Hx Hc. pose proof (scan_counts l 0 (fun _ => 0) (fun _ => EMU_IR_NO_TEMP) x Hx ltac:(lia)) as Hs.
    rewrite E in Hs. cbn [fst] in Hs. lia.
  - intros j D Hj Hd Hw.
    pose proof (scan_sites l ∅ 0 (fun _ => 0) (fun _ => EMU_IR_NO_TEMP) Hwf ltac:(lia) ltac:(lia) j D Hj Hd Hw) as Hs.
    rewrite E in Hs. cbn [snd] in Hs. lia.
Qed.

(** *** The definition of a temp that is read *)

Lemma dsts_lookup x l : x ∈ dsts l ->
  exists j D, l !! j = Some D /\ dead D = false /\ op_writes (op D) = true /\ dst D = x.
Proof.
  induction l as [|i l IH]; cbn [dsts]; intros Hx; [set_solver|].
  apply elem_of_union in Hx as [Hx|Hx].
  - exists 0%nat, i. unfold wrote in Hx. destruct (dead i) eqn:Hd; [set_solver|].
    destruct (op_writes (op i)) eqn:Hw; [|set_solver]. apply elem_of_singleton in Hx. auto.
  - destruct (IH Hx) as (j & D & Hj & ?). exists (S j), D. auto.
Qed.

Lemma read_defined l i U x :
  wf ∅ l -> l !! i = Some U -> dead U = false -> In x (reads U) ->
  exists j D, (j < i)%nat /\ l !! j = Some D /\ dead D = false /\ op_writes (op D) = true /\ dst D = x
         /\ is_temp x = true.
Proof.
  intros Hwf Hi Hd Hx. destruct (list_split_at l i U Hi) as (pre & post & -> & Hlen).
  pose proof Hwf as Hwf'. rewrite wf_app in Hwf. destruct Hwf as [Hpre [HU _]].
  destruct (HU Hd) as (_ & HR & _). rewrite Forall_forall in HR.
  apply list_elem_of_In, HR in Hx. assert (Hxd : x ∈ dsts pre) by set_solver.
  destruct (dsts_lookup x pre Hxd) as (j & D & Hj & HdD & HwD & HD).
  exists j, D. pose proof (lookup_lt_Some _ _ _ Hj). rewrite lookup_app_l by lia.
  repeat split; auto; [lia|].
  destruct (list_split_at pre j D Hj) as (p1 & p2 & -> & _).
  rewrite wf_app in Hpre. destruct Hpre as [_ [HDwf _]]. destruct (HDwf HdD) as (_ & _ & Ht).
  rewrite HwD in Ht. rewrite <- HD. apply Ht.
Qed.

(** *** One rewriting step *)

Lemma wf_subst pre D mid U U' post :
  wf ∅ (pre ++ D :: mid ++ U :: post) ->
  dead D = false -> dead U = false -> dead U' = false ->
  nreads (dst D) mid = 0%nat -> nreads (dst D) post = 0%nat ->
  subst_ok t start D U U' -> is_u32 (imm U') ->
  wf ∅ (pre ++ set_dead D true :: mid ++ U' :: post).
Proof.
  intros Hwf HD HU HU' Nmid Npost (Halu & Hnot & Hin & Hdst & Hwr & _) Him.
  pose proof (is_alu_writes _ Halu) as HwD.
  destruct (wf_split _ _ _ _ _ Hwf HD HU HwD) as (Wpre & WD & Wmid & WU & Wpost).
  destruct WD as (_ & RD & WD), WU as (_ & RU & WU). rewrite Forall_forall in RD, RU.
  assert (HE : ∅ ∪ dsts pre ∪ wrote (set_dead D true) = dsts pre) by (rewrite wrote_dead; set_solver).
  rewrite wf_app. split; [assumption|]. cbn [wf]. split; [discriminate|]. rewrite HE.
  rewrite wf_app. split; [apply (wf_drop (dst D)); assumption|].
  cbn [wf]. rewrite (wrote_same U U') by congruence. split.
  - intros _. split; [assumption|]. split.
    + apply Forall_forall. intros x Hx. apply list_elem_of_In in Hx.
      assert (x <> dst D) by (intros ->; contradiction).
      destruct (Hin x Hx) as [Hu|Hd]; [apply list_elem_of_In, RU in Hu | apply list_elem_of_In, RD in Hd]; set_solver.
    + rewrite Hwr, Hdst. destruct (op_writes (op U)); [|assumption].
      destruct WU as (? & ? & ?). repeat split; auto. set_solver.
  - apply (wf_drop (dst D)); [|assumption].
    replace (dsts pre ∪ dsts mid ∪ wrote U ∪ {[dst D]})
      with (dsts pre ∪ {[dst D]} ∪ dsts mid ∪ wrote U) by set_solver. assumption.
Qed.

Lemma count_pos x (l : list Z) : In x l -> (0 < count_occ Z.eq_dec l x)%nat.
Proof. intros Hx. apply count_occ_In. assumption. Qed.

(** A surviving instruction writes the temp it wrote. *)
Definition same_site (i i' : emu_ir_insn) : Prop :=
  dead i' = false -> dead i = false /\ dst i' = dst i /\ op_writes (op i') = op_writes (op i).

Lemma same_site_refl l : Forall2 same_site l l.
Proof. induction l; constructor; [intros Hd; auto|assumption]. Qed.

Lemma sites_ok_same def l l' : sites_ok l def -> Forall2 same_site l l' -> sites_ok l' def.
Proof.
  intros Hs Hf j D Hj Hd Hw. destruct (Forall2_lookup_r _ _ _ _ _ Hf Hj) as (D0 & Hj0 & Hsame).
  destruct (Hsame Hd) as (Hd0 & Hdst & Hw0). rewrite Hdst. apply (Hs j D0); congruence.
Qed.

(** The result of a step is related to what it started from. *)
Definition step_rel (def : Z -> Z) (l l' : list emu_ir_insn) (cnt' : Z -> Z) : Prop :=
  tables_ok def l' cnt' /\ blk_equiv l l' /\ skel l' = skel l /\ Forall2 keeps l l'.

Lemma subst_step def l cnt cnt' i U U' D x :
  tables_ok def l cnt ->
  l !! i = Some U -> dead U = false -> In x (reads U) -> cnt x = 1 ->
  def_insn l def x = Some D ->
  (dead D = false -> dst D = x -> subst_ok t start D U U') ->
  dead U' = false -> is_u32 (imm U') ->
  skel_op (op U) = false -> skel_op (op U') = false -> keeps U U' ->
  (forall y, y <> x -> (count_occ Z.eq_dec (reads U') y <=
                   count_occ Z.eq_dec (reads U) y + count_occ Z.eq_dec (reads D) y)%nat) ->
  (forall y, y <> x -> cnt' y = cnt y) -> 0 <= cnt' x ->
  step_rel def l (kill_at (def x) (<[i := U']> l)) cnt'.
Proof.
  intros (Hwf & Hcnt & Hsite) Hi HU Hx Hc HDx Hsub HU' Him Sk Sk' Kp Hcount Hcnt' H0.
  destruct (read_defined l i U x Hwf Hi HU Hx) as (j & D0 & Hji & Hj & HD & HwD & HdD & Htx).
  pose proof (Hsite j D0 Hj HD HwD) as Hdef. rewrite HdD in Hdef.
  unfold def_insn in HDx. rewrite Hdef, Nat2Z.id, Hj in HDx. injection HDx as ->.
  specialize (Hsub HD HdD). subst x. rewrite Hdef.
  destruct (kill_insert_split l j i D U U' Hj Hi Hji) as (pre & mid & post & -> & Hpre & _ & ->).
  pose proof (Hcnt (dst D) Htx ltac:(lia)) as Hn.
  rewrite nreads_app in Hn. cbn [nreads] in Hn. rewrite nreads_app in Hn. cbn [nreads] in Hn.
  rewrite HD, HU in Hn. pose proof (count_pos _ _ Hx).
  assert (Nmid : nreads (dst D) mid = 0%nat) by lia.
  assert (Npost : nreads (dst D) post = 0%nat) by lia.
  assert (Npre : nreads (dst D) pre = 0%nat) by lia.
  assert (Nread : nreads (dst D) (pre ++ set_dead D true :: mid ++ U' :: post) = 0%nat).
  { rewrite nreads_app. cbn [nreads dead set_dead]. rewrite nreads_app. cbn [nreads]. rewrite HU'.
    destruct Hsub as (_ & Hnot & _). rewrite (proj1 (count_occ_not_In Z.eq_dec _ _) Hnot). lia. }
  pose proof Hsub as (Halu & _ & _ & Hdst & Hwr & _).
  repeat split.
  - apply (wf_subst pre D mid U U' post); assumption.
  - intros y Hy Hy255. destruct (Z.eq_dec y (dst D)) as [->|Hne]; [lia|].
    rewrite Hcnt' in Hy255 |- * by assumption. specialize (Hcnt y Hy Hy255). specialize (Hcount y Hne).
    rewrite nreads_app in Hcnt |- *. cbn [nreads dead set_dead] in Hcnt |- *.
    rewrite nreads_app in Hcnt |- *. cbn [nreads] in Hcnt |- *. rewrite HD, HU in Hcnt. rewrite HU'. lia.
  - apply (sites_ok_same def (pre ++ D :: mid ++ U :: post)); [assumption|].
    apply Forall2_app; [apply same_site_refl|]. constructor; [discriminate|].
    apply Forall2_app; [apply same_site_refl|]. constructor; [intros _; auto|apply same_site_refl].
  - intros tmp tmp' cpu n. apply subst_correct; assumption.
  - rewrite !skel_app. cbn [skel]. rewrite !skel_app. cbn [skel dead set_dead negb andb].
    rewrite Sk, Sk', !andb_false_r, (is_alu_skel _ Halu), andb_false_r. reflexivity.
  - apply Forall2_app; [apply Forall2_keeps_refl|]. constructor; [left; reflexivity|].
    apply Forall2_app; [apply Forall2_keeps_refl|]. constructor; [assumption|apply Forall2_keeps_refl].
Qed.

(** Replacing one instruction by another that means the same. *)
Lemma replace_step def l cnt i U U' :
  tables_ok def l cnt -> l !! i = Some U -> dead U = false -> dead U' = false ->
  dst U' = dst U -> op_writes (op U') = op_writes (op U) -> is_u32 (imm U') ->
  (forall y, (count_occ Z.eq_dec (reads U') y <= count_occ Z.eq_dec (reads U) y)%nat) ->
  skel_op (op U) = false -> skel_op (op U') = false -> keeps U U' ->
  (forall tmp cpu n, step_at t start U tmp cpu n = step_at t start U' tmp cpu n) ->
  step_rel def l (<[i := U']> l) cnt.
Proof.
  intros (Hwf & Hcnt & Hsite) Hi HU HU' Hdst Hwr Him Hcount Sk Sk' Kp Hstep.
  destruct (list_split_at l i U Hi) as (pre & post & -> & <-). rewrite insert_middle.
  assert (Hr : forall x, In x (reads U') -> In x (reads U)).
  { intros x Hx. apply (count_occ_In Z.eq_dec). apply count_pos in Hx. specialize (Hcount x). lia. }
  pose proof Hwf as Hwf0. rewrite wf_app in Hwf. destruct Hwf as [Wpre [WU Wpost]].
  destruct (WU HU) as (Wim & WR & Wd). rewrite Forall_forall in WR.
  assert (WU' : wf_insn (∅ ∪ dsts pre) U').
  { split; [assumption|]. split.
    - apply Forall_forall. intros x Hx. apply list_elem_of_In, Hr, list_elem_of_In, WR in Hx. assumption.
    - rewrite Hwr, Hdst. assumption. }
  assert (Hwf' : wf ∅ (pre ++ U' :: post)).
  { rewrite wf_app. split; [assumption|]. cbn [wf]. rewrite (wrote_same U U') by congruence. auto. }
  repeat split.
  - assumption.
  - intros y Hy Hy255. specialize (Hcnt y Hy Hy255). specialize (Hcount y).
    rewrite nreads_app in Hcnt |- *. cbn [nreads] in Hcnt |- *. rewrite HU in Hcnt. rewrite HU'. lia.
  - apply (sites_ok_same def (pre ++ U :: post)); [assumption|].
    apply Forall2_app; [apply same_site_refl|]. constructor; [intros _; auto|apply same_site_refl].
  - intros tmp tmp' cpu n.
    apply (lockstep t start pre ∅); [apply wf_reads_in; assumption|set_solver|].
    intros tmp1 tmp1' cpu1 n1 A1 _ _. cbn [run]. rewrite HU, HU', Hstep, Hdst.
    rewrite (step_at_agree t start U' tmp1 tmp1')
      by (intros x Hx; apply A1; apply Hr, list_elem_of_In, WR in Hx; assumption).
    destruct (step_at t start U' tmp1' cpu1 n1) as [cpu2 n2 r|] eqn:Es; [|reflexivity].
    apply (run_independent t start post (∅ ∪ dsts pre ∪ wrote U)); [assumption|].
    apply (write_dst_wrote t start (∅ ∪ dsts pre) U U') with (1 := Es); auto; [congruence|].
    intros E. rewrite E in Wd. apply Wd.
  - rewrite !skel_app. cbn [skel]. rewrite Sk, Sk', !andb_false_r. reflexivity.
  - apply Forall2_app; [apply Forall2_keeps_refl|]. constructor; [assumption|apply Forall2_keeps_refl].
Qed.

End Subst.
