(* ===== verification/IrFuse.v ===== *)
(** * [pass_fuse] and [pass_mac] preserve the meaning of a block

    Each rewrite the two passes can perform at a position is an instance of
    [subst_step] or [replace_step]; the walk composes them. *)

From S2P Require Import Prelude IrTypes IrFloat IrInterp IrPasses IrSem IrSubst.
From stdpp Require Import base list gmap.
From Stdlib Require Import ZArith Lia.

Open Scope Z_scope.
Open Scope u32_scope.

Section Fuse.
Context {Ext : Type} {Cfg : IrConfig}.
#[local] Abbreviation target_t := (emu_ir_target Ext).
Context (t : target_t) (start : Z).
Context (can_lower : emu_ir_op -> Z -> bool).
#[local] Abbreviation step_rel := (step_rel t start).

Lemma step_rel_refl def l cnt : tables_ok def l cnt -> step_rel def l l cnt.
Proof.
  intros Ht. split; [assumption|]. split; [apply blk_equiv_refl, Ht|].
  split; [reflexivity|apply Forall2_keeps_refl].
Qed.

Lemma step_rel_trans def l1 l2 l3 c2 c3 :
  step_rel def l1 l2 c2 -> step_rel def l2 l3 c3 -> step_rel def l1 l3 c3.
Proof.
  intros (_ & E12 & S12 & K12) (T3 & E23 & S23 & K23). split; [assumption|].
  split; [eapply blk_equiv_trans; eassumption|]. split; [congruence|].
  eapply Forall2_keeps_trans; eassumption.
Qed.

(** ** Facts about the reader and the definition *)

Lemma count_no_temp i : count_occ Z.eq_dec (reads i) EMU_IR_NO_TEMP = 0%nat.
Proof.
  apply count_occ_not_In. unfold reads. rewrite filter_In. intros [_ Hf]. discriminate Hf.
Qed.

Lemma reads_once def l cnt i U x :
  tables_ok def l cnt -> l !! i = Some U -> dead U = false -> is_temp x = true -> cnt x = 1 ->
  (count_occ Z.eq_dec (reads U) x <= 1)%nat.
Proof.
  intros (_ & Hc & _) Hi Hd Ht H1. specialize (Hc x Ht ltac:(lia)).
  destruct (list_split_at l i U Hi) as (pre & post & -> & _).
  rewrite nreads_app in Hc. cbn [nreads] in Hc. rewrite Hd in Hc. lia.
Qed.

Lemma reads_not_dst def l cnt j D x :
  tables_ok def l cnt -> l !! j = Some D -> dead D = false -> op_writes (op D) = true ->
  In x (reads D) -> x <> dst D.
Proof.
  intros (Hwf & _) Hj Hd Hw Hx ->. destruct (list_split_at l j D Hj) as (pre & post & -> & _).
  rewrite wf_app in Hwf. destruct Hwf as [_ [HD _]]. destruct (HD Hd) as (_ & HR & HW).
  rewrite Hw in HW. rewrite Forall_forall in HR. apply list_elem_of_In, HR in Hx. tauto.
Qed.

Lemma imm_u32 def l cnt j D :
  tables_ok def l cnt -> l !! j = Some D -> dead D = false -> is_u32 (imm D).
Proof.
  intros (Hwf & _) Hj Hd. destruct (list_split_at l j D Hj) as (pre & post & -> & _).
  rewrite wf_app in Hwf. destruct Hwf as [_ [HD _]]. apply (HD Hd).
Qed.

Lemma single_def_inv l cnt def x P :
  single_def l cnt def x P = true ->
  is_temp x = true /\ cnt x = 1 /\ exists D, def_insn l def x = Some D /\ P D = true.
Proof.
  unfold single_def. intros Hs. bool_hyps. destruct (def_insn l def x); [|discriminate].
  repeat split; auto. eauto.
Qed.

(** The definition site of a temp a live instruction reads is live. *)
Lemma def_live def l cnt i U x D :
  tables_ok def l cnt -> l !! i = Some U -> dead U = false -> In x (reads U) ->
  def_insn l def x = Some D -> dead D = false /\ dst D = x /\ l !! Z.to_nat (def x) = Some D.
Proof.
  intros Ht Hi HU Hx HD. pose proof Ht as (Hwf & _ & Hs).
  destruct (read_defined l i U x Hwf Hi HU Hx) as (j & D0 & _ & Hj & Hd0 & Hw0 & Hdst & _).
  pose proof (Hs j D0 Hj Hd0 Hw0) as Hdef. rewrite Hdst in Hdef.
  unfold def_insn in HD. rewrite Hdef, Nat2Z.id, Hj in HD. injection HD as ->.
  rewrite Hdef, Nat2Z.id. auto.
Qed.

Lemma operand_u32 tmp x : is_u32 (operand tmp x).
Proof. unfold operand. destruct (x =? _); [unfold is_u32; lia|apply u32_range]. Qed.

Lemma operand_temp tmp x : x <> EMU_IR_NO_TEMP -> operand tmp x = u32 (tmp x).
Proof. unfold operand. destruct (Z.eqb_spec x EMU_IR_NO_TEMP); [contradiction|reflexivity]. Qed.

Lemma in_reads i x : In x (reads i) <-> x <> EMU_IR_NO_TEMP /\ (x = opa i \/ x = opb i \/ x = opc i).
Proof.
  unfold reads. rewrite filter_In. cbn [In]. rewrite negb_true_iff, Z.eqb_neq. intuition.
Qed.

(** ** The immediate forms *)

Definition const_imm (U : emu_ir_insn) (from_a : bool) (k : Z) : emu_ir_insn :=
  set_imm (set_opb (set_op (if from_a then set_opa U (opb U) else U) (imm_form_of (op U)))
                   EMU_IR_NO_TEMP) k.

(** Every count of the goal, in terms of the operand slots. *)
Ltac count_slots y :=
  destruct (Z.eq_dec y EMU_IR_NO_TEMP) as [->|];
  [rewrite ?count_no_temp; lia|];
  rewrite ?reads_count by assumption;
  cbn [const_imm opa opb opc set_imm set_opb set_op set_opa set_opc set_aux];
  repeat match goal with |- context [Z.eq_dec ?a ?b] => destruct (Z.eq_dec a b) end;
  try lia; try congruence.

Lemma imm_form_alu o : imm_form_of o <> EMU_IR_NOP -> is_alu o = true /\ is_alu (imm_form_of o) = true.
Proof. destruct o; cbn; try contradiction; intros _; split; reflexivity. Qed.

Lemma imm_form_value U a k c :
  imm_form_of (op U) <> EMU_IR_NOP ->
  alu_value U a k c = alu_value (const_imm U false k) a 0 c.
Proof. unfold alu_value, const_imm. cbn. destruct (op U); cbn; try contradiction; reflexivity. Qed.

Lemma imm_form_value_comm U b k c :
  op_commutes (op U) = true ->
  alu_value U k b c = alu_value (const_imm U true k) b 0 c.
Proof.
  unfold alu_value, const_imm. cbn.
  destruct (op U); cbn; try discriminate; intros _;
    rewrite ?(Z.add_comm k), ?(Z.land_comm k), ?(Z.lor_comm k), ?(Z.lxor_comm k); reflexivity.
Qed.

Lemma const_imm_subst U D (from_a : bool) :
  imm_form_of (op U) <> EMU_IR_NOP -> op D = EMU_IR_CONST -> is_u32 (imm D) ->
  (from_a = true -> op_commutes (op U) = true) ->
  dst D <> EMU_IR_NO_TEMP -> dst D = (if from_a then opa U else opb U) ->
  (count_occ Z.eq_dec (reads U) (dst D) <= 1)%nat ->
  subst_ok t start D U (const_imm U from_a (imm D)).
Proof.
  intros Hf HD Hk Hcomm Hne Hdst Honce. destruct (imm_form_alu _ Hf) as [Ha Ha'].
  rewrite reads_count in Honce by assumption.
  split; [rewrite HD; reflexivity|]. split.
  { rewrite in_reads. destruct from_a; cbn; intros [_ [E|[E|E]]]; try congruence;
      rewrite <- E, Hdst in Honce;
      repeat (destruct Z.eq_dec in Honce; try congruence); lia. }
  split.
  { intros x. rewrite !in_reads. destruct from_a; cbn; tauto. }
  split; [destruct from_a; reflexivity|]. split.
  { rewrite (is_alu_writes _ Ha). destruct from_a; apply is_alu_writes; assumption. }
  intros tmp cpu n Hv. unfold step_at.
  rewrite !step_alu by (try assumption; destruct from_a; assumption). do 2 f_equal.
  assert (Ek : operand tmp (dst D) = imm D).
  { rewrite operand_temp, Hv by assumption. unfold alu_value. rewrite HD. cbn. apply u32_id. assumption. }
  destruct from_a; rewrite <- Hdst, Ek; cbn [opa opb opc const_imm set_imm set_opb set_op set_opa].
  - rewrite imm_form_value_comm by auto. reflexivity.
  - rewrite imm_form_value by assumption. reflexivity.
Qed.

Lemma fuse_const_step def j l cnt k l' cnt' k' U :
  tables_ok def l cnt -> l !! j = Some U -> dead U = false ->
  fuse_const can_lower def j (l, cnt, k) = (l', cnt', k') ->
  step_rel def l l' cnt' /\ exists U', l' !! j = Some U' /\ dead U' = false.
Proof.
  intros Ht Hj HU. unfold fuse_const. rewrite Hj.
  assert (Hid : forall c, c = cnt -> step_rel def l l c /\ exists U', l !! j = Some U' /\ dead U' = false)
    by (intros c ->; split; [apply step_rel_refl; assumption|eauto]).
  destruct (op_eqb_spec (imm_form_of (op U)) EMU_IR_NOP) as [|Hf];
    [intros [= <- <- <-]; auto|].
  match goal with |- (let '(_, _) := ?p in _) = _ -> _ => destruct p as [src from_a] eqn:Es end.
  destruct (Z.eqb_spec src EMU_IR_NO_TEMP) as [|Hne]; [intros [= <- <- <-]; auto|].
  destruct (def_insn l def src) as [D|] eqn:HD; [|intros [= <- <- <-]; auto].
  destruct (shift_imm_ok _ _ && _); [|intros [= <- <- <-]; auto]. intros [= <- <- <-].
  assert (Hsrc : is_temp src = true /\ cnt src = 1 /\ op D = EMU_IR_CONST /\
                 src = (if from_a then opa U else opb U) /\
                 (from_a = true -> op_commutes (op U) = true)).
  { destruct (single_def l cnt def (opb U) _) eqn:Eb.
    - injection Es as <- <-. apply single_def_inv in Eb as (? & ? & D' & HD' & HP).
      rewrite HD in HD'. injection HD' as <-. destruct (op_eqb_spec (op D) EMU_IR_CONST); easy.
    - destruct (op_commutes (op U)) eqn:Ec; cbn [andb] in Es; [|congruence].
      destruct (single_def l cnt def (opa U) _) eqn:Ea; [|congruence].
      injection Es as <- <-. apply single_def_inv in Ea as (? & ? & D' & HD' & HP).
      rewrite HD in HD'. injection HD' as <-. destruct (op_eqb_spec (op D) EMU_IR_CONST); easy. }
  destruct Hsrc as (Hts & H1 & HopD & Hsrc & Hcomm).
  assert (Hx : In src (reads U)) by (apply in_reads; destruct from_a; auto).
  destruct (def_live def l cnt j U src D Ht Hj HU Hx HD) as (HdD & HdstD & HjD).
  destruct (imm_form_alu _ Hf) as [Ha Ha']. change (set_imm _ (imm D)) with (const_imm U from_a (imm D)).
  pose proof (imm_u32 _ _ _ _ _ Ht HjD HdD) as HuD.
  assert (HdU : dead (const_imm U from_a (imm D)) = false) by (destruct from_a; assumption).
  split.
  - eapply subst_step with (U := U) (D := D); try eassumption; auto.
    + intros _ _. apply const_imm_subst; try assumption; try congruence.
      rewrite HdstD. apply (reads_once def l cnt j); assumption.
    + apply is_alu_skel. assumption.
    + apply is_alu_skel. destruct from_a; assumption.
    + right. split; [assumption|]. left. destruct from_a; assumption.
    + intros y Hy. destruct from_a; count_slots y.
    + intros y Hy. apply upd_ne. assumption.
    + rewrite upd_eq. lia.
  - exists (const_imm U from_a (imm D)). split; [|assumption].
    unfold kill_at. rewrite list_lookup_alter_ne.
    + apply list_lookup_insert_eq. apply lookup_lt_Some in Hj. assumption.
    + intros E. rewrite E, Hj in HjD. injection HjD as ->. rewrite HopD in Hf. contradiction.
Qed.

(** ** Displacements *)

Definition addr_insn (U D : emu_ir_insn) : emu_ir_insn :=
  set_opa (set_imm U (imm U +! imm D)) (opa D).

Lemma addr_subst U D :
  (op U = EMU_IR_LOAD \/ op U = EMU_IR_STORE) -> op D = EMU_IR_ADDI ->
  dst D <> EMU_IR_NO_TEMP -> dst D = opa U -> opa D <> EMU_IR_NO_TEMP -> opa D <> dst D ->
  (count_occ Z.eq_dec (reads U) (dst D) <= 1)%nat ->
  subst_ok t start D U (addr_insn U D).
Proof.
  intros Hop HD Hne Hdst HaD Hfresh Honce. rewrite reads_count in Honce by assumption.
  split; [rewrite HD; reflexivity|]. split.
  { rewrite in_reads. cbn. intros [_ [E|[E|E]]]; [congruence| |]; rewrite E in Hdst;
      repeat (destruct Z.eq_dec in Honce; try congruence); lia. }
  split.
  { intros x. rewrite !in_reads. cbn. tauto. }
  split; [reflexivity|]. split; [reflexivity|].
  intros tmp cpu n Hv.
  assert (Ea : operand tmp (opa U) +! imm U = operand tmp (opa D) +! (imm U +! imm D)).
  { rewrite <- Hdst, operand_temp, Hv by assumption. unfold alu_value. rewrite HD. cbn [eval_alu].
    autorewrite with wordrw. f_equal. lia. }
  unfold step_at, step, step_load, step_store.
  cbn [addr_insn opa opb opc op aux imm set_imm set_opa].
  destruct Hop as [-> | ->]; rewrite Ea; reflexivity.
Qed.

Lemma kill_lookup_other (l : list emu_ir_insn) j U' (d : Z) D :
  (j < length l)%nat -> l !! Z.to_nat d = Some D -> Z.to_nat d <> j ->
  kill_at d (<[j := U']> l) !! j = Some U'.
Proof.
  intros Hlt _ Hne. unfold kill_at. rewrite list_lookup_alter_ne by assumption.
  apply list_lookup_insert_eq. assumption.
Qed.

Lemma fuse_addr_step def j l cnt k l' k' U :
  tables_ok def l cnt -> l !! j = Some U -> dead U = false ->
  fuse_addr cnt def j (l, k) = (l', k') ->
  step_rel def l l' cnt /\ exists U', l' !! j = Some U' /\ dead U' = false.
Proof.
  intros Ht Hj HU. unfold fuse_addr. rewrite Hj.
  assert (Hid : step_rel def l l cnt /\ exists U', l !! j = Some U' /\ dead U' = false)
    by (split; [apply step_rel_refl; assumption|eauto]).
  destruct (_ && single_def _ _ _ _ _) eqn:Hc; [|intros [= <- <-]; auto].
  apply andb_true_iff in Hc as [Hop Hs]. apply single_def_inv in Hs as (Hts & H1 & D & HD & HP).
  rewrite HD. intros [= <- <-]. bool_hyps.
  assert (Hop' : op U = EMU_IR_LOAD \/ op U = EMU_IR_STORE).
  { apply orb_true_iff in Hop as [E|E]; revert E;
      [destruct (op_eqb_spec (op U) EMU_IR_LOAD)|destruct (op_eqb_spec (op U) EMU_IR_STORE)]; auto; discriminate. }
  destruct (op_eqb_spec (op D) EMU_IR_ADDI) as [HopD|]; [|discriminate].
  assert (Hx : In (opa U) (reads U)) by (apply reads_opa, is_temp_ne; assumption).
  destruct (def_live def l cnt j U _ D Ht Hj HU Hx HD) as (HdD & HdstD & HjD).
  change (set_opa _ (opa D)) with (addr_insn U D).
  pose proof (is_temp_ne _ Hts) as Hne.
  split.
  - eapply subst_step with (U := U) (D := D); try eassumption; auto; try lia.
    + intros _ _. apply addr_subst; auto; try congruence.
      * eapply (reads_not_dst def l cnt _ D); eauto; [rewrite HopD; reflexivity|].
        apply reads_opa. assumption.
      * rewrite HdstD. apply (reads_once def l cnt j); assumption.
    + apply u32_range.
    + destruct Hop' as [-> | ->]; reflexivity.
    + destruct Hop' as [E|E]; cbn; rewrite E; reflexivity.
    + right. split; [assumption|]. right. split; [reflexivity|]. tauto.
    + intros y Hy. unfold addr_insn. count_slots y.
  - exists (addr_insn U D). split; [|assumption].
    eapply kill_lookup_other; [apply lookup_lt_Some in Hj; assumption|eassumption|].
    intros E. rewrite E, Hj in HjD. injection HjD as ->. destruct Hop' as [E'|E']; rewrite E' in HopD; discriminate.
Qed.

(** ** Identities *)

Lemma u32_s32 a : is_u32 a -> u32 (s32 a) = a.
Proof.
  intros Ha. unfold s32, sext. change (2 ^ (32 - 1)) with 2147483648.
  unfold u32. rewrite Zminus_mod_idemp_l.
  replace (a + 2147483648 - 2147483648) with a by lia. apply u32_id. assumption.
Qed.

Lemma land_all_ones a : is_u32 a -> Z.land a 4294967295 = a.
Proof. intros Ha. change 4294967295 with (Z.ones 32). rewrite Z.land_ones by lia. apply u32_id. assumption. Qed.

Lemma identity_value i i' d tmp cpu n :
  identity_insn i = (i', d) ->
  step_at t start i tmp cpu n = step_at t start i' tmp cpu n.
Proof.
  unfold identity_insn. intros E. pose proof (operand_u32 tmp (opa i)) as Ha.
  destruct (op i) eqn:Hop; try (injection E as <- <-; reflexivity);
    repeat match type of E with
    | (if ?b then _ else _) = _ => destruct b eqn:?
    end; injection E as <- <-; try reflexivity; bool_hyps;
    unfold step_at; rewrite !step_alu by (cbn; rewrite ?Hop; reflexivity);
    unfold alu_value; cbn [op aux imm opa opb opc set_op set_opa]; rewrite Hop; cbn [eval_alu];
    repeat match goal with H : imm i = _ |- _ => rewrite H end;
    cbn [Z.land rotl32 Z.eqb]; rewrite ?Z.add_0_r, ?Z.lor_0_r, ?Z.lxor_0_r, ?Z.land_0_r, ?Z.shiftl_0_r, ?Z.shiftr_0_r,
      ?u32_s32, ?land_all_ones, ?u32_id by assumption; reflexivity.
Qed.

Lemma identity_shape i i' d :
  identity_insn i = (i', d) ->
  dst i' = dst i /\ dead i' = dead i /\ imm i' = imm i /\
  op_writes (op i') = op_writes (op i) /\
  (forall y, (count_occ Z.eq_dec (reads i') y <= count_occ Z.eq_dec (reads i) y)%nat) /\
  (i' = i \/ (is_alu (op i) = true /\ is_alu (op i') = true)).
Proof.
  unfold identity_insn. intros E.
  destruct (op i) eqn:Hop; try (injection E as <- <-; solve [repeat split; auto; congruence]);
    repeat match type of E with
    | (if ?b then _ else _) = _ => destruct b eqn:?
    end; injection E as <- <-; rewrite ?Hop; try solve [repeat split; auto].
  repeat split; auto. intros y. count_slots y.
Qed.

Lemma fuse_identity_step def j l cnt k l' k' U :
  tables_ok def l cnt -> l !! j = Some U -> dead U = false ->
  fuse_identity j (l, k) = (l', k') -> step_rel def l l' cnt.
Proof.
  intros Ht Hj HU. unfold fuse_identity. rewrite Hj.
  destruct (identity_insn U) as [U' d] eqn:E. intros [= <- <-].
  destruct (identity_shape _ _ _ E) as (Hdst & Hdead & Himm & Hw & Hc & [->|[Ha Ha']]).
  - rewrite list_insert_id by assumption. apply step_rel_refl. assumption.
  - apply (replace_step t start def l cnt j U); auto; try congruence.
    + rewrite Himm. eapply imm_u32; eauto.
    + apply is_alu_skel. assumption.
    + apply is_alu_skel. assumption.
    + right. auto.
    + intros tmp cpu n. eapply identity_value. eassumption.
Qed.

(** ** The walk of [pass_fuse] *)

Lemma fuse_at_step def j l cnt ks l' cnt' ks' :
  tables_ok def l cnt -> fuse_at can_lower def j (l, cnt, ks) = (l', cnt', ks') ->
  step_rel def l l' cnt'.
Proof.
  intros Ht. unfold fuse_at. destruct ks as [[kf ka] ki].
  destruct (l !! j) as [U|] eqn:Hj; [|intros [= <- <- <-]; apply step_rel_refl; assumption].
  destruct (dead U) eqn:HU; [intros [= <- <- <-]; apply step_rel_refl; assumption|].
  destruct (fuse_const can_lower def j (l, cnt, kf)) as [[l1 cnt1] kf1] eqn:E1.
  destruct (fuse_const_step _ _ _ _ _ _ _ _ _ Ht Hj HU E1) as (S1 & U1 & Hj1 & HU1).
  destruct (fuse_addr cnt1 def j (l1, ka)) as [l2 ka1] eqn:E2.
  destruct (fuse_addr_step _ _ _ _ _ _ _ _ (proj1 S1) Hj1 HU1 E2) as (S2 & U2 & Hj2 & HU2).
  destruct (fuse_identity j (l2, ki)) as [l3 ki1] eqn:E3.
  pose proof (fuse_identity_step _ _ _ _ _ _ _ _ (proj1 S2) Hj2 HU2 E3) as S3.
  intros [= <- <- <-]. eauto using step_rel_trans.
Qed.

Lemma fuse_walk def js : forall l cnt ks l' cnt' ks',
  tables_ok def l cnt ->
  fold_left (fun st j => fuse_at can_lower def j st) js (l, cnt, ks) = (l', cnt', ks') ->
  step_rel def l l' cnt'.
Proof.
  induction js as [|j js IH]; intros l cnt ks l' cnt' ks' Ht; cbn [fold_left].
  - intros [= <- <- <-]. apply step_rel_refl. assumption.
  - destruct (fuse_at can_lower def j (l, cnt, ks)) as [[l1 cnt1] ks1] eqn:E. intros Hf.
    pose proof (fuse_at_step _ _ _ _ _ _ _ _ Ht E) as S1.
    eapply step_rel_trans; [eassumption|]. eapply IH; [apply S1|eassumption].
Qed.

(** What a pass of this kind promises its successors. *)
Definition pass_ok (l l' : list emu_ir_insn) : Prop :=
  wf ∅ l' /\ blk_equiv t start l l' /\ skel l' = skel l /\ Forall2 keeps l l'.

Lemma pass_fuse_ok l l' ks :
  wf ∅ l -> Z.of_nat (length l) <= 65535 ->
  pass_fuse can_lower l = (l', ks) -> pass_ok l l'.
Proof.
  intros Hwf Hlen. unfold pass_fuse. destruct (uses_and_defs l) as [cnt def] eqn:E.
  destruct (fold_left _ _ _) as [[l1 cnt1] ks1] eqn:Ef. intros [= <- <-].
  pose proof (uses_and_defs_ok l cnt def Hwf Hlen E) as Ht.
  destruct (fuse_walk _ _ _ _ _ _ _ _ Ht Ef) as (Ht' & Heq & Hsk & Hk).
  repeat split; try assumption. apply Ht'.
Qed.

(** ** Multiply-accumulate *)

Definition mac_insn (U D : emu_ir_insn) (addend : Z) : emu_ir_insn :=
  let is_sub := op_eqb (op U) EMU_IR_SUB in
  set_opc (set_opb (set_opa (set_aux (set_op U EMU_IR_MAC) (if is_sub then EMU_IR_MAC_SUB else 0))
                            (opa D)) (opb D)) addend.

(** The product is the operand [opb] of an ADD or a SUB, or [opa] of an ADD. *)
Definition mac_shape (U : emu_ir_insn) (prod addend : Z) : Prop :=
  ((op U = EMU_IR_ADD \/ op U = EMU_IR_SUB) /\ prod = opb U /\ addend = opa U) \/
  (op U = EMU_IR_ADD /\ prod = opa U /\ addend = opb U).

Lemma mac_subst U D addend :
  op D = EMU_IR_MUL -> mac_shape U (dst D) addend ->
  dst D <> EMU_IR_NO_TEMP -> addend <> EMU_IR_NO_TEMP ->
  (forall x, In x (reads D) -> x <> dst D) ->
  (count_occ Z.eq_dec (reads U) (dst D) <= 1)%nat ->
  subst_ok t start D U (mac_insn U D addend).
Proof.
  intros HD Hshape Hne Hadd Hfresh Honce. rewrite reads_count in Honce by assumption.
  split; [rewrite HD; reflexivity|]. split.
  { rewrite in_reads. cbn. intros [_ [E|[E|E]]].
    - apply (Hfresh (opa D)); [apply reads_opa|]; congruence.
    - apply (Hfresh (opb D)); [apply reads_opb|]; congruence.
    - destruct Hshape as [(_ & Hp & Ha)|(_ & Hp & Ha)];
        repeat (destruct Z.eq_dec in Honce; try congruence); lia. }
  split.
  { intros x. rewrite !in_reads. cbn. unfold mac_shape in Hshape. intuition congruence. }
  split; [reflexivity|]. split.
  { destruct Hshape as [([-> | ->] & _)|(-> & _)]; reflexivity. }
  intros tmp cpu n Hv. unfold step_at.
  assert (Ep : operand tmp (dst D) = operand tmp (opa D) *! operand tmp (opb D)).
  { rewrite operand_temp, Hv by assumption. unfold alu_value. rewrite HD. cbn [eval_alu].
    apply u32_u32. }
  rewrite (step_alu t start U) by (destruct Hshape as [([-> | ->] & _)|(-> & _)]; reflexivity).
  rewrite (step_alu t start (mac_insn U D addend)) by reflexivity. do 2 f_equal.
  unfold mac_insn. cbn [opa opb opc set_op set_aux set_opa set_opb set_opc].
  destruct Hshape as [([Hop|Hop] & Hp & ->)|(Hop & Hp & ->)]; rewrite <- Hp, Ep;
    unfold alu_value; cbn [op aux set_op set_aux set_opa set_opb set_opc imm]; rewrite Hop; cbn;
    [reflexivity|reflexivity|f_equal; apply Z.add_comm].
Qed.

Lemma mac_at_step def cnt j l k l' k' :
  tables_ok def l cnt -> mac_at can_lower cnt def j (l, k) = (l', k') ->
  step_rel def l l' cnt.
Proof.
  intros Ht. unfold mac_at.
  assert (Hid : step_rel def l l cnt) by (apply step_rel_refl; assumption).
  destruct (l !! j) as [U|] eqn:Hj; [|intros [= <- <-]; assumption].
  destruct (dead U) eqn:HU; [intros [= <- <-]; assumption|].
  destruct (_ || _) eqn:Hop; [|intros [= <- <-]; assumption].
  match goal with |- (let '(_, _) := ?p in _) = _ -> _ => destruct p as [prod addend] eqn:Es end.
  destruct (_ && _ && _) eqn:Hg; [|intros [= <- <-]; assumption]. bool_hyps.
  destruct (def_insn l def prod) as [D|] eqn:HD; [|intros [= <- <-]; assumption].
  intros [= <- <-]. change (set_opc _ addend) with (mac_insn U D addend).
  assert (Hs : is_temp prod = true /\ cnt prod = 1 /\ op D = EMU_IR_MUL /\ mac_shape U prod addend).
  { apply orb_true_iff in Hop. unfold mac_shape.
    destruct (op_eqb_spec (op U) EMU_IR_SUB) as [Esub|Esub],
             (op_eqb_spec (op U) EMU_IR_ADD) as [Eadd|Eadd]; try (destruct Hop; discriminate);
    destruct (single_def l cnt def (opb U) _) eqn:Eb;
    try (destruct (single_def l cnt def (opa U) _) eqn:Ea); cbn [negb andb] in Es;
    injection Es as <- <-; try contradiction;
    match goal with H : single_def _ _ _ _ _ = true |- _ =>
      apply single_def_inv in H as (? & ? & D' & HD' & HP) end;
    rewrite HD in HD'; injection HD' as <-; bool_hyps;
    destruct (op_eqb_spec (op D) EMU_IR_MUL); try discriminate; auto 10. }
  destruct Hs as (Htp & Hc1 & HopD & Hshape).
  assert (Hx : In prod (reads U)).
  { apply in_reads. unfold mac_shape in Hshape. intuition. }
  destruct (def_live def l cnt j U _ D Ht Hj HU Hx HD) as (HdD & HdstD & HjD).
  assert (Ha : is_alu (op U) = true) by (destruct Hshape as [([-> | ->] & _)|(-> & _)]; reflexivity).
  eapply subst_step with (U := U) (D := D); try eassumption; auto; try lia.
  - intros _ _. apply mac_subst; auto; try congruence.
    + intros x Hxr. eapply (reads_not_dst def l cnt _ D); eauto. rewrite HopD. reflexivity.
    + rewrite HdstD. apply (reads_once def l cnt j); assumption.
  - change (is_u32 (imm U)). eapply imm_u32; eauto.
  - apply is_alu_skel. assumption.
  - right. split; [assumption|]. left. reflexivity.
  - intros y Hy. unfold mac_insn, mac_shape in *.
    destruct Hshape as [(_ & Hp & ->)|(_ & Hp & ->)]; count_slots y.
Qed.

Lemma mac_walk def cnt js : forall l k l' k',
  tables_ok def l cnt ->
  fold_left (fun st j => mac_at can_lower cnt def j st) js (l, k) = (l', k') ->
  step_rel def l l' cnt.
Proof.
  induction js as [|j js IH]; intros l k l' k' Ht; cbn [fold_left].
  - intros [= <- <-]. apply step_rel_refl. assumption.
  - destruct (mac_at can_lower cnt def j (l, k)) as [l1 k1] eqn:E. intros Hf.
    pose proof (mac_at_step _ _ _ _ _ _ _ Ht E) as S1.
    eapply step_rel_trans; [eassumption|]. eapply IH; [apply S1|eassumption].
Qed.

Lemma pass_mac_ok l l' k :
  wf ∅ l -> Z.of_nat (length l) <= 65535 ->
  pass_mac can_lower l = (l', k) -> pass_ok l l'.
Proof.
  intros Hwf Hlen. unfold pass_mac. destruct (uses_and_defs l) as [cnt def] eqn:E. intros Ef.
  pose proof (uses_and_defs_ok l cnt def Hwf Hlen E) as Ht.
  destruct (mac_walk _ _ _ _ _ _ _ Ht Ef) as (Ht' & Heq & Hsk & Hk).
  repeat split; try assumption. apply Ht'.
Qed.

End Fuse.
