(* ===== verification/IrLaws.v ===== *)
(** * What the passes may rely on

    The laws of a guest, the conditions on a block, and states that differ in a
    few words. *)

From stdpp Require Import base list gmap.
From Stdlib Require Import ZArith Lia FunctionalExtensionality.
From S2P Require Import Prelude IrTypes IrFloat IrInterp IrPasses IrSem IrSubst.

Open Scope Z_scope.
Open Scope u32_scope.

(** * What the passes rely on

    [TargetLaws] states what the optimiser needs of a guest description:
    which offsets of the guest state are distinct, and that an access which
    does not trap leaves the guest's registers and pc alone.  The four
    frontends differ here in ways that matter -- ARMv7-M's r15 {i is} the pc,
    three of the four keep no flags and point [flags_offset] at a word that
    is something else -- so the laws speak only of registers a frontend names
    ([valid_reg]) and of flags a guest has ([has_flags]).

    [frontend_block] is the contract of a translated block: what every
    [translate] function emits. *)

Section Laws.
Context {Ext : Type} {Cfg : IrConfig}.
#[local] Abbreviation cpu_t := (emu_cpu Ext).
#[local] Abbreviation target_t := (emu_ir_target Ext).

Definition has_flags (t : target_t) : bool :=
  negb ((flag_bit t 0 =? 0) && (flag_bit t 1 =? 0) && (flag_bit t 2 =? 0) && (flag_bit t 3 =? 0)).

(** The guest registers a block may name, and the one that is not hardwired. *)
Class TargetLaws (t : target_t) := {
  valid_reg : Z -> bool;
  valid_freg : Z -> bool;

  law_regs_present : is_Some (t_reg_offset t);
  law_reg_nonneg : forall n, valid_reg n = true -> 0 <= n;
  law_reg_inj : forall m n, valid_reg m = true -> valid_reg n = true ->
    reg_is_zero_at t m = false -> reg_is_zero_at t n = false ->
    reg_offset t m = reg_offset t n -> m = n;
  law_pc_reg : forall m n, valid_reg n = true -> reg_is_zero_at t n = false ->
    reg_offset t n = pc_offset t -> n < 64 /\ (0 <= m < 64 -> reg_offset t m = pc_offset t -> m = n);

  law_flag_u32 : forall f, 0 <= f < 4 -> is_u32 (flag_bit t f);
  law_flag_disjoint : forall f g, 0 <= f < 4 -> 0 <= g < 4 -> f <> g ->
    Z.land (flag_bit t f) (flag_bit t g) = 0;
  law_flags_reg : forall n, has_flags t = true -> valid_reg n = true ->
    reg_is_zero_at t n = false -> reg_offset t n <> flags_offset t;
  law_flags_pc : has_flags t = true -> pc_offset t <> flags_offset t;

  law_freg_apart : forall fo n off, freg_offset t = Some fo -> valid_freg n = true ->
    (off = fo n \/ off = fo n + 4) ->
    off <> pc_offset t /\ (has_flags t = true -> off <> flags_offset t) /\
    (forall m, valid_reg m = true -> reg_is_zero_at t m = false -> off <> reg_offset t m);

  law_load : forall ld cpu addr spec v cpu', t_load t = Some ld ->
    ld cpu addr spec = (0, v, cpu') ->
    forall n, valid_reg n = true -> reg_is_zero_at t n = false ->
         word_at cpu' (reg_offset t n) = word_at cpu (reg_offset t n);
  law_store : forall st cpu addr spec v cpu', t_store t = Some st ->
    st cpu addr spec v = (0, cpu') ->
    forall n, valid_reg n = true -> reg_is_zero_at t n = false ->
         word_at cpu' (reg_offset t n) = word_at cpu (reg_offset t n)
}.

(** ** The contract of a translated block *)
Section Contract.
Context (t : target_t) {L : TargetLaws t}.

(** The part of the contract every pass up to [pass_merge_retire] keeps. *)
Definition use_ok (i : emu_ir_insn) : bool :=
  match op i with
  | EMU_IR_GET | EMU_IR_PUT => valid_reg (imm i)
  | EMU_IR_FGET | EMU_IR_FPUT => valid_freg (imm i)
  | EMU_IR_SETF => has_flags t
  | EMU_IR_RETIRE => imm i =? 0
  | _ => true
  end.

Definition uses_ok (l : list emu_ir_insn) : Prop :=
  Forall (fun i => dead i = false -> use_ok i = true) l.

(** The part only the first passes rely on. *)
Definition front_insn (i : emu_ir_insn) : bool :=
  match op i with
  | EMU_IR_PUT => negb (opa i =? EMU_IR_NO_TEMP) && (defs i =? 0)
  | EMU_IR_SETF => (live i =? defs i) && (0 <=? defs i) && (defs i <? 16)
  | EMU_IR_BITOP_SET | EMU_IR_BITOP_CLR | EMU_IR_BITOP_INV | EMU_IR_BITOP_TST => true
  | _ => defs i =? 0
  end.

Definition fronts_ok (l : list emu_ir_insn) : Prop :=
  Forall (fun i => dead i = false -> front_insn i = true) l.

(** What the register pass relies on: a PUT has a value. *)
Definition put_present (i : emu_ir_insn) : bool :=
  match op i with EMU_IR_PUT => negb (opa i =? EMU_IR_NO_TEMP) | _ => true end.

Definition puts_ok (l : list emu_ir_insn) : Prop :=
  Forall (fun i => dead i = false -> put_present i = true) l.

(** An unconditional exit is the last thing a block does. *)
Fixpoint exit_last (l : list emu_ir_insn) : Prop :=
  match l with
  | [] => True
  | i :: l' =>
      (dead i = false -> op i = EMU_IR_EXIT -> Forall (fun j => dead j = true) l') /\ exit_last l'
  end.

Definition frontend_block (l : list emu_ir_insn) : Prop :=
  wf ∅ l /\ uses_ok l /\ fronts_ok l /\ exit_last l /\ Z.of_nat (length l) <= EMU_IR_MAX_INSNS.

(** *** The contract as a test *)

Definition wf_insnb (D : gset Z) (i : emu_ir_insn) : bool :=
  is_u32b (imm i) && forallb (fun x => bool_decide (x ∈ D)) (reads i) &&
  (if op_writes (op i)
   then is_temp (dst i) && (0 <=? dst i) && negb (bool_decide (dst i ∈ D))
   else dst i =? EMU_IR_NO_TEMP).

Fixpoint wfb (D : gset Z) (l : list emu_ir_insn) : bool :=
  match l with
  | [] => true
  | i :: l' => (dead i || wf_insnb D i) && wfb (D ∪ wrote i) l'
  end.

Fixpoint exit_lastb (l : list emu_ir_insn) : bool :=
  match l with
  | [] => true
  | i :: l' =>
      (dead i || negb (op_eqb (op i) EMU_IR_EXIT) || forallb dead l') && exit_lastb l'
  end.

Definition frontend_blockb (l : list emu_ir_insn) : bool :=
  wfb ∅ l && forallb (fun i => dead i || use_ok i) l && forallb (fun i => dead i || front_insn i) l
  && exit_lastb l && (Z.of_nat (length l) <=? EMU_IR_MAX_INSNS).

Lemma wf_insnb_sound D i : wf_insnb D i = true -> wf_insn D i.
Proof.
  unfold wf_insnb, wf_insn. intros H. bool_hyps. split; [apply is_u32b_spec; assumption|]. split.
  - apply Forall_forall. intros x Hx. apply list_elem_of_In in Hx.
    match goal with Hf : forallb _ _ = true |- _ =>
      rewrite forallb_forall in Hf; specialize (Hf x Hx); apply bool_decide_eq_true in Hf; exact Hf end.
  - destruct (op_writes (op i)); bool_hyps; [|assumption].
    match goal with H : bool_decide _ = false |- _ => apply bool_decide_eq_false in H end. auto.
Qed.

Lemma wfb_sound l : forall D, wfb D l = true -> wf D l.
Proof.
  induction l as [|i l IH]; intros D H; [exact I|]. cbn in H. bool_hyps. split; [|auto].
  intros Hd. rewrite Hd in *. apply wf_insnb_sound. assumption.
Qed.

Lemma forallb_live (P : emu_ir_insn -> bool) l :
  forallb (fun i => dead i || P i) l = true -> Forall (fun i => dead i = false -> P i = true) l.
Proof.
  rewrite forallb_forall. intros H. apply Forall_forall. intros i Hi Hd.
  apply list_elem_of_In in Hi. specialize (H i Hi). rewrite Hd in H. assumption.
Qed.

Lemma exit_lastb_sound l : exit_lastb l = true -> exit_last l.
Proof.
  induction l as [|i l IH]; intros H; [exact I|]. cbn in H. bool_hyps. split; [|auto].
  intros Hd Ho. rewrite Hd, Ho in *. change (op_eqb EMU_IR_EXIT EMU_IR_EXIT) with true in *.
  cbn [negb orb] in *. apply Forall_forall. intros j Hj.
  match goal with H : forallb _ _ = true |- _ => rewrite forallb_forall in H; apply H end.
  apply list_elem_of_In. assumption.
Qed.

Lemma frontend_blockb_sound l : frontend_blockb l = true -> frontend_block l.
Proof.
  unfold frontend_blockb. intros H. bool_hyps. split; [apply wfb_sound; assumption|].
  split; [apply forallb_live; assumption|]. split; [apply forallb_live; assumption|].
  split; [apply exit_lastb_sound; assumption|assumption].
Qed.

Lemma use_ok_keeps i i' :
  keeps i i' -> (dead i = false -> use_ok i = true) -> dead i' = false -> use_ok i' = true.
Proof.
  intros [Hi|(Hdi & [Ha|[Ho Hm]])] Hui Hd; [congruence| |].
  - unfold use_ok. destruct (op i'); try discriminate Ha; reflexivity.
  - specialize (Hui Hdi). unfold use_ok in *. rewrite Ho.
    destruct (op i); auto; destruct Hm as [E|[E|E]]; try discriminate E; rewrite E; assumption.
Qed.

Lemma uses_ok_keeps l l' : uses_ok l -> Forall2 keeps l l' -> uses_ok l'.
Proof.
  intros Hu Hk. induction Hk as [|i i' l l' Hi Hk IH]; [constructor|].
  apply Forall_cons in Hu as [Hui Hu]. constructor; [|apply IH; assumption].
  apply (use_ok_keeps i); assumption.
Qed.

Lemma models_keeps l l' : Forall2 keeps l l' -> interp_models l t = true -> interp_models l' t = true.
Proof.
  intros Hk. induction Hk as [|i i' l l' Hi Hk IH]; [auto|].
  unfold interp_models in *. cbn [forallb]. rewrite !andb_true_iff. intros [Hi0 Hl].
  split; [|auto]. unfold interp_models_insn in *.
  destruct Hi as [-> |(Hd & [Ha|[Ho Hm]])]; [reflexivity| |].
  - rewrite orb_true_iff. right. destruct (op i'); try discriminate Ha; reflexivity.
  - rewrite Hd in Hi0. cbn [orb] in Hi0. rewrite orb_true_iff. right. rewrite Ho.
    destruct (op i); auto; destruct Hm as [E|[E|E]]; try discriminate E; rewrite E; assumption.
Qed.

(** ** Frames: the words an instruction leaves alone *)

Lemma word_set_eq (cpu : cpu_t) off v : word_at (set_word cpu off v) off = u32 v.
Proof. unfold word_at, set_word. cbn. rewrite upd_eq. apply u32_u32. Qed.

Lemma word_set_ne (cpu : cpu_t) off off' v : off' <> off -> word_at (set_word cpu off v) off' = word_at cpu off'.
Proof. intros Hne. unfold word_at, set_word. cbn. rewrite upd_ne by assumption. reflexivity. Qed.

Lemma word_set_same (cpu : cpu_t) off : forall o, word_at (set_word cpu off (word_at cpu off)) o = word_at cpu o.
Proof.
  intros o. destruct (Z.eq_dec o off) as [->|Hne].
  - rewrite word_set_eq. apply u32_u32.
  - apply word_set_ne. assumption.
Qed.

(** A guest with no flags keeps its flag word. *)
Lemma no_flags_zero : has_flags t = false -> forall f, 0 <= f < 4 -> flag_bit t f = 0.
Proof.
  unfold has_flags. intros Hf f Hr. bool_hyps.
  assert (f = 0 \/ f = 1 \/ f = 2 \/ f = 3) as [-> |[-> |[-> | ->]]] by lia; assumption.
Qed.

Lemma apply_flags_other (cpu : cpu_t) i a b off :
  off <> flags_offset t -> word_at (apply_flags cpu t i a b) off = word_at cpu off.
Proof.
  intros Hne. unfold apply_flags. destruct (live i =? 0); [reflexivity|].
  destruct (derive_flags (aux i) a b) as [[[z s] v] c]. apply word_set_ne. assumption.
Qed.

Lemma apply_flags_none (cpu : cpu_t) i a b off :
  has_flags t = false -> word_at (apply_flags cpu t i a b) off = word_at cpu off.
Proof.
  intros Hf. unfold apply_flags. destruct (live i =? 0); [reflexivity|].
  destruct (derive_flags (aux i) a b) as [[[z s] v] c]. unfold put_flag.
  rewrite !(no_flags_zero Hf) by lia. cbn [Z.eqb]. rewrite !orb_true_r. apply word_set_same.
Qed.

Lemma apply_flags_reg (cpu : cpu_t) i a b n :
  valid_reg n = true -> reg_is_zero_at t n = false ->
  word_at (apply_flags cpu t i a b) (reg_offset t n) = word_at cpu (reg_offset t n).
Proof.
  intros Hv Hz. destruct (has_flags t) eqn:Hf.
  - apply apply_flags_other, law_flags_reg; assumption.
  - apply apply_flags_none. assumption.
Qed.

(** The flag write of a bit operation. *)
Lemma bit_flag_reg (cpu : cpu_t) (b : bool) n :
  valid_reg n = true -> reg_is_zero_at t n = false ->
  let fw := word_at cpu (flags_offset t) in
  word_at (set_word cpu (flags_offset t)
             (if b then Z.ldiff fw (flag_bit t 0) else fw |! flag_bit t 0)) (reg_offset t n)
  = word_at cpu (reg_offset t n).
Proof.
  intros Hv Hz fw. destruct (has_flags t) eqn:Hf.
  - apply word_set_ne, law_flags_reg; assumption.
  - rewrite (no_flags_zero Hf) by lia. rewrite Z.ldiff_0_r, Z.lor_0_r. unfold fw.
    destruct b; apply word_set_same.
Qed.

(** The two words of a floating-point register. *)
Lemma fput_other (cpu : cpu_t) p v (b : bool) off :
  off <> p -> off <> p + 4 ->
  word_at (if b then set_word (set_word cpu p v) (p + 4) 4294967295 else set_word cpu p v) off
  = word_at cpu off.
Proof. intros H0 H4. destruct b; rewrite !word_set_ne by assumption; reflexivity. Qed.

Lemma fput_reg (cpu : cpu_t) fo n v (b : bool) m :
  freg_offset t = Some fo -> valid_freg n = true ->
  valid_reg m = true -> reg_is_zero_at t m = false ->
  word_at (if b then set_word (set_word cpu (fo n) v) (fo n + 4) 4294967295
           else set_word cpu (fo n) v) (reg_offset t m)
  = word_at cpu (reg_offset t m).
Proof.
  intros Hf Hn Hv Hz. apply fput_other; intros E; symmetry in E; revert E;
    eapply law_freg_apart; eauto.
Qed.

(** An instruction that is not a PUT, a SETPC or a helper call and does not
    leave the block keeps every guest register. *)
Lemma step_keeps_regs start i cpu n a bv c cpu' n' r m :
  op i <> EMU_IR_PUT -> op i <> EMU_IR_SETPC ->
  op i <> EMU_IR_HELPER -> op i <> EMU_IR_HELPER_TRAP ->
  use_ok i = true -> step t start i cpu n a bv c = Cont cpu' n' r ->
  valid_reg m = true -> reg_is_zero_at t m = false ->
  word_at cpu' (reg_offset t m) = word_at cpu (reg_offset t m).
Proof.
  intros Hp Hs Hh Ht Hu E Hv Hz. destruct (is_alu (op i)) eqn:Ea.
  { rewrite step_alu in E by assumption. injection E as <- _ _. reflexivity. }
  unfold step in E. unfold use_ok in Hu.
  destruct (op i); try discriminate Ea; try contradiction; cbn [eval_alu eval_fp] in E;
    unfold step_load, step_store, step_bitop in E; effect_cases E; bool_hyps; subst;
    rewrite ?apply_flags_reg by assumption; try reflexivity;
    first [ eapply law_load; eassumption
          | eapply law_store; eassumption
          | erewrite fput_reg by eassumption; reflexivity
          | try (erewrite law_store by eassumption); rewrite bit_flag_reg by assumption;
            eapply law_load; eassumption ].
Qed.

End Contract.
End Laws.

(** * Guest states that differ in a few words

    Two passes delete writes to the guest state that a later write makes
    unobservable.  While the deleted write is pending the two runs have guest
    states that differ only at known offsets ([eq_off]); an instruction that
    neither observes the state nor reads those offsets does the same in both
    ([step_frame]). *)

Section Frame.
Context {Ext : Type} {Cfg : IrConfig}.
#[local] Abbreviation cpu_t := (emu_cpu Ext).
#[local] Abbreviation target_t := (emu_ir_target Ext).
Context (t : target_t) {L : TargetLaws t} (start : Z).

Definition eq_off (S : Z -> Prop) (cpu cpu' : cpu_t) : Prop :=
  cpu_ext cpu = cpu_ext cpu' /\ forall off, ~ S off -> cpu_word cpu off = cpu_word cpu' off.

Lemma eq_off_refl S cpu : eq_off S cpu cpu.
Proof. split; reflexivity. Qed.

Lemma eq_off_mono (S S' : Z -> Prop) cpu cpu' :
  eq_off S cpu cpu' -> (forall off, S off -> S' off) -> eq_off S' cpu cpu'.
Proof. intros [He Hw] HS. split; [assumption|]. intros off Hn. apply Hw. auto. Qed.

Lemma eq_off_eq S cpu cpu' : eq_off S cpu cpu' -> (forall off, ~ S off) -> cpu = cpu'.
Proof.
  intros [He Hw] HS. destruct cpu as [w e], cpu' as [w' e']. cbn in *. subst e'. f_equal.
  apply functional_extensionality. auto.
Qed.

Lemma eq_off_word S cpu cpu' off : eq_off S cpu cpu' -> ~ S off -> word_at cpu off = word_at cpu' off.
Proof. intros [_ Hw] HS. unfold word_at. rewrite Hw; auto. Qed.

(** Writing the same value to both. *)
Lemma eq_off_set S cpu cpu' off v :
  eq_off S cpu cpu' ->
  eq_off (fun o => S o /\ o <> off) (set_word cpu off v) (set_word cpu' off v).
Proof.
  intros [He Hw]. split; [assumption|]. intros o Ho. cbn. unfold upd.
  destruct (Z.eqb_spec o off) as [->|Hne]; [reflexivity|]. apply Hw. tauto.
Qed.

(** Writing one of them at an offset that may differ. *)
Lemma eq_off_set_l (S : Z -> Prop) cpu cpu' off v :
  eq_off S cpu cpu' -> S off -> eq_off S (set_word cpu off v) cpu'.
Proof.
  intros [He Hw] HS. split; [assumption|]. intros o Ho. cbn. unfold upd.
  destruct (Z.eqb_spec o off) as [->|Hne]; [contradiction|]. auto.
Qed.

(** ** Instructions that do not observe the state *)

(** The words an instruction writes. *)
Definition writes_off (i : emu_ir_insn) (off : Z) : Prop :=
  match op i with
  | EMU_IR_PUT => reg_is_zero_at t (imm i) = false /\ off = reg_offset t (imm i)
  | EMU_IR_FPUT =>
      match freg_offset t with Some fo => off = fo (imm i) \/ off = fo (imm i) + 4 | None => False end
  | EMU_IR_SETPC => off = pc_offset t
  | EMU_IR_SETF => off = flags_offset t
  | _ => False
  end.

(** It reads none of the words that may differ. *)
Definition avoids (S : Z -> Prop) (i : emu_ir_insn) : Prop :=
  match op i with
  | EMU_IR_GET => reg_is_zero_at t (imm i) = false -> ~ S (reg_offset t (imm i))
  | EMU_IR_FGET =>
      match freg_offset t with
      | Some fo => ~ S (fo (imm i)) /\ ~ S (fo (imm i) + 4) | None => True
      end
  | EMU_IR_SETF | EMU_IR_GETCOND | EMU_IR_SELECT => has_flags t = true -> ~ S (flags_offset t)
  | _ => True
  end.

(** A condition of a guest with no flags does not read the guest state. *)
Lemma eval_cond_no_flags cpu cpu' cond :
  has_flags t = false -> eval_cond cpu t cond = eval_cond cpu' t cond.
Proof.
  intros Hf. unfold eval_cond, flag_of. rewrite !(no_flags_zero t Hf) by lia. reflexivity.
Qed.

Lemma eval_cond_eq S cpu cpu' cond :
  eq_off S cpu cpu' -> (has_flags t = true -> ~ S (flags_offset t)) ->
  eval_cond cpu t cond = eval_cond cpu' t cond.
Proof.
  intros He Hn. destruct (has_flags t) eqn:Hf; [|apply eval_cond_no_flags; assumption].
  unfold eval_cond. rewrite (eq_off_word S cpu cpu') by auto. reflexivity.
Qed.

(** Leaving the block early is something only an observer does. *)
Lemma step_observes i cpu n a bv c :
  interp_models_insn t i = true -> dead i = false -> op_observes_state (op i) = false ->
  exists cpu' n' r, step t start i cpu n a bv c = Cont cpu' n' r.
Proof.
  intros Hm Hd Ho. destruct (is_alu (op i)) eqn:Ea.
  { rewrite step_alu by assumption. eauto. }
  unfold interp_models_insn in Hm. rewrite Hd in Hm. cbn [orb] in Hm. unfold step.
  destruct (op i); try discriminate; eauto;
    apply bool_decide_eq_true in Hm as [fo ->]; eauto.
Qed.

(** The words both runs hold the same value in afterwards, whatever they held. *)
Definition fixes (i : emu_ir_insn) (off : Z) : Prop :=
  match op i with EMU_IR_PUT | EMU_IR_SETPC => writes_off i off | _ => False end.

(** The same instruction left both runs alike. *)
Definition framed (S : Z -> Prop) (i : emu_ir_insn) (cpu cpu' : cpu_t) (e e' : effect Ext) : Prop :=
  exists cpu1 cpu1' n1 r, e = Cont cpu1 n1 r /\ e' = Cont cpu1' n1 r /\
    eq_off (fun off => S off /\ ~ fixes i off) cpu1 cpu1' /\
    (forall off, ~ writes_off i off ->
       cpu_word cpu1 off = cpu_word cpu off /\ cpu_word cpu1' off = cpu_word cpu' off).

Lemma framed_read S i cpu cpu' n r :
  eq_off S cpu cpu' -> (forall off, ~ fixes i off) ->
  framed S i cpu cpu' (Cont cpu n r) (Cont cpu' n r).
Proof.
  intros He Hn. exists cpu, cpu', n, r. do 2 (split; [reflexivity|]). split; [|auto].
  apply (eq_off_mono S); auto.
Qed.

Lemma framed_set S i cpu cpu' n off v :
  eq_off S cpu cpu' -> (forall o, writes_off i o <-> o = off) ->
  framed S i cpu cpu' (Cont (set_word cpu off v) n None) (Cont (set_word cpu' off v) n None).
Proof.
  intros He Hw. do 4 eexists. split; [reflexivity|]. split; [reflexivity|]. split.
  - apply (eq_off_mono (fun o => S o /\ o <> off)); [apply eq_off_set; assumption|].
    intros o [HS Hne]. split; [assumption|]. unfold fixes. intros Hf. apply Hne, Hw.
    destruct (op i); tauto.
  - intros o Ho. rewrite Hw in Ho. cbn. unfold upd. rewrite (proj2 (Z.eqb_neq _ _)) by assumption. auto.
Qed.

Lemma framed_fput S i cpu cpu' n fo v (b : bool) :
  op i = EMU_IR_FPUT -> freg_offset t = Some fo -> eq_off S cpu cpu' ->
  let st c := if b then set_word (set_word c (fo (imm i)) v) (fo (imm i) + 4) 4294967295
              else set_word c (fo (imm i)) v in
  framed S i cpu cpu' (Cont (st cpu) n None) (Cont (st cpu') n None).
Proof.
  intros Ho Hf He st. do 4 eexists. split; [reflexivity|]. split; [reflexivity|]. split.
  - apply (eq_off_mono S); [|unfold fixes; rewrite Ho; tauto]. unfold st.
    destruct b; eapply eq_off_mono; try (apply eq_off_set; try apply eq_off_set; exact He);
      cbv beta; tauto.
  - intros o Hn. unfold writes_off in Hn. rewrite Ho, Hf in Hn. unfold st.
    destruct b; cbn; unfold upd; repeat rewrite (proj2 (Z.eqb_neq _ _)) by tauto; auto.
Qed.

Lemma framed_setf S i cpu cpu' n a bv :
  op i = EMU_IR_SETF -> eq_off S cpu cpu' -> ~ S (flags_offset t) ->
  framed S i cpu cpu' (Cont (apply_flags cpu t i a bv) n None) (Cont (apply_flags cpu' t i a bv) n None).
Proof.
  intros Ho He Hn. unfold apply_flags. destruct (live i =? 0).
  - apply framed_read; [assumption|]. intros off. unfold fixes. rewrite Ho. tauto.
  - rewrite (eq_off_word S cpu cpu') by assumption.
    destruct (derive_flags (aux i) a bv) as [[[z s] v] c]. apply framed_set; [assumption|].
    intros o. unfold writes_off. rewrite Ho. tauto.
Qed.

Lemma step_frame S i cpu cpu' n a bv c :
  eq_off S cpu cpu' -> avoids S i -> use_ok t i = true -> op_observes_state (op i) = false ->
  interp_models_insn t i = true -> dead i = false ->
  framed S i cpu cpu' (step t start i cpu n a bv c) (step t start i cpu' n a bv c).
Proof.
  intros He Ha Hu Ho Hm Hd. destruct (is_alu (op i)) eqn:Ea.
  { rewrite !step_alu by assumption. apply framed_read; [assumption|]. intros off.
    unfold fixes. destruct (op i); try discriminate Ea; tauto. }
  unfold avoids, use_ok, interp_models_insn in *. rewrite Hd in Hm. unfold step.
  destruct (op i) eqn:Hop; try discriminate;
    try (apply bool_decide_eq_true in Hm as [fo Hfo]; rewrite Hfo in *);
    try (apply framed_fput; assumption);
    try (apply framed_setf; auto);
    try (apply framed_set; [assumption|]; intros o; unfold writes_off; rewrite Hop; reflexivity);
    rewrite ?(eval_cond_eq S cpu cpu') by assumption;
    try (apply framed_read; [assumption|]; intros off; unfold fixes; rewrite Hop; tauto).
  - destruct (reg_is_zero_at t (imm i)); [|rewrite (eq_off_word S cpu cpu') by auto];
      (apply framed_read; [assumption|]; intros off; unfold fixes; rewrite Hop; tauto).
  - destruct (reg_is_zero_at t (imm i)) eqn:Hz.
    + apply framed_read; [assumption|]. intros off. unfold fixes, writes_off. rewrite Hop, Hz. intuition congruence.
    + apply framed_set; [assumption|]. intros o. unfold writes_off. rewrite Hop, Hz. intuition.
  - destruct Ha as [Ha1 Ha2]. rewrite !(eq_off_word S cpu cpu') by assumption.
    apply framed_read; [assumption|]. intros off. unfold fixes. rewrite Hop. tauto.
Qed.

End Frame.
