(* ===== verification/IrTraffic.v ===== *)
(** * Guest register traffic

    [pass_reg_traffic] is correct: a GET of a register some temp already holds
    becomes a MOV, and a MOV's readers read its source.  The walk's two tables
    mean what the comments of the pass say ([tracks]), and what is left obeys
    a discipline later passes rely on ([traffic_skel]): between two helper
    calls a register is read from the guest state at most once, and never
    after it was written. *)

From S2P Require Import Prelude IrTypes IrFloat IrInterp IrPasses IrSem IrSubst IrLaws.
From stdpp Require Import base list gmap.
From Stdlib Require Import ZArith Lia FunctionalExtensionality.

Open Scope Z_scope.
Open Scope u32_scope.

Section Traffic.
Context {Ext : Type} {Cfg : IrConfig}.
#[local] Abbreviation cpu_t := (emu_cpu Ext).
#[local] Abbreviation target_t := (emu_ir_target Ext).
Context (t : target_t) {L : TargetLaws t} (start : Z).

(** ** The discipline *)

Definition tracked (n : Z) : bool := (n <? IR_MAX_GUEST_REGS) && negb (reg_is_zero_at t n).

Definition known_next (pcr : Z) (K : Z -> bool) (o : emu_ir_op) (n : Z) : Z -> bool :=
  match o with
  | EMU_IR_GET | EMU_IR_PUT => if tracked n then upd K n true else K
  | EMU_IR_HELPER | EMU_IR_HELPER_TRAP => fun _ => false
  | EMU_IR_SETPC => if pcr <? IR_MAX_GUEST_REGS then upd K pcr false else K
  | _ => K
  end.

Fixpoint traffic_skel (pcr : Z) (K : Z -> bool) (sk : list (emu_ir_op * Z)) : Prop :=
  match sk with
  | [] => True
  | (o, n) :: sk' =>
      (o = EMU_IR_GET -> tracked n = true -> K n = false) /\
      traffic_skel pcr (known_next pcr K o n) sk'
  end.

(** ** The tables of the walk *)

Definition known (cur : Z -> Z) (n : Z) : bool := negb (cur n =? EMU_IR_NO_TEMP).

(** What the tables name, whatever the values are. *)
Definition names (D : gset Z) (cur copy : Z -> Z) : Prop :=
  (forall x, x ∈ D -> is_temp x = true /\ copy x ∈ D) /\
  (forall x, x ∉ D -> copy x = x) /\
  (forall n, cur n <> EMU_IR_NO_TEMP -> cur n ∈ D).

(** What they mean. *)
Definition tracks (D : gset Z) (cur copy tmp : Z -> Z) (cpu : cpu_t) : Prop :=
  (forall x, x ∈ D -> u32 (tmp (copy x)) = u32 (tmp x)) /\
  (forall n, valid_reg n = true -> reg_is_zero_at t n = false -> n < IR_MAX_GUEST_REGS ->
     cur n <> EMU_IR_NO_TEMP -> u32 (tmp (cur n)) = word_at cpu (reg_offset t n)).

Lemma find_seq_first (f : Z -> bool) n : forall k len,
  Z.of_nat k <= n < Z.of_nat (k + len) -> f n = true ->
  (forall m, Z.of_nat k <= m < Z.of_nat (k + len) -> f m = true -> m = n) ->
  List.find f (map Z.of_nat (seq k len)) = Some n.
Proof.
  intros k len. revert k. induction len as [|len IH]; intros k Hn Hf Hu; [lia|]. cbn.
  destruct (f (Z.of_nat k)) eqn:E.
  - f_equal. apply Hu; [lia|assumption].
  - apply IH; [|assumption|intros m Hm; apply Hu; lia].
    assert (Z.of_nat k <> n) by (intros E'; congruence). lia.
Qed.

(** The register that is the pc, if a block may name one. *)
Lemma pc_reg_unique n :
  valid_reg n = true -> reg_is_zero_at t n = false -> reg_offset t n = pc_offset t ->
  pc_reg (Some t) = n /\ 0 <= n < IR_MAX_GUEST_REGS.
Proof.
  intros Hv Hz Hn. pose proof (law_reg_nonneg n Hv) as H0.
  destruct (law_pc_reg n n Hv Hz Hn) as [H64 _].
  assert (Huniq : forall m, 0 <= m < 64 -> reg_offset t m = pc_offset t -> m = n)
    by (intros m; apply (law_pc_reg m n Hv Hz Hn)).
  split; [|unfold IR_MAX_GUEST_REGS; lia]. unfold pc_reg, reg_offset in *.
  destruct (t_reg_offset t) as [ro|] eqn:Er.
  - rewrite (find_seq_first _ n); [reflexivity|lia|apply Z.eqb_eq; assumption|].
    intros m Hm Hrm. apply Z.eqb_eq in Hrm. apply Huniq; [lia|assumption].
  - destruct law_regs_present as [? Hs]. congruence.
Qed.

(** ** One instruction *)

(** An instruction is its operation, its parameters and its operand values;
    of the operand numbers only their absence matters. *)
Lemma step_operands i i' cpu n a bv c :
  op i' = op i -> aux i' = aux i -> imm i' = imm i -> live i' = live i ->
  (opa i' =? EMU_IR_NO_TEMP) = (opa i =? EMU_IR_NO_TEMP) ->
  (opc i' =? EMU_IR_NO_TEMP) = (opc i =? EMU_IR_NO_TEMP) ->
  step t start i' cpu n a bv c = step t start i cpu n a bv c.
Proof.
  intros Ho Hax Hi Hl Ha Hc.
  unfold step, step_load, step_store, step_bitop, step_helper, write_pc, apply_flags,
    emu_ir_exit_is_const.
  rewrite Ho, Hax, Hi, Hl, Ha, Hc. reflexivity.
Qed.

Lemma copy_operand_in D cur copy x :
  names D cur copy -> (x <> EMU_IR_NO_TEMP -> x ∈ D) ->
  (copy_operand copy x =? EMU_IR_NO_TEMP) = (x =? EMU_IR_NO_TEMP) /\
  (x <> EMU_IR_NO_TEMP -> copy_operand copy x ∈ D).
Proof.
  intros (H1 & H2 & H3) Hx. unfold copy_operand.
  destruct (Z.eqb_spec x EMU_IR_NO_TEMP) as [->|Hne]; [split; [reflexivity|contradiction]|].
  destruct (H1 x (Hx Hne)) as [-> Hc]. destruct (H1 _ Hc) as [Ht _].
  apply is_temp_ne in Ht. split; [apply Z.eqb_neq; assumption|auto].
Qed.

Lemma copy_operand_value D cur copy tmp tmp' cpu x :
  names D cur copy -> tracks D cur copy tmp' cpu -> agree D tmp tmp' ->
  (x <> EMU_IR_NO_TEMP -> x ∈ D) ->
  operand tmp' (copy_operand copy x) = operand tmp x.
Proof.
  intros Hn (Hc & _) Ha Hx. destruct (copy_operand_in D cur copy x Hn Hx) as [E _].
  unfold operand. rewrite E. destruct (Z.eqb_spec x EMU_IR_NO_TEMP) as [|Hne]; [reflexivity|].
  unfold copy_operand. destruct Hn as (H1 & _). destruct (H1 x (Hx Hne)) as [-> _].
  rewrite Hc by auto. rewrite Ha; auto.
Qed.

Lemma wf_operand D i : wf_insn D i ->
  (opa i <> EMU_IR_NO_TEMP -> opa i ∈ D) /\ (opb i <> EMU_IR_NO_TEMP -> opb i ∈ D) /\
  (opc i <> EMU_IR_NO_TEMP -> opc i ∈ D).
Proof.
  intros (_ & Hr & _). rewrite Forall_forall in Hr.
  repeat split; intros; apply Hr, list_elem_of_In; auto using reads_opa, reads_opb, reads_opc.
Qed.

Lemma copy_operands_step D cur copy tmp tmp' cpu n i :
  names D cur copy -> tracks D cur copy tmp' cpu -> agree D tmp tmp' -> wf_insn D i ->
  step_at t start (copy_operands copy i) tmp' cpu n = step_at t start i tmp cpu n.
Proof.
  intros Hn Ht Ha Hw. destruct (wf_operand D i Hw) as (Wa & Wb & Wc).
  unfold step_at. cbn [copy_operands set_opa set_opb set_opc opa opb opc].
  rewrite !(copy_operand_value D cur copy tmp tmp' cpu) by assumption.
  apply step_operands; try reflexivity; cbn;
    apply (copy_operand_in D cur copy _ Hn); assumption.
Qed.

Lemma copy_operands_wf D cur copy i :
  names D cur copy -> wf_insn D i -> wf_insn D (copy_operands copy i).
Proof.
  intros Hn Hw. destruct (wf_operand D i Hw) as (Wa & Wb & Wc). destruct Hw as (Hi & Hr & Hw).
  split; [assumption|]. split; [|assumption]. apply Forall_forall. intros x Hx.
  apply list_elem_of_In, filter_In in Hx as [Hin Hne]. bool_hyps. cbn in Hin.
  destruct (copy_operand_in D cur copy _ Hn Wa) as [Ea Ka].
  destruct (copy_operand_in D cur copy _ Hn Wb) as [Eb Kb].
  destruct (copy_operand_in D cur copy _ Hn Wc) as [Ec Kc].
  destruct Hin as [<-|[<-|[<-|[]]]]; [apply Ka|apply Kb|apply Kc];
    intros E; rewrite E, Z.eqb_refl in *; apply Hne; apply Z.eqb_eq; assumption.
Qed.

(** Both rewrites of one instruction. *)
Lemma traffic_insn_step D cur copy tmp tmp' cpu n i i' cur' g :
  names D cur copy -> tracks D cur copy tmp' cpu -> agree D tmp tmp' ->
  wf_insn D i -> use_ok t i = true ->
  traffic_insn (Some t) (pc_reg (Some t)) (copy_operands copy i) cur = (i', cur', g) ->
  step_at t start i' tmp' cpu n = step_at t start i tmp cpu n.
Proof.
  intros Hn Ht Ha Hw Hu E. rewrite <- (copy_operands_step D cur copy tmp tmp' cpu n i) by assumption.
  unfold traffic_insn in E. cbn [op copy_operands set_opa set_opb set_opc imm reg_is_zero] in E.
  destruct (op i) eqn:Hop; try (injection E as <- <- <-; reflexivity).
  change ((imm i <? IR_MAX_GUEST_REGS) && negb (reg_is_zero_at t (imm i))) with (tracked (imm i)) in E.
  destruct (tracked (imm i)) eqn:Htr; [|injection E as <- <- <-; reflexivity].
  destruct (cur (imm i) =? EMU_IR_NO_TEMP) eqn:Hc; cbn [negb] in E; injection E as <- <- <-; [reflexivity|].
  unfold tracked in Htr. bool_hyps.
  unfold step_at. rewrite (step_alu t start (set_opa _ _)) by reflexivity.
  unfold step. cbn [op copy_operands set_opa set_opb set_opc set_op opa opb opc imm alu_value eval_alu].
  rewrite Hop. unfold alu_value. cbn [op set_op set_opa eval_alu].
  match goal with H : reg_is_zero_at t _ = false |- _ => rewrite H end.
  do 2 f_equal. unfold operand. rewrite (proj2 (Z.eqb_neq _ _)) by assumption.
  unfold use_ok in Hu. rewrite Hop in Hu. apply Ht; assumption.
Qed.

(** The shape of the instruction it leaves, and the registers it leaves known. *)
Definition traffic_shape (D : gset Z) (cur : Z -> Z) (i i' : emu_ir_insn) (cur' : Z -> Z) : Prop :=
  wf_insn D i' /\ keeps i i' /\ dead i' = false /\ dst i' = dst i /\
  op_writes (op i') = op_writes (op i) /\
  (op i' = EMU_IR_GET -> tracked (imm i') = true -> known cur (imm i') = false) /\
  known cur' = (if skel_op (op i')
                then known_next (pc_reg (Some t)) (known cur) (op i') (imm i') else known cur).

Lemma known_upd cur n x :
  known (upd cur n x) = upd (known cur) n (negb (x =? EMU_IR_NO_TEMP)).
Proof. apply functional_extensionality. intros m. unfold known, upd. destruct (m =? n); reflexivity. Qed.

(** An instruction that only had its operands renamed. *)
Lemma traffic_same D cur copy i cur' :
  names D cur copy -> wf_insn D i -> dead i = false ->
  (op i = EMU_IR_GET -> tracked (imm i) = true -> known cur (imm i) = false) ->
  known cur' = (if skel_op (op i)
                then known_next (pc_reg (Some t)) (known cur) (op i) (imm i) else known cur) ->
  traffic_shape D cur i (copy_operands copy i) cur'.
Proof.
  intros Hn Hw Hd Hg Hk. split; [apply (copy_operands_wf D cur); assumption|].
  split; [right; split; auto|]. repeat split; assumption.
Qed.

Lemma traffic_mov D cur copy i :
  names D cur copy -> wf_insn D i -> dead i = false -> op i = EMU_IR_GET ->
  cur (imm i) <> EMU_IR_NO_TEMP ->
  traffic_shape D cur i (set_opa (set_op (copy_operands copy i) EMU_IR_MOV) (cur (imm i))) cur.
Proof.
  intros Hn Hw Hd Hop Hc. destruct (copy_operands_wf D cur copy i Hn Hw) as (Hi & Hr & Hwd).
  cbn [op copy_operands set_opa set_opb set_opc set_op] in Hwd. rewrite Hop in Hwd.
  split; [|split; [right; split; [assumption|left; reflexivity]|]].
  - split; [assumption|]. split; [|assumption]. apply Forall_forall. intros x Hx.
    rewrite Forall_forall in Hr. apply list_elem_of_In, filter_In in Hx as [Hin Hne].
    cbn in Hin. destruct Hin as [<-|Hin]; [apply Hn; assumption|].
    apply Hr, list_elem_of_In, filter_In. split; [cbn; tauto|assumption].
  - repeat split; auto; [rewrite Hop; reflexivity|discriminate].
Qed.

Lemma traffic_insn_shape D cur copy i i' cur' g :
  names D cur copy -> wf_insn D i -> dead i = false -> put_present i = true ->
  traffic_insn (Some t) (pc_reg (Some t)) (copy_operands copy i) cur = (i', cur', g) ->
  traffic_shape D cur i i' cur'.
Proof.
  intros Hn Hw Hd Hf E. unfold traffic_insn in E.
  cbn [op dst opa copy_operands set_opa set_opb set_opc imm reg_is_zero] in E.
  change ((imm i <? IR_MAX_GUEST_REGS) && negb (reg_is_zero_at t (imm i))) with (tracked (imm i)) in E.
  destruct (op i) eqn:Hop;
    try (injection E as <- <- <-; apply traffic_same; auto; rewrite Hop; [discriminate|reflexivity]).
  - destruct (tracked (imm i)) eqn:Htr.
    + destruct (cur (imm i) =? EMU_IR_NO_TEMP) eqn:Hc; cbn [negb] in E; injection E as <- <- <-.
      * apply traffic_same; auto; rewrite Hop; [intros _ _; unfold known; rewrite Hc; reflexivity|].
        cbn [skel_op known_next]. rewrite Htr, known_upd. f_equal.
        destruct Hw as (_ & _ & Hw). rewrite Hop in Hw.
        apply negb_true_iff, Z.eqb_neq, is_temp_ne, Hw.
      * apply traffic_mov; auto. apply Z.eqb_neq. assumption.
    + injection E as <- <- <-. apply traffic_same; auto; rewrite Hop; [congruence|].
      cbn [skel_op known_next]. rewrite Htr. reflexivity.
  - injection E as <- <- <-. apply traffic_same; auto; rewrite Hop; [discriminate|].
    cbn [skel_op known_next]. destruct (tracked (imm i)); [|reflexivity]. rewrite known_upd. f_equal.
    destruct (wf_operand D i Hw) as (Wa & _). destruct (copy_operand_in D cur copy _ Hn Wa) as [-> _].
    unfold put_present in Hf. rewrite Hop in Hf. bool_hyps. apply negb_true_iff, Z.eqb_neq. assumption.
  - injection E as <- <- <-. apply traffic_same; auto; rewrite Hop; [discriminate|].
    cbn [skel_op known_next]. destruct (_ <? _); [|reflexivity]. apply known_upd.
Qed.

(** ** The tables after one instruction *)

Lemma wf_not_wrote D i x : wf_insn D i -> x ∈ D -> x ∉ wrote i.
Proof.
  intros (_ & _ & Hw) Hx. unfold wrote. destruct (dead i); [set_solver|].
  destruct (op_writes (op i)); [|set_solver]. destruct Hw as (_ & _ & Hw). set_solver.
Qed.

Lemma write_dst_keep D i tmp cpu n cpu' n' r x :
  wf_insn D i -> dead i = false -> step_at t start i tmp cpu n = Cont cpu' n' r -> x ∈ D ->
  write_dst tmp (dst i) r x = tmp x.
Proof. intros Hw Hd Hs Hx. eapply step_at_dst; eauto using wf_not_wrote. Qed.

(** Where an entry of the register table comes from. *)
Lemma traffic_cur pcr i cur i' cur' g n :
  traffic_insn (Some t) pcr i cur = (i', cur', g) ->
  cur' n <> EMU_IR_NO_TEMP ->
  (cur' n = cur n /\ op i' <> EMU_IR_HELPER /\ op i' <> EMU_IR_HELPER_TRAP /\
   (op i' = EMU_IR_PUT -> tracked (imm i') = true -> n <> imm i') /\
   (op i' = EMU_IR_SETPC -> pcr < IR_MAX_GUEST_REGS -> n <> pcr)) \/
  (op i' = EMU_IR_GET /\ n = imm i' /\ tracked n = true /\ cur' n = dst i') \/
  (op i' = EMU_IR_PUT /\ n = imm i' /\ tracked n = true /\ cur' n = opa i').
Proof.
  unfold traffic_insn. cbn [reg_is_zero].
  change ((imm i <? IR_MAX_GUEST_REGS) && negb (reg_is_zero_at t (imm i))) with (tracked (imm i)).
  intros E Hn.
  destruct (op i) eqn:Hop;
    try (injection E as <- <- <-; left; rewrite Hop; repeat split; congruence);
    try (injection E as <- <- <-; contradiction Hn; reflexivity).
  - destruct (tracked (imm i)) eqn:Htr.
    + destruct (negb _); injection E as <- <- <-.
      * left. cbn. repeat split; congruence.
      * revert Hn. unfold upd. destruct (Z.eqb_spec n (imm i)) as [->|Hne]; intros Hn.
        -- right. left. auto.
        -- left. rewrite Hop. repeat split; congruence.
    + injection E as <- <- <-. left. rewrite Hop. repeat split; congruence.
  - injection E as <- <- <-. rewrite Hop. destruct (tracked (imm i)) eqn:Htr.
    + revert Hn. unfold upd. destruct (Z.eqb_spec n (imm i)) as [->|Hne]; intros Hn;
        [right; right; auto|left; repeat split; congruence].
    + left. repeat split; congruence.
  - injection E as <- <- <-. left. rewrite Hop. revert Hn.
    destruct (Z.ltb_spec pcr IR_MAX_GUEST_REGS); unfold upd.
    + destruct (Z.eqb_spec n pcr); intros Hn; [contradiction|].
      repeat split; congruence.
    + repeat split; try congruence. lia.
Qed.

Lemma traffic_copy_other i copy x : x <> dst i -> traffic_copy i copy x = copy x.
Proof. intros Hx. unfold traffic_copy. destruct (_ && _ && _); [apply upd_ne; assumption|reflexivity]. Qed.

Lemma wrote_dst i x : dead i = false -> x ∈ wrote i -> x = dst i /\ op_writes (op i) = true.
Proof. unfold wrote. intros ->. destruct (op_writes (op i)); set_solver. Qed.

Lemma in_D_ne_dst D i x : wf_insn D i -> (forall y, y ∈ D -> is_temp y = true) -> x ∈ D -> x <> dst i.
Proof.
  intros (_ & _ & Hw) Ht Hx ->. destruct (op_writes (op i)).
  - destruct Hw as (_ & _ & Hw). contradiction.
  - apply Ht, is_temp_ne in Hx. contradiction.
Qed.

(** The temp a PUT leaves in the table. *)
Lemma put_operand D cur copy i i' cur' g :
  names D cur copy -> wf_insn D i -> put_present i = true ->
  traffic_insn (Some t) (pc_reg (Some t)) (copy_operands copy i) cur = (i', cur', g) ->
  op i' = EMU_IR_PUT -> opa i' ∈ D.
Proof.
  intros HN Hw Hf E Ho. destruct (wf_operand D i Hw) as (Wa & _).
  destruct (copy_operand_in D cur copy _ HN Wa) as [_ Ka]. unfold traffic_insn in E.
  cbn [op copy_operands set_opa set_opb set_opc imm] in E. unfold put_present in Hf.
  destruct (op i) eqn:Hop;
    try (injection E as <- _ _; cbn [op copy_operands set_opa set_opb set_opc] in Ho; congruence).
  - repeat match type of E with (if ?b then _ else _) = _ => destruct b end;
      injection E as <- _ _; cbn in Ho; congruence.
  - injection E as <- _ _. bool_hyps. apply Ka. assumption.
Qed.

Lemma names_step D i0 cur copy i' cur' g :
  names D cur copy -> wf_insn D i' -> dead i' = false ->
  (op i' = EMU_IR_PUT -> opa i' ∈ D) ->
  traffic_insn (Some t) (pc_reg (Some t)) i0 cur = (i', cur', g) ->
  names (D ∪ wrote i') cur' (traffic_copy i' copy).
Proof.
  intros (N1 & N2 & N3) Hw Hd Hput E.
  assert (Hne : forall x, x ∈ D -> x <> dst i') by (intros x; eapply in_D_ne_dst; [eassumption|apply N1]).
  pose proof Hw as (_ & _ & Hwd). repeat split.
  - apply elem_of_union in H as [Hx|Hx]; [apply N1; assumption|].
    apply wrote_dst in Hx as [-> Hx]; [|assumption]. rewrite Hx in Hwd. apply Hwd.
  - apply elem_of_union in H as [Hx|Hx].
    + rewrite traffic_copy_other by auto. apply elem_of_union_l, N1. assumption.
    + pose proof Hx as Hx'. apply wrote_dst in Hx as [-> Hx]; [|assumption]. rewrite Hx in Hwd.
      unfold traffic_copy. destruct (_ && _ && _) eqn:Ec.
      * bool_hyps. rewrite upd_eq. apply elem_of_union_l, (wf_operand D i' Hw). assumption.
      * rewrite N2 by apply Hwd. apply elem_of_union_r. assumption.
  - intros x Hx. unfold traffic_copy. destruct (_ && _ && _) eqn:Ec; [|apply N2; set_solver].
    bool_hyps. destruct (op_eqb_spec (op i') EMU_IR_MOV) as [Em|]; [|discriminate].
    rewrite upd_ne; [apply N2; set_solver|]. intros ->. apply Hx, elem_of_union_r.
    rewrite wrote_live; [set_solver|assumption|rewrite Em; reflexivity].
  - intros n Hn.
    destruct (traffic_cur _ _ _ _ _ _ _ E Hn) as [(Ec & _)|[(Eo & _ & _ & Ec)|(Eo & _ & _ & Ec)]]; rewrite Ec in *.
    + apply elem_of_union_l, N3. assumption.
    + apply elem_of_union_r. rewrite wrote_live; [set_solver|assumption|rewrite Eo; reflexivity].
    + apply elem_of_union_l. auto.
Qed.

(** A register another register's write or the pc's write does not reach. *)
Lemma step_other_reg i tmp cpu n cpu' n' r m :
  use_ok t i = true -> step_at t start i tmp cpu n = Cont cpu' n' r ->
  valid_reg m = true -> reg_is_zero_at t m = false -> m < IR_MAX_GUEST_REGS ->
  op i <> EMU_IR_HELPER -> op i <> EMU_IR_HELPER_TRAP ->
  (op i = EMU_IR_PUT -> tracked (imm i) = true -> m <> imm i) ->
  (op i = EMU_IR_SETPC -> pc_reg (Some t) < IR_MAX_GUEST_REGS -> m <> pc_reg (Some t)) ->
  word_at cpu' (reg_offset t m) = word_at cpu (reg_offset t m).
Proof.
  intros Hu Hs Hv Hz Hlt Hh Ht Hput Hpc. unfold step_at in Hs.
  destruct (op_eqb_spec (op i) EMU_IR_PUT) as [Ep|Np].
  { unfold step, use_ok in *. rewrite Ep in *. injection Hs as <- _ _.
    destruct (reg_is_zero_at t (imm i)) eqn:Ez; [reflexivity|]. apply word_set_ne. intros Eo.
    apply law_reg_inj in Eo; auto. apply Hput; auto.
    unfold tracked. rewrite Ez, <- Eo. apply andb_true_iff. split; [apply Z.ltb_lt; assumption|reflexivity]. }
  destruct (op_eqb_spec (op i) EMU_IR_SETPC) as [Es|Ns].
  { unfold step, write_pc in Hs. rewrite Es in *. injection Hs as <- _ _. apply word_set_ne. intros Eo.
    destruct (pc_reg_unique m Hv Hz Eo) as [Epc Hr]. apply Hpc; auto; lia. }
  eapply step_keeps_regs; eauto.
Qed.

Lemma tracks_step D i0 cur copy i' cur' g tmp cpu n cpu' n' r :
  names D cur copy -> tracks D cur copy tmp cpu ->
  wf_insn D i' -> dead i' = false -> use_ok t i' = true ->
  (op i' = EMU_IR_PUT -> opa i' ∈ D) ->
  traffic_insn (Some t) (pc_reg (Some t)) i0 cur = (i', cur', g) ->
  step_at t start i' tmp cpu n = Cont cpu' n' r ->
  tracks (D ∪ wrote i') cur' (traffic_copy i' copy) (write_dst tmp (dst i') r) cpu'.
Proof.
  intros HN (T1 & T2) Hw Hd Hu Hput E Hs. pose proof HN as (N1 & N2 & N3).
  assert (Hne : forall x, x ∈ D -> x <> dst i') by (intros x; eapply in_D_ne_dst; [eassumption|apply N1]).
  assert (Hk : forall x, x ∈ D -> write_dst tmp (dst i') r x = tmp x)
    by (intros x Hx; eapply write_dst_keep; eauto).
  pose proof Hw as (_ & _ & Hwd). split.
  - intros x Hx. apply elem_of_union in Hx as [Hx|Hx].
    + rewrite traffic_copy_other, !Hk by (try apply N1; auto). auto.
    + apply wrote_dst in Hx as [-> Hx]; [|assumption]. rewrite Hx in Hwd.
      unfold traffic_copy. destruct (_ && _ && _) eqn:Ec; [|rewrite N2 by apply Hwd; reflexivity].
      bool_hyps. destruct (op_eqb_spec (op i') EMU_IR_MOV) as [Em|]; [|discriminate].
      rewrite upd_eq, Hk by (apply (wf_operand D i' Hw); assumption).
      unfold step_at in Hs. rewrite step_alu in Hs by (rewrite Em; reflexivity).
      injection Hs as _ _ <-. rewrite write_dst_eq by apply Hwd.
      unfold alu_value. rewrite Em. cbn [eval_alu]. unfold operand.
      rewrite (proj2 (Z.eqb_neq _ _)) by assumption. symmetry. apply u32_u32.
  - intros m Hv Hz Hlt Hm.
    destruct (traffic_cur _ _ _ _ _ _ _ E Hm) as [(Ec & Nh & Nt & Np & Ns)|[(Eo & -> & Htr & Ec)|(Eo & -> & Htr & Ec)]].
    + rewrite Ec in *. rewrite Hk by auto. rewrite T2 by assumption. symmetry.
      eapply step_other_reg; eauto.
    + rewrite Ec. rewrite Eo in Hwd. unfold step_at, step in Hs. rewrite Eo, Hz in Hs.
      injection Hs as <- _ <-. rewrite write_dst_eq by apply Hwd. apply u32_u32.
    + rewrite Ec, Hk by auto. unfold step_at, step in Hs. rewrite Eo, Hz in Hs.
      injection Hs as <- _ _. rewrite word_set_eq. unfold operand.
      rewrite (proj2 (Z.eqb_neq _ _)); [symmetry; apply u32_u32|].
      rewrite <- Ec. assumption.
Qed.

(** ** The walk *)

Lemma traffic_walk_static l : forall D cur copy l' k,
  names D cur copy -> wf D l -> uses_ok t l -> puts_ok l ->
  traffic_walk (Some t) (pc_reg (Some t)) l cur copy = (l', k) ->
  wf D l' /\ Forall2 keeps l l' /\ traffic_skel (pc_reg (Some t)) (known cur) (skel l').
Proof.
  induction l as [|i l IH]; intros D cur copy l' k HN Hwf Hu Hf E; cbn [traffic_walk] in E.
  { injection E as <- <-. repeat split; constructor. }
  destruct Hwf as [Hi Hwf]. apply Forall_cons in Hu as [Hui Hu]. apply Forall_cons in Hf as [Hfi Hf].
  destruct (dead i) eqn:Hd.
  - destruct (traffic_walk _ _ l cur copy) as [l1 k1] eqn:E1. injection E as <- <-.
    assert (Ew : wrote i = ∅) by (unfold wrote; rewrite Hd; reflexivity).
    rewrite Ew, (right_id_L ∅ (∪)) in Hwf.
    destruct (IH D cur copy l1 k1) as (Hw1 & Hk1 & Ht1); auto.
    cbn [wf skel]. rewrite Hd, Ew, (right_id_L ∅ (∪)).
    split; [split; [congruence|assumption]|]. split; [constructor; auto using keeps_refl|assumption].
  - destruct (traffic_insn _ _ _ cur) as [[i' cur'] g] eqn:Ei.
    destruct (traffic_walk _ _ l cur' _) as [l1 k1] eqn:E1. injection E as <- <-.
    destruct (traffic_insn_shape D _ _ _ _ _ _ HN (Hi eq_refl) Hd (Hfi eq_refl) Ei)
      as (Hw' & Hk' & Hd' & Hdst & Hwr & Hg & Hkn).
    assert (Ew : wrote i' = wrote i) by (apply wrote_same; congruence).
    destruct (IH (D ∪ wrote i') cur' (traffic_copy i' copy) l1 k1) as (Hw1 & Hk1 & Ht1); auto.
    + eapply names_step; try eassumption. eapply (put_operand D cur copy i); eauto.
    + rewrite Ew. assumption.
    + split; [split; auto|]. split; [constructor; assumption|]. cbn [skel]. rewrite Hd'.
      cbn [negb andb]. rewrite Hkn in Ht1. destruct (skel_op (op i')); [split; auto|assumption].
Qed.

Lemma traffic_walk_run l : forall D cur copy l' k tmp tmp' cpu n,
  names D cur copy -> tracks D cur copy tmp' cpu -> agree D tmp tmp' ->
  wf D l -> uses_ok t l -> puts_ok l ->
  traffic_walk (Some t) (pc_reg (Some t)) l cur copy = (l', k) ->
  obs (run t start l tmp cpu n) = obs (run t start l' tmp' cpu n).
Proof.
  induction l as [|i l IH]; intros D cur copy l' k tmp tmp' cpu n HN HT Ha Hwf Hu Hf E;
    cbn [traffic_walk] in E.
  { injection E as <- <-. reflexivity. }
  destruct Hwf as [Hi Hwf]. apply Forall_cons in Hu as [Hui Hu]. apply Forall_cons in Hf as [Hfi Hf].
  destruct (dead i) eqn:Hd.
  - destruct (traffic_walk _ _ l cur copy) as [l1 k1] eqn:E1. injection E as <- <-.
    cbn [run]. rewrite Hd. apply (IH D cur copy l1 k1); auto.
    unfold wrote in Hwf. rewrite Hd, (right_id_L ∅ (∪)) in Hwf. assumption.
  - destruct (traffic_insn _ _ _ cur) as [[i' cur'] g] eqn:Ei.
    destruct (traffic_walk _ _ l cur' _) as [l1 k1] eqn:E1. injection E as <- <-.
    destruct (traffic_insn_shape D _ _ _ _ _ _ HN (Hi eq_refl) Hd (Hfi eq_refl) Ei)
      as (Hw' & Hk' & Hd' & Hdst & Hwr & _).
    assert (Ew : wrote i' = wrote i) by (apply wrote_same; congruence).
    pose proof (traffic_insn_step D _ _ tmp tmp' cpu n _ _ _ _ HN HT Ha (Hi eq_refl) (Hui eq_refl) Ei) as Es.
    cbn [run]. rewrite Hd, Hd', <- Es.
    destruct (step_at t start i' tmp' cpu n) as [cpu' n' r|w cpu' n'] eqn:Hs; [|reflexivity].
    assert (Hput : op i' = EMU_IR_PUT -> opa i' ∈ D) by (eapply (put_operand D cur copy i); eauto).
    rewrite Hdst. apply (IH (D ∪ wrote i') cur' (traffic_copy i' copy) l1 k1); auto.
    + eapply names_step; eauto.
    + rewrite <- Hdst. eapply tracks_step; eauto.
      apply (use_ok_keeps t i); auto.
    + rewrite Ew. eapply write_dst_wrote; try eassumption; [congruence|].
      destruct (Hi eq_refl) as (_ & _ & Hwd). intros Hw. rewrite Hw in Hwd. apply Hwd.
    + rewrite Ew. assumption.
Qed.

Lemma pass_reg_traffic_ok l l' k :
  wf ∅ l -> uses_ok t l -> puts_ok l -> pass_reg_traffic l (Some t) = (l', k) ->
  wf ∅ l' /\ blk_equiv t start l l' /\ Forall2 keeps l l' /\
  traffic_skel (pc_reg (Some t)) (fun _ => false) (skel l').
Proof.
  intros Hwf Hu Hf E. unfold pass_reg_traffic in E.
  assert (HN : names ∅ (fun _ => EMU_IR_NO_TEMP) (fun x => x)).
  { split; [set_solver|]. split; [reflexivity|]. intros n Hn. contradiction Hn. reflexivity. }
  destruct (traffic_walk_static _ _ _ _ _ _ HN Hwf Hu Hf E) as (Hw' & Hk & Ht).
  split; [assumption|]. split; [|split; assumption].
  intros tmp tmp' cpu n. eapply traffic_walk_run; eauto; [|set_solver].
  split; [set_solver|]. intros m _ _ _ Hm. contradiction Hm. reflexivity.
Qed.

End Traffic.
