(* ===== verification/IrFlags.v ===== *)
(** * Dead flag elimination

    [pass_dead_flags] is correct for a block whose flags are all live on exit,
    which is how every caller runs it.  Where a flag is dead the two runs may
    hold different values of it ([flags_rel]): the words of the guest state
    agree but for the bits of the flag word that dead flags own, and entirely
    once every flag is live. *)

From S2P Require Import Prelude IrTypes IrFloat IrInterp IrPasses IrSem IrSubst IrLaws IrTraffic.
From stdpp Require Import base list gmap.
From Stdlib Require Import ZArith Lia FunctionalExtensionality.

Open Scope Z_scope.
Open Scope u32_scope.

Section Flags.
Context {Ext : Type} {Cfg : IrConfig}.
#[local] Abbreviation cpu_t := (emu_cpu Ext).
#[local] Abbreviation target_t := (emu_ir_target Ext).
Context (t : target_t) {L : TargetLaws t} (start : Z).

(** ** Liveness as a set of flags *)

Definition all_live (lv : Z) : Prop := forall f, 0 <= f < 4 -> Z.testbit lv f = true.

(** The bits of the flag word that only live flags own. *)
Definition bit_live (lv k : Z) : Prop :=
  forall f, 0 <= f < 4 -> Z.testbit (flag_bit t f) k = true -> Z.testbit lv f = true.

Record flags_rel (lv : Z) (cpu cpu' : cpu_t) : Prop := {
  rel_off : eq_off (fun off => off = flags_offset t) cpu cpu';
  rel_bits : forall k, 0 <= k -> bit_live lv k ->
    Z.testbit (word_at cpu (flags_offset t)) k = Z.testbit (word_at cpu' (flags_offset t)) k;
  rel_all : all_live lv \/ has_flags t = false -> cpu = cpu'
}.

Lemma flags_rel_refl lv cpu : flags_rel lv cpu cpu.
Proof. split; auto using eq_off_refl. Qed.

Lemma all_live_ALL : all_live EMU_IR_F_ALL.
Proof. intros f Hf. assert (f = 0 \/ f = 1 \/ f = 2 \/ f = 3) as [-> |[-> |[-> | ->]]] by lia; reflexivity. Qed.

Lemma all_live_lor lv : all_live (Z.lor lv EMU_IR_F_ALL).
Proof. intros f Hf. rewrite Z.lor_spec, (all_live_ALL f Hf). apply orb_true_r. Qed.

(** ** The bits SETF writes *)

Lemma put_flag_bit lv w f v k :
  0 <= k ->
  Z.testbit (put_flag t lv w f v) k =
    if Z.testbit lv f && Z.testbit (flag_bit t f) k then v else Z.testbit w k.
Proof.
  intros Hk. unfold put_flag. destruct (Z.testbit lv f); cbn [negb orb andb]; [|reflexivity].
  destruct (Z.eqb_spec (flag_bit t f) 0) as [->|Hne]; [rewrite Z.bits_0; reflexivity|].
  destruct v; rewrite ?Z.lor_spec, Z.ldiff_spec; destruct (Z.testbit (flag_bit t f) k);
    cbn; rewrite ?andb_false_r, ?andb_true_r, ?orb_false_r, ?orb_true_r; reflexivity.
Qed.

(** Bit [k] of the flag word after SETF derived [z s v c] under mask [lv]. *)
Definition setf_bit (lv : Z) (z s v c : bool) (k : Z) (old : bool) : bool :=
  if Z.testbit lv 3 && Z.testbit (flag_bit t 3) k then c
  else if Z.testbit lv 2 && Z.testbit (flag_bit t 2) k then v
  else if Z.testbit lv 1 && Z.testbit (flag_bit t 1) k then s
  else if Z.testbit lv 0 && Z.testbit (flag_bit t 0) k then z
  else old.

Lemma apply_flags_bit cpu i a bv k z s v c :
  0 <= k < 32 -> live i <> 0 -> derive_flags (aux i) a bv = (z, s, v, c) ->
  Z.testbit (word_at (apply_flags cpu t i a bv) (flags_offset t)) k =
  setf_bit (live i) z s v c k (Z.testbit (word_at cpu (flags_offset t)) k).
Proof.
  intros Hk Hl E. unfold apply_flags. rewrite (proj2 (Z.eqb_neq _ _)) by assumption. rewrite E.
  rewrite word_set_eq, u32_testbit, (proj2 (Z.ltb_lt _ _)) by lia. cbn [andb].
  rewrite !put_flag_bit by lia. reflexivity.
Qed.

(** The live part of the mask is all that matters for a live bit. *)
Lemma setf_bit_live df lv z s v c k old old' :
  bit_live lv k ->
  (bit_live (Z.ldiff lv df) k -> old = old') ->
  setf_bit df z s v c k old = setf_bit (Z.land df lv) z s v c k old'.
Proof.
  intros Hb Ho. unfold setf_bit. rewrite !Z.land_spec.
  assert (Hf : forall f, 0 <= f < 4 ->
    Z.testbit df f && Z.testbit lv f && Z.testbit (flag_bit t f) k = Z.testbit df f && Z.testbit (flag_bit t f) k).
  { intros f Hf. specialize (Hb f Hf). destruct (Z.testbit (flag_bit t f) k);
      [rewrite Hb by reflexivity|]; rewrite ?andb_true_r, ?andb_false_r; reflexivity. }
  rewrite !Hf by lia.
  destruct (Z.testbit df 3 && _) eqn:E3; [reflexivity|]. destruct (Z.testbit df 2 && _) eqn:E2; [reflexivity|].
  destruct (Z.testbit df 1 && _) eqn:E1; [reflexivity|]. destruct (Z.testbit df 0 && _) eqn:E0; [reflexivity|].
  apply Ho. intros f Hr Hk. rewrite Z.ldiff_spec, Hb by assumption.
  assert (f = 0 \/ f = 1 \/ f = 2 \/ f = 3) as [-> |[-> |[-> | ->]]] by lia;
    rewrite Hk, andb_true_r in *; rewrite ?E0, ?E1, ?E2, ?E3; reflexivity.
Qed.

(** Raw words in range agree when their bits do. *)
Lemma word_bits_eq x y :
  (forall k, 0 <= k < 32 -> Z.testbit (u32 x) k = Z.testbit (u32 y) k) -> u32 x = u32 y.
Proof.
  intros Hb. apply Z.bits_inj'. intros k Hk. destruct (Z.lt_ge_cases k 32); [auto|].
  rewrite !is_u32_testbit_high by (auto using u32_range). reflexivity.
Qed.

Lemma word_at_high (cpu : cpu_t) off k : 32 <= k -> Z.testbit (word_at cpu off) k = false.
Proof. intros Hk. apply is_u32_testbit_high; [apply u32_range|assumption]. Qed.

(** ** SETF *)

Lemma apply_flags_off (cpu cpu' : cpu_t) i i' a bv :
  eq_off (fun off => off = flags_offset t) cpu cpu' ->
  eq_off (fun off => off = flags_offset t) (apply_flags cpu t i a bv) (apply_flags cpu' t i' a bv).
Proof.
  assert (Hw : forall (c : cpu_t) j, eq_off (fun off => off = flags_offset t) (apply_flags c t j a bv) c).
  { intros c j. unfold apply_flags. destruct (live j =? 0); [apply eq_off_refl|].
    destruct (derive_flags (aux j) a bv) as [[[? ?] ?] ?].
    apply eq_off_set_l; [apply eq_off_refl|reflexivity]. }
  intros [He Ho]. destruct (Hw cpu i) as [E1 W1], (Hw cpu' i') as [E2 W2]. split; [congruence|].
  intros off Hn. rewrite W1, W2, Ho by assumption. reflexivity.
Qed.

Lemma apply_flags_raw cpu i a bv :
  live i <> 0 ->
  cpu_word (apply_flags cpu t i a bv) (flags_offset t) = word_at (apply_flags cpu t i a bv) (flags_offset t).
Proof.
  intros Hl. unfold apply_flags. rewrite (proj2 (Z.eqb_neq _ _)) by assumption.
  destruct (derive_flags (aux i) a bv) as [[[? ?] ?] ?]. unfold word_at, set_word.
  cbn [cpu_word]. rewrite upd_eq, u32_u32. reflexivity.
Qed.

(** SETF kept with fewer flags. *)
Lemma setf_kept lv cpu cpu' i a bv :
  has_flags t = true -> live i = defs i -> Z.land (defs i) lv <> 0 ->
  flags_rel (Z.ldiff lv (defs i)) cpu cpu' ->
  flags_rel lv (apply_flags cpu t i a bv)
               (apply_flags cpu' t (set_live i (Z.land (defs i) lv)) a bv).
Proof.
  intros Hf Hl Hne [Ro Rb Ra]. set (i' := set_live i (Z.land (defs i) lv)).
  assert (Hd : live i <> 0) by (rewrite Hl; intros E; rewrite E in Hne; apply Hne; reflexivity).
  destruct (derive_flags (aux i) a bv) as [[[z s] v] c] eqn:E.
  assert (Hb : forall k, 0 <= k -> bit_live lv k ->
    Z.testbit (word_at (apply_flags cpu t i a bv) (flags_offset t)) k =
    Z.testbit (word_at (apply_flags cpu' t i' a bv) (flags_offset t)) k).
  { intros k Hk Hlv. destruct (Z.lt_ge_cases k 32); [|rewrite !word_at_high by assumption; reflexivity].
    rewrite (apply_flags_bit cpu i a bv k z s v c) by (auto; lia).
    rewrite (apply_flags_bit cpu' i' a bv k z s v c) by (auto; lia).
    rewrite Hl. apply setf_bit_live; [assumption|]. intros Hlv'. apply Rb; assumption. }
  split; [apply apply_flags_off; assumption|assumption|].
  intros [Hall|]; [|congruence].
  apply (eq_off_eq (fun _ => False)); [|auto].
  destruct (apply_flags_off cpu cpu' i i' a bv Ro) as [He Hw]. split; [assumption|].
  intros off _. destruct (Z.eq_dec off (flags_offset t)) as [->|Hno]; [|apply Hw; assumption].
  rewrite !apply_flags_raw by assumption. apply word_bits_eq. intros k Hk. apply Hb; [lia|].
  intros f Hfr _. apply Hall. assumption.
Qed.

(** SETF deleted: none of the flags it writes is live. *)
Lemma setf_dropped lv cpu cpu' i a bv :
  has_flags t = true -> live i = defs i -> 0 <= defs i < 16 -> defs i <> 0 ->
  Z.land (defs i) lv = 0 -> flags_rel lv cpu cpu' ->
  flags_rel lv (apply_flags cpu t i a bv) cpu'.
Proof.
  intros Hf Hl Hr Hd H0 [Ro Rb Ra].
  assert (Hnl : forall f, Z.testbit (defs i) f = true -> Z.testbit lv f = false).
  { intros f Hf1. assert (E : Z.testbit (Z.land (defs i) lv) f = false) by (rewrite H0; apply Z.bits_0).
    rewrite Z.land_spec, Hf1 in E. exact E. }
  destruct (derive_flags (aux i) a bv) as [[[z s] v] c] eqn:E. split.
  - pose proof (apply_flags_off cpu cpu' i (set_live i 0) a bv Ro) as H. exact H.
  - intros k Hk Hlv. destruct (Z.lt_ge_cases k 32); [|rewrite !word_at_high by assumption; reflexivity].
    rewrite (apply_flags_bit cpu i a bv k z s v c) by (try lia; auto; congruence).
    rewrite Hl. rewrite <- (Rb k Hk Hlv). unfold setf_bit.
    assert (Hx : forall f, 0 <= f < 4 -> Z.testbit (defs i) f && Z.testbit (flag_bit t f) k = false).
    { intros f Hfr. destruct (Z.testbit (defs i) f) eqn:Ed; [|reflexivity].
      destruct (Z.testbit (flag_bit t f) k) eqn:Eb; [|reflexivity].
      apply Hnl in Ed. rewrite (Hlv f Hfr Eb) in Ed. discriminate. }
    rewrite !Hx by lia. reflexivity.
  - intros [Hall|]; [|congruence]. exfalso. apply Hd. apply Z.bits_inj'. intros k Hk.
    rewrite Z.bits_0. destruct (Z.lt_ge_cases k 4).
    + destruct (Z.testbit (defs i) k) eqn:Ed; [|reflexivity]. apply Hnl in Ed.
      rewrite Hall in Ed by lia. discriminate.
    + apply Z.bits_above_log2; [lia|]. destruct (Z.eq_dec (defs i) 0) as [->|]; [cbn; lia|].
      apply Z.log2_lt_pow2; [lia|]. apply Z.lt_le_trans with (2 ^ 4); [lia|].
      apply Z.pow_le_mono_r; lia.
Qed.

(** ** One instruction of the walk *)

(** What the backward walk makes of a live instruction. *)
Definition flags_insn (i : emu_ir_insn) (lv : Z) : emu_ir_insn * Z :=
  if defs i =? 0 then (i, Z.lor lv (op_reads_flags i))
  else
    let i' := set_live i (Z.land (defs i) lv) in
    if op_eqb (op i) EMU_IR_SETF && (live i' =? 0) then (set_dead i' true, lv)
    else (i', Z.lor (Z.ldiff lv (defs i)) (op_reads_flags i)).

Lemma pass_dead_flags_cons i l live_out l' lv k :
  pass_dead_flags (i :: l) live_out = (l', lv, k) ->
  exists l1 lv1 k1, pass_dead_flags l live_out = (l1, lv1, k1) /\
    (l', lv) = (if dead i then (i :: l1, lv1)
                else let '(i', lv') := flags_insn i lv1 in (i' :: l1, lv')).
Proof.
  cbn [pass_dead_flags]. destruct (pass_dead_flags l live_out) as [[l1 lv1] k1].
  intros E. exists l1, lv1, k1. split; [reflexivity|]. unfold flags_insn.
  repeat match type of E with (if ?b then _ else _) = _ => destruct b end; injection E as <- <- _; reflexivity.
Qed.

Lemma flags_insn_shape i lv i' lv' :
  flags_insn i lv = (i', lv') ->
  i' = i \/ i' = set_live i (Z.land (defs i) lv) \/
  (op i = EMU_IR_SETF /\ i' = set_dead (set_live i (Z.land (defs i) lv)) true).
Proof.
  unfold flags_insn. intros E. destruct (defs i =? 0); [injection E as <- <-; auto|].
  destruct (op_eqb_spec (op i) EMU_IR_SETF); cbn [andb] in E; [|injection E as <- <-; auto].
  destruct (live _ =? 0); injection E as <- <-; auto.
Qed.

(** Only SETF reads its [live] mask. *)
Lemma step_live_irrelevant i v cpu n a bv c :
  op i <> EMU_IR_SETF -> step t start (set_live i v) cpu n a bv c = step t start i cpu n a bv c.
Proof. intros Ho. unfold step. cbn. destruct (op i); try reflexivity. contradiction. Qed.

(** What has to be observed sees every flag. *)
Lemma observers_all_live i lv i' lv' :
  flags_insn i lv = (i', lv') -> op i <> EMU_IR_SETF ->
  op_reads_flags i = EMU_IR_F_ALL -> all_live lv'.
Proof.
  unfold flags_insn. intros E Ho Hr. destruct (defs i =? 0).
  - injection E as _ <-. rewrite Hr. apply all_live_lor.
  - destruct (op_eqb_spec (op i) EMU_IR_SETF); [contradiction|]. injection E as _ <-. rewrite Hr. apply all_live_lor.
Qed.

(** The relation between the two effects of an instruction. *)
Definition effects_rel (lv : Z) (e e' : effect Ext) : Prop :=
  match e, e' with
  | Quit w cpu n, Quit w' cpu' n' => w = w' /\ cpu = cpu' /\ n = n'
  | Cont cpu n r, Cont cpu' n' r' => flags_rel lv cpu cpu' /\ n = n' /\ r = r'
  | _, _ => False
  end.

Lemma effects_rel_refl lv e : effects_rel lv e e.
Proof. destruct e; cbn; auto using flags_rel_refl. Qed.

Lemma reg_not_flags n : has_flags t = true -> valid_reg n = true -> reg_is_zero_at t n = false ->
  ~ reg_offset t n = flags_offset t.
Proof. apply law_flags_reg. Qed.

(** An instruction that neither observes the state nor touches the flags. *)
Lemma flags_neutral lv i cpu cpu' n a bv c :
  flags_rel lv cpu cpu' -> has_flags t = true -> use_ok t i = true ->
  op_observes_state (op i) = false -> op_reads_flags i = 0 -> op i <> EMU_IR_SETF ->
  interp_models_insn t i = true -> dead i = false ->
  effects_rel lv (step t start i cpu n a bv c) (step t start i cpu' n a bv c).
Proof.
  intros [Ro Rb Ra] Hf Hu Ho Hr Hs Hm Hd.
  assert (Hfr : forall fo, freg_offset t = Some fo -> valid_freg (imm i) = true ->
     fo (imm i) <> flags_offset t /\ fo (imm i) + 4 <> flags_offset t).
  { intros fo Hfo Hv. split; eapply law_freg_apart; eauto. }
  assert (Hav : avoids t (fun off => off = flags_offset t) i).
  { unfold avoids, use_ok, op_reads_flags in *.
    destruct (op i); auto; try discriminate; try contradiction.
    - intros Hz. apply law_flags_reg; assumption.
    - destruct (freg_offset t) as [fo|]; auto. }
  assert (Hnw : ~ writes_off t i (flags_offset t)).
  { unfold writes_off, use_ok in *. destruct (op i); auto.
    - intros [Hz E]. symmetry in E. revert E. apply law_flags_reg; assumption.
    - destruct (freg_offset t) as [fo|]; [|auto]. destruct (Hfr fo eq_refl Hu). intuition congruence.
    - intros E. symmetry in E. revert E. apply law_flags_pc. assumption. }
  destruct (step_frame t start _ i cpu cpu' n a bv c Ro Hav Hu Ho Hm Hd)
    as (c1 & c1' & n1 & r & Es & Es' & He & Hw).
  rewrite Es, Es'. destruct (Hw _ Hnw) as [E1 E2]. cbn. split; [|auto]. split.
  - eapply eq_off_mono; [exact He|]. cbv beta. tauto.
  - unfold word_at. rewrite E1, E2. exact Rb.
  - intros Hall. rewrite (Ra Hall), Es' in Es. congruence.
Qed.

(** Every instruction, as the walk leaves it. *)
Lemma flags_insn_step lv i i' lv' cpu cpu' n a bv c :
  flags_insn i lv = (i', lv') -> flags_rel lv' cpu cpu' ->
  use_ok t i = true -> front_insn i = true -> interp_models_insn t i = true -> dead i = false ->
  (op i = EMU_IR_EXIT -> all_live lv) ->
  (dead i' = true /\ exists cpu1, step t start i cpu n a bv c = Cont cpu1 n None /\ flags_rel lv cpu1 cpu') \/
  (dead i' = false /\ effects_rel lv (step t start i cpu n a bv c) (step t start i' cpu' n a bv c)).
Proof.
  intros E R Hu Hf Hm Hd Hx. destruct (op_eqb_spec (op i) EMU_IR_SETF) as [Hs|Hs].
  - unfold use_ok, front_insn in *. rewrite Hs in *. bool_hyps. unfold flags_insn in E.
    unfold step. rewrite Hs in *. destruct (Z.eqb_spec (defs i) 0) as [E0|E0].
    + injection E as <- <-. right. split; [assumption|]. rewrite Hs.
      unfold apply_flags. rewrite (proj2 (Z.eqb_eq (live i) 0)) by lia.
      unfold op_reads_flags in R. rewrite Hs, Z.lor_0_r in R. cbn. auto.
    + cbn [live set_live] in E. change (op_eqb EMU_IR_SETF EMU_IR_SETF) with true in E. cbn [andb] in E.
      destruct (Z.eqb_spec (Z.land (defs i) lv) 0) as [El|El]; injection E as <- <-.
      * left. split; [reflexivity|]. eexists. split; [reflexivity|]. apply setf_dropped; auto.
      * right. split; [assumption|]. cbn [op set_live]. rewrite Hs. cbn.
        unfold op_reads_flags in R. rewrite Hs, Z.lor_0_r in R. split; [|auto]. apply setf_kept; auto.
  - assert (Hi' : dead i' = false /\ forall cp, step t start i' cp n a bv c = step t start i cp n a bv c).
    { destruct (flags_insn_shape _ _ _ _ E) as [->|[->|[Hc _]]]; [auto| |contradiction].
      split; [assumption|]. intros cp. apply step_live_irrelevant. assumption. }
    destruct Hi' as [Hd' Hi']. right. split; [assumption|]. rewrite Hi'.
    assert (Heq : all_live lv' \/ has_flags t = false ->
      effects_rel lv (step t start i cpu n a bv c) (step t start i cpu' n a bv c)).
    { intros Hall. rewrite (rel_all _ _ _ R Hall). apply effects_rel_refl. }
    destruct (has_flags t) eqn:Hhf; [|apply Heq; auto].
    destruct (Z.eq_dec (op_reads_flags i) EMU_IR_F_ALL) as [Hr|Hr].
    { apply Heq. left. eapply observers_all_live; eauto. }
    assert (Hr0 : op_reads_flags i = 0) by (unfold op_reads_flags in *; destruct (op i); congruence).
    assert (Hlv : lv' = lv).
    { unfold flags_insn in E. unfold front_insn in Hf. unfold op_reads_flags in Hr.
      destruct (defs i =? 0); [injection E as _ <-; rewrite Hr0; apply Z.lor_0_r|].
      destruct (op i); bool_hyps; try discriminate; congruence. }
    subst lv'. destruct (op_eqb_spec (op i) EMU_IR_EXIT) as [Hex|Hex]; [apply Heq; auto|].
    apply flags_neutral; auto. unfold op_reads_flags in Hr0.
    destruct (op i); try reflexivity; try discriminate; contradiction.
Qed.

(** ** The walk *)

Lemma dead_flags_all_dead l live_out l' lv k :
  Forall (fun j => dead j = true) l -> pass_dead_flags l live_out = (l', lv, k) -> lv = live_out.
Proof.
  revert l' lv k. induction l as [|i l IH]; intros l' lv k Hd E; [injection E as _ <- _; reflexivity|].
  apply Forall_cons in Hd as [Hi Hd]. apply pass_dead_flags_cons in E as (l1 & lv1 & k1 & E1 & E).
  rewrite Hi in E. injection E as -> ->. eapply IH; eauto.
Qed.

Lemma dead_flags_run l : forall l' lv k tmp cpu cpu' n,
  uses_ok t l -> fronts_ok l -> exit_last l -> interp_models l t = true ->
  pass_dead_flags l EMU_IR_F_ALL = (l', lv, k) -> flags_rel lv cpu cpu' ->
  obs (run t start l tmp cpu n) = obs (run t start l' tmp cpu' n).
Proof.
  induction l as [|i l IH]; intros l' lv k tmp cpu cpu' n Hu Hf Hx Hm E R.
  { injection E as <- <- _. rewrite (rel_all _ _ _ R); [reflexivity|]. left. apply all_live_ALL. }
  apply Forall_cons in Hu as [Hui Hu]. apply Forall_cons in Hf as [Hfi Hf].
  destruct Hx as [Hxi Hx]. unfold interp_models in Hm. cbn in Hm. apply andb_true_iff in Hm as [Hmi Hm].
  apply pass_dead_flags_cons in E as (l1 & lv1 & k1 & E1 & E). cbn [run].
  destruct (dead i) eqn:Hd.
  - injection E as -> ->. cbn [run]. rewrite Hd. eapply IH; eauto.
  - destruct (flags_insn i lv1) as [i' lv'] eqn:Ei. injection E as -> ->.
    assert (Hxa : op i = EMU_IR_EXIT -> all_live lv1).
    { intros Hex. rewrite (dead_flags_all_dead l _ _ _ _ (Hxi eq_refl Hex) E1). apply all_live_ALL. }
    assert (Hops : opa i' = opa i /\ opb i' = opb i /\ opc i' = opc i /\ dst i' = dst i)
      by (destruct (flags_insn_shape _ _ _ _ Ei) as [->|[->|[_ ->]]]; auto).
    destruct Hops as (Ea & Eb & Ec & Edst). cbn [run]. unfold step_at. rewrite Ea, Eb, Ec, Edst.
    destruct (flags_insn_step lv1 i i' lv' cpu cpu' n (operand tmp (opa i)) (operand tmp (opb i))
                (operand tmp (opc i)) Ei R (Hui eq_refl) (Hfi eq_refl) Hmi Hd Hxa)
      as [(Hd' & cpu1 & -> & R1)|(Hd' & He)]; rewrite Hd'.
    + cbn [write_dst]. eapply IH; eauto.
    + destruct (step t start i cpu _ _ _ _), (step t start i' cpu' _ _ _ _); cbn in He; try contradiction.
      * destruct He as (R1 & -> & ->). eapply IH; eauto.
      * destruct He as (-> & -> & ->). reflexivity.
Qed.

Lemma dead_flags_static l : forall D live_out l' lv k,
  wf D l -> fronts_ok l -> pass_dead_flags l live_out = (l', lv, k) ->
  wf D l' /\ Forall2 keeps l l' /\ puts_ok l'.
Proof.
  induction l as [|i l IH]; intros D live_out l' lv k Hwf Hf E.
  { injection E as <- _ _. repeat constructor. }
  destruct Hwf as [Hi Hwf]. apply Forall_cons in Hf as [Hfi Hf].
  apply pass_dead_flags_cons in E as (l1 & lv1 & k1 & E1 & E).
  destruct (IH _ _ _ _ _ Hwf Hf E1) as (Hw1 & Hk1 & Hp1).
  assert (Hkeep : forall i', (i' = i \/ i' = set_live i (Z.land (defs i) lv1)) ->
    wf D (i' :: l1) /\ Forall2 keeps (i :: l) (i' :: l1) /\ puts_ok (i' :: l1)).
  { intros i' Hi'. assert (Ew : wrote i' = wrote i) by (destruct Hi' as [-> | ->]; reflexivity).
    split; [|split].
    - cbn [wf]. rewrite Ew. split; [|assumption]. destruct Hi' as [-> | ->]; exact Hi.
    - constructor; [|assumption]. destruct Hi' as [-> | ->]; [apply keeps_refl|]. unfold keeps. cbn. destruct (dead i); auto 10.
    - constructor; [|assumption]. intros Hd. assert (Hp : put_present i = true).
      { assert (Hdi : dead i = false) by (destruct Hi' as [-> | ->]; assumption).
        specialize (Hfi Hdi). unfold front_insn, put_present in *. destruct (op i); auto. bool_hyps.
        apply negb_true_iff, Z.eqb_neq. assumption. }
      destruct Hi' as [-> | ->]; exact Hp. }
  destruct (dead i) eqn:Hd; [injection E as -> ->; auto|].
  destruct (flags_insn i lv1) as [i' lv'] eqn:Ei. injection E as -> ->.
  destruct (flags_insn_shape _ _ _ _ Ei) as [->|[->|[Ho ->]]]; [auto|auto|].
  assert (Ew : wrote i = ∅) by (unfold wrote; rewrite Hd, Ho; reflexivity).
  rewrite Ew in Hw1. split; [|split].
  - cbn [wf]. split; [discriminate|]. exact Hw1.
  - constructor; [left; reflexivity|assumption].
  - constructor; [discriminate|assumption].
Qed.

Lemma pass_dead_flags_ok l l' lv k :
  frontend_block t l -> interp_models l t = true ->
  pass_dead_flags l EMU_IR_F_ALL = (l', lv, k) ->
  wf ∅ l' /\ blk_equiv t start l l' /\ Forall2 keeps l l' /\ puts_ok l'.
Proof.
  intros (Hwf & Hu & Hf & Hx & _) Hm E.
  destruct (dead_flags_static l ∅ _ _ _ _ Hwf Hf E) as (Hw' & Hk & Hp).
  split; [assumption|]. split; [|auto]. intros tmp tmp' cpu n.
  rewrite (run_independent t start l ∅ tmp tmp') by (auto; set_solver).
  eapply dead_flags_run; eauto using flags_rel_refl.
Qed.

End Flags.
