(* ===== verification/IrDead.v ===== *)
(** * The passes that delete

    [pass_dead_puts] and [pass_dead_values] of [emu_ir.c]. *)

From stdpp Require Import base list gmap.
From Stdlib Require Import ZArith Lia FunctionalExtensionality.
From S2P Require Import Prelude IrTypes IrFloat IrInterp IrPasses IrSem IrSubst IrLaws IrTraffic.

Open Scope Z_scope.
Open Scope u32_scope.

(** * Dead guest register and pc writes

    [pass_dead_puts] is correct on what [pass_reg_traffic] leaves.  A deleted
    PUT or SETPC is pending until the write that replaces it; the words that
    may differ meanwhile ([pending]) are those of registers that will be
    rewritten before anything observes the state and that no GET reads any
    more, and the pc once a later instruction writes it. *)

Section DeadPuts.
Context {Ext : Type} {Cfg : IrConfig}.
#[local] Abbreviation cpu_t := (emu_cpu Ext).
#[local] Abbreviation target_t := (emu_ir_target Ext).
Context (t : target_t) {L : TargetLaws t} (start : Z).
#[local] Abbreviation pcr := (pc_reg (Some t)).

Definition pending (seen : Z -> bool) (pcw : bool) (K : Z -> bool) (off : Z) : Prop :=
  (exists n, n < IR_MAX_GUEST_REGS /\ valid_reg n = true /\ reg_is_zero_at t n = false /\
        seen n = true /\ K n = true /\ off = reg_offset t n) \/
  (pcw = true /\ off = pc_offset t).

Lemma pending_none K off : ~ pending (fun _ => false) false K off.
Proof. intros [(n & _ & _ & _ & E & _)|[E _]]; discriminate. Qed.

Lemma pending_pc (pcw : bool) K off : pending (fun _ => false) pcw K off -> pcw = true /\ off = pc_offset t.
Proof. intros [(n & _ & _ & _ & E & _)|E]; [discriminate|assumption]. Qed.

Lemma pending_mono seen (pcw pcw' : bool) K K' off :
  pending seen pcw K off -> (forall n, K n = true -> K' n = true) -> (pcw = true -> pcw' = true) ->
  pending seen pcw' K' off.
Proof. intros [(n & H)|[E ->]] HK Hp; [left; exists n|right]; intuition. Qed.

(** The register [pc_reg] finds is the pc. *)
Lemma pc_reg_offset : pcr < IR_MAX_GUEST_REGS -> reg_offset t pcr = pc_offset t.
Proof.
  unfold pc_reg, reg_offset. destruct (t_reg_offset t) as [ro|] eqn:Er; [|unfold IR_MAX_GUEST_REGS; lia].
  destruct (List.find _ _) as [n|] eqn:Ef; [|unfold IR_MAX_GUEST_REGS; lia].
  intros _. apply List.find_some in Ef as [_ E]. apply Z.eqb_eq. assumption.
Qed.

Lemma reg_is_pc_spec n : reg_is_pc t n = true <-> reg_offset t n = pc_offset t.
Proof.
  unfold reg_is_pc, reg_offset. destruct law_regs_present as [ro Er]. rewrite Er. apply Z.eqb_eq.
Qed.

(** What an instruction that reads the guest state reads is not pending. *)
Lemma pending_freg seen pcw K fo n off :
  freg_offset t = Some fo -> valid_freg n = true -> (off = fo n \/ off = fo n + 4) ->
  ~ pending seen pcw K off.
Proof.
  intros Hf Hv Ho. destruct (law_freg_apart fo n off Hf Hv Ho) as (Hpc & _ & Hr).
  intros [(m & _ & Hm & Hz & _ & _ & E)|[_ E]]; [eapply Hr; eauto|contradiction].
Qed.

Lemma pending_flags seen pcw K : has_flags t = true -> ~ pending seen pcw K (flags_offset t).
Proof.
  intros Hf [(m & _ & Hm & Hz & _ & _ & E)|[_ E]].
  - symmetry in E. revert E. apply law_flags_reg; assumption.
  - symmetry in E. revert E. apply law_flags_pc. assumption.
Qed.

Lemma pending_get seen (pcw : bool) K n :
  valid_reg n = true -> reg_is_zero_at t n = false ->
  (tracked t n = true -> K n = false) ->
  ~ pending seen (if reg_is_pc t n then false else pcw) K (reg_offset t n).
Proof.
  intros Hv Hz HK [(m & Hm & Hvm & Hzm & _ & HKm & E)|[Hp E]].
  - apply law_reg_inj in E; auto. subst m. rewrite HK in HKm; [discriminate|].
    unfold tracked. rewrite Hz. apply andb_true_iff. split; [apply Z.ltb_lt; assumption|reflexivity].
  - apply reg_is_pc_spec in E. rewrite E in Hp. discriminate.
Qed.

(** ** One instruction of the walk *)

Definition puts_insn (i : emu_ir_insn) (seen : Z -> bool) (pcw : bool) : emu_ir_insn * (Z -> bool) * bool :=
  let '(i', seen', pcw', _, _) := dead_puts_insn (Some t) i seen pcw in (i', seen', pcw').

Definition known_after (K : Z -> bool) (i : emu_ir_insn) : Z -> bool :=
  if skel_op (op i) then known_next t pcr K (op i) (imm i) else K.

(** The relation between the two effects of an instruction. *)
Definition puts_rel (S : Z -> Prop) (e e' : effect Ext) : Prop :=
  match e, e' with
  | Quit w cpu n, Quit w' cpu' n' => w = w' /\ cpu = cpu' /\ n = n'
  | Cont cpu n r, Cont cpu' n' r' => eq_off S cpu cpu' /\ n = n' /\ r = r'
  | _, _ => False
  end.

Lemma puts_rel_refl S e : puts_rel S e e.
Proof. destruct e; cbn; auto using eq_off_refl. Qed.

Lemma puts_rel_framed (S S' : Z -> Prop) i cpu cpu' e e' :
  framed t S i cpu cpu' e e' -> (forall off, S off -> ~ fixes t i off -> S' off) -> puts_rel S' e e'.
Proof.
  intros (c1 & c1' & n1 & r & -> & -> & He & _) HS. cbn. split; [|auto].
  eapply eq_off_mono; [exact He|]. cbv beta. intros off [H1 H2]. auto.
Qed.

Lemma known_after_put K i n :
  op i = EMU_IR_PUT \/ op i = EMU_IR_GET -> K n = true -> known_after K i n = true.
Proof.
  intros Ho HK. unfold known_after.
  destruct Ho as [-> | ->]; cbn [skel_op known_next]; (destruct (tracked t (imm i)); [|assumption]);
    unfold upd; destruct (n =? imm i); auto.
Qed.

Lemma known_after_other K i : skel_op (op i) = false -> known_after K i = K.
Proof. unfold known_after. intros ->. reflexivity. Qed.

(** Writes of the pc leave no difference there. *)
Lemma eq_off_pc (pcw : bool) K (cpu cpu' : cpu_t) v :
  eq_off (pending (fun _ => false) pcw K) cpu cpu' ->
  set_word cpu (pc_offset t) v = set_word cpu' (pc_offset t) v.
Proof.
  intros He. eapply eq_off_eq; [apply eq_off_set; exact He|]. cbv beta.
  intros off [Hp Hne]. apply pending_pc in Hp as [_ Hp]. contradiction.
Qed.

(** An instruction that observes the state. *)
Lemma puts_observer K i seen pcw i' seen' pcw' cpu cpu' n a bv c :
  puts_insn i seen pcw = (i', seen', pcw') -> op_observes_state (op i) = true ->
  eq_off (pending seen' pcw' K) cpu cpu' ->
  i' = i /\ puts_rel (pending seen pcw (known_after K i))
    (step t start i cpu n a bv c) (step t start i cpu' n a bv c).
Proof.
  unfold puts_insn, dead_puts_insn. intros E Ho He.
  destruct (op i) eqn:Hop; try discriminate; injection E as <- <- <-;
    (split; [reflexivity|]);
    try (rewrite (eq_off_eq _ cpu cpu' He (pending_none K)); apply puts_rel_refl).
  - unfold step, write_pc. rewrite Hop. cbn. rewrite (eq_off_pc _ _ _ _ _ He). auto.
  - unfold step. rewrite Hop. destruct (eval_value_cond a bv (aux i)).
    + cbn. rewrite (eq_off_pc _ _ _ _ _ He). auto.
    + cbn. split; [|auto]. apply (eq_off_mono _ _ _ _ He). intros off Hp.
      apply pending_pc in Hp. right. assumption.
Qed.

(** PUT. *)
Lemma puts_put K i seen pcw i' seen' pcw' cpu cpu' n a bv c :
  op i = EMU_IR_PUT -> dead i = false -> use_ok t i = true -> interp_models_insn t i = true ->
  puts_insn i seen pcw = (i', seen', pcw') -> eq_off (pending seen' pcw' K) cpu cpu' ->
  (i' = set_dead i true /\ exists cpu1, step t start i cpu n a bv c = Cont cpu1 n None /\
     eq_off (pending seen pcw (known_after K i)) cpu1 cpu') \/
  (i' = i /\ puts_rel (pending seen pcw (known_after K i))
    (step t start i cpu n a bv c) (step t start i cpu' n a bv c)).
Proof.
  intros Hop Hd Hu Hm E He. unfold puts_insn, dead_puts_insn in E. rewrite Hop in E.
  assert (Hkept : forall s', (forall m, s' m = true -> m <> imm i -> seen m = true) ->
    eq_off (pending s' pcw K) cpu cpu' ->
    puts_rel (pending seen pcw (known_after K i)) (step t start i cpu n a bv c) (step t start i cpu' n a bv c)).
  { intros s' Hs' He'. eapply puts_rel_framed.
    - apply (step_frame t start); eauto; unfold avoids; rewrite Hop; [exact I|reflexivity].
    - intros off [(m & Hm64 & Hv & Hz & Hs & HK & ->)|Hp] Hfix; [left|right; assumption].
      exists m. repeat split; auto; [|apply known_after_put; auto].
      apply Hs'; [assumption|]. intros ->. apply Hfix. unfold fixes, writes_off. rewrite Hop. auto. }
  destruct (Z.ltb_spec (imm i) IR_MAX_GUEST_REGS) as [Hlt|Hge].
  - destruct (seen (imm i)) eqn:Hs; injection E as <- <- <-.
    + left. split; [reflexivity|]. unfold step. rewrite Hop. eexists. split; [reflexivity|].
      assert (He' : eq_off (pending seen pcw (known_after K i)) cpu cpu').
      { eapply eq_off_mono; [exact He|]. intros off Hp. eapply pending_mono; eauto.
        intros m Hm1. apply known_after_put; auto. }
      destruct (reg_is_zero_at t (imm i)) eqn:Hz; [assumption|]. apply eq_off_set_l; [assumption|].
      left. exists (imm i). unfold use_ok in Hu. rewrite Hop in Hu. repeat split; auto.
      unfold known_after, known_next, tracked. rewrite Hop, Hz. cbn [skel_op negb].
      rewrite (proj2 (Z.ltb_lt _ _)) by assumption. apply upd_eq.
    + right. split; [reflexivity|]. eapply Hkept; [|exact He]. intros m Hm1 Hne.
      rewrite upd_ne in Hm1 by assumption. assumption.
  - injection E as <- <- <-. right. split; [reflexivity|]. eapply Hkept; [|exact He]. auto.
Qed.

(** SETPC. *)
Lemma puts_setpc K i seen pcw i' seen' pcw' cpu cpu' n a bv c :
  op i = EMU_IR_SETPC -> dead i = false -> use_ok t i = true -> interp_models_insn t i = true ->
  puts_insn i seen pcw = (i', seen', pcw') -> eq_off (pending seen' pcw' K) cpu cpu' ->
  (i' = set_dead i true /\ exists cpu1, step t start i cpu n a bv c = Cont cpu1 n None /\
     eq_off (pending seen pcw (known_after K i)) cpu1 cpu') \/
  (i' = i /\ puts_rel (pending seen pcw (known_after K i))
    (step t start i cpu n a bv c) (step t start i cpu' n a bv c)).
Proof.
  intros Hop Hd Hu Hm E He. unfold puts_insn, dead_puts_insn in E. rewrite Hop in E.
  assert (HK : forall m, K m = true -> known_after K i m = true \/ reg_offset t m = pc_offset t).
  { intros m HKm. unfold known_after. rewrite Hop. cbn [skel_op known_next].
    destruct (Z.ltb_spec pcr IR_MAX_GUEST_REGS) as [Hl|]; [|auto]. unfold upd.
    destruct (Z.eqb_spec m pcr) as [->|]; [right; apply pc_reg_offset; assumption|auto]. }
  destruct pcw; injection E as <- <- <-.
  - left. split; [reflexivity|]. unfold step, write_pc. rewrite Hop. eexists. split; [reflexivity|].
    apply eq_off_set_l; [|right; auto]. apply (eq_off_mono _ _ _ _ He).
    intros off [(m & H1 & H2 & H3 & H4 & H5 & ->)|Hp]; [|right; assumption].
    destruct (HK m H5) as [HK'|Hpc]; [left; exists m; auto 10|right; auto].
  - right. split; [reflexivity|]. eapply puts_rel_framed.
    + apply (step_frame t start); eauto; unfold avoids; rewrite Hop; [exact I|reflexivity].
    + intros off Hp Hfix. unfold fixes, writes_off in Hfix. rewrite Hop in Hfix.
      destruct Hp as [(m & H1 & H2 & H3 & H4 & H5 & ->)|[_ Hp]]; [|contradiction].
      destruct (HK m H5) as [HK'|Hpc]; [left; exists m; auto 10|contradiction].
Qed.

(** Everything else. *)
Lemma puts_neutral K i seen pcw i' seen' pcw' cpu cpu' n a bv c :
  op i <> EMU_IR_PUT -> op i <> EMU_IR_SETPC -> op_observes_state (op i) = false ->
  dead i = false -> use_ok t i = true -> interp_models_insn t i = true ->
  (op i = EMU_IR_GET -> tracked t (imm i) = true -> K (imm i) = false) ->
  puts_insn i seen pcw = (i', seen', pcw') -> eq_off (pending seen' pcw' K) cpu cpu' ->
  i' = i /\ puts_rel (pending seen pcw (known_after K i))
    (step t start i cpu n a bv c) (step t start i cpu' n a bv c).
Proof.
  intros Hp Hs Ho Hd Hu Hm HK E He.
  assert (Hi : i' = i /\ seen' = seen /\
    pcw' = (if op_eqb (op i) EMU_IR_GET then if reg_is_pc t (imm i) then false else pcw else pcw)).
  { unfold puts_insn, dead_puts_insn in E.
    destruct (op i); try contradiction; try discriminate; injection E as <- <- <-; auto. }
  destruct Hi as (-> & -> & ->). split; [reflexivity|]. eapply puts_rel_framed.
  - apply (step_frame t start); [exact He| |assumption..]. unfold avoids, use_ok in *.
    destruct (op i) eqn:Hop; auto using pending_flags.
    + intros Hz. apply pending_get; auto.
    + destruct (freg_offset t) as [fo|] eqn:Hf; [|exact I]. split; eapply pending_freg; eauto.
  - intros off Hpd _. eapply pending_mono; [exact Hpd| |].
    + intros m HKm. destruct (op_eqb_spec (op i) EMU_IR_GET) as [Hg|Hg]; [apply known_after_put; auto|].
      rewrite known_after_other; [assumption|]. destruct (op i); try reflexivity; contradiction || discriminate.
    + destruct (op_eqb (op i) EMU_IR_GET); [destruct (reg_is_pc t (imm i)); [discriminate|]|]; auto.
Qed.

(** ** The walk *)

Lemma puts_insn_step K i seen pcw i' seen' pcw' cpu cpu' n a bv c :
  dead i = false -> use_ok t i = true -> interp_models_insn t i = true ->
  (op i = EMU_IR_GET -> tracked t (imm i) = true -> K (imm i) = false) ->
  puts_insn i seen pcw = (i', seen', pcw') -> eq_off (pending seen' pcw' K) cpu cpu' ->
  (i' = set_dead i true /\ exists cpu1, step t start i cpu n a bv c = Cont cpu1 n None /\
     eq_off (pending seen pcw (known_after K i)) cpu1 cpu') \/
  (i' = i /\ puts_rel (pending seen pcw (known_after K i))
    (step t start i cpu n a bv c) (step t start i cpu' n a bv c)).
Proof.
  intros Hd Hu Hm HK E He. destruct (op_observes_state (op i)) eqn:Ho.
  { right. eapply puts_observer; eauto. }
  destruct (op_eqb_spec (op i) EMU_IR_PUT); [eapply puts_put; eauto|].
  destruct (op_eqb_spec (op i) EMU_IR_SETPC); [eapply puts_setpc; eauto|].
  right. eapply puts_neutral; eauto.
Qed.

Lemma dead_puts_cons i l l' seen pcw p s :
  dead_puts_walk (Some t) (i :: l) = (l', seen, pcw, p, s) ->
  exists l1 seen1 pcw1 p1 s1, dead_puts_walk (Some t) l = (l1, seen1, pcw1, p1, s1) /\
    (if dead i then l' = i :: l1 /\ seen = seen1 /\ pcw = pcw1
     else exists i', puts_insn i seen1 pcw1 = (i', seen, pcw) /\ l' = i' :: l1).
Proof.
  cbn [dead_puts_walk]. destruct (dead_puts_walk (Some t) l) as [[[[l1 seen1] pcw1] p1] s1].
  intros E. exists l1, seen1, pcw1, p1, s1. split; [reflexivity|].
  destruct (dead i); [injection E as <- <- <- _ _; auto|]. unfold puts_insn.
  destruct (dead_puts_insn (Some t) i seen1 pcw1) as [[[[i' seen'] pcw'] dp] ds].
  injection E as <- <- <- _ _. eauto.
Qed.

Lemma traffic_skel_cons K i l :
  dead i = false -> traffic_skel t pcr K (skel (i :: l)) ->
  (op i = EMU_IR_GET -> tracked t (imm i) = true -> K (imm i) = false) /\
  traffic_skel t pcr (known_after K i) (skel l).
Proof.
  intros Hd. cbn [skel]. rewrite Hd. cbn [negb andb]. unfold known_after.
  destruct (skel_op (op i)) eqn:E; [auto|]. intros H. split; [|assumption].
  intros Ho. rewrite Ho in E. discriminate.
Qed.

Lemma dead_puts_run l : forall l' seen pcw p s K tmp cpu cpu' n,
  uses_ok t l -> interp_models l t = true -> traffic_skel t pcr K (skel l) ->
  dead_puts_walk (Some t) l = (l', seen, pcw, p, s) -> eq_off (pending seen pcw K) cpu cpu' ->
  obs (run t start l tmp cpu n) = obs (run t start l' tmp cpu' n).
Proof.
  induction l as [|i l IH]; intros l' seen pcw p s K tmp cpu cpu' n Hu Hm HK E He.
  { injection E as <- <- <- _ _. rewrite (eq_off_eq _ cpu cpu' He (pending_none K)). reflexivity. }
  apply Forall_cons in Hu as [Hui Hu]. unfold interp_models in Hm. cbn in Hm.
  apply andb_true_iff in Hm as [Hmi Hm].
  apply dead_puts_cons in E as (l1 & seen1 & pcw1 & p1 & s1 & E1 & E). cbn [run].
  destruct (dead i) eqn:Hd.
  - destruct E as (-> & -> & ->). cbn [run]. rewrite Hd. cbn [skel] in HK. rewrite Hd in HK. eapply IH; eauto.
  - destruct E as (i' & Ei & ->). destruct (traffic_skel_cons K i l Hd HK) as [HKi HK'].
    cbn [run]. unfold step_at.
    destruct (puts_insn_step K i seen1 pcw1 i' seen pcw cpu cpu' n (operand tmp (opa i))
      (operand tmp (opb i)) (operand tmp (opc i)) Hd (Hui eq_refl) Hmi HKi Ei He)
      as [(-> & cpu1 & -> & He1)|(-> & Hr)].
    + cbn [dead set_dead write_dst]. eapply IH; eauto.
    + rewrite Hd. destruct (step t start i cpu _ _ _ _), (step t start i cpu' _ _ _ _); cbn in Hr; try contradiction.
      * destruct Hr as (He1 & -> & ->). eapply IH; eauto.
      * destruct Hr as (-> & -> & ->). reflexivity.
Qed.

(** Only instructions without a result are deleted. *)
Lemma puts_insn_shape i seen pcw i' seen' pcw' :
  puts_insn i seen pcw = (i', seen', pcw') ->
  i' = i \/ (op_writes (op i) = false /\ i' = set_dead i true).
Proof.
  unfold puts_insn, dead_puts_insn. intros E.
  destruct (op i); cbn [op_observes_state] in E; try (injection E as <- _ _; auto; fail);
    repeat match type of E with
    | context [if ?b then _ else _] => destruct b
    end; injection E as <- _ _; auto.
Qed.

Lemma dead_puts_static l : forall D l' seen pcw p s,
  wf D l -> dead_puts_walk (Some t) l = (l', seen, pcw, p, s) -> wf D l' /\ Forall2 keeps l l'.
Proof.
  induction l as [|i l IH]; intros D l' seen pcw p s Hwf E.
  { injection E as <- _ _ _ _. repeat constructor. }
  destruct Hwf as [Hi Hwf]. apply dead_puts_cons in E as (l1 & seen1 & pcw1 & p1 & s1 & E1 & E).
  destruct (IH _ _ _ _ _ _ Hwf E1) as [Hw1 Hk1].
  destruct (dead i) eqn:Hd.
  - destruct E as (-> & _ & _). split; [split; [rewrite Hd; discriminate|assumption]|].
    constructor; auto using keeps_refl.
  - destruct E as (i' & Ei & ->). destruct (puts_insn_shape _ _ _ _ _ _ Ei) as [->|[Hw ->]].
    + split; [split; auto|]. constructor; auto using keeps_refl.
    + assert (Ew : wrote i = ∅) by (unfold wrote; rewrite Hd, Hw; reflexivity). rewrite Ew in Hw1.
      split; [split; [discriminate|exact Hw1]|]. constructor; [left; reflexivity|assumption].
Qed.

Lemma pass_dead_puts_ok l l' p s :
  wf ∅ l -> uses_ok t l -> interp_models l t = true ->
  traffic_skel t pcr (fun _ => false) (skel l) -> pass_dead_puts l (Some t) = (l', p, s) ->
  wf ∅ l' /\ blk_equiv t start l l' /\ Forall2 keeps l l'.
Proof.
  intros Hwf Hu Hm HK E. unfold pass_dead_puts in E.
  destruct (dead_puts_walk (Some t) l) as [[[[l1 seen] pcw] p1] s1] eqn:E1. injection E as <- _ _.
  destruct (dead_puts_static l ∅ _ _ _ _ _ Hwf E1) as [Hw1 Hk1].
  split; [assumption|]. split; [|assumption]. intros tmp tmp' cpu n.
  rewrite (run_independent t start l ∅ tmp tmp') by (auto; set_solver).
  eapply dead_puts_run; eauto using eq_off_refl.
Qed.

End DeadPuts.

(** * Dead values

    [pass_dead_values] is correct: a value nothing reads any more is not
    computed.  The two runs agree on the temps that are still read. *)

Section DeadValues.
Context {Ext : Type} {Cfg : IrConfig}.
#[local] Abbreviation cpu_t := (emu_cpu Ext).
#[local] Abbreviation target_t := (emu_ir_target Ext).
Context (t : target_t) (start : Z).

Definition all_temps (D : gset Z) : Prop := forall x, x ∈ D -> is_temp x = true.

Lemma all_temps_wrote D i : all_temps D -> wf_insn D i -> dead i = false -> all_temps (D ∪ wrote i).
Proof.
  intros HD (_ & _ & Hw) Hd x Hx. apply elem_of_union in Hx as [Hx|Hx]; [auto|].
  apply wrote_dst in Hx as [-> Hx]; [|assumption]. rewrite Hx in Hw. apply Hw.
Qed.

Lemma mark_used_spec used y x : mark_used used y x = used x || (is_temp y && (x =? y)).
Proof.
  unfold mark_used, upd. destruct (is_temp y); cbn [andb]; [|rewrite orb_false_r; reflexivity].
  destruct (x =? y); rewrite ?orb_true_r, ?orb_false_r; reflexivity.
Qed.

Lemma mark_operands_keep used i x : used x = true -> mark_operands used i x = true.
Proof. intros Hx. unfold mark_operands. rewrite !mark_used_spec, Hx. reflexivity. Qed.

Lemma mark_operands_read D used i x :
  all_temps D -> wf_insn D i -> In x (reads i) -> mark_operands used i x = true.
Proof.
  intros HD (_ & Hr & _) Hx. rewrite Forall_forall in Hr.
  assert (Ht : is_temp x = true) by (apply HD, Hr, list_elem_of_In; assumption).
  apply filter_In in Hx as [Hx _]. cbn in Hx. unfold mark_operands. rewrite !mark_used_spec.
  destruct Hx as [<-|[<-|[<-|[]]]]; rewrite Ht, Z.eqb_refl; cbn [andb]; rewrite ?orb_true_r; reflexivity.
Qed.

(** A pure instruction does nothing but compute its value. *)
Lemma pure_step i cpu n a bv c :
  op_is_pure (op i) = true -> interp_models_insn t i = true -> dead i = false ->
  exists v, step t start i cpu n a bv c = Cont cpu n (Some v).
Proof.
  intros Hp Hm Hd. destruct (is_alu (op i)) eqn:Ea; [rewrite step_alu by assumption; eauto|].
  unfold interp_models_insn in Hm. rewrite Hd in Hm. cbn [orb] in Hm. unfold step.
  destruct (op i); try discriminate; eauto.
  apply bool_decide_eq_true in Hm as [fo ->]. eauto.
Qed.

Lemma dead_values_cons i l l' used k :
  dead_values_walk (i :: l) = (l', used, k) ->
  exists l1 used1 k1, dead_values_walk l = (l1, used1, k1) /\
    if dead i then l' = i :: l1 /\ used = used1
    else if op_is_pure (op i) && is_temp (dst i) && negb (used1 (dst i))
         then l' = set_dead i true :: l1 /\ used = used1
         else l' = i :: l1 /\ used = mark_operands used1 i.
Proof.
  cbn [dead_values_walk]. destruct (dead_values_walk l) as [[l1 used1] k1]. intros E.
  exists l1, used1, k1. split; [reflexivity|]. destruct (dead i); [injection E as <- <- _; auto|].
  destruct (_ && _ && _); injection E as <- <- _; auto.
Qed.

Lemma dead_values_run l : forall D l' used k tmp tmp' cpu n,
  all_temps D -> wf D l -> interp_models l t = true ->
  dead_values_walk l = (l', used, k) -> (forall x, used x = true -> tmp x = tmp' x) ->
  obs (run t start l tmp cpu n) = obs (run t start l' tmp' cpu n).
Proof.
  induction l as [|i l IH]; intros D l' used k tmp tmp' cpu n HD Hwf Hm E Ha.
  { injection E as <- _ _. reflexivity. }
  destruct Hwf as [Hi Hwf]. unfold interp_models in Hm. cbn in Hm. apply andb_true_iff in Hm as [Hmi Hm].
  apply dead_values_cons in E as (l1 & used1 & k1 & E1 & E). cbn [run].
  destruct (dead i) eqn:Hd.
  - destruct E as [-> ->]. cbn [run]. rewrite Hd.
    unfold wrote in Hwf. rewrite Hd, (right_id_L ∅ (∪)) in Hwf. eapply IH; eauto.
  - pose proof (all_temps_wrote D i HD (Hi eq_refl) Hd) as HD'.
    destruct (_ && _ && _) eqn:Hc; destruct E as [-> ->].
    + bool_hyps. cbn [run dead set_dead]. unfold step_at.
      destruct (pure_step i cpu n (operand tmp (opa i)) (operand tmp (opb i)) (operand tmp (opc i)))
        as [v ->]; auto. eapply (IH (D ∪ wrote i)); eauto. intros x Hx. rewrite write_dst_other; [auto|congruence].
    + cbn [run]. rewrite Hd. rewrite (step_at_agree t start i tmp tmp').
      * destruct (step_at t start i tmp' cpu n) as [cpu' n' r|]; [|reflexivity]. eapply (IH (D ∪ wrote i)); eauto.
        intros x Hx. unfold write_dst. destruct r; [|apply Ha, mark_operands_keep; assumption].
        destruct (negb _ && _); [|apply Ha, mark_operands_keep; assumption]. unfold upd.
        destruct (x =? dst i); [reflexivity|]. apply Ha, mark_operands_keep. assumption.
      * intros x Hx. apply Ha. apply (mark_operands_read D); auto.
Qed.

(** What is deleted is not read by what is left. *)
Lemma dead_values_static l : forall D D' l' used k,
  all_temps D -> wf D l -> D' ⊆ D -> (forall x, x ∈ D -> used x = true -> x ∈ D') ->
  dead_values_walk l = (l', used, k) -> wf D' l' /\ Forall2 keeps l l'.
Proof.
  induction l as [|i l IH]; intros D D' l' used k HD Hwf Hsub Hu E.
  { injection E as <- _ _. repeat constructor. }
  destruct Hwf as [Hi Hwf]. apply dead_values_cons in E as (l1 & used1 & k1 & E1 & E).
  destruct (dead i) eqn:Hd.
  - destruct E as [-> ->]. assert (Ew : wrote i = ∅) by (unfold wrote; rewrite Hd; reflexivity).
    rewrite Ew, (right_id_L ∅ (∪)) in Hwf. destruct (IH D D' l1 used1 k1) as [Hw Hk]; auto.
    cbn [wf]. rewrite Hd, Ew, (right_id_L ∅ (∪)). split; [split; [discriminate|assumption]|].
    constructor; auto using keeps_refl.
  - pose proof (all_temps_wrote D i HD (Hi eq_refl) Hd) as HD'.
    destruct (_ && _ && _) eqn:Hc; destruct E as [-> ->].
    + bool_hyps. assert (Hw1 : op_writes (op i) = true) by (destruct (op i); try discriminate; reflexivity).
      destruct (IH (D ∪ wrote i) D' l1 used1 k1) as [Hw Hk]; auto; [set_solver| |].
      * intros x Hx Hux. apply elem_of_union in Hx as [Hx|Hx]; [auto|].
        apply wrote_dst in Hx as [-> _]; [congruence|assumption].
      * cbn [wf]. rewrite wrote_dead, (right_id_L ∅ (∪)). split; [split; [discriminate|assumption]|].
        constructor; [left; reflexivity|assumption].
    + destruct (IH (D ∪ wrote i) (D' ∪ wrote i) l1 used1 k1) as [Hw Hk]; auto; [set_solver| |].
      * intros x Hx Hux. apply elem_of_union in Hx as [Hx|Hx]; [|set_solver].
        apply elem_of_union_l, Hu; [assumption|]. apply mark_operands_keep. assumption.
      * split; [|constructor; auto using keeps_refl]. cbn [wf]. split; [intros _|assumption].
        destruct (Hi eq_refl) as (Him & Hr & Hwd). split; [assumption|]. split.
        -- rewrite Forall_forall in *. intros x Hx. apply Hu; [auto|].
           eapply (mark_operands_read D); eauto. apply list_elem_of_In. assumption.
        -- destruct (op_writes (op i)); [|assumption]. destruct Hwd as (Ht & H0 & Hf). repeat split; auto.
Qed.

Lemma pass_dead_values_ok l l' k :
  wf ∅ l -> interp_models l t = true -> pass_dead_values l = (l', k) ->
  wf ∅ l' /\ blk_equiv t start l l' /\ Forall2 keeps l l'.
Proof.
  intros Hwf Hm E. unfold pass_dead_values in E.
  destruct (dead_values_walk l) as [[l1 used] k1] eqn:E1. injection E as <- <-.
  destruct (dead_values_static l ∅ ∅ l1 used k1) as [Hw Hk]; auto; try set_solver.
  split; [assumption|]. split; [|assumption]. intros tmp tmp' cpu n.
  rewrite (run_independent t start l ∅ tmp tmp') by (auto; set_solver).
  eapply (dead_values_run l ∅); eauto. set_solver.
Qed.

End DeadValues.
