(* ===== verification/IrRetire.v ===== *)
(** * Merging retirements, counting uses

    [pass_merge_retire] moves the count of a RETIRE down to the next one when
    nothing between them can leave the block, so the guest retires the same
    number at every exit.  [pass_count_uses] only annotates. *)

From S2P Require Import Prelude IrTypes IrFloat IrInterp IrPasses IrSem IrSubst IrLaws.
From stdpp Require Import base list gmap.
From Stdlib Require Import ZArith Lia.

Open Scope Z_scope.
Open Scope u32_scope.

Section Retire.
Context {Ext : Type} {Cfg : IrConfig}.
#[local] Abbreviation cpu_t := (emu_cpu Ext).
#[local] Abbreviation target_t := (emu_ir_target Ext).
Context (t : target_t) (start : Z).

(** Runs that agree from the same temps. *)
Definition same_run (l l' : list emu_ir_insn) : Prop :=
  forall tmp cpu n, obs (run t start l tmp cpu n) = obs (run t start l' tmp cpu n).

Lemma same_run_app pre l l' : same_run l l' -> same_run (pre ++ l) (pre ++ l').
Proof.
  intros Hl. induction pre as [|i pre IH]; [assumption|]. intros tmp cpu n. cbn [app run].
  destruct (dead i); [apply IH|]. destruct (step_at t start i tmp cpu n); [apply IH|reflexivity].
Qed.

(** ** The shape of the rewriting *)

Definition retire_like (i i' : emu_ir_insn) : Prop :=
  i' = i \/
  (op i = EMU_IR_RETIRE /\ op i' = EMU_IR_RETIRE /\ (dead i = true -> dead i' = true) /\
   reads i' = reads i /\ dst i' = dst i /\ (is_u32 (imm i) -> is_u32 (imm i'))).

Lemma retire_like_refl l : Forall2 retire_like l l.
Proof. induction l; constructor; auto. left. reflexivity. Qed.

Lemma retire_like_trans l1 l2 l3 :
  Forall2 retire_like l1 l2 -> Forall2 retire_like l2 l3 -> Forall2 retire_like l1 l3.
Proof.
  intros H12. revert l3. induction H12 as [|x y l l' Hxy H12 IH]; intros l3 H23;
    inversion H23 as [|? z ? ? Hyz H23']; subst; constructor; auto.
  destruct Hxy as [->|(A1 & A2 & A3 & A4 & A5 & A6)]; [assumption|].
  destruct Hyz as [->|(B1 & B2 & B3 & B4 & B5 & B6)]; right; split_and!; auto; congruence.
Qed.

Lemma wf_retire_like l l' : Forall2 retire_like l l' -> forall D, wf D l -> wf D l'.
Proof.
  induction 1 as [|i i' l l' Hi Hl IH]; intros D Hwf; [assumption|]. destruct Hwf as [Hw Hwf].
  destruct Hi as [->|(Ho & Ho' & Hd & Hr & Hds & Hm)]; [split; auto|].
  assert (Ew : wrote i' = ∅ /\ wrote i = ∅)
    by (unfold wrote; rewrite Ho, Ho'; destruct (dead i), (dead i'); auto).
  destruct Ew as [E' E]. rewrite E in Hwf. cbn [wf]. rewrite E'. split; [|auto].
  intros Hd'. assert (Hdi : dead i = false) by (destruct (dead i); intuition congruence).
  destruct (Hw Hdi) as (Hu & Hre & Hwd). unfold wf_insn. rewrite Hr, Ho', Hds. rewrite Ho in Hwd. auto.
Qed.

Lemma models_retire_like l l' :
  Forall2 retire_like l l' -> interp_models l t = true -> interp_models l' t = true.
Proof.
  induction 1 as [|i i' l l' Hi Hl IH]; [auto|]. unfold interp_models in *. cbn.
  rewrite !andb_true_iff. intros [H1 H2]. split; [|auto].
  destruct Hi as [->|(Ho & Ho' & _)]; [assumption|]. unfold interp_models_insn. rewrite Ho'. apply orb_true_r.
Qed.

(** ** Moving a count *)

Lemma step_count i cpu n a bv c cpu' n' r n2 d :
  op_observes_state (op i) = false ->
  step t start i cpu n a bv c = Cont cpu' n' r -> u32 n = u32 (n2 + d) ->
  exists n2', step t start i cpu n2 a bv c = Cont cpu' n2' r /\ u32 n' = u32 (n2' + d).
Proof.
  intros Ho Hs Hn. destruct (is_alu (op i)) eqn:Ea.
  { rewrite step_alu in * by assumption. injection Hs as <- <- <-. eauto. }
  unfold step in *. destruct (op i); try discriminate; effect_cases Hs; try (eexists; split; [reflexivity|assumption]).
  eexists. split; [reflexivity|]. rewrite u32_u32, u32_add_l.
  set (k := if imm i =? 0 then 1 else imm i). replace (n2 + k + d) with (n2 + d + k) by lia.
  rewrite <- (u32_add_l n k), Hn, u32_add_l. reflexivity.
Qed.

Definition quiet (m : list emu_ir_insn) : Prop :=
  Forall (fun i => dead i = false -> op_observes_state (op i) = false /\ interp_models_insn t i = true) m.

Lemma retire_shift d m : forall tmp cpu n n2 k k',
  quiet m -> u32 n = u32 (n2 + d) ->
  (forall tmp1 cpu1 n1 n1', u32 n1 = u32 (n1' + d) ->
     obs (run t start k tmp1 cpu1 n1) = obs (run t start k' tmp1 cpu1 n1')) ->
  obs (run t start (m ++ k) tmp cpu n) = obs (run t start (m ++ k') tmp cpu n2).
Proof.
  induction m as [|i m IH]; intros tmp cpu n n2 k k' Hq Hn Hk; cbn [app run]; [auto|].
  apply Forall_cons in Hq as [Hi Hq]. destruct (dead i) eqn:Hd; [auto|].
  destruct (Hi eq_refl) as [Ho Hm]. unfold step_at.
  destruct (step_observes t start i cpu n (operand tmp (opa i)) (operand tmp (opb i)) (operand tmp (opc i)) Hm Hd Ho)
    as (cpu' & n' & r & Es). rewrite Es.
  destruct (step_count _ _ _ _ _ _ _ _ _ n2 d Ho Es Hn) as (n2' & -> & Hn'). auto.
Qed.

Lemma run_retire i l tmp cpu n :
  dead i = false -> op i = EMU_IR_RETIRE ->
  run t start (i :: l) tmp cpu n = run t start l tmp cpu (n +! (if imm i =? 0 then 1 else imm i)).
Proof. intros Hd Ho. cbn [run]. rewrite Hd. unfold step_at, step. rewrite Ho. reflexivity. Qed.

Lemma merge_run pre ic mid ij post v :
  dead ic = false -> op ic = EMU_IR_RETIRE -> dead ij = false -> op ij = EMU_IR_RETIRE -> quiet mid ->
  v <> 0 ->
  u32 v = u32 ((if imm ij =? 0 then 1 else imm ij) + (if imm ic =? 0 then 1 else imm ic)) ->
  same_run (pre ++ ic :: mid ++ ij :: post) (pre ++ set_dead ic true :: mid ++ set_imm ij v :: post).
Proof.
  intros Hdc Hoc Hdj Hoj Hq Hv Hsum. apply same_run_app. intros tmp cpu n.
  rewrite run_retire by assumption. cbn [run dead set_dead].
  set (nc := if imm ic =? 0 then 1 else imm ic) in *. apply (retire_shift nc); [assumption|apply u32_u32|].
  intros tmp1 cpu1 n1 n1' Hn. rewrite !run_retire by assumption. cbn [imm set_imm].
  rewrite (proj2 (Z.eqb_neq v 0)) by assumption. do 2 f_equal.
  rewrite <- (u32_add_r n1' v), Hsum, u32_add_r, <- u32_add_l, Hn, u32_add_l. f_equal. lia.
Qed.

(** ** The walk *)

Definition carry_ok (l : list emu_ir_insn) (j : nat) (carry : option nat) : Prop :=
  match carry with
  | None => True
  | Some c => (c < j)%nat /\
      (exists i, l !! c = Some i /\ dead i = false /\ op i = EMU_IR_RETIRE /\ 1 <= imm i <= Z.of_nat c + 1) /\
      (forall k x, (c < k < j)%nat -> l !! k = Some x -> dead x = false -> op_observes_state (op x) = false)
  end.

Definition retire_inv (l0 : list emu_ir_insn) (j : nat) (l : list emu_ir_insn) (carry : option nat) : Prop :=
  Forall2 retire_like l0 l /\ same_run l0 l /\ (forall k, (j <= k)%nat -> l !! k = l0 !! k) /\
  carry_ok l j carry.

Lemma carry_extend l j carry :
  carry_ok l j carry ->
  (forall x, l !! j = Some x -> dead x = false -> op_observes_state (op x) = false) ->
  carry_ok l (S j) carry.
Proof.
  destruct carry as [c|]; [|auto]. intros (Hc & Hi & Hq) Hj. split; [lia|]. split; [assumption|].
  intros k x Hk. destruct (Nat.eq_dec k j) as [->|]; [apply Hj|apply Hq; lia].
Qed.

Lemma carry_here l j i :
  l !! j = Some i -> dead i = false -> op i = EMU_IR_RETIRE -> 1 <= imm i <= Z.of_nat j + 1 ->
  carry_ok l (S j) (Some j).
Proof. intros. split; [lia|]. split; [eauto 10|]. intros k x Hk. lia. Qed.

Lemma quiet_mid pre ic mid rest j :
  interp_models (pre ++ ic :: mid ++ rest) t = true ->
  j = (length pre + S (length mid))%nat ->
  (forall k x, (length pre < k < j)%nat -> (pre ++ ic :: mid ++ rest) !! k = Some x ->
     dead x = false -> op_observes_state (op x) = false) ->
  quiet mid.
Proof.
  intros Hm -> Ho. unfold interp_models in Hm. rewrite forallb_app in Hm. cbn [forallb] in Hm.
  rewrite forallb_app in Hm. bool_hyps. apply Forall_forall. intros x Hx Hd. split.
  - apply list_elem_of_lookup in Hx as [k Hk]. pose proof (lookup_lt_Some _ _ _ Hk).
    apply (Ho (length pre + S k)%nat x); [lia| |assumption].
    rewrite lookup_app_r by lia. replace (length pre + S k - length pre)%nat with (S k) by lia.
    change ((mid ++ rest) !! k = Some x). rewrite lookup_app_l by lia. assumption.
  - match goal with H : forallb _ mid = true |- _ => rewrite forallb_forall in H; apply H end.
    apply list_elem_of_In. assumption.
Qed.

(** The first RETIRE of a run of them. *)
Lemma retire_first l0 j l i :
  retire_inv l0 j l None -> l !! j = Some i -> dead i = false -> op i = EMU_IR_RETIRE -> imm i = 0 ->
  retire_inv l0 (S j) (<[j := set_imm i 1]> l) (Some j).
Proof.
  intros (Hl & Hr & Hk & _) Hj Hd Ho Hm. destruct (list_split_at l j i Hj) as (pre & post & -> & <-).
  rewrite insert_middle. split; [|split; [|split]].
  - eapply retire_like_trans; [exact Hl|]. apply Forall2_app; [apply retire_like_refl|].
    constructor; [|apply retire_like_refl]. right. split_and!; auto; cbn; unfold is_u32; lia.
  - intros tmp cpu n. rewrite Hr. apply same_run_app. intros tmp1 cpu1 n1.
    rewrite !run_retire by assumption. rewrite Hm. reflexivity.
  - intros k Hlt. rewrite <- Hk by lia. rewrite !lookup_app_r by lia.
    destruct (k - length pre)%nat eqn:E; [lia|reflexivity].
  - apply (carry_here _ _ (set_imm i 1)); auto; [|cbn; lia].
    rewrite lookup_app_r, Nat.sub_diag by lia. reflexivity.
Qed.

(** Another one: the count of the last moves here. *)
Lemma retire_next l0 j l c ic i :
  interp_models l0 t = true -> Z.of_nat (length l0) <= 65535 ->
  retire_inv l0 j l (Some c) -> l !! j = Some i -> l !! c = Some ic ->
  dead i = false -> op i = EMU_IR_RETIRE -> imm i = 0 ->
  retire_inv l0 (S j) (kill_at (Z.of_nat c) (<[j := set_imm i (1 +! imm ic)]> l)) (Some j).
Proof.
  intros Hm0 Hlen (Hl & Hr & Hk & Hc & (ic' & Ec & Hdc & Hoc & Hic) & Hq) Hj Hcl Hd Ho Hm.
  rewrite Hcl in Ec. injection Ec as <-.
  pose proof (models_retire_like _ _ Hl Hm0) as Hml. pose proof (Forall2_length _ _ _ Hl) as Hll.
  pose proof (lookup_lt_Some _ _ _ Hj) as Hjl.
  assert (Hv : 1 +! imm ic = 1 + imm ic) by (apply u32_id; unfold is_u32; lia).
  destruct (kill_insert_split l c j ic i (set_imm i (1 +! imm ic)) Hcl Hj Hc)
    as (pre & mid & post & -> & Hpre & Hjm & ->). subst c. split; [|split; [|split]].
  - eapply retire_like_trans; [exact Hl|]. apply Forall2_app; [apply retire_like_refl|].
    constructor; [right; split_and!; auto|]. apply Forall2_app; [apply retire_like_refl|].
    constructor; [|apply retire_like_refl]. right. split_and!; auto; intros; apply u32_range.
  - intros tmp cpu n. rewrite Hr. apply merge_run; auto.
    + eapply quiet_mid; eauto.
    + lia.
    + rewrite u32_u32, Hm, (proj2 (Z.eqb_neq (imm ic) 0)) by lia. reflexivity.
  - intros k Hlt. rewrite <- Hk by lia. rewrite !(lookup_app_r pre) by lia.
    destruct (k - length pre)%nat as [|m] eqn:E; [lia|].
    change ((mid ++ set_imm i (1 +! imm ic) :: post) !! m = (mid ++ i :: post) !! m). rewrite !lookup_app_r by lia.
    destruct (_ - length mid)%nat eqn:E'; [lia|reflexivity].
  - apply (carry_here _ _ (set_imm i (1 +! imm ic))); auto; [|cbn [imm set_imm]; lia].
    rewrite lookup_app_r by lia. replace (j - length pre)%nat with (S (length mid)) by lia.
    change ((mid ++ set_imm i (1 +! imm ic) :: post) !! length mid = Some (set_imm i (1 +! imm ic))).
    rewrite lookup_app_r, Nat.sub_diag by lia. reflexivity.
Qed.

(** The contract's part on RETIRE: the builder leaves the count to this pass. *)
Definition uses_ok_retire (l : list emu_ir_insn) : Prop :=
  Forall (fun i => dead i = false -> op i = EMU_IR_RETIRE -> imm i = 0) l.

Lemma retire_at_inv l0 j l carry k l' carry' k' :
  uses_ok_retire l0 -> interp_models l0 t = true -> Z.of_nat (length l0) <= 65535 ->
  retire_inv l0 j l carry -> retire_at j (l, carry, k) = (l', carry', k') ->
  retire_inv l0 (S j) l' carry'.
Proof.
  intros Hu Hm Hlen Hinv E. unfold retire_at in E.
  assert (Hsame : (forall x, l !! j = Some x -> dead x = false -> op_observes_state (op x) = false) ->
                  retire_inv l0 (S j) l carry).
  { intros Hj. destruct Hinv as (H1 & H2 & H3 & H4). repeat split; auto; [intros; apply H3; lia|].
    apply carry_extend; assumption. }
  destruct (l !! j) as [i|] eqn:Hj; [|injection E as <- <- <-; apply Hsame; discriminate].
  destruct (dead i) eqn:Hd; [injection E as <- <- <-; apply Hsame; congruence|].
  destruct (op_eqb_spec (op i) EMU_IR_RETIRE) as [Ho|Ho].
  - assert (Hi0 : imm i = 0).
    { destruct Hinv as (_ & _ & H3 & _). rewrite H3 in Hj by lia.
      eapply Forall_lookup_1 in Hu; [|exact Hj]. auto. }
    rewrite Hi0 in E. cbn [Z.eqb] in E. destruct carry as [c|].
    + destruct (l !! c) as [ic|] eqn:Hc.
      * injection E as <- <- <-. apply retire_next; assumption.
      * destruct Hinv as (_ & _ & _ & _ & (ic & Hc' & _) & _). congruence.
    + injection E as <- <- <-. apply retire_first; assumption.
  - destruct (op_observes_state (op i)) eqn:Hob; injection E as <- <- <-; [|apply Hsame; congruence].
    destruct Hinv as (H1 & H2 & H3 & _). repeat split; auto. intros; apply H3; lia.
Qed.

Lemma retire_walk l0 n : forall j l carry k l' carry' k',
  uses_ok_retire l0 -> interp_models l0 t = true -> Z.of_nat (length l0) <= 65535 ->
  retire_inv l0 j l carry ->
  fold_left (fun st j => retire_at j st) (seq j n) (l, carry, k) = (l', carry', k') ->
  retire_inv l0 (j + n) l' carry'.
Proof.
  induction n as [|n IH]; intros j l carry k l' carry' k' Hu Hm Hlen Hinv; cbn [seq fold_left].
  - intros [= <- <- <-]. rewrite Nat.add_0_r. assumption.
  - destruct (retire_at j (l, carry, k)) as [[l1 carry1] k1] eqn:E. intros Ef.
    rewrite <- Nat.add_succ_comm. eapply IH; eauto. eapply retire_at_inv; eauto.
Qed.

Lemma pass_merge_retire_ok l l' k :
  wf ∅ l -> uses_ok_retire l -> interp_models l t = true -> Z.of_nat (length l) <= 65535 ->
  pass_merge_retire l = (l', k) ->
  wf ∅ l' /\ blk_equiv t start l l' /\ interp_models l' t = true.
Proof.
  intros Hwf Hu Hm Hlen E. unfold pass_merge_retire in E.
  destruct (fold_left _ _ _) as [[l1 carry] k1] eqn:Ef. injection E as <- <-.
  assert (Hi : retire_inv l 0 l None).
  { split; [apply retire_like_refl|]. split; [intros tmp cpu n; reflexivity|]. split; [auto|exact I]. }
  destruct (retire_walk _ _ _ _ _ _ _ _ _ Hu Hm Hlen Hi Ef) as (H1 & H2 & _).
  split; [eapply wf_retire_like; eauto|]. split; [|eapply models_retire_like; eauto].
  intros tmp tmp' cpu n. rewrite (run_independent t start l ∅ tmp tmp') by (auto; set_solver). apply H2.
Qed.

(** ** Counting uses *)

Lemma run_set_uses f l : forall tmp cpu n,
  run t start (map (fun i => set_uses i (f i)) l) tmp cpu n = run t start l tmp cpu n.
Proof.
  induction l as [|i l IH]; intros tmp cpu n; [reflexivity|]. cbn [map run].
  change (dead (set_uses i (f i))) with (dead i).
  change (step_at t start (set_uses i (f i)) tmp cpu n) with (step_at t start i tmp cpu n).
  destruct (dead i); [apply IH|]. destruct (step_at t start i tmp cpu n); [apply IH|reflexivity].
Qed.

Lemma wf_set_uses f l : forall D, wf D l -> wf D (map (fun i => set_uses i (f i)) l).
Proof. induction l as [|i l IH]; intros D; [auto|]. intros [Hi Hl]. split; [exact Hi|]. apply IH. exact Hl. Qed.

Lemma models_set_uses f l : interp_models (map (fun i => set_uses i (f i)) l) t = interp_models l t.
Proof. unfold interp_models. induction l as [|i l IH]; [reflexivity|]. cbn [map forallb]. rewrite IH. reflexivity. Qed.

Lemma pass_count_uses_ok l l' k :
  wf ∅ l -> pass_count_uses l = (l', k) ->
  wf ∅ l' /\ blk_equiv t start l l' /\ interp_models l' t = interp_models l t.
Proof.
  intros Hwf E. unfold pass_count_uses in E. destruct (uses_and_defs l) as [cnt def].
  injection E as <- _. split; [apply wf_set_uses; assumption|]. split; [|apply models_set_uses].
  intros tmp tmp' cpu n. rewrite run_set_uses. apply (run_independent t start l ∅); [assumption|set_solver].
Qed.

End Retire.
