(* ===== verification/IrOptimise.v ===== *)
(** * The optimiser is correct

    The passes composed: [emu_ir_optimise] keeps what a caller of the reference
    interpreter can see, for every guest that satisfies [TargetLaws] and every
    block that satisfies the contract of a frontend. *)

From S2P Require Import Prelude IrTypes IrFloat IrInterp IrPasses IrSem IrSubst IrFuse IrLaws IrTraffic IrFlags IrDead IrRetire.
From stdpp Require Import base list gmap.
From Stdlib Require Import ZArith Lia.

Open Scope Z_scope.
Open Scope u32_scope.

Section Optimise.
Context {Ext : Type} {Cfg : IrConfig}.
#[local] Abbreviation cpu_t := (emu_cpu Ext).
#[local] Abbreviation target_t := (emu_ir_target Ext).
Context (t : target_t) {L : TargetLaws t} (can_lower : emu_ir_op -> Z -> bool).

Lemma uses_ok_retires l : uses_ok t l -> uses_ok_retire l.
Proof.
  intros Hu. eapply Forall_impl; [exact Hu|]. cbv beta. intros i Hi Hd Ho. specialize (Hi Hd).
  unfold use_ok in Hi. rewrite Ho in Hi. apply Z.eqb_eq. assumption.
Qed.

Lemma optimise_insns_ok start l l' st :
  frontend_block t l -> interp_models l t = true ->
  optimise_insns can_lower l (Some t) EMU_IR_F_ALL = (l', st) ->
  wf ∅ l' /\ blk_equiv t start l l' /\ interp_models l' t = true.
Proof.
  intros Hfb Hm E. pose proof max_insns_ok as Hmax.
  pose proof Hfb as (Hwf & Hu & Hf & Hx & Hlen).
  unfold optimise_insns in E.
  destruct (pass_dead_flags l EMU_IR_F_ALL) as [[l1 lv] k1] eqn:E1.
  destruct (pass_reg_traffic l1 (Some t)) as [l2 k2] eqn:E2.
  destruct (pass_fuse can_lower l2) as [l3 [[k3 k4] k5]] eqn:E3.
  destruct (pass_dead_puts l3 (Some t)) as [[l4 k6] k7] eqn:E4.
  destruct (pass_dead_values l4) as [l5 k8] eqn:E5.
  destruct (pass_mac can_lower l5) as [l6 k9] eqn:E6.
  destruct (pass_merge_retire l6) as [l7 k10] eqn:E7.
  destruct (pass_count_uses l7) as [l8 k11] eqn:E8. injection E as <- _.
  destruct (pass_dead_flags_ok t start l l1 lv k1 Hfb Hm E1) as (W1 & Q1 & K1 & P1).
  pose proof (uses_ok_keeps t _ _ Hu K1) as U1. pose proof (models_keeps t _ _ K1 Hm) as M1.
  destruct (pass_reg_traffic_ok t start l1 l2 k2 W1 U1 P1 E2) as (W2 & Q2 & K2 & S2).
  pose proof (uses_ok_keeps t _ _ U1 K2) as U2. pose proof (models_keeps t _ _ K2 M1) as M2.
  pose proof (Forall2_length _ _ _ K1) as N1. pose proof (Forall2_length _ _ _ K2) as N2.
  destruct (pass_fuse_ok t start can_lower l2 l3 _ W2 ltac:(lia) E3) as (W3 & Q3 & S3 & K3).
  pose proof (uses_ok_keeps t _ _ U2 K3) as U3. pose proof (models_keeps t _ _ K3 M2) as M3.
  rewrite <- S3 in S2.
  destruct (pass_dead_puts_ok t start l3 l4 k6 k7 W3 U3 M3 S2 E4) as (W4 & Q4 & K4).
  pose proof (uses_ok_keeps t _ _ U3 K4) as U4. pose proof (models_keeps t _ _ K4 M3) as M4.
  destruct (pass_dead_values_ok t start l4 l5 k8 W4 M4 E5) as (W5 & Q5 & K5).
  pose proof (uses_ok_keeps t _ _ U4 K5) as U5. pose proof (models_keeps t _ _ K5 M4) as M5.
  pose proof (Forall2_length _ _ _ K3) as N3. pose proof (Forall2_length _ _ _ K4) as N4.
  pose proof (Forall2_length _ _ _ K5) as N5.
  destruct (pass_mac_ok t start can_lower l5 l6 k9 W5 ltac:(lia) E6) as (W6 & Q6 & _ & K6).
  pose proof (uses_ok_keeps t _ _ U5 K6) as U6. pose proof (models_keeps t _ _ K6 M5) as M6.
  pose proof (Forall2_length _ _ _ K6) as N6.
  destruct (pass_merge_retire_ok t start l6 l7 k10 W6 (uses_ok_retires _ U6) M6 ltac:(lia) E7) as (W7 & Q7 & M7).
  destruct (pass_count_uses_ok t start l7 l8 k11 W7 E8) as (W8 & Q8 & M8).
  split; [assumption|]. split; [|congruence].
  eauto 10 using blk_equiv_trans.
Qed.

(** ** The loop around a pass *)

Lemma interp_loop_equiv b b' :
  start_pc b' = start_pc b -> interp_models (insn b) t = true -> interp_models (insn b') t = true ->
  blk_equiv t (start_pc b) (insn b) (insn b') ->
  forall fuel tmp tmp' cpu n, interp_loop fuel b tmp cpu t n = interp_loop fuel b' tmp' cpu t n.
Proof.
  intros Hs Hm Hm' Hq. induction fuel as [|fuel IH]; intros tmp tmp' cpu n; [reflexivity|].
  cbn [interp_loop]. unfold interp_once. rewrite Hm, Hm', Hs. specialize (Hq tmp tmp' cpu n).
  destruct (run t (start_pc b) (insn b) tmp cpu n) as [[[w tm] c] m].
  destruct (run t (start_pc b) (insn b') tmp' cpu n) as [[[w' tm'] c'] m'].
  cbn in Hq. injection Hq as <- <- <-. destruct w; [reflexivity|reflexivity|].
  destruct (m <? EMU_JIT_LOOP_CAP); [apply IH|reflexivity].
Qed.

Lemma emu_ir_optimise_cases totals b b' st totals' :
  emu_ir_optimise can_lower totals b (Some t) EMU_IR_F_ALL = (b', st, totals') ->
  (overflow b = true /\ b' = b) \/
  (overflow b = false /\ exists l', optimise_insns can_lower (insn b) (Some t) EMU_IR_F_ALL = (l', st) /\ b' = set_insn b l').
Proof.
  unfold emu_ir_optimise. destruct (overflow b); [intros [= <- _ _]; auto|].
  destruct (optimise_insns _ _ _ _) as [l' st']. intros [= <- <- _]. right. eauto.
Qed.

(** [C1] The optimiser preserves the meaning of a translated block that the
    interpreter models: whatever guest state it starts from and whatever the temps held, the interpreter
    returns the same value, guest state and retired count for the optimised
    block as for the block the frontend produced, for every number of rounds
    its loop is given. *)
Theorem optimise_preserves_interp totals b b' st totals' :
  frontend_block t (insn b) -> interp_models (insn b) t = true ->
  emu_ir_optimise can_lower totals b (Some t) EMU_IR_F_ALL = (b', st, totals') ->
  forall fuel tmp tmp' cpu,
    emu_ir_interp fuel b tmp cpu t = emu_ir_interp fuel b' tmp' cpu t.
Proof.
  intros Hfb Hm E fuel tmp tmp' cpu. unfold emu_ir_interp.
  apply emu_ir_optimise_cases in E as [[Ho ->]|(Ho & l' & E & ->)]; [rewrite Ho; reflexivity|].
  cbn [overflow set_insn]. rewrite Ho.
  destruct (optimise_insns_ok (start_pc b) _ _ _ Hfb Hm E) as (_ & Hq & Hm').
  apply interp_loop_equiv; auto.
Qed.

End Optimise.
