(* ===== verification/IrLoop.v ===== *)
(** * The interpreter's loop: declining, terminating, bounds

    What [emu_ir_interp] promises its caller whatever the block: a block it
    cannot run is refused before anything is written, a block whose back edges
    retire at least one instruction is left after at most [EMU_JIT_LOOP_CAP]
    rounds, and the retired count it reports is bounded.  The two conditions
    are on the RETIREs and the exits of the block alone, its [marks], and every
    pass of the optimiser keeps them. *)

From S2P Require Import Prelude IrTypes IrFloat IrInterp IrPasses IrSem IrSubst IrLaws IrRetire.
From stdpp Require Import base list gmap.
From Stdlib Require Import ZArith Lia.

Open Scope Z_scope.
Open Scope u32_scope.

(** ** What a block counts *)

(** What an instruction is to the count: nothing, a RETIRE of [k], or an exit,
    which closes on the block's own start or leaves. *)
Inductive mark := Quiet | Count (k : Z) | Out (back : bool).

Definition mark_of (start : Z) (i : emu_ir_insn) : mark :=
  if dead i then Quiet
  else match op i with
       | EMU_IR_RETIRE => Count (if imm i =? 0 then 1 else imm i)
       | EMU_IR_EXIT | EMU_IR_EXIT_IF => Out (emu_ir_exit_is_const i && (imm i =? start))
       | _ => Quiet
       end.
Definition marks (start : Z) (l : list emu_ir_insn) : list mark := map (mark_of start) l.

(** Everything the RETIREs count, each once. *)
Fixpoint total (l : list mark) : Z :=
  match l with [] => 0 | Count k :: l => k + total l | _ :: l => total l end.
(** Every exit back comes after a RETIRE. *)
Fixpoint back_counted (seen : bool) (l : list mark) : bool :=
  match l with
  | [] => true
  | Quiet :: l => back_counted seen l
  | Count _ :: l => back_counted true l
  | Out back :: l => (seen || negb back) && back_counted seen l
  end.
Definition counting (m : mark) : bool := match m with Count _ => true | _ => false end.

Definition retire_total (b : emu_ir_block) : Z := total (marks (start_pc b) (insn b)).
Definition loop_retires (b : emu_ir_block) : bool := back_counted false (marks (start_pc b) (insn b)).
(** The count of a RETIRE is a [uint32_t]. *)
Definition counts_ok (l : list emu_ir_insn) : Prop := Forall (fun i => dead i = false -> op i = EMU_IR_RETIRE -> is_u32 (imm i)) l.

Definition positive (m : mark) : Prop := match m with Count k => 1 <= k < 2 ^ 32 | _ => True end.

Lemma counts_pos start l : counts_ok l -> Forall positive (marks start l).
Proof.
  intros H. apply Forall_map. eapply Forall_impl; [exact H|]. cbv beta. intros i Hi. unfold mark_of. destruct (dead i); [exact I|].
  destruct (op i) eqn:Eo; try exact I. specialize (Hi eq_refl eq_refl). unfold is_u32 in Hi. cbn [positive]. destruct (Z.eqb_spec (imm i) 0); lia.
Qed.

Lemma positive_counts start l : Forall positive (marks start l) -> counts_ok l.
Proof.
  unfold marks. rewrite List.Forall_map. intros H. eapply Forall_impl; [exact H|]. cbn. unfold mark_of. intros i Hi Hd Ho. rewrite Hd, Ho in Hi. cbn [positive] in Hi.
  unfold is_u32. destruct (Z.eqb_spec (imm i) 0); lia.
Qed.

Lemma total_nonneg l : Forall positive l -> 0 <= total l.
Proof. induction 1 as [|[] l Hm _ IH]; cbn [total positive] in *; lia. Qed.

Lemma total_app l l' : total (l ++ l') = total l + total l'.
Proof. induction l as [|[] l IH]; cbn [app total]; lia. Qed.

Lemma back_counted_app l l' : forall seen, back_counted seen (l ++ l') = back_counted seen l && back_counted (seen || existsb counting l) l'.
Proof.
  induction l as [|[] l IH]; intros seen; cbn [app back_counted existsb counting]; rewrite ?IH, ?orb_false_r, ?orb_true_r, ?orb_true_l; try reflexivity.
  rewrite andb_assoc. reflexivity.
Qed.

Lemma total_quiet l : Forall (eq Quiet) l -> total l = 0.
Proof. induction 1 as [|m l <- _ IH]; [reflexivity|exact IH]. Qed.
Lemma back_quiet l seen : Forall (eq Quiet) l -> back_counted seen l = true.
Proof. induction 1 as [|m l <- _ IH]; [reflexivity|exact IH]. Qed.

(** A count that moves down over instructions that neither count nor leave. *)
Lemma move_down pre mid post k n : Forall (eq Quiet) mid ->
  let l := pre ++ Count k :: mid ++ Count n :: post in let l' := pre ++ Quiet :: mid ++ Count (n + k) :: post in
  total l' = total l /\ forall seen, back_counted seen l' = back_counted seen l.
Proof.
  intros Hq. cbv zeta. split; [rewrite !total_app; cbn [total]; rewrite !total_app; cbn [total]; lia|].
  intros seen. rewrite !back_counted_app. cbn [back_counted]. rewrite !back_counted_app, !(back_quiet mid) by exact Hq. reflexivity.
Qed.

(** ** What the optimiser does to it *)

Section Optimised.
Context {Ext : Type} {Cfg : IrConfig}.
Context (can_lower : emu_ir_op -> Z -> bool) (start : Z).
#[local] Abbreviation mk := (mark_of start).
#[local] Abbreviation mks := (marks start).

Lemma marks_insert l j i i' : l !! j = Some i -> mk i' = mk i -> mks (<[j := i']> l) = mks l.
Proof. intros Hj E. unfold marks. rewrite list_fmap_insert. apply list_insert_id. rewrite list_lookup_fmap, Hj. cbn. f_equal. symmetry. exact E. Qed.

Lemma marks_kill l j : (forall s, l !! Z.to_nat j = Some s -> mk s = Quiet) -> mks (kill_at j l) = mks l.
Proof.
  intros H. unfold kill_at, marks. apply list_eq. intros k. rewrite !list_lookup_fmap.
  rewrite list_lookup_alter. destruct (decide _) as [<-|_]; [|reflexivity].
  destruct (l !! Z.to_nat j) as [s|]; [|reflexivity]. cbn. f_equal. symmetry. apply H. reflexivity.
Qed.

Lemma marks_fuse l j i i' x s : l !! j = Some i -> mk i = Quiet -> mk i' = Quiet -> l !! Z.to_nat x = Some s -> mk s = Quiet ->
  mks (kill_at x (<[j := i']> l)) = mks l.
Proof.
  intros Hj Hi Hi' Hx Hs. rewrite marks_kill; [rewrite (marks_insert l j i) by congruence; reflexivity|].
  intros s'. destruct (decide (Z.to_nat x = j)) as [->|Ne]; [|rewrite list_lookup_insert_ne by congruence; congruence].
  rewrite list_lookup_insert_eq by (eapply lookup_lt_Some, Hj). intros [= <-]. exact Hi'.
Qed.

Lemma single_def_insn l cnt def x P : single_def l cnt def x P = true -> exists s, l !! Z.to_nat (def x) = Some s /\ P s = true.
Proof. unfold single_def, def_insn. intros H. bool_hyps. destruct (l !! _) as [s|]; [eauto|discriminate]. Qed.

Lemma fold_keeps {S} (f : S -> nat -> S) (P : S -> Prop) : (forall s j, P s -> P (f s j)) -> forall js s, P s -> P (fold_left f js s).
Proof. intros H js. induction js as [|j js IH]; intros s Hs; [exact Hs|]. apply IH, H, Hs. Qed.

Lemma op_eqb_true o o' : op_eqb o o' = true -> o = o'.
Proof. destruct (op_eqb_spec o o'); congruence. Qed.

Lemma mark_op i : (op i <> EMU_IR_RETIRE /\ op i <> EMU_IR_EXIT /\ op i <> EMU_IR_EXIT_IF) -> mk i = Quiet.
Proof. unfold mark_of. destruct (dead i); [reflexivity|]. destruct (op i); intros (? & ? & ?); congruence || reflexivity. Qed.

Lemma dead_flags_marks l live_out : mks (fst (fst (pass_dead_flags l live_out))) = mks l.
Proof.
  induction l as [|i l IH]; [reflexivity|]. cbn [pass_dead_flags]. destruct (pass_dead_flags l live_out) as [[l' lv] k]. cbn [fst] in IH.
  destruct (dead i) eqn:Hd; [cbn; f_equal; exact IH|]. destruct (defs i =? 0); [cbn; f_equal; exact IH|]. cbv zeta.
  destruct (op_eqb_spec (op i) EMU_IR_SETF) as [E|]; cbn [andb]; [destruct (_ =? 0)|]; cbn [fst marks map]; f_equal; try exact IH; try reflexivity.
  unfold mark_of. rewrite E, Hd. reflexivity.
Qed.

(** The table of copies never answers the sentinel for a temp. *)
Lemma traffic_marks (ot : option (emu_ir_target Ext)) pcr l : forall cur copy, (forall x, is_temp x = true -> copy x <> EMU_IR_NO_TEMP) ->
  mks (fst (traffic_walk ot pcr l cur copy)) = mks l.
Proof.
  induction l as [|i l IH]; intros cur copy Hc; [reflexivity|]. cbn [traffic_walk]. destruct (dead i) eqn:Hd.
  { specialize (IH cur copy Hc). destruct (traffic_walk _ _ _ _ _) as [l' k]. cbn. f_equal. exact IH. }
  assert (Hi : mk (fst (fst (traffic_insn ot pcr (copy_operands copy i) cur))) = mk i).
  { assert (E0 : mk (copy_operands copy i) = mk i).
    { unfold mark_of, emu_ir_exit_is_const. cbn. destruct (op i); try reflexivity.
      unfold copy_operand. destruct (is_temp (opa i)) eqn:Ht; [|reflexivity].
      rewrite (proj2 (Z.eqb_neq _ _) (Hc _ Ht)), (proj2 (Z.eqb_neq _ _) (is_temp_ne _ Ht)). reflexivity. }
    unfold traffic_insn. cbv zeta. change (op (copy_operands copy i)) with (op i). destruct (op i) eqn:Eo; try exact E0.
    repeat case_match; try exact E0. cbn. rewrite !mark_op; [reflexivity|rewrite Eo|cbn]; split_and!; discriminate. }
  destruct (traffic_insn ot pcr (copy_operands copy i) cur) as [[i' cur'] g]. cbn [fst] in Hi.
  specialize (IH cur' (traffic_copy i' copy)). destruct (traffic_walk _ _ _ _ _) as [l' k]. cbn [fst marks map] in *. f_equal; [exact Hi|apply IH].
  intros x Hx. unfold traffic_copy. destruct (_ && _ && negb (opa i' =? _)) eqn:E; [|apply Hc, Hx]. bool_hyps.
  unfold upd. destruct (_ =? _); [|apply Hc, Hx]. assumption.
Qed.

Lemma dead_puts_marks (ot : option (emu_ir_target Ext)) l : mks (fst (fst (pass_dead_puts l ot))) = mks l.
Proof.
  unfold pass_dead_puts. enough (H : mks (fst (fst (fst (fst (dead_puts_walk ot l))))) = mks l) by (destruct (dead_puts_walk ot l) as [[[[]]]]; exact H).
  induction l as [|i l IH]; [reflexivity|]. cbn [dead_puts_walk]. destruct (dead_puts_walk ot l) as [[[[l' seen] pcw] p] s]. cbn [fst] in IH.
  destruct (dead i) eqn:Hd; [cbn; f_equal; exact IH|].
  assert (Hi : mk (fst (fst (fst (fst (dead_puts_insn ot i seen pcw))))) = mk i).
  { unfold dead_puts_insn. destruct (op i) eqn:Eo; cbn [op_observes_state]; repeat case_match; try reflexivity.
    all: cbn [fst]; rewrite !mark_op; [reflexivity|rewrite Eo|cbn; rewrite Eo]; split_and!; discriminate. }
  destruct (dead_puts_insn ot i seen pcw) as [[[[i' seen'] pcw'] dp] ds]. cbn [fst marks map] in *. f_equal; [exact Hi|exact IH].
Qed.

Lemma dead_values_marks l : mks (fst (pass_dead_values l)) = mks l.
Proof.
  unfold pass_dead_values. enough (H : mks (fst (fst (dead_values_walk l))) = mks l) by (destruct (dead_values_walk l) as [[]]; exact H).
  induction l as [|i l IH]; [reflexivity|]. cbn [dead_values_walk]. destruct (dead_values_walk l) as [[l' used] k]. cbn [fst] in IH.
  destruct (dead i) eqn:Hd; [cbn; f_equal; exact IH|]. destruct (_ && _ && _) eqn:Ep; cbn [fst marks map]; f_equal; try exact IH.
  bool_hyps. rewrite !mark_op; [reflexivity|..|cbn]; split_and!; intros E; rewrite E in *; discriminate.
Qed.

Lemma count_uses_marks l : mks (fst (pass_count_uses l)) = mks l.
Proof. unfold pass_count_uses. destruct (uses_and_defs l) as [cnt def]. cbn [fst]. unfold marks. rewrite map_map. reflexivity. Qed.

Lemma mac_marks l : mks (fst (pass_mac can_lower l)) = mks l.
Proof.
  unfold pass_mac. destruct (uses_and_defs l) as [cnt def].
  apply (fold_keeps _ (fun st : list emu_ir_insn * Z => mks (fst st) = mks l)); [|reflexivity]. intros [l1 k] j <-. cbn [fst]. unfold mac_at.
  destruct (l1 !! j) as [i|] eqn:Hj; [|reflexivity]. destruct (dead i); [reflexivity|]. destruct (_ || _) eqn:Eop; [|reflexivity]. cbv zeta.
  set (is_mul := fun s => op_eqb (op s) EMU_IR_MUL && negb (dead s)).
  assert (Hi : mk i = Quiet).
  { apply mark_op. apply orb_true_iff in Eop as [E|E]; apply op_eqb_true in E; rewrite E; split_and!; discriminate. }
  set (pa := if single_def l1 cnt def (opb i) is_mul then _ else _).
  assert (Hp : fst pa = EMU_IR_NO_TEMP \/ single_def l1 cnt def (fst pa) is_mul = true).
  { unfold pa. destruct (single_def l1 cnt def (opb i) is_mul) eqn:E1; [auto|].
    destruct (single_def l1 cnt def (opa i) is_mul) eqn:E2; [|rewrite andb_false_r; auto]. destruct (negb _); auto. }
  destruct pa as [prod addend]. cbn [fst] in Hp. destruct (_ && _ && _) eqn:Eg; [|reflexivity]. bool_hyps.
  destruct Hp as [Hp|Hp]; [contradiction|]. apply single_def_insn in Hp as (s & Es & Hs). unfold def_insn. rewrite Es. cbn [fst].
  unfold is_mul in Hs. apply andb_true_iff in Hs as [Em _]. apply op_eqb_true in Em.
  apply (marks_fuse _ _ i _ _ s); auto; apply mark_op; cbn; [|rewrite Em]; split_and!; discriminate.
Qed.

Lemma imm_form_plain i i' : imm_form_of (op i) <> EMU_IR_NOP -> mk i = Quiet /\ (op i' = imm_form_of (op i) -> mk i' = Quiet).
Proof.
  intros H. split; [apply mark_op|intros E; apply mark_op; rewrite E]; destruct (op i); cbn in *; try contradiction; split_and!; discriminate.
Qed.

Lemma fuse_const_marks def j l cnt k : mks (fst (fst (fuse_const can_lower def j (l, cnt, k)))) = mks l.
Proof.
  unfold fuse_const. destruct (l !! j) as [i|] eqn:Hj; [|reflexivity]. cbv zeta.
  destruct (op_eqb_spec (imm_form_of (op i)) EMU_IR_NOP) as [|Hf]; [reflexivity|].
  set (is_const := fun s => op_eqb (op s) EMU_IR_CONST). set (sf := if single_def l cnt def (opb i) is_const then _ else _).
  assert (Hp : fst sf = EMU_IR_NO_TEMP \/ single_def l cnt def (fst sf) is_const = true).
  { unfold sf. destruct (single_def l cnt def (opb i) is_const) eqn:E1; [auto|].
    destruct (single_def l cnt def (opa i) is_const) eqn:E2; [|rewrite andb_false_r; auto]. destruct (op_commutes _); auto. }
  destruct sf as [src from_a]. cbn [fst] in Hp. destruct (Z.eqb_spec src EMU_IR_NO_TEMP) as [|Hs]; [reflexivity|].
  destruct Hp as [|Hp]; [contradiction|]. apply single_def_insn in Hp as (s & Es & Hc). unfold def_insn. rewrite Es.
  apply op_eqb_true in Hc. destruct (_ && _); [|reflexivity]. cbn [fst].
  apply (marks_fuse _ _ i _ _ s); auto; [exact (proj1 (imm_form_plain i i Hf))|apply (proj2 (imm_form_plain i _ Hf)); reflexivity|].
  apply mark_op. rewrite Hc. split_and!; discriminate.
Qed.

Lemma fuse_addr_marks cnt def j l k : mks (fst (fuse_addr cnt def j (l, k))) = mks l.
Proof.
  unfold fuse_addr. destruct (l !! j) as [i|] eqn:Hj; [|reflexivity]. cbv zeta. destruct (_ && _) eqn:E; [|reflexivity].
  apply andb_true_iff in E as [Eop Hp]. apply single_def_insn in Hp as (s & Es & Hs). unfold def_insn. rewrite Es. cbn [fst].
  apply andb_true_iff in Hs as [Hs _]. apply andb_true_iff in Hs as [_ Hs]. apply op_eqb_true in Hs.
  assert (Ho : op i = EMU_IR_LOAD \/ op i = EMU_IR_STORE) by (apply orb_true_iff in Eop as [E|E]; apply op_eqb_true in E; auto).
  apply (marks_fuse _ _ i _ _ s); auto; apply mark_op; cbn; [destruct Ho as [-> | ->]..|rewrite Hs]; split_and!; discriminate.
Qed.

Lemma fuse_identity_marks j l k : mks (fst (fuse_identity j (l, k))) = mks l.
Proof.
  unfold fuse_identity. destruct (l !! j) as [i|] eqn:Hj; [|reflexivity].
  assert (H : mk (fst (identity_insn i)) = mk i).
  { unfold identity_insn. destruct (op i) eqn:Eo; try reflexivity; repeat case_match; try reflexivity.
    all: cbn [fst]; rewrite !mark_op; [reflexivity|rewrite Eo|cbn]; split_and!; discriminate. }
  destruct (identity_insn i) as [i' d]. cbn [fst] in *. apply (marks_insert _ _ i); assumption.
Qed.

Lemma fuse_marks l : mks (fst (pass_fuse can_lower l)) = mks l.
Proof.
  unfold pass_fuse. destruct (uses_and_defs l) as [cnt def].
  enough (H : mks (fst (fst (fold_left (fun st j => fuse_at can_lower def j st) (seq 0 (length l)) (l, cnt, (0, 0, 0))))) = mks l)
    by (destruct (fold_left _ _ _) as [[]]; exact H).
  apply (fold_keeps _ (fun st : list emu_ir_insn * (Z -> Z) * (Z * Z * Z) => mks (fst (fst st)) = mks l)); [|reflexivity].
  intros [[l1 cnt1] [[kf ka] ki]] j <-. cbn [fst]. unfold fuse_at. destruct (l1 !! j) as [i|]; [|reflexivity]. destruct (dead i); [reflexivity|].
  pose proof (fuse_const_marks def j l1 cnt1 kf) as H1. destruct (fuse_const _ _ _ _) as [[l2 cnt2] kf2].
  pose proof (fuse_addr_marks cnt2 def j l2 ka) as H2. destruct (fuse_addr _ _ _ _) as [l3 ka2].
  pose proof (fuse_identity_marks j l3 ki) as H3. destruct (fuse_identity _ _) as [l4 ki2]. cbn [fst] in *. congruence.
Qed.

(** *** Merging *)

(** The RETIRE whose count may still move, at [c], with nothing between it and
    [j] that counts or leaves. *)
Definition carried (l : list emu_ir_insn) (j : nat) (carry : option nat) : Prop :=
  match carry with
  | None => True
  | Some c => (c < j)%nat /\ (exists i, l !! c = Some i /\ dead i = false /\ op i = EMU_IR_RETIRE /\ imm i <> 0) /\
              (forall k x, (c < k < j)%nat -> l !! k = Some x -> mk x = Quiet)
  end.

Definition merging (l0 : list emu_ir_insn) (j : nat) (l : list emu_ir_insn) (carry : option nat) : Prop :=
  counts_ok l /\ total (mks l) = total (mks l0) /\ (forall seen, back_counted seen (mks l) = back_counted seen (mks l0)) /\ carried l j carry.

Lemma carried_quiet l j carry : carried l j carry -> (forall x, l !! j = Some x -> mk x = Quiet) -> carried l (S j) carry.
Proof.
  destruct carry as [c|]; [|auto]. intros (Hc & Hi & Hq) Hj. split; [lia|]. split; [exact Hi|].
  intros k x Hk. destruct (Nat.eq_dec k j) as [->|]; [apply Hj|apply Hq; lia].
Qed.

Lemma mark_retire i : dead i = false -> op i = EMU_IR_RETIRE -> mk i = Count (if imm i =? 0 then 1 else imm i).
Proof. intros Hd Ho. unfold mark_of. rewrite Hd, Ho. reflexivity. Qed.

Lemma counts_insert l j i : counts_ok l -> (dead i = false -> op i = EMU_IR_RETIRE -> is_u32 (imm i)) -> counts_ok (<[j := i]> l).
Proof. intros Hl Hi. apply Forall_insert; assumption. Qed.

Lemma carried_here l j i : (j < length l)%nat -> dead i = false -> op i = EMU_IR_RETIRE -> imm i <> 0 -> carried (<[j := i]> l) (S j) (Some j).
Proof. intros Hj Hd Ho Hi. split; [lia|]. split; [exists i; split; [apply list_lookup_insert_eq, Hj|auto]|]. intros k x Hk. lia. Qed.

Lemma merge_first l0 j l i n : merging l0 j l None -> l !! j = Some i -> dead i = false -> op i = EMU_IR_RETIRE ->
  n = (if imm i =? 0 then 1 else imm i) -> merging l0 (S j) (<[j := set_imm i n]> l) (Some j).
Proof.
  intros (Hu & Ht & Hb & _) Hj Hd Ho En. pose proof (Forall_lookup_1 _ _ _ _ Hu Hj Hd Ho) as Hi. unfold is_u32 in Hi.
  assert (Hn : n <> 0 /\ is_u32 n) by (subst n; unfold is_u32; destruct (Z.eqb_spec (imm i) 0); lia). destruct Hn as [Hn Un].
  assert (Em : mks (<[j := set_imm i n]> l) = mks l).
  { apply (marks_insert _ _ i); [exact Hj|]. rewrite !mark_retire by assumption. cbn [imm set_imm]. rewrite (proj2 (Z.eqb_neq n 0)) by exact Hn. congruence. }
  split; [apply counts_insert; auto|]. rewrite Em. split; [exact Ht|]. split; [exact Hb|].
  apply carried_here; auto. eapply lookup_lt_Some, Hj.
Qed.

Lemma merge_next l0 j l i c ic n : total (mks l0) < 2 ^ 32 -> merging l0 j l (Some c) -> l !! j = Some i -> dead i = false -> op i = EMU_IR_RETIRE ->
  n = (if imm i =? 0 then 1 else imm i) -> l !! c = Some ic ->
  merging l0 (S j) (kill_at (Z.of_nat c) (<[j := set_imm i (n +! imm ic)]> l)) (Some j).
Proof.
  intros Hmax (Hu & Ht & Hb & Hc & (ic' & Ec & Hdc & Hoc & Hic) & Hq) Hj Hd Ho En Hcl. rewrite Hcl in Ec. injection Ec as <-.
  pose proof (counts_pos start _ Hu) as Hp. pose proof (Forall_lookup_1 _ _ _ _ Hu Hj Hd Ho) as Ui. pose proof (Forall_lookup_1 _ _ _ _ Hu Hcl Hdc Hoc) as Uc.
  destruct (kill_insert_split l c j ic i (set_imm i (n +! imm ic)) Hcl Hj Hc) as (pre & mid & post & -> & Hpre & Hjm & ->).
  assert (Hm : Forall (eq Quiet) (mks mid)).
  { apply Forall_map, Forall_lookup. intros k x Hk. symmetry. apply (Hq (length pre + S k)%nat); [apply lookup_lt_Some in Hk; lia|].
    rewrite lookup_app_r by lia. replace (length pre + S k - length pre)%nat with (S k) by lia. cbn. apply lookup_app_l_Some, Hk. }
  assert (Ei : mk i = Count n) by (rewrite mark_retire, En by assumption; reflexivity).
  assert (Eic : mk ic = Count (imm ic)) by (rewrite mark_retire, (proj2 (Z.eqb_neq _ _) Hic) by assumption; reflexivity).
  assert (Hs : n +! imm ic = n + imm ic /\ 1 <= n).
  { unfold marks in *. rewrite !map_app in *. cbn [map] in *. rewrite map_app in *. cbn [map] in *. rewrite Ei, Eic in *.
    apply Forall_app in Hp as [P1 Hp]. apply Forall_cons in Hp as [P2 Hp]. apply Forall_app in Hp as [P3 Hp]. apply Forall_cons in Hp as [P4 P5].
    rewrite <- Ht, !total_app in Hmax. cbn [total] in Hmax. rewrite total_app in Hmax. cbn [total positive] in *.
    pose proof (total_nonneg _ P1). pose proof (total_nonneg _ P3). pose proof (total_nonneg _ P5). split; [apply u32_id; unfold is_u32|]; lia. }
  destruct Hs as [Es Hn1]. unfold is_u32 in Uc.
  assert (Ej : mk (set_imm i (n +! imm ic)) = Count (n + imm ic)).
  { rewrite mark_retire by assumption. cbn [imm set_imm]. rewrite Es, (proj2 (Z.eqb_neq _ _)) by lia. reflexivity. }
  assert (EQ : forall x y, mks (pre ++ x :: mid ++ y :: post) = mks pre ++ mk x :: mks mid ++ mk y :: mks post)
    by (intros x y; unfold marks; rewrite map_app; cbn [map]; rewrite map_app; reflexivity).
  rewrite EQ in Ht, Hb. rewrite Ei, Eic in Ht, Hb. destruct (move_down (mks pre) (mks mid) (mks post) (imm ic) n Hm) as [M1 M2].
  split; [|rewrite EQ, Ej; split; [|split]].
  - apply Forall_app in Hu as [U1 Hu]. apply Forall_cons in Hu as [U2 Hu]. apply Forall_app in Hu as [U3 Hu]. apply Forall_cons in Hu as [U4 U5].
    apply Forall_app. split; [exact U1|]. constructor; [discriminate|]. apply Forall_app. split; [exact U3|]. constructor; [|exact U5]. intros _ _. apply u32_range.
  - change (mk (set_dead ic true)) with Quiet. congruence.
  - intros seen. change (mk (set_dead ic true)) with Quiet. rewrite M2. apply Hb.
  - split; [lia|]. split; [|intros k x Hk; lia]. exists (set_imm i (n +! imm ic)). split; [|cbn; split_and!; auto; lia].
    rewrite Hjm, app_comm_cons, app_assoc. apply list_lookup_middle. rewrite length_app. reflexivity.
Qed.

Lemma retire_at_merging l0 j l carry k : total (mks l0) < 2 ^ 32 -> merging l0 j l carry ->
  let '(l', carry', _) := retire_at j (l, carry, k) in merging l0 (S j) l' carry'.
Proof.
  intros Hmax HM. pose proof HM as (Hu & Ht & Hb & Hc). unfold retire_at.
  assert (Hsame : (forall x, l !! j = Some x -> mk x = Quiet) -> merging l0 (S j) l carry).
  { intros Hj. split; [exact Hu|]. split; [exact Ht|]. split; [exact Hb|]. apply carried_quiet; assumption. }
  destruct (l !! j) as [i|] eqn:Hj; [|apply Hsame; discriminate].
  destruct (dead i) eqn:Hd; [apply Hsame; intros x [= <-]; unfold mark_of; rewrite Hd; reflexivity|].
  destruct (op_eqb_spec (op i) EMU_IR_RETIRE) as [Ho|Ho].
  - cbv zeta. destruct carry as [c|]; [|apply merge_first; auto]. pose proof Hc as (_ & (ic & Ec & _) & _). rewrite Ec. eapply merge_next; eauto.
  - destruct (op_observes_state (op i)) eqn:Eb; [split; [exact Hu|]; split; [exact Ht|]; split; [exact Hb|exact I]|].
    apply Hsame. intros x [= <-]. apply mark_op. split_and!; [exact Ho|intros E; rewrite E in Eb; discriminate..].
Qed.

Lemma merge_counts l : counts_ok l -> total (mks l) < 2 ^ 32 -> let l' := fst (pass_merge_retire l) in
  counts_ok l' /\ total (mks l') = total (mks l) /\ back_counted false (mks l') = back_counted false (mks l).
Proof.
  intros Hu Hmax. unfold pass_merge_retire.
  assert (H : forall n j st, (let '(l1, carry, _) := st in merging l j l1 carry) ->
    let '(l1, carry, _) := fold_left (fun st j => retire_at j st) (seq j n) st in merging l (j + n) l1 carry).
  { induction n as [|n IH]; intros j st HM; cbn [seq fold_left]; [rewrite Nat.add_0_r; exact HM|]. rewrite <- Nat.add_succ_comm. apply IH.
    destruct st as [[l1 carry] k]. apply retire_at_merging; assumption. }
  specialize (H (length l) 0%nat (l, None, 0)). destruct (fold_left _ _ _) as [[l1 carry] k]. cbn [fst].
  destruct H as (H1 & H2 & H3 & _); [split_and!; auto; exact I|]. auto.
Qed.

(** *** All the passes *)

Lemma counts_marks l l' : mks l' = mks l -> counts_ok l -> counts_ok l'.
Proof. intros E H. apply (positive_counts start). rewrite E. apply counts_pos, H. Qed.

Lemma optimise_insns_counts l (ot : option (emu_ir_target Ext)) live_out : counts_ok l -> total (mks l) < 2 ^ 32 ->
  let l' := fst (optimise_insns can_lower l ot live_out) in
  counts_ok l' /\ total (mks l') = total (mks l) /\ back_counted false (mks l') = back_counted false (mks l).
Proof.
  intros Hu Hmax. unfold optimise_insns.
  pose proof (dead_flags_marks l live_out) as M1. destruct (pass_dead_flags l live_out) as [[l1 lv] k1].
  pose proof (traffic_marks ot (pc_reg ot) l1 (fun _ => EMU_IR_NO_TEMP) (fun x => x) is_temp_ne) as M2.
  fold (pass_reg_traffic l1 ot) in M2. destruct (pass_reg_traffic l1 ot) as [l2 k2].
  pose proof (fuse_marks l2) as M3. destruct (pass_fuse can_lower l2) as [l3 [[k3 k4] k5]].
  pose proof (dead_puts_marks ot l3) as M4. destruct (pass_dead_puts l3 ot) as [[l4 k6] k7].
  pose proof (dead_values_marks l4) as M5. destruct (pass_dead_values l4) as [l5 k8].
  pose proof (mac_marks l5) as M6. destruct (pass_mac can_lower l5) as [l6 k9]. cbn [fst] in *.
  assert (M : mks l6 = mks l) by congruence. rewrite <- M in Hmax.
  destruct (merge_counts l6 (counts_marks _ _ M Hu) Hmax) as (U7 & T7 & B7). destruct (pass_merge_retire l6) as [l7 k10]. cbn [fst] in *.
  pose proof (count_uses_marks l7) as M8. destruct (pass_count_uses l7) as [l8 k11]. cbn [fst] in *.
  split; [exact (counts_marks _ _ M8 U7)|]. rewrite M8, T7, B7, M. auto.
Qed.

End Optimised.

Lemma optimise_counts {Ext} {Cfg : IrConfig} can_lower totals (ot : option (emu_ir_target Ext)) live_out b b' st totals' :
  emu_ir_optimise can_lower totals b ot live_out = (b', st, totals') -> counts_ok (insn b) -> retire_total b < 2 ^ 32 ->
  counts_ok (insn b') /\ retire_total b' = retire_total b /\ loop_retires b' = loop_retires b.
Proof.
  unfold emu_ir_optimise. destruct (overflow b); [intros [= <- _ _]; auto|]. intros E Hu Hmax.
  pose proof (optimise_insns_counts can_lower (start_pc b) (insn b) ot live_out Hu Hmax) as K.
  destruct (optimise_insns can_lower (insn b) ot live_out) as [l st']. injection E as <- _ _. exact K.
Qed.

Section Loop.
Context {Ext : Type} {Cfg : IrConfig}.
#[local] Abbreviation cpu_t := (emu_cpu Ext).
#[local] Abbreviation target_t := (emu_ir_target Ext).
Context (t : target_t).

(** ** Declining *)

Lemma step_models start i cpu n a bv c w cpu' n' :
  interp_models_insn t i = true -> dead i = false -> is_u32 (imm i) ->
  step t start i cpu n a bv c = Quit w cpu' n' -> w <> IR_RUN_DECLINED.
Proof.
  intros Hm Hd Hi Hs. destruct (is_alu (op i)) eqn:Ea.
  { rewrite step_alu in Hs by assumption. discriminate. }
  unfold interp_models_insn in Hm. rewrite Hd in Hm. cbn [orb] in Hm.
  unfold step, step_load, step_store, step_bitop, step_helper in Hs.
  destruct (op i); try discriminate; bool_hyps;
    repeat match goal with H : bool_decide _ = true |- _ =>
      apply bool_decide_eq_true in H; destruct H as [? H] end;
    repeat match goal with H : _ = Some _ |- _ => rewrite H in Hs end;
    effect_cases Hs; try discriminate;
    repeat match goal with |- (if ?b then _ else _) <> _ => destruct b; try discriminate end.
  all: match goal with H : (_ <? _) = true |- _ => apply Z.ltb_lt in H end.
  all: exfalso; match goal with H : nth_error _ _ = None |- _ => apply nth_error_None in H end;
    unfold is_u32 in Hi; lia.
Qed.

Lemma run_models start l : forall tmp cpu n w tmp' cpu' n',
  interp_models l t = true -> Forall (fun i => dead i = false -> is_u32 (imm i)) l ->
  run t start l tmp cpu n = (w, tmp', cpu', n') -> w <> IR_RUN_DECLINED.
Proof.
  induction l as [|i l IH]; intros tmp cpu n w tmp' cpu' n' Hm Hi E; cbn [run] in E.
  { injection E as <- _ _ _. discriminate. }
  unfold interp_models in Hm. cbn in Hm. apply andb_true_iff in Hm as [Hmi Hm].
  apply Forall_cons in Hi as [Hii Hi]. destruct (dead i) eqn:Hd; [eapply IH; eauto|].
  destruct (step_at t start i tmp cpu n) eqn:Es; [eapply IH; eauto|].
  injection E as <- _ _ _. eapply step_models; eauto.
Qed.

(** ** Counting what retires *)

Lemma step_count_bound start i cpu n a bv c :
  dead i = false ->
  match step t start i cpu n a bv c with
  | Cont _ n' _ => n' = (match mark_of start i with Count k => n +! k | _ => n end)
  | Quit w _ n' => n' = n /\ (forall k, mark_of start i <> Count k) /\ (w = IR_RUN_LOOP -> mark_of start i = Out true)
  end.
Proof.
  intros Hd. unfold mark_of. rewrite Hd. destruct (is_alu (op i)) eqn:Ea.
  { rewrite step_alu by assumption. destruct (op i); try discriminate Ea; reflexivity. }
  unfold step, step_load, step_store, step_bitop, step_helper, emu_ir_exit_is_const.
  destruct (op i); try discriminate Ea; repeat (case_goal; try discriminate); subst; try reflexivity;
    (split; [reflexivity|]; split; [discriminate|]; try discriminate; intros _; f_equal; auto).
Qed.

Lemma run_count start l : forall seen tmp cpu n w tmp' cpu' n',
  counts_ok l -> 0 <= n -> n + total (marks start l) < 2 ^ 32 ->
  run t start l tmp cpu n = (w, tmp', cpu', n') ->
  n <= n' <= n + total (marks start l) /\
  (back_counted seen (marks start l) = true -> w = IR_RUN_LOOP -> seen = true \/ n < n').
Proof.
  induction l as [|i l IH]; intros seen tmp cpu n w tmp' cpu' n' Hu H0 Hb E; cbn [run] in E.
  { injection E as <- _ _ <-. split; [cbn; lia|discriminate]. }
  pose proof (counts_pos start (i :: l) Hu) as Hp. apply Forall_cons in Hu as [Hui Hu].
  change (marks start (i :: l)) with (mark_of start i :: marks start l) in *. apply Forall_cons in Hp as [Hpi Hp].
  pose proof (total_nonneg _ Hp) as Ht. destruct (dead i) eqn:Hd.
  { assert (Em : mark_of start i = Quiet) by (unfold mark_of; rewrite Hd; reflexivity). rewrite Em in *. eapply IH; eauto. }
  pose proof (step_count_bound start i cpu n (operand tmp (opa i)) (operand tmp (opb i)) (operand tmp (opc i)) Hd) as Hs.
  fold (step_at t start i tmp cpu n) in Hs. destruct (step_at t start i tmp cpu n) as [c1 n1 r|w1 c1 n1].
  - destruct (mark_of start i) as [|k|back]; cbn [total back_counted positive] in *; subst n1.
    + eapply IH; eauto.
    + rewrite u32_id in E by (unfold is_u32; lia). destruct (IH true _ _ (n + k) _ _ _ _ Hu ltac:(lia) ltac:(lia) E) as [Hn _]. split; [lia|]. right. lia.
    + destruct (IH seen _ _ n _ _ _ _ Hu H0 ltac:(lia) E) as [Hn Hl]. split; [lia|]. intros Hlr. apply andb_true_iff in Hlr as [_ Hlr]. auto.
  - destruct Hs as (-> & Hk & Hs). injection E as <- _ _ <-. split.
    + destruct (mark_of start i) as [|k|back]; cbn [total]; [lia|destruct (Hk k eq_refl)|lia].
    + intros Hlr Hw. rewrite (Hs Hw) in Hlr. cbn [back_counted negb] in Hlr. rewrite orb_false_r in Hlr. bool_hyps. auto.
Qed.

(** The loop, from [n] instructions already retired. *)
Lemma interp_loop_returns b : forall fuel tmp cpu n,
  counts_ok (insn b) -> loop_retires b = true -> Z.max 1 EMU_JIT_LOOP_CAP + retire_total b <= 2 ^ 32 ->
  0 <= n < Z.max 1 EMU_JIT_LOOP_CAP -> (Z.to_nat (EMU_JIT_LOOP_CAP - n) < fuel)%nat ->
  exists ok cpu' n', interp_loop fuel b tmp cpu t n = Some (ok, cpu', n') /\
    0 <= n' < Z.max 1 EMU_JIT_LOOP_CAP + retire_total b.
Proof.
  intros fuel tmp cpu n Hu Hl Hc. unfold loop_retires, retire_total in *.
  pose proof (total_nonneg _ (counts_pos (start_pc b) _ Hu)) as Ht. revert tmp cpu n.
  induction fuel as [|fuel IH]; intros tmp cpu n Hn Hf; [lia|]. cbn [interp_loop].
  unfold interp_once. destruct (interp_models (insn b) t).
  - destruct (run t (start_pc b) (insn b) tmp cpu n) as [[[w tmp'] cpu'] n'] eqn:E.
    destruct (run_count (start_pc b) (insn b) false tmp cpu n _ _ _ _ Hu ltac:(lia) ltac:(lia) E) as [Hn' Hw].
    destruct w; try (exists true, cpu', n'; split; [reflexivity|lia]); try (exists false, cpu', n'; split; [reflexivity|lia]).
    destruct (Hw Hl eq_refl) as [|Hlt]; [discriminate|].
    destruct (Z.ltb_spec n' EMU_JIT_LOOP_CAP); [apply IH; auto; lia|].
    exists true, cpu', n'. split; [reflexivity|lia].
  - exists false, cpu, n. split; [reflexivity|lia].
Qed.

Lemma interp_returns b tmp cpu fuel :
  counts_ok (insn b) -> loop_retires b = true -> Z.max 1 EMU_JIT_LOOP_CAP + retire_total b <= 2 ^ 32 ->
  (Z.to_nat EMU_JIT_LOOP_CAP < fuel)%nat ->
  exists ok cpu' n', emu_ir_interp fuel b tmp cpu t = Some (ok, cpu', n') /\
    0 <= n' < Z.max 1 EMU_JIT_LOOP_CAP + retire_total b.
Proof.
  intros Hu Hl Hc Hf. unfold emu_ir_interp. destruct (overflow b).
  - exists false, cpu, 0. split; [reflexivity|]. pose proof (total_nonneg _ (counts_pos (start_pc b) _ Hu)). unfold retire_total. lia.
  - apply interp_loop_returns; auto; [lia|]. rewrite Z.sub_0_r. assumption.
Qed.

(** [C2] The interpreter always returns.  Let every exit back to the block's own
    start come after a RETIRE, and let what the block's RETIREs count, each
    once, fit the 32-bit counter together with [EMU_JIT_LOOP_CAP].  Then
    whatever the guest state and the stale temps, [EMU_JIT_LOOP_CAP + 1]
    rounds are enough for [emu_ir_interp], and the retired count it reports is
    below the cap plus what the RETIREs of the block count; and the same holds
    of the block [emu_ir_optimise] makes of it, which merges RETIREs and moves
    them down but never past an exit. *)
Theorem interp_terminates b tmp cpu fuel :
  counts_ok (insn b) -> loop_retires b = true -> Z.max 1 EMU_JIT_LOOP_CAP + retire_total b <= 2 ^ 32 ->
  (Z.to_nat EMU_JIT_LOOP_CAP < fuel)%nat ->
  (exists ok cpu' n', emu_ir_interp fuel b tmp cpu t = Some (ok, cpu', n') /\
     0 <= n' < Z.max 1 EMU_JIT_LOOP_CAP + retire_total b) /\
  (forall can_lower totals (ot : option target_t) live_out b' st totals', emu_ir_optimise can_lower totals b ot live_out = (b', st, totals') ->
   exists ok cpu' n', emu_ir_interp fuel b' tmp cpu t = Some (ok, cpu', n') /\
     0 <= n' < Z.max 1 EMU_JIT_LOOP_CAP + retire_total b).
Proof.
  intros Hu Hl Hc Hf. split; [apply interp_returns; assumption|]. intros can_lower totals ot live_out b' st totals' E.
  destruct (optimise_counts can_lower totals ot live_out _ _ _ _ E Hu ltac:(lia)) as (Hu' & Et & El).
  rewrite <- Et in *. apply interp_returns; [exact Hu'|congruence|exact Hc|exact Hf].
Qed.

(** [C3] A refusal has no effect: when [emu_ir_interp] returns false, the block
    had overflowed or contained something the interpreter does not model, and
    the guest state is the one it was given with nothing retired. *)
Theorem interp_refuses_untouched b tmp cpu fuel cpu' n' :
  Forall (fun i => dead i = false -> is_u32 (imm i)) (insn b) ->
  emu_ir_interp fuel b tmp cpu t = Some (false, cpu', n') ->
  (overflow b = true \/ interp_models (insn b) t = false) /\ cpu' = cpu /\ n' = 0.
Proof.
  intros Hi. unfold emu_ir_interp. destruct (overflow b); [intros [= <- <-]; auto|].
  destruct (interp_models (insn b) t) eqn:Hm.
  - assert (Hno : forall fuel tmp cpu n, interp_loop fuel b tmp cpu t n <> Some (false, cpu', n')).
    { induction fuel0 as [|f IH]; intros tmp0 cpu0 n; [discriminate|]. cbn [interp_loop].
      unfold interp_once. rewrite Hm.
      destruct (run t (start_pc b) (insn b) tmp0 cpu0 n) as [[[w tmp1] cpu1] n1] eqn:E.
      destruct w; [exfalso; eapply run_models; eauto|discriminate|].
      destruct (n1 <? EMU_JIT_LOOP_CAP); [apply IH|discriminate]. }
    intros E. exfalso. eapply Hno. exact E.
  - destruct fuel as [|fuel]; [discriminate|]. cbn [interp_loop]. unfold interp_once. rewrite Hm.
    intros [= <- <-]. auto.
Qed.

(** A pass over a well-formed block does not depend on what the static
    array of temps holds when it starts: the outcome, the guest state and the
    retired count are the same from any two arrays. *)
Theorem interp_once_stale_temps b tmp tmp' cpu n :
  wf ∅ (insn b) ->
  obs (interp_once b tmp cpu t n) = obs (interp_once b tmp' cpu t n).
Proof.
  intros Hwf. unfold interp_once. destruct (interp_models (insn b) t); [|reflexivity].
  apply (run_independent t (start_pc b) (insn b) ∅); [assumption|set_solver].
Qed.

End Loop.
