(* ===== verification/IrBuilder.v ===== *)
(** * The builder

    Every frontend builds a block with [emu_ir_emit] and its relatives.  What
    makes the result well formed is that a temp is handed out once, by the
    instruction that writes it; [built] is that invariant. *)

From S2P Require Import Prelude IrTypes IrFloat IrInterp IrPasses IrSem IrSubst IrLaws.
From stdpp Require Import base list gmap.
From Stdlib Require Import ZArith Lia.

Open Scope Z_scope.
Open Scope u32_scope.

Section Builder.
Context {Cfg : IrConfig}.

Definition built (b : emu_ir_block) : Prop :=
  0 <= next_temp b <= EMU_IR_MAX_TEMPS /\ count b <= EMU_IR_MAX_INSNS /\
  Forall (fun i => dead i = false) (insn b) /\
  (overflow b = false ->
   wf ∅ (insn b) /\ forall x, x ∈ dsts (insn b) -> 0 <= x < next_temp b).

(** A temp a frontend may pass as an operand. *)
Definition operand_ok (b : emu_ir_block) (x : Z) : Prop :=
  x = EMU_IR_NO_TEMP \/ x ∈ dsts (insn b).

Lemma is_temp_lt x : 0 <= x < EMU_IR_MAX_TEMPS -> is_temp x = true.
Proof.
  intros Hx. pose proof max_temps_ok. unfold is_temp, EMU_IR_NO_TEMP.
  rewrite (proj2 (Z.eqb_neq _ _)), (proj2 (Z.ltb_lt _ _)) by lia. reflexivity.
Qed.

Lemma emit_full b o ax a bb im df :
  EMU_IR_MAX_INSNS <= count b ->
  emu_ir_emit b o ax a bb im df = (EMU_IR_NO_TEMP, set_overflow b true).
Proof. intros Hf. unfold emu_ir_emit. rewrite (proj2 (Z.leb_le _ _)) by assumption. reflexivity. Qed.

(** The temp an instruction is given, and the block after taking it. *)
Lemma emit_room b o ax a bb im df :
  built b -> count b < EMU_IR_MAX_INSNS ->
  let room := negb (op_writes o) || (next_temp b <? EMU_IR_MAX_TEMPS) in
  let d := if op_writes o && (next_temp b <? EMU_IR_MAX_TEMPS) then next_temp b else EMU_IR_NO_TEMP in
  exists b', emu_ir_emit b o ax a bb im df = (d, b') /\
    insn b' = insn b ++ [Insn o ax d a bb EMU_IR_NO_TEMP im df df 0 false] /\
    overflow b' = overflow b || negb room /\
    next_temp b' = (if op_writes o && (next_temp b <? EMU_IR_MAX_TEMPS) then next_temp b + 1 else next_temp b) /\
    start_pc b' = start_pc b.
Proof.
  intros (Hn & _) Hc room d. pose proof max_temps_ok as Hmax. unfold emu_ir_emit, emu_ir_temp, room, d.
  rewrite (proj2 (Z.leb_gt _ _)) by assumption.
  destruct (op_writes o); cbn [negb orb andb].
  - destruct (Z.leb_spec EMU_IR_MAX_TEMPS (next_temp b)).
    + rewrite (proj2 (Z.ltb_ge _ _)) by assumption. eexists. split; [reflexivity|].
      cbn. rewrite orb_true_r. auto.
    + rewrite (proj2 (Z.ltb_lt _ _)) by assumption.
      assert (E16 : u16 (next_temp b) = next_temp b) by (unfold u16; apply Z.mod_small; lia).
      rewrite E16. eexists. split; [reflexivity|]. cbn. rewrite orb_false_r.
      repeat split. apply u32_id. unfold is_u32. lia.
  - eexists. split; [reflexivity|]. cbn. rewrite orb_false_r. auto.
Qed.

Lemma wf_snoc D l i : wf D (l ++ [i]) <-> wf D l /\ (dead i = false -> wf_insn (D ∪ dsts l) i).
Proof. rewrite wf_app. cbn [wf]. tauto. Qed.

Lemma dsts_snoc l i : dsts (l ++ [i]) = dsts l ∪ wrote i.
Proof. rewrite dsts_app. cbn [dsts]. set_solver. Qed.

(** Appending a live instruction that writes the next temp (or none). *)
Lemma built_snoc b b' i :
  built b -> count b < EMU_IR_MAX_INSNS -> insn b' = insn b ++ [i] -> dead i = false ->
  next_temp b <= next_temp b' <= EMU_IR_MAX_TEMPS ->
  (overflow b' = false -> overflow b = false /\ is_u32 (imm i) /\
     (forall x, In x (reads i) -> x ∈ dsts (insn b)) /\
     if op_writes (op i) then dst i = next_temp b /\ next_temp b < next_temp b' else dst i = EMU_IR_NO_TEMP) ->
  built b'.
Proof.
  intros (Hn & Hc & Hl & Hw) Hlt Ei Hd Hn' Hx. unfold built, count in *. rewrite Ei, length_app. cbn [length].
  split; [lia|]. split; [lia|]. split; [apply Forall_app; auto|]. intros Ho.
  destruct (Hx Ho) as (Hob & Him & Hr & Hdst). destruct (Hw Hob) as [Hwf Hds]. split.
  - apply wf_snoc. split; [assumption|]. intros _. split; [assumption|]. split.
    + apply Forall_forall. intros x Hxr. apply elem_of_union_r, Hr, list_elem_of_In. assumption.
    + destruct (op_writes (op i)); [|assumption]. destruct Hdst as [-> Hlt'].
      split; [apply is_temp_lt; lia|]. split; [lia|]. intros Hin.
      apply elem_of_union in Hin as [Hin|Hin]; [set_solver|]. apply Hds in Hin. lia.
  - rewrite dsts_snoc. intros x Hin. apply elem_of_union in Hin as [Hin|Hin].
    + apply Hds in Hin. lia.
    + unfold wrote in Hin. rewrite Hd in Hin. destruct (op_writes (op i)); [|set_solver].
      apply elem_of_singleton in Hin. lia.
Qed.

Lemma reads_operands b o ax d a bb c im df x :
  operand_ok b a -> operand_ok b bb -> operand_ok b c ->
  In x (reads (Insn o ax d a bb c im df df 0 false)) -> x ∈ dsts (insn b).
Proof.
  intros Ha Hb Hc Hx. apply filter_In in Hx as [Hx Hne]. bool_hyps. cbn in Hx.
  destruct Hx as [<-|[<-|[<-|[]]]];
    [destruct Ha|destruct Hb|destruct Hc]; try contradiction; assumption.
Qed.

Lemma emit_built b o ax a bb im df d b' :
  built b -> is_u32 im -> operand_ok b a -> operand_ok b bb ->
  emu_ir_emit b o ax a bb im df = (d, b') ->
  built b' /\
  (overflow b' = false ->
     if op_writes o then (d ∉ dsts (insn b)) /\ (d ∈ dsts (insn b')) else d = EMU_IR_NO_TEMP).
Proof.
  intros Hb Him Ha Hbb E. destruct (Z.lt_ge_cases (count b) EMU_IR_MAX_INSNS) as [Hlt|Hge].
  - destruct (emit_room b o ax a bb im df Hb Hlt) as (b1 & E1 & Hi & Ho & Hn & _).
    rewrite E1 in E. injection E as <- <-. pose proof Hb as (Hnt & _ & _ & Hw).
    destruct (op_writes o) eqn:How; cbn [negb orb andb] in *.
    + destruct (Z.ltb_spec (next_temp b) EMU_IR_MAX_TEMPS) as [Ht|Ht]; cbn [negb] in *;
        rewrite ?orb_false_r, ?orb_true_r in Ho.
      * split.
        -- eapply (built_snoc b); [assumption..|exact Hi|reflexivity|lia|]. intros Hov. cbn [imm op dst].
           split; [congruence|]. split; [assumption|].
           split; [intros x; apply reads_operands; auto; left; reflexivity|]. rewrite How. lia.
        -- intros Hov. destruct (Hw ltac:(congruence)) as [_ Hds]. split.
           ++ intros Hin. apply Hds in Hin. lia.
           ++ rewrite Hi, dsts_snoc. apply elem_of_union_r. rewrite wrote_live; [|reflexivity|exact How].
              cbn. set_solver.
      * split; [|congruence]. eapply (built_snoc b); [assumption..|exact Hi|reflexivity|lia|]. congruence.
    + rewrite orb_false_r in Ho. split; [|reflexivity].
      eapply (built_snoc b); [assumption..|exact Hi|reflexivity|lia|]. intros Hov. cbn [imm op dst].
      split; [congruence|]. split; [assumption|].
      split; [intros x; apply reads_operands; auto; left; reflexivity|]. rewrite How. reflexivity.
  - rewrite emit_full in E by assumption. injection E as <- <-. split; [|discriminate].
    destruct Hb as (H1 & H2 & H3 & _). split; [assumption|]. split; [assumption|]. split; [assumption|discriminate].
Qed.

(** Emitting keeps a block well formed: with operands the block defines,
    [emu_ir_emit] leaves the builder's invariant in place and, unless the
    block overflows, an operation with a result gets a temp nothing had
    written before. *)
Theorem emit_keeps_built b o ax a bb im df d b' :
  built b -> is_u32 im -> operand_ok b a -> operand_ok b bb ->
  emu_ir_emit b o ax a bb im df = (d, b') ->
  built b' /\
  (overflow b' = false ->
     if op_writes o then (d ∉ dsts (insn b)) /\ (d ∈ dsts (insn b')) else d = EMU_IR_NO_TEMP).
Proof. apply emit_built. Qed.

(** A predicated access is the access with its predicate: when the block
    has room [emu_ir_mem_if] appends exactly one instruction, the one
    [emu_ir_emit] would append with [pred] as its third operand, and when it
    has none it only marks the overflow, leaving the instruction before it
    alone. *)
Theorem mem_if_appends b o ax addr val disp pred d b' :
  built b -> emu_ir_mem_if b o ax addr val disp pred = (d, b') ->
  if count b <? EMU_IR_MAX_INSNS
  then insn b' = insn b ++ [Insn o ax d addr val pred disp 0 0 0 false]
  else d = EMU_IR_NO_TEMP /\ insn b' = insn b /\ overflow b' = true.
Proof.
  intros Hb E. unfold emu_ir_mem_if in E.
  destruct (Z.ltb_spec (count b) EMU_IR_MAX_INSNS) as [Hlt|Hge].
  - destruct (emit_room b o ax addr val disp 0 Hb Hlt) as (b1 & E1 & Hi & _). rewrite E1 in E.
    assert (Hc : (count b <? count b1) = true).
    { unfold count. rewrite Hi, length_app. cbn [length]. apply Z.ltb_lt. lia. }
    rewrite Hc in E. injection E as <- <-. unfold set_last_c. cbn [insn set_insn].
    rewrite Hi, length_app. cbn [length]. replace (length (insn b) + 1 - 1)%nat with (length (insn b)) by lia.
    rewrite alter_middle. reflexivity.
  - rewrite emit_full in E by assumption. change (count (set_overflow b true)) with (count b) in E.
    rewrite Z.ltb_irrefl in E. injection E as <- <-. auto.
Qed.

End Builder.
