(* ===== verification/IrRegalloc.v ===== *)
(** * Register allocation

    [emu_ir_regalloc] of [src/emu/emu_ir.c]: one linear scan over the live
    intervals of the temps.  Its contract is that temps given the same host
    register are never live at once, stated on the intervals
    ([intervals_apart]) and as what a backend needs of it: a run that keeps
    each temp where the allocator put it is the interpreter's run. *)

From S2P Require Import Prelude IrTypes IrFloat IrInterp IrPasses IrSem IrSubst.
From stdpp Require Import base list gmap.
From Stdlib Require Import ZArith Lia.

Open Scope Z_scope.
Open Scope u32_scope.

Definition EMU_IR_NO_REG : Z := 255.
Definition EMU_IR_MAX_HOST_REGS : Z := 8.
Definition IR_NO_POS : Z := 65535.

Section Regalloc.
Context {Cfg : IrConfig}.

(** ** The walk that finds both ends of every interval *)

Definition note_last (nt k : Z) (last : Z -> Z) (x : Z) : Z -> Z :=
  if x <? nt then upd last x (u16 k) else last.

Fixpoint ra_scan (nt : Z) (l : list emu_ir_insn) (k : Z) (def last : Z -> Z) : (Z -> Z) * (Z -> Z) :=
  match l with
  | [] => (def, last)
  | i :: l' =>
      if dead i then ra_scan nt l' (k + 1) def last
      else
        let last' := note_last nt k (note_last nt k (note_last nt k last (opa i)) (opb i)) (opc i) in
        let def' := if dst i <? nt then upd def (dst i) (u16 k) else def in
        ra_scan nt l' (k + 1) def' last'
  end.

(** ** One temp *)

(** The first live instruction at or after position [j], or [count]. *)
Fixpoint skip_dead (l : list emu_ir_insn) (j : Z) : Z :=
  match l with
  | i :: l' => if dead i then skip_dead l' (j + 1) else j
  | [] => j
  end.

(** Left to the reload elision: read once, by the next live instruction. *)
Definition ra_elided (l : list emu_ir_insn) (d last : Z) : bool :=
  match l !! Z.to_nat d with
  | Some i => (uses i =? 1) && (skip_dead (drop (Z.to_nat (d + 1)) l) (d + 1) =? last)
  | None => false
  end.

Definition ra_expire (last : Z -> Z) (d : Z) (inreg : list Z) : list Z :=
  map (fun x => if negb (x =? EMU_IR_NO_TEMP) && (last x <? d) then EMU_IR_NO_TEMP else x) inreg.

Fixpoint ra_free (inreg : list Z) (r : nat) : option nat :=
  match inreg with
  | [] => None
  | x :: rest => if x =? EMU_IR_NO_TEMP then Some r else ra_free rest (S r)
  end.

(** The register whose temp runs furthest, the first of equals. *)
Fixpoint ra_worst (last : Z -> Z) (inreg : list Z) (r : nat) (worst : nat) (wx : Z) : nat * Z :=
  match inreg with
  | [] => (worst, wx)
  | x :: rest =>
      if last wx <? last x then ra_worst last rest (S r) r x else ra_worst last rest (S r) worst wx
  end.

Record ra_state := RA { inreg : list Z; assign : Z -> Z; ra_used : Z }.

(** [inreg[pick] = tmp; assign[tmp] = pick] and the high-water mark. *)
Definition ra_take (s : ra_state) (tmp : Z) (pick : nat) : ra_state :=
  RA (<[pick := tmp]> (inreg s)) (upd (assign s) tmp (Z.of_nat pick))
     (if ra_used s <? Z.of_nat pick + 1 then Z.of_nat pick + 1 else ra_used s).

Definition ra_temp (l : list emu_ir_insn) (def last : Z -> Z) (s : ra_state) (tmp : Z) : ra_state :=
  let d := def tmp in
  if (d =? IR_NO_POS) || (last tmp <=? d) then s
  else if ra_elided l d (last tmp) then s
  else
    let s := RA (ra_expire last d (inreg s)) (assign s) (ra_used s) in
    match ra_free (inreg s) 0 with
    | Some pick => ra_take s tmp pick
    | None =>
        match inreg s with
        | [] => s
        | x0 :: rest =>
            let '(worst, wx) := ra_worst last rest 1 0 x0 in
            if last wx <=? last tmp then s
            else ra_take (RA (inreg s) (upd (assign s) wx EMU_IR_NO_REG) (ra_used s)) tmp worst
        end
    end.

(** The number of registers used, and the assignment of the first [nt] temps. *)
Definition emu_ir_regalloc (b : emu_ir_block) (nregs : Z) (assign0 : Z -> Z) : Z * (Z -> Z) :=
  let nt := if next_temp b <? EMU_IR_MAX_TEMPS then next_temp b else EMU_IR_MAX_TEMPS in
  let assign1 := fun x => if (0 <=? x) && (x <? nt) then EMU_IR_NO_REG else assign0 x in
  if (nregs =? 0) || (EMU_IR_MAX_HOST_REGS <? nregs) || overflow b then (0, assign1)
  else
    let '(def, last) := ra_scan nt (insn b) 0 (fun _ => IR_NO_POS) (fun _ => 0) in
    let s := fold_left (ra_temp (insn b) def last) (map Z.of_nat (seq 0 (Z.to_nat nt)))
               (RA (replicate (Z.to_nat nregs) EMU_IR_NO_TEMP) assign1 0) in
    (ra_used s, assign s).

(** ** What the scan of the instructions finds *)

(** Temps are numbered in the order of the instructions that write them. *)
Fixpoint numbered (lo : Z) (l : list emu_ir_insn) : Prop :=
  match l with
  | [] => True
  | i :: l' =>
      if dead i || negb (op_writes (op i)) then numbered lo l'
      else lo <= dst i /\ numbered (dst i + 1) l'
  end.

Lemma numbered_lookup l : forall lo j i, numbered lo l -> l !! j = Some i ->
  dead i = false -> op_writes (op i) = true -> lo <= dst i.
Proof.
  induction l as [|h l IH]; intros lo j i Hn Hj Hd Hw; [discriminate|]. cbn in Hn. destruct j as [|j].
  - injection Hj as ->. rewrite Hd, Hw in Hn. apply Hn.
  - destruct (_ || _); [eapply IH; eauto|]. destruct Hn as [Hlo Hn]. pose proof (IH _ _ _ Hn Hj Hd Hw). lia.
Qed.

Lemma numbered_mono l : forall lo j j' i i', numbered lo l -> l !! j = Some i -> l !! j' = Some i' ->
  dead i = false -> op_writes (op i) = true -> dead i' = false -> op_writes (op i') = true ->
  (j < j')%nat -> dst i < dst i'.
Proof.
  induction l as [|h l IH]; intros lo j j' i i' Hn Hj Hj' Hd Hw Hd' Hw' Hlt; [discriminate|].
  destruct j' as [|j']; [lia|]. cbn in Hn. destruct j as [|j].
  - injection Hj as ->. rewrite Hd, Hw in Hn. destruct Hn as [_ Hn].
    pose proof (numbered_lookup _ _ _ _ Hn Hj' Hd' Hw'). lia.
  - destruct (_ || _); [|destruct Hn as [_ Hn]]; eapply (IH _ j j'); eauto; lia.
Qed.

Lemma u16_pos k : 0 <= k < 65535 -> u16 k = k.
Proof. intros Hk. unfold u16. apply Z.mod_small. lia. Qed.

Lemma note_last_ge nt k last y x :
  0 <= k < 65535 -> last x <= k -> last x <= note_last nt k last y x <= k.
Proof.
  intros Hk Hx. unfold note_last. destruct (y <? nt); [|lia]. unfold upd.
  destruct (x =? y); [|lia]. rewrite u16_pos by assumption. lia.
Qed.

Lemma note_last_hit nt k last x : 0 <= k < 65535 -> x < nt -> note_last nt k last x x = k.
Proof.
  intros Hk Hx. unfold note_last. rewrite (proj2 (Z.ltb_lt _ _)) by assumption.
  rewrite upd_eq. apply u16_pos. assumption.
Qed.

Definition note_operands (nt k : Z) (last : Z -> Z) (i : emu_ir_insn) : Z -> Z :=
  note_last nt k (note_last nt k (note_last nt k last (opa i)) (opb i)) (opc i).

Lemma note_operands_ge nt k last i x :
  0 <= k < 65535 -> last x <= k -> last x <= note_operands nt k last i x <= k.
Proof.
  intros Hk Hx. unfold note_operands.
  pose proof (note_last_ge nt k last (opa i) x Hk Hx) as H1.
  pose proof (note_last_ge nt k _ (opb i) x Hk (proj2 H1)) as H2.
  pose proof (note_last_ge nt k _ (opc i) x Hk (proj2 H2)) as H3. lia.
Qed.

Lemma note_operands_read nt k last i x :
  0 <= k < 65535 -> last x <= k -> x < nt -> In x (reads i) -> note_operands nt k last i x = k.
Proof.
  intros Hk Hx Hnt Hr. apply filter_In in Hr as [Hr _]. cbn in Hr. unfold note_operands.
  pose proof (note_last_ge nt k last (opa i) x Hk Hx) as H1.
  pose proof (note_last_ge nt k _ (opb i) x Hk (proj2 H1)) as H2.
  pose proof (note_last_ge nt k _ (opc i) x Hk (proj2 H2)) as H3.
  destruct Hr as [<-|[<-|[<-|[]]]].
  - rewrite note_last_hit in * by assumption. lia.
  - rewrite (note_last_hit nt k _ (opb i)) in * by assumption. lia.
  - apply note_last_hit; assumption.
Qed.

(** The last reader is at or after every reader. *)
Lemma scan_last_ge nt l : forall k def last x,
  0 <= k -> k + Z.of_nat (length l) <= 65535 -> last x <= k -> last x <= snd (ra_scan nt l k def last) x.
Proof.
  induction l as [|i l IH]; intros k def last x Hk Hl Hx; cbn [ra_scan length] in *; [cbn; lia|].
  rewrite Nat2Z.inj_succ in Hl. destruct (dead i); [apply IH; lia|].
  fold (note_operands nt k last i).
  pose proof (note_operands_ge nt k last i x ltac:(lia) Hx) as Hn.
  etransitivity; [apply Hn|]. apply IH; lia.
Qed.

Lemma scan_last_read nt l : forall k def last j i x,
  0 <= k -> k + Z.of_nat (length l) <= 65535 -> last x <= k -> x < nt ->
  l !! j = Some i -> dead i = false -> In x (reads i) ->
  k + Z.of_nat j <= snd (ra_scan nt l k def last) x.
Proof.
  induction l as [|h l IH]; intros k def last j i x Hk Hl Hx Hnt Hj Hd Hr; [discriminate|].
  cbn [ra_scan length] in *. rewrite Nat2Z.inj_succ in Hl. fold (note_operands nt k last h).
  pose proof (note_operands_ge nt k last h x ltac:(lia) Hx) as Hn. destruct j as [|j].
  - injection Hj as ->. rewrite Hd. rewrite Z.add_0_r.
    erewrite <- (note_operands_read nt k last i x) at 1 by (try assumption; lia).
    apply scan_last_ge; lia.
  - rewrite Nat2Z.inj_succ. change ((h :: l) !! S j) with (l !! j) in Hj.
    destruct (dead h); [specialize (IH (k + 1) def last j i x)|
      specialize (IH (k + 1) (if dst h <? nt then upd def (dst h) (u16 k) else def) (note_operands nt k last h) j i x)];
      (etransitivity; [|apply IH; auto; lia]); lia.
Qed.

(** A definition's site is its position. *)
Definition no_dst_above (nt : Z) (l : list emu_ir_insn) : Prop :=
  Forall (fun i => dead i = false -> op_writes (op i) = false -> nt <= dst i) l.

Lemma scan_def_other nt l : forall k def last x,
  no_dst_above nt l -> x < nt -> x ∉ dsts l -> fst (ra_scan nt l k def last) x = def x.
Proof.
  induction l as [|i l IH]; intros k def last x Hn Hx Hd; cbn [ra_scan]; [reflexivity|].
  apply Forall_cons in Hn as [Hi Hn]. cbn [dsts] in Hd. apply not_elem_of_union in Hd as [Hdi Hdl].
  destruct (dead i) eqn:Hdead; [apply IH; assumption|]. rewrite IH by assumption.
  destruct (Z.ltb_spec (dst i) nt); [|reflexivity]. apply upd_ne. intros ->.
  destruct (op_writes (op i)) eqn:Hw; [|specialize (Hi eq_refl eq_refl); lia].
  rewrite wrote_live in Hdi by assumption. set_solver.
Qed.

Lemma scan_def_site nt l : forall D k def last j i,
  wf D l -> no_dst_above nt l -> 0 <= k -> k + Z.of_nat (length l) <= 65535 ->
  l !! j = Some i -> dead i = false -> op_writes (op i) = true -> dst i < nt ->
  fst (ra_scan nt l k def last) (dst i) = k + Z.of_nat j.
Proof.
  induction l as [|h l IH]; intros D k def last j i Hwf Hn Hk Hl Hj Hd Hw Hlt; [discriminate|].
  cbn [ra_scan length] in *. rewrite Nat2Z.inj_succ in Hl. destruct Hwf as [Hh Hwf].
  pose proof Hn as Hn'. apply Forall_cons in Hn as [_ Hn]. destruct j as [|j].
  - injection Hj as ->. rewrite Hd. rewrite scan_def_other; [|assumption..|].
    + rewrite (proj2 (Z.ltb_lt _ _)) by assumption. rewrite upd_eq, u16_pos by lia. lia.
    + apply (wf_fresh _ _ _ Hwf). rewrite wrote_live by assumption. set_solver.
  - change ((h :: l) !! S j) with (l !! j) in Hj. rewrite Nat2Z.inj_succ.
    destruct (dead h); erewrite IH; eauto; lia.
Qed.

Lemma in_dsts_lookup l x : x ∈ dsts l ->
  exists j i, l !! j = Some i /\ dead i = false /\ op_writes (op i) = true /\ dst i = x.
Proof.
  induction l as [|i l IH]; cbn [dsts]; [set_solver|]. intros Hx. apply elem_of_union in Hx as [Hx|Hx].
  - exists 0%nat, i. unfold wrote in Hx. destruct (dead i) eqn:Hd; [set_solver|].
    destruct (op_writes (op i)) eqn:Hw; [|set_solver]. apply elem_of_singleton in Hx. auto.
  - destruct (IH Hx) as (j & i' & H). exists (S j), i'. assumption.
Qed.

(** ** The invariant of the linear scan *)

Section Scan.
Variables (def last : Z -> Z) (nt nregs : Z).
Hypothesis nregs_ok : 0 < nregs <= EMU_IR_MAX_HOST_REGS.
Hypothesis nt_ok : nt <= EMU_IR_MAX_TEMPS.
Hypothesis def_order : forall x y, 0 <= x < y -> y < nt -> def x <> IR_NO_POS -> def y <> IR_NO_POS -> def x < def y.

(** Temp [x] is past before any temp from [tmp] on is defined. *)
Definition expired (tmp x : Z) : Prop :=
  forall y, tmp <= y < nt -> def y <> IR_NO_POS -> last x < def y.

Definition assigned (s : ra_state) (x : Z) : Prop := 0 <= x < nt /\ assign s x <> EMU_IR_NO_REG.

Definition intervals_apart (s : ra_state) : Prop :=
  forall x y, assigned s x -> assigned s y -> x <> y -> assign s x = assign s y ->
    last x < def y \/ last y < def x.

(** What holds before temp [tmp], register [pick] excepted. *)
Record ra_inv_but (pick : nat -> Prop) (tmp : Z) (s : ra_state) : Prop := {
  inv_len : Z.of_nat (length (inreg s)) = nregs;
  inv_used : 0 <= ra_used s <= nregs;
  inv_reg : forall r x, inreg s !! r = Some x -> x <> EMU_IR_NO_TEMP -> ~ pick r ->
    0 <= x < tmp /\ assign s x = Z.of_nat r;
  inv_temp : forall x, assigned s x ->
    x < tmp /\ 0 <= assign s x < ra_used s /\ def x < last x /\
    ((inreg s !! Z.to_nat (assign s x) = Some x /\ ~ pick (Z.to_nat (assign s x))) \/ expired tmp x);
  inv_apart : intervals_apart s
}.

Definition ra_inv := ra_inv_but (fun _ => False).

Lemma inv_next tmp s : ra_inv tmp s -> ra_inv (tmp + 1) s.
Proof.
  intros [A B C D E]. split; auto.
  - intros r x Hr Hx Hp. destruct (C r x Hr Hx Hp). lia.
  - intros x Hx. destruct (D x Hx) as (H1 & H2 & H3 & H4). split; [lia|]. split; [assumption|].
    split; [assumption|]. destruct H4 as [|H4]; [auto|]. right. intros y Hy. apply H4. lia.
Qed.

Lemma expire_inv tmp s :
  ra_inv tmp s -> 0 <= tmp < nt -> def tmp <> IR_NO_POS ->
  ra_inv tmp (RA (ra_expire last (def tmp) (inreg s)) (assign s) (ra_used s)).
Proof.
  intros [A B C D E] Ht Hd. split; cbn [inreg assign ra_used]; auto.
  - unfold ra_expire. rewrite length_map. assumption.
  - intros r x Hr Hx Hp. unfold ra_expire in Hr. rewrite list_lookup_fmap in Hr.
    destruct (inreg s !! r) as [x0|] eqn:E0; [|discriminate]. cbn in Hr. injection Hr as <-.
    destruct (_ && _); [contradiction|]. apply C; assumption.
  - intros x Hx. destruct (D x Hx) as (H1 & H2 & H3 & H4). split; [assumption|]. split; [assumption|].
    split; [assumption|]. destruct H4 as [[H4 _]|]; [|auto]. unfold ra_expire. rewrite list_lookup_fmap, H4. cbn.
    destruct (Z.ltb_spec (last x) (def tmp)) as [Hlt|Hge].
    + right. intros y Hy Hdy. destruct (Z.eq_dec y tmp) as [->|]; [assumption|].
      pose proof (def_order tmp y ltac:(lia) ltac:(lia) Hd Hdy). lia.
    + left. rewrite andb_false_r. auto.
Qed.

(** Giving register [pick] to [tmp]. *)
Lemma take_inv tmp pick s :
  ra_inv_but (fun r => r = pick) tmp s -> 0 <= tmp < nt -> def tmp <> IR_NO_POS -> def tmp < last tmp ->
  (pick < length (inreg s))%nat -> ra_inv (tmp + 1) (ra_take s tmp pick).
Proof.
  intros [A B C D E] Ht Hd Hlt Hp. unfold ra_take.
  assert (Hexp : forall x, assigned s x -> assign s x = Z.of_nat pick -> expired tmp x).
  { intros x Hx Ha. destruct (D x Hx) as (_ & _ & _ & [[_ H4]|H4]); [|assumption].
    rewrite Ha, Nat2Z.id in H4. contradiction. }
  assert (Hpr : Z.of_nat pick <> EMU_IR_NO_REG) by (unfold EMU_IR_NO_REG, EMU_IR_MAX_HOST_REGS in *; lia).
  assert (Hold : forall x, 0 <= x < nt -> x <> tmp -> upd (assign s) tmp (Z.of_nat pick) x <> EMU_IR_NO_REG -> assigned s x).
  { intros x Hx Hne Ha. rewrite upd_ne in Ha by assumption. split; assumption. }
  split; cbn [inreg assign ra_used].
  - rewrite length_insert. assumption.
  - destruct (Z.ltb_spec (ra_used s) (Z.of_nat pick + 1)); lia.
  - intros r x Hr Hx _. destruct (Nat.eq_dec r pick) as [->|Hne].
    + rewrite list_lookup_insert_eq in Hr by assumption. injection Hr as <-. rewrite upd_eq. lia.
    + rewrite list_lookup_insert_ne in Hr by auto. destruct (C r x Hr Hx Hne) as [H1 H2].
      rewrite upd_ne by lia. lia.
  - intros x [Hx Ha]. cbn [assign] in Ha. destruct (Z.eq_dec x tmp) as [->|Hne].
    + rewrite upd_eq, Nat2Z.id. split; [lia|]. split; [destruct (Z.ltb_spec (ra_used s) (Z.of_nat pick + 1)); lia|].
      split; [assumption|]. left. split; [apply list_lookup_insert_eq; assumption|auto].
    + destruct (D x (Hold x Hx Hne Ha)) as (H1 & H2 & H3 & H4). rewrite upd_ne in * by assumption.
      split; [lia|]. split; [destruct (Z.ltb_spec (ra_used s) (Z.of_nat pick + 1)); lia|]. split; [assumption|].
      destruct H4 as [[H4 H5]|H4]; [left; split; [|auto]|right; intros y Hy; apply H4; lia].
      rewrite list_lookup_insert_ne by auto. assumption.
  - intros x y [Hx Hax] [Hy Hay] Hne. cbn [assign] in *.
    destruct (Z.eq_dec x tmp) as [->|Hnx]; [|destruct (Z.eq_dec y tmp) as [->|Hny]].
    + rewrite upd_eq, upd_ne by auto. intros Heq. right.
      apply (Hexp y (Hold y Hy ltac:(auto) Hay)); [congruence|lia|assumption].
    + rewrite upd_eq, upd_ne by auto. intros Heq. left.
      apply (Hexp x (Hold x Hx ltac:(auto) Hax)); [congruence|lia|assumption].
    + rewrite !upd_ne by auto. apply E; eauto.
Qed.

Lemma ra_free_some l : forall r pick, ra_free l r = Some pick ->
  (r <= pick)%nat /\ l !! (pick - r)%nat = Some EMU_IR_NO_TEMP.
Proof.
  induction l as [|x l IH]; intros r pick E; [discriminate|]. cbn in E.
  destruct (Z.eqb_spec x EMU_IR_NO_TEMP) as [->|].
  - injection E as ->. rewrite Nat.sub_diag. auto.
  - destruct (IH _ _ E) as [H1 H2]. split; [lia|].
    replace (pick - r)%nat with (S (pick - S r)) by lia. assumption.
Qed.

Lemma ra_free_none l : forall r, ra_free l r = None -> Forall (fun x => x <> EMU_IR_NO_TEMP) l.
Proof.
  induction l as [|x l IH]; intros r E; [constructor|]. cbn in E.
  destruct (Z.eqb_spec x EMU_IR_NO_TEMP); [discriminate|]. constructor; eauto.
Qed.

Lemma ra_worst_lookup pre rest : forall worst wx w' wx',
  (pre ++ rest) !! worst = Some wx ->
  ra_worst last rest (length pre) worst wx = (w', wx') -> (pre ++ rest) !! w' = Some wx'.
Proof.
  revert pre. induction rest as [|x rest IH]; intros pre worst wx w' wx' Hw E; cbn [ra_worst] in E.
  { injection E as <- <-. assumption. }
  assert (Eq : pre ++ x :: rest = (pre ++ [x]) ++ rest) by (rewrite <- app_assoc; reflexivity).
  assert (El : S (length pre) = length (pre ++ [x])) by (rewrite length_app; cbn; lia).
  rewrite El in E. destruct (last wx <? last x); rewrite Eq in *.
  - eapply IH; [|exact E]. rewrite <- Eq, lookup_app_r, Nat.sub_diag by lia. reflexivity.
  - eapply IH; [|exact E]. assumption.
Qed.

Lemma free_inv_but tmp s pick :
  ra_inv tmp s -> inreg s !! pick = Some EMU_IR_NO_TEMP -> ra_inv_but (fun r => r = pick) tmp s.
Proof.
  intros [A B C D E] Hp. split; [assumption..|intros r x Hr Hx _; apply C; auto| |assumption].
  intros x Hx. destruct (D x Hx) as (H1 & H2 & H3 & H4). split_and!; auto; try lia.
  destruct H4 as [[H4 _]|]; [|auto]. left. split; [assumption|]. intros Hr. rewrite Hr, Hp in H4.
  injection H4 as H4. destruct Hx as [Hx _]. pose proof max_temps_ok. unfold EMU_IR_NO_TEMP in H4. lia.
Qed.

Lemma evict_inv_but tmp s worst wx :
  ra_inv tmp s -> inreg s !! worst = Some wx -> wx <> EMU_IR_NO_TEMP ->
  ra_inv_but (fun r => r = worst) tmp (RA (inreg s) (upd (assign s) wx EMU_IR_NO_REG) (ra_used s)).
Proof.
  intros [A B C D E] Hw Hne.
  assert (Hold : forall x, assigned (RA (inreg s) (upd (assign s) wx EMU_IR_NO_REG) (ra_used s)) x ->
    x <> wx /\ assigned s x).
  { intros x [Hx Ha]. cbn [assign] in Ha. unfold upd in Ha. destruct (Z.eqb_spec x wx); [contradiction|].
    split; [assumption|split; assumption]. }
  split; cbn [inreg assign ra_used]; auto.
  - intros r x Hr Hx Hnr. destruct (C r x Hr Hx ltac:(auto)) as [H1 H2]. split; [assumption|].
    rewrite upd_ne; [assumption|]. intros ->. destruct (C worst wx Hw Hne ltac:(auto)) as [_ H3]. lia.
  - intros x Hx. destruct (Hold x Hx) as [Hnx Hx']. destruct (D x Hx') as (H1 & H2 & H3 & H4).
    rewrite upd_ne by assumption. split_and!; auto; try lia. destruct H4 as [[H4 _]|]; [|auto].
    left. split; [assumption|]. intros Hr. rewrite Hr, Hw in H4. congruence.
  - intros x y Hx Hy Hxy. destruct (Hold x Hx), (Hold y Hy). cbn [assign]. rewrite !upd_ne by assumption. auto.
Qed.

Lemma ra_temp_inv l tmp s : ra_inv tmp s -> 0 <= tmp < nt -> ra_inv (tmp + 1) (ra_temp l def last s tmp).
Proof.
  intros Hinv Ht. unfold ra_temp. destruct (_ || _) eqn:Hc; [apply inv_next; assumption|]. bool_hyps.
  destruct (ra_elided _ _ _); [apply inv_next; assumption|].
  pose proof (expire_inv tmp s Hinv Ht ltac:(assumption)) as Hexp.
  set (s1 := RA (ra_expire last (def tmp) (inreg s)) (assign s) (ra_used s)) in *.
  destruct (ra_free (inreg s1) 0) as [pick|] eqn:Ef.
  - apply ra_free_some in Ef as [_ Ef]. rewrite Nat.sub_0_r in Ef.
    apply take_inv; auto; [apply free_inv_but; assumption|]. apply lookup_lt_Some in Ef. assumption.
  - apply ra_free_none in Ef. destruct (inreg s1) as [|x0 rest] eqn:Ei; [apply inv_next; assumption|].
    destruct (ra_worst last rest 1 0 x0) as [worst wx] eqn:Ew.
    destruct (Z.leb_spec (last wx) (last tmp)); [apply inv_next; assumption|].
    pose proof (ra_worst_lookup [x0] rest 0 x0 worst wx eq_refl Ew) as Hw. cbn [app] in Hw.
    assert (Hne : wx <> EMU_IR_NO_TEMP) by (eapply Forall_lookup_1 in Ef; eauto).
    rewrite <- Ei in *. apply take_inv; auto; [apply evict_inv_but; assumption|].
    cbn [inreg]. apply lookup_lt_Some in Hw. assumption.
Qed.

Lemma ra_walk l n : forall tmp s, ra_inv (Z.of_nat tmp) s -> Z.of_nat (tmp + n) <= nt ->
  ra_inv (Z.of_nat (tmp + n)) (fold_left (ra_temp l def last) (map Z.of_nat (seq tmp n)) s).
Proof.
  induction n as [|n IH]; intros tmp s Hs Hn; cbn [seq map fold_left].
  - rewrite Nat.add_0_r. assumption.
  - rewrite <- Nat.add_succ_comm. apply IH; [|lia]. rewrite Nat2Z.inj_succ.
    apply ra_temp_inv; [assumption|lia].
Qed.

End Scan.

(** ** Temps in their places *)

(** Where a temp lives: its host register, or its own slot of the frame. *)
Definition place (asg : Z -> Z) (x : Z) : Z :=
  if asg x =? EMU_IR_NO_REG then EMU_IR_MAX_HOST_REGS + x else asg x.

Definition operand_at (asg m : Z -> Z) (x : Z) : Z :=
  if x =? EMU_IR_NO_TEMP then 0 else u32 (m (place asg x)).

Definition write_at (asg m : Z -> Z) (d : Z) (r : option Z) : Z -> Z :=
  match r with Some v => if is_temp d then upd m (place asg d) v else m | None => m end.

Context {Ext : Type}.
#[local] Abbreviation cpu_t := (emu_cpu Ext).
#[local] Abbreviation target_t := (emu_ir_target Ext).

(** [run] with every temp kept where the assignment puts it. *)
Fixpoint run_placed (t : target_t) (start : Z) (asg : Z -> Z) (l : list emu_ir_insn) (m : Z -> Z)
  (cpu : cpu_t) (n : Z) : ir_run * cpu_t * Z :=
  match l with
  | [] => (IR_RUN_DONE, cpu, n)
  | i :: l' =>
      if dead i then run_placed t start asg l' m cpu n
      else match step t start i cpu n (operand_at asg m (opa i)) (operand_at asg m (opb i))
                      (operand_at asg m (opc i)) with
           | Quit w cpu' n' => (w, cpu', n')
           | Cont cpu' n' r => run_placed t start asg l' (write_at asg m (dst i) r) cpu' n'
           end
  end.

(** No instruction writes over a value still to be read. *)
Fixpoint no_clobber (asg : Z -> Z) (D : gset Z) (l : list emu_ir_insn) : Prop :=
  match l with
  | [] => True
  | i :: l' =>
      (dead i = false -> op_writes (op i) = true ->
       forall x, x ∈ D -> nreads x l' <> 0%nat -> place asg x <> place asg (dst i)) /\
      no_clobber asg (D ∪ wrote i) l'
  end.

Lemma nreads_in x i l : dead i = false -> In x (reads i) -> nreads x (i :: l) <> 0%nat.
Proof.
  intros Hd Hx. cbn [nreads]. rewrite Hd. apply (count_occ_In Z.eq_dec) in Hx. lia.
Qed.

Lemma run_placed_ok t start asg l : forall D m tmp cpu n,
  wf D l -> no_clobber asg D l ->
  (forall x, x ∈ D -> nreads x l <> 0%nat -> m (place asg x) = tmp x) ->
  run_placed t start asg l m cpu n = obs (run t start l tmp cpu n).
Proof.
  induction l as [|i l IH]; intros D m tmp cpu n Hwf Hnc Hm; [reflexivity|].
  destruct Hwf as [Hi Hwf]. destruct Hnc as [Hci Hnc]. cbn [run_placed run].
  destruct (dead i) eqn:Hd.
  { unfold wrote in Hwf, Hnc. rewrite Hd, (right_id_L ∅ (∪)) in *. apply (IH D); auto.
    intros x Hx Hr. apply Hm; [assumption|]. cbn [nreads]. rewrite Hd. assumption. }
  destruct (Hi eq_refl) as (_ & Hr & Hw). rewrite Forall_forall in Hr.
  assert (Hop : forall x, (x <> EMU_IR_NO_TEMP -> In x (reads i)) -> operand_at asg m x = operand tmp x).
  { intros x Hx. unfold operand_at, operand. destruct (Z.eqb_spec x EMU_IR_NO_TEMP); [reflexivity|].
    rewrite Hm; auto using nreads_in. apply Hr, list_elem_of_In. auto. }
  unfold step_at. rewrite !Hop by auto using reads_opa, reads_opb, reads_opc.
  destruct (step t start i cpu n _ _ _) as [cpu' n' r|w cpu' n'] eqn:Es; [|reflexivity].
  apply (IH (D ∪ wrote i)); auto. intros x Hx Hrd.
  destruct (op_writes (op i)) eqn:Hwr.
  - destruct (step_value _ _ _ _ _ _ _ _ _ _ _ Hwr Es) as [v ->]. destruct Hw as (Ht & _ & Hf).
    unfold write_at. rewrite Ht. destruct (Z.eq_dec x (dst i)) as [->|Hne].
    + rewrite upd_eq, write_dst_eq by assumption. reflexivity.
    + rewrite wrote_live in Hx by assumption. assert (HxD : x ∈ D) by set_solver.
      rewrite upd_ne by (apply Hci; auto). rewrite write_dst_other by assumption.
      apply Hm; [assumption|]. cbn [nreads]. lia.
  - pose proof (step_no_value _ _ _ _ _ _ _ _ _ _ _ Hwr Es) as ->. cbn [write_at write_dst].
    unfold wrote in Hx. rewrite Hd, Hwr in Hx. apply Hm; [set_solver|]. cbn [nreads]. lia.
Qed.

(** ** The allocator's contract *)

(** A block as the builder numbers it, whatever the passes deleted since. *)
Definition numbered_block (b : emu_ir_block) : Prop :=
  wf ∅ (insn b) /\ numbered 0 (insn b) /\ (forall x, x ∈ dsts (insn b) -> x < next_temp b) /\
  0 <= next_temp b /\ count b <= EMU_IR_MAX_INSNS.

Definition alloc_temps (b : emu_ir_block) : Z :=
  if next_temp b <? EMU_IR_MAX_TEMPS then next_temp b else EMU_IR_MAX_TEMPS.

Lemma wf_dsts_temp l : forall D x, wf D l -> x ∈ dsts l -> is_temp x = true /\ 0 <= x.
Proof.
  intros D x Hwf Hx. apply in_dsts_lookup in Hx as (j & i & Hj & Hd & Hw & <-).
  revert D j Hwf Hj. induction l as [|h l IH]; intros D j Hwf Hj; [destruct j; discriminate|].
  destruct Hwf as [Hh Hwf].
  destruct j as [|j]; [injection Hj as ->|eapply IH; eauto].
  destruct (Hh Hd) as (_ & _ & Hi). rewrite Hw in Hi. tauto.
Qed.

Lemma dsts_below b x : numbered_block b -> x ∈ dsts (insn b) -> 0 <= x < alloc_temps b.
Proof.
  intros (Hwf & _ & Hb & _) Hx. destruct (wf_dsts_temp _ _ _ Hwf Hx) as [Ht H0].
  unfold is_temp in Ht. bool_hyps. specialize (Hb x Hx). unfold alloc_temps.
  destruct (Z.ltb_spec (next_temp b) EMU_IR_MAX_TEMPS); lia.
Qed.

Lemma block_no_dst b : numbered_block b -> no_dst_above (alloc_temps b) (insn b).
Proof.
  intros (Hwf & _ & _ & H0 & _). apply Forall_forall. intros i Hi Hd Hw.
  apply list_elem_of_In in Hi. rewrite (wf_no_dst ∅ (insn b) i Hwf Hi Hd Hw).
  pose proof max_temps_ok. unfold alloc_temps, EMU_IR_NO_TEMP.
  destruct (Z.ltb_spec (next_temp b) EMU_IR_MAX_TEMPS); lia.
Qed.

(** The tables of a block: every written temp has its position as its site,
    sites are ordered as the temps are. *)
Lemma block_sites b def last :
  numbered_block b -> ra_scan (alloc_temps b) (insn b) 0 (fun _ => IR_NO_POS) (fun _ => 0) = (def, last) ->
  (forall j i, insn b !! j = Some i -> dead i = false -> op_writes (op i) = true -> def (dst i) = Z.of_nat j) /\
  (forall j i x, insn b !! j = Some i -> dead i = false -> In x (reads i) -> x < alloc_temps b -> Z.of_nat j <= last x) /\
  (forall x, x < alloc_temps b -> def x <> IR_NO_POS -> x ∈ dsts (insn b)).
Proof.
  intros Hb E. pose proof Hb as (Hwf & _ & _ & _ & Hc). unfold count in Hc. pose proof max_insns_ok.
  pose proof (block_no_dst b Hb) as Hnd. split; [|split].
  - intros j i Hj Hd Hw. replace def with (fst (def, last)) by reflexivity. rewrite <- E.
    rewrite (scan_def_site _ _ ∅ 0 _ _ j i); auto; try lia.
    apply dsts_below; [assumption|]. apply list_split_at in Hj as (pre & post & Hl & _). rewrite Hl, dsts_app.
    apply elem_of_union_r. cbn [dsts]. rewrite wrote_live by assumption. set_solver.
  - intros j i x Hj Hd Hr Hx. replace last with (snd (def, last)) by reflexivity. rewrite <- E.
    pose proof (scan_last_read (alloc_temps b) (insn b) 0 (fun _ => IR_NO_POS) (fun _ => 0) j i x) as Hs.
    apply Hs; auto; lia.
  - intros x Hx Hd. destruct (decide (x ∈ dsts (insn b))) as [|Hn]; [assumption|]. exfalso. apply Hd.
    replace def with (fst (def, last)) by reflexivity. rewrite <- E.
    apply scan_def_other; assumption.
Qed.

Lemma block_order b def last x y :
  numbered_block b -> ra_scan (alloc_temps b) (insn b) 0 (fun _ => IR_NO_POS) (fun _ => 0) = (def, last) ->
  0 <= x < y -> y < alloc_temps b -> def x <> IR_NO_POS -> def y <> IR_NO_POS -> def x < def y.
Proof.
  intros Hb E Hxy Hy Hdx Hdy. destruct (block_sites b def last Hb E) as (Hs & _ & Hin).
  destruct (in_dsts_lookup _ _ (Hin x ltac:(lia) Hdx)) as (j & i & Hj & Hd & Hw & <-).
  destruct (in_dsts_lookup _ _ (Hin y ltac:(lia) Hdy)) as (j' & i' & Hj' & Hd' & Hw' & <-).
  rewrite (Hs j i), (Hs j' i') by assumption.
  destruct (Nat.lt_trichotomy j j') as [|[->|Hlt]]; [lia| |].
  - rewrite Hj in Hj'. injection Hj' as ->. lia.
  - destruct Hb as (_ & Hn & _). pose proof (numbered_mono _ _ _ _ _ _ Hn Hj' Hj Hd' Hw' Hd Hw Hlt). lia.
Qed.

(** The allocator's result: no register is handed out at all, or the scan's
    invariant holds at its end. *)
Lemma regalloc_result b nregs a0 used asg :
  numbered_block b -> 0 <= nregs -> emu_ir_regalloc b nregs a0 = (used, asg) ->
  (used = 0 /\ forall x, 0 <= x < alloc_temps b -> asg x = EMU_IR_NO_REG) \/
  (0 < nregs <= EMU_IR_MAX_HOST_REGS /\ exists def last regs,
     ra_scan (alloc_temps b) (insn b) 0 (fun _ => IR_NO_POS) (fun _ => 0) = (def, last) /\
     ra_inv def last (alloc_temps b) nregs (alloc_temps b) (RA regs asg used)).
Proof.
  intros Hb Hn E. unfold emu_ir_regalloc in E. fold (alloc_temps b) in E.
  assert (H1 : forall x, 0 <= x < alloc_temps b ->
    (if (0 <=? x) && (x <? alloc_temps b) then EMU_IR_NO_REG else a0 x) = EMU_IR_NO_REG).
  { intros x Hx. rewrite (proj2 (Z.leb_le _ _)), (proj2 (Z.ltb_lt _ _)) by lia. reflexivity. }
  destruct (_ || _ || _) eqn:Hc; [injection E as <- <-; left; auto|]. bool_hyps.
  destruct (ra_scan _ _ _ _ _) as [def last] eqn:Es. injection E as <- <-. right. split; [lia|].
  match goal with |- context [fold_left ?f ?l ?s] => set (fin := fold_left f l s) end.
  exists def, last, (inreg fin). split; [reflexivity|].
  pose proof Hb as (_ & _ & _ & Hnt0 & _). pose proof max_temps_ok.
  assert (Hnt : 0 <= alloc_temps b <= EMU_IR_MAX_TEMPS)
    by (unfold alloc_temps; destruct (Z.ltb_spec (next_temp b) EMU_IR_MAX_TEMPS); lia).
  pose proof (ra_walk def last (alloc_temps b) nregs ltac:(lia) ltac:(lia)
    (fun x y => block_order b def last x y Hb Es) (insn b) (Z.to_nat (alloc_temps b)) 0) as Hw.
  cbn [Nat.add Z.of_nat] in Hw. rewrite Z2Nat.id in Hw by lia. unfold fin. destruct (fold_left _ _ _) eqn:Ef.
  cbn [inreg assign ra_used]. rewrite <- Ef. apply Hw; [|lia]. split; cbn [inreg assign ra_used].
  - rewrite length_replicate. lia.
  - lia.
  - intros r x Hr. apply lookup_replicate in Hr. tauto.
  - intros x [Hx Ha]. cbn [assign] in Ha. rewrite H1 in Ha by assumption. contradiction.
  - intros x y [Hx Ha]. cbn [assign] in Ha. rewrite H1 in Ha by assumption. contradiction.
Qed.

(** Registers handed out are below the count returned. *)
Lemma place_cases b nregs a0 used asg x :
  numbered_block b -> 0 <= nregs -> emu_ir_regalloc b nregs a0 = (used, asg) ->
  0 <= x < alloc_temps b ->
  asg x = EMU_IR_NO_REG \/ (0 <= asg x < used /\ used <= nregs <= EMU_IR_MAX_HOST_REGS).
Proof.
  intros Hb Hn E Hx. destruct (Z.eq_dec (asg x) EMU_IR_NO_REG) as [|Hne]; [auto|]. right.
  destruct (regalloc_result _ _ _ _ _ Hb Hn E) as [[_ H]|(Hr & def & last & regs & _ & Hi)].
  - rewrite H in Hne by assumption. contradiction.
  - destruct (inv_temp _ _ _ _ _ _ _ Hi x (conj Hx Hne)) as (_ & Hu & _). cbn in Hu.
    pose proof (inv_used _ _ _ _ _ _ _ Hi) as Hus. cbn in Hus. lia.
Qed.

(** Two temps in one place have disjoint intervals. *)
Lemma place_apart b nregs a0 used asg def last x y :
  numbered_block b -> 0 <= nregs -> emu_ir_regalloc b nregs a0 = (used, asg) ->
  ra_scan (alloc_temps b) (insn b) 0 (fun _ => IR_NO_POS) (fun _ => 0) = (def, last) ->
  0 <= x < alloc_temps b -> 0 <= y < alloc_temps b -> x <> y -> place asg x = place asg y ->
  def x < last x /\ def y < last y /\ (last x < def y \/ last y < def x).
Proof.
  intros Hb Hn E Es Hx Hy Hne Hp. unfold place in Hp.
  destruct (place_cases _ _ _ _ _ x Hb Hn E Hx) as [Ex|Ex], (place_cases _ _ _ _ _ y Hb Hn E Hy) as [Ey|Ey];
    destruct (Z.eqb_spec (asg x) EMU_IR_NO_REG) as [Ex'|Ex'], (Z.eqb_spec (asg y) EMU_IR_NO_REG) as [Ey'|Ey'];
    unfold EMU_IR_NO_REG, EMU_IR_MAX_HOST_REGS in *; try lia.
  destruct (regalloc_result _ _ _ _ _ Hb Hn E) as [[_ H]|(Hr & def' & last' & regs & Es' & Hi)].
  { rewrite H in Ex' by assumption. contradiction. }
  rewrite Es in Es'. injection Es' as <- <-.
  assert (Ax : assigned (alloc_temps b) (RA regs asg used) x) by (split; assumption).
  assert (Ay : assigned (alloc_temps b) (RA regs asg used) y) by (split; assumption).
  split; [apply (inv_temp _ _ _ _ _ _ _ Hi x Ax)|]. split; [apply (inv_temp _ _ _ _ _ _ _ Hi y Ay)|].
  exact (inv_apart _ _ _ _ _ _ _ Hi x y Ax Ay Hne Hp).
Qed.

Lemma nreads_lookup x l : nreads x l <> 0%nat ->
  exists j i, l !! j = Some i /\ dead i = false /\ In x (reads i).
Proof.
  induction l as [|i l IH]; cbn [nreads]; [lia|]. intros Hn.
  destruct (Nat.eq_dec (nreads x l) 0) as [E|E].
  - exists 0%nat, i. destruct (dead i); [lia|]. split; [reflexivity|]. split; [reflexivity|].
    apply (count_occ_In Z.eq_dec). lia.
  - destruct (IH E) as (j & i' & H). exists (S j), i'. assumption.
Qed.

Lemma alloc_no_clobber b nregs a0 used asg :
  numbered_block b -> 0 <= nregs -> emu_ir_regalloc b nregs a0 = (used, asg) ->
  forall l pre, insn b = pre ++ l -> no_clobber asg (dsts pre) l.
Proof.
  intros Hb Hn E. destruct (ra_scan (alloc_temps b) (insn b) 0 (fun _ => IR_NO_POS) (fun _ => 0)) as [def last] eqn:Es.
  destruct (block_sites b def last Hb Es) as (Hdef & Hlast & _).
  assert (Hsite : forall pre i l, insn b = pre ++ i :: l -> dead i = false -> op_writes (op i) = true ->
    dst i ∈ dsts (insn b) /\ def (dst i) = Z.of_nat (length pre)).
  { intros pre i l Hl Hd Hw. split.
    - rewrite Hl, dsts_app. apply elem_of_union_r. cbn [dsts]. rewrite wrote_live by assumption. set_solver.
    - apply (Hdef _ i); auto. rewrite Hl, lookup_app_r, Nat.sub_diag by lia. reflexivity. }
  induction l as [|i l IH]; intros pre Hl; [exact I|]. split.
  - intros Hd Hw x Hx Hr Hp. destruct (Hsite pre i l Hl Hd Hw) as [Hdi Hsi].
    assert (Hxb : x ∈ dsts (insn b)) by (rewrite Hl, dsts_app; set_solver).
    pose proof (dsts_below b x Hb Hxb) as Hxn. pose proof (dsts_below b (dst i) Hb Hdi) as Hdn.
    destruct (nreads_lookup _ _ Hr) as (j & u & Hj & Hu & Hru).
    assert (Hlx : Z.of_nat (length pre + S j) <= last x).
    { apply (Hlast _ u); auto; [|lia]. rewrite Hl, lookup_app_r by lia.
      replace (length pre + S j - length pre)%nat with (S j) by lia. exact Hj. }
    destruct (in_dsts_lookup _ _ Hx) as (jx & ix & Hjx & Hdx & Hwx & Edx).
    assert (Hsx : def x = Z.of_nat jx).
    { rewrite <- Edx. apply (Hdef jx ix); auto. rewrite Hl, lookup_app_l; [assumption|]. eapply lookup_lt_Some; eauto. }
    apply lookup_lt_Some in Hjx.
    assert (Hne : x <> dst i) by (intros ->; lia).
    destruct (place_apart _ _ _ _ _ _ _ x (dst i) Hb Hn E Es Hxn Hdn Hne Hp) as (_ & H2 & H3). lia.
  - replace (dsts pre ∪ wrote i) with (dsts (pre ++ [i])).
    + apply IH. rewrite Hl, <- app_assoc. reflexivity.
    + rewrite dsts_app. cbn [dsts]. set_solver.
Qed.

(** [C7] The allocator is sound: for every block numbered as the builder
    numbers it, the registers it hands out are below the count it returns and
    within what the host offers, and a run that keeps every temp in the
    register or frame slot it was given, from any contents of those places,
    is the interpreter's run. *)
Theorem regalloc_sound t start b nregs a0 used asg :
  numbered_block b -> 0 <= nregs -> emu_ir_regalloc b nregs a0 = (used, asg) ->
  (forall x, 0 <= x < alloc_temps b ->
     asg x = EMU_IR_NO_REG \/ (0 <= asg x < used /\ used <= nregs <= EMU_IR_MAX_HOST_REGS)) /\
  (forall m tmp (cpu : cpu_t) n,
     run_placed t start asg (insn b) m cpu n = obs (run t start (insn b) tmp cpu n)).
Proof.
  intros Hb Hn E. split; [intros x; apply (place_cases b nregs a0); assumption|].
  intros m tmp cpu n. apply (run_placed_ok t start asg (insn b) ∅).
  - apply Hb.
  - apply (alloc_no_clobber b nregs a0 used asg Hb Hn E (insn b) []). reflexivity.
  - set_solver.
Qed.

End Regalloc.
