(* ===== verification/IrDemo.v ===== *)
(** * Guests and blocks to run the definitions on

    Two small guests with the layouts the frontends have: one like G4MH (a
    hardwired r0, four flags in a status word, the pc apart) and one like
    ARMv7-M (no hardwired register, no flags, r15 is the pc).  Both satisfy
    [TargetLaws].  The blocks are the ones of [tests/unit/test_ir.c] where it
    has them; the examples evaluate the passes and the interpreter on them,
    and the witnesses apply the theorems to them. *)

From S2P Require Import Prelude IrTypes IrFloat IrInterp IrPasses IrSem IrSubst IrLaws IrRetire IrOptimise IrLoop IrBuilder IrRegalloc.
From stdpp Require Import base list gmap.
From Stdlib Require Import ZArith Lia.

Open Scope Z_scope.
Open Scope u32_scope.

(** ** A guest with flags *)

Definition mem := Z -> Z.

Definition flagged_load (cpu : emu_cpu mem) (addr spec : Z) : Z * Z * emu_cpu mem :=
  if addr <? 65536 then (0, u32 (cpu_ext cpu addr), cpu) else (1, 0, cpu).
Definition flagged_store (cpu : emu_cpu mem) (addr spec v : Z) : Z * emu_cpu mem :=
  if addr <? 65536 then (0, Cpu (cpu_word cpu) (upd (cpu_ext cpu) addr v)) else (1, cpu).

(** A helper that swaps r1 and r2. *)
Definition swap_helper (cpu : emu_cpu mem) (a b : Z) : Z * emu_cpu mem :=
  (0, set_word (set_word cpu 4 (word_at cpu 8)) 8 (word_at cpu 4)).

Definition flagged : emu_ir_target mem :=
  {| t_reg_offset := Some (fun n => 4 * n);
     flags_offset := 132;
     flag_bit := fun f => match f with 0 => 1 | 1 => 2 | 2 => 4 | 3 => 8 | _ => 0 end;
     t_reg_is_zero := Some (fun n => n =? 0);
     pc_offset := 128;
     helpers := Some [swap_helper];
     t_load := Some flagged_load;
     t_store := Some flagged_store;
     freg_offset := None |}.

#[export] Instance flagged_laws : TargetLaws flagged.
Proof.
  refine {| valid_reg := fun n => (0 <=? n) && (n <? 32); valid_freg := fun _ => false |};
    cbn; unfold reg_offset; cbn; intros; bool_hyps; try lia; try discriminate; eauto.
  - unfold is_u32. assert (f = 0 \/ f = 1 \/ f = 2 \/ f = 3) as [-> |[-> |[-> | ->]]] by lia; lia.
  - assert (f = 0 \/ f = 1 \/ f = 2 \/ f = 3) as [-> |[-> |[-> | ->]]] by lia;
      assert (g = 0 \/ g = 1 \/ g = 2 \/ g = 3) as [-> |[-> |[-> | ->]]] by lia; cbn; try reflexivity; lia.
  - match goal with H : Some flagged_load = Some _ |- _ => injection H as <- end.
    unfold flagged_load in *. destruct (addr <? 65536); [|discriminate].
    match goal with H : _ = (0, _, _) |- _ => injection H as _ <- end. reflexivity.
  - match goal with H : Some flagged_store = Some _ |- _ => injection H as <- end.
    unfold flagged_store in *. destruct (addr <? 65536); [|discriminate].
    match goal with H : _ = (0, _) |- _ => injection H as <- end. reflexivity.
Defined.

(** ** A guest whose r15 is the pc *)

Definition armlike : emu_ir_target mem :=
  {| t_reg_offset := Some (fun n => 4 * n);
     flags_offset := 64;
     flag_bit := fun _ => 0;
     t_reg_is_zero := Some (fun _ => false);
     pc_offset := 60;
     helpers := None;
     t_load := Some flagged_load;
     t_store := Some flagged_store;
     freg_offset := None |}.

#[export] Instance armlike_laws : TargetLaws armlike.
Proof.
  refine {| valid_reg := fun n => (0 <=? n) && (n <? 16); valid_freg := fun _ => false |};
    cbn; unfold reg_offset; cbn; intros; bool_hyps; try lia; try discriminate; eauto.
  - unfold is_u32. lia.
  - match goal with H : Some flagged_load = Some _ |- _ => injection H as <- end.
    unfold flagged_load in *. destruct (addr <? 65536); [|discriminate].
    match goal with H : _ = (0, _, _) |- _ => injection H as _ <- end. reflexivity.
  - match goal with H : Some flagged_store = Some _ |- _ => injection H as <- end.
    unfold flagged_store in *. destruct (addr <? 65536); [|discriminate].
    match goal with H : _ = (0, _) |- _ => injection H as <- end. reflexivity.
Defined.

(** ** Blocks *)

Definition empty_block (pc : Z) : emu_ir_block := emu_ir_reset (Block [] 0 0 pc false false false false false).

Definition emit_ (b : emu_ir_block) (o : emu_ir_op) (ax a bb im df : Z) : emu_ir_block :=
  snd (emu_ir_emit b o ax a bb im df).

(** [add r1, r2; add r2, r2] with its flags, a load, and a back edge taken
    while r2 is below 100. *)
Definition loop_block : emu_ir_block :=
  let NT := EMU_IR_NO_TEMP in
  let b := empty_block 4096 in
  let '(x, b) := emu_ir_get b 1 in
  let '(y, b) := emu_ir_get b 2 in
  let '(s, b) := emu_ir_alu b EMU_IR_ADD x y in
  let b := emit_ b EMU_IR_SETF 1 x y 0 EMU_IR_F_ALL in
  let b := emu_ir_put b 2 s in
  let b := emit_ b EMU_IR_RETIRE 0 NT NT 0 0 in
  let b := emit_ b EMU_IR_SETPC 0 NT NT 4098 0 in
  let '(y2, b) := emu_ir_get b 2 in
  let '(k, b) := emu_ir_const b 3 in
  let '(p, b) := emu_ir_alu b EMU_IR_MUL y2 k in
  let '(q, b) := emu_ir_alu b EMU_IR_ADD x p in
  let b := emit_ b EMU_IR_SETF 3 q NT 0 EMU_IR_F_ALL in
  let b := emu_ir_put b 2 q in
  let b := emit_ b EMU_IR_RETIRE 0 NT NT 0 0 in
  let b := emit_ b EMU_IR_SETPC 0 NT NT 4100 0 in
  let '(four, b) := emu_ir_const b 4 in
  let '(adr, b) := emu_ir_alu b EMU_IR_ADD q four in
  let '(v, b) := emu_ir_emit b EMU_IR_LOAD 2 adr NT 8 0 in
  let b := emu_ir_put b 3 v in
  let b := emit_ b EMU_IR_RETIRE 0 NT NT 0 0 in
  let '(lim, b) := emu_ir_const b 100 in
  let b := emit_ b EMU_IR_EXIT_IF 4 q lim 4096 0 in
  emit_ b EMU_IR_EXIT 0 NT NT 4104 0.

Definition start_cpu : emu_cpu mem :=
  Cpu (fun off => if off =? 4 then 5 else if off =? 8 then 1 else 0) (fun a => a + 1).

(** What is visible of a run: outcome, r1, r2, r3, psw, pc, retired count. *)
Definition view (r : option (bool * emu_cpu mem * Z)) : option (bool * list Z * Z) :=
  match r with
  | Some (ok, cpu, n) => Some (ok, map (word_at cpu) [4; 8; 12; 132; 128], n)
  | None => None
  end.

Definition optimised (b : emu_ir_block) : emu_ir_block * emu_ir_opt_stats :=
  fst (emu_ir_optimise (fun _ _ => true) stats_zero b (Some flagged) EMU_IR_F_ALL).

(** Every pass but the identities finds something to do in this block. *)
Example loop_block_stats :
  snd (optimised loop_block) =
  {| single_use := 5; flags_removed := 1; gets_removed := 1; puts_removed := 1; setpcs_removed := 1;
     folded := 1; addr_folded := 1; identities := 0; macs := 1; dead_removed := 1;
     retires_merged := 1; blocks := 0 |}.
Proof. vm_compute. reflexivity. Qed.

(** Three rounds of the block, nine instructions retired. *)
Example loop_block_runs :
  view (emu_ir_interp 200 loop_block (fun _ => 77) start_cpu flagged)
  = Some (true, [5; 287; 300; 0; 4104], 9).
Proof. vm_compute. reflexivity. Qed.

Lemma loop_block_front : frontend_block flagged (insn loop_block).
Proof. apply frontend_blockb_sound. vm_compute. reflexivity. Qed.

Lemma loop_block_models : interp_models (insn loop_block) flagged = true.
Proof. vm_compute. reflexivity. Qed.

Lemma loop_block_wf : wf ∅ (insn loop_block).
Proof. apply wfb_sound. vm_compute. reflexivity. Qed.

(** ** Witnesses *)

Lemma optimise_preserves_interp_witness :
  emu_ir_interp 200 loop_block (fun _ => 77) start_cpu flagged
  = emu_ir_interp 200 (fst (optimised loop_block)) (fun _ => 3) start_cpu flagged.
Proof.
  apply (optimise_preserves_interp flagged (fun _ _ => true) stats_zero loop_block
           (fst (optimised loop_block)) (snd (optimised loop_block))
           (snd (emu_ir_optimise (fun _ _ => true) stats_zero loop_block (Some flagged) EMU_IR_F_ALL))).
  - apply loop_block_front.
  - apply loop_block_models.
  - vm_compute. reflexivity.
Defined.

(** Two instructions at a time, back to the start: what merging leaves, given
    to the interpreter directly. *)
Definition spin_block : emu_ir_block :=
  let b := empty_block 4096 in
  let b := snd (emu_ir_emit b EMU_IR_RETIRE 0 EMU_IR_NO_TEMP EMU_IR_NO_TEMP 2 0) in
  snd (emu_ir_emit b EMU_IR_EXIT 0 EMU_IR_NO_TEMP EMU_IR_NO_TEMP 4096 0).

Example spin_block_runs :
  option_map snd (emu_ir_interp 129 spin_block (fun _ => 0) start_cpu flagged) = Some 128.
Proof. vm_compute. reflexivity. Qed.

Lemma counts_okb_sound l : forallb (fun i => dead i || negb (op_eqb (op i) EMU_IR_RETIRE) || is_u32b (imm i)) l = true -> counts_ok l.
Proof.
  rewrite forallb_forall. intros H. apply List.Forall_forall. intros i Hi Hd Ho. specialize (H i Hi). rewrite Hd, Ho in H. cbn in H.
  apply is_u32b_spec, H.
Qed.

Lemma interp_terminates_witness :
  ((exists ok cpu' n', emu_ir_interp 129 loop_block (fun _ => 77) start_cpu flagged = Some (ok, cpu', n') /\
      0 <= n' < Z.max 1 EMU_JIT_LOOP_CAP + retire_total loop_block) /\
   (exists ok cpu' n', emu_ir_interp 129 (fst (optimised loop_block)) (fun _ => 77) start_cpu flagged = Some (ok, cpu', n') /\
      0 <= n' < Z.max 1 EMU_JIT_LOOP_CAP + retire_total loop_block)) /\
  (exists ok cpu' n', emu_ir_interp 129 spin_block (fun _ => 77) start_cpu flagged = Some (ok, cpu', n') /\
     0 <= n' < Z.max 1 EMU_JIT_LOOP_CAP + retire_total spin_block).
Proof.
  assert (C1 : counts_ok (insn loop_block)) by (apply counts_okb_sound; vm_compute; reflexivity).
  assert (C2 : counts_ok (insn spin_block)) by (apply counts_okb_sound; vm_compute; reflexivity).
  split; [split|].
  - apply (interp_terminates flagged loop_block); [exact C1|vm_compute; reflexivity|vm_compute; discriminate|vm_compute; lia].
  - eapply (interp_terminates flagged loop_block);
      [exact C1|vm_compute; reflexivity|vm_compute; discriminate|vm_compute; lia|].
    exact (eq_trans (surjective_pairing _) (f_equal2 pair (surjective_pairing _) eq_refl)).
  - apply (interp_terminates flagged spin_block); [exact C2|vm_compute; reflexivity|vm_compute; discriminate|vm_compute; lia].
Defined.

(** A block with a square root, which the interpreter refuses. *)
Definition sqrt_block : emu_ir_block :=
  let b := empty_block 0 in
  let '(x, b) := emu_ir_get b 1 in
  let b := emu_ir_put b 2 x in
  let '(r, b) := emu_ir_emit b EMU_IR_FSQRT 0 x EMU_IR_NO_TEMP 0 0 in
  emu_ir_put b 3 r.

Lemma interp_refuses_untouched_witness :
  (overflow sqrt_block = true \/ interp_models (insn sqrt_block) flagged = false) /\
  start_cpu = start_cpu /\ 0 = 0.
Proof.
  apply (interp_refuses_untouched flagged sqrt_block (fun _ => 0) start_cpu 1).
  - repeat constructor; cbn; unfold is_u32; lia.
  - reflexivity.
Defined.

Lemma interp_once_stale_temps_witness :
  obs (interp_once loop_block (fun _ => 1) start_cpu flagged 0)
  = obs (interp_once loop_block (fun x => x) start_cpu flagged 0).
Proof. apply (interp_once_stale_temps flagged loop_block). apply loop_block_wf. Defined.

Lemma empty_built pc : built (empty_block pc).
Proof.
  pose proof max_temps_ok. pose proof max_insns_ok. unfold built. cbn.
  split; [lia|]. split; [unfold count; cbn; lia|]. split; [constructor|]. intros _. split; [exact I|set_solver].
Qed.

Lemma emit_keeps_built_witness :
  built (snd (emu_ir_emit (empty_block 0) EMU_IR_GET 0 EMU_IR_NO_TEMP EMU_IR_NO_TEMP 1 0)) /\
  (false = false -> (0 ∉ (∅ : gset Z)) /\ (0 ∈ ({[0]} ∪ ∅ : gset Z))).
Proof.
  apply (emit_keeps_built (empty_block 0) EMU_IR_GET 0 EMU_IR_NO_TEMP EMU_IR_NO_TEMP 1 0 0).
  - apply empty_built.
  - unfold is_u32. lia.
  - left. reflexivity.
  - left. reflexivity.
  - reflexivity.
Defined.

Lemma mem_if_appends_witness :
  insn (snd (emu_ir_mem_if (empty_block 0) EMU_IR_STORE 2 7 8 4 9))
  = [] ++ [Insn EMU_IR_STORE 2 EMU_IR_NO_TEMP 7 8 9 4 0 0 0 false].
Proof.
  exact (mem_if_appends (empty_block 0) EMU_IR_STORE 2 7 8 4 9 EMU_IR_NO_TEMP
           (snd (emu_ir_mem_if (empty_block 0) EMU_IR_STORE 2 7 8 4 9)) (empty_built 0) eq_refl).
Defined.

(** The allocator on the optimised block, with two host registers: some temps
    spill. *)
Definition alloc_block : emu_ir_block := fst (optimised loop_block).

Lemma alloc_block_numbered : numbered_block alloc_block.
Proof.
  assert (Hd : bool_decide (set_Forall (fun x => x < next_temp alloc_block) (dsts (insn alloc_block))) = true)
    by (vm_compute; reflexivity).
  apply bool_decide_eq_true in Hd.
  split; [apply wfb_sound; vm_compute; reflexivity|].
  split; [vm_compute; intuition discriminate|].
  split; [exact Hd|]. vm_compute. intuition discriminate.
Qed.

Lemma regalloc_sound_witness :
  obs (run flagged 4096 (insn alloc_block) (fun _ => 0) start_cpu 0)
  = run_placed flagged 4096 (snd (emu_ir_regalloc alloc_block 2 (fun _ => 0))) (insn alloc_block)
      (fun p => 9 * p) start_cpu 0.
Proof.
  symmetry.
  apply (regalloc_sound flagged 4096 alloc_block 2 (fun _ => 0) (fst (emu_ir_regalloc alloc_block 2 (fun _ => 0)))).
  - apply alloc_block_numbered.
  - lia.
  - apply surjective_pairing.
Defined.
