(* ===== verification/RvIr.v ===== *)
(** * RV32 to IR

    [src/frontend/rv32/rv_ir.c]: the guest description the passes and the
    interpreter of the IR read, the helpers a block calls, and the translator.

    A block reaches the hart by byte offset, so [emu_cpu] here has the words
    of [rv_hart_t] a block names -- [x], [pc], [mstatus] and [f] -- and the
    hart with its machine for everything else ([cpu_ext]).  [hart_of] is the
    struct as the C code sees it, [cpu_of] the same memory seen by a block.
    [RvLayout] is what [offsetof] answers.

    The builder calls thread the block and [g_fs_marked], in a state monad;
    arguments that are builder calls themselves run left to right. *)

From stdpp Require Import base list gmap.
From Stdlib Require Import ZArith Lia.
From S2P Require Import Prelude Bus BusProps RvHart RvBus RvPmp RvTrig RvMmu RvAccess RvTrap RvCsr RvDecode RvAtomic RvFpu RvInterp IrTypes.

Open Scope Z_scope.
Open Scope u32_scope.

(** ** Layout *)

(** [x] is the first member of [rv_hart_t] and [pc] the second. *)
Definition OFF_X : Z := 0.
Definition OFF_PC : Z := 128.

Class RvLayout := {
  OFF_MSTATUS : Z;
  OFF_F : Z;
  layout_mstatus : OFF_PC + 4 <= OFF_MSTATUS;
  layout_f : OFF_MSTATUS + 4 <= OFF_F
}.

Definition lp64_layout : RvLayout :=
  {| OFF_MSTATUS := 144; OFF_F := 208; layout_mstatus := ltac:(discriminate); layout_f := ltac:(discriminate) |}.
Definition ilp32_layout : RvLayout :=
  {| OFF_MSTATUS := 136; OFF_F := 200; layout_mstatus := ltac:(discriminate); layout_f := ltac:(discriminate) |}.

Definition RV_IR_MSTATUS : Z := 32.
Definition RV_IR_MAX_BLOCK_INSNS : Z := 64.

Definition rv_reg_offset `{RvLayout} (n : Z) : Z := if n =? RV_IR_MSTATUS then OFF_MSTATUS else OFF_X + n * 4.
Definition rv_reg_zero (n : Z) : bool := n =? 0.
Definition rv_freg_offset `{RvLayout} (n : Z) : Z := OFF_F + n * 8.

Definition RV_IR_HELPER_FP : Z := 0.
Definition RV_IR_HELPER_AMO : Z := 1.
Definition RV_IR_HELPER_CSR : Z := 2.
Definition RV_IR_HELPER_MULDIV : Z := 3.
Definition RV_IR_HELPER_BITOP : Z := 4.
Definition EMU_IR_FMA_NEG_MUL : Z := 16.
Definition EMU_IR_FMA_NEG_ADD : Z := 32.
Definition EMU_IR_FRM_RMM : Z := 4.
Definition RV_IR_BOX : Z := EMU_IR_FP_BOX.

Definition EMU_IR_MEM_SIZE (aux : Z) : Z := aux &! 7.
Definition EMU_IR_MEM_SIGNED : Z := 8.

(** Conditions by the number [aux] carries. *)
Definition C_EQ : Z := 0.
Definition C_NE : Z := 1.
Definition C_LT : Z := 2.
Definition C_GE : Z := 3.
Definition C_LTU : Z := 4.
Definition C_GEU : Z := 5.

Section Target.
Context `{Cfg : RvConfig} {SF : SoftFloat} {Ext M : Type} `{PB : PhysBus Ext M} `{L : RvLayout}.
Variable pf : platform M.

Definition cpu_t : Type := emu_cpu (rv_hart * M).

Definition mem_word (c : cpu_t) (off : Z) : Z := u32 (cpu_word c off).

(** The hart in memory.  The total maps of the model have entries the C arrays
    do not; those stay what they were. *)
Definition hart_of (c : cpu_t) : rv_hart :=
  let h := fst (cpu_ext c) in
  h <| h_x := fun r => if (0 <=? r) && (r <? 32) then mem_word c (OFF_X + r * 4) else h_x h r |>
    <| h_f := fun r => if (0 <=? r) && (r <? 32)
                       then mem_word c (OFF_F + r * 8) + 2 ^ 32 * mem_word c (OFF_F + r * 8 + 4) else h_f h r |>
    <| h_pc := mem_word c OFF_PC |> <| h_mstatus := mem_word c OFF_MSTATUS |>.
Definition mach_of (c : cpu_t) : M := snd (cpu_ext c).

Definition word_of (h : rv_hart) (off : Z) : Z :=
  if (OFF_X <=? off) && (off <? OFF_PC) then h_x h ((off - OFF_X) / 4)
  else if off =? OFF_PC then h_pc h
  else if off =? OFF_MSTATUS then h_mstatus h
  else if (OFF_F <=? off) && (off <? OFF_F + 256) then
    let v := h_f h ((off - OFF_F) / 8) in if (off - OFF_F) mod 8 =? 0 then u32 v else Z.shiftr v 32
  else 0.
Definition cpu_of (h : rv_hart) (m : M) : cpu_t := Cpu (word_of h) (h, m).

(** ** Memory *)

(** Enter the trap: the block stops. *)
Definition ir_trap (h : rv_hart) (m : M) (exc tval : Z) : Z * cpu_t :=
  let '(h, m) := rv_hart_trap h m exc tval in (1, cpu_of h m).

Definition rv_ir_load (c : cpu_t) (addr spec : Z) : Z * Z * cpu_t :=
  let '(exc, v, h, m) := rv_hart_load (hart_of c) (mach_of c) addr (EMU_IR_MEM_SIZE spec) (has spec EMU_IR_MEM_SIGNED) in
  if negb (exc =? RV_EXC_NONE) then let '(r, c) := ir_trap h m exc addr in (r, 0, c)
  else (0, default 0 v, cpu_of h m).

Definition rv_ir_store (c : cpu_t) (addr spec val : Z) : Z * cpu_t :=
  let '(exc, h, m) := rv_hart_store (hart_of c) (mach_of c) addr (EMU_IR_MEM_SIZE spec) val in
  if negb (exc =? RV_EXC_NONE) then ir_trap h m exc addr else (0, cpu_of h m).

(** ** Helpers *)

Definition rv_ir_fp_helper (c : cpu_t) (insn unused : Z) : Z * cpu_t :=
  let '(e, tval, h, m) := rv_hart_fp (hart_of c) (mach_of c) insn in
  if e =? RV_EXC_NONE then (0, cpu_of h m) else ir_trap h m e tval.

Definition rv_ir_amo_helper (c : cpu_t) (insn unused : Z) : Z * cpu_t :=
  let '(e, tval, h, m) := rv_hart_atomic (hart_of c) (mach_of c) insn in
  if negb (e =? RV_EXC_NONE) then ir_trap h m e tval else (0, cpu_of h m).

Definition rv_ir_csr_helper (c : cpu_t) (insn unused : Z) : Z * cpu_t :=
  let '(h, m) := (hart_of c, mach_of c) in
  let '(e, v) := rv_csr_read h (pf_mtime pf m) (Z.shiftr insn 20) in
  if negb (e =? RV_EXC_NONE) then ir_trap h m e insn else (0, cpu_of (put_x h (rv_rd insn) v) m).

Definition rv_ir_muldiv_helper (c : cpu_t) (insn unused : Z) : Z * cpu_t :=
  let '(h, m) := (hart_of c, mach_of c) in
  let a := h_x h (rv_rs1 insn) in
  let d := h_x h (rv_rs2 insn) in
  let f3 := rv_funct3 insn in
  let v := if f3 =? 2 then u32 (Z.shiftr (s32 a * d) 32)
           else if f3 =? 4 then rv_div_s (s32 a) (s32 d)
           else if f3 =? 5 then rv_div_u a d
           else if f3 =? 6 then rv_rem_s (s32 a) (s32 d)
           else rv_rem_u a d in
  (0, cpu_of (put_x h (rv_rd insn) v) m).

Definition bitop_value (insn a s : Z) : Z :=
  let f3 := rv_funct3 insn in
  if insn &! 127 =? 19 then (if f3 =? 1 then popcount32 a else zbb_orcb a)
  else if rv_funct7 insn =? 48 then (if f3 =? 1 then zbb_rol a s else zbb_ror a s)
  else if f3 =? 1 then zbc_clmul a s
  else if f3 =? 2 then zbc_clmulr a s
  else if f3 =? 3 then zbc_clmulh a s
  else if f3 =? 4 then (if s32 a <? s32 s then a else s)
  else if f3 =? 5 then (if a <? s then a else s)
  else if f3 =? 6 then (if s32 s <? s32 a then a else s)
  else if f3 =? 7 then (if s <? a then a else s)
  else 0.

Definition rv_ir_bitop_helper (c : cpu_t) (insn unused : Z) : Z * cpu_t :=
  let '(h, m) := (hart_of c, mach_of c) in
  (0, cpu_of (put_x h (rv_rd insn) (bitop_value insn (h_x h (rv_rs1 insn)) (h_x h (rv_rs2 insn)))) m).

Definition rv_ir_helpers : list (cpu_t -> Z -> Z -> Z * cpu_t) :=
  [rv_ir_fp_helper; rv_ir_amo_helper; rv_ir_csr_helper; rv_ir_muldiv_helper; rv_ir_bitop_helper].

(** No condition flags: every [flag_bit] is zero. *)
Definition rv_ir_target : emu_ir_target (rv_hart * M) :=
  Target (Some rv_reg_offset) 0 (fun _ => 0) (Some rv_reg_zero) OFF_PC (Some rv_ir_helpers)
    (Some rv_ir_load) (Some rv_ir_store) (Some rv_freg_offset).

(** One block's floating-point flags, which a lowering hands over. *)
Definition rv_ir_fp_flags (h : rv_hart) (flags : Z) : rv_hart := f_accrue h (flags &! 31).

End Target.
Arguments cpu_t : clear implicits.
