(* ===== verification/RvIrXlate.v ===== *)
(** * The RV32 translator

    [lower_one] and [rv_ir_translate] of [src/frontend/rv32/rv_ir.c].  One
    definition per opcode of the switch.  A lowering answers [Declined] where
    the source returns false, and otherwise what it set [ends_block] and
    [counted] to. *)

From stdpp Require Import base list gmap.
From Stdlib Require Import ZArith Lia.
From S2P Require Import Prelude Bus BusProps RvHart RvBus RvPmp RvTrig RvMmu RvAccess RvTrap RvCsr RvDecode RvAtomic RvFpu RvInterp IrTypes RvIr.

Open Scope Z_scope.
Open Scope u32_scope.

(** ** The builder's monad *)

(** The block and [g_fs_marked]. *)
Record xl := Xl { xl_block : emu_ir_block; xl_marked : bool }.

Definition build (A : Type) : Type := xl -> A * xl.
Definition done {A} (a : A) : build A := fun s => (a, s).
Definition bind {A B} (p : build A) (q : A -> build B) : build B := fun s => let '(a, s) := p s in q a s.

Declare Scope build_scope.
Delimit Scope build_scope with build.
Notation "x <- p ;; q" := (bind p (fun x => q)) (at level 100, p at next level, right associativity) : build_scope.
Notation "p ;;; q" := (bind p (fun _ => q)) (at level 100, right associativity) : build_scope.
Open Scope build_scope.

Inductive lowered := Declined | Lowered (ends counted : bool).

(** [return true] and [return false]. *)
Definition plain : build lowered := done (Lowered false false).
Definition decline : build lowered := done Declined.

Section Xlate.
Context {ICfg : IrConfig}.
Variable can_lower : emu_ir_op -> Z -> bool.

Definition emit (o : emu_ir_op) (aux a b imm : Z) : build Z :=
  fun s => let '(d, blk) := emu_ir_emit (xl_block s) o aux a b imm 0 in (d, Xl blk (xl_marked s)).
Definition emit3 (o : emu_ir_op) (aux a b c : Z) : build Z :=
  fun s => let '(d, blk) := emu_ir_emit3 (xl_block s) o aux a b c in (d, Xl blk (xl_marked s)).
Definition get (r : Z) : build Z := emit EMU_IR_GET 0 EMU_IR_NO_TEMP EMU_IR_NO_TEMP r.
Definition const (v : Z) : build Z := emit EMU_IR_CONST 0 EMU_IR_NO_TEMP EMU_IR_NO_TEMP v.
Definition alu (o : emu_ir_op) (a b : Z) : build Z := emit o 0 a b 0.
Definition put (r v : Z) : build lowered := emit EMU_IR_PUT 0 v EMU_IR_NO_TEMP r ;;; plain.
Definition setpc (pc : Z) : build Z := emit EMU_IR_SETPC 0 EMU_IR_NO_TEMP EMU_IR_NO_TEMP pc.
Definition emit_retire : build Z := emit EMU_IR_RETIRE 0 EMU_IR_NO_TEMP EMU_IR_NO_TEMP 0.
Definition unary (o : emu_ir_op) (x : Z) : build Z := emit o 0 x EMU_IR_NO_TEMP 0.
Definition with_imm (o : emu_ir_op) (x im : Z) : build Z := emit o 0 x EMU_IR_NO_TEMP im.
Definition setcc (cond a b : Z) : build Z := emit EMU_IR_SETCC cond a b 0.

(** A helper call with the encoding as its operand. *)
Definition rv_ir_bitop_call (insn : Z) : build lowered :=
  c <- const insn ;; emit EMU_IR_HELPER 0 c EMU_IR_NO_TEMP RV_IR_HELPER_BITOP ;;; plain.
Definition muldiv_call (insn : Z) : build lowered :=
  c <- const insn ;; emit EMU_IR_HELPER 0 c EMU_IR_NO_TEMP RV_IR_HELPER_MULDIV ;;; plain.
Definition trap_call (pc insn helper : Z) : build lowered :=
  setpc pc ;;; c <- const insn ;; emit EMU_IR_HELPER_TRAP 0 c EMU_IR_NO_TEMP helper ;;; plain.
Definition rv_ir_fp_fallback (pc insn : Z) : build lowered := trap_call pc insn RV_IR_HELPER_FP.

Definition mark_fs : build lowered := fun s =>
  if xl_marked s then plain s
  else (o <- get RV_IR_MSTATUS ;; w <- with_imm EMU_IR_ORI o MSTATUS_FS_MASK ;; put RV_IR_MSTATUS w) (Xl (xl_block s) true).

Definition fput (aux v rd : Z) : build lowered := emit EMU_IR_FPUT aux v EMU_IR_NO_TEMP rd ;;; mark_fs.

(** ** Divide and remainder *)

Definition rv_ir_lower_divrem (f3 rd rs1 rs2 : Z) : build lowered :=
  let sgn := (f3 =? 4) || (f3 =? 6) in
  let rem := 6 <=? f3 in
  x <- get rs1 ;; y <- get rs2 ;; zero <- const 0 ;;
  z <- setcc C_EQ y zero ;;
  sel <- (if sgn then
            m <- const 2147483648 ;; is_min <- setcc C_EQ x m ;;
            n <- const 4294967295 ;; is_m1 <- setcc C_EQ y n ;;
            ov <- alu EMU_IR_AND is_min is_m1 ;; alu EMU_IR_OR z ov
          else done z) ;;
  mask <- alu EMU_IR_SUB zero sel ;;
  ones <- const 4294967295 ;; nmask <- alu EMU_IR_XOR mask ones ;;
  keep <- alu EMU_IR_AND y nmask ;;
  safe <- alu EMU_IR_OR keep sel ;;
  q <- alu (if rem then (if sgn then EMU_IR_REMS else EMU_IR_REMU) else (if sgn then EMU_IR_DIVS else EMU_IR_DIVU)) x safe ;;
  zmask <- alu EMU_IR_SUB zero z ;;
  if rem then
    a_part <- alu EMU_IR_AND x zmask ;;
    ones2 <- const 4294967295 ;; nz <- alu EMU_IR_XOR zmask ones2 ;;
    r_part <- alu EMU_IR_AND q nz ;;
    v <- alu EMU_IR_OR a_part r_part ;; put rd v
  else v <- alu EMU_IR_OR q zmask ;; put rd v.

(** ** OP-IMM *)

Definition lower_shift_left_imm (insn rd x : Z) : build lowered :=
  let sh := Z.shiftr insn 25 in
  let rs2 := rv_rs2 insn in
  if sh =? 0 then v <- with_imm EMU_IR_SHLI x (Z.shiftr insn 20 &! 31) ;; put rd v
  else if sh =? 48 then
    if (rs2 =? 0) || (rs2 =? 1) then
      let count := if rs2 =? 0 then EMU_IR_CLZ else EMU_IR_CTZ in
      if negb (can_lower count 0) then decline else v <- unary count x ;; put rd v
    else if rs2 =? 2 then rv_ir_bitop_call insn
    else if rs2 =? 4 then v <- unary EMU_IR_SEXT8 x ;; put rd v
    else if rs2 =? 5 then v <- unary EMU_IR_SEXT16 x ;; put rd v
    else decline
  else if (sh =? 20) || (sh =? 36) || (sh =? 52) then
    let bit := 1 <<! rs2 in
    if sh =? 20 then c <- const bit ;; v <- alu EMU_IR_OR x c ;; put rd v
    else if sh =? 36 then c <- const (not32 bit) ;; v <- alu EMU_IR_AND x c ;; put rd v
    else c <- const bit ;; v <- alu EMU_IR_XOR x c ;; put rd v
  else decline.

Definition lower_shift_right_imm (insn rd x : Z) : build lowered :=
  let sh := Z.shiftr insn 25 in
  let rs2 := rv_rs2 insn in
  let n := Z.shiftr insn 20 &! 31 in
  if sh =? 0 then v <- with_imm EMU_IR_SHRI x n ;; put rd v
  else if sh =? 32 then v <- with_imm EMU_IR_SARI x n ;; put rd v
  else if sh =? 48 then v <- with_imm EMU_IR_ROTLI x (u32 (32 - n) &! 31) ;; put rd v
  else if (sh =? 20) && (rs2 =? 7) then rv_ir_bitop_call insn
  else if (sh =? 52) && (rs2 =? 24) then v <- unary EMU_IR_BSWAP32 x ;; put rd v
  else if sh =? 36 then t <- with_imm EMU_IR_SHRI x rs2 ;; c <- const 1 ;; v <- alu EMU_IR_AND t c ;; put rd v
  else decline.

Definition lower_op_imm (insn : Z) : build lowered :=
  let rd := rv_rd insn in
  let f3 := rv_funct3 insn in
  let imm := u32 (rv_imm_i insn) in
  x <- get (rv_rs1 insn) ;;
  let logic o := c <- const imm ;; v <- alu o x c ;; put rd v in
  let compare cond := c <- const imm ;; v <- setcc cond x c ;; put rd v in
  if f3 =? 0 then logic EMU_IR_ADD
  else if f3 =? 4 then logic EMU_IR_XOR
  else if f3 =? 6 then logic EMU_IR_OR
  else if f3 =? 7 then logic EMU_IR_AND
  else if f3 =? 2 then compare C_LT
  else if f3 =? 3 then compare C_LTU
  else if f3 =? 1 then lower_shift_left_imm insn rd x
  else if f3 =? 5 then lower_shift_right_imm insn rd x
  else decline.

(** ** OP *)

Definition lower_muldiv (insn : Z) : build lowered :=
  let f3 := rv_funct3 insn in
  if f3 =? 2 then muldiv_call insn
  else if 3 <? f3 then rv_ir_lower_divrem f3 (rv_rd insn) (rv_rs1 insn) (rv_rs2 insn)
  else
    a <- get (rv_rs1 insn) ;; b <- get (rv_rs2 insn) ;;
    v <- alu (if f3 =? 0 then EMU_IR_MUL else if f3 =? 1 then EMU_IR_MULHS else EMU_IR_MULHU) a b ;;
    put (rv_rd insn) v.

Definition lower_czero (insn : Z) : build lowered :=
  b <- get (rv_rs2 insn) ;; zero <- const 0 ;;
  keep <- setcc (if rv_funct3 insn =? 5 then C_NE else C_EQ) b zero ;;
  mask <- unary EMU_IR_NEG keep ;;
  a <- get (rv_rs1 insn) ;; v <- alu EMU_IR_AND a mask ;; put (rv_rd insn) v.

(** The bit-manipulation encodings: every funct7 but 0, 1 and 0x20. *)
Definition lower_bitmanip (insn x y : Z) : build lowered :=
  let rd := rv_rd insn in
  let f3 := rv_funct3 insn in
  let f7 := Z.shiftr insn 25 in
  if f7 =? 16 then
    if negb (f3 =? 2) && negb (f3 =? 4) && negb (f3 =? 6) then decline
    else t <- with_imm EMU_IR_SHLI x (Z.shiftr f3 1) ;; v <- alu EMU_IR_ADD t y ;; put rd v
  else if f7 =? 5 then if negb (f3 =? 0) then rv_ir_bitop_call insn else decline
  else if f7 =? 48 then if (f3 =? 1) || (f3 =? 5) then rv_ir_bitop_call insn else decline
  else if f7 =? 4 then
    if negb (f3 =? 4) || negb (rv_rs2 insn =? 0) then decline else v <- unary EMU_IR_ZEXT16 x ;; put rd v
  else if (f7 =? 20) || (f7 =? 52) || (f7 =? 36) then
    if (f7 =? 36) && (f3 =? 5) then t <- alu EMU_IR_SHR x y ;; c <- const 1 ;; v <- alu EMU_IR_AND t c ;; put rd v
    else if negb (f3 =? 1) then decline
    else
      c <- const 1 ;; bit <- alu EMU_IR_SHL c y ;;
      if f7 =? 20 then v <- alu EMU_IR_OR x bit ;; put rd v
      else if f7 =? 52 then v <- alu EMU_IR_XOR x bit ;; put rd v
      else n <- unary EMU_IR_NOT bit ;; v <- alu EMU_IR_AND x n ;; put rd v
  else decline.

Definition lower_op (insn : Z) : build lowered :=
  let rd := rv_rd insn in
  let f3 := rv_funct3 insn in
  let f7 := Z.shiftr insn 25 in
  if f7 =? 1 then lower_muldiv insn
  else if (f7 =? 7) && ((f3 =? 5) || (f3 =? 7)) then lower_czero insn
  else
    x <- get (rv_rs1 insn) ;; y <- get (rv_rs2 insn) ;;
    let alt := f7 =? 32 in
    if negb (f7 =? 0) && negb alt then lower_bitmanip insn x y
    else
      let two o := v <- alu o x y ;; put rd v in
      let inverted o := n <- unary EMU_IR_NOT y ;; v <- alu o x n ;; put rd v in
      let compare cond := v <- setcc cond x y ;; put rd v in
      if f3 =? 0 then two (if alt then EMU_IR_SUB else EMU_IR_ADD)
      else if f3 =? 1 then (if alt then decline else two EMU_IR_SHL)
      else if f3 =? 2 then (if alt then decline else compare C_LT)
      else if f3 =? 3 then (if alt then decline else compare C_LTU)
      else if f3 =? 4 then
        (if alt then t <- alu EMU_IR_XOR x y ;; v <- unary EMU_IR_NOT t ;; put rd v else two EMU_IR_XOR)
      else if f3 =? 5 then two (if alt then EMU_IR_SAR else EMU_IR_SHR)
      else if f3 =? 6 then (if alt then inverted EMU_IR_OR else two EMU_IR_OR)
      else if f3 =? 7 then (if alt then inverted EMU_IR_AND else two EMU_IR_AND)
      else decline.

(** ** Memory and control *)

Definition lower_load (insn pc : Z) : build lowered :=
  let f3 := rv_funct3 insn in
  if (f3 =? 3) || (6 <=? f3) then decline
  else
    setpc pc ;;; base <- get (rv_rs1 insn) ;;
    v <- emit EMU_IR_LOAD (EMU_IR_MEM_AUX (1 <<! (f3 &! 3)) (f3 &! 4 =? 0)) base EMU_IR_NO_TEMP (u32 (rv_imm_i insn)) ;;
    put (rv_rd insn) v.

Definition lower_store (insn pc : Z) : build lowered :=
  let f3 := rv_funct3 insn in
  if 2 <? f3 then decline
  else
    setpc pc ;;; base <- get (rv_rs1 insn) ;; val <- get (rv_rs2 insn) ;;
    emit EMU_IR_STORE (EMU_IR_MEM_AUX (1 <<! (f3 &! 3)) false) base val (u32 (rv_imm_s insn)) ;;; plain.

Definition k_cond (f3 : Z) : Z :=
  if f3 =? 0 then C_EQ else if f3 =? 1 then C_NE else if f3 =? 4 then C_LT
  else if f3 =? 5 then C_GE else if f3 =? 6 then C_LTU else if f3 =? 7 then C_GEU else 0.

Definition lower_branch (insn pc : Z) : build lowered :=
  let f3 := rv_funct3 insn in
  if (f3 =? 2) || (f3 =? 3) then decline
  else
    x <- get (rv_rs1 insn) ;; y <- get (rv_rs2 insn) ;; emit_retire ;;;
    emit EMU_IR_EXIT_IF (k_cond f3) x y (pc +! rv_imm_b insn) ;;; done (Lowered false true).

Definition lower_jal (insn pc len : Z) : build lowered :=
  c <- const (pc +! len) ;; put (rv_rd insn) c ;;; emit_retire ;;;
  emit EMU_IR_EXIT 0 EMU_IR_NO_TEMP EMU_IR_NO_TEMP (pc +! rv_imm_j insn) ;;; done (Lowered true true).

Definition lower_jalr (insn pc len : Z) : build lowered :=
  if negb (rv_funct3 insn =? 0) then decline
  else
    base <- get (rv_rs1 insn) ;; i <- const (u32 (rv_imm_i insn)) ;; sum <- alu EMU_IR_ADD base i ;;
    k <- const (not32 1) ;; tgt <- alu EMU_IR_AND sum k ;;
    c <- const (pc +! len) ;; put (rv_rd insn) c ;;; emit_retire ;;;
    emit EMU_IR_EXIT 0 tgt EMU_IR_NO_TEMP 0 ;;; done (Lowered true true).

(** ** Floating point *)

Definition fget (aux r : Z) : build Z := emit EMU_IR_FGET aux EMU_IR_NO_TEMP EMU_IR_NO_TEMP r.

Definition h_fs_off (h : rv_hart) : bool := h_mstatus h &! MSTATUS_FS_MASK =? 0.
Definition RV_IR_FRM (h : rv_hart) : Z := Z.shiftr (h_fcsr h) 5 &! 7.

Definition lower_fp_mem (h : rv_hart) (insn pc : Z) : build lowered :=
  if h_fs_off h then decline
  else if negb (rv_funct3 insn =? 2) then rv_ir_fp_fallback pc insn
  else
    setpc pc ;;; base <- get (rv_rs1 insn) ;;
    if insn &! 127 =? 7 then
      v <- emit EMU_IR_LOAD (EMU_IR_MEM_AUX 4 false) base EMU_IR_NO_TEMP (u32 (rv_imm_i insn)) ;;
      fput RV_IR_BOX v (rv_rd insn)
    else
      v <- fget 0 (rv_rs2 insn) ;;
      emit EMU_IR_STORE (EMU_IR_MEM_AUX 4 false) base v (u32 (rv_imm_s insn)) ;;; plain.

Definition lower_fma (h : rv_hart) (insn pc : Z) : build lowered :=
  if h_fs_off h then decline
  else
    let op := insn &! 127 in
    let rm := if rv_funct3 insn =? 7 then RV_IR_FRM h else rv_funct3 insn in
    let aux := u8 (rm &! 7) in
    let aux := if (op =? 75) || (op =? 79) then aux |! EMU_IR_FMA_NEG_MUL else aux in
    let aux := if (op =? 71) || (op =? 79) then aux |! EMU_IR_FMA_NEG_ADD else aux in
    if negb (can_lower EMU_IR_FMA aux) then rv_ir_fp_fallback pc insn
    else
      fa <- fget EMU_IR_FP_BOX (rv_rs1 insn) ;; fb <- fget EMU_IR_FP_BOX (rv_rs2 insn) ;;
      fc <- fget EMU_IR_FP_BOX (rv_rs3 insn) ;;
      r <- emit3 EMU_IR_FMA aux fa fb fc ;; fput EMU_IR_FP_BOX r (rv_rd insn).

(** The table of exact operations. *)
Definition k_fp (f7 : Z) : option emu_ir_op :=
  if f7 =? 0 then Some EMU_IR_FADD else if f7 =? 4 then Some EMU_IR_FSUB
  else if f7 =? 8 then Some EMU_IR_FMUL else if f7 =? 12 then Some EMU_IR_FDIV else None.

Definition lower_op_fp (h : rv_hart) (insn pc : Z) : build lowered :=
  if h_fs_off h then decline
  else
    let rd := rv_rd insn in
    let rs1 := rv_rs1 insn in
    let rs2 := rv_rs2 insn in
    let f3 := rv_funct3 insn in
    let f7 := Z.shiftr insn 25 in
    let rm := if f3 =? 7 then RV_IR_FRM h else f3 in
    let lowers o := (rm <=? EMU_IR_FRM_RMM) && can_lower o (u8 rm) in
    if (f7 =? 112) && (f3 =? 0) && (rs2 =? 0) then v <- fget 0 rs1 ;; put rd v
    else if (f7 =? 120) && (f3 =? 0) && (rs2 =? 0) then v <- get rs1 ;; fput RV_IR_BOX v rd
    else if match k_fp f7 with Some o => lowers o | None => false end then
      x <- fget RV_IR_BOX rs1 ;; y <- fget RV_IR_BOX rs2 ;;
      r <- emit (default EMU_IR_FADD (k_fp f7)) (u8 rm) x y 0 ;; fput RV_IR_BOX r rd
    else if (f7 =? 44) && (rs2 =? 0) && lowers EMU_IR_FSQRT then
      x <- fget RV_IR_BOX rs1 ;; r <- emit EMU_IR_FSQRT (u8 rm) x EMU_IR_NO_TEMP 0 ;; fput RV_IR_BOX r rd
    else rv_ir_fp_fallback pc insn.

(** ** SYSTEM *)

Definition lower_system (insn pc : Z) : build lowered :=
  let f3 := rv_funct3 insn in
  let csr := Z.shiftr insn 20 in
  let reads_only := (((f3 =? 2) || (f3 =? 3)) && (rv_rs1 insn =? 0)) || (((f3 =? 6) || (f3 =? 7)) && (rv_rs1 insn =? 0)) in
  if negb reads_only || (negb (csr =? 3073) && negb (csr =? 3201)) then decline
  else trap_call pc insn RV_IR_HELPER_CSR.

(** ** One instruction *)

Definition lower_one (h : rv_hart) (insn pc len : Z) : build lowered :=
  let op := insn &! 127 in
  if op =? 55 then c <- const (u32 (rv_imm_u insn)) ;; put (rv_rd insn) c
  else if op =? 23 then c <- const (pc +! rv_imm_u insn) ;; put (rv_rd insn) c
  else if op =? 15 then (if negb (rv_funct3 insn =? 0) then decline else plain)
  else if op =? 19 then lower_op_imm insn
  else if op =? 51 then lower_op insn
  else if op =? 3 then lower_load insn pc
  else if op =? 35 then lower_store insn pc
  else if op =? 99 then lower_branch insn pc
  else if op =? 111 then lower_jal insn pc len
  else if op =? 103 then lower_jalr insn pc len
  else if (op =? 7) || (op =? 39) then lower_fp_mem h insn pc
  else if (op =? 67) || (op =? 71) || (op =? 75) || (op =? 79) then lower_fma h insn pc
  else if op =? 83 then lower_op_fp h insn pc
  else if op =? 47 then trap_call pc insn RV_IR_HELPER_AMO
  else if op =? 115 then lower_system insn pc
  else decline.

End Xlate.

(** ** A block *)

Section Translate.
Context {ICfg : IrConfig} `{Cfg : RvConfig} {Ext M : Type} `{PB : PhysBus Ext M} `{L : RvLayout}.
Variable can_lower : emu_ir_op -> Z -> bool.

(** One halfword as the interpreter fetches it, or nothing. *)
Definition ir_fetch16 (h : rv_hart) (m : M) (va : Z) : option Z * rv_hart * M :=
  match rv_itlb_lookup h va with
  | Some pa => let '(f, v, m) := bus_fetch16 m pa in (if no_fault f then Some (default 0 v) else None, h, m)
  | None =>
      let '(e, pa, h, m) := if h_vm_active h then rv_mmu_translate h m va EMU_ACC_FETCH else (RV_EXC_NONE, va, h, m) in
      if negb (e =? RV_EXC_NONE) then (None, h, m)
      else if h_pmp_active h && negb (rv_pmp_check h pa 2 EMU_ACC_FETCH) then (None, h, m)
      else
        let '(f, v, m) := bus_fetch16 m pa in
        if negb (no_fault f) then (None, h, m)
        else let '(h, m) := if h_fetch_guard h then rv_itlb_fill h m va pa else (h, m) in (Some (default 0 v), h, m)
  end.

(** The instruction at [va] and its length. *)
Definition ir_fetch (h : rv_hart) (m : M) (va : Z) : option (Z * Z) * rv_hart * M :=
  let '(lo, h, m) := ir_fetch16 h m va in
  match lo with
  | None => (None, h, m)
  | Some lo =>
      if rv_is_32bit lo then
        let '(hi, h, m) := ir_fetch16 h m (va +! 2) in
        match hi with None => (None, h, m) | Some hi => (Some (lo |! (hi <<! 16), 4), h, m) end
      else
        let insn := rv_decode_expand_c lo in
        if insn =? 0 then (None, h, m) else (Some (insn, 2), h, m)
  end.

(** [b->count = mark]. *)
Definition roll_back (mark : nat) (s : xl) : xl := Xl (set_insn (xl_block s) (take mark (insn (xl_block s)))) (xl_marked s).

(** What one round of the loop adds for an instruction it has fetched: whether
    the block goes on, or [None] where the lowering declined. *)
Definition xlate_insn (h : rv_hart) (i : Z) (pc len : Z) : build (option bool) := fun s =>
  let mark := length (insn (xl_block s)) in
  let '(r, s) := lower_one can_lower h i pc len s in
  match r with
  | Declined => (None, roll_back mark s)
  | Lowered ends counted =>
      let '(_, s) := if counted then (0, s) else emit_retire s in
      if ends then (Some false, s) else let '(_, s) := setpc (pc +! len) s in (Some true, s)
  end.

(** The [while]; the instructions the block holds, for the proofs, beside what
    the source keeps. *)
Fixpoint xlate_loop (fuel : nat) (h : rv_hart) (m : M) (cur : Z) (s : xl) : list (Z * Z * Z) * rv_hart * M * xl :=
  match fuel with
  | O => ([], h, m, s)
  | S fuel =>
      if overflow (xl_block s) then ([], h, m, s)
      else
        let '(f, h, m) := ir_fetch h m cur in
        match f with
        | None => ([], h, m, s)
        | Some (i, len) =>
            let '(r, s) := xlate_insn h i cur len s in
            match r with
            | None => ([], h, m, s)
            | Some false => ([(cur, len, i)], h, m, s)
            | Some true => let '(l, h, m, s) := xlate_loop fuel h m (cur +! len) s in ((cur, len, i) :: l, h, m, s)
            end
        end
  end.

(** Whether data accesses are plain moves in the guest's RAM.  [ram] is
    [EMU_GUEST_RAM_BASE]. *)
Definition rv_ir_fast_mem (ram : Z) (h : rv_hart) (m : M) : bool * M :=
  if h_vm_active h || h_pmp_active h || h_trig_active h then (false, m)
  else
    let '(r, m) := bus_find m ram in
    (match r with
     | None => false
     | Some r => bool_decide (kind r = EMU_MEM_RAM) && negb (Bus.size r =? 0)
                 && (perm r &! (EMU_PERM_R |! EMU_PERM_W) =? (EMU_PERM_R |! EMU_PERM_W))
     end, m).

Definition rv_ir_dtlb (h : rv_hart) : bool := negb (rv_hart_data_priv h =? RV_PRIV_M) && negb (h_trig_active h).

(** [pt] and [rom]: whether those windows are armed and there is one. *)
Definition rv_ir_translate (ram : Z) (pt rom : bool) (h : rv_hart) (m : M) (pc : Z) (b : emu_ir_block)
    : Z * list (Z * Z * Z) * rv_hart * M * emu_ir_block :=
  let b := emu_ir_reset b in
  let '(fast, m) := rv_ir_fast_mem ram h m in
  let b := Block (insn b) (next_temp b) (guest_insns b) pc fast (negb fast && rv_ir_dtlb h) (fast && pt) (fast && rom) (overflow b) in
  let '(l, h, m, s) := xlate_loop (Z.to_nat RV_IR_MAX_BLOCK_INSNS) h m pc (Xl b false) in
  let b := xl_block s in
  if overflow b then (0, l, h, m, b)
  else
    let n := Z.of_nat (length l) in
    (n, l, h, m, Block (insn b) (next_temp b) n (start_pc b) (has_fast b) (has_dtlb b) (has_pt b) (has_rom b) (overflow b)).

End Translate.

(** ** What the dispatcher asks *)

Definition rv_ir_gen_key (h : rv_hart) : Z := h_vm_gen h +! h_pmp_gen h.

Definition rv_jit_ctx_key (h : rv_hart) : Z :=
  let fs_off := bz (h_mstatus h &! MSTATUS_FS_MASK =? 0) in
  let frm := Z.shiftr (h_fcsr h) 5 &! 7 in
  (h_satp h |! (h_priv h <<! 20)) |! Z.shiftl ((fs_off <<! 3) |! frm) 32 |! Z.shiftl (rv_hart_data_priv h) 36.

Definition rv_jit_is_idle (h : rv_hart) : bool := h_state h =? EMU_STATE_WFI.

Definition rv_jit_wake (h : rv_hart) : bool * rv_hart :=
  if negb (rv_hart_wfi_wake h) then (false, h)
  else (true, h <| h_state := EMU_STATE_RUNNING |> <| h_irq_dirty := true |>).

Section Irq.
Context `{Cfg : RvConfig} {Ext M : Type} `{PB : PhysBus Ext M}.

Definition rv_jit_take_irq (h : rv_hart) (m : M) : bool * rv_hart * M :=
  if negb (h_irq_dirty h) then (false, h, m)
  else
    let h := h <| h_irq_dirty := false |> in
    let irq := rv_hart_pending_irq h in
    if irq =? RV_EXC_NONE then (false, h, m)
    else let '(h, m) := rv_hart_trap h m (RV_CAUSE_INTERRUPT |! irq) 0 in (true, h, m).
End Irq.

Definition rv_jit_count (h : rv_hart) (n : Z) : rv_hart :=
  let h := if negb (has (h_mcountinhibit h) 1) then h <| h_mcycle := u64 (h_mcycle h + n) |> else h in
  if negb (has (h_mcountinhibit h) 4) then h <| h_minstret := u64 (h_minstret h + n) |> else h.
