(* ===== verification/RvIrCalm.v ===== *)
(** * What a translated instruction leaves alone

    A memory access fills caches and may drop a reservation: the registers,
    [pc] and [mstatus] are as they were ([at_rest]).  An atomic or a
    floating-point instruction also writes its destination and makes FS Dirty,
    and nothing else of what a block reads by offset ([calm]). *)

From stdpp Require Import base list gmap.
From Stdlib Require Import ZArith Lia.
From S2P Require Import Prelude Bus BusProps RvHart RvBus RvPmp RvTrig RvMmu RvAccess RvTrap RvCsr RvDecode RvAtomic RvFpu RvInterp RvFrame RvTrapProps.

Open Scope Z_scope.
Open Scope u32_scope.

Ltac rests := solve [apply at_rest_refl | eassumption | repeat split | eapply at_rest_trans; [eassumption|repeat split]].

Section Rest.
Context `{Cfg : RvConfig} {SF : SoftFloat} {Ext M : Type} `{PB : PhysBus Ext M}.

Lemma dtlb_fill_rest h (m : M) va pa h' m' : rv_dtlb_fill h m va pa = (h', m') -> at_rest h h'.
Proof. unfold rv_dtlb_fill. intros E. follow; rests. Qed.

Lemma drop_resv_rest h a : at_rest h (drop_resv h a).
Proof. unfold drop_resv. destruct (_ && _); rests. Qed.

Lemma data_translate_rest h (m : M) va acc e pa h' m' : data_translate h m va acc = (e, pa, h', m') -> at_rest h h'.
Proof. unfold data_translate. destruct (h_vm_active h); [apply translate_rest|intros E; follow; rests]. Qed.

Lemma wide_translate_rest acc : forall ps h (m : M) r h' m', wide_translate h m acc ps = (r, h', m') -> at_rest h h'.
Proof.
  induction ps as [|[va len] ps IH]; intros h m r h' m' E; cbn [wide_translate] in E; [follow; rests|].
  destruct (if h_vm_active h then _ else _) as [[[e pa] h1] m1] eqn:Et. apply data_translate_rest in Et.
  destruct (negb _); [follow; exact Et|]. destruct (wide_translate _ _ _ _) as [[r1 h2] m2] eqn:Er.
  apply IH in Er. follow; eapply at_rest_trans; eassumption.
Qed.

Lemma wide_run_rest store pa len : forall fuel h (m : M) off v done r h' m',
  wide_run fuel h m store pa len off v done = (r, h', m') -> at_rest h h'.
Proof.
  induction fuel as [|fuel IH]; intros h m off v done r h' m' E; cbn [wide_run] in E; [follow; rests|].
  destruct (off <? len); [|follow; rests].
  destruct store; [destruct (bus_write _ _ _ _) as [f m1]|destruct (bus_read _ _ _) as [[f w] m1]]; destruct f;
    try (follow; first [rests|apply drop_resv_rest]); apply IH in E; [|exact E].
  eapply at_rest_trans; [apply drop_resv_rest|exact E].
Qed.

Lemma wide_parts_run_rest store : forall ps h (m : M) v done r h' m',
  wide_parts_run h m store ps v done = (r, h', m') -> at_rest h h'.
Proof.
  induction ps as [|p ps IH]; intros h m v done r h' m' E; cbn [wide_parts_run] in E; [follow; rests|].
  destruct (wide_run _ _ _ _ _ _ _ _ _) as [[r1 h1] m1] eqn:Er. apply wide_run_rest in Er.
  destruct r1 as [x|[v1 d1]]; [follow; exact Er|]. apply IH in E. eapply at_rest_trans; eassumption.
Qed.

Lemma mem_wide_rest h (m : M) va size acc val e v a h' m' : mem_wide h m va size acc val = (e, v, a, h', m') -> at_rest h h'.
Proof.
  unfold mem_wide. destruct (wide_translate _ _ _ _) as [[r h1] m1] eqn:Et. intros E. apply wide_translate_rest in Et.
  destruct r as [[e1 a1]|ps]; [follow; exact Et|]. destruct (wide_check _ _ _ _ _) as [bad m2].
  destruct bad; [follow; exact Et|]. destruct (wide_parts_run _ _ _ _ _ _) as [[r2 h2] m3] eqn:Er.
  apply wide_parts_run_rest in Er. destruct r2 as [[? ?]|[? ?]]; injection E as <- <- <- <- <-; eapply at_rest_trans; eassumption.
Qed.

Lemma load64_rest h (m : M) a e v t h' m' : rv_hart_load64 h m a = (e, v, t, h', m') -> at_rest h h'.
Proof. unfold rv_hart_load64. intros E. follow; [rests..|eapply mem_wide_rest; eassumption]. Qed.

Lemma store64_rest h (m : M) a val e t h' m' : rv_hart_store64 h m a val = (e, t, h', m') -> at_rest h h'.
Proof. unfold rv_hart_store64. intros E. follow; [rests..|eapply mem_wide_rest; eassumption]. Qed.

Lemma split_rest h (m : M) va size acc val e v h' m' : split_access h m va size acc val = (e, v, h', m') -> at_rest h h'.
Proof.
  unfold split_access. destruct (mem_wide _ _ _ _ _ _) as [[[[e1 v1] a1] h1] m1] eqn:Em. intros E.
  apply mem_wide_rest in Em. injection E as <- <- <- <-. destruct (_ && _); rests.
Qed.

Lemma load_bus_rest h (m : M) va a size sg e v h' m' : load_bus h m va a size sg = (e, v, h', m') -> at_rest h h'.
Proof. unfold load_bus. intros E. follow; first [rests | eapply dtlb_fill_rest; eassumption]. Qed.

Lemma load_rest h (m : M) a size sg e v h' m' : rv_hart_load h m a size sg = (e, v, h', m') -> at_rest h h'.
Proof.
  unfold rv_hart_load. destruct (_ && _); [intros E; follow; rests|]. destruct (_ && _); [intros E; follow; rests|].
  destruct (h_data_guard h); [|intros E; follow; rests].
  unfold load_guarded, load_split. destruct (dtlb_probe _ _ _ _); [intros E; follow; rests|].
  destruct (h_vm_active h); [|apply load_bus_rest]. destruct (_ && _).
  - destruct (split_access _ _ _ _ _ _) as [[[e1 w] h1] m1] eqn:Es. apply split_rest in Es. intros E. follow; exact Es.
  - destruct (rv_mmu_translate _ _ _ _) as [[[t pa] h1] m1] eqn:Et. apply translate_rest in Et. intros E.
    destruct (negb _); [follow; exact Et|]. apply load_bus_rest in E. eapply at_rest_trans; eassumption.
Qed.

Lemma store_bus_rest h (m : M) va a size val e h' m' : store_bus h m va a size val = (e, h', m') -> at_rest h h'.
Proof.
  unfold store_bus. pose proof (drop_resv_rest h a) as D. intros E. follow; try first [rests|exact D].
  eapply at_rest_trans; [exact D|eapply dtlb_fill_rest; eassumption].
Qed.

Lemma store_rest h (m : M) a size val e h' m' : rv_hart_store h m a size val = (e, h', m') -> at_rest h h'.
Proof.
  unfold rv_hart_store. destruct (_ && _); [intros E; follow; rests|]. destruct (_ && _); [intros E; follow; rests|].
  destruct (h_data_guard h); [|intros E; follow; apply drop_resv_rest].
  unfold store_guarded, store_split. destruct (if h_resv_valid h then _ else _); [intros E; follow; rests|].
  destruct (h_vm_active h); [|apply store_bus_rest]. destruct (_ && _).
  - destruct (split_access _ _ _ _ _ _) as [[[e1 w] h1] m1] eqn:Es. apply split_rest in Es. intros E. follow; exact Es.
  - destruct (rv_mmu_translate _ _ _ _) as [[[t pa] h1] m1] eqn:Et. apply translate_rest in Et. intros E.
    destruct (negb _); [follow; exact Et|]. apply store_bus_rest in E. eapply at_rest_trans; eassumption.
Qed.

(** ** Atomics *)

(** FS, which only goes from on to Dirty. *)
Definition fs_off (h : rv_hart) : bool := h_mstatus h &! MSTATUS_FS_MASK =? 0.
Definition fs_step (h h' : rv_hart) : Prop :=
  h_mstatus h' = h_mstatus h \/ (fs_off h = false /\ h_mstatus h' = h_mstatus h |! MSTATUS_FS_MASK).

Definition calm (h h' : rv_hart) : Prop := h_pc h' = h_pc h /\ (h_x h 0 = 0 -> h_x h' 0 = 0) /\ fs_step h h'.

Lemma calm_rest h h' : at_rest h h' -> calm h h'.
Proof. intros (E1 & E2 & E3 & E4 & E5). split; [exact E1|]. split; [rewrite E2; auto|left; exact E5]. Qed.

Lemma rest_calm_trans h1 h2 h3 : at_rest h1 h2 -> calm h2 h3 -> calm h1 h3.
Proof.
  intros (E1 & E2 & E3 & E4 & E5) (C1 & C2 & C3). split; [congruence|]. split; [rewrite <- E2; exact C2|].
  unfold fs_step, fs_off in *. rewrite <- E5. exact C3.
Qed.

Lemma upd_x0 f rd v : negb (rd =? 0) = true -> f 0 = 0 -> upd f rd v 0 = 0.
Proof. intros Hr H0. unfold upd. destruct (Z.eqb_spec 0 rd) as [<-|]; [discriminate|exact H0]. Qed.

Lemma put_x_calm h rd v : calm h (put_x h rd v).
Proof.
  unfold put_x. destruct (negb (rd =? 0)) eqn:E; (split; [reflexivity|split; [|left; reflexivity]]); [|auto].
  intros H0. apply (upd_x0 _ _ _ E H0).
Qed.

Lemma zero_x0_calm h h' : calm h h' -> calm h (zero_x0 h').
Proof. intros (C1 & C2 & C3). split; [exact C1|]. split; [reflexivity|exact C3]. Qed.

Ltac calms := solve [apply calm_rest; rests | apply put_x_calm
  | eapply rest_calm_trans; [|apply put_x_calm]; rests].

Lemma amo_calm h (m : M) f5 rd a src e h' m' : rv_hart_amo h m f5 rd a src = (e, h', m') -> calm h h'.
Proof.
  unfold rv_hart_amo. destruct (has a 3); [intros E; follow; calms|].
  destruct (data_translate _ _ _ _) as [[[t pa] h1] m1] eqn:Et. apply data_translate_rest in Et.
  unfold amo_lr, amo_sc, amo_rmw. intros E. follow; calms.
Qed.

Lemma put_pair_calm h rd lo hi : 0 <= rd -> calm h (put_pair h rd lo hi).
Proof.
  intros Hr. unfold put_pair. destruct (negb (rd =? 0)) eqn:E; (split; [reflexivity|split; [|left; reflexivity]]); [|auto].
  intros H0. apply upd_x0; [lia|]. apply (upd_x0 _ _ _ E H0).
Qed.

Lemma rd_nonneg i : 0 <= rv_rd i.
Proof. unfold rv_rd. apply Z.land_nonneg. lia. Qed.

Lemma amocas_d_calm h (m : M) rd rs2 a e h' m' : 0 <= rd -> rv_hart_amocas_d h m rd rs2 a = (e, h', m') -> calm h h'.
Proof.
  intros Hr. unfold rv_hart_amocas_d. destruct (has a 7); [intros E; follow; calms|].
  destruct (data_translate _ _ _ _) as [[[t pa] h1] m1] eqn:Et. apply data_translate_rest in Et.
  unfold amocas_d_bus. intros E. follow; try calms; (eapply rest_calm_trans; [exact Et|apply put_pair_calm, Hr]).
Qed.

Lemma atomic_calm h (m : M) insn e tv h' m' : rv_hart_atomic h m insn = (e, tv, h', m') -> calm h h'.
Proof.
  unfold rv_hart_atomic. destruct (_ || _).
  { unfold rv_hart_zalasr. destruct (2 <? _); [intros E; follow; calms|]. destruct (_ =? RV_AMO_STORE_REL).
    - destruct (_ || _); [intros E; follow; calms|]. destruct (has _ _); [intros E; follow; calms|].
      destruct (rv_hart_store _ _ _ _ _) as [[e1 h1] m1] eqn:Es. apply store_rest in Es. intros E. follow; calms.
    - destruct (_ || _); [intros E; follow; calms|]. destruct (has _ _); [intros E; follow; calms|].
      destruct (rv_hart_load _ _ _ _ _) as [[[e1 v] h1] m1] eqn:Es. apply load_rest in Es. intros E.
      injection E as <- <- <- <-. destruct (_ =? _); calms. }
  destruct (_ && (_ =? RV_AMO_CAS)).
  - destruct (_ || _); [intros E; follow; calms|].
    destruct (rv_hart_amocas_d _ _ _ _ _) as [[e1 h1] m1] eqn:Es. apply amocas_d_calm in Es; [|apply rd_nonneg]. intros E. follow.
    apply zero_x0_calm, Es.
  - destruct (_ || _); [intros E; follow; calms|].
    destruct (rv_hart_amo _ _ _ _ _ _) as [[e1 h1] m1] eqn:Es. apply amo_calm in Es. intros E. follow. apply zero_x0_calm, Es.
Qed.

(** ** Floating point *)

(** An f register and the flags, with FS made Dirty or not. *)
Lemma f_write_calm h f c : fs_off h = false -> calm h (f_dirty (h <| h_f := f |> <| h_fcsr := c |>)).
Proof. intros Hf. split; [reflexivity|]. split; [auto|]. right. split; [exact Hf|reflexivity]. Qed.

Lemma fp_finish_calm h (m : M) insn rd fw r e t h' m' : fs_off h = false ->
  (forall v, exists f, fw h rd v = h <| h_f := f |>) -> fp_finish h m insn rd fw r = (e, t, h', m') -> calm h h'.
Proof.
  intros Hf Hw E. unfold fp_finish in E. follow.
  - calms.
  - destruct (Hw res) as [f ->]. apply (f_write_calm h f _ Hf).
  - unfold f_accrue. destruct (negb _); (split; [reflexivity|split; [reflexivity|]]); [right; split; [exact Hf|reflexivity]|left; reflexivity].
  - split; [reflexivity|]. split; [reflexivity|left; reflexivity].
Qed.

Lemma f_put_calm h h1 f : fs_off h = false -> at_rest h h1 -> calm h (f_dirty (h1 <| h_f := f |>)).
Proof.
  intros Hf R. eapply rest_calm_trans; [exact R|]. destruct R as (_ & _ & _ & _ & E5).
  split; [reflexivity|]. split; [auto|]. right. split; [unfold fs_off in *; rewrite E5; exact Hf|reflexivity].
Qed.

Lemma fp_load_calm h (m : M) insn rd rm a e t h' m' : fs_off h = false -> fp_load h m insn rd rm a = (e, t, h', m') -> calm h h'.
Proof.
  intros Hf. unfold fp_load. destruct (rm =? 1); [|destruct (rm =? 3)].
  - destruct (rv_hart_load _ _ _ _ _) as [[[e1 v] h1] m1] eqn:El. apply load_rest in El. intros E.
    follow; [calms|apply (f_put_calm _ _ _ Hf El)].
  - destruct (rv_hart_load64 _ _ _) as [[[[e1 v] t1] h1] m1] eqn:El. apply load64_rest in El. intros E.
    follow; [calms|apply (f_put_calm _ _ _ Hf El)].
  - destruct (rv_hart_load _ _ _ _ _) as [[[e1 v] h1] m1] eqn:El. apply load_rest in El. intros E.
    follow; [calms|apply (f_put_calm _ _ _ Hf El)].
Qed.

Lemma fp_store_calm h (m : M) rs2 rm a e t h' m' : fp_store h m rs2 rm a = (e, t, h', m') -> calm h h'.
Proof.
  unfold fp_store. destruct (rm =? 3); [intros E; apply calm_rest; eapply store64_rest; exact E|].
  destruct (rm =? 1); destruct (rv_hart_store _ _ _ _ _) as [[e1 h1] m1] eqn:Es; apply store_rest in Es; intros E; follow; calms.
Qed.

Lemma fp_calm h (m : M) insn e t h' m' : rv_hart_fp h m insn = (e, t, h', m') -> calm h h'.
Proof.
  unfold rv_hart_fp. fold (fs_off h). destruct (fs_off h) eqn:Hf; [intros E; follow; calms|].
  assert (W : forall rd v, exists f, fw16 h rd v = h <| h_f := f |>) by (intros; eexists; reflexivity).
  assert (W2 : forall rd v, exists f, fw32 h rd v = h <| h_f := f |>) by (intros; eexists; reflexivity).
  assert (W3 : forall rd v, exists f, fw64 h rd v = h <| h_f := f |>) by (intros; eexists; reflexivity).
  destruct (_ || _).
  { destruct (_ && _); [intros E; follow; calms|]. destruct (_ =? _); [apply (fp_load_calm _ _ _ _ _ _ _ _ _ _ Hf)|apply fp_store_calm]. }
  destruct (_ || _).
  { destruct (1 <? _); [intros E; follow; calms|]. destruct (_ =? 1); apply (fp_finish_calm _ _ _ _ _ _ _ _ _ _ Hf); intros; auto. }
  destruct (negb _); [intros E; follow; calms|].
  destruct (_ =? 2); [apply (fp_finish_calm _ _ _ _ _ _ _ _ _ _ Hf); intros; auto|]. destruct (1 <? _); [intros E; follow; calms|].
  destruct (_ =? 1); apply (fp_finish_calm _ _ _ _ _ _ _ _ _ _ Hf); intros; auto.
Qed.

End Rest.
