(* ===== verification/RvIrCpu.v ===== *)
(** * The RV32 guest of the IR

    Its memory by offset, and the laws the passes rely on. *)

From stdpp Require Import base list gmap.
From Stdlib Require Import ZArith Lia FunctionalExtensionality.
From S2P Require Import Prelude Bus BusProps IrTypes IrFloat RvHart RvBus RvPmp RvTrig RvMmu RvAccess RvTrap RvCsr RvDecode RvAtomic RvFpu RvInterp RvFrame RvTrapProps RvTyped IrInterp IrPasses IrSem IrSubst IrLaws RvIr RvIrXlate RvIrCalm.

Open Scope Z_scope.
Open Scope u32_scope.

(** * The hart a block sees

    [hart_of] and [cpu_of] are two views of the same memory; a store by offset
    is an assignment to the field at that offset. *)

(** The four members a block reads and writes. *)
Definition pack (h : rv_hart) (x f : Z -> Z) (pc ms : Z) : rv_hart :=
  h <| h_x := x |> <| h_f := f |> <| h_pc := pc |> <| h_mstatus := ms |>.

Lemma pack_self h : pack h (h_x h) (h_f h) (h_pc h) (h_mstatus h) = h.
Proof. destruct h. reflexivity. Qed.

Definition in32 (r : Z) : bool := (0 <=? r) && (r <? 32).

Lemma in32_spec r : in32 r = true <-> 0 <= r < 32.
Proof. unfold in32. rewrite andb_true_iff, Z.leb_le, Z.ltb_lt. lia. Qed.

Section Cpu.
Context `{Cfg : RvConfig} {SF : SoftFloat} {Ext M : Type} `{PB : PhysBus Ext M} `{L : RvLayout}.
Variable pf : platform M.
#[local] Abbreviation cpu := (cpu_t M).
#[local] Abbreviation t := (rv_ir_target pf).

Definition xs (c : cpu) (r : Z) : Z := if in32 r then word_at c (OFF_X + r * 4) else h_x (fst (cpu_ext c)) r.
Definition fs (c : cpu) (r : Z) : Z :=
  if in32 r then word_at c (OFF_F + r * 8) + 2 ^ 32 * word_at c (OFF_F + r * 8 + 4) else h_f (fst (cpu_ext c)) r.

Lemma hart_of_pack (c : cpu) : hart_of c = pack (fst (cpu_ext c)) (xs c) (fs c) (word_at c OFF_PC) (word_at c OFF_MSTATUS).
Proof. reflexivity. Qed.

Lemma layout_facts : OFF_X = 0 /\ OFF_PC = 128 /\ 132 <= OFF_MSTATUS /\ OFF_MSTATUS + 4 <= OFF_F.
Proof. pose proof layout_mstatus. pose proof layout_f. unfold OFF_X, OFF_PC in *. lia. Qed.

Lemma hart_of_cpu_of h m : ctl h -> dat h -> hart_of (cpu_of h m : cpu) = h.
Proof.
  intros C D. rewrite hart_of_pack. destruct layout_facts as (_ & _ & F3 & F4).
  assert (Ex : xs (cpu_of h m) = h_x h).
  { apply functional_extensionality. intros r. unfold xs. destruct (in32 r) eqn:E; [|reflexivity]. apply in32_spec in E.
    unfold word_at. cbn [cpu_word cpu_of]. unfold word_of, OFF_X, OFF_PC. destruct (Z.leb_spec 0 (0 + r * 4)); [|lia].
    destruct (Z.ltb_spec (0 + r * 4) 128); [|lia]. cbn [andb]. replace ((0 + r * 4 - 0) / 4) with r by (Z.to_euclidean_division_equations; lia).
    apply u32_id, D. }
  assert (Ef : fs (cpu_of h m) = h_f h).
  { apply functional_extensionality. intros r. unfold fs. destruct (in32 r) eqn:E; [|reflexivity]. apply in32_spec in E.
    assert (W : forall k, 0 <= k < 8 -> word_of h (OFF_F + r * 8 + k) = if k =? 0 then u32 (h_f h r) else Z.shiftr (h_f h r) 32).
    { intros k Hk. unfold word_of, OFF_X, OFF_PC. destruct (Z.ltb_spec (OFF_F + r * 8 + k) 128); [lia|]. rewrite andb_false_r.
      destruct (Z.eqb_spec (OFF_F + r * 8 + k) 128); [lia|]. destruct (Z.eqb_spec (OFF_F + r * 8 + k) OFF_MSTATUS); [lia|].
      destruct (Z.leb_spec OFF_F (OFF_F + r * 8 + k)); [|lia]. destruct (Z.ltb_spec (OFF_F + r * 8 + k) (OFF_F + 256)); [|lia]. cbn [andb].
      replace ((OFF_F + r * 8 + k - OFF_F) / 8) with r by (Z.to_euclidean_division_equations; lia).
      replace ((OFF_F + r * 8 + k - OFF_F) mod 8) with k by (Z.to_euclidean_division_equations; lia). reflexivity. }
    unfold word_at. cbn [cpu_word cpu_of]. rewrite <- (Z.add_0_r (OFF_F + r * 8)) at 1. rewrite !W by lia. cbn [Z.eqb].
    pose proof (dt_f _ D r) as [F0 F1]. rewrite Z.shiftr_div_pow2 by lia. unfold u32.
    rewrite (Z.mod_small (h_f h r / 2 ^ 32)); Z.to_euclidean_division_equations; lia. }
  rewrite Ex, Ef. assert (Ep : word_at (cpu_of h m : cpu) OFF_PC = h_pc h) by (apply u32_id, D).
  assert (Em : word_at (cpu_of h m : cpu) OFF_MSTATUS = h_mstatus h).
  { unfold word_at. cbn [cpu_word cpu_of]. unfold word_of, OFF_PC. destruct (Z.ltb_spec OFF_MSTATUS 128); [lia|]. rewrite andb_false_r.
    destruct (Z.eqb_spec OFF_MSTATUS 128); [lia|]. rewrite Z.eqb_refl. apply u32_id, C. }
  rewrite Ep, Em. apply pack_self.
Qed.

Lemma mach_of_cpu_of h m : mach_of (cpu_of h m : cpu) = m.
Proof. reflexivity. Qed.

(** ** Stores by offset *)

Lemma xs_set_x (c : cpu) r v : 0 <= r < 32 -> xs (set_word c (OFF_X + r * 4) v) = upd (xs c) r (u32 v).
Proof.
  intros Hr. apply functional_extensionality. intros k. unfold xs, upd at 1. destruct (in32 k) eqn:E.
  - apply in32_spec in E. destruct (Z.eqb_spec k r) as [->|]; [apply word_set_eq|apply word_set_ne; lia].
  - destruct (Z.eqb_spec k r) as [->|]; [apply in32_spec in Hr; congruence|reflexivity].
Qed.

Lemma xs_set_other (c : cpu) off v : OFF_PC <= off -> xs (set_word c off v) = xs c.
Proof.
  intros Ho. apply functional_extensionality. intros k. unfold xs. destruct (in32 k) eqn:E; [|reflexivity].
  apply in32_spec in E. apply word_set_ne. unfold OFF_X, OFF_PC in *. lia.
Qed.

Lemma fs_set_other (c : cpu) off v : off < OFF_F -> fs (set_word c off v) = fs c.
Proof.
  intros Ho. apply functional_extensionality. intros k. unfold fs. destruct (in32 k) eqn:E; [|reflexivity].
  apply in32_spec in E. rewrite !word_set_ne by lia. reflexivity.
Qed.

Lemma hart_set_x (c : cpu) r v : 0 <= r < 32 ->
  hart_of (set_word c (OFF_X + r * 4) v) = (hart_of c) <| h_x := upd (h_x (hart_of c)) r (u32 v) |>.
Proof.
  intros Hr. destruct layout_facts as (F1 & F2 & F3 & F4). rewrite !hart_of_pack, xs_set_x, fs_set_other by lia.
  rewrite !word_set_ne by lia. reflexivity.
Qed.

Lemma hart_set_pc (c : cpu) v : hart_of (set_word c OFF_PC v) = (hart_of c) <| h_pc := u32 v |>.
Proof.
  destruct layout_facts as (F1 & F2 & F3 & F4). rewrite !hart_of_pack, xs_set_other, fs_set_other by lia.
  rewrite word_set_eq, word_set_ne by lia. reflexivity.
Qed.

Lemma hart_set_mstatus (c : cpu) v : hart_of (set_word c OFF_MSTATUS v) = (hart_of c) <| h_mstatus := u32 v |>.
Proof.
  destruct layout_facts as (F1 & F2 & F3 & F4). rewrite !hart_of_pack, xs_set_other, fs_set_other by lia.
  rewrite word_set_eq, word_set_ne by lia. reflexivity.
Qed.

Lemma hart_set_f (c : cpu) r v : 0 <= r < 32 ->
  hart_of (set_word (set_word c (rv_freg_offset r) v) (rv_freg_offset r + 4) 4294967295) =
  (hart_of c) <| h_f := upd (h_f (hart_of c)) r (18446744069414584320 |! u32 v) |>.
Proof.
  intros Hr. destruct layout_facts as (F1 & F2 & F3 & F4). rewrite !hart_of_pack, !xs_set_other by (unfold rv_freg_offset; lia).
  rewrite !word_set_ne by (unfold rv_freg_offset; lia).
  assert (E : fs (set_word (set_word c (rv_freg_offset r) v) (rv_freg_offset r + 4) 4294967295) =
              upd (fs c) r (18446744069414584320 |! u32 v)).
  { apply functional_extensionality. intros k. unfold fs, upd at 1. destruct (in32 k) eqn:E.
    - apply in32_spec in E. unfold rv_freg_offset. destruct (Z.eqb_spec k r) as [->|]; [|rewrite !word_set_ne by lia; reflexivity].
      rewrite word_set_eq, word_set_ne, word_set_eq by lia. change (u32 4294967295) with 4294967295.
      assert (K : Z.land (u32 v) (2 ^ 32 * 4294967295) = 0).
      { change (2 ^ 32 * 4294967295) with (Z.shiftl (Z.ones 32) 32). apply Z.bits_inj'. intros i Hi. rewrite Z.land_spec, Z.bits_0.
        destruct (Z.lt_ge_cases i 32); [rewrite Z.shiftl_spec_low by lia; apply andb_false_r|].
        rewrite is_u32_testbit_high by (try apply u32_range; lia). reflexivity. }
      rewrite Z.add_nocarry_lxor, Z.lxor_lor, Z.lor_comm by exact K. reflexivity.
    - destruct (Z.eqb_spec k r) as [->|]; [apply in32_spec in Hr; congruence|reflexivity]. }
  rewrite E. reflexivity.
Qed.

(** ** Loads by offset *)

Lemma word_x (c : cpu) r : 0 <= r < 32 -> word_at c (OFF_X + r * 4) = h_x (hart_of c) r.
Proof. intros Hr. rewrite hart_of_pack. cbn [h_x pack]. change (word_at c (OFF_X + r * 4) = xs c r). unfold xs. rewrite (proj2 (in32_spec r)) by exact Hr. reflexivity. Qed.

Lemma word_mstatus (c : cpu) : word_at c OFF_MSTATUS = h_mstatus (hart_of c).
Proof. reflexivity. Qed.

(** The two halves of an f register. *)
Lemma word_f (c : cpu) r : 0 <= r < 32 ->
  word_at c (rv_freg_offset r) = u32 (h_f (hart_of c) r) /\ word_at c (rv_freg_offset r + 4) = Z.shiftr (h_f (hart_of c) r) 32.
Proof.
  intros Hr. rewrite hart_of_pack. change (h_f (pack _ _ _ _ _) r) with (fs c r). unfold fs, rv_freg_offset.
  rewrite (proj2 (in32_spec r)) by exact Hr.
  pose proof (u32_range (cpu_word c (OFF_F + r * 8))) as A. pose proof (u32_range (cpu_word c (OFF_F + r * 8 + 4))) as B.
  unfold is_u32 in *. fold (word_at c (OFF_F + r * 8)) in A. fold (word_at c (OFF_F + r * 8 + 4)) in B.
  rewrite Z.shiftr_div_pow2 by lia. unfold u32. split.
  - Z.to_euclidean_division_equations; lia.
  - Z.to_euclidean_division_equations; lia.
Qed.

(** Every word is one. *)
Lemma hart_of_words (c : cpu) : (forall r, 0 <= r < 32 -> is_u32 (h_x (hart_of c) r)) /\ is_u32 (h_mstatus (hart_of c)).
Proof. split; [intros r Hr; rewrite <- word_x by exact Hr|rewrite <- word_mstatus]; apply u32_range. Qed.

End Cpu.

(** * The RV32 guest satisfies what the passes rely on

    The target of [RvIr] has the laws of [IrLaws], and [emit_ok] is what an
    instruction of a translated block satisfies by itself: the registers it
    names exist, the interpreter models it, a write to a register has a
    value. *)

Section Target.
Context {ICfg : IrConfig} `{Cfg : RvConfig} {SF : SoftFloat} {Ext M : Type} `{PB : PhysBus Ext M} `{L : RvLayout}.
Variable pf : platform M.
#[local] Abbreviation cpu := (cpu_t M).
#[local] Abbreviation t := (rv_ir_target pf).

(** The x registers and the number that stands for [mstatus]. *)
Definition rv_reg (n : Z) : bool := (0 <=? n) && (n <=? RV_IR_MSTATUS).

Lemma reg_offset_cases n : rv_reg n = true -> reg_offset t n = OFF_X + n * 4 /\ 0 <= n < 32 \/ reg_offset t n = OFF_MSTATUS /\ n = 32.
Proof.
  unfold rv_reg, reg_offset. cbn [t_reg_offset rv_ir_target]. unfold rv_reg_offset, RV_IR_MSTATUS.
  rewrite andb_true_iff, !Z.leb_le. intros H. destruct (Z.eqb_spec n 32); lia.
Qed.

(** A register's word, when an access left the registers and [mstatus] alone. *)
Lemma word_rest (c : cpu) h m n : at_rest (hart_of c) h -> rv_reg n = true -> word_at (cpu_of h m : cpu) (reg_offset t n) = word_at c (reg_offset t n).
Proof.
  intros (_ & Ex & _ & _ & Em) Hn. destruct layout_facts as (F1 & F2 & F3 & F4). destruct (reg_offset_cases n Hn) as [[-> Hr]|[-> _]].
  - rewrite (word_x c) by exact Hr. rewrite <- Ex. unfold word_at. cbn [cpu_word cpu_of]. unfold word_of. rewrite F1, F2.
    destruct (Z.leb_spec 0 (0 + n * 4)); [|lia]. destruct (Z.ltb_spec (0 + n * 4) 128); [|lia]. cbn [andb].
    replace ((0 + n * 4 - 0) / 4) with n by (Z.to_euclidean_division_equations; lia). rewrite Ex. apply u32_id, hart_of_words, Hr.
  - rewrite (word_mstatus c), <- Em. unfold word_at. cbn [cpu_word cpu_of]. unfold word_of. rewrite F2. destruct (Z.ltb_spec OFF_MSTATUS 128); [lia|].
    rewrite andb_false_r. destruct (Z.eqb_spec OFF_MSTATUS 128); [lia|]. rewrite Z.eqb_refl, Em. apply u32_id, hart_of_words.
Qed.

Lemma load_words (c : cpu) a spec v c' n : rv_ir_load c a spec = (0, v, c') -> rv_reg n = true -> word_at c' (reg_offset t n) = word_at c (reg_offset t n).
Proof.
  unfold rv_ir_load. destruct (rv_hart_load _ _ _ _ _) as [[[e w] h] m] eqn:E. destruct (negb _).
  - unfold ir_trap. destruct (rv_hart_trap _ _ _ _). discriminate.
  - intros [= <- <-] Hn. apply word_rest; [eapply load_rest, E|exact Hn].
Qed.

Lemma store_words (c : cpu) a spec v c' n : rv_ir_store c a spec v = (0, c') -> rv_reg n = true -> word_at c' (reg_offset t n) = word_at c (reg_offset t n).
Proof.
  unfold rv_ir_store. destruct (rv_hart_store _ _ _ _ _) as [[e h] m] eqn:E. destruct (negb _).
  - unfold ir_trap. destruct (rv_hart_trap _ _ _ _). discriminate.
  - intros [= <-] Hn. apply word_rest; [eapply store_rest, E|exact Hn].
Qed.

#[export] Instance rv_laws : TargetLaws t.
Proof.
  refine {| valid_reg := rv_reg; valid_freg := in32 |}; pose proof layout_facts as (F1 & F2 & F3 & F4).
  - eexists. reflexivity.
  - intros n H. destruct (reg_offset_cases n H); lia.
  - intros m n Hm Hn _ _ E. destruct (reg_offset_cases m Hm), (reg_offset_cases n Hn); lia.
  - intros m n Hn _ E. change (pc_offset t) with OFF_PC in E. destruct (reg_offset_cases n Hn); lia.
  - intros f _. cbn. unfold is_u32. lia.
  - reflexivity.
  - discriminate.
  - discriminate.
  - intros fo n off [= <-] Hn Ho. apply in32_spec in Hn. unfold rv_freg_offset in Ho. change (pc_offset t) with OFF_PC.
    split; [lia|]. split; [discriminate|]. intros k Hk _. destruct (reg_offset_cases k Hk); lia.
  - intros ld c a spec v c' [= <-] E n Hn _. eapply load_words; eassumption.
  - intros sto c a spec v c' [= <-] E n Hn _. eapply store_words; eassumption.
Defined.

Definition emit_ok (i : emu_ir_insn) : Prop := use_ok t i && front_insn i && interp_models_insn t i = true.

Lemma emit_ok_block l : Forall emit_ok l -> uses_ok t l /\ fronts_ok l /\ interp_models l t = true.
Proof.
  intros H. split; [|split].
  - eapply Forall_impl; [exact H|]. intros i Hi _. unfold emit_ok in Hi. rewrite !andb_true_iff in Hi. apply Hi.
  - eapply Forall_impl; [exact H|]. intros i Hi _. unfold emit_ok in Hi. rewrite !andb_true_iff in Hi. apply Hi.
  - unfold interp_models. apply forallb_forall. intros i Hi. rewrite Forall_forall in H. specialize (H i ltac:(apply list_elem_of_In, Hi)).
    unfold emit_ok in H. rewrite !andb_true_iff in H. apply H.
Qed.

End Target.
