(* ===== verification/RvIrSim.v ===== *)
(** * Running what the builder appends

    The builder's programs, by what the instructions they append do.  A pass
    over a block is at a point of it ([Live], with its temps) or has left it
    ([Gone]); [wp p s st Q] says that the instructions [p] appends to the block
    of [s] all satisfy [P] and, run from [st], end where [Q] says, unless the
    block overflows. *)

From stdpp Require Import base list gmap.
From Stdlib Require Import ZArith Lia.
From S2P Require Import Prelude Bus BusProps RvHart RvCsr IrTypes IrFloat IrInterp IrPasses IrSem IrSubst IrLaws IrBuilder RvIr RvIrXlate.

Open Scope Z_scope.
Open Scope u32_scope.
Open Scope build_scope.

(** ** What every instruction of a program keeps *)

(** A relation between the builder before and after. *)
Definition Walks {A} (R : xl -> xl -> Prop) (p : build A) : Prop := forall s, R s (snd (p s)).

(** Overflow is for good; a block without an EXIT gets none; where the block
    starts; the FS mark. *)
Definition over (s s' : xl) : Prop := overflow (xl_block s') = false -> overflow (xl_block s) = false.
Definition no_exit (l : list emu_ir_insn) : Prop := Forall (fun i => op i <> EMU_IR_EXIT) l.
Definition straight (s s' : xl) : Prop := no_exit (insn (xl_block s)) -> no_exit (insn (xl_block s')).
Definition same_start (s s' : xl) : Prop := start_pc (xl_block s') = start_pc (xl_block s).
Definition same_mark (s s' : xl) : Prop := xl_marked s' = xl_marked s.

#[export] Instance over_order : PreOrder over.
Proof. split; unfold over; [intros s H; exact H|intros s1 s2 s3; auto]. Qed.
#[export] Instance straight_order : PreOrder straight.
Proof. split; unfold straight; [intros s H; exact H|intros s1 s2 s3; auto]. Qed.
#[export] Instance same_mark_order : PreOrder same_mark.
Proof. split; [intros s; apply eq_refl|intros s1 s2 s3; unfold same_mark; congruence]. Qed.

#[export] Instance same_start_order : PreOrder same_start.
Proof. split; [intros s; apply eq_refl|intros s1 s2 s3; unfold same_start; congruence]. Qed.

Section Walks.
Context {Cfg : IrConfig}.

Lemma walks_done {A} R `{PreOrder xl R} (a : A) : Walks R (done a).
Proof. intros s. unfold done. cbn. reflexivity. Qed.

Lemma walks_bind {A B} R `{PreOrder xl R} (p : build A) (q : A -> build B) : Walks R p -> (forall a, Walks R (q a)) -> Walks R (bind p q).
Proof. intros Hp Hq s. unfold bind. specialize (Hp s). destruct (p s) as [a s1]. etransitivity; [exact Hp|apply Hq]. Qed.

Lemma walks_if {A} R (b : bool) (p q : build A) : Walks R p -> Walks R q -> Walks R (if b then p else q).
Proof. destruct b; auto. Qed.

Lemma emit_overflow b o ax a bb im df : overflow (snd (emu_ir_emit b o ax a bb im df)) = false -> overflow b = false.
Proof.
  unfold emu_ir_emit, emu_ir_temp. destruct (_ <=? _); [discriminate|]. destruct (op_writes o); [|auto].
  destruct (_ <=? _); [discriminate|auto].
Qed.

Lemma emit_no_exit b o ax a bb im df : o <> EMU_IR_EXIT -> no_exit (insn b) -> no_exit (insn (snd (emu_ir_emit b o ax a bb im df))).
Proof.
  intros Ho Hb. unfold emu_ir_emit, emu_ir_temp. destruct (_ <=? _); [exact Hb|].
  destruct (op_writes o); [destruct (_ <=? _)|]; apply Forall_app; (split; [exact Hb|repeat constructor; exact Ho]).
Qed.

Record Emits (R : xl -> xl -> Prop) (o : emu_ir_op) : Prop := {
  emits_emit : forall ax a b im, Walks R (emit o ax a b im);
  emits_emit3 : forall ax a b c, Walks R (emit3 o ax a b c)
}.

Lemma emits_over o : Emits over o.
Proof.
  split; intros ax a b im s.
  - unfold over, emit. pose proof (emit_overflow (xl_block s) o ax a b im 0) as H. destruct (emu_ir_emit _ _ _ _ _ _ _). exact H.
  - unfold over, emit3, emu_ir_emit3. pose proof (emit_overflow (xl_block s) o ax a b 0 0) as H.
    destruct (emu_ir_emit _ _ _ _ _ _ _) as [d blk]. destruct (_ && _); exact H.
Qed.

Lemma emits_straight o : o <> EMU_IR_EXIT -> Emits straight o.
Proof.
  intros Ho. split; intros ax a b im s.
  - unfold straight, emit. pose proof (emit_no_exit (xl_block s) o ax a b im 0 Ho) as H. destruct (emu_ir_emit _ _ _ _ _ _ _). exact H.
  - unfold straight, emit3, emu_ir_emit3. pose proof (emit_no_exit (xl_block s) o ax a b 0 0 Ho) as H.
    destruct (emu_ir_emit _ _ _ _ _ _ _) as [d blk]. intros H0. specialize (H H0). cbn [snd xl_block] in *. destruct (_ && _); [|exact H].
    cbn [xl_block snd insn set_last_c set_insn]. apply Forall_alter; [exact H|]. auto.
Qed.

Lemma emits_mark o : Emits same_mark o.
Proof.
  split; intros ax a b im s.
  - unfold same_mark, emit. destruct (emu_ir_emit _ _ _ _ _ _ _). reflexivity.
  - unfold same_mark, emit3. destruct (emu_ir_emit3 _ _ _ _ _ _). reflexivity.
Qed.

Lemma emit_start b o ax a bb im df : start_pc (snd (emu_ir_emit b o ax a bb im df)) = start_pc b.
Proof.
  unfold emu_ir_emit, emu_ir_temp. destruct (_ <=? _); [reflexivity|]. destruct (op_writes o); [destruct (_ <=? _)|]; reflexivity.
Qed.

Lemma emits_start o : Emits same_start o.
Proof.
  split; intros ax a b im s.
  - unfold same_start, emit. pose proof (emit_start (xl_block s) o ax a b im 0) as H. destruct (emu_ir_emit _ _ _ _ _ _ _). exact H.
  - unfold same_start, emit3, emu_ir_emit3. pose proof (emit_start (xl_block s) o ax a b 0 0) as H.
    destruct (emu_ir_emit _ _ _ _ _ _ _) as [d blk]. destruct (_ && _); exact H.
Qed.

End Walks.

Section Marks.
Context {Cfg : IrConfig}.
#[local] Abbreviation marking := (o <- get RV_IR_MSTATUS ;; w <- with_imm EMU_IR_ORI o MSTATUS_FS_MASK ;; put RV_IR_MSTATUS w).

Lemma mark_walks R `{PreOrder xl R} : Emits R EMU_IR_GET -> Emits R EMU_IR_ORI -> Emits R EMU_IR_PUT ->
  (forall s, R s (Xl (xl_block s) true)) -> Walks R mark_fs.
Proof.
  intros E1 E2 E3 H1 s. unfold mark_fs. destruct (xl_marked s); [cbn; reflexivity|]. etransitivity; [apply H1|].
  assert (K : Walks R marking); [|apply K]. apply (walks_bind R); [apply emits_emit, E1|]. intros o. apply (walks_bind R); [apply emits_emit, E2|].
  intros w. apply (walks_bind R); [apply emits_emit, E3|]. intros _. apply (walks_done R).
Qed.
Lemma mark_over : Walks over mark_fs.
Proof. apply (mark_walks over); [apply emits_over..|intros s H; exact H]. Qed.
Lemma mark_straight : Walks straight mark_fs.
Proof. apply (mark_walks straight); [apply emits_straight; discriminate..|intros s H; exact H]. Qed.
Lemma mark_start : Walks same_start mark_fs.
Proof. apply (mark_walks same_start); [apply emits_start..|intros s; reflexivity]. Qed.
End Marks.

(** Every program of the translator is made of these. *)
Ltac some_op := repeat match goal with |- context [if ?b then _ else _] => destruct b end; discriminate.
Ltac emits := first [apply emits_over|apply emits_mark|apply emits_start|apply emits_straight; some_op].
Ltac walk :=
  cbv zeta;
  repeat lazymatch goal with
    | |- forall _, _ => intro
    | |- Walks ?R (bind _ _) => apply (walks_bind R)
    | |- Walks _ (if _ then _ else _) => apply walks_if
    | |- Walks ?R (done _) => apply (walks_done R)
    | |- Walks _ (emit _ _ _ _ _) => apply emits_emit; emits
    | |- Walks _ (emit3 _ _ _ _ _) => apply emits_emit3; emits
    | |- Walks _ (get _) => apply emits_emit; emits
    | |- Walks _ (const _) => apply emits_emit; emits
    | |- Walks _ (alu _ _ _) => apply emits_emit; emits
    | |- Walks _ (unary _ _) => apply emits_emit; emits
    | |- Walks _ (with_imm _ _ _) => apply emits_emit; emits
    | |- Walks _ (setcc _ _ _) => apply emits_emit; emits
    | |- Walks _ (setpc _) => apply emits_emit; emits
    | |- Walks _ emit_retire => apply emits_emit; emits
    | |- Walks _ (fget _ _) => apply emits_emit; emits
    | |- Walks _ (put _ _) => unfold put
    | |- Walks _ (fput _ _ _) => unfold fput
    | |- Walks over mark_fs => apply mark_over
    | |- Walks straight mark_fs => apply mark_straight
    | |- Walks same_start mark_fs => apply mark_start
    | |- Walks ?R plain => apply (walks_done R)
    | |- Walks ?R decline => apply (walks_done R)
    | |- Walks _ (rv_ir_bitop_call _) => unfold rv_ir_bitop_call
    | |- Walks _ (muldiv_call _) => unfold muldiv_call
    | |- Walks _ (rv_ir_fp_fallback _ _) => unfold rv_ir_fp_fallback
    | |- Walks _ (trap_call _ _ _) => unfold trap_call
    | |- Walks _ (lower_shift_left_imm _ _ _ _) => unfold lower_shift_left_imm
    | |- Walks _ (lower_shift_right_imm _ _ _) => unfold lower_shift_right_imm
    | |- Walks _ (lower_bitmanip _ _ _) => unfold lower_bitmanip
    | |- Walks _ (lower_muldiv _) => unfold lower_muldiv
    | |- Walks _ (lower_czero _) => unfold lower_czero
    | |- Walks _ (rv_ir_lower_divrem _ _ _ _) => unfold rv_ir_lower_divrem
    | |- Walks _ (lower_op_imm _ _) => unfold lower_op_imm
    | |- Walks _ (lower_op _) => unfold lower_op
    | |- Walks _ (lower_load _ _) => unfold lower_load
    | |- Walks _ (lower_store _ _) => unfold lower_store
    | |- Walks _ (lower_branch _ _) => unfold lower_branch
    | |- Walks _ (lower_fp_mem _ _ _) => unfold lower_fp_mem
    | |- Walks _ (lower_fma _ _ _ _) => unfold lower_fma
    | |- Walks _ (lower_op_fp _ _ _ _) => unfold lower_op_fp
    | |- Walks _ (lower_system _ _) => unfold lower_system
    | |- Walks _ (if _ then _ else _) => apply walks_if
    end; cbv zeta.

Section Sim.
Context {Ext : Type} {Cfg : IrConfig}.
Variable t : emu_ir_target Ext.
Variable P : emu_ir_insn -> Prop.
Variable start : Z.
#[local] Abbreviation cpu := (emu_cpu Ext).

Inductive st := Live (tmp : Z -> Z) (c : cpu) (n : Z) | Gone (w : ir_run) (c : cpu) (n : Z).

Definition seg_step (s : st) (i : emu_ir_insn) : st :=
  match s with
  | Live tmp c n =>
      match step_at t start i tmp c n with
      | Cont c n r => Live (write_dst tmp (dst i) r) c n
      | Quit w c n => Gone w c n
      end
  | Gone w c n => Gone w c n
  end.
Definition seg (l : list emu_ir_insn) (s : st) : st := fold_left seg_step l s.

(** What a pass that is at the end of the block answers. *)
Definition ended (s : st) : ir_run * cpu * Z :=
  match s with Live _ c n => (IR_RUN_DONE, c, n) | Gone w c n => (w, c, n) end.

Lemma seg_gone l w c n : seg l (Gone w c n) = Gone w c n.
Proof. induction l; auto. Qed.

Lemma seg_app l1 l2 s : seg (l1 ++ l2) s = seg l2 (seg l1 s).
Proof. apply fold_left_app. Qed.

Lemma seg_run l : Forall (fun i => dead i = false) l -> forall tmp c n, obs (run t start l tmp c n) = ended (seg l (Live tmp c n)).
Proof.
  induction 1 as [|i l Hd _ IH]; intros tmp c n; [reflexivity|]. cbn [run seg fold_left seg_step]. rewrite Hd.
  destruct (step_at _ _ _ _ _ _); [apply IH|]. fold (seg l). symmetry. rewrite seg_gone. reflexivity.
Qed.

(** ** Programs *)

Definition wp {A} (p : build A) (s : xl) (x : st) (Q : A -> xl -> st -> Prop) : Prop :=
  let '(a, s') := p s in
  overflow (xl_block s') = false -> built (xl_block s) ->
  built (xl_block s') /\ exists new, insn (xl_block s') = insn (xl_block s) ++ new /\ Forall P new /\ Q a s' (seg new x).

Lemma wp_done {A} (a : A) s x (Q : A -> xl -> st -> Prop) : Q a s x -> wp (done a) s x Q.
Proof. intros H. unfold wp, done. intros _ B. split; [exact B|]. exists []. rewrite app_nil_r. auto using Forall_nil. Qed.

Lemma wp_bind {A B} (p : build A) (q : A -> build B) s x (Q : B -> xl -> st -> Prop) : (forall a, Walks over (q a)) ->
  wp p s x (fun a s x => wp (q a) s x Q) -> wp (bind p q) s x Q.
Proof.
  intros G H. unfold wp, bind in *. destruct (p s) as [a s1] eqn:Ep. specialize (G a s1). destruct (q a s1) as [b s2] eqn:Eq.
  intros Ho B1. destruct (H (G Ho) B1) as (B2 & new & E1 & P1 & H2). destruct (H2 Ho B2) as (B3 & new2 & E2 & P2 & H3).
  split; [exact B3|]. exists (new ++ new2). rewrite E2, E1, app_assoc, seg_app. split; [reflexivity|]. split; [apply Forall_app; auto|exact H3].
Qed.

Lemma wp_mono {A} (p : build A) s x (Q Q' : A -> xl -> st -> Prop) : (forall a s x, Q a s x -> Q' a s x) -> wp p s x Q -> wp p s x Q'.
Proof.
  intros H. unfold wp. destruct (p s) as [a s']. intros K Ho B. destruct (K Ho B) as (B' & new & E & HP & HQ). eauto 8.
Qed.

(** ** Operands *)

Definition defined (s : xl) (x : Z) : Prop := x ∈ dsts (insn (xl_block s)) /\ x <> EMU_IR_NO_TEMP.
Definition holds (s : xl) (tmp : Z -> Z) (x v : Z) : Prop := defined s x /\ u32 (tmp x) = v.

(** An operand that may be absent. *)
Definition opd (s : xl) (tmp : Z -> Z) (x v : Z) : Prop := (x = EMU_IR_NO_TEMP /\ v = 0) \/ holds s tmp x v.

(** What was known of temps still is. *)
Definition later (s : xl) (tmp : Z -> Z) (s' : xl) (tmp' : Z -> Z) : Prop := forall x v, holds s tmp x v -> holds s' tmp' x v.
Definition more (s s' : xl) : Prop := forall x, defined s x -> defined s' x.

Lemma opd_none s tmp : opd s tmp EMU_IR_NO_TEMP 0.
Proof. left. auto. Qed.
Lemma opd_some s tmp x v : holds s tmp x v -> opd s tmp x v.
Proof. right. assumption. Qed.

Lemma opd_ok s tmp x v : opd s tmp x v -> operand_ok (xl_block s) x.
Proof. intros [[-> _]|[H _]]; [left; reflexivity|right; apply H]. Qed.

(** A temp of a block is no sentinel. *)
Lemma defined_temp s x : built (xl_block s) -> overflow (xl_block s) = false -> x ∈ dsts (insn (xl_block s)) -> is_temp x = true.
Proof.
  intros (Hn & _ & _ & Hw) Ho H. destruct (Hw Ho) as [_ Hd]. apply Hd in H. apply is_temp_lt. lia.
Qed.

Lemma opd_operand s tmp x v : opd s tmp x v -> operand tmp x = v.
Proof.
  intros [[-> ->]|((_ & D) & E)]; [reflexivity|]. unfold operand. rewrite (proj2 (Z.eqb_neq _ _)) by exact D. exact E.
Qed.

(** ** One instruction appended *)

Definition new_insn (o : emu_ir_op) (ax d a b im : Z) : emu_ir_insn := IrTypes.Insn o ax d a b EMU_IR_NO_TEMP im 0 0 0 false.

(** The block after an emission that fits. *)
Lemma emit_fits s o ax a b im d s' : emit o ax a b im s = (d, s') -> overflow (xl_block s') = false -> built (xl_block s) ->
  is_u32 im -> operand_ok (xl_block s) a -> operand_ok (xl_block s) b ->
  built (xl_block s') /\ overflow (xl_block s) = false /\ insn (xl_block s') = insn (xl_block s) ++ [new_insn o ax d a b im] /\
  xl_marked s' = xl_marked s /\
  (if op_writes o then (d ∉ dsts (insn (xl_block s))) /\ defined s' d else d = EMU_IR_NO_TEMP).
Proof.
  unfold emit. destruct (emu_ir_emit (xl_block s) o ax a b im 0) as [d0 blk] eqn:E. intros [= <- <-]. cbn [xl_block xl_marked].
  intros Ho B Hi Ha Hb. destruct (emit_built _ _ _ _ _ _ _ _ _ B Hi Ha Hb E) as [B' Hd]. split; [exact B'|].
  pose proof (emit_overflow (xl_block s) o ax a b im 0) as Hm. rewrite E in Hm. split; [apply Hm, Ho|].
  destruct (Z.lt_ge_cases (count (xl_block s)) EMU_IR_MAX_INSNS) as [Hlt|Hge].
  - destruct (emit_room (xl_block s) o ax a b im 0 B Hlt) as (b1 & E1 & Ei & _). rewrite E in E1. injection E1 as -> <-.
    split; [exact Ei|]. split; [reflexivity|]. specialize (Hd Ho). destruct (op_writes o); [|exact Hd]. destruct Hd as [Hf Hin].
    split; [exact Hf|]. split; [exact Hin|]. apply is_temp_ne. exact (defined_temp (Xl blk (xl_marked s)) _ B' Ho Hin).
  - rewrite emit_full in E by exact Hge. injection E as <- <-. discriminate Ho.
Qed.

Lemma later_write s s' tmp d r i : insn (xl_block s') = insn (xl_block s) ++ [i] -> (d ∉ dsts (insn (xl_block s))) \/ r = None ->
  later s tmp s' (write_dst tmp d r).
Proof.
  intros E Hd x v ((D & N) & Ev). split; [split; [rewrite E, dsts_app; set_solver|exact N]|]. destruct r as [w|]; [|exact Ev].
  destruct Hd as [Hd|]; [|discriminate]. rewrite write_dst_other; [exact Ev|]. intros ->. contradiction.
Qed.

Lemma more_snoc s s' i : insn (xl_block s') = insn (xl_block s) ++ [i] -> more s s'.
Proof. intros E x [D N]. split; [rewrite E, dsts_app; set_solver|exact N]. Qed.

(** What follows from the step an appended instruction makes. *)
Definition emitted (Q : Z -> xl -> st -> Prop) (o : emu_ir_op) (s : xl) (tmp : Z -> Z) (e : effect Ext) : Prop :=
  match e with
  | Cont c n (Some r) => forall d s' tmp', later s tmp s' tmp' -> xl_marked s' = xl_marked s -> holds s' tmp' d (u32 r) -> Q d s' (Live tmp' c n)
  | Cont c n None => forall d s' tmp', later s tmp s' tmp' -> xl_marked s' = xl_marked s -> Q d s' (Live tmp' c n)
  | Quit w c n => forall d s', more s s' -> xl_marked s' = xl_marked s -> (op_writes o = true -> defined s' d) -> Q d s' (Gone w c n)
  end.

Lemma wp_emit o ax a b im s tmp c n va vb (Q : Z -> xl -> st -> Prop) :
  is_u32 im -> opd s tmp a va -> opd s tmp b vb -> (forall d, P (new_insn o ax d a b im)) ->
  (forall d, emitted Q o s tmp (step t start (new_insn o ax d a b im) c n va vb 0)) ->
  wp (emit o ax a b im) s (Live tmp c n) Q.
Proof.
  intros Hi Ha Hb HP HQ. unfold wp. destruct (emit o ax a b im s) as [d s'] eqn:E. intros Ho B.
  destruct (emit_fits _ _ _ _ _ _ _ _ E Ho B Hi (opd_ok _ _ _ _ Ha) (opd_ok _ _ _ _ Hb)) as (B' & Ho0 & Ei & Em & Hd).
  split; [exact B'|]. eexists. split; [exact Ei|]. split; [repeat constructor; apply HP|]. cbn [seg fold_left seg_step]. unfold step_at. cbn [opa opb opc new_insn].
  rewrite (opd_operand s tmp a va), (opd_operand s tmp b vb) by assumption.
  change (operand tmp EMU_IR_NO_TEMP) with 0. specialize (HQ d). fold (new_insn o ax d a b im).
  destruct (step t start (new_insn o ax d a b im) c n va vb 0) as [c1 n1 r|w c1 n1] eqn:Es; cbn [emitted] in HQ; cbn [dst new_insn].
  - destruct (op_writes o) eqn:How.
    + destruct Hd as [Hf Hd]. destruct (step_value t start (new_insn o ax d a b im) _ _ _ _ _ _ _ _ How Es) as [v ->].
      apply HQ; [eapply later_write; eauto|exact Em|]. split; [exact Hd|].
      rewrite write_dst_eq by exact (defined_temp s' d B' Ho (proj1 Hd)). reflexivity.
    + pose proof (step_no_value t start (new_insn o ax d a b im) _ _ _ _ _ _ _ _ How Es) as ->.
      apply HQ; [eapply later_write; eauto|exact Em].
  - apply HQ; [eapply more_snoc; exact Ei|exact Em|]. intros How. rewrite How in Hd. apply Hd.
Qed.

(** After the pass has left, only the block still grows. *)
Lemma wp_emit_gone o ax a b im s w c n (Q : Z -> xl -> st -> Prop) :
  is_u32 im -> operand_ok (xl_block s) a -> operand_ok (xl_block s) b -> (forall d, P (new_insn o ax d a b im)) ->
  (forall d s', more s s' -> xl_marked s' = xl_marked s -> (op_writes o = true -> defined s' d) -> Q d s' (Gone w c n)) ->
  wp (emit o ax a b im) s (Gone w c n) Q.
Proof.
  intros Hi Ha Hb HP HQ. unfold wp. destruct (emit o ax a b im s) as [d s'] eqn:E. intros Ho B.
  destruct (emit_fits _ _ _ _ _ _ _ _ E Ho B Hi Ha Hb) as (B' & Ho0 & Ei & Em & Hd). split; [exact B'|].
  eexists. split; [exact Ei|]. split; [repeat constructor; apply HP|]. rewrite seg_gone. apply HQ; [eapply more_snoc; exact Ei|exact Em|].
  intros How. rewrite How in Hd. apply Hd.
Qed.

(** *** Values *)

Definition value (o : emu_ir_op) (ax va vb im : Z) : Z :=
  match eval_alu o ax va vb 0 im with Some v => v | None => 0 end.

Lemma wp_value o ax a b im s tmp c n va vb (Q : Z -> xl -> st -> Prop) :
  is_alu o = true -> is_u32 im -> opd s tmp a va -> opd s tmp b vb -> (forall d, P (new_insn o ax d a b im)) ->
  (forall d s' tmp', later s tmp s' tmp' -> xl_marked s' = xl_marked s -> holds s' tmp' d (u32 (value o ax va vb im)) -> Q d s' (Live tmp' c n)) ->
  wp (emit o ax a b im) s (Live tmp c n) Q.
Proof. intros Ho Hi Ha Hb HP HQ. eapply wp_emit; [exact Hi|exact Ha|exact Hb|exact HP|]. intros d. rewrite step_alu by exact Ho. exact HQ. Qed.

(** The first value to an f register makes FS Dirty. *)
Lemma wp_mark_fs s x (Q : lowered -> xl -> st -> Prop) : (xl_marked s = true -> Q (Lowered false false) s x) ->
  (xl_marked s = false ->
     wp (o <- get RV_IR_MSTATUS ;; w <- with_imm EMU_IR_ORI o MSTATUS_FS_MASK ;; put RV_IR_MSTATUS w) (Xl (xl_block s) true) x Q) ->
  wp mark_fs s x Q.
Proof.
  intros HT HF. unfold wp at 1, mark_fs. destruct (xl_marked s); [|exact (HF eq_refl)]. exact (wp_done (Lowered false false) s x Q (HT eq_refl)).
Qed.

End Sim.
Arguments Live {Ext}.
Arguments Gone {Ext}.
