(* ===== verification/RvIrRules.v ===== *)
(** * The rules of the RV32 builder

    [RvIrSim] at the guest of [RvIr]: what each builder call of the translator
    does to the hart, and the tactic that runs a lowering. *)

From stdpp Require Import base list gmap.
From Stdlib Require Import ZArith Lia FunctionalExtensionality.
From S2P Require Import Prelude Bus BusProps RvHart RvBus RvPmp RvTrig RvMmu RvAccess RvTrap RvCsr RvDecode RvAtomic RvFpu RvInterp RvFrame RvTrapProps RvTyped IrTypes IrFloat IrInterp IrPasses IrSem IrSubst IrLaws IrBuilder RvIr RvIrXlate RvIrCalm RvIrCpu RvIrSim.

Open Scope Z_scope.
Open Scope u32_scope.
Open Scope build_scope.

Lemma wr_zero h v : h_x h 0 = 0 -> wr h 0 v = h.
Proof.
  intros H0. unfold wr. assert (E : upd (upd (h_x h) 0 v) 0 0 = h_x h).
  { apply functional_extensionality. intros k. unfold upd. destruct (Z.eqb_spec k 0) as [->|]; auto. }
  rewrite E. destruct h. reflexivity.
Qed.

Lemma wr_other h rd v : h_x h 0 = 0 -> rd <> 0 -> wr h rd v = h <| h_x := upd (h_x h) rd v |>.
Proof.
  intros H0 Hr. unfold wr. assert (E : upd (upd (h_x h) rd v) 0 0 = upd (h_x h) rd v).
  { apply functional_extensionality. intros k. unfold upd. destruct (Z.eqb_spec k 0) as [->|]; [|reflexivity].
    rewrite (proj2 (Z.eqb_neq 0 rd)) by auto. auto. }
  rewrite E. reflexivity.
Qed.

Lemma put_x_wr h rd v : h_x h 0 = 0 -> put_x h rd v = wr h rd v.
Proof.
  intros H0. unfold put_x. destruct (Z.eqb_spec rd 0) as [->|Hr]; [rewrite wr_zero; auto|rewrite wr_other; auto].
Qed.

(** A register number. *)
Definition reg (r : Z) : Prop := 0 <= r < 32.
Lemma reg_u32 r : reg r -> is_u32 r.
Proof. unfold reg, is_u32. lia. Qed.

Section Rules.
Context {ICfg : IrConfig} `{Cfg : RvConfig} {SF : SoftFloat} {Ext M : Type} `{PB : PhysBus Ext M} `{L : RvLayout}.
Variable pf : platform M.
Variable start : Z.
#[local] Abbreviation cpu := (cpu_t M).
#[local] Abbreviation t := (rv_ir_target pf).
#[local] Abbreviation ok := (emit_ok pf).

Lemma alu_ok o ax d a b im : is_alu o = true -> ok (new_insn o ax d a b im).
Proof. destruct o; (discriminate || reflexivity). Qed.
Lemma get_ok d r : reg r -> ok (new_insn EMU_IR_GET 0 d EMU_IR_NO_TEMP EMU_IR_NO_TEMP r).
Proof.
  intros Hr. assert (E : rv_reg r = true) by (unfold rv_reg, RV_IR_MSTATUS, reg in *; apply andb_true_iff; rewrite !Z.leb_le; lia).
  change (rv_reg r && true && true = true). rewrite E. reflexivity.
Qed.
Lemma put_ok d v r : 0 <= r <= 32 -> v <> EMU_IR_NO_TEMP -> ok (new_insn EMU_IR_PUT 0 d v EMU_IR_NO_TEMP r).
Proof.
  intros Hr Hv. assert (E : rv_reg r = true) by (unfold rv_reg, RV_IR_MSTATUS; apply andb_true_iff; rewrite !Z.leb_le; lia).
  change (rv_reg r && (negb (v =? EMU_IR_NO_TEMP) && true) && true = true). rewrite E, (proj2 (Z.eqb_neq _ _)) by exact Hv. reflexivity.
Qed.

Lemma freg_ok o ax d a r : reg r -> o = EMU_IR_FGET \/ o = EMU_IR_FPUT -> ok (new_insn o ax d a EMU_IR_NO_TEMP r).
Proof.
  intros Hr Ho. apply in32_spec in Hr. destruct Ho as [-> | ->]; change (in32 r && true && true = true); rewrite Hr; reflexivity.
Qed.
Lemma helper_ok k f o d a : nth_error (rv_ir_helpers pf) (Z.to_nat k) = Some f -> is_u32 k -> o = EMU_IR_HELPER \/ o = EMU_IR_HELPER_TRAP ->
  ok (new_insn o 0 d a EMU_IR_NO_TEMP k).
Proof.
  intros Hk [K0 _] Ho. assert (E : (k <? 5) = true).
  { assert (N : (Z.to_nat k < 5)%nat) by (apply (nth_error_Some (rv_ir_helpers pf)); congruence). apply Z.ltb_lt. lia. }
  unfold emit_ok, interp_models_insn. change (helpers t) with (Some (rv_ir_helpers pf)). cbn [dead op new_insn imm orb].
  destruct Ho as [-> | ->]; change (Z.of_nat (length (rv_ir_helpers pf))) with 5; rewrite E; reflexivity.
Qed.

(** The hart and the machine a block works on. *)
Definition at_ (c : cpu) (h : rv_hart) (m : M) : Prop := hart_of c = h /\ mach_of c = m.

Lemma wp_get r s tmp c n h m (Q : Z -> xl -> st -> Prop) : reg r -> at_ c h m -> h_x h 0 = 0 ->
  (forall d s' tmp', later s tmp s' tmp' -> xl_marked s' = xl_marked s -> holds s' tmp' d (h_x h r) -> Q d s' (Live tmp' c n)) ->
  wp t ok start (get r) s (Live tmp c n) Q.
Proof.
  intros Hr [Eh Em] H0 HQ. eapply wp_emit; [apply reg_u32, Hr|apply opd_none|apply opd_none|intros d; apply get_ok, Hr|]. intros d0 d s' tmp' Hl Hm Hd.
  apply HQ; [exact Hl|exact Hm|]. cbn [imm new_insn] in Hd. unfold reg_is_zero_at in Hd. cbn [t_reg_is_zero rv_ir_target] in Hd.
  unfold rv_reg_zero in Hd. destruct (Z.eqb_spec r 0) as [->|Hn]; [rewrite H0; exact Hd|]. unfold reg_offset in Hd. cbn [t_reg_offset rv_ir_target] in Hd.
  unfold rv_reg_offset in Hd. rewrite (proj2 (Z.eqb_neq r RV_IR_MSTATUS)) in Hd by (unfold RV_IR_MSTATUS, reg in *; lia).
  rewrite word_x, Eh in Hd by exact Hr. rewrite u32_id in Hd; [exact Hd|]. rewrite <- Eh. apply hart_of_words, Hr.
Qed.

Lemma wp_get_mstatus s tmp c n h m (Q : Z -> xl -> st -> Prop) : at_ c h m ->
  (forall d s' tmp', later s tmp s' tmp' -> xl_marked s' = xl_marked s -> holds s' tmp' d (h_mstatus h) -> Q d s' (Live tmp' c n)) ->
  wp t ok start (get RV_IR_MSTATUS) s (Live tmp c n) Q.
Proof.
  intros [Eh Em] HQ. eapply wp_emit; [typed|apply opd_none|apply opd_none|reflexivity|]. intros d0 d s' tmp' Hl Hm Hd.
  apply HQ; [exact Hl|exact Hm|]. change (holds s' tmp' d (u32 (word_at c OFF_MSTATUS))) in Hd.
  rewrite word_mstatus, Eh, u32_id in Hd; [exact Hd|]. rewrite <- Eh. apply hart_of_words.
Qed.

Lemma wp_const v s tmp (c : cpu) n (Q : Z -> xl -> st -> Prop) : is_u32 v ->
  (forall d s' tmp', later s tmp s' tmp' -> xl_marked s' = xl_marked s -> holds s' tmp' d v -> Q d s' (Live tmp' c n)) ->
  wp t ok start (const v) s (Live tmp c n) Q.
Proof.
  intros Hv HQ. eapply wp_value; [reflexivity|exact Hv|apply opd_none|apply opd_none|reflexivity|]. intros d s' tmp' Hl Hm Hd.
  apply HQ; [exact Hl|exact Hm|]. cbn [value eval_alu] in Hd. rewrite u32_id in Hd by exact Hv. exact Hd.
Qed.

(** Two operands, one, one with an immediate, a comparison. *)
Lemma wp_alu o a b s tmp (c : cpu) n va vb (Q : Z -> xl -> st -> Prop) : is_alu o = true -> holds s tmp a va -> holds s tmp b vb ->
  (forall d s' tmp', later s tmp s' tmp' -> xl_marked s' = xl_marked s -> holds s' tmp' d (u32 (value o 0 va vb 0)) -> Q d s' (Live tmp' c n)) ->
  wp t ok start (alu o a b) s (Live tmp c n) Q.
Proof. intros Ho Ha Hb HQ. eapply wp_value; [exact Ho|typed|apply opd_some, Ha|apply opd_some, Hb|intros d; apply alu_ok, Ho|exact HQ]. Qed.

Lemma wp_unary o a s tmp (c : cpu) n va (Q : Z -> xl -> st -> Prop) : is_alu o = true -> holds s tmp a va ->
  (forall d s' tmp', later s tmp s' tmp' -> xl_marked s' = xl_marked s -> holds s' tmp' d (u32 (value o 0 va 0 0)) -> Q d s' (Live tmp' c n)) ->
  wp t ok start (unary o a) s (Live tmp c n) Q.
Proof. intros Ho Ha HQ. eapply wp_value; [exact Ho|typed|apply opd_some, Ha|apply opd_none|intros d; apply alu_ok, Ho|exact HQ]. Qed.

Lemma wp_with_imm o a im s tmp (c : cpu) n va (Q : Z -> xl -> st -> Prop) : is_alu o = true -> is_u32 im -> holds s tmp a va ->
  (forall d s' tmp', later s tmp s' tmp' -> xl_marked s' = xl_marked s -> holds s' tmp' d (u32 (value o 0 va 0 im)) -> Q d s' (Live tmp' c n)) ->
  wp t ok start (with_imm o a im) s (Live tmp c n) Q.
Proof. intros Ho Hi Ha HQ. eapply wp_value; [exact Ho|exact Hi|apply opd_some, Ha|apply opd_none|intros d; apply alu_ok, Ho|exact HQ]. Qed.

Lemma wp_setcc cond a b s tmp (c : cpu) n va vb (Q : Z -> xl -> st -> Prop) : holds s tmp a va -> holds s tmp b vb ->
  (forall d s' tmp', later s tmp s' tmp' -> xl_marked s' = xl_marked s -> holds s' tmp' d (if eval_value_cond va vb cond then 1 else 0) ->
    Q d s' (Live tmp' c n)) ->
  wp t ok start (setcc cond a b) s (Live tmp c n) Q.
Proof.
  intros Ha Hb HQ. eapply wp_value; [reflexivity|typed|apply opd_some, Ha|apply opd_some, Hb|reflexivity|]. intros d s' tmp' Hl Hm Hd.
  apply HQ; [exact Hl|exact Hm|]. cbn [value eval_alu] in Hd. destruct (eval_value_cond _ _ _); exact Hd.
Qed.

(** A write to a register, of a word. *)
Lemma wp_put_then r v s tmp c n h m w (Q : Z -> xl -> st -> Prop) : reg r -> at_ c h m -> h_x h 0 = 0 -> holds s tmp v w -> is_u32 w ->
  (forall d s' tmp' c', later s tmp s' tmp' -> xl_marked s' = xl_marked s -> at_ c' (wr h r w) m -> Q d s' (Live tmp' c' n)) ->
  wp t ok start (emit EMU_IR_PUT 0 v EMU_IR_NO_TEMP r) s (Live tmp c n) Q.
Proof.
  intros Hr [Eh Em] H0 Hv Hw HQ. eapply wp_emit; [apply reg_u32, Hr|apply opd_some, Hv|apply opd_none|intros d; apply put_ok; [unfold reg in Hr; lia|apply Hv]|]. intros d0 d s' tmp' Hl Hm.
  apply HQ; [exact Hl|exact Hm|]. cbn [imm new_insn]. unfold reg_is_zero_at. cbn [t_reg_is_zero rv_ir_target]. unfold rv_reg_zero.
  destruct (Z.eqb_spec r 0) as [->|Hn]; [rewrite wr_zero by exact H0; split; assumption|]. unfold reg_offset. cbn [t_reg_offset rv_ir_target].
  unfold rv_reg_offset. rewrite (proj2 (Z.eqb_neq r RV_IR_MSTATUS)) by (unfold RV_IR_MSTATUS, reg in *; lia).
  split; [|exact Em]. rewrite hart_set_x, Eh, u32_id, wr_other by assumption. reflexivity.
Qed.

Definition wrote_x (h : rv_hart) (m : M) (rd v n : Z) (mk : bool) (r : lowered) (s : xl) (x : st) : Prop :=
  r = Lowered false false /\ xl_marked s = mk /\ exists tmp c, x = Live tmp c n /\ at_ c (wr h rd v) m.

Lemma wp_put r v s tmp c n h m w w' mk : reg r -> at_ c h m -> h_x h 0 = 0 -> xl_marked s = mk -> holds s tmp v w -> is_u32 w' -> w = w' ->
  wp t ok start (put r v) s (Live tmp c n) (wrote_x h m r w' n mk).
Proof.
  intros Hr Hc H0 Hmk Hv Hw ->. apply wp_bind; [walk|]. eapply wp_put_then; [exact Hr|exact Hc|exact H0|exact Hv|exact Hw|].
  intros d s' tmp' c' Hl Hm Hc'. apply wp_done. split; [reflexivity|]. split; [congruence|]. eauto.
Qed.

Lemma wp_put_mstatus v s tmp c n h m w (Q : Z -> xl -> st -> Prop) : at_ c h m -> holds s tmp v w -> is_u32 w ->
  (forall d s' tmp' c', later s tmp s' tmp' -> xl_marked s' = xl_marked s -> at_ c' (h <| h_mstatus := w |>) m -> Q d s' (Live tmp' c' n)) ->
  wp t ok start (emit EMU_IR_PUT 0 v EMU_IR_NO_TEMP RV_IR_MSTATUS) s (Live tmp c n) Q.
Proof.
  intros [Eh Em] Hv Hw HQ. eapply wp_emit; [typed|apply opd_some, Hv|apply opd_none|intros d; apply put_ok; [unfold RV_IR_MSTATUS; lia|apply Hv]|]. intros d0 d s' tmp' Hl Hm.
  apply HQ; [exact Hl|exact Hm|]. change (at_ (set_word c OFF_MSTATUS w) (h <| h_mstatus := w |>) m).
  split; [|exact Em]. rewrite hart_set_mstatus, Eh, u32_id by exact Hw. reflexivity.
Qed.

Lemma wp_setpc pc s tmp c n h m (Q : Z -> xl -> st -> Prop) : is_u32 pc -> at_ c h m ->
  (forall d s' tmp' c', later s tmp s' tmp' -> xl_marked s' = xl_marked s -> at_ c' (h <| h_pc := pc |>) m -> Q d s' (Live tmp' c' n)) ->
  wp t ok start (setpc pc) s (Live tmp c n) Q.
Proof.
  intros Hp [Eh Em] HQ. eapply wp_emit; [exact Hp|apply opd_none|apply opd_none|reflexivity|]. intros d0 d s' tmp' Hl Hm.
  apply HQ; [exact Hl|exact Hm|]. change (at_ (set_word c OFF_PC pc) (h <| h_pc := pc |>) m).
  split; [|exact Em]. rewrite hart_set_pc, Eh, u32_id by exact Hp. reflexivity.
Qed.

Lemma set_pc_same h : h <| h_pc := h_pc h |> = h.
Proof. destruct h. reflexivity. Qed.

Lemma wp_setpc_same s tmp c n h m (Q : Z -> xl -> st -> Prop) : is_u32 (h_pc h) -> at_ c h m ->
  (forall d s' tmp' c', later s tmp s' tmp' -> xl_marked s' = xl_marked s -> at_ c' h m -> Q d s' (Live tmp' c' n)) ->
  wp t ok start (setpc (h_pc h)) s (Live tmp c n) Q.
Proof. intros Hp Hc HQ. eapply wp_setpc; [exact Hp|exact Hc|]. rewrite set_pc_same. exact HQ. Qed.

Lemma wp_retire s tmp (c : cpu) n (Q : Z -> xl -> st -> Prop) :
  (forall d s' tmp', later s tmp s' tmp' -> xl_marked s' = xl_marked s -> Q d s' (Live tmp' c (n +! 1))) ->
  wp t ok start emit_retire s (Live tmp c n) Q.
Proof. intros HQ. eapply wp_emit; [typed|apply opd_none|apply opd_none|reflexivity|]. intros d0 d s' tmp'. apply HQ. Qed.

(** Leaving the block. *)
Lemma wp_exit_if cond a b im s tmp c n va vb h m (Q : Z -> xl -> st -> Prop) : is_u32 im -> holds s tmp a va -> holds s tmp b vb -> at_ c h m ->
  (eval_value_cond va vb cond = true -> forall d s' c', xl_marked s' = xl_marked s -> at_ c' (h <| h_pc := im |>) m ->
     Q d s' (Gone (if im =? start then IR_RUN_LOOP else IR_RUN_DONE) c' n)) ->
  (eval_value_cond va vb cond = false -> forall d s' tmp', xl_marked s' = xl_marked s -> Q d s' (Live tmp' c n)) ->
  wp t ok start (emit EMU_IR_EXIT_IF cond a b im) s (Live tmp c n) Q.
Proof.
  intros Hi Ha Hb [Eh Em] HT HF. eapply wp_emit; [exact Hi|apply opd_some, Ha|apply opd_some, Hb|reflexivity|]. intros d0.
  cbn [step op new_insn aux imm]. destruct (eval_value_cond va vb cond) eqn:E; cbn [emitted].
  - intros d s' _ Hm _. apply HT; [reflexivity|exact Hm|]. split; [|exact Em]. change (pc_offset t) with OFF_PC. rewrite hart_set_pc, Eh, u32_id by exact Hi. reflexivity.
  - intros d s' tmp' _ Hm. apply HF; auto.
Qed.

Lemma wp_exit im s tmp c n h m (Q : Z -> xl -> st -> Prop) : is_u32 im -> at_ c h m ->
  (forall d s' c', xl_marked s' = xl_marked s -> at_ c' (h <| h_pc := im |>) m ->
     Q d s' (Gone (if im =? start then IR_RUN_LOOP else IR_RUN_DONE) c' n)) ->
  wp t ok start (emit EMU_IR_EXIT 0 EMU_IR_NO_TEMP EMU_IR_NO_TEMP im) s (Live tmp c n) Q.
Proof.
  intros Hi [Eh Em] HQ. eapply wp_emit; [exact Hi|apply opd_none|apply opd_none|reflexivity|]. intros d0 d s' _ Hm _.
  apply HQ; [exact Hm|]. split; [|exact Em]. unfold write_pc. change (pc_offset t) with OFF_PC. cbn [opa imm new_insn].
  rewrite Z.eqb_refl, hart_set_pc, Eh, u32_id by exact Hi. reflexivity.
Qed.

Lemma wp_exit_to a s tmp c n va h m (Q : Z -> xl -> st -> Prop) : is_u32 va -> holds s tmp a va -> at_ c h m ->
  (forall d s' c', xl_marked s' = xl_marked s -> at_ c' (h <| h_pc := va |>) m -> Q d s' (Gone IR_RUN_DONE c' n)) ->
  wp t ok start (emit EMU_IR_EXIT 0 a EMU_IR_NO_TEMP 0) s (Live tmp c n) Q.
Proof.
  intros Hi Ha [Eh Em] HQ. eapply wp_emit; [typed|apply opd_some, Ha|apply opd_none|reflexivity|]. intros d0.
  assert (E : (a =? EMU_IR_NO_TEMP) = false) by (apply Z.eqb_neq, Ha).
  cbn [step op new_insn]. unfold emu_ir_exit_is_const, write_pc. cbn [op opa imm new_insn]. rewrite E. cbn [andb emitted].
  intros d s' _ Hm _. apply HQ; [exact Hm|]. split; [|exact Em]. change (pc_offset t) with OFF_PC.
  rewrite hart_set_pc, Eh, u32_id by exact Hi. reflexivity.
Qed.

End Rules.

(** What was known of the temps, after one more instruction. *)
Ltac lift_holds :=
  lazymatch goal with
  | L : later ?s ?tmp ?s' ?tmp' |- _ =>
      repeat match goal with H : holds s tmp _ _ |- _ => apply L in H end; clear L
  end.

(** One builder call. *)
Ltac emit_one :=
  lazymatch goal with
  | |- wp _ _ _ (bind _ _) _ _ _ => apply wp_bind; [solve [walk]|]
  | |- wp _ _ _ (done _) _ _ _ => apply wp_done; cbv beta
  | |- wp _ _ _ (get RV_IR_MSTATUS) _ _ _ => eapply wp_get_mstatus; [eassumption|intros; lift_holds]
  | |- wp _ _ _ (get _) _ _ _ => eapply wp_get; [solve [auto with regs]|eassumption|assumption|intros; lift_holds]
  | |- wp _ _ _ (const _) _ _ _ => eapply wp_const; [solve [typed]|intros; lift_holds]
  | |- wp _ _ _ (alu _ _ _) _ _ _ => eapply wp_alu; [reflexivity|eassumption|eassumption|intros; lift_holds]
  | |- wp _ _ _ (unary _ _) _ _ _ => eapply wp_unary; [reflexivity|eassumption|intros; lift_holds]
  | |- wp _ _ _ (with_imm _ _ _) _ _ _ => eapply wp_with_imm; [reflexivity|solve [typed]|eassumption|intros; lift_holds]
  | |- wp _ _ _ (setcc _ _ _) _ _ _ => eapply wp_setcc; [eassumption|eassumption|intros; lift_holds]
  | |- wp _ _ _ emit_retire _ _ _ => eapply wp_retire; intros; lift_holds
  end.
