(* ===== verification/RvIrAlu.v ===== *)
(** * Lowering the integer computations

    The arithmetic, then the instructions. *)

From stdpp Require Import base list gmap.
From Stdlib Require Import ZArith Lia.
From S2P Require Import Prelude Bus BusProps IrTypes IrFloat RvHart RvBus RvPmp RvTrig RvMmu RvAccess RvTrap RvCsr RvDecode RvAtomic RvFpu RvInterp RvFrame RvTrapProps RvTyped IrInterp IrPasses IrSem IrSubst IrLaws IrBuilder RvIr RvIrXlate RvIrCalm RvIrCpu RvIrSim RvIrRules.

Open Scope Z_scope.
Open Scope u32_scope.
Open Scope build_scope.

(** * The arithmetic of the RV32 lowerings

    Where the translator computes an instruction's value in another way than
    the interpreter does. *)

(** ** Words *)

Lemma land_ones32 x : is_u32 x -> x &! 4294967295 = x.
Proof. intros H. change 4294967295 with (Z.ones 32). rewrite Z.land_ones by lia. apply u32_id, H. Qed.

Lemma lor_ones32 x : is_u32 x -> x |! 4294967295 = 4294967295.
Proof.
  intros H. apply Z.bits_inj'. intros i Hi. rewrite Z.lor_spec. change 4294967295 with (Z.ones 32). destruct (Z.lt_ge_cases i 32).
  - rewrite Z.ones_spec_low by lia. apply orb_true_r.
  - rewrite Z.ones_spec_high, (is_u32_testbit_high x) by (assumption || lia). reflexivity.
Qed.

Lemma s32_eq x : s32 x = (x + 2147483648) mod 4294967296 - 2147483648.
Proof. reflexivity. Qed.

Lemma u32_s32_id x : is_u32 x -> u32 (s32 x) = x.
Proof. unfold is_u32. rewrite s32_eq. unfold u32. intros. Z.to_euclidean_division_equations; lia. Qed.

Lemma s32_u32 x : -2147483648 <= x < 2147483648 -> s32 (u32 x) = x.
Proof. rewrite s32_eq. unfold u32. intros. Z.to_euclidean_division_equations; lia. Qed.

Lemma s32_is x k : is_u32 x -> -2147483648 <= k < 2147483648 -> (s32 x =? k) = (x =? u32 k).
Proof.
  intros H Hk. destruct (Z.eqb_spec x (u32 k)) as [->|Hn]; [rewrite s32_u32 by exact Hk; apply Z.eqb_refl|].
  apply Z.eqb_neq. intros <-. apply Hn. symmetry. apply u32_s32_id, H.
Qed.

Lemma ldiff_not a b : is_u32 a -> a &! not32 b = Z.ldiff a (u32 b).
Proof.
  intros H. apply Z.bits_inj'. intros i Hi. unfold not32. rewrite Z.land_spec, Z.lxor_spec, Z.ldiff_spec.
  destruct (Z.lt_ge_cases i 32).
  - change (2 ^ 32 - 1) with (Z.ones 32). rewrite Z.ones_spec_low by lia. rewrite xorb_true_r. reflexivity.
  - rewrite (is_u32_testbit_high a) by assumption. reflexivity.
Qed.

(** ** Fields of an encoding *)

Lemma funct7_high i : is_u32 i -> Z.shiftr i 25 = rv_funct7 i.
Proof.
  intros [H0 H1]. unfold rv_funct7. change 127 with (Z.ones 7). rewrite Z.land_ones, Z.shiftr_div_pow2 by lia.
  symmetry. apply Z.mod_small. Z.to_euclidean_division_equations; lia.
Qed.

Lemma land_low_bits x k : 0 <= k -> 0 <= x &! Z.ones k < 2 ^ k.
Proof. intros Hk. rewrite Z.land_ones by exact Hk. apply Z.mod_pos_bound. lia. Qed.

Lemma land_31_31 x : x &! 31 &! 31 = x &! 31.
Proof. rewrite <- Z.land_assoc. reflexivity. Qed.

Lemma land_31_id x : 0 <= x < 32 -> x &! 31 = x.
Proof. intros H. change 31 with (Z.ones 5). rewrite Z.land_ones by lia. apply Z.mod_small. lia. Qed.

Lemma rs2_reg i : 0 <= rv_rs2 i < 32.
Proof. exact (land_low_bits (Z.shiftr i 20) 5 ltac:(lia)). Qed.

Lemma imm_i_range i : -2048 <= rv_imm_i i < 2048.
Proof. unfold rv_imm_i. rewrite Z.shiftr_div_pow2, s32_eq by lia. Z.to_euclidean_division_equations; lia. Qed.

Lemma opcode_of i op : i &! 127 = op -> Z.shiftr i 2 &! 31 = Z.shiftr op 2.
Proof.
  intros <-. apply Z.bits_inj'. intros k Hk. rewrite Z.land_spec, !Z.shiftr_spec, Z.land_spec by exact Hk. f_equal.
  destruct (Z.lt_ge_cases k 5).
  - change 31 with (Z.ones 5). change 127 with (Z.ones 7). rewrite !Z.ones_spec_low by lia. reflexivity.
  - change 31 with (Z.ones 5). change 127 with (Z.ones 7). rewrite !Z.ones_spec_high by lia. reflexivity.
Qed.

(** ** Rotation *)

Lemma rori_value a n : 0 <= n < 32 -> rotl32 a (u32 (32 - n) &! 31 &! 31) = zbb_ror a n.
Proof.
  intros H. rewrite land_31_31. unfold rotl32, zbb_ror. rewrite (land_31_id n) by exact H.
  destruct (Z.eqb_spec n 0) as [->|Hn]; [reflexivity|]. rewrite u32_id, land_31_id by (unfold is_u32; lia).
  rewrite (proj2 (Z.eqb_neq _ _)) by lia. replace (32 - (32 - n)) with n by lia. apply Z.lor_comm.
Qed.

(** ** Products *)

Lemma mulhs_value a b : u32 (Z.shiftr (u64 (s32 a * s32 b)) 32) = mulh_ss a b.
Proof.
  unfold mulh_ss, u32, u64. rewrite !Z.shiftr_div_pow2 by lia. generalize (s32 a * s32 b). intros x.
  Z.to_euclidean_division_equations; lia.
Qed.

(** ** Quotients *)

Definition divrem_op (sgn rem : bool) : emu_ir_op :=
  if rem then (if sgn then EMU_IR_REMS else EMU_IR_REMU) else (if sgn then EMU_IR_DIVS else EMU_IR_DIVU).

(** What [rv_ir_lower_divrem] computes, temp by temp. *)
Definition cc (b : bool) : Z := if b then 1 else 0.
Definition lowered_div (sgn rem : bool) (x y : Z) : Z :=
  let val o a b := u32 (value o 0 a b 0) in
  let z := cc (y =? 0) in
  let sel := if sgn then val EMU_IR_OR z (val EMU_IR_AND (cc (x =? 2147483648)) (cc (y =? 4294967295))) else z in
  let safe := val EMU_IR_OR (val EMU_IR_AND y (val EMU_IR_XOR (val EMU_IR_SUB 0 sel) 4294967295)) sel in
  let q := val (divrem_op sgn rem) x safe in
  let zmask := val EMU_IR_SUB 0 z in
  if rem then val EMU_IR_OR (val EMU_IR_AND x zmask) (val EMU_IR_AND q (val EMU_IR_XOR zmask 4294967295))
  else val EMU_IR_OR q zmask.

(** The divisor is made 1 where the hardware's quotient is not RISC-V's. *)
Lemma lowered_div_sel sgn rem x y (s z : bool) : is_u32 x -> is_u32 y -> z = (y =? 0) ->
  s = z || (sgn && (x =? 2147483648) && (y =? 4294967295)) ->
  lowered_div sgn rem x y =
    let q := u32 (value (divrem_op sgn rem) 0 x (if s then 1 else y) 0) in
    if rem then (if z then x else q) else (if z then 4294967295 else q).
Proof.
  intros Hx Hy Hz Hs. unfold lowered_div. cbv zeta. rewrite <- Hz.
  assert (Es : (if sgn then u32 (value EMU_IR_OR 0 (cc z) (u32 (value EMU_IR_AND 0 (cc (x =? 2147483648)) (cc (y =? 4294967295)) 0)) 0) else cc z) = cc s).
  { subst s. destruct sgn, z, (x =? 2147483648), (y =? 4294967295); reflexivity. }
  rewrite Es. assert (Ey : u32 (value EMU_IR_OR 0 (u32 (value EMU_IR_AND 0 y (u32 (value EMU_IR_XOR 0 (u32 (value EMU_IR_SUB 0 0 (cc s) 0)) 4294967295 0)) 0)) (cc s) 0)
    = if s then 1 else y).
  { destruct s.
    - change (u32 (value EMU_IR_XOR 0 (u32 (value EMU_IR_SUB 0 0 (cc true) 0)) 4294967295 0)) with 0. cbn [value eval_alu]. rewrite Z.land_0_r. reflexivity.
    - change (u32 (value EMU_IR_XOR 0 (u32 (value EMU_IR_SUB 0 0 (cc false) 0)) 4294967295 0)) with 4294967295. cbn [value eval_alu cc].
      rewrite land_ones32, Z.lor_0_r, !u32_id by (rewrite ?u32_id; assumption). reflexivity. }
  rewrite Ey. set (q := u32 (value (divrem_op sgn rem) 0 x (if s then 1 else y) 0)). pose proof (u32_range (value (divrem_op sgn rem) 0 x (if s then 1 else y) 0)) as Hq.
  fold q in Hq. clearbody q. clear Es Ey Hs. destruct rem, z; cbn [cc].
  - change (u32 (value EMU_IR_SUB 0 0 1 0)) with 4294967295. cbn [value eval_alu]. change (u32 (4294967295 ^! 4294967295)) with 0.
    rewrite Z.land_0_r, land_ones32, Z.lor_0_r, !u32_id by (rewrite ?u32_id; assumption). reflexivity.
  - change (u32 (value EMU_IR_SUB 0 0 0 0)) with 0. cbn [value eval_alu]. change (u32 (0 ^! 4294967295)) with 4294967295.
    rewrite Z.land_0_r, land_ones32, Z.lor_0_l, !u32_id by (rewrite ?u32_id; assumption). reflexivity.
  - change (u32 (value EMU_IR_SUB 0 0 1 0)) with 4294967295. cbn [value eval_alu]. rewrite lor_ones32 by exact Hq. reflexivity.
  - change (u32 (value EMU_IR_SUB 0 0 0 0)) with 0. cbn [value eval_alu]. rewrite Z.lor_0_r. apply u32_id, Hq.
Qed.

Lemma div_one x : Z.quot x 1 = x /\ Z.rem x 1 = 0.
Proof. split; [apply Z.quot_1_r|apply Z.rem_1_r]. Qed.

Lemma lowered_div_value x y : is_u32 x -> is_u32 y ->
  lowered_div true false x y = rv_div_s (s32 x) (s32 y) /\ lowered_div false false x y = rv_div_u x y /\
  lowered_div true true x y = rv_rem_s (s32 x) (s32 y) /\ lowered_div false true x y = rv_rem_u x y.
Proof.
  intros Hx Hy. rewrite !(lowered_div_sel _ _ x y _ _ Hx Hy eq_refl eq_refl). cbv zeta. cbn [andb value divrem_op eval_alu].
  unfold rv_div_s, rv_rem_s, rv_div_u, rv_rem_u, INT32_MIN. rewrite !s32_is by (assumption || lia).
  change (u32 0) with 0. change (u32 (-2147483648)) with 2147483648. change (u32 (-1)) with 4294967295. rewrite orb_false_r.
  destruct (Z.eqb_spec y 0) as [->|Hy0]; cbn [orb].
  { rewrite u32_s32_id by exact Hx. auto. }
  assert (Hu : is_u32 (x / y) /\ is_u32 (x mod y)).
  { unfold is_u32 in *. pose proof (Z.mod_pos_bound x y). pose proof (Z.div_pos x y). pose proof (Z.div_le_upper_bound x y x). nia. }
  destruct ((x =? 2147483648) && (y =? 4294967295)) eqn:Ho; cbn [orb andb].
  - apply andb_true_iff in Ho as [Ex%Z.eqb_eq Ey%Z.eqb_eq]. subst x y. repeat split; reflexivity.
  - rewrite (proj2 (Z.eqb_neq y 0)), !Ho by exact Hy0. cbn [orb]. rewrite !u32_u32, (u32_id (x / y)), (u32_id (x mod y)) by tauto. auto.
Qed.

(** ** Even addresses *)

Definition even (x : Z) : Prop := Z.odd x = false.

Lemma odd_u32 x : Z.odd (u32 x) = Z.odd x.
Proof. rewrite <- !Z.bit0_odd. rewrite u32_testbit by lia. reflexivity. Qed.

Lemma even_add a b : even a -> even b -> even (a +! b).
Proof. unfold even. rewrite odd_u32, Z.odd_add. intros -> ->. reflexivity. Qed.

Lemma even_target x : even x -> misaligned_target x = false.
Proof.
  unfold even, misaligned_target, has. rewrite <- Z.bit0_odd. intros E. apply negb_false_iff, Z.eqb_eq, Z.bits_inj'. intros i Hi.
  rewrite Z.land_spec, Z.bits_0. destruct (Z.eq_dec i 0) as [->|Hn]; [rewrite E; reflexivity|].
  change 1 with (Z.ones 1). rewrite Z.ones_spec_high by lia. apply andb_false_r.
Qed.

Lemma s32_low x i : 0 <= i < 32 -> Z.testbit (s32 x) i = Z.testbit x i.
Proof.
  intros Hi. assert (E : s32 x mod 2 ^ 32 = x mod 2 ^ 32) by (rewrite s32_eq; Z.to_euclidean_division_equations; lia).
  rewrite <- (Z.mod_pow2_bits_low (s32 x) 32), <- (Z.mod_pow2_bits_low x 32) by lia. rewrite E. reflexivity.
Qed.

Lemma sext_even v k : 0 < k <= 32 -> even v -> even (emu_sext v k).
Proof.
  unfold even, emu_sext. rewrite <- !Z.bit0_odd. intros Hk Hv. rewrite Z.shiftr_spec, s32_low, u32_testbit, Z.shiftl_spec by lia.
  replace (0 + (32 - k) - (32 - k)) with 0 by lia. rewrite Hv. apply andb_false_r.
Qed.

Lemma imm_even i : even (rv_imm_b i) /\ even (rv_imm_j i).
Proof.
  split; apply sext_even; try lia; unfold even; rewrite <- Z.bit0_odd, !Z.lor_spec, !Z.land_spec; cbn [Z.testbit]; rewrite !andb_false_r; reflexivity.
Qed.

(** JALR clears bit 0. *)
Lemma jalr_mask x : x &! not32 1 = Z.ldiff (x &! 4294967295) 1.
Proof.
  apply Z.bits_inj'. intros i Hi. change (not32 1) with 4294967294. rewrite Z.ldiff_spec, !Z.land_spec.
  change 4294967294 with (Z.ldiff 4294967295 1). rewrite Z.ldiff_spec, andb_assoc. reflexivity.
Qed.

Lemma ldiff_even x : even (Z.ldiff x 1).
Proof. unfold even. rewrite <- Z.bit0_odd, Z.ldiff_spec. apply andb_false_r. Qed.

(** ** Conditions *)

Lemma k_cond_taken f3 a b : 0 <= f3 < 8 -> (f3 =? 2) || (f3 =? 3) = false -> branch_taken f3 a b = Some (eval_value_cond a b (k_cond f3)).
Proof.
  intros Hf Hn. assert (f3 = 0 \/ f3 = 1 \/ f3 = 4 \/ f3 = 5 \/ f3 = 6 \/ f3 = 7) as [->|[->|[->|[->|[->| ->]]]]]; [|reflexivity..].
  apply orb_false_iff in Hn as [N3%Z.eqb_neq N6%Z.eqb_neq]. lia.
Qed.

(** * Lowering the integer computations

    LUI, AUIPC, OP-IMM and OP: the instructions a lowering appends write to
    [rd] what the interpreter writes there. *)

Create HintDb regs.
Lemma rd_reg i : reg (rv_rd i).
Proof. exact (land_low_bits (Z.shiftr i 7) 5 ltac:(lia)). Qed.
Lemma rs1_reg i : reg (rv_rs1 i).
Proof. exact (land_low_bits (Z.shiftr i 15) 5 ltac:(lia)). Qed.
Lemma rs2_is_reg i : reg (rv_rs2 i).
Proof. exact (rs2_reg i). Qed.
#[export] Hint Resolve rd_reg rs1_reg rs2_is_reg : regs.

Lemma land_31_nonneg x : 0 <= x &! 31.
Proof. apply (land_low_bits x 5). lia. Qed.
#[export] Hint Resolve land_31_nonneg : typed.

(** A hart between two instructions. *)
Record ready (h : rv_hart) : Prop := {
  rd_ctl : ctl h;
  rd_dat : dat h;
  rd_x0 : h_x h 0 = 0
}.

Lemma ready_x h r : ready h -> is_u32 (h_x h r).
Proof. intros R. apply R. Qed.
#[export] Hint Resolve ready_x : typed.

Lemma wr_ctl h rd v : ctl h -> ctl (wr h rd v).
Proof. intros C. unfold wr. set_ctl. Qed.
Lemma wr_dat h rd v : is_u32 v -> dat h -> dat (wr h rd v).
Proof. intros Hv D. unfold wr. set_dat. Qed.

Lemma ready_wr h rd v : is_u32 v -> ready h -> ready (wr h rd v).
Proof. intros Hv [C D H0]. split; [apply wr_ctl, C|apply wr_dat; assumption|reflexivity]. Qed.

Section Alu.
Context {ICfg : IrConfig} `{Cfg : RvConfig} {SF : SoftFloat} {Ext M : Type} `{PB : PhysBus Ext M} `{L : RvLayout}.
Variable pf : platform M.
Variable start : Z.
Variable can_lower : emu_ir_op -> Z -> bool.
#[local] Abbreviation cpu := (cpu_t M).
#[local] Abbreviation t := (rv_ir_target pf).
#[local] Abbreviation ok := (emit_ok pf).

Lemma at_cpu_of h m : ready h -> at_ (cpu_of h m : cpu) h m.
Proof. intros [C D _]. split; [apply hart_of_cpu_of; assumption|reflexivity]. Qed.

(** A lowering that declines, or that leaves [v] in [rd]. *)
Definition computes (h : rv_hart) (m : M) (rd : Z) (v : option Z) (n : Z) (mk : bool) (r : lowered) (s : xl) (x : st) : Prop :=
  r = Declined \/ exists w, v = Some w /\ wrote_x h m rd w n mk r s x.

Lemma computes_declined h m rd v n mk s x : wp t ok start decline s x (computes h m rd v n mk).
Proof. apply wp_done. left. reflexivity. Qed.

Lemma computes_wrote h m rd w n mk p s x : wp t ok start p s x (wrote_x h m rd w n mk) -> wp t ok start p s x (computes h m rd (Some w) n mk).
Proof. apply wp_mono. intros r s' x' H. right. eauto. Qed.

(** A call of a helper that cannot trap. *)
Lemma helper_call k f insn s tmp c n h m w mk : nth_error (rv_ir_helpers pf) (Z.to_nat k) = Some f -> is_u32 k -> is_u32 insn -> at_ c h m -> ready h -> is_u32 w ->
  xl_marked s = mk -> f c insn 0 = (0, cpu_of (put_x h (rv_rd insn) w) m) ->
  wp t ok start (c <- const insn ;; emit EMU_IR_HELPER 0 c EMU_IR_NO_TEMP k ;;; plain) s (Live tmp c n) (wrote_x h m (rv_rd insn) w n mk).
Proof.
  intros Hk Uk Ui Hc R Uw Hmk Hf. emit_one. emit_one. emit_one. eapply wp_emit; [exact Uk|apply opd_some; eassumption|apply opd_none|intros; eapply helper_ok; [exact Hk|exact Uk|reflexivity || auto]|].
  intros d0. change (step t start (new_insn EMU_IR_HELPER 0 d0 d EMU_IR_NO_TEMP k) c n insn 0 0) with
    (step_helper t (new_insn EMU_IR_HELPER 0 d0 d EMU_IR_NO_TEMP k) c n insn 0). unfold step_helper. change (helpers t) with (Some (rv_ir_helpers pf)). cbn [imm op new_insn].
  unfold cpu_t in *. rewrite Hk, Hf. change (op_eqb _ EMU_IR_HELPER_TRAP) with false. cbn [andb emitted].
  intros d1 s2 tmp2 _ Hm2 _. apply wp_done. split; [reflexivity|]. split; [congruence|]. do 2 eexists. split; [reflexivity|].
  rewrite put_x_wr by apply R. apply at_cpu_of, ready_wr; assumption.
Qed.

Lemma bitop_u32 insn a s : is_u32 a -> is_u32 s -> is_u32 (bitop_value insn a s).
Proof.
  intros Ha Hs. unfold bitop_value. pose proof (clmul_u32 a s) as (C1 & C2 & C3).
  repeat match goal with |- is_u32 (if ?b then _ else _) => destruct b end; auto using ror_u32, rol_u32, popcount_u32, orcb_u32; typed.
Qed.

Lemma bitop_call_ok insn s tmp c n h m mk : is_u32 insn -> at_ c h m -> ready h -> xl_marked s = mk ->
  wp t ok start (rv_ir_bitop_call insn) s (Live tmp c n) (wrote_x h m (rv_rd insn) (bitop_value insn (h_x h (rv_rs1 insn)) (h_x h (rv_rs2 insn))) n mk).
Proof.
  intros Ui Hc R Hmk. eapply helper_call; [reflexivity|typed|exact Ui|exact Hc|exact R|apply bitop_u32; typed|exact Hmk|].
  destruct Hc as [<- <-]. reflexivity.
Qed.

Lemma muldiv_call_ok insn s tmp c n h m mk : is_u32 insn -> rv_funct3 insn = 2 -> at_ c h m -> ready h -> xl_marked s = mk ->
  wp t ok start (muldiv_call insn) s (Live tmp c n) (wrote_x h m (rv_rd insn) (mulh_su (h_x h (rv_rs1 insn)) (h_x h (rv_rs2 insn))) n mk).
Proof.
  intros Ui E2 Hc R Hmk. eapply helper_call; [reflexivity|typed|exact Ui|exact Hc|exact R|unfold mulh_su; typed|exact Hmk|].
  destruct Hc as [<- <-]. unfold rv_ir_muldiv_helper. rewrite E2. reflexivity.
Qed.

(** ** OP-IMM *)

(** The end of a computation. *)
Ltac emit_all := repeat emit_one.
Ltac store_result := eapply wp_put; [solve [auto with regs]|eassumption|assumption|congruence|eassumption|try solve [typed]|].
Ltac result := store_result; [try solve [typed] ..|cbn [value eval_alu]].

(** Numerals and widths. *)
Ltac words := rewrite ?land_31_31; repeat (rewrite land_31_id by assumption); rewrite ?u32_u32;
  repeat (rewrite u32_id by typed); try reflexivity.

Lemma shift_left_imm_ok insn x s tmp c n h m mk : is_u32 insn -> rv_funct3 insn = 1 -> insn &! 127 = 19 -> at_ c h m -> ready h -> xl_marked s = mk ->
  holds s tmp x (h_x h (rv_rs1 insn)) ->
  wp t ok start (lower_shift_left_imm can_lower insn (rv_rd insn) x) s (Live tmp c n)
    (computes h m (rv_rd insn) (shift_left_imm insn (h_x h (rv_rs1 insn))) n mk).
Proof.
  intros Ui E1 Eo Hc R Hmk Hx. pose proof (rd_x0 _ R) as H0. pose proof (ready_x h (rv_rs1 insn) R) as Ua.
  unfold lower_shift_left_imm, shift_left_imm. rewrite funct7_high by exact Ui. fold (rv_rs2 insn). set (a := h_x h (rv_rs1 insn)) in *.
  pose proof (rs2_reg insn) as Hr2.
  destruct (rv_funct7 insn =? 0); [apply computes_wrote; emit_all; result; words|].
  destruct (rv_funct7 insn =? 48) eqn:E48.
  { destruct (rv_rs2 insn =? 0) eqn:F0; cbn [orb].
    { destruct (negb _); [apply computes_declined|]. apply computes_wrote. emit_all. result; words. }
    destruct (rv_rs2 insn =? 1) eqn:F1; cbn [orb].
    { destruct (negb _); [apply computes_declined|]. apply computes_wrote. emit_all. result; words. }
    destruct (rv_rs2 insn =? 2).
    { apply computes_wrote. eapply wp_mono; [|apply bitop_call_ok; eassumption]. intros r s' y. unfold bitop_value. rewrite Eo, E1. auto. }
    destruct (rv_rs2 insn =? 4); [apply computes_wrote; emit_all; result; words|].
    destruct (rv_rs2 insn =? 5); [apply computes_wrote; emit_all; result; words|apply computes_declined]. }
  destruct (rv_funct7 insn =? 20) eqn:E20; cbn [orb]; [apply computes_wrote; emit_all; result; words|].
  destruct (rv_funct7 insn =? 36) eqn:E36; cbn [orb].
  { apply computes_wrote; emit_all; result; words. rewrite ldiff_not, u32_u32 by exact Ua. reflexivity. }
  destruct (rv_funct7 insn =? 52); cbn [orb]; [apply computes_wrote; emit_all; result; words|apply computes_declined].
Qed.

Lemma shift_right_imm_ok insn x s tmp c n h m mk : is_u32 insn -> rv_funct3 insn = 5 -> insn &! 127 = 19 -> at_ c h m -> ready h -> xl_marked s = mk ->
  holds s tmp x (h_x h (rv_rs1 insn)) ->
  wp t ok start (lower_shift_right_imm insn (rv_rd insn) x) s (Live tmp c n)
    (computes h m (rv_rd insn) (shift_right_imm insn (h_x h (rv_rs1 insn))) n mk).
Proof.
  intros Ui E5 Eo Hc R Hmk Hx. pose proof (rd_x0 _ R) as H0. pose proof (ready_x h (rv_rs1 insn) R) as Ua.
  unfold lower_shift_right_imm, shift_right_imm. rewrite funct7_high by exact Ui. fold (rv_rs2 insn). set (a := h_x h (rv_rs1 insn)) in *.
  pose proof (rs2_reg insn) as Hr2. pose proof (ror_u32 a (rv_rs2 insn) Ua).
  destruct (rv_funct7 insn =? 0); [apply computes_wrote; emit_all; result; words|].
  destruct (rv_funct7 insn =? 32); [apply computes_wrote; emit_all; result; words|].
  destruct (rv_funct7 insn =? 48); [apply computes_wrote; emit_all; result; rewrite rori_value by exact Hr2; words|].
  destruct ((rv_funct7 insn =? 20) && (rv_rs2 insn =? 7)).
  { apply computes_wrote. eapply wp_mono; [|apply bitop_call_ok; eassumption]. intros r s' y. unfold bitop_value. rewrite Eo, E5. auto. }
  destruct ((rv_funct7 insn =? 52) && (rv_rs2 insn =? 24)); [apply computes_wrote; emit_all; result; words|].
  destruct (rv_funct7 insn =? 36); [apply computes_wrote; emit_all; result; words|apply computes_declined].
Qed.

Lemma funct3_cases i : rv_funct3 i = 0 \/ rv_funct3 i = 1 \/ rv_funct3 i = 2 \/ rv_funct3 i = 3 \/
  rv_funct3 i = 4 \/ rv_funct3 i = 5 \/ rv_funct3 i = 6 \/ rv_funct3 i = 7.
Proof. assert (H : 0 <= rv_funct3 i < 8) by exact (land_low_bits (Z.shiftr i 12) 3 ltac:(lia)). lia. Qed.

Lemma op_imm_ok insn s tmp c n h m mk : is_u32 insn -> insn &! 127 = 19 -> at_ c h m -> ready h -> xl_marked s = mk ->
  wp t ok start (lower_op_imm can_lower insn) s (Live tmp c n) (computes h m (rv_rd insn) (op_imm insn (h_x h (rv_rs1 insn))) n mk).
Proof.
  intros Ui Eo Hc R Hmk. pose proof (rd_x0 _ R) as H0. pose proof (ready_x h (rv_rs1 insn) R) as Ua.
  unfold lower_op_imm, op_imm. cbv zeta. emit_one. emit_one. set (a := h_x h (rv_rs1 insn)) in *. pose proof (imm_i_range insn).
  destruct (funct3_cases insn) as [E|[E|[E|[E|[E|[E|[E|E]]]]]]]; rewrite E; cbn [Z.eqb Pos.eqb].
  - apply computes_wrote. emit_all. result. words. apply u32_add_r.
  - apply shift_left_imm_ok; (assumption || congruence).
  - apply computes_wrote. emit_all. result. cbn [eval_value_cond cond_of C_LT]. rewrite s32_u32 by lia. reflexivity.
  - apply computes_wrote. emit_all. result. reflexivity.
  - apply computes_wrote. emit_all. result. words.
  - apply shift_right_imm_ok; (assumption || congruence).
  - apply computes_wrote. emit_all. result. words.
  - apply computes_wrote. emit_all. result. words.
Qed.

(** ** OP *)

Lemma divrem_ok f3 rd rs1 rs2 s tmp c n h m mk : 4 <= f3 < 8 -> reg rd -> reg rs1 -> reg rs2 -> at_ c h m -> ready h -> xl_marked s = mk ->
  wp t ok start (rv_ir_lower_divrem f3 rd rs1 rs2) s (Live tmp c n) (wrote_x h m rd (op_muldiv f3 (h_x h rs1) (h_x h rs2)) n mk).
Proof.
  intros Hf Hd H1 H2 Hc R Hmk. pose proof (rd_x0 _ R) as H0. pose proof (ready_x h rs1 R) as Ua. pose proof (ready_x h rs2 R) as Ub.
  destruct (lowered_div_value _ _ Ua Ub) as (D1 & D2 & D3 & D4). unfold rv_ir_lower_divrem.
  assert (f3 = 4 \/ f3 = 5 \/ f3 = 6 \/ f3 = 7) as [->|[->|[->| ->]]] by lia; cbn [Z.eqb Pos.eqb Z.leb Z.compare Pos.compare Pos.compare_cont orb].
  all: emit_all; store_result; [apply muldiv_u32; assumption|cbn [op_muldiv Z.eqb Pos.eqb]].
  all: first [rewrite <- D1|rewrite <- D2|rewrite <- D3|rewrite <- D4]; unfold lowered_div, divrem_op, cc, C_EQ; cbv beta zeta; cbn [eval_value_cond cond_of]; reflexivity.
Qed.

Lemma muldiv_ok insn s tmp c n h m mk : is_u32 insn -> at_ c h m -> ready h -> xl_marked s = mk ->
  wp t ok start (lower_muldiv insn) s (Live tmp c n)
    (wrote_x h m (rv_rd insn) (op_muldiv (rv_funct3 insn) (h_x h (rv_rs1 insn)) (h_x h (rv_rs2 insn))) n mk).
Proof.
  intros Ui Hc R Hmk. pose proof (rd_x0 _ R) as H0. pose proof (ready_x h (rv_rs1 insn) R) as Ua. pose proof (ready_x h (rv_rs2 insn) R) as Ub.
  unfold lower_muldiv. destruct (funct3_cases insn) as [E|[E|[E|[E|E']]]].
  5: { assert (4 <= rv_funct3 insn < 8) by lia. rewrite (proj2 (Z.eqb_neq _ 2)), (proj2 (Z.ltb_lt 3 _)) by lia. apply divrem_ok; auto with regs. }
  all: rewrite E; cbn [op_muldiv Z.eqb Pos.eqb Z.ltb Z.compare Pos.compare Pos.compare_cont]; unfold mulh_ss, mulh_uu.
  - emit_all. result. words.
  - emit_all. result. rewrite mulhs_value. unfold mulh_ss. words.
  - apply muldiv_call_ok; assumption.
  - emit_all. result. words.
Qed.

Lemma czero_value b a : is_u32 a -> u32 (a &! u32 (0 -! (if b : bool then 1 else 0))) = (if b then a else 0).
Proof.
  intros Ua. destruct b.
  - change (u32 (0 -! 1)) with 4294967295. rewrite land_ones32 by exact Ua. apply u32_id, Ua.
  - change (u32 (0 -! 0)) with 0. rewrite Z.land_0_r. reflexivity.
Qed.

Lemma czero_ok insn s tmp c n h m mk : rv_funct3 insn = 5 \/ rv_funct3 insn = 7 -> at_ c h m -> ready h -> xl_marked s = mk ->
  wp t ok start (lower_czero insn) s (Live tmp c n)
    (wrote_x h m (rv_rd insn) (if Bool.eqb (h_x h (rv_rs2 insn) =? 0) (rv_funct3 insn =? 5) then 0 else h_x h (rv_rs1 insn)) n mk).
Proof.
  intros E Hc R Hmk. pose proof (rd_x0 _ R) as H0. pose proof (ready_x h (rv_rs1 insn) R) as Ua.
  unfold lower_czero. destruct E as [-> | ->]; cbn [Z.eqb Pos.eqb]; emit_all; result; rewrite czero_value by exact Ua;
    cbn [eval_value_cond cond_of C_EQ C_NE]; destruct (_ =? 0); reflexivity.
Qed.

(** The encodings a helper computes. *)
Lemma bitop_reg insn a b : insn &! 127 = 51 ->
  (rv_funct7 insn = 5 /\ rv_funct3 insn <> 0) \/ (rv_funct7 insn = 48 /\ (rv_funct3 insn = 1 \/ rv_funct3 insn = 5)) ->
  op_reg insn a b = Some (bitop_value insn a b).
Proof.
  intros Eo H. unfold op_reg, bitop_value. rewrite Eo. cbn [Z.eqb Pos.eqb]. destruct H as [[-> N]|[-> [-> | ->]]]; cbn [Z.eqb Pos.eqb]; [|reflexivity..].
  unfold op_minmax. destruct (funct3_cases insn) as [E|[E|[E|[E|[E|[E|[E|E]]]]]]]; rewrite E in *; cbn [Z.eqb Pos.eqb]; [contradiction|reflexivity..].
Qed.

(** Setting, clearing, inverting and extracting a bit. *)
Lemma bit_reg_ok insn x y s tmp c n h m mk : (rv_funct7 insn = 20 \/ rv_funct7 insn = 52 \/ rv_funct7 insn = 36) -> is_u32 insn ->
  at_ c h m -> ready h -> xl_marked s = mk -> holds s tmp x (h_x h (rv_rs1 insn)) -> holds s tmp y (h_x h (rv_rs2 insn)) ->
  wp t ok start (lower_bitmanip insn x y) s (Live tmp c n)
    (computes h m (rv_rd insn) (op_reg insn (h_x h (rv_rs1 insn)) (h_x h (rv_rs2 insn))) n mk).
Proof.
  intros E7 Ui Hc R Hmk Hx Hy. pose proof (rd_x0 _ R) as H0. pose proof (ready_x h (rv_rs1 insn) R) as Ua. pose proof (ready_x h (rv_rs2 insn) R) as Ub.
  unfold lower_bitmanip, op_reg. rewrite funct7_high by exact Ui. set (a := h_x h (rv_rs1 insn)) in *. set (b := h_x h (rv_rs2 insn)) in *. clearbody a b.
  pose proof (funct3_cases insn) as F3. destruct E7 as [E7|[E7|E7]]; rewrite E7; cbn [Z.eqb Pos.eqb andb orb].
  - destruct (rv_funct3 insn =? 1); cbn [negb]; [|apply computes_declined]. apply computes_wrote; emit_all; result; words.
  - destruct (rv_funct3 insn =? 1); cbn [negb]; [|apply computes_declined]. apply computes_wrote; emit_all; result; words.
  - destruct F3 as [E|[E|[E|[E|[E|[E|[E|E]]]]]]]; rewrite E; cbn [Z.eqb Pos.eqb negb]; try apply computes_declined;
      apply computes_wrote; emit_all; result; words. rewrite ldiff_not, !u32_u32 by exact Ua. reflexivity.
Qed.

Lemma bitmanip_ok insn x y s tmp c n h m mk : is_u32 insn -> insn &! 127 = 51 ->
  rv_funct7 insn <> 0 -> rv_funct7 insn <> 32 -> rv_funct7 insn <> 1 -> at_ c h m -> ready h -> xl_marked s = mk ->
  holds s tmp x (h_x h (rv_rs1 insn)) -> holds s tmp y (h_x h (rv_rs2 insn)) ->
  wp t ok start (lower_bitmanip insn x y) s (Live tmp c n)
    (computes h m (rv_rd insn) (op_reg insn (h_x h (rv_rs1 insn)) (h_x h (rv_rs2 insn))) n mk).
Proof.
  intros Ui Eo N0 N32 N1 Hc R Hmk Hx Hy.
  destruct (decide (rv_funct7 insn = 20 \/ rv_funct7 insn = 52 \/ rv_funct7 insn = 36)) as [E7|N7]; [apply bit_reg_ok; assumption|].
  pose proof (rd_x0 _ R) as H0. pose proof (ready_x h (rv_rs1 insn) R) as Ua. pose proof (ready_x h (rv_rs2 insn) R) as Ub.
  pose proof (bitop_call_ok insn s tmp c n h m mk Ui Hc R Hmk) as HB. pose proof (bitop_reg insn (h_x h (rv_rs1 insn)) (h_x h (rv_rs2 insn)) Eo) as HR.
  unfold lower_bitmanip. rewrite funct7_high by exact Ui. set (a := h_x h (rv_rs1 insn)) in *. set (b := h_x h (rv_rs2 insn)) in *. clearbody a b.
  set (v := bitop_value insn a b) in *. clearbody v. pose proof (funct3_cases insn) as F3.
  destruct (Z.eqb_spec (rv_funct7 insn) 16) as [E7|N16].
  { unfold op_reg. rewrite E7. destruct F3 as [E|[E|[E|[E|[E|[E|[E|E]]]]]]]; rewrite E; cbn [Z.eqb Pos.eqb negb andb orb]; try apply computes_declined.
    all: apply computes_wrote; emit_all; result; words. }
  destruct (Z.eqb_spec (rv_funct7 insn) 5) as [E7|N5].
  { destruct (Z.eqb_spec (rv_funct3 insn) 0); [apply computes_declined|]. rewrite HR by auto. apply computes_wrote, HB. }
  destruct (Z.eqb_spec (rv_funct7 insn) 48) as [E7|N48].
  { destruct (Z.eqb_spec (rv_funct3 insn) 1); cbn [orb]; [rewrite HR by auto; apply computes_wrote, HB|].
    destruct (Z.eqb_spec (rv_funct3 insn) 5); [rewrite HR by auto; apply computes_wrote, HB|apply computes_declined]. }
  rewrite (proj2 (Z.eqb_neq (rv_funct7 insn) 20)), (proj2 (Z.eqb_neq (rv_funct7 insn) 52)), (proj2 (Z.eqb_neq (rv_funct7 insn) 36)) by tauto. cbn [orb].
  destruct (Z.eqb_spec (rv_funct7 insn) 4) as [E7|]; [|apply computes_declined]. unfold op_reg. rewrite E7. cbn [Z.eqb Pos.eqb andb].
  destruct (rv_funct3 insn =? 4); cbn [negb orb andb]; [|apply computes_declined]. destruct (rv_rs2 insn =? 0); cbn [negb]; [|apply computes_declined].
  apply computes_wrote; emit_all; result; words.
Qed.

Lemma op_ok insn s tmp c n h m mk : is_u32 insn -> insn &! 127 = 51 -> at_ c h m -> ready h -> xl_marked s = mk ->
  wp t ok start (lower_op insn) s (Live tmp c n)
    (computes h m (rv_rd insn) (op_reg insn (h_x h (rv_rs1 insn)) (h_x h (rv_rs2 insn))) n mk).
Proof.
  intros Ui Eo Hc R Hmk. pose proof (rd_x0 _ R) as H0. pose proof (ready_x h (rv_rs1 insn) R) as Ua. pose proof (ready_x h (rv_rs2 insn) R) as Ub.
  unfold lower_op. rewrite funct7_high by exact Ui. cbv zeta.
  destruct (Z.eqb_spec (rv_funct7 insn) 1) as [E1|N1].
  { unfold op_reg. rewrite E1. cbn [Z.eqb Pos.eqb andb]. apply computes_wrote, muldiv_ok; assumption. }
  destruct ((rv_funct7 insn =? 7) && ((rv_funct3 insn =? 5) || (rv_funct3 insn =? 7))) eqn:E7.
  { unfold op_reg. pose proof E7 as E. apply andb_true_iff in E as [E%Z.eqb_eq F]. rewrite E7, E. cbn [Z.eqb Pos.eqb andb].
    apply computes_wrote, czero_ok; auto. apply orb_true_iff in F as [F%Z.eqb_eq|F%Z.eqb_eq]; auto. }
  emit_one. emit_one. emit_one. emit_one.
  destruct (Z.eqb_spec (rv_funct7 insn) 0) as [E0|N0]; cbn [negb andb].
  { unfold op_reg. rewrite E0. cbn [Z.eqb Pos.eqb]. unfold op_base.
    destruct (funct3_cases insn) as [E|[E|[E|[E|[E|[E|[E|E]]]]]]]; rewrite E; cbn [Z.eqb Pos.eqb]; apply computes_wrote; emit_all; result; words. }
  destruct (Z.eqb_spec (rv_funct7 insn) 32) as [E32|N32]; cbn [negb].
  { unfold op_reg. rewrite E32. cbn [Z.eqb Pos.eqb]. unfold op_alt.
    destruct (funct3_cases insn) as [E|[E|[E|[E|[E|[E|[E|E]]]]]]]; rewrite E; cbn [Z.eqb Pos.eqb]; try apply computes_declined;
      apply computes_wrote; emit_all; result; words. }
  eapply bitmanip_ok; (eassumption || congruence).
Qed.

End Alu.
