(* ===== verification/RvIrLower.v ===== *)
(** * Lowering one instruction

    What [lower_one] appends does to the hart what [exec] does, instruction by
    instruction: an instruction that traps leaves the block with the trap
    taken and nothing counted, a jump or a taken branch leaves it with the
    instruction counted, and any other is followed by the next. *)

From stdpp Require Import base list gmap.
From Stdlib Require Import ZArith Lia FunctionalExtensionality.
From S2P Require Import Prelude Bus BusProps RvHart RvBus RvPmp RvTrig RvMmu RvAccess RvTrap RvCsr RvDecode RvAtomic RvFpu RvInterp RvFrame RvTrapProps RvTyped RvGuest IrTypes IrFloat IrInterp IrPasses IrSem IrSubst IrLaws IrBuilder RvIr RvIrXlate RvIrCalm RvIrCpu RvIrSim RvIrRules RvIrAlu.

Open Scope Z_scope.
Open Scope u32_scope.
Open Scope build_scope.

(** Does control leave for somewhere else than the next instruction? *)
Definition leaves (h : rv_hart) (insn : Z) : bool :=
  let op := insn &! 127 in
  (op =? OP_JAL) || (op =? OP_JALR) ||
  ((op =? OP_BRANCH) && default false (branch_taken (rv_funct3 insn) (h_x h (rv_rs1 insn)) (h_x h (rv_rs2 insn)))).

(** A block is left for its own start only by a constant target. *)
Definition exit_kind (start insn next : Z) : ir_run :=
  if negb (insn &! 127 =? OP_JALR) && (next =? start) then IR_RUN_LOOP else IR_RUN_DONE.

Definition dirty (h : rv_hart) : Prop := h_mstatus h |! MSTATUS_FS_MASK = h_mstatus h.

Lemma calm_dirty h h' : calm h h' -> dirty h -> dirty h'.
Proof. intros (_ & _ & [E|[_ E]]); unfold dirty; rewrite E; [auto|]. intros _. apply lor_twice. Qed.

Lemma calm_off h h' : calm h h' -> fs_off h' = fs_off h.
Proof.
  intros (_ & _ & [E|[Eo E]]); unfold fs_off in *; rewrite E; [reflexivity|]. rewrite Eo. apply Z.eqb_neq. intros H.
  apply (f_equal (fun z => Z.testbit z 13)) in H. rewrite Z.land_spec, Z.lor_spec in H. change (Z.testbit MSTATUS_FS_MASK 13) with true in H.
  rewrite orb_true_r in H. discriminate H.
Qed.

Lemma wr_calm h rd v : h_x h 0 = 0 -> calm h (wr h rd v).
Proof. intros H0. rewrite <- put_x_wr by exact H0. apply put_x_calm. Qed.

Section Lower.
Context {ICfg : IrConfig} `{Cfg : RvConfig} {SF : SoftFloat} {ST : SoftFloatTyped SF} {Ext M : Type} `{PB : PhysBus Ext M} `{L : RvLayout}.
Variable Inv : M -> Prop.
Variable G : Z -> Z -> Prop.
Variable pf : platform M.
Hypothesis W : guest_world Inv G pf.
Variable start : Z.
Variable can_lower : emu_ir_op -> Z -> bool.
#[local] Abbreviation cpu := (cpu_t M).
#[local] Abbreviation t := (rv_ir_target pf).
#[local] Abbreviation ok := (emit_ok pf).
#[local] Abbreviation J := (J Inv G).

(** The block was left with a trap taken. *)
Definition trapped (h : rv_hart) (m : M) (cause tval n : Z) (x : st) : Prop :=
  exists c : cpu, x = Gone IR_RUN_DONE c n /\ at_ c (fst (rv_hart_trap h m cause tval)) (snd (rv_hart_trap h m cause tval)).

(** What a lowering owes: the same as [exec]. *)
Definition follows (h : rv_hart) (insn n next : Z) (o : insn_outcome M) (r : lowered) (s : xl) (x : st) : Prop :=
  match r with
  | Declined => True
  | Lowered ends counted =>
      match o with
      | Raise cause tval h' m' => ends = false /\ counted = false /\ calm h h' /\ trapped h' m' cause tval n x
      | Next nx _ h' m' =>
          calm h h' /\
          if leaves h insn
          then counted = true /\ exists c : cpu, x = Gone (exit_kind start insn nx) c (n +! 1) /\ at_ c (h' <| h_pc := nx |>) m'
          else nx = next /\ ends = false /\ (xl_marked s = true -> dirty h') /\
               exists tmp (c : cpu), x = Live tmp c (if counted then n +! 1 else n) /\ at_ c h' m'
      end
  end.

(** ** One instruction *)

Variables (h : rv_hart) (m : M) (insn : Z).
Hypothesis HC : ctl h.
Hypothesis HJ : J m h.
Hypothesis H0 : h_x h 0 = 0.
Hypothesis Upc : is_u32 (h_pc h).
Hypothesis Ui : is_u32 insn.

Lemma h_ready : ready h.
Proof. split; [exact HC|eapply J_dat, HJ|exact H0]. Qed.

Lemma follows_trap next e tv h1 m1 (c : cpu) n s : calm h h1 ->
  at_ c (fst (rv_hart_trap h1 m1 e tv)) (snd (rv_hart_trap h1 m1 e tv)) ->
  follows h insn n next (Raise e tv h1 m1) (Lowered false false) s (Gone IR_RUN_DONE c n).
Proof. intros Hc Ha. split; [reflexivity|]. split; [reflexivity|]. split; [exact Hc|]. eexists. split; [reflexivity|exact Ha]. Qed.

Lemma follows_next next ctr h1 m1 tmp (c : cpu) n s : leaves h insn = false -> calm h h1 -> (xl_marked s = true -> dirty h) -> at_ c h1 m1 ->
  follows h insn n next (Next next ctr h1 m1) (Lowered false false) s (Live tmp c n).
Proof.
  intros Hl Hc Hd Ha. split; [exact Hc|]. rewrite Hl. split; [reflexivity|]. split; [reflexivity|]. split; [|eauto].
  intros Hk. apply (calm_dirty h); auto.
Qed.

Lemma wrote_follows next rd v n mk r s x : leaves h insn = false -> (mk = true -> dirty h) ->
  wrote_x h m rd v n mk r s x -> follows h insn n next (Next next 0 (wr h rd v) m) r s x.
Proof.
  intros Hl Hd (-> & <- & tmp & c & -> & Hc). apply follows_next; [exact Hl|apply wr_calm, H0|exact Hd|exact Hc].
Qed.

Lemma computes_follows next rd v n mk r s x : leaves h insn = false -> (mk = true -> dirty h) -> rd = rv_rd insn ->
  computes h m rd v n mk r s x -> follows h insn n next (exec_alu h m insn next v) r s x.
Proof. intros Hl Hd -> [->|(w & -> & Hw)]; [exact I|]. cbn [exec_alu]. eapply wrote_follows; eassumption. Qed.

(** ** Memory *)

Lemma mem_size sz sg : access_size sz -> EMU_IR_MEM_SIZE (EMU_IR_MEM_AUX sz sg) = sz /\ has (EMU_IR_MEM_AUX sz sg) EMU_IR_MEM_SIGNED = sg.
Proof. intros [-> |[-> | ->]]; destruct sg; split; reflexivity. Qed.

(** A hart and a machine that an access left. *)
Lemma at_left h1 m1 : ctl h1 -> J m1 h1 -> at_ (cpu_of h1 m1 : cpu) h1 m1.
Proof. intros C1 J1. split; [apply hart_of_cpu_of; [exact C1|eapply J_dat, J1]|reflexivity]. Qed.

Lemma ir_trap_left h1 m1 e tv r c : ctl h1 -> J m1 h1 -> is_u32 e -> is_u32 tv -> ir_trap h1 m1 e tv = (r, c) ->
  r = 1 /\ at_ (c : cpu) (fst (rv_hart_trap h1 m1 e tv)) (snd (rv_hart_trap h1 m1 e tv)).
Proof.
  intros C1 J1 He Ht. unfold ir_trap. destruct (rv_hart_trap h1 m1 e tv) as [h2 m2] eqn:E. intros [= <- <-].
  split; [reflexivity|]. destruct (trap_J _ _ _ W _ _ _ _ _ _ E He Ht C1 J1) as [C2 J2]. apply at_left; assumption.
Qed.

(** What an access leaves. *)
Record left (h1 : rv_hart) (m1 : M) (e : Z) : Prop := {
  lf_ctl : ctl h1;
  lf_J : J m1 h1;
  lf_exc : is_u32 e
}.

Lemma load_left a sz sg e v h1 m1 : rv_hart_load h m a sz sg = (e, v, h1, m1) -> is_u32 a -> access_size sz ->
  left h1 m1 e /\ word_opt v /\ at_rest h h1.
Proof.
  intros E Ha Hs. destruct (load_J _ _ _ W _ _ _ _ _ _ _ _ _ E Ha Hs HJ) as (J1 & He & Hv).
  split; [|split; [exact Hv|eapply load_rest, E]]. split; [eapply frame_ctl; [eapply load_frame, E|exact HC]|exact J1|exact He].
Qed.

Lemma store_left a sz val e h1 m1 : rv_hart_store h m a sz val = (e, h1, m1) -> is_u32 a -> access_size sz -> is_u32 val ->
  left h1 m1 e /\ at_rest h h1.
Proof.
  intros E Ha Hs Hv. destruct (store_J _ _ _ W _ _ _ _ _ _ _ _ E Ha Hs Hv HJ) as (J1 & He).
  split; [|eapply store_rest, E]. split; [eapply frame_ctl; [eapply store_frame, E|exact HC]|exact J1|exact He].
Qed.

Lemma wp_load_mem sz sg a im s tmp (c : cpu) n va e v h1 m1 (Q : Z -> xl -> st -> Prop) :
  rv_hart_load h m (va +! im) sz sg = (e, v, h1, m1) -> access_size sz -> is_u32 im -> holds s tmp a va -> at_ c h m ->
  (e <> RV_EXC_NONE -> forall d s' c', defined s' d -> at_ (c' : cpu) (fst (rv_hart_trap h1 m1 e (va +! im))) (snd (rv_hart_trap h1 m1 e (va +! im))) ->
     xl_marked s' = xl_marked s -> Q d s' (Gone IR_RUN_DONE c' n)) ->
  (e = RV_EXC_NONE -> forall d s' tmp' c', later s tmp s' tmp' -> xl_marked s' = xl_marked s -> holds s' tmp' d (default 0 v) ->
     at_ (c' : cpu) h1 m1 -> Q d s' (Live tmp' c' n)) ->
  wp t ok start (emit EMU_IR_LOAD (EMU_IR_MEM_AUX sz sg) a EMU_IR_NO_TEMP im) s (Live tmp c n) Q.
Proof.
  intros El Hs Hi Ha [Eh Em] KT KF. destruct (load_left _ _ _ _ _ _ _ El (u32_range _) Hs) as ([C1 J1 He] & Hv & _).
  eapply wp_emit; [exact Hi|apply opd_some, Ha|apply opd_none|reflexivity|]. intros d0. cbn [step op new_insn]. unfold step_load. cbn [opc imm aux new_insn].
  rewrite Z.eqb_refl. cbn [negb andb]. change (t_load t) with (Some rv_ir_load). cbv beta iota. unfold rv_ir_load.
  destruct (mem_size sz sg Hs) as [-> ->]. rewrite Eh, Em, El. destruct (Z.eqb_spec e RV_EXC_NONE) as [En|Nn]; cbn [negb].
  - cbn [emitted]. intros d s' tmp' Hl Hm Hd. apply (KF En); [exact Hl|exact Hm| |apply at_left; assumption].
    rewrite u32_id in Hd by (apply default_word, Hv). exact Hd.
  - destruct (ir_trap h1 m1 e (va +! im)) as [r c1] eqn:Et. destruct (ir_trap_left _ _ _ _ _ _ C1 J1 He (u32_range _) Et) as [-> Hc1].
    cbn [Z.eqb negb emitted]. intros d s' _ Hm Hd. apply (KT Nn); auto.
Qed.

Lemma wp_store_mem sz a b im s tmp (c : cpu) n va vb e h1 m1 (Q : Z -> xl -> st -> Prop) :
  rv_hart_store h m (va +! im) sz vb = (e, h1, m1) -> access_size sz -> is_u32 im -> is_u32 vb -> holds s tmp a va -> holds s tmp b vb -> at_ c h m ->
  (e <> RV_EXC_NONE -> forall d s' c', at_ (c' : cpu) (fst (rv_hart_trap h1 m1 e (va +! im))) (snd (rv_hart_trap h1 m1 e (va +! im))) ->
     xl_marked s' = xl_marked s -> Q d s' (Gone IR_RUN_DONE c' n)) ->
  (e = RV_EXC_NONE -> forall d s' tmp' c', xl_marked s' = xl_marked s -> at_ (c' : cpu) h1 m1 -> Q d s' (Live tmp' c' n)) ->
  wp t ok start (emit EMU_IR_STORE (EMU_IR_MEM_AUX sz false) a b im) s (Live tmp c n) Q.
Proof.
  intros El Hs Hi Ub Ha Hb [Eh Em] KT KF. destruct (store_left _ _ _ _ _ _ El (u32_range _) Hs Ub) as ([C1 J1 He] & _).
  eapply wp_emit; [exact Hi|apply opd_some, Ha|apply opd_some, Hb|reflexivity|]. intros d0. cbn [step op new_insn]. unfold step_store. cbn [opc imm aux new_insn].
  rewrite Z.eqb_refl. cbn [negb andb]. change (t_store t) with (Some rv_ir_store). cbv beta iota. unfold rv_ir_store.
  destruct (mem_size sz false Hs) as [-> _]. rewrite Eh, Em, El. destruct (Z.eqb_spec e RV_EXC_NONE) as [En|Nn]; cbn [negb].
  - cbn [emitted]. intros d s' tmp' Hl Hm. apply (KF En); [exact Hm|apply at_left; assumption].
  - destruct (ir_trap h1 m1 e (va +! im)) as [r c1] eqn:Et. destruct (ir_trap_left _ _ _ _ _ _ C1 J1 He (u32_range _) Et) as [-> Hc1].
    cbn [Z.eqb negb emitted]. intros d s' _ Hm _. apply (KT Nn); auto.
Qed.

(** A call of a helper that may trap: what it calls answers an exception. *)
Lemma trap_call_ok k f s tmp (c : cpu) n e tv h1 m1 (Q : lowered -> xl -> st -> Prop) :
  nth_error (rv_ir_helpers pf) (Z.to_nat k) = Some f -> is_u32 k -> at_ c h m -> left h1 m1 e -> is_u32 tv ->
  (forall c' : cpu, at_ c' h m -> f c' insn 0 = if e =? RV_EXC_NONE then (0, cpu_of h1 m1) else ir_trap h1 m1 e tv) ->
  (e <> RV_EXC_NONE -> forall s' x, xl_marked s' = xl_marked s -> trapped h1 m1 e tv n x -> Q (Lowered false false) s' x) ->
  (e = RV_EXC_NONE -> forall s' tmp' c', xl_marked s' = xl_marked s -> at_ (c' : cpu) h1 m1 -> Q (Lowered false false) s' (Live tmp' c' n)) ->
  wp t ok start (trap_call (h_pc h) insn k) s (Live tmp c n) Q.
Proof.
  intros Hk Uk Hc [C1 J1 He] Ut Hf KT KF. unfold trap_call. emit_one. eapply wp_setpc_same; [exact Upc|exact Hc|]. intros d s1 tmp1 c1 _ Hm1 Hc1.
  emit_one. emit_one. emit_one. eapply wp_emit; [exact Uk|apply opd_some; eassumption|apply opd_none|intros; eapply helper_ok; [exact Hk|exact Uk|reflexivity || auto]|]. intros d1. cbn [step op new_insn].
  unfold step_helper. change (helpers t) with (Some (rv_ir_helpers pf)). cbn [imm op new_insn]. unfold cpu_t in *. rewrite Hk, (Hf _ Hc1).
  change (op_eqb _ EMU_IR_HELPER_TRAP) with true. destruct (Z.eqb_spec e RV_EXC_NONE) as [En|Nn].
  - cbn [andb Z.eqb negb emitted]. intros d2 s2 tmp2 _ Hm2 _. apply wp_done, (KF En); [congruence|apply at_left; assumption].
  - destruct (ir_trap h1 m1 e tv) as [r c2] eqn:Et. destruct (ir_trap_left _ _ _ _ _ _ C1 J1 He Ut Et) as [-> Hc2].
    cbn [andb Z.eqb negb emitted]. intros d2 s2 _ Hm2 _. apply wp_done, (KT Nn); [congruence|]. eexists. split; [reflexivity|exact Hc2].
Qed.

(** The block grows after the pass has left it. *)
Lemma wp_put_gone r v s w (c : cpu) n (Q : lowered -> xl -> st -> Prop) : reg r -> defined s v ->
  (forall s', xl_marked s' = xl_marked s -> Q (Lowered false false) s' (Gone w c n)) -> wp t ok start (put r v) s (Gone w c n) Q.
Proof.
  intros Hr Hd HQ. apply wp_bind; [walk|]. apply wp_emit_gone; [apply reg_u32, Hr|right; apply Hd|left; reflexivity|intros; apply put_ok; [unfold reg in Hr; lia|apply Hd]|].
  intros d s' _ Hm _. apply wp_done, HQ, Hm.
Qed.

Lemma lw_sign a : rv_hart_load h m a 4 true = rv_hart_load h m a 4 false.
Proof. reflexivity. Qed.

(** The access of an encoding. *)
Lemma load_spec f3 : 0 <= f3 < 8 -> (f3 =? 3) || (6 <=? f3) = false ->
  exists sz sg sg', load_kind f3 = Some (sz, sg) /\ access_size sz /\ 1 <<! (f3 &! 3) = sz /\ (f3 &! 4 =? 0) = sg' /\
    forall a, rv_hart_load h m a sz sg' = rv_hart_load h m a sz sg.
Proof.
  intros Hf Hn. assert (f3 = 0 \/ f3 = 1 \/ f3 = 2 \/ f3 = 4 \/ f3 = 5) as [->|[->|[->|[->| ->]]]].
  { apply orb_false_iff in Hn as [N3%Z.eqb_neq N6%Z.leb_gt]. lia. }
  all: do 3 eexists; split; [reflexivity|]; split; [unfold access_size; auto|]; split; [reflexivity|]; split; [reflexivity|]; intros a; first [reflexivity|apply lw_sign].
Qed.

Lemma funct3_range i : 0 <= rv_funct3 i < 8.
Proof. exact (land_low_bits (Z.shiftr i 12) 3 ltac:(lia)). Qed.

Lemma lower_load_ok s tmp (c : cpu) n next : leaves h insn = false -> at_ c h m -> (xl_marked s = true -> dirty h) ->
  wp t ok start (lower_load insn (h_pc h)) s (Live tmp c n) (follows h insn n next (exec_load h m next insn)).
Proof.
  intros Hl Hc Hd. unfold lower_load, exec_load. destruct (_ || _) eqn:E3; [apply wp_done; exact I|].
  destruct (load_spec _ (funct3_range insn) E3) as (sz & sg & sg' & -> & Hs & -> & -> & Hsg).
  emit_one. eapply wp_setpc_same; [exact Upc|exact Hc|]. intros d1 s1 tmp1 c1 _ Hm1 Hc1. emit_one. emit_one. emit_one.
  destruct (rv_hart_load h m (h_x h (rv_rs1 insn) +! rv_imm_i insn) sz sg) as [[[e v] h1] m1] eqn:El.
  destruct (load_left _ _ _ _ _ _ _ El (u32_range _) Hs) as ([C1 J1 He] & Hv & Hr).
  pose proof (calm_rest _ _ Hr) as Hcalm. assert (E0 : h_x h1 0 = 0) by (destruct Hr as (_ & -> & _); exact H0).
  rewrite <- Hsg, <- u32_add_r in El. eapply wp_load_mem; [exact El|exact Hs|apply u32_range|eassumption|exact Hc1|..].
  - intros Ne d2 s2 c2 Hd2 Hc2 Hm2. rewrite u32_add_r in Hc2. apply wp_put_gone; [auto with regs|exact Hd2|]. intros s3 Hm3.
    rewrite (proj2 (Z.eqb_neq _ _)) by exact Ne. apply follows_trap; assumption.
  - intros -> d2 s2 tmp2 c2 _ Hm2 Hd2 Hc2. cbn [negb Z.eqb]. eapply wp_mono; [|eapply wp_put; [auto with regs|exact Hc2|exact E0|reflexivity|exact Hd2|apply default_word, Hv|reflexivity]].
    intros r s3 x (-> & Hm3 & tmp3 & c3 & -> & Hc3). apply follows_next; [exact Hl| | |exact Hc3].
    + eapply rest_calm_trans; [exact Hr|apply wr_calm, E0].
    + intros Hk. apply Hd. congruence.
Qed.

Lemma store_spec f3 : 0 <= f3 < 8 -> (2 <? f3) = false -> exists sz, store_size f3 = Some sz /\ access_size sz /\ 1 <<! (f3 &! 3) = sz.
Proof.
  intros Hf Hn%Z.ltb_ge. assert (f3 = 0 \/ f3 = 1 \/ f3 = 2) as [->|[->| ->]] by lia; eexists; (split; [reflexivity|]); split; unfold access_size; auto.
Qed.

Lemma store_ok s tmp (c : cpu) n next : leaves h insn = false -> at_ c h m -> (xl_marked s = true -> dirty h) ->
  wp t ok start (lower_store insn (h_pc h)) s (Live tmp c n) (follows h insn n next (exec_store h m next insn)).
Proof.
  intros Hl Hc Hd. unfold lower_store, exec_store. destruct (2 <? _) eqn:E3; [apply wp_done; exact I|].
  destruct (store_spec _ (funct3_range insn) E3) as (sz & -> & Hs & ->). pose proof (ready_x h (rv_rs2 insn) h_ready) as U2.
  emit_one. eapply wp_setpc_same; [exact Upc|exact Hc|]. intros d1 s1 tmp1 c1 _ Hm1 Hc1. emit_one. emit_one. emit_one. emit_one. emit_one.
  destruct (rv_hart_store h m (h_x h (rv_rs1 insn) +! rv_imm_s insn) sz (h_x h (rv_rs2 insn))) as [[e h1] m1] eqn:El.
  destruct (store_left _ _ _ _ _ _ El (u32_range _) Hs U2) as ([C1 J1 He] & Hr). pose proof (calm_rest _ _ Hr) as Hcalm.
  rewrite <- u32_add_r in El. eapply wp_store_mem; [exact El|exact Hs|apply u32_range|exact U2|eassumption|eassumption|exact Hc1|..].
  - intros Ne d2 s2 c2 Hc2 Hm2. rewrite u32_add_r in Hc2. apply wp_done. rewrite (proj2 (Z.eqb_neq _ _)) by exact Ne. apply follows_trap; assumption.
  - intros -> d2 s2 tmp2 c2 Hm2 Hc2. apply wp_done. cbn [negb Z.eqb]. apply follows_next; [exact Hl|exact Hcalm| |exact Hc2].
    intros Hk. apply Hd. congruence.
Qed.

(** ** Calls that may trap *)

Lemma call_ok k f s tmp (c : cpu) n next e tv h1 m1 :
  nth_error (rv_ir_helpers pf) (Z.to_nat k) = Some f -> is_u32 k -> leaves h insn = false -> at_ c h m -> (xl_marked s = true -> dirty h) ->
  left h1 m1 e -> is_u32 tv -> calm h h1 ->
  (forall c' : cpu, at_ c' h m -> f c' insn 0 = if e =? RV_EXC_NONE then (0, cpu_of h1 m1) else ir_trap h1 m1 e tv) ->
  wp t ok start (trap_call (h_pc h) insn k) s (Live tmp c n) (follows h insn n next (exec_call next (e, tv, h1, m1))).
Proof.
  intros Hk Uk Hl Hc Hd Hf1 Ut Hcalm Hf. eapply trap_call_ok; [exact Hk|exact Uk|exact Hc|exact Hf1|exact Ut|exact Hf|..].
  - intros Ne s' x Hm (c1 & -> & Hc1). cbn [exec_call]. rewrite (proj2 (Z.eqb_neq _ _)) by exact Ne. apply follows_trap; assumption.
  - intros -> s' tmp' c1 Hm Hc1. cbn [exec_call negb Z.eqb]. apply follows_next; [exact Hl|exact Hcalm| |exact Hc1]. intros Hk'. apply Hd. congruence.
Qed.

Lemma amo_ok s tmp (c : cpu) n next : leaves h insn = false -> at_ c h m -> (xl_marked s = true -> dirty h) ->
  wp t ok start (trap_call (h_pc h) insn RV_IR_HELPER_AMO) s (Live tmp c n) (follows h insn n next (exec_call next (rv_hart_atomic h m insn))).
Proof.
  intros Hl Hc Hd. destruct (rv_hart_atomic h m insn) as [[[e tv] h1] m1] eqn:E.
  destruct (atomic_J _ _ _ W _ _ _ _ _ _ _ E Ui HJ) as (J1 & He & Ht).
  eapply call_ok; [reflexivity|typed|exact Hl|exact Hc|exact Hd| |exact Ht|eapply atomic_calm, E|].
  - split; [eapply frame_ctl; [eapply atomic_frame, E|exact HC]|exact J1|exact He].
  - intros c' [Eh Em]. unfold rv_ir_amo_helper. rewrite Eh, Em, E. destruct (e =? RV_EXC_NONE); reflexivity.
Qed.

Lemma fp_call_ok s tmp (c : cpu) n next : leaves h insn = false -> at_ c h m -> (xl_marked s = true -> dirty h) ->
  wp t ok start (rv_ir_fp_fallback (h_pc h) insn) s (Live tmp c n) (follows h insn n next (exec_call next (rv_hart_fp h m insn))).
Proof.
  intros Hl Hc Hd. destruct (rv_hart_fp h m insn) as [[[e tv] h1] m1] eqn:E.
  destruct (fp_J _ _ _ W _ _ _ _ _ _ _ E Ui HJ) as (J1 & He & Ht).
  eapply call_ok; [reflexivity|typed|exact Hl|exact Hc|exact Hd| |exact Ht|eapply fp_calm, E|].
  - split; [eapply frame_ctl; [eapply fp_frame, E|exact HC]|exact J1|exact He].
  - intros c' [Eh Em]. unfold rv_ir_fp_helper. rewrite Eh, Em, E. reflexivity.
Qed.

(** ** Reading [time] *)

Lemma csr_ok s tmp (c : cpu) n next : leaves h insn = false -> at_ c h m -> (xl_marked s = true -> dirty h) ->
  wp t ok start (lower_system insn (h_pc h)) s (Live tmp c n) (follows h insn n next (exec_system pf h m (h_pc h) next insn)).
Proof.
  intros Hl Hc Hd. unfold lower_system. destruct (_ || _) eqn:Er; [apply wp_done; exact I|]. apply orb_false_iff in Er as [Er _].
  apply negb_false_iff in Er.
  assert (F : rv_rs1 insn = 0 /\ (rv_funct3 insn = 2 \/ rv_funct3 insn = 3 \/ rv_funct3 insn = 6 \/ rv_funct3 insn = 7)).
  { rewrite !orb_true_iff, !andb_true_iff, !orb_true_iff, !Z.eqb_eq in Er. lia. }
  destruct F as [E1 F3]. destruct (rv_csr_read h (pf_mtime pf m) (Z.shiftr insn 20)) as [e v] eqn:E.
  destruct (csr_read_u32 _ _ _ _ _ HC E) as [He Hv].
  set (h1 := if e =? RV_EXC_NONE then wr h (rv_rd insn) v else h).
  assert (Eo : exec_system pf h m (h_pc h) next insn = exec_call next (e, insn, h1, m)).
  { unfold exec_system, exec_csr, h1. rewrite E1, E. destruct F3 as [->|[->|[->| ->]]];
      match goal with |- context [?a &! 3 =? 1] => change (a &! 3 =? 1) with false end; cbn [Z.eqb Pos.eqb negb andb orb exec_call]; destruct (e =? RV_EXC_NONE); reflexivity. }
  rewrite Eo. eapply call_ok; [reflexivity|typed|exact Hl|exact Hc|exact Hd| |exact Ui| |].
  - unfold h1. destruct (e =? RV_EXC_NONE); [|split; assumption]. split; [apply wr_ctl, HC|apply wr_J; assumption|exact He].
  - unfold h1. destruct (e =? RV_EXC_NONE); [apply wr_calm, H0|apply calm_rest, at_rest_refl].
  - intros c' [Eh Em]. unfold rv_ir_csr_helper, h1. rewrite Eh, Em, E. destruct (e =? RV_EXC_NONE); cbn [negb]; [rewrite put_x_wr by exact H0|]; reflexivity.
Qed.

(** ** Control *)

Hypothesis Epc : even (h_pc h).

Lemma follows_exit next nx ctr h1 m1 (c : cpu) n s ends : leaves h insn = true -> calm h h1 -> at_ c (h1 <| h_pc := nx |>) m1 ->
  follows h insn n next (Next nx ctr h1 m1) (Lowered ends true) s (Gone (exit_kind start insn nx) c (n +! 1)).
Proof. intros Hl Hc Ha. split; [exact Hc|]. rewrite Hl. split; [reflexivity|]. eauto. Qed.

Lemma branch_ok s tmp (c : cpu) n next : insn &! 127 = OP_BRANCH -> at_ c h m -> (xl_marked s = true -> dirty h) ->
  wp t ok start (lower_branch insn (h_pc h)) s (Live tmp c n) (follows h insn n next (exec_branch h m (h_pc h) next insn)).
Proof.
  intros Eo Hc Hd. unfold lower_branch, exec_branch. destruct (_ || _) eqn:E3; [apply wp_done; exact I|].
  pose proof (k_cond_taken (rv_funct3 insn) (h_x h (rv_rs1 insn)) (h_x h (rv_rs2 insn)) (funct3_range insn) E3) as Hk.
  assert (Hl : leaves h insn = eval_value_cond (h_x h (rv_rs1 insn)) (h_x h (rv_rs2 insn)) (k_cond (rv_funct3 insn))).
  { unfold leaves. rewrite Eo, Hk. reflexivity. }
  emit_one. emit_one. emit_one. emit_one. emit_one. emit_one. emit_one. rewrite Hk.
  eapply wp_exit_if; [apply u32_range|eassumption|eassumption|exact Hc|..]; intros Hv; rewrite Hv in *.
  - intros d2 s2 c2 _ Hc2. apply wp_done. rewrite even_target by (apply even_add; [exact Epc|exact (proj1 (imm_even insn))]).
    replace (if _ =? start then _ else _) with (exit_kind start insn (h_pc h +! rv_imm_b insn)) by (unfold exit_kind; rewrite Eo; reflexivity).
    apply follows_exit; [exact Hl|apply calm_rest, at_rest_refl|exact Hc2].
  - intros d2 s2 tmp2 Hm2. apply wp_done. split; [apply calm_rest, at_rest_refl|]. rewrite Hl. split; [reflexivity|]. split; [reflexivity|].
    split; [intros Hk'; apply Hd; congruence|eauto].
Qed.

Lemma jal_ok s tmp (c : cpu) n len : insn &! 127 = OP_JAL -> at_ c h m -> 
  wp t ok start (lower_jal insn (h_pc h) len) s (Live tmp c n) (follows h insn n (h_pc h +! len) (exec_jal h m (h_pc h) (h_pc h +! len) insn)).
Proof.
  intros Eo Hc. unfold lower_jal, exec_jal. rewrite even_target by (apply even_add; [exact Epc|exact (proj2 (imm_even insn))]).
  emit_one. emit_one. emit_one. eapply wp_mono; [|eapply wp_put; [auto with regs|exact Hc|exact H0|reflexivity|eassumption|apply u32_range|reflexivity]].
  intros r s2 x (-> & _ & tmp2 & c2 & -> & Hc2). emit_one. emit_one. emit_one. eapply wp_exit; [apply u32_range|exact Hc2|].
  intros d3 s3 c3 _ Hc3. apply wp_done.
  replace (if _ =? start then _ else _) with (exit_kind start insn (h_pc h +! rv_imm_j insn)) by (unfold exit_kind; rewrite Eo; reflexivity).
  apply follows_exit; [unfold leaves; rewrite Eo; reflexivity|apply wr_calm, H0|exact Hc3].
Qed.

Lemma jalr_ok s tmp (c : cpu) n len : insn &! 127 = OP_JALR -> at_ c h m ->
  wp t ok start (lower_jalr insn (h_pc h) len) s (Live tmp c n) (follows h insn n (h_pc h +! len) (exec_jalr h m (h_pc h +! len) insn)).
Proof.
  intros Eo Hc. unfold lower_jalr, exec_jalr. destruct (negb _); [apply wp_done; exact I|].
  rewrite even_target by apply ldiff_even. do 12 emit_one. emit_one. unfold put. emit_one.
  eapply wp_put_then; [auto with regs|exact Hc|exact H0|eassumption|apply u32_range|]. intros d6 s6 tmp6 c6 Hl6 _ Hc6. lift_holds.
  apply wp_done. emit_one. emit_one. emit_one. eapply wp_exit_to; [|eassumption|exact Hc6|]; [apply u32_range|].
  intros d7 s7 c7 _ Hc7. apply wp_done.
  assert (Et : u32 (value EMU_IR_AND 0 (u32 (value EMU_IR_ADD 0 (h_x h (rv_rs1 insn)) (u32 (rv_imm_i insn)) 0)) (not32 1) 0)
    = Z.ldiff (h_x h (rv_rs1 insn) +! rv_imm_i insn) 1).
  { cbn [value eval_alu]. rewrite u32_u32, u32_add_r, jalr_mask, land_ones32, u32_id by typed. reflexivity. }
  rewrite Et in Hc7. replace IR_RUN_DONE with (exit_kind start insn (Z.ldiff (h_x h (rv_rs1 insn) +! rv_imm_i insn) 1)) by (unfold exit_kind; rewrite Eo; reflexivity).
  apply follows_exit; [unfold leaves; rewrite Eo; reflexivity|apply wr_calm, H0|exact Hc7].
Qed.

(** ** Floating point *)

Lemma wp_fget r s tmp (c : cpu) n h1 m1 (Q : Z -> xl -> st -> Prop) : reg r -> at_ c h1 m1 ->
  (forall d s' tmp', later s tmp s' tmp' -> xl_marked s' = xl_marked s -> holds s' tmp' d (u32 (h_f h1 r)) -> Q d s' (Live tmp' c n)) ->
  wp t ok start (fget 0 r) s (Live tmp c n) Q.
Proof.
  intros Hr [Eh Em] HQ. eapply wp_emit; [apply reg_u32, Hr|apply opd_none|apply opd_none|intros; apply freg_ok; auto|]. intros d0.
  cbn [step op new_insn]. change (freg_offset t) with (Some rv_freg_offset). cbn [aux imm new_insn]. change (negb (0 &! EMU_IR_FP_BOX =? 0)) with false. cbn [andb emitted].
  intros d s' tmp' Hl Hm Hd. apply HQ; [exact Hl|exact Hm|]. rewrite (proj1 (word_f c r Hr)), Eh, u32_u32 in Hd. exact Hd.
Qed.

Lemma f_dirty_id h1 : dirty h1 -> f_dirty h1 = h1.
Proof. unfold dirty, f_dirty. intros ->. destruct h1. reflexivity. Qed.

(** A value was left in an f register. *)
Definition wrote_f (h1 : rv_hart) (m1 : M) (rd w n : Z) (r : lowered) (s : xl) (x : st) : Prop :=
  r = Lowered false false /\ exists tmp (c : cpu), x = Live tmp c n /\ at_ c (f_dirty (fw32 h1 rd w)) m1.

Lemma wp_mark s tmp (c : cpu) n h1 m1 : at_ c h1 m1 -> is_u32 (h_mstatus h1) -> (xl_marked s = true -> dirty h1) ->
  wp t ok start mark_fs s (Live tmp c n) (fun r _ x => r = Lowered false false /\ exists tmp' (c' : cpu), x = Live tmp' c' n /\ at_ c' (f_dirty h1) m1).
Proof.
  intros Hc Ums Hd. apply wp_mark_fs; intros E1.
  - split; [reflexivity|]. rewrite f_dirty_id by auto. eauto.
  - emit_one. emit_one. emit_one. eapply wp_with_imm; [reflexivity|unfold MSTATUS_FS_MASK; typed|eassumption|]. intros; lift_holds. unfold put. emit_one.
    eapply wp_put_mstatus; [exact Hc|eassumption|apply u32_range|]. intros d2 s2 tmp2 c2 _ _ Hc2. apply wp_done. split; [reflexivity|].
    do 2 eexists. split; [reflexivity|]. cbn [value eval_alu] in Hc2. rewrite u32_id in Hc2; [exact Hc2|]. unfold MSTATUS_FS_MASK. typed.
Qed.

(** A value to an f register; the first of a block makes FS Dirty. *)
Lemma wp_fput v rd s tmp (c : cpu) n h1 m1 w : reg rd -> at_ c h1 m1 -> holds s tmp v w -> is_u32 w -> is_u32 (h_mstatus h1) -> (xl_marked s = true -> dirty h1) ->
  wp t ok start (fput RV_IR_BOX v rd) s (Live tmp c n) (wrote_f h1 m1 rd w n).
Proof.
  intros Hr [Eh Em] Hv Uw Ums Hd. unfold fput. emit_one.
  eapply wp_emit; [apply reg_u32, Hr|apply opd_some, Hv|apply opd_none|intros; apply freg_ok; auto|]. intros d0.
  cbn [step op new_insn]. change (freg_offset t) with (Some rv_freg_offset). cbn [aux imm new_insn]. change (negb (RV_IR_BOX &! EMU_IR_FP_BOX =? 0)) with true.
  cbn [emitted]. intros d s1 tmp1 _ Hm1.
  apply wp_mark; [|exact Ums|intros E; apply Hd; congruence]. split; [|exact Em]. rewrite hart_set_f, Eh, u32_id by assumption. reflexivity.
Qed.

Lemma wp_fput_gone v rd s w (c : cpu) n (Q : lowered -> xl -> st -> Prop) : reg rd -> defined s v ->
  (forall s', Q (Lowered false false) s' (Gone w c n)) -> wp t ok start (fput RV_IR_BOX v rd) s (Gone w c n) Q.
Proof.
  intros Hr Hv HQ. unfold fput. emit_one. apply wp_emit_gone; [apply reg_u32, Hr|right; apply Hv|left; reflexivity|intros; apply freg_ok; auto|]. intros d s1 _ _ _.
  apply wp_mark_fs; intros _; [apply HQ|].
  emit_one. apply wp_emit_gone; [typed|left; reflexivity|left; reflexivity|reflexivity|]. intros d2 s2 _ _ Hd2.
  emit_one. apply wp_emit_gone; [unfold MSTATUS_FS_MASK; typed|right; apply Hd2; reflexivity|left; reflexivity|reflexivity|]. intros d3 s3 _ _ Hd3.
  unfold put. emit_one. apply wp_emit_gone; [typed|right; apply Hd3; reflexivity|left; reflexivity|intros; apply put_ok; [unfold RV_IR_MSTATUS; lia|apply Hd3; reflexivity]|]. intros d4 s4 _ _ _. apply wp_done, HQ.
Qed.

Lemma fw32_calm h1 rd w : fs_off h1 = false -> calm h1 (f_dirty (fw32 h1 rd w)).
Proof. intros Hf. split; [reflexivity|]. split; [auto|]. right. split; [exact Hf|reflexivity]. Qed.

Lemma dirty_f_dirty h1 : dirty (f_dirty h1).
Proof. apply lor_twice. Qed.

Lemma wrote_f_follows next h1 m1 rd w n r s x : leaves h insn = false -> calm h (f_dirty (fw32 h1 rd w)) -> wrote_f h1 m1 rd w n r s x ->
  follows h insn n next (Next next 0 (f_dirty (fw32 h1 rd w)) m1) r s x.
Proof.
  intros Hl Hcalm (-> & tmp & c & -> & Hc). split; [exact Hcalm|]. rewrite Hl. split; [reflexivity|]. split; [reflexivity|].
  split; [intros _; apply dirty_f_dirty|eauto].
Qed.

(** The hart the translation was made for; FS has not been turned off since. *)
Variable h0 : rv_hart.
Hypothesis Hfs : fs_off h = fs_off h0.

Lemma flw_ok s tmp (c : cpu) n next : fs_off h = false -> rv_funct3 insn = 2 -> insn &! 127 = 7 -> leaves h insn = false -> at_ c h m -> (xl_marked s = true -> dirty h) ->
  wp t ok start (lower_fp_mem h0 insn (h_pc h)) s (Live tmp c n) (follows h insn n next (exec_call next (rv_hart_fp h m insn))).
Proof.
  intros Hf E2 Eo Hl Hc Hd. unfold lower_fp_mem. change (h_fs_off h0) with (fs_off h0). rewrite <- Hfs, Hf, E2, Eo. cbn [Z.eqb Pos.eqb negb].
  emit_one. eapply wp_setpc_same; [exact Upc|exact Hc|]. intros d1 s1 tmp1 c1 _ Hm1 Hc1. emit_one. emit_one. emit_one.
  destruct (rv_hart_load h m (h_x h (rv_rs1 insn) +! rv_imm_i insn) 4 false) as [[[e v] h1] m1] eqn:El.
  assert (Ef : rv_hart_fp h m insn = if negb (e =? RV_EXC_NONE) then (e, h_x h (rv_rs1 insn) +! rv_imm_i insn, h1, m1)
    else (RV_EXC_NONE, insn, f_dirty (fw32 h1 (rv_rd insn) (default 0 v)), m1)).
  { unfold rv_hart_fp. fold (fs_off h). fold (rv_funct3 insn). rewrite Hf, Eo, E2. cbn [Z.eqb Pos.eqb negb andb orb OP_LOAD_FP]. unfold fp_load. cbn [Z.eqb Pos.eqb].
    fold (rv_rs1 insn). fold (rv_imm_i insn). rewrite El. reflexivity. }
  destruct (load_left _ _ _ _ _ _ _ El (u32_range _) word4) as ([C1 J1 He] & Hv & Hr). pose proof (calm_rest _ _ Hr) as Hcalm.
  assert (Hf1 : fs_off h1 = false) by (rewrite (calm_off _ _ Hcalm); exact Hf).
  rewrite Ef. rewrite <- u32_add_r in El. eapply wp_load_mem; [exact El|apply word4|apply u32_range|eassumption|exact Hc1|..].
  - intros Ne d2 s2 c2 Hd2 Hc2 Hm2. rewrite u32_add_r in Hc2. apply wp_fput_gone; [auto with regs|exact Hd2|]. intros s3.
    rewrite (proj2 (Z.eqb_neq _ _)) by exact Ne. cbn [negb exec_call]. rewrite (proj2 (Z.eqb_neq _ _)) by exact Ne. apply follows_trap; assumption.
  - intros -> d2 s2 tmp2 c2 _ Hm2 Hd2 Hc2. cbn [negb Z.eqb exec_call]. eapply wp_mono; [|eapply wp_fput; [auto with regs|exact Hc2|exact Hd2|apply default_word, Hv|apply C1|]].
    + intros r s3 x. apply wrote_f_follows; [exact Hl|]. eapply rest_calm_trans; [exact Hr|apply fw32_calm, Hf1].
    + intros Hk. apply (calm_dirty h); [exact Hcalm|]. apply Hd. congruence.
Qed.

Lemma fsw_ok s tmp (c : cpu) n next : fs_off h = false -> rv_funct3 insn = 2 -> insn &! 127 = 39 -> leaves h insn = false -> at_ c h m -> (xl_marked s = true -> dirty h) ->
  wp t ok start (lower_fp_mem h0 insn (h_pc h)) s (Live tmp c n) (follows h insn n next (exec_call next (rv_hart_fp h m insn))).
Proof.
  intros Hf E2 Eo Hl Hc Hd. unfold lower_fp_mem. change (h_fs_off h0) with (fs_off h0). rewrite <- Hfs, Hf, E2, Eo. cbn [Z.eqb Pos.eqb negb].
  emit_one. eapply wp_setpc_same; [exact Upc|exact Hc|]. intros d1 s1 tmp1 c1 _ Hm1 Hc1. emit_one. emit_one. emit_one.
  eapply wp_fget; [apply rs2_is_reg|exact Hc1|]. intros; lift_holds. emit_one.
  destruct (rv_hart_store h m (h_x h (rv_rs1 insn) +! rv_imm_s insn) 4 (u32 (h_f h (rv_rs2 insn)))) as [[e h1] m1] eqn:El.
  assert (Ef : rv_hart_fp h m insn = (e, h_x h (rv_rs1 insn) +! rv_imm_s insn, h1, m1)).
  { unfold rv_hart_fp. fold (fs_off h). fold (rv_funct3 insn). rewrite Hf, Eo, E2. cbn [Z.eqb Pos.eqb negb andb orb OP_LOAD_FP OP_STORE_FP]. unfold fp_store. cbn [Z.eqb Pos.eqb].
    fold (rv_rs1 insn). fold (rv_rs2 insn). fold (rv_imm_s insn). rewrite El. reflexivity. }
  destruct (store_left _ _ _ _ _ _ El (u32_range _) word4 (u32_range _)) as ([C1 J1 He] & Hr). pose proof (calm_rest _ _ Hr) as Hcalm.
  rewrite Ef. cbn [exec_call]. rewrite <- u32_add_r in El. eapply wp_store_mem; [exact El|apply word4|apply u32_range|apply u32_range|eassumption|eassumption|exact Hc1|..].
  - intros Ne d2 s2 c2 Hc2 Hm2. rewrite u32_add_r in Hc2. apply wp_done. rewrite (proj2 (Z.eqb_neq _ _)) by exact Ne. apply follows_trap; assumption.
  - intros -> d2 s2 tmp2 c2 Hm2 Hc2. apply wp_done. cbn [negb Z.eqb]. apply follows_next; [exact Hl|exact Hcalm| |exact Hc2]. intros Hk. apply Hd. congruence.
Qed.

Lemma fp_mem_ok s tmp (c : cpu) n next : insn &! 127 = 7 \/ insn &! 127 = 39 -> leaves h insn = false -> at_ c h m -> (xl_marked s = true -> dirty h) ->
  wp t ok start (lower_fp_mem h0 insn (h_pc h)) s (Live tmp c n) (follows h insn n next (exec_call next (rv_hart_fp h m insn))).
Proof.
  intros Eo Hl Hc Hd. destruct (bool_dec (fs_off h) true) as [Hf|Hf%not_true_is_false];
    [unfold lower_fp_mem; change (h_fs_off h0) with (fs_off h0); rewrite <- Hfs, Hf; apply wp_done; exact I|].
  destruct (Z.eq_dec (rv_funct3 insn) 2) as [E2|N2]; [destruct Eo; [apply flw_ok|apply fsw_ok]; assumption|].
  unfold lower_fp_mem. change (h_fs_off h0) with (fs_off h0). rewrite <- Hfs, Hf, (proj2 (Z.eqb_neq _ _)) by exact N2. apply fp_call_ok; assumption.
Qed.

(** A backend that leaves floating-point arithmetic to the helper. *)
Definition fp_arith (o : emu_ir_op) : bool :=
  match o with EMU_IR_FADD | EMU_IR_FSUB | EMU_IR_FMUL | EMU_IR_FDIV | EMU_IR_FSQRT | EMU_IR_FMA => true | _ => false end.
Hypothesis no_fp : forall o ax, fp_arith o = true -> can_lower o ax = false.

Lemma fma_ok s tmp (c : cpu) n next : leaves h insn = false -> at_ c h m -> (xl_marked s = true -> dirty h) ->
  wp t ok start (lower_fma can_lower h0 insn (h_pc h)) s (Live tmp c n) (follows h insn n next (exec_call next (rv_hart_fp h m insn))).
Proof.
  intros Hl Hc Hd. unfold lower_fma. destruct (h_fs_off h0); [apply wp_done; exact I|]. cbv zeta. rewrite no_fp by reflexivity. apply fp_call_ok; assumption.
Qed.

(** FMV.X.W and FMV.W.X. *)
Lemma fmv_x_ok s tmp (c : cpu) n next : fs_off h = false -> insn &! 127 = 83 -> rv_funct7 insn = 112 -> rv_funct3 insn = 0 -> rv_rs2 insn = 0 ->
  leaves h insn = false -> at_ c h m -> (xl_marked s = true -> dirty h) ->
  wp t ok start (v <- fget 0 (rv_rs1 insn) ;; put (rv_rd insn) v) s (Live tmp c n) (follows h insn n next (exec_call next (rv_hart_fp h m insn))).
Proof.
  intros Hf Eo E7 E3 E2 Hl Hc Hd.
  assert (Ef : rv_hart_fp h m insn = (RV_EXC_NONE, insn, wr h (rv_rd insn) (u32 (h_f h (rv_rs1 insn))), m)).
  { unfold rv_hart_fp. fold (fs_off h). fold (rv_funct3 insn). fold (rv_funct7 insn). fold (rv_rs2 insn). rewrite Hf, Eo, E3, E7, E2. reflexivity. }
  rewrite Ef. cbn [exec_call negb Z.eqb]. emit_one. eapply wp_fget; [apply rs1_reg|exact Hc|]. intros; lift_holds.
  eapply wp_mono; [|eapply wp_put; [auto with regs|exact Hc|exact H0|reflexivity|eassumption|apply u32_range|reflexivity]].
  intros r s3 x. apply wrote_follows; [exact Hl|]. intros Hk. apply Hd. congruence.
Qed.

Lemma fmv_w_ok s tmp (c : cpu) n next : fs_off h = false -> insn &! 127 = 83 -> rv_funct7 insn = 120 -> rv_funct3 insn = 0 -> rv_rs2 insn = 0 ->
  leaves h insn = false -> at_ c h m -> (xl_marked s = true -> dirty h) ->
  wp t ok start (v <- get (rv_rs1 insn) ;; fput RV_IR_BOX v (rv_rd insn)) s (Live tmp c n) (follows h insn n next (exec_call next (rv_hart_fp h m insn))).
Proof.
  intros Hf Eo E7 E3 E2 Hl Hc Hd.
  assert (Ef : rv_hart_fp h m insn = (RV_EXC_NONE, insn, f_dirty (fw32 h (rv_rd insn) (h_x h (rv_rs1 insn))), m)).
  { unfold rv_hart_fp. fold (fs_off h). fold (rv_funct3 insn). fold (rv_funct7 insn). fold (rv_rs2 insn). rewrite Hf, Eo, E3, E7, E2.
    change (fp_finish h m insn (rv_rd insn) fw32 (FpReg (h_x h (rv_rs1 insn)) 0) = (RV_EXC_NONE, insn, f_dirty (fw32 h (rv_rd insn) (h_x h (rv_rs1 insn))), m)).
    cbn [fp_finish]. unfold fp_done. rewrite Z.lor_0_r. destruct h. reflexivity. }
  rewrite Ef. cbn [exec_call negb Z.eqb]. emit_one. emit_one.
  eapply wp_mono; [|eapply wp_fput; [auto with regs|exact Hc|eassumption|apply ready_x, h_ready|apply HC|intros Hk; apply Hd; congruence]].
  intros r s3 x. apply wrote_f_follows; [exact Hl|apply fw32_calm, Hf].
Qed.

Lemma op_fp_ok s tmp (c : cpu) n next : insn &! 127 = 83 -> leaves h insn = false -> at_ c h m -> (xl_marked s = true -> dirty h) ->
  wp t ok start (lower_op_fp can_lower h0 insn (h_pc h)) s (Live tmp c n) (follows h insn n next (exec_call next (rv_hart_fp h m insn))).
Proof.
  intros Eo Hl Hc Hd. unfold lower_op_fp. change (h_fs_off h0) with (fs_off h0). rewrite <- Hfs.
  destruct (bool_dec (fs_off h) true) as [Hf|Hf%not_true_is_false]; rewrite Hf; [apply wp_done; exact I|]. cbv zeta. rewrite funct7_high by exact Ui.
  destruct ((rv_funct7 insn =? 112) && _ && _) eqn:E1.
  { rewrite !andb_true_iff, !Z.eqb_eq in E1. destruct E1 as [[E7 E3] E2]. apply fmv_x_ok; assumption. }
  destruct ((rv_funct7 insn =? 120) && _ && _) eqn:E4.
  { rewrite !andb_true_iff, !Z.eqb_eq in E4. destruct E4 as [[E7 E3] E2]. apply fmv_w_ok; assumption. }
  assert (K : match k_fp (rv_funct7 insn) with
    | Some o => ((if rv_funct3 insn =? 7 then RV_IR_FRM h0 else rv_funct3 insn) <=? EMU_IR_FRM_RMM) && can_lower o (u8 (if rv_funct3 insn =? 7 then RV_IR_FRM h0 else rv_funct3 insn))
    | None => false end = false).
  { clear E1 E4. unfold k_fp. repeat (destruct (rv_funct7 insn =? _); cbv iota beta; [rewrite no_fp by reflexivity; apply andb_false_r|]). reflexivity. }
  rewrite K, (no_fp EMU_IR_FSQRT), !andb_false_r by reflexivity. apply fp_call_ok; assumption.
Qed.

(** ** All of them *)

Lemma exec_opcode pc next op : insn &! 127 = op -> exec pf h m pc next insn =
  let isop x := Z.shiftr op 2 =? Z.shiftr x 2 in
  if isop OP_LUI then Next next 0 (wr h (rv_rd insn) (rv_imm_u insn)) m
  else if isop OP_AUIPC then Next next 0 (wr h (rv_rd insn) (pc +! rv_imm_u insn)) m
  else if isop OP_JAL then exec_jal h m pc next insn
  else if isop OP_JALR then exec_jalr h m next insn
  else if isop OP_BRANCH then exec_branch h m pc next insn
  else if isop OP_LOAD then exec_load h m next insn
  else if isop OP_STORE then exec_store h m next insn
  else if isop OP_IMM then exec_alu h m insn next (op_imm insn (h_x h (rv_rs1 insn)))
  else if isop OP_OP then exec_alu h m insn next (op_reg insn (h_x h (rv_rs1 insn)) (h_x h (rv_rs2 insn)))
  else if isop OP_MISC_MEM then exec_misc_mem h m next insn
  else if isop OP_AMO then exec_call next (rv_hart_atomic h m insn)
  else if isop OP_SYSTEM then exec_system pf h m pc next insn
  else if isop OP_LOAD_FP || isop OP_STORE_FP || isop OP_MADD || isop OP_MSUB || isop OP_NMSUB || isop OP_NMADD || isop OP_FP
  then exec_call next (rv_hart_fp h m insn)
  else Raise RV_EXC_ILLEGAL_INSN insn h m.
Proof. intros E. unfold exec. rewrite (opcode_of insn op E). reflexivity. Qed.

Lemma leaves_not op : insn &! 127 = op -> op <> OP_JAL -> op <> OP_JALR -> op <> OP_BRANCH -> leaves h insn = false.
Proof. intros E N1 N2 N3. unfold leaves. rewrite E, !(proj2 (Z.eqb_neq _ _)) by assumption. reflexivity. Qed.

Lemma const_ok s tmp (c : cpu) n next v : leaves h insn = false -> at_ c h m -> (xl_marked s = true -> dirty h) -> is_u32 v ->
  wp t ok start (c0 <- const v ;; put (rv_rd insn) c0) s (Live tmp c n) (follows h insn n next (Next next 0 (wr h (rv_rd insn) v) m)).
Proof.
  intros Hl Hc Hd Uv. eapply wp_mono; [intros r s' x; apply wrote_follows; [exact Hl|exact Hd]|].
  emit_one. emit_one. eapply wp_put; [auto with regs|exact Hc|exact H0|congruence|eassumption|exact Uv|reflexivity].
Qed.

Lemma fence_ok s tmp (c : cpu) n next : leaves h insn = false -> at_ c h m -> (xl_marked s = true -> dirty h) -> 
  wp t ok start (if negb (rv_funct3 insn =? 0) then decline else plain) s (Live tmp c n) (follows h insn n next (exec_misc_mem h m next insn)).
Proof.
  intros Hl Hc Hd. destruct (Z.eqb_spec (rv_funct3 insn) 0) as [E|]; cbn [negb]; [|apply wp_done; exact I]. unfold exec_misc_mem. rewrite E. cbn [Z.eqb].
  apply wp_done, follows_next; [exact Hl|apply calm_rest, at_rest_refl|exact Hd|exact Hc].
Qed.

Ltac opcode_is k := let Eo := fresh "Eo" in
  destruct (Z.eqb_spec (insn &! 127) k) as [Eo|_];
    [match goal with HX : forall op, insn &! 127 = op -> exec _ _ _ _ _ _ = _ |- _ => rewrite (HX k Eo) end;
     match goal with HL : forall op, insn &! 127 = op -> _ |- _ => try pose proof (HL k Eo ltac:(discriminate) ltac:(discriminate) ltac:(discriminate)) end|].

Lemma lower_one_ok s tmp (c : cpu) n len : at_ c h m -> (xl_marked s = true -> dirty h) ->
  wp t ok start (lower_one can_lower h0 insn (h_pc h) len) s (Live tmp c n)
    (follows h insn n (h_pc h +! len) (exec pf h m (h_pc h) (h_pc h +! len) insn)).
Proof.
  intros Hc Hd. unfold lower_one. cbv zeta. pose proof (exec_opcode (h_pc h) (h_pc h +! len)) as HX. pose proof leaves_not as HL. cbv zeta in HX.
  pose proof h_ready as R. assert (Ul : is_u32 (rv_imm_u insn)) by (unfold rv_imm_u; typed).
  opcode_is 55. { rewrite (u32_id _ Ul). apply const_ok; assumption. }
  opcode_is 23. { apply const_ok; typed || assumption. }
  opcode_is 15. { apply fence_ok; assumption. }
  opcode_is 19. { eapply wp_mono; [intros r s' x; apply computes_follows; [assumption|exact Hd|reflexivity]|apply op_imm_ok; auto]. }
  opcode_is 51. { eapply wp_mono; [intros r s' x; apply computes_follows; [assumption|exact Hd|reflexivity]|apply op_ok; auto]. }
  opcode_is 3. { apply lower_load_ok; assumption. }
  opcode_is 35. { apply store_ok; assumption. }
  opcode_is 99. { apply branch_ok; assumption. }
  opcode_is 111. { apply jal_ok; assumption. }
  opcode_is 103. { apply jalr_ok; assumption. }
  destruct ((insn &! 127 =? 7) || (insn &! 127 =? 39)) eqn:E1.
  { assert (Eo : insn &! 127 = 7 \/ insn &! 127 = 39) by (apply orb_true_iff in E1 as [E%Z.eqb_eq|E%Z.eqb_eq]; auto).
    assert (Hl : leaves h insn = false) by (destruct Eo as [Eo|Eo]; apply (HL _ Eo); discriminate).
    assert (Ex : exec pf h m (h_pc h) (h_pc h +! len) insn = exec_call (h_pc h +! len) (rv_hart_fp h m insn)) by (destruct Eo as [Eo|Eo]; rewrite (HX _ Eo); reflexivity).
    rewrite Ex. apply fp_mem_ok; assumption. }
  destruct (_ || (insn &! 127 =? 79)) eqn:E2.
  { rewrite !orb_true_iff, !Z.eqb_eq in E2.
    assert (Hl : leaves h insn = false) by (destruct E2 as [[[Eo|Eo]|Eo]|Eo]; apply (HL _ Eo); discriminate).
    assert (Ex : exec pf h m (h_pc h) (h_pc h +! len) insn = exec_call (h_pc h +! len) (rv_hart_fp h m insn)) by (destruct E2 as [[[Eo|Eo]|Eo]|Eo]; rewrite (HX _ Eo); reflexivity).
    rewrite Ex. apply fma_ok; assumption. }
  opcode_is 83. { apply op_fp_ok; assumption. }
  opcode_is 47. { apply amo_ok; assumption. }
  opcode_is 115. { apply csr_ok; assumption. }
  apply wp_done. exact I.
Qed.

End Lower.
