(* ===== verification/RvIrBlock.v ===== *)
(** * Translating a block

    [rv_ir_translate] fetches, lowers and appends one instruction after
    another.  [exec_block] is the interpreter's meaning of the instructions a
    block holds; a pass over the translated block does the same. *)

From stdpp Require Import base list gmap.
From Stdlib Require Import ZArith Lia.
From S2P Require Import Prelude Bus BusProps RvHart RvBus RvPmp RvTrig RvMmu RvAccess RvTrap RvCsr RvDecode RvAtomic RvFpu RvInterp RvFrame RvTrapProps RvTyped RvGuest IrTypes IrFloat IrInterp IrPasses IrSem IrSubst IrLaws IrBuilder RvIr RvIrXlate RvIrCalm RvIrCpu RvIrSim RvIrRules RvIrAlu RvIrLower.

Open Scope Z_scope.
Open Scope u32_scope.
Open Scope build_scope.

Section Block.
Context {ICfg : IrConfig} `{Cfg : RvConfig} {SF : SoftFloat} {ST : SoftFloatTyped SF} {Ext M : Type} `{PB : PhysBus Ext M} `{L : RvLayout}.
Variable Inv : M -> Prop.
Variable G : Z -> Z -> Prop.
Variable pf : platform M.
Variable can_lower : emu_ir_op -> Z -> bool.
#[local] Abbreviation cpu := (cpu_t M).
#[local] Abbreviation t := (rv_ir_target pf).
#[local] Abbreviation ok := (emit_ok pf).
#[local] Abbreviation J := (J Inv G).

(** ** What the block means *)

(** One pass over the instructions [(pc, length, encoding)]: a trap ends it with
    nothing counted for the instruction that took it, leaving for somewhere
    else ends it with the instruction counted. *)
Fixpoint exec_block (start : Z) (l : list (Z * Z * Z)) (h : rv_hart) (m : M) (n : Z) : ir_run * rv_hart * M * Z :=
  match l with
  | [] => (IR_RUN_DONE, h, m, n)
  | (pc, len, insn) :: l =>
      match exec pf h m pc (pc +! len) insn with
      | Raise cause tval h m => let '(h, m) := rv_hart_trap (h <| h_pc := pc |>) m cause tval in (IR_RUN_DONE, h, m, n)
      | Next next _ h' m =>
          if leaves h insn then (exit_kind start insn next, h' <| h_pc := next |>, m, n +! 1)
          else exec_block start l (h' <| h_pc := next |>) m (n +! 1)
      end
  end.

Hypothesis W : guest_world Inv G pf.
Hypothesis no_fp : forall o ax, fp_arith o = true -> can_lower o ax = false.
Variable start : Z.

(** ** Fetching *)

Lemma itlb_fill_rest h (m : M) va pa h' m' : rv_itlb_fill h m va pa = (h', m') -> at_rest h h'.
Proof. unfold rv_itlb_fill. intros E. follow; rests. Qed.

Lemma fetch16_ok h m va r h' m' : ir_fetch16 h m va = (r, h', m') -> ctl h -> J m h ->
  ctl h' /\ J m' h' /\ at_rest h h' /\ word_opt r.
Proof.
  unfold ir_fetch16. intros E C H. destruct (rv_itlb_lookup h va) as [pa|].
  { destruct (bus_fetch16 m pa) as [[f v] m1] eqn:Eb. destruct (gw_fetch _ _ _ W _ _ _ _ _ (j_q _ _ _ _ H) Eb) as [Hq Hv].
    injection E as <- <- <-. split; [exact C|]. split; [eapply J_mem; eassumption|]. split; [apply at_rest_refl|].
    destruct (no_fault f); [apply word_some, default_word, Hv|apply word_none]. }
  destruct (if h_vm_active h then _ else _) as [[[e pa] h1] m1] eqn:Et.
  assert (F : ctl h1 /\ J m1 h1 /\ at_rest h h1).
  { destruct (h_vm_active h); [|injection Et as <- <- <- <-; auto using at_rest_refl].
    split; [eapply frame_ctl; [eapply translate_frame; exact Et|exact C]|]. split; [eapply translate_J; eassumption|eapply translate_rest, Et]. }
  destruct F as (C1 & J1 & R1). destruct (negb (e =? _)); [injection E as <- <- <-; auto using word_none|].
  destruct (_ && _); [injection E as <- <- <-; auto using word_none|].
  destruct (bus_fetch16 m1 pa) as [[f v] m2] eqn:Eb. destruct (gw_fetch _ _ _ W _ _ _ _ _ (j_q _ _ _ _ J1) Eb) as [Hq Hv].
  assert (J2 : J m2 h1) by (eapply J_mem; eassumption). destruct (negb _); [injection E as <- <- <-; auto using word_none|].
  destruct (if h_fetch_guard h1 then _ else _) as [h2 m3] eqn:Ef. injection E as <- <- <-.
  assert (Hw : word_opt (Some (default 0 v))) by (apply word_some, default_word, Hv).
  destruct (h_fetch_guard h1); [|injection Ef as <- <-; auto].
  split; [eapply frame_ctl; [eapply itlb_fill_frame, Ef|exact C1]|]. split; [eapply itlb_fill_J; eassumption|].
  split; [eapply at_rest_trans; [exact R1|eapply itlb_fill_rest, Ef]|exact Hw].
Qed.

Lemma fetch_ok h m va r h' m' : ir_fetch h m va = (r, h', m') -> ctl h -> J m h ->
  ctl h' /\ J m' h' /\ at_rest h h' /\ forall i len, r = Some (i, len) -> is_u32 i /\ (len = 2 \/ len = 4).
Proof.
  unfold ir_fetch. intros E C H. destruct (ir_fetch16 h m va) as [[lo h1] m1] eqn:E1. destruct (fetch16_ok _ _ _ _ _ _ E1 C H) as (C1 & J1 & R1 & W1).
  destruct lo as [lo|]; [|injection E as <- <- <-; repeat (split; [assumption|]); discriminate]. specialize (W1 lo eq_refl).
  destruct (rv_is_32bit lo).
  - destruct (ir_fetch16 h1 m1 (va +! 2)) as [[hi h2] m2] eqn:E2. destruct (fetch16_ok _ _ _ _ _ _ E2 C1 J1) as (C2 & J2 & R2 & W2).
    pose proof (at_rest_trans _ _ _ R1 R2) as R. destruct hi as [hi|]; injection E as <- <- <-; repeat (split; [assumption|]); [|discriminate].
    intros i len [= <- <-]. split; [typed|auto].
  - cbv zeta in E. destruct (_ =? 0); injection E as <- <- <-; repeat (split; [assumption|]); [discriminate|]. intros i len [= <- <-]. split; [apply expand_c_u32|auto].
Qed.

(** ** The shape of a lowering *)

Definition jumps (insn : Z) : Prop := insn &! 127 = OP_JAL \/ insn &! 127 = OP_JALR.
#[local] Instance jumps_dec insn : Decision (jumps insn) := _.

Lemma lower_over h insn pc len : Walks over (lower_one can_lower h insn pc len).
Proof. unfold lower_one, lower_jal, lower_jalr. walk. Qed.

Lemma lower_start h insn pc len : Walks same_start (lower_one can_lower h insn pc len).
Proof. unfold lower_one, lower_jal, lower_jalr. walk. Qed.

Lemma lower_straight h insn pc len : ~ jumps insn -> Walks straight (lower_one can_lower h insn pc len).
Proof.
  intros Hn. assert (N1 : insn &! 127 <> 111) by (intros E; apply Hn; left; exact E). assert (N2 : insn &! 127 <> 103) by (intros E; apply Hn; right; exact E).
  unfold lower_one. cbv zeta. rewrite (proj2 (Z.eqb_neq _ 111)), (proj2 (Z.eqb_neq _ 103)) by assumption. walk; unfold k_fp, default; walk.
Qed.

(** Where FS is off nothing is marked. *)
Lemma lower_marks h insn pc len : fs_off h = true -> Walks same_mark (lower_one can_lower h insn pc len).
Proof.
  intros Hf. unfold lower_one, lower_jal, lower_jalr, lower_fp_mem, lower_fma, lower_op_fp. change (h_fs_off h) with (fs_off h). rewrite Hf. walk.
Qed.

(** At most one EXIT, and last. *)
Definition exit_tail (l : list emu_ir_insn) : Prop := no_exit l \/ exists l0 i, l = l0 ++ [i] /\ no_exit l0.

Lemma emit_tail o ax a b im s : no_exit (IrTypes.insn (xl_block s)) -> exit_tail (insn (xl_block (snd (emit o ax a b im s)))).
Proof.
  intros H. unfold emit, emu_ir_emit, emu_ir_temp. destruct (_ <=? _); [left; exact H|].
  destruct (op_writes o); [destruct (_ <=? _)|]; right; do 2 eexists; (split; [reflexivity|exact H]).
Qed.

(** A program that ends with its exit. *)
Definition Jump (p : build lowered) : Prop := forall s, no_exit (insn (xl_block s)) ->
  fst (p s) = Declined \/ (fst (p s) = Lowered true true /\ exit_tail (insn (xl_block (snd (p s))))).

Lemma jump_bind {A} (p : build A) q : Walks straight p -> (forall a, Jump (q a)) -> Jump (bind p q).
Proof. intros Hp Hq s H. unfold bind. specialize (Hp s H). destruct (p s) as [a s1]. apply Hq, Hp. Qed.

Lemma jump_exit o ax a b im : Jump (emit o ax a b im ;;; done (Lowered true true)).
Proof.
  intros s H. pose proof (emit_tail o ax a b im s H) as T. unfold bind. destruct (emit o ax a b im s) as [d s1]. right. split; [reflexivity|exact T].
Qed.

Lemma lower_jump_tail h insn pc len : jumps insn -> Jump (lower_one can_lower h insn pc len).
Proof.
  intros Hj. unfold lower_one. destruct Hj as [-> | ->]; cbn [Z.eqb Pos.eqb orb OP_JAL OP_JALR].
  - unfold lower_jal. do 3 (apply jump_bind; [walk|intros ?]). apply jump_exit.
  - unfold lower_jalr. destruct (negb _); [intros s _; left; reflexivity|]. do 8 (apply jump_bind; [walk|intros ?]). apply jump_exit.
Qed.

(** ** One round of the loop *)

(** After a lowering that was not declined. *)
Definition finish_insn (pc len : Z) (r : lowered) : build (option bool) :=
  match r with
  | Declined => done None
  | Lowered ends counted =>
      (if counted then done 0 else emit_retire) ;;; if ends then done (Some false) else setpc (pc +! len) ;;; done (Some true)
  end.

Lemma finish_over pc len r : Walks over (finish_insn pc len r).
Proof. destruct r; unfold finish_insn; walk. Qed.
Lemma finish_start pc len r : Walks same_start (finish_insn pc len r).
Proof. destruct r; unfold finish_insn; walk. Qed.
Lemma finish_straight pc len r : Walks straight (finish_insn pc len r).
Proof. destruct r; unfold finish_insn; walk. Qed.
Lemma finish_marks pc len r : Walks same_mark (finish_insn pc len r).
Proof. destruct r; unfold finish_insn; walk. Qed.

Lemma xlate_insn_eq h i pc len s :
  xlate_insn can_lower h i pc len s =
    let '(r, s1) := lower_one can_lower h i pc len s in
    match r with Declined => (None, roll_back (length (insn (xl_block s))) s1) | _ => finish_insn pc len r s1 end.
Proof.
  unfold xlate_insn. destruct (lower_one _ _ _ _ _ _) as [[|ends counted] s1]; [reflexivity|]. unfold finish_insn, bind, done.
  destruct counted; [|destruct (emit_retire s1) as [x s2]]; (destruct ends; [reflexivity|]).
  - destruct (setpc _ s1). reflexivity.
  - destruct (setpc _ s2). reflexivity.
Qed.

(** What the round appended does what the interpreter does. *)
Definition advanced (h : rv_hart) (m : M) (insn pc len n : Z) (a : option bool) (s : xl) (x : st) : Prop :=
  match a with
  | None => True
  | Some more =>
      match exec pf h m pc (pc +! len) insn with
      | Raise cause tval h' m' => calm h h' /\ trapped h' m' cause tval n x
      | Next nx _ h' m' =>
          calm h h' /\
          if leaves h insn then exists c : cpu, x = Gone (exit_kind start insn nx) c (n +! 1) /\ at_ c (h' <| h_pc := nx |>) m'
          else more = true /\ nx = pc +! len /\ (xl_marked s = true -> dirty h') /\
               exists tmp (c : cpu), x = Live tmp c (n +! 1) /\ at_ c (h' <| h_pc := nx |>) m'
      end
  end.

(** The bookkeeping after an instruction the pass has left at. *)
Lemma finish_gone pc len ends counted s w (c : cpu) n (Q : option bool -> xl -> st -> Prop) :
  (forall s' b, Q (Some b) s' (Gone w c n)) -> wp t ok start (finish_insn pc len (Lowered ends counted)) s (Gone w c n) Q.
Proof.
  intros HQ. unfold finish_insn. apply wp_bind; [walk|]. assert (K : forall s', wp t ok start (if ends then done (Some false) else setpc (pc +! len) ;;; done (Some true)) s' (Gone w c n) Q).
  { intros s'. destruct ends; [apply wp_done, HQ|]. apply wp_bind; [walk|]. apply wp_emit_gone; [apply u32_range|left; reflexivity|left; reflexivity|reflexivity|].
    intros d s2 _ _ _. apply wp_done, HQ. }
  destruct counted; [apply wp_done, K|]. apply wp_emit_gone; [typed|left; reflexivity|left; reflexivity|reflexivity|]. intros d s2 _ _ _. apply K.
Qed.

Lemma finish_live pc len counted s tmp (c : cpu) n h m (Q : option bool -> xl -> st -> Prop) : at_ c h m ->
  (forall s' tmp' c', xl_marked s' = xl_marked s -> at_ c' (h <| h_pc := pc +! len |>) m -> Q (Some true) s' (Live tmp' c' (n +! 1))) ->
  wp t ok start (finish_insn pc len (Lowered false counted)) s (Live tmp c (if counted then n +! 1 else n)) Q.
Proof.
  intros Hc HQ. unfold finish_insn. apply wp_bind; [walk|].
  assert (K : forall s' tmp', xl_marked s' = xl_marked s -> wp t ok start (setpc (pc +! len) ;;; done (Some true)) s' (Live tmp' c (n +! 1)) Q).
  { intros s' tmp' Hm. apply wp_bind; [walk|]. eapply wp_setpc; [apply u32_range|exact Hc|]. intros d s2 tmp2 c2 _ Hm2 Hc2. apply wp_done, HQ; [congruence|exact Hc2]. }
  destruct counted; [apply wp_done, K; reflexivity|]. eapply wp_retire. intros d s2 tmp2 _ Hm2. apply K, Hm2.
Qed.

(** The state a pass is in where the translator is at [cur]. *)
Record fits (ht : rv_hart) (s : xl) (cur : Z) (h : rv_hart) (m : M) : Prop := {
  ft_ctl : ctl h;
  ft_J : J m h;
  ft_x0 : h_x h 0 = 0;
  ft_pc : h_pc h = cur;
  ft_fs : fs_off h = fs_off ht;
  ft_dirty : xl_marked s = true -> dirty h
}.

Lemma round_ok ht insn len s tmp (c : cpu) n h m cur : is_u32 insn -> is_u32 cur -> even cur -> fits ht s cur h m -> at_ c h m ->
  wp t ok start (r <- lower_one can_lower ht insn cur len ;; finish_insn cur len r) s (Live tmp c n) (advanced h m insn cur len n).
Proof.
  intros Ui Uc Ec [C0 J0 X0 <- F0 D0] Hc. apply wp_bind; [intros r; apply finish_over|].
  eapply wp_mono; [|eapply lower_one_ok; eassumption]. cbv beta. intros [|ends counted] s1 x; [intros _; apply wp_done; exact I|]. unfold follows, advanced.
  destruct (exec pf h m (h_pc h) (h_pc h +! len) insn) as [nx ctr h1 m1|e tv h1 m1].
  - intros [Hcalm Hx]. destruct (leaves h insn).
    + destruct Hx as (-> & c1 & -> & Hc1). apply finish_gone. intros s' b. eauto.
    + destruct Hx as (-> & -> & Hd1 & tmp1 & c1 & -> & Hc1). eapply finish_live; [exact Hc1|]. intros s2 tmp2 c2 Hm2 Hc2.
      split; [exact Hcalm|]. split; [reflexivity|]. split; [reflexivity|]. split; [intros Hk; apply Hd1; congruence|eauto].
  - intros (-> & -> & Hcalm & c1 & -> & Hc1). apply finish_gone. intros s' b. split; [exact Hcalm|]. eexists. eauto.
Qed.

(** Wherever the translator is, some state fits. *)
Definition any_state (ht : rv_hart) (mk : bool) (cur : Z) : rv_hart :=
  (if mk then f_dirty ht else ht) <| h_x := fun _ => 0 |> <| h_pc := cur |>.

Lemma any_fits ht mt s cur : ctl ht -> J mt ht -> is_u32 cur -> (xl_marked s = true -> fs_off ht = false) ->
  fits ht s cur (any_state ht (xl_marked s) cur) mt.
Proof.
  intros C0 J0 Uc Hf.
  assert (D : dat (any_state ht (xl_marked s) cur)) by (destruct (J_dat _ _ _ _ J0); unfold any_state; destruct (xl_marked s); split; try assumption; intros r; cbn; typed).
  split.
  - unfold any_state, f_dirty. destruct (xl_marked s); [|set_ctl]. destruct C0. split; try assumption. apply is_u32_lor; [assumption|typed].
  - apply (J_regs _ _ mt ht); [exact D|unfold any_state; destruct (xl_marked s); reflexivity|exact J0].
  - reflexivity.
  - reflexivity.
  - unfold any_state. destruct (xl_marked s); [|reflexivity]. rewrite Hf by reflexivity.
    change (fs_off (f_dirty ht) = false). rewrite (calm_off ht); [apply Hf; reflexivity|].
    split; [reflexivity|]. split; [auto|]. right. split; [apply Hf; reflexivity|reflexivity].
  - intros ->. apply dirty_f_dirty.
Qed.

(** A block whose last instructions are taken back. *)
Lemma roll_back_built b b1 new : built b1 -> insn b1 = insn b ++ new -> insn (set_insn b1 (take (length (insn b)) (insn b1))) = insn b /\
  built (set_insn b1 (take (length (insn b)) (insn b1))).
Proof.
  intros (Hn & Hc & Hl & Hw) E. rewrite E in *. cbn [insn set_insn]. rewrite take_app_length. split; [reflexivity|]. unfold built, count in *. cbn [insn set_insn next_temp overflow].
  rewrite E, length_app in Hc. split; [exact Hn|]. split; [lia|]. apply Forall_app in Hl as [Hl _]. split; [exact Hl|].
  intros Ho. destruct (Hw Ho) as [Wf Hd]. apply wf_app in Wf as [Wf _]. split; [exact Wf|]. intros x Hx. apply Hd. rewrite dsts_app. set_solver.
Qed.

(** One round, whatever the pass finds when it comes to it. *)
Record rounded (ht : rv_hart) (s : xl) (cur i len : Z) (a : option bool) (s' : xl) (new : list emu_ir_insn) : Prop := {
  ro_new : insn (xl_block s') = insn (xl_block s) ++ new;
  ro_built : built (xl_block s');
  ro_ok : Forall ok new;
  ro_start : start_pc (xl_block s') = start_pc (xl_block s);
  ro_mark : xl_marked s' = true -> fs_off ht = false;
  ro_tail : exit_tail (insn (xl_block s'));
  ro_straight : a <> Some false -> no_exit (insn (xl_block s'));
  ro_none : a = None -> new = [];
  ro_runs : forall h m tmp (c : cpu) n, fits ht s cur h m -> at_ c h m -> advanced h m i cur len n a s' (seg t start new (Live tmp c n))
}.

Lemma round_marks ht i cur len s : (xl_marked s = true -> fs_off ht = false) ->
  xl_marked (snd (lower_one can_lower ht i cur len s)) = true -> fs_off ht = false.
Proof.
  intros Hm Hk. destruct (fs_off ht) eqn:Hf; [|reflexivity]. rewrite (lower_marks ht i cur len Hf s) in Hk. exact (Hm Hk).
Qed.

Lemma round_exit ht i cur len s : no_exit (insn (xl_block s)) ->
  let '(r, s1) := lower_one can_lower ht i cur len s in
  match r with
  | Declined => True
  | Lowered true counted => exit_tail (insn (xl_block s1)) /\ (counted = false -> no_exit (insn (xl_block s1)))
  | Lowered false _ => no_exit (insn (xl_block s1))
  end.
Proof.
  intros Hx. destruct (decide (jumps i)) as [Hj|Hj].
  - pose proof (lower_jump_tail ht i cur len Hj s Hx) as H. destruct (lower_one _ _ _ _ _ _) as [r s1]. cbn [fst snd] in H.
    destruct H as [->|[-> T]]; [exact I|]. split; [exact T|discriminate].
  - pose proof (lower_straight ht i cur len Hj s Hx) as H. destruct (lower_one _ _ _ _ _ _) as [r s1]. cbn [snd] in H.
    destruct r as [|[] counted]; auto. split; [left; exact H|auto].
Qed.

(** The two halves of the round as one program. *)
Lemma wp_bind_run {A B} (p : build A) (q : A -> build B) s x (Q : B -> xl -> st -> Prop) a s1 b s2 :
  p s = (a, s1) -> q a s1 = (b, s2) -> wp t ok start (bind p q) s x Q -> overflow (xl_block s2) = false -> built (xl_block s) ->
  built (xl_block s2) /\ exists new, insn (xl_block s2) = insn (xl_block s) ++ new /\ Forall ok new /\ Q b s2 (seg t start new x).
Proof. intros Ep Eq H. unfold wp, bind in H. rewrite Ep, Eq in H. exact H. Qed.

Lemma finish_exit cur len ends counted s1 a s' : finish_insn cur len (Lowered ends counted) s1 = (a, s') ->
  (if ends then exit_tail (insn (xl_block s1)) /\ (counted = false -> no_exit (insn (xl_block s1))) else no_exit (insn (xl_block s1))) ->
  exit_tail (insn (xl_block s')) /\ (a <> Some false -> no_exit (insn (xl_block s'))) /\ a <> None.
Proof.
  intros E H. assert (K : no_exit (insn (xl_block s1)) -> no_exit (insn (xl_block s'))).
  { intros Hx. pose proof (finish_straight cur len (Lowered ends counted) s1 Hx) as F. rewrite E in F. exact F. }
  assert (Ea : a = Some (negb ends)).
  { unfold finish_insn, bind in E. destruct ((if counted then done 0 else emit_retire) s1) as [x s2]. destruct ends; [injection E as <- _; reflexivity|].
    destruct (setpc _ s2). injection E as <- _. reflexivity. }
  rewrite Ea. destruct ends; cbn [negb].
  - split; [|split; congruence]. destruct H as [T Hc]. destruct counted; [injection E as _ <-; exact T|]. left. apply K, Hc. reflexivity.
  - split; [left; apply K, H|]. split; [intros _; apply K, H|discriminate].
Qed.

Lemma round_rounded ht mt i cur len s a s' : xlate_insn can_lower ht i cur len s = (a, s') -> overflow (xl_block s') = false -> built (xl_block s) ->
  is_u32 i -> is_u32 cur -> even cur -> ctl ht -> J mt ht -> (xl_marked s = true -> fs_off ht = false) -> no_exit (insn (xl_block s)) ->
  exists new, rounded ht s cur i len a s' new.
Proof.
  intros E Ho B Ui Uc Ec C0 J0 Hm Hx. rewrite xlate_insn_eq in E. pose proof (round_exit ht i cur len s Hx) as RX.
  pose proof (round_marks ht i cur len s Hm) as RM. pose proof (lower_start ht i cur len s) as RS.
  set (h0 := any_state ht (xl_marked s) cur). pose proof (any_fits ht mt s cur C0 J0 Uc Hm) as F0. fold h0 in F0.
  assert (A0 : at_ (cpu_of h0 mt : cpu) h0 mt) by (eapply at_left; apply F0).
  pose proof (fun h m tmp c n F Ha => round_ok ht i len s tmp c n h m cur Ui Uc Ec F Ha) as RO.
  destruct (lower_one can_lower ht i cur len s) as [r s1] eqn:E1. cbn [snd] in RM, RS. destruct r as [|ends counted].
  - injection E as <- <-. destruct (wp_bind_run _ _ _ _ _ _ _ _ _ E1 (eq_refl : finish_insn cur len Declined s1 = (None, s1)) (RO h0 mt (fun _ => 0) _ 0 F0 A0) Ho B)
      as (B1 & new & En & _ & _). destruct (roll_back_built (xl_block s) (xl_block s1) new B1 En) as [Ei Bi].
    exists []. split; cbn [roll_back xl_block xl_marked];
      [rewrite Ei, app_nil_r; reflexivity|exact Bi|constructor|exact RS|exact RM|rewrite Ei; left; exact Hx|intros _; rewrite Ei; exact Hx|reflexivity|intros; exact I].
  - destruct (wp_bind_run _ _ _ _ _ _ _ _ _ E1 E (RO h0 mt (fun _ => 0) _ 0 F0 A0) Ho B) as (B1 & new & En & On & _).
    destruct (finish_exit _ _ _ _ _ _ _ E) as (T1 & T2 & T3); [destruct ends; exact RX|].
    exists new. split; [exact En|exact B1|exact On| | |exact T1|exact T2|intros ->; contradiction|].
    + pose proof (finish_start cur len (Lowered ends counted) s1) as F. rewrite E in F. unfold same_start in *. cbn [snd] in F. congruence.
    + pose proof (finish_marks cur len (Lowered ends counted) s1) as F. rewrite E in F. unfold same_mark in F. cbn [snd] in F. rewrite F. exact RM.
    + intros h m tmp c n F Ha. destruct (wp_bind_run _ _ _ _ _ _ _ _ _ E1 E (RO h m tmp c n F Ha) Ho B) as (_ & new' & En' & _ & K).
      rewrite En in En'. apply app_inv_head in En' as <-. exact K.
Qed.

(** ** The loop *)

(** A pass that ended as [exec_block] does, ready to start again if it loops. *)
Definition pass_ok (l : list (Z * Z * Z)) (h : rv_hart) (m : M) (n : Z) (x : st) : Prop :=
  let '(w, h2, m2, n2) := exec_block start l h m n in
  exists c2 : cpu, ended x = (w, c2, n2) /\ at_ c2 h2 m2 /\ ctl h2 /\ J m2 h2 /\
    (w = IR_RUN_LOOP -> h_x h2 0 = 0 /\ fs_off h2 = fs_off h /\ h_pc h2 = start).

Record looped (ht : rv_hart) (s : xl) (cur : Z) (l : list (Z * Z * Z)) (s' : xl) (new : list emu_ir_insn) : Prop := {
  lo_new : insn (xl_block s') = insn (xl_block s) ++ new;
  lo_built : built (xl_block s');
  lo_ok : Forall ok new;
  lo_start : start_pc (xl_block s') = start_pc (xl_block s);
  lo_tail : exit_tail (insn (xl_block s'));
  lo_runs : forall h m tmp (c : cpu) n, fits ht s cur h m -> at_ c h m -> pass_ok l h m n (seg t start new (Live tmp c n))
}.

Lemma exit_loops insn nx : exit_kind start insn nx = IR_RUN_LOOP -> nx = start.
Proof. unfold exit_kind. destruct (_ && (nx =? start)) eqn:E; [|discriminate]. intros _. apply andb_true_iff in E as [_ E]. apply Z.eqb_eq, E. Qed.

(** The instruction the pass is at, and then what follows it. *)
Lemma pass_cons ht s cur i len l h m n a s1 x rest : is_u32 i -> is_u32 cur -> fits ht s cur h m -> advanced h m i cur len n a s1 x -> a <> None ->
  (forall h1 m1 tmp1 c1, a = Some true -> fits ht s1 (cur +! len) h1 m1 -> fs_off h1 = fs_off h -> at_ (c1 : cpu) h1 m1 ->
     pass_ok l h1 m1 (n +! 1) (seg t start rest (Live tmp1 c1 (n +! 1)))) ->
  pass_ok ((cur, len, i) :: l) h m n (seg t start rest x).
Proof.
  intros Ui Uc [C0 J0 X0 P0 F0 D0] Ha Hn HR. destruct a as [more|]; [|contradiction]. cbn [advanced] in Ha. unfold pass_ok. cbn [exec_block].
  pose proof (exec_typed _ _ _ W h m cur (cur +! len) i Uc (u32_range _) Ui C0 J0) as HT.
  destruct (exec pf h m cur (cur +! len) i) as [nx ctr h1 m1|e tv h1 m1]; cbn [out_typed] in HT.
  - destruct HT as (Un & C1 & J1). destruct Ha as [Hcalm Ha]. pose proof (calm_off _ _ Hcalm) as Ho. pose proof Hcalm as (Ep & Ex & _).
    assert (C2 : ctl (h1 <| h_pc := nx |>)) by set_ctl. assert (J2 : J m1 (h1 <| h_pc := nx |>)) by (destruct J1; split; assumption).
    destruct (leaves h i).
    + destruct Ha as (c1 & -> & Hc1). rewrite seg_gone. exists c1. cbn [ended]. split; [reflexivity|]. split; [exact Hc1|]. split; [exact C2|]. split; [exact J2|].
      intros Hw. split; [exact (Ex X0)|]. split; [exact Ho|]. eapply exit_loops, Hw.
    + destruct Ha as (-> & -> & Hd & tmp1 & c1 & -> & Hc1). specialize (HR (h1 <| h_pc := cur +! len |>) m1 tmp1 c1 eq_refl). unfold pass_ok in HR.
      destruct (exec_block _ _ _ _ _) as [[[w h2] m2] n2]. destruct HR as (c2 & E2 & A2 & C3 & J3 & K); [| |exact Hc1|].
      * split; [exact C2|exact J2|exact (Ex X0)|reflexivity|rewrite <- F0; exact Ho|exact Hd].
      * exact Ho.
      * exists c2. do 4 (split; [assumption|]). intros Hw. destruct (K Hw) as (K1 & K2 & K3). split; [exact K1|]. split; [|exact K3]. rewrite K2. exact Ho.
  - destruct HT as (He & Ht & C1 & J1). destruct Ha as (Hcalm & c1 & -> & Hc1). rewrite seg_gone.
    assert (Ep : h1 <| h_pc := cur |> = h1) by (destruct Hcalm as (Ep & _); rewrite <- P0, <- Ep; apply set_pc_same). rewrite Ep.
    destruct (rv_hart_trap h1 m1 e tv) as [h2 m2] eqn:Et. destruct (trap_J _ _ _ W _ _ _ _ _ _ Et He Ht C1 J1) as [C2 J2].
    exists c1. cbn [ended]. split; [reflexivity|]. split; [exact Hc1|]. split; [exact C2|]. split; [exact J2|discriminate].
Qed.

Lemma loop_overflowed fuel ht mt cur s : overflow (xl_block s) = true -> xlate_loop can_lower fuel ht mt cur s = ([], ht, mt, s).
Proof. destruct fuel; [reflexivity|]. cbn [xlate_loop]. intros ->. reflexivity. Qed.

Lemma looped_nil ht s cur : built (xl_block s) -> no_exit (insn (xl_block s)) -> looped ht s cur [] s [].
Proof.
  intros B Hx. split; [rewrite app_nil_r; reflexivity|exact B|constructor|reflexivity|left; exact Hx|].
  intros h m tmp c n [C0 J0 X0 P0 F0 D0] Ha. exists c. split; [reflexivity|]. split; [exact Ha|]. split; [exact C0|]. split; [exact J0|discriminate].
Qed.

Lemma fits_rest ht ht' s cur h m : at_rest ht ht' -> fits ht s cur h m -> fits ht' s cur h m.
Proof. intros R [C0 J0 X0 P0 F0 D0]. split; auto. rewrite F0. symmetry. apply calm_off, calm_rest, R. Qed.

Lemma loop_looped : forall fuel ht mt cur s l ht' mt' s', xlate_loop can_lower fuel ht mt cur s = (l, ht', mt', s') ->
  overflow (xl_block s') = false -> built (xl_block s) -> is_u32 cur -> even cur -> ctl ht -> J mt ht ->
  (xl_marked s = true -> fs_off ht = false) -> no_exit (insn (xl_block s)) -> exists new, looped ht s cur l s' new.
Proof.
  induction fuel as [|fuel IH]; intros ht mt cur s l ht' mt' s' E Ho B Uc Ec C0 J0 Hm Hx; cbn [xlate_loop] in E.
  { injection E as <- <- <- <-. exists []. apply looped_nil; assumption. }
  destruct (overflow (xl_block s)); [injection E as <- <- <- <-; exists []; apply looped_nil; assumption|].
  destruct (ir_fetch ht mt cur) as [[f h1] m1] eqn:Ef. destruct (fetch_ok _ _ _ _ _ _ Ef C0 J0) as (C1 & J1 & R1 & Hf).
  pose proof (calm_off _ _ (calm_rest _ _ R1)) as Ho1. rewrite <- Ho1 in Hm.
  destruct f as [[i len]|]; [|injection E as <- <- <- <-; exists []; apply looped_nil; assumption].
  destruct (Hf i len eq_refl) as [Ui Hlen]. destruct (xlate_insn can_lower h1 i cur len s) as [r s1] eqn:Ei.
  assert (Hs1 : overflow (xl_block s1) = false).
  { destruct (overflow (xl_block s1)) eqn:E1; [|reflexivity]. destruct r as [[]|]; [|injection E as <- <- <- <-; congruence..].
    rewrite (loop_overflowed fuel h1 m1 (cur +! len) s1 E1) in E. injection E as <- <- <- <-. congruence. }
  destruct (round_rounded h1 m1 i cur len s r s1 Ei Hs1 B Ui Uc Ec C1 J1 Hm Hx) as (new & [N1 B1 O1 S1 M1 T1 X1 Z1 K1]).
  assert (El : even (cur +! len)) by (apply even_add; [exact Ec|destruct Hlen as [-> | ->]; reflexivity]).
  destruct r as [more|].
  - assert (HN : exists rest l2 , l = (cur, len, i) :: l2 /\ insn (xl_block s') = insn (xl_block s) ++ new ++ rest /\ built (xl_block s') /\ Forall ok rest /\
      start_pc (xl_block s') = start_pc (xl_block s) /\ exit_tail (insn (xl_block s')) /\
      (forall h m tmp c n, more = true -> fits h1 s1 (cur +! len) h m -> at_ (c : cpu) h m -> pass_ok l2 h m n (seg t start rest (Live tmp c n)))).
    { destruct more.
      - destruct (xlate_loop can_lower fuel h1 m1 (cur +! len) s1) as [[[l2 h2] m2] s2] eqn:E2. injection E as <- <- <- <-.
        destruct (IH _ _ _ _ _ _ _ _ E2 Ho B1 (u32_range _) El C1 J1 M1 (X1 ltac:(discriminate))) as (rest & [N2 B2 O2 S2 T2 K2]).
        exists rest, l2. rewrite N2, N1, <- app_assoc. split; [reflexivity|]. split; [reflexivity|]. split; [exact B2|]. split; [exact O2|].
        split; [congruence|]. rewrite <- app_assoc, <- N1, <- N2 || (rewrite app_assoc, <- N1, <- N2). split; [exact T2|]. intros. apply K2; assumption.
      - injection E as <- <- <- <-. exists [], []. rewrite app_nil_r. split; [reflexivity|]. split; [exact N1|]. split; [exact B1|]. split; [constructor|].
        split; [exact S1|]. split; [exact T1|]. discriminate. }
    destruct HN as (rest & l2 & -> & N2 & B2 & O2 & S2 & T2 & K2). exists (new ++ rest).
    split; [exact N2|exact B2|apply Forall_app; auto|exact S2|exact T2|]. intros h m tmp c n F A. rewrite seg_app. apply (fits_rest _ _ _ _ _ _ R1) in F.
    eapply pass_cons; [exact Ui|exact Uc|exact F|apply K1; eassumption|discriminate|]. intros h2 m2 tmp2 c2 [= ->] F2 _ A2. apply K2; auto.
  - injection E as <- <- <- <-. specialize (Z1 eq_refl). subst new. rewrite app_nil_r in N1. exists [].
    split; [rewrite app_nil_r; exact N1|exact B1|constructor|exact S1|exact T1|]. intros h m tmp c n [C2 J2 X2 P2 F2 D2] A.
    exists c. split; [reflexivity|]. split; [exact A|]. split; [exact C2|]. split; [exact J2|discriminate].
Qed.

End Block.
