(* ===== verification/RvIrRun.v ===== *)
(** * Running a translated block

    [rv_ir_translate], [emu_ir_optimise] and [emu_ir_interp] together: what
    the dispatcher runs in place of the interpreter of [RvInterp]. *)

From stdpp Require Import base list gmap.
From Stdlib Require Import ZArith Lia.
From S2P Require Import Prelude Bus BusProps RvHart RvBus RvPmp RvTrig RvMmu RvAccess RvTrap RvCsr RvDecode RvAtomic RvFpu RvInterp RvFrame RvTrapProps RvTyped RvGuest IrTypes IrFloat IrInterp IrPasses IrSem IrSubst IrLaws IrOptimise IrBuilder RvIr RvIrXlate RvIrCalm RvIrCpu RvIrSim RvIrRules RvIrAlu RvIrLower RvIrBlock.

Open Scope Z_scope.
Open Scope u32_scope.

(** ** The contract of a translated block *)

Lemma no_exit_last l : no_exit l -> exit_last l.
Proof. induction 1 as [|i l Hi _ IH]; [exact I|]. split; [contradiction|exact IH]. Qed.

Lemma exit_tail_last l : exit_tail l -> exit_last l.
Proof.
  intros [H|(l0 & i & -> & H)]; [apply no_exit_last, H|]. induction H as [|j l0 Hj _ IH]; cbn.
  - split; [constructor|exact I].
  - split; [contradiction|exact IH].
Qed.

Lemma reset_built `{IrConfig} b : built (emu_ir_reset b).
Proof.
  pose proof max_temps_ok. pose proof max_insns_ok. unfold built, count. cbn [emu_ir_reset next_temp insn overflow length]. split; [lia|]. split; [lia|].
  split; [constructor|]. intros _. split; [exact I|]. set_solver.
Qed.

Section Run.
Context {ICfg : IrConfig} `{Cfg : RvConfig} {SF : SoftFloat} {ST : SoftFloatTyped SF} {Ext M : Type} `{PB : PhysBus Ext M} `{L : RvLayout}.
Variable Inv : M -> Prop.
Variable G : Z -> Z -> Prop.
Variable pf : platform M.
Variable can_lower : emu_ir_op -> Z -> bool.
#[local] Abbreviation cpu := (cpu_t M).
#[local] Abbreviation t := (rv_ir_target pf).

(** The block's passes as the interpreter of [RvInterp] makes them: again while
    it closes on its own start and has not run for long. *)
Fixpoint block_loop (start : Z) (l : list (Z * Z * Z)) (fuel : nat) (h : rv_hart) (m : M) (n : Z) : option (rv_hart * M * Z) :=
  match fuel with
  | O => None
  | S fuel =>
      let '(w, h, m, n) := exec_block pf start l h m n in
      match w with
      | IR_RUN_LOOP => if n <? EMU_JIT_LOOP_CAP then block_loop start l fuel h m n else Some (h, m, n)
      | _ => Some (h, m, n)
      end
  end.

(** What the dispatcher has after a block. *)
Definition seen (r : bool * cpu * Z) : bool * rv_hart * M * Z := let '(ok, c, n) := r in (ok, hart_of c, mach_of c, n).
Definition ran (r : rv_hart * M * Z) : bool * rv_hart * M * Z := let '(h, m, n) := r in (true, h, m, n).

Lemma exec_block_not_declined start l : forall h m n w h' m' n', exec_block pf start l h m n = (w, h', m', n') -> w <> IR_RUN_DECLINED.
Proof.
  induction l as [|[[pc len] i] l IH]; intros h m n w h' m' n' E; cbn [exec_block] in E; [injection E as <- _ _ _; discriminate|].
  destruct (exec _ _ _ _ _ _) as [nx ctr h1 m1|e tv h1 m1].
  - destruct (leaves h i); [|eapply IH, E]. injection E as <- _ _ _. unfold exit_kind. destruct (_ && _); discriminate.
  - destruct (rv_hart_trap _ _ _ _). injection E as <- _ _ _. discriminate.
Qed.

Hypothesis W : guest_world Inv G pf.
Hypothesis no_fp : forall o ax, fp_arith o = true -> can_lower o ax = false.

(** What [rv_ir_translate] hands over. *)
Record translated (ht : rv_hart) (pc : Z) (l : list (Z * Z * Z)) (b : emu_ir_block) : Prop := {
  tr_over : overflow b = false;
  tr_start : start_pc b = pc;
  tr_front : frontend_block t (insn b);
  tr_models : interp_models (insn b) t = true;
  tr_live : Forall (fun i => dead i = false) (insn b);
  tr_runs : forall h m tmp (c : cpu) n s, xl_marked s = false -> fits Inv G ht s pc h m -> at_ c h m ->
    pass_ok Inv G pf pc l h m n (seg t pc (insn b) (Live tmp c n))
}.

Lemma translate_ok ram pt rom ht mt pc b0 n l ht' mt' b : rv_ir_translate can_lower ram pt rom ht mt pc b0 = (n, l, ht', mt', b) -> n <> 0 ->
  guest_inv Inv G ht mt -> is_u32 pc -> even pc -> translated ht pc l b.
Proof.
  intros E Hn [C0 J0] Up Ep. unfold rv_ir_translate in E. destruct (rv_ir_fast_mem ram ht mt) as [fast m1] eqn:Ef.
  assert (J1 : J Inv G m1 ht).
  { eapply J_mem; [|exact J0]. unfold rv_ir_fast_mem in Ef. destruct (_ || _); [injection Ef as _ <-; apply J0|].
    destruct (bus_find mt ram) as [r m2] eqn:Eb. injection Ef as _ <-. eapply (gw_find _ _ _ W); [apply J0|exact Eb]. }
  set (b1 := Block _ _ _ pc _ _ _ _ _) in E.
  assert (B1 : built b1) by exact (reset_built b0).
  destruct (xlate_loop can_lower _ ht m1 pc (Xl b1 false)) as [[[l1 h2] m2] s2] eqn:El.
  destruct (overflow (xl_block s2)) eqn:Eo; [injection E as <- _ _ _ _; congruence|]. injection E as _ <- _ _ <-.
  destruct (loop_looped Inv G pf can_lower W no_fp pc _ _ _ _ _ _ _ _ _ El Eo B1 Up Ep C0 J1 ltac:(discriminate) ltac:(constructor)) as (new & [N2 B2 O2 S2 T2 K2]).
  cbn [xl_block b1 insn emu_ir_reset app] in N2. destruct (emit_ok_block pf _ O2) as (U1 & U2 & U3). rewrite <- N2 in U1, U2, U3.
  destruct B2 as (_ & Hc & Hl & Hw). destruct (Hw Eo) as [Wf _].
  split; cbn [overflow start_pc insn]; [reflexivity|exact S2| |exact U3|exact Hl|].
  - split; [exact Wf|]. split; [exact U1|]. split; [exact U2|]. split; [apply exit_tail_last, T2|exact Hc].
  - intros h m tmp c k s Hs F A. rewrite N2. apply K2; [|exact A]. destruct F. split; auto. discriminate.
Qed.

(** A block may be entered by any hart at its start whose FS is on or off as it
    was for the translator. *)
Record enters (ht : rv_hart) (pc : Z) (h : rv_hart) (m : M) : Prop := {
  en_inv : guest_inv Inv G h m;
  en_x0 : h_x h 0 = 0;
  en_pc : h_pc h = pc;
  en_fs : h_fs_off h = h_fs_off ht
}.

Lemma enters_fits ht pc h m s : xl_marked s = false -> enters ht pc h m -> fits Inv G ht s pc h m.
Proof. intros Hs [[C J] X P F]. split; auto. congruence. Qed.

Lemma loop_runs ht pc l b : translated ht pc l b -> forall fuel tmp (c : cpu) h m n, enters ht pc h m -> at_ c h m ->
  option_map seen (interp_loop fuel b tmp c t n) = option_map ran (block_loop pc l fuel h m n).
Proof.
  intros T. destruct T as [To Ts Tf Tm Tl Tr].
  induction fuel as [|fuel IH]; intros tmp c h m n H A; [reflexivity|]. cbn [interp_loop block_loop]. unfold interp_once. rewrite Tm, Ts.
  pose proof (Tr h m tmp c n (Xl b false) eq_refl (enters_fits ht pc h m (Xl b false) eq_refl H) A) as P. unfold pass_ok in P.
  pose proof (seg_run t pc (insn b) Tl tmp c n) as R.
  pose proof (exec_block_not_declined pc l h m n) as ND.
  destruct (exec_block pf pc l h m n) as [[[w h2] m2] n2]. destruct P as (c2 & E2 & A2 & C2 & J2 & K).
  destruct (run t pc (insn b) tmp c n) as [[[w' tmp'] c'] n']. rewrite E2 in R. injection R as -> -> ->.
  specialize (ND _ _ _ _ eq_refl). destruct A2 as [Eh Em]. destruct w; [contradiction| |].
  - cbn [option_map seen ran]. rewrite Eh, Em. reflexivity.
  - destruct (n2 <? EMU_JIT_LOOP_CAP); [|cbn [option_map seen ran]; rewrite Eh, Em; reflexivity].
    destruct (K eq_refl) as (K1 & K2 & K3). apply IH; [|split; assumption]. split; [split; assumption|exact K1|exact K3|].
    change (fs_off h2 = fs_off ht). rewrite K2. apply H.
Qed.

(** ** How long it runs *)

Lemma exec_block_count start l : forall h m n w h' m' n', exec_block pf start l h m n = (w, h', m', n') ->
  0 <= n -> n + Z.of_nat (length l) < 2 ^ 32 -> n <= n' <= n + Z.of_nat (length l) /\ (w = IR_RUN_LOOP -> n < n').
Proof.
  induction l as [|[[pc len] i] l IH]; intros h m n w h' m' n' E H0 Hn; cbn [exec_block length] in *; [injection E as <- _ _ <-; split; [lia|discriminate]|].
  assert (E1 : n +! 1 = n + 1) by (apply u32_id; unfold is_u32; lia).
  destruct (exec _ _ _ _ _ _) as [nx ctr h1 m1|e tv h1 m1].
  - destruct (leaves h i); [injection E as _ _ _ <-; rewrite E1; lia|]. rewrite E1 in E. apply IH in E as [B _]; lia.
  - destruct (rv_hart_trap _ _ _ _). injection E as <- _ _ <-. split; [lia|discriminate].
Qed.

Lemma block_loop_returns start l : Z.of_nat (length l) < 2 ^ 31 -> forall fuel h m n, 0 <= n -> n < Z.max 1 EMU_JIT_LOOP_CAP ->
  (Z.to_nat (EMU_JIT_LOOP_CAP - n) < fuel)%nat -> is_Some (block_loop start l fuel h m n).
Proof.
  pose proof loop_cap_ok as Hcap. intros Hl. induction fuel as [|fuel IH]; intros h m n H0 Hn Hf; [lia|]. cbn [block_loop].
  destruct (exec_block pf start l h m n) as [[[w h2] m2] n2] eqn:E. destruct (exec_block_count _ _ _ _ _ _ _ _ _ E H0 ltac:(lia)) as [B K].
  destruct w; eauto. specialize (K eq_refl). destruct (Z.ltb_spec n2 EMU_JIT_LOOP_CAP); eauto. apply IH; lia.
Qed.

Lemma loop_length : forall fuel (ht : rv_hart) (mt : M) cur s l ht' mt' s', xlate_loop can_lower fuel ht mt cur s = (l, ht', mt', s') -> (length l <= fuel)%nat.
Proof.
  induction fuel as [|fuel IH]; intros ht mt cur s l ht' mt' s' E; cbn [xlate_loop] in E; [injection E as <- _ _ _; apply Nat.le_0_l|].
  destruct (overflow _); [injection E as <- _ _ _; apply Nat.le_0_l|]. destruct (ir_fetch _ _ _) as [[[[i len]|] h1] m1]; [|injection E as <- _ _ _; apply Nat.le_0_l].
  destruct (xlate_insn _ _ _ _ _ _) as [[[]|] s1]; [|injection E as <- _ _ _; cbn; lia..].
  destruct (xlate_loop _ _ _ _ _ _) as [[[l2 h2] m2] s2] eqn:E2. injection E as <- _ _ _. apply IH in E2. cbn. lia.
Qed.

Lemma translate_length ram pt rom ht mt pc b0 n l ht' mt' b : rv_ir_translate can_lower ram pt rom ht mt pc b0 = (n, l, ht', mt', b) ->
  (length l <= Z.to_nat RV_IR_MAX_BLOCK_INSNS)%nat.
Proof.
  unfold rv_ir_translate. destruct (rv_ir_fast_mem ram ht mt) as [fast m1]. destruct (xlate_loop _ _ _ _ _ _) as [[[l1 h2] m2] s2] eqn:E. intros E1.
  cbv zeta in E1. assert (l1 = l) as <- by (destruct (overflow (xl_block s2)); injection E1; auto). eapply loop_length, E.
Qed.

Lemma block_runs ram pt rom ht mt pc b0 n l ht' mt' b totals b' st totals' :
  guest_inv Inv G ht mt -> is_u32 pc -> Z.odd pc = false ->
  rv_ir_translate can_lower ram pt rom ht mt pc b0 = (n, l, ht', mt', b) -> n <> 0 ->
  emu_ir_optimise can_lower totals b (Some t) EMU_IR_F_ALL = (b', st, totals') ->
  forall h m, enters ht pc h m -> forall fuel tmp (c : cpu), hart_of c = h -> mach_of c = m ->
  option_map seen (emu_ir_interp fuel b' tmp c t) = option_map ran (block_loop pc l fuel h m 0) /\
  ((Z.to_nat EMU_JIT_LOOP_CAP < fuel)%nat -> is_Some (block_loop pc l fuel h m 0)).
Proof.
  intros HI Up Ep ET Hn EO h m HE fuel tmp c Eh Em. pose proof (translate_ok _ _ _ _ _ _ _ _ _ _ _ _ ET Hn HI Up Ep) as T.
  pose proof T as [To Ts Tf Tm Tl Tr]. split.
  - apply emu_ir_optimise_cases in EO as [[Ho _]|(_ & l' & EO & ->)]; [congruence|].
    destruct (optimise_insns_ok t can_lower (start_pc b) _ _ _ Tf Tm EO) as (_ & Hq & Hm').
    unfold emu_ir_interp. cbn [overflow set_insn]. rewrite To.
    rewrite <- (interp_loop_equiv t b (set_insn b l') eq_refl Tm Hm' Hq fuel tmp tmp c 0).
    eapply loop_runs; [exact T|exact HE|split; assumption].
  - intros Hf. pose proof loop_cap_ok. apply translate_length in ET. unfold RV_IR_MAX_BLOCK_INSNS in ET.
    apply block_loop_returns; [lia|lia|lia|]. rewrite Z.sub_0_r. exact Hf.
Qed.

(** [C40] Translation, optimisation and the reference interpreter of the IR
    together do what the RV32 interpreter does.  Where [rv_ir_translate] makes
    a block at [pc], for a backend that leaves floating-point arithmetic to the
    helper, then from every typed hart at [pc] with x0 zero and FS on or off as
    it was at translation, running the optimised block leaves the hart, the
    machine and the count that executing the block's instructions one by one
    leaves -- traps taken, jumps followed, the block repeated while it closes on
    its own start -- for every number of rounds, and [EMU_JIT_LOOP_CAP + 1]
    rounds are enough. *)
Theorem translated_runs ram pt rom ht mt pc b0 n l ht' mt' b totals b' st totals' :
  guest_inv Inv G ht mt -> is_u32 pc -> Z.odd pc = false ->
  rv_ir_translate can_lower ram pt rom ht mt pc b0 = (n, l, ht', mt', b) -> n <> 0 ->
  emu_ir_optimise can_lower totals b (Some t) EMU_IR_F_ALL = (b', st, totals') ->
  forall h m, enters ht pc h m -> forall fuel tmp (c : cpu), hart_of c = h -> mach_of c = m ->
  option_map seen (emu_ir_interp fuel b' tmp c t) = option_map ran (block_loop pc l fuel h m 0) /\
  ((Z.to_nat EMU_JIT_LOOP_CAP < fuel)%nat -> is_Some (block_loop pc l fuel h m 0)).
Proof. apply block_runs. Qed.

End Run.
