(* ===== verification/RvIrBounds.v ===== *)
(** * The limits of a block

    How large a translated block is and how long it runs before the dispatcher
    looks for interrupts again; and what the dispatcher's context key says
    about the harts that may enter it. *)

From stdpp Require Import base list gmap.
From Stdlib Require Import ZArith Lia.
From S2P Require Import Prelude Bus BusProps RvHart RvBus RvMmu RvTrap RvCsr RvFpu RvInterp RvFrame RvCoherent RvTyped RvMem RvInv RvGuest IrTypes IrInterp IrPasses IrLaws IrLoop IrBuilder RvIr RvIrXlate RvIrCpu RvIrSim RvIrRules RvIrLower RvIrBlock RvIrRun.

Open Scope Z_scope.
Open Scope u32_scope.
Open Scope build_scope.

(** ** The arrays of a block *)

Section Size.
Context {ICfg : IrConfig}.

Definition inside (b : emu_ir_block) : Prop := count b <= EMU_IR_MAX_INSNS /\ 0 <= next_temp b <= EMU_IR_MAX_TEMPS.
Definition within (s s' : xl) : Prop := inside (xl_block s) -> inside (xl_block s').

#[export] Instance within_order : PreOrder within.
Proof. split; unfold within; [intros s H; exact H|intros s1 s2 s3; auto]. Qed.

Lemma emit_inside b o ax a bb im df : inside b -> inside (snd (emu_ir_emit b o ax a bb im df)).
Proof.
  pose proof max_temps_ok as K. intros [Hc Hn]. unfold emu_ir_emit, emu_ir_temp. destruct (Z.leb_spec EMU_IR_MAX_INSNS (count b)) as [|Lt]; [split; assumption|].
  unfold inside, count in *. destruct (op_writes o); [destruct (Z.leb_spec EMU_IR_MAX_TEMPS (next_temp b))|];
    cbn [snd insn next_temp set_insn set_overflow set_next_temp]; rewrite length_app; cbn [length]; split; try lia.
  rewrite u32_id by (unfold is_u32; lia). lia.
Qed.

Lemma emits_within o : Emits within o.
Proof.
  split; intros ax a b im s H.
  - unfold emit. pose proof (emit_inside (xl_block s) o ax a b im 0 H) as K. destruct (emu_ir_emit _ _ _ _ _ _ _). exact K.
  - unfold emit3, emu_ir_emit3. pose proof (emit_inside (xl_block s) o ax a b 0 0 H) as K.
    destruct (emu_ir_emit _ _ _ _ _ _ _) as [d blk]. destruct (_ && _); [|exact K].
    unfold inside, count in *. cbn [snd xl_block insn set_last_c set_insn next_temp] in *. rewrite length_alter. exact K.
Qed.

#[local] Ltac emits ::= apply emits_within.

Lemma mark_within : Walks within mark_fs.
Proof. apply (mark_walks within); [apply emits_within..|intros s H; exact H]. Qed.

Lemma lower_within can_lower h insn pc len : Walks within (lower_one can_lower h insn pc len).
Proof. unfold lower_one, lower_jal, lower_jalr. walk; apply mark_within. Qed.

Lemma finish_within pc len r : Walks within (finish_insn pc len r).
Proof. destruct r; unfold finish_insn; walk. Qed.

Lemma roll_back_within k s : within s (roll_back k s).
Proof. intros [Hc Hn]. unfold inside, count, roll_back in *. cbn [xl_block insn set_insn next_temp]. rewrite length_take. split; [lia|exact Hn]. Qed.

Lemma xlate_within can_lower h i pc len : Walks within (xlate_insn can_lower h i pc len).
Proof.
  intros s H. rewrite xlate_insn_eq. pose proof (lower_within can_lower h i pc len s H) as H1. destruct (lower_one _ _ _ _ _ _) as [r s1].
  destruct r; [apply roll_back_within, H1|apply finish_within, H1].
Qed.
End Size.

(** ** What a block counts *)

(** The marks a program appends, unless the block overflows. *)
Section Counts.
Context {ICfg : IrConfig}.
Variable start : Z.
#[local] Abbreviation mks s := (marks start (insn (xl_block s))).

Definition adds (Q : list mark -> Prop) (s s' : xl) : Prop :=
  overflow (xl_block s') = false -> overflow (xl_block s) = false /\ exists q, mks s' = mks s ++ q /\ Q q.
Definition silent : xl -> xl -> Prop := adds (Forall (eq Quiet)).

#[local] Instance silent_order : PreOrder silent.
Proof.
  split.
  - intros s Ho. split; [exact Ho|]. exists []. rewrite app_nil_r. auto.
  - intros s1 s2 s3 H12 H23 Ho. destruct (H23 Ho) as (Ho2 & q2 & E2 & Q2). destruct (H12 Ho2) as (Ho1 & q1 & E1 & Q1).
    split; [exact Ho1|]. exists (q1 ++ q2). rewrite E2, E1, app_assoc. split; [reflexivity|]. apply Forall_app. auto.
Qed.

(** The instruction an emission that fits appends. *)
Lemma emit_marks b o ax a bb im df b' d : emu_ir_emit b o ax a bb im df = (d, b') -> overflow b' = false ->
  overflow b = false /\ marks start (insn b') = marks start (insn b) ++ [mark_of start (IrTypes.Insn o ax d a bb EMU_IR_NO_TEMP im df df 0 false)].
Proof.
  unfold emu_ir_emit, emu_ir_temp, marks. destruct (_ <=? _); [intros [= <- <-]; discriminate|].
  destruct (op_writes o); [destruct (_ <=? _)|]; intros [= <- <-]; cbn [overflow insn set_insn set_overflow set_next_temp];
    try discriminate; rewrite map_app; auto.
Qed.

Definition plain_op (o : emu_ir_op) : bool :=
  match o with EMU_IR_RETIRE | EMU_IR_EXIT | EMU_IR_EXIT_IF => false | _ => true end.

Lemma plain_mark i : plain_op (op i) = true -> mark_of start i = Quiet.
Proof. unfold mark_of. destruct (dead i); [reflexivity|]. destruct (op i); discriminate || reflexivity. Qed.

Lemma marks_last_c c b : marks start (insn (set_last_c b c)) = marks start (insn b).
Proof.
  unfold marks, set_last_c. cbn [insn set_insn]. apply list_eq. intros k. rewrite !list_lookup_fmap, list_lookup_alter.
  destruct (decide _) as [<-|_]; [|reflexivity]. destruct (insn b !! _) as [i|]; reflexivity.
Qed.

Lemma emits_silent o : plain_op o = true -> Emits silent o.
Proof.
  intros Hp. split; intros ax a b im s.
  - unfold emit. destruct (emu_ir_emit (xl_block s) o ax a b im 0) as [d b'] eqn:E. intros Ho. destruct (emit_marks _ _ _ _ _ _ _ _ _ E Ho) as [H1 H2].
    split; [exact H1|]. eexists. split; [exact H2|]. repeat constructor. symmetry. apply plain_mark, Hp.
  - unfold emit3, emu_ir_emit3. destruct (emu_ir_emit (xl_block s) o ax a b 0 0) as [d b'] eqn:E. intros Ho.
    assert (Ho' : overflow b' = false) by (destruct (_ && _) in Ho; exact Ho). destruct (emit_marks _ _ _ _ _ _ _ _ _ E Ho') as [H1 H2].
    split; [exact H1|]. exists [Quiet]. split; [|repeat constructor]. destruct (_ && _); cbn [snd xl_block]; rewrite ?marks_last_c, H2, plain_mark by exact Hp; reflexivity.
Qed.

#[local] Ltac some_plain := repeat match goal with |- context [if ?b then _ else _] => destruct b end; reflexivity.
#[local] Ltac emits ::= apply emits_silent; some_plain.

Lemma mark_silent : Walks silent mark_fs.
Proof. apply (mark_walks silent); [apply emits_silent; reflexivity..|intros s Ho; split; [exact Ho|exists []; rewrite app_nil_r; auto]]. Qed.

(** What an instruction may add: one RETIRE at most, before any exit. *)
Definition fair (q : list mark) : Prop := Forall positive q /\ total q <= 1 /\ forall seen, back_counted seen q = true.

Lemma quiet_fair q : Forall (eq Quiet) q -> fair q.
Proof.
  intros H. split; [|split; [rewrite total_quiet by exact H; lia|intros seen; apply back_quiet, H]].
  eapply Forall_impl; [exact H|]. intros m <-. exact I.
Qed.

(** Joining a stretch that adds nothing with one that is fair. *)
Lemma fair_app q1 q2 : Forall (eq Quiet) q1 /\ fair q2 \/ fair q1 /\ Forall (eq Quiet) q2 -> fair (q1 ++ q2).
Proof.
  unfold fair. rewrite total_app. intros [[Q (F1 & F2 & F3)]|[(F1 & F2 & F3) Q]]; pose proof (quiet_fair _ Q) as (P & _); rewrite (total_quiet _ Q).
  all: split; [apply Forall_app; auto|split; [lia|intros seen; rewrite back_counted_app, (back_quiet _ _ Q), F3; reflexivity]].
Qed.

(** A lowering, by what [xlate_insn] goes on to do. *)
Definition Fair (p : build lowered) : Prop := forall s,
  adds (fun q => fair q /\ match fst (p s) with Lowered _ false => Forall (eq Quiet) q | _ => True end) s (snd (p s)).

Lemma silent_fair p : Walks silent p -> Fair p.
Proof.
  intros H s Ho. destruct (H s Ho) as (H1 & q & E & Q). split; [exact H1|]. exists q. split; [exact E|].
  split; [apply quiet_fair, Q|]. destruct (fst (p s)) as [|e []]; auto.
Qed.

Lemma fair_bind {A} (p : build A) q : Walks silent p -> (forall a, Fair (q a)) -> Fair (bind p q).
Proof.
  intros Hp Hq s. unfold bind. specialize (Hp s). destruct (p s) as [a s1]. specialize (Hq a s1). intros Ho. cbn [snd] in *.
  destruct (Hq Ho) as (Ho1 & q2 & E2 & F2 & R). destruct (Hp Ho1) as (Ho0 & q1 & E1 & Q1).
  split; [exact Ho0|]. exists (q1 ++ q2). rewrite E2, E1, app_assoc. split; [reflexivity|]. split; [apply fair_app; auto|].
  destruct (fst (q a s1)) as [|e []]; auto. apply Forall_app. auto.
Qed.

(** A jump: the instruction is counted, then the block is left. *)
Lemma fair_jump o ax a b im e : o = EMU_IR_EXIT \/ o = EMU_IR_EXIT_IF -> Fair (emit_retire ;;; emit o ax a b im ;;; done (Lowered e true)).
Proof.
  intros Ho s. unfold bind, emit_retire, emit, done, adds.
  destruct (emu_ir_emit (xl_block s) EMU_IR_RETIRE 0 _ _ 0 0) as [d1 b1] eqn:E1. cbn [xl_block].
  destruct (emu_ir_emit b1 o ax a b im 0) as [d2 b2] eqn:E2. cbn [snd fst xl_block]. intros H2.
  destruct (emit_marks _ _ _ _ _ _ _ _ _ E2 H2) as [H1 M2]. destruct (emit_marks _ _ _ _ _ _ _ _ _ E1 H1) as [H0 M1].
  split; [exact H0|]. rewrite M2, M1, <- app_assoc. eexists. split; [reflexivity|]. split; [|exact I].
  destruct Ho as [-> | ->]; cbn; (split; [repeat constructor; cbn; lia|]; split; [cbn; lia|reflexivity]).
Qed.

Lemma lower_fair can_lower h insn pc len : Fair (lower_one can_lower h insn pc len).
Proof.
  unfold lower_one. cbv zeta.
  repeat match goal with |- Fair (if ?b then _ else _) => destruct b end;
    try solve [apply silent_fair; walk; try apply mark_silent; unfold k_fp, default; walk].
  - unfold lower_branch. cbv zeta. destruct (_ || _); [apply silent_fair; walk|].
    do 2 (apply fair_bind; [walk|intros ?]). apply fair_jump. auto.
  - unfold lower_jal. do 2 (apply fair_bind; [walk|intros ?]). apply fair_jump. auto.
  - unfold lower_jalr. destruct (negb _); [apply silent_fair; walk|]. do 7 (apply fair_bind; [walk|intros ?]). apply fair_jump. auto.
Qed.

Lemma finish_counts pc len ends s : adds fair s (snd (finish_insn pc len (Lowered ends false) s)).
Proof.
  assert (W : Walks silent (if ends then done (Some false) else setpc (pc +! len) ;;; done (Some true))) by walk.
  unfold finish_insn, bind at 1, emit_retire, emit. destruct (emu_ir_emit (xl_block s) EMU_IR_RETIRE 0 _ _ 0 0) as [d b] eqn:E. intros Ho.
  destruct (W _ Ho) as (H1 & q & E1 & Q1). destruct (emit_marks _ _ _ _ _ _ _ _ _ E H1) as [H0 M]. split; [exact H0|].
  exists ([Count 1] ++ q). rewrite E1. cbn [xl_block]. rewrite M, <- app_assoc. split; [reflexivity|]. apply fair_app. right. split; [|exact Q1].
  split; [constructor; [cbn; lia|constructor]|]. split; [cbn; lia|reflexivity].
Qed.

Lemma roll_back_marks s s1 q : mks s1 = mks s ++ q -> mks (roll_back (length (insn (xl_block s))) s1) = mks s.
Proof.
  intros E. cbn [roll_back xl_block insn set_insn]. unfold marks in *. rewrite <- firstn_map, E. apply take_app_length'. rewrite length_map. reflexivity.
Qed.

(** One round. *)
Lemma xlate_fair can_lower h i pc len s : adds fair s (snd (xlate_insn can_lower h i pc len s)).
Proof.
  rewrite xlate_insn_eq. pose proof (lower_fair can_lower h i pc len s) as H. destruct (lower_one can_lower h i pc len s) as [r s1]. cbn [fst snd] in H.
  destruct r as [|ends counted]; intros Ho.
  - destruct (H Ho) as (H0 & q & E & _). split; [exact H0|]. exists []. split; [|apply quiet_fair; constructor]. rewrite app_nil_r. apply (roll_back_marks s s1 q E).
  - assert (HS : silent s1 (snd (finish_insn pc len (Lowered ends true) s1)))
      by (assert (W : Walks silent (finish_insn pc len (Lowered ends true))) by (unfold finish_insn; walk); apply W).
    destruct counted.
    + destruct (HS Ho) as (H1 & q2 & E2 & Q2). destruct (H H1) as (H0 & q1 & E1 & F1 & _). split; [exact H0|].
      exists (q1 ++ q2). rewrite E2, E1, app_assoc. split; [reflexivity|]. apply fair_app. auto.
    + destruct (finish_counts pc len ends s1 Ho) as (H1 & q2 & E2 & F2). destruct (H H1) as (H0 & q1 & E1 & _ & Q1). split; [exact H0|].
      exists (q1 ++ q2). rewrite E2, E1, app_assoc. split; [reflexivity|]. apply fair_app. auto.
Qed.

(** A lowering that declined leaves the block as it was. *)
Lemma xlate_none can_lower h i pc len s : fst (xlate_insn can_lower h i pc len s) = None ->
  overflow (xl_block (snd (xlate_insn can_lower h i pc len s))) = false -> mks (snd (xlate_insn can_lower h i pc len s)) = mks s.
Proof.
  rewrite xlate_insn_eq. pose proof (lower_fair can_lower h i pc len s) as H. destruct (lower_one can_lower h i pc len s) as [[|ends counted] s1]; cbn [fst snd] in *.
  - intros _ Ho. destruct (H Ho) as (_ & q & E & _). apply (roll_back_marks s s1 q E).
  - unfold finish_insn, bind, done. destruct (if counted then _ else _) as [? s2], ends; [discriminate|destruct (setpc _ s2); discriminate..].
Qed.
End Counts.

Section Limits.
Context {ICfg : IrConfig} `{Cfg : RvConfig} {SF : SoftFloat} {Ext M : Type} `{PB : PhysBus Ext M} `{L : RvLayout}.
Variable pf : platform M.
Variable can_lower : emu_ir_op -> Z -> bool.
#[local] Abbreviation cpu := (cpu_t M).
#[local] Abbreviation t := (rv_ir_target pf).

Lemma loop_within : forall fuel h m cur s, within s (snd (xlate_loop can_lower fuel h m cur s)).
Proof.
  induction fuel as [|fuel IH]; intros h m cur s H; cbn [xlate_loop]; [exact H|]. destruct (overflow _); [exact H|].
  destruct (ir_fetch h m cur) as [[[[i len]|] h1] m1]; [|exact H].
  pose proof (xlate_within can_lower h1 i cur len s H) as H1. destruct (xlate_insn _ _ _ _ _ _) as [[[]|] s1]; [|exact H1..].
  specialize (IH h1 m1 (cur +! len) s1 H1). destruct (xlate_loop _ _ _ _ _ _) as [[[l2 h2] m2] s2]. exact IH.
Qed.

Lemma translate_inside ram pt rom ht mt pc b0 n l ht' mt' b : rv_ir_translate can_lower ram pt rom ht mt pc b0 = (n, l, ht', mt', b) ->
  inside b /\ n = if overflow b then 0 else Z.of_nat (length l).
Proof.
  unfold rv_ir_translate. destruct (rv_ir_fast_mem ram ht mt) as [fast m1]. set (b1 := Block _ _ _ pc _ _ _ _ _).
  assert (H : inside b1) by (destruct (reset_built b0) as (Hn & Hc & _); split; assumption).
  pose proof (loop_within (Z.to_nat RV_IR_MAX_BLOCK_INSNS) ht m1 pc (Xl b1 false) H) as K.
  destruct (xlate_loop _ _ _ _ _ _) as [[[l1 h2] m2] s2]. cbn [snd] in K. destruct (overflow (xl_block s2)) eqn:E; intros [= <- <- _ _ <-].
  - split; [exact K|]. rewrite E. reflexivity.
  - split; [exact K|reflexivity].
Qed.

(** ** How long a block runs *)

Lemma loop_counts start : forall fuel h m cur s l h' m' s', xlate_loop can_lower fuel h m cur s = (l, h', m', s') -> overflow (xl_block s') = false ->
  exists q, marks start (insn (xl_block s')) = marks start (insn (xl_block s)) ++ q /\
    Forall positive q /\ total q <= Z.of_nat (length l) /\ forall seen, back_counted seen q = true.
Proof.
  assert (Hnil : forall s : xl, exists q, marks start (insn (xl_block s)) = marks start (insn (xl_block s)) ++ q /\
    Forall positive q /\ total q <= 0 /\ forall seen, back_counted seen q = true).
  { intros s. exists []. rewrite app_nil_r. cbn. auto with lia. }
  induction fuel as [|fuel IH]; intros h m cur s l h' m' s' E Ho; cbn [xlate_loop] in E; [injection E as <- _ _ <-; apply Hnil|].
  destruct (overflow _); [injection E as <- _ _ <-; apply Hnil|].
  destruct (ir_fetch h m cur) as [[[[i len]|] h1] m1]; [|injection E as <- _ _ <-; apply Hnil].
  pose proof (xlate_fair start can_lower h1 i cur len s) as HX. pose proof (xlate_none start can_lower h1 i cur len s) as HN.
  destruct (xlate_insn can_lower h1 i cur len s) as [r s1]. cbn [fst snd] in *. destruct r as [[|]|].
  - destruct (xlate_loop can_lower fuel h1 m1 (cur +! len) s1) as [[[l2 h2] m2] s2] eqn:E2. injection E as <- _ _ <-.
    destruct (IH _ _ _ _ _ _ _ _ E2 Ho) as (q2 & M2 & P2 & T2 & B2).
    assert (Ho1 : overflow (xl_block s1) = false) by (destruct (overflow (xl_block s1)) eqn:Eo; [|reflexivity]; rewrite loop_overflowed in E2 by exact Eo; congruence).
    destruct (HX Ho1) as (_ & q1 & M1 & P1 & T1 & B1). exists (q1 ++ q2). rewrite M2, M1, app_assoc, total_app. split; [reflexivity|].
    split; [apply Forall_app; auto|]. split; [cbn [length]; lia|]. intros seen. rewrite back_counted_app, B1, B2. reflexivity.
  - injection E as <- _ _ <-. destruct (HX Ho) as (_ & q & M1 & F). exists q. split; [exact M1|]. exact F.
  - injection E as <- _ _ <-. rewrite (HN eq_refl Ho). apply Hnil.
Qed.

(** What is true of every block the translator makes and does not give up. *)
Lemma translate_counts ram pt rom ht mt pc b0 n l ht' mt' b : rv_ir_translate can_lower ram pt rom ht mt pc b0 = (n, l, ht', mt', b) -> overflow b = false ->
  counts_ok (insn b) /\ loop_retires b = true /\ 0 <= retire_total b <= Z.of_nat (length l).
Proof.
  unfold rv_ir_translate. destruct (rv_ir_fast_mem ram ht mt) as [fast m1]. set (b1 := Block _ _ _ pc _ _ _ _ _).
  destruct (xlate_loop can_lower _ ht m1 pc (Xl b1 false)) as [[[l1 h2] m2] s2] eqn:El.
  destruct (overflow (xl_block s2)) eqn:Eo; intros E Hb; injection E as _ <- _ _ <-; [congruence|].
  destruct (loop_counts (start_pc (xl_block s2)) _ _ _ _ _ _ _ _ _ El Eo) as (q & Em & Hp & Ht & Hr).
  change (marks _ (insn (xl_block (Xl b1 false)))) with (@nil mark) in Em. cbn [app] in Em. unfold loop_retires, retire_total. cbn [insn start_pc]. rewrite Em.
  split; [|split; [apply Hr|split; [apply total_nonneg, Hp|exact Ht]]]. eapply positive_counts. rewrite Em. exact Hp.
Qed.

(** [C20] The limits of a block.  Whatever the guest's code is, whatever the
    hart, and whatever the backend can lower -- its floating point included --
    translation stays inside the two arrays of the block, also where it
    overflows them, which it reports by answering 0, and takes at most 64
    instructions.  The block it makes, as it is or optimised, gives control
    back: from every state, [EMU_JIT_LOOP_CAP + 1] passes of the interpreter
    are enough, and it has retired fewer than [EMU_JIT_LOOP_CAP + 64]
    instructions, which is how long an interrupt can wait for a block.  (A
    block the interpreter refuses, with an operation it does not model, is
    among them.) *)
Theorem translated_bounds ram pt rom ht mt pc b0 n l ht' mt' b :
  rv_ir_translate can_lower ram pt rom ht mt pc b0 = (n, l, ht', mt', b) ->
  0 <= n <= RV_IR_MAX_BLOCK_INSNS /\ (overflow b = true -> n = 0) /\
  count b <= EMU_IR_MAX_INSNS /\ 0 <= next_temp b <= EMU_IR_MAX_TEMPS /\
  (forall totals b' st totals' live_out, emu_ir_optimise can_lower totals b (Some t) live_out = (b', st, totals') ->
   forall b2, b2 = b \/ b2 = b' -> forall tmp (c : cpu),
   exists ok c' k, emu_ir_interp (S (Z.to_nat EMU_JIT_LOOP_CAP)) b2 tmp c t = Some (ok, c', k) /\
                   0 <= k < Z.max 1 EMU_JIT_LOOP_CAP + RV_IR_MAX_BLOCK_INSNS).
Proof.
  intros E. destruct (translate_inside _ _ _ _ _ _ _ _ _ _ _ _ E) as [[Hc Ht] Hn]. pose proof (translate_length can_lower _ _ _ _ _ _ _ _ _ _ _ _ E) as Hl.
  unfold RV_IR_MAX_BLOCK_INSNS in *.
  split; [subst n; destruct (overflow b); lia|]. split; [intros Ho; rewrite Hn, Ho; reflexivity|]. split; [exact Hc|]. split; [exact Ht|].
  intros totals b' st totals' live_out EO b2 H2 tmp c. pose proof loop_cap_ok. destruct (overflow b) eqn:Ho.
  - assert (Eb : overflow b2 = true) by (destruct H2 as [-> | ->]; [exact Ho|unfold emu_ir_optimise in EO; rewrite Ho in EO; congruence]).
    unfold emu_ir_interp. rewrite Eb. exists false, c, 0. split; [reflexivity|lia].
  - destruct (translate_counts _ _ _ _ _ _ _ _ _ _ _ _ E Ho) as (C1 & L1 & T1).
    destruct (optimise_counts can_lower totals _ live_out _ _ _ _ EO C1 ltac:(lia)) as (C2 & T2 & L2).
    assert (K : counts_ok (insn b2) /\ loop_retires b2 = true /\ retire_total b2 = retire_total b) by (destruct H2 as [-> | ->]; auto; split_and!; congruence).
    destruct K as (K1 & K2 & K3). destruct (interp_returns t b2 tmp c (S (Z.to_nat EMU_JIT_LOOP_CAP)) K1 K2) as (ok & c' & k & R & Hk); [rewrite K3; lia|lia|].
    exists ok, c', k. split; [exact R|]. rewrite K3 in Hk. lia.
Qed.
End Limits.

(** ** What the context key carries *)

Section Key.
Context {ICfg : IrConfig}.

(** [satp] and the privilege, which takes the two bits [satp] leaves clear. *)
Definition key_low (h : rv_hart) : Z := h_satp h |! (h_priv h <<! 20).
(** FS and the rounding mode. *)
Definition key_fp (h : rv_hart) : Z := (bz (h_fs_off h) <<! 3) |! RV_IR_FRM h.

Lemma priv_field h : true_priv (h_priv h) -> h_priv h <<! 20 = 1048576 * h_priv h /\ (h_priv h <<! 20) &! 3145728 = h_priv h <<! 20.
Proof. intros [-> | [-> | ->]]; split; reflexivity. Qed.

Lemma key_low_parts h : true_priv (h_priv h) -> ppn_fits (h_satp h) ->
  key_low h &! 3145728 = 1048576 * h_priv h /\ Z.ldiff (key_low h) 3145728 = h_satp h.
Proof.
  intros Hp Hs. destruct (priv_field h Hp) as [E1 E2]. unfold key_low, ppn_fits in *. rewrite Z.land_lor_distr_l, Hs, Z.lor_0_l, E2. split; [exact E1|].
  apply Z.bits_inj'. intros i Hi. pose proof (f_equal (fun z => Z.testbit z i) Hs) as B1. pose proof (f_equal (fun z => Z.testbit z i) E2) as B2. cbv beta in B1, B2.
  rewrite Z.land_spec, ?Z.bits_0 in B1. rewrite Z.land_spec in B2. rewrite Z.ldiff_spec, Z.lor_spec.
  destruct (Z.testbit 3145728 i), (Z.testbit (h_satp h) i), (Z.testbit (h_priv h <<! 20) i); cbn in *; congruence.
Qed.

Lemma frm_range h : 0 <= RV_IR_FRM h < 8.
Proof. unfold RV_IR_FRM. change 7 with (Z.ones 3). rewrite Z.land_ones by lia. apply Z.mod_pos_bound. reflexivity. Qed.

(** Two fields side by side. *)
Lemma beside x y k : 0 <= x < 2 ^ k -> 0 <= k -> Z.lor x (Z.shiftl y k) = x + y * 2 ^ k.
Proof.
  intros Hx Hk. rewrite lor_add, Z.shiftl_mul_pow2; [reflexivity|exact Hk|]. apply Z.bits_inj'. intros i Hi. rewrite Z.land_spec, Z.bits_0.
  destruct (Z.lt_ge_cases i k); [rewrite Z.shiftl_spec_low by lia; apply andb_false_r|].
  rewrite <- (Z.mod_small x (2 ^ k)), Z.mod_pow2_bits_high by lia. reflexivity.
Qed.

Lemma key_fp_value h : key_fp h = 8 * bz (h_fs_off h) + RV_IR_FRM h.
Proof.
  pose proof (frm_range h) as R. unfold key_fp. destruct (h_fs_off h); cbn [bz]; [|reflexivity].
  rewrite Z.lor_comm. change (Z.lor (RV_IR_FRM h) (Z.shiftl 1 3) = 8 * 1 + RV_IR_FRM h). rewrite beside by lia. lia.
Qed.

Lemma data_priv_range h : true_priv (h_priv h) -> 0 <= rv_hart_data_priv h < 4.
Proof.
  intros Hp. unfold rv_hart_data_priv. destruct (has _ _); [apply mpp_range|]. unfold true_priv, RV_PRIV_U, RV_PRIV_S, RV_PRIV_M in Hp. lia.
Qed.

Lemma fields_sum a b c : 0 <= a < 2 ^ 32 -> 0 <= b < 16 -> a |! Z.shiftl b 32 |! Z.shiftl c 36 = a + b * 2 ^ 32 + c * 2 ^ 36.
Proof. intros Ha Hb. rewrite (beside a b 32) by lia. apply beside; lia. Qed.

Lemma key_low_u32 h : typed h -> is_u32 (key_low h).
Proof. intros [C _]. pose proof (ct_satp _ C) as S. unfold key_low. apply is_u32_lor; [exact S|]. typed. Qed.

Lemma ctx_key_value h : typed h -> true_priv (h_priv h) -> rv_jit_ctx_key h = key_low h + key_fp h * 2 ^ 32 + rv_hart_data_priv h * 2 ^ 36.
Proof.
  intros T Hp. pose proof (frm_range h). apply fields_sum; [apply key_low_u32, T|].
  change (0 <= key_fp h < 16). rewrite key_fp_value. destruct (h_fs_off h); unfold bz, Z.b2z; lia.
Qed.

Lemma low_inj h1 h2 : typed h1 -> typed h2 -> true_priv (h_priv h1) -> true_priv (h_priv h2) -> key_low h1 = key_low h2 ->
  h_satp h1 = h_satp h2 /\ h_priv h1 = h_priv h2.
Proof.
  intros [C1 _] [C2 _] P1 P2 E. destruct (key_low_parts h1 P1 (ct_ppn _ C1)) as [A1 B1]. destruct (key_low_parts h2 P2 (ct_ppn _ C2)) as [A2 B2].
  rewrite E in A1, B1. split; [congruence|lia].
Qed.

Lemma key_parts h1 h2 : typed h1 -> typed h2 -> true_priv (h_priv h1) -> true_priv (h_priv h2) -> rv_jit_ctx_key h1 = rv_jit_ctx_key h2 ->
  key_low h1 = key_low h2 /\ h_fs_off h1 = h_fs_off h2 /\ RV_IR_FRM h1 = RV_IR_FRM h2 /\ rv_hart_data_priv h1 = rv_hart_data_priv h2.
Proof.
  intros T1 T2 P1 P2. rewrite !ctx_key_value, !key_fp_value by assumption. pose proof (frm_range h1). pose proof (frm_range h2).
  pose proof (data_priv_range h1 P1). pose proof (data_priv_range h2 P2). pose proof (key_low_u32 h1 T1) as U1. pose proof (key_low_u32 h2 T2) as U2. unfold is_u32 in U1, U2.
  destruct (h_fs_off h1), (h_fs_off h2); unfold bz, Z.b2z; intros E; repeat split; lia.
Qed.

(** The state a lowering reads. *)
Lemma lower_reads can_lower h1 h2 insn pc len : h_fs_off h1 = h_fs_off h2 -> RV_IR_FRM h1 = RV_IR_FRM h2 ->
  lower_one can_lower h1 insn pc len = lower_one can_lower h2 insn pc len.
Proof. intros E1 E2. unfold lower_one, lower_fp_mem, lower_fma, lower_op_fp. rewrite E1, E2. reflexivity. Qed.

(** What else a block is specialised on: whether it may access memory inline. *)
Lemma windows_read `{PB : PhysBus} h1 h2 : access_ok h1 -> access_ok h2 ->
  h_satp h1 = h_satp h2 -> h_priv h1 = h_priv h2 -> rv_hart_data_priv h1 = rv_hart_data_priv h2 ->
  h_pmp_active h1 = h_pmp_active h2 -> h_trig_active h1 = h_trig_active h2 ->
  (forall ram m, rv_ir_fast_mem ram h1 m = rv_ir_fast_mem ram h2 m) /\ rv_ir_dtlb h1 = rv_ir_dtlb h2.
Proof.
  intros A1 A2 E1 E2 E3 E4 E5. assert (V : h_vm_active h1 = h_vm_active h2) by (rewrite (ao_vm _ A1), (ao_vm _ A2), E1, E2, E3; reflexivity).
  unfold rv_ir_fast_mem, rv_ir_dtlb. rewrite V, E3, E4, E5. auto.
Qed.

(** [C10] The context key is exact.  Two harts have the same key if and only if
    they agree on [satp], the privilege, FS off or not, the rounding mode and
    the privilege of data accesses: no field of the key runs into another,
    although the privilege is placed in the middle of [satp].  Harts with the
    same key get the same lowering for every instruction, and a hart that
    finds a block under its key may enter it.  The key does not decide alone
    which windows to memory a block is given: for that the harts must also
    agree on whether the PMP checks M-mode and on whether a trigger is armed,
    which the generation and the dispatcher's [blocked] flag stand for; then
    the windows are the same, [vm_active] being determined by the key. *)
Theorem ctx_key_exact {M Ext} `{PB : PhysBus Ext M} (Inv : M -> Prop) (G : Z -> Z -> Prop) can_lower h1 h2 :
  typed h1 -> typed h2 -> true_priv (h_priv h1) -> true_priv (h_priv h2) ->
  (rv_jit_ctx_key h1 = rv_jit_ctx_key h2 <->
   h_satp h1 = h_satp h2 /\ h_priv h1 = h_priv h2 /\ h_fs_off h1 = h_fs_off h2 /\ RV_IR_FRM h1 = RV_IR_FRM h2 /\
   rv_hart_data_priv h1 = rv_hart_data_priv h2) /\
  (rv_jit_ctx_key h1 = rv_jit_ctx_key h2 ->
   (forall insn pc len s, lower_one can_lower h1 insn pc len s = lower_one can_lower h2 insn pc len s) /\
   (forall m, guest_inv Inv G h2 m -> h_x h2 0 = 0 -> enters Inv G h1 (h_pc h2) h2 m) /\
   (access_ok h1 -> access_ok h2 -> h_pmp_active h1 = h_pmp_active h2 -> h_trig_active h1 = h_trig_active h2 ->
    (forall ram m, rv_ir_fast_mem ram h1 m = rv_ir_fast_mem ram h2 m) /\ rv_ir_dtlb h1 = rv_ir_dtlb h2)).
Proof.
  intros T1 T2 P1 P2. split; [split|].
  - intros E. destruct (key_parts h1 h2 T1 T2 P1 P2 E) as (E1 & E2 & E3 & E4). destruct (low_inj h1 h2 T1 T2 P1 P2 E1). auto.
  - intros (E1 & E2 & E3 & E4 & E5). rewrite !ctx_key_value by assumption. unfold key_low, key_fp. rewrite E1, E2, E3, E4, E5. reflexivity.
  - intros E. destruct (key_parts h1 h2 T1 T2 P1 P2 E) as (E1 & E2 & E3 & E4). destruct (low_inj h1 h2 T1 T2 P1 P2 E1). split; [|split].
    + intros. rewrite (lower_reads _ _ _ _ _ _ E2 E3). reflexivity.
    + intros m HI X. split; auto.
    + intros. apply windows_read; assumption.
Qed.
End Key.
