(* ===== verification/RvIrDemo.v ===== *)
(** * A loop, translated

    Five instructions that count in a register and store the count, from
    reset: the translator makes one block of them, and the block closes on its
    own start. *)

From stdpp Require Import base list gmap.
From Stdlib Require Import ZArith Lia.
From S2P Require Import Prelude Bus BusProps RvHart RvBus RvPmp RvMmu RvTrap RvCsr RvFpu RvInterp RvFrame RvTyped RvGuest RvContain RvDemo RvRunDemo IrTypes IrInterp IrPasses RvIr RvIrXlate RvIrCpu RvIrLower RvIrBlock RvIrRun RvIrBounds RvMem RvInv RvRun.

Open Scope Z_scope.
Open Scope u32_scope.

#[local] Existing Instance no_float.
#[local] Existing Instance no_float_typed.
#[local] Existing Instance lp64_layout.
#[local] Instance loop_bus : PhysBus unit machine := emu_phys_bus no_read no_write.

(** auipc x7, 0; addi x5, x5, 1; sw x5, 64(x7); sltiu x6, x5, 3; bne x6, x0, -16. *)
Definition loop_heap : heap := fun buf off =>
  match List.find (fun '(o, _) => (o <=? off) && (off <? o + 4)) [(0, 919); (4, 1213075); (8, 72589347); (12, 3322643); (16, 4261615843)] with
  | Some (o, w) => u8 (Z.shiftr w (8 * (off - o)))
  | None => 0
  end.
Definition loop_guest : machine (Ext := unit) := Machine paged_bus loop_heap tt.

Definition no_lowering (o : emu_ir_op) (ax : Z) : bool := false.
Definition empty_block : emu_ir_block := Block [] 0 0 0 false false false false false.
Definition loop_made := rv_ir_translate no_lowering entry false false fresh loop_guest entry empty_block.
Definition loop_insns : list (Z * Z * Z) := let '(_, l, _, _, _) := loop_made in l.
Definition loop_block : emu_ir_block := let '(_, _, _, _, b) := loop_made in b.

Example loop_made_five : let '(n, l, _, _, b) := loop_made in (n, length l, length (insn b), overflow b) = (5, 5%nat, 27%nat, false).
Proof. vm_compute. reflexivity. Qed.


(** Named runs are unfolded before the functions they run. *)
#[local] Strategy 100 [rv_ir_translate emu_ir_optimise emu_ir_interp block_loop].

(** ** The world around it *)

#[local] Abbreviation world := (in_world loop_guest (fun _ => True)).
#[local] Abbreviation granted := (writable (regions (m_bus loop_guest))).

Lemma loop_set_up : set_up no_read no_write bare loop_guest.
Proof. apply memory_set_up. Qed.

Lemma loop_world : guest_world world granted bare.
Proof. apply (emu_world no_read no_write loop_guest (fun _ => True) bare); apply loop_set_up. Qed.

Lemma loop_inv : guest_inv world granted fresh loop_guest.
Proof.
  apply (session_guest no_read no_write bare (fun _ _ => False) loop_guest fresh loop_guest loop_set_up). apply ses_init; [typed|unfold entry; typed].
Qed.

Lemma loop_enters : enters world granted fresh entry fresh loop_guest.
Proof. split; [exact loop_inv|reflexivity..]. Qed.

(** ** Witness *)

Definition loop_optimised : emu_ir_block := fst (fst (emu_ir_optimise no_lowering stats_zero loop_block (Some (rv_ir_target bare)) EMU_IR_F_ALL)).

(** Three rounds of five instructions; the count is in memory. *)
Definition outcome (r : bool * rv_hart * machine (Ext := unit) * Z) : bool * Z * Z * Z * Z :=
  let '(b, h, m, n) := r in (b, h_x h 5, h_pc h, m_heap m 2 64, n).

Definition loop_ht : rv_hart := snd (fst (fst loop_made)).
Definition loop_mt : machine := snd (fst loop_made).

Lemma split_made {A B C D E} (p : A * B * C * D * E) n : fst (fst (fst (fst p))) = n ->
  p = (n, let '(_, l, _, _, _) := p in l, snd (fst (fst p)), snd (fst p), let '(_, _, _, _, b) := p in b).
Proof. destruct p as [[[[? ?] ?] ?] ?]. intros <-. reflexivity. Qed.

Lemma loop_made_eq : loop_made = (5, loop_insns, loop_ht, loop_mt, loop_block).
Proof. exact (split_made loop_made 5 ltac:(vm_compute; reflexivity)). Qed.

Lemma loop_optimised_eq : emu_ir_optimise no_lowering stats_zero loop_block (Some (rv_ir_target bare)) EMU_IR_F_ALL =
  (loop_optimised, snd (fst (emu_ir_optimise no_lowering stats_zero loop_block (Some (rv_ir_target bare)) EMU_IR_F_ALL)),
   snd (emu_ir_optimise no_lowering stats_zero loop_block (Some (rv_ir_target bare)) EMU_IR_F_ALL)).
Proof. unfold loop_optimised. destruct (emu_ir_optimise _ _ _ _ _) as [[b st] tt']. reflexivity. Qed.

Lemma fresh_seen : hart_of (cpu_of fresh loop_guest : cpu_t machine) = fresh.
Proof. apply hart_of_cpu_of; [apply loop_inv|eapply J_dat; apply loop_inv]. Qed.

Lemma loop_reference : option_map (fun r => outcome (ran r)) (block_loop bare entry loop_insns 129 fresh loop_guest 0) = Some (true, 3, entry + 20, 3, 15).
Proof. vm_compute. reflexivity. Qed.

Lemma translated_runs_witness :
  option_map outcome (option_map seen (emu_ir_interp 129 loop_optimised (fun _ => 0) (cpu_of fresh loop_guest) (rv_ir_target bare)))
  = Some (true, 3, entry + 20, 3, 15).
Proof.
  rewrite (proj1 (translated_runs world granted bare no_lowering loop_world (fun _ _ _ => eq_refl) entry false false fresh loop_guest entry empty_block
    5 loop_insns loop_ht loop_mt loop_block stats_zero loop_optimised _ _ loop_inv ltac:(unfold entry; typed) eq_refl loop_made_eq ltac:(discriminate) loop_optimised_eq
    fresh loop_guest loop_enters 129%nat (fun _ => 0) (cpu_of fresh loop_guest) fresh_seen eq_refl)).
  rewrite <- loop_reference. destruct (block_loop _ _ _ _ _ _ _) as [[[h m] n]|]; reflexivity.
Defined.

(** A backend that lowers everything, floating point too, and the same loop
    made by it: inside the limits, and back within 192 instructions. *)
Definition full_lowering (o : emu_ir_op) (ax : Z) : bool := true.
Definition full_made := rv_ir_translate full_lowering entry false false fresh loop_guest entry empty_block.
Definition full_insns : list (Z * Z * Z) := let '(_, l, _, _, _) := full_made in l.
Definition full_block : emu_ir_block := let '(_, _, _, _, b) := full_made in b.
Definition full_optimised : emu_ir_block := fst (fst (emu_ir_optimise full_lowering stats_zero full_block (Some (rv_ir_target bare)) EMU_IR_F_ALL)).

Lemma full_made_eq : full_made = (5, full_insns, snd (fst (fst full_made)), snd (fst full_made), full_block).
Proof. exact (split_made full_made 5 ltac:(vm_compute; reflexivity)). Qed.

Lemma full_optimised_eq : emu_ir_optimise full_lowering stats_zero full_block (Some (rv_ir_target bare)) EMU_IR_F_ALL =
  (full_optimised, snd (fst (emu_ir_optimise full_lowering stats_zero full_block (Some (rv_ir_target bare)) EMU_IR_F_ALL)),
   snd (emu_ir_optimise full_lowering stats_zero full_block (Some (rv_ir_target bare)) EMU_IR_F_ALL)).
Proof. unfold full_optimised. destruct (emu_ir_optimise _ _ _ _ _) as [[b st] tt']. reflexivity. Qed.

Lemma translated_bounds_witness :
  count full_block <= 2048 /\
  exists ok c' k, emu_ir_interp 129 full_optimised (fun _ => 0) (cpu_of fresh loop_guest) (rv_ir_target bare) = Some (ok, c', k) /\ 0 <= k < 192.
Proof.
  destruct (translated_bounds bare full_lowering entry false false fresh loop_guest entry empty_block
    5 full_insns _ _ full_block full_made_eq) as (_ & _ & Hc & _ & Hr).
  split; [exact Hc|].
  exact (Hr stats_zero full_optimised _ _ EMU_IR_F_ALL full_optimised_eq full_optimised (or_intror eq_refl) (fun _ => 0) (cpu_of fresh loop_guest)).
Defined.

(** A hart that has since raised an exception flag enters the block. *)
Definition flagged : rv_hart := fresh <| h_fcsr := 1 |>.

Lemma flagged_inv : guest_inv world granted flagged loop_guest.
Proof. destruct loop_inv as [C J]. unfold flagged. split; [set_ctl|]. destruct J. split; assumption || typed. Qed.

Lemma flagged_typed : typed flagged.
Proof. split; [apply flagged_inv|eapply J_dat; apply flagged_inv]. Qed.

Lemma fresh_typed : typed fresh.
Proof. split; [apply loop_inv|eapply J_dat; apply loop_inv]. Qed.

Lemma fresh_access : access_ok fresh.
Proof. apply (reset_inv (rv_hart_init 0) entry). Qed.

Lemma flagged_access : access_ok flagged.
Proof. destruct fresh_access as [[A B C] D E F G]. split; [split; [exact A|destruct B; split; assumption|exact C]|exact D|exact E|exact F|exact G]. Qed.

Lemma ctx_key_exact_witness :
  rv_jit_ctx_key fresh = rv_jit_ctx_key flagged /\ enters world granted fresh entry flagged loop_guest /\ rv_ir_dtlb fresh = rv_ir_dtlb flagged.
Proof.
  destruct (ctx_key_exact world granted no_lowering fresh flagged fresh_typed flagged_typed ltac:(right; right; reflexivity) ltac:(right; right; reflexivity)) as [[_ H1] H2].
  assert (E : rv_jit_ctx_key fresh = rv_jit_ctx_key flagged) by (apply H1; repeat split). split; [exact E|]. destruct (H2 E) as (_ & H3 & H4).
  split; [apply H3; [exact flagged_inv|reflexivity]|].
  apply H4; [exact fresh_access|exact flagged_access|reflexivity|reflexivity].
Defined.
