(* ===== verification/Jit.v ===== *)
(** * The JIT framework: the block table

    [src/emu/emu_jit.c], [include/emu/emu_jit.h]: the table of translated
    blocks with its two chained indexes, the code buffer they live in, the
    table of refused addresses, and the operations that insert, find, retire,
    flush and compact.  [JitRun.v] has the dispatch loop.

    Arrays are total maps; a loop over [g_block_count] entries is a fold, a
    walk along a chain has the number of blocks for fuel.  A pointer into the
    code buffer is an offset from [g_code], so a block's [code] is an offset
    or [None] for NULL, and the buffer a map from offsets to bytes.  What the
    host does -- patching a jump, emitting one, translating -- is a parameter
    that acts on those bytes.  Counters that are only reported and cache
    maintenance are left out.  The build is the one without [EMU_SMP]. *)

From stdpp Require Import base list.
From Stdlib Require Import ZArith Lia.
From S2P Require Import Prelude RvHart.

Open Scope Z_scope.
Open Scope u32_scope.

(** ** Sizes *)

Class JitConfig := {
  EMU_JIT_MAX_BLOCKS : Z;
  EMU_JIT_HASH_SIZE : Z;
  EMU_JIT_PAGE_HASH_SIZE : Z;
  EMU_JIT_BLOCK_RESERVE : Z;
  max_blocks_ok : 0 < EMU_JIT_MAX_BLOCKS < 2 ^ 31;
  hash_size_ok : exists k, 0 <= k < 32 /\ EMU_JIT_HASH_SIZE = 2 ^ k;
  page_hash_ok : exists k, 0 <= k < 32 /\ EMU_JIT_PAGE_HASH_SIZE = 2 ^ k;
  reserve_ok : 4 <= EMU_JIT_BLOCK_RESERVE < 2 ^ 31
}.

Lemma power_16 : exists k, 0 <= k < 32 /\ 65536 = 2 ^ k.
Proof. exists 16. split; [lia|reflexivity]. Qed.
Lemma power_14 : exists k, 0 <= k < 32 /\ 16384 = 2 ^ k.
Proof. exists 14. split; [lia|reflexivity]. Qed.
Lemma power_8 : exists k, 0 <= k < 32 /\ 256 = 2 ^ k.
Proof. exists 8. split; [lia|reflexivity]. Qed.
Lemma power_6 : exists k, 0 <= k < 32 /\ 64 = 2 ^ k.
Proof. exists 6. split; [lia|reflexivity]. Qed.

Definition host_jit : JitConfig :=
  {| EMU_JIT_MAX_BLOCKS := 65536; EMU_JIT_HASH_SIZE := 65536; EMU_JIT_PAGE_HASH_SIZE := 16384; EMU_JIT_BLOCK_RESERVE := 8192;
     max_blocks_ok := ltac:(lia); hash_size_ok := power_16; page_hash_ok := power_14; reserve_ok := ltac:(lia) |}.
Definition thumb2_jit : JitConfig :=
  {| EMU_JIT_MAX_BLOCKS := 256; EMU_JIT_HASH_SIZE := 256; EMU_JIT_PAGE_HASH_SIZE := 64; EMU_JIT_BLOCK_RESERVE := 512;
     max_blocks_ok := ltac:(lia); hash_size_ok := power_8; page_hash_ok := power_6; reserve_ok := ltac:(lia) |}.

(** ** Data *)

Record emu_jit_link := Link { target_pc : Z; site : Z; linked : bool }.

(** [link] has [nlink] entries. *)
Record emu_jit_layout := Layout { chain_entry : Z; tail : Z; link : list emu_jit_link; chainable : bool }.

Record jit_block := JitBlock {
  context : Z; guest_pc : Z; layout : emu_jit_layout; code : option Z; len : Z; insns : Z; hits : Z; next : Z; pnext : Z
}.

#[export] Instance jit_block_eta : Eta jit_block := fun b =>
  JitBlock (context b) (guest_pc b) (layout b) (code b) (len b) (insns b) (hits b) (next b) (pnext b).
#[export] Instance set_layout : Setter layout := ltac:(solve_setter).
#[export] Instance set_code : Setter code := ltac:(solve_setter).
#[export] Instance set_hits : Setter hits := ltac:(solve_setter).
#[export] Instance set_next : Setter next := ltac:(solve_setter).
#[export] Instance set_pnext : Setter pnext := ltac:(solve_setter).

(** [b->code != NULL]. *)
Definition live (b : jit_block) : bool := match code b with Some _ => true | None => false end.

Record neg_entry := Neg { n_pc : Z; n_context : Z; n_tag : Z }.

(** The file's globals; [g_code] is whether there is a buffer. *)
Record jit := Jit {
  g_code : bool; g_code_size : Z; g_code_used : Z; g_bytes : Z -> Z;
  g_blocks : Z -> jit_block; g_block_count : Z; g_hash : Z -> Z; g_phash : Z -> Z; g_max_span : Z;
  g_neg : Z -> neg_entry; g_neg_epoch : Z; g_thrash_interps : Z; g_thrash_marks_left : Z;
  g_generation : Z; g_have_generation : bool; g_unchain : bool;
  g_hot_threshold : Z; g_thrash_evictions : Z; g_chain_heat : bool
}.

#[export] Instance jit_eta : Eta jit := fun j =>
  Jit (g_code j) (g_code_size j) (g_code_used j) (g_bytes j) (g_blocks j) (g_block_count j) (g_hash j) (g_phash j) (g_max_span j)
    (g_neg j) (g_neg_epoch j) (g_thrash_interps j) (g_thrash_marks_left j) (g_generation j) (g_have_generation j) (g_unchain j)
    (g_hot_threshold j) (g_thrash_evictions j) (g_chain_heat j).
#[export] Instance set_g_code : Setter g_code := ltac:(solve_setter).
#[export] Instance set_g_code_size : Setter g_code_size := ltac:(solve_setter).
#[export] Instance set_g_code_used : Setter g_code_used := ltac:(solve_setter).
#[export] Instance set_g_bytes : Setter g_bytes := ltac:(solve_setter).
#[export] Instance set_g_blocks : Setter g_blocks := ltac:(solve_setter).
#[export] Instance set_g_block_count : Setter g_block_count := ltac:(solve_setter).
#[export] Instance set_g_hash : Setter g_hash := ltac:(solve_setter).
#[export] Instance set_g_phash : Setter g_phash := ltac:(solve_setter).
#[export] Instance set_g_max_span : Setter g_max_span := ltac:(solve_setter).
#[export] Instance set_g_neg : Setter g_neg := ltac:(solve_setter).
#[export] Instance set_g_neg_epoch : Setter g_neg_epoch := ltac:(solve_setter).
#[export] Instance set_g_thrash_interps : Setter g_thrash_interps := ltac:(solve_setter).
#[export] Instance set_g_thrash_marks_left : Setter g_thrash_marks_left := ltac:(solve_setter).
#[export] Instance set_g_generation : Setter g_generation := ltac:(solve_setter).
#[export] Instance set_g_have_generation : Setter g_have_generation := ltac:(solve_setter).
#[export] Instance set_g_unchain : Setter g_unchain := ltac:(solve_setter).
#[export] Instance set_g_hot_threshold : Setter g_hot_threshold := ltac:(solve_setter).
#[export] Instance set_g_thrash_evictions : Setter g_thrash_evictions := ltac:(solve_setter).
#[export] Instance set_g_chain_heat : Setter g_chain_heat := ltac:(solve_setter).

(** The host's half of [emu_jit_ops_t]: bytes, where, and the target. *)
Record emu_jit_host := JitHost {
  patch_link : option ((Z -> Z) -> Z -> Z -> Z -> Z);
  emit_jump : option ((Z -> Z) -> Z -> Z -> Z -> Z);
  jump_bytes : Z;
  relocatable : bool
}.

(** [0, 1, ..., n - 1]. *)
Definition upto (n : Z) : list Z := map Z.of_nat (seq 0 (Z.to_nat n)).

(** One field of one block. *)
Definition at_block (j : jit) (i : Z) (f : jit_block -> jit_block) : jit :=
  j <| g_blocks := upd (g_blocks j) i (f (g_blocks j i)) |>.

Section Table.
Context {Cfg : JitConfig}.

Definition HIT_BINS : Z := 16.
Definition hit_bin (h : Z) : Z := if HIT_BINS <=? h then HIT_BINS - 1 else h.

Definition ctx_fold (ctx : Z) : Z := Z.lxor (u32 ctx) (u32 (u32 (Z.shiftr ctx 32) * 2654435769)).
Definition pc_hash (pc ctx : Z) : Z :=
  Z.lxor (Z.shiftr pc 1) (u32 (ctx_fold ctx * 2654435761)) &! (EMU_JIT_HASH_SIZE - 1).

(** ** The page index *)

Definition JIT_PAGE_SHIFT : Z := 12.
Definition block_page_lo (b : jit_block) : Z := Z.shiftr (guest_pc b) JIT_PAGE_SHIFT.
Definition block_page_hi (b : jit_block) : Z :=
  let span := if negb (insns b =? 0) then insns b * 4 - 1 else 0 in
  let e := guest_pc b + span in
  if 4294967295 <? e then Z.shiftr 4294967295 JIT_PAGE_SHIFT else Z.shiftr e JIT_PAGE_SHIFT.

Definition page_bucket (page : Z) : Z := page &! (EMU_JIT_PAGE_HASH_SIZE - 1).

Definition page_insert (j : jit) (index : Z) : jit :=
  let b := g_blocks j index in
  let lo := block_page_lo b in
  let span := block_page_hi b -! lo in
  let j := at_block j index (fun b => b <| pnext := g_phash j (page_bucket lo) |>) in
  let j := j <| g_phash := upd (g_phash j) (page_bucket lo) index |> in
  if g_max_span j <? span then j <| g_max_span := span |> else j.

(** [for (i = 0; i < n; i++) a[i] = -1]. *)
Definition cleared (n : Z) (a : Z -> Z) : Z -> Z := fun i => if (0 <=? i) && (i <? n) then -1 else a i.

Definition rebuild_pages (j : jit) : jit :=
  let j := j <| g_phash := cleared EMU_JIT_PAGE_HASH_SIZE (g_phash j) |> <| g_max_span := 0 |> in
  fold_left (fun j i => if live (g_blocks j i) then page_insert j i else at_block j i (fun b => b <| pnext := -1 |>))
    (upto (g_block_count j)) j.

(** ** Taking a block out of its bucket *)

(** [*link]: the head of the bucket, or the link of the block before. *)
Definition link_at (j : jit) (bucket : Z) (prev : option Z) : Z :=
  match prev with None => g_hash j bucket | Some p => next (g_blocks j p) end.
Definition set_link (j : jit) (bucket : Z) (prev : option Z) (v : Z) : jit :=
  match prev with
  | None => j <| g_hash := upd (g_hash j) bucket v |>
  | Some p => at_block j p (fun b => b <| next := v |>)
  end.

Fixpoint unhash_from (fuel : nat) (j : jit) (bucket : Z) (prev : option Z) (idx : Z) : jit :=
  match fuel with
  | O => j
  | S fuel =>
      let cur := link_at j bucket prev in
      if cur <? 0 then j
      else if cur =? idx then
        let j := set_link j bucket prev (next (g_blocks j idx)) in at_block j idx (fun b => b <| next := -1 |>)
      else unhash_from fuel j bucket (Some cur) idx
  end.

(** Enough for a chain through every block. *)
Definition chain_fuel (j : jit) : nat := S (Z.to_nat (g_block_count j)).

Definition unhash (j : jit) (idx : Z) : jit :=
  let b := g_blocks j idx in unhash_from (chain_fuel j) j (pc_hash (guest_pc b) (context b)) None idx.

(** ** Refused addresses *)

Definition JIT_NEG_SIZE : Z := 1024.
Definition JIT_SEEN_DECLINED : Z := 255.
Definition JIT_SEEN_EPOCH_MAX : Z := 16777215.
Definition JIT_SEEN_THRASH : Z := 254.
Definition JIT_SEEN_EVICTED : Z := 128.
Definition JIT_SEEN_EVICTED_MAX : Z := 125.
Definition EMU_JIT_THRASH_MARKS : Z := 4.
Definition EMU_JIT_THRASH_RETRY : Z := 65536.

Definition emu_jit_set_hot_threshold (j : jit) (misses : Z) : jit :=
  j <| g_hot_threshold := if misses <? 1 then 1 else if 127 <? misses then 127 else misses |>.
Definition emu_jit_set_thrash_evictions (j : jit) (evictions : Z) : jit :=
  j <| g_thrash_evictions := if JIT_SEEN_EVICTED_MAX <? evictions then JIT_SEEN_EVICTED_MAX else evictions |>.

Definition neg_slot (pc ctx : Z) : Z :=
  let h := Z.lxor (Z.shiftr pc 1) (u32 (ctx * 2654435761)) in
  Z.shiftr (u32 (h * 2654435761)) 16 &! (JIT_NEG_SIZE - 1).

Definition seen_get (j : jit) (s pc ctx : Z) : Z :=
  let e := g_neg j s in
  if negb (Z.shiftr (n_tag e) 8 =? g_neg_epoch j) || negb (n_pc e =? pc) || negb (n_context e =? ctx) then 0
  else n_tag e &! 255.

Definition seen_set (j : jit) (s pc ctx v : Z) : jit :=
  j <| g_neg := upd (g_neg j) s (Neg pc ctx ((g_neg_epoch j <<! 8) |! v)) |>.

Definition seen_of (j : jit) (pc key : Z) : Z := let ctx := ctx_fold key in seen_get j (neg_slot pc ctx) pc ctx.

Definition evict_note (j : jit) (pc key : Z) : jit :=
  if g_thrash_evictions j =? 0 then j
  else
    let ctx := ctx_fold key in
    let s := neg_slot pc ctx in
    let v := seen_get j s pc ctx in
    if (v =? JIT_SEEN_DECLINED) || (v =? JIT_SEEN_THRASH) then j
    else
      let n := if has v JIT_SEEN_EVICTED then Z.ldiff v JIT_SEEN_EVICTED +! 1 else 1 in
      if (g_thrash_evictions j <=? n) && negb (g_thrash_marks_left j =? 0) then
        seen_set (j <| g_thrash_marks_left := g_thrash_marks_left j -! 1 |>) s pc ctx JIT_SEEN_THRASH
      else if g_thrash_evictions j <=? n then seen_set j s pc ctx (JIT_SEEN_EVICTED |! (n -! 1))
      else seen_set j s pc ctx (JIT_SEEN_EVICTED |! n).

Definition neg_note (j : jit) (pc key : Z) : jit :=
  let ctx := ctx_fold key in seen_set j (neg_slot pc ctx) pc ctx JIT_SEEN_DECLINED.

Definition heat_bump (j : jit) (pc key : Z) : bool * jit :=
  if g_hot_threshold j <=? 1 then (true, j)
  else
    let ctx := ctx_fold key in
    let s := neg_slot pc ctx in
    let n := seen_get j s pc ctx +! 1 in
    if g_hot_threshold j <=? n then (true, j) else (false, seen_set j s pc ctx n).

Definition neg_invalidate (j : jit) : jit :=
  let j := j <| g_neg_epoch := g_neg_epoch j +! 1 |> in
  if JIT_SEEN_EPOCH_MAX <? g_neg_epoch j then
    j <| g_neg := fun k => if (0 <=? k) && (k <? JIT_NEG_SIZE) then Neg 0 0 0 else g_neg j k |> <| g_neg_epoch := 1 |>
  else j.

Definition emu_jit_flush (j : jit) : jit :=
  neg_invalidate (j <| g_hash := cleared EMU_JIT_HASH_SIZE (g_hash j) |>
                    <| g_phash := cleared EMU_JIT_PAGE_HASH_SIZE (g_phash j) |>
                    <| g_max_span := 0 |> <| g_block_count := 0 |> <| g_code_used := 0 |>).

Definition emu_jit_set_buffer (j : jit) (bytes : Z -> Z) (size : Z) : jit :=
  emu_jit_flush (j <| g_code := true |> <| g_bytes := bytes |> <| g_code_size := size |>).

(** [mapped]: the memory a hosted build gets for itself, if it gets any. *)
Definition emu_jit_init (j : jit) (mapped : option (Z -> Z)) (size : Z) : bool * jit :=
  if g_code j then (true, j)
  else match mapped with None => (false, j) | Some bytes => (true, emu_jit_set_buffer j bytes size) end.

Definition EMU_JIT_HOT_THRESHOLD : Z := 1.
Definition EMU_JIT_THRASH_EVICTIONS : Z := 4.
Definition EMU_JIT_CHAIN_HEAT : bool := true.

(** What the globals hold before anything is called. *)
Definition jit_boot : jit :=
  let b := JitBlock 0 0 (Layout 0 0 [] false) None 0 0 0 0 0 in
  Jit false 0 0 (fun _ => 0) (fun _ => b) 0 (fun _ => 0) (fun _ => 0) 0 (fun _ => Neg 0 0 0) 1 0 0 0 false false
    EMU_JIT_HOT_THRESHOLD EMU_JIT_THRASH_EVICTIONS EMU_JIT_CHAIN_HEAT.

(** ** Retiring *)

Variable host : emu_jit_host.

(** [emit_jump] and [patch_link] of the host, where it has them. *)
Definition host_jump (j : jit) (at_ target : Z) : jit :=
  match emit_jump host with Some f => j <| g_bytes := f (g_bytes j) at_ target |> | None => j end.
Definition host_patch (j : jit) (at_ target : Z) : jit :=
  match patch_link host with Some f => j <| g_bytes := f (g_bytes j) at_ target |> | None => j end.

(** False where everything was flushed instead. *)
Definition retire_one (j : jit) (index : Z) : bool * jit :=
  let b := g_blocks j index in
  let l := layout b in
  let body := if chain_entry l <? tail l then tail l - chain_entry l else 0 in
  if chainable l && (body <? jump_bytes host) then (false, emu_jit_flush j)
  else
    let c := default 0 (code b) in
    let j := if chainable l then host_jump j (c + chain_entry l) (c + tail l) else j in
    (true, at_block (unhash j index) index (fun b => b <| code := None |> <| hits := 0 |>)).

Definition JIT_PAGE_WALK_MAX : Z := 64.

(** [*link] of the page index. *)
Definition plink_at (j : jit) (bucket : Z) (prev : option Z) : Z :=
  match prev with None => g_phash j bucket | Some p => pnext (g_blocks j p) end.
Definition set_plink (j : jit) (bucket : Z) (prev : option Z) (v : Z) : jit :=
  match prev with
  | None => j <| g_phash := upd (g_phash j) bucket v |>
  | Some p => at_block j p (fun b => b <| pnext := v |>)
  end.
(** [*link = b->pnext; b->pnext = -1]. *)
Definition drop_plink (j : jit) (bucket : Z) (prev : option Z) (i : Z) : jit :=
  at_block (set_plink j bucket prev (pnext (g_blocks j i))) i (fun b => b <| pnext := -1 |>).

(** The blocks that start on page [p] and reach [page_lo]. *)
Fixpoint retire_page (fuel : nat) (j : jit) (p page_lo : Z) (prev : option Z) : bool * jit :=
  match fuel with
  | O => (true, j)
  | S fuel =>
      let bucket := page_bucket p in
      let i := plink_at j bucket prev in
      if i <? 0 then (true, j)
      else
        let b := g_blocks j i in
        if negb (live b) then retire_page fuel (drop_plink j bucket prev i) p page_lo prev
        else if (block_page_lo b =? p) && (page_lo <=? block_page_hi b) then
          let '(ok, j) := retire_one (drop_plink j bucket prev i) i in
          if ok then retire_page fuel j p page_lo prev else (false, j)
        else retire_page fuel j p page_lo (Some i)
  end.

(** Pages [p], [p + 1], ... *)
Fixpoint retire_narrow (fuel : nat) (j : jit) (p page_lo : Z) : jit :=
  match fuel with
  | O => j
  | S fuel => let '(ok, j) := retire_page (chain_fuel j) j p page_lo None in if ok then retire_narrow fuel j (p + 1) page_lo else j
  end.

(** The blocks at or above [i]; false where everything was flushed. *)
Fixpoint retire_wide (l : list Z) (j : jit) (page_lo page_hi : Z) : bool * jit :=
  match l with
  | [] => (true, j)
  | i :: l =>
      let b := g_blocks j i in
      if negb (live b) || (page_hi <? block_page_lo b) || (block_page_hi b <? page_lo) then retire_wide l j page_lo page_hi
      else let '(ok, j) := retire_one j i in if ok then retire_wide l j page_lo page_hi else (false, j)
  end.

Definition retire_pages (j : jit) (page_lo page_hi : Z) : jit :=
  if match emit_jump host with None => true | Some _ => false end || (jump_bytes host =? 0) then emu_jit_flush j
  else if page_hi -! page_lo <? JIT_PAGE_WALK_MAX then
    let first := if g_max_span j <? page_lo then page_lo - g_max_span j else 0 in
    retire_narrow (Z.to_nat (page_hi - first + 1)) j first page_lo
  else let '(ok, j) := retire_wide (upto (g_block_count j)) j page_lo page_hi in if ok then rebuild_pages j else j.

Definition emu_jit_invalidate_page (j : jit) (vaddr : Z) : jit :=
  retire_pages j (Z.shiftr vaddr JIT_PAGE_SHIFT) (Z.shiftr vaddr JIT_PAGE_SHIFT).

Definition emu_jit_invalidate_range (j : jit) (lo hi : Z) : jit :=
  if hi <? lo then j
  else
    let j := retire_pages j (Z.shiftr lo JIT_PAGE_SHIFT) (Z.shiftr hi JIT_PAGE_SHIFT) in
    if (JIT_PAGE_WALK_MAX <<! JIT_PAGE_SHIFT) <=? hi - lo then neg_invalidate j
    else
      j <| g_neg := fun k =>
             let e := g_neg j k in
             if (0 <=? k) && (k <? JIT_NEG_SIZE) && (n_pc e -! lo <=? hi - lo) then Neg (n_pc e) (n_context e) 0 else e |>.

(** ** Finding *)

Definition chain_insert (j : jit) (index : Z) : jit :=
  let b := g_blocks j index in
  let h := pc_hash (guest_pc b) (context b) in
  let j := at_block j index (fun b => b <| next := g_hash j h |>) in
  j <| g_hash := upd (g_hash j) h index |>.

Definition rebuild_hash (j : jit) : jit :=
  let j := j <| g_hash := cleared EMU_JIT_HASH_SIZE (g_hash j) |> in
  rebuild_pages (fold_left chain_insert (upto (g_block_count j)) j).

Definition is_for (b : jit_block) (pc ctx : Z) : bool := (guest_pc b =? pc) && (context b =? ctx).

Fixpoint find_from (fuel : nat) (j : jit) (i pc ctx : Z) : option Z :=
  match fuel with
  | O => None
  | S fuel =>
      if i <? 0 then None
      else if is_for (g_blocks j i) pc ctx then Some i
      else find_from fuel j (next (g_blocks j i)) pc ctx
  end.

Definition find_block (j : jit) (pc ctx : Z) : option Z := find_from (chain_fuel j) j (g_hash j (pc_hash pc ctx)) pc ctx.

Definition UINT16_MAX : Z := 65535.

(** [lookup]: the block found has one hit more. *)
Definition lookup_block (j : jit) (pc ctx : Z) : option Z * jit :=
  match find_block j pc ctx with
  | None => (None, j)
  | Some i => (Some i, at_block j i (fun b => if negb (hits b =? UINT16_MAX) then b <| hits := hits b + 1 |> else b))
  end.

(** ** Chained exits *)

Definition unlink_one (j : jit) (i : Z) : jit :=
  match code (g_blocks j i) with
  | None => j
  | Some c =>
      let l := layout (g_blocks j i) in
      let j := fold_left (fun j k => if linked k then host_patch j (c + site k) (c + tail l) else j) (link l) j in
      at_block j i (fun b => b <| layout := Layout (chain_entry l) (tail l) (map (fun k => Link (target_pc k) (site k) false) (link l)) (chainable l) |>)
  end.

Definition unlink_all (j : jit) : jit :=
  match patch_link host with None => j | Some _ => fold_left unlink_one (upto (g_block_count j)) j end.

(** The first exit to [pc] that is not linked, marked as linked. *)
Fixpoint take_exit (l : list emu_jit_link) (pc : Z) : option (Z * list emu_jit_link) :=
  match l with
  | [] => None
  | k :: l =>
      if negb (linked k) && (target_pc k =? pc) then Some (site k, Link (target_pc k) (site k) true :: l)
      else option_map (fun '(s, l) => (s, k :: l)) (take_exit l pc)
  end.

(** A previous block without code has no bytes to patch in the buffer; the loop
    has none such ([dispatch_prev]). *)
Definition link_exit (j : jit) (from : option Z) (to : Z) : jit :=
  match patch_link host, from with
  | Some _, Some f =>
      let b := g_blocks j f in
      let t := g_blocks j to in
      if negb (chainable (layout t)) then j
      else
        match take_exit (link (layout b)) (guest_pc t) with
        | None => j
        | Some (s, l) =>
            let j := match code b with Some c => host_patch j (c + s) (default 0 (code t) + chain_entry (layout t)) | None => j end in
            at_block j f (fun b => b <| layout := Layout (chain_entry (layout b)) (tail (layout b)) l (chainable (layout b)) |>)
        end
  | _, _ => j
  end.

(** What the platform asks for. *)
Definition emu_jit_unchain (j : jit) : jit := j <| g_unchain := true |>.
Definition emu_jit_set_chain_heat (j : jit) (on : bool) : jit := j <| g_chain_heat := on |>.

(** ** Compaction *)

(** One exit of a block with hits [h]. *)
Definition heat_link (ctx h : Z) (r : bool * jit) (k : emu_jit_link) : bool * jit :=
  let '(moved, j) := r in
  if negb (linked k) then r
  else
    match find_block j (target_pc k) ctx with
    | None => r
    | Some t =>
        let b := g_blocks j t in
        if live b && (hits b <? h) then (true, at_block j t (fun b => b <| hits := h |>)) else r
    end.
Definition heat_block (r : bool * jit) (i : Z) : bool * jit :=
  let '(moved, j) := r in
  let a := g_blocks j i in
  if negb (live a) then r
  else fold_left (fun r k => heat_link (context a) (hits (g_blocks (snd r) i)) r k) (link (layout a)) r.
Fixpoint heat_passes (n : nat) (j : jit) : jit :=
  match n with
  | O => j
  | S n => let '(moved, j) := fold_left heat_block (upto (g_block_count j)) (false, j) in if moved then heat_passes n j else j
  end.
Definition chain_heat (j : jit) : jit := heat_passes 8 j.

Definition bin_bytes (j : jit) : Z -> Z :=
  fold_left (fun bytes i =>
      let b := g_blocks j i in
      if negb (live b) then bytes else upd bytes (hit_bin (hits b)) (bytes (hit_bin (hits b)) +! len b))
    (upto (g_block_count j)) (fun _ => 0).

(** From the hottest bin down, while they fit. *)
Fixpoint pick_bins (n : nat) (bytes : Z -> Z) (budget acc threshold : Z) : Z :=
  match n with
  | O => threshold
  | S n =>
      let b := Z.of_nat n in
      if budget <? acc +! bytes b then threshold else pick_bins n bytes budget (acc +! bytes b) b
  end.

Definition memmove (bytes : Z -> Z) (dst src n : Z) : Z -> Z :=
  fun o => if (dst <=? o) && (o <? dst + n) then bytes (src + (o - dst)) else bytes o.

Definition align4 (x : Z) : Z := Z.ldiff (x + 3) 3.

(** One entry of the table: [dst], how many were kept, the state. *)
Definition keep_block (threshold : Z) (r : Z * Z * jit) (i : Z) : Z * Z * jit :=
  let '(dst, kept, j) := r in
  let b := g_blocks j i in
  match code b with
  | None => r
  | Some c =>
      if hit_bin (hits b) <? threshold then (dst, kept, evict_note j (guest_pc b) (context b))
      else
        let dst := align4 dst in
        let j := if negb (dst =? c) then j <| g_bytes := memmove (g_bytes j) dst c (len b) |> else j in
        let b := b <| code := Some dst |> <| hits := Z.shiftr (hits b) 1 |> in
        (dst + len b, kept + 1, j <| g_blocks := upd (g_blocks j) kept b |>)
  end.

Definition compact (j : jit) : jit :=
  let j := if g_chain_heat j then chain_heat j else j in
  let budget := g_code_size j -! g_code_size j / 4 -! EMU_JIT_BLOCK_RESERVE in
  let threshold := pick_bins (Z.to_nat HIT_BINS) (bin_bytes j) budget 0 HIT_BINS in
  let threshold := if threshold <? 2 then 2 else threshold in
  let j := unlink_all (j <| g_thrash_marks_left := EMU_JIT_THRASH_MARKS |>) in
  let '(dst, kept, j) := fold_left (keep_block threshold) (upto (g_block_count j)) (0, 0, j) in
  rebuild_hash (j <| g_block_count := kept |> <| g_code_used := dst |>).

(** ** Translating *)

Definition space_low (j : jit) : bool :=
  (EMU_JIT_MAX_BLOCKS <=? g_block_count j) || (g_code_size j <=? g_code_used j +! EMU_JIT_BLOCK_RESERVE).

(** What [ops->translate] leaves: the guest instructions, how far the cursor
    got, whether the buffer ran out, the layout, the buffer and the guest. *)
Record emitted (W : Type) := Emitted { e_insns : Z; e_end : Z; e_overflow : bool; e_layout : emu_jit_layout; e_bytes : Z -> Z; e_world : W }.
Arguments Emitted {W}. Arguments e_insns {W}. Arguments e_end {W}. Arguments e_overflow {W}. Arguments e_layout {W}. Arguments e_bytes {W}. Arguments e_world {W}.

Section Translate.
Context {W : Type}.

(** Cursor, limit and bytes of the buffer are the emitter's globals. *)
Variable translate : W -> Z -> (Z -> Z) -> Z -> Z -> emitted W.

Inductive attempt := Made (index : Z) | Declines | Overflows.

Definition translate_once (j : jit) (w : W) (pc ctx : Z) : attempt * jit * W :=
  let j := j <| g_code_used := Z.ldiff (g_code_used j +! 3) 3 |> in
  let start := g_code_used j in
  let r := translate w pc (g_bytes j) start (g_code_size j) in
  let j := j <| g_bytes := e_bytes r |> in
  if e_overflow r then (Overflows, j, e_world r)
  else if e_insns r =? 0 then (Declines, neg_note j pc ctx, e_world r)
  else
    let i := g_block_count j in
    let b := JitBlock ctx pc (e_layout r) (Some start) (e_end r - start) (u16 (e_insns r)) 0 (next (g_blocks j i)) (pnext (g_blocks j i)) in
    let j := j <| g_block_count := i + 1 |> <| g_blocks := upd (g_blocks j) i b |> <| g_code_used := e_end r |> in
    (Made i, page_insert (chain_insert j i) i, e_world r).

Definition jit_translate (j : jit) (w : W) (pc ctx : Z) : option Z * jit * W :=
  let start_over j w :=
    let '(a, j, w) := translate_once (emu_jit_flush j) w pc ctx in
    (match a with Made i => Some i | _ => None end, j, w) in
  let reclaim j w :=
    if relocatable host then
      let j := compact j in
      if space_low j then start_over j w
      else
        let '(a, j, w) := translate_once j w pc ctx in
        match a with Made i => (Some i, j, w) | Declines => (None, j, w) | Overflows => start_over j w end
    else start_over j w in
  if space_low j then reclaim j w
  else
    let '(a, j, w) := translate_once j w pc ctx in
    match a with Made i => (Some i, j, w) | Declines => (None, j, w) | Overflows => reclaim j w end.
End Translate.
End Table.
Arguments Emitted {W}. Arguments e_insns {W}. Arguments e_end {W}. Arguments e_overflow {W}. Arguments e_layout {W}. Arguments e_bytes {W}. Arguments e_world {W}.
