(* ===== verification/JitIndex.v ===== *)
(** * The JIT framework: its tables

    Chains of indices, the table of blocks with its two indexes, and the table
    of refused addresses. *)

From stdpp Require Import base list.
From Stdlib Require Import ZArith Lia.
From S2P Require Import Prelude RvHart Jit.

Open Scope Z_scope.
Open Scope u32_scope.

(** * Chains of block indexes

    Which list a chain of links holds, and what inserting at its head and
    cutting an element out of it leave.  Both indexes of the block table --
    by hash and by page -- are arrays of heads with one link per block. *)

(** ** The indexes below a bound *)

Lemma in_upto i n : In i (upto n) <-> 0 <= i < n.
Proof.
  unfold upto. rewrite in_map_iff. split.
  - intros (k & <- & Hk). apply in_seq in Hk. lia.
  - intros H. exists (Z.to_nat i). rewrite in_seq. lia.
Qed.

Lemma upto_succ n : 0 <= n -> upto (n + 1) = upto n ++ [n].
Proof.
  intros H. unfold upto. rewrite Z.add_1_r, Z2Nat.inj_succ, seq_S, map_app by lia. cbn [map]. do 2 f_equal. lia.
Qed.

Lemma upto_nodup n : List.NoDup (upto n).
Proof. unfold upto. apply NoDup_map_NoDup_ForallPairs; [intros a b _ _ H; lia|apply seq_NoDup]. Qed.

(** A loop over the indexes below [n]. *)
Lemma fold_upto {S} (f : S -> Z -> S) (P : Z -> S -> Prop) n s : 0 <= n -> P 0 s ->
  (forall i s, 0 <= i < n -> P i s -> P (i + 1) (f s i)) -> P n (fold_left f (upto n) s).
Proof.
  intros Hn H0 Hi. revert n Hn Hi. apply (natlike_ind (fun n => (forall i s, 0 <= i < n -> P i s -> P (i + 1) (f s i)) -> P n (fold_left f (upto n) s))); [intros _; exact H0|].
  intros n Hn IH Hi. rewrite <- Z.add_1_r, upto_succ, fold_left_app by exact Hn. cbn [fold_left]. apply Hi; [lia|]. apply IH. intros i s' H. apply Hi. lia.
Qed.

(** Newest first, as the chains are. *)
Definition down (n : Z) : list Z := rev (upto n).

Lemma in_down i n : In i (down n) <-> 0 <= i < n.
Proof. unfold down. rewrite <- in_rev. apply in_upto. Qed.
Lemma down_nodup n : List.NoDup (down n).
Proof. unfold down. apply NoDup_rev, upto_nodup. Qed.
Lemma down_succ n : 0 <= n -> down (n + 1) = n :: down n.
Proof. intros H. unfold down. rewrite upto_succ, rev_app_distr by exact H. reflexivity. Qed.
Lemma down_length n : length (down n) = Z.to_nat n.
Proof. unfold down, upto. rewrite length_rev, length_map, length_seq. reflexivity. Qed.

(** ** Selections *)

Lemma filter_find (p q : Z -> bool) l : List.find p (List.filter q l) = List.find (fun i => q i && p i) l.
Proof. induction l as [|i l IH]; [reflexivity|]. cbn. destruct (q i); cbn; [destruct (p i); [reflexivity|exact IH]|exact IH]. Qed.

Lemma find_ext_in (p q : Z -> bool) l : (forall i, In i l -> p i = q i) -> List.find p l = List.find q l.
Proof.
  induction l as [|i l IH]; intros H; [reflexivity|]. cbn. rewrite (H i (or_introl eq_refl)). destruct (q i); [reflexivity|].
  apply IH. intros k Hk. apply H. right. exact Hk.
Qed.

Lemma filter_ext_down (p q : Z -> bool) n : (forall i, 0 <= i < n -> p i = q i) -> List.filter p (down n) = List.filter q (down n).
Proof. intros H. apply filter_ext_in. intros i Hi. apply H, in_down, Hi. Qed.

Lemma filter_none (p : Z -> bool) n : (forall i, 0 <= i < n -> p i = false) -> List.filter p (down n) = [].
Proof.
  intros H. destruct (List.filter p (down n)) as [|i l] eqn:E; [reflexivity|]. exfalso.
  assert (K : In i (List.filter p (down n))) by (rewrite E; left; reflexivity). apply filter_In in K as [K1 K2]. apply in_down in K1. rewrite H in K2 by exact K1. discriminate.
Qed.

Lemma filter_length (p : Z -> bool) n : (length (List.filter p (down n)) <= Z.to_nat n)%nat.
Proof. rewrite <- (down_length n). apply filter_length_le. Qed.

Lemma filter_others (i : Z) l : ~ In i l -> List.filter (fun k => negb (k =? i)) l = l.
Proof.
  induction l as [|k l IH]; intros H; [reflexivity|]. cbn. destruct (Z.eqb_spec k i) as [->|]; [destruct H; left; reflexivity|].
  cbn. rewrite IH; [reflexivity|]. intros K. apply H. right. exact K.
Qed.

Lemma filter_twice (p q : Z -> bool) l : List.filter p (List.filter q l) = List.filter (fun i => q i && p i) l.
Proof. induction l as [|i l IH]; [reflexivity|]. cbn. destruct (q i); cbn; [destruct (p i); [f_equal|]; exact IH|exact IH]. Qed.

(** One element no longer selected. *)
Lemma filter_drop (p q : Z -> bool) n i l1 l2 : List.filter p (down n) = l1 ++ i :: l2 ->
  (forall k, 0 <= k < n -> q k = p k && negb (k =? i)) -> List.filter q (down n) = l1 ++ l2.
Proof.
  intros E H. assert (ND : List.NoDup (l1 ++ i :: l2)) by (rewrite <- E; apply List.NoDup_filter, down_nodup).
  apply NoDup_remove in ND as [_ ND]. rewrite in_app_iff in ND.
  transitivity (List.filter (fun k => negb (k =? i)) (List.filter p (down n))).
  - rewrite filter_twice. apply filter_ext_down, H.
  - rewrite E, List.filter_app. cbn. rewrite Z.eqb_refl. cbn. rewrite !filter_others by tauto. reflexivity.
Qed.

(** ** Chains *)

Fixpoint chain (nx : Z -> Z) (head : Z) (l : list Z) : Prop :=
  match l with [] => head = -1 | i :: l => head = i /\ 0 <= i /\ chain nx (nx i) l end.

Lemma chain_ext nx nx' head l : (forall i, In i l -> nx' i = nx i) -> chain nx head l -> chain nx' head l.
Proof.
  revert head. induction l as [|i l IH]; intros head H C; [exact C|]. destruct C as (-> & H0 & C). split; [reflexivity|]. split; [exact H0|].
  rewrite (H i (or_introl eq_refl)). apply IH; [intros k Hk; apply H; right; exact Hk|exact C].
Qed.

Lemma chain_neg nx head l : chain nx head l -> head < 0 -> l = [].
Proof. destruct l; [reflexivity|]. intros (-> & H & _). lia. Qed.

(** The place that holds the link to what follows [l1]. *)
Definition place (l1 : list Z) : option Z := last l1.

Definition put_head (hd : Z -> Z) (b : Z) (prev : option Z) (v : Z) : Z -> Z := match prev with None => upd hd b v | Some _ => hd end.
Definition put_next (nx : Z -> Z) (prev : option Z) (v : Z) : Z -> Z := match prev with None => nx | Some p => upd nx p v end.

Lemma chain_at nx head l1 l2 : chain nx head (l1 ++ l2) -> chain nx (match place l1 with None => head | Some p => nx p end) l2.
Proof.
  revert head. induction l1 as [|i l1 IH]; intros head C; [exact C|]. destruct C as (-> & _ & C). apply IH in C.
  unfold place in *. destruct l1 as [|k l1]; [exact C|].
  change (last (i :: k :: l1)) with (last (k :: l1)). destruct (last (k :: l1)) eqn:E; [exact C|apply last_None in E; discriminate].
Qed.

Lemma place_in l1 p : place l1 = Some p -> In p l1.
Proof. unfold place. intros H. apply last_Some in H as [l ->]. rewrite in_app_iff. right. left. reflexivity. Qed.

Lemma chain_cut_from nx i l2 : forall l1 h, chain nx h (l1 ++ i :: l2) -> List.NoDup (l1 ++ i :: l2) ->
  chain (upd (put_next nx (place l1) (nx i)) i (-1)) (match place l1 with None => nx i | Some _ => h end) (l1 ++ l2).
Proof.
  induction l1 as [|k l1 IH]; intros h C ND; cbn [app] in *.
  - destruct C as (_ & _ & C). apply NoDup_cons_iff in ND as [N _]. cbn [place last put_next].
    eapply chain_ext; [|exact C]. intros m Hm. apply upd_ne. intros ->. contradiction.
  - destruct C as (-> & H0 & C). apply NoDup_cons_iff in ND as [N ND]. specialize (IH _ C ND). destruct l1 as [|k1 l1].
    + cbn [app place last put_next] in *. split; [reflexivity|]. split; [exact H0|].
      assert (Ki : k <> i) by (intros ->; apply N; left; reflexivity). rewrite upd_ne, upd_eq by exact Ki.
      eapply chain_ext; [|exact IH]. intros m Hm. assert (m <> k) by (intros ->; apply N; right; exact Hm). unfold upd. destruct (m =? i); [reflexivity|].
      destruct (Z.eqb_spec m k); [contradiction|reflexivity].
    + change (place (k :: k1 :: l1)) with (place (k1 :: l1)). destruct (place (k1 :: l1)) as [p|] eqn:Ep; [|unfold place in Ep; apply last_None in Ep; discriminate].
      split; [reflexivity|]. split; [exact H0|]. assert (Ki : k <> i) by (intros ->; apply N; apply in_app_iff; right; left; reflexivity).
      assert (Kp : k <> p) by (intros ->; apply N; apply in_app_iff; left; apply place_in, Ep).
      cbn [put_next] in *. rewrite upd_ne, upd_ne by assumption. exact IH.
Qed.

(** An element is cut out: the place before it gets its link. *)
Lemma chain_cut hd nx b l1 i l2 : chain nx (hd b) (l1 ++ i :: l2) -> List.NoDup (l1 ++ i :: l2) ->
  chain (upd (put_next nx (place l1) (nx i)) i (-1)) (put_head hd b (place l1) (nx i) b) (l1 ++ l2).
Proof. intros C ND. pose proof (chain_cut_from nx i l2 l1 _ C ND) as K. destruct (place l1); cbn [put_head] in *; [|rewrite upd_eq]; exact K. Qed.

(** The chains of other heads are as they were. *)
Lemma chain_other hd nx b b' l1 i v l : b' <> b -> chain nx (hd b') l -> ~ In i l -> (forall p, place l1 = Some p -> ~ In p l) ->
  chain (upd (put_next nx (place l1) v) i (-1)) (put_head hd b (place l1) v b') l.
Proof.
  intros Hb C Hi Hp. assert (E : put_head hd b (place l1) v b' = hd b') by (destruct (place l1); [reflexivity|apply upd_ne, Hb]). rewrite E.
  eapply chain_ext; [|exact C]. intros m Hm. rewrite upd_ne by (intros ->; contradiction). destruct (place l1) as [p|]; [|reflexivity].
  apply upd_ne. intros ->. exact (Hp p eq_refl Hm).
Qed.

(** ** An index *)

(** Every head's chain holds exactly the elements below [n] that are in use and
    have that key, newest first. *)
Definition index_ok (hd nx : Z -> Z) (lv : Z -> bool) (key : Z -> Z) (size n : Z) : Prop :=
  forall b, 0 <= b < size -> chain nx (hd b) (List.filter (fun i => lv i && (key i =? b)) (down n)).

Lemma index_ext hd nx lv key hd' nx' lv' key' size n :
  (forall b, 0 <= b < size -> hd' b = hd b) ->
  (forall i, 0 <= i < n -> nx' i = nx i /\ lv' i = lv i /\ key' i = key i) ->
  index_ok hd nx lv key size n -> index_ok hd' nx' lv' key' size n.
Proof.
  intros Hh Hi K b Hb. rewrite Hh by exact Hb. rewrite (filter_ext_down _ (fun i => lv i && (key i =? b))).
  - eapply chain_ext; [|apply K, Hb]. intros i H. apply filter_In in H as [H _]. apply in_down in H. apply Hi, H.
  - intros i H. destruct (Hi i H) as (_ & -> & ->). reflexivity.
Qed.

Lemma index_none hd nx lv key size n : (forall b, 0 <= b < size -> hd b = -1) -> (forall i, 0 <= i < n -> lv i = false) ->
  index_ok hd nx lv key size n.
Proof. intros Hh Hl b Hb. rewrite filter_none; [apply Hh, Hb|]. intros i Hi. rewrite Hl by exact Hi. reflexivity. Qed.

Lemma index_push hd nx lv key lv' key' size n : 0 <= n -> index_ok hd nx lv key size n ->
  (forall i, 0 <= i < n -> lv' i = lv i /\ key' i = key i) -> lv' n = true ->
  index_ok (upd hd (key' n) n) (upd nx n (hd (key' n))) lv' key' size (n + 1).
Proof.
  intros Hn K He Hl b Hb. rewrite down_succ by exact Hn. cbn [List.filter]. rewrite Hl. cbn [andb].
  assert (Ef : List.filter (fun i => lv' i && (key' i =? b)) (down n) = List.filter (fun i => lv i && (key i =? b)) (down n)).
  { apply filter_ext_down. intros i Hi. destruct (He i Hi) as [-> ->]. reflexivity. }
  assert (C : chain (upd nx n (hd (key' n))) (hd b) (List.filter (fun i => lv' i && (key' i =? b)) (down n))).
  { rewrite Ef. eapply chain_ext; [|apply K, Hb]. intros i Hi. apply filter_In in Hi as [Hi _]. apply in_down in Hi. apply upd_ne. lia. }
  destruct (Z.eqb_spec (key' n) b) as [<-|Ne].
  - rewrite upd_eq. split; [reflexivity|]. split; [exact Hn|]. rewrite upd_eq. exact C.
  - rewrite upd_ne by congruence. exact C.
Qed.

(** An element that is not in use is passed over. *)
Lemma index_skip hd nx lv key size n v : 0 <= n -> index_ok hd nx lv key size n -> lv n = false -> index_ok hd (upd nx n v) lv key size (n + 1).
Proof.
  intros Hn K Hl b Hb. rewrite down_succ by exact Hn. cbn [List.filter]. rewrite Hl. cbn [andb].
  eapply chain_ext; [|apply K, Hb]. intros i Hi. apply filter_In in Hi as [Hi _]. apply in_down in Hi. apply upd_ne. lia.
Qed.

Lemma filter_split (p : Z -> bool) n i : 0 <= i < n -> p i = true -> exists l1 l2, List.filter p (down n) = l1 ++ i :: l2.
Proof. intros Hi Hp. apply in_split, filter_In. split; [apply in_down, Hi|exact Hp]. Qed.

Lemma index_cut hd nx lv key lv' size n i l1 l2 : index_ok hd nx lv key size n -> 0 <= key i < size ->
  List.filter (fun k => lv k && (key k =? key i)) (down n) = l1 ++ i :: l2 ->
  (forall k, 0 <= k < n -> lv' k = lv k && negb (k =? i)) ->
  index_ok (put_head hd (key i) (place l1) (nx i)) (upd (put_next nx (place l1) (nx i)) i (-1)) lv' key size n.
Proof.
  intros K Hk E Hl b Hb. assert (In1 : forall k, In k (l1 ++ i :: l2) -> key k = key i).
  { intros k H. rewrite <- E in H. apply filter_In in H as [_ H]. apply andb_true_iff in H as [_ H]. apply Z.eqb_eq, H. }
  destruct (Z.eq_dec b (key i)) as [->|Ne].
  - rewrite (filter_drop (fun k => lv k && (key k =? key i)) _ n i l1 l2 E).
    + apply chain_cut; [rewrite <- E; apply K, Hk|rewrite <- E; apply List.NoDup_filter, down_nodup].
    + intros k H. rewrite Hl by exact H. rewrite <- !andb_assoc. f_equal. apply andb_comm.
  - rewrite (filter_ext_down _ (fun k => lv k && (key k =? b))).
    + assert (NI : forall k, In k (l1 ++ i :: l2) -> ~ In k (List.filter (fun k => lv k && (key k =? b)) (down n))).
      { intros k H H1. apply filter_In in H1 as [_ H1]. apply andb_true_iff in H1 as [_ H1]. apply Z.eqb_eq in H1. rewrite (In1 k H) in H1. congruence. }
      apply chain_other; [exact Ne|apply K, Hb|apply NI, in_app_iff; right; left; reflexivity|].
      intros p Hp. apply NI, in_app_iff. left. apply place_in, Hp.
    + intros k H. rewrite Hl by exact H. destruct (Z.eqb_spec k i) as [->|]; [|rewrite andb_true_r; reflexivity].
      rewrite (proj2 (Z.eqb_neq (key i) b)) by congruence. rewrite !andb_false_r. reflexivity.
Qed.

(** * The block table is a map

    The invariant of the table: both indexes hold exactly the blocks in use.
    With it a lookup is a search of the table, whatever was inserted, retired
    or flushed before. *)

Section Table.
Context {Cfg : JitConfig}.
Variable host : emu_jit_host.

Definition in_use (j : jit) (i : Z) : bool := live (g_blocks j i).
Definition hash_key (j : jit) (i : Z) : Z := pc_hash (guest_pc (g_blocks j i)) (context (g_blocks j i)).
Definition page_key (j : jit) (i : Z) : Z := page_bucket (block_page_lo (g_blocks j i)).

(** The index of the blocks below [n]. *)
Definition hash_upto (j : jit) (n : Z) : Prop :=
  index_ok (g_hash j) (fun i => next (g_blocks j i)) (in_use j) (hash_key j) EMU_JIT_HASH_SIZE n.
Definition page_upto (j : jit) (n : Z) : Prop :=
  index_ok (g_phash j) (fun i => pnext (g_blocks j i)) (in_use j) (page_key j) EMU_JIT_PAGE_HASH_SIZE n.
Definition hash_ok (j : jit) : Prop := hash_upto j (g_block_count j).
Definition page_ok (j : jit) : Prop := page_upto j (g_block_count j).

Definition block_ok (b : jit_block) : Prop := is_u32 (guest_pc b) /\ 0 <= insns b < 2 ^ 16.
Definition page_span (b : jit_block) : Z := block_page_hi b - block_page_lo b.

Record table_ok (j : jit) : Prop := {
  t_count : 0 <= g_block_count j <= EMU_JIT_MAX_BLOCKS;
  t_hash : hash_ok j;
  t_page : page_ok j;
  t_span : forall i, 0 <= i < g_block_count j -> in_use j i = true -> page_span (g_blocks j i) <= g_max_span j;
  t_span0 : 0 <= g_max_span j;
  t_block : forall i, 0 <= i < g_block_count j -> block_ok (g_blocks j i)
}.

(** ** Buckets and pages *)

Lemma land_ones_range x m : (exists k, 0 <= k < 32 /\ m = 2 ^ k) -> 0 <= x &! (m - 1) < m.
Proof.
  intros (k & Hk & ->). replace (2 ^ k - 1) with (Z.ones k) by (rewrite Z.ones_equiv; lia).
  rewrite Z.land_ones by lia. apply Z.mod_pos_bound. lia.
Qed.

Lemma pc_hash_range pc ctx : 0 <= pc_hash pc ctx < EMU_JIT_HASH_SIZE.
Proof. apply land_ones_range, hash_size_ok. Qed.
Lemma page_bucket_range p : 0 <= page_bucket p < EMU_JIT_PAGE_HASH_SIZE.
Proof. apply land_ones_range, page_hash_ok. Qed.

Lemma page_hi_value b : block_ok b -> block_page_hi b = Z.min (2 ^ 32 - 1) (guest_pc b + Z.max 0 (insns b * 4 - 1)) / 2 ^ 12.
Proof.
  intros [Hp Hi]. unfold block_page_hi, JIT_PAGE_SHIFT, is_u32 in *. cbv zeta. rewrite !Z.shiftr_div_pow2 by lia.
  assert (E : (if negb (insns b =? 0) then insns b * 4 - 1 else 0) = Z.max 0 (insns b * 4 - 1)) by (destruct (Z.eqb_spec (insns b) 0); cbn [negb]; lia).
  rewrite E. destruct (Z.ltb_spec 4294967295 (guest_pc b + Z.max 0 (insns b * 4 - 1))); f_equal; lia.
Qed.

Lemma page_lo_value b : block_page_lo b = guest_pc b / 2 ^ 12.
Proof. unfold block_page_lo. apply Z.shiftr_div_pow2. unfold JIT_PAGE_SHIFT. lia. Qed.

Lemma page_lo_hi b : block_ok b -> 0 <= block_page_lo b <= block_page_hi b /\ block_page_hi b < 2 ^ 20.
Proof.
  intros H. pose proof H as [Hp Hi]. rewrite page_hi_value, page_lo_value by exact H. unfold is_u32 in Hp.
  assert (guest_pc b <= Z.min (2 ^ 32 - 1) (guest_pc b + Z.max 0 (insns b * 4 - 1)) <= 2 ^ 32 - 1) by lia.
  split; [split; [apply Z.div_pos; lia|apply Z.div_le_mono; lia]|apply Z.div_lt_upper_bound; lia].
Qed.

(** Every byte of the block's guest code is on one of its pages. *)
Lemma page_covers b a : block_ok b -> guest_pc b <= a < guest_pc b + insns b * 4 -> is_u32 a ->
  block_page_lo b <= Z.shiftr a JIT_PAGE_SHIFT <= block_page_hi b.
Proof.
  intros H Ha Hu. pose proof H as [Hp Hi]. rewrite page_hi_value, page_lo_value by exact H. unfold JIT_PAGE_SHIFT, is_u32 in *. rewrite Z.shiftr_div_pow2 by lia.
  split; apply Z.div_le_mono; lia.
Qed.

(** ** Lookup *)

(** The newest block for the address and the context. *)
Definition newest (j : jit) (pc ctx : Z) : option Z :=
  List.find (fun i => in_use j i && is_for (g_blocks j i) pc ctx) (down (g_block_count j)).

Lemma find_from_chain j pc ctx : forall l i fuel, chain (fun i => next (g_blocks j i)) i l -> (length l < fuel)%nat ->
  find_from fuel j i pc ctx = List.find (fun i => is_for (g_blocks j i) pc ctx) l.
Proof.
  induction l as [|k l IH]; intros i fuel C Hf; (destruct fuel as [|fuel]; [cbn in Hf; lia|]); cbn [find_from List.find].
  - cbn in C. subst i. reflexivity.
  - destruct C as (-> & H & C). destruct (Z.ltb_spec k 0); [lia|]. destruct (is_for _ _ _); [reflexivity|]. apply IH; [exact C|cbn in Hf; lia].
Qed.

Lemma find_block_newest j pc ctx : 0 <= g_block_count j -> hash_ok j -> find_block j pc ctx = newest j pc ctx.
Proof.
  intros Hc K. unfold find_block. rewrite (find_from_chain j pc ctx _ _ _ (K _ (pc_hash_range pc ctx))).
  - rewrite filter_find. apply find_ext_in. intros i _. unfold is_for. destruct (in_use j i); [|reflexivity]. cbn [andb].
    destruct (Z.eqb_spec (guest_pc (g_blocks j i)) pc) as [E1|]; [|rewrite andb_false_r; reflexivity].
    destruct (Z.eqb_spec (context (g_blocks j i)) ctx) as [E2|]; [|rewrite andb_false_r; reflexivity].
    unfold hash_key. rewrite E1, E2, Z.eqb_refl. reflexivity.
  - unfold chain_fuel. pose proof (filter_length (fun i => in_use j i && (hash_key j i =? pc_hash pc ctx)) (g_block_count j)). lia.
Qed.

Lemma newest_some j pc ctx i : newest j pc ctx = Some i ->
  0 <= i < g_block_count j /\ in_use j i = true /\ guest_pc (g_blocks j i) = pc /\ context (g_blocks j i) = ctx.
Proof.
  intros H. apply find_some in H as [H1 H2]. apply in_down in H1. apply andb_true_iff in H2 as [H2 H3]. unfold is_for in H3.
  apply andb_true_iff in H3 as [H3 H4]. apply Z.eqb_eq in H3, H4. auto.
Qed.

(** ** What does not touch the table *)

Definition same_table (j j' : jit) : Prop :=
  g_blocks j' = g_blocks j /\ g_block_count j' = g_block_count j /\ g_hash j' = g_hash j /\ g_phash j' = g_phash j /\ g_max_span j' = g_max_span j.

Lemma same_table_refl j : same_table j j.
Proof. repeat split. Qed.
Lemma same_table_trans j1 j2 j3 : same_table j1 j2 -> same_table j2 j3 -> same_table j1 j3.
Proof. intros (A1 & A2 & A3 & A4 & A5) (B1 & B2 & B3 & B4 & B5). repeat split; congruence. Qed.

Lemma same_table_ok j j' : same_table j j' -> table_ok j -> table_ok j'.
Proof. destruct j, j'. unfold same_table. cbn. intros (-> & -> & -> & -> & ->) [H1 H2 H3 H4 H5 H6]. split; assumption. Qed.

Lemma neg_invalidate_same j : same_table j (neg_invalidate j).
Proof. unfold neg_invalidate. cbv zeta. destruct (_ <? _); repeat split. Qed.
Lemma seen_set_same j s pc ctx v : same_table j (seen_set j s pc ctx v).
Proof. repeat split. Qed.
Lemma evict_note_same j pc key : same_table j (evict_note j pc key).
Proof. unfold evict_note. cbv zeta. destruct (_ =? 0); [repeat split|]. destruct (_ || _); [repeat split|]. destruct (_ && _); [repeat split|]. destruct (_ <=? _); repeat split. Qed.
Lemma heat_bump_same j pc key : same_table j (snd (heat_bump j pc key)).
Proof. unfold heat_bump. cbv zeta. destruct (_ <=? _); [repeat split|]. destruct (_ <=? _); repeat split. Qed.

(** ** Flushing *)

Lemma cleared_all n a b : 0 <= b < n -> cleared n a b = -1.
Proof. intros H. unfold cleared. rewrite (proj2 (Z.leb_le 0 b)), (proj2 (Z.ltb_lt b n)) by lia. reflexivity. Qed.

Lemma flush_ok j : table_ok (emu_jit_flush j) /\ g_block_count (emu_jit_flush j) = 0.
Proof.
  unfold emu_jit_flush. set (j1 := j <| g_hash := _ |> <| g_phash := _ |> <| g_max_span := _ |> <| g_block_count := _ |> <| g_code_used := _ |>).
  pose proof (neg_invalidate_same j1) as S. split; [|destruct S as (_ & -> & _); reflexivity]. apply (same_table_ok j1 _ S).
  pose proof max_blocks_ok. split; cbn; [lia| | | |lia|]; try (intros; lia).
  - apply index_none; [apply cleared_all|cbn; lia].
  - apply index_none; [apply cleared_all|cbn; lia].
Qed.

(** ** A new block *)

Lemma span_value b : block_ok b -> (block_page_hi b -! block_page_lo b) = page_span b.
Proof. intros H. pose proof (page_lo_hi b H). unfold page_span. apply u32_id. unfold is_u32. lia. Qed.

(** Blocks that agree on all but the links and the hits are the same to both
    indexes. *)
Definition alike (b b' : jit_block) : Prop :=
  context b' = context b /\ guest_pc b' = guest_pc b /\ layout b' = layout b /\ code b' = code b /\ len b' = len b /\ insns b' = insns b.

Lemma alike_refl b : alike b b.
Proof. repeat split. Qed.
Lemma alike_trans b1 b2 b3 : alike b1 b2 -> alike b2 b3 -> alike b1 b3.
Proof. intros (A1 & A2 & A3 & A4 & A5 & A6) (B1 & B2 & B3 & B4 & B5 & B6). repeat split; congruence. Qed.

Lemma alike_keys j j' i : alike (g_blocks j i) (g_blocks j' i) -> in_use j' i = in_use j i /\ hash_key j' i = hash_key j i /\ page_key j' i = page_key j i /\
  page_span (g_blocks j' i) = page_span (g_blocks j i) /\ (block_ok (g_blocks j i) -> block_ok (g_blocks j' i)).
Proof.
  intros (A1 & A2 & A3 & A4 & A5 & A6). unfold in_use, live, hash_key, page_key, page_span, block_page_hi, block_page_lo, block_ok. rewrite A1, A2, A4, A6. auto.
Qed.

(** The state but for the table's arrays. *)
Lemma chain_insert_view j i : let j' := chain_insert j i in
  g_hash j' = upd (g_hash j) (hash_key j i) i /\ g_phash j' = g_phash j /\ g_max_span j' = g_max_span j /\ g_block_count j' = g_block_count j /\
  (forall k, g_blocks j' k = if k =? i then (g_blocks j i) <| next := g_hash j (hash_key j i) |> else g_blocks j k).
Proof. repeat split. Qed.

Lemma page_insert_view j i : block_ok (g_blocks j i) -> let j' := page_insert j i in
  g_hash j' = g_hash j /\ g_phash j' = upd (g_phash j) (page_key j i) i /\ g_max_span j' = Z.max (g_max_span j) (page_span (g_blocks j i)) /\
  g_block_count j' = g_block_count j /\
  (forall k, g_blocks j' k = if k =? i then (g_blocks j i) <| pnext := g_phash j (page_key j i) |> else g_blocks j k).
Proof.
  intros Hb. cbv zeta. unfold page_insert. rewrite span_value by exact Hb. cbn.
  destruct (Z.ltb_spec (g_max_span j) (page_span (g_blocks j i))); cbn; (split; [reflexivity|]; split; [reflexivity|]; split; [lia|]; split; reflexivity).
Qed.

Lemma chain_insert_upto j i : 0 <= i -> in_use j i = true -> hash_upto j i -> hash_upto (chain_insert j i) (i + 1).
Proof.
  intros Hi Hu K. destruct (chain_insert_view j i) as (Eh & _ & _ & _ & Eb). unfold hash_upto. rewrite Eh.
  eapply index_ext; [intros b Hb; reflexivity| |exact (index_push _ _ _ _ (in_use j) (hash_key j) _ i Hi K (fun k _ => conj eq_refl eq_refl) Hu)].
  intros k Hk. unfold in_use, hash_key, upd. rewrite Eb. destruct (Z.eqb_spec k i) as [->|]; repeat split.
Qed.

Lemma page_insert_upto j i : 0 <= i -> block_ok (g_blocks j i) -> in_use j i = true -> page_upto j i -> page_upto (page_insert j i) (i + 1).
Proof.
  intros Hi Hb Hu K. destruct (page_insert_view j i Hb) as (_ & Eh & _ & _ & Eb). unfold page_upto. rewrite Eh.
  eapply index_ext; [intros b H; reflexivity| |exact (index_push _ _ _ _ (in_use j) (page_key j) _ i Hi K (fun k _ => conj eq_refl eq_refl) Hu)].
  intros k Hk. unfold in_use, page_key, upd. rewrite Eb. destruct (Z.eqb_spec k i) as [->|]; repeat split.
Qed.

(** Each index is untouched by the other's links. *)
Lemma chain_insert_page j i n : page_upto j n -> page_upto (chain_insert j i) n.
Proof.
  apply index_ext; [reflexivity|]. intros k _. destruct (chain_insert_view j i) as (_ & _ & _ & _ & Eb).
  unfold in_use, page_key. rewrite Eb. destruct (Z.eqb_spec k i) as [->|]; repeat split.
Qed.
Lemma page_insert_hash j i n : block_ok (g_blocks j i) -> hash_upto j n -> hash_upto (page_insert j i) n.
Proof.
  intros Hb. destruct (page_insert_view j i Hb) as (Eh & _ & _ & _ & Eb). apply index_ext; [intros; rewrite Eh; reflexivity|]. intros k _.
  unfold in_use, hash_key. rewrite Eb. destruct (Z.eqb_spec k i) as [->|]; repeat split.
Qed.

Lemma insert_ok j b : table_ok j -> g_block_count j < EMU_JIT_MAX_BLOCKS -> block_ok b -> live b = true ->
  let i := g_block_count j in
  let j1 := j <| g_block_count := i + 1 |> <| g_blocks := upd (g_blocks j) i b |> in
  let j2 := page_insert (chain_insert j1 i) i in
  table_ok j2 /\ g_block_count j2 = i + 1 /\ alike b (g_blocks j2 i) /\ (forall k, k <> i -> g_blocks j2 k = g_blocks j k).
Proof.
  intros [H1 H2 H3 H4 H5 H6] Hc Hb Hl. cbv zeta. set (i := g_block_count j). set (j1 := j <| g_block_count := i + 1 |> <| g_blocks := upd (g_blocks j) i b |>).
  assert (B1 : g_blocks j1 i = b) by (cbn; apply upd_eq). assert (B0 : forall k, k <> i -> g_blocks j1 k = g_blocks j k) by (intros k Hk; cbn; apply upd_ne, Hk).
  destruct (chain_insert_view j1 i) as (Ch & Cp & Cs & Cc & Cb).
  assert (B2 : alike b (g_blocks (chain_insert j1 i) i)) by (rewrite Cb, Z.eqb_refl, B1; repeat split).
  assert (Hb2 : block_ok (g_blocks (chain_insert j1 i) i)) by (rewrite Cb, Z.eqb_refl, B1; exact Hb).
  destruct (page_insert_view _ i Hb2) as (Ph & Pp & Ps & Pc & Pb).
  assert (B3 : alike b (g_blocks (page_insert (chain_insert j1 i) i) i)) by (rewrite Pb, Z.eqb_refl; exact B2).
  assert (B4 : forall k, k <> i -> g_blocks (page_insert (chain_insert j1 i) i) k = g_blocks j k).
  { intros k Hk. rewrite Pb, (proj2 (Z.eqb_neq k i) Hk), Cb, (proj2 (Z.eqb_neq k i) Hk). apply B0, Hk. }
  assert (U1 : in_use j1 i = true) by (unfold in_use; rewrite B1; exact Hl).
  split; [|split; [rewrite Pc, Cc; reflexivity|split; assumption]]. split.
  - rewrite Pc, Cc. cbn. unfold i. lia.
  - unfold hash_ok. rewrite Pc, Cc. apply page_insert_hash; [exact Hb2|]. apply chain_insert_upto; [apply H1|exact U1|].
    eapply index_ext; [| |exact H2]; [reflexivity|]. intros k Hk. unfold in_use, hash_key. rewrite B0 by (unfold i; lia). repeat split.
  - unfold page_ok. rewrite Pc, Cc. apply page_insert_upto; [apply H1|exact Hb2|unfold in_use, live in *; rewrite Cb, Z.eqb_refl, B1; exact Hl|].
    apply chain_insert_page. eapply index_ext; [| |exact H3]; [reflexivity|]. intros k Hk. unfold in_use, page_key. rewrite B0 by (unfold i; lia). repeat split.
  - rewrite Pc, Cc, Ps, Cs. intros k Hk Hu. destruct (Z.eq_dec k i) as [->|Ne]; [rewrite Pb, Z.eqb_refl; apply Z.le_max_r|]. unfold in_use in *.
    rewrite B4 in * by exact Ne. etransitivity; [|apply Z.le_max_l]. apply H4; [cbn in Hk; unfold i in *; lia|exact Hu].
  - rewrite Ps, Cs. etransitivity; [exact H5|apply Z.le_max_l].
  - rewrite Pc, Cc. intros k Hk. destruct (Z.eq_dec k i) as [->|Ne]; [|rewrite B4 by exact Ne; apply H6; cbn in Hk; unfold i in *; lia].
    destruct B3 as (_ & E2 & _ & _ & _ & E6). unfold block_ok. rewrite E2, E6. exact Hb.
Qed.

(** ** Rebuilding *)

(** As [alike], and the hash index's link and the hits too. *)
Definition but_page (b b' : jit_block) : Prop := alike b b' /\ next b' = next b /\ hits b' = hits b.

Lemma but_page_trans b1 b2 b3 : but_page b1 b2 -> but_page b2 b3 -> but_page b1 b3.
Proof. intros (A1 & A2 & A3) (B1 & B2 & B3). split; [eapply alike_trans; eassumption|split; congruence]. Qed.

Record repaged (j j' : jit) : Prop := {
  rp_hash : g_hash j' = g_hash j;
  rp_count : g_block_count j' = g_block_count j;
  rp_blocks : forall k, but_page (g_blocks j k) (g_blocks j' k);
  rp_rest : g_code j' = g_code j /\ g_code_size j' = g_code_size j /\ g_code_used j' = g_code_used j /\ g_bytes j' = g_bytes j /\
            g_neg j' = g_neg j /\ g_neg_epoch j' = g_neg_epoch j
}.

Lemma repaged_trans j1 j2 j3 : repaged j1 j2 -> repaged j2 j3 -> repaged j1 j3.
Proof.
  intros [A1 A2 A3 A4] [B1 B2 B3 B4]. split; [congruence|congruence|intros k; eapply but_page_trans; eauto|].
  destruct A4 as (? & ? & ? & ? & ? & ?), B4 as (? & ? & ? & ? & ? & ?). repeat split; congruence.
Qed.

Lemma repaged_keys j j' k : repaged j j' -> in_use j' k = in_use j k /\ hash_key j' k = hash_key j k /\ page_key j' k = page_key j k /\
  page_span (g_blocks j' k) = page_span (g_blocks j k) /\ (block_ok (g_blocks j k) -> block_ok (g_blocks j' k)).
Proof. intros [_ _ H _]. apply alike_keys, H. Qed.

Lemma repaged_hash j j' n : repaged j j' -> hash_upto j n -> hash_upto j' n.
Proof.
  intros R. apply index_ext; [intros; rewrite (rp_hash _ _ R); reflexivity|]. intros k _. destruct (repaged_keys j j' k R) as (-> & -> & _).
  split; [apply (rp_blocks _ _ R k)|split; reflexivity].
Qed.

Lemma page_insert_repaged j i : block_ok (g_blocks j i) -> repaged j (page_insert j i).
Proof.
  intros Hb. destruct (page_insert_view j i Hb) as (Eh & _ & _ & Ec & Eb). split; [exact Eh|exact Ec| |].
  - intros k. rewrite Eb. destruct (Z.eqb_spec k i) as [->|]; repeat split.
  - unfold page_insert. destruct (_ <? _); repeat split.
Qed.

Lemma no_page_repaged j i : repaged j (at_block j i (fun b => b <| pnext := -1 |>)).
Proof. split; [reflexivity|reflexivity| |repeat split]. intros k. cbn. unfold upd. destruct (Z.eqb_spec k i) as [->|]; repeat split. Qed.

Lemma rebuild_pages_ok j : 0 <= g_block_count j -> (forall i, 0 <= i < g_block_count j -> block_ok (g_blocks j i)) ->
  let j' := rebuild_pages j in
  repaged j j' /\ page_ok j' /\ 0 <= g_max_span j' /\
  (forall i, 0 <= i < g_block_count j -> in_use j' i = true -> page_span (g_blocks j' i) <= g_max_span j').
Proof.
  intros Hc Hb. cbv zeta. unfold rebuild_pages. set (j1 := j <| g_phash := _ |> <| g_max_span := 0 |>).
  assert (R1 : repaged j j1) by (split; [reflexivity|reflexivity|intros k; repeat split|repeat split]).
  change (g_block_count j1) with (g_block_count j). set (f := fun j i => if live (g_blocks j i) then page_insert j i else at_block j i (fun b => b <| pnext := -1 |>)).
  pose (P := fun n s => repaged j s /\ page_upto s n /\ 0 <= g_max_span s /\ (forall i, 0 <= i < n -> in_use s i = true -> page_span (g_blocks s i) <= g_max_span s)).
  assert (K : P (g_block_count j) (fold_left f (upto (g_block_count j)) j1)).
  { apply (fold_upto f P); [exact Hc| |].
    - split; [exact R1|]. split; [apply index_none; [apply cleared_all|lia]|]. split; [cbn; lia|lia].
    - intros i s Hi (R & K & S0 & S). assert (Bi : block_ok (g_blocks s i)) by (apply (repaged_keys j s i R), Hb, Hi). unfold f.
      destruct (live (g_blocks s i)) eqn:El.
      + pose proof (page_insert_repaged s i Bi) as R2. destruct (page_insert_view s i Bi) as (_ & _ & Es & _ & _). split; [eapply repaged_trans; eassumption|].
        split; [apply page_insert_upto; [lia|exact Bi|exact El|exact K]|]. rewrite Es. split; [lia|]. intros k Hk Hu.
        destruct (repaged_keys s _ k R2) as (E1 & _ & _ & E2 & _). rewrite E1 in Hu. rewrite E2. destruct (Z.eq_dec k i) as [->|]; [lia|]. specialize (S k ltac:(lia) Hu). lia.
      + split; [eapply repaged_trans; [exact R|apply no_page_repaged]|]. pose proof (no_page_repaged s i) as R2. split; [|split; [exact S0|]].
        * unfold page_upto. eapply index_ext; [| |apply index_skip; [|exact K|exact El]]; [reflexivity| |lia].
          intros k Hk. destruct (repaged_keys s _ k R2) as (E1 & _ & E2 & _). rewrite E1, E2. split; [|split; reflexivity]. cbn. unfold upd. destruct (Z.eqb_spec k i) as [->|]; reflexivity.
        * intros k Hk Hu. destruct (repaged_keys s _ k R2) as (E1 & _ & _ & E2 & _). rewrite E1 in Hu. rewrite E2. destruct (Z.eq_dec k i) as [->|]; [unfold in_use in Hu; congruence|].
          apply S; [lia|exact Hu]. }
  destruct K as (R & K & S0 & S). split; [exact R|]. split; [unfold page_ok; rewrite (rp_count _ _ R); exact K|]. split; [exact S0|exact S].
Qed.
End Table.

(** * The JIT framework: refused addresses

    The table of addresses that are not worth translating is valid per epoch:
    no entry carries a later one, so that starting a new epoch forgets all of
    them at once. *)

Section Neg.
Context {Cfg : JitConfig}.

(** No tag is from a later epoch, and a count of misses fits beside one. *)
Record neg_ok (j : jit) : Prop := {
  n_hot : g_hot_threshold j <= 127;
  n_epoch : 1 <= g_neg_epoch j <= JIT_SEEN_EPOCH_MAX;
  n_tags : forall k, 0 <= k < JIT_NEG_SIZE -> 0 <= Z.shiftr (n_tag (g_neg j k)) 8 <= g_neg_epoch j
}.

Lemma neg_slot_range pc ctx : 0 <= neg_slot pc ctx < JIT_NEG_SIZE.
Proof. apply land_ones_range. exists 10. split; [lia|reflexivity]. Qed.

Lemma tag_epoch e v : 0 <= e <= JIT_SEEN_EPOCH_MAX -> 0 <= v < 256 -> Z.shiftr ((e <<! 8) |! v) 8 = e.
Proof.
  unfold JIT_SEEN_EPOCH_MAX. intros He Hv. rewrite Z.shiftr_lor. rewrite (Z.shiftr_div_pow2 v) by lia. rewrite (Z.div_small v) by lia. rewrite Z.lor_0_r.
  rewrite u32_id, Z.shiftr_shiftl_l by (rewrite ?Z.shiftl_mul_pow2 by lia; unfold is_u32; lia). apply Z.shiftl_0_r.
Qed.

Lemma seen_set_neg j pc ctx v : neg_ok j -> 0 <= v < 256 -> neg_ok (seen_set j (neg_slot pc ctx) pc ctx v).
Proof.
  intros [N0 N1 N2] Hv. split; [exact N0|exact N1|]. intros k Hk. cbn. unfold upd. destruct (k =? _); [|apply N2, Hk]. cbn. rewrite tag_epoch; [lia|lia|exact Hv].
Qed.

Lemma neg_invalidate_ok j : neg_ok j -> neg_ok (neg_invalidate j) /\ (forall pc key, seen_of (neg_invalidate j) pc key = 0).
Proof.
  intros [N0 [N1 N1'] N2]. unfold neg_invalidate. cbn. assert (E : g_neg_epoch j +! 1 = g_neg_epoch j + 1) by (apply u32_id; unfold is_u32, JIT_SEEN_EPOCH_MAX in *; lia). rewrite E.
  destruct (Z.ltb_spec JIT_SEEN_EPOCH_MAX (g_neg_epoch j + 1)).
  - split; [split; cbn; [exact N0|unfold JIT_SEEN_EPOCH_MAX; lia|]|].
    + intros k Hk. rewrite (proj2 (Z.leb_le 0 k)), (proj2 (Z.ltb_lt k JIT_NEG_SIZE)) by lia. cbn [andb n_tag]. change (Z.shiftr 0 8) with 0. lia.
    + intros pc key. unfold seen_of, seen_get. cbn. pose proof (neg_slot_range pc (ctx_fold key)) as R. set (s := neg_slot _ _) in *. rewrite (proj2 (Z.leb_le 0 s)), (proj2 (Z.ltb_lt s JIT_NEG_SIZE)) by lia. reflexivity.
  - split; [split; cbn; [exact N0|lia|]|].
    + intros k Hk. specialize (N2 k Hk). lia.
    + intros pc key. unfold seen_of, seen_get. cbn. pose proof (N2 _ (neg_slot_range pc (ctx_fold key))) as R. rewrite (proj2 (Z.eqb_neq _ (g_neg_epoch j + 1))) by lia. reflexivity.
Qed.

Lemma same_neg j j' : g_neg j' = g_neg j -> g_neg_epoch j' = g_neg_epoch j -> g_hot_threshold j' = g_hot_threshold j -> neg_ok j -> neg_ok j'.
Proof. destruct j, j'. cbn. intros -> -> -> [N0 N1 N2]. split; assumption. Qed.

Lemma flush_neg j : neg_ok j -> neg_ok (emu_jit_flush j) /\ (forall pc key, seen_of (emu_jit_flush j) pc key = 0).
Proof. intros N. unfold emu_jit_flush. apply neg_invalidate_ok. eapply same_neg; [..|exact N]; reflexivity. Qed.

Lemma seen_get_range j s pc ctx : 0 <= seen_get j s pc ctx < 256.
Proof.
  unfold seen_get. destruct (_ || _); [lia|]. change 255 with (Z.ones 8). rewrite Z.land_ones by lia. apply Z.mod_pos_bound. lia.
Qed.

Lemma lor_byte v w : 0 <= v < 256 -> 0 <= w < 256 -> 0 <= v |! w < 256.
Proof.
  intros Hv Hw. split; [apply Z.lor_nonneg; lia|]. destruct (Z.eq_dec (v |! w) 0) as [->|Nz]; [lia|]. change 256 with (2 ^ 8).
  assert (0 < v |! w) by (pose proof (proj2 (Z.lor_nonneg v w)); lia).
  apply Z.log2_lt_pow2; [assumption|]. rewrite Z.log2_lor by lia.
  assert (L : forall x, 0 <= x < 256 -> Z.log2 x < 8) by (intros x Hx; destruct (Z.eq_dec x 0) as [->|]; [reflexivity|apply Z.log2_lt_pow2; cbn; lia]).
  apply Z.max_lub_lt; apply L; assumption.
Qed.

Lemma neg_note_neg j pc key : neg_ok j -> neg_ok (neg_note j pc key).
Proof. intros N. apply seen_set_neg; [exact N|]. unfold JIT_SEEN_DECLINED. lia. Qed.

Lemma heat_bump_neg j pc key : neg_ok j -> neg_ok (snd (heat_bump j pc key)).
Proof.
  intros N. unfold heat_bump. cbv zeta. destruct (_ <=? 1); [exact N|]. pose proof (seen_get_range j (neg_slot pc (ctx_fold key)) pc (ctx_fold key)) as R.
  rewrite u32_id by (unfold is_u32; lia). destruct (Z.leb_spec (g_hot_threshold j) (seen_get j (neg_slot pc (ctx_fold key)) pc (ctx_fold key) + 1)); [exact N|].
  apply seen_set_neg; [exact N|]. destruct N as [N0 _ _]. lia.
Qed.

Lemma ldiff_high v : 0 <= v < 256 -> 0 <= Z.ldiff v JIT_SEEN_EVICTED < 128 \/ has v JIT_SEEN_EVICTED = false.
Proof.
  intros Hv. left. unfold JIT_SEEN_EVICTED.
  assert (H : forallb (fun n => let v := Z.of_nat n in (0 <=? Z.ldiff v 128) && (Z.ldiff v 128 <? 128)) (seq 0 256) = true) by (vm_compute; reflexivity).
  rewrite forallb_forall in H. specialize (H (Z.to_nat v)). cbv zeta in H. rewrite Z2Nat.id in H by lia.
  rewrite andb_true_iff, Z.leb_le, Z.ltb_lt in H. apply H, in_seq. lia.
Qed.

Lemma evict_note_neg j pc key : neg_ok j -> neg_ok (evict_note j pc key).
Proof.
  intros N. unfold evict_note. cbv zeta. destruct (_ =? 0); [exact N|]. set (ctx := ctx_fold key). set (v := seen_get j (neg_slot pc ctx) pc ctx).
  destruct (_ || _); [exact N|]. set (n := if has v JIT_SEEN_EVICTED then _ else 1).
  assert (Hn : 1 <= n <= 128).
  { unfold n. destruct (ldiff_high v (seen_get_range j _ _ _)) as [H|H]; [|rewrite H; lia]. destruct (has _ _); [|lia]. rewrite u32_id by (unfold is_u32; lia). lia. }
  destruct (_ && _); [apply seen_set_neg; [eapply same_neg; [..|exact N]; reflexivity|unfold JIT_SEEN_THRASH; lia]|].
  destruct (_ <=? n); apply seen_set_neg; try exact N; apply lor_byte; try (unfold JIT_SEEN_EVICTED; lia).
  rewrite u32_id by (unfold is_u32; lia). lia.
Qed.

(** ** The buffer stays the same one *)

(** And the refused addresses stay in order. *)
Definition same_buffer (j j' : jit) : Prop := g_code_size j' = g_code_size j /\ g_code j' = g_code j /\ (neg_ok j -> neg_ok j').

#[export] Instance same_buffer_order : PreOrder same_buffer.
Proof. split; [intros j; split; [reflexivity|split; [reflexivity|auto]]|intros j1 j2 j3 (? & ? & ?) (? & ? & ?); split; [congruence|split; [congruence|auto]]]. Qed.

Lemma same_fields j j' : g_code_size j' = g_code_size j -> g_code j' = g_code j -> g_neg j' = g_neg j -> g_neg_epoch j' = g_neg_epoch j ->
  g_hot_threshold j' = g_hot_threshold j -> same_buffer j j'.
Proof. intros H1 H2 H3 H4 H5. split; [exact H1|]. split; [exact H2|]. apply same_neg; assumption. Qed.

Lemma flush_keeps j : same_buffer j (emu_jit_flush j).
Proof.
  split; [|split; [|intros N; apply flush_neg, N]]; unfold emu_jit_flush, neg_invalidate; cbv zeta; destruct (_ <? _); reflexivity.
Qed.
End Neg.

(** For a state that differs in none of those fields. *)
Ltac keep := apply same_fields; reflexivity.
