(* ===== verification/JitRetire.v ===== *)
(** * Retiring blocks

    A block that is retired leaves both indexes; an invalidation retires
    exactly the blocks whose guest code may be on the pages it names. *)

From stdpp Require Import base list.
From Stdlib Require Import ZArith Lia.
From S2P Require Import Prelude RvHart Jit JitIndex.

Open Scope Z_scope.
Open Scope u32_scope.

Section Retire.
Context {Cfg : JitConfig}.
Variable host : emu_jit_host.

(** ** Out of the hash index *)

Lemma link_at_place j b l1 : link_at j b (place l1) = match place l1 with None => g_hash j b | Some p => next (g_blocks j p) end.
Proof. reflexivity. Qed.

Lemma place_snoc l k : place (l ++ [k]) = Some k.
Proof. unfold place. apply last_snoc. Qed.

Lemma unhash_from_at j b i l1 l2 : chain (fun k => next (g_blocks j k)) (g_hash j b) (l1 ++ i :: l2) -> List.NoDup (l1 ++ i :: l2) ->
  forall m2 m1 fuel, l1 = m1 ++ m2 -> (length m2 < fuel)%nat ->
  unhash_from fuel j b (place m1) i = at_block (set_link j b (place l1) (next (g_blocks j i))) i (fun b => b <| next := -1 |>).
Proof.
  intros C ND. induction m2 as [|k m2 IH]; intros m1 fuel E Hf; (destruct fuel as [|fuel]; [cbn in Hf; lia|]); cbn [unhash_from];
    pose proof C as C1; rewrite E, <- app_assoc in C1; apply chain_at in C1; rewrite <- link_at_place in C1; destruct C1 as (E1 & H0 & _); rewrite E1.
  - destruct (Z.ltb_spec i 0); [lia|]. rewrite Z.eqb_refl. rewrite app_nil_r in E. subst m1. reflexivity.
  - destruct (Z.ltb_spec k 0); [lia|]. assert (Ne : k <> i).
    { rewrite E in ND. rewrite <- app_assoc in ND. apply NoDup_app_remove_l in ND. cbn in ND. apply NoDup_cons_iff in ND as [N _]. intros ->. apply N, in_app_iff. right. left. reflexivity. }
    rewrite (proj2 (Z.eqb_neq k i) Ne). rewrite <- (place_snoc m1 k). apply IH; [rewrite <- app_assoc; exact E|cbn in Hf; lia].
Qed.

(** Equal but for the hash index's link. *)
Definition but_hash (b b' : jit_block) : Prop := alike b b' /\ pnext b' = pnext b /\ hits b' = hits b.

(** The state after a block was retired. *)
Record retired (i : Z) (j j' : jit) : Prop := {
  rt_count : g_block_count j' = g_block_count j;
  rt_phash : g_phash j' = g_phash j;
  rt_span : g_max_span j' = g_max_span j;
  rt_rest : g_code j' = g_code j /\ g_code_size j' = g_code_size j /\ g_code_used j' = g_code_used j /\ g_neg j' = g_neg j /\ g_neg_epoch j' = g_neg_epoch j;
  rt_other : forall k, k <> i -> but_hash (g_blocks j k) (g_blocks j' k);
  rt_this : code (g_blocks j' i) = None /\ pnext (g_blocks j' i) = pnext (g_blocks j i) /\
            guest_pc (g_blocks j' i) = guest_pc (g_blocks j i) /\ context (g_blocks j' i) = context (g_blocks j i) /\ insns (g_blocks j' i) = insns (g_blocks j i);
  rt_hash : hash_ok j'
}.

Lemma set_link_view j b l1 v i : let j' := at_block (set_link j b (place l1) v) i (fun b => b <| next := -1 |>) in
  g_hash j' = put_head (g_hash j) b (place l1) v /\
  (forall k, g_blocks j' k = (g_blocks j k) <| next := upd (put_next (fun k => next (g_blocks j k)) (place l1) v) i (-1) k |>) /\
  g_block_count j' = g_block_count j /\ g_phash j' = g_phash j /\ g_max_span j' = g_max_span j /\
  (g_code j' = g_code j /\ g_code_size j' = g_code_size j /\ g_code_used j' = g_code_used j /\ g_neg j' = g_neg j /\ g_neg_epoch j' = g_neg_epoch j).
Proof.
  cbv zeta. destruct (place l1) as [p|]; cbn; (split; [reflexivity|]; split; [|repeat split]); intros k; unfold upd.
  - destruct (Z.eqb_spec k i) as [->|]; [destruct (Z.eqb_spec i p) as [->|]; reflexivity|]. destruct (Z.eqb_spec k p) as [->|]; [reflexivity|]. destruct (g_blocks j k); reflexivity.
  - destruct (Z.eqb_spec k i) as [->|]; [reflexivity|]. destruct (g_blocks j k); reflexivity.
Qed.

Lemma unhash_retired j i : 0 <= g_block_count j -> hash_ok j -> 0 <= i < g_block_count j -> in_use j i = true ->
  retired i j (at_block (unhash j i) i (fun b => b <| code := None |> <| hits := 0 |>)).
Proof.
  intros Hc K Hi Hu. set (p := fun k => in_use j k && (hash_key j k =? hash_key j i)).
  destruct (filter_split p (g_block_count j) i Hi) as (l1 & l2 & E); [unfold p; rewrite Hu, Z.eqb_refl; reflexivity|].
  pose proof (K (hash_key j i) (pc_hash_range _ _)) as C. fold p in C. rewrite E in C.
  assert (ND : List.NoDup (l1 ++ i :: l2)) by (rewrite <- E; apply List.NoDup_filter, down_nodup).
  assert (Hl : (length l1 < chain_fuel j)%nat).
  { unfold chain_fuel. pose proof (filter_length p (g_block_count j)) as H. rewrite E, length_app in H. cbn in H. lia. }
  unfold unhash. change (pc_hash (guest_pc (g_blocks j i)) (context (g_blocks j i))) with (hash_key j i).
  change (unhash_from (chain_fuel j) j (hash_key j i) None i) with (unhash_from (chain_fuel j) j (hash_key j i) (place []) i).
  rewrite (unhash_from_at j (hash_key j i) i l1 l2 C ND l1 [] (chain_fuel j) eq_refl Hl).
  destruct (set_link_view j (hash_key j i) l1 (next (g_blocks j i)) i) as (Vh & Vb & Vc & Vp & Vs & Vr).
  set (j1 := at_block (set_link _ _ _ _) i _) in *. set (j2 := at_block j1 i (fun b => b <| code := None |> <| hits := 0 |>)).
  assert (B2 : forall k, g_blocks j2 k = if k =? i then (g_blocks j1 i) <| code := None |> <| hits := 0 |> else g_blocks j1 k) by reflexivity.
  split; [exact Vc|exact Vp|exact Vs|exact Vr| | |].
  - intros k Hk. rewrite B2, (proj2 (Z.eqb_neq k i) Hk), Vb. repeat split.
  - rewrite B2, Z.eqb_refl, Vb. repeat split.
  - unfold hash_ok, hash_upto. change (g_block_count j2) with (g_block_count j1). rewrite Vc.
    change (g_hash j2) with (g_hash j1). rewrite Vh.
    eapply index_ext; [reflexivity| |eapply (index_cut (g_hash j) (fun k => next (g_blocks j k)) (in_use j) (hash_key j) (fun k => in_use j k && negb (k =? i))); [exact K|apply pc_hash_range|exact E|reflexivity]].
    intros k Hk. unfold in_use, hash_key. rewrite B2, !Vb. destruct (Z.eqb_spec k i) as [->|]; [cbn; rewrite andb_false_r; repeat split|].
    cbn. rewrite andb_true_r. repeat split.
Qed.

Lemma host_jump_same j a b : same_table j (host_jump host j a b) /\
  (g_code (host_jump host j a b) = g_code j /\ g_code_size (host_jump host j a b) = g_code_size j /\ g_code_used (host_jump host j a b) = g_code_used j /\
   g_neg (host_jump host j a b) = g_neg j /\ g_neg_epoch (host_jump host j a b) = g_neg_epoch j).
Proof. unfold host_jump. destruct (emit_jump host); repeat split. Qed.

(** Either everything was flushed, or this block is gone. *)
Lemma retire_one_ok j i ok j' : retire_one host j i = (ok, j') -> 0 <= g_block_count j -> hash_ok j -> 0 <= i < g_block_count j -> in_use j i = true ->
  if ok then retired i j j' else j' = emu_jit_flush j.
Proof.
  unfold retire_one. cbv zeta. intros E Hc K Hi Hu. destruct (_ && _); [injection E as <- <-; reflexivity|]. injection E as <- <-.
  set (c := default 0 (code (g_blocks j i))). set (l := layout (g_blocks j i)).
  set (j1 := if chainable l then host_jump host j (c + chain_entry l) (c + tail l) else j).
  assert (S : same_table j j1 /\ (g_code j1 = g_code j /\ g_code_size j1 = g_code_size j /\ g_code_used j1 = g_code_used j /\ g_neg j1 = g_neg j /\ g_neg_epoch j1 = g_neg_epoch j)).
  { unfold j1. destruct (chainable l); [apply host_jump_same|repeat split]. }
  destruct S as ((S1 & S2 & S3 & S4 & S5) & R1).
  assert (K1 : hash_ok j1). { unfold hash_ok, hash_upto, in_use, hash_key in *. rewrite S1, S2, S3. exact K. }
  destruct (unhash_retired j1 i ltac:(lia) K1 ltac:(lia) ltac:(unfold in_use in *; rewrite S1; exact Hu)) as [T1 T2 T3 T4 T5 T6 T7].
  split; [congruence|congruence|congruence| | | |exact T7].
  - destruct T4 as (? & ? & ? & ? & ?), R1 as (? & ? & ? & ? & ?). repeat split; congruence.
  - rewrite <- S1. exact T5.
  - rewrite <- S1. exact T6.
Qed.

Lemma retire_one_false j i j' : retire_one host j i = (false, j') -> j' = emu_jit_flush j.
Proof. unfold retire_one. cbv zeta. destruct (_ && _); [intros [= <-]; reflexivity|discriminate]. Qed.

(** ** The buffer stays the same one *)

Lemma unhash_keeps fuel j b prev i : same_buffer j (unhash_from fuel j b prev i).
Proof.
  revert prev. induction fuel as [|fuel IH]; intros prev; cbn [unhash_from]; [reflexivity|]. destruct (_ <? 0); [reflexivity|]. destruct (_ =? i); [|apply IH].
  unfold set_link. destruct prev; keep.
Qed.

Lemma retire_one_keeps j i : same_buffer j (snd (retire_one host j i)).
Proof.
  unfold retire_one. cbv zeta. destruct (_ && _); [apply flush_keeps|]. cbn [snd]. set (j1 := if chainable _ then _ else j).
  assert (H : same_buffer j j1) by (unfold j1, host_jump; destruct (chainable _); [destruct (emit_jump host)|]; keep). etransitivity; [exact H|]. etransitivity; [apply (unhash_keeps (chain_fuel j1) j1)|]. keep.
Qed.

Lemma retire_page_keeps fuel : forall j p plo prev, same_buffer j (snd (retire_page host fuel j p plo prev)).
Proof.
  induction fuel as [|fuel IH]; intros j p plo prev; cbn [retire_page]; [reflexivity|]. destruct (_ <? 0); [reflexivity|].
  assert (D : forall i, same_buffer j (drop_plink j (page_bucket p) prev i)) by (intros i; unfold drop_plink, set_plink; destruct prev; keep).
  destruct (negb _); [etransitivity; [apply D|apply IH]|]. destruct (_ && _); [|apply IH].
  pose proof (retire_one_keeps (drop_plink j (page_bucket p) prev (plink_at j (page_bucket p) prev)) (plink_at j (page_bucket p) prev)) as R.
  destruct (retire_one host _ _) as [[] j1]; cbn [snd] in *; (etransitivity; [apply D|]; etransitivity; [exact R|]); [apply IH|reflexivity].
Qed.

Lemma retire_narrow_keeps fuel : forall j p plo, same_buffer j (retire_narrow host fuel j p plo).
Proof.
  induction fuel as [|fuel IH]; intros j p plo; cbn [retire_narrow]; [reflexivity|]. pose proof (retire_page_keeps (chain_fuel j) j p plo None) as R.
  destruct (retire_page host _ _ _ _ _) as [[] j1]; cbn [snd] in R; [etransitivity; [exact R|apply IH]|exact R].
Qed.

Lemma retire_wide_keeps l : forall j lo hi, same_buffer j (snd (retire_wide host l j lo hi)).
Proof.
  induction l as [|i l IH]; intros j lo hi; cbn [retire_wide]; [reflexivity|]. destruct (_ || _); [apply IH|]. pose proof (retire_one_keeps j i) as R.
  destruct (retire_one host j i) as [[] j1]; cbn [snd] in *; [etransitivity; [exact R|apply IH]|exact R].
Qed.

Lemma rebuild_pages_keeps j : same_buffer j (rebuild_pages j).
Proof.
  unfold rebuild_pages. set (j1 := j <| g_phash := _ |> <| g_max_span := _ |>). assert (H : same_buffer j j1) by keep. etransitivity; [exact H|]. clearbody j1. clear H.
  generalize (upto (g_block_count j1)) as l. intros l. revert j1. induction l as [|i l IH]; intros j1; [reflexivity|]. cbn [fold_left]. etransitivity; [|apply IH].
  destruct (live _); [|keep]. unfold page_insert. cbv zeta. destruct (_ <? _); keep.
Qed.

Lemma retire_pages_keeps j lo hi : same_buffer j (retire_pages host j lo hi).
Proof.
  unfold retire_pages. destruct (_ || _); [apply flush_keeps|]. destruct (_ <? _); [apply retire_narrow_keeps|]. pose proof (retire_wide_keeps (upto (g_block_count j)) j lo hi) as R.
  destruct (retire_wide host _ _ _ _) as [[] j1]; cbn [snd] in R; [etransitivity; [exact R|apply rebuild_pages_keeps]|exact R].
Qed.

(** ** Several blocks *)

(** The blocks [S] selects are gone; the others are what they were. *)
Record gone (S : Z -> bool) (j j' : jit) : Prop := {
  go_count : g_block_count j' = g_block_count j;
  go_rest : g_code j' = g_code j /\ g_code_size j' = g_code_size j /\ g_code_used j' = g_code_used j /\ g_neg j' = g_neg j /\ g_neg_epoch j' = g_neg_epoch j;
  go_use : forall k, 0 <= k < g_block_count j -> in_use j' k = in_use j k && negb (S k);
  go_code : forall k, 0 <= k < g_block_count j -> guest_pc (g_blocks j' k) = guest_pc (g_blocks j k) /\ context (g_blocks j' k) = context (g_blocks j k) /\
              insns (g_blocks j' k) = insns (g_blocks j k);
  go_alike : forall k, 0 <= k < g_block_count j -> S k = false -> alike (g_blocks j k) (g_blocks j' k)
}.

Lemma gone_none j j' : g_block_count j' = g_block_count j ->
  (g_code j' = g_code j /\ g_code_size j' = g_code_size j /\ g_code_used j' = g_code_used j /\ g_neg j' = g_neg j /\ g_neg_epoch j' = g_neg_epoch j) ->
  (forall k, alike (g_blocks j k) (g_blocks j' k)) -> gone (fun _ => false) j j'.
Proof.
  intros Hc Hr Ha. split; [exact Hc|exact Hr| | |intros; apply Ha].
  - intros k _. rewrite andb_true_r. apply alike_keys, Ha.
  - intros k _. destruct (Ha k) as (A1 & A2 & _ & _ & _ & A6). auto.
Qed.

Lemma gone_trans S1 S2 j1 j2 j3 : gone S1 j1 j2 -> gone S2 j2 j3 -> gone (fun k => S1 k || S2 k) j1 j3.
Proof.
  intros [A1 A2 A3 A4 A5] [B1 B2 B3 B4 B5]. rewrite A1 in *. split; [congruence| | | |].
  - destruct A2 as (? & ? & ? & ? & ?), B2 as (? & ? & ? & ? & ?). repeat split; congruence.
  - intros k Hk. rewrite B3, A3 by exact Hk. rewrite negb_orb, andb_assoc. reflexivity.
  - intros k Hk. destruct (A4 k Hk) as (? & ? & ?), (B4 k Hk) as (? & ? & ?). repeat split; congruence.
  - intros k Hk E. apply orb_false_iff in E as [E1 E2]. eapply alike_trans; eauto.
Qed.

Lemma gone_ext S1 S2 j j' : (forall k, 0 <= k < g_block_count j -> S2 k = S1 k) -> gone S1 j j' -> gone S2 j j'.
Proof. intros H [A1 A2 A3 A4 A5]. split; auto; intros k Hk; rewrite H by exact Hk; auto. Qed.

Lemma gone_pages S j j' k : gone S j j' -> 0 <= k < g_block_count j ->
  block_page_lo (g_blocks j' k) = block_page_lo (g_blocks j k) /\ block_page_hi (g_blocks j' k) = block_page_hi (g_blocks j k) /\
  (block_ok (g_blocks j k) -> block_ok (g_blocks j' k)).
Proof. intros G Hk. destruct (go_code _ _ _ G k Hk) as (E1 & _ & E3). unfold block_page_lo, block_page_hi, block_ok. rewrite E1, E3. auto. Qed.

Lemma retired_gone i j j' : retired i j j' -> gone (fun k => k =? i) j j'.
Proof.
  intros [T1 T2 T3 T4 T5 T6 T7]. split; [exact T1|exact T4| | |].
  - intros k _. destruct (Z.eqb_spec k i) as [->|Ne].
    + unfold in_use, live. destruct T6 as (-> & _). rewrite andb_false_r. reflexivity.
    + destruct (T5 k Ne) as (A & _). rewrite andb_true_r. apply alike_keys, A.
  - intros k _. destruct (Z.eq_dec k i) as [->|Ne]; [tauto|]. destruct (T5 k Ne) as ((? & ? & ? & ? & ? & ?) & _). auto.
  - intros k _ E. apply T5, Z.eqb_neq, E.
Qed.

(** ** Along a page's chain *)

Lemma drop_plink_view j b l1 i : let v := pnext (g_blocks j i) in let j' := drop_plink j b (place l1) i in
  g_phash j' = put_head (g_phash j) b (place l1) v /\
  (forall k, g_blocks j' k = (g_blocks j k) <| pnext := upd (put_next (fun k => pnext (g_blocks j k)) (place l1) v) i (-1) k |>) /\
  g_block_count j' = g_block_count j /\ g_hash j' = g_hash j /\ g_max_span j' = g_max_span j /\
  (g_code j' = g_code j /\ g_code_size j' = g_code_size j /\ g_code_used j' = g_code_used j /\ g_neg j' = g_neg j /\ g_neg_epoch j' = g_neg_epoch j).
Proof.
  cbv zeta. unfold drop_plink. destruct (place l1) as [p|]; cbn; (split; [reflexivity|]; split; [|repeat split]); intros k; unfold upd.
  - destruct (Z.eqb_spec k i) as [->|]; [destruct (Z.eqb_spec i p) as [->|]; reflexivity|]. destruct (Z.eqb_spec k p) as [->|]; [reflexivity|]. destruct (g_blocks j k); reflexivity.
  - destruct (Z.eqb_spec k i) as [->|]; [reflexivity|]. destruct (g_blocks j k); reflexivity.
Qed.

Definition on_bucket (j : jit) (b : Z) : list Z := List.filter (fun k => in_use j k && (page_key j k =? b)) (down (g_block_count j)).

(** Both indexes and the blocks they hold. *)
Record indexed (j : jit) : Prop := {
  x_count : 0 <= g_block_count j;
  x_hash : hash_ok j;
  x_page : page_ok j;
  x_block : forall i, 0 <= i < g_block_count j -> block_ok (g_blocks j i)
}.

Lemma on_bucket_in j b k l1 l2 : on_bucket j b = l1 ++ k :: l2 -> 0 <= k < g_block_count j /\ in_use j k = true /\ page_key j k = b.
Proof.
  intros E. assert (H : In k (on_bucket j b)) by (rewrite E; apply in_app_iff; right; left; reflexivity).
  apply filter_In in H as [H1 H2]. apply in_down in H1. apply andb_true_iff in H2 as [H2 H3]. apply Z.eqb_eq in H3. auto.
Qed.

Lemma page_step j b l1 i l2 j' : indexed j -> 0 <= b < EMU_JIT_PAGE_HASH_SIZE -> on_bucket j b = l1 ++ i :: l2 ->
  retire_one host (drop_plink j b (place l1) i) i = (true, j') ->
  indexed j' /\ on_bucket j' b = l1 ++ l2 /\ gone (fun k => k =? i) j j' /\ g_max_span j' = g_max_span j.
Proof.
  intros [Xc Xh Xp Xb] Hb E R. destruct (on_bucket_in j b i l1 l2 E) as (Hi & Hu & Hk).
  destruct (drop_plink_view j b l1 i) as (Vp & Vb & Vc & Vh & Vs & Vr). set (j1 := drop_plink j b (place l1) i) in *.
  assert (A1 : forall k, alike (g_blocks j k) (g_blocks j1 k)) by (intros k; rewrite Vb; repeat split).
  assert (H1 : hash_ok j1).
  { unfold hash_ok. rewrite Vc. eapply index_ext; [| |exact Xh]; [intros; rewrite Vh; reflexivity|]. intros k _. destruct (alike_keys j j1 k (A1 k)) as (-> & -> & _). rewrite Vb. repeat split. }
  destruct (alike_keys j j1 i (A1 i)) as (U1 & _). rewrite Hu in U1.
  pose proof (retire_one_ok j1 i true j' R ltac:(lia) H1 ltac:(lia) U1) as T. pose proof (retired_gone i j1 j' T) as G1.
  assert (G0 : gone (fun _ => false) j j1) by (apply gone_none; assumption).
  assert (G : gone (fun k => k =? i) j j') by (eapply gone_ext; [|exact (gone_trans _ _ _ _ _ G0 G1)]; reflexivity).
  assert (PK : forall k, 0 <= k < g_block_count j -> page_key j' k = page_key j k) by (intros k Hk'; unfold page_key; destruct (gone_pages _ _ _ k G Hk') as (-> & _); reflexivity).
  assert (N : forall k, pnext (g_blocks j' k) = pnext (g_blocks j1 k)).
  { intros k. destruct (Z.eq_dec k i) as [->|Ne]; [apply (rt_this _ _ _ T)|apply (rt_other _ _ _ T k Ne)]. }
  split; [|split; [|split; [exact G|rewrite (rt_span _ _ _ T); exact Vs]]].
  - split; [rewrite (go_count _ _ _ G); exact Xc|apply (rt_hash _ _ _ T)| |].
    + unfold page_ok, page_upto. rewrite (go_count _ _ _ G), (rt_phash _ _ _ T), Vp. rewrite <- Hk.
      eapply index_ext; [reflexivity| |eapply (index_cut (g_phash j) (fun k => pnext (g_blocks j k)) (in_use j) (page_key j) (fun k => in_use j k && negb (k =? i)));
        [exact Xp|apply page_bucket_range|rewrite Hk; exact E|reflexivity]].
      intros k Hk'. rewrite N, Vb, (go_use _ _ _ G k Hk'), PK by exact Hk'. repeat split.
    + rewrite (go_count _ _ _ G). intros k Hk'. apply (gone_pages _ _ _ k G Hk'), Xb, Hk'.
  - unfold on_bucket in *. rewrite (go_count _ _ _ G). eapply filter_drop; [exact E|]. intros k Hk'. rewrite (go_use _ _ _ G k Hk'), PK by exact Hk'.
    rewrite <- !andb_assoc. f_equal. apply andb_comm.
Qed.

(** The blocks that start on [p] and reach [plo]. *)
Definition target (j : jit) (p plo k : Z) : bool := in_use j k && (block_page_lo (g_blocks j k) =? p) && (plo <=? block_page_hi (g_blocks j k)).
Definition among (l : list Z) (k : Z) : bool := existsb (Z.eqb k) l.

Lemma among_in l k : among l k = true <-> In k l.
Proof. unfold among. rewrite existsb_exists. split; [intros (x & H & E); apply Z.eqb_eq in E; subst; exact H|intros H; exists k; split; [exact H|apply Z.eqb_refl]]. Qed.

(** What a walk that may give up leaves. *)
Definition walked (S : Z -> bool) (j : jit) (r : bool * jit) : Prop :=
  let '(ok, j') := r in
  if ok then indexed j' /\ gone S j j' /\ g_max_span j' = g_max_span j else exists j0, j' = emu_jit_flush j0.

Lemma target_gone j j' i p plo k : gone (fun k => k =? i) j j' -> 0 <= k < g_block_count j -> target j' p plo k = target j p plo k && negb (k =? i).
Proof.
  intros G Hk. unfold target. destruct (gone_pages _ _ _ k G Hk) as (-> & -> & _). rewrite (go_use _ _ _ G k Hk).
  destruct (in_use j k), (k =? i), (_ =? _), (_ <=? _); reflexivity.
Qed.

Lemma retire_page_ok p plo : forall l2 l1 fuel j, indexed j -> on_bucket j (page_bucket p) = l1 ++ l2 -> (length l2 < fuel)%nat ->
  walked (fun k => among l2 k && target j p plo k) j (retire_page host fuel j p plo (place l1)).
Proof.
  induction l2 as [|i l2 IH]; intros l1 fuel j X E Hf; (destruct fuel as [|fuel]; [cbn in Hf; lia|]); cbn [retire_page];
    pose proof (x_page _ X _ (page_bucket_range p)) as C; fold (on_bucket j (page_bucket p)) in C; rewrite E in C; apply chain_at in C;
    change (match place l1 with Some p => pnext (g_blocks j p) | None => g_phash j (page_bucket p) end) with (plink_at j (page_bucket p) (place l1)) in C.
  - cbn [chain] in C. rewrite C. cbn. split; [exact X|]. split; [|reflexivity]. apply gone_none; [reflexivity|repeat split|intros; apply alike_refl].
  - destruct C as (C & H0 & _). rewrite C. destruct (Z.ltb_spec i 0); [lia|]. destruct (on_bucket_in _ _ _ _ _ E) as (Hi & Hu & _).
    change (live (g_blocks j i)) with (in_use j i). rewrite Hu. cbn [negb].
    assert (Et : target j p plo i = (block_page_lo (g_blocks j i) =? p) && (plo <=? block_page_hi (g_blocks j i))) by (unfold target; rewrite Hu; reflexivity). rewrite <- Et.
    assert (NI : ~ In i l2).
    { assert (ND : List.NoDup (l1 ++ i :: l2)) by (rewrite <- E; apply List.NoDup_filter, down_nodup). apply NoDup_app_remove_l in ND. apply NoDup_cons_iff in ND. apply ND. }
    destruct (target j p plo i) eqn:Ht.
    + destruct (retire_one host (drop_plink j (page_bucket p) (place l1) i) i) as [ok j1] eqn:Er. destruct ok.
      * destruct (page_step j _ l1 i l2 j1 X (page_bucket_range p) E Er) as (X1 & E1 & G1 & S1).
        specialize (IH l1 fuel j1 X1 E1 ltac:(cbn in Hf; lia)). unfold walked in *. destruct (retire_page _ _ _ _ _ _) as [ok2 j2]. destruct ok2; [|exact IH].
        destruct IH as (X2 & G2 & S2). split; [exact X2|]. split; [|congruence]. eapply gone_ext; [|exact (gone_trans _ _ _ _ _ G1 G2)]. intros k Hk. cbv beta.
        rewrite (target_gone _ _ _ p plo k G1 Hk). unfold among. cbn [existsb]. destruct (Z.eqb_spec k i) as [->|]; [rewrite Ht; reflexivity|]. cbn [negb orb]. rewrite andb_true_r. reflexivity.
      * apply retire_one_false in Er as ->. eexists. reflexivity.
    + specialize (IH (l1 ++ [i]) fuel j X ltac:(rewrite <- app_assoc; exact E) ltac:(cbn in Hf; lia)). rewrite place_snoc in IH.
      unfold walked in *. destruct (retire_page _ _ _ _ _ _) as [ok2 j2]. destruct ok2; [|exact IH]. destruct IH as (X2 & G2 & S2). split; [exact X2|]. split; [|exact S2].
      eapply gone_ext; [|exact G2]. intros k Hk. cbv beta. unfold among. cbn [existsb]. destruct (Z.eqb_spec k i) as [->|]; [|reflexivity]. rewrite Ht, !andb_false_r. reflexivity.
Qed.

(** The whole chain of a page. *)
Lemma retire_page_all j p plo : indexed j -> walked (target j p plo) j (retire_page host (chain_fuel j) j p plo None).
Proof.
  intros X. pose proof (retire_page_ok p plo (on_bucket j (page_bucket p)) [] (chain_fuel j) j X eq_refl) as K.
  assert (Hl : (length (on_bucket j (page_bucket p)) < chain_fuel j)%nat).
  { unfold chain_fuel, on_bucket. pose proof (filter_length (fun k => in_use j k && (page_key j k =? page_bucket p)) (g_block_count j)). lia. }
  specialize (K Hl). unfold walked in *. change (place []) with (@None Z) in K. destruct (retire_page _ _ _ _ _ _) as [[] j']; [|exact K]. destruct K as (X' & G & S).
  split; [exact X'|]. split; [|exact S]. eapply gone_ext; [|exact G]. intros k Hk. cbv beta. destruct (target j p plo k) eqn:Et; [|rewrite andb_false_r; reflexivity].
  rewrite andb_true_r. symmetry. apply among_in, filter_In. split; [apply in_down, Hk|]. unfold target in Et. apply andb_true_iff in Et as [Et _]. apply andb_true_iff in Et as [-> Et].
  apply Z.eqb_eq in Et. unfold page_key. rewrite Et. apply Z.eqb_refl.
Qed.

(** From page [p] on. *)
Definition in_pages (j : jit) (p q plo k : Z) : bool :=
  in_use j k && (p <=? block_page_lo (g_blocks j k)) && (block_page_lo (g_blocks j k) <? q) && (plo <=? block_page_hi (g_blocks j k)).

Lemma retire_narrow_ok plo : forall n j p, indexed j ->
  let j' := retire_narrow host n j p plo in
  (indexed j' /\ gone (in_pages j p (p + Z.of_nat n) plo) j j' /\ g_max_span j' = g_max_span j) \/ (exists j0, j' = emu_jit_flush j0).
Proof.
  induction n as [|n IH]; intros j p X; cbv zeta; cbn [retire_narrow].
  - left. split; [exact X|]. split; [|reflexivity]. eapply gone_ext; [|apply (gone_none j j); [reflexivity|repeat split|intros; apply alike_refl]].
    intros k Hk. unfold in_pages. destruct (Z.leb_spec p (block_page_lo (g_blocks j k))), (Z.ltb_spec (block_page_lo (g_blocks j k)) (p + Z.of_nat 0)); rewrite ?andb_false_r; try reflexivity. cbn in *. lia.
  - pose proof (retire_page_all j p plo X) as K. unfold walked in K. destruct (retire_page _ _ _ _ _ _) as [[] j1]; [|right; exact K]. destruct K as (X1 & G1 & S1).
    destruct (IH j1 (p + 1) X1) as [(X2 & G2 & S2)|F]; [left|right; exact F]. split; [exact X2|]. split; [|congruence].
    eapply gone_ext; [|exact (gone_trans _ _ _ _ _ G1 G2)]. intros k Hk. cbv beta. unfold in_pages. destruct (gone_pages _ _ _ k G1 Hk) as (-> & -> & _). rewrite (go_use _ _ _ G1 k Hk).
    unfold target. destruct (in_use j k); [|reflexivity]. cbn [andb]. set (q := block_page_lo (g_blocks j k)). set (r := plo <=? _).
    replace (p + Z.of_nat (S n)) with (p + 1 + Z.of_nat n) by lia.
    destruct (Z.eqb_spec q p), (Z.leb_spec p q), (Z.leb_spec (p + 1) q), (Z.ltb_spec q (p + 1 + Z.of_nat n)), r; cbn; try reflexivity; lia.
Qed.

(** ** Invalidating *)

Definition overlap (j : jit) (lo hi k : Z) : bool := in_use j k && (block_page_lo (g_blocks j k) <=? hi) && (lo <=? block_page_hi (g_blocks j k)).

Lemma overlap_gone j j' i lo hi k : gone (fun k => k =? i) j j' -> 0 <= k < g_block_count j -> overlap j' lo hi k = overlap j lo hi k && negb (k =? i).
Proof.
  intros G Hk. unfold overlap. destruct (gone_pages _ _ _ k G Hk) as (-> & -> & _). rewrite (go_use _ _ _ G k Hk).
  destruct (in_use j k), (k =? i), (block_page_lo _ <=? _), (_ <=? _); reflexivity.
Qed.

Lemma retire_wide_ok lo hi : forall l j, 0 <= g_block_count j -> hash_ok j -> List.NoDup l -> (forall k, In k l -> 0 <= k < g_block_count j) ->
  let '(ok, j') := retire_wide host l j lo hi in
  if ok then hash_ok j' /\ gone (fun k => among l k && overlap j lo hi k) j j' else exists j0, j' = emu_jit_flush j0.
Proof.
  induction l as [|i l IH]; intros j Hc K ND Hl; cbn [retire_wide].
  { split; [exact K|]. apply gone_none; [reflexivity|repeat split|intros; apply alike_refl]. }
  apply NoDup_cons_iff in ND as [NI ND]. pose proof (Hl i (or_introl eq_refl)) as Hi.
  assert (Eo : negb (live (g_blocks j i)) || (hi <? block_page_lo (g_blocks j i)) || (block_page_hi (g_blocks j i) <? lo) = negb (overlap j lo hi i)).
  { unfold overlap, in_use. rewrite !negb_andb, (Z.ltb_antisym _ hi), (Z.ltb_antisym lo). reflexivity. }
  rewrite Eo. destruct (overlap j lo hi i) eqn:Ho; cbn [negb].
  - destruct (retire_one host j i) as [ok j1] eqn:Er. destruct ok; [|apply retire_one_false in Er; eexists; exact Er].
    assert (Hu : in_use j i = true) by (unfold overlap in Ho; destruct (in_use j i); [reflexivity|discriminate]).
    pose proof (retire_one_ok j i true j1 Er Hc K Hi Hu) as T. pose proof (retired_gone _ _ _ T) as G1.
    specialize (IH j1). rewrite (go_count _ _ _ G1) in IH. specialize (IH Hc (rt_hash _ _ _ T) ND (fun k H => Hl k (or_intror H))).
    destruct (retire_wide host l j1 lo hi) as [[] j2]; [|exact IH]. destruct IH as (K2 & G2). split; [exact K2|].
    eapply gone_ext; [|exact (gone_trans _ _ _ _ _ G1 G2)]. intros k Hk. cbv beta. rewrite (overlap_gone _ _ _ lo hi k G1 Hk). unfold among. cbn [existsb].
    destruct (Z.eqb_spec k i) as [->|]; [rewrite Ho; reflexivity|]. cbn. rewrite andb_true_r. reflexivity.
  - specialize (IH j Hc K ND (fun k H => Hl k (or_intror H))). destruct (retire_wide host l j lo hi) as [[] j2]; [|exact IH]. destruct IH as (K2 & G2). split; [exact K2|].
    eapply gone_ext; [|exact G2]. intros k Hk. cbv beta. unfold among. cbn [existsb]. destruct (Z.eqb_spec k i) as [->|]; [|reflexivity]. rewrite Ho, !andb_false_r. reflexivity.
Qed.

Lemma indexed_ok j : table_ok j -> indexed j.
Proof. intros [H1 H2 H3 _ _ H6]. split; [lia|assumption..]. Qed.

Lemma gone_table S j j' : table_ok j -> indexed j' -> gone S j j' -> g_max_span j' = g_max_span j -> table_ok j'.
Proof.
  intros [H1 H2 H3 H4 H5 H6] [X1 X2 X3 X4] G Es. pose proof (go_count _ _ _ G) as Ec. split; [lia|exact X2|exact X3| |lia|exact X4].
  rewrite Ec, Es. intros k Hk Hu. rewrite (go_use _ _ _ G k Hk) in Hu. apply andb_true_iff in Hu as [Hu _].
  unfold page_span. destruct (gone_pages _ _ _ k G Hk) as (-> & -> & _). apply H4; assumption.
Qed.

(** Exactly the blocks on those pages are gone, or all are. *)
Lemma retire_pages_ok j lo hi : table_ok j -> 0 <= lo <= hi -> hi < 2 ^ 20 ->
  let j' := retire_pages host j lo hi in table_ok j' /\ ((exists j0, j' = emu_jit_flush j0) \/ gone (overlap j lo hi) j j').
Proof.
  intros T Hlo Hhi. cbv zeta. unfold retire_pages.
  assert (F : forall j0, table_ok (emu_jit_flush j0) /\ ((exists j1, emu_jit_flush j0 = emu_jit_flush j1) \/ gone (overlap j lo hi) j (emu_jit_flush j0))).
  { intros j0. split; [apply flush_ok|left; eexists; reflexivity]. }
  destruct (_ || _); [apply F|]. rewrite u32_id by (unfold is_u32; lia). unfold JIT_PAGE_WALK_MAX. destruct (Z.ltb_spec (hi - lo) 64).
  - set (first := if g_max_span j <? lo then lo - g_max_span j else 0). pose proof (t_span0 _ T) as S0.
    assert (Hf : first = Z.max 0 (lo - g_max_span j)) by (unfold first; destruct (Z.ltb_spec (g_max_span j) lo); lia).
    destruct (retire_narrow_ok lo (Z.to_nat (hi - first + 1)) j first (indexed_ok j T)) as [(X & G & S)|[j0 ->]]; [|apply F].
    split; [eapply gone_table; eassumption|]. right. eapply gone_ext; [|exact G]. intros k Hk. unfold overlap, in_pages.
    destruct (in_use j k) eqn:Hu; [|reflexivity]. cbn [andb]. pose proof (t_span _ T k Hk Hu) as Hs. unfold page_span in Hs.
    pose proof (proj1 (page_lo_hi _ (t_block _ T k Hk))) as Hp. destruct (Z.leb_spec lo (block_page_hi (g_blocks j k))); [|rewrite !andb_false_r; reflexivity]. rewrite !andb_true_r.
    destruct (Z.leb_spec (block_page_lo (g_blocks j k)) hi), (Z.leb_spec first (block_page_lo (g_blocks j k))), (Z.ltb_spec (block_page_lo (g_blocks j k)) (first + Z.of_nat (Z.to_nat (hi - first + 1))));
      try reflexivity; lia.
  - pose proof T as [H1 H2 H3 H4 H5 H6]. pose proof (retire_wide_ok lo hi (upto (g_block_count j)) j ltac:(lia) H2 (upto_nodup _) (fun k H => proj1 (in_upto k _) H)) as K.
    destruct (retire_wide host (upto (g_block_count j)) j lo hi) as [[] j1]; [|destruct K as [j0 ->]; apply F]. destruct K as (K1 & G1).
    assert (B1 : forall i, 0 <= i < g_block_count j1 -> block_ok (g_blocks j1 i)).
    { rewrite (go_count _ _ _ G1). intros i Hi. apply (gone_pages _ _ _ i G1 Hi), H6, Hi. }
    destruct (rebuild_pages_ok j1 ltac:(rewrite (go_count _ _ _ G1); lia) B1) as (R & P & S0 & S).
    split.
    + split; [rewrite (rp_count _ _ R), (go_count _ _ _ G1); exact H1|unfold hash_ok; rewrite (rp_count _ _ R); apply (repaged_hash _ _ _ R), K1|exact P| |exact S0|].
      * rewrite (rp_count _ _ R). exact S.
      * rewrite (rp_count _ _ R). intros i Hi. apply (repaged_keys _ _ i R), B1, Hi.
    + right. assert (G2 : gone (fun _ => false) j1 (rebuild_pages j1)).
      { apply gone_none; [apply (rp_count _ _ R)| |intros k; apply (rp_blocks _ _ R k)]. destruct (rp_rest _ _ R) as (? & ? & ? & ? & ? & ?). repeat split; assumption. }
      eapply gone_ext; [|exact (gone_trans _ _ _ _ _ G1 G2)]. intros k Hk. cbv beta. rewrite orb_false_r.
      assert (A : among (upto (g_block_count j)) k = true) by (apply among_in, in_upto, Hk). rewrite A. reflexivity.
Qed.
End Retire.
