(* ===== verification/JitBuffer.v ===== *)
(** * The JIT framework: the code buffer

    Where blocks lie, compaction, and translation. *)

From stdpp Require Import base list.
From Stdlib Require Import ZArith Lia.
From S2P Require Import Prelude RvHart Jit JitIndex JitRetire.

Open Scope Z_scope.
Open Scope u32_scope.

(** * The code buffer

    Blocks lie in the buffer in the order of the table, inside it and apart;
    translation appends, and compaction slides what it keeps down without
    overwriting what it has still to move. *)

Section Buffer.
Context {Cfg : JitConfig}.
Variable host : emu_jit_host.

(** ** What the indexes do not read *)

(** As the indexes see a block. *)
Definition akin (b b' : jit_block) : Prop :=
  context b' = context b /\ guest_pc b' = guest_pc b /\ live b' = live b /\ insns b' = insns b /\ next b' = next b /\ pnext b' = pnext b.

Lemma akin_table j j' : g_block_count j' = g_block_count j -> g_hash j' = g_hash j -> g_phash j' = g_phash j -> g_max_span j' = g_max_span j ->
  (forall k, akin (g_blocks j k) (g_blocks j' k)) -> table_ok j -> table_ok j'.
Proof.
  intros Ec Eh Ep Es A [H1 H2 H3 H4 H5 H6].
  assert (K : forall k, in_use j' k = in_use j k /\ hash_key j' k = hash_key j k /\ page_key j' k = page_key j k /\
    page_span (g_blocks j' k) = page_span (g_blocks j k) /\ (block_ok (g_blocks j k) -> block_ok (g_blocks j' k))).
  { intros k. destruct (A k) as (A1 & A2 & A3 & A4 & _). unfold in_use, hash_key, page_key, page_span, block_page_lo, block_page_hi, block_ok. rewrite A1, A2, A3, A4. auto. }
  split; rewrite ?Ec, ?Es; [exact H1| | | |exact H5|].
  - unfold hash_ok. rewrite Ec. eapply index_ext; [intros; rewrite Eh; reflexivity| |exact H2]. intros k _. destruct (K k) as (-> & -> & _). split; [apply A|split; reflexivity].
  - unfold page_ok. rewrite Ec. eapply index_ext; [intros; rewrite Ep; reflexivity| |exact H3]. intros k _. destruct (K k) as (-> & _ & -> & _). split; [apply A|split; reflexivity].
  - intros k Hk Hu. destruct (K k) as (E1 & _ & _ & E2 & _). rewrite E1 in Hu. rewrite E2. apply H4; assumption.
  - intros k Hk. apply K, H6, Hk.
Qed.

(** ** The invariant *)

(** Where a block's code is. *)
Definition code_at (j : jit) (k : Z) : Z := default 0 (code (g_blocks j k)).

(** The reserve is added to what is used without wrapping. *)
Definition sized (size : Z) : Prop := 0 <= size /\ size + EMU_JIT_BLOCK_RESERVE < 2 ^ 32.

Record buffer_ok (j : jit) : Prop := {
  f_size : 0 <= g_code_used j <= g_code_size j /\ sized (g_code_size j);
  f_block : forall k, 0 <= k < g_block_count j -> in_use j k = true ->
    0 <= code_at j k /\ code_at j k mod 4 = 0 /\ 0 <= len (g_blocks j k) /\ code_at j k + len (g_blocks j k) <= g_code_used j;
  f_order : forall i k, 0 <= i < k -> k < g_block_count j -> in_use j i = true -> in_use j k = true ->
    code_at j i + len (g_blocks j i) <= code_at j k
}.

(** Fields the buffer is about, block by block. *)
Lemma buffer_same j j' : g_code_used j' = g_code_used j -> g_code_size j' = g_code_size j -> g_block_count j' = g_block_count j ->
  (forall k, 0 <= k < g_block_count j -> in_use j' k = true -> in_use j k = true /\ code (g_blocks j' k) = code (g_blocks j k) /\ len (g_blocks j' k) = len (g_blocks j k)) ->
  buffer_ok j -> buffer_ok j'.
Proof.
  intros E1 E2 E3 A [H1 H2 H3]. split; rewrite ?E1, ?E2, ?E3; [exact H1| |].
  - intros k Hk Hu. destruct (A k Hk Hu) as (U & C & L). unfold code_at. rewrite C, L. apply H2; assumption.
  - intros i k Hi Hk Hui Huk. destruct (A i ltac:(lia) Hui) as (U1 & C1 & L1), (A k ltac:(lia) Huk) as (U2 & C2 & L2). unfold code_at. rewrite C1, C2, L1. apply H3; assumption.
Qed.

Lemma flush_buffer j : sized (g_code_size j) -> buffer_ok (emu_jit_flush j).
Proof.
  intros H. pose proof H as [H0 _]. unfold emu_jit_flush, neg_invalidate. cbv zeta. destruct (_ <? _); (split; cbn; [split; [lia|exact H]|lia|lia]).
Qed.

Lemma gone_buffer S j j' : gone S j j' -> buffer_ok j -> buffer_ok j'.
Proof.
  intros [G1 (_ & G2 & G3 & _) G4 _ G5]. apply buffer_same; [exact G3|exact G2|exact G1|]. intros k Hk Hu. rewrite G4 in Hu by exact Hk.
  apply andb_true_iff in Hu as [Hu Hs]. split; [exact Hu|]. apply negb_true_iff in Hs. destruct (G5 k Hk Hs) as (_ & _ & _ & ? & ? & _). auto.
Qed.

(** ** Small steps *)

(** Hits, chained exits and bytes may differ. *)
Record quiet (j j' : jit) : Prop := {
  q_count : g_block_count j' = g_block_count j;
  q_index : g_hash j' = g_hash j /\ g_phash j' = g_phash j /\ g_max_span j' = g_max_span j;
  q_code : g_code j' = g_code j /\ g_code_size j' = g_code_size j /\ g_code_used j' = g_code_used j;
  q_neg : g_neg j' = g_neg j /\ g_neg_epoch j' = g_neg_epoch j /\ g_hot_threshold j' = g_hot_threshold j;
  q_block : forall k, akin (g_blocks j k) (g_blocks j' k) /\ code (g_blocks j' k) = code (g_blocks j k) /\ len (g_blocks j' k) = len (g_blocks j k)
}.

Lemma akin_trans b1 b2 b3 : akin b1 b2 -> akin b2 b3 -> akin b1 b3.
Proof. intros (A1 & A2 & A3 & A4 & A5 & A6) (B1 & B2 & B3 & B4 & B5 & B6). repeat split; congruence. Qed.

#[export] Instance quiet_order : PreOrder quiet.
Proof.
  split.
  - intros j. split; repeat split.
  - intros j1 j2 j3 [A1 A2 A3 A4 A5] [B1 B2 B3 B4 B5]. destruct A2 as (? & ? & ?), B2 as (? & ? & ?), A3 as (? & ? & ?), B3 as (? & ? & ?), A4 as (? & ? & ?), B4 as (? & ? & ?).
    split; [congruence|repeat split; congruence|repeat split; congruence|repeat split; congruence|]. intros k. destruct (A5 k) as (? & ? & ?), (B5 k) as (? & ? & ?).
    split; [eapply akin_trans; eassumption|]. split; congruence.
Qed.

Lemma quiet_table j j' : quiet j j' -> table_ok j -> table_ok j'.
Proof. intros [Q1 (Q2 & Q3 & Q4) _ _ Q5]. apply akin_table; auto. intros k. apply Q5. Qed.

Lemma quiet_keeps j j' : quiet j j' -> same_buffer j j'.
Proof. intros [_ _ (? & ? & ?) (? & ? & ?) _]. apply same_fields; assumption. Qed.

Lemma quiet_use j j' k : quiet j j' -> in_use j' k = in_use j k.
Proof. intros Q. destruct (q_block _ _ Q k) as ((_ & _ & L & _) & _). exact L. Qed.

Lemma quiet_buffer j j' : quiet j j' -> buffer_ok j -> buffer_ok j'.
Proof.
  intros Q. apply buffer_same; [apply Q|apply Q|apply Q|]. intros k _ Hu. rewrite (quiet_use j j' k Q) in Hu. split; [exact Hu|]. apply (q_block _ _ Q k).
Qed.

Lemma at_block_quiet j i f : (forall b, akin b (f b) /\ code (f b) = code b /\ len (f b) = len b) -> quiet j (at_block j i f).
Proof. intros A. split; [reflexivity|repeat split|repeat split|repeat split|]. intros k. cbn. unfold upd. destruct (Z.eqb_spec k i) as [->|]; [apply A|repeat split]. Qed.

Lemma host_patch_quiet j a b : quiet j (host_patch host j a b).
Proof. unfold host_patch. destruct (patch_link host); [|reflexivity]. split; repeat split. Qed.

Lemma lookup_ok j pc ctx r j' : lookup_block j pc ctx = (r, j') -> table_ok j -> r = newest j pc ctx /\ quiet j j'.
Proof.
  intros E T. unfold lookup_block in E. rewrite (find_block_newest j pc ctx ltac:(apply T) (t_hash _ T)) in E. destruct (newest j pc ctx) as [i|]; injection E as <- <-; (split; [reflexivity|]); [|reflexivity].
  apply at_block_quiet. intros b. destruct (negb _); repeat split.
Qed.

Lemma link_exit_quiet j from to : quiet j (link_exit host j from to).
Proof.
  unfold link_exit. destruct (patch_link host); [|reflexivity]. destruct from as [f|]; [|reflexivity]. destruct (negb _); [reflexivity|].
  destruct (take_exit _ _) as [[s l]|]; [|reflexivity]. etransitivity; [|apply at_block_quiet; intros b; repeat split]. destruct (code (g_blocks j f)); [apply host_patch_quiet|reflexivity].
Qed.

Lemma fold_quiet {A} (f : jit -> A -> jit) l j : (forall j a, quiet j (f j a)) -> quiet j (fold_left f l j).
Proof. intros H. revert j. induction l as [|a l IH]; intros j; [reflexivity|]. cbn. etransitivity; [apply H|apply IH]. Qed.

Lemma unlink_all_quiet j : quiet j (unlink_all host j).
Proof.
  unfold unlink_all. destruct (patch_link host); [|reflexivity]. apply fold_quiet. intros j1 i. unfold unlink_one. destruct (code (g_blocks j1 i)) as [c|]; [|reflexivity]. cbv zeta.
  etransitivity; [|apply at_block_quiet; intros b; repeat split]. apply fold_quiet. intros j2 k. destruct (linked k); [apply host_patch_quiet|reflexivity].
Qed.

(** The other thing a pass over the links carries. *)
Lemma fold_quiet2 {A} (f : bool * jit -> A -> bool * jit) l r : (forall r a, quiet (snd r) (snd (f r a))) -> quiet (snd r) (snd (fold_left f l r)).
Proof. intros H. revert r. induction l as [|a l IH]; intros r; [reflexivity|]. cbn. etransitivity; [apply H|apply IH]. Qed.

Lemma heat_block_quiet r i : quiet (snd r) (snd (heat_block r i)).
Proof.
  destruct r as [moved j]. unfold heat_block. destruct (negb _); [reflexivity|]. apply (fold_quiet2 _ _ (moved, j)). intros [m1 j1] k. unfold heat_link. cbn [snd]. destruct (negb _); [reflexivity|].
  destruct (find_block _ _ _) as [t|]; [|reflexivity]. destruct (_ && _); [|reflexivity]. apply at_block_quiet. intros b. repeat split.
Qed.

Lemma chain_heat_quiet j : quiet j (chain_heat j).
Proof.
  unfold chain_heat. generalize 8%nat as n. intros n. revert j. induction n as [|n IH]; intros j; [reflexivity|]. cbn [heat_passes].
  pose proof (fold_quiet2 heat_block (upto (g_block_count j)) (false, j) heat_block_quiet) as Q. destruct (fold_left heat_block _ _) as [[] j1]; cbn [snd] in Q; [|exact Q].
  etransitivity; [exact Q|apply IH].
Qed.
End Buffer.

(** * Compaction

    What [compact] keeps it keeps whole, wherever it moves it; what was retired
    does not come back; and the table and the buffer are in order again. *)

Lemma align4_value x : align4 x = (x + 3) / 4 * 4.
Proof. unfold align4. change 3 with (Z.ones 2) at 2. rewrite Z.ldiff_ones_r, Z.shiftl_mul_pow2, Z.shiftr_div_pow2 by lia. reflexivity. Qed.

Lemma align4_ge x : x <= align4 x.
Proof. rewrite align4_value. pose proof (Z.div_mod (x + 3) 4). pose proof (Z.mod_pos_bound (x + 3) 4). lia. Qed.
Lemma align4_mod x : align4 x mod 4 = 0.
Proof. rewrite align4_value. apply Z.mod_mul. lia. Qed.
Lemma align4_le x c : x <= c -> c mod 4 = 0 -> align4 x <= c.
Proof.
  intros H E. rewrite align4_value. pose proof (Z.div_mod c 4). pose proof (Z.div_mod (x + 3) 4). pose proof (Z.mod_pos_bound (x + 3) 4). lia.
Qed.

Section Compact.
Context {Cfg : JitConfig}.
Variable host : emu_jit_host.

(** ** The hash index, rebuilt *)

(** As [alike], with everything but the links and the indexes. *)
Record relinked (j j' : jit) : Prop := {
  rl_count : g_block_count j' = g_block_count j;
  rl_block : forall k, alike (g_blocks j k) (g_blocks j' k);
  rl_rest : g_code j' = g_code j /\ g_code_size j' = g_code_size j /\ g_code_used j' = g_code_used j /\ g_bytes j' = g_bytes j /\
            g_neg j' = g_neg j /\ g_neg_epoch j' = g_neg_epoch j
}.

Lemma relinked_trans j1 j2 j3 : relinked j1 j2 -> relinked j2 j3 -> relinked j1 j3.
Proof.
  intros [A1 A2 A3] [B1 B2 B3]. destruct A3 as (? & ? & ? & ? & ? & ?), B3 as (? & ? & ? & ? & ? & ?).
  split; [congruence|intros k; eapply alike_trans; eauto|repeat split; congruence].
Qed.

Lemma rebuild_hash_ok j : 0 <= g_block_count j <= EMU_JIT_MAX_BLOCKS -> (forall k, 0 <= k < g_block_count j -> in_use j k = true /\ block_ok (g_blocks j k)) ->
  table_ok (rebuild_hash j) /\ relinked j (rebuild_hash j).
Proof.
  intros Hc Hb. unfold rebuild_hash. set (j1 := j <| g_hash := _ |>). change (g_block_count j1) with (g_block_count j).
  pose (P := fun n s => relinked j s /\ hash_upto s n).
  assert (K : P (g_block_count j) (fold_left chain_insert (upto (g_block_count j)) j1)).
  { apply (fold_upto chain_insert P); [lia| |].
    - split; [split; [reflexivity|intros; apply alike_refl|repeat split]|]. apply index_none; [apply cleared_all|lia].
    - intros i s Hi (R & K). destruct (alike_keys j s i (rl_block _ _ R i)) as (U & _). split.
      + eapply relinked_trans; [exact R|]. split; [reflexivity| |repeat split]. intros k. destruct (chain_insert_view s i) as (_ & _ & _ & _ & Eb). rewrite Eb.
        destruct (Z.eqb_spec k i) as [->|]; [repeat split|apply alike_refl].
      + apply chain_insert_upto; [lia|rewrite U; apply Hb, Hi|exact K]. }
  destruct K as (R & K). set (j2 := fold_left _ _ j1) in *. pose proof (rl_count _ _ R) as Ec.
  assert (B2 : forall i, 0 <= i < g_block_count j2 -> block_ok (g_blocks j2 i)).
  { rewrite Ec. intros i Hi. apply (alike_keys j j2 i (rl_block _ _ R i)), Hb, Hi. }
  destruct (rebuild_pages_ok j2 ltac:(lia) B2) as (R2 & P2 & S0 & S). split.
  - split; [rewrite (rp_count _ _ R2), Ec; exact Hc|unfold hash_ok; rewrite (rp_count _ _ R2), Ec; apply (repaged_hash _ _ _ R2), K|exact P2| |exact S0|].
    + rewrite (rp_count _ _ R2). exact S.
    + rewrite (rp_count _ _ R2). intros i Hi. apply (repaged_keys _ _ i R2), B2, Hi.
  - eapply relinked_trans; [exact R|]. split; [apply R2|intros k; apply (rp_blocks _ _ R2 k)|apply R2].
Qed.

(** ** Keeping *)

Definition keeps (j : jit) (thr k : Z) : bool := in_use j k && negb (hit_bin (hits (g_blocks j k)) <? thr).

(** Block [b] of the table is block [b0] of before, at another place. *)
Definition moved (bytes0 bytes : Z -> Z) (b0 b : jit_block) : Prop :=
  context b = context b0 /\ guest_pc b = guest_pc b0 /\ layout b = layout b0 /\ len b = len b0 /\ insns b = insns b0 /\
  (forall o, 0 <= o < len b0 -> bytes (default 0 (code b) + o) = bytes0 (default 0 (code b0) + o)).

Record kept_upto (j0 : jit) (thr i dst kept : Z) (j : jit) : Prop := {
  k_count : kept = Z.of_nat (length (List.filter (keeps j0 thr) (upto i)));
  k_fixed : g_block_count j = g_block_count j0 /\ g_code_size j = g_code_size j0 /\ g_code j = g_code j0;
  k_rest : forall k, i <= k -> g_blocks j k = g_blocks j0 k;
  k_dst : 0 <= dst <= g_code_used j0 /\ (forall k, i <= k < g_block_count j0 -> in_use j0 k = true -> dst <= code_at j0 k);
  k_past : forall o, dst <= o -> g_bytes j o = g_bytes j0 o;
  k_kept : forall m, 0 <= m < kept -> exists k, nth_error (List.filter (keeps j0 thr) (upto i)) (Z.to_nat m) = Some k /\
    moved (g_bytes j0) (g_bytes j) (g_blocks j0 k) (g_blocks j m) /\ in_use j m = true /\
    0 <= code_at j m /\ code_at j m mod 4 = 0 /\ code_at j m + len (g_blocks j m) <= dst;
  k_order : forall m n, 0 <= m < n -> n < kept -> code_at j m + len (g_blocks j m) <= code_at j n
}.

Lemma filter_succ (p : Z -> bool) i : 0 <= i -> List.filter p (upto (i + 1)) = List.filter p (upto i) ++ (if p i then [i] else []).
Proof. intros H. rewrite upto_succ, List.filter_app by exact H. cbn. destruct (p i); reflexivity. Qed.

Lemma kept_le (p : Z -> bool) i : 0 <= i -> Z.of_nat (length (List.filter p (upto i))) <= i.
Proof. intros H. pose proof (filter_length_le p (upto i)) as K. unfold upto in K at 2. rewrite length_map, length_seq in K. lia. Qed.

(** The table entry is left out. *)
Lemma kept_skip j0 thr i dst kept j j' : 0 <= i -> kept_upto j0 thr i dst kept j -> keeps j0 thr i = false ->
  g_blocks j' = g_blocks j -> g_bytes j' = g_bytes j -> g_block_count j' = g_block_count j /\ g_code_size j' = g_code_size j /\ g_code j' = g_code j ->
  kept_upto j0 thr (i + 1) dst kept j'.
Proof.
  intros Hi [K1 K2 K3 K4 K5 K6 K7] Hk Eb Ey (E1 & E2 & E3). unfold code_at, in_use in *.
  split; rewrite ?filter_succ, ?Hk, ?app_nil_r, ?Eb, ?Ey by exact Hi; [exact K1|intuition congruence|intros; apply K3; lia| |exact K5| |].
  - split; [apply K4|]. intros k H. apply K4. lia.
  - intros m Hm. unfold code_at, in_use. rewrite Eb. apply K6, Hm.
  - intros m n Hm Hn. unfold code_at. rewrite Eb. apply K7; assumption.
Qed.

(** The table entry is moved down. *)
Lemma kept_add j0 thr i dst kept j c : buffer_ok j0 -> 0 <= i < g_block_count j0 -> kept_upto j0 thr i dst kept j -> keeps j0 thr i = true ->
  code (g_blocks j0 i) = Some c ->
  let d := align4 dst in
  let b := (g_blocks j0 i) <| code := Some d |> <| hits := Z.shiftr (hits (g_blocks j0 i)) 1 |> in
  let j1 := if negb (d =? c) then j <| g_bytes := memmove (g_bytes j) d c (len (g_blocks j0 i)) |> else j in
  kept_upto j0 thr (i + 1) (d + len (g_blocks j0 i)) (kept + 1) (j1 <| g_blocks := upd (g_blocks j1) kept b |>).
Proof.
  intros B Hi K Hk Ec. cbv zeta. set (b0 := g_blocks j0 i). set (d := align4 dst). set (n := len b0). pose proof K as [K1 K2 K3 K4 K5 K6 K7].
  assert (Hu : in_use j0 i = true) by (unfold keeps in Hk; destruct (in_use j0 i); [reflexivity|discriminate]).
  destruct (f_block _ B i Hi Hu) as (F1 & F2 & F3 & F4). assert (Ca : code_at j0 i = c) by (unfold code_at; rewrite Ec; reflexivity). rewrite Ca in *. fold b0 n in F3, F4.
  pose proof (align4_ge dst) as D1. pose proof (align4_mod dst) as D2. pose proof (align4_le dst c ltac:(rewrite <- Ca; apply K4; [lia|exact Hu]) F2) as D3. fold d in D1, D2, D3.
  set (j1 := if negb (d =? c) then _ else j).
  assert (E1 : g_blocks j1 = g_blocks j /\ g_block_count j1 = g_block_count j /\ g_code_size j1 = g_code_size j /\ g_code j1 = g_code j) by (unfold j1; destruct (negb _); repeat split).
  assert (Y : (forall o, 0 <= o < n -> g_bytes j1 (d + o) = g_bytes j0 (c + o)) /\ (forall o, o < d \/ d + n <= o -> g_bytes j1 o = g_bytes j o)).
  { unfold j1. destruct (Z.eqb_spec d c) as [->|Ne]; cbn [negb]; (split; [intros o Ho|intros o Ho]).
    - apply K5. lia.
    - reflexivity.
    - cbn. unfold memmove. rewrite (proj2 (Z.leb_le d (d + o))), (proj2 (Z.ltb_lt (d + o) (d + n))) by lia. cbn. rewrite K5 by lia. f_equal. lia.
    - cbn. unfold memmove. fold b0 n. destruct (Z.leb_spec d o), (Z.ltb_spec o (d + n)); try reflexivity. lia. }
  destruct Y as [Y1 Y2]. destruct E1 as (E1 & E2 & E3 & E4).
  pose proof (kept_le (keeps j0 thr) i ltac:(lia)) as Kl. rewrite <- K1 in Kl. assert (K0 : 0 <= kept) by lia.
  set (b := b0 <| code := Some d |> <| hits := Z.shiftr (hits b0) 1 |>).
  assert (Bk : forall m, g_blocks (j1 <| g_blocks := upd (g_blocks j1) kept b |>) m = if m =? kept then b else g_blocks j m) by (intros m; cbn; rewrite E1; reflexivity).
  assert (Bm : forall m, 0 <= m < kept -> g_blocks (j1 <| g_blocks := upd (g_blocks j1) kept b |>) m = g_blocks j m) by (intros m Hm; rewrite Bk, (proj2 (Z.eqb_neq m kept)) by lia; reflexivity).
  split.
  - rewrite filter_succ, Hk, length_app by lia. cbn. lia.
  - cbn. rewrite E2, E3, E4. exact K2.
  - intros k Hk'. rewrite Bk, (proj2 (Z.eqb_neq k kept)) by lia. apply K3. lia.
  - split; [lia|]. intros k Hk' Huk. pose proof (f_order _ B i k ltac:(lia) ltac:(lia) Hu Huk) as O. rewrite Ca in O. fold b0 n in O. lia.
  - cbn. intros o Ho. rewrite Y2 by lia. apply K5. lia.
  - intros m Hm. destruct (Z.eq_dec m kept) as [->|Ne].
    + exists i. unfold in_use, code_at. rewrite Bk, Z.eqb_refl. rewrite filter_succ, Hk by lia. split.
      * rewrite nth_error_app2 by lia. replace (Z.to_nat kept - length (List.filter (keeps j0 thr) (upto i)))%nat with 0%nat by lia. reflexivity.
      * split; [|repeat split; cbn; lia]. repeat split. cbn. intros o Ho. fold b0. unfold b0 at 1. rewrite Ec. apply Y1, Ho.
    + destruct (K6 m ltac:(lia)) as (k & N1 & (M1 & M2 & M3 & M4 & M5 & M6) & U & C1 & C2 & C3). exists k. unfold in_use, code_at in *. rewrite Bm by lia.
      rewrite filter_succ, nth_error_app1 by (try (apply nth_error_Some; rewrite N1; discriminate); lia).
      split; [exact N1|]. split; [|repeat split; try assumption; lia]. repeat split; try assumption. cbn. intros o Ho. rewrite Y2; [apply M6, Ho|]. left. rewrite M4 in C3. lia.
  - intros m q Hm Hq. unfold code_at. rewrite Bm by lia. destruct (Z.eq_dec q kept) as [->|Ne].
    + rewrite Bk, Z.eqb_refl. cbn. destruct (K6 m ltac:(lia)) as (_ & _ & _ & _ & _ & _ & C3). unfold code_at in C3. lia.
    + rewrite Bm by lia. apply K7; lia.
Qed.

Lemma keep_block_step j0 thr i r : buffer_ok j0 -> 0 <= i < g_block_count j0 ->
  (let '(dst, kept, j) := r in kept_upto j0 thr i dst kept j) -> let '(dst, kept, j) := keep_block thr r i in kept_upto j0 thr (i + 1) dst kept j.
Proof.
  destruct r as [[dst kept] j]. intros B Hi K. unfold keep_block. rewrite (k_rest _ _ _ _ _ _ K i) by lia. destruct (code (g_blocks j0 i)) as [c|] eqn:Ec.
  - destruct (hit_bin (hits (g_blocks j0 i)) <? thr) eqn:Et.
    + eapply kept_skip; [lia|exact K|unfold keeps; rewrite Et, andb_false_r; reflexivity|..]; unfold evict_note; cbv zeta;
        (destruct (_ =? 0); [repeat split|]; destruct (_ || _); [repeat split|]; destruct (_ && _); [repeat split|]; destruct (_ <=? _); repeat split).
    + apply kept_add; [exact B|exact Hi|exact K| |exact Ec]. unfold keeps, in_use, live. rewrite Ec, Et. reflexivity.
  - eapply kept_skip; [lia|exact K|unfold keeps, in_use, live; rewrite Ec; reflexivity|repeat split..].
Qed.

Lemma keep_loop j0 thr : buffer_ok j0 -> 0 <= g_block_count j0 ->
  let '(dst, kept, j) := fold_left (keep_block thr) (upto (g_block_count j0)) (0, 0, j0) in kept_upto j0 thr (g_block_count j0) dst kept j.
Proof.
  intros B Hc. apply (fold_upto (keep_block thr) (fun i r => let '(dst, kept, j) := r in kept_upto j0 thr i dst kept j)); [exact Hc| |intros i r Hi; apply keep_block_step; assumption].
  pose proof (f_size _ B). split; cbn; try lia; try reflexivity; [repeat split|]. split; [lia|]. intros k Hk Hu. apply (f_block _ B k Hk Hu).
Qed.

(** What [compact] moves blocks of: every exit is back at its own tail. *)
Definition unlinked (j : jit) : jit :=
  unlink_all host ((if g_chain_heat j then chain_heat j else j) <| g_thrash_marks_left := EMU_JIT_THRASH_MARKS |>).

Definition no_links (b : jit_block) : Prop := List.Forall (fun k => linked k = false) (link (layout b)).

Lemma unlink_one_quiet j i : quiet j (unlink_one host j i).
Proof.
  unfold unlink_one. destruct (code _) as [c|]; [|reflexivity].
  etransitivity; [|apply at_block_quiet; intros b; repeat split]. apply fold_quiet. intros j2 k. destruct (linked k); [apply host_patch_quiet|reflexivity].
Qed.

Lemma unlinked_quiet j : quiet j (unlinked j).
Proof.
  unfold unlinked. set (j1 := if g_chain_heat j then chain_heat j else j).
  assert (Q1 : quiet j j1) by (unfold j1; destruct (g_chain_heat j); [apply chain_heat_quiet|reflexivity]). etransitivity; [exact Q1|].
  etransitivity; [|apply unlink_all_quiet]. split; [reflexivity|repeat split..].
Qed.

(** ** Exits pointed back *)

(** What [patch_link] does to a branch already emitted.  [aims bytes at_ t]: the
    branch at [at_] goes to [t].  Patching makes it so and touches the [width]
    bytes of the branch only; and a branch is relative, which is what makes a
    host relocatable: the same bytes elsewhere go as far. *)
Record patch_laws (aims : (Z -> Z) -> Z -> Z -> Prop) (width : Z) : Prop := {
  pl_width : 0 < width;
  pl_patch : exists f, patch_link host = Some f /\
    (forall bytes at_ t, is_u32 at_ -> is_u32 t -> aims (f bytes at_ t) at_ t) /\
    (forall bytes at_ t o, o < at_ \/ at_ + width <= o -> f bytes at_ t o = bytes o);
  pl_moves : forall bytes bytes' at_ at' t, aims bytes at_ t -> (forall o, 0 <= o < width -> bytes' (at' + o) = bytes (at_ + o)) ->
    aims bytes' at' (t + (at' - at_))
}.

(** The bytes of the chained exits of a block at [c]. *)
Definition in_links (width c : Z) (l : list emu_jit_link) (o : Z) : Prop :=
  exists e, In e l /\ linked e = true /\ c + site e <= o < c + site e + width.

(** The exits of a block are inside its code and apart. *)
Definition apart (width : Z) (e e' : emu_jit_link) : Prop := site e + width <= site e' \/ site e' + width <= site e.
Definition exits_ok (width : Z) (b : jit_block) : Prop :=
  (forall e, In e (link (layout b)) -> 0 <= site e /\ site e + width <= len b) /\ 0 <= tail (layout b) <= len b /\
  ForallOrdPairs (apart width) (link (layout b)).

Definition unlinked_layout (l : emu_jit_layout) : emu_jit_layout :=
  Layout (chain_entry l) (tail l) (map (fun k => Link (target_pc k) (site k) false) (link l)) (chainable l).

Section Exits.
Variable aims : (Z -> Z) -> Z -> Z -> Prop.
Variable width : Z.
Hypothesis PL : patch_laws aims width.

Lemma aims_same bytes bytes' at_ t : aims bytes at_ t -> (forall o, at_ <= o < at_ + width -> bytes' o = bytes o) -> aims bytes' at_ t.
Proof. intros A E. replace t with (t + (at_ - at_)) by lia. apply (pl_moves _ _ PL bytes); [exact A|]. intros o Ho. apply E. lia. Qed.

(** The inner loop of [unlink_all]. *)
Lemma patch_links c t : is_u32 (c + t) -> forall l j, (forall e, In e l -> is_u32 (c + site e)) -> ForallOrdPairs (apart width) l ->
  let j' := fold_left (fun j k => if linked k then host_patch host j (c + site k) (c + t) else j) l j in
  g_blocks j' = g_blocks j /\ (forall o, ~ in_links width c l o -> g_bytes j' o = g_bytes j o) /\
  (forall e, In e l -> linked e = true -> aims (g_bytes j') (c + site e) (c + t)).
Proof.
  destruct (pl_patch _ _ PL) as (f & Ef & Fa & Fo). intros Ut. induction l as [|e l IH]; intros j Us Ap; cbv zeta; cbn [fold_left].
  { split; [reflexivity|]. split; [reflexivity|intros e []]. }
  inversion Ap as [|? ? Ae Ap']; subst. clear Ap. rename Ap' into Ap. set (j1 := if linked e then _ else j).
  destruct (IH j1 ltac:(intros; apply Us; right; assumption) Ap) as (I1 & I2 & I3). cbv zeta in *. set (j' := fold_left _ l j1) in *.
  assert (B1 : g_blocks j1 = g_blocks j) by (unfold j1, host_patch; rewrite Ef; destruct (linked e); reflexivity).
  assert (Y1 : forall o, linked e = false \/ o < c + site e \/ c + site e + width <= o -> g_bytes j1 o = g_bytes j o).
  { intros o Ho. unfold j1, host_patch. rewrite Ef. destruct (linked e); [|reflexivity]. destruct Ho as [|Ho]; [discriminate|]. apply (Fo (g_bytes j)), Ho. }
  split; [congruence|]. split.
  - intros o No. rewrite I2; [apply Y1|].
    + destruct (linked e) eqn:El; [|auto]. right. destruct (Z.lt_ge_cases o (c + site e)); [auto|]. destruct (Z.lt_ge_cases o (c + site e + width)); [|auto].
      destruct No. exists e. split; [left; reflexivity|]. split; [exact El|lia].
    + intros (x & Hx & Hl & Hr). apply No. exists x. split; [right; exact Hx|]. split; assumption.
  - intros x [<-|Hx] Hl; [|apply I3; assumption]. eapply aims_same.
    + unfold j1, host_patch in *. rewrite Hl, Ef. apply Fa; [apply Us; left; reflexivity|exact Ut].
    + intros o Ho. rewrite I2; [unfold j1, host_patch; rewrite Hl, Ef; reflexivity|]. intros (x & Hx & _ & Hr).
      rewrite List.Forall_forall in Ae. destruct (Ae x Hx); lia.
Qed.

(** ** All of them *)

(** After the blocks below [i]. *)
Record unlinked_upto (j0 : jit) (i : Z) (s : jit) : Prop := {
  uu_quiet : quiet j0 s;
  uu_layout : forall k, layout (g_blocks s k) = if (0 <=? k) && (k <? i) && in_use j0 k then unlinked_layout (layout (g_blocks j0 k)) else layout (g_blocks j0 k);
  uu_bytes : forall o, (forall k, 0 <= k < i -> in_use j0 k = true -> ~ in_links width (code_at j0 k) (link (layout (g_blocks j0 k))) o) -> g_bytes s o = g_bytes j0 o;
  uu_aims : forall k e, 0 <= k < i -> in_use j0 k = true -> In e (link (layout (g_blocks j0 k))) -> linked e = true ->
    aims (g_bytes s) (code_at j0 k + site e) (code_at j0 k + tail (layout (g_blocks j0 k)))
}.

Lemma live_code j k : in_use j k = true -> code (g_blocks j k) = Some (code_at j k).
Proof. unfold in_use, live, code_at. destruct (code _); [reflexivity|discriminate]. Qed.

Lemma unlink_one_upto j0 i s : buffer_ok j0 -> (forall k, 0 <= k < g_block_count j0 -> in_use j0 k = true -> exits_ok width (g_blocks j0 k)) ->
  0 <= i < g_block_count j0 -> unlinked_upto j0 i s -> unlinked_upto j0 (i + 1) (unlink_one host s i).
Proof.
  intros B X Hi [U1 U2 U3 U4]. pose proof (unlink_one_quiet s i) as Q. pose proof (pl_width _ _ PL) as Wd.
  assert (Ei : layout (g_blocks s i) = layout (g_blocks j0 i)) by (rewrite U2, (proj2 (Z.ltb_ge i i)), andb_false_r by lia; reflexivity).
  assert (Lt : forall k, (k <? i + 1) = ((k <? i) || (k =? i))) by (intros k; destruct (Z.ltb_spec k (i + 1)), (Z.ltb_spec k i), (Z.eqb_spec k i); try reflexivity; lia).
  destruct (in_use j0 i) eqn:Hu.
  - assert (Ec : code (g_blocks s i) = Some (code_at j0 i)) by (destruct (q_block _ _ U1 i) as (_ & -> & _); apply live_code, Hu).
    destruct (X i Hi Hu) as (X1 & X2 & X3). destruct (f_block _ B i Hi Hu) as (F1 & _ & F3 & F4). destruct (f_size _ B) as [Fz [_ Fw]]. pose proof reserve_ok as Rv.
    assert (Ut : is_u32 (code_at j0 i + tail (layout (g_blocks j0 i)))) by (unfold is_u32; lia).
    assert (Us : forall e, In e (link (layout (g_blocks j0 i))) -> is_u32 (code_at j0 i + site e)) by (intros e He; specialize (X1 e He); unfold is_u32; lia).
    destruct (patch_links _ _ Ut _ s Us X3) as (P1 & P2 & P3). cbv zeta in *.
    assert (Eu : unlink_one host s i = at_block (fold_left (fun j k => if linked k then host_patch host j (code_at j0 i + site k) (code_at j0 i + tail (layout (g_blocks j0 i))) else j) (link (layout (g_blocks j0 i))) s) i
      (fun b => b <| layout := unlinked_layout (layout (g_blocks j0 i)) |>)) by (unfold unlink_one; rewrite Ec, Ei; reflexivity).
    rewrite Eu in *. set (s1 := fold_left _ _ s) in *. clear Eu.
    assert (Ins : forall o, in_links width (code_at j0 i) (link (layout (g_blocks j0 i))) o -> code_at j0 i <= o < code_at j0 i + len (g_blocks j0 i))
      by (intros o (e & He & _ & Ho); specialize (X1 e He); lia).
    split.
    + etransitivity; eassumption.
    + intros k. cbn. unfold upd. rewrite P1, Lt. destruct (Z.eqb_spec k i) as [->|Ne]; [rewrite orb_true_r, Hu, (proj2 (Z.leb_le 0 i)) by lia; reflexivity|]. rewrite orb_false_r. apply U2.
    + intros o No. cbn. rewrite P2; [apply U3; intros k Hk; apply No; lia|]. apply No; [lia|exact Hu].
    + intros k e Hk Huk He Hl. cbn. destruct (Z.eq_dec k i) as [->|Ne]; [apply P3; assumption|]. eapply aims_same; [apply U4; [lia|assumption..]|].
      intros o Ho. apply P2. intros Hin. apply Ins in Hin. destruct (X k ltac:(lia) Huk) as (Y1 & _). specialize (Y1 e He).
      pose proof (f_order _ B k i ltac:(lia) ltac:(lia) Huk Hu). lia.
  - assert (Eu : unlink_one host s i = s).
    { unfold unlink_one. destruct (q_block _ _ U1 i) as (_ & -> & _). unfold in_use, live in Hu. destruct (code (g_blocks j0 i)); [discriminate|reflexivity]. }
    rewrite Eu. split; [exact U1| | |].
    + intros k. rewrite U2, Lt. destruct (Z.eqb_spec k i) as [->|Ne]; [rewrite Hu, !andb_false_r; reflexivity|rewrite orb_false_r; reflexivity].
    + intros o No. apply U3. intros k Hk. apply No. lia.
    + intros k e Hk Huk. apply U4; [|exact Huk]. destruct (Z.eq_dec k i) as [->|]; [congruence|lia].
Qed.

Lemma unlink_all_upto j0 : buffer_ok j0 -> 0 <= g_block_count j0 -> (forall k, 0 <= k < g_block_count j0 -> in_use j0 k = true -> exits_ok width (g_blocks j0 k)) ->
  unlinked_upto j0 (g_block_count j0) (unlink_all host j0).
Proof.
  intros B Hc X. unfold unlink_all. destruct (pl_patch _ _ PL) as (f & -> & _). apply (fold_upto (unlink_one host) (fun i s => unlinked_upto j0 i s)); [exact Hc| |].
  - split; [reflexivity| |reflexivity|lia]. intros k. destruct (Z.leb_spec 0 k), (Z.ltb_spec k 0); try reflexivity; lia.
  - intros i s Hi. apply unlink_one_upto; assumption.
Qed.

(** Counting heat touches neither code nor layouts. *)
Definition warm (j j' : jit) : Prop := g_bytes j' = g_bytes j /\ forall k, layout (g_blocks j' k) = layout (g_blocks j k).

Lemma warm_refl j : warm j j.
Proof. split; reflexivity. Qed.
Lemma warm_trans j1 j2 j3 : warm j1 j2 -> warm j2 j3 -> warm j1 j3.
Proof. intros [A1 A2] [B1 B2]. split; [congruence|]. intros k. rewrite B2. apply A2. Qed.

Lemma fold_warm {A} (f : bool * jit -> A -> bool * jit) l r : (forall r a, warm (snd r) (snd (f r a))) -> warm (snd r) (snd (fold_left f l r)).
Proof. intros H. revert r. induction l as [|a l IH]; intros r; [apply warm_refl|]. eapply warm_trans; [apply H|apply IH]. Qed.

Lemma heat_block_warm r i : warm (snd r) (snd (heat_block r i)).
Proof.
  destruct r as [moved j]. unfold heat_block. destruct (negb _); [apply warm_refl|]. apply (fold_warm _ _ (moved, j)). intros [m1 j1] k. unfold heat_link. cbn [snd].
  destruct (negb _); [apply warm_refl|]. destruct (find_block _ _ _) as [t|]; [|apply warm_refl]. destruct (_ && _); [|apply warm_refl].
  split; [reflexivity|]. intros n. cbn. unfold upd. destruct (Z.eqb_spec n t) as [->|]; reflexivity.
Qed.

Lemma chain_heat_warm j : warm j (chain_heat j).
Proof.
  unfold chain_heat. generalize 8%nat as n. intros n. revert j. induction n as [|n IH]; intros j; [apply warm_refl|]. cbn [heat_passes].
  pose proof (fold_warm heat_block (upto (g_block_count j)) (false, j) heat_block_warm) as Q. destruct (fold_left heat_block _ _) as [[] j1]; cbn [snd] in Q; [|exact Q].
  eapply warm_trans; [exact Q|apply IH].
Qed.

(** A block, before anything, and the same block where it has come to lie. *)
Definition landed (j j' : jit) (k m : Z) : Prop :=
  let l := layout (g_blocks j k) in
  layout (g_blocks j' m) = unlinked_layout l /\
  (forall o, 0 <= o < len (g_blocks j k) -> ~ in_links width 0 (link l) o -> g_bytes j' (code_at j' m + o) = g_bytes j (code_at j k + o)) /\
  (forall e, In e (link l) -> linked e = true \/ aims (g_bytes j) (code_at j k + site e) (code_at j k + tail l) ->
     aims (g_bytes j') (code_at j' m + site e) (code_at j' m + tail l)).

Lemma moved_landed j j' k m : buffer_ok j -> 0 <= g_block_count j -> (forall i, 0 <= i < g_block_count j -> in_use j i = true -> exits_ok width (g_blocks j i)) ->
  0 <= k < g_block_count j -> in_use j k = true -> moved (g_bytes (unlinked j)) (g_bytes j') (g_blocks (unlinked j) k) (g_blocks j' m) -> landed j j' k m.
Proof.
  intros B Hc X Hk Hu M. unfold unlinked in M. set (j1 := _ <| g_thrash_marks_left := _ |>) in M.
  assert (Q1 : quiet j j1).
  { transitivity (if g_chain_heat j then chain_heat j else j); [destruct (g_chain_heat j); [apply chain_heat_quiet|reflexivity]|split; [reflexivity|repeat split..]]. }
  assert (W1 : warm j j1) by (unfold j1; destruct (g_chain_heat j); [destruct (chain_heat_warm j) as [H1 H2]; split; [exact H1|exact H2]|split; reflexivity]).
  destruct W1 as [Wb Wl].
  assert (Ca : forall i, code_at j1 i = code_at j i) by (intros i; unfold code_at; destruct (q_block _ _ Q1 i) as (_ & -> & _); reflexivity).
  assert (Ln : forall i, len (g_blocks j1 i) = len (g_blocks j i)) by (intros i; apply (q_block _ _ Q1 i)).
  assert (X1 : forall i, 0 <= i < g_block_count j1 -> in_use j1 i = true -> exits_ok width (g_blocks j1 i)).
  { intros i Hi Hui. rewrite (q_count _ _ Q1) in Hi. rewrite (quiet_use _ _ i Q1) in Hui. unfold exits_ok. rewrite Wl, Ln. apply X; assumption. }
  pose proof (unlink_all_upto j1 (quiet_buffer _ _ Q1 B) ltac:(rewrite (q_count _ _ Q1); exact Hc) X1) as [U1 U2 U3 U4]. set (ju := unlink_all host j1) in *.
  assert (Hk1 : 0 <= k < g_block_count j1) by (rewrite (q_count _ _ Q1); exact Hk). assert (Hu1 : in_use j1 k = true) by (rewrite (quiet_use _ _ k Q1); exact Hu).
  destruct M as (_ & _ & M3 & M4 & _ & M6). change (default 0 (code (g_blocks j' m))) with (code_at j' m) in M6. change (default 0 (code (g_blocks ju k))) with (code_at ju k) in M6.
  assert (Cu : code_at ju k = code_at j k) by (rewrite <- Ca; unfold code_at; destruct (q_block _ _ U1 k) as (_ & -> & _); reflexivity). rewrite Cu in M6.
  assert (Lu : len (g_blocks ju k) = len (g_blocks j k)) by (rewrite <- Ln; apply (q_block _ _ U1 k)). rewrite Lu in M6.
  destruct (X k Hk Hu) as (X2 & X3 & X4). destruct (f_block _ B k Hk Hu) as (F1 & _ & F3 & F4). pose proof (pl_width _ _ PL) as Wd.
  (* bytes of the block outside its chained exits *)
  assert (K : forall o, 0 <= o < len (g_blocks j k) -> ~ in_links width 0 (link (layout (g_blocks j k))) o -> g_bytes j' (code_at j' m + o) = g_bytes j (code_at j k + o)).
  { intros o Ho No. rewrite M6 by exact Ho. rewrite <- Wb. apply U3. intros i Hi Hui. rewrite Ca, Wl. rewrite (q_count _ _ Q1) in Hi. rewrite (quiet_use _ _ i Q1) in Hui.
    intros (e & He & Hl & Hr). destruct (X i Hi Hui) as (Xi & _). specialize (Xi e He). destruct (Z.lt_total i k) as [Hlt|[->|Hgt]].
    - pose proof (f_order _ B i k ltac:(lia) ltac:(lia) Hui Hu). lia.
    - apply No. exists e. split; [exact He|]. split; [exact Hl|lia].
    - pose proof (f_order _ B k i ltac:(lia) ltac:(lia) Hu Hui). lia. }
  split; [rewrite M3, U2, (proj2 (Z.leb_le 0 k)), (proj2 (Z.ltb_lt k _)), Hu1, Wl by lia; reflexivity|]. split; [exact K|].
  intros e He A. specialize (X2 e He). set (tl := tail (layout (g_blocks j k))) in *.
  assert (Shift : forall bytes, aims bytes (code_at j k + site e) (code_at j k + tl) ->
    (forall o, 0 <= o < width -> g_bytes j' (code_at j' m + site e + o) = bytes (code_at j k + site e + o)) -> aims (g_bytes j') (code_at j' m + site e) (code_at j' m + tl)).
  { intros bytes Ab Eb. replace (code_at j' m + tl) with (code_at j k + tl + ((code_at j' m + site e) - (code_at j k + site e))) by lia. apply (pl_moves _ _ PL bytes); assumption. }
  destruct (linked e) eqn:El.
  - specialize (U4 k e Hk1 Hu1 ltac:(rewrite Wl; exact He) El). rewrite Ca, Wl in U4. apply (Shift (g_bytes ju) U4). intros o Ho. rewrite <- !Z.add_assoc. apply M6. lia.
  - destruct A as [|A]; [discriminate|]. apply (Shift (g_bytes j) A). intros o Ho. rewrite <- !Z.add_assoc. apply K; [lia|].
    intros (x & Hx & Hl & Hr). destruct (ForallOrdPairs_In X4 e x He Hx) as [->|[Ap|Ap]]; [congruence|unfold apart in Ap; lia..].
Qed.
End Exits.

(** What [compact] keeps, and where it has come from. *)
Record compacted (j j' : jit) : Prop := {
  cp_table : table_ok j';
  cp_buffer : buffer_ok j';
  cp_fixed : same_buffer j j';
  cp_moved : forall m, 0 <= m < g_block_count j' ->
    in_use j' m = true /\ exists k, 0 <= k < g_block_count j /\ in_use j k = true /\
      moved (g_bytes (unlinked j)) (g_bytes j') (g_blocks (unlinked j) k) (g_blocks j' m)
}.

Lemma kept_range j0 thr dst kept j m : table_ok j0 -> kept_upto j0 thr (g_block_count j0) dst kept j -> 0 <= m < kept ->
  exists k, 0 <= k < g_block_count j0 /\ in_use j0 k = true /\ moved (g_bytes j0) (g_bytes j) (g_blocks j0 k) (g_blocks j m) /\ in_use j m = true /\ block_ok (g_blocks j m).
Proof.
  intros T K Hm. destruct (k_kept _ _ _ _ _ _ K m Hm) as (k & N & M & U & _). apply nth_error_In, filter_In in N as [N1 N2]. apply in_upto in N1. unfold keeps in N2. apply andb_true_iff in N2 as [N2 _].
  exists k. split; [exact N1|]. split; [exact N2|]. split; [exact M|]. split; [exact U|]. destruct M as (_ & M2 & _ & _ & M5 & _). unfold block_ok. rewrite M2, M5. apply (t_block _ T k N1).
Qed.

Lemma keep_block_keeps thr r i : same_buffer (snd r) (snd (keep_block thr r i)).
Proof.
  destruct r as [[dst kept] j]. cbn [keep_block snd]. destruct (code _); [|reflexivity]. destruct (_ <? thr); cbn [snd]; [|destruct (negb _); keep].
  split; [|split; [|apply evict_note_neg]]; unfold evict_note; cbv zeta;
    (destruct (_ =? 0); [reflexivity|]; destruct (_ || _); [reflexivity|]; destruct (_ && _); [reflexivity|]; destruct (_ <=? _); reflexivity).
Qed.

Lemma compact_keeps j : same_buffer j (compact host j).
Proof.
  unfold compact. set (j1 := if g_chain_heat j then chain_heat j else j). set (thr := if _ <? 2 then 2 else _). set (ju := unlink_all host _).
  assert (H1 : same_buffer j ju).
  { etransitivity; [|apply quiet_keeps, unlink_all_quiet]. transitivity j1; [|keep]. unfold j1. destruct (g_chain_heat j); [apply quiet_keeps, chain_heat_quiet|reflexivity]. }
  assert (H2 : forall l r, same_buffer (snd r) (snd (fold_left (keep_block thr) l r))).
  { induction l as [|i l IH]; intros r; [reflexivity|]. etransitivity; [apply keep_block_keeps|apply IH]. }
  specialize (H2 (upto (g_block_count ju)) (0, 0, ju)). destruct (fold_left (keep_block thr) _ _) as [[dst kept] j2]. cbn [snd] in H2.
  etransitivity; [exact H1|]. etransitivity; [exact H2|]. unfold rebuild_hash. etransitivity; [|apply rebuild_pages_keeps].
  set (j3 := _ <| g_hash := _ |>). assert (H3 : same_buffer j2 j3) by keep. etransitivity; [exact H3|]. generalize (upto (g_block_count j3)) as l. clearbody j3. clear. intros l. revert j3.
  induction l as [|i l IH]; intros j3; [reflexivity|]. cbn [fold_left]. etransitivity; [|apply IH]. unfold chain_insert. keep.
Qed.

Lemma compact_ok j : table_ok j -> buffer_ok j -> compacted j (compact host j).
Proof.
  intros T B. pose proof (compact_keeps j) as Ck. unfold compact in *. set (j1 := if g_chain_heat j then chain_heat j else j) in *. set (thr := if _ <? 2 then 2 else _) in *. set (ju := unlink_all host _) in *.
  assert (Q : quiet j ju) by apply (unlinked_quiet j).
  pose proof (quiet_table _ _ Q T) as Tu. pose proof (quiet_buffer _ _ Q B) as Bu. pose proof (keep_loop ju thr Bu ltac:(apply Tu)) as K.
  destruct (fold_left (keep_block thr) _ _) as [[dst kept] j2]. set (j3 := j2 <| g_block_count := kept |> <| g_code_used := dst |>).
  destruct (k_fixed _ _ _ _ _ _ K) as (_ & Ks & Kc). pose proof (k_count _ _ _ _ _ _ K) as Kk. pose proof (kept_le (keeps ju thr) (g_block_count ju) ltac:(apply Tu)) as Kl. rewrite <- Kk in Kl.
  assert (H3 : forall k, 0 <= k < g_block_count j3 -> in_use j3 k = true /\ block_ok (g_blocks j3 k)).
  { intros k Hk. destruct (kept_range _ _ _ _ _ k Tu K Hk) as (_ & _ & _ & _ & U & O). split; assumption. }
  destruct (rebuild_hash_ok j3 ltac:(pose proof (t_count _ Tu); cbn; lia) H3) as [T' R]. pose proof (rl_count _ _ R) as Ec. destruct (rl_rest _ _ R) as (R1 & R2 & R3 & R4 & _).
  assert (A : forall k, code (g_blocks (rebuild_hash j3) k) = code (g_blocks j2 k) /\ len (g_blocks (rebuild_hash j3) k) = len (g_blocks j2 k)).
  { intros k. destruct (rl_block _ _ R k) as (_ & _ & _ & A4 & A5 & _). split; assumption. }
  split; [exact T'| | |].
  - destruct (k_dst _ _ _ _ _ _ K) as [Hd _]. destruct (f_size _ Bu) as [Hz Hw].
    split.
    + rewrite R3, R2. cbn. rewrite Ks. split; [lia|exact Hw].
    + rewrite Ec, R3. cbn. intros k Hk Hu. destruct (k_kept _ _ _ _ _ _ K k Hk) as (_ & _ & _ & _ & C1 & C2 & C3). destruct (k_kept _ _ _ _ _ _ K k Hk) as (k0 & N & M & _).
      unfold code_at in *. destruct (A k) as [-> ->]. repeat split; try assumption. destruct M as (_ & _ & _ & -> & _).
      apply nth_error_In, filter_In in N as [N1 N2]. apply in_upto in N1. unfold keeps in N2. apply andb_true_iff in N2 as [N2 _]. apply (f_block _ Bu k0 N1 N2).
    + rewrite Ec. cbn. intros i k Hi Hk _ _. unfold code_at in *. destruct (A i) as [-> ->], (A k) as [-> _]. apply (k_order _ _ _ _ _ _ K); assumption.
  - exact Ck.
  - change (unlinked j) with ju. rewrite Ec. cbn. intros m Hm. destruct (kept_range _ _ _ _ _ m Tu K Hm) as (k & Hk & Hu & M & U & _).
    destruct (alike_keys j3 _ m (rl_block _ _ R m)) as (U' & _). split; [rewrite U'; exact U|]. exists k. rewrite (q_count _ _ Q) in Hk. split; [exact Hk|]. rewrite (quiet_use _ _ k Q) in Hu. split; [exact Hu|].
    destruct M as (M1 & M2 & M3 & M4 & M5 & M6), (rl_block _ _ R m) as (A1 & A2 & A3 & A4 & A5 & A6). cbn in *. unfold moved. rewrite A1, A2, A3, A4, A5, A6, R4. repeat split; assumption.
Qed.

(** ** Translation *)

Section Translate.
Context {W : Type}.
Variable translate : W -> Z -> (Z -> Z) -> Z -> Z -> emitted W.

(** The emitters write at the cursor and below the limit. *)
Definition emits_inside : Prop := forall w pc bytes start limit, 0 <= start <= limit ->
  let r := translate w pc bytes start limit in
  e_overflow r = false -> start <= e_end r <= limit /\ (forall o, o < start -> e_bytes r o = bytes o).

Hypothesis emits : emits_inside.

Definition jit_ok (j : jit) : Prop := table_ok j /\ buffer_ok j.

(** An index the translator hands out. *)
Definition made (j : jit) (i pc ctx : Z) : Prop :=
  0 <= i < g_block_count j /\ in_use j i = true /\ guest_pc (g_blocks j i) = pc /\ context (g_blocks j i) = ctx.

(** A block after the last one. *)
Lemma append_buffer j j' start stop : buffer_ok j -> g_block_count j' = g_block_count j + 1 -> (forall k, k <> g_block_count j -> g_blocks j' k = g_blocks j k) ->
  g_code_size j' = g_code_size j -> g_code_used j' = stop ->
  code (g_blocks j' (g_block_count j)) = Some start -> len (g_blocks j' (g_block_count j)) = stop - start ->
  start mod 4 = 0 -> g_code_used j <= start -> start <= stop <= g_code_size j -> buffer_ok j'.
Proof.
  intros [F1 F2 F3] Ec Eb Es Eu Ei El Hm H1 H2. set (i := g_block_count j) in *. split.
  - rewrite Es, Eu. split; [lia|apply F1].
  - rewrite Ec, Eu. intros k Hk Hu. unfold code_at, in_use in *. destruct (Z.eq_dec k i) as [->|Ne]; [rewrite Ei, El; cbn; repeat split; lia|].
    rewrite Eb in * by exact Ne. destruct (F2 k ltac:(lia) Hu) as (? & ? & ? & ?). repeat split; try assumption. lia.
  - rewrite Ec. intros m k Hm' Hk Hum Huk. unfold code_at, in_use in *. rewrite (Eb m) in * by lia. destruct (Z.eq_dec k i) as [->|Ne].
    + rewrite Ei. cbn. destruct (F2 m ltac:(lia) Hum) as (_ & _ & _ & H). lia.
    + rewrite (Eb k) in * by exact Ne. apply F3; [lia|lia|exact Hum|exact Huk].
Qed.

Lemma start_value used size : 0 <= used <= size -> size < 2 ^ 32 -> align4 used <= size -> Z.ldiff (used +! 3) 3 = align4 used.
Proof.
  intros H1 H2 H3. unfold align4. destruct (Z.lt_ge_cases (used + 3) (2 ^ 32)) as [Lt|Ge]; [rewrite u32_id by (unfold is_u32; lia); reflexivity|].
  exfalso. rewrite align4_value in *. pose proof (Z.div_mod (used + 3) 4). pose proof (Z.mod_pos_bound (used + 3) 4).
  assert (2 ^ 30 <= (used + 3) / 4) by (apply Z.div_le_lower_bound; lia). lia.
Qed.

Lemma translate_once_ok j w pc ctx a j' w' : translate_once translate j w pc ctx = (a, j', w') -> jit_ok j -> is_u32 pc ->
  g_block_count j < EMU_JIT_MAX_BLOCKS -> align4 (g_code_used j) <= g_code_size j ->
  jit_ok j' /\ same_buffer j j' /\ (forall i, a = Made i -> made j' i pc ctx).
Proof.
  unfold translate_once. intros E [T B] Up Hc Hs. destruct (f_size _ B) as [Hz Hw]. pose proof Hw as [Hw0 Hw1]. pose proof reserve_ok as Hv.
  pose proof (align4_ge (g_code_used j)) as D1. pose proof (start_value _ _ Hz ltac:(lia) Hs) as Ea.
  rewrite Ea in E. set (start := align4 (g_code_used j)) in *. set (j1 := j <| g_code_used := start |>) in E. cbn [g_code_used g_bytes g_code_size] in E. change (g_code_used j1) with start in E. change (g_bytes j1) with (g_bytes j) in E. change (g_code_size j1) with (g_code_size j) in E.
  set (r := translate w pc (g_bytes j) start (g_code_size j)) in *. set (j2 := j1 <| g_bytes := e_bytes r |>) in E.
  assert (T2 : table_ok j2) by (apply (same_table_ok j); [repeat split|exact T]).
  assert (B2 : buffer_ok j2).
  { destruct B as [F1 F2 F3]. split; [cbn; split; [lia|exact Hw]| |exact F3]. intros k Hk Hu. destruct (F2 k Hk Hu) as (? & ? & ? & ?). repeat split; try assumption. cbn. unfold code_at in *. cbn. lia. }
  destruct (e_overflow r) eqn:Eo.
  { injection E as <- <- <-. split; [split; assumption|]. split; [keep|discriminate]. }
  destruct (emits w pc (g_bytes j) start (g_code_size j) ltac:(lia) Eo) as [He _]. fold r in He.
  destruct (e_insns r =? 0).
  { injection E as <- <- <-. unfold neg_note, seen_set. split; [split; [eapply same_table_ok; [|exact T2]; repeat split|eapply buffer_same; [..|exact B2]; auto]|]. split; [|discriminate].
    split; [reflexivity|]. split; [reflexivity|]. intros N. apply neg_note_neg. eapply same_neg; [..|exact N]; reflexivity. }
  set (b := JitBlock ctx pc (e_layout r) (Some start) (e_end r - start) (u16 (e_insns r)) 0 (next (g_blocks j2 (g_block_count j2))) (pnext (g_blocks j2 (g_block_count j2)))) in E.
  set (j3 := j2 <| g_block_count := _ |> <| g_blocks := _ |> <| g_code_used := _ |>) in E. injection E as <- <- <-.
  assert (Ob : block_ok b) by (split; [exact Up|apply Z.mod_pos_bound; lia]).
  destruct (insert_ok (j2 <| g_code_used := e_end r |>) b) as (T4 & C4 & A4 & B4); [eapply same_table_ok; [|exact T2]; repeat split|exact Hc|exact Ob|reflexivity|].
  change (page_insert (chain_insert _ _) _) with (page_insert (chain_insert j3 (g_block_count j)) (g_block_count j)) in T4, C4, A4, B4. change (g_block_count (j2 <| g_code_used := e_end r |>)) with (g_block_count j) in *.
  change (g_block_count j2) with (g_block_count j). set (i := g_block_count j) in *. set (j4 := page_insert (chain_insert j3 i) i) in *.
  assert (E5 : same_buffer j j4) by (unfold j4, page_insert; cbv zeta; destruct (_ <? _); keep). pose proof (proj1 E5) as E4.
  assert (E6 : g_code_used j4 = e_end r) by (unfold j4, page_insert; cbv zeta; destruct (_ <? _); reflexivity). pose proof A4 as (A41 & A42 & A43 & A44 & A45 & A46).
  assert (U4 : in_use j4 i = true) by (unfold in_use, live; rewrite A44; reflexivity).
  pose proof (t_count _ T) as Tc. fold i in Tc. assert (Si : forall k, k <> i -> g_blocks j4 k = g_blocks j k) by exact B4.
  split; [split; [exact T4|]|split; [exact E5|]].
  - apply (append_buffer j j4 start (e_end r)); [exact B|exact C4|exact Si|exact E4|exact E6|exact A44|exact A45|apply align4_mod|lia|lia].
  - intros k [= <-]. split; [rewrite C4; lia|]. split; [exact U4|]. split; assumption.
Qed.

Lemma space_ok j : jit_ok j -> space_low j = false -> g_block_count j < EMU_JIT_MAX_BLOCKS /\ align4 (g_code_used j) <= g_code_size j.
Proof.
  intros [_ B] H. unfold space_low in H. apply orb_false_iff in H as [H1 H2]. apply Z.leb_gt in H1, H2. split; [exact H1|]. destruct (f_size _ B) as [Hz [Hw0 Hw1]]. pose proof reserve_ok.
  rewrite u32_id in H2 by (unfold is_u32; lia). rewrite align4_value. pose proof (Z.div_mod (g_code_used j + 3) 4). pose proof (Z.mod_pos_bound (g_code_used j + 3) 4). lia.
Qed.

Lemma flush_same j : same_buffer j (emu_jit_flush j) /\ g_block_count (emu_jit_flush j) = 0 /\ g_code_used (emu_jit_flush j) = 0.
Proof. split; [apply flush_keeps|]. unfold emu_jit_flush, neg_invalidate. cbv zeta. destruct (_ <? _); repeat split. Qed.

Lemma flush_jit_ok j : buffer_ok j -> jit_ok (emu_jit_flush j).
Proof. intros B. split; [apply flush_ok|apply flush_buffer, B]. Qed.

(** What the translator answers. *)
Definition answered (j : jit) (pc ctx : Z) (r : option Z * jit * W) : Prop :=
  let '(a, j', w') := r in jit_ok j' /\ same_buffer j j' /\ (forall i, a = Some i -> made j' i pc ctx).

Lemma jit_translate_ok j w pc ctx : jit_ok j -> is_u32 pc -> answered j pc ctx (jit_translate host translate j w pc ctx).
Proof.
  intros J Up. unfold jit_translate. cbv zeta.
  assert (Once : forall j w, jit_ok j -> space_low j = false -> forall a j' w', translate_once translate j w pc ctx = (a, j', w') ->
    jit_ok j' /\ same_buffer j j' /\ (forall i, a = Made i -> made j' i pc ctx)).
  { intros j1 w1 J1 Hs a j' w' E. destruct (space_ok j1 J1 Hs). eapply translate_once_ok; eassumption. }
  assert (Over : forall j1 w, jit_ok j1 -> same_buffer j j1 -> answered j pc ctx
    (let '(a, j, w) := translate_once translate (emu_jit_flush j1) w pc ctx in (match a with Made i => Some i | _ => None end, j, w))).
  { intros j1 w1 J1 S1. destruct (flush_same j1) as (S2 & F1 & F2). destruct (translate_once _ _ _ _ _) as [[a j'] w'] eqn:E. pose proof max_blocks_ok. pose proof (flush_jit_ok j1 (proj2 J1)) as J2.
    assert (H0 : align4 (g_code_used (emu_jit_flush j1)) <= g_code_size (emu_jit_flush j1)) by (rewrite F2; apply (f_size _ (proj2 J2))).
    destruct (translate_once_ok _ _ _ _ _ _ _ E J2 Up ltac:(lia) H0) as (J3 & S3 & M). split; [exact J3|]. split; [etransitivity; [exact S1|]; etransitivity; eassumption|].
    intros i Ei. destruct a; try discriminate. injection Ei as ->. apply M. reflexivity. }
  assert (Recl : forall j1 w, jit_ok j1 -> same_buffer j j1 -> answered j pc ctx
    (if relocatable host then
       if space_low (compact host j1) then
         let '(a, j, w) := translate_once translate (emu_jit_flush (compact host j1)) w pc ctx in (match a with Made i => Some i | _ => None end, j, w)
       else
         let '(a, j, w) := translate_once translate (compact host j1) w pc ctx in
         match a with Made i => (Some i, j, w) | Declines => (None, j, w)
         | Overflows => let '(a, j, w) := translate_once translate (emu_jit_flush j) w pc ctx in (match a with Made i => Some i | _ => None end, j, w) end
     else let '(a, j, w) := translate_once translate (emu_jit_flush j1) w pc ctx in (match a with Made i => Some i | _ => None end, j, w))).
  { intros j1 w1 J1 S1. destruct (relocatable host); [|apply Over; assumption]. destruct (compact_ok j1 (proj1 J1) (proj2 J1)) as [C1 C2 C3 _].
    assert (J2 : jit_ok (compact host j1)) by (split; assumption). assert (S2 : same_buffer j (compact host j1)) by (etransitivity; [exact S1|exact C3]).
    destruct (space_low (compact host j1)) eqn:Es; [apply Over; assumption|]. destruct (translate_once translate (compact host j1) w1 pc ctx) as [[a j3] w3] eqn:E3.
    destruct (Once _ _ J2 Es _ _ _ E3) as (J3 & S3 & M). assert (S4 : same_buffer j j3) by (etransitivity; eassumption).
    destruct a; [split; [exact J3|]; split; [exact S4|]; intros i [= <-]; apply M; reflexivity|split; [exact J3|]; split; [exact S4|discriminate]|apply Over; assumption]. }
  destruct (space_low j) eqn:Es; [apply Recl; [exact J|reflexivity]|]. destruct (translate_once translate j w pc ctx) as [[a j1] w1] eqn:E1.
  destruct (Once _ _ J Es _ _ _ E1) as (J1 & S1 & M).
  destruct a; [split; [exact J1|]; split; [exact S1|]; intros i [= <-]; apply M; reflexivity|split; [exact J1|]; split; [exact S1|discriminate]|apply Recl; assumption].
Qed.
End Translate.
End Compact.
