(* ===== verification/JitRun.v ===== *)
(** * The JIT framework: the dispatch loop

    [emu_jit_run] of [src/emu/emu_jit.c] and what it calls to interpret.  The
    guest is a parameter: what [bind] points the loop at are functions of its
    state, its calls into the framework are carried out on the [jit] they are
    given, and [gu_enter] is the host executing the code at an offset of the
    buffer. *)

From stdpp Require Import base list.
From Stdlib Require Import ZArith Lia.
From S2P Require Import Prelude RvHart RvTrap RvInterp Jit.

Open Scope Z_scope.
Open Scope u32_scope.

Record jit_guest (W : Type) := JitGuest {
  gu_pc : W -> Z; gu_state : W -> Z;
  gu_generation : option (W -> Z); gu_blocked : option (W -> bool); gu_context : option (W -> Z); gu_irq_pending : option (W -> bool);
  gu_bind : W -> jit -> W * jit;
  gu_is_idle : option (W -> bool); gu_wake : W -> bool * W;
  gu_take_irq : option (W -> jit -> bool * W * jit); gu_irq_not_retired : bool;
  gu_count : option (W -> Z -> W);
  gu_interp : W -> jit -> Z -> emu_run_reason * Z * W * jit;
  gu_after_interp : option (W -> W);
  gu_translate : W -> Z -> (Z -> Z) -> Z -> Z -> emitted W;
  gu_enter : W -> jit -> Z -> Z * W * jit
}.
Arguments gu_pc {W}. Arguments gu_state {W}. Arguments gu_generation {W}. Arguments gu_blocked {W}. Arguments gu_context {W}. Arguments gu_irq_pending {W}.
Arguments gu_bind {W}. Arguments gu_is_idle {W}. Arguments gu_wake {W}. Arguments gu_take_irq {W}. Arguments gu_irq_not_retired {W}. Arguments gu_count {W}.
Arguments gu_interp {W}. Arguments gu_after_interp {W}. Arguments gu_translate {W}. Arguments gu_enter {W}.

Section Run.
Context {Cfg : JitConfig} {W : Type}.
Variable host : emu_jit_host.
Variable g : jit_guest W.

Definition EMU_JIT_FALLBACK_MAX : Z := 64.
Definition JIT_THRASH_RUN_MAX : Z := 256.

Definition after_interp (w : W) : W := match gu_after_interp g with Some f => f w | None => w end.

Definition run_interp_batch (w : W) (j : jit) (done budget batch : Z) : emu_run_reason * Z * W * jit :=
  let left := budget -! done in
  let want := if batch <? left then batch else left in
  let want := if want =? 0 then 1 else want in
  let '(r, n, w, j) := gu_interp g w j want in
  (r, done +! n, after_interp w, j).

(** [r == EMU_RUN_HALTED || r == EMU_RUN_WFI]. *)
Definition stops (r : emu_run_reason) : bool := match r with EMU_RUN_HALTED | EMU_RUN_WFI => true | _ => false end.

(** One instruction at a time, up to a jump. *)
Fixpoint to_jump (fuel : nat) (w : W) (j : jit) (done budget total : Z) : emu_run_reason * Z * W * jit :=
  match fuel with
  | O => (EMU_RUN_BUDGET, total, w, j)
  | S fuel =>
      let before := gu_pc g w in
      let '(r, n, w, j) := gu_interp g w j 1 in
      let total := total +! n in
      if stops r || (n =? 0) then (r, total, w, j)
      else
        let step := gu_pc g w -! before in
        if (step =? 0) || (6 <? step) || (budget <=? done +! total) || (JIT_THRASH_RUN_MAX <=? total) then (r, total, w, j)
        else to_jump fuel w j done budget total
  end.

Definition run_interp_to_jump (w : W) (j : jit) (done budget : Z) : emu_run_reason * Z * W * jit :=
  let j := j <| g_thrash_interps := g_thrash_interps j +! 1 |> in
  let j := if EMU_JIT_THRASH_RETRY <=? g_thrash_interps j then neg_invalidate (j <| g_thrash_interps := 0 |>) else j in
  let '(r, total, w, j) := to_jump (Z.to_nat JIT_THRASH_RUN_MAX) w j done budget 0 in
  (r, done +! total, after_interp w, j).

Definition emu_jit_step (w : W) (j : jit) : emu_run_reason * W * jit :=
  let '(r, n, w, j) := gu_interp g w j 1 in (r, after_interp w, j).

(** The generation a block may have been built under is another one. *)
Definition check_generation (w : W) (j : jit) (prev : option Z) : jit * option Z :=
  match gu_generation g with
  | None => (j, prev)
  | Some f =>
      let gen := f w in
      if negb (g_have_generation j) || negb (gen =? g_generation j) then
        let '(j, prev) := if g_have_generation j && negb (gen =? g_generation j) then (emu_jit_flush j, None) else (j, prev) in
        (j <| g_generation := gen |> <| g_have_generation := true |>, prev)
      else (j, prev)
  end.

Definition hot_context (w : W) : Z := match gu_context g with Some f => f w | None => 0 end.
Definition doubled (batch : Z) : Z := if batch <? EMU_JIT_FALLBACK_MAX then batch *! 2 else batch.

(** What an iteration does: leave the loop, or go on with what was retired,
    the next batch and the block that ran. *)
Inductive turn := Leave (r : emu_run_reason) (done : Z) | Again (done batch : Z) (prev : option Z).

(** After interpreting: [prev = NULL], and out if the guest stopped. *)
Definition interpreted (r : emu_run_reason) (done batch : Z) : turn := if stops r then Leave r done else Again done batch None.

Definition run_block (w : W) (j : jit) (done : Z) (prev : option Z) (i : Z) : turn * W * jit :=
  let j := link_exit host j prev i in
  let '(n, w, j) := gu_enter g w j (default 0 (code (g_blocks j i))) in
  let w := if negb (n =? 0) then match gu_count g with Some f => f w n | None => w end else w in
  (Again (done +! (if negb (n =? 0) then n else 1)) 1 (Some i), w, j).

(** No block: interpret, or translate and run. *)
Definition missed (w : W) (j : jit) (pc ctx done budget batch : Z) : turn * W * jit :=
  let seen := seen_of j pc ctx in
  if seen =? JIT_SEEN_THRASH then
    let '(r, done, w, j) := run_interp_to_jump w j done budget in (interpreted r done batch, w, j)
  else if seen =? JIT_SEEN_DECLINED then
    let '(r, done, w, j) := run_interp_batch w j done budget batch in (interpreted r done (doubled batch), w, j)
  else
    let '(hot, j) := heat_bump j pc ctx in
    if negb hot then
      let '(r, done, w, j) := run_interp_batch w j done budget 1 in (interpreted r done batch, w, j)
    else
      let '(b, j, w) := jit_translate host (gu_translate g) j w pc ctx in
      match b with
      | None => let '(r, done, w, j) := run_interp_batch w j done budget batch in (interpreted r done (doubled batch), w, j)
      | Some i => run_block w j done None i
      end.

(** A pending interrupt, taken. *)
Definition poll_irq (w : W) (j : jit) : bool * W * jit :=
  match gu_take_irq g with
  | None => (false, w, j)
  | Some f => if match gu_irq_pending g with None => true | Some p => p w end then f w j else (false, w, j)
  end.

Definition dispatch (w : W) (j : jit) (done budget batch : Z) (prev : option Z) : turn * W * jit :=
  if negb (gu_state g w =? EMU_STATE_RUNNING) then
    (Leave (if gu_state g w =? EMU_STATE_HALTED then EMU_RUN_HALTED else EMU_RUN_WFI) done, w, j)
  else
    let '(taken, w, j) := poll_irq w j in
    if taken then (Again (if gu_irq_not_retired g then done else done +! 1) batch prev, w, j)
    else
      let '(j, prev) := check_generation w j prev in
      if match gu_blocked g with Some f => f w | None => false end then
        let '(r, done, w, j) := run_interp_batch w j done budget batch in (interpreted r done (doubled batch), w, j)
      else
        let pc := gu_pc g w in
        let ctx := hot_context w in
        let '(b, j) := lookup_block j pc ctx in
        match b with None => missed w j pc ctx done budget batch | Some i => run_block w j done prev i end.

Fixpoint jit_loop (fuel : nat) (w : W) (j : jit) (done budget batch : Z) (prev : option Z) : option (emu_run_reason * Z * W * jit) :=
  match fuel with
  | O => None
  | S fuel =>
      if budget <=? done then Some (EMU_RUN_BUDGET, done, w, j)
      else
        let '(t, w, j) := dispatch w j done budget batch prev in
        match t with Leave r done => Some (r, done, w, j) | Again done batch prev => jit_loop fuel w j done budget batch prev end
  end.

Definition emu_jit_run (fuel : nat) (w : W) (j : jit) (budget : Z) : option (emu_run_reason * Z * W * jit) :=
  if negb (g_code j) then Some (gu_interp g w j budget)
  else
    let j := if g_unchain j then unlink_all host (j <| g_unchain := false |>) else j in
    let '(w, j) := gu_bind g w j in
    let '(awake, w) := match gu_is_idle g with Some f => if f w then gu_wake g w else (true, w) | None => (true, w) end in
    if negb awake then Some (EMU_RUN_WFI, 0, w, j) else jit_loop fuel w j 0 budget 1 None.
End Run.
