(* ===== verification/JitProps.v ===== *)
(** * The JIT framework is sound

    Every state the framework can come to -- whatever guest runs in it, and
    whatever the guest and the platform ask of it in between -- keeps the
    invariants of the table, of the buffer and of the refused addresses.
    Lookup, invalidation, compaction and dispatch are then what they are meant
    to be. *)

From stdpp Require Import base list relations.
From Stdlib Require Import ZArith Lia.
From S2P Require Import Prelude RvHart RvTrap RvInterp Jit JitIndex JitRetire JitBuffer JitRun.

Open Scope Z_scope.
Open Scope u32_scope.

Section Sound.
Context {Cfg : JitConfig}.
Variable host : emu_jit_host.

Definition sound (j : jit) : Prop := jit_ok j /\ neg_ok j.

(** ** What is asked of the framework from outside *)

(** What may be called at any time, also from a block that runs. *)
Inductive tame (j : jit) : jit -> Prop :=
| tame_flush : tame j (emu_jit_flush j)
| tame_hot n : tame j (emu_jit_set_hot_threshold j n)
| tame_thrash n : tame j (emu_jit_set_thrash_evictions j n)
| tame_unchain : tame j (emu_jit_unchain j)
| tame_chain_heat on : tame j (emu_jit_set_chain_heat j on).

Inductive api (j : jit) : jit -> Prop :=
| api_tame j' : tame j j' -> api j j'
| api_page a : is_u32 a -> api j (emu_jit_invalidate_page host j a)
| api_range lo hi : is_u32 lo -> is_u32 hi -> api j (emu_jit_invalidate_range host j lo hi).

Lemma page_of_range a : is_u32 a -> 0 <= Z.shiftr a JIT_PAGE_SHIFT < 2 ^ 20.
Proof. unfold is_u32, JIT_PAGE_SHIFT. intros H. rewrite Z.shiftr_div_pow2 by lia. change (2 ^ 12) with 4096. pose proof (Z.div_mod a 4096). pose proof (Z.mod_pos_bound a 4096). lia. Qed.

Lemma page_of_mono a b : a <= b -> Z.shiftr a JIT_PAGE_SHIFT <= Z.shiftr b JIT_PAGE_SHIFT.
Proof. unfold JIT_PAGE_SHIFT. intros H. rewrite !Z.shiftr_div_pow2 by lia. apply Z.div_le_mono; lia. Qed.

Lemma flush_sound j : sound j -> sound (emu_jit_flush j).
Proof. intros [[_ B] N]. split; [apply flush_jit_ok, B|apply flush_neg, N]. Qed.

Lemma retire_sound j lo hi : sound j -> 0 <= lo <= hi -> hi < 2 ^ 20 -> sound (retire_pages host j lo hi).
Proof.
  intros [[T B] N] H1 H2. destruct (retire_pages_ok host j lo hi T H1 H2) as [T' D]. destruct (retire_pages_keeps host j lo hi) as (S1 & _ & S3).
  split; [split; [exact T'|]|apply S3, N]. destruct D as [[j0 E]|G]; [|apply (gone_buffer _ _ _ G B)]. rewrite E in *. apply flush_buffer.
  pose proof (proj1 (flush_keeps j0)) as S0. rewrite <- S0, S1. apply (f_size _ B).
Qed.

(** Fields the invariants do not mention. *)
Lemma sound_same j j' : same_table j j' -> g_code_used j' = g_code_used j -> same_buffer j j' -> sound j -> sound j'.
Proof.
  intros S U (Z1 & _ & Z3) [[T B] N]. split; [split; [apply (same_table_ok _ _ S T)|]|apply Z3, N]. destruct S as (S1 & S2 & _).
  eapply buffer_same; [exact U|exact Z1|exact S2| |exact B]. intros k _. unfold in_use. rewrite S1. auto.
Qed.

Lemma quiet_sound j j' : quiet j j' -> sound j -> sound j'.
Proof. intros Q [[T B] N]. split; [split; [apply (quiet_table _ _ Q T)|apply (quiet_buffer _ _ Q B)]|apply (quiet_keeps _ _ Q), N]. Qed.

Lemma neg_sound j : sound j -> sound (neg_invalidate j).
Proof.
  intros S. eapply sound_same; [apply neg_invalidate_same| | |exact S]; [|split; [|split; [|intros N; apply neg_invalidate_ok, N]]]; unfold neg_invalidate; cbv zeta; destruct (_ <? _); reflexivity.
Qed.

(** Blanking entries. *)
Lemma blank_sound j (p : Z -> bool) : sound j ->
  sound (j <| g_neg := fun k => let e := g_neg j k in if p k then Neg (n_pc e) (n_context e) 0 else e |>).
Proof.
  intros S. eapply sound_same; [..|exact S]; [repeat split|reflexivity|]. split; [reflexivity|]. split; [reflexivity|]. intros [N0 N1 N2]. split; [exact N0|exact N1|].
  intros k Hk. cbn. destruct (p k); [|apply N2, Hk]. cbn [n_tag]. change (Z.shiftr 0 8) with 0. lia.
Qed.

Lemma range_sound j lo hi : is_u32 lo -> is_u32 hi -> sound j -> sound (emu_jit_invalidate_range host j lo hi).
Proof.
  intros Hl Hh S. unfold emu_jit_invalidate_range. cbv zeta. destruct (Z.ltb_spec hi lo); [exact S|].
  pose proof (page_of_range lo Hl). pose proof (page_of_range hi Hh). pose proof (page_of_mono lo hi ltac:(lia)).
  assert (S1 : sound (retire_pages host j (Z.shiftr lo JIT_PAGE_SHIFT) (Z.shiftr hi JIT_PAGE_SHIFT))) by (apply retire_sound; [exact S|lia|lia]).
  destruct (_ <=? _); [apply neg_sound, S1|apply (blank_sound _ (fun k => (0 <=? k) && (k <? JIT_NEG_SIZE) && _)), S1].
Qed.

Lemma tame_sound j j' : tame j j' -> sound j -> sound j'.
Proof.
  intros [|n|n| |on] S; [apply flush_sound, S| |eapply sound_same; [..|exact S]; [repeat split|reflexivity|keep]..].
  eapply sound_same; [..|exact S]; [repeat split|reflexivity|]. split; [reflexivity|]. split; [reflexivity|]. intros [N0 N1 N2]. split; [|exact N1|exact N2].
  cbn. destruct (Z.ltb_spec n 1); [lia|]. destruct (Z.ltb_spec 127 n); lia.
Qed.

Lemma api_sound j j' : api j j' -> sound j -> sound j'.
Proof.
  intros [j2 A|a Ha|lo hi Hl Hh] S; [apply (tame_sound _ _ A S)| |apply range_sound; assumption].
  pose proof (page_of_range a Ha). apply retire_sound; [exact S|lia|lia].
Qed.

Lemma apis_sound j j' : rtc api j j' -> sound j -> sound j'.
Proof. intros R. induction R as [|j1 j2 j3 A _ IH]; intros S; [exact S|]. apply IH, (api_sound _ _ A S). Qed.

Lemma tames_sound j j' : rtc tame j j' -> sound j -> sound j'.
Proof. intros R. apply apis_sound. induction R as [|j1 j2 j3 A _ IH]; [apply rtc_refl|]. eapply rtc_l; [apply api_tame, A|exact IH]. Qed.

(** None of these takes a block's code away. *)
Lemma tames_blocks j j' : rtc tame j j' -> g_blocks j' = g_blocks j.
Proof.
  intros R. induction R as [|j1 j2 j3 A _ IH]; [reflexivity|]. rewrite IH. destruct A; try reflexivity. unfold emu_jit_flush, neg_invalidate. cbv zeta. destruct (_ <? _); reflexivity.
Qed.

(** ** A guest that keeps to the interface *)

Section Guest.
Context {W : Type}.

(** It calls the framework's functions and nothing else of it, and no
    invalidation of some pages from inside a block or while it takes an
    interrupt; its translator emits from the cursor on, and leaves the guest
    where it is. *)
Record guest_ok (g : jit_guest W) : Prop := {
  gk_pc : forall w, is_u32 (gu_pc g w);
  gk_bind : forall w j, rtc api j (snd (gu_bind g w j));
  gk_irq : forall f w j, gu_take_irq g = Some f -> rtc tame j (snd (f w j));
  gk_interp : forall w j n, rtc api j (snd (gu_interp g w j n));
  gk_enter : forall w j c, rtc tame j (snd (gu_enter g w j c));
  gk_emits : emits_inside (gu_translate g);
  gk_still : forall w pc bytes start limit, let w' := e_world (gu_translate g w pc bytes start limit) in
    gu_pc g w' = gu_pc g w /\ hot_context g w' = hot_context g w
}.

Lemma heat_bump_sound j pc ctx : sound j -> sound (snd (heat_bump j pc ctx)).
Proof.
  intros S. eapply sound_same; [apply heat_bump_same| | |exact S]; [|split; [|split; [|apply heat_bump_neg]]]; unfold heat_bump; cbv zeta;
    (destruct (_ <=? 1); [reflexivity|]; destruct (_ <=? _); reflexivity).
Qed.

(** What a translation leaves of the guest. *)
Lemma translate_world (tr : W -> Z -> (Z -> Z) -> Z -> Z -> emitted W) (P : W -> Prop) :
  (forall w pc bytes start limit, P w -> P (e_world (tr w pc bytes start limit))) ->
  forall j w pc ctx, P w -> P (snd (jit_translate host tr j w pc ctx)).
Proof.
  intros H j w pc ctx Pw. assert (O : forall j w, P w -> P (snd (translate_once tr j w pc ctx))).
  { clear j w Pw. intros j w Pw. unfold translate_once. cbv zeta. set (j1 := _ <| g_code_used := _ |>). specialize (H w pc (g_bytes j1) (g_code_used j1) (g_code_size j1) Pw).
    destruct (e_overflow _); [exact H|]. destruct (_ =? 0); exact H. }
  assert (F : forall j w, P w -> P (snd (let '(a, j, w) := translate_once tr (emu_jit_flush j) w pc ctx in (match a with Made i => Some i | _ => None end, j, w)))).
  { intros j1 w1 P1. specialize (O (emu_jit_flush j1) w1 P1). destruct (translate_once _ _ _ _ _) as [[a j2] w2]. exact O. }
  assert (R : forall j w, P w -> P (snd (if relocatable host then
       if space_low (compact host j) then let '(a, j, w) := translate_once tr (emu_jit_flush (compact host j)) w pc ctx in (match a with Made i => Some i | _ => None end, j, w)
       else let '(a, j, w) := translate_once tr (compact host j) w pc ctx in
         match a with Made i => (Some i, j, w) | Declines => (None, j, w)
         | Overflows => let '(a, j, w) := translate_once tr (emu_jit_flush j) w pc ctx in (match a with Made i => Some i | _ => None end, j, w) end
     else let '(a, j, w) := translate_once tr (emu_jit_flush j) w pc ctx in (match a with Made i => Some i | _ => None end, j, w)))).
  { intros j1 w1 P1. destruct (relocatable host); [|apply F, P1]. destruct (space_low _); [apply F, P1|]. specialize (O (compact host j1) w1 P1).
    destruct (translate_once _ _ _ _ _) as [[a j2] w2]. destruct a; [exact O|exact O|apply F, O]. }
  unfold jit_translate. destruct (space_low j); [apply R, Pw|]. specialize (O j w Pw). destruct (translate_once _ _ _ _ _) as [[a j2] w2]. destruct a; [exact O|exact O|apply R, O].
Qed.

Variable g : jit_guest W.
Hypothesis gok : guest_ok g.

Lemma interp_sound w j n : sound j -> sound (snd (gu_interp g w j n)).
Proof. apply apis_sound, (gk_interp _ gok). Qed.

Lemma batch_sound w j done budget batch : sound j -> sound (snd (run_interp_batch g w j done budget batch)).
Proof.
  intros S. unfold run_interp_batch. cbv zeta. set (n := if _ =? 0 then 1 else _). pose proof (interp_sound w j n S) as H.
  destruct (gu_interp g w j n) as [[[r k] w1] j1]. exact H.
Qed.

Lemma to_jump_sound fuel : forall w j done budget total, sound j -> sound (snd (to_jump g fuel w j done budget total)).
Proof.
  induction fuel as [|fuel IH]; intros w j done budget total S; cbn [to_jump]; [exact S|]. pose proof (interp_sound w j 1 S) as H.
  destruct (gu_interp g w j 1) as [[[r k] w1] j1]. cbn [snd] in H. destruct (_ || (k =? 0)); [exact H|]. destruct (_ || _); [exact H|]. apply IH, H.
Qed.

Lemma thrash_sound w j done budget : sound j -> sound (snd (run_interp_to_jump g w j done budget)).
Proof.
  intros S. unfold run_interp_to_jump. cbv zeta. set (j1 := j <| g_thrash_interps := _ |>).
  assert (S1 : sound j1) by (eapply sound_same; [..|exact S]; [repeat split|reflexivity|keep]). set (j2 := if _ <=? _ then _ else j1).
  assert (S2 : sound j2).
  { unfold j2. destruct (_ <=? _); [|exact S1]. apply neg_sound. eapply sound_same; [..|exact S1]; [repeat split|reflexivity|keep]. }
  pose proof (to_jump_sound (Z.to_nat JIT_THRASH_RUN_MAX) w j2 done budget 0 S2) as H. destruct (to_jump _ _ _ _ _ _ _) as [[[r k] w1] j3]. exact H.
Qed.

Lemma generation_sound w j prev : sound j -> sound (fst (check_generation g w j prev)).
Proof.
  intros S. unfold check_generation. destruct (gu_generation g) as [f|]; [|exact S]. cbv zeta. destruct (negb _ || _); [|exact S].
  assert (X : forall j, sound j -> sound (j <| g_generation := f w |> <| g_have_generation := true |>)).
  { intros j1 S1. eapply sound_same; [..|exact S1]; [repeat split|reflexivity|keep]. }
  destruct (_ && _); cbn [fst]; apply X; [apply flush_sound, S|exact S].
Qed.

Lemma run_block_sound w j done prev i : sound j -> sound (snd (run_block host g w j done prev i)).
Proof.
  intros S. unfold run_block. cbv zeta. set (j1 := link_exit host j prev i). pose proof (quiet_sound _ _ (link_exit_quiet host j prev i) S) as S1. fold j1 in S1.
  pose proof (tames_sound _ _ (gk_enter _ gok w j1 (default 0 (code (g_blocks j1 i)))) S1) as H. destruct (gu_enter g _ _ _) as [[n w1] j2]. exact H.
Qed.

Lemma missed_sound w j pc ctx done budget batch : sound j -> is_u32 pc -> sound (snd (missed host g w j pc ctx done budget batch)).
Proof.
  intros S Hp. unfold missed. cbv zeta. destruct (_ =? JIT_SEEN_THRASH).
  { pose proof (thrash_sound w j done budget S) as H. destruct (run_interp_to_jump _ _ _ _ _) as [[[r d] w1] j1]. exact H. }
  destruct (_ =? JIT_SEEN_DECLINED).
  { pose proof (batch_sound w j done budget batch S) as H. destruct (run_interp_batch _ _ _ _ _ _) as [[[r d] w1] j1]. exact H. }
  pose proof (heat_bump_sound j pc ctx S) as S1. destruct (heat_bump j pc ctx) as [hot j1]. cbn [snd] in S1. destruct (negb hot).
  { pose proof (batch_sound w j1 done budget 1 S1) as H. destruct (run_interp_batch _ _ _ _ _ _) as [[[r d] w1] j2]. exact H. }
  pose proof (jit_translate_ok host (gu_translate g) (gk_emits _ gok) j1 w pc ctx (proj1 S1) Hp) as A. destruct (jit_translate _ _ _ _ _ _) as [[b j2] w2].
  destruct A as (A1 & (_ & _ & A2) & _). assert (S2 : sound j2) by (split; [exact A1|apply A2, S1]). destruct b as [i|]; [apply run_block_sound, S2|].
  pose proof (batch_sound w2 j2 done budget batch S2) as H. destruct (run_interp_batch _ _ _ _ _ _) as [[[r d] w1] j3]. exact H.
Qed.

Lemma poll_sound w j : sound j -> sound (snd (poll_irq g w j)).
Proof.
  intros S. unfold poll_irq. destruct (gu_take_irq g) as [f|] eqn:E; [|exact S]. destruct (match gu_irq_pending g with None => true | Some p => p w end); [|exact S].
  apply (tames_sound _ _ (gk_irq _ gok f w j E) S).
Qed.

Lemma dispatch_sound w j done budget batch prev : sound j -> sound (snd (dispatch host g w j done budget batch prev)).
Proof.
  intros S. unfold dispatch. destruct (negb _); [exact S|]. pose proof (poll_sound w j S) as S1. destruct (poll_irq g w j) as [[taken w1] j1]. cbn [snd] in S1. destruct taken; [exact S1|].
  pose proof (generation_sound w1 j1 prev S1) as S2. destruct (check_generation g w1 j1 prev) as [j2 prev2]. cbn [fst] in S2. cbv zeta.
  destruct (match gu_blocked g with Some f => f w1 | None => false end).
  { pose proof (batch_sound w1 j2 done budget batch S2) as H. destruct (run_interp_batch _ _ _ _ _ _) as [[[r d] w3] j3]. exact H. }
  destruct (lookup_block j2 (gu_pc g w1) (hot_context g w1)) as [b j3] eqn:E. destruct (lookup_ok _ _ _ _ _ E (proj1 (proj1 S2))) as [_ Q]. pose proof (quiet_sound _ _ Q S2) as S3.
  destruct b as [i|]; [apply run_block_sound, S3|apply missed_sound; [exact S3|apply (gk_pc _ gok)]].
Qed.

(** The block the next exit may be linked from has code. *)
Definition prev_ok (j : jit) (prev : option Z) : Prop := match prev with Some p => live (g_blocks j p) = true | None => True end.

Lemma prev_same j j' prev : (forall k, live (g_blocks j' k) = live (g_blocks j k)) -> prev_ok j prev -> prev_ok j' prev.
Proof. intros E. destruct prev as [p|]; [|auto]. cbn. rewrite E. auto. Qed.

Lemma quiet_live j j' k : quiet j j' -> live (g_blocks j' k) = live (g_blocks j k).
Proof. intros Q. apply (quiet_use _ _ k Q). Qed.

Lemma run_block_prev w j done prev i : live (g_blocks j i) = true ->
  match run_block host g w j done prev i with (Again _ _ p, _, j') => prev_ok j' p | _ => True end.
Proof.
  intros L. unfold run_block. cbv zeta. set (j1 := link_exit host j prev i). pose proof (tames_blocks _ _ (gk_enter _ gok w j1 (default 0 (code (g_blocks j1 i))))) as E.
  destruct (gu_enter g _ _ _) as [[n w1] j2]. cbn [snd] in E. cbn [prev_ok]. rewrite E. unfold j1. rewrite (quiet_live _ _ i (link_exit_quiet host j prev i)). exact L.
Qed.

Lemma interpreted_prev r d b j : match interpreted r d b with Again _ _ p => prev_ok j p | Leave _ _ => True end.
Proof. unfold interpreted. destruct (stops r); exact I. Qed.

(** [link_exit] is never asked to patch a block that was retired. *)
Lemma dispatch_prev w j done budget batch prev : sound j -> prev_ok j prev ->
  match dispatch host g w j done budget batch prev with (Again _ _ p, _, j') => prev_ok j' p | _ => True end.
Proof.
  intros S P. unfold dispatch. destruct (negb _); [exact I|]. pose proof (poll_sound w j S) as S1.
  assert (B1 : g_blocks (snd (poll_irq g w j)) = g_blocks j).
  { unfold poll_irq. destruct (gu_take_irq g) as [f|] eqn:E; [|reflexivity]. destruct (match gu_irq_pending g with None => true | Some p => p w end); [|reflexivity]. apply tames_blocks, (gk_irq _ gok f w j E). }
  destruct (poll_irq g w j) as [[taken w1] j1]. cbn [snd] in S1, B1. assert (P1 : prev_ok j1 prev) by (apply (prev_same j); [intros k; rewrite B1; reflexivity|exact P]). destruct taken; [exact P1|].
  pose proof (generation_sound w1 j1 prev S1) as S2. destruct (check_generation g w1 j1 prev) as [j2 prev2]. cbn [fst] in S2. cbv zeta.
  destruct (match gu_blocked g with Some f => f w1 | None => false end).
  { destruct (run_interp_batch _ _ _ _ _ _) as [[[r d] w3] j3]. apply interpreted_prev. }
  destruct (lookup_block j2 (gu_pc g w1) (hot_context g w1)) as [b j3] eqn:E. destruct (lookup_ok _ _ _ _ _ E (proj1 (proj1 S2))) as [En Q]. pose proof (quiet_sound _ _ Q S2) as S3.
  destruct b as [i|]; [apply run_block_prev; rewrite (quiet_live _ _ i Q); apply (newest_some j2 (gu_pc g w1) (hot_context g w1)); symmetry; exact En|].
  unfold missed. cbv zeta. destruct (_ =? JIT_SEEN_THRASH); [destruct (run_interp_to_jump _ _ _ _ _) as [[[r d] w4] j4]; apply interpreted_prev|].
  destruct (_ =? JIT_SEEN_DECLINED); [destruct (run_interp_batch _ _ _ _ _ _) as [[[r d] w4] j4]; apply interpreted_prev|].
  pose proof (heat_bump_sound j3 (gu_pc g w1) (hot_context g w1) S3) as S4. destruct (heat_bump _ _ _) as [hot j4]. cbn [snd] in S4. destruct (negb hot); [destruct (run_interp_batch _ _ _ _ _ _) as [[[r d] w5] j5]; apply interpreted_prev|].
  pose proof (jit_translate_ok host (gu_translate g) (gk_emits _ gok) j4 w1 (gu_pc g w1) (hot_context g w1) (proj1 S4) (gk_pc _ gok w1)) as A. destruct (jit_translate _ _ _ _ _ _) as [[[i|] j5] w5].
  - apply run_block_prev. destruct A as (_ & _ & A). apply (A i eq_refl).
  - destruct (run_interp_batch _ _ _ _ _ _) as [[[r d] w6] j6]. apply interpreted_prev.
Qed.

Lemma loop_sound fuel : forall w j done budget batch prev r n w' j', sound j -> jit_loop host g fuel w j done budget batch prev = Some (r, n, w', j') -> sound j'.
Proof.
  induction fuel as [|fuel IH]; intros w j done budget batch prev r n w' j' S E; cbn [jit_loop] in E; [discriminate|].
  destruct (_ <=? done); [injection E as <- <- <- <-; exact S|]. pose proof (dispatch_sound w j done budget batch prev S) as S1.
  destruct (dispatch _ _ _ _ _ _ _ _) as [[t w1] j1]. cbn [snd] in S1. destruct t; [injection E as <- <- <- <-; exact S1|eapply IH; eassumption].
Qed.

(** What [emu_jit_run] does before its loop. *)
Lemma start_sound w j : sound j -> sound (snd (gu_bind g w (if g_unchain j then unlink_all host (j <| g_unchain := false |>) else j))).
Proof.
  intros S. apply (apis_sound _ _ (gk_bind _ gok _ _)). destruct (g_unchain j); [|exact S]. eapply quiet_sound; [apply unlink_all_quiet|]. eapply sound_same; [..|exact S]; [repeat split|reflexivity|keep].
Qed.

Lemma run_sound fuel w j budget r n w' j' : sound j -> emu_jit_run host g fuel w j budget = Some (r, n, w', j') -> sound j'.
Proof.
  intros S E. unfold emu_jit_run in E. destruct (negb (g_code j)).
  { injection E as E. pose proof (interp_sound w j budget S) as H. rewrite E in H. exact H. }
  cbv zeta in E. pose proof (start_sound w j S) as S1. destruct (gu_bind _ _ _) as [w1 j1]. cbn [snd] in S1. set (a := match gu_is_idle g with Some _ => _ | None => _ end) in E. destruct a as [awake w2].
  destruct (negb awake); [injection E as <- <- <- <-; exact S1|]. eapply loop_sound; eassumption.
Qed.

Lemma step_sound w j : sound j -> sound (snd (emu_jit_step g w j)).
Proof. intros S. unfold emu_jit_step. pose proof (interp_sound w j 1 S) as H. destruct (gu_interp g w j 1) as [[[r k] w1] j1]. exact H. Qed.
End Guest.

(** ** States the framework can come to *)

(** It is given a buffer, called from outside, and runs guests. *)
Inductive jit_reach (W : Type) : jit -> Prop :=
| reach_buffer j bytes size : neg_ok j -> sized size -> jit_reach W (emu_jit_set_buffer j bytes size)
| reach_api j j' : jit_reach W j -> api j j' -> jit_reach W j'
| reach_run (g : jit_guest W) fuel w j budget r n w' j' : guest_ok g -> jit_reach W j -> emu_jit_run host g fuel w j budget = Some (r, n, w', j') -> jit_reach W j'
| reach_step (g : jit_guest W) w j : guest_ok g -> jit_reach W j -> jit_reach W (snd (emu_jit_step g w j)).

Lemma reach_sound W j : jit_reach W j -> sound j.
Proof.
  induction 1 as [j bytes size N Hs|j j' _ S A|g fuel w j budget r n w' j' G _ S E|g w j G _ S].
  - split; [|apply flush_neg; eapply same_neg; [..|exact N]; reflexivity]. split; [apply flush_ok|apply flush_buffer, Hs].
  - apply (api_sound _ _ A S).
  - apply (run_sound g G fuel w j budget r n w' j' S E).
  - apply (step_sound g G w j S).
Qed.

(** ** Lookup *)

Lemma newest_none j pc ctx k : newest j pc ctx = None -> 0 <= k < g_block_count j -> in_use j k = true -> is_for (g_blocks j k) pc ctx = false.
Proof. intros E Hk Hu. unfold newest in E. apply find_none with (x := k) in E; [|apply in_down, Hk]. rewrite Hu in E. exact E. Qed.

Lemma find_newest (p : Z -> bool) n i : List.find p (down n) = Some i -> forall k, i < k < n -> p k = false.
Proof.
  destruct (Z.lt_ge_cases n 0); [destruct n; try lia; discriminate|]. revert i. pattern n. apply natlike_ind; [discriminate| |lia]. intros m Hm IH i E k Hk.
  unfold Z.succ in *. rewrite down_succ in E by lia. cbn [List.find] in E. destruct (p m) eqn:Em; [injection E as <-; lia|].
  destruct (Z.eq_dec k m) as [->|]; [exact Em|]. apply (IH i E). lia.
Qed.

(** [C9] A lookup is exact.  In every state the framework can come to --
    whatever was translated, chained, invalidated, evicted, moved or flushed
    before -- the hash answers with a block exactly where the table holds a
    live one for that pc and context, and then with the one translated last. *)
Theorem lookup_exact W j pc ctx : jit_reach W j ->
  match fst (lookup_block j pc ctx) with
  | Some i => made j i pc ctx /\ forall k, i < k < g_block_count j -> in_use j k = true -> is_for (g_blocks j k) pc ctx = false
  | None => forall k, 0 <= k < g_block_count j -> in_use j k = true -> is_for (g_blocks j k) pc ctx = false
  end.
Proof.
  intros R. destruct (reach_sound _ _ R) as [[T _] _]. destruct (lookup_block j pc ctx) as [r j'] eqn:E. destruct (lookup_ok _ _ _ _ _ E T) as [-> _]. cbn [fst].
  destruct (newest j pc ctx) as [i|] eqn:En; [|intros k; apply newest_none, En]. split; [apply newest_some, En|]. intros k Hk Hu. pose proof (find_newest _ _ _ En k Hk) as P. cbv beta in P. rewrite Hu in P. exact P.
Qed.

(** ** Invalidation *)

(** The block may hold the guest's byte at [a]. *)
Definition holds (b : jit_block) (a : Z) : Prop := guest_pc b <= a < guest_pc b + insns b * 4.

Lemma gone_holds j lo hi j' k a : table_ok j -> is_u32 lo -> is_u32 hi ->
  gone (overlap j (Z.shiftr lo JIT_PAGE_SHIFT) (Z.shiftr hi JIT_PAGE_SHIFT)) j j' -> 0 <= k < g_block_count j' -> in_use j' k = true ->
  lo <= a <= hi -> ~ holds (g_blocks j' k) a.
Proof.
  intros T Hl Hh G Hk Hu Ha H. rewrite (go_count _ _ _ G) in Hk. rewrite (go_use _ _ _ G k Hk) in Hu. apply andb_true_iff in Hu as [Hu Ho].
  unfold holds in H. destruct (go_code _ _ _ G k Hk) as (E1 & _ & E2). rewrite E1, E2 in H. unfold is_u32 in *.
  destruct (page_covers _ a (t_block _ T k Hk) H ltac:(unfold is_u32; lia)) as [P1 P2]. pose proof (page_of_mono lo a ltac:(lia)). pose proof (page_of_mono a hi ltac:(lia)).
  unfold overlap in Ho. rewrite Hu, (proj2 (Z.leb_le _ _)), (proj2 (Z.leb_le _ _)) in Ho by lia. discriminate.
Qed.

Lemma blank_seen j lo hi a key : neg_ok j -> is_u32 lo -> is_u32 hi -> lo <= a <= hi ->
  seen_of (j <| g_neg := fun k => let e := g_neg j k in
                 if (0 <=? k) && (k <? JIT_NEG_SIZE) && (n_pc e -! lo <=? hi - lo) then Neg (n_pc e) (n_context e) 0 else e |>) a key = 0.
Proof.
  intros [_ N1 _] Hl Hh Ha. unfold seen_of, seen_get. cbn. pose proof (neg_slot_range a (ctx_fold key)) as R. set (s := neg_slot a (ctx_fold key)) in *.
  rewrite (proj2 (Z.leb_le 0 s)), (proj2 (Z.ltb_lt s JIT_NEG_SIZE)) by lia. cbn [andb]. set (e := g_neg j s). unfold is_u32 in *.
  destruct (Z.leb_spec (n_pc e -! lo) (hi - lo)) as [|Hn]; cbn [n_tag n_pc n_context].
  - change (Z.shiftr 0 8) with 0. rewrite (proj2 (Z.eqb_neq 0 _)) by lia. reflexivity.
  - destruct (Z.eqb_spec (n_pc e) a) as [Ea|]; [|rewrite orb_true_r; reflexivity]. rewrite Ea, u32_id in Hn by (unfold is_u32; lia). lia.
Qed.

(** The two things an invalidation owes, and the one it may not do. *)
Lemma range_tables j lo hi : sound j -> is_u32 lo -> is_u32 hi -> lo <= hi ->
  let j1 := retire_pages host j (Z.shiftr lo JIT_PAGE_SHIFT) (Z.shiftr hi JIT_PAGE_SHIFT) in
  let j' := emu_jit_invalidate_range host j lo hi in
  same_table j1 j' /\ (forall a key, lo <= a <= hi -> seen_of j' a key = 0).
Proof.
  intros S Hl Hh H. cbv zeta. unfold emu_jit_invalidate_range. rewrite (proj2 (Z.ltb_ge hi lo)) by lia. cbv zeta. set (j1 := retire_pages _ _ _ _).
  pose proof (proj2 (proj2 (retire_pages_keeps host j (Z.shiftr lo JIT_PAGE_SHIFT) (Z.shiftr hi JIT_PAGE_SHIFT))) (proj2 S)) as N. fold j1 in N.
  destruct (_ <=? _); (split; [|intros a key Ha]).
  - apply neg_invalidate_same.
  - apply neg_invalidate_ok, N.
  - repeat split.
  - apply blank_seen; assumption.
Qed.

(** [C13] Invalidating a range of guest addresses forgets all that was made of
    them and, short of forgetting everything, nothing else.  Afterwards no
    lookup, for any pc and context, answers with a block that may hold an
    instruction byte of the range; no address of the range is remembered as
    refused; and unless the whole table was flushed every live block off the
    pages of the range is what it was. *)
Theorem invalidate_exact W j lo hi : jit_reach W j -> is_u32 lo -> is_u32 hi -> lo <= hi ->
  let j' := emu_jit_invalidate_range host j lo hi in
  (forall pc ctx i a, fst (lookup_block j' pc ctx) = Some i -> lo <= a <= hi -> ~ holds (g_blocks j' i) a) /\
  (forall a key, lo <= a <= hi -> seen_of j' a key = 0) /\
  (g_block_count j' = 0 \/
   forall k, 0 <= k < g_block_count j -> in_use j k = true ->
     block_page_hi (g_blocks j k) < Z.shiftr lo JIT_PAGE_SHIFT \/ Z.shiftr hi JIT_PAGE_SHIFT < block_page_lo (g_blocks j k) ->
     k < g_block_count j' /\ in_use j' k = true /\ alike (g_blocks j k) (g_blocks j' k)).
Proof.
  intros R Hl Hh H. cbv zeta. pose proof (reach_sound _ _ R) as S. destruct (range_tables j lo hi S Hl Hh H) as [Q Z]. pose proof (range_sound j lo hi Hl Hh S) as [[T' _] _].
  set (j' := emu_jit_invalidate_range host j lo hi) in *. pose proof (proj1 (proj1 S)) as T. pose proof (page_of_range lo Hl). pose proof (page_of_range hi Hh). pose proof (page_of_mono lo hi H).
  destruct (retire_pages_ok host j (Z.shiftr lo JIT_PAGE_SHIFT) (Z.shiftr hi JIT_PAGE_SHIFT) T ltac:(lia) ltac:(lia)) as [_ D].
  set (j1 := retire_pages _ _ _ _) in *. destruct Q as (Qb & Qc & _).
  assert (L : forall pc ctx i, fst (lookup_block j' pc ctx) = Some i -> 0 <= i < g_block_count j' /\ in_use j' i = true).
  { intros pc ctx i E. destruct (lookup_block j' pc ctx) as [r j2] eqn:E2. destruct (lookup_ok _ _ _ _ _ E2 T') as [Er _]. cbn [fst] in E. rewrite Er in E. destruct (newest_some _ _ _ _ E) as (? & ? & _). split; assumption. }
  split; [|split; [exact Z|]].
  - intros pc ctx i a E Ha. destruct (L _ _ _ E) as [Hi Hu]. destruct D as [[j0 D]|G].
    + rewrite Qc, D, (proj2 (flush_ok j0)) in Hi. lia.
    + rewrite Qb. apply (gone_holds j lo hi j1 i a T Hl Hh G); [rewrite <- Qc; exact Hi| |exact Ha]. unfold in_use in *. rewrite <- Qb. exact Hu.
  - destruct D as [[j0 D]|G]; [left; rewrite Qc, D; apply flush_ok|right]. intros k Hk Hu Off. unfold in_use in *. rewrite Qc, Qb, (go_count _ _ _ G).
    assert (O : overlap j (Z.shiftr lo JIT_PAGE_SHIFT) (Z.shiftr hi JIT_PAGE_SHIFT) k = false).
    { unfold overlap, in_use. rewrite Hu. cbn [andb]. apply andb_false_iff. destruct Off; [right|left]; apply Z.leb_gt; assumption. }
    split; [lia|]. pose proof (go_use _ _ _ G k Hk) as U. rewrite O in U. unfold in_use in U. rewrite Hu in U. split; [exact U|]. apply (go_alike _ _ _ G k Hk O).
Qed.

(** ** Compaction *)

(** [C17] Compaction keeps what it keeps, and keeps it apart.  Let the exits of
    every live block lie inside its code and apart from each other, and
    [patch_link] do what it is for.  Each block afterwards is one that was live
    before, with the same pc, context, length, instructions and layout and,
    outside its chained exits, byte for byte the code it had; every exit that
    was chained, or already went there, goes to that same block's own tail
    where it now lies, and none counts as chained -- so none of them still
    jumps where another block was; nothing that was retired comes back; and the
    blocks lie in the buffer aligned, in order, without overlap and below the
    part in use. *)
Theorem compact_sound W aims width j : jit_reach W j -> patch_laws host aims width ->
  (forall k, 0 <= k < g_block_count j -> in_use j k = true -> exits_ok width (g_blocks j k)) ->
  let j' := compact host j in
  (forall m, 0 <= m < g_block_count j' -> in_use j' m = true /\ no_links (g_blocks j' m) /\
     exists k, 0 <= k < g_block_count j /\ in_use j k = true /\ landed aims width j j' k m /\
       guest_pc (g_blocks j' m) = guest_pc (g_blocks j k) /\ context (g_blocks j' m) = context (g_blocks j k) /\
       len (g_blocks j' m) = len (g_blocks j k) /\ insns (g_blocks j' m) = insns (g_blocks j k)) /\
  (forall m, 0 <= m < g_block_count j' -> code_at j' m mod 4 = 0 /\ 0 <= code_at j' m /\ code_at j' m + len (g_blocks j' m) <= g_code_used j' <= g_code_size j) /\
  (forall m n, 0 <= m < n -> n < g_block_count j' -> code_at j' m + len (g_blocks j' m) <= code_at j' n).
Proof.
  intros R P X. cbv zeta. destruct (reach_sound _ _ R) as [[T B] _]. destruct (compact_ok host j T B) as [C1 C2 C3 C4]. pose proof (unlinked_quiet host j) as Q. set (j' := compact host j) in *.
  split; [|split].
  - intros m Hm. destruct (C4 m Hm) as (U & k & Hk & Hu & M). split; [exact U|].
    pose proof (moved_landed host aims width P j j' k m B ltac:(apply T) X Hk Hu M) as L.
    pose proof M as (M1 & M2 & M3 & M4 & M5 & _). destruct (q_block _ _ Q k) as ((A1 & A2 & _ & A4 & _) & _ & A6). split.
    + unfold no_links. rewrite (proj1 L). cbn. apply List.Forall_map, List.Forall_forall. reflexivity.
    + exists k. split; [exact Hk|]. split; [exact Hu|]. split; [exact L|]. repeat split; congruence.
  - intros m Hm. destruct (C4 m Hm) as [U _]. destruct (f_block _ C2 m Hm U) as (F1 & F2 & _ & F4). destruct (f_size _ C2) as [F5 _]. rewrite (proj1 C3) in F5. repeat split; try assumption. apply F5.
  - intros m n Hm Hn. apply (f_order _ C2); [exact Hm|exact Hn|apply C4; lia|apply C4; lia].
Qed.

(** ** Dispatch *)

Section Dispatch.
Context {W : Type}.
Variable g : jit_guest W.

(** Offset [c] of the buffer is where a live block for the guest's pc and
    context starts. *)
Definition entry_ok (w : W) (j : jit) (c : Z) : bool :=
  existsb (fun i => in_use j i && is_for (g_blocks j i) (gu_pc g w) (hot_context g w) && (code_at j i =? c)) (upto (g_block_count j)).

(** The same guest on a host that does something else at any other offset. *)
Definition guarded (trap : W -> jit -> Z -> Z * W * jit) : jit_guest W :=
  {| gu_pc := gu_pc g; gu_state := gu_state g; gu_generation := gu_generation g; gu_blocked := gu_blocked g; gu_context := gu_context g;
     gu_irq_pending := gu_irq_pending g; gu_bind := gu_bind g; gu_is_idle := gu_is_idle g; gu_wake := gu_wake g; gu_take_irq := gu_take_irq g;
     gu_irq_not_retired := gu_irq_not_retired g; gu_count := gu_count g; gu_interp := gu_interp g; gu_after_interp := gu_after_interp g;
     gu_translate := gu_translate g; gu_enter := fun w j c => if entry_ok w j c then gu_enter g w j c else trap w j c |}.

Variable trap : W -> jit -> Z -> Z * W * jit.
Hypothesis gok : guest_ok g.

Lemma made_entry w j i : made j i (gu_pc g w) (hot_context g w) -> entry_ok w j (code_at j i) = true.
Proof.
  intros (Hi & Hu & Hp & Hc). unfold entry_ok. apply existsb_exists. exists i. split; [apply in_upto, Hi|]. unfold is_for. rewrite Hu, Hp, Hc, !Z.eqb_refl. reflexivity.
Qed.

Lemma quiet_made j j' i pc ctx : quiet j j' -> made j i pc ctx -> made j' i pc ctx.
Proof.
  intros Q (Hi & Hu & Hp & Hc). destruct (q_block _ _ Q i) as ((A1 & A2 & _) & _). unfold made. rewrite (q_count _ _ Q), (quiet_use _ _ i Q), A1, A2. repeat split; try assumption; apply Hi.
Qed.

Lemma run_block_guarded w j done prev i : made j i (gu_pc g w) (hot_context g w) ->
  run_block host (guarded trap) w j done prev i = run_block host g w j done prev i.
Proof.
  intros M. unfold run_block. cbv zeta. cbn [gu_enter gu_count guarded]. set (j1 := link_exit host j prev i).
  assert (M1 : made j1 i (gu_pc g w) (hot_context g w)) by (apply (quiet_made j); [apply link_exit_quiet|exact M]).
  change (default 0 (code (g_blocks j1 i))) with (code_at j1 i). rewrite (made_entry w j1 i M1). reflexivity.
Qed.

Lemma to_jump_guarded n w j done budget total : to_jump (guarded trap) n w j done budget total = to_jump g n w j done budget total.
Proof. reflexivity. Qed.

Lemma thrash_guarded w j done budget : run_interp_to_jump (guarded trap) w j done budget = run_interp_to_jump g w j done budget.
Proof. unfold run_interp_to_jump. cbv zeta. rewrite to_jump_guarded. reflexivity. Qed.

Lemma missed_guarded w j done budget batch : sound j ->
  missed host (guarded trap) w j (gu_pc g w) (hot_context g w) done budget batch = missed host g w j (gu_pc g w) (hot_context g w) done budget batch.
Proof.
  intros S. unfold missed. cbv zeta. rewrite thrash_guarded. destruct (_ =? JIT_SEEN_THRASH); [reflexivity|]. destruct (_ =? JIT_SEEN_DECLINED); [reflexivity|].
  pose proof (heat_bump_sound j (gu_pc g w) (hot_context g w) S) as S1. destruct (heat_bump j (gu_pc g w) (hot_context g w)) as [hot j1]. cbn [snd] in S1. destruct (negb hot); [reflexivity|].
  cbn [gu_translate guarded].
  pose proof (jit_translate_ok host (gu_translate g) (gk_emits _ gok) j1 w (gu_pc g w) (hot_context g w) (proj1 S1) (gk_pc _ gok w)) as A.
  pose proof (translate_world (gu_translate g) (fun w' => gu_pc g w' = gu_pc g w /\ hot_context g w' = hot_context g w)) as X.
  specialize (X ltac:(intros w0 p b s l [X1 X2]; destruct (gk_still _ gok w0 p b s l) as [-> ->]; split; assumption) j1 w (gu_pc g w) (hot_context g w) (conj eq_refl eq_refl)). cbv beta in X.
  destruct (jit_translate _ _ _ _ _ _) as [[[i|] j2] w2]; [|reflexivity]. cbn [snd] in X. destruct X as [X1 X2]. apply run_block_guarded. rewrite X1, X2. destruct A as (_ & _ & A). apply A. reflexivity.
Qed.

Lemma dispatch_guarded w j done budget batch prev : sound j -> dispatch host (guarded trap) w j done budget batch prev = dispatch host g w j done budget batch prev.
Proof.
  intros S. unfold dispatch. cbn [gu_state guarded]. destruct (negb _); [reflexivity|]. change (poll_irq (guarded trap) w j) with (poll_irq g w j).
  pose proof (poll_sound g gok w j S) as S1. destruct (poll_irq g w j) as [[taken w1] j1]. cbn [snd] in S1. destruct taken; [reflexivity|].
  change (check_generation (guarded trap) w1 j1 prev) with (check_generation g w1 j1 prev). pose proof (generation_sound g w1 j1 prev S1) as S2. destruct (check_generation g w1 j1 prev) as [j2 prev2]. cbn [fst] in S2.
  cbn [gu_blocked gu_pc guarded]. change (hot_context (guarded trap) w1) with (hot_context g w1). cbv zeta. destruct (match gu_blocked g with Some f => f w1 | None => false end); [reflexivity|].
  destruct (lookup_block j2 (gu_pc g w1) (hot_context g w1)) as [b j3] eqn:E. destruct (lookup_ok _ _ _ _ _ E (proj1 (proj1 S2))) as [En Q]. pose proof (quiet_sound _ _ Q S2) as S3.
  destruct b as [i|]; [|apply missed_guarded, S3]. apply run_block_guarded, (quiet_made j2); [exact Q|apply newest_some; symmetry; exact En].
Qed.

Lemma loop_guarded fuel : forall w j done budget batch prev, sound j ->
  jit_loop host (guarded trap) fuel w j done budget batch prev = jit_loop host g fuel w j done budget batch prev.
Proof.
  induction fuel as [|fuel IH]; intros w j done budget batch prev S; [reflexivity|]. cbn [jit_loop]. destruct (_ <=? done); [reflexivity|]. rewrite dispatch_guarded by exact S.
  pose proof (dispatch_sound g gok w j done budget batch prev S) as S1. destruct (dispatch host g _ _ _ _ _ _) as [[t w1] j1]. destruct t; [reflexivity|]. apply IH, S1.
Qed.

(** [C4] The dispatcher enters the buffer only at the first byte of a live
    block, and one translated for the pc and the context the guest is at.
    Whatever a host would do when entered anywhere else -- in the middle of a
    block, in one that was retired, moved or overwritten, in one made for
    another context -- a run from any state the framework can come to is the
    same. *)
Theorem dispatch_safe fuel w j budget : jit_reach W j ->
  emu_jit_run host (guarded trap) fuel w j budget = emu_jit_run host g fuel w j budget.
Proof.
  intros R. pose proof (reach_sound _ _ R) as S. unfold emu_jit_run. destruct (negb (g_code j)); [reflexivity|]. cbv zeta. cbn [gu_bind gu_is_idle gu_wake guarded].
  pose proof (start_sound g gok w j S) as S1. destruct (gu_bind g w _) as [w1 j1]. cbn [snd] in S1. set (a := match gu_is_idle g with Some _ => _ | None => _ end). destruct a as [awake w2].
  destruct (negb awake); [reflexivity|]. apply loop_guarded, S1.
Qed.
End Dispatch.

(** ** The budget *)

Section Budget.
Context {W : Type}.
Variable g : jit_guest W.

Variable most : nat.
Variable nested : W -> nat.

(** What is asked of a guest retires something or stops.  Where a taken
    interrupt does not count as an instruction ([irq_not_retired]), only so
    many can be taken one on top of the other before an instruction runs:
    [nested] is how many more, [most] at most. *)
Record progresses : Prop := {
  pg_interp : forall w j n, 1 <= n -> let '(r, k, _, _) := gu_interp g w j n in 0 <= k <= 2 ^ 30 /\ (stops r = false -> 1 <= k);
  pg_enter : forall w j c, 0 <= fst (fst (gu_enter g w j c)) <= 2 ^ 30;
  pg_nested : forall w, (nested w <= most)%nat;
  pg_irq : gu_irq_not_retired g = true -> forall w j w' j', poll_irq g w j = (true, w', j') -> (nested w' < nested w)%nat
}.
Hypothesis pg : progresses.

(** What a turn owes the loop. *)
Definition forward (done : Z) (t : turn) : Prop :=
  match t with Leave r _ => stops r = true | Again d b _ => done < d < 2 ^ 32 /\ 0 <= b end.

Lemma interpreted_forward r done d batch : 0 <= batch -> d < 2 ^ 32 -> (stops r = false -> done < d) -> forward done (interpreted r d batch).
Proof. intros Hb Hd H. unfold interpreted. destruct (stops r) eqn:E; cbn; [exact E|]. specialize (H eq_refl). lia. Qed.

Lemma batch_forward w j done budget batch b : 0 <= done < budget -> budget <= 2 ^ 30 -> 0 <= batch -> 0 <= b ->
  forward done (fst (fst (let '(r, d, w, j) := run_interp_batch g w j done budget batch in (interpreted r d b, w, j)))).
Proof.
  intros Hd Hb Hk Hb'. unfold run_interp_batch. cbv zeta. rewrite (u32_id (budget - done)) by (unfold is_u32; lia). set (want := if batch <? budget - done then batch else budget - done).
  assert (Hw : 0 <= want) by (unfold want; destruct (_ <? _); lia). set (n := if want =? 0 then 1 else want). assert (Hn : 1 <= n) by (unfold n; destruct (Z.eqb_spec want 0); lia).
  pose proof (pg_interp pg w j n Hn) as P. destruct (gu_interp g w j n) as [[[r k] w1] j1]. destruct P as [P1 P2]. cbn [fst]. rewrite u32_id by (unfold is_u32; lia).
  apply interpreted_forward; [exact Hb'|lia|]. intros E. specialize (P2 E). lia.
Qed.

Lemma to_jump_forward fuel : forall w j done budget total, 0 <= total < JIT_THRASH_RUN_MAX -> (1 <= total \/ fuel <> O) ->
  let '(r, t, _, _) := to_jump g fuel w j done budget total in 0 <= t <= 256 + 2 ^ 30 /\ (stops r = false -> 1 <= t).
Proof.
  unfold JIT_THRASH_RUN_MAX. induction fuel as [|fuel IH]; intros w j done budget total Ht Hf; cbn [to_jump]; [split; [lia|intros _; destruct Hf; [lia|congruence]]|].
  pose proof (pg_interp pg w j 1 ltac:(lia)) as P. destruct (gu_interp g w j 1) as [[[r k] w1] j1]. destruct P as [P1 P2]. rewrite (u32_id (total + k)) by (unfold is_u32; lia). cbv zeta.
  destruct (stops r) eqn:Er; [cbn [orb]; split; [lia|congruence]|]. specialize (P2 eq_refl). cbn [orb]. rewrite (proj2 (Z.eqb_neq k 0)) by lia.
  destruct (_ || (JIT_THRASH_RUN_MAX <=? total + k)) eqn:Eo; [split; [lia|intros _; lia]|]. apply orb_false_iff in Eo as [_ Eo]. apply Z.leb_gt in Eo. unfold JIT_THRASH_RUN_MAX in Eo. apply IH; lia.
Qed.

Lemma thrash_forward w j done budget b : 0 <= done < budget -> budget <= 2 ^ 30 -> 0 <= b ->
  forward done (fst (fst (let '(r, d, w, j) := run_interp_to_jump g w j done budget in (interpreted r d b, w, j)))).
Proof.
  intros Hd Hb Hb'. unfold run_interp_to_jump. cbv zeta. set (j2 := if _ <=? _ then _ else _).
  assert (Hf : Z.to_nat JIT_THRASH_RUN_MAX <> O) by (unfold JIT_THRASH_RUN_MAX; lia). revert Hf. generalize (Z.to_nat JIT_THRASH_RUN_MAX) as fuel. intros fuel Hf.
  pose proof (to_jump_forward fuel w j2 done budget 0 ltac:(unfold JIT_THRASH_RUN_MAX; lia) (or_intror Hf)) as P.
  destruct (to_jump _ _ _ _ _ _ _) as [[[r t] w1] j1]. destruct P as [P1 P2]. cbn [fst]. rewrite u32_id by (unfold is_u32; lia). apply interpreted_forward; [exact Hb'|lia|]. intros E. specialize (P2 E). lia.
Qed.

Lemma run_block_forward w j done prev i : 0 <= done <= 2 ^ 30 -> forward done (fst (fst (run_block host g w j done prev i))).
Proof.
  intros Hd. unfold run_block. cbv zeta. set (j1 := link_exit host j prev i). pose proof (pg_enter pg w j1 (default 0 (code (g_blocks j1 i)))) as P.
  destruct (gu_enter g _ _ _) as [[n w1] j2]. cbn [fst] in *. cbn. destruct (Z.eqb_spec n 0); cbn [negb]; rewrite u32_id by (unfold is_u32; lia); lia.
Qed.

Lemma doubled_pos b : 0 <= b -> 0 <= doubled b.
Proof. intros H. unfold doubled. destruct (_ <? _); [apply Z.mod_pos_bound; lia|exact H]. Qed.

Lemma dispatch_forward w j done budget batch prev : 0 <= done < budget -> budget <= 2 ^ 30 -> 0 <= batch ->
  let d := dispatch host g w j done budget batch prev in
  forward done (fst (fst d)) \/ (nested (snd (fst d)) < nested w)%nat /\ fst (fst d) = Again done batch prev.
Proof.
  intros Hd Hb Hk. cbv zeta. unfold dispatch. destruct (negb _); [left; cbn; destruct (_ =? EMU_STATE_HALTED); reflexivity|]. destruct (poll_irq g w j) as [[taken w1] j1] eqn:Ep. destruct taken.
  { destruct (gu_irq_not_retired g) eqn:En; [right; split; [exact (pg_irq pg En _ _ _ _ Ep)|reflexivity]|]. left. cbn. rewrite u32_id by (unfold is_u32; lia). lia. }
  left.
  destruct (check_generation g w1 j1 prev) as [j2 prev2]. pose proof (doubled_pos batch Hk) as Hk2. cbv zeta.
  destruct (match gu_blocked g with Some f => f w1 | None => false end); [apply batch_forward; assumption|].
  destruct (lookup_block _ _ _) as [[i|] j3]; [apply run_block_forward; lia|]. unfold missed. cbv zeta.
  destruct (_ =? JIT_SEEN_THRASH); [apply thrash_forward; assumption|]. destruct (_ =? JIT_SEEN_DECLINED); [apply batch_forward; assumption|].
  destruct (heat_bump _ _ _) as [hot j4]. destruct (negb hot); [apply batch_forward; try assumption; lia|]. destruct (jit_translate _ _ _ _ _ _) as [[[i|] j5] w5]; [apply run_block_forward; lia|apply batch_forward; assumption].
Qed.

Lemma loop_returns budget : budget <= 2 ^ 30 -> forall fuel w j done batch prev, 0 <= done < 2 ^ 32 -> 0 <= batch ->
  (Z.to_nat (budget - done) * S most + nested w < fuel)%nat ->
  exists r n w' j', jit_loop host g fuel w j done budget batch prev = Some (r, n, w', j') /\ (stops r = false -> budget <= n).
Proof.
  intros Hb. induction fuel as [|fuel IH]; intros w j done batch prev Hd Hk Hf; [lia|]. cbn [jit_loop]. destruct (Z.leb_spec budget done) as [H|H]; [repeat eexists; intros _; exact H|].
  pose proof (dispatch_forward w j done budget batch prev ltac:(lia) Hb Hk) as F. destruct (dispatch _ _ _ _ _ _ _ _) as [[t w1] j1]. cbn [fst snd] in F. destruct F as [F|[F ->]]; [|apply IH; lia].
  destruct t as [r d|d b p]; cbn [forward] in F.
  - repeat eexists. rewrite F. discriminate.
  - apply IH; [lia|lia|]. pose proof (pg_nested pg w1). assert (Hx : (S (Z.to_nat (budget - d)) <= Z.to_nat (budget - done) \/ Z.to_nat (budget - d) = 0)%nat) by lia.
    destruct Hx as [Hx|Hx]; [nia|rewrite Hx]. assert (1 <= Z.to_nat (budget - done))%nat by lia. nia.
Qed.

(** [C16] A run returns.  Take a guest whose interpreter retires something
    whenever it does not stop, whatever the blocks retire -- also those that
    trap at once and retire nothing.  If its frontend counts a taken interrupt
    as an instruction, [emu_jit_run] is back after at most as many turns of its
    loop as its budget (of 2^30 at most) has instructions, with the budget
    spent unless the guest waits or has halted.  If it does not count them, so
    long as at most [most] interrupts can be taken one on top of the other
    with no instruction between -- which priorities bound, and without which a
    source that is never acknowledged keeps the loop for ever -- it is back
    after at most [most + 1] times as many. *)
Theorem jit_run_returns w j budget : g_code j = true -> 0 <= budget <= 2 ^ 30 ->
  exists r n w' j', emu_jit_run host g (S (Z.to_nat budget) * S most) w j budget = Some (r, n, w', j') /\ (stops r = false -> budget <= n).
Proof.
  intros Hc Hb. unfold emu_jit_run. rewrite Hc. cbn [negb]. cbv zeta. destruct (gu_bind g w _) as [w1 j1]. set (a := match gu_is_idle g with Some _ => _ | None => _ end). destruct a as [awake w2].
  destruct (negb awake); [repeat eexists; discriminate|]. apply loop_returns; [lia|lia|lia|]. pose proof (pg_nested pg w2). rewrite Z.sub_0_r. nia.
Qed.
End Budget.
End Sound.
