(* ===== verification/JitDemo.v ===== *)
(** * A guest under the JIT framework

    Four instructions in a loop, a page apart, translated one by one into eight bytes each,
    in a buffer of 1 KB: the witnesses of the theorems on the framework.  A
    second guest, with an interrupt, shows an exit chained into a block made
    for another context. *)

From stdpp Require Import base list relations.
From Stdlib Require Import ZArith Lia.
From S2P Require Import Prelude RvHart RvTrap RvInterp Jit JitIndex JitRetire JitBuffer JitRun JitProps.

Open Scope Z_scope.
Open Scope u32_scope.

#[local] Existing Instance thumb2_jit.

(** The guest: where it is, and in which context. *)
Definition spin := (Z * Z)%type.
Definition spin_pc (w : spin) : Z := u32 (fst w).
Definition spin_next (w : spin) : spin := (4096 + spin_pc w mod 16384, snd w).

(** A one-byte mark where the host would write a jump: how far it goes. *)
Definition mark (bytes : Z -> Z) (at_ target : Z) : Z -> Z := upd bytes at_ (target - at_).
Definition goes (bytes : Z -> Z) (at_ target : Z) : Prop := at_ + bytes at_ = target.
Definition demo_host : emu_jit_host := JitHost (Some mark) (Some mark) 4 true.

Definition spin_translate (w : spin) (pc : Z) (bytes : Z -> Z) (start limit : Z) : emitted spin :=
  if limit <? start + 8 then Emitted 0 start true (Layout 0 0 [] false) bytes w
  else Emitted 1 (start + 8) false (Layout 0 8 [Link (fst (spin_next (pc, 0))) 2 false] true) (upd bytes start pc) w.

Definition spin_guest : jit_guest spin := {|
  gu_pc := spin_pc; gu_state := fun _ => EMU_STATE_RUNNING; gu_generation := None; gu_blocked := None; gu_context := Some snd; gu_irq_pending := None;
  gu_bind := fun w j => (w, j); gu_is_idle := None; gu_wake := fun w => (true, w); gu_take_irq := None; gu_irq_not_retired := false; gu_count := None;
  gu_interp := fun w j n => (EMU_RUN_BUDGET, 1, spin_next w, j); gu_after_interp := None; gu_translate := spin_translate;
  gu_enter := fun w j c => (1, spin_next w, j) |}.

Lemma spin_ok : guest_ok demo_host spin_guest.
Proof.
  split; cbn; try (intros; apply rtc_refl); try discriminate.
  - intros w. apply u32_range.
  - intros w pc bytes start limit H. cbv zeta. unfold spin_translate. destruct (Z.ltb_spec limit (start + 8)); cbn; [discriminate|]. intros _. split; [lia|].
    intros o Ho. unfold upd. rewrite (proj2 (Z.eqb_neq o start)) by lia. reflexivity.
  - intros w pc bytes start limit. unfold spin_translate. destruct (_ <? _); split; reflexivity.
Qed.

Lemma spin_progresses : progresses spin_guest 0 (fun _ => O).
Proof. split; cbn; intros; [split; lia|lia|lia|discriminate]. Qed.

Lemma boot_neg : neg_ok jit_boot.
Proof. split; cbn; [unfold EMU_JIT_HOT_THRESHOLD|unfold JIT_SEEN_EPOCH_MAX|intros k _; change (Z.shiftr 0 8) with 0]; lia. Qed.

(** A fresh buffer, and what twenty instructions leave. *)
Definition spin_start : jit := emu_jit_set_buffer jit_boot (fun _ => 0) 1024.
Definition spin_ran : jit := match emu_jit_run demo_host spin_guest 32 (4096, 0) spin_start 20 with Some (_, _, _, j) => j | None => spin_start end.

Lemma spin_start_reach : jit_reach demo_host spin spin_start.
Proof. apply reach_buffer; [exact boot_neg|]. split; [lia|reflexivity]. Qed.

Lemma spin_ran_reach : jit_reach demo_host spin spin_ran.
Proof.
  assert (N : match emu_jit_run demo_host spin_guest 32 (4096, 0) spin_start 20 with Some _ => true | None => false end = true) by (vm_compute; reflexivity).
  unfold spin_ran. destruct (emu_jit_run _ _ _ _ _ _) as [[[[r n] w] j]|] eqn:E; [|discriminate].
  exact (reach_run demo_host spin spin_guest 32 (4096, 0) spin_start 20 r n w j spin_ok spin_start_reach E).
Qed.

(** Four blocks, chained in a ring. *)
Lemma spin_ring : g_block_count spin_ran = 4 /\
  map (fun i => map (fun k => (target_pc k, linked k)) (link (layout (g_blocks spin_ran i)))) (upto 4) = [[(8192, true)]; [(12288, true)]; [(16384, true)]; [(4096, true)]].
Proof. vm_compute. split; reflexivity. Qed.

Lemma lookup_exact_witness :
  fst (lookup_block spin_ran 12288 0) = Some 2 /\ made spin_ran 2 12288 0 /\ fst (lookup_block spin_ran 12288 1) = None.
Proof.
  assert (E : fst (lookup_block spin_ran 12288 0) = Some 2) by (vm_compute; reflexivity).
  split; [exact E|]. split; [|vm_compute; reflexivity]. pose proof (lookup_exact demo_host spin spin_ran 12288 0 spin_ran_reach) as H. rewrite E in H. exact (proj1 H).
Defined.

(** Without the block of the second page. *)
Definition spin_cut : jit := emu_jit_invalidate_range demo_host spin_ran 8192 8195.

Lemma invalidate_exact_witness :
  fst (lookup_block spin_cut 8192 0) = None /\ fst (lookup_block spin_cut 12288 0) = Some 2 /\ (forall key, seen_of spin_cut 8192 key = 0).
Proof.
  split; [vm_compute; reflexivity|]. split; [vm_compute; reflexivity|]. intros key.
  apply (proj1 (proj2 (invalidate_exact demo_host spin spin_ran 8192 8195 spin_ran_reach ltac:(unfold is_u32; lia) ltac:(unfold is_u32; lia) ltac:(lia)))). lia.
Defined.

Lemma spin_cut_reach : jit_reach demo_host spin spin_cut.
Proof. eapply reach_api; [exact spin_ran_reach|]. apply api_range; unfold is_u32; lia. Qed.

(** The last two blocks have moved down by one. *)
Lemma spin_moved : map (fun i => (code_at spin_cut i, code_at (compact demo_host spin_cut) i, guest_pc (g_blocks (compact demo_host spin_cut) i))) (upto 3) =
  [(0, 0, 4096); (0, 8, 12288); (16, 16, 16384)].
Proof. vm_compute. reflexivity. Qed.

Lemma demo_patches : patch_laws demo_host goes 1.
Proof.
  split; [lia| |].
  - exists mark. split; [reflexivity|]. unfold mark, goes. split; [intros; rewrite upd_eq; lia|intros bytes at_ t o Ho; apply upd_ne; lia].
  - unfold goes. intros bytes bytes' at_ at' t E H. specialize (H 0 ltac:(lia)). rewrite !Z.add_0_r in H. lia.
Qed.

Lemma spin_exits k : 0 <= k < g_block_count spin_cut -> in_use spin_cut k = true -> exits_ok 1 (g_blocks spin_cut k).
Proof.
  assert (A : forallb (fun k => match link (layout (g_blocks spin_cut k)) with [e] => (site e =? 2) && (len (g_blocks spin_cut k) =? 8) && (tail (layout (g_blocks spin_cut k)) =? 8) | _ => false end)
    (upto (g_block_count spin_cut)) = true) by (vm_compute; reflexivity).
  intros Hk _. rewrite forallb_forall in A. specialize (A k (proj2 (in_upto _ _) Hk)). unfold exits_ok.
  destruct (link (layout (g_blocks spin_cut k))) as [|e [|]]; try discriminate. bool_hyps.
  split; [intros x [<-|[]]; lia|]. split; [lia|]. repeat constructor.
Qed.

(** The block at 12288, whose exit went to where the next one was and now goes
    to its own tail, eight bytes lower. *)
Lemma compact_sound_witness :
  g_block_count (compact demo_host spin_cut) = 3 /\ no_links (g_blocks (compact demo_host spin_cut) 1) /\
  exists k, in_use spin_cut k = true /\ landed goes 1 spin_cut (compact demo_host spin_cut) k 1.
Proof.
  assert (E : g_block_count (compact demo_host spin_cut) = 3) by (vm_compute; reflexivity). split; [exact E|].
  destruct (proj1 (compact_sound demo_host spin goes 1 spin_cut spin_cut_reach demo_patches spin_exits) 1) as (_ & N & k & _ & U & L & _); [rewrite E; lia|].
  split; [exact N|]. exists k. split; assumption.
Defined.

Example spin_exit_moved :
  goes (g_bytes spin_cut) (16 + 2) 24 /\ goes (g_bytes (compact demo_host spin_cut)) (8 + 2) (8 + 8).
Proof. vm_compute. split; reflexivity. Qed.

Lemma dispatch_safe_witness :
  emu_jit_run demo_host (guarded spin_guest (fun w j c => (1, (0, 7), j))) 16 (4096, 0) spin_ran 10 = emu_jit_run demo_host spin_guest 16 (4096, 0) spin_ran 10.
Proof. apply (dispatch_safe demo_host spin_guest (fun w j c => (1, (0, 7), j)) spin_ok 16 (4096, 0) spin_ran 10 spin_ran_reach). Defined.

(** ** An exit chained across contexts *)

(** Where it is, its context, and whether an interrupt is pending.  At 4096, in
    context 0, one instruction with a branch to 8192 that is not taken; an
    interrupt enters its handler at 8192 in context 1, which returns. *)
Definition user := (Z * Z * bool)%type.

Definition user_next (w : user) : user := let '(pc, ctx, p) := w in if ctx =? 0 then (4096, 0, true) else (4096, 0, false).

Definition user_translate (w : user) (pc : Z) (bytes : Z -> Z) (start limit : Z) : emitted user :=
  Emitted 1 (start + 8) false (Layout 0 8 (if pc =? 4096 then [Link 8192 2 false] else []) true) (upd bytes start pc) w.

Definition user_guest : jit_guest user := {|
  gu_pc := fun w => u32 (fst (fst w)); gu_state := fun _ => EMU_STATE_RUNNING; gu_generation := None; gu_blocked := None; gu_context := Some (fun w => snd (fst w));
  gu_irq_pending := Some snd; gu_bind := fun w j => (w, j); gu_is_idle := None; gu_wake := fun w => (true, w);
  gu_take_irq := Some (fun w j => (true, (8192, 1, false), j)); gu_irq_not_retired := false; gu_count := None;
  gu_interp := fun w j n => (EMU_RUN_BUDGET, 1, user_next w, j); gu_after_interp := None; gu_translate := user_translate;
  gu_enter := fun w j c => (1, user_next w, j) |}.

(** The branch of the block of context 0 goes straight to the handler's, which
    was made for context 1; no block was made for 8192 in context 0. *)
Example chained_across_contexts :
  match emu_jit_run demo_host user_guest 32 (4096, 0, false) spin_start 12 with
  | Some (_, _, _, j) =>
      fst (lookup_block j 4096 0) = Some 0 /\ link (layout (g_blocks j 0)) = [Link 8192 2 true] /\ 2 + g_bytes j 2 = code_at j 1 /\
      guest_pc (g_blocks j 1) = 8192 /\ context (g_blocks j 1) = 1 /\ fst (lookup_block j 8192 0) = None
  | None => False
  end.
Proof. vm_compute. repeat split; reflexivity. Qed.

(** ** Interrupts that do not count *)

(** The same guest with a frontend that does not count a taken interrupt: one
    at a time can be taken, since taking it acknowledges it. *)
Definition uncounted : jit_guest user := {|
  gu_pc := gu_pc user_guest; gu_state := gu_state user_guest; gu_generation := None; gu_blocked := None; gu_context := gu_context user_guest;
  gu_irq_pending := gu_irq_pending user_guest; gu_bind := gu_bind user_guest; gu_is_idle := None; gu_wake := gu_wake user_guest;
  gu_take_irq := gu_take_irq user_guest; gu_irq_not_retired := true; gu_count := None;
  gu_interp := gu_interp user_guest; gu_after_interp := None; gu_translate := user_translate; gu_enter := gu_enter user_guest |}.

Lemma uncounted_progresses : progresses uncounted 1 (fun w => if snd w then 1%nat else 0%nat).
Proof.
  split; cbn; intros; [split; lia|lia|destruct (snd w); lia|]. unfold poll_irq in *. cbn in *. destruct (snd w); [|discriminate].
  match goal with H : (_, _, _) = _ |- _ => injection H as <- <- end. cbn. lia.
Qed.

Lemma jit_run_returns_witness :
  (exists r n w' j', emu_jit_run demo_host spin_guest (S (Z.to_nat 10) * 1) (4096, 0) spin_ran 10 = Some (r, n, w', j') /\ (stops r = false -> 10 <= n)) /\
  (exists r n w' j', emu_jit_run demo_host uncounted (S (Z.to_nat 10) * 2) (4096, 0, false) spin_start 10 = Some (r, n, w', j') /\ (stops r = false -> 10 <= n)).
Proof.
  split.
  - apply (jit_run_returns demo_host spin_guest 0 (fun _ => O) spin_progresses (4096, 0) spin_ran 10); [vm_compute; reflexivity|lia].
  - apply (jit_run_returns demo_host uncounted 1 _ uncounted_progresses (4096, 0, false) spin_start 10); [vm_compute; reflexivity|lia].
Defined.

(** Taking fifteen turns for ten instructions: the interrupts are beside them. *)
Example uncounted_turns :
  emu_jit_run demo_host uncounted 11 (4096, 0, false) spin_start 10 = None /\
  match emu_jit_run demo_host uncounted 22 (4096, 0, false) spin_start 10 with Some (_, n, _, _) => n | None => 0 end = 10.
Proof. vm_compute. split; reflexivity. Qed.
