(* ===== verification/Gdb.v ===== *)
(** * The debugger stub

    [src/emu/emu_gdb.c], [include/emu/emu_gdb.h]: the remote protocol of gdb,
    its framing, its commands and run control.  The target, the core it runs
    on and the flash are parameters that act on the machine [W]; every target
    has a [pc_get].  The receive buffer is a map from offsets to bytes, as
    large as the array, so that a command that reads past its packet reads
    what an earlier one left.  What is sent is appended to [sent]. *)

From stdpp Require Import base list.
From Stdlib Require Import ZArith Lia String Ascii.
From S2P Require Import Prelude RvHart RvInterp.

Open Scope Z_scope.
Open Scope u32_scope.

Definition EMU_GDB_MAX_PACKET : Z := 1024.
Definition EMU_GDB_MAX_BREAK : Z := 16.
Definition EMU_GDB_BREAK_WINDOW : Z := 4096.
Definition EMU_GDB_MAP_BYTES : Z := 2560.

(** The bytes of a literal. *)
Definition str (s : string) : list Z := map (fun c => Z.of_nat (nat_of_ascii c)) (list_ascii_of_string s).
Definition chr (s : string) : Z := match str s with c :: _ => c | [] => 0 end.

(** ** Hex *)

Definition hex_digit (v : Z) : Z := if v <? 10 then chr "0" + v else chr "a" + (v - 10).
Definition hex_val (c : Z) : Z :=
  if (chr "0" <=? c) && (c <=? chr "9") then c - chr "0"
  else if (chr "a" <=? c) && (c <=? chr "f") then 10 + (c - chr "a")
  else if (chr "A" <=? c) && (c <=? chr "F") then 10 + (c - chr "A")
  else -1.

(** [&s[k]]. *)
Definition from (s : Z -> Z) (k : Z) : Z -> Z := fun i => s (k + i).

Fixpoint hex_from (n : nat) (s : Z -> Z) (i v : Z) : Z * Z :=
  match n with
  | O => (v, i)
  | S n => let d := hex_val (s i) in if d <? 0 then (v, i) else hex_from n s (i + 1) ((v <<! 4) |! d)
  end.
(** The value and the characters used. *)
Definition hex_to_u32 (s : Z -> Z) (len : Z) : Z * Z := hex_from (Z.to_nat len) s 0 0.

(** ** Data *)

Inductive gdb_rx_state := EMU_GDB_WAIT | EMU_GDB_BODY | EMU_GDB_SUM.

Record emu_gdb_break := Break { b_addr : Z; b_len : Z; b_used : bool }.

Record emu_gdb := Gdb {
  rx : Z -> Z; rx_len : Z; sum0 : Z; sum_len : Z; raw_sum : Z; rx_state : gdb_rx_state; escaped : bool;
  attached : bool; halted : bool; stepping : bool; ack_mode : bool; unchained : bool;
  has_flash : bool; flash_touched : bool; brk : Z -> emu_gdb_break; sent : list Z
}.
#[export] Instance emu_gdb_eta : Eta emu_gdb := fun g =>
  Gdb (rx g) (rx_len g) (sum0 g) (sum_len g) (raw_sum g) (rx_state g) (escaped g) (attached g) (halted g) (stepping g) (ack_mode g) (unchained g)
    (has_flash g) (flash_touched g) (brk g) (sent g).
#[export] Instance set_rx : Setter rx := ltac:(solve_setter).
#[export] Instance set_rx_len : Setter rx_len := ltac:(solve_setter).
#[export] Instance set_sum0 : Setter sum0 := ltac:(solve_setter).
#[export] Instance set_sum_len : Setter sum_len := ltac:(solve_setter).
#[export] Instance set_raw_sum : Setter raw_sum := ltac:(solve_setter).
#[export] Instance set_rx_state : Setter rx_state := ltac:(solve_setter).
#[export] Instance set_escaped : Setter escaped := ltac:(solve_setter).
#[export] Instance set_attached : Setter attached := ltac:(solve_setter).
#[export] Instance set_halted : Setter halted := ltac:(solve_setter).
#[export] Instance set_stepping : Setter stepping := ltac:(solve_setter).
#[export] Instance set_ack_mode : Setter ack_mode := ltac:(solve_setter).
#[export] Instance set_unchained : Setter unchained := ltac:(solve_setter).
#[export] Instance set_has_flash : Setter has_flash := ltac:(solve_setter).
#[export] Instance set_flash_touched : Setter flash_touched := ltac:(solve_setter).
#[export] Instance set_brk : Setter brk := ltac:(solve_setter).
#[export] Instance set_sent : Setter sent := ltac:(solve_setter).

Record emu_gdb_target (W : Type) := GdbTarget {
  nregs : Z; reg_bytes : Z; reg_width_table : option (Z -> Z); pc_regno : Z;
  reg_get : W -> Z -> Z; reg_set : W -> Z -> Z -> W; pc_get : W -> Z; pc_set : option (W -> Z -> W);
  stop_signal : Z; target_xml : option (list Z)
}.
Arguments nregs {W}. Arguments reg_bytes {W}. Arguments reg_width_table {W}. Arguments pc_regno {W}. Arguments reg_get {W}. Arguments reg_set {W}.
Arguments pc_get {W}. Arguments pc_set {W}. Arguments stop_signal {W}. Arguments target_xml {W}.

(** What the stub uses of [emu_core_t], its bus and its backend. *)
Record gdb_core (W : Type) := GdbCore {
  c_big_endian : W -> bool;
  c_regions : W -> list (Z * Z * bool);
  c_read : W -> Z -> option Z * W;
  c_write : W -> Z -> Z -> bool * W;
  c_invalidate : option (W -> Z -> Z -> W);
  c_step : W -> emu_run_reason * W;
  c_run : W -> Z -> emu_run_reason * Z * W;
  c_unchain : W -> W
}.
Arguments c_big_endian {W}. Arguments c_regions {W}. Arguments c_read {W}. Arguments c_write {W}. Arguments c_invalidate {W}. Arguments c_step {W}.
Arguments c_run {W}. Arguments c_unchain {W}.

Record emu_gdb_flash_ops (W : Type) := GdbFlash {
  f_erase : W -> Z -> Z -> bool * W; f_write : W -> Z -> list Z -> bool * W; f_done : W -> bool * W; f_base : Z; f_size : option (W -> Z)
}.
Arguments f_erase {W}. Arguments f_write {W}. Arguments f_done {W}. Arguments f_base {W}. Arguments f_size {W}.

Section Gdb.
Context {W : Type}.
Variable target : emu_gdb_target W.
Variable core : gdb_core W.
Variable flash : emu_gdb_flash_ops W.

(** ** Registers *)

Definition reg_width (r : Z) : Z := match reg_width_table target with Some t => t r | None => reg_bytes target end.

Definition hex_byte (b : Z) : list Z := [hex_digit (Z.shiftr b 4); hex_digit (b &! 15)].

(** Which byte of the value the [b]th of the packet is. *)
Definition reg_byte (big : bool) (bytes b : Z) : Z := if big then bytes - 1 - b else b.
Definition put_reg_hex (big : bool) (r v : Z) : list Z :=
  let bytes := reg_width r in
  List.concat (map (fun b => hex_byte (u8 (Z.shiftr v (8 * reg_byte big bytes (Z.of_nat b))))) (seq 0 (Z.to_nat bytes))).

Fixpoint get_bytes (n : nat) (big : bool) (bytes b : Z) (src : Z -> Z) (v : Z) : Z :=
  match n with
  | O => v
  | S n =>
      let hi := hex_val (src (2 * b)) in
      let lo := hex_val (src (2 * b + 1)) in
      if (hi <? 0) || (lo <? 0) then v
      else get_bytes n big bytes (b + 1) src (v |! Z.shiftl (Z.shiftl hi 4 |! lo) (8 * reg_byte big bytes b))
  end.
Definition get_reg_hex (big : bool) (r : Z) (src : Z -> Z) : Z := get_bytes (Z.to_nat (reg_width r)) big (reg_width r) 0 src 0.

(** ** Sending *)

Definition tx_raw (g : emu_gdb) (s : list Z) : emu_gdb := g <| sent := sent g ++ s |>.
Definition body_sum (l : list Z) : Z := fold_left (fun s c => u8 (s + c)) l 0.
Definition send_packet (g : emu_gdb) (body : list Z) : emu_gdb :=
  let body := take (Z.to_nat EMU_GDB_MAX_PACKET) body in
  tx_raw g (str "$" ++ body ++ str "#" ++ hex_byte (body_sum body)).
Definition send_str (g : emu_gdb) (s : string) : emu_gdb := send_packet g (str s).
Definition send_ok (g : emu_gdb) : emu_gdb := send_str g "OK".
Definition send_empty (g : emu_gdb) : emu_gdb := send_packet g [].
Definition send_err (g : emu_gdb) (code : Z) : emu_gdb := send_packet g (str "E" ++ hex_byte (u8 code)).

Definition send_stop (g : emu_gdb) (w : W) (sig : Z) : emu_gdb :=
  let pcno := pc_regno target in
  send_packet g (str "T" ++ hex_byte (u8 sig) ++
    (if pcno <? nregs target then
       (if 16 <=? pcno then [hex_digit (Z.shiftr pcno 4 &! 15)] else []) ++ [hex_digit (pcno &! 15)] ++ str ":" ++
       put_reg_hex (c_big_endian core w) pcno (pc_get target w) ++ str ";"
     else [])).

(** ** Breakpoints *)

Definition break_ixs : list Z := map Z.of_nat (seq 0 (Z.to_nat EMU_GDB_MAX_BREAK)).
Definition break_find (g : emu_gdb) (addr : Z) : option Z := List.find (fun i => b_used (brk g i) && (b_addr (brk g i) =? addr)) break_ixs.
Definition break_add (g : emu_gdb) (addr kind : Z) : bool * emu_gdb :=
  match break_find g addr with
  | Some _ => (true, g)
  | None =>
      match List.find (fun i => negb (b_used (brk g i))) break_ixs with
      | Some i => (true, g <| brk := upd (brk g) i (Break addr kind true) |>)
      | None => (false, g)
      end
  end.
Definition break_del (g : emu_gdb) (addr : Z) : emu_gdb :=
  match break_find g addr with
  | Some i => g <| brk := upd (brk g) i (Break (b_addr (brk g i)) (b_len (brk g i)) false) |>
  | None => g
  end.
Definition break_near (g : emu_gdb) (pc : Z) : bool :=
  existsb (fun i => b_used (brk g i) && (pc <=? b_addr (brk g i)) && (b_addr (brk g i) - pc <? EMU_GDB_BREAK_WINDOW)) break_ixs.
Definition break_any (g : emu_gdb) : bool := existsb (fun i => b_used (brk g i)) break_ixs.

(** ** Memory *)

Fixpoint mem_read (n : nat) (w : W) (addr : Z) (hexout : list Z) : option (list Z) * W :=
  match n with
  | O => (Some hexout, w)
  | S n =>
      let '(v, w) := c_read core w addr in
      match v with None => (None, w) | Some v => mem_read n w (addr +! 1) (hexout ++ hex_byte (u8 v)) end
  end.

Fixpoint mem_write_loop (n : nat) (w : W) (addr i : Z) (hexin : Z -> Z) : bool * W :=
  match n with
  | O => (true, w)
  | S n =>
      let hi := hex_val (hexin (2 * i)) in
      let lo := hex_val (hexin (2 * i + 1)) in
      if (hi <? 0) || (lo <? 0) then (false, w)
      else
        let '(ok, w) := c_write core w (addr +! i) (Z.shiftl hi 4 |! lo) in
        if ok then mem_write_loop n w addr (i + 1) hexin else (false, w)
  end.
Definition invalidate (w : W) (addr len : Z) : W := match c_invalidate core with Some f => f w addr len | None => w end.
Definition mem_write (w : W) (addr len : Z) (hexin : Z -> Z) : bool * W :=
  let '(ok, w) := mem_write_loop (Z.to_nat len) w addr 0 hexin in
  if ok then (true, invalidate w addr len) else (false, w).

(** ** The memory map *)

Definition quote : list Z := [34].
Definition map_put (m s : list Z) : list Z := take (Z.to_nat (EMU_GDB_MAP_BYTES - 1)) (m ++ s).
Definition map_hex (m : list Z) (v : Z) : list Z :=
  map_put m (str "0x" ++ map (fun i => hex_digit (Z.shiftr v (28 - 4 * Z.of_nat i) &! 15)) (seq 0 8)).
Definition map_entry (m : list Z) (type : string) (base len : Z) (fl : bool) : list Z :=
  let m := map_put m (str "<memory type=" ++ quote) in
  let m := map_put m (str type) in
  let m := map_put m (quote ++ str " start=" ++ quote) in
  let m := map_hex m base in
  let m := map_put m (quote ++ str " length=" ++ quote) in
  let m := map_hex m len in
  if fl then map_put m (quote ++ str "><property name=" ++ quote ++ str "blocksize" ++ quote ++ str ">0x1000</property></memory>")
  else map_put m (quote ++ str "/>").

Definition map_close : list Z := str "</memory-map>".

(** The region with the lowest base above [last], if any. *)
Definition map_best (rs : list (Z * Z * bool)) (first : bool) (last : Z) : option (Z * Z * bool) :=
  fold_left (fun best r =>
      let '(base, size, rom) := r in
      if (size =? 0) || (negb first && (base <=? last)) then best
      else match best with None => Some r | Some (b0, _, _) => if base <? b0 then Some r else best end)
    rs None.

Fixpoint map_loop (fuel : nat) (rs : list (Z * Z * bool)) (fbase fsize : Z) (flash_done first : bool) (last : Z) (m : list Z) : list Z :=
  match fuel with
  | O => m
  | S fuel =>
      let best := map_best rs first last in
      let room k := Z.of_nat (List.length m) + k + (Z.of_nat (List.length map_close) + 1) <? EMU_GDB_MAP_BYTES in
      let wants := negb flash_done && match best with None => true | Some (b, _, _) => fbase <=? b end in
      if wants && negb (room 160) then m
      else
        let m := if wants then map_entry m "flash" fbase fsize true else m in
        match best with
        | None => m
        | Some (b, s, rom) =>
            if negb (fsize =? 0) && (b <? fbase +! fsize) && (fbase <? b +! s) then map_loop fuel rs fbase fsize (flash_done || wants) false b m
            else if EMU_GDB_MAP_BYTES <=? Z.of_nat (List.length m) + 100 + (Z.of_nat (List.length map_close) + 1) then m
            else map_loop fuel rs fbase fsize (flash_done || wants) false b (map_entry m (if rom then "rom" else "ram") b s false)
        end
  end.

Definition build_memory_map (g : emu_gdb) (w : W) : list Z :=
  let fbase := if has_flash g then f_base flash else 0 in
  let fsize := if has_flash g then match f_size flash with Some f => f w | None => 0 end else 0 in
  let rs := c_regions core w in
  let m := map_put [] (str "<?xml version=" ++ quote ++ str "1.0" ++ quote ++ str "?><!DOCTYPE memory-map SYSTEM " ++ quote ++ str "memory-map.dtd" ++ quote ++ str "><memory-map>") in
  map_put (map_loop (S (List.length rs)) rs fbase fsize (fsize =? 0) true 0 m) map_close.

(** ** Commands *)

Fixpoint regs_hex (n : nat) (r : Z) (w : W) (body : list Z) : list Z :=
  match n with
  | O => body
  | S n =>
      if EMU_GDB_MAX_PACKET <=? Z.of_nat (List.length body) + 2 * reg_width r then body
      else regs_hex n (r + 1) w (body ++ put_reg_hex (c_big_endian core w) r (reg_get target w r))
  end.
Definition cmd_read_regs (g : emu_gdb) (w : W) : emu_gdb * W := (send_packet g (regs_hex (Z.to_nat (nregs target)) 0 w []), w).

Fixpoint regs_set (n : nat) (r at_ : Z) (w : W) (p : Z -> Z) (len : Z) : W :=
  match n with
  | O => w
  | S n =>
      if len <? at_ + 2 * reg_width r then w
      else regs_set n (r + 1) (at_ + 2 * reg_width r) (reg_set target w r (get_reg_hex (c_big_endian core w) r (from p at_))) p len
  end.
Definition cmd_write_regs (g : emu_gdb) (w : W) (p : Z -> Z) (len : Z) : emu_gdb * W := (send_ok g, regs_set (Z.to_nat (nregs target)) 0 0 w p len).

Definition cmd_read_one_reg (g : emu_gdb) (w : W) (p : Z -> Z) (len : Z) : emu_gdb * W :=
  let '(r, _) := hex_to_u32 p len in
  if nregs target <=? r then (send_err g 1, w) else (send_packet g (put_reg_hex (c_big_endian core w) r (reg_get target w r)), w).

Definition cmd_write_one_reg (g : emu_gdb) (w : W) (p : Z -> Z) (len : Z) : emu_gdb * W :=
  let '(r, used) := hex_to_u32 p len in
  if (len <=? used) || negb (p used =? chr "=") || (nregs target <=? r) || (len - used - 1 <? 2 * reg_width r) then (send_err g 1, w)
  else (send_ok g, reg_set target w r (get_reg_hex (c_big_endian core w) r (from p (used + 1)))).

Definition cmd_mem_read (g : emu_gdb) (w : W) (p : Z -> Z) (len : Z) : emu_gdb * W :=
  let '(addr, used) := hex_to_u32 p len in
  if (len <=? used) || negb (p used =? chr ",") then (send_err g 1, w)
  else
    let '(n, _) := hex_to_u32 (from p (used + 1)) (len - used - 1) in
    let n := if (n =? 0) || (EMU_GDB_MAX_PACKET / 2 <=? n) then EMU_GDB_MAX_PACKET / 2 - 1 else n in
    let '(body, w) := mem_read (Z.to_nat n) w addr [] in
    match body with None => (send_err g 14, w) | Some body => (send_packet g body, w) end.

(** "addr,len:": the address, the length and where the data starts. *)
Definition addr_len (p : Z -> Z) (len : Z) : option (Z * Z * Z) :=
  let '(addr, used) := hex_to_u32 p len in
  if (len <=? used) || negb (p used =? chr ",") then None
  else
    let '(n, k) := hex_to_u32 (from p (used + 1)) (len - (used + 1)) in
    let used := used + 1 + k in
    if (len <=? used) || negb (p used =? chr ":") then None else Some (addr, n, used + 1).

Definition cmd_mem_write (g : emu_gdb) (w : W) (p : Z -> Z) (len : Z) : emu_gdb * W :=
  match addr_len p len with
  | None => (send_err g 1, w)
  | Some (addr, n, used) =>
      if (len - used) / 2 <? n then (send_err g 1, w)
      else let '(ok, w) := mem_write w addr n (from p used) in (if ok then send_ok g else send_err g 14, w)
  end.

Fixpoint write_bin (n : nat) (w : W) (addr i : Z) (p : Z -> Z) : bool * W :=
  match n with
  | O => (true, w)
  | S n => let '(ok, w) := c_write core w (addr +! i) (p i) in if ok then write_bin n w addr (i + 1) p else (false, w)
  end.
Definition cmd_mem_write_bin (g : emu_gdb) (w : W) (p : Z -> Z) (len : Z) : emu_gdb * W :=
  match addr_len p len with
  | None => (send_err g 1, w)
  | Some (addr, n, used) =>
      if len - used <? n then (send_err g 1, w)
      else
        let '(ok, w) := write_bin (Z.to_nat n) w addr 0 (from p used) in
        if ok then (send_ok g, if negb (n =? 0) then invalidate w addr n else w) else (send_err g 14, w)
  end.

Definition cmd_breakpoint (g : emu_gdb) (p : Z -> Z) (len : Z) (insert : bool) : emu_gdb :=
  let '(type, used) := hex_to_u32 p len in
  if (len <=? used) || negb (p used =? chr ",") then send_err g 1
  else
    let '(addr, k) := hex_to_u32 (from p (used + 1)) (len - (used + 1)) in
    let used := used + 1 + k in
    let kind := if (used <? len) && (p used =? chr ",") then fst (hex_to_u32 (from p (used + 1)) (len - (used + 1))) else 0 in
    if 1 <? type then send_empty g
    else if insert then let '(ok, g) := break_add g addr kind in if ok then send_ok g else send_err g 28
    else send_ok (break_del g addr).

(** [memcmp] with a literal. *)
Definition starts_with (p : Z -> Z) (len : Z) (s : string) : bool :=
  let l := str s in
  (Z.of_nat (List.length l) <=? len) && forallb (fun '(i, c) => p (Z.of_nat i) =? c) (combine (seq 0 (List.length l)) l).

(** One past the last [':']. *)
Definition last_colon (p : Z -> Z) (len : Z) : Z :=
  fold_left (fun i k => if p (Z.of_nat k) =? chr ":" then Z.of_nat k + 1 else i) (seq 0 (Z.to_nat len)) 0.

Definition query_supported (g : emu_gdb) : list Z :=
  take 128 (str "PacketSize=" ++ [hex_digit (Z.shiftr EMU_GDB_MAX_PACKET 8 &! 15); hex_digit (Z.shiftr EMU_GDB_MAX_PACKET 4 &! 15); hex_digit (EMU_GDB_MAX_PACKET &! 15)] ++
    str ";swbreak+;hwbreak+" ++ (match target_xml target with Some _ => str ";qXfer:features:read+" | None => [] end) ++
    (if has_flash g then str ";qXfer:memory-map:read+" else [])).

Definition query_xfer (g : emu_gdb) (xml : list Z) (p : Z -> Z) (len : Z) : emu_gdb :=
  let total := Z.of_nat (List.length xml) in
  let i := last_colon p len in
  let '(off, k) := hex_to_u32 (from p i) (len - i) in
  let i := i + k in
  let want := if (i <? len) && (p i =? chr ",") then fst (hex_to_u32 (from p (i + 1)) (len - i - 1)) else 0 in
  if total <=? off then send_str g "l"
  else
    let want := if (want =? 0) || (EMU_GDB_MAX_PACKET - 2 <? want) then EMU_GDB_MAX_PACKET - 2 else want in
    let '(want, tag) := if total - off <? want then (total - off, "l"%string) else (want, if total <=? off +! want then "l"%string else "m"%string) in
    send_packet g (str tag ++ take (Z.to_nat want) (drop (Z.to_nat off) xml)).

Definition cmd_query (g : emu_gdb) (w : W) (p : Z -> Z) (len : Z) : emu_gdb :=
  if starts_with p len "qSupported" then send_packet g (query_supported g)
  else if starts_with p len "qXfer:memory-map:read:" || starts_with p len "qXfer:features:read:" then
    match (if starts_with p len "qXfer:memory-map:read:" then Some (build_memory_map g w) else target_xml target) with
    | None => send_empty g
    | Some xml => query_xfer g xml p len
    end
  else if starts_with p len "qAttached" then send_str g "1"
  else if starts_with p len "qC" then send_empty g
  else if starts_with p len "qfThreadInfo" then send_str g "m1"
  else if starts_with p len "qsThreadInfo" then send_str g "l"
  else send_empty g.

Definition no_break : Z -> emu_gdb_break -> emu_gdb_break := fun i b => if (0 <=? i) && (i <? EMU_GDB_MAX_BREAK) then Break (b_addr b) (b_len b) false else b.
Definition emu_gdb_detach (g : emu_gdb) : emu_gdb :=
  g <| attached := false |> <| halted := false |> <| stepping := false |> <| brk := fun i => no_break i (brk g i) |>.

(** The address "c" and "s" may carry. *)
Definition resume_at (w : W) (p : Z -> Z) (len : Z) : W :=
  if 1 <? len then
    let '(pc, _) := hex_to_u32 (from p 1) (len - 1) in match pc_set target with Some f => f w pc | None => w end
  else w.

Definition flash_erase (g : emu_gdb) (w : W) (p : Z -> Z) (len : Z) : emu_gdb * W :=
  let '(addr, k) := hex_to_u32 (from p 12) (len - 12) in
  let i := 12 + k in
  let n := if (i <? len) && (p i =? chr ",") then fst (hex_to_u32 (from p (i + 1)) (len - i - 1)) else 0 in
  let '(ok, w) := if has_flash g then f_erase flash w addr n else (false, w) in
  if ok then (send_ok (g <| flash_touched := true |>), w) else (send_err g 1, w).
Definition flash_write (g : emu_gdb) (w : W) (p : Z -> Z) (len : Z) : emu_gdb * W :=
  let '(addr, k) := hex_to_u32 (from p 12) (len - 12) in
  let i := 12 + k in
  if (len <=? i) || negb (p i =? chr ":") then (send_err g 1, w)
  else
    let data := map (fun j => p (i + 1 + Z.of_nat j)) (seq 0 (Z.to_nat (len - (i + 1)))) in
    let '(ok, w) := if has_flash g then f_write flash w addr data else (false, w) in
    if ok then (send_ok (g <| flash_touched := true |>), w) else (send_err g 1, w).
Definition flash_commit (g : emu_gdb) (w : W) : emu_gdb * W :=
  if negb (has_flash g) || negb (flash_touched g) then (send_ok g, w)
  else let '(ok, w) := f_done flash w in let g := g <| flash_touched := false |> in (if ok then send_ok g else send_err g 1, w).

(** The character after the first [';'] is that of a step. *)
Fixpoint cont_steps (n : nat) (p : Z -> Z) (i len : Z) : bool :=
  match n with
  | O => false
  | S n =>
      if p i =? chr ";" then (i + 1 <? len) && ((p (i + 1) =? chr "s") || (p (i + 1) =? chr "S"))
      else cont_steps n p (i + 1) len
  end.

Definition cmd_v (g : emu_gdb) (w : W) (p : Z -> Z) (len : Z) : emu_gdb * W :=
  if starts_with p len "vFlashErase:" then flash_erase g w p len
  else if starts_with p len "vFlashWrite:" then flash_write g w p len
  else if starts_with p len "vFlashDone" then flash_commit g w
  else if starts_with p len "vCont?" then (send_empty g, w)
  else if starts_with p len "vCont" then (g <| stepping := cont_steps (Z.to_nat (len - 5)) p 5 len |> <| halted := false |>, w)
  else (send_empty g, w).

Definition gdb_dispatch (g : emu_gdb) (w : W) (p : Z -> Z) (len : Z) : emu_gdb * W :=
  if len =? 0 then (send_empty g, w)
  else
    let c := p 0 in
    let p1 := from p 1 in
    if c =? chr "?" then (send_stop g w (stop_signal target), w)
    else if c =? chr "g" then cmd_read_regs g w
    else if c =? chr "G" then cmd_write_regs g w p1 (len - 1)
    else if c =? chr "p" then cmd_read_one_reg g w p1 (len - 1)
    else if c =? chr "P" then cmd_write_one_reg g w p1 (len - 1)
    else if c =? chr "m" then cmd_mem_read g w p1 (len - 1)
    else if c =? chr "M" then cmd_mem_write g w p1 (len - 1)
    else if c =? chr "X" then cmd_mem_write_bin g w p1 (len - 1)
    else if c =? chr "Z" then (cmd_breakpoint g p1 (len - 1) true, w)
    else if c =? chr "z" then (cmd_breakpoint g p1 (len - 1) false, w)
    else if c =? chr "c" then (g <| stepping := false |> <| halted := false |>, resume_at w p len)
    else if c =? chr "s" then (g <| stepping := true |> <| halted := false |>, resume_at w p len)
    else if c =? chr "D" then (emu_gdb_detach (send_ok g), w)
    else if c =? chr "k" then (emu_gdb_detach g, w)
    else if c =? chr "q" then (cmd_query g w p len, w)
    else if c =? chr "v" then cmd_v g w p len
    else if c =? chr "H" then (send_ok g, w)
    else if c =? chr "T" then (send_ok g, w)
    else (send_empty g, w).

(** ** Framing *)

Definition rx_byte (g : emu_gdb) (w : W) (c : Z) : emu_gdb * W :=
  match rx_state g with
  | EMU_GDB_WAIT =>
      if c =? chr "$" then (g <| rx_len := 0 |> <| sum_len := 0 |> <| raw_sum := 0 |> <| escaped := false |> <| rx_state := EMU_GDB_BODY |>, w)
      else if c =? 3 then (send_stop (g <| halted := true |> <| stepping := false |>) w 2, w)
      else (g, w)
  | EMU_GDB_BODY =>
      if c =? chr "#" then (g <| rx_state := EMU_GDB_SUM |>, w)
      else if rx_len g <? EMU_GDB_MAX_PACKET then
        let g := g <| raw_sum := u8 (raw_sum g + c) |> in
        if escaped g then (g <| rx := upd (rx g) (rx_len g) (Z.lxor c 32) |> <| rx_len := rx_len g + 1 |> <| escaped := false |>, w)
        else if c =? 125 then (g <| escaped := true |>, w)
        else (g <| rx := upd (rx g) (rx_len g) c |> <| rx_len := rx_len g + 1 |>, w)
      else (g, w)
  | EMU_GDB_SUM =>
      if sum_len g =? 0 then (g <| sum0 := c |> <| sum_len := 1 |>, w)
      else
        let hi := hex_val (sum0 g) in
        let lo := hex_val c in
        let ok := (0 <=? hi) && (0 <=? lo) && ((Z.shiftl hi 4 |! lo) =? raw_sum g) in
        let g := g <| sum_len := 2 |> in
        let g := if ack_mode g then tx_raw g (if ok then str "+" else str "-") else g in
        let '(g, w) := if ok then gdb_dispatch g w (rx g) (rx_len g) else (g, w) in
        (g <| rx_state := EMU_GDB_WAIT |>, w)
  end.

Definition emu_gdb_rx (g : emu_gdb) (w : W) (data : list Z) : emu_gdb * W := fold_left (fun '(g, w) c => rx_byte g w c) data (g, w).

(** ** Run control *)

Definition emu_gdb_init : emu_gdb :=
  Gdb (fun _ => 0) 0 0 0 0 EMU_GDB_WAIT false false false false true false false false (fun _ => Break 0 0 false) [].
Definition emu_gdb_set_flash (g : emu_gdb) (on : bool) : emu_gdb := g <| has_flash := on |>.
Definition emu_gdb_attach (g : emu_gdb) : emu_gdb :=
  g <| attached := true |> <| rx_state := EMU_GDB_WAIT |> <| rx_len := 0 |> <| sum_len := 0 |> <| halted := true |> <| stepping := false |>.

Definition is_budget (r : emu_run_reason) : bool := match r with EMU_RUN_BUDGET => true | _ => false end.

(** Breakpoints: block by block, and instruction by instruction near one. *)
Fixpoint break_loop (fuel : nat) (g : emu_gdb) (w : W) (retired budget : Z) : option (emu_run_reason * Z * emu_gdb * W) :=
  match fuel with
  | O => None
  | S fuel =>
      if budget <=? retired then Some (EMU_RUN_BUDGET, retired, g, w)
      else
        let pc := pc_get target w in
        let '(g, w) := if negb (unchained g) then (g <| unchained := true |>, c_unchain core w) else (g, w) in
        let '(why, n, w) := if break_near g pc then let '(why, w) := c_step core w in (why, 1, w) else c_run core w 1 in
        let retired := retired +! n in
        if negb (is_budget why) then let g := g <| halted := true |> in Some (why, retired, send_stop g w 5, w)
        else match break_find g (pc_get target w) with
             | Some _ => let g := g <| halted := true |> in Some (EMU_RUN_BUDGET, retired, send_stop g w 5, w)
             | None => if n =? 0 then Some (EMU_RUN_BUDGET, retired, g, w) else break_loop fuel g w retired budget
             end
  end.

Definition emu_gdb_run (fuel : nat) (g : emu_gdb) (w : W) (budget : Z) : option (emu_run_reason * Z * emu_gdb * W) :=
  if halted g then Some (EMU_RUN_BUDGET, 0, g, w)
  else if stepping g then
    let '(why, w) := c_step core w in
    let g := g <| stepping := false |> <| halted := true |> in
    Some (why, 1, send_stop g w (stop_signal target), w)
  else if negb (break_any g) then
    let g := g <| unchained := false |> in
    let '(why, n, w) := c_run core w budget in
    if negb (is_budget why) then let g := g <| halted := true |> in Some (why, n, send_stop g w 5, w) else Some (why, n, g, w)
  else break_loop fuel g w 0 budget.
End Gdb.
