(* ===== verification/GdbProps.v ===== *)
(** * What the debugger stub guarantees

    A session is what gdb sends: packets, interrupts and acknowledgements.
    The reference does each packet's command on the bytes of that packet and
    on nothing else; [Gdb.emu_gdb_rx] does the same however the transport cuts
    the bytes, and refuses a packet whose checksum is wrong.  While a
    breakpoint is set, [Gdb.emu_gdb_run] against the interface [block_core] --
    a backend that runs one block for a budget of one -- stops where, and only
    where, stepping every instruction would. *)

From stdpp Require Import base list.
From Stdlib Require Import ZArith Lia String.
From S2P Require Import Prelude RvHart RvTrap RvInterp Jit JitRun JitDemo Gdb.

Open Scope Z_scope.
Open Scope u32_scope.

(** ** Two buffers that hold the same packet *)

Definition agree (p q : Z -> Z) (len : Z) : Prop := forall i, 0 <= i < len -> p i = q i.

Lemma agree_from p q len k : 0 <= k -> agree p q len -> agree (from p k) (from q k) (len - k).
Proof. intros Hk H i Hi. apply H. lia. Qed.

Lemma agree_le p q len len' : len' <= len -> agree p q len -> agree p q len'.
Proof. intros Hl H i Hi. apply H. lia. Qed.

Lemma hex_from_agree p q len : agree p q len -> forall n i v, 0 <= i -> i + Z.of_nat n <= len -> hex_from n p i v = hex_from n q i v.
Proof.
  intros H. induction n as [|n IH]; intros i v Hi Hn; [reflexivity|].
  cbn [hex_from]. rewrite <- (H i) by lia. destruct (_ <? 0); [reflexivity|]. apply IH; lia.
Qed.

Lemma hex_to_u32_agree p q len : agree p q len -> hex_to_u32 p len = hex_to_u32 q len.
Proof.
  intros H. unfold hex_to_u32. destruct (Z.le_gt_cases 0 len); [apply (hex_from_agree p q len); auto; lia|].
  replace (Z.to_nat len) with O by lia. reflexivity.
Qed.

Lemma hex_from_used s : forall n i v, i <= snd (hex_from n s i v) <= i + Z.of_nat n.
Proof.
  induction n as [|n IH]; intros i v; cbn [hex_from]; [simpl; lia|].
  destruct (_ <? 0); [simpl; lia|]. specialize (IH (i + 1) ((v <<! 4) |! hex_val (s i))). lia.
Qed.

Lemma hex_to_u32_used s len : 0 <= snd (hex_to_u32 s len).
Proof. pose proof (hex_from_used s (Z.to_nat len) 0 0). unfold hex_to_u32. lia. Qed.

(** Destruct a parse, keeping that it moved forward. *)
Ltac hex_parse v k H :=
  match goal with
  | |- context [hex_to_u32 ?s ?l] =>
      pose proof (hex_to_u32_used s l) as H; destruct (hex_to_u32 s l) as [v k]; cbn [fst snd] in H |- *
  end.

Section Agree.
Context {W : Type}.
Variable target : emu_gdb_target W.
Variable core : gdb_core W.
Variable flash : emu_gdb_flash_ops W.
Hypothesis widths : forall r, 0 <= reg_width target r.

Lemma get_bytes_agree p q big bytes : forall n b v, agree p q (2 * (b + Z.of_nat n)) -> 0 <= b -> get_bytes n big bytes b p v = get_bytes n big bytes b q v.
Proof.
  induction n as [|n IH]; intros b v H Hb; [reflexivity|]. cbn [get_bytes]. rewrite <- (H (2 * b)), <- (H (2 * b + 1)) by lia.
  destruct (_ || _); [reflexivity|]. apply IH; [|lia]. eapply agree_le; [|exact H]. lia.
Qed.

Lemma get_reg_hex_agree p q big r : agree p q (2 * reg_width target r) -> get_reg_hex target big r p = get_reg_hex target big r q.
Proof. intros H. apply get_bytes_agree; [|lia]. eapply agree_le; [|exact H]. pose proof (widths r). lia. Qed.

Lemma regs_set_agree p q len : agree p q len -> forall n r at_ w, 0 <= at_ -> regs_set target core n r at_ w p len = regs_set target core n r at_ w q len.
Proof.
  intros H. induction n as [|n IH]; intros r at_ w Ha; [reflexivity|]. cbn [regs_set]. pose proof (widths r).
  destruct (len <? _) eqn:E; [reflexivity|]. apply Z.ltb_ge in E.
  rewrite (get_reg_hex_agree (from p at_) (from q at_)); [apply IH; lia|]. eapply agree_le, agree_from; [|exact Ha|exact H]. lia.
Qed.

Lemma mem_write_agree p q : forall n w addr i, agree p q (2 * (i + Z.of_nat n)) -> 0 <= i ->
  mem_write_loop core n w addr i p = mem_write_loop core n w addr i q.
Proof.
  induction n as [|n IH]; intros w addr i H Hi; [reflexivity|]. cbn [mem_write_loop]. rewrite <- (H (2 * i)), <- (H (2 * i + 1)) by lia.
  destruct (_ || _); [reflexivity|]. destruct (c_write _ _ _ _) as [[] w1]; [|reflexivity].
  apply IH; [|lia]. eapply agree_le; [|exact H]. lia.
Qed.

Lemma write_bin_agree p q : forall n w addr i, agree p q (i + Z.of_nat n) -> 0 <= i -> write_bin core n w addr i p = write_bin core n w addr i q.
Proof.
  induction n as [|n IH]; intros w addr i H Hi; [reflexivity|]. cbn [write_bin]. rewrite <- (H i) by lia.
  destruct (c_write _ _ _ _) as [[] w1]; [|reflexivity]. apply IH; [|lia]. eapply agree_le; [|exact H]. lia.
Qed.

(** A character that is read only inside the packet. *)
Lemma char_agree p q len i c : agree p q len -> 0 <= i -> (len <=? i) || negb (p i =? c) = (len <=? i) || negb (q i =? c).
Proof. intros H Hi. destruct (len <=? i) eqn:E; [reflexivity|]. apply Z.leb_gt in E. rewrite (H i) by lia. reflexivity. Qed.

Lemma char_agree' p q len i c : agree p q len -> 0 <= i -> (i <? len) && (p i =? c) = (i <? len) && (q i =? c).
Proof. intros H Hi. destruct (i <? len) eqn:E; [|reflexivity]. apply Z.ltb_lt in E. rewrite (H i) by lia. reflexivity. Qed.

(** A hex number that follows [i]. *)
Lemma number_agree p q len i : agree p q len -> 0 <= i -> hex_to_u32 (from p i) (len - i) = hex_to_u32 (from q i) (len - i).
Proof. intros H Hi. apply hex_to_u32_agree, agree_from; assumption. Qed.

Lemma addr_len_agree p q len : agree p q len -> addr_len p len = addr_len q len.
Proof.
  intros H. unfold addr_len. rewrite <- (hex_to_u32_agree p q len H). hex_parse a u Hu. rewrite <- (char_agree p q len u) by auto.
  destruct (_ || _); [reflexivity|]. rewrite <- (number_agree p q len) by (auto; lia). hex_parse n k Hk.
  rewrite <- (char_agree p q len (u + 1 + k)) by (auto; lia). reflexivity.
Qed.

Lemma addr_len_used p len a n u : addr_len p len = Some (a, n, u) -> 0 <= u <= len.
Proof.
  unfold addr_len. hex_parse a' u' Hu. destruct (_ || _); [discriminate|]. hex_parse n' k Hk.
  destruct (len <=? u' + 1 + k) eqn:E; [discriminate|]. apply Z.leb_gt in E. destruct (negb _); [discriminate|]. intros [= <- <- <-]. lia.
Qed.

Lemma starts_with_agree p q len s : agree p q len -> starts_with p len s = starts_with q len s.
Proof.
  intros H. unfold starts_with. destruct (_ <=? len) eqn:E; [|reflexivity]. apply Z.leb_le in E. cbn [andb]. revert E.
  generalize (str s); intros l E. assert (Hs : forall k l', Z.of_nat k + Z.of_nat (List.length l') <= len ->
    forallb (fun '(i, c) => p (Z.of_nat i) =? c) (combine (seq k (List.length l')) l') =
    forallb (fun '(i, c) => q (Z.of_nat i) =? c) (combine (seq k (List.length l')) l')); [|apply Hs; lia].
  intros k l'; revert k; induction l' as [|c l' IH]; intros k Hk; [reflexivity|]. cbn [List.length seq combine forallb] in *.
  rewrite (H (Z.of_nat k)) by lia. f_equal. apply IH. lia.
Qed.
Lemma last_colon_agree p q len : agree p q len -> last_colon p len = last_colon q len.
Proof.
  intros H. unfold last_colon. assert (Hs : forall l a, Forall (fun k => Z.of_nat k < len) l ->
    fold_left (fun i k => if p (Z.of_nat k) =? chr ":" then Z.of_nat k + 1 else i) l a =
    fold_left (fun i k => if q (Z.of_nat k) =? chr ":" then Z.of_nat k + 1 else i) l a).
  - induction l as [|k l IH]; intros a Hl; [reflexivity|]. inversion Hl; subst. cbn [fold_left]. rewrite (H (Z.of_nat k)) by lia. auto.
  - apply Hs, List.Forall_forall. intros k Hk%in_seq. lia.
Qed.

Lemma last_colon_nonneg p len : 0 <= last_colon p len.
Proof.
  unfold last_colon. generalize (seq 0 (Z.to_nat len)); intros l. assert (Hs : forall l a, 0 <= a ->
    0 <= fold_left (fun i k => if p (Z.of_nat k) =? chr ":" then Z.of_nat k + 1 else i) l a); [|apply Hs; lia].
  clear l. induction l as [|k l IH]; intros a Ha; [exact Ha|]. cbn [fold_left]. apply IH. destruct (_ =? _); lia.
Qed.

Lemma query_xfer_agree g xml p q len : agree p q len -> query_xfer g xml p len = query_xfer g xml q len.
Proof.
  intros H. unfold query_xfer. rewrite <- (last_colon_agree p q len H). pose proof (last_colon_nonneg p len) as Hc.
  set (i := last_colon p len) in *. rewrite <- (number_agree p q len i) by auto. hex_parse off k Hk.
  rewrite <- (char_agree' p q len (i + k)) by (auto; lia). replace (len - (i + k) - 1) with (len - (i + k + 1)) by lia.
  rewrite <- (number_agree p q len (i + k + 1)) by (auto; lia). reflexivity.
Qed.

Lemma cmd_query_agree g w p q len : agree p q len -> cmd_query target core flash g w p len = cmd_query target core flash g w q len.
Proof.
  intros H. unfold cmd_query. rewrite !(starts_with_agree p q len) by exact H.
  repeat (case_match; try reflexivity); apply query_xfer_agree; exact H.
Qed.

Lemma cmd_breakpoint_agree g p q len insert : agree p q len -> cmd_breakpoint g p len insert = cmd_breakpoint g q len insert.
Proof.
  intros H. unfold cmd_breakpoint. rewrite <- (hex_to_u32_agree p q len H). hex_parse type u Hu. rewrite <- (char_agree p q len u) by auto.
  destruct (_ || _); [reflexivity|]. rewrite <- (number_agree p q len) by (auto; lia). hex_parse a k Hk.
  rewrite <- (char_agree' p q len (u + 1 + k)) by (auto; lia). rewrite <- (number_agree p q len (u + 1 + k + 1)) by (auto; lia). reflexivity.
Qed.

Lemma cmd_write_one_reg_agree g w p q len : agree p q len -> cmd_write_one_reg target core g w p len = cmd_write_one_reg target core g w q len.
Proof.
  intros H. unfold cmd_write_one_reg. rewrite <- (hex_to_u32_agree p q len H). hex_parse r u Hu. rewrite <- (char_agree p q len u) by auto.
  destruct (_ || _ || _ || _) eqn:E; [reflexivity|]. apply orb_false_iff in E as [_ E%Z.ltb_ge].
  rewrite (get_reg_hex_agree (from p (u + 1)) (from q (u + 1))); [reflexivity|]. eapply agree_le, agree_from; [|lia|exact H]. lia.
Qed.

Lemma cmd_mem_read_agree g w p q len : agree p q len -> cmd_mem_read core g w p len = cmd_mem_read core g w q len.
Proof.
  intros H. unfold cmd_mem_read. rewrite <- (hex_to_u32_agree p q len H). hex_parse r u Hu. rewrite <- (char_agree p q len u) by auto.
  destruct (_ || _); [reflexivity|]. replace (len - u - 1) with (len - (u + 1)) by lia. rewrite <- (number_agree p q len (u + 1)) by (auto; lia). reflexivity.
Qed.

Lemma cmd_mem_write_agree g w p q len : agree p q len -> cmd_mem_write core g w p len = cmd_mem_write core g w q len.
Proof.
  intros H. unfold cmd_mem_write. rewrite <- (addr_len_agree p q len H). destruct (addr_len p len) as [[[a n] u]|] eqn:Hu; [|reflexivity].
  apply addr_len_used in Hu. destruct (_ <? n) eqn:E; [reflexivity|]. apply Z.ltb_ge in E. unfold mem_write.
  pose proof (Z.mul_div_le (len - u) 2 ltac:(lia)). rewrite (mem_write_agree (from p u) (from q u)); [reflexivity| |lia].
  eapply agree_le, agree_from; [|apply Hu|exact H]. lia.
Qed.

Lemma cmd_mem_write_bin_agree g w p q len : agree p q len -> cmd_mem_write_bin core g w p len = cmd_mem_write_bin core g w q len.
Proof.
  intros H. unfold cmd_mem_write_bin. rewrite <- (addr_len_agree p q len H). destruct (addr_len p len) as [[[a n] u]|] eqn:Hu; [|reflexivity].
  apply addr_len_used in Hu. destruct (_ <? n) eqn:E; [reflexivity|]. apply Z.ltb_ge in E.
  rewrite (write_bin_agree (from p u) (from q u)); [reflexivity| |lia]. eapply agree_le, agree_from; [|apply Hu|exact H]. lia.
Qed.

Lemma flash_erase_agree g w p q len : agree p q len -> flash_erase flash g w p len = flash_erase flash g w q len.
Proof.
  intros H. unfold flash_erase. rewrite <- (number_agree p q len 12) by (auto; lia). hex_parse a k Hk.
  rewrite <- (char_agree' p q len (12 + k)) by (auto; lia). replace (len - (12 + k) - 1) with (len - (12 + k + 1)) by lia.
  rewrite <- (number_agree p q len (12 + k + 1)) by (auto; lia). reflexivity.
Qed.

Lemma flash_write_agree g w p q len : agree p q len -> flash_write flash g w p len = flash_write flash g w q len.
Proof.
  intros H. unfold flash_write. rewrite <- (number_agree p q len 12) by (auto; lia). hex_parse a k Hk.
  rewrite <- (char_agree p q len (12 + k)) by (auto; lia). destruct (_ || _); [reflexivity|].
  replace (map (fun j => q (12 + k + 1 + Z.of_nat j)) (seq 0 (Z.to_nat (len - (12 + k + 1)))))
    with (map (fun j => p (12 + k + 1 + Z.of_nat j)) (seq 0 (Z.to_nat (len - (12 + k + 1))))); [reflexivity|].
  apply map_ext_in. intros j Hj%in_seq. apply H. lia.
Qed.

Lemma cont_steps_agree p q len : agree p q len -> forall n i, 0 <= i -> i + Z.of_nat n <= len -> cont_steps n p i len = cont_steps n q i len.
Proof.
  intros H. induction n as [|n IH]; intros i Hi Hn; [reflexivity|]. cbn [cont_steps]. rewrite (H i), (IH (i + 1)) by lia.
  destruct (q i =? _); [|reflexivity]. destruct (i + 1 <? len) eqn:E; [|reflexivity]. apply Z.ltb_lt in E. rewrite (H (i + 1)) by lia. reflexivity.
Qed.

Lemma starts_with_len p len s : starts_with p len s = true -> Z.of_nat (List.length (str s)) <= len.
Proof. unfold starts_with. intros [E _]%andb_prop. apply Z.leb_le in E. exact E. Qed.

Lemma cmd_v_agree g w p q len : agree p q len -> cmd_v flash g w p len = cmd_v flash g w q len.
Proof.
  intros H. unfold cmd_v. rewrite <- !(starts_with_agree p q len) by exact H.
  destruct (starts_with p len "vFlashErase:"); [apply flash_erase_agree, H|].
  destruct (starts_with p len "vFlashWrite:"); [apply flash_write_agree, H|].
  destruct (starts_with p len "vFlashDone"); [reflexivity|]. destruct (starts_with p len "vCont?"); [reflexivity|].
  destruct (starts_with p len "vCont") eqn:E; [|reflexivity]. apply starts_with_len in E. cbn in E.
  rewrite (cont_steps_agree p q len H) by lia. reflexivity.
Qed.

Lemma resume_at_agree w p q len : agree p q len -> resume_at target w p len = resume_at target w q len.
Proof. intros H. unfold resume_at. rewrite (number_agree p q len 1) by (auto; lia). reflexivity. Qed.

(** A command depends on its packet alone, not on what the buffer holds after it. *)
Lemma dispatch_agree g w p q len : 0 <= len -> agree p q len -> gdb_dispatch target core flash g w p len = gdb_dispatch target core flash g w q len.
Proof.
  intros Hlen H. unfold gdb_dispatch. destruct (len =? 0) eqn:E; [reflexivity|]. apply Z.eqb_neq in E.
  assert (H1 : agree (from p 1) (from q 1) (len - 1)) by (apply agree_from; [lia|exact H]).
  rewrite <- (H 0), (resume_at_agree w p q len), (cmd_query_agree g w p q len), (cmd_v_agree g w p q len), (cmd_mem_read_agree g w _ _ _ H1),
    (cmd_mem_write_agree g w _ _ _ H1), (cmd_mem_write_bin_agree g w _ _ _ H1), !(cmd_breakpoint_agree g _ _ _ _ H1), (cmd_write_one_reg_agree g w _ _ _ H1)
    by (assumption || lia).
  unfold cmd_write_regs, cmd_read_one_reg. rewrite (regs_set_agree _ _ _ H1), (hex_to_u32_agree _ _ _ H1) by lia. reflexivity.
Qed.
End Agree.

(** ** The receive buffer is the framing's own *)

(** The stub without what only the framing reads. *)
Definition quiet (g : emu_gdb) : emu_gdb :=
  g <| rx := fun _ => 0 |> <| rx_len := 0 |> <| sum0 := 0 |> <| sum_len := 0 |> <| raw_sum := 0 |> <| escaped := false |> <| rx_state := EMU_GDB_WAIT |>.
#[local] Arguments quiet : simpl never.
Definition quietly {W} (r : emu_gdb * W) : emu_gdb * W := (quiet (fst r), snd r).

Section Session.
Context {W : Type}.
Variable target : emu_gdb_target W.
Variable core : gdb_core W.
Variable flash : emu_gdb_flash_ops W.

Lemma quiet_send g body : quiet (send_packet g body) = send_packet (quiet g) body.
Proof. reflexivity. Qed.

Lemma quiet_touch g b : quiet (g <| flash_touched := b |>) = quiet g <| flash_touched := b |>.
Proof. reflexivity. Qed.

Lemma quiet_has_flash g : has_flash (quiet g) = has_flash g.
Proof. reflexivity. Qed.

Lemma quiet_flash_touched g : flash_touched (quiet g) = flash_touched g.
Proof. reflexivity. Qed.

Lemma quiet_resumed g b c : quiet (g <| stepping := b |> <| halted := c |>) = quiet g <| stepping := b |> <| halted := c |>.
Proof. reflexivity. Qed.

#[local] Opaque send_packet.
Ltac quiet_done := unfold quietly, send_ok, send_err, send_empty, send_str; cbn [fst snd]; rewrite ?quiet_send, ?quiet_touch, ?quiet_resumed; reflexivity.
Ltac quiet_cases := repeat (case_match; simplify_eq); quiet_done.

Lemma quiet_break_add g a k : fst (break_add g a k) = fst (break_add (quiet g) a k) /\ quiet (snd (break_add g a k)) = snd (break_add (quiet g) a k).
Proof. unfold break_add, break_find. cbn [brk quiet set_field]. change (brk (quiet g)) with (brk g). split; quiet_cases. Qed.

Lemma quiet_break_del g a : quiet (break_del g a) = break_del (quiet g) a.
Proof. unfold break_del, break_find. change (brk (quiet g)) with (brk g). quiet_cases. Qed.

Lemma quiet_breakpoint g p len insert : quiet (cmd_breakpoint g p len insert) = cmd_breakpoint (quiet g) p len insert.
Proof.
  unfold cmd_breakpoint. destruct (hex_to_u32 p len) as [t u]. destruct (_ || _); [quiet_done|]. destruct (hex_to_u32 (from p (u + 1)) _) as [a k].
  cbv zeta. destruct (1 <? t); [quiet_done|]. destruct insert; [|rewrite <- quiet_break_del; quiet_done].
  match goal with |- context [break_add g a ?kd] => destruct (quiet_break_add g a kd) as [Hf Hs]; destruct (break_add g a kd), (break_add (quiet g) a kd) end.
  cbn [fst snd] in *. subst. destruct b0; quiet_done.
Qed.

Lemma quiet_query g w p len : quiet (cmd_query target core flash g w p len) = cmd_query target core flash (quiet g) w p len.
Proof.
  unfold cmd_query, query_supported, build_memory_map. rewrite !quiet_has_flash.
  destruct (starts_with p len "qSupported"); [quiet_done|]. destruct (_ || _); [|quiet_cases].
  match goal with |- context [match ?x with Some xml => query_xfer g xml p len | None => _ end] => destruct x as [xml|]; [|quiet_done] end.
  unfold query_xfer. quiet_cases.
Qed.

Lemma quiet_v g w p len : quietly (cmd_v flash g w p len) = cmd_v flash (quiet g) w p len.
Proof.
  unfold cmd_v, flash_erase, flash_write, flash_commit. rewrite !quiet_has_flash, !quiet_flash_touched.
  quiet_cases.
Qed.

(** No command looks at the framing's fields, and none writes them. *)
Lemma dispatch_quiet g w p len : quietly (gdb_dispatch target core flash g w p len) = gdb_dispatch target core flash (quiet g) w p len.
Proof.
  unfold gdb_dispatch. rewrite <- quiet_v, <- !quiet_breakpoint, <- quiet_query.
  unfold cmd_read_regs, cmd_write_regs, cmd_read_one_reg, cmd_write_one_reg, cmd_mem_read, cmd_mem_write, cmd_mem_write_bin. quiet_cases.
Qed.

(** ** Sessions *)

(** What gdb sends: a packet with the two characters of its checksum, an interrupt, an acknowledgement. *)
Inductive gdb_item := Packet (p : list Z) (hi lo : Z) | Interrupt | Ack (c : Z).

(** gdb escapes the four characters the framing gives a meaning. *)
Definition gdb_escape (b : Z) : list Z := if (b =? chr "#") || (b =? chr "$") || (b =? chr "*") || (b =? 125) then [125; Z.lxor b 32] else [b].
Definition escaped_body (p : list Z) : list Z := List.concat (map gdb_escape p).
Definition gdb_wire (x : gdb_item) : list Z :=
  match x with Packet p hi lo => str "$" ++ escaped_body p ++ str "#" ++ [hi; lo] | Interrupt => [3] | Ack c => [c] end.
Definition item_ok (x : gdb_item) : Prop :=
  match x with Packet p _ _ => Z.of_nat (List.length p) <= EMU_GDB_MAX_PACKET | Interrupt => True | Ack c => c <> chr "$" /\ c <> 3 end.

Definition packet_sum (p : list Z) : Z := body_sum (escaped_body p).
Definition sum_ok (p : list Z) (hi lo : Z) : bool := (0 <=? hex_val hi) && (0 <=? hex_val lo) && ((Z.shiftl (hex_val hi) 4 |! hex_val lo) =? packet_sum p).
Definition packet_bytes (p : list Z) : Z -> Z := fun i => List.nth (Z.to_nat i) p 0.

(** The reference: each packet's command on the packet's own bytes. *)
Definition gdb_act (r : emu_gdb * W) (x : gdb_item) : emu_gdb * W :=
  let '(g, w) := r in
  match x with
  | Packet p hi lo =>
      let g := if ack_mode g then tx_raw g (if sum_ok p hi lo then str "+" else str "-") else g in
      if sum_ok p hi lo then gdb_dispatch target core flash g w (packet_bytes p) (Z.of_nat (List.length p)) else (g, w)
  | Interrupt => (send_stop target core (g <| halted := true |> <| stepping := false |>) w 2, w)
  | Ack _ => (g, w)
  end.

Lemma rx_app g w a b : emu_gdb_rx target core flash g w (a ++ b) = let '(g, w) := emu_gdb_rx target core flash g w a in emu_gdb_rx target core flash g w b.
Proof. unfold emu_gdb_rx. rewrite fold_left_app. destruct (fold_left _ a _). reflexivity. Qed.

Definition add_sum (s : Z) (l : list Z) : Z := fold_left (fun s c => u8 (s + c)) l s.

Lemma rx_body_byte g w c : rx_state g = EMU_GDB_BODY -> rx_len g < EMU_GDB_MAX_PACKET -> c <> 35 ->
  rx_byte target core flash g w c =
  (if escaped g then g <| raw_sum := u8 (raw_sum g + c) |> <| rx := upd (rx g) (rx_len g) (Z.lxor c 32) |> <| rx_len := rx_len g + 1 |> <| escaped := false |>
   else if c =? 125 then g <| raw_sum := u8 (raw_sum g + c) |> <| escaped := true |>
   else g <| raw_sum := u8 (raw_sum g + c) |> <| rx := upd (rx g) (rx_len g) c |> <| rx_len := rx_len g + 1 |>, w).
Proof.
  intros Hs Hl%Z.ltb_lt Hc%Z.eqb_neq. unfold rx_byte. rewrite Hs. change (chr "#") with 35. rewrite Hc, Hl.
  change (escaped (g <| raw_sum := u8 (raw_sum g + c) |>)) with (escaped g). destruct (escaped g); [reflexivity|]. destruct (c =? 125); reflexivity.
Qed.

Lemma rx_escaped g w b : rx_state g = EMU_GDB_BODY -> escaped g = false -> rx_len g < EMU_GDB_MAX_PACKET ->
  emu_gdb_rx target core flash g w (gdb_escape b) =
  (g <| rx := upd (rx g) (rx_len g) b |> <| rx_len := rx_len g + 1 |> <| raw_sum := add_sum (raw_sum g) (gdb_escape b) |>, w).
Proof.
  intros Hs He Hl. unfold gdb_escape, emu_gdb_rx. change (chr "#") with 35. change (chr "$") with 36. change (chr "*") with 42.
  destruct (_ || _) eqn:E; cbn [fold_left].
  - assert (Hx : Z.lxor b 32 <> 35) by (rewrite !orb_true_iff, !Z.eqb_eq in E; destruct E as [[[->| ->]| ->]| ->]; discriminate).
    rewrite (rx_body_byte g w 125), He by (assumption || lia). cbn [Z.eqb Pos.eqb]. rewrite rx_body_byte by assumption.
    cbn [escaped]. rewrite Z.lxor_assoc, Z.lxor_nilpotent, Z.lxor_0_r. destruct g; cbn in *; subst; reflexivity.
  - rewrite !orb_false_iff, !Z.eqb_neq in E. rewrite (rx_body_byte g w b), He by (assumption || lia). rewrite (proj2 (Z.eqb_neq b 125)) by lia.
    destruct g; reflexivity.
Qed.

(** The body: the bytes are stored from where the buffer stands, and nothing below. *)
Lemma rx_body w : forall p g, rx_state g = EMU_GDB_BODY -> escaped g = false -> 0 <= rx_len g -> rx_len g + Z.of_nat (List.length p) <= EMU_GDB_MAX_PACKET ->
  exists r, (forall i, i < rx_len g -> r i = rx g i) /\ (forall i, 0 <= i < Z.of_nat (List.length p) -> r (rx_len g + i) = packet_bytes p i) /\
    emu_gdb_rx target core flash g w (escaped_body p) =
    (g <| rx := r |> <| rx_len := rx_len g + Z.of_nat (List.length p) |> <| raw_sum := add_sum (raw_sum g) (escaped_body p) |>, w).
Proof.
  induction p as [|b p IH]; intros g Hs He Hl Hn.
  - exists (rx g). split_and!; [reflexivity|intros i Hi; cbn in Hi; lia|]. destruct g; cbn in *. rewrite Z.add_0_r. reflexivity.
  - cbn [List.length] in *. set (g1 := g <| rx := upd (rx g) (rx_len g) b |> <| rx_len := rx_len g + 1 |> <| raw_sum := add_sum (raw_sum g) (gdb_escape b) |>).
    assert (Hl1 : rx_len g1 = rx_len g + 1) by reflexivity.
    destruct (IH g1 Hs He) as (r & Hlow & Hhigh & Hr); [lia..|]. rewrite Hl1 in Hlow, Hhigh, Hr. exists r. split_and!.
    + intros i Hi. rewrite Hlow by lia. apply upd_ne. lia.
    + intros i Hi. destruct (Z.eq_dec i 0) as [->|].
      * rewrite Hlow, Z.add_0_r by lia. apply upd_eq.
      * replace (rx_len g + i) with (rx_len g + 1 + (i - 1)) by lia. etransitivity; [apply (Hhigh (i - 1)); lia|].
        unfold packet_bytes. replace (Z.to_nat i) with (S (Z.to_nat (i - 1))) by lia. reflexivity.
    + unfold escaped_body. cbn [map List.concat]. rewrite rx_app, (rx_escaped g w b Hs He) by lia. fold (escaped_body p). fold g1. rewrite Hr.
      unfold add_sum. rewrite fold_left_app. unfold g1. replace (rx_len g + Z.of_nat (S (List.length p))) with (rx_len g + 1 + Z.of_nat (List.length p)) by lia. reflexivity.
Qed.

Lemma quiet_ack g b s : quiet (if ack_mode g then tx_raw g s else g) = (if ack_mode g then tx_raw (quiet g) s else quiet g) /\ quiet (g <| rx_state := b |>) = quiet g.
Proof. destruct (ack_mode g); split; reflexivity. Qed.

(** The reference does not look at the framing's fields either. *)
Lemma act_quiet g w x : quietly (gdb_act (g, w) x) = gdb_act (quiet g, w) x.
Proof.
  destruct x as [p hi lo| |c]; [|reflexivity|reflexivity]. cbn [gdb_act]. change (ack_mode (quiet g)) with (ack_mode g).
  destruct (sum_ok p hi lo); rewrite <- (proj1 (quiet_ack g EMU_GDB_WAIT _)); [apply dispatch_quiet|reflexivity].
Qed.

Lemma acts_quiet : forall l g w, quietly (fold_left gdb_act l (g, w)) = fold_left gdb_act l (quiet g, w).
Proof.
  induction l as [|x l IH]; intros g w; [reflexivity|]. cbn [fold_left]. rewrite <- act_quiet. destruct (gdb_act (g, w) x) as [g1 w1]. apply IH.
Qed.

(** The last character of the checksum decides. *)
Lemma rx_last g w c (ok := (0 <=? hex_val (sum0 g)) && (0 <=? hex_val c) && ((Z.shiftl (hex_val (sum0 g)) 4 |! hex_val c) =? raw_sum g)) :
  rx_state g = EMU_GDB_SUM -> sum_len g = 1 ->
  rx_byte target core flash g w c =
  let g1 := if ack_mode g then tx_raw (g <| sum_len := 2 |>) (if ok then str "+" else str "-") else g <| sum_len := 2 |> in
  let '(g2, w2) := if ok then gdb_dispatch target core flash g1 w (rx g) (rx_len g) else (g1, w) in (g2 <| rx_state := EMU_GDB_WAIT |>, w2).
Proof.
  intros Hs Hl. unfold rx_byte. rewrite Hs, Hl. cbn [Z.eqb]. change (sum0 (g <| sum_len := 2 |>)) with (sum0 g). fold ok.
  change (ack_mode (g <| sum_len := 2 |>)) with (ack_mode g). destruct (ack_mode g); reflexivity.
Qed.

Lemma rx_packet_wire (widths : forall r, 0 <= reg_width target r) g w p hi lo : rx_state g = EMU_GDB_WAIT -> item_ok (Packet p hi lo) ->
  let r := emu_gdb_rx target core flash g w (gdb_wire (Packet p hi lo)) in rx_state (fst r) = EMU_GDB_WAIT /\ quietly r = quietly (gdb_act (g, w) (Packet p hi lo)).
Proof.
  intros Hs Hok. cbn [gdb_wire item_ok] in *. rewrite rx_app.
  set (g0 := g <| rx_len := 0 |> <| sum_len := 0 |> <| raw_sum := 0 |> <| escaped := false |> <| rx_state := EMU_GDB_BODY |>).
  assert (E0 : emu_gdb_rx target core flash g w (str "$") = (g0, w)) by (cbn; unfold rx_byte; rewrite Hs; reflexivity). rewrite E0, rx_app.
  destruct (rx_body w p g0 eq_refl eq_refl) as (r & _ & Hr & E1); [cbn; lia|exact Hok|]. rewrite E1. cbv iota. change (rx_len g0) with 0 in *. cbn [Z.add] in *.
  set (g1 := g0 <| rx := r |> <| rx_len := Z.of_nat (List.length p) |> <| raw_sum := add_sum (raw_sum g0) (escaped_body p) |>).
  set (g2 := g1 <| rx_state := EMU_GDB_SUM |> <| sum0 := hi |> <| sum_len := 1 |>).
  match goal with |- context [emu_gdb_rx _ _ _ ?x w (str "#" ++ [hi; lo])] => change (emu_gdb_rx target core flash x w (str "#" ++ [hi; lo])) with (rx_byte target core flash g2 w lo) end.
  rewrite rx_last by reflexivity. change (sum0 g2) with hi. change (raw_sum g2) with (packet_sum p). fold (sum_ok p hi lo).
  change (rx_len g2) with (Z.of_nat (List.length p)). change (ack_mode g2) with (ack_mode g). cbv zeta. rewrite act_quiet. cbn [gdb_act].
  change (ack_mode (quiet g)) with (ack_mode g).
  assert (Eq : forall s, quiet (if ack_mode g then tx_raw (g2 <| sum_len := 2 |>) s else g2 <| sum_len := 2 |>) = (if ack_mode g then tx_raw (quiet g) s else quiet g))
    by (intros s; destruct (ack_mode g); reflexivity).
  destruct (sum_ok p hi lo); [|split; [reflexivity|unfold quietly; cbn [fst snd]; rewrite <- Eq; reflexivity]].
  rewrite (dispatch_agree target core flash widths _ w (rx g2) (packet_bytes p)), <- Eq, <- dispatch_quiet; [|lia|intros i Hi; apply (Hr i Hi)].
  destruct (gdb_dispatch _ _ _ _ _ _ _) as [g3 w3]. split; reflexivity.
Qed.

Lemma rx_item (widths : forall r, 0 <= reg_width target r) g w x : rx_state g = EMU_GDB_WAIT -> item_ok x ->
  let r := emu_gdb_rx target core flash g w (gdb_wire x) in rx_state (fst r) = EMU_GDB_WAIT /\ quietly r = quietly (gdb_act (g, w) x).
Proof.
  intros Hs Hok. destruct x as [p hi lo| |c]; [apply rx_packet_wire; assumption| |]; cbn [gdb_wire emu_gdb_rx fold_left]; unfold rx_byte; rewrite Hs.
  - split; [exact Hs|reflexivity].
  - destruct Hok as [H1%Z.eqb_neq H2%Z.eqb_neq]. rewrite H1, H2. split; [exact Hs|reflexivity].
Qed.

Lemma rx_items (widths : forall r, 0 <= reg_width target r) : forall l g w, rx_state g = EMU_GDB_WAIT -> Forall item_ok l ->
  let r := emu_gdb_rx target core flash g w (List.concat (map gdb_wire l)) in rx_state (fst r) = EMU_GDB_WAIT /\ quietly r = quietly (fold_left gdb_act l (g, w)).
Proof.
  induction l as [|x l IH]; intros g w Hs Hl; [split; [exact Hs|reflexivity]|]. inversion Hl as [|? ? Hx Hl']; subst. cbn [map List.concat fold_left]. rewrite rx_app.
  destruct (rx_item widths g w x Hs Hx) as [Hs1 E]. destruct (emu_gdb_rx _ _ _ g w (gdb_wire x)) as [g1 w1].
  destruct (IH g1 w1 Hs1 Hl') as [Hs2 E2]. split; [exact Hs2|]. rewrite E2. destruct (gdb_act (g, w) x) as [g3 w3].
  rewrite !acts_quiet. unfold quietly in E. cbn [fst snd] in E. apply pair_eq in E as [-> ->]. reflexivity.
Qed.

Lemma rx_chunks : forall l g w, fold_left (fun '(g, w) d => emu_gdb_rx target core flash g w d) l (g, w) = emu_gdb_rx target core flash g w (List.concat l).
Proof. induction l as [|d l IH]; intros g w; [reflexivity|]. cbn [fold_left List.concat]. rewrite rx_app. destruct (emu_gdb_rx _ _ _ g w d). apply IH. Qed.
End Session.

Lemma hex_digit_val v : 0 <= v < 16 -> hex_val (hex_digit v) = v.
Proof. intros H. assert (v = 0 \/ v = 1 \/ v = 2 \/ v = 3 \/ v = 4 \/ v = 5 \/ v = 6 \/ v = 7 \/ v = 8 \/ v = 9 \/ v = 10 \/ v = 11 \/ v = 12 \/ v = 13 \/ v = 14 \/ v = 15) by lia.
  repeat match goal with H : _ \/ _ |- _ => destruct H as [->|H]; [reflexivity|] end. subst; reflexivity. Qed.

Lemma hex_byte_val b : 0 <= b < 256 -> hex_val (hex_digit (Z.shiftr b 4)) = Z.shiftr b 4 /\ hex_val (hex_digit (b &! 15)) = b &! 15 /\
  Z.shiftl (Z.shiftr b 4) 4 |! (b &! 15) = b.
Proof.
  intros H. assert (Hl : b &! 15 = b mod 16) by (apply (Z.land_ones b 4); lia). assert (Hh : Z.shiftr b 4 = b / 16) by (apply Z.shiftr_div_pow2; lia).
  split_and!; [apply hex_digit_val; rewrite Hh; split; [apply Z.div_pos; lia|apply Z.div_lt_upper_bound; lia]|apply hex_digit_val; rewrite Hl; apply Z.mod_pos_bound; lia|].
  apply Z.bits_inj'. intros i Hi. rewrite Z.lor_spec, Z.land_spec. change 15 with (Z.ones 4).
  destruct (Z.lt_ge_cases i 4); [rewrite Z.shiftl_spec_low, Z.ones_spec_low by lia; apply andb_true_r|].
  rewrite Z.shiftl_spec, Z.shiftr_spec, Z.ones_spec_high by lia. rewrite andb_false_r, orb_false_r. f_equal. lia.
Qed.

Lemma body_sum_byte l : 0 <= body_sum l < 256.
Proof.
  unfold body_sum. assert (forall l a, 0 <= a < 256 -> 0 <= fold_left (fun s c => u8 (s + c)) l a < 256); [|apply H; lia].
  clear l. induction l as [|c l IH]; intros a Ha; [exact Ha|]. apply IH, Z.mod_pos_bound. lia.
Qed.

Lemma own_sum_ok p : sum_ok p (hex_digit (Z.shiftr (packet_sum p) 4)) (hex_digit (packet_sum p &! 15)) = true.
Proof.
  destruct (hex_byte_val (packet_sum p) (body_sum_byte _)) as (H1 & H2 & H3). unfold sum_ok. rewrite H1, H2, H3, Z.eqb_refl, andb_true_r.
  pose proof (body_sum_byte (escaped_body p)). fold (packet_sum p) in *. apply andb_true_intro. split; apply Z.leb_le; [apply Z.shiftr_nonneg; lia|apply Z.land_nonneg; lia].
Qed.

(** [C11] A session is its packets.  Whatever gdb sends from a quiet line -- packets of at most the size the stub announces,
    escaped as gdb escapes them, interrupts and acknowledgements, in any order -- and however the transport cuts the bytes, the stub
    does for each packet whose checksum holds exactly the command its own bytes spell, in order, after acknowledging it; an
    interrupt halts the guest; and a packet whose checksum is wrong is refused with a minus and changes nothing.  What an earlier packet left in
    the receive buffer has no part in it, and the line is quiet again at the end.  A packet that carries the sum of its body is never refused. *)
Theorem session_exact {W} (target : emu_gdb_target W) (core : gdb_core W) (flash : emu_gdb_flash_ops W) (items : list gdb_item) (chunks : list (list Z)) g w :
  (forall r, 0 <= reg_width target r) -> rx_state g = EMU_GDB_WAIT -> Forall item_ok items -> List.concat chunks = List.concat (map gdb_wire items) ->
  (let '(g', w') := fold_left (fun '(g, w) d => emu_gdb_rx target core flash g w d) chunks (g, w) in
   rx_state g' = EMU_GDB_WAIT /\ quietly (g', w') = quietly (fold_left (gdb_act target core flash) items (g, w))) /\
  (forall p, sum_ok p (hex_digit (Z.shiftr (packet_sum p) 4)) (hex_digit (packet_sum p &! 15)) = true).
Proof.
  intros Hw Hs Hl Hc. split; [|exact own_sum_ok]. rewrite rx_chunks, Hc. destruct (rx_items target core flash Hw items g w Hs Hl) as [H1 H2].
  destruct (emu_gdb_rx _ _ _ _ _ _) as [g' w']. split; [exact H1|exact H2].
Qed.

(** ** Breakpoints *)

Fixpoint vat {V} (vstep : V -> V) (k : nat) (v : V) : V := match k with O => v | S k => vat vstep k (vstep v) end.

Lemma vat_add {V} (vstep : V -> V) : forall a b v, vat vstep (a + b) v = vat vstep b (vat vstep a v).
Proof. induction a as [|a IH]; intros b v; [reflexivity|]. apply IH. Qed.

(** What the stub relies on of a backend: the guest is a machine that steps; [step] is one of its steps; and while no exit is chained
    -- which [emu_jit_unchain] brings about, and neither a step nor a run of one undoes -- a run of one is some steps of one block,
    none of which but the last leaves the window ahead of where it starts. *)
Class block_core {W V} (target : emu_gdb_target W) (core : gdb_core W) (view : W -> V) (vstep : V -> V) (vpc : V -> Z) (plain : W -> Prop) (most : Z) : Prop := {
  bc_most : 1 <= most;
  bc_pc : forall w, pc_get target w = vpc (view w);
  bc_step : forall w, view (snd (c_step core w)) = vstep (view w);
  bc_step_plain : forall w, plain w -> plain (snd (c_step core w));
  bc_unchain : forall w, view (c_unchain core w) = view w /\ plain (c_unchain core w);
  bc_run : forall w why n w', plain w -> c_run core w 1 = (why, n, w') -> 0 <= n <= most /\ plain w' /\
    exists k, view w' = vat vstep k (view w) /\
      forall i, (0 < i < k)%nat -> vpc (view w) <= vpc (vat vstep i (view w)) < vpc (view w) + EMU_GDB_BREAK_WINDOW
}.

Lemma break_far g pc a : break_near g pc = false -> pc <= a < pc + EMU_GDB_BREAK_WINDOW -> break_find g a = None.
Proof.
  intros Hn Ha. destruct (break_find g a) as [i|] eqn:E; [|reflexivity]. apply List.find_some in E as [Hi [Hu E]%andb_prop]. apply Z.eqb_eq in E.
  enough (break_near g pc = true) by congruence. apply existsb_exists. exists i. split; [exact Hi|]. rewrite Hu, E. cbn [andb].
  apply andb_true_intro. split; [apply Z.leb_le|apply Z.ltb_lt]; lia.
Qed.

Section Breakpoints.
Context {W V : Type} (target : emu_gdb_target W) (core : gdb_core W) (view : W -> V) (vstep : V -> V) (vpc : V -> Z) (plain : W -> Prop) (most : Z).
Context `{BC : !block_core target core view vstep vpc plain most}.

(** [k] steps that pass no breakpoint on the way. *)
Definition passes_none (g : emu_gdb) (v : V) (k : nat) : Prop := forall i, (0 < i < k)%nat -> break_find g (vpc (vat vstep i v)) = None.

Definition break_turn (g : emu_gdb) (w : W) : emu_run_reason * Z * W :=
  if break_near g (pc_get target w) then let '(why, w) := c_step core w in (why, 1, w) else c_run core w 1.

Lemma turn_sound g w why n w' : plain w -> break_turn g w = (why, n, w') ->
  0 <= n <= most /\ plain w' /\ exists k, view w' = vat vstep k (view w) /\ passes_none g (view w) k.
Proof.
  intros Hp. unfold break_turn. pose proof bc_most as Hm. destruct (break_near g _) eqn:En.
  - pose proof (bc_step w) as Hv. pose proof (bc_step_plain w Hp) as Hq. destruct (c_step core w) as [y w1]. intros [= <- <- <-]. cbn [snd] in *.
    split_and!; [lia|lia|exact Hq|]. exists 1%nat. split; [exact Hv|]. intros i Hi. lia.
  - intros E. destruct (bc_run w why n w' Hp E) as (Hn & Hq & k & Hk & Hw). split_and!; [lia|lia|exact Hq|]. exists k. split; [exact Hk|].
    intros i Hi. eapply break_far; [exact En|]. rewrite bc_pc. apply Hw, Hi.
Qed.

Lemma passes_trans g v a b : passes_none g v a -> break_find g (vpc (vat vstep a v)) = None -> passes_none g (vat vstep a v) b -> passes_none g v (a + b).
Proof.
  intros Ha Hm Hb i Hi. destruct (Nat.lt_trichotomy i a) as [Hl|[->|Hl]]; [apply Ha; lia|exact Hm|].
  replace i with (a + (i - a))%nat by lia. rewrite vat_add. apply Hb. lia.
Qed.

(** What a run with breakpoints leaves. *)
Definition run_post (g : emu_gdb) (w : W) (budget : Z) (why : emu_run_reason) (n : Z) (g' : emu_gdb) (w' : W) : Prop :=
  brk g' = brk g /\ (unchained g' = true -> plain w') /\ sent g' = (if halted g' then sent (send_stop target core g w' 5) else sent g) /\
  exists k, view w' = vat vstep k (view w) /\ passes_none g (view w) k /\
    if halted g' then why <> EMU_RUN_BUDGET \/ break_find g (vpc (view w')) <> None
    else why = EMU_RUN_BUDGET /\ (k = O \/ break_find g (vpc (view w')) = None) /\ (budget <= n \/ exists w0, c_run core w0 1 = (why, 0, w')).

Lemma is_budget_eq r : is_budget r = true <-> r = EMU_RUN_BUDGET.
Proof. destruct r; split; (reflexivity || discriminate). Qed.

Lemma turn_zero g w why w' : break_turn g w = (why, 0, w') -> c_run core w 1 = (why, 0, w').
Proof. unfold break_turn. destruct (break_near _ _); [destruct (c_step core w); discriminate|auto]. Qed.

Lemma unchain_pc w : pc_get target (c_unchain core w) = pc_get target w.
Proof. pose proof (bc_unchain w) as [H _]. pose proof (bc_pc w) as H1. pose proof (bc_pc (c_unchain core w)) as H2. rewrite H1, H2, H. reflexivity. Qed.

(** One turn of the loop, the links undone. *)
Lemma loop_turn fuel g w retired budget : retired < budget ->
  break_loop target core (S fuel) g w retired budget =
  let g1 := g <| unchained := true |> in
  let '(why, n, w2) := break_turn g (if unchained g then w else c_unchain core w) in
  let retired := retired +! n in
  if negb (is_budget why) then Some (why, retired, send_stop target core (g1 <| halted := true |>) w2 5, w2)
  else match break_find g (pc_get target w2) with
       | Some _ => Some (EMU_RUN_BUDGET, retired, send_stop target core (g1 <| halted := true |>) w2 5, w2)
       | None => if n =? 0 then Some (EMU_RUN_BUDGET, retired, g1, w2) else break_loop target core fuel g1 w2 retired budget
       end.
Proof.
  intros Hb%Z.leb_gt. cbn [break_loop]. rewrite Hb. unfold break_turn. destruct (unchained g) eqn:Eu; cbn [negb].
  - replace (g <| unchained := true |>) with g by (destruct g; cbn in Eu; subst; reflexivity). reflexivity.
  - rewrite unchain_pc. reflexivity.
Qed.

Lemma post_halted g w budget why n w' k : view w' = vat vstep k (view w) -> passes_none g (view w) k -> plain w' ->
  why <> EMU_RUN_BUDGET \/ break_find g (vpc (view w')) <> None ->
  run_post g w budget why n (send_stop target core (g <| unchained := true |> <| halted := true |>) w' 5) w'.
Proof. intros Hv Hn Hp H. unfold run_post. split_and!; [reflexivity|intros _; exact Hp|reflexivity|]. exists k. split_and!; [exact Hv|exact Hn|exact H]. Qed.

Lemma post_trans g w w1 budget why n g' w' k : halted g = false -> view w1 = vat vstep k (view w) -> passes_none g (view w) k -> break_find g (vpc (view w1)) = None ->
  run_post (g <| unchained := true |>) w1 budget why n g' w' -> run_post g w budget why n g' w'.
Proof.
  intros Hh Hv Hn Hb (P1 & P2 & P3 & k2 & Hv2 & Hn2 & P4). unfold run_post. split_and!; [exact P1|exact P2|exact P3|]. rewrite Hv in *.
  exists (k + k2)%nat. rewrite vat_add. split_and!; [exact Hv2|apply passes_trans; assumption|]. destruct (halted g'); [exact P4|].
  destruct P4 as (Q1 & Q2 & Q3). split_and!; [exact Q1| |exact Q3]. right. destruct Q2 as [->|Q2]; [rewrite Hv2; exact Hb|exact Q2].
Qed.

Lemma post_running g w budget why n w' k : halted g = false -> view w' = vat vstep k (view w) -> passes_none g (view w) k -> plain w' -> why = EMU_RUN_BUDGET ->
  k = O \/ break_find g (vpc (view w')) = None -> budget <= n \/ (exists w0, c_run core w0 1 = (why, 0, w')) ->
  run_post g w budget why n (g <| unchained := true |>) w'.
Proof.
  intros Hh Hv Hn Hp Hw Hk Hb. unfold run_post. change (halted (g <| unchained := true |>)) with (halted g). rewrite Hh.
  split_and!; [reflexivity|intros _; exact Hp|reflexivity|]. exists k. split_and!; assumption.
Qed.

Lemma break_loop_sound budget : budget + most <= 2 ^ 32 -> forall fuel g w retired,
  halted g = false -> (unchained g = true -> plain w) -> 0 <= retired -> Z.max 0 (budget - retired) < Z.of_nat fuel ->
  exists why n g' w', break_loop target core fuel g w retired budget = Some (why, n, g', w') /\ run_post g w budget why n g' w'.
Proof.
  intros Hb. induction fuel as [|fuel IH]; intros g w retired Hh Hu Hr Hf; [lia|]. destruct (Z.le_gt_cases budget retired) as [Hd|Hd].
  { cbn [break_loop]. rewrite (proj2 (Z.leb_le _ _) Hd). eexists _, _, _, _. split; [reflexivity|].
    unfold run_post. rewrite Hh. split_and!; [reflexivity|exact Hu|reflexivity|]. exists O. split_and!; auto. intros i Hi. lia. }
  rewrite loop_turn by exact Hd. set (w1 := if unchained g then w else c_unchain core w).
  assert (Hv1 : view w1 = view w /\ plain w1).
  { unfold w1. destruct (unchained g); [auto|apply bc_unchain]. }
  destruct Hv1 as [Hv1 Hp1]. destruct (break_turn g w1) as [[why n] w2] eqn:Et. destruct (turn_sound g w1 why n w2 Hp1 Et) as (Hn & Hp2 & k & Hk & Hpass).
  rewrite Hv1 in *. cbv zeta. assert (Hpc : pc_get target w2 = vpc (view w2)) by apply bc_pc. rewrite Hpc.
  destruct (is_budget why) eqn:Ey; cbn [negb].
  2:{ eexists _, _, _, _. split; [reflexivity|]. eapply post_halted; eauto. left. intros ->. discriminate. }
  apply is_budget_eq in Ey. destruct (break_find g (vpc (view w2))) as [b|] eqn:Ef.
  { eexists _, _, _, _. split; [reflexivity|]. eapply post_halted; eauto. right. congruence. }
  destruct (n =? 0) eqn:E0.
  { apply Z.eqb_eq in E0 as ->. eexists _, _, _, _. split; [reflexivity|]. subst why. eapply post_running; eauto. right. exists w1. apply turn_zero in Et. exact Et. }
  apply Z.eqb_neq in E0. assert (Ea : retired +! n = retired + n) by (apply Z.mod_small; lia). rewrite Ea.
  destruct (IH (g <| unchained := true |>) w2 (retired + n)) as (y & m & g' & w' & Er & Hpost); [exact Hh|intros _; exact Hp2|lia|lia|].
  exists y, m, g', w'. split; [exact Er|]. eapply post_trans; eauto.
Qed.
End Breakpoints.

(** [C26] Breakpoints are exact.  With a breakpoint set, and a backend that runs one block, of at most [most] instructions, for a budget of one, a run whose budget leaves [most] of room in a word always returns,
    and wherever it has brought the guest, stepping it instruction by instruction passes no breakpoint on the way -- though
    the run steps only near one, and runs blocks elsewhere.  It leaves the guest halted only where it stopped of its own or is
    at a breakpoint, and then gdb is told once, with the pc it stopped at; otherwise the guest is not at a breakpoint (unless it has not moved),
    nothing is sent, and the run returned for its budget or because the backend makes no progress.  The breakpoints stay as they were,
    and so does what the next run relies on. *)
Theorem breakpoints_exact {W V} (target : emu_gdb_target W) (core : gdb_core W) (view : W -> V) (vstep : V -> V) (vpc : V -> Z) (plain : W -> Prop) (most : Z)
    `{!block_core target core view vstep vpc plain most} fuel g w budget :
  halted g = false -> stepping g = false -> break_any g = true -> (unchained g = true -> plain w) ->
  0 <= budget -> budget + most <= 2 ^ 32 -> budget < Z.of_nat fuel ->
  exists why n g' w', emu_gdb_run target core fuel g w budget = Some (why, n, g', w') /\
    brk g' = brk g /\ (unchained g' = true -> plain w') /\ sent g' = (if halted g' then sent (send_stop target core g w' 5) else sent g) /\
    exists k, view w' = vat vstep k (view w) /\ (forall i, (0 < i < k)%nat -> break_find g (vpc (vat vstep i (view w))) = None) /\
      if halted g' then why <> EMU_RUN_BUDGET \/ break_find g (vpc (view w')) <> None
      else why = EMU_RUN_BUDGET /\ (k = O \/ break_find g (vpc (view w')) = None) /\ (budget <= n \/ exists w0, c_run core w0 1 = (why, 0, w')).
Proof.
  intros Hh Hs Ha Hu Hb Hm Hf. unfold emu_gdb_run. rewrite Hh, Hs, Ha. cbn [negb]. apply (break_loop_sound target core view vstep vpc plain most); auto; lia.
Qed.

(** ** A guest of straight-line code, in blocks of four instructions *)

Definition line := (Z * (Z -> Z))%type.
Definition line_target : emu_gdb_target line := GdbTarget line 33 4 None 32 (fun w r => if r =? 32 then fst w else snd w r)
  (fun w r v => if r =? 32 then (v, snd w) else (fst w, upd (snd w) r v)) fst (Some (fun w pc => (pc, snd w))) 5 None.
Definition line_core : gdb_core line := GdbCore line (fun _ => false) (fun _ => []) (fun w _ => (None, w)) (fun w _ _ => (false, w)) None
  (fun w => (EMU_RUN_BUDGET, (fst w + 4, snd w))) (fun w n => (EMU_RUN_BUDGET, 4, (fst w + 16, snd w))) (fun w => w).
Definition no_flash {W} : emu_gdb_flash_ops W := GdbFlash W (fun w _ _ => (false, w)) (fun w _ _ => (false, w)) (fun w => (false, w)) 0 None.

#[local] Instance line_blocks : block_core line_target line_core fst (fun pc => pc + 4) (fun pc => pc) (fun _ => True) 4.
Proof.
  split; [lia|reflexivity|reflexivity|auto|auto|]. intros w why n w' _ [= <- <- <-]. split_and!; [lia|lia|exact I|]. exists 4%nat. split; [cbn; lia|].
  intros i Hi. unfold EMU_GDB_BREAK_WINDOW. assert (E : i = 1%nat \/ i = 2%nat \/ i = 3%nat) by lia. destruct E as [->|[->| ->]]; cbn; lia.
Qed.

Definition line_start : emu_gdb * line := (emu_gdb_attach emu_gdb_init, (0, fun _ => 0)).
Definition own (s : string) : gdb_item := Packet (str s) (hex_digit (Z.shiftr (packet_sum (str s)) 4)) (hex_digit (packet_sum (str s) &! 15)).

(** A breakpoint, a register, a packet damaged on the way, and the resumption; cut in the middle of the second packet. *)
Definition line_session : list gdb_item := [own "Z0,2008,4"; Ack (chr "+"); own "P1=78563412"; Packet (str "P1=00000000") (chr "0") (chr "0"); own "c"].
Definition line_wire : list Z := List.concat (map gdb_wire line_session).

Lemma session_exact_witness :
  List.concat [take 21 line_wire; drop 21 line_wire] = line_wire /\
  (let '(g, w) := fold_left (fun '(g, w) d => emu_gdb_rx line_target line_core no_flash g w d) [take 21 line_wire; drop 21 line_wire] line_start in
   quietly (g, w) = quietly (fold_left (gdb_act line_target line_core no_flash) line_session line_start) /\
   snd w 1 = 305419896 /\ halted g = false /\ break_find g 8200 = Some 0 /\ sent g = str "+$OK#9a+$OK#9a-+").
Proof.
  assert (Ec : List.concat [take 21 line_wire; drop 21 line_wire] = line_wire) by (vm_compute; reflexivity). split; [exact Ec|].
  pose proof (session_exact line_target line_core no_flash line_session [take 21 line_wire; drop 21 line_wire] (fst line_start) (snd line_start)
    ltac:(intros r; vm_compute; discriminate) eq_refl ltac:(repeat constructor; vm_compute; discriminate) Ec) as [H _].
  change (fst line_start, snd line_start) with line_start in H.
  assert (Hv : let '(g, w) := fold_left (fun '(g, w) d => emu_gdb_rx line_target line_core no_flash g w d) [take 21 line_wire; drop 21 line_wire] line_start in
    snd w 1 = 305419896 /\ halted g = false /\ break_find g 8200 = Some 0 /\ sent g = str "+$OK#9a+$OK#9a-+") by (vm_compute; repeat split; reflexivity).
  destruct (fold_left _ [take 21 line_wire; drop 21 line_wire] line_start) as [g w]. split; [exact (proj2 H)|exact Hv].
Defined.

Definition line_stub : emu_gdb := snd (break_add emu_gdb_init 8200 4).

Lemma breakpoints_exact_witness :
  exists why n g' w', emu_gdb_run line_target line_core 4001 line_stub (0, fun _ => 0) 4000 = Some (why, n, g', w') /\
    fst w' = 8200 /\ n = 2050 /\ halted g' = true /\
    exists k, fst w' = vat (fun pc => pc + 4) k 0 /\ (forall i, (0 < i < k)%nat -> break_find line_stub (vat (fun pc => pc + 4) i 0) = None).
Proof.
  destruct (breakpoints_exact line_target line_core fst (fun pc => pc + 4) (fun pc => pc) (fun _ => True) 4 4001 line_stub (0, fun _ => 0) 4000
    eq_refl eq_refl eq_refl (fun _ => I) ltac:(lia) ltac:(lia) ltac:(lia)) as (why & n & g' & w' & E & _ & _ & _ & k & Hk & Hp & _).
  exists why, n, g', w'. split; [exact E|].
  assert (Hv : match emu_gdb_run line_target line_core 4001 line_stub (0, fun _ => 0) 4000 with Some (_, n, g', w') => fst w' = 8200 /\ n = 2050 /\ halted g' = true | None => False end)
    by (vm_compute; repeat split; reflexivity).
  rewrite E in Hv. destruct Hv as (H1 & H2 & H3). split; [exact H1|]. split; [exact H2|]. split; [exact H3|]. exists k. split; [exact Hk|exact Hp].
Defined.

(** ** The stub over the JIT framework *)

#[local] Existing Instance thumb2_jit.

(** The guest of [JitDemo], with an interrupt whose handler is at 8192; [counted] says whether entering it counts as retired. *)
Definition handled (counted : bool) : jit_guest user := {|
  gu_pc := gu_pc user_guest; gu_state := gu_state user_guest; gu_generation := None; gu_blocked := None; gu_context := gu_context user_guest;
  gu_irq_pending := gu_irq_pending user_guest; gu_bind := gu_bind user_guest; gu_is_idle := None; gu_wake := gu_wake user_guest;
  gu_take_irq := gu_take_irq user_guest; gu_irq_not_retired := negb counted; gu_count := None; gu_interp := gu_interp user_guest;
  gu_after_interp := None; gu_translate := user_translate; gu_enter := gu_enter user_guest |}.

Definition user_target : emu_gdb_target (user * jit) := GdbTarget (user * jit) 1 4 None 0 (fun w _ => gu_pc user_guest (fst w)) (fun w _ _ => w) (fun w => gu_pc user_guest (fst w)) None 5 None.
Definition user_core (counted : bool) : gdb_core (user * jit) := GdbCore (user * jit) (fun _ => false) (fun _ => []) (fun w _ => (None, w)) (fun w _ _ => (false, w)) None
  (fun '(w, j) => let '(why, w, j) := emu_jit_step (handled counted) w j in (why, (w, j)))
  (fun '(w, j) n => match emu_jit_run demo_host (handled counted) 32 w j n with Some (why, n, w, j) => (why, n, (w, j)) | None => (EMU_RUN_BUDGET, 0, (w, j)) end)
  (fun '(w, j) => (w, emu_jit_unchain j)).

Definition handler_run (counted : bool) : option bool :=
  option_map (fun r => halted (snd (fst r))) (emu_gdb_run user_target (user_core counted) 32 (snd (break_add emu_gdb_init 8192 4)) ((4096, 0, true), spin_start) 8).

(** A breakpoint on the first instruction of the handler is hit where the
    entry counts as retired, and passed where it does not: a budget of one is then
    the entry and the handler's first block. *)
Example handler_breakpoint : handler_run true = Some true /\ handler_run false = Some false.
Proof. vm_compute. split; reflexivity. Qed.
