(* ===== verification/Devices.v ===== *)
(** * The console, the frame buffer, input, the finisher, and systems of cores

    [src/emu/emu_uart.c], [emu_fb.c], [emu_input.c], [emu_finisher.c] and
    [emu_cpu.c].  What a platform supplies -- the console's transport, its
    interrupt line, the end of a run, the frontends -- are functions on its
    state [P] or [W]; the frames a write presents are returned.  The console
    passes every byte once and in order; the frame a guest can make it present
    lies inside the pixels; a ring of events is a bounded queue; a round of a
    system that says it is idle did nothing. *)

From stdpp Require Import base list.
From Stdlib Require Import ZArith Lia String FunctionalExtensionality.
From S2P Require Import Prelude Bus RvHart RvBus RvMmu RvTrap RvAtomic RvFpu RvInterp RvClint RvAplic RvSoc RvLines RvDemo RvRunDemo.

Open Scope Z_scope.
Open Scope u32_scope.

(** ** The console UART *)

Definition EMU_UART_RBR_THR : Z := 0.
Definition EMU_UART_IER : Z := 1.
Definition EMU_UART_IIR_FCR : Z := 2.
Definition EMU_UART_LCR : Z := 3.
Definition EMU_UART_MCR : Z := 4.
Definition EMU_UART_LSR : Z := 5.
Definition EMU_UART_MSR : Z := 6.
Definition EMU_UART_SCR : Z := 7.
Definition EMU_UART_LSR_DR : Z := 1.
Definition EMU_UART_LSR_THRE : Z := 32.
Definition EMU_UART_LSR_TEMT : Z := 64.
Definition EMU_UART_IER_RDA : Z := 1.
Definition EMU_UART_IER_THRE : Z := 2.
Definition EMU_UART_MSR_READY : Z := 176.
Definition EMU_UART_IIR_NONE : Z := 1.
Definition EMU_UART_IIR_THRE : Z := 2.
Definition EMU_UART_IIR_RDA : Z := 4.

(** [u_wired]: whether the line leads anywhere. *)
Record emu_uart := Uart { u_pending : Z; u_ier : Z; u_lcr : Z; u_mcr : Z; u_scr : Z; u_wired : bool; u_thre : bool; u_line : bool }.
#[export] Instance uart_eta : Eta emu_uart := fun u => Uart (u_pending u) (u_ier u) (u_lcr u) (u_mcr u) (u_scr u) (u_wired u) (u_thre u) (u_line u).
#[export] Instance set_u_pending : Setter u_pending := ltac:(solve_setter).
#[export] Instance set_u_ier : Setter u_ier := ltac:(solve_setter).
#[export] Instance set_u_lcr : Setter u_lcr := ltac:(solve_setter).
#[export] Instance set_u_mcr : Setter u_mcr := ltac:(solve_setter).
#[export] Instance set_u_scr : Setter u_scr := ltac:(solve_setter).
#[export] Instance set_u_wired : Setter u_wired := ltac:(solve_setter).
#[export] Instance set_u_thre : Setter u_thre := ltac:(solve_setter).
#[export] Instance set_u_line : Setter u_line := ltac:(solve_setter).

Record uart_io (P : Type) := UartIo { io_tx : option (P -> Z -> P); io_rx : option (P -> Z * P); io_irq : P -> Z -> P }.
Arguments UartIo {P}. Arguments io_tx {P}. Arguments io_rx {P}. Arguments io_irq {P}.

Definition emu_uart_init : emu_uart := Uart (-1) 0 0 0 0 false false false.
Definition emu_uart_set_irq (u : emu_uart) (wired : bool) : emu_uart := u <| u_wired := wired |>.

Section Uart.
Context {P : Type}.
Variable io : uart_io P.

Definition uart_peek (u : emu_uart) (p : P) : Z * emu_uart * P :=
  match io_rx io with
  | Some rx => if u_pending u <? 0 then let '(c, p) := rx p in (c, u <| u_pending := c |>, p) else (u_pending u, u, p)
  | None => (u_pending u, u, p)
  end.

Definition uart_cause (u : emu_uart) (p : P) : Z * emu_uart * P :=
  let '(c, u, p) := if has (u_ier u) EMU_UART_IER_RDA then uart_peek u p else (-1, u, p) in
  if 0 <=? c then (EMU_UART_IIR_RDA, u, p)
  else if has (u_ier u) EMU_UART_IER_THRE && u_thre u then (EMU_UART_IIR_THRE, u, p)
  else (EMU_UART_IIR_NONE, u, p).

Definition uart_update_irq (u : emu_uart) (p : P) : emu_uart * P :=
  let '(cause, u, p) := uart_cause u p in
  let want := negb (cause =? EMU_UART_IIR_NONE) in
  if negb (u_wired u) || Bool.eqb want (u_line u) then (u, p)
  else (u <| u_line := want |>, io_irq io p (if want then 1 else 0)).

Definition emu_uart_poll (u : emu_uart) (p : P) : emu_uart * P := if u_wired u then uart_update_irq u p else (u, p).

Definition uart_read (u : emu_uart) (p : P) (off size : Z) : emu_fault * option Z * emu_uart * P :=
  if negb (size =? 1) && negb (size =? 4) then (EMU_FAULT_LOAD, None, u, p)
  else
    let ok v u p := (EMU_FAULT_NONE, Some v, u, p) in
    if off =? EMU_UART_RBR_THR then
      let '(c, u, p) := uart_peek u p in
      let '(u, p) := uart_update_irq (u <| u_pending := -1 |>) p in ok (if c <? 0 then 0 else c) u p
    else if off =? EMU_UART_IER then ok (u_ier u) u p
    else if off =? EMU_UART_IIR_FCR then
      let '(cause, u, p) := uart_cause u p in
      let '(u, p) := if cause =? EMU_UART_IIR_THRE then uart_update_irq (u <| u_thre := false |>) p else (u, p) in ok cause u p
    else if off =? EMU_UART_LCR then ok (u_lcr u) u p
    else if off =? EMU_UART_MCR then ok (u_mcr u) u p
    else if off =? EMU_UART_LSR then
      let '(c, u, p) := uart_peek u p in
      let lsr := EMU_UART_LSR_THRE |! EMU_UART_LSR_TEMT in ok (if 0 <=? c then lsr |! EMU_UART_LSR_DR else lsr) u p
    else if off =? EMU_UART_MSR then ok EMU_UART_MSR_READY u p
    else if off =? EMU_UART_SCR then ok (u_scr u) u p
    else ok 0 u p.

Definition uart_write (u : emu_uart) (p : P) (off size val : Z) : emu_fault * emu_uart * P :=
  if negb (size =? 1) && negb (size =? 4) then (EMU_FAULT_STORE, u, p)
  else
    let updated u p := let '(u, p) := uart_update_irq u p in (EMU_FAULT_NONE, u, p) in
    if off =? EMU_UART_RBR_THR then updated (u <| u_thre := true |>) (match io_tx io with Some tx => tx p (u8 val) | None => p end)
    else if off =? EMU_UART_IER then
      let u := u <| u_ier := u8 val |> in updated (if has (u_ier u) EMU_UART_IER_THRE then u <| u_thre := true |> else u) p
    else if off =? EMU_UART_LCR then (EMU_FAULT_NONE, u <| u_lcr := u8 val |>, p)
    else if off =? EMU_UART_MCR then (EMU_FAULT_NONE, u <| u_mcr := u8 val |>, p)
    else if off =? EMU_UART_SCR then (EMU_FAULT_NONE, u <| u_scr := u8 val |>, p)
    else (EMU_FAULT_NONE, u, p).

Definition emu_uart_ops : emu_dev_ops (emu_uart * P) := DevOps
  (fun e off sz => let '(f, v, u, p) := uart_read (fst e) (snd e) off sz in (f, v, (u, p)))
  (fun e off sz val => let '(f, u, p) := uart_write (fst e) (snd e) off sz val in (f, (u, p))).
End Uart.

(** ** The frame buffer's registers *)

Definition EMU_FB_ID : Z := 0.
Definition EMU_FB_VERSION : Z := 4.
Definition EMU_FB_WIDTH : Z := 8.
Definition EMU_FB_HEIGHT : Z := 12.
Definition EMU_FB_FORMAT : Z := 16.
Definition EMU_FB_STRIDE : Z := 20.
Definition EMU_FB_BASE : Z := 24.
Definition EMU_FB_BYTES : Z := 28.
Definition EMU_FB_FLUSH : Z := 32.
Definition EMU_FB_FRAMES : Z := 36.
Definition EMU_FB_MODE_COUNT : Z := 40.
Definition EMU_FB_MODE_INDEX : Z := 44.
Definition EMU_FB_MODE_NUMBER : Z := 48.
Definition EMU_FB_MODE_WIDTH : Z := 52.
Definition EMU_FB_MODE_HEIGHT : Z := 56.
Definition EMU_FB_MODE_FORMAT : Z := 60.
Definition EMU_FB_MODE_SET : Z := 64.
Definition EMU_FB_MODE_OK : Z := 68.
Definition EMU_FB_PALETTE : Z := 1024.
Definition EMU_FB_PALETTE_ENTRIES : Z := 256.
Definition EMU_FB_ID_MAGIC : Z := 1178752326.
Definition EMU_FB_VERSION_1 : Z := 1.
Definition EMU_FB_FMT_IDX8 : Z := 0.
Definition EMU_FB_FMT_XRGB8888 : Z := 1.

Record emu_fb_mode := FbMode { fm_number : Z; fm_width : Z; fm_height : Z; fm_format : Z }.
Record emu_fb := Fb {
  fb_present : bool; fb_base : Z; fb_bytes : Z; fb_width : Z; fb_height : Z; fb_stride : Z; fb_format : Z;
  fb_palette : Z -> Z; fb_frames : Z; fb_mode_index : Z; fb_mode_number : Z; fb_mode_ok : Z
}.
#[export] Instance fb_eta : Eta emu_fb := fun b => Fb (fb_present b) (fb_base b) (fb_bytes b) (fb_width b) (fb_height b) (fb_stride b) (fb_format b)
  (fb_palette b) (fb_frames b) (fb_mode_index b) (fb_mode_number b) (fb_mode_ok b).
#[export] Instance set_fb_palette : Setter fb_palette := ltac:(solve_setter).
#[export] Instance set_fb_frames : Setter fb_frames := ltac:(solve_setter).
#[export] Instance set_fb_mode_index : Setter fb_mode_index := ltac:(solve_setter).
#[export] Instance set_fb_mode_ok : Setter fb_mode_ok := ltac:(solve_setter).

Record emu_fb_frame := FbFrame { fr_width : Z; fr_height : Z; fr_stride : Z; fr_format : Z; fr_palette : Z -> Z }.

Definition emu_fb_bpp (format : Z) : Z := if format =? EMU_FB_FMT_IDX8 then 1 else if format =? EMU_FB_FMT_XRGB8888 then 4 else 0.

Definition k_modes : list emu_fb_mode :=
  [FbMode 19 320 200 0; FbMode 256 640 400 0; FbMode 257 640 480 0; FbMode 259 800 600 0; FbMode 261 1024 768 0; FbMode 274 640 480 1;
   FbMode 277 800 600 1; FbMode 280 1024 768 1].
Definition EMU_FB_MODE_TOTAL : Z := Z.of_nat (List.length k_modes).
Definition mode_is (width height format : Z) (m : emu_fb_mode) : bool := (fm_width m =? width) && (fm_height m =? height) && (fm_format m =? format).

Definition emu_fb_has_mode (width height format : Z) : bool := existsb (mode_is width height format) k_modes.
Definition emu_fb_max_bytes : Z :=
  fold_left (fun most m => let need := fm_width m *! fm_height m *! emu_fb_bpp (fm_format m) in if most <? need then need else most) k_modes 0.

Definition fb_set_mode (b : emu_fb) (number : Z) : bool * emu_fb :=
  match List.find (fun m => fm_number m =? number) k_modes with
  | None => (false, b)
  | Some m =>
      let stride := fm_width m *! emu_fb_bpp (fm_format m) in
      if fb_bytes b <? stride * fm_height m then (false, b)
      else (true, Fb (fb_present b) (fb_base b) (fb_bytes b) (fm_width m) (fm_height m) stride (fm_format m) (fb_palette b) (fb_frames b)
                    (fb_mode_index b) number (fb_mode_ok b))
  end.

(** [pixels]: whether there is a buffer. *)
Definition emu_fb_init (width height format stride : Z) (pixels : bool) (base bytes : Z) (present : bool) : option emu_fb :=
  let bpp := emu_fb_bpp format in
  if (bpp =? 0) || (width =? 0) || (height =? 0) || negb pixels then None
  else if negb (stride =? 0) && (stride <? width *! bpp) then None
  else
    let stride := if stride =? 0 then width *! bpp else stride in
    if bytes <? stride * height then None
    else Some (Fb present base bytes width height stride format (fun i => Z.shiftl i 16 |! Z.shiftl i 8 |! i) 0 0
                 (match List.find (mode_is width height format) k_modes with Some m => fm_number m | None => 0 end) 1).

Definition word_access (off size : Z) : bool := (size =? 4) && (off &! 3 =? 0).
Definition in_palette (off : Z) : bool := (EMU_FB_PALETTE <=? off) && (off <? EMU_FB_PALETTE + EMU_FB_PALETTE_ENTRIES * 4).
Definition mode_at (b : emu_fb) : emu_fb_mode := List.nth (Z.to_nat (fb_mode_index b)) k_modes (FbMode 0 0 0 0).

Definition fb_read (b : emu_fb) (off size : Z) : emu_fault * option Z :=
  if negb (word_access off size) then (EMU_FAULT_LOAD, None)
  else
    (EMU_FAULT_NONE,
     Some (if in_palette off then fb_palette b (Z.shiftr (off - EMU_FB_PALETTE) 2)
           else if off =? EMU_FB_ID then EMU_FB_ID_MAGIC
           else if off =? EMU_FB_VERSION then EMU_FB_VERSION_1
           else if off =? EMU_FB_WIDTH then fb_width b
           else if off =? EMU_FB_HEIGHT then fb_height b
           else if off =? EMU_FB_FORMAT then fb_format b
           else if off =? EMU_FB_STRIDE then fb_stride b
           else if off =? EMU_FB_BASE then fb_base b
           else if off =? EMU_FB_BYTES then fb_bytes b
           else if off =? EMU_FB_FRAMES then u32 (fb_frames b)
           else if off =? EMU_FB_MODE_COUNT then EMU_FB_MODE_TOTAL
           else if off =? EMU_FB_MODE_NUMBER then fm_number (mode_at b)
           else if off =? EMU_FB_MODE_WIDTH then fm_width (mode_at b)
           else if off =? EMU_FB_MODE_HEIGHT then fm_height (mode_at b)
           else if off =? EMU_FB_MODE_FORMAT then fm_format (mode_at b)
           else if off =? EMU_FB_MODE_INDEX then fb_mode_index b
           else if off =? EMU_FB_MODE_SET then fb_mode_number b
           else if off =? EMU_FB_MODE_OK then fb_mode_ok b
           else 0)).

(** The frames it hands to [present]. *)
Definition fb_write (b : emu_fb) (off size val : Z) : emu_fault * emu_fb * list emu_fb_frame :=
  if negb (word_access off size) then (EMU_FAULT_STORE, b, [])
  else if in_palette off then (EMU_FAULT_NONE, b <| fb_palette := upd (fb_palette b) (Z.shiftr (off - EMU_FB_PALETTE) 2) (val &! 16777215) |>, [])
  else if off =? EMU_FB_FLUSH then
    let b := b <| fb_frames := u64 (fb_frames b + 1) |> in
    (EMU_FAULT_NONE, b, if fb_present b then [FbFrame (fb_width b) (fb_height b) (fb_stride b) (fb_format b) (fb_palette b)] else [])
  else if off =? EMU_FB_MODE_INDEX then
    (EMU_FAULT_NONE, b <| fb_mode_index := if val <? EMU_FB_MODE_TOTAL then val else EMU_FB_MODE_TOTAL - 1 |>, [])
  else if off =? EMU_FB_MODE_SET then
    let '(ok, b) := fb_set_mode b val in (EMU_FAULT_NONE, b <| fb_mode_ok := if ok then 1 else 0 |>, [])
  else (EMU_FAULT_NONE, b, []).

(** ** Keyboard and mouse *)

Definition EMU_INPUT_ID : Z := 0.
Definition EMU_INPUT_VERSION : Z := 4.
Definition EMU_INPUT_PENDING : Z := 8.
Definition EMU_INPUT_EVENT : Z := 12.
Definition EMU_INPUT_LOST : Z := 16.
Definition EMU_INPUT_ABS_X : Z := 20.
Definition EMU_INPUT_ABS_Y : Z := 24.
Definition EMU_INPUT_BUTTONS : Z := 28.
Definition EMU_INPUT_VERSION_1 : Z := 1.
Definition EMU_INPUT_EV_VALID : Z := 2147483648.
Definition EMU_INPUT_BTN_LEFT : Z := 272.
Definition EMU_INPUT_BTN_MIDDLE : Z := 274.
Definition EMU_INPUT_RING : Z := 64.

Record emu_input := Input { in_id : Z; in_ring : Z -> Z; in_head : Z; in_count : Z; in_lost : Z; in_abs_x : Z; in_abs_y : Z; in_buttons : Z }.

(** The ring keeps what memory held; nothing reads it before it is written. *)
Definition emu_input_init (ring : Z -> Z) (id : Z) : emu_input := Input id ring 0 0 0 0 0 0.

Definition event_word (code value : Z) : Z := EMU_INPUT_EV_VALID |! Z.shiftl (value &! 32767) 16 |! (code &! 65535).
Definition press (buttons code value : Z) : Z :=
  if (EMU_INPUT_BTN_LEFT <=? code) && (code <=? EMU_INPUT_BTN_MIDDLE) then
    let bit := Z.shiftl 1 (code - EMU_INPUT_BTN_LEFT) in if negb (value =? 0) then buttons |! bit else Z.ldiff buttons bit
  else buttons.

Definition emu_input_post (i : emu_input) (code value : Z) : emu_input :=
  if EMU_INPUT_RING <=? in_count i then Input (in_id i) (in_ring i) (in_head i) (in_count i) (in_lost i +! 1) (in_abs_x i) (in_abs_y i) (in_buttons i)
  else
    Input (in_id i) (upd (in_ring i) ((in_head i + in_count i) mod EMU_INPUT_RING) (event_word code value)) (in_head i) (in_count i + 1) (in_lost i)
      (in_abs_x i) (in_abs_y i) (press (in_buttons i) code value).

Definition emu_input_motion (i : emu_input) (x y : Z) : emu_input :=
  Input (in_id i) (in_ring i) (in_head i) (in_count i) (in_lost i) x y (in_buttons i).

Definition input_read (i : emu_input) (off size : Z) : emu_fault * option Z * emu_input :=
  if negb (word_access off size) then (EMU_FAULT_LOAD, None, i)
  else
    let ok v := (EMU_FAULT_NONE, Some v, i) in
    if off =? EMU_INPUT_ID then ok (in_id i)
    else if off =? EMU_INPUT_VERSION then ok EMU_INPUT_VERSION_1
    else if off =? EMU_INPUT_PENDING then ok (in_count i)
    else if off =? EMU_INPUT_EVENT then
      if in_count i =? 0 then ok 0
      else (EMU_FAULT_NONE, Some (in_ring i (in_head i)),
            Input (in_id i) (in_ring i) ((in_head i + 1) mod EMU_INPUT_RING) (in_count i - 1) (in_lost i) (in_abs_x i) (in_abs_y i) (in_buttons i))
    else if off =? EMU_INPUT_LOST then
      (EMU_FAULT_NONE, Some (in_lost i), Input (in_id i) (in_ring i) (in_head i) (in_count i) 0 (in_abs_x i) (in_abs_y i) (in_buttons i))
    else if off =? EMU_INPUT_ABS_X then ok (in_abs_x i)
    else if off =? EMU_INPUT_ABS_Y then ok (in_abs_y i)
    else if off =? EMU_INPUT_BUTTONS then ok (in_buttons i)
    else ok 0.

Definition input_write (i : emu_input) (off size val : Z) : emu_fault * emu_input :=
  if negb (word_access off size) then (EMU_FAULT_STORE, i) else (EMU_FAULT_NONE, i).

(** ** The finisher *)

Definition EMU_FINISHER_PASS : Z := 21845.
Definition EMU_FINISHER_FAIL : Z := 13107.
Definition EMU_FINISHER_RESET : Z := 30583.

Inductive emu_finish := EMU_FINISH_EXIT | EMU_FINISH_RESET.

Definition finisher_read (off size : Z) : emu_fault * option Z := (EMU_FAULT_NONE, Some 0).

(** The call of [finish] it makes, if the platform has one. *)
Definition finisher_write (finish : bool) (off size val : Z) : emu_fault * option (emu_finish * Z) :=
  (EMU_FAULT_NONE,
   if negb (off =? 0) || negb (size =? 4) || negb finish then None
   else
     let low := val &! 65535 in
     if low =? EMU_FINISHER_PASS then Some (EMU_FINISH_EXIT, 0)
     else if low =? EMU_FINISHER_FAIL then Some (EMU_FINISH_EXIT, if negb (Z.shiftr val 16 =? 0) then Z.shiftr val 16 else 1)
     else if low =? EMU_FINISHER_RESET then Some (EMU_FINISH_RESET, 0)
     else None).

(** ** Systems *)

Definition EMU_MAX_CORES : Z := 4.

(** What [emu_cpu.c] uses of a frontend; a core is its index in the machine [W]. *)
Record emu_cpu_ops (W : Type) := CpuOps {
  co_name : string; co_elf_machine : Z; co_elf_machine_alt : Z; co_ncores : Z;
  co_instance : Z -> bool; co_init : W -> Z -> W; co_reset : W -> Z -> Z -> W; co_boot : W -> Z -> W;
  co_run : W -> Z -> Z -> Z * W; co_invalidate : option (W -> Z -> Z -> Z -> W);
  co_add_shared : option (W -> Z -> bool * W); co_add_core : option (W -> Z -> bool * W); co_status : W -> Z -> Z * bool
}.
Arguments co_name {W}. Arguments co_elf_machine {W}. Arguments co_elf_machine_alt {W}. Arguments co_ncores {W}. Arguments co_instance {W}.
Arguments co_init {W}. Arguments co_reset {W}. Arguments co_boot {W}. Arguments co_run {W}. Arguments co_invalidate {W}. Arguments co_add_shared {W}.
Arguments co_add_core {W}. Arguments co_status {W}.

Definition emu_frontend_find {W} (emu_frontends : list (emu_cpu_ops W)) (name : string) : option (emu_cpu_ops W) :=
  List.find (fun o => String.eqb (co_name o) name) emu_frontends.
Definition emu_frontend_default {W} (emu_frontends : list (emu_cpu_ops W)) : option (emu_cpu_ops W) := List.head emu_frontends.
Definition emu_frontend_for_elf {W} (emu_frontends : list (emu_cpu_ops W)) (machine : Z) : option (emu_cpu_ops W) :=
  List.find (fun o => (co_elf_machine o =? 0) || (co_elf_machine o =? machine) || (negb (co_elf_machine_alt o =? 0) && (co_elf_machine_alt o =? machine))) emu_frontends.

Section System.
Context {W : Type}.
Variable o : emu_cpu_ops W.

Definition emu_core_open (w : W) (i : Z) : bool * W := if co_instance o i then (true, co_init o w i) else (false, w).

Definition added (f : option (W -> Z -> bool * W)) (w : W) (i : Z) : bool * W := match f with Some f => f w i | None => (true, w) end.
Fixpoint open_cores (n : nat) (i : Z) (w : W) : bool * W :=
  match n with
  | O => (true, w)
  | S n =>
      let '(ok, w) := added (co_add_shared o) w i in
      if negb ok then (false, w)
      else
        let '(ok, w) := emu_core_open w i in
        if negb ok then (false, w)
        else let '(ok, w) := added (co_add_core o) w i in if negb ok then (false, w) else open_cores n (i + 1) w
  end.
(** The number of cores, if it opened. *)
Definition emu_system_open (w : W) (ncores : Z) : option Z * W :=
  let ncores := if ncores =? 0 then (if negb (co_ncores o =? 0) then co_ncores o else 1) else ncores in
  if EMU_MAX_CORES <? ncores then (None, w)
  else let '(ok, w) := open_cores (Z.to_nat ncores) 0 w in (if ok then Some ncores else None, w).

Definition cores (ncores : Z) : list Z := map Z.of_nat (seq 0 (Z.to_nat ncores)).
Definition emu_system_reset (w : W) (ncores reset_pc : Z) : W := fold_left (fun w i => co_reset o w i reset_pc) (cores ncores) w.
Definition emu_system_boot (w : W) (ncores : Z) : W := fold_left (co_boot o) (cores ncores) w.
Definition emu_system_invalidate (w : W) (ncores addr len : Z) : W :=
  fold_left (fun w i => match co_invalidate o with Some f => f w i addr len | None => w end) (cores ncores) w.

Definition emu_core_runnable (w : W) (i : Z) : bool :=
  let '(state, wakeable) := co_status o w i in
  negb (state =? EMU_STATE_HALTED) && negb (state =? EMU_STATE_HELD) && negb ((state =? EMU_STATE_WFI) && negb wakeable).

(** What it retired, and whether it was live. *)
Definition emu_core_slice (w : W) (i quantum : Z) : Z * bool * W :=
  let '(state, wakeable) := co_status o w i in
  if state =? EMU_STATE_HALTED then (0, false, w)
  else if state =? EMU_STATE_HELD then (0, false, w)
  else if (state =? EMU_STATE_WFI) && negb wakeable then (0, false, w)
  else let '(did, w) := co_run o w i quantum in (did, true, w).

(** The retired count of a round, and whether every core was idle. *)
Definition emu_system_step (w : W) (ncores quantum : Z) : Z * bool * W :=
  fold_left (fun '(total, idle, w) i => let '(did, live, w) := emu_core_slice w i quantum in (total +! did, idle && negb live, w)) (cores ncores) (0, true, w).
End System.

(** ** The console passes every byte *)

(** What went over the transport and the line, beside the platform. *)
Record tape := Tape { t_in : list Z; t_out : list Z; t_line : list Z }.
Definition tapped {P} (io : uart_io P) : uart_io (P * tape) := UartIo
  (option_map (fun tx '(p, t) c => (tx p c, Tape (t_in t) (t_out t ++ [c]) (t_line t))) (io_tx io))
  (option_map (fun rx '(p, t) => let '(c, p) := rx p in (c, (p, if c <? 0 then t else Tape (t_in t ++ [c]) (t_out t) (t_line t)))) (io_rx io))
  (fun '(p, t) l => (io_irq io p l, Tape (t_in t) (t_out t) (t_line t ++ [l]))).

Inductive uart_op := URead (off size : Z) | UWrite (off size val : Z) | UPoll.

Section UartSession.
Context {P : Type}.
Variable io : uart_io P.

(** An operation, and the byte the guest has taken by it. *)
Definition uart_do (u : emu_uart) (p : P) (x : uart_op) : list Z * emu_uart * P :=
  match x with
  | URead off size =>
      let '(c, _, _) := uart_peek io u p in
      let '(f, v, u, p) := uart_read io u p off size in
      (match v with Some v => if (off =? EMU_UART_RBR_THR) && (0 <=? c) then [v] else [] | None => [] end, u, p)
  | UWrite off size val => let '(f, u, p) := uart_write io u p off size val in ([], u, p)
  | UPoll => let '(u, p) := emu_uart_poll io u p in ([], u, p)
  end.
Fixpoint uart_session (l : list uart_op) (u : emu_uart) (p : P) : list Z * emu_uart * P :=
  match l with
  | [] => ([], u, p)
  | x :: l => let '(a, u, p) := uart_do u p x in let '(b, u, p) := uart_session l u p in (a ++ b, u, p)
  end.
End UartSession.

(** The byte looked ahead at, the interrupt condition, the bytes written to THR. *)
Definition held (u : emu_uart) : list Z := if 0 <=? u_pending u then [u_pending u] else [].
Definition wants (u : emu_uart) : bool := (has (u_ier u) EMU_UART_IER_RDA && (0 <=? u_pending u)) || (has (u_ier u) EMU_UART_IER_THRE && u_thre u).
Definition sent_by (x : uart_op) : list Z :=
  match x with UWrite off size val => if (off =? EMU_UART_RBR_THR) && ((size =? 1) || (size =? 4)) then [u8 val] else [] | _ => [] end.
Definition is_poll (x : uart_op) : bool := match x with UPoll => true | _ => false end.

(** A line driven only to change: the level it ends at. *)
Fixpoint levels (b : bool) (l : list Z) : option bool :=
  match l with [] => Some b | x :: l => if x =? (if b then 0 else 1) then levels (negb b) l else None end.

Lemma levels_snoc l : forall b c, levels b l = Some c -> levels b (l ++ [if c then 0 else 1]) = Some (negb c).
Proof.
  induction l as [|x l IH]; intros b c; cbn [levels app]; [intros [= ->]; rewrite Z.eqb_refl; reflexivity|].
  destruct (x =? _); [apply IH|discriminate].
Qed.

Lemma app_nil_if {A} (l : list A) (v : option A) : l ++ match v with Some _ => [] | None => [] end = l.
Proof. destruct v; apply app_nil_r. Qed.

Section UartProofs.
Context {P : Type}.
Variable io : uart_io P.

Definition uart_inv (taken outs : list Z) (u : emu_uart) (t : tape) : Prop :=
  t_in t = taken ++ held u /\ t_out t = outs /\ levels false (t_line t) = Some (u_line u) /\ u_wired u = true.

Lemma peek_inv taken outs u p t c u' p' t' : uart_inv taken outs u t -> uart_peek (tapped io) u (p, t) = (c, u', (p', t')) ->
  uart_inv taken outs u' t' /\ u' = u <| u_pending := c |>.
Proof.
  intros (H1 & H2 & H3 & H4). unfold uart_peek. cbn [io_rx tapped]. destruct (io_rx io) as [rx|]; cbn [option_map].
  2:{ intros [= <- <- <- <-]. split; [split_and!; assumption|destruct u; reflexivity]. }
  destruct (u_pending u <? 0) eqn:E. 2:{ intros [= <- <- <- <-]. split; [split_and!; assumption|destruct u; reflexivity]. }
  destruct (rx p) as [c1 p1]. intros [= <- <- <- <-]. split; [|reflexivity]. unfold uart_inv, held in *. rewrite Z.leb_antisym, E in H1. cbn in *.
  rewrite app_nil_r in H1. rewrite Z.leb_antisym. destruct (c1 <? 0); cbn; split_and!; try assumption; [rewrite app_nil_r|rewrite H1]; auto.
Qed.

Lemma cause_inv taken outs u p t c u' p' t' : uart_inv taken outs u t -> uart_cause (tapped io) u (p, t) = (c, u', (p', t')) ->
  uart_inv taken outs u' t' /\ negb (c =? EMU_UART_IIR_NONE) = wants u' /\ u_thre u' = u_thre u.
Proof.
  intros H. unfold uart_cause, wants. destruct (has (u_ier u) EMU_UART_IER_RDA) eqn:Er.
  - destruct (uart_peek (tapped io) u (p, t)) as [[c1 u1] [p1 t1]] eqn:E. destruct (peek_inv _ _ _ _ _ _ _ _ _ H E) as [H1 ->].
    cbn [u_ier u_thre u_pending]. change (u_ier (u <| u_pending := c1 |>)) with (u_ier u). change (u_thre (u <| u_pending := c1 |>)) with (u_thre u).
    destruct (0 <=? c1) eqn:Ec; [|destruct (has (u_ier u) EMU_UART_IER_THRE && u_thre u) eqn:Et]; intros [= <- <- <- <-];
      change (u_ier (u <| u_pending := c1 |>)) with (u_ier u); change (u_pending (u <| u_pending := c1 |>)) with c1;
      change (u_thre (u <| u_pending := c1 |>)) with (u_thre u); rewrite Er, Ec, ?Et; auto.
  - cbn [Z.leb Z.compare]. destruct (has (u_ier u) EMU_UART_IER_THRE && u_thre u) eqn:Et; intros [= <- <- <- <-]; rewrite Er, Et; auto.
Qed.

Lemma update_inv taken outs u p t u' p' t' : uart_inv taken outs u t -> uart_update_irq (tapped io) u (p, t) = (u', (p', t')) ->
  uart_inv taken outs u' t' /\ u_line u' = wants u'.
Proof.
  intros H. unfold uart_update_irq. destruct (uart_cause (tapped io) u (p, t)) as [[c u1] [p1 t1]] eqn:E.
  destruct (cause_inv _ _ _ _ _ _ _ _ _ H E) as ((H1 & H2 & H3 & H4) & Hw & _). rewrite Hw, H4. cbn [negb orb].
  destruct (Bool.eqb (wants u1) (u_line u1)) eqn:Ee; intros [= <- <- <-].
  - apply eqb_prop in Ee. split; [split_and!; assumption|congruence].
  - apply eqb_false_iff in Ee. split; [|reflexivity]. split_and!; [exact H1|exact H2| |exact H4].
    assert (Ew : wants u1 = negb (u_line u1)) by (revert Ee; destruct (wants u1), (u_line u1); cbn; congruence).
    cbn [t_line u_line]. change (u_line (u1 <| u_line := wants u1 |>)) with (wants u1). rewrite Ew.
    replace (if negb (u_line u1) then 1 else 0) with (if u_line u1 then 0 else 1) by (destruct (u_line u1); reflexivity). apply levels_snoc, H3.
Qed.

Lemma poll_inv taken outs u p t u' p' t' : uart_inv taken outs u t -> emu_uart_poll (tapped io) u (p, t) = (u', (p', t')) ->
  uart_inv taken outs u' t' /\ u_line u' = wants u'.
Proof. intros H. unfold emu_uart_poll. rewrite (proj2 (proj2 (proj2 H))). apply update_inv, H. Qed.

(** A change of a field the invariant does not read. *)
Lemma field_inv taken outs u u' t : u_pending u' = u_pending u -> u_line u' = u_line u -> u_wired u' = u_wired u -> uart_inv taken outs u t -> uart_inv taken outs u' t.
Proof. unfold uart_inv, held. intros -> -> ->. auto. Qed.

Lemma read_inv taken outs u p t off size c uc pc f v u' p' t' : uart_inv taken outs u t -> uart_peek (tapped io) u (p, t) = (c, uc, pc) ->
  uart_read (tapped io) u (p, t) off size = (f, v, u', (p', t')) ->
  uart_inv (taken ++ match v with Some v => if (off =? EMU_UART_RBR_THR) && (0 <=? c) then [v] else [] | None => [] end) outs u' t'.
Proof.
  intros H Ep. unfold uart_read. destruct (_ && _); [intros [= <- <- <- <- <-]; rewrite app_nil_r; exact H|].
  destruct (off =? EMU_UART_RBR_THR) eqn:E0; cbn [andb].
  { rewrite Ep. destruct pc as [p1 t1]. destruct (peek_inv _ _ _ _ _ _ _ _ _ H Ep) as [H1 ->].
    set (u1 := u <| u_pending := c |> <| u_pending := -1 |>).
    destruct (uart_update_irq (tapped io) u1 (p1, t1)) as [u2 [p2 t2]] eqn:Eu. intros [= <- <- <- <- <-]. eapply update_inv; [|exact Eu].
    destruct H1 as (H1 & H2 & H3 & H4). split_and!; [|assumption..]. rewrite H1. unfold held. cbn [u_pending u1].
    change (u_pending (u <| u_pending := c |>)) with c. change (u_pending u1) with (-1). cbn [Z.leb Z.compare]. rewrite Z.leb_antisym, app_nil_r. destruct (c <? 0); reflexivity. }
  rewrite app_nil_if. destruct (off =? EMU_UART_IER); [intros [= <- <- <- <- <-]; exact H|].
  destruct (off =? EMU_UART_IIR_FCR).
  { destruct (uart_cause (tapped io) u (p, t)) as [[c1 u1] [p1 t1]] eqn:Ec. destruct (cause_inv _ _ _ _ _ _ _ _ _ H Ec) as (H1 & _ & _).
    destruct (c1 =? EMU_UART_IIR_THRE); [|intros [= <- <- <- <- <-]; exact H1].
    destruct (uart_update_irq (tapped io) (u1 <| u_thre := false |>) (p1, t1)) as [u2 [p2 t2]] eqn:Eu. intros [= <- <- <- <- <-].
    eapply update_inv; [|exact Eu]. exact H1. }
  destruct (off =? EMU_UART_LCR); [intros [= <- <- <- <- <-]; exact H|]. destruct (off =? EMU_UART_MCR); [intros [= <- <- <- <- <-]; exact H|].
  destruct (off =? EMU_UART_LSR).
  { rewrite Ep. destruct pc as [p1 t1]. intros [= <- <- <- <- <-]. apply (peek_inv _ _ _ _ _ _ _ _ _ H Ep). }
  destruct (off =? EMU_UART_MSR); [intros [= <- <- <- <- <-]; exact H|]. destruct (off =? EMU_UART_SCR); intros [= <- <- <- <- <-]; exact H.
Qed.

Definition outs_of (x : uart_op) : list Z := match io_tx io with Some _ => sent_by x | None => [] end.

Lemma write_inv taken outs u p t off size val f u' p' t' : uart_inv taken outs u t -> uart_write (tapped io) u (p, t) off size val = (f, u', (p', t')) ->
  uart_inv taken (outs ++ outs_of (UWrite off size val)) u' t'.
Proof.
  intros H. unfold uart_write, outs_of, sent_by. destruct (negb (size =? 1) && negb (size =? 4)) eqn:Es.
  { rewrite <- negb_orb in Es. apply negb_true_iff in Es. rewrite Es, andb_false_r. intros [= <- <- <- <-]. destruct (io_tx io); rewrite app_nil_r; exact H. }
  rewrite <- negb_orb in Es. apply negb_false_iff in Es. rewrite Es, andb_true_r. destruct (off =? EMU_UART_RBR_THR).
  { cbn [io_tx tapped]. destruct (io_tx io) as [tx|]; cbn [option_map]; destruct (uart_update_irq _ _ _) as [u1 [p1 t1]] eqn:Eu; intros [= <- <- <- <-];
      (eapply update_inv; [|exact Eu]); destruct H as (H1 & H2 & H3 & H4); split_and!; try assumption; cbn [t_out]; rewrite H2, ?app_nil_r; reflexivity. }
  replace (match io_tx io with Some _ => [] | None => [] end) with (@nil Z) by (destruct (io_tx io); reflexivity). rewrite app_nil_r.
  destruct (off =? EMU_UART_IER).
  { cbv zeta. destruct (uart_update_irq _ _ _) as [u1 [p1 t1]] eqn:Eu. intros [= <- <- <- <-]. eapply update_inv; [|exact Eu].
    destruct (has _ _); (eapply field_inv; [..|exact H]); reflexivity. }
  destruct (off =? EMU_UART_LCR); [intros [= <- <- <- <-]; exact H|]. destruct (off =? EMU_UART_MCR); [intros [= <- <- <- <-]; exact H|].
  destruct (off =? EMU_UART_SCR); intros [= <- <- <- <-]; exact H.
Qed.

Lemma do_inv taken outs u p t x a u' p' t' : uart_inv taken outs u t -> uart_do (tapped io) u (p, t) x = (a, u', (p', t')) ->
  uart_inv (taken ++ a) (outs ++ outs_of x) u' t' /\ (is_poll x = true -> u_line u' = wants u').
Proof.
  intros H. destruct x as [off size|off size val|]; cbn [uart_do is_poll].
  - destruct (uart_peek (tapped io) u (p, t)) as [[c uc] pc] eqn:Ep. destruct (uart_read (tapped io) u (p, t) off size) as [[[f v] u1] [p1 t1]] eqn:Er.
    intros [= <- <- <- <-]. split; [|discriminate]. replace (outs_of _) with (@nil Z) by (unfold outs_of; destruct (io_tx io); reflexivity). rewrite app_nil_r.
    eapply read_inv; eassumption.
  - destruct (uart_write (tapped io) u (p, t) off size val) as [[f u1] [p1 t1]] eqn:Ew. intros [= <- <- <- <-]. split; [|discriminate]. rewrite app_nil_r.
    eapply write_inv; eassumption.
  - destruct (emu_uart_poll (tapped io) u (p, t)) as [u1 [p1 t1]] eqn:Ew. intros [= <- <- <- <-]. destruct (poll_inv _ _ _ _ _ _ _ _ H Ew) as [H1 H2].
    replace (outs_of _) with (@nil Z) by (unfold outs_of; destruct (io_tx io); reflexivity). rewrite !app_nil_r. auto.
Qed.

Lemma uart_session_inv : forall l taken outs u p t a u' p' t', uart_inv taken outs u t -> uart_session (tapped io) l u (p, t) = (a, u', (p', t')) ->
  uart_inv (taken ++ a) (outs ++ List.concat (map outs_of l)) u' t' /\ (forall l0, l = l0 ++ [UPoll] -> u_line u' = wants u').
Proof.
  induction l as [|x l IH]; intros taken outs u p t a u' p' t' H; cbn [uart_session map List.concat].
  - intros [= <- <- <- <-]. rewrite !app_nil_r. split; [exact H|]. intros [|? ?]; discriminate.
  - destruct (uart_do (tapped io) u (p, t) x) as [[a1 u1] [p1 t1]] eqn:E1. destruct (uart_session (tapped io) l u1 (p1, t1)) as [[a2 u2] [p2 t2]] eqn:E2.
    intros [= <- <- <- <-]. destruct (do_inv _ _ _ _ _ _ _ _ _ _ H E1) as [H1 Hp]. destruct (IH _ _ _ _ _ _ _ _ _ H1 E2) as [H2 Hq].
    rewrite !app_assoc. split; [exact H2|]. intros [|y l0]; cbn [app]; intros [= -> ->]; [|apply (Hq l0); reflexivity].
    cbn [uart_session] in E2. injection E2 as <- <- <- <-. apply Hp. reflexivity.
Qed.
End UartProofs.

(** [C12] The console loses nothing, doubles nothing and keeps the order.  Over any transport, whatever the guest reads and writes and whenever the
    platform polls, the bytes received are those the guest has taken from RBR, in order, followed by the one looked ahead at if there is one;
    the bytes sent are those it wrote to THR; the interrupt line is driven only to change it, and stands as the last call left it; and
    after a poll it is high exactly when an enabled condition holds: a byte is there to read, or the transmitter has not been acknowledged. *)
Theorem uart_faithful {P} (io : uart_io P) (l : list uart_op) (p : P) :
  let '(taken, u, (_, t)) := uart_session (tapped io) l (emu_uart_set_irq emu_uart_init true) (p, Tape [] [] []) in
  t_in t = taken ++ held u /\
  t_out t = match io_tx io with Some _ => List.concat (map sent_by l) | None => [] end /\
  levels false (t_line t) = Some (u_line u) /\
  match rev l with UPoll :: _ => u_line u = wants u | _ => True end.
Proof.
  destruct (uart_session _ _ _ _) as [[taken u] [p' t]] eqn:E.
  assert (H0 : uart_inv [] [] (emu_uart_set_irq emu_uart_init true) (Tape [] [] [])) by (split_and!; reflexivity).
  destruct (uart_session_inv io l [] [] _ _ _ _ _ _ _ H0 E) as [(H1 & H2 & H3 & _) Hl]. split_and!; [exact H1| |exact H3|].
  - rewrite H2. cbn [app]. unfold outs_of. destruct (io_tx io); [reflexivity|]. clear. induction l; [reflexivity|exact IHl].
  - destruct (rev l) as [|[]] eqn:Er; try exact I. apply (Hl (rev l0)). rewrite <- (rev_involutive l), Er. reflexivity.
Qed.

(** ** Input is a bounded queue *)

Record event_queue := Events { q_events : list Z; q_lost : Z; q_x : Z; q_y : Z; q_buttons : Z }.
Inductive input_op := IPost (code value : Z) | IMotion (x y : Z) | IRead (off size : Z) | IWrite (off size val : Z).

(** The reference: events in the order they came, the newest dropped and
    counted when there are as many as the ring holds.  The position and the
    buttons are state beside the queue, as the registers' documentation has
    it: a press or a release that finds no room is dropped as an event, and is
    the state of the button all the same. *)
Definition queue_do (id : Z) (q : event_queue) (x : input_op) : option (emu_fault * option Z) * event_queue :=
  match x with
  | IPost code value =>
      (None, if EMU_INPUT_RING <=? Z.of_nat (List.length (q_events q)) then Events (q_events q) (q_lost q +! 1) (q_x q) (q_y q) (press (q_buttons q) code value)
             else Events (q_events q ++ [event_word code value]) (q_lost q) (q_x q) (q_y q) (press (q_buttons q) code value))
  | IMotion x y => (None, Events (q_events q) (q_lost q) x y (q_buttons q))
  | IWrite off size _ => (Some (if word_access off size then EMU_FAULT_NONE else EMU_FAULT_STORE, None), q)
  | IRead off size =>
      if negb (word_access off size) then (Some (EMU_FAULT_LOAD, None), q)
      else
        let ok v q := (Some (EMU_FAULT_NONE, Some v), q) in
        if off =? EMU_INPUT_EVENT then
          match q_events q with [] => ok 0 q | e :: r => ok e (Events r (q_lost q) (q_x q) (q_y q) (q_buttons q)) end
        else if off =? EMU_INPUT_LOST then ok (q_lost q) (Events (q_events q) 0 (q_x q) (q_y q) (q_buttons q))
        else if off =? EMU_INPUT_PENDING then ok (Z.of_nat (List.length (q_events q))) q
        else if off =? EMU_INPUT_ID then ok id q
        else if off =? EMU_INPUT_VERSION then ok EMU_INPUT_VERSION_1 q
        else if off =? EMU_INPUT_ABS_X then ok (q_x q) q
        else if off =? EMU_INPUT_ABS_Y then ok (q_y q) q
        else if off =? EMU_INPUT_BUTTONS then ok (q_buttons q) q
        else ok 0 q
  end.

Definition input_do (i : emu_input) (x : input_op) : option (emu_fault * option Z) * emu_input :=
  match x with
  | IPost code value => (None, emu_input_post i code value)
  | IMotion x y => (None, emu_input_motion i x y)
  | IRead off size => let '(f, v, i) := input_read i off size in (Some (f, v), i)
  | IWrite off size val => let '(f, i) := input_write i off size val in (Some (f, None), i)
  end.

(** What each operation of a sequence answers. *)
Fixpoint answers {S X A} (do : S -> X -> A * S) (s : S) (l : list X) : list A :=
  match l with [] => [] | x :: l => let '(a, s) := do s x in a :: answers do s l end.

Definition waiting (i : emu_input) : list Z := map (fun k => in_ring i ((in_head i + Z.of_nat k) mod EMU_INPUT_RING)) (seq 0 (Z.to_nat (in_count i))).
Definition ring_ok (i : emu_input) : Prop := 0 <= in_head i < EMU_INPUT_RING /\ 0 <= in_count i <= EMU_INPUT_RING.
Definition queue_of (i : emu_input) (buttons : Z) : event_queue := Events (waiting i) (in_lost i) (in_abs_x i) (in_abs_y i) buttons.

(** A read of the summary of the buttons; an event of a button that finds the
    queue full; a sequence without one. *)
Definition reads_buttons (x : input_op) : bool := match x with IRead off _ => off =? EMU_INPUT_BUTTONS | _ => false end.
Definition drops_button (q : event_queue) (x : input_op) : bool :=
  match x with
  | IPost code _ => (EMU_INPUT_BTN_LEFT <=? code) && (code <=? EMU_INPUT_BTN_MIDDLE) && (EMU_INPUT_RING <=? Z.of_nat (List.length (q_events q)))
  | _ => false
  end.
Fixpoint buttons_kept (id : Z) (q : event_queue) (l : list input_op) : bool :=
  match l with [] => true | x :: l => negb (drops_button q x) && buttons_kept id (snd (queue_do id q x)) l end.

Lemma waiting_length i : ring_ok i -> Z.of_nat (List.length (waiting i)) = in_count i.
Proof. intros [_ H]. unfold waiting. rewrite length_map, length_seq. lia. Qed.

Lemma ring_slot h k c : 0 <= k < c -> c < EMU_INPUT_RING -> (h + k) mod EMU_INPUT_RING <> (h + c) mod EMU_INPUT_RING.
Proof.
  unfold EMU_INPUT_RING. intros Hk Hc E. pose proof (Z.div_mod (h + k) 64). pose proof (Z.div_mod (h + c) 64). rewrite E in *.
  assert (64 * ((h + c) / 64) - 64 * ((h + k) / 64) = c - k) by lia. lia.
Qed.

Lemma waiting_post id r h c lost x y b v : 0 <= c < EMU_INPUT_RING ->
  waiting (Input id (upd r ((h + c) mod EMU_INPUT_RING) v) h (c + 1) lost x y b) = map (fun k => r ((h + Z.of_nat k) mod EMU_INPUT_RING)) (seq 0 (Z.to_nat c)) ++ [v].
Proof.
  intros Hc. unfold waiting. cbn [in_ring in_head in_count]. rewrite Z2Nat.inj_add, seq_app, map_app by lia. change (Z.to_nat 1) with 1%nat. cbn [seq map Nat.add].
  f_equal; [|rewrite Z2Nat.id, upd_eq by lia; reflexivity].
  apply map_ext_in. intros k Hk%in_seq. apply upd_ne, ring_slot; lia.
Qed.

Lemma waiting_pop id r h c lost x y b : 0 < c ->
  map (fun k => r ((h + Z.of_nat k) mod EMU_INPUT_RING)) (seq 0 (Z.to_nat c)) =
  r (h mod EMU_INPUT_RING) :: waiting (Input id r ((h + 1) mod EMU_INPUT_RING) (c - 1) lost x y b).
Proof.
  intros Hc. unfold waiting. cbn [in_ring in_head in_count]. replace (Z.to_nat c) with (S (Z.to_nat (c - 1))) by lia. cbn [seq map]. rewrite Z.add_0_r. f_equal.
  rewrite <- seq_shift, map_map. apply map_ext. intros k. f_equal. rewrite Zplus_mod_idemp_l. f_equal. lia.
Qed.

(** What an operation answers and leaves is what the reference does, but for
    the summary of the buttons, and that too while they agree. *)
Definition simulated (i : emu_input) (b : Z) (x : input_op) : Prop :=
  let '(a, i1) := input_do i x in let '(a', q1) := queue_do (in_id i) (queue_of i b) x in
  (reads_buttons x = false \/ b = in_buttons i -> a = a') /\ ring_ok i1 /\ in_id i1 = in_id i /\
  exists b1, q1 = queue_of i1 b1 /\ (b = in_buttons i -> drops_button (queue_of i b) x = false -> b1 = in_buttons i1).

Lemma post_simulated i b code value : ring_ok i -> simulated i b (IPost code value).
Proof.
  intros Hi. pose proof (waiting_length i Hi) as Hl. destruct Hi as [Hh Hc]. unfold simulated. cbn [input_do queue_do drops_button]. unfold emu_input_post.
  cbn [q_events queue_of]. rewrite Hl. destruct (EMU_INPUT_RING <=? in_count i) eqn:E.
  - split_and!; [reflexivity|split; assumption|reflexivity|]. eexists. split; [reflexivity|]. intros -> Hd. rewrite andb_true_r in Hd.
    cbn [q_buttons queue_of in_buttons]. unfold press. rewrite Hd. reflexivity.
  - apply Z.leb_gt in E. split; [reflexivity|]. split; [split; cbn; [exact Hh|lia]|]. split; [reflexivity|].
    exists (press b code value). split; [unfold queue_of; rewrite waiting_post by lia; reflexivity|]. intros -> _. reflexivity.
Qed.

(** A read that leaves the device as it is. *)
Lemma same_simulated i b x a a' : input_do i x = (a, i) -> queue_do (in_id i) (queue_of i b) x = (a', queue_of i b) -> ring_ok i ->
  (reads_buttons x = false \/ b = in_buttons i -> a = a') -> simulated i b x.
Proof. intros E1 E2 Hi H. unfold simulated. rewrite E1, E2. split_and!; [exact H|exact Hi|reflexivity|eauto]. Qed.

Lemma event_simulated i b : ring_ok i -> simulated i b (IRead EMU_INPUT_EVENT 4).
Proof.
  intros Hi. destruct i as [id r h c lost x y bt]. pose proof Hi as [Hh Hc]. cbn [in_head in_count] in *.
  destruct (Z.eqb_spec c 0) as [->|Hn]; [eapply same_simulated; [reflexivity|reflexivity|exact Hi|reflexivity]|].
  pose proof (waiting_pop id r h c lost x y bt ltac:(lia)) as Ew. rewrite (Z.mod_small h) in Ew by exact Hh.
  change (map _ _) with (waiting (Input id r h c lost x y bt)) in Ew.
  unfold simulated, input_do, queue_do, input_read. change (word_access EMU_INPUT_EVENT 4) with true. cbn [negb in_count in_ring in_head in_id q_events queue_of].
  change (EMU_INPUT_EVENT =? EMU_INPUT_ID) with false. change (EMU_INPUT_EVENT =? EMU_INPUT_VERSION) with false.
  change (EMU_INPUT_EVENT =? EMU_INPUT_PENDING) with false. change (EMU_INPUT_EVENT =? EMU_INPUT_EVENT) with true. cbv iota.
  rewrite (proj2 (Z.eqb_neq c 0)) by exact Hn. rewrite Ew. split; [reflexivity|]. split; [split; cbn [in_head in_count]; [apply Z.mod_pos_bound; reflexivity|lia]|].
  split; [reflexivity|]. eexists. split; [reflexivity|]. intros -> _. reflexivity.
Qed.

Lemma read_simulated i b off size : ring_ok i -> simulated i b (IRead off size).
Proof.
  intros Hi. destruct (word_access off size) eqn:Ew.
  2:{ eapply same_simulated; [unfold input_do, input_read; rewrite Ew; reflexivity|unfold queue_do; rewrite Ew; reflexivity|exact Hi|reflexivity]. }
  destruct (Z.eqb_spec off EMU_INPUT_EVENT) as [->|Hn].
  { apply andb_prop in Ew as [E%Z.eqb_eq _]. subst size. apply event_simulated, Hi. }
  apply Z.eqb_neq in Hn. pose proof (waiting_length i Hi) as Hl. destruct (Z.eqb_spec off EMU_INPUT_LOST) as [->|H1].
  { unfold simulated, input_do, queue_do, input_read. rewrite Ew. cbn. split_and!; [reflexivity|exact Hi|reflexivity|]. eexists. split; [reflexivity|]. intros -> _. reflexivity. }
  apply Z.eqb_neq in H1.
  eapply same_simulated; [unfold input_do, input_read|unfold queue_do|exact Hi|]; rewrite ?Ew, ?Hn, ?H1; cbn [negb q_events queue_of reads_buttons q_x q_y q_buttons].
  - instantiate (1 := Some (fst (fst (input_read i off size)), snd (fst (input_read i off size)))). unfold input_read. rewrite Ew, Hn, H1. cbn [negb].
    destruct (off =? EMU_INPUT_ID), (off =? EMU_INPUT_VERSION), (off =? EMU_INPUT_PENDING), (off =? EMU_INPUT_ABS_X), (off =? EMU_INPUT_ABS_Y), (off =? EMU_INPUT_BUTTONS); reflexivity.
  - instantiate (1 := fst (queue_do (in_id i) (queue_of i b) (IRead off size))). unfold queue_do. rewrite Ew, Hn, H1. cbn [negb q_events queue_of q_x q_y q_buttons].
    destruct (off =? EMU_INPUT_ID), (off =? EMU_INPUT_VERSION), (off =? EMU_INPUT_PENDING), (off =? EMU_INPUT_ABS_X), (off =? EMU_INPUT_ABS_Y), (off =? EMU_INPUT_BUTTONS); reflexivity.
  - unfold input_read, queue_do. rewrite Ew, Hn, H1. cbn [negb q_events queue_of q_x q_y q_buttons fst snd]. rewrite Hl. intros HB.
    destruct (Z.eqb_spec off EMU_INPUT_ID) as [->|]; [reflexivity|]. destruct (Z.eqb_spec off EMU_INPUT_VERSION) as [->|]; [reflexivity|].
    destruct (Z.eqb_spec off EMU_INPUT_PENDING); [reflexivity|]. destruct (off =? EMU_INPUT_ABS_X), (off =? EMU_INPUT_ABS_Y); try reflexivity.
    destruct (off =? EMU_INPUT_BUTTONS); [|reflexivity]. destruct HB as [| ->]; [discriminate|reflexivity].
Qed.

Lemma input_simulates i b x : ring_ok i -> simulated i b x.
Proof.
  intros Hi. destruct x as [code value|u v|off size|off size val]; [apply post_simulated, Hi| |apply read_simulated, Hi|].
  - unfold simulated. cbn. split_and!; [reflexivity|exact Hi|reflexivity|]. eexists. split; [reflexivity|]. auto.
  - eapply same_simulated; [unfold input_do, input_write|reflexivity|exact Hi|reflexivity]. destruct (word_access off size); reflexivity.
Qed.

(** Answers that agree except where the summary of the buttons is read. *)
Definition agree_but_buttons (l : list input_op) (a a' : list (option (emu_fault * option Z))) : Prop :=
  Forall2 (fun x '(v, v') => reads_buttons x = true \/ v = v') l (List.combine a a') /\ List.length a = List.length a'.

Lemma answers_agree : forall l i b, ring_ok i ->
  agree_but_buttons l (answers input_do i l) (answers (queue_do (in_id i)) (queue_of i b) l) /\
  (b = in_buttons i -> buttons_kept (in_id i) (queue_of i b) l = true ->
   answers input_do i l = answers (queue_do (in_id i)) (queue_of i b) l).
Proof.
  induction l as [|x l IH]; intros i b Hi; [repeat constructor|]. pose proof (input_simulates i b x Hi) as S. unfold simulated in S. cbn [answers buttons_kept].
  destruct (input_do i x) as [a i1], (queue_do (in_id i) (queue_of i b) x) as [a' q1]. destruct S as (H1 & H2 & H3 & b1 & -> & H4).
  rewrite <- H3. destruct (IH i1 b1 H2) as [[K1 K2] K3]. split.
  - split; cbn [List.combine List.length]; [|congruence]. constructor; [|exact K1]. destruct (reads_buttons x); auto.
  - intros Hb Hk. apply andb_prop in Hk as [Hd Hk]. apply negb_true_iff in Hd. rewrite (H1 (or_intror Hb)). f_equal. apply K3; auto.
Qed.

(** [C5] Input is a bounded queue.  From a fresh device, whatever the ring's
    memory held, whatever the platform posts and the guest reads and writes,
    every access but a read of the BUTTONS summary is answered as by a queue of
    at most as many events as the ring has: each event is read once, in the
    order it was posted; an event posted to a full queue is the one dropped,
    and counted; the count is read once.  BUTTONS, which is documented as state
    and not an event, is answered as the state of the buttons as long as no
    button is pressed or released while the queue is full. *)
Theorem input_is_queue (ring : Z -> Z) (id : Z) (l : list input_op) :
  let code := answers input_do (emu_input_init ring id) l in
  let reference := answers (queue_do id) (Events [] 0 0 0 0) l in
  agree_but_buttons l code reference /\ (buttons_kept id (Events [] 0 0 0 0) l = true -> code = reference).
Proof.
  assert (H : ring_ok (emu_input_init ring id)) by (split; cbn; unfold EMU_INPUT_RING; lia).
  destruct (answers_agree l (emu_input_init ring id) 0 H) as [H1 H2]. split; [exact H1|exact (H2 eq_refl)].
Qed.

(** ** The frame stays inside the pixels *)

Inductive fb_op := FRead (off size : Z) | FWrite (off size val : Z).
Definition fb_do (b : emu_fb) (x : fb_op) : list emu_fb_frame * emu_fb :=
  match x with FRead _ _ => ([], b) | FWrite off size val => let '(f, b, l) := fb_write b off size val in (l, b) end.
Fixpoint fb_session (b : emu_fb) (l : list fb_op) : list emu_fb_frame * emu_fb :=
  match l with [] => ([], b) | x :: l => let '(a, b) := fb_do b x in let '(c, b) := fb_session b l in (a ++ c, b) end.

(** Every pixel of the frame lies in the buffer, in its own row. *)
Definition frame_inside (bytes : Z) (f : emu_fb_frame) : Prop :=
  forall x y, 0 <= x < fr_width f -> 0 <= y < fr_height f ->
    let bpp := emu_fb_bpp (fr_format f) in
    0 < bpp /\ 0 <= y * fr_stride f + x * bpp /\ y * fr_stride f + x * bpp + bpp <= bytes /\ x * bpp + bpp <= fr_stride f.

Record fb_ok (b : emu_fb) : Prop := {
  fk_bpp : 0 < emu_fb_bpp (fb_format b); fk_row : fb_width b * emu_fb_bpp (fb_format b) <= fb_stride b;
  fk_fits : fb_stride b * fb_height b <= fb_bytes b; fk_index : 0 <= fb_mode_index b < EMU_FB_MODE_TOTAL;
  fk_palette : forall i, 0 <= i < EMU_FB_PALETTE_ENTRIES -> 0 <= fb_palette b i < 2 ^ 24
}.

Lemma frame_of_ok b : fb_ok b -> frame_inside (fb_bytes b) (FbFrame (fb_width b) (fb_height b) (fb_stride b) (fb_format b) (fb_palette b)).
Proof.
  intros [Hb Hr Hf _ _] x y Hx Hy. cbn [fr_width fr_height fr_stride fr_format] in *. cbv zeta. set (bpp := emu_fb_bpp (fb_format b)) in *.
  assert (x * bpp + bpp <= fb_stride b) by nia. assert (0 <= fb_stride b) by nia. split_and!; nia.
Qed.

(** Every mode on offer has a format, a natural stride that does not wrap, and rows as wide. *)
Lemma k_modes_ok : forallb (fun m => (0 <? emu_fb_bpp (fm_format m)) && (fm_width m *! emu_fb_bpp (fm_format m) =? fm_width m * emu_fb_bpp (fm_format m))) k_modes = true.
Proof. reflexivity. Qed.

Lemma set_mode_ok b number : fb_ok b -> fb_ok (snd (fb_set_mode b number)) /\ fb_bytes (snd (fb_set_mode b number)) = fb_bytes b /\
  (fst (fb_set_mode b number) = false -> snd (fb_set_mode b number) = b).
Proof.
  intros H. unfold fb_set_mode. destruct (List.find _ k_modes) as [m|] eqn:E; [|split_and!; auto].
  apply List.find_some in E as [Hm _]. pose proof (proj1 (forallb_forall _ _) k_modes_ok m Hm) as [H1%Z.ltb_lt H2%Z.eqb_eq]%andb_prop.
  destruct (fb_bytes b <? _) eqn:Ef; [split_and!; auto|]. apply Z.ltb_ge in Ef. split_and!; [|reflexivity|discriminate].
  destruct H. split; cbn; [exact H1|rewrite H2; lia|exact Ef|assumption|assumption].
Qed.

Lemma palette_bits v : 0 <= v &! 16777215 < 2 ^ 24.
Proof. change 16777215 with (Z.ones 24). rewrite Z.land_ones by lia. apply Z.mod_pos_bound. lia. Qed.

Lemma fb_write_ok b off size val : fb_ok b -> is_u32 val ->
  let '(_, b', l) := fb_write b off size val in fb_ok b' /\ fb_bytes b' = fb_bytes b /\ Forall (frame_inside (fb_bytes b)) l.
Proof.
  intros H Hv. unfold fb_write. destruct (word_access off size); cbn [negb]; [|auto]. destruct (in_palette off).
  { split_and!; [|reflexivity|constructor]. destruct H. split; try assumption. intros i Hi. cbn. unfold upd. destruct (i =? _); [apply palette_bits|auto]. }
  destruct (off =? EMU_FB_FLUSH).
  { cbv zeta. split_and!; [destruct H; split; assumption|reflexivity|]. change (fb_present (b <| fb_frames := u64 (fb_frames b + 1) |>)) with (fb_present b).
    destruct (fb_present b); [|constructor]. constructor; [|constructor]. exact (frame_of_ok b H). }
  destruct (off =? EMU_FB_MODE_INDEX).
  { split_and!; [|reflexivity|constructor]. destruct H. split; try assumption. cbn. destruct (val <? EMU_FB_MODE_TOTAL) eqn:E; [apply Z.ltb_lt in E|];
      unfold is_u32, EMU_FB_MODE_TOTAL in *; cbn in *; lia. }
  destruct (off =? EMU_FB_MODE_SET); [|auto]. destruct (set_mode_ok b val H) as (H1 & H2 & _). destruct (fb_set_mode b val) as [ok b1]. cbn [fst snd] in *.
  split_and!; [|exact H2|constructor]. destruct H1. split; assumption.
Qed.

Definition fb_op_ok (x : fb_op) : Prop := match x with FRead _ _ => True | FWrite _ _ val => is_u32 val end.

Lemma fb_session_ok : forall l b, fb_ok b -> Forall fb_op_ok l -> let '(f, b') := fb_session b l in fb_ok b' /\ fb_bytes b' = fb_bytes b /\ Forall (frame_inside (fb_bytes b)) f.
Proof.
  induction l as [|x l IH]; intros b Hb Hl; [cbn; auto|]. inversion Hl as [|? ? Hx Hl']; subst. cbn [fb_session].
  assert (H1 : let '(a, b1) := fb_do b x in fb_ok b1 /\ fb_bytes b1 = fb_bytes b /\ Forall (frame_inside (fb_bytes b)) a).
  { destruct x as [off size|off size val]; cbn [fb_do]; [auto|]. pose proof (fb_write_ok b off size val Hb Hx) as H.
    destruct (fb_write b off size val) as [[f b1] a]. exact H. }
  destruct (fb_do b x) as [a b1]. destruct H1 as (H1 & H2 & H3). pose proof (IH b1 H1 Hl') as H. destruct (fb_session b1 l) as [c b2].
  destruct H as (H4 & H5 & H6). rewrite H2 in *. split_and!; [exact H4|exact H5|apply Forall_app; auto].
Qed.

Lemma ramp_entry i : 0 <= i < EMU_FB_PALETTE_ENTRIES -> 0 <= Z.shiftl i 16 |! Z.shiftl i 8 |! i < 2 ^ 24.
Proof.
  intros [H1 H2]. unfold EMU_FB_PALETTE_ENTRIES in H2. rewrite !Z.shiftl_mul_pow2 by lia. split; [rewrite !Z.lor_nonneg; lia|].
  destruct (Z.eq_dec i 0) as [->|Hi]; [reflexivity|]. apply Z.log2_lt_pow2.
  { assert (0 <= (i * 2 ^ 16 |! i * 2 ^ 8) |! i) by (rewrite !Z.lor_nonneg; lia). enough ((i * 2 ^ 16 |! i * 2 ^ 8) |! i <> 0) by lia. rewrite !Z.lor_eq_0_iff. lia. }
  rewrite !Z.log2_lor by (rewrite ?Z.lor_nonneg; lia). rewrite !Z.log2_mul_pow2 by lia. assert (Z.log2 i < 8) by (apply Z.log2_lt_pow2; lia). lia.
Qed.

Lemma fb_init_ok width height format stride pixels base bytes present b : 0 <= width -> 0 <= height -> width * emu_fb_bpp format < 2 ^ 32 ->
  emu_fb_init width height format stride pixels base bytes present = Some b -> fb_ok b /\ fb_bytes b = bytes.
Proof.
  intros Hw Hh Hn. assert (Hb : 0 <= emu_fb_bpp format) by (unfold emu_fb_bpp; repeat case_match; lia). unfold emu_fb_init.
  assert (E : width *! emu_fb_bpp format = width * emu_fb_bpp format) by (apply Z.mod_small; nia). rewrite E.
  destruct (emu_fb_bpp format =? 0) eqn:E0; [discriminate|]. apply Z.eqb_neq in E0. destruct (_ || _); [discriminate|].
  destruct (negb (stride =? 0) && _) eqn:Es; [discriminate|]. destruct (bytes <? _) eqn:Ef; [discriminate|]. apply Z.ltb_ge in Ef. intros [= <-].
  split; [|reflexivity]. split; cbn; [lia| |exact Ef|unfold EMU_FB_MODE_TOTAL; cbn; lia|exact ramp_entry].
  destruct (stride =? 0); [lia|]. apply Z.ltb_ge in Es. exact Es.
Qed.

(** [C25] The frame stays inside the pixels.  From a frame buffer [emu_fb_init] accepts, at a width whose row fits a word, whatever the guest reads and writes -- modes,
    known or not, that fit or not, the palette, the index of the mode table --
    every frame handed to the platform has each of its pixels inside the buffer and inside its row, the mode table is read only where it has an entry, the palette holds
    colours, and the size of the buffer stays as the platform gave it. *)
Theorem frames_inside width height format stride pixels base bytes present b l :
  0 <= width -> 0 <= height -> width * emu_fb_bpp format < 2 ^ 32 -> Forall fb_op_ok l ->
  emu_fb_init width height format stride pixels base bytes present = Some b ->
  let '(frames, b') := fb_session b l in
  Forall (frame_inside bytes) frames /\ fb_bytes b' = bytes /\ 0 <= fb_mode_index b' < EMU_FB_MODE_TOTAL /\
  (forall i, 0 <= i < EMU_FB_PALETTE_ENTRIES -> 0 <= fb_palette b' i < 2 ^ 24).
Proof.
  intros Hw Hh Hn Hl E. destruct (fb_init_ok _ _ _ _ _ _ _ _ _ Hw Hh Hn E) as [Hb <-]. pose proof (fb_session_ok l b Hb Hl) as H.
  destruct (fb_session b l) as [f b']. destruct H as ([] & H1 & H2). auto.
Qed.

(** Doom's mode, then a mode that fits and one that does not, each followed by a frame. *)
Definition fb_demo : list fb_op := [FWrite 32 4 1; FWrite 64 4 257; FWrite 32 4 1; FWrite 64 4 280; FWrite 32 4 1; FWrite 44 4 100].

Lemma frames_inside_witness :
  exists b, emu_fb_init 320 200 0 0 true 0 307200 true = Some b /\
    map (fun f => (fr_width f, fr_height f, fr_stride f)) (fst (fb_session b fb_demo)) = [(320, 200, 320); (640, 480, 640); (640, 480, 640)] /\
    Forall (frame_inside 307200) (fst (fb_session b fb_demo)) /\ fb_mode_index (snd (fb_session b fb_demo)) = 7.
Proof.
  eexists. split; [reflexivity|]. split; [vm_compute; reflexivity|].
  pose proof (frames_inside 320 200 0 0 true 0 307200 true _ fb_demo ltac:(lia) ltac:(lia) ltac:(reflexivity)
    ltac:(repeat constructor; unfold is_u32; lia) eq_refl) as H.
  destruct (fb_session _ fb_demo) as [f b'] eqn:E. split; [exact (proj1 H)|]. cbn [snd]. apply (f_equal snd) in E. cbn [snd] in E. rewrite <- E. vm_compute. reflexivity.
Defined.

(** A width whose row wraps is taken with a stride of four bytes. *)
Example fb_width_wraps : match emu_fb_init 1073741825 1 1 0 true 0 4 true with Some b => fb_stride b | None => 0 end = 4.
Proof. reflexivity. Qed.

(** A mouse: a press, its event, the summary, a release, the summary. *)
Definition mouse_demo : list input_op := [IPost 272 1; IRead 12 4; IRead 28 4; IPost 272 0; IRead 28 4; IRead 16 4].

Lemma input_is_queue_witness :
  buttons_kept 1296584265 (Events [] 0 0 0 0) mouse_demo = true /\
  answers input_do (emu_input_init (fun _ => 7) 1296584265) mouse_demo = answers (queue_do 1296584265) (Events [] 0 0 0 0) mouse_demo.
Proof.
  split; [reflexivity|]. apply (input_is_queue (fun _ => 7) 1296584265 mouse_demo). reflexivity.
Defined.

(** The button of a release that found the ring full stays down, and the guest that drains the ring sees no release. *)
Example button_stuck : let full := fold_left (fun i _ => emu_input_post i 30 1) (seq 0 63) (emu_input_post (emu_input_init (fun _ => 0) 1296584265) 272 1) in
  in_buttons (emu_input_post full 272 0) = 1 /\ in_lost (emu_input_post full 272 0) = 1.
Proof. vm_compute. split; reflexivity. Qed.

(** ** Idle systems *)

Lemma slice_live {W} (o : emu_cpu_ops W) w i quantum : let '(did, live, w') := emu_core_slice o w i quantum in
  live = emu_core_runnable o w i /\ (live = false -> did = 0 /\ w' = w).
Proof.
  unfold emu_core_slice, emu_core_runnable. destruct (co_status o w i) as [state wakeable].
  destruct (state =? EMU_STATE_HALTED); [auto|]. destruct (state =? EMU_STATE_HELD); [auto|]. destruct ((state =? EMU_STATE_WFI) && negb wakeable); [auto|].
  destruct (co_run o w i quantum). split; [reflexivity|discriminate].
Qed.

Lemma step_idle {W} (o : emu_cpu_ops W) quantum : forall l total w,
  let '(total', idle, w') := fold_left (fun '(total, idle, w) i => let '(did, live, w) := emu_core_slice o w i quantum in (total +! did, idle && negb live, w)) l (total, true, w) in
  (idle = true <-> Forall (fun i => emu_core_runnable o w i = false) l) /\ (is_u32 total -> idle = true -> total' = total /\ w' = w).
Proof.
  assert (Hf : forall l total w, snd (fst (fold_left (fun '(total, idle, w) i => let '(did, live, w) := emu_core_slice o w i quantum in (total +! did, idle && negb live, w)) l (total, false, w))) = false).
  { induction l as [|i l IH]; intros total w; [reflexivity|]. cbn [fold_left]. destruct (emu_core_slice o w i quantum) as [[did live] w1]. apply IH. }
  induction l as [|i l IH]; intros total w; [cbn; split; [split; auto|auto]|]. cbn [fold_left]. pose proof (slice_live o w i quantum) as Hs.
  destruct (emu_core_slice o w i quantum) as [[did live] w1]. destruct Hs as [-> Hs]. destruct (emu_core_runnable o w i) eqn:Er; cbn [negb andb].
  - specialize (Hf l (total +! did) w1). destruct (fold_left _ l _) as [[t idle] w2]. cbn in Hf. subst idle. split; [|discriminate].
    split; [discriminate|]. intros H. inversion H; congruence.
  - destruct (Hs eq_refl) as [-> ->]. specialize (IH (total +! 0) w). destruct (fold_left _ l _) as [[t idle] w2]. destruct IH as [H1 H2]. split.
    + rewrite H1. split; intros H; [constructor; assumption|inversion H; assumption].
    + intros Ht Hi. rewrite Z.add_0_r in H2. rewrite (u32_id total Ht) in H2. auto.
Qed.

(** A round says it is idle exactly when no core could run when it began,
    and then it did nothing: the caller that stops there misses nothing. *)
Theorem idle_round {W} (o : emu_cpu_ops W) w ncores quantum : let '(total, idle, w') := emu_system_step o w ncores quantum in
  (idle = true <-> Forall (fun i => emu_core_runnable o w i = false) (cores ncores)) /\ (idle = true -> total = 0 /\ w' = w).
Proof.
  unfold emu_system_step. pose proof (step_idle o quantum (cores ncores) 0 w) as H. destruct (fold_left _ _ _) as [[t idle] w']. destruct H as [H1 H2].
  split; [exact H1|]. apply H2. split; reflexivity || discriminate.
Qed.

(** Three bytes arrive; the guest enables the receive interrupt, is polled, looks, takes one, writes one, and is polled again. *)
Example uart_demo :
  let io := UartIo (Some (fun (p : list Z) _ => p)) (Some (fun p => match p with c :: p => (c, p) | [] => (-1, []) end)) (fun p _ => p) in
  let '(taken, u, (p, t)) := uart_session (tapped io) [UWrite 1 1 1; UPoll; URead 5 1; URead 0 1; UWrite 0 1 65; UPoll; URead 0 1; URead 0 1; UPoll]
    (emu_uart_set_irq emu_uart_init true) ([104; 0; 105], Tape [] [] []) in
  taken = [104; 0; 105] /\ t_out t = [65] /\ t_line t = [1; 0] /\ u_line u = false.
Proof. vm_compute. repeat split; reflexivity. Qed.

(** ** A machine that is idle stays so *)

(** [rv32_status], of which the scheduler reads the state and whether anything could wake the hart. *)
Definition rv32_status (h : rv_hart) : Z * bool := (h_state h, negb (h_mie h =? 0)).

Section Idle.
Context {Rest : Type} (on_eoi : Z -> Rest -> Rest).
Context `{Cfg : RvConfig} {SF : SoftFloat}.
Variable pt_read : soc Rest -> Z -> Z -> Z * soc Rest.
Variable pt_write : soc Rest -> Z -> Z -> Z -> soc Rest.
Variable hook : option (Z -> list Z -> rv_hart -> mach Rest -> bool * Z * rv_hart * mach Rest).
#[local] Abbreviation pf := (soc_platform hook).

(** Host calls, one after the other. *)
Definition host_calls (l : list host_op) (w : rv_hart * mach Rest) : rv_hart * mach Rest :=
  fold_left (fun '(h, m) x => host_call on_eoi pf x h m) l w.

(** Harts that differ in their lines alone. *)
Definition but_lines (h h' : rv_hart) : Prop := h' = h <| h_mip := h_mip h' |> <| h_irq_dirty := h_irq_dirty h' |>.

Lemma but_lines_refl h : but_lines h h.
Proof. destruct h; reflexivity. Qed.

Lemma but_lines_set h h' cause level : but_lines h h' -> but_lines h (rv_hart_set_irq h' cause level).
Proof. unfold but_lines, rv_hart_set_irq. intros ->. destruct level, h; reflexivity. Qed.

Lemma but_lines_lines h : forall l h', but_lines h h' -> but_lines h (set_lines h' l).
Proof. unfold set_lines. induction l as [|[c b] l IH]; intros h' H; [exact H|]. cbn [fold_left]. apply IH, but_lines_set, H. Qed.

Lemma host_calls_lines h : forall l h' m, but_lines h h' -> but_lines h (fst (host_calls l (h', m))).
Proof.
  induction l as [|x l IH]; intros h' m H; [exact H|]. cbn [host_calls fold_left]. destruct (host_call on_eoi pf x h' m) as [h1 m1] eqn:E.
  apply IH. unfold host_call, deliver in E. destruct (pf_lines pf _) as [lines m2]. injection E as <- _. apply but_lines_lines, H.
Qed.

Lemma status_lines h h' : but_lines h h' -> rv32_status h' = rv32_status h.
Proof. intros ->. destruct h; reflexivity. Qed.

Lemma zero_x0_id h : h_x h 0 = 0 -> zero_x0 h = h.
Proof.
  intros H. unfold zero_x0. replace (upd (h_x h) 0 0) with (h_x h); [destruct h; reflexivity|]. apply functional_extensionality. intros i. unfold upd.
  destruct (Z.eqb_spec i 0) as [->|]; [exact H|reflexivity].
Qed.

(** A hart the scheduler would not run would not move if it were. *)
Lemma stuck_run h (m : mach Rest) budget : fst (rv32_status h) <> EMU_STATE_RUNNING -> (fst (rv32_status h) = EMU_STATE_WFI -> snd (rv32_status h) = false) ->
  h_x h 0 = 0 -> is_u32 (h_insn_retired_lo h) -> 0 < budget ->
  exists why, rv32_run pt_read pt_write pf h m budget = (why, 0, h, m) /\ why <> EMU_RUN_BUDGET.
Proof.
  unfold rv32_status. cbn [fst snd]. intros Hs Hw Hx Hr Hb. unfold rv32_run, interp_run. destruct (Z.eqb_spec (h_state h) EMU_STATE_WFI) as [E|E].
  - specialize (Hw E). apply negb_false_iff, Z.eqb_eq in Hw. unfold rv_hart_wfi_wake. rewrite Hw, Z.land_0_r. cbn [Z.eqb negb andb].
    eexists. split; [reflexivity|discriminate].
  - cbn [andb]. replace (Z.to_nat budget) with (S (Z.to_nat (budget - 1))) by lia. cbn [run_loop]. unfold iteration.
    rewrite zero_x0_id by exact Hx. rewrite (proj2 (Z.eqb_neq _ _) Hs). cbn [negb].
    replace (h <| h_pc := h_pc h |> <| h_insn_retired_lo := h_insn_retired_lo h +! 0 |>) with h
      by (rewrite Z.add_0_r, u32_id by exact Hr; destruct h; reflexivity).
    destruct (h_state h =? EMU_STATE_HALTED); (eexists; split; [reflexivity|discriminate]).
Qed.

Lemma not_runnable {W} (o : emu_cpu_ops W) w i : emu_core_runnable o w i = false ->
  fst (co_status o w i) <> EMU_STATE_RUNNING /\ (fst (co_status o w i) = EMU_STATE_WFI -> snd (co_status o w i) = false).
Proof.
  unfold emu_core_runnable. destruct (co_status o w i) as [state wakeable]. cbn [fst snd]. intros H. split.
  - intros ->. discriminate.
  - intros ->. destruct wakeable; [discriminate|reflexivity].
Qed.

Lemma runnable_ext {W} (o : emu_cpu_ops W) w w' i : co_status o w' i = co_status o w i -> emu_core_runnable o w' i = emu_core_runnable o w i.
Proof. unfold emu_core_runnable. intros ->. reflexivity. Qed.

Lemma one_idle {W} (o : emu_cpu_ops W) w quantum : emu_core_runnable o w 0 = false -> emu_system_step o w 1 quantum = (0, true, w).
Proof.
  intros H. unfold emu_system_step. change (cores 1) with [0]. cbn [fold_left]. pose proof (slice_live o w 0 quantum) as Hs.
  destruct (emu_core_slice o w 0 quantum) as [[did live] w1]. destruct Hs as [-> Hs]. rewrite H in *. destruct (Hs eq_refl) as [-> ->]. reflexivity.
Qed.

(** One idle core. *)
Lemma idle_one {W} (o : emu_cpu_ops W) w quantum : snd (fst (emu_system_step o w 1 quantum)) = true <-> emu_core_runnable o w 0 = false.
Proof.
  pose proof (step_idle o quantum (cores 1) 0 w) as H. unfold emu_system_step. destruct (fold_left _ _ _) as [[t idle] w']. cbn [fst snd]. rewrite (proj1 H).
  change (cores 1) with [0]. split; [intros F; inversion F; assumption|auto].
Qed.
End Idle.

(** [C19] A machine that is idle stays so.  When a round over an RV32 hart reports that every core is idle -- halted, held, or waiting with no interrupt enabled -- then whatever the
    platform does afterwards, raising sources, moving the clock, unmasking, the hart keeps all but its interrupt lines, every further round is idle, retires nothing and changes
    nothing; and it could not have been otherwise: run in spite of it, with any budget, the hart retires nothing, changes nothing and says that it waits or has halted.  The
    caller that ends a run on this report cuts nothing short. *)
Theorem idle_for_good {Rest} (on_eoi : Z -> Rest -> Rest) `{Cfg : RvConfig} {SF : SoftFloat} pt_read pt_write hook
    (o : emu_cpu_ops (rv_hart * mach Rest)) (h : rv_hart) (m : mach Rest) (l : list host_op) (quantum budget : Z) :
  (forall w, co_status o w 0 = rv32_status (fst w)) -> h_x h 0 = 0 -> is_u32 (h_insn_retired_lo h) -> 0 < budget ->
  snd (fst (emu_system_step o (h, m) 1 quantum)) = true ->
  let '(h', m') := host_calls on_eoi hook l (h, m) in
  but_lines h h' /\ emu_system_step o (h', m') 1 quantum = (0, true, (h', m')) /\
  exists why, rv32_run pt_read pt_write (soc_platform hook) h' m' budget = (why, 0, h', m') /\ why <> EMU_RUN_BUDGET.
Proof.
  intros Ho Hx Hr Hb Hi. pose proof (host_calls_lines on_eoi hook h l h m (but_lines_refl h)) as Hl.
  destruct (host_calls on_eoi hook l (h, m)) as [h' m']. cbn [fst] in Hl. apply idle_one in Hi. pose proof (status_lines h h' Hl) as Hst.
  rewrite (runnable_ext o (h', m') (h, m)) in Hi by (rewrite !Ho; symmetry; exact Hst).
  split; [exact Hl|]. split; [apply one_idle, Hi|]. apply not_runnable in Hi. rewrite Ho in Hi. cbn [fst] in Hi. destruct Hi as [H1 H2].
  assert (Hx' : h_x h' 0 = 0) by (rewrite Hl; exact Hx). assert (Hr' : is_u32 (h_insn_retired_lo h')) by (rewrite Hl; exact Hr).
  exact (stuck_run pt_read pt_write hook h' m' budget H1 H2 Hx' Hr' Hb).
Qed.

(** A booted hart that has executed WFI with no interrupt enabled. *)
#[local] Existing Instance no_float.
Definition parked : rv_hart := (fst booted) <| h_state := EMU_STATE_WFI |>.
Definition parked_ops : emu_cpu_ops (rv_hart * mach unit) := CpuOps _ "rv32" 243 0 1 (fun i => i =? 0) (fun w _ => w)
  (fun w _ pc => (rv32_reset (fst w) pc, snd w)) (fun w _ => w)
  (fun w _ n => let '(_, k, h, m) := rv32_run (pt_read no_read) (pt_write no_write) (soc_platform None) (fst w) (snd w) n in (k, (h, m)))
  None None None (fun w _ => rv32_status (fst w)).

Lemma idle_for_good_witness :
  let '(h', m') := host_calls no_eoi None [OpTime 5; OpIrq 3 true; OpAdvance 10] (parked, snd booted) in
  emu_system_step parked_ops (h', m') 1 100 = (0, true, (h', m')) /\ ck_mtime (soc_clint (m_ext m')) = 15.
Proof.
  pose proof (idle_for_good no_eoi (pt_read no_read) (pt_write no_write) None parked_ops parked (snd booted) [OpTime 5; OpIrq 3 true; OpAdvance 10] 100 1
    ltac:(reflexivity) ltac:(vm_compute; reflexivity) ltac:(vm_compute; split; [discriminate|reflexivity]) ltac:(lia) ltac:(vm_compute; reflexivity)) as H.
  assert (Et : ck_mtime (soc_clint (m_ext (snd (host_calls no_eoi None [OpTime 5; OpIrq 3 true; OpAdvance 10] (parked, snd booted))))) = 15) by (vm_compute; reflexivity).
  destruct (host_calls _ _ _ _) as [h' m']. split; [exact (proj1 (proj2 H))|exact Et].
Defined.
